(* ===== verification/_CoqProject ===== *)
-Q . S2P
Prelude.v
Text.v
HostProtocol.v
HostRpc.v
Framing.v
FrameReader.v
UploadNames.v
Uploads.v
UploadStream.v
GitDiff.v
Downloads.v
WorkspaceScan.v
Terminal.v
Qr.v
PrivateFile.v
Drift.v
Devices.v
RateWindow.v
Admission.v
PathWatch.v
Pairing.v
PairingProtocol.v
Handshake.v
Shed.v
ShedSnapshot.v
Protocol.v
ReleaseMeta.v
Wire.v
Fit.v
Reducer.v
Metadata.v
Reconcile.v
Session.v
History.v
Bridge.v
Replay.v
Timeline.v
Registration.v
Whereabouts.v
Peers.v
LiveActivity.v
Supervisor.v
Commands.v
Queries.v
Output.v
Providers.v
ProvidersSpec.v
HookCommon.v
AgentAdapter.v
ClaudeHook.v
ClaudeHistory.v
HookSpec.v
ClaudeHookSpec.v
ClaudeHistorySpec.v
ClaudeMapperSpec.v
ClaudeStreamSpec.v
CodexHook.v
CodexHookSpec.v
CodexHistory.v
CodexHistorySpec.v
ClaudeTranscript.v
Managed.v
ManagedStore.v
ManagedRuns.v
ManagedSpec.v
ManagedRows.v
Notify.v
Routes.v
Samples.v
Witnesses.v
HostWitnesses.v
PairingSamples.v
PairingWitnesses.v
PeerWitnesses.v
NotifyWitnesses.v
TransferWitnesses.v
ManagedWitnesses.v
ProviderWitnesses.v
HookWitnesses.v
CodexWitnesses.v
