(* ===== verification/Prelude.v ===== *)
(** * The Ciao host

    Ciao lets a phone follow and steer coding agents and terminals that run on a computer. The host is the
    daemon on that computer ([src/crates/ciao-host]). This library models the daemon's own logic as Rocq
    functions translated from its Rust source, and proves what makes it correct. Each file names the source
    file it models at its top; definitions keep the source's names, with [Type_method] for [Type::method].

    ** The program and the files that model it

    - Phones are paired by a QR code. [Qr] is the code ([qr.rs]); [Pairing] the offers, their claims and the
      rate limit on attempts ([pairing.rs]); [PairingProtocol] the pairing stream ([protocol.rs]);
      [Handshake] the daemon's side of it with its tasks interleaved at their locks ([daemon.rs]);
      [PrivateFile] and [Devices] the allowlist and the private file behind it ([storage.rs]).
    - Connections are admitted, superseded and watched: [Admission] and [PathWatch] ([daemon.rs]).
    - Hosts introduce other hosts as peers, which may start sessions under a grant: [Peers] ([peers.rs],
      [peer_daemon.rs]).
    - Every stream carries frames. [HostProtocol], [HostRpc], [Framing] and [Terminal] model
      [host_protocol.rs]; [Shed] and [ShedSnapshot] its responses made to fit; [Wire] and [Fit] the agent
      protocol's frames ([agent_protocol.rs]); [FrameReader] the reader that uploads and downloads share.
    - Agent sessions are described by snapshots and deltas. [Protocol] has the types with their validation,
      [Reducer] how a delta advances a snapshot ([agent_protocol.rs]).
    - The supervisor ([agent_session.rs]) holds the live sessions. [Metadata] is its durable store; [Session]
      one session and its bound; [Timeline], [Reconcile] and [History] what adapters do to its timeline;
      [Bridge] what a bridge reports, and [Replay] what a subscriber makes of that; [Registration] how a
      session starts; [Supervisor], [Commands], [Queries] and [Routes] the table of sessions, the commands
      given to them, what is answered about them and the terminal routes that lead to them.
    - Phones are told: [LiveActivity] the overview of all sessions ([live_activity.rs]), [Notify] alerts and
      lock screen updates ([notify.rs]), [RateWindow] the sliding windows behind both rate limits.
    - Files move: [UploadNames], [Uploads] and [UploadStream] from the phone to the host ([uploads.rs]);
      [GitDiff] and [Downloads] patches and previews from the host to the phone ([git_diff.rs],
      [downloads.rs]).
    - Agents that the host runs itself are managed sessions ([managed_session.rs]): [Managed] is the store and
      every operation on it, [ManagedStore] what each leaves of the store, [ManagedRuns] the operations
      interleaved, [ManagedSpec] the life of a session as an abstract machine, [ManagedRows] the workspaces
      offered; [WorkspaceScan] finds the checkouts they may start in ([workspace_scan.rs]).
    - Terminals live in tmux and herdr ([workspace.rs]): [Output] is what programs print, text and JSON;
      [Providers] runs the two, reads their listings and makes the snapshot; [ProvidersSpec] proves it.
    - Attached agents report through hooks. [HookCommon] is what every vendor's hook shares ([hook_common.rs]),
      [AgentAdapter] the frames and registrations an adapter reads ([agent_adapter.rs]), [ClaudeHook] Claude's
      hooks on both sides ([claude_hook.rs], [claude_adapter.rs]), [ClaudeHistory] its transcript mapped to a
      timeline ([claude_history.rs]), [ClaudeTranscript] what its tail answers ([claude_transcript.rs]);
      [CodexHook] Codex's hooks on both sides with the roles of its processes ([codex_hook.rs],
      [codex_adapter.rs]), [CodexHistory] its threads mapped to a timeline ([codex_history.rs]). [HookSpec] is
      about what they share; [ClaudeHookSpec], [ClaudeHistorySpec], [ClaudeMapperSpec], [ClaudeStreamSpec],
      [CodexHookSpec] and [CodexHistorySpec] prove each.
    - Agents are told where their person is: [Whereabouts] ([whereabouts.rs]). What vendors send that is not
      recognized is tallied in [Drift] ([drift.rs]), and [ReleaseMeta] knows the release that fixes it
      ([release_meta.rs]).
    [Samples], [PairingSamples] and the files named [*Witnesses] hold concrete values at which the
    theorems' hypotheses are discharged, and the runs that exhibit what the code does wrong.

    ** How the code is modelled

    - Fallible code returns [result]; [?] is [r ?; k] and [let? x := r in k]. A method that takes [&mut self]
      returns the new state beside its answer, on every path, those that fail included.
    - Text is a byte string; characters are cut where UTF-8 cuts them ([Text]). Integers are [N] with the
      saturation, wrapping and bounds of the source written out; signed days are [Z].
    - Maps are [gmap]; vectors whose order or duplicates matter are lists. [HashMap] iteration order and
      the order of [read_dir] are parameters where the code depends on them.
    - A lock is held for one step. Concurrent tasks are interleaved at their awaits and between their locks: by
      step relations ([Handshake], [Admission], [Peers], [Notify], [ManagedRuns], the submissions of
      [Supervisor]), or by an arbitrary function for what others do meanwhile ([Routes], [UploadStream]).
    - An operation that waits between critical sections is a program ([Managed.prog]) whose sections and waits
      are its constructors, so that it can be run alone or interleaved with others, step by step; one that runs
      other programs ([Providers.prov]) has those calls as its constructors.
    - A stream is the list of its completed reads, cut anywhere; a wait that is cancelled or timed out is a
      list that ends. The peer of an upload ([UploadStream]) sends without end, and how much of it comes before
      each deadline is an argument; a reply it does not take stalls the exchange, as nothing limits that wait.
    - Writes to disk fail at a point that is an argument; the model says what is in memory and on disk then.
    - Code of other crates and services is a parameter: [serde_json], base64, SHA-256, X25519 and the sealing
      cipher, endpoint keys, relay answers, tmux, herdr and git. Where a proof needs something of it, that is
      a hypothesis or a class of laws (a round trip, say), and a witness gives a function that has it.
    - Clocks and random values are arguments.

    ** What is proved

    - Streams: any cutting of a stream into reads gives the same frames, nothing is lost to a cancelled wait,
      buffers stay bounded, and encoders and decoders are inverse ([Framing], [FrameReader], [Wire],
      [Terminal], [Fit], [Qr]).
    - Shedding and fitting: what is sent fits, is valid, and gives up as little as it must, in the order the
      code promises ([Fit], [Shed], [ShedSnapshot], [Notify]).
    - Snapshots: validity is an invariant of the reducer, and deltas may arrive in any order; a subscriber
      reducing a session's deltas holds the host's snapshot, as long as the reports are ones that
      [Replay.reports_ok] names ([Reducer], [Replay]); timelines keep their order, numbering and bounds
      under every operation ([Session], [Timeline], [Reconcile], [History]).
    - Commands are handed to the bridge of the session they were admitted to, only when current and permitted,
      and a retry that finds the receipt runs nothing ([Commands]); two submissions of one command that
      overlap may both be handed over ([Witnesses.duplicates_both_forwarded]). Identities move forward only
      ([Metadata]); routes lead to the one session that owns them ([Routes]).
    - Managed sessions: the store stays sound through any interleaving, restart and failed write; alone, each
      operation refines the machine and asks the outside for no more than it says; a command has one answer;
      a restart loses nothing ([ManagedRuns], [ManagedSpec]); what is offered to start in can be, as long as
      it is still at hand ([ManagedRows], [WorkspaceScan]).
    - Trust: a device enters by a live code and no other way, one code at a time, and a revoked device or peer
      stays out, restarts and failed writes included ([Handshake], [Pairing], [Devices], [Peers]).
    - Resources: connections, terminals, attempts, alerts, uploads and patches stay within their bounds
      ([Admission], [Pairing], [Notify], [Uploads], [UploadStream], [GitDiff]).
    - Deliveries: what is taken for delivered was; an older state follows a newer one only where a post was
      already past its check; what is published was verified, and every exchange ends with one answer, or waits
      for a peer that takes none ([Notify], [UploadStream], [Downloads]).
    - Agents believe of their person what the last prompt showed, except after a session that ended is resumed
      ([Whereabouts]); the drift ledger keeps its bounds ([Drift]).
    - Multiplexers: whatever they print, the snapshot is valid and bounded; tmux's listing reads back; only
      validated arguments are run ([ProvidersSpec]).
    - Attached agents: what a hook makes of a payload the daemon accepts ([ClaudeHookSpec], [CodexHookSpec]),
      previews are cut and never broken ([HookSpec]); a transcript is read in whole lines into rows that are
      valid, distinct and bounded ([ClaudeHistorySpec], [ClaudeMapperSpec]), the newest end of what mapping all
      of it would give ([ClaudeStreamSpec]), and its tail answers as all of it would ([ClaudeTranscript]);
      a thread has a row for every item ([CodexHistorySpec]); arguments name an app server exactly when its
      command does ([CodexHookSpec]).
    - Where the code does less than it means to, a closed theorem or a lemma exhibits it; the comments on these
      say so.

    ** Fuel

    Recursion is structural except for loops that consume a buffer, a budget or a count. These take fuel
    computed from that measure ([drain], an upload's declared size, the length of a name), and a lemma shows
    that more fuel changes nothing or that the loop ends within it; theorems are about the functions with
    that fuel built in.

    ** Not modelled

    Process control, sockets, the command line, service managers and installers; the adapters of adopted
    Codex threads and of Pi with their bridge process; finding the pane of a process; the
    processes of managed workers; cryptography; the broadcast loops that carry deltas to sockets, and the
    daemon's wiring of its tasks, their abortion included. Timeouts appear only as reads that do not come in
    time. Log output is left out. [SystemTime] before the epoch is not represented. *)
From stdpp Require Export base tactics numbers list strings gmap sorting.
From Stdlib Require Export NArith Ascii.
From Stdlib Require String.
From Stdlib Require Import Lia.

#[global] Arguments String.append : simpl nomatch.

(** ** Results *)

(** Rust's [Result<A, E>]. *)
Inductive result (E A : Type) : Type :=
| Ok (a : A)
| Err (e : E).
Arguments Ok {E A} a.
Arguments Err {E A} e.

#[export] Instance result_eq_dec {E A} `{EqDecision E, EqDecision A} : EqDecision (result E A).
Proof. solve_decision. Defined.

Definition rbind {E A B} (r : result E A) (f : A -> result E B) : result E B :=
  match r with Ok a => f a | Err e => Err e end.

Definition rmap {E A B} (f : A -> B) (r : result E A) : result E B :=
  match r with Ok a => Ok (f a) | Err e => Err e end.

Definition is_ok {E A} (r : result E A) : bool :=
  match r with Ok _ => true | Err _ => false end.

Definition is_err {E A} (r : result E A) : bool := negb (is_ok r).

(** [if bad { return Err(e) }]. *)
Definition refuse_if {E} (bad : bool) (e : E) : result E unit :=
  if bad then Err e else Ok tt.

(** [option.ok_or(e)]. *)
Definition ok_or {E A} (o : option A) (e : E) : result E A :=
  match o with Some a => Ok a | None => Err e end.

(** Bytes on a stream, each below 256. *)
Abbreviation bytes := (list N).

(** The two kinds of [io::Error] the readers tell apart. *)
Inductive io_error := UnexpectedEof | OtherIo.

#[export] Instance io_error_eq_dec : EqDecision io_error.
Proof. solve_decision. Defined.

(** One completed [read]: some bytes ([[]] is end of stream), or an error. *)
Inductive read_event := ReadBytes (chunk : bytes) | ReadErr (e : io_error).

(** Bytes a list of reads still has to deliver. *)
Definition event_bytes (e : read_event) : bytes :=
  match e with ReadBytes chunk => chunk | ReadErr _ => [] end.
Definition bytes_of (reads : list read_event) : bytes := mjoin (event_bytes <$> reads).
Definition stream_of (chunks : list bytes) : list read_event := ReadBytes <$> chunks.

Declare Scope ciao_scope.
Delimit Scope ciao_scope with ciao.
Notation "r ?; k" := (rbind r (fun _ => k))
  (at level 100, k at level 200, right associativity) : ciao_scope.
Notation "'let?' x := r 'in' k" := (rbind r (fun x => k))
  (at level 10, x pattern, r at level 100, k at level 200) : ciao_scope.
Infix "=s?" := String.eqb (at level 70, no associativity) : ciao_scope.
#[global] Open Scope ciao_scope.

(** [for item in items { check(item)?; }]. *)
Fixpoint each {E A} (check : A -> result E unit) (l : list A) : result E unit :=
  match l with
  | [] => Ok tt
  | x :: l' => check x ?; each check l'
  end.

(** [for item in items { check(item)?; if !seen.insert(key(item)) { bail!(duplicate) } }]. *)
Fixpoint each_distinct {E A} (check : A -> result E unit) (key : A -> string) (duplicate : E) (seen : list string)
    (l : list A) : result E unit :=
  match l with
  | [] => Ok tt
  | x :: l' =>
      check x ?;
      refuse_if (bool_decide (key x ∈ seen)) duplicate ?;
      each_distinct check key duplicate (key x :: seen) l'
  end.

(** [if let Some(x) = o { check(x)?; }]. *)
Definition opt_each {E A} (check : A -> result E unit) (o : option A) : result E unit :=
  match o with Some x => check x | None => Ok tt end.

Definition is_none {A} (o : option A) : bool :=
  match o with Some _ => false | None => true end.
Definition is_some {A} (o : option A) : bool := negb (is_none o).
(** [o.is_some_and(p)]. *)
Definition is_some_and {A} (p : A -> bool) (o : option A) : bool :=
  match o with Some x => p x | None => false end.

Lemma rbind_ok {E A B} (r : result E A) (f : A -> result E B) b :
  rbind r f = Ok b <-> exists a, r = Ok a /\ f a = Ok b.
Proof.
  destruct r as [a|e]; simpl; split; try done.
  - eauto.
  - by intros (a' & [= ->] & ?).
  - by intros (a' & ? & _).
Qed.

Lemma rbind_unit_ok {E B} (r : result E unit) (k : result E B) b :
  (r ?; k) = Ok b <-> r = Ok tt /\ k = Ok b.
Proof. destruct r as [[]|]; simpl; intuition congruence. Qed.

Lemma refuse_if_ok {E} (bad : bool) (e : E) :
  refuse_if bad e = Ok tt <-> bad = false.
Proof. by destruct bad. Qed.

Lemma each_ok {E A} (check : A -> result E unit) l :
  each check l = Ok tt <-> Forall (fun x => check x = Ok tt) l.
Proof.
  induction l as [|x l IH]; simpl.
  - by split.
  - rewrite rbind_unit_ok, IH, Forall_cons. done.
Qed.

Lemma each_distinct_ok {E A} (check : A -> result E unit) key duplicate seen l :
  each_distinct check key duplicate seen l = Ok tt <->
  Forall (fun x => check x = Ok tt) l /\ NoDup (key <$> l) /\ Forall (fun x => key x ∉ seen) l.
Proof.
  revert seen. induction l as [|x l IH]; intros seen; cbn [each_distinct fmap list_fmap].
  - split; [by repeat split; constructor|done].
  - rewrite !rbind_unit_ok, refuse_if_ok, bool_decide_eq_false, IH, !Forall_cons, NoDup_cons, list_elem_of_fmap.
    setoid_rewrite not_elem_of_cons. rewrite !Forall_forall. split.
    + intros (Hx & Hs & Hl & Hnd & Hk). split_and!; try done; [|by intros y Hy; apply Hk].
      intros (y & Hxy & Hy). by destruct (Hk y Hy).
    + intros ((Hx & Hl) & (Hn & Hnd) & Hs & Hk). split_and!; try done. intros y Hy. split; [|by apply Hk].
      intros Hxy. apply Hn. by exists y.
Qed.

Lemma opt_each_ok {E A} (check : A -> result E unit) o :
  opt_each check o = Ok tt <-> (forall x, o = Some x -> check x = Ok tt).
Proof. destruct o; simpl; split; try done; [by intros ? ? [= <-]|auto]. Qed.

(** ** Machine integers and lengths *)

Definition u32_max : N := 4294967295.
Definition u64_max : N := 18446744073709551615.

(** [u64::saturating_add]. *)
Definition sat_add64 (a b : N) : N := N.min (a + b) u64_max.
(** [u64::wrapping_add]. *)
Definition wrap_add64 (a b : N) : N := (a + b) mod (u64_max + 1).
(** [u32::saturating_add]. *)
Definition sat_add32 (a b : N) : N := N.min (a + b) u32_max.

(** [slice.len()] and [str.len()], as the machine counts them. *)
Definition len {A} (l : list A) : N := N.of_nat (length l).
Definition slen (s : string) : N := N.of_nat (String.length s).

Lemma len_nil {A} : len (@nil A) = 0%N.
Proof. done. Qed.
Lemma len_cons {A} (x : A) l : len (x :: l) = (len l + 1)%N.
Proof. unfold len. simpl. lia. Qed.
Lemma len_app {A} (l k : list A) : len (l ++ k) = (len l + len k)%N.
Proof. unfold len. rewrite length_app. lia. Qed.

(** ** Lists *)

(** [vec.iter_mut().find(p)] followed by a write through the reference. *)
Fixpoint update_first {A} (p : A -> bool) (f : A -> A) (l : list A) : list A :=
  match l with
  | [] => []
  | x :: l' => if p x then f x :: l' else x :: update_first p f l'
  end.

(** The stable [sort_by_key]. *)
Section sort_by_key.
Context {A : Type} (key : A -> N).

Fixpoint insert_key (x : A) (l : list A) : list A :=
  match l with
  | [] => [x]
  | y :: l' => if (key x <=? key y)%N then x :: y :: l' else y :: insert_key x l'
  end.

Definition sort_by_key (l : list A) : list A := foldr insert_key [] l.

Definition key_le (x y : A) : Prop := (key x <= key y)%N.
Definition key_lt (x y : A) : Prop := (key x < key y)%N.

Lemma insert_key_perm x l : insert_key x l ≡ₚ x :: l.
Proof.
  induction l as [|y l IH]; simpl; [done|].
  case_match; [done|]. rewrite IH. constructor.
Qed.

Lemma sort_by_key_perm l : sort_by_key l ≡ₚ l.
Proof.
  induction l as [|x l IH]; simpl; [done|].
  rewrite insert_key_perm. by constructor.
Qed.

Lemma insert_key_sorted x l :
  StronglySorted key_le l -> StronglySorted key_le (insert_key x l).
Proof.
  induction 1 as [|y l Hs IH Hall]; simpl.
  - repeat constructor.
  - destruct (N.leb_spec (key x) (key y)) as [Hle|Hgt].
    + constructor; [by constructor|]. constructor; [done|].
      eapply Forall_impl; [done|]. unfold key_le. lia.
    + constructor; [done|].
      rewrite insert_key_perm. constructor; [unfold key_le; lia|done].
Qed.

Lemma sort_by_key_sorted l : StronglySorted key_le (sort_by_key l).
Proof. induction l; simpl; [constructor|by apply insert_key_sorted]. Qed.

(** Sorting leaves a sorted vector alone. *)
Lemma sort_by_key_id l : StronglySorted key_le l -> sort_by_key l = l.
Proof.
  induction 1 as [|x l Hs IH Hall]; simpl; [done|]. rewrite IH.
  destruct Hall as [|y l Hxy Hall]; simpl; [done|].
  unfold key_le in Hxy. by rewrite (proj2 (N.leb_le _ _) Hxy).
Qed.

Lemma insert_key_snoc x l :
  Forall (fun y => (key y < key x)%N) l -> insert_key x l = l ++ [x].
Proof.
  induction 1 as [|y l Hy Hl IH]; simpl; [done|].
  rewrite (proj2 (N.leb_gt _ _) Hy). by rewrite IH.
Qed.

(** Pushing an element and sorting a sorted vector inserts it after its peers. *)
Lemma sort_by_key_lt l :
  StronglySorted key_le l -> NoDup (key <$> l) -> StronglySorted key_lt l.
Proof.
  induction 1 as [|x l Hs IH Hall]; intros Hnd; [constructor|].
  rewrite fmap_cons, NoDup_cons in Hnd. destruct Hnd as [Hx Hnd].
  constructor; [by apply IH|].
  rewrite Forall_forall in Hall |- *. intros y Hy.
  unfold key_lt, key_le in *. specialize (Hall y Hy).
  assert (key x <> key y) by (intros Heq; apply Hx; rewrite Heq; by apply list_elem_of_fmap_2).
  lia.
Qed.

Lemma key_lt_le l : StronglySorted key_lt l -> StronglySorted key_le l.
Proof.
  induction 1 as [|x l Hs IH Hall]; constructor; [done|].
  eapply Forall_impl; [done|]. unfold key_lt, key_le. lia.
Qed.

Lemma key_lt_NoDup l : StronglySorted key_lt l -> NoDup (key <$> l).
Proof.
  induction 1 as [|x l Hs IH Hall]; rewrite ?fmap_cons; constructor; [|done].
  rewrite list_elem_of_fmap. intros (y & Hxy & Hy).
  rewrite Forall_forall in Hall. specialize (Hall y Hy). unfold key_lt in Hall. lia.
Qed.
End sort_by_key.

Section update_first.
Context {A : Type} (p : A -> bool) (f : A -> A).

Lemma update_first_length l : length (update_first p f l) = length l.
Proof. induction l; simpl; [done|]. case_match; simpl; auto. Qed.

Lemma update_first_fmap {B} (g : A -> B) l :
  (forall x, p x = true -> g (f x) = g x) -> g <$> update_first p f l = g <$> l.
Proof.
  intros Hg. induction l as [|x l IH]; simpl; [done|].
  destruct (p x) eqn:Hp; rewrite !fmap_cons; f_equal; auto.
Qed.

Lemma update_first_Forall (P : A -> Prop) l :
  Forall P l -> (forall x, p x = true -> P x -> P (f x)) -> Forall P (update_first p f l).
Proof.
  intros Hl Hf. induction Hl as [|x l Hx Hl IH]; simpl; [constructor|].
  destruct (p x) eqn:Hp; constructor; auto.
Qed.

Lemma update_first_find l :
  (forall x, p x = true -> p (f x) = true) ->
  List.find p (update_first p f l) = f <$> List.find p l.
Proof.
  intros Hp. induction l as [|x l IH]; simpl; [done|].
  destruct (p x) eqn:Hx; simpl; [by rewrite Hp|by rewrite Hx].
Qed.
End update_first.

Lemma find_list_find {A} (p : A -> bool) l :
  List.find p l = snd <$> list_find (fun x => p x = true) l.
Proof.
  induction l as [|x l IH]; simpl; [done|]. destruct (p x) eqn:Hx.
  - by rewrite decide_True.
  - rewrite decide_False by congruence. rewrite IH. by destruct (list_find _ l) as [[]|].
Qed.

(** The first match, written by its index. *)
Lemma update_first_insert {A} (p : A -> bool) (f : A -> A) l i x :
  list_find (fun x => p x = true) l = Some (i, x) -> update_first p f l = <[i := f x]> l.
Proof.
  revert i. induction l as [|y l IH]; intros i; simpl; [done|]. destruct (p y) eqn:Hy.
  - rewrite decide_True by done. by intros [= <- <-].
  - rewrite decide_False by congruence. destruct (list_find _ l) as [[j z]|] eqn:Hf; [|done].
    intros [= <- <-]. simpl. by rewrite (IH j).
Qed.

Lemma NoDup_fmap_insert {A B} (g : A -> B) l i y :
  NoDup (g <$> l) -> (forall j x, l !! j = Some x -> j <> i -> g x <> g y) ->
  NoDup (g <$> <[i := y]> l).
Proof.
  intros Hnd Hy. apply NoDup_alt. intros j k b. rewrite !list_lookup_fmap.
  intros (x & Hx & ->)%fmap_Some (z & Hz & Hxz)%fmap_Some.
  rewrite list_lookup_insert_Some in Hx. rewrite list_lookup_insert_Some in Hz.
  destruct Hx as [(<- & <- & _)|(Hji & Hx)], Hz as [(<- & <- & _)|(Hki & Hz)]; [done| | |].
  - by destruct (Hy k z Hz ltac:(congruence)).
  - by destruct (Hy j x Hx ltac:(congruence)).
  - eapply NoDup_alt; [exact Hnd| |]; rewrite list_lookup_fmap; [by rewrite Hx|].
    by rewrite Hz; simpl; rewrite Hxz.
Qed.

Lemma NoDup_fmap_sublist {A B} (g : A -> B) l k :
  sublist l k -> NoDup (g <$> k) -> NoDup (g <$> l).
Proof.
  induction 1 as [|x l k Hs IH|x l k Hs IH]; rewrite ?fmap_cons; [done| |];
    intros [Hx Hnd]%NoDup_cons; [|by apply IH].
  constructor; [|by apply IH]. rewrite list_elem_of_fmap in Hx |- *.
  intros (y & Hxy & Hy). apply Hx. exists y. split; [done|]. by eapply elem_of_sublist.
Qed.

Lemma filter_sublist {A} (p : A -> bool) l : sublist (List.filter p l) l.
Proof. induction l as [|x l IH]; simpl; [done|]. case_match; by constructor. Qed.

Lemma len_sublist {A} (l k : list A) : sublist l k -> (len l <= len k)%N.
Proof. intros H%sublist_length. unfold len. lia. Qed.

Lemma sort_by_key_len {A} (key : A -> N) l : len (sort_by_key key l) = len l.
Proof. unfold len. by rewrite sort_by_key_perm. Qed.

(** A largest element pushed last stays last. *)
Lemma sort_by_key_snoc {A} (key : A -> N) l x :
  Forall (fun y => (key y <= key x)%N) l -> sort_by_key key (l ++ [x]) = sort_by_key key l ++ [x].
Proof.
  induction 1 as [|y l Hy Hl IH]; [done|]. cbn. unfold sort_by_key in *. rewrite IH.
  clear IH Hl. induction (foldr _ [] l) as [|z k IH]; cbn.
  - by rewrite (proj2 (N.leb_le _ _) Hy).
  - case_match; [done|]. by rewrite IH.
Qed.

Lemma find_unique {A B} (g : A -> B) (p : A -> bool) l x :
  NoDup (g <$> l) -> x ∈ l -> (forall y, p y = true <-> g y = g x) -> List.find p l = Some x.
Proof.
  intros Hnd Hx Hp. induction l as [|y l IH]; [by apply not_elem_of_nil in Hx|].
  rewrite fmap_cons, NoDup_cons in Hnd. destruct Hnd as [Hy Hnd]. cbn.
  destruct (p y) eqn:Hpy.
  - apply Hp in Hpy. apply elem_of_cons in Hx as [->|Hx]; [done|].
    exfalso. apply Hy. rewrite Hpy. by apply list_elem_of_fmap_2.
  - apply elem_of_cons in Hx as [->|Hx]; [|by apply IH].
    rewrite (proj2 (Hp y) eq_refl) in Hpy. done.
Qed.

Lemma NoDup_fmap_snoc {A B} (g : A -> B) l x :
  NoDup (g <$> l) -> Forall (fun y => g y <> g x) l -> NoDup (g <$> l ++ [x]).
Proof.
  intros Hl Hx. rewrite fmap_app. apply NoDup_app. split_and!; [done| |apply NoDup_singleton].
  intros z (y & -> & Hy)%list_elem_of_fmap Hz%list_elem_of_singleton.
  rewrite Forall_forall in Hx. by apply (Hx y Hy).
Qed.

Lemma find_none_forall {A} (p : A -> bool) l :
  List.find p l = None <-> Forall (fun x => p x = false) l.
Proof.
  induction l as [|x l IH]; simpl; [by split|].
  rewrite Forall_cons. destruct (p x); [split; [done|by intros [? _]]|]. rewrite IH. intuition.
Qed.

Lemma update_first_ext {A} (p : A -> bool) (f g : A -> A) (l : list A) x :
  List.find p l = Some x -> f x = g x -> update_first p f l = update_first p g l.
Proof.
  intros Hf Hx. induction l as [|y l IH]; simpl in *; [done|]. destruct (p y).
  - injection Hf as ->. by rewrite Hx.
  - by rewrite IH.
Qed.

Lemma find_snoc {A} (p : A -> bool) l x :
  Forall (fun y => p y = false) l -> p x = true -> List.find p (l ++ [x]) = Some x.
Proof. intros Hl Hx. induction Hl as [|y l Hy Hl IH]; simpl; [by rewrite Hx|by rewrite Hy]. Qed.

Lemma find_some_elem {A} (p : A -> bool) l x :
  List.find p l = Some x -> x ∈ l /\ p x = true.
Proof.
  intros H. apply List.find_some in H. by rewrite list_elem_of_In.
Qed.

Lemma StronglySorted_sublist {A} (R : A -> A -> Prop) l k :
  sublist l k -> StronglySorted R k -> StronglySorted R l.
Proof.
  induction 1 as [|x l k Hs IH|x l k Hs IH]; intros HS; [constructor| |];
    apply StronglySorted_inv in HS as [HS Hall].
  - constructor; [by apply IH|].
    rewrite Forall_forall in Hall |- *. intros y Hy. apply Hall. by eapply elem_of_sublist.
  - by apply IH.
Qed.

Lemma head_map {A B} (f : A -> B) (l : list A) : head (f <$> l) = f <$> head l.
Proof. by destruct l. Qed.

Lemma tail_sublist {A} (l : list A) : sublist (tail l) l.
Proof. destruct l; simpl; [done|]. by constructor. Qed.
Lemma len_tail {A} (l : list A) : len (tail l) = (len l - 1)%N.
Proof. unfold len. destruct l; simpl; lia. Qed.
Lemma len_snoc {A} (l : list A) x : len (l ++ [x]) = (len l + 1)%N.
Proof. by rewrite len_app. Qed.
Lemma Forall_tail {A} (P : A -> Prop) l : Forall P l -> Forall P (tail l).
Proof. by destruct 1. Qed.
Lemma sublist_subset {A} (l k : list A) : sublist l k -> l ⊆ k.
Proof. intros H x Hx. by eapply elem_of_sublist. Qed.
Lemma Forall_sublist {A} (P : A -> Prop) l k : sublist l k -> Forall P k -> Forall P l.
Proof. rewrite !Forall_forall. intros Hs HP x Hx. apply HP. by eapply elem_of_sublist. Qed.

Lemma update_first_subset {A} (p : A -> bool) f (l : list A) y :
  (forall x, f x = x \/ f x = y) -> update_first p f l ⊆ y :: l.
Proof.
  intros Hf. induction l as [|x l IH]; cbn [update_first]; [set_solver|].
  case_match; [destruct (Hf x) as [->| ->]|]; set_solver.
Qed.

(** ** Automation *)

Create HintDb ciao.
Create Rewrite HintDb ciao.
#[export] Hint Rewrite @rbind_unit_ok @refuse_if_ok @each_ok @opt_each_ok : ciao.
#[export] Hint Resolve sort_by_key_sorted sort_by_key_perm key_lt_le : ciao.

(** Split a successful chain of [?]-checks into its conditions. *)
Ltac ok_inv H :=
  repeat first
    [ rewrite rbind_unit_ok in H
    | rewrite refuse_if_ok in H
    | rewrite orb_false_iff in H
    | rewrite negb_false_iff in H ];
  destruct_and? H.

(** Boolean comparisons to propositions. *)
Ltac b2p :=
  repeat match goal with
  | H : (_ && _)%bool = true |- _ => apply andb_true_iff in H as [? ?]
  | H : (_ || _)%bool = false |- _ => apply orb_false_iff in H as [? ?]
  | H : negb _ = true |- _ => apply negb_true_iff in H
  | H : negb _ = false |- _ => apply negb_false_iff in H
  | H : (_ <=? _)%N = true |- _ => apply N.leb_le in H
  | H : (_ <=? _)%N = false |- _ => apply N.leb_gt in H
  | H : (_ <? _)%N = true |- _ => apply N.ltb_lt in H
  | H : (_ <? _)%N = false |- _ => apply N.ltb_ge in H
  | H : (_ =? _)%N = true |- _ => apply N.eqb_eq in H
  | H : (_ =? _)%N = false |- _ => apply N.eqb_neq in H
  | H : (_ =s? _) = true |- _ => apply String.eqb_eq in H
  | H : (_ =s? _) = false |- _ => apply String.eqb_neq in H
  | H : bool_decide _ = true |- _ => apply bool_decide_eq_true in H
  | H : bool_decide _ = false |- _ => apply bool_decide_eq_false in H
  end.

(** Two elements under one key of a list without repeated keys are one. *)
Lemma NoDup_fmap_inj_elem {A B} (g : A -> B) (l : list A) x y :
  NoDup (g <$> l) -> x ∈ l -> y ∈ l -> g x = g y -> x = y.
Proof.
  intros Hnd [i Hi]%list_elem_of_lookup [j Hj]%list_elem_of_lookup Hg.
  assert (i = j) as ->; [|congruence].
  eapply NoDup_lookup; [exact Hnd| |]; rewrite list_lookup_fmap; [by rewrite Hi|].
  rewrite Hj. cbn. congruence.
Qed.

Lemma update_first_held {A B} (g : A -> B) (p : A -> bool) (old new : A) l :
  List.find p l = Some old -> g new = g old -> g <$> update_first p (fun _ => new) l = g <$> l.
Proof.
  intros Hf Hg. induction l as [|x l IH]; [done|]. cbn in *. destruct (p x); rewrite !fmap_cons; f_equal.
  - congruence.
  - by apply IH.
Qed.
