(* ===== verification/Text.v ===== *)
(** Rust's [str] as the host uses it: byte strings with the character boundaries of UTF-8,
    and the text arithmetic of [agent_protocol.rs] and [agent_session.rs] built on them
    (bounded truncation, JSON escape lengths, version triples, the identifier grammars'
    byte classes, lower-case hex). *)
From S2P Require Import Prelude.

Local Open Scope N_scope.

(** ** Bytes and slices *)

Definition nb (b : ascii) : N := N_of_ascii b.

(** A UTF-8 continuation byte, [0b10xxxxxx]. *)
Definition is_cont (b : ascii) : bool := (128 <=? nb b) && (nb b <? 192).

Definition is_ascii_alphanumeric (b : ascii) : bool :=
  ((48 <=? nb b) && (nb b <=? 57)) || ((65 <=? nb b) && (nb b <=? 90))
  || ((97 <=? nb b) && (nb b <=? 122)).

Definition is_ascii_digit (b : ascii) : bool := (48 <=? nb b) && (nb b <=? 57).

Definition is_ascii_hexdigit (b : ascii) : bool :=
  is_ascii_digit b || ((65 <=? nb b) && (nb b <=? 70)) || ((97 <=? nb b) && (nb b <=? 102)).

(** [bytes.iter().all(p)]. *)
Fixpoint sall (p : ascii -> bool) (s : string) : bool :=
  match s with
  | EmptyString => true
  | String b s' => p b && sall p s'
  end.

(** [&s[..n]] and [&s[n..]]. *)
Fixpoint stake (n : nat) (s : string) : string :=
  match n, s with
  | S n', String b s' => String b (stake n' s')
  | _, _ => EmptyString
  end.

Fixpoint sdrop (n : nat) (s : string) : string :=
  match n, s with
  | S n', String _ s' => sdrop n' s'
  | _, _ => s
  end.

Definition shead (s : string) : option ascii :=
  match s with EmptyString => None | String b _ => Some b end.

Definition starts_cont (s : string) : bool :=
  match s with EmptyString => false | String b _ => is_cont b end.

(** [str::is_char_boundary]. *)
Definition is_char_boundary (s : string) (i : nat) : bool :=
  (i =? 0)%nat || ((i <=? String.length s)%nat && negb (starts_cont (sdrop i s))).

(** The loop [while !s.is_char_boundary(b) { b -= 1 }]. *)
Fixpoint floor_boundary (s : string) (i : nat) : nat :=
  if is_char_boundary s i then i
  else match i with O => O | S i' => floor_boundary s i' end.

(** [str::floor_char_boundary]. *)
Definition floor_char_boundary (s : string) (i : N) : nat :=
  if slen s <=? i then String.length s else floor_boundary s (N.to_nat i).

(** [str::chars], each character as its own bytes: a new character starts at every byte that
    does not continue one. *)
Fixpoint chars (s : string) : list string :=
  match s with
  | EmptyString => []
  | String b s' =>
      match chars s' with
      | c :: cs => if starts_cont c then String b c :: cs else String b "" :: c :: cs
      | [] => [String b ""]
      end
  end.

Definition sconcat (l : list string) : string := foldr String.append ""%string l.

(** The well-formed scalar encodings (Unicode 3.9, table 3-7). *)
Definition utf8_char (c : string) : bool :=
  let bytes := nb <$> String.list_ascii_of_string c in
  let within lo hi x := (lo <=? x) && (x <=? hi) in
  let cont := within 128 191 in
  match bytes with
  | [a] => a <? 128
  | [a; b] => within 194 223 a && cont b
  | [a; b; d] =>
      ((a =? 224) && within 160 191 b || within 225 236 a && cont b
       || (a =? 237) && within 128 159 b || within 238 239 a && cont b) && cont d
  | [a; b; d; e] =>
      ((a =? 240) && within 144 191 b || within 241 243 a && cont b
       || (a =? 244) && within 128 143 b) && cont d && cont e
  | _ => false
  end.

(** What the type [str] guarantees. *)
Definition utf8 (s : string) : Prop := Forall (fun c => utf8_char c = true) (chars s).

(** [char::is_whitespace], the Unicode [White_Space] property, on encoded characters. *)
Definition is_whitespace (c : string) : bool :=
  match nb <$> String.list_ascii_of_string c with
  | [a] => ((9 <=? a) && (a <=? 13)) || (a =? 32)
  | [a; b] => (a =? 194) && ((b =? 133) || (b =? 160))
  | [a; b; d] =>
      ((a =? 225) && (b =? 154) && (d =? 128))
      || ((a =? 226) && (b =? 128)
          && (((128 <=? d) && (d <=? 138)) || (d =? 168) || (d =? 169) || (d =? 175)))
      || ((a =? 226) && (b =? 129) && (d =? 159))
      || ((a =? 227) && (b =? 128) && (d =? 128))
  | _ => false
  end.

Fixpoint drop_while {A} (p : A -> bool) (l : list A) : list A :=
  match l with
  | [] => []
  | x :: l' => if p x then drop_while p l' else l
  end.

Definition trim_start (s : string) : string := sconcat (drop_while is_whitespace (chars s)).
Definition trim_end (s : string) : string :=
  sconcat (reverse (drop_while is_whitespace (reverse (chars s)))).
Definition trim (s : string) : string := trim_end (trim_start s).

(** [s.starts_with(prefix)]. *)
Definition starts_with (s prefix : string) : bool := String.prefix prefix s.

(** [str::split] on one ASCII character. *)
Fixpoint split_on (sep : ascii) (s : string) : list string :=
  match s with
  | EmptyString => [""%string]
  | String b s' =>
      if bool_decide (b = sep) then ""%string :: split_on sep s'
      else match split_on sep s' with
           | c :: cs => String b c :: cs
           | [] => [String b ""]
           end
  end.

(** ** Bounded truncation *)

(** [truncate_utf8]: the shortened value, and whether it was shortened. *)
Definition truncate_utf8 (value : string) (maximum_bytes : N) : string * bool :=
  if slen value <=? maximum_bytes then (value, false)
  else (stake (floor_boundary value (N.to_nat maximum_bytes)) value, true).

(** [truncate_on_char_boundary]: cut, then drop what the cut left dangling. *)
Definition truncate_on_char_boundary (text : string) (limit : N) : string :=
  if slen text <=? limit then text
  else trim_end (stake (floor_boundary text (N.to_nat limit)) text).

(** ** JSON escape arithmetic *)

Definition json_escaped_len (character : string) : N :=
  match character with
  | String b EmptyString =>
      if (nb b =? 34) || (nb b =? 92) || (nb b =? 10) || (nb b =? 13) || (nb b =? 9)
         || (nb b =? 8) || (nb b =? 12) then 2
      else if nb b <? 32 then 6
      else 1
  | _ => slen character
  end.

Definition json_string_len (text : string) : N :=
  foldr N.add 0 (json_escaped_len <$> chars text).

Fixpoint json_prefix_loop (cs : list string) (index : nat) (encoded budget : N) : nat :=
  match cs with
  | [] => index
  | c :: cs' =>
      let encoded := encoded + json_escaped_len c in
      if budget <? encoded then index
      else json_prefix_loop cs' (index + String.length c)%nat encoded budget
  end.

(** [json_prefix_within]: a byte index on a character boundary. *)
Definition json_prefix_within (text : string) (budget : N) : nat :=
  json_prefix_loop (chars text) 0 0 budget.

(** ** Decimal and hexadecimal *)

Fixpoint parse_digits (acc : N) (s : string) : option N :=
  match s with
  | EmptyString => Some acc
  | String b s' =>
      if is_ascii_digit b then
        let acc := acc * 10 + (nb b - 48) in
        if acc <=? u32_max then parse_digits acc s' else None
      else None
  end.

(** [str::parse::<u32>]: an optional plus sign and at least one digit, within 32 bits. *)
Definition parse_u32 (s : string) : option N :=
  let digits := match s with
                | String b s' => if nb b =? 43 then s' else s
                | EmptyString => s
                end in
  match digits with EmptyString => None | _ => parse_digits 0 digits end.

Definition hex_digit (n : N) : ascii :=
  ascii_of_N (if n <? 10 then 48 + n else 87 + n).

(** [format!("{byte:02x}")]. *)
Definition hex_byte (b : N) : string := String (hex_digit (b / 16)) (String (hex_digit (b mod 16)) "").

(** [hex(bytes)]. *)
Definition hex (bytes : list N) : string := sconcat (hex_byte <$> bytes).

Definition hex_value (b : ascii) : option N :=
  if is_ascii_digit b then Some (nb b - 48)
  else if (97 <=? nb b) && (nb b <=? 102) then Some (nb b - 87)
  else if (65 <=? nb b) && (nb b <=? 70) then Some (nb b - 55)
  else None.

Fixpoint decode_hex_pairs (s : string) : option (list N) :=
  match s with
  | String a (String b s') =>
      hi ← hex_value a; lo ← hex_value b; rest ← decode_hex_pairs s';
      Some (16 * hi + lo :: rest)
  | _ => Some []
  end.

(** [decode_hex_32]. *)
Definition decode_hex_32 (value : string) : option (list N) :=
  if negb (slen value =? 64) || negb (sall is_ascii_hexdigit value) then None
  else decode_hex_pairs value.

(** [format!("{:032x}", random::<u128>())]: the draw's sixteen bytes, most significant first. *)
Fixpoint be_bytes (n : nat) (v : N) : list N :=
  match n with
  | O => []
  | S n' => (v / 256 ^ N.of_nat n') mod 256 :: be_bytes n' v
  end.

Fixpoint of_be_bytes (l : list N) : N :=
  match l with
  | [] => 0
  | b :: l' => b * 256 ^ len l' + of_be_bytes l'
  end.

Definition u128_max : N := 340282366920938463463374607431768211455.
Definition format_u128 (v : N) : string := hex (be_bytes 16 (v mod (u128_max + 1))).

(** ** Slices *)

Lemma str_app_nil_r s : (s +:+ "")%string = s.
Proof. induction s; simpl; f_equal; auto. Qed.

Lemma str_app_assoc a b c : (a +:+ (b +:+ c) = (a +:+ b) +:+ c)%string.
Proof. induction a; simpl; f_equal; auto. Qed.

Lemma str_length_app a b :
  String.length (a +:+ b)%string = (String.length a + String.length b)%nat.
Proof. induction a; simpl; auto. Qed.

Lemma slen_app a b : slen (a +:+ b)%string = slen a + slen b.
Proof. unfold slen. rewrite str_length_app. lia. Qed.

Lemma stake_sdrop n s : (stake n s +:+ sdrop n s)%string = s.
Proof. revert s; induction n; intros [|b s]; simpl; f_equal; auto. Qed.

Lemma stake_length n s : String.length (stake n s) = Nat.min n (String.length s).
Proof. revert s; induction n; intros [|b s]; simpl; auto. Qed.

Lemma stake_all n s : (String.length s <= n)%nat -> stake n s = s.
Proof. revert s; induction n; intros [|b s] H; simpl in *; try lia; f_equal; auto with lia. Qed.

Lemma stake_app n a b : String.length a = n -> stake n (a +:+ b)%string = a.
Proof. revert a; induction n; intros [|x a] H; simpl in *; try lia; [by destruct b|]. f_equal; auto. Qed.

Lemma sdrop_app n a b : String.length a = n -> sdrop n (a +:+ b)%string = b.
Proof. revert a; induction n; intros [|x a] H; simpl in *; try lia; auto. Qed.

Lemma sdrop_length n s : String.length (sdrop n s) = (String.length s - n)%nat.
Proof. revert s; induction n; intros [|b s]; simpl; auto. Qed.

Lemma sdrop_sdrop n m s : sdrop n (sdrop m s) = sdrop (m + n) s.
Proof. revert s; induction m; intros [|b s]; simpl; auto. by destruct n. Qed.

Lemma stake_stake n m s : (n <= m)%nat -> stake n (stake m s) = stake n s.
Proof. revert m s; induction n; intros [|m] [|b s] H; simpl; try lia; f_equal; auto with lia. Qed.

(** Consecutive slices concatenate. *)
Lemma stake_extend n m s :
  (n <= m)%nat -> stake m s = (stake n s +:+ stake (m - n) (sdrop n s))%string.
Proof.
  revert m s; induction n; intros m s H; simpl.
  - by rewrite Nat.sub_0_r.
  - destruct s as [|b s], m as [|m]; simpl; try lia; [by destruct (m - n)%nat|].
    f_equal. apply IHn. lia.
Qed.

Lemma slen_nil_inv s : slen s = 0 -> s = ""%string.
Proof. destruct s; unfold slen; simpl; [done|lia]. Qed.

Lemma sall_app p a b : sall p (a +:+ b)%string = sall p a && sall p b.
Proof. induction a; simpl; [done|]. by rewrite IHa, andb_assoc. Qed.

(** ** Characters *)

(** One character's bytes: a first byte, then continuation bytes. *)
Definition char_shape (c : string) : Prop :=
  match c with EmptyString => False | String _ t => sall is_cont t = true end.

(** A list of characters as [chars] returns it. *)
Definition chars_shape (l : list string) : Prop :=
  Forall char_shape l /\ Forall (fun c => starts_cont c = false) (tail l).

Lemma chars_starts s : starts_cont s = match chars s with c :: _ => starts_cont c | [] => false end.
Proof.
  destruct s as [|b s]; simpl; [done|].
  destruct (chars s) as [|c cs]; [done|]. by destruct (starts_cont c).
Qed.

Lemma chars_chars_shape s : chars_shape (chars s).
Proof.
  induction s as [|b s [IH1 IH2]]; simpl; [by split|].
  destruct (chars s) as [|c cs]; [by repeat constructor|].
  apply Forall_cons in IH1 as [Hc Hcs]. simpl in IH2.
  destruct (starts_cont c) eqn:Hs; split; simpl; try done.
  - constructor; [|done]. destruct c as [|x c]; simpl in *; [done|]. by rewrite Hs.
  - by repeat constructor.
  - by constructor.
Qed.

Lemma sconcat_chars s : sconcat (chars s) = s.
Proof.
  induction s as [|b s IH]; simpl; [done|].
  destruct (chars s) as [|c cs]; simpl in *; [by subst|].
  destruct (starts_cont c); simpl; by rewrite IH.
Qed.

Lemma sconcat_cons c l : sconcat (c :: l) = (c +:+ sconcat l)%string.
Proof. done. Qed.

Lemma sconcat_app l k : sconcat (l ++ k) = (sconcat l +:+ sconcat k)%string.
Proof. induction l; simpl; [done|]. by rewrite IHl, str_app_assoc. Qed.

(** Cutting where the right part starts a character cuts the character list. *)
Lemma chars_app a b :
  starts_cont b = false -> chars (a +:+ b)%string = chars a ++ chars b.
Proof.
  intros Hb. induction a as [|x a IH]; simpl; [done|]. rewrite IH.
  destruct (chars a) as [|c cs] eqn:Ha; simpl.
  - rewrite (chars_starts b) in Hb. destruct (chars b) as [|c cs]; [done|]. by rewrite Hb.
  - by destruct (starts_cont c).
Qed.

Lemma chars_char c : char_shape c -> chars c = [c].
Proof.
  destruct c as [|b t]; simpl; [done|]. revert b.
  induction t as [|x t IH]; intros b; simpl; [done|].
  intros [Hx Ht]%andb_true_iff. specialize (IH x Ht). simpl in IH. rewrite IH.
  simpl. by rewrite Hx.
Qed.

Lemma starts_cont_sconcat l :
  Forall char_shape l -> starts_cont (sconcat l) = match l with c :: _ => starts_cont c | [] => false end.
Proof. destruct 1 as [|c l Hc Hl]; [done|]. by destruct c. Qed.

Lemma chars_sconcat l : chars_shape l -> chars (sconcat l) = l.
Proof.
  induction l as [|c l IH]; intros [H1 H2]; [done|].
  apply Forall_cons in H1 as [Hc Hl]. simpl in H2 |- *.
  rewrite chars_app.
  - rewrite (chars_char c Hc), IH; [done|]. split; [done|]. by destruct l; [|apply Forall_cons in H2 as [_ ?]].
  - rewrite starts_cont_sconcat by done. destruct l; [done|]. by apply Forall_cons in H2 as [? _].
Qed.

Lemma chars_shape_app_l l k : chars_shape (l ++ k) -> chars_shape l.
Proof.
  intros [H1 H2]. apply Forall_app in H1 as [H1 _]. split; [done|].
  destruct l; [done|]. simpl in *. by apply Forall_app in H2 as [? _].
Qed.

(** ** Boundaries *)

Lemma boundary_le s i : is_char_boundary s i = true -> (i <= String.length s)%nat.
Proof.
  unfold is_char_boundary. rewrite orb_true_iff, andb_true_iff.
  intros [H|[H _]]; [apply Nat.eqb_eq in H|apply Nat.leb_le in H]; lia.
Qed.

Lemma boundary_0 s : is_char_boundary s 0 = true.
Proof. done. Qed.

Lemma boundary_all s : is_char_boundary s (String.length s) = true.
Proof.
  unfold is_char_boundary. apply orb_true_iff. right. apply andb_true_iff. split.
  - by apply Nat.leb_le.
  - rewrite <- (str_app_nil_r s) at 2. by rewrite sdrop_app.
Qed.

Lemma boundary_drop s i :
  is_char_boundary s i = true -> i = 0%nat \/ starts_cont (sdrop i s) = false.
Proof.
  unfold is_char_boundary. rewrite orb_true_iff, andb_true_iff, negb_true_iff.
  intros [H%Nat.eqb_eq|[_ H]]; auto.
Qed.

(** A boundary splits the characters. *)
Lemma chars_split s i :
  is_char_boundary s i = true -> chars s = chars (stake i s) ++ chars (sdrop i s).
Proof.
  intros [->|H]%boundary_drop.
  - by destruct s.
  - rewrite <- chars_app by done. by rewrite stake_sdrop.
Qed.

(** Between two characters there is a boundary. *)
Lemma boundary_of_split s p r :
  chars s = p ++ r ->
  is_char_boundary s (String.length (sconcat p)) = true
  /\ stake (String.length (sconcat p)) s = sconcat p
  /\ chars (sconcat p) = p /\ sdrop (String.length (sconcat p)) s = sconcat r.
Proof.
  intros H. pose proof (sconcat_chars s) as Hs. rewrite H, sconcat_app in Hs.
  pose proof (chars_chars_shape s) as Hsh. rewrite H in Hsh.
  assert (chars (sconcat p) = p) as Hp by (apply chars_sconcat; by eapply chars_shape_app_l).
  repeat split; [|by rewrite <- Hs, stake_app|done|by rewrite <- Hs, sdrop_app].
  unfold is_char_boundary. destruct p as [|c p]; [done|].
  apply orb_true_iff; right. apply andb_true_iff. split.
  - apply Nat.leb_le. rewrite <- Hs, str_length_app. lia.
  - rewrite <- Hs, sdrop_app by done.
    destruct Hsh as [H1 H2]. simpl in H2. apply Forall_app in H1 as [_ H1].
    apply Forall_app in H2 as [_ H2]. rewrite starts_cont_sconcat by done.
    destruct r; [done|]. apply Forall_cons in H2 as [-> _]. done.
Qed.

Lemma utf8_stake s i : utf8 s -> is_char_boundary s i = true -> utf8 (stake i s).
Proof. unfold utf8. intros H Hb. rewrite (chars_split s i Hb), Forall_app in H. apply H. Qed.

Lemma utf8_sdrop s i : utf8 s -> is_char_boundary s i = true -> utf8 (sdrop i s).
Proof. unfold utf8. intros H Hb. rewrite (chars_split s i Hb), Forall_app in H. apply H. Qed.

(** Boundaries of a suffix are boundaries of the whole. *)
Lemma boundary_sdrop s i j :
  is_char_boundary s i = true -> is_char_boundary (sdrop i s) j = true ->
  is_char_boundary s (i + j) = true.
Proof.
  intros Hi Hj. pose proof (boundary_le _ _ Hi). pose proof (boundary_le _ _ Hj) as Hle.
  rewrite sdrop_length in Hle.
  destruct (boundary_drop _ _ Hj) as [->|Hc]; [by rewrite Nat.add_0_r|].
  rewrite sdrop_sdrop in Hc. unfold is_char_boundary.
  apply orb_true_iff; right. rewrite Hc. rewrite andb_true_r. apply Nat.leb_le. lia.
Qed.

Lemma boundary_stake s i j :
  is_char_boundary s j = true -> (j <= i)%nat -> is_char_boundary (stake i s) j = true.
Proof.
  intros Hj Hle. pose proof (boundary_le _ _ Hj) as Hlen. unfold is_char_boundary.
  destruct (decide (j = 0%nat)) as [->|Hne]; [done|].
  apply orb_true_iff; right. apply andb_true_iff; split.
  - apply Nat.leb_le. rewrite stake_length. lia.
  - destruct (boundary_drop _ _ Hj) as [?|Hc]; [done|]. apply negb_true_iff.
    clear Hj Hlen Hne. revert i s Hle Hc. induction j; intros i s Hle Hc.
    + destruct i, s; simpl in *; auto.
    + destruct i as [|i]; [lia|]. destruct s as [|b s]; simpl in *; [done|]. apply IHj; [lia|done].
Qed.

Lemma floor_boundary_ok s i : is_char_boundary s (floor_boundary s i) = true.
Proof. induction i; simpl; [done|]. destruct (is_char_boundary s (S i)) eqn:H; auto. Qed.

Lemma floor_boundary_le s i : (floor_boundary s i <= i)%nat.
Proof. induction i; simpl; [done|]. destruct (is_char_boundary s (S i)); lia. Qed.

Lemma floor_boundary_max s i j :
  (j <= i)%nat -> is_char_boundary s j = true -> (j <= floor_boundary s i)%nat.
Proof.
  induction i; simpl; intros Hle Hj; [lia|].
  destruct (is_char_boundary s (S i)) eqn:H; [lia|].
  destruct (decide (j = S i)) as [->|]; [congruence|]. apply IHi; [lia|done].
Qed.

Lemma floor_boundary_fix s i : is_char_boundary s i = true -> floor_boundary s i = i.
Proof. intros H. destruct i; simpl; by rewrite ?H. Qed.

Lemma floor_char_boundary_ok s i : is_char_boundary s (floor_char_boundary s i) = true.
Proof. unfold floor_char_boundary. case_match; [apply boundary_all|apply floor_boundary_ok]. Qed.

Lemma floor_char_boundary_le s i : N.of_nat (floor_char_boundary s i) <= i.
Proof.
  unfold floor_char_boundary, slen. destruct (N.leb_spec (N.of_nat (String.length s)) i); [done|].
  pose proof (floor_boundary_le s (N.to_nat i)). lia.
Qed.

#[export] Hint Resolve floor_boundary_ok floor_char_boundary_ok boundary_all boundary_0 : ciao.

(** ** Truncation *)

(** What a truncation keeps: a prefix on a character boundary, within the bound, and no
    boundary within the bound lies beyond it. *)
Lemma truncate_utf8_spec value bound out cut :
  truncate_utf8 value bound = (out, cut) ->
  exists i, is_char_boundary value i = true /\ out = stake i value /\ slen out <= N.max bound 0
    /\ (cut = false -> out = value) /\ (cut = true -> bound < slen value)
    /\ (forall j, N.of_nat j <= bound -> is_char_boundary value j = true -> (j <= i)%nat).
Proof.
  unfold truncate_utf8. destruct (N.leb_spec (slen value) bound) as [Hle|Hgt]; intros [= <- <-].
  - exists (String.length value). rewrite stake_all by done.
    repeat split; auto with ciao; try lia. intros j _ Hj. by apply boundary_le in Hj.
  - exists (floor_boundary value (N.to_nat bound)).
    pose proof (floor_boundary_le value (N.to_nat bound)).
    repeat split; auto with ciao; try done.
    + unfold slen. rewrite stake_length. lia.
    + intros j Hj Hb. apply floor_boundary_max; [lia|done].
Qed.

(** ** JSON lengths *)

Lemma json_escaped_len_pos c : char_shape c -> 0 < json_escaped_len c.
Proof.
  destruct c as [|b [|b' c]]; simpl; [done| |]; intros _.
  - repeat case_match; lia.
  - unfold slen. simpl. lia.
Qed.

Lemma json_string_len_split s i :
  is_char_boundary s i = true ->
  json_string_len s = json_string_len (stake i s) + json_string_len (sdrop i s).
Proof.
  intros Hb. unfold json_string_len. rewrite (chars_split s i Hb), fmap_app.
  induction (json_escaped_len <$> chars (stake i s)); simpl; lia.
Qed.

Definition json_len_of (cs : list string) : N := foldr N.add 0 (json_escaped_len <$> cs).

#[global] Arguments json_escaped_len : simpl never.
#[global] Arguments json_string_len : simpl never.

Lemma json_len_of_cons c cs : json_len_of (c :: cs) = json_escaped_len c + json_len_of cs.
Proof. done. Qed.

Lemma json_prefix_loop_spec cs index encoded budget :
  encoded <= budget ->
  exists p r, cs = p ++ r
    /\ json_prefix_loop cs index encoded budget = (index + String.length (sconcat p))%nat
    /\ encoded + json_len_of p <= budget
    /\ match r with [] => True | c :: _ => budget < encoded + json_len_of p + json_escaped_len c end.
Proof.
  revert index encoded. induction cs as [|c cs IH]; intros index encoded He; simpl.
  - exists [], []. unfold json_len_of. simpl. repeat split; lia.
  - destruct (N.ltb_spec budget (encoded + json_escaped_len c)) as [Hlt|Hge].
    + exists [], (c :: cs). unfold json_len_of. simpl. repeat split; lia.
    + destruct (IH (index + String.length c)%nat _ Hge) as (p & r & -> & Hi & Hp & Hr).
      exists (c :: p), r. rewrite json_len_of_cons, sconcat_cons, str_length_app.
      repeat split; [rewrite Hi; lia|lia|]. destruct r; [done|lia].
Qed.

(** [json_prefix_within] finds the longest prefix, on a character boundary, that encodes
    within the budget. *)
Lemma json_prefix_within_spec s budget :
  is_char_boundary s (json_prefix_within s budget) = true
  /\ json_string_len (stake (json_prefix_within s budget) s) <= budget
  /\ (forall j, is_char_boundary s j = true -> json_string_len (stake j s) <= budget ->
      (j <= json_prefix_within s budget)%nat).
Proof.
  unfold json_prefix_within.
  destruct (json_prefix_loop_spec (chars s) 0 0 budget) as (p & r & Hc & Hi & Hp & Hr); [lia|].
  rewrite Hi, Nat.add_0_l. destruct (boundary_of_split _ _ _ Hc) as (Hb & Hst & Hcp & Hsd).
  assert (json_string_len (sconcat p) = json_len_of p) as Hjp by (unfold json_string_len; by rewrite Hcp).
  repeat split; [done|rewrite Hst, Hjp; lia|].
  intros j Hj Hjb. destruct (decide (j <= String.length (sconcat p))%nat) as [|Hgt]; [done|exfalso].
  assert (is_char_boundary (stake j s) (String.length (sconcat p)) = true) as Hb'
    by (apply boundary_stake; [done|lia]).
  rewrite (json_string_len_split _ _ Hb'), stake_stake, Hst, Hjp in Hjb by lia.
  (* the part between the two boundaries is a prefix of [r] and is not empty *)
  pose proof (chars_split _ _ Hj) as Hsj. pose proof (chars_split _ _ Hb') as Hsp.
  rewrite stake_stake, Hst, Hcp in Hsp by lia.
  rewrite Hsj, Hsp, <- app_assoc in Hc. apply app_inv_head in Hc.
  unfold json_string_len in Hjb.
  destruct (chars (sdrop (String.length (sconcat p)) (stake j s))) as [|c cs] eqn:Hcs.
  - pose proof (sconcat_chars (sdrop (String.length (sconcat p)) (stake j s))) as He.
    rewrite Hcs in He. simpl in He. apply (f_equal String.length) in He.
    rewrite sdrop_length, stake_length in He. apply boundary_le in Hj. simpl in He. lia.
  - simpl in Hc. subst r. simpl in Hjb. lia.
Qed.

(** Below the encoded length of the whole text, the prefix is strictly shorter. *)
Lemma json_prefix_within_lt s budget :
  budget < json_string_len s -> (json_prefix_within s budget < String.length s)%nat.
Proof.
  intros Hlt. destruct (json_prefix_within_spec s budget) as (Hb & Hle & _).
  pose proof (boundary_le _ _ Hb).
  destruct (decide (json_prefix_within s budget = String.length s)) as [He|]; [|lia].
  rewrite He, stake_all in Hle by done. lia.
Qed.

Lemma json_string_len_nil : json_string_len "" = 0.
Proof. done. Qed.

Lemma json_string_len_pos s : s <> ""%string -> 0 < json_string_len s.
Proof.
  intros Hs. unfold json_string_len. pose proof (chars_chars_shape s) as [Hsh _].
  pose proof (sconcat_chars s) as Hc. destruct (chars s) as [|c cs]; simpl in *; [by subst|].
  apply Forall_cons in Hsh as [Hsh _]. apply json_escaped_len_pos in Hsh. lia.
Qed.

(** ** Hexadecimal *)

Lemma of_be_bytes_app l k : of_be_bytes (l ++ k) = of_be_bytes l * 256 ^ len k + of_be_bytes k.
Proof.
  induction l as [|b l IH]; simpl; [lia|]. rewrite IH, len_app, N.pow_add_r. lia.
Qed.

Lemma be_bytes_length n v : length (be_bytes n v) = n.
Proof. induction n; simpl; auto. Qed.

Lemma be_bytes_byte n v : Forall (fun b => b < 256) (be_bytes n v).
Proof. induction n; simpl; constructor; auto. by apply N.mod_lt. Qed.

(** Writing a number big-endian in [n] bytes and reading it back. *)
Lemma of_be_bytes_be_bytes n v : of_be_bytes (be_bytes n v) = v mod 256 ^ N.of_nat n.
Proof.
  induction n as [|n IH]; cbn [be_bytes of_be_bytes]; [by rewrite N.mod_1_r|].
  rewrite IH. unfold len. rewrite be_bytes_length.
  rewrite Nat2N.inj_succ, N.pow_succ_r'.
  rewrite (N.mul_comm 256), N.Div0.mod_mul_r. lia.
Qed.

Lemma be_bytes_of_be_bytes l :
  Forall (fun b => b < 256) l -> be_bytes (length l) (of_be_bytes l) = l
  /\ of_be_bytes l < 256 ^ len l.
Proof.
  induction 1 as [|b l Hb Hl [IH1 IH2]]; cbn [be_bytes of_be_bytes length]; [done|].
  fold (len l). rewrite len_cons, N.pow_add_r, N.pow_1_r.
  assert (256 ^ len l <> 0) by (apply N.pow_nonzero; lia).
  split; [|nia]. f_equal.
  - rewrite N.div_add_l, (N.div_small _ _ IH2), N.add_0_r by done. by apply N.mod_small.
  - transitivity (be_bytes (length l) (of_be_bytes l)); [|done]. clear -IH2.
    assert (forall n v k, be_bytes n (k * 256 ^ N.of_nat n + v) = be_bytes n v) as H.
    { induction n as [|n IHn]; intros v k; cbn [be_bytes]; [done|].
      rewrite Nat2N.inj_succ, N.pow_succ_r'. f_equal.
      - replace (k * (256 * 256 ^ N.of_nat n) + v) with ((k * 256) * 256 ^ N.of_nat n + v) by lia.
        rewrite N.div_add_l by (apply N.pow_nonzero; lia).
        rewrite N.add_comm, N.Div0.mod_add. done.
      - replace (k * (256 * 256 ^ N.of_nat n) + v) with ((k * 256) * 256 ^ N.of_nat n + v) by lia.
        apply IHn. }
    apply H.
Qed.

Lemma hex_digit_value_all : forallb (fun n =>
  bool_decide (hex_value (hex_digit (N.of_nat n)) = Some (N.of_nat n))
  && is_ascii_hexdigit (hex_digit (N.of_nat n))
  && is_ascii_alphanumeric (hex_digit (N.of_nat n))) (seq 0 16) = true.
Proof. vm_compute. reflexivity. Qed.

Lemma hex_digit_value n : n < 16 ->
  hex_value (hex_digit n) = Some n /\ is_ascii_hexdigit (hex_digit n) = true
  /\ is_ascii_alphanumeric (hex_digit n) = true.
Proof.
  intros Hn. pose proof hex_digit_value_all as H. rewrite forallb_forall in H.
  specialize (H (N.to_nat n)). rewrite N2Nat.id in H.
  apply andb_true_iff in H as [H H3]; [|apply in_seq; lia].
  apply andb_true_iff in H as [H1 H2]. by apply bool_decide_eq_true in H1.
Qed.

Lemma hex_cons b l : hex (b :: l) = (hex_byte b +:+ hex l)%string.
Proof. done. Qed.

Lemma hex_facts l : Forall (fun b => b < 256) l ->
  decode_hex_pairs (hex l) = Some l /\ String.length (hex l) = (2 * length l)%nat
  /\ sall is_ascii_hexdigit (hex l) = true /\ sall is_ascii_alphanumeric (hex l) = true.
Proof.
  induction 1 as [|b l Hb Hl (IH1 & IH2 & IH3 & IH4)]; [done|].
  rewrite hex_cons. unfold hex_byte.
  assert (b / 16 < 16) by (apply N.Div0.div_lt_upper_bound; lia).
  assert (b mod 16 < 16) by (apply N.mod_lt; lia).
  destruct (hex_digit_value (b / 16)) as (Hh1 & Hh2 & Hh3); [done|].
  destruct (hex_digit_value (b mod 16)) as (Hl1 & Hl2 & Hl3); [done|].
  repeat split.
  - cbn -[hex N.mul]. rewrite Hh1, Hl1. cbn -[hex N.mul]. rewrite IH1. cbn.
    do 2 f_equal. pose proof (N.div_mod b 16). lia.
  - cbn -[hex]. rewrite IH2. lia.
  - cbn -[hex]. by rewrite Hh2, Hl2.
  - cbn -[hex]. by rewrite Hh3, Hl3.
Qed.

(** Distinct 128-bit draws print as distinct identifiers. *)
Lemma format_u128_inj a b :
  a <= u128_max -> b <= u128_max -> format_u128 a = format_u128 b -> a = b.
Proof.
  intros Ha Hb. unfold format_u128. rewrite !N.mod_small by (unfold u128_max in *; lia).
  intros Heq. destruct (hex_facts _ (be_bytes_byte 16 a)) as (Hda & _).
  destruct (hex_facts _ (be_bytes_byte 16 b)) as (Hdb & _).
  rewrite Heq, Hdb in Hda.
  assert (be_bytes 16 b = be_bytes 16 a) as Hab by congruence. clear Heq Hda Hdb.
  apply (f_equal of_be_bytes) in Hab. rename Hab into Hda. rewrite !of_be_bytes_be_bytes in Hda.
  change (256 ^ N.of_nat 16) with (u128_max + 1) in Hda.
  rewrite !N.mod_small in Hda by lia. done.
Qed.

Lemma format_u128_shape v :
  String.length (format_u128 v) = 32%nat /\ sall is_ascii_alphanumeric (format_u128 v) = true.
Proof.
  unfold format_u128. destruct (hex_facts _ (be_bytes_byte 16 (v mod (u128_max + 1)))) as (_ & H & _ & ?).
  split; [|done]. rewrite H. by rewrite be_bytes_length.
Qed.

(** Boundaries of a prefix cut on a boundary are boundaries of the whole. *)
Lemma boundary_unstake s i j :
  is_char_boundary s i = true -> is_char_boundary (stake i s) j = true ->
  is_char_boundary s j = true /\ (j <= i)%nat.
Proof.
  intros Hi Hj. pose proof (boundary_le _ _ Hi). pose proof (boundary_le _ _ Hj) as Hle.
  rewrite stake_length in Hle. split; [|lia].
  destruct (decide (j = 0%nat)) as [->|Hne]; [done|].
  destruct (decide (j = i)) as [->|Hij]; [done|].
  destruct (boundary_drop _ _ Hj) as [?|Hc]; [done|].
  unfold is_char_boundary. apply orb_true_iff; right. apply andb_true_iff; split.
  - apply Nat.leb_le. lia.
  - apply negb_true_iff. clear Hi Hj H Hne. revert i s Hle Hij Hc.
    induction j; intros i s Hle Hij Hc.
    + destruct i as [|i]; [lia|]. by destruct s.
    + destruct i as [|i]; [lia|]. destruct s as [|b s]; simpl in *; [done|].
      apply (IHj i); [lia|lia|done].
Qed.

(** The floor of a bound under the length, as [cut_to_head] takes it. *)
Lemma floor_min_boundary s k :
  is_char_boundary s k = true -> floor_boundary s (N.to_nat (N.min (N.of_nat k) (slen s))) = k.
Proof.
  intros Hk. pose proof (boundary_le _ _ Hk). unfold slen.
  rewrite N.min_l, Nat2N.id by lia. by apply floor_boundary_fix.
Qed.

Lemma drop_while_suffix {A} (p : A -> bool) (l : list A) : exists k, l = k ++ drop_while p l.
Proof.
  induction l as [|x l [k IH]]; [by exists []|]. cbn. destruct (p x); [|by exists []].
  exists (x :: k). cbn. by rewrite <- IH.
Qed.

(** Trimming the end leaves a prefix. *)
Lemma trim_end_prefix s : exists rest, s = (trim_end s +:+ rest)%string.
Proof.
  unfold trim_end. destruct (drop_while_suffix is_whitespace (reverse (chars s))) as [k Hk].
  exists (sconcat (reverse k)). rewrite <- sconcat_app, <- reverse_app, <- Hk, reverse_involutive.
  by rewrite sconcat_chars.
Qed.

Lemma truncate_on_char_boundary_le text limit : slen (truncate_on_char_boundary text limit) <= limit.
Proof.
  unfold truncate_on_char_boundary. destruct (N.leb_spec (slen text) limit); [done|].
  set (cut := stake _ text). destruct (trim_end_prefix cut) as [rest Hr].
  apply (f_equal String.length) in Hr. rewrite str_length_app in Hr.
  unfold cut in Hr at 1. rewrite stake_length in Hr. pose proof (floor_boundary_le text (N.to_nat limit)).
  unfold slen. lia.
Qed.

Lemma utf8_app a b : utf8 a -> utf8 b -> starts_cont b = false -> utf8 (a +:+ b)%string.
Proof. unfold utf8. intros Ha Hb Hc. rewrite chars_app by done. by apply Forall_app. Qed.

Lemma utf8_starts s : utf8 s -> starts_cont s = false.
Proof.
  unfold utf8. rewrite chars_starts. intros [|c cs Hc Hcs]; [done|]. destruct c as [|x c]; [done|]. cbn [starts_cont].
  unfold utf8_char in Hc. cbn [String.list_ascii_of_string fmap list_fmap] in Hc. unfold is_cont.
  destruct (N.leb_spec 128 (nb x)), (N.ltb_spec (nb x) 192); cbn [andb]; try done. exfalso.
  destruct c as [|x1 [|x2 [|x3 [|x4 c]]]]; cbn [String.list_ascii_of_string fmap list_fmap] in Hc; b2p; try lia; try done.
  all: repeat match goal with H : _ || _ = true |- _ => apply orb_prop in H as [H|H] end; b2p; lia.
Qed.

Lemma utf8_append a b : utf8 a -> utf8 b -> utf8 (a +:+ b)%string.
Proof. intros Ha Hb. by apply utf8_app, utf8_starts. Qed.

#[export] Instance utf8_decision s : Decision (utf8 s).
Proof. unfold utf8. apply _. Defined.

(** [String::from_utf8]. *)
Definition from_utf8 (s : string) : option string := if bool_decide (utf8 s) then Some s else None.
