(* ===== verification/HostProtocol.v ===== *)
(** The vocabulary of [host_protocol.rs]: its constants and errors, the tokens it validates, stream
    kinds, terminal targets and dimensions. *)
From S2P Require Import Prelude Text.

Local Open Scope N_scope.

(** ** Constants *)

Definition HOST_PROTOCOL_VERSION : N := 1.
Definition STREAM_KIND_RPC : N := 1.
Definition STREAM_KIND_TERMINAL : N := 2.
Definition STREAM_KIND_AGENT : N := 3.
Definition STREAM_KIND_UPLOAD : N := 5.
Definition STREAM_KIND_DOWNLOAD : N := 7.
Definition STREAM_KIND_FORWARD : N := 8.
Definition STREAM_KIND_PEERS : N := 9.
Definition MAX_RPC_BODY : N := 16 * 1024.
Definition MAX_OPEN_PAYLOAD : N := 4 * 1024.
Definition MAX_OPENED_PAYLOAD : N := 4 * 1024.
Definition MAX_EXIT_PAYLOAD : N := 1024.
Definition MAX_ERROR_PAYLOAD : N := 1024.
Definition MAX_DATA_PAYLOAD : N := 16 * 1024.
Definition MAX_TERMINAL_STREAMS : N := 1.
Definition MAX_INCOMING_BIDI_STREAMS : N := 8.
Definition MAX_SESSIONS_PER_PROVIDER : N := 64.
Definition MAX_TABS_PER_SESSION : N := 128.
Definition MAX_TAB_ID_BYTES : N := 64.
Definition MAX_TAB_LABEL_BYTES : N := 64.
Definition MAX_TAB_STATUS_BYTES : N := 16.
Definition MAX_TAB_AGENT_BYTES : N := 32.
Definition MAX_SESSION_NAME_BYTES : N := 64.
Definition MAX_CAPABILITY_ENTRIES : N := 16.
Definition MAX_CAPABILITY_BYTES : N := 64.
Definition MAX_PROVIDER_VERSION_BYTES : N := 64.
Definition MAX_HOST_DISPLAY_NAME_BYTES : N := 64.
Definition MAX_HOST_METADATA_TOKEN_BYTES : N := 32.
Definition CAPABILITY_TERMINAL_SHELL : string := "terminal.shell".
Definition CAPABILITY_HOST_INFO : string := "host.info".
Definition CAPABILITY_WORKSPACE_SNAPSHOT : string := "workspace.snapshot".
Definition CAPABILITY_TERMINAL_TMUX : string := "terminal.tmux".
Definition CAPABILITY_TERMINAL_HERDR : string := "terminal.herdr".
Definition CAPABILITY_AGENT_SESSION : string := "agent.session.v1".
Definition CAPABILITY_AGENT_SESSION_MANAGED : string := "agent.session.managed.v1".
Definition CAPABILITY_AGENT_SESSION_ADOPTED : string := "agent.session.adopted.v1".
Definition CAPABILITY_TERMINAL_AGENT_ROUTE : string := "terminal.agent_route.v1".
Definition CAPABILITY_NOTIFICATIONS_REGISTER : string := "notifications.register".
Definition CAPABILITY_LIVE_ACTIVITY_REGISTER : string := "live_activity.register".
Definition MAX_LIVE_ACTIVITY_SELECTIONS : N := 8.
Definition CAPABILITY_FILE_PUT : string := "file.put.v1".
Definition CAPABILITY_FILE_GET : string := "file.get.v1".
Definition CAPABILITY_PORT_FORWARD : string := "port.forward.v1".
Definition CAPABILITY_WORKSPACE_TABS : string := "workspace.tabs.v1".
Definition CAPABILITY_TERMINAL_COMMANDS : string := "terminal.commands.v1".
Definition MIN_PUSH_TICKET_BYTES : N := 64.
Definition MAX_PUSH_TICKET_BYTES : N := 512.
Definition PROVIDER_STATE_AVAILABLE : string := "available".
Definition PROVIDER_STATE_NOT_INSTALLED : string := "not_installed".
Definition PROVIDER_STATE_UNSUPPORTED_VERSION : string := "unsupported_version".
Definition PROVIDER_STATE_ERROR : string := "error".

(** [slash_commands.rs]. *)
Definition MAX_SLASH_COMMANDS : N := 256.
Definition MAX_COMMAND_NAME_BYTES : N := 64.
Definition MAX_COMMAND_ALIASES : N := 4.
Definition MAX_COMMAND_HINT_BYTES : N := 64.
Definition MAX_COMMAND_DESCRIPTION_BYTES : N := 96.

(** ** Errors *)

Inductive HostProtocolError :=
| Truncated | UnsupportedVersion | UnknownStreamKind | PrefaceTimeout | ZeroLength | FrameTooLarge
| MalformedJson | InvalidRequestId | UnsupportedMethod | InvalidDimensions | UnsupportedTarget
| InvalidTarget | InvalidTerminalId | InvalidControlValue | UnknownFrameType | UnexpectedDirection
| UnexpectedOrder | Io (e : io_error).

#[export] Instance HostProtocolError_eq_dec : EqDecision HostProtocolError.
Proof. solve_decision. Defined.

Abbreviation verdict := (result HostProtocolError unit).

(** ** Tokens *)

Definition is_ascii_lowercase (b : ascii) : bool := (97 <=? nb b) && (nb b <=? 122).
Definition is_ascii_graphic (b : ascii) : bool := (33 <=? nb b) && (nb b <=? 126).
Definition is_byte (codes : list N) (b : ascii) : bool := existsb (N.eqb (nb b)) codes.
Definition within (minimum maximum : N) (n : N) : bool := (minimum <=? n) && (n <=? maximum).

(** [char::is_control]: the categories Cc, on encoded characters. *)
Definition is_control (c : string) : bool :=
  match nb <$> String.list_ascii_of_string c with
  | [a] => (a <? 32) || (a =? 127)
  | [a; b] => (a =? 194) && (128 <=? b) && (b <=? 159)
  | _ => false
  end.

Definition valid_push_ticket (value : string) : bool :=
  within MIN_PUSH_TICKET_BYTES MAX_PUSH_TICKET_BYTES (slen value)
  && sall (fun b => is_ascii_alphanumeric b || is_byte [45; 95] b) value.

Definition first_byte (p : ascii -> bool) (value : string) : bool :=
  match shead value with Some b => p b | None => false end.

Definition valid_session_name (name : string) : bool :=
  negb (slen name =? 0) && (slen name <=? MAX_SESSION_NAME_BYTES)
  && first_byte is_ascii_alphanumeric name
  && sall (fun b => is_ascii_alphanumeric b || (nb b =? 95) || (nb b =? 45)) name.

Definition valid_tab_id (id : string) : bool :=
  negb (slen id =? 0) && (slen id <=? MAX_TAB_ID_BYTES)
  && first_byte (fun b => is_ascii_alphanumeric b || (nb b =? 64)) id
  && existsb is_ascii_alphanumeric (String.list_ascii_of_string id)
  && sall (fun b => is_ascii_alphanumeric b || is_byte [64; 58; 46; 95; 45] b) id.

Definition valid_tab_label (label : string) : bool :=
  negb (slen label =? 0) && (slen label <=? MAX_TAB_LABEL_BYTES) && negb (existsb is_control (chars label)).

Definition valid_tab_status (status : string) : bool :=
  negb (slen status =? 0) && (slen status <=? MAX_TAB_STATUS_BYTES)
  && sall (fun b => is_ascii_lowercase b || (nb b =? 95)) status.

Definition valid_tab_agent (agent : string) : bool :=
  negb (slen agent =? 0) && (slen agent <=? MAX_TAB_AGENT_BYTES)
  && first_byte is_ascii_lowercase agent
  && sall (fun b => is_ascii_lowercase b || is_ascii_digit b || is_byte [45; 95] b) agent.

Definition valid_live_activity_session_id (value : string) : bool :=
  negb (slen value =? 0) && (slen value <=? 64)
  && sall (fun b => is_ascii_alphanumeric b || is_byte [46; 95; 45] b) value.

(** Controls, line separators and bidirectional overrides, on encoded characters. *)
Definition display_forbidden (c : string) : bool :=
  match nb <$> String.list_ascii_of_string c with
  | [a] => (a <? 32) || (a =? 127)
  | [a; b] => (a =? 194) && within 128 159 b
  | [a; b; d] =>
      (a =? 226)
      && (((b =? 128) && ((d =? 168) || (d =? 169) || within 170 174 d))
          || ((b =? 129) && within 166 169 d))
  | _ => false
  end.

Definition valid_host_display_name (value : string) : bool :=
  negb ((slen value =? 0) || (MAX_HOST_DISPLAY_NAME_BYTES <? slen value) || negb (trim value =s? value))
  && forallb (fun c => negb (display_forbidden c)) (chars value).

Definition normalize_host_display_name (value : string) : option string :=
  let normalized := trim value in
  if valid_host_display_name normalized then Some normalized else None.

Definition valid_host_metadata_token (value : string) : bool :=
  negb (slen value =? 0) && (slen value <=? MAX_HOST_METADATA_TOKEN_BYTES)
  && sall (fun b => is_ascii_lowercase b || is_ascii_digit b || is_byte [46; 95; 45] b) value.

Definition is_lower_hex (b : ascii) : bool := is_ascii_digit b || within 97 102 (nb b).

Definition valid_machine_token (value : string) : bool := (slen value =? 32) && sall is_lower_hex value.

Definition validate_endpoint_id_text (value : string) : verdict :=
  refuse_if (negb ((slen value =? 64) && sall is_lower_hex value)) InvalidControlValue.

Definition validate_code_and_message (code message : string) : verdict :=
  refuse_if ((slen code =? 0) || (64 <? slen code)
             || negb (sall (fun b => is_ascii_lowercase b || is_ascii_digit b || (nb b =? 95)) code)
             || (256 <? slen message)) InvalidControlValue.

(** ** Stream kinds *)

Inductive StreamKind :=
| StreamPeers | StreamRpc | StreamTerminal | StreamAgent | StreamUpload | StreamDownload | StreamForward.

#[export] Instance StreamKind_eq_dec : EqDecision StreamKind.
Proof. solve_decision. Defined.

Definition StreamKind_byte (k : StreamKind) : N :=
  match k with
  | StreamPeers => STREAM_KIND_PEERS | StreamRpc => STREAM_KIND_RPC | StreamTerminal => STREAM_KIND_TERMINAL
  | StreamAgent => STREAM_KIND_AGENT | StreamUpload => STREAM_KIND_UPLOAD
  | StreamDownload => STREAM_KIND_DOWNLOAD | StreamForward => STREAM_KIND_FORWARD
  end.

Definition StreamKind_from_byte (value : N) : result HostProtocolError StreamKind :=
  if value =? STREAM_KIND_PEERS then Ok StreamPeers
  else if value =? STREAM_KIND_RPC then Ok StreamRpc
  else if value =? STREAM_KIND_TERMINAL then Ok StreamTerminal
  else if value =? STREAM_KIND_AGENT then Ok StreamAgent
  else if value =? STREAM_KIND_UPLOAD then Ok StreamUpload
  else if value =? STREAM_KIND_DOWNLOAD then Ok StreamDownload
  else if value =? STREAM_KIND_FORWARD then Ok StreamForward
  else Err UnknownStreamKind.

Definition encode_stream_preface (kind : StreamKind) : bytes := [HOST_PROTOCOL_VERSION; StreamKind_byte kind].

Definition decode_stream_preface (version kind : N) : result HostProtocolError StreamKind :=
  refuse_if (negb (version =? HOST_PROTOCOL_VERSION)) UnsupportedVersion ?;
  StreamKind_from_byte kind.

(** ** Terminal targets *)

Inductive ProviderKind := ProviderTmux | ProviderHerdr.

#[export] Instance ProviderKind_eq_dec : EqDecision ProviderKind.
Proof. solve_decision. Defined.

Definition ProviderKind_wire (p : ProviderKind) : string :=
  match p with ProviderTmux => "tmux" | ProviderHerdr => "herdr" end.

Inductive TerminalTarget := Shell | TmuxAttach | TmuxCreate | HerdrAttach | HerdrCreate | AgentRoute.

#[export] Instance TerminalTarget_eq_dec : EqDecision TerminalTarget.
Proof. solve_decision. Defined.

Definition TerminalTarget_from_wire (value : string) : option TerminalTarget :=
  if value =s? "shell" then Some Shell
  else if value =s? "tmux.attach" then Some TmuxAttach
  else if value =s? "tmux.create" then Some TmuxCreate
  else if value =s? "herdr.attach" then Some HerdrAttach
  else if value =s? "herdr.create" then Some HerdrCreate
  else if value =s? "agent_route" then Some AgentRoute
  else None.

Definition TerminalTarget_wire (t : TerminalTarget) : string :=
  match t with
  | Shell => "shell" | TmuxAttach => "tmux.attach" | TmuxCreate => "tmux.create"
  | HerdrAttach => "herdr.attach" | HerdrCreate => "herdr.create" | AgentRoute => "agent_route"
  end.

Definition TerminalTarget_provider (t : TerminalTarget) : option ProviderKind :=
  match t with
  | Shell | AgentRoute => None
  | TmuxAttach | TmuxCreate => Some ProviderTmux
  | HerdrAttach | HerdrCreate => Some ProviderHerdr
  end.

Definition requires_session (t : TerminalTarget) : bool :=
  match t with Shell => false | _ => true end.

(** ** Dimensions *)

Definition MIN_COLS : N := 2.
Definition MAX_COLS : N := 500.
Definition MIN_ROWS : N := 1.
Definition MAX_ROWS : N := 300.
Definition MAX_PIXEL : N := 16384.

Record Dimensions := mkDimensions { dm_cols : N; dm_rows : N; dm_pixel_width : N; dm_pixel_height : N }.

#[export] Instance Dimensions_eq_dec : EqDecision Dimensions.
Proof. solve_decision. Defined.

Definition Dimensions_validate (d : Dimensions) : verdict :=
  refuse_if (negb (within MIN_COLS MAX_COLS (dm_cols d)) || negb (within MIN_ROWS MAX_ROWS (dm_rows d))
             || (MAX_PIXEL <? dm_pixel_width d) || (MAX_PIXEL <? dm_pixel_height d)) InvalidDimensions.

Definition encode_resize (d : Dimensions) : result HostProtocolError bytes :=
  Dimensions_validate d ?;
  Ok (be_bytes 2 (dm_cols d) ++ be_bytes 2 (dm_rows d) ++ be_bytes 2 (dm_pixel_width d)
      ++ be_bytes 2 (dm_pixel_height d)).

Definition decode_resize (payload : bytes) : result HostProtocolError Dimensions :=
  refuse_if (negb (len payload =? 8)) InvalidDimensions ?;
  let field n := of_be_bytes (take 2 (drop n payload)) in
  let d := mkDimensions (field 0%nat) (field 2%nat) (field 4%nat) (field 6%nat) in
  Dimensions_validate d ?;
  Ok d.

(** ** Round trips *)

Lemma StreamKind_roundtrip kind : StreamKind_from_byte (StreamKind_byte kind) = Ok kind.
Proof. by destruct kind. Qed.

Lemma StreamKind_from_byte_ok value kind : StreamKind_from_byte value = Ok kind <-> StreamKind_byte kind = value.
Proof.
  split; [|intros <-; apply StreamKind_roundtrip].
  unfold StreamKind_from_byte. repeat (case_match; [b2p; subst; by intros [= <-]|]). done.
Qed.

Lemma TerminalTarget_from_wire_ok value target :
  TerminalTarget_from_wire value = Some target <-> TerminalTarget_wire target = value.
Proof.
  split; [|by intros <-; destruct target].
  unfold TerminalTarget_from_wire. repeat (case_match; [b2p; subst; by intros [= <-]|]). done.
Qed.

Lemma of_be_two n : n < 2 ^ 16 -> of_be_bytes (be_bytes 2 n) = n.
Proof. intros H. rewrite of_be_bytes_be_bytes. by apply N.mod_small. Qed.

Lemma resize_roundtrip d payload : encode_resize d = Ok payload -> decode_resize payload = Ok d.
Proof.
  unfold encode_resize. rewrite rbind_unit_ok. intros [Hv Hp].
  assert (dm_cols d < 2 ^ 16 /\ dm_rows d < 2 ^ 16 /\ dm_pixel_width d < 2 ^ 16 /\ dm_pixel_height d < 2 ^ 16)
    as (H1 & H2 & H3 & H4).
  { unfold Dimensions_validate, within in Hv. ok_inv Hv. b2p.
    unfold MAX_COLS, MAX_ROWS, MAX_PIXEL in *. lia. }
  assert (payload = be_bytes 2 (dm_cols d) ++ be_bytes 2 (dm_rows d) ++ be_bytes 2 (dm_pixel_width d)
            ++ be_bytes 2 (dm_pixel_height d)) as -> by congruence.
  unfold decode_resize. rewrite !len_app. cbn [refuse_if rbind].
  change (len (be_bytes 2 _) + (len (be_bytes 2 _) + (len (be_bytes 2 _) + len (be_bytes 2 _))) =? 8) with true.
  cbn [negb refuse_if rbind].
  assert (forall v rest, take 2 (be_bytes 2 v ++ rest) = be_bytes 2 v /\ drop 2 (be_bytes 2 v ++ rest) = rest) as Htwo
    by done.
  cbv zeta. rewrite !drop_0.
  change (drop 4 ?x) with (drop 2 (drop 2 x)). change (drop 6 ?x) with (drop 2 (drop 2 (drop 2 x))).
  repeat (rewrite (proj1 (Htwo _ _)) || rewrite (proj2 (Htwo _ _))).
  change (take 2 (be_bytes 2 (dm_pixel_height d))) with (be_bytes 2 (dm_pixel_height d)).
  rewrite !of_be_two by done. destruct d. cbn in *. by rewrite Hv.
Qed.
