(* ===== verification/HostRpc.v ===== *)
(** The RPC half of [host_protocol.rs]: requests and responses with their validation, and decoding
    by method and by type. *)
From S2P Require Import Prelude Text HostProtocol.

Local Open Scope N_scope.

(** ** Identifiers *)

Section identifiers.
(** [URL_SAFE_NO_PAD.decode] of the [base64] crate. *)
Context (decode_base64 : string -> option bytes).

Definition contains_equals (value : string) : bool := existsb (is_byte [61]) (String.list_ascii_of_string value).

(** Sixteen bytes of unpadded base64url, or the given error. *)
Definition sixteen_bytes (e : HostProtocolError) (value : string) : verdict :=
  refuse_if (contains_equals value) e ?;
  let? decoded := ok_or (decode_base64 value) e in
  refuse_if (negb (len decoded =? 16)) e.

Definition validate_request_id (value : string) : verdict := sixteen_bytes InvalidRequestId value.
Definition validate_terminal_id (value : string) : verdict := sixteen_bytes InvalidTerminalId value.

(** ** Hello *)

Record HostHelloParams := mkHostHelloParams { hp_min_protocol : N; hp_max_protocol : N }.

Record HostHelloRequest := mkHostHelloRequest {
  hq_v : N; hq_message_type : string; hq_request_id : string; hq_method : string; hq_params : HostHelloParams }.

Definition HostHelloRequest_validate (r : HostHelloRequest) : verdict :=
  let minimum := hp_min_protocol (hq_params r) in
  let maximum := hp_max_protocol (hq_params r) in
  refuse_if (negb (hq_v r =? HOST_PROTOCOL_VERSION) || (HOST_PROTOCOL_VERSION <? minimum)
             || (maximum <? HOST_PROTOCOL_VERSION) || (maximum <? minimum)) UnsupportedVersion ?;
  refuse_if (negb (hq_message_type r =s? "request")) UnexpectedOrder ?;
  validate_request_id (hq_request_id r) ?;
  refuse_if (negb (hq_method r =s? "host.hello")) UnsupportedMethod.

Record HostLimits := mkHostLimits {
  hl_max_terminal_streams : N; hl_max_frame_payload_bytes : N; hl_max_cols : N; hl_max_rows : N;
  hl_max_pixel_width : N; hl_max_pixel_height : N }.

Definition HostLimits_default : HostLimits :=
  mkHostLimits MAX_TERMINAL_STREAMS MAX_DATA_PAYLOAD MAX_COLS MAX_ROWS MAX_PIXEL MAX_PIXEL.

Record HostHelloResult := mkHostHelloResult {
  hr_selected_protocol : N; hr_host_endpoint_id : string; hr_installation_endpoint_id : string;
  hr_capabilities : list string; hr_limits : HostLimits }.

Record HostHelloResponse := mkHostHelloResponse {
  hs_v : N; hs_message_type : string; hs_request_id : string; hs_result : HostHelloResult }.

Definition advertised_capabilities : list string :=
  [CAPABILITY_TERMINAL_SHELL; CAPABILITY_HOST_INFO; CAPABILITY_WORKSPACE_SNAPSHOT; CAPABILITY_TERMINAL_TMUX;
   CAPABILITY_TERMINAL_HERDR; CAPABILITY_AGENT_SESSION; CAPABILITY_AGENT_SESSION_MANAGED;
   CAPABILITY_AGENT_SESSION_ADOPTED; CAPABILITY_TERMINAL_AGENT_ROUTE; CAPABILITY_NOTIFICATIONS_REGISTER;
   CAPABILITY_LIVE_ACTIVITY_REGISTER; CAPABILITY_FILE_PUT; CAPABILITY_FILE_GET; CAPABILITY_PORT_FORWARD;
   CAPABILITY_WORKSPACE_TABS; CAPABILITY_TERMINAL_COMMANDS].

Definition HostHelloResponse_new (request_id host_endpoint_id installation_endpoint_id : string) : HostHelloResponse :=
  mkHostHelloResponse HOST_PROTOCOL_VERSION "response" request_id
    (mkHostHelloResult HOST_PROTOCOL_VERSION host_endpoint_id installation_endpoint_id advertised_capabilities
       HostLimits_default).

Definition validate_capabilities (capabilities : list string) : verdict :=
  refuse_if ((len capabilities =? 0) || (MAX_CAPABILITY_ENTRIES <? len capabilities)
             || negb (existsb (fun entry => entry =s? CAPABILITY_TERMINAL_SHELL) capabilities)
             || negb (forallb (fun entry => negb (slen entry =? 0) && (slen entry <=? MAX_CAPABILITY_BYTES)
                                            && sall is_ascii_graphic entry) capabilities)) InvalidControlValue.

Definition HostHelloResponse_validate (r : HostHelloResponse) : verdict :=
  refuse_if (negb (hs_v r =? HOST_PROTOCOL_VERSION) || negb (hs_message_type r =s? "response")
             || negb (hr_selected_protocol (hs_result r) =? HOST_PROTOCOL_VERSION)) InvalidControlValue ?;
  validate_capabilities (hr_capabilities (hs_result r)) ?;
  validate_request_id (hs_request_id r) ?;
  validate_endpoint_id_text (hr_host_endpoint_id (hs_result r)) ?;
  validate_endpoint_id_text (hr_installation_endpoint_id (hs_result r)) ?;
  let limits := hr_limits (hs_result r) in
  refuse_if ((hl_max_terminal_streams limits =? 0) || (hl_max_frame_payload_bytes limits =? 0)
             || (hl_max_cols limits <? MIN_COLS) || (hl_max_rows limits <? MIN_ROWS)) InvalidControlValue.

(** ** Errors *)

Record RpcErrorBody := mkRpcErrorBody { eb_code : string; eb_message : string }.

Record RpcErrorResponse := mkRpcErrorResponse {
  er_v : N; er_message_type : string; er_request_id : option string; er_error : RpcErrorBody }.

Definition RpcErrorResponse_new (request_id : option string) (code message : string) : RpcErrorResponse :=
  mkRpcErrorResponse HOST_PROTOCOL_VERSION "error" request_id (mkRpcErrorBody code message).

Definition RpcErrorResponse_validate (r : RpcErrorResponse) : verdict :=
  refuse_if (negb (er_v r =? HOST_PROTOCOL_VERSION) || negb (er_message_type r =s? "error")) InvalidControlValue ?;
  opt_each validate_request_id (er_request_id r) ?;
  validate_code_and_message (eb_code (er_error r)) (eb_message (er_error r)).

(** ** Requests *)

(** The envelope every plain request shares, and what the validations of three of them check. *)
Record Request (P : Type) := mkRequest {
  rq_v : N; rq_message_type : string; rq_request_id : string; rq_method : string; rq_params : P }.
Arguments mkRequest {P}.
Arguments rq_v {P}.
Arguments rq_message_type {P}.
Arguments rq_request_id {P}.
Arguments rq_method {P}.
Arguments rq_params {P}.

Definition validate_request {P} (method : string) (r : Request P) : verdict :=
  refuse_if (negb (rq_v r =? HOST_PROTOCOL_VERSION)) UnsupportedVersion ?;
  refuse_if (negb (rq_message_type r =s? "request")) UnexpectedOrder ?;
  validate_request_id (rq_request_id r) ?;
  refuse_if (negb (rq_method r =s? method)) UnsupportedMethod.

Definition new_request {P} (method request_id : string) (params : P) : Request P :=
  mkRequest HOST_PROTOCOL_VERSION "request" request_id method params.

Record WorkspaceSnapshotParams := mkWorkspaceSnapshotParams { sp_tabs : bool }.

Definition WorkspaceSnapshotRequest_validate (r : Request WorkspaceSnapshotParams) : verdict :=
  validate_request "workspace.snapshot" r.

Definition HostInfoRequest_validate (r : Request unit) : verdict := validate_request "host.info" r.

Record NotificationsRegisterParams := mkNotificationsRegisterParams { np_ticket : option string }.

Definition NotificationsRegisterRequest_validate (r : Request NotificationsRegisterParams) : verdict :=
  validate_request CAPABILITY_NOTIFICATIONS_REGISTER r ?;
  refuse_if (is_some_and (fun ticket => negb (valid_push_ticket ticket)) (np_ticket (rq_params r))) InvalidControlValue.

Record LiveActivitySelectionMutation := mkLiveActivitySelectionMutation { sm_session_id : string; sm_enabled : bool }.

Record LiveActivityRegisterParams := mkLiveActivityRegisterParams {
  lp_ticket : option string; lp_selection : option LiveActivitySelectionMutation }.

Definition LiveActivityRegisterRequest_validate (r : Request LiveActivityRegisterParams) : verdict :=
  validate_request CAPABILITY_LIVE_ACTIVITY_REGISTER r ?;
  let params := rq_params r in
  refuse_if (is_some_and (fun ticket => negb (valid_push_ticket ticket)) (lp_ticket params)
             || (is_none (lp_ticket params) && is_some (lp_selection params))
             || is_some_and (fun selection => negb (valid_live_activity_session_id (sm_session_id selection)))
                  (lp_selection params)) InvalidControlValue.

Record TerminalCommandsParams := mkTerminalCommandsParams { cp_target : string; cp_session : string }.

Definition validated_provider (r : Request TerminalCommandsParams) : result HostProtocolError ProviderKind :=
  refuse_if (negb (rq_v r =? HOST_PROTOCOL_VERSION)) UnsupportedVersion ?;
  refuse_if (negb (rq_message_type r =s? "request") || negb (rq_method r =s? CAPABILITY_TERMINAL_COMMANDS))
    InvalidControlValue ?;
  validate_request_id (rq_request_id r) ?;
  refuse_if (negb (valid_session_name (cp_session (rq_params r)))) InvalidControlValue ?;
  let? target := ok_or (TerminalTarget_from_wire (cp_target (rq_params r))) UnsupportedTarget in
  ok_or (TerminalTarget_provider target) UnsupportedTarget.

Definition TerminalCommandsRequest_validate (r : Request TerminalCommandsParams) : verdict :=
  rmap (fun _ => tt) (validated_provider r).

(** ** Responses *)

Record Response (R : Type) := mkResponse {
  rs_v : N; rs_message_type : string; rs_request_id : string; rs_result : R }.
Arguments mkResponse {R}.
Arguments rs_v {R}.
Arguments rs_message_type {R}.
Arguments rs_request_id {R}.
Arguments rs_result {R}.

Definition new_response {R} (request_id : string) (result : R) : Response R :=
  mkResponse HOST_PROTOCOL_VERSION "response" request_id result.

Definition response_envelope {R} (r : Response R) : bool :=
  negb (rs_v r =? HOST_PROTOCOL_VERSION) || negb (rs_message_type r =s? "response").

Record HostInfoResult := mkHostInfoResult {
  hi_v : N; hi_display_name : string; hi_platform : string; hi_distribution : option string;
  hi_distribution_version : option string; hi_architecture : string; hi_machine_token : option string;
  hi_version : option string }.

Definition HostInfoResult_validate (r : HostInfoResult) : verdict :=
  let bad := is_some_and (fun value => negb (valid_host_metadata_token value)) in
  refuse_if (negb (hi_v r =? HOST_PROTOCOL_VERSION) || negb (valid_host_display_name (hi_display_name r))
             || negb (existsb (String.eqb (hi_platform r)) ["macos"; "linux"]%string)
             || negb (existsb (String.eqb (hi_architecture r)) ["aarch64"; "x86_64"]%string)
             || bad (hi_distribution r) || bad (hi_distribution_version r)
             || is_some_and (fun value => negb (valid_machine_token value)) (hi_machine_token r)
             || bad (hi_version r)
             || ((hi_platform r =s? "macos") && (is_some (hi_distribution r) || is_some (hi_distribution_version r))))
    InvalidControlValue.

Definition HostInfoResponse_validate (r : Response HostInfoResult) : verdict :=
  refuse_if (response_envelope r) InvalidControlValue ?;
  validate_request_id (rs_request_id r) ?;
  HostInfoResult_validate (rs_result r).

Record NotificationsRegisterResult := mkNotificationsRegisterResult { nr_result_v : N; nr_registered : bool }.

Definition NotificationsRegisterResponse_new (request_id : string) (registered : bool)
  : Response NotificationsRegisterResult :=
  new_response request_id (mkNotificationsRegisterResult HOST_PROTOCOL_VERSION registered).

Definition NotificationsRegisterResponse_validate (r : Response NotificationsRegisterResult) : verdict :=
  refuse_if (response_envelope r || negb (nr_result_v (rs_result r) =? HOST_PROTOCOL_VERSION)) InvalidControlValue ?;
  validate_request_id (rs_request_id r).

Record LiveActivityRegisterResult := mkLiveActivityRegisterResult {
  lr_v : N; lr_registered : bool; lr_selected_sessions : N }.

Definition LiveActivityRegisterResponse_new (request_id : string) (selected_sessions : N)
  : Response LiveActivityRegisterResult :=
  new_response request_id
    (mkLiveActivityRegisterResult HOST_PROTOCOL_VERSION (0 <? selected_sessions)
       (if selected_sessions <=? 255 then selected_sessions else 255)).

Definition LiveActivityRegisterResponse_validate (r : Response LiveActivityRegisterResult) : verdict :=
  refuse_if (response_envelope r || negb (lr_v (rs_result r) =? HOST_PROTOCOL_VERSION)
             || (MAX_LIVE_ACTIVITY_SELECTIONS <? lr_selected_sessions (rs_result r))
             || negb (Bool.eqb (lr_registered (rs_result r)) (0 <? lr_selected_sessions (rs_result r))))
    InvalidControlValue ?;
  validate_request_id (rs_request_id r).

(** ** Slash commands *)

Record SlashCommand := mkSlashCommand {
  sc_name : string; sc_hint : string; sc_description : string; sc_aliases : list string; sc_terminal : bool }.

Definition command_name_byte (b : ascii) : bool := is_ascii_alphanumeric b || is_byte [45; 95; 58; 46] b.

Definition validate_slash_command (c : SlashCommand) : verdict :=
  refuse_if ((slen (sc_name c) =? 0) || (MAX_COMMAND_NAME_BYTES <? slen (sc_name c))
             || (MAX_COMMAND_HINT_BYTES <? slen (sc_hint c))
             || (MAX_COMMAND_DESCRIPTION_BYTES <? slen (sc_description c))) InvalidControlValue ?;
  refuse_if (negb (sall command_name_byte (sc_name c))) InvalidControlValue ?;
  refuse_if (MAX_COMMAND_ALIASES <? len (sc_aliases c)) InvalidControlValue ?;
  each (fun alias => refuse_if ((slen alias =? 0) || (MAX_COMMAND_NAME_BYTES <? slen alias)
                                || negb (sall command_name_byte alias)) InvalidControlValue) (sc_aliases c) ?;
  refuse_if (existsb (fun b => (nb b <? 32) || (nb b =? 127))
               (String.list_ascii_of_string (sc_hint c) ++ String.list_ascii_of_string (sc_description c)))
    InvalidControlValue.

Definition validate_slash_commands (commands : list SlashCommand) : verdict :=
  refuse_if (MAX_SLASH_COMMANDS <? len commands) InvalidControlValue ?;
  each validate_slash_command commands.

(** The result is the list of commands. *)
Definition TerminalCommandsResponse_validate (r : Response (list SlashCommand)) : verdict :=
  refuse_if (response_envelope r) InvalidControlValue ?;
  validate_request_id (rs_request_id r) ?;
  validate_slash_commands (rs_result r).

(** ** Workspace snapshots *)

Record SessionTabEntry := mkSessionTabEntry {
  st_id : string; st_label : string; st_focused : bool; st_status : option string;
  st_agent_session_id : option string; st_agent : option string; st_workspace : option string }.

Record TmuxSessionEntry := mkTmuxSessionEntry {
  ts_name : string; ts_attached : bool; ts_windows : N; ts_created_unix : N;
  ts_tabs : option (list SessionTabEntry) }.

Record HerdrSessionEntry := mkHerdrSessionEntry {
  he_name : string; he_running : bool; he_is_default : bool; he_tabs : option (list SessionTabEntry) }.

(** [TmuxProviderSnapshot] and [HerdrProviderSnapshot], which differ in their sessions. *)
Record ProviderSnapshot (S : Type) := mkProviderSnapshot {
  ps_state : string; ps_version : option string; ps_sessions : option (list S) }.
Arguments mkProviderSnapshot {S}.
Arguments ps_state {S}.
Arguments ps_version {S}.
Arguments ps_sessions {S}.

Record WorkspaceSnapshotResult := mkWorkspaceSnapshotResult {
  wr_v : N; wr_tmux : ProviderSnapshot TmuxSessionEntry; wr_herdr : ProviderSnapshot HerdrSessionEntry;
  wr_omitted_sessions : N }.

Definition validate_provider_state (state : string) : verdict :=
  refuse_if (negb (existsb (String.eqb state)
    [PROVIDER_STATE_AVAILABLE; PROVIDER_STATE_NOT_INSTALLED; PROVIDER_STATE_UNSUPPORTED_VERSION; PROVIDER_STATE_ERROR]))
    InvalidControlValue.

Definition validate_provider_version (version : option string) : verdict :=
  opt_each (fun version => refuse_if ((slen version =? 0) || (MAX_PROVIDER_VERSION_BYTES <? slen version)
    || negb (sall (fun b => is_ascii_alphanumeric b || is_byte [46; 95; 45] b) version)) InvalidControlValue) version.

Definition none_or (p : string -> bool) (o : option string) : bool := match o with Some x => p x | None => true end.

Definition validate_session_tab (tab : SessionTabEntry) : verdict :=
  refuse_if (negb (valid_tab_id (st_id tab)) || negb (valid_tab_label (st_label tab))
             || negb (none_or valid_tab_status (st_status tab)) || negb (none_or valid_tab_agent (st_agent tab))
             || negb (none_or valid_tab_label (st_workspace tab))) InvalidControlValue.

Definition validate_session_tabs (tabs : list SessionTabEntry) : verdict :=
  refuse_if ((len tabs =? 0) || (MAX_TABS_PER_SESSION <? len tabs) || (1 <? len (List.filter st_focused tabs)))
    InvalidControlValue ?;
  each validate_session_tab tabs.

Definition validate_provider_shape {S} (session_name : S -> string) (session_tabs : S -> option (list SessionTabEntry))
    (p : ProviderSnapshot S) : verdict :=
  validate_provider_state (ps_state p) ?;
  validate_provider_version (ps_version p) ?;
  match ps_sessions p with
  | Some sessions =>
      if ps_state p =s? PROVIDER_STATE_AVAILABLE then
        refuse_if (MAX_SESSIONS_PER_PROVIDER <? len sessions) InvalidControlValue ?;
        each (fun session => refuse_if (negb (valid_session_name (session_name session))) InvalidControlValue ?;
                             opt_each validate_session_tabs (session_tabs session)) sessions
      else Err InvalidControlValue
  | None => if negb (ps_state p =s? PROVIDER_STATE_AVAILABLE) then Ok tt else Err InvalidControlValue
  end.

Definition WorkspaceSnapshotResult_validate (r : WorkspaceSnapshotResult) : verdict :=
  refuse_if (negb (wr_v r =? HOST_PROTOCOL_VERSION)) UnsupportedVersion ?;
  validate_provider_shape ts_name ts_tabs (wr_tmux r) ?;
  validate_provider_shape he_name he_tabs (wr_herdr r).

Definition WorkspaceSnapshotResponse_validate (r : Response WorkspaceSnapshotResult) : verdict :=
  refuse_if (response_envelope r) InvalidControlValue ?;
  validate_request_id (rs_request_id r) ?;
  WorkspaceSnapshotResult_validate (rs_result r).

(** ** Decoding *)

Inductive RpcRequest :=
| ReqHello (r : HostHelloRequest) | ReqHostInfo (r : Request unit)
| ReqWorkspaceSnapshot (r : Request WorkspaceSnapshotParams)
| ReqNotificationsRegister (r : Request NotificationsRegisterParams)
| ReqLiveActivityRegister (r : Request LiveActivityRegisterParams)
| ReqTerminalCommands (r : Request TerminalCommandsParams).

(** [RpcResponse], [HostInfoRpcResponse], [NotificationsRpcResponse], [LiveActivityRpcResponse] and
    [SnapshotRpcResponse], which differ in the response they carry. *)
Inductive AnyResponse (R : Type) := Answered (r : R) | Refused (r : RpcErrorResponse).
Arguments Answered {R}.
Arguments Refused {R}.

Definition validate_body_size (body : bytes) (maximum : N) : verdict :=
  refuse_if (len body =? 0) ZeroLength ?;
  refuse_if (maximum <? len body) FrameTooLarge.

Section decoding.
(** [serde_json::from_slice] at each type, and, at [Value], the string a top-level key holds. *)
Context (string_field : bytes -> string -> option string).
Context (from_hello : bytes -> option HostHelloRequest) (from_info : bytes -> option (Request unit)).
Context (from_snapshot : bytes -> option (Request WorkspaceSnapshotParams)).
Context (from_notifications : bytes -> option (Request NotificationsRegisterParams)).
Context (from_live_activity : bytes -> option (Request LiveActivityRegisterParams)).
Context (from_commands : bytes -> option (Request TerminalCommandsParams)).

Definition decode_as {A} (from_slice : bytes -> option A) (validate : A -> verdict) (body : bytes)
  : result HostProtocolError A :=
  let? value := ok_or (from_slice body) MalformedJson in
  validate value ?; Ok value.

Definition decode_rpc_request (body : bytes) : result HostProtocolError RpcRequest :=
  validate_body_size body MAX_RPC_BODY ?;
  let? method := ok_or (string_field body "method") MalformedJson in
  if method =s? "host.hello" then rmap ReqHello (decode_as from_hello HostHelloRequest_validate body)
  else if method =s? "host.info" then rmap ReqHostInfo (decode_as from_info HostInfoRequest_validate body)
  else if method =s? "workspace.snapshot"
  then rmap ReqWorkspaceSnapshot (decode_as from_snapshot WorkspaceSnapshotRequest_validate body)
  else if method =s? CAPABILITY_NOTIFICATIONS_REGISTER
  then rmap ReqNotificationsRegister (decode_as from_notifications NotificationsRegisterRequest_validate body)
  else if method =s? CAPABILITY_LIVE_ACTIVITY_REGISTER
  then rmap ReqLiveActivityRegister (decode_as from_live_activity LiveActivityRegisterRequest_validate body)
  else if method =s? CAPABILITY_TERMINAL_COMMANDS
  then rmap ReqTerminalCommands (decode_as from_commands TerminalCommandsRequest_validate body)
  else Err UnsupportedMethod.

Context (from_error : bytes -> option RpcErrorResponse).

(** The five response decoders, which differ in the response they expect. *)
Definition decode_response {R} (from_response : bytes -> option R) (validate : R -> verdict) (body : bytes)
  : result HostProtocolError (AnyResponse R) :=
  validate_body_size body MAX_RPC_BODY ?;
  let? message_type := ok_or (string_field body "type") MalformedJson in
  if message_type =s? "response" then rmap Answered (decode_as from_response validate body)
  else if message_type =s? "error" then rmap Refused (decode_as from_error RpcErrorResponse_validate body)
  else Err UnexpectedOrder.

Definition decode_rpc_response (from_response : bytes -> option HostHelloResponse) :=
  decode_response from_response HostHelloResponse_validate.
Definition decode_host_info_response (from_response : bytes -> option (Response HostInfoResult)) :=
  decode_response from_response HostInfoResponse_validate.
Definition decode_notifications_response (from_response : bytes -> option (Response NotificationsRegisterResult)) :=
  decode_response from_response NotificationsRegisterResponse_validate.
Definition decode_live_activity_response (from_response : bytes -> option (Response LiveActivityRegisterResult)) :=
  decode_response from_response LiveActivityRegisterResponse_validate.
Definition decode_snapshot_response (from_response : bytes -> option (Response WorkspaceSnapshotResult)) :=
  decode_response from_response WorkspaceSnapshotResponse_validate.
End decoding.
End identifiers.

Arguments mkRequest {P}.
Arguments rq_v {P}.
Arguments rq_message_type {P}.
Arguments rq_request_id {P}.
Arguments rq_method {P}.
Arguments rq_params {P}.
Arguments mkResponse {R}.
Arguments rs_v {R}.
Arguments rs_message_type {R}.
Arguments rs_request_id {R}.
Arguments rs_result {R}.
Arguments mkProviderSnapshot {S}.
Arguments ps_state {S}.
Arguments ps_version {S}.
Arguments ps_sessions {S}.
Arguments Answered {R}.
Arguments Refused {R}.

(** ** Encoding *)

Section encoding.
Context {T : Type} (to_vec : T -> option bytes).

Definition encode_rpc (value : T) : result HostProtocolError bytes :=
  let? body := ok_or (to_vec value) MalformedJson in
  validate_body_size body MAX_RPC_BODY ?;
  Ok (be_bytes 4 (len body) ++ body).
End encoding.
