(* ===== verification/Framing.v ===== *)
(** Frames on a byte stream as [host_protocol.rs] takes them off a buffer: the loop its two decoders
    share, the RPC decoder and the [read_exact] reader, and why no chunking of a stream changes what is
    read from it. *)
From S2P Require Import Prelude Text HostProtocol HostRpc.

Local Open Scope N_scope.

(** ** The loop of a decoder *)

(** What one turn of a decoder's loop does with its buffer: it waits ([Ok None]), takes a frame off the
    front, or refuses the stream. More bytes never change a turn that did not wait, a frame takes some
    bytes, and a decoder waits on less than a frame at its bound. *)
Class FrameFormat {E F} (take_frame : bytes -> result E (option (F * bytes))) (max_frame : N) := {
  take_more b f rest more : take_frame b = Ok (Some (f, rest)) -> take_frame (b ++ more) = Ok (Some (f, rest ++ more));
  refuse_more b e more : take_frame b = Err e -> take_frame (b ++ more) = Err e;
  take_shrinks b f rest : take_frame b = Ok (Some (f, rest)) -> (length rest < length b)%nat;
  wait_bounded b : take_frame b = Ok None -> len b < max_frame
}.

Section decoder.
Context {E F : Type} (take_frame : bytes -> result E (option (F * bytes))).

(** The loop of [push], which drains what it took even when a later frame is refused. *)
Fixpoint drain_frames (fuel : nat) (buffer : bytes) : bytes * result E (list F) :=
  match fuel with
  | O => (buffer, Ok [])
  | S fuel =>
      match take_frame buffer with
      | Err e => (buffer, Err e)
      | Ok None => (buffer, Ok [])
      | Ok (Some (f, rest)) =>
          let '(buffer, r) := drain_frames fuel rest in (buffer, rmap (cons f) r)
      end
  end.

(** A turn of the loop takes at least one byte. *)
Definition drain (buffer : bytes) : bytes * result E (list F) :=
  drain_frames (S (length buffer)) buffer.

Definition push_within (too_large : E) (max_buffered : N) (buffer incoming : bytes) : bytes * result E (list F) :=
  if max_buffered - len buffer <? len incoming then (buffer, Err too_large) else drain (buffer ++ incoming).

(** Pushing chunks one after the other until one is refused. *)
Fixpoint push_all (too_large : E) (max_buffered : N) (buffer : bytes) (chunks : list bytes)
  : bytes * result E (list F) :=
  match chunks with
  | [] => (buffer, Ok [])
  | chunk :: chunks =>
      match push_within too_large max_buffered buffer chunk with
      | (buffer, Err e) => (buffer, Err e)
      | (buffer, Ok frames) =>
          let '(buffer, r) := push_all too_large max_buffered buffer chunks in (buffer, rmap (app frames) r)
      end
  end.

Context {max_frame : N} {format : FrameFormat take_frame max_frame}.

Lemma drain_fuel n m buffer :
  (length buffer < n)%nat -> (length buffer < m)%nat -> drain_frames n buffer = drain_frames m buffer.
Proof.
  revert m buffer. induction n as [|n IH]; intros m buffer Hn Hm; [lia|]. destruct m as [|m]; [lia|].
  cbn [drain_frames]. destruct (take_frame buffer) as [[[f rest]|]|] eqn:Ht; [|done..].
  apply take_shrinks in Ht. by rewrite (IH m) by lia.
Qed.

Lemma drain_step buffer :
  drain buffer = match take_frame buffer with
                 | Err e => (buffer, Err e)
                 | Ok None => (buffer, Ok [])
                 | Ok (Some (f, rest)) => let '(b, r) := drain rest in (b, rmap (cons f) r)
                 end.
Proof.
  unfold drain. cbn [drain_frames]. destruct (take_frame buffer) as [[[f rest]|]|] eqn:Ht; [|done..].
  apply take_shrinks in Ht. by rewrite (drain_fuel (length buffer) (S (length rest))) by lia.
Qed.

Lemma drain_ind (P : bytes -> Prop) :
  (forall b, (forall f rest, take_frame b = Ok (Some (f, rest)) -> P rest) -> P b) -> forall b, P b.
Proof.
  intros IH b. remember (length b) as n eqn:Hn. revert b Hn.
  induction n as [n IHn] using lt_wf_ind. intros b ->. apply IH. intros f rest Ht%take_shrinks. by eapply IHn.
Qed.

(** Draining in two goes is draining once. *)
Lemma drain_app buffer more :
  match drain buffer with
  | (waiting, Ok frames) => drain (buffer ++ more) = (let '(b, r) := drain (waiting ++ more) in (b, rmap (app frames) r))
  | (_, Err e) => (drain (buffer ++ more)).2 = Err e
  end.
Proof.
  induction buffer as [b IH] using drain_ind. rewrite (drain_step b).
  destruct (take_frame b) as [[[f rest]|]|e] eqn:Ht.
  - specialize (IH f rest eq_refl). rewrite (drain_step (b ++ more)). rewrite (take_more _ _ _ more Ht).
    destruct (drain rest) as [waiting [frames|e]]; cbn [rmap].
    + rewrite IH. destruct (drain (waiting ++ more)) as [b' [frames'|e]]; done.
    + destruct (drain (rest ++ more)) as [b' r]. cbn [snd] in *. by rewrite IH.
  - destruct (drain (b ++ more)) as [b' [frames|e]]; done.
  - rewrite drain_step. by rewrite (refuse_more _ _ more Ht).
Qed.

Lemma drain_bounds buffer :
  len (drain buffer).1 <= len buffer /\ (is_ok (drain buffer).2 = true -> len (drain buffer).1 < max_frame).
Proof.
  induction buffer as [b IH] using drain_ind. rewrite (drain_step b).
  destruct (take_frame b) as [[[f rest]|]|e] eqn:Ht; cbn [fst snd].
  - specialize (IH f rest eq_refl). apply take_shrinks in Ht. destruct (drain rest) as [b' r]. cbn [fst snd] in *.
    destruct IH as [IH1 IH2]. split; [unfold len in *; lia|]. by destruct r.
  - split; [lia|]. intros _. by apply wait_bounded.
  - split; [lia|done].
Qed.

Lemma drain_waits buffer waiting frames : drain buffer = (waiting, Ok frames) -> take_frame waiting = Ok None.
Proof.
  revert waiting frames. induction buffer as [b IH] using drain_ind. intros waiting frames.
  rewrite drain_step. destruct (take_frame b) as [[[f rest]|]|e] eqn:Ht; [|by intros [= <- _]|done].
  destruct (drain rest) as [b' [fs|]] eqn:Hd; [|done]. intros [= <- _]. by eapply IH.
Qed.

(** However a stream is cut, the decoder comes to the same frames or the same refusal. *)
Lemma push_all_drain too_large max_buffered buffer chunks :
  len buffer < max_frame ->
  Forall (fun chunk => len chunk + max_frame <= max_buffered) chunks ->
  take_frame buffer = Ok None ->
  (push_all too_large max_buffered buffer chunks).2 = (drain (buffer ++ mjoin chunks)).2
  /\ (is_ok (drain (buffer ++ mjoin chunks)).2 = true ->
      (push_all too_large max_buffered buffer chunks).1 = (drain (buffer ++ mjoin chunks)).1).
Proof.
  intros Hb Hall. revert buffer Hb. induction Hall as [|chunk chunks Hc Hall IH]; intros buffer Hb Hwait.
  - cbn [push_all mjoin list_join]. rewrite app_nil_r, drain_step, Hwait. done.
  - change (mjoin (chunk :: chunks)) with (chunk ++ mjoin chunks). cbn [push_all].
    unfold push_within. rewrite (proj2 (N.ltb_ge _ _)) by lia. rewrite app_assoc. pose proof (drain_app (buffer ++ chunk) (mjoin chunks)) as Happ.
    pose proof (drain_bounds (buffer ++ chunk)) as [_ Hbound].
    destruct (drain (buffer ++ chunk)) as [waiting [frames|e]] eqn:Hd; cbn [fst snd] in *.
    + destruct (IH waiting) as [IH2 IH1]; [by apply Hbound|by eapply drain_waits|].
      rewrite Happ. destruct (push_all too_large max_buffered waiting chunks) as [b1 r1].
      destruct (drain (waiting ++ mjoin chunks)) as [b2 r2]. cbn [fst snd] in *. subst r1.
      split; [done|]. destruct r2; [|done]. intros _. by apply IH1.
    + destruct (drain ((buffer ++ chunk) ++ mjoin chunks)) as [b2 r2]. cbn [snd] in *. by subst r2.
Qed.
End decoder.

(** A buffer never outgrows its bound, and between two accepted pushes it holds less than a frame. *)
Lemma push_within_bounds {E F} (take_frame : bytes -> result E (option (F * bytes))) max_frame
    {format : FrameFormat take_frame max_frame} (too_large : E) max_buffered buffer incoming :
  len buffer <= max_buffered ->
  len (push_within take_frame too_large max_buffered buffer incoming).1 <= max_buffered
  /\ (is_ok (push_within take_frame too_large max_buffered buffer incoming).2 = true ->
      len (push_within take_frame too_large max_buffered buffer incoming).1 < max_frame).
Proof.
  intros Hb. unfold push_within. destruct (N.ltb_spec (max_buffered - len buffer) (len incoming)); [done|].
  destruct (drain_bounds take_frame (buffer ++ incoming)) as [H1 H2]. split; [|exact H2].
  rewrite len_app in H1. lia.
Qed.

(** ** A buffer as a stream that ends *)

(** [read_exact] on the bytes a stream still holds before its end, and what its end is called. *)
Definition read_exact {E} (truncated : E) (stream : bytes) (n : N) : result E (bytes * bytes) :=
  if len stream <? n then Err truncated
  else Ok (take (N.to_nat n) stream, drop (N.to_nat n) stream).

Lemma read_exact_more {E} (truncated : E) stream n more a rest :
  read_exact truncated stream n = Ok (a, rest) -> read_exact truncated (stream ++ more) n = Ok (a, rest ++ more).
Proof.
  unfold read_exact. destruct (N.ltb_spec (len stream) n); [done|]. intros [= <- <-].
  rewrite (proj2 (N.ltb_ge _ _)) by (rewrite len_app; lia). unfold len in *.
  by rewrite take_app_le, drop_app_le by lia.
Qed.

Lemma read_exact_len {E} (truncated : E) stream n a rest :
  read_exact truncated stream n = Ok (a, rest) -> stream = a ++ rest /\ len a = n.
Proof.
  unfold read_exact. destruct (N.ltb_spec (len stream) n); [done|]. intros [= <- <-].
  split; [by rewrite take_drop|]. unfold len in *. rewrite length_take. lia.
Qed.

Lemma read_exact_app {E} (truncated : E) a rest : read_exact truncated (a ++ rest) (len a) = Ok (a, rest).
Proof.
  unfold read_exact. rewrite (proj2 (N.ltb_ge _ _)) by (rewrite len_app; lia). unfold len.
  by rewrite Nat2N.id, take_app_length, drop_app_length.
Qed.

(** A buffer holding [n] bytes at an offset goes on holding them. *)
Lemma slice_more {A} (b more : list A) (i n : nat) :
  (i + n <= length b)%nat ->
  take n (drop i (b ++ more)) = take n (drop i b) /\ drop (i + n) (b ++ more) = drop (i + n) b ++ more.
Proof.
  intros H. rewrite !drop_app_le by lia. split; [|done]. apply take_app_le. rewrite length_drop. lia.
Qed.

(** ** Frames with a header that tells their length *)

Section delimited.
Context {E F : Type} (truncated : E) (header_length : N) (limit : N).
(** The length a header announces, checked, and the frame a header and a payload make. *)
Context (announced : bytes -> result E N) (decode : bytes -> bytes -> result E F).

(** Waiting for the header and for the announced payload. *)
Definition take_delimited (buffer : bytes) : result E (option (F * bytes)) :=
  if len buffer <? header_length then Ok None
  else
    let header := take (N.to_nat header_length) buffer in
    let? length := announced header in
    if len buffer <? header_length + length then Ok None
    else
      let? frame := decode header (take (N.to_nat length) (drop (N.to_nat header_length) buffer)) in
      Ok (Some (frame, drop (N.to_nat (header_length + length)) buffer)).

(** The same with [read_exact], on a stream that ends. *)
Definition read_delimited (stream : bytes) : result E (F * bytes) :=
  let? (header, stream) := read_exact truncated stream header_length in
  let? length := announced header in
  let? (payload, stream) := read_exact truncated stream length in
  rmap (fun frame => (frame, stream)) (decode header payload).

Lemma delimited_format :
  0 < header_length -> (forall header n, announced header = Ok n -> n <= limit) ->
  FrameFormat take_delimited (header_length + limit).
Proof.
  intros Hpos Hlim. unfold take_delimited. split.
  - intros b f rest more. destruct (N.ltb_spec (len b) header_length) as [|Hh]; [done|].
    rewrite (proj2 (N.ltb_ge (len (b ++ more)) _)) by (rewrite len_app; lia).
    rewrite (take_app_le b more) by (unfold len in Hh; lia). cbv zeta.
    set (header := take _ b). destruct (announced header) as [n|]; [|done]. cbn [rbind].
    destruct (N.ltb_spec (len b) (header_length + n)) as [|Hn]; [done|].
    rewrite (proj2 (N.ltb_ge (len (b ++ more)) _)) by (rewrite len_app; lia).
    destruct (slice_more b more (N.to_nat header_length) (N.to_nat n)) as [-> H2]; [unfold len in *; lia|].
    rewrite N2Nat.inj_add, H2. destruct (decode _ _); [|done]. by intros [= <- <-].
  - intros b e more. destruct (N.ltb_spec (len b) header_length) as [|Hh]; [done|].
    rewrite (proj2 (N.ltb_ge (len (b ++ more)) _)) by (rewrite len_app; lia).
    rewrite (take_app_le b more) by (unfold len in Hh; lia). cbv zeta.
    set (header := take _ b). destruct (announced header) as [n|]; [|done]. cbn [rbind].
    destruct (N.ltb_spec (len b) (header_length + n)) as [|Hn]; [done|].
    rewrite (proj2 (N.ltb_ge (len (b ++ more)) _)) by (rewrite len_app; lia).
    destruct (slice_more b more (N.to_nat header_length) (N.to_nat n)) as [-> _]; [unfold len in *; lia|].
    by destruct (decode _ _).
  - intros b f rest. destruct (N.ltb_spec (len b) header_length); [done|]. cbv zeta.
    destruct (announced _) as [n|]; [|done]. cbn [rbind].
    destruct (N.ltb_spec (len b) (header_length + n)); [done|]. destruct (decode _ _); [|done].
    intros [= _ <-]. rewrite length_drop. unfold len in *. lia.
  - intros b. destruct (N.ltb_spec (len b) header_length); [intros _; lia|]. cbv zeta.
    destruct (announced _) as [n|] eqn:Ha; [|done]. cbn [rbind]. apply Hlim in Ha.
    destruct (N.ltb_spec (len b) (header_length + n)); [intros _; lia|]. by destruct (decode _ _).
Qed.

(** A turn of the loop is the [read_exact] reader on what arrived, save that it waits where the reader
    calls the stream truncated. *)
Lemma take_delimited_read buffer :
  read_delimited buffer = match take_delimited buffer with
                          | Ok (Some frame) => Ok frame | Ok None => Err truncated | Err e => Err e end.
Proof.
  unfold read_delimited, take_delimited, read_exact. destruct (N.ltb_spec (len buffer) header_length); [done|].
  cbn [rbind]. cbv zeta. destruct (announced _) as [n|]; [|done]. cbn [rbind].
  assert (len (drop (N.to_nat header_length) buffer) = len buffer - header_length) as ->
    by (unfold len; rewrite length_drop; lia).
  destruct (N.ltb_spec (len buffer) (header_length + n)), (N.ltb_spec (len buffer - header_length) n); try lia; [done|].
  cbn [rbind]. rewrite drop_drop, <- N2Nat.inj_add. by destruct (decode _ _).
Qed.

Lemma take_delimited_app header payload frame rest :
  len header = header_length -> announced header = Ok (len payload) -> decode header payload = Ok frame ->
  take_delimited ((header ++ payload) ++ rest) = Ok (Some (frame, rest)).
Proof.
  intros Hh Ha Hd. unfold take_delimited. rewrite !len_app, (proj2 (N.ltb_ge _ _)) by lia.
  assert (N.to_nat header_length = length header) as Hl by (unfold len in Hh; lia).
  rewrite <- app_assoc, Hl, take_app_length, drop_app_length. cbv zeta. rewrite Ha. cbn [rbind].
  rewrite (proj2 (N.ltb_ge _ _)) by lia. rewrite N2Nat.inj_add, Hl, <- drop_drop, drop_app_length.
  unfold len. by rewrite Nat2N.id, take_app_length, drop_app_length, Hd.
Qed.
End delimited.

(** ** RPC *)

Definition rpc_length (header : bytes) : result HostProtocolError N :=
  let length := of_be_bytes header in
  refuse_if (length =? 0) ZeroLength ?;
  refuse_if (MAX_RPC_BODY <? length) FrameTooLarge ?;
  Ok length.

Definition read_rpc_body : bytes -> result HostProtocolError (bytes * bytes) :=
  read_delimited Truncated 4 rpc_length (fun _ body => Ok body).

(** One turn of the loop of [RpcFrameDecoder::push]. *)
Definition take_rpc : bytes -> result HostProtocolError (option (bytes * bytes)) :=
  take_delimited 4 rpc_length (fun _ body => Ok body).

Definition RPC_MAX_BUFFERED : N := (MAX_RPC_BODY + 4) * MAX_INCOMING_BIDI_STREAMS.

(** [RpcFrameDecoder::push]; the decoder is its buffer. *)
Definition RpcFrameDecoder_push : bytes -> bytes -> bytes * result HostProtocolError (list bytes) :=
  push_within take_rpc FrameTooLarge RPC_MAX_BUFFERED.

#[export] Instance rpc_format : FrameFormat take_rpc (4 + MAX_RPC_BODY).
Proof.
  apply delimited_format; [done|]. intros header n. unfold rpc_length. cbv zeta. rewrite !rbind_unit_ok, !refuse_if_ok.
  intros (_ & H & [= <-]). by apply N.ltb_ge.
Qed.

Lemma encode_rpc_reads {T} (to_vec : T -> option bytes) value encoded rest :
  encode_rpc to_vec value = Ok encoded ->
  exists body, to_vec value = Some body /\ validate_body_size body MAX_RPC_BODY = Ok tt
  /\ take_rpc (encoded ++ rest) = Ok (Some (body, rest)).
Proof.
  unfold encode_rpc. destruct (to_vec value) as [body|]; [|done]. cbn [ok_or rbind].
  rewrite rbind_unit_ok. intros [Hsize He].
  assert (encoded = be_bytes 4 (len body) ++ body) as -> by congruence. exists body. split; [done|]. split; [done|].
  apply take_delimited_app; [done| |done]. unfold rpc_length. unfold validate_body_size in Hsize. ok_inv Hsize. b2p.
  rewrite of_be_bytes_be_bytes, N.mod_small by (unfold MAX_RPC_BODY in *; simpl; lia). cbv zeta.
  rewrite (proj2 (N.eqb_neq _ _)) by lia. by rewrite (proj2 (N.ltb_ge MAX_RPC_BODY _)) by done.
Qed.

(** Encoded values, one after the other. *)
Lemma drain_encoded {T} (to_vec : T -> option bytes) values bodies frames :
  Forall3 (fun value body frame => to_vec value = Some body /\ encode_rpc to_vec value = Ok frame) values bodies frames ->
  drain take_rpc (mjoin frames) = ([], Ok bodies).
Proof.
  induction 1 as [|value body frame values bodies frames [Hb He] H IH]; [done|].
  change (mjoin (frame :: frames)) with (frame ++ mjoin frames). rewrite (drain_step take_rpc (frame ++ _)).
  destruct (encode_rpc_reads to_vec value frame (mjoin frames) He) as (body' & Hb' & _ & ->).
  rewrite IH. cbn. by rewrite Hb in Hb'; simplify_eq.
Qed.

(** Any requests or responses encoded one after the other come out of the RPC decoder whole and in
    order, however the stream was cut into reads, and nothing is left behind. *)
Theorem rpc_decoder_roundtrip {T} (to_vec : T -> option bytes) values bodies frames chunks :
  Forall3 (fun value body frame => to_vec value = Some body /\ encode_rpc to_vec value = Ok frame) values bodies frames ->
  Forall (fun chunk => len chunk + (4 + MAX_RPC_BODY) <= RPC_MAX_BUFFERED) chunks ->
  mjoin chunks = mjoin frames ->
  push_all take_rpc FrameTooLarge RPC_MAX_BUFFERED [] chunks = ([], Ok bodies).
Proof.
  intros Hf Hc Heq. destruct (push_all_drain take_rpc FrameTooLarge RPC_MAX_BUFFERED [] chunks) as [H2 H1]; [done..|].
  cbn [app] in *. rewrite Heq in *. rewrite (drain_encoded to_vec values bodies frames Hf) in *. cbn [fst snd] in *.
  rewrite (surjective_pairing (push_all _ _ _ _ _)). by rewrite H1, H2.
Qed.
