(* ===== verification/FrameReader.v ===== *)
(** The cancellation-safe reader that [uploads.rs] and [downloads.rs] share: it tries its buffer before it
    reads, and a read that was not waited for leaves the stream where it was. *)
From S2P Require Import Prelude Text HostProtocol HostRpc Framing.

Local Open Scope N_scope.

Section reader.
Context {E F : Type} (take_frame : bytes -> result E (option (F * bytes))) (truncated : E) (io : io_error -> E).

(** [next], polled until it is ready or, [None], the reads that happened are used up. A frame that is
    refused stays in the buffer. *)
Fixpoint read_next (buffer : bytes) (reads : list read_event) : bytes * list read_event * option (result E F) :=
  match take_frame buffer with
  | Err e => (buffer, reads, Some (Err e))
  | Ok (Some (f, rest)) => (rest, reads, Some (Ok f))
  | Ok None =>
      match reads with
      | [] => (buffer, [], None)
      | ReadBytes [] :: reads => (buffer, reads, Some (Err truncated))
      | ReadErr UnexpectedEof :: reads => (buffer, reads, Some (Err truncated))
      | ReadErr e :: reads => (buffer, reads, Some (Err (io e)))
      | ReadBytes chunk :: reads => read_next (buffer ++ chunk) reads
      end
  end.

(** Frames read one after the other, until one is refused or the reader waits. *)
Fixpoint read_many (fuel : nat) (buffer : bytes) (reads : list read_event) : list F * (bytes * list read_event * option (result E F)) :=
  match fuel with
  | O => ([], (buffer, reads, None))
  | S fuel =>
      match read_next buffer reads with
      | (buffer, reads, Some (Ok f)) => let '(frames, last) := read_many fuel buffer reads in (f :: frames, last)
      | last => ([], last)
      end
  end.

Context {max_frame : N} {format : FrameFormat take_frame max_frame}.

(** However the stream was cut, the reader comes to what its bytes hold. *)
Lemma read_next_stream buffer chunks :
  Forall (fun chunk => chunk <> []) chunks ->
  match take_frame (buffer ++ mjoin chunks) with
  | Ok (Some (f, rest)) =>
      exists buffer' left, read_next buffer (stream_of chunks) = (buffer', stream_of left, Some (Ok f))
      /\ rest = buffer' ++ mjoin left /\ Forall (fun chunk => chunk <> []) left
  | Ok None => read_next buffer (stream_of chunks) = (buffer ++ mjoin chunks, [], None)
  | Err e => exists buffer' left, read_next buffer (stream_of chunks) = (buffer', left, Some (Err e))
  end.
Proof.
  intros Hne. revert buffer. induction Hne as [|chunk chunks Hc Hne IH]; intros buffer; cbn [read_next stream_of fmap list_fmap].
  - change (mjoin (M := list) (@nil bytes)) with (@nil N). rewrite app_nil_r.
    destruct (take_frame buffer) as [[[f rest]|]|e]; [|done|by do 2 eexists]. exists rest, []. by rewrite app_nil_r.
  - change (mjoin (chunk :: chunks)) with (chunk ++ mjoin chunks). destruct (take_frame buffer) as [[[f rest]|]|e] eqn:Ht.
    + rewrite (take_more _ _ _ (chunk ++ mjoin chunks) Ht). exists rest, (chunk :: chunks). split_and!; [done..|by constructor].
    + rewrite app_assoc. destruct chunk as [|b chunk]; [done|]. apply IH.
    + rewrite (refuse_more _ _ (chunk ++ mjoin chunks) Ht). by do 2 eexists.
Qed.

Lemma read_many_step fuel buffer reads :
  read_many (S fuel) buffer reads
  = match read_next buffer reads with
    | (buffer, reads, Some (Ok f)) => let '(frames, last) := read_many fuel buffer reads in (f :: frames, last)
    | last => ([], last)
    end.
Proof. reflexivity. Qed.

(** Whole frames come out whole and in order, and the reader waits with nothing left. *)
Lemma read_many_stream frames : forall buffer chunks,
  Forall (fun chunk => chunk <> []) chunks -> drain take_frame (buffer ++ mjoin chunks) = ([], Ok frames) ->
  read_many (S (length frames)) buffer (stream_of chunks) = (frames, ([], [], None)).
Proof.
  induction frames as [|f frames IH]; intros buffer chunks Hne Hd; pose proof (read_next_stream buffer chunks Hne) as Hn;
    rewrite (drain_step take_frame) in Hd; rewrite read_many_step;
    destruct (take_frame (buffer ++ mjoin chunks)) as [[[f' rest]|]|e]; try done.
  - by destruct (drain take_frame rest) as [b [frames|]].
  - injection Hd as Hd. by rewrite Hn, Hd.
  - destruct Hn as (buffer' & left & -> & -> & Hl). destruct (drain take_frame (buffer' ++ mjoin left)) as [b [fs|]] eqn:Hd'; [|done].
    cbn in Hd. injection Hd as -> -> ->. cbn [length]. by rewrite (IH buffer' left Hl Hd').
Qed.

(** A frame takes some of the bytes that were there or were still to come. *)
Lemma read_next_shrinks buffer reads buffer' reads' f :
  read_next buffer reads = (buffer', reads', Some (Ok f)) ->
  (length (buffer' ++ bytes_of reads') < length (buffer ++ bytes_of reads))%nat.
Proof.
  revert buffer. induction reads as [|e reads IH]; intros buffer; cbn [read_next].
  - destruct (take_frame buffer) as [[[g rest]|]|e] eqn:Ht; [|done..]. intros [= <- <- <-]. apply take_shrinks in Ht.
    rewrite !length_app. lia.
  - destruct (take_frame buffer) as [[[g rest]|]|e'] eqn:Ht; [| |done].
    + intros [= <- <- <-]. apply take_shrinks in Ht. rewrite !length_app. lia.
    + destruct e as [[|b chunk]|[]]; [done| |done..]. intros H%IH.
      change (bytes_of (ReadBytes (b :: chunk) :: reads)) with ((b :: chunk) ++ bytes_of reads). by rewrite app_assoc.
Qed.

(** A frame read was taken from a buffer. *)
Lemma read_next_taken buffer reads buffer' reads' f :
  read_next buffer reads = (buffer', reads', Some (Ok f)) -> exists whole, take_frame whole = Ok (Some (f, buffer')).
Proof.
  revert buffer. induction reads as [|e reads IH]; intros buffer; cbn [read_next];
    (destruct (take_frame buffer) as [[[g rest]|]|e'] eqn:Ht; [intros [= <- _ <-]; by exists buffer| |done]); [done|].
  destruct e as [[|b chunk]|[]]; try done. apply IH.
Qed.

(** What is read depends on the reads used for it alone. *)
Lemma read_next_local buffer reads buffer' left r :
  read_next buffer reads = (buffer', left, Some r) ->
  exists used, reads = used ++ left /\ forall rest, read_next buffer (used ++ rest) = (buffer', rest, Some r).
Proof.
  revert buffer. induction reads as [|e reads IH]; intros buffer; cbn [read_next].
  - destruct (take_frame buffer) as [[[g rest]|]|e'] eqn:Ht; [| done|]; intros [= <- <- <-]; exists [];
      (split; [done|]); intros rest'; cbn [app]; destruct rest'; cbn [read_next]; by rewrite Ht.
  - destruct (take_frame buffer) as [[[g rest]|]|e'] eqn:Ht.
    + intros [= <- <- <-]. exists []. split; [done|]. intros rest'. cbn [app]. destruct rest'; cbn [read_next]; by rewrite Ht.
    + assert (forall r0, (buffer, reads, Some r0) = (buffer', left, Some r) ->
                (forall rest, read_next buffer (e :: rest) = (buffer, rest, Some r0)) ->
                exists used, e :: reads = used ++ left /\ forall rest, read_next buffer (used ++ rest) = (buffer', rest, Some r)) as Hone.
      { intros r0 [= <- <- <-] Hr. exists [e]. by split. }
      destruct e as [[|b chunk]|[]]; try (intros He; refine (Hone _ He _); intros rest; cbn [read_next]; by rewrite Ht).
      intros (used & -> & Hused)%IH. exists (ReadBytes (b :: chunk) :: used). split; [done|]. intros rest. cbn [app read_next]. by rewrite Ht.
    + intros [= <- <- <-]. exists []. split; [done|]. intros rest'. cbn [app]. destruct rest'; cbn [read_next]; by rewrite Ht.
Qed.

(** Giving up waiting loses nothing: the next call goes on with what was read. *)
Lemma read_next_resume buffer reads1 reads2 buffer' :
  read_next buffer reads1 = (buffer', [], None) -> read_next buffer (reads1 ++ reads2) = read_next buffer' reads2.
Proof.
  revert buffer. induction reads1 as [|e reads1 IH]; intros buffer; cbn [app read_next].
  - destruct (take_frame buffer) as [[[f rest]|]|e] eqn:Ht; [done| |done]. by intros [= <-].
  - destruct (take_frame buffer) as [[[f rest]|]|e'] eqn:Ht; [done| |done]. destruct e as [[|b chunk]|[]]; try done. apply IH.
Qed.

(** The buffer stays within a frame and a read. *)
Lemma read_next_bounded buffer reads chunk_max buffer' left r :
  len buffer < max_frame + chunk_max -> Forall (fun e => len (event_bytes e) <= chunk_max) reads ->
  read_next buffer reads = (buffer', left, r) -> len buffer' < max_frame + chunk_max.
Proof.
  intros Hb Hall. revert buffer Hb. induction Hall as [|e reads He Hall IH]; intros buffer Hb; cbn [read_next].
  - destruct (take_frame buffer) as [[[f rest]|]|e] eqn:Ht; intros [= <- _ _]; [|done..].
    apply take_shrinks in Ht. unfold len in *. lia.
  - destruct (take_frame buffer) as [[[f rest]|]|e'] eqn:Ht.
    + intros [= <- _ _]. apply take_shrinks in Ht. unfold len in *. lia.
    + apply wait_bounded in Ht as Hw. destruct e as [[|b chunk]|[]]; try by intros [= <- _ _].
      intros H. eapply IH; [|exact H]. cbn [event_bytes] in He. rewrite len_app. lia.
    + by intros [= <- _ _].
Qed.

End reader.

(** A frame whose header is its type and its length. *)
Definition typed_length {E} (too_large : E) (limit : N -> result E N) (header : bytes) : result E N :=
  let? max := limit (hd 0 header) in
  let length := of_be_bytes (drop 1 header) in
  refuse_if (max <? length) too_large ?;
  Ok length.

Definition encode_typed {E} (too_large : E) (limit : N -> result E N) (frame_type : N) (payload : bytes) : result E bytes :=
  let? max := limit frame_type in
  refuse_if (max <? len payload) too_large ?;
  refuse_if (u32_max <? len payload) too_large ?;
  Ok (frame_type :: be_bytes 4 (len payload) ++ payload).

Definition take_typed {E F} (too_large : E) (limit : N -> result E N) (decode : N -> bytes -> result E F)
  : bytes -> result E (option (F * bytes)) :=
  take_delimited 5 (typed_length too_large limit) (fun header => decode (hd 0 header)).

Lemma typed_format {E F} (too_large : E) limit (decode : N -> bytes -> result E F) max :
  (forall t n, limit t = Ok n -> n <= max) -> FrameFormat (take_typed too_large limit decode) (5 + max).
Proof.
  intros Hl. apply delimited_format; [done|]. intros header n. unfold typed_length. destruct (limit _) as [m|] eqn:Hm; [|done].
  cbn [rbind]. rewrite rbind_unit_ok, refuse_if_ok. intros [H%N.ltb_ge [= <-]]. etrans; [exact H|]. by eapply Hl.
Qed.

Lemma encode_typed_taken {E F} (too_large : E) limit (decode : N -> bytes -> result E F) frame_type payload frame encoded rest :
  encode_typed too_large limit frame_type payload = Ok encoded -> decode frame_type payload = Ok frame ->
  take_typed too_large limit decode (encoded ++ rest) = Ok (Some (frame, rest)).
Proof.
  unfold encode_typed. destruct (limit frame_type) as [max|] eqn:Hm; [|done]. cbn [rbind]. rewrite !rbind_unit_ok, !refuse_if_ok.
  intros (Hmax & Hu & He) Hd. assert (encoded = (frame_type :: be_bytes 4 (len payload)) ++ payload) as -> by by injection He as <-.
  apply take_delimited_app; [done| |done]. unfold typed_length. cbn [hd drop]. rewrite Hm. cbn [rbind].
  change (drop 0 ?x) with x. apply N.ltb_ge in Hu. rewrite of_be_bytes_be_bytes, N.mod_small by (unfold u32_max in *; simpl; lia).
  cbv zeta. by rewrite Hmax.
Qed.
