(* ===== verification/UploadNames.v ===== *)
(** The text side of [uploads.rs]: what a request may name, the safe basename made of a suggested one, the
    shell quoting of a path, and UTC timestamps. *)
From S2P Require Import Prelude Text HostProtocol.
From stdpp Require Import pretty.
From Stdlib Require Import ZArith Lia.

Local Open Scope N_scope.

Definition MAX_SANITIZED_FILENAME : N := 64.
Definition MAX_PRESERVED_EXTENSION : N := 16.

(** ** What a request names *)

(** [bytes.iter().enumerate().all(..)] of [valid_upload_request_id], from the byte at [index]. *)
Fixpoint uuid_bytes (index : nat) (s : string) : bool :=
  match s with
  | EmptyString => true
  | String byte s =>
      (if existsb (Nat.eqb index) [8; 13; 18; 23]%nat then Ascii.eqb byte "-" else is_ascii_hexdigit byte)
      && uuid_bytes (S index) s
  end.

Definition valid_upload_request_id (value : string) : bool := (slen value =? 36) && uuid_bytes 0 value.

Definition valid_sha256_hex (value : string) : bool := (slen value =? 64) && sall is_lower_hex value.

(** ** A safe basename *)

Definition survives (ch : ascii) : bool :=
  is_ascii_alphanumeric ch || Ascii.eqb ch "." || Ascii.eqb ch "_" || Ascii.eqb ch "-".

(** The loop over the characters; the bytes of a character that is not ASCII are one run. *)
Fixpoint reduced (replacement_pending : bool) (name : string) : string :=
  match name with
  | EmptyString => ""
  | String ch name =>
      if survives ch then String ch (reduced false name)
      else if replacement_pending then reduced true name
      else String "_" (reduced true name)
  end.

(** [str::trim_start_matches] on one character. *)
Fixpoint trim_start_matches (c : ascii) (s : string) : string :=
  match s with
  | String ch rest => if Ascii.eqb ch c then trim_start_matches c rest else s
  | EmptyString => ""
  end.

(** [str::ends_with]. *)
Definition ends_with (s suffix : string) : bool :=
  (String.length suffix <=? String.length s)%nat && (sdrop (String.length s - String.length suffix) s =s? suffix).

(** [str::rsplit_once]. *)
Fixpoint rsplit_once (sep : ascii) (s : string) : option (string * string) :=
  match s with
  | EmptyString => None
  | String ch s =>
      match rsplit_once sep s with
      | Some (before, after) => Some (String ch before, after)
      | None => if Ascii.eqb ch sep then Some (""%string, s) else None
      end
  end.

Definition preserved_extension (name : string) : option string :=
  match rsplit_once "." name with
  | Some (_, extension) =>
      if negb (extension =s? "") && (slen extension <=? MAX_PRESERVED_EXTENSION) && sall is_ascii_alphanumeric extension
      then Some extension else None
  | None => None
  end.

Definition sanitize_filename (name : string) : string :=
  let result := trim_start_matches "." (reduced false name) in
  if result =s? "" then "upload"
  else if MAX_SANITIZED_FILENAME <? slen result then
    match preserved_extension result with
    | Some extension =>
        stake (N.to_nat (MAX_SANITIZED_FILENAME - slen extension - 1)) result +:+ "." +:+ extension
    | None => stake (N.to_nat MAX_SANITIZED_FILENAME) result
    end
  else result.

(** ** Quoting *)

Fixpoint quote_chars (text : string) : string :=
  match text with
  | EmptyString => ""
  | String ch text => (if Ascii.eqb ch "'" then "'\''" else String ch "") +:+ quote_chars text
  end.

Definition posix_single_quote (text : string) : string := "'" +:+ quote_chars text +:+ "'".

(** ** Timestamps *)

(** [civil_from_days]; [/] on [i64] truncates. *)
Definition civil_from_days (days_since_epoch : Z) : Z * Z * Z :=
  (let z := days_since_epoch + 719468 in
   let era := (if 0 <=? z then z else z - 146096) ÷ 146097 in
   let day_of_era := z - era * 146097 in
   let year_of_era := (day_of_era - day_of_era / 1460 + day_of_era / 36524 - day_of_era / 146096) / 365 in
   let year := year_of_era + era * 400 in
   let day_of_year := day_of_era - (365 * year_of_era + year_of_era / 4 - year_of_era / 100) in
   let mp := (5 * day_of_year + 2) / 153 in
   let day := day_of_year - (153 * mp + 2) / 5 + 1 in
   let month := if mp <? 10 then mp + 3 else mp - 9 in
   (if month <=? 2 then year + 1 else year, month, day))%Z.

(** [{:0width}] of a number. *)
Definition zero_padded (width : nat) (n : N) : string :=
  let digits := pretty n in
  String.concat "" (replicate (width - String.length digits) "0"%string) +:+ digits.

(** [format_rfc3339_utc], from the nanoseconds since the epoch. *)
Definition format_rfc3339_utc (time : N) : string :=
  let seconds := time / 1000000000 in
  let rem := seconds mod 86400 in
  let '(year, month, day) := civil_from_days (Z.of_N (seconds / 86400)) in
  zero_padded 4 (Z.to_N year) +:+ "-" +:+ zero_padded 2 (Z.to_N month) +:+ "-" +:+ zero_padded 2 (Z.to_N day)
  +:+ "T" +:+ zero_padded 2 (rem / 3600) +:+ ":" +:+ zero_padded 2 (rem mod 3600 / 60)
  +:+ ":" +:+ zero_padded 2 (rem mod 60) +:+ "Z".

(** ** What is published is a plain name *)

Definition dotted (s : string) : bool := starts_with s ".".

Lemma reduced_survives pending name : sall survives (reduced pending name) = true.
Proof.
  revert pending. induction name as [|ch name IH]; intros pending; cbn [reduced]; [done|].
  destruct (survives ch) eqn:Hs; [by cbn [sall]; rewrite Hs, IH|]. destruct pending; [apply IH|]. cbn [sall]. by rewrite IH.
Qed.

Lemma reduced_id pending name : sall survives name = true -> reduced pending name = name.
Proof.
  revert pending. induction name as [|ch name IH]; intros pending; cbn [reduced sall]; [done|].
  intros [-> Hn]%andb_prop. by rewrite IH.
Qed.

Lemma trim_dots_survives s : sall survives s = true -> sall survives (trim_start_matches "." s) = true.
Proof.
  induction s as [|ch s IH]; cbn [trim_start_matches sall]; [done|]. intros H. destruct (Ascii.eqb ch "."); [|done].
  apply andb_prop in H as [_ H]. by apply IH.
Qed.

Lemma dotted_cons ch s : dotted (String ch s) = Ascii.eqb ch ".".
Proof.
  unfold dotted, starts_with. cbn [String.prefix]. destruct (ascii_dec "." ch) as [<-|H].
  - rewrite Ascii.eqb_refl. by destruct s.
  - symmetry. apply Ascii.eqb_neq. congruence.
Qed.

Lemma trim_dots_dotted s : dotted (trim_start_matches "." s) = false.
Proof.
  induction s as [|ch s IH]; cbn [trim_start_matches]; [done|]. destruct (Ascii.eqb ch ".") eqn:Hd; [done|]. by rewrite dotted_cons.
Qed.

Lemma trim_dots_id s : dotted s = false -> trim_start_matches "." s = s.
Proof. destruct s as [|ch s]; [done|]. rewrite dotted_cons. cbn [trim_start_matches]. by intros ->. Qed.

Lemma sall_stake p n s : sall p s = true -> sall p (stake n s) = true.
Proof.
  revert s. induction n as [|n IH]; intros [|ch s]; cbn [stake sall]; [done..|]. intros [-> Hs]%andb_prop. by rewrite IH.
Qed.

Lemma stake_head n s b : s <> ""%string -> (0 < n)%nat -> dotted (stake n s +:+ b) = dotted s /\ (stake n s +:+ b) <> ""%string.
Proof. destruct s as [|ch s], n as [|n]; intros; try done; try lia. cbn [stake String.append]. by rewrite !dotted_cons. Qed.

Lemma alphanumeric_survives s : sall is_ascii_alphanumeric s = true -> sall survives s = true.
Proof.
  induction s as [|ch s IH]; cbn [sall]; [done|]. intros [H Hs]%andb_prop.
  rewrite IH by done. unfold survives. by rewrite H.
Qed.

Lemma preserved_extension_spec name extension :
  preserved_extension name = Some extension ->
  extension <> ""%string /\ slen extension <= MAX_PRESERVED_EXTENSION /\ sall is_ascii_alphanumeric extension = true.
Proof.
  unfold preserved_extension. destruct (rsplit_once "." name) as [[before after]|]; [|done].
  destruct (negb _ && _ && _) eqn:H; [|done]. intros [= <-]. apply andb_prop in H as [[H1 H2]%andb_prop H3]. b2p.
  by split_and!.
Qed.

(** A safe name: what a file system, a shell word or a terminal takes for nothing else than a name. *)
Definition safe_name (name : string) : Prop :=
  sall survives name = true /\ name <> ""%string /\ dotted name = false /\ slen name <= MAX_SANITIZED_FILENAME.

Lemma sanitize_safe name : safe_name (sanitize_filename name).
Proof.
  unfold sanitize_filename. set (result := trim_start_matches _ _).
  assert (sall survives result = true) as Hs by apply trim_dots_survives, reduced_survives.
  assert (dotted result = false) as Hd by apply trim_dots_dotted. clearbody result.
  destruct (String.eqb_spec result ""%string) as [|Hne]; [by vm_compute|].
  destruct (N.ltb_spec MAX_SANITIZED_FILENAME (slen result)) as [Hlong|]; [|done].
  unfold MAX_SANITIZED_FILENAME in *. destruct (preserved_extension result) as [extension|] eqn:Hp.
  - apply preserved_extension_spec in Hp as (Hx & Hl & Ha). unfold MAX_PRESERVED_EXTENSION in Hl.
    destruct (stake_head (N.to_nat (64 - slen extension - 1)) result ("." +:+ extension) Hne) as [Hh Hn]; [lia|].
    split_and!; [|done|by rewrite Hh|].
    + rewrite !sall_app, sall_stake by done. cbn [sall]. by apply alphanumeric_survives.
    + unfold slen, MAX_SANITIZED_FILENAME in *. rewrite !str_length_app, stake_length. simpl (String.length "."). lia.
  - destruct (stake_head (N.to_nat 64) result "" Hne) as [Hh Hn]; [lia|]. rewrite str_app_nil_r in Hh, Hn.
    split_and!; [by apply sall_stake|done|by rewrite Hh|]. unfold slen, MAX_SANITIZED_FILENAME. rewrite stake_length. lia.
Qed.

Lemma sanitize_id name : safe_name name -> sanitize_filename name = name.
Proof.
  intros (Hs & Hne & Hd & Hl). unfold sanitize_filename. rewrite reduced_id, trim_dots_id by done.
  rewrite (proj2 (String.eqb_neq _ _)) by done. by rewrite (proj2 (N.ltb_ge _ _)).
Qed.

(** Whatever name a phone suggests, the name the host keeps is at most 64 characters of letters,
    digits, dots, dashes and underscores, is not empty and does not begin with a dot, so it is no path, no
    hidden file and no "..": and a name that is like this already is kept as it is. *)
Theorem sanitize_filename_safe name :
  safe_name (sanitize_filename name) /\ sanitize_filename (sanitize_filename name) = sanitize_filename name.
Proof. split; [apply sanitize_safe|]. apply sanitize_id, sanitize_safe. Qed.

(** ** What a shell reads *)

(** The end of an unquoted word. *)
Definition is_blank (ch : ascii) : bool := existsb (Ascii.eqb ch) [" "; "009"; "010"]%char.

(** Characters that, not quoted, a POSIX shell does not take for themselves. *)
Definition is_special (ch : ascii) : bool :=
  existsb (Ascii.eqb ch) (String.list_ascii_of_string ("|&;<>()$`*?[]#~=%!{}" +:+ String "034" EmptyString)).

(** The word a POSIX shell reads, within single quotes or without, and what follows it. *)
Fixpoint shell_word (quoted : bool) (s : string) : option (string * string) :=
  match s with
  | EmptyString => if quoted then None else Some ("", "")%string
  | String ch s =>
      let literal k := (fun '(word, rest) => (String ch word, rest)) <$> k in
      if quoted then if Ascii.eqb ch "'" then shell_word false s else literal (shell_word true s)
      else if Ascii.eqb ch "'" then shell_word true s
      else if Ascii.eqb ch "\" then
        match s with
        | EmptyString => None
        | String escaped s =>
            if Ascii.eqb escaped "010" then shell_word false s
            else (fun '(word, rest) => (String escaped word, rest)) <$> shell_word false s
        end
      else if is_blank ch then Some (""%string, String ch s)
      else if is_special ch then None
      else literal (shell_word false s)
  end.

Lemma shell_word_quoted text rest :
  shell_word true (quote_chars text +:+ "'" +:+ rest) = (fun '(word, after) => (text +:+ word, after)) <$> shell_word false rest.
Proof.
  induction text as [|ch text IH]; [cbn; by destruct (shell_word false rest) as [[]|]|]. cbn [quote_chars].
  rewrite <- str_app_assoc. destruct (Ascii.eqb_spec ch "'") as [->|Hc].
  - cbn. cbn in IH. rewrite IH. by destruct (shell_word false rest) as [[]|].
  - cbn [String.append shell_word]. rewrite (proj2 (Ascii.eqb_neq _ _)) by done. cbn in IH |- *. rewrite IH.
    by destruct (shell_word false rest) as [[]|].
Qed.

Lemma shell_word_single_quote text rest :
  shell_word false (posix_single_quote text +:+ rest) = (fun '(word, after) => (text +:+ word, after)) <$> shell_word false rest.
Proof. unfold posix_single_quote. rewrite <- !str_app_assoc. apply (shell_word_quoted text rest). Qed.

Lemma shell_word_path text : shell_word false (posix_single_quote text) = Some (text, ""%string).
Proof.
  pose proof (shell_word_single_quote text "") as H. rewrite str_app_nil_r in H. rewrite H. cbn. by rewrite str_app_nil_r.
Qed.

(** The reference a phone inserts is exactly the path: whatever bytes the path has, a POSIX shell reads
    its single-quoted form as one word, the path itself, and whatever comes next stays outside of it. *)
Theorem quoted_reads_back text rest :
  shell_word false (posix_single_quote text) = Some (text, ""%string)
  /\ shell_word false (posix_single_quote text +:+ " " +:+ rest) = Some (text, " " +:+ rest)%string.
Proof.
  split; [apply shell_word_path|]. rewrite shell_word_single_quote. cbn. by rewrite str_app_nil_r.
Qed.

(** ** The calendar *)

Local Open Scope Z_scope.

Definition is_leap (year : Z) : bool := (year mod 4 =? 0) && (negb (year mod 100 =? 0) || (year mod 400 =? 0)).

Definition month_length (leap : bool) (month : Z) : Z :=
  if month =? 2 then (if leap then 29 else 28)
  else if existsb (Z.eqb month) [4; 6; 9; 11] then 30 else 31.

(** The Gregorian calendar. *)
Definition next_day (date : Z * Z * Z) : Z * Z * Z :=
  let '(year, month, day) := date in
  if day <? month_length (is_leap year) month then (year, month, day + 1)
  else if month <? 12 then (year, month + 1, 1) else (year + 1, 1, 1).

(** The parts of [civil_from_days]: a year from March on, within an era of 400 of them. *)
Definition year_of_era (doe : Z) : Z := (doe - doe / 1460 + doe / 36524 - doe / 146096) / 365.
Definition year_start (yoe : Z) : Z := 365 * yoe + yoe / 4 - yoe / 100.
Definition year_days (yoe : Z) : Z := if is_leap (yoe + 1) then 366 else 365.
Definition month_day (doy : Z) : Z * Z :=
  let mp := (5 * doy + 2) / 153 in (if mp <? 10 then mp + 3 else mp - 9, doy - (153 * mp + 2) / 5 + 1).
Definition date_in (year doy : Z) : Z * Z * Z :=
  let '(month, day) := month_day doy in (if month <=? 2 then year + 1 else year, month, day).

Lemma era_floor z : (if 0 <=? z then z else z - 146096) ÷ 146097 = z / 146097.
Proof.
  destruct (Z.leb_spec 0 z); [by rewrite Z.quot_div_nonneg by lia|].
  rewrite <- (Z.opp_involutive (z - 146096)), Z.quot_opp_l, Z.quot_div_nonneg by lia. Z.div_mod_to_equations. lia.
Qed.

Lemma civil_date d era doe :
  d + 719468 = era * 146097 + doe -> 0 <= doe < 146097 ->
  civil_from_days d = date_in (year_of_era doe + era * 400) (doe - year_start (year_of_era doe)).
Proof.
  intros Hd Hdoe. unfold civil_from_days. rewrite era_floor. cbv zeta.
  assert ((d + 719468) / 146097 = era) as -> by (Z.div_mod_to_equations; lia).
  replace (d + 719468 - era * 146097) with doe by lia. reflexivity.
Qed.

(** The years of an era, by what the computation makes of their first and last days. *)
Lemma years_checked : forallb (fun n => let y := Z.of_nat n in
  (year_of_era (year_start y) =? y) && (year_of_era (year_start y + year_days y - 1) =? y)
  && (year_start y + year_days y =? if y =? 399 then 146097 else year_start (y + 1))) (seq 0 400) = true.
Proof. vm_compute. reflexivity. Qed.

Lemma year_checked y : 0 <= y < 400 ->
  year_of_era (year_start y) = y /\ year_of_era (year_start y + year_days y - 1) = y
  /\ year_start y + year_days y = if y =? 399 then 146097 else year_start (y + 1).
Proof.
  intros Hy. pose proof years_checked as H. rewrite forallb_forall in H. specialize (H (Z.to_nat y)).
  rewrite Z2Nat.id in H by lia. cbv zeta in H.
  assert (In (Z.to_nat y) (seq 0 400)) as Hin by (apply in_seq; lia). specialize (H Hin).
  apply andb_prop in H as [[H1 H2]%andb_prop H3]. by split_and!; apply Z.eqb_eq.
Qed.

Lemma year_of_era_step doe : 0 <= doe -> year_of_era doe <= year_of_era (doe + 1).
Proof. intros H. unfold year_of_era. apply Z.div_le_mono; [lia|]. Z.div_mod_to_equations. lia. Qed.

Lemma year_of_era_mono a b : 0 <= a <= b -> year_of_era a <= year_of_era b.
Proof.
  intros [Ha Hb]. replace b with (a + Z.of_nat (Z.to_nat (b - a))) by lia. induction (Z.to_nat (b - a)) as [|n IH].
  - rewrite Z.add_0_r. lia.
  - etrans; [exact IH|]. replace (a + Z.of_nat (S n)) with (a + Z.of_nat n + 1) by lia. apply year_of_era_step. lia.
Qed.

Lemma year_of_era_bound doe : 0 <= doe < 146097 -> 0 <= year_of_era doe < 400.
Proof.
  intros H. pose proof (year_of_era_mono 0 doe ltac:(lia)). pose proof (year_of_era_mono doe 146096 ltac:(lia)).
  change (year_of_era 0) with 0 in *. change (year_of_era 146096) with 399 in *. lia.
Qed.

Lemma year_of_era_day y doy : 0 <= y < 400 -> 0 <= doy < year_days y -> year_of_era (year_start y + doy) = y.
Proof.
  intros Hy Hdoy. destruct (year_checked y Hy) as (H1 & H2 & _).
  assert (0 <= year_start y) by (unfold year_start; Z.div_mod_to_equations; lia).
  pose proof (year_of_era_mono (year_start y) (year_start y + doy) ltac:(lia)).
  pose proof (year_of_era_mono (year_start y + doy) (year_start y + year_days y - 1) ltac:(lia)). lia.
Qed.

Lemma day_of_year doe : 0 <= doe < 146097 ->
  0 <= doe - year_start (year_of_era doe) < year_days (year_of_era doe).
Proof.
  intros Hdoe. pose proof (year_of_era_bound doe Hdoe) as Hy. set (y := year_of_era doe) in *.
  destruct (year_checked y Hy) as (H1 & H2 & H3). split.
  - destruct (Z.leb_spec (year_start y) doe) as [|Hlt]; [lia|]. exfalso.
    assert (0 < y) by (destruct (Z.eqb_spec y 0) as [->|]; [change (year_start 0) with 0 in Hlt|]; lia).
    destruct (year_checked (y - 1) ltac:(lia)) as (_ & H4 & H5).
    rewrite (proj2 (Z.eqb_neq _ _)) in H5 by lia. replace (y - 1 + 1) with y in H5 by lia.
    pose proof (year_of_era_mono doe (year_start (y - 1) + year_days (y - 1) - 1) ltac:(lia)). lia.
  - destruct (Z.ltb_spec doe (year_start y + year_days y)) as [|Hge]; [lia|]. exfalso.
    destruct (Z.eqb_spec y 399); [lia|]. destruct (year_checked (y + 1) ltac:(lia)) as (H4 & _).
    assert (0 <= year_start (y + 1)) by (unfold year_start; Z.div_mod_to_equations; lia).
    pose proof (year_of_era_mono (year_start (y + 1)) doe ltac:(lia)). lia.
Qed.

(** The months of a year from March on. *)
Definition month_step (leap : bool) (doy : Z) : bool :=
  let '(month, day) := month_day doy in
  let next := month_day (doy + 1) in
  if day <? month_length leap month then bool_decide (next = (month, day + 1))
  else if month <? 12 then bool_decide (next = (month + 1, 1)) && negb (month =? 2)
  else bool_decide (month = 12) && bool_decide (next = (1, 1)).

Lemma months_checked : forallb (fun leap : bool =>
  forallb (fun n => month_step leap (Z.of_nat n)) (seq 0 (if leap then 365 else 364))
  && bool_decide (month_day (if leap then 365 else 364) = (2, month_length leap 2))) [true; false] = true.
Proof. vm_compute. reflexivity. Qed.

Lemma month_checked (leap : bool) doy : 0 <= doy < (if leap then 365 else 364) -> month_step leap doy = true.
Proof.
  intros H. pose proof months_checked as Hc. rewrite forallb_forall in Hc.
  assert (In leap [true; false]) as Hin by (destruct leap; cbn; tauto). apply Hc, andb_prop in Hin as [Hl _].
  rewrite forallb_forall in Hl. specialize (Hl (Z.to_nat doy)). rewrite Z2Nat.id in Hl by lia. apply Hl, in_seq. destruct leap; lia.
Qed.

Lemma month_length_leap leap leap' month : month <> 2 -> month_length leap month = month_length leap' month.
Proof. intros H. unfold month_length. by rewrite (proj2 (Z.eqb_neq _ _)). Qed.

Lemma date_next year doy : 0 <= doy -> doy + 1 < (if is_leap (year + 1) then 366 else 365) ->
  next_day (date_in year doy) = date_in year (doy + 1).
Proof.
  intros H0 H1. pose proof (month_checked (is_leap (year + 1)) doy) as Hm. unfold month_step in Hm. unfold date_in.
  destruct (month_day doy) as [month day]. unfold next_day.
  assert (month_length (is_leap (if month <=? 2 then year + 1 else year)) month = month_length (is_leap (year + 1)) month) as ->.
  { destruct (Z.eqb_spec month 2) as [->|]; [done|]. by apply month_length_leap. }
  specialize (Hm ltac:(by destruct (is_leap (year + 1)); lia)). destruct (day <? _).
  - by apply bool_decide_eq_true in Hm as ->.
  - destruct (Z.ltb_spec month 12).
    + apply andb_prop in Hm as [->%bool_decide_eq_true Hn]. apply negb_true_iff, Z.eqb_neq in Hn.
      destruct (Z.leb_spec month 2), (Z.leb_spec (month + 1) 2); try lia; done.
    + apply andb_prop in Hm as [->%bool_decide_eq_true ->%bool_decide_eq_true]. done.
Qed.

Lemma year_next year : next_day (date_in year (if is_leap (year + 1) then 365 else 364)) = date_in (year + 1) 0.
Proof.
  unfold date_in, next_day. destruct (is_leap (year + 1)) eqn:Hl;
    [change (month_day 365) with (2, 29)|change (month_day 364) with (2, 28)]; cbv iota beta; change (2 <=? 2) with true; cbv iota beta;
    by rewrite Hl.
Qed.

Lemma leap_era year era : is_leap (year + era * 400) = is_leap year.
Proof.
  unfold is_leap. replace ((year + era * 400) mod 4) with (year mod 4) by (Z.div_mod_to_equations; lia).
  replace ((year + era * 400) mod 100) with (year mod 100) by (Z.div_mod_to_equations; lia).
  by replace ((year + era * 400) mod 400) with (year mod 400) by (Z.div_mod_to_equations; lia).
Qed.

Lemma civil_next d : civil_from_days (d + 1) = next_day (civil_from_days d).
Proof.
  set (era := (d + 719468) / 146097). set (doe := (d + 719468) mod 146097).
  assert (d + 719468 = era * 146097 + doe /\ 0 <= doe < 146097) as [Hd Hdoe] by (subst era doe; Z.div_mod_to_equations; lia).
  rewrite (civil_date d era doe) by done. pose proof (day_of_year doe Hdoe) as Hdoy. pose proof (year_of_era_bound doe Hdoe) as Hy.
  set (y := year_of_era doe) in *. destruct (year_checked y Hy) as (_ & _ & Hend). clearbody y era doe.
  assert (is_leap (y + era * 400 + 1) = is_leap (y + 1)) as Hleap by (rewrite <- (leap_era (y + 1) era); f_equal; lia).
  destruct (Z.ltb_spec (doe - year_start y + 1) (year_days y)) as [Hin|Hout].
  - rewrite date_next; [|lia|by rewrite Hleap; unfold year_days in Hin].
    assert (year_of_era (doe + 1) = y) as Hy1.
    { replace (doe + 1) with (year_start y + (doe - year_start y + 1)) by lia. apply year_of_era_day; lia. }
    assert (doe + 1 < 146097) by (destruct (Z.eqb_spec y 399); [lia|]; destruct (year_checked (y + 1) ltac:(lia)) as (_ & _ & He);
      unfold year_start, year_days in *; Z.div_mod_to_equations; lia).
    rewrite (civil_date (d + 1) era (doe + 1)) by lia. rewrite Hy1. f_equal. lia.
  - assert (doe - year_start y = if is_leap (y + era * 400 + 1) then 365 else 364) as ->
      by (rewrite Hleap; unfold year_days in *; destruct (is_leap (y + 1)); lia).
    rewrite year_next. destruct (Z.eqb_spec y 399) as [->|].
    + rewrite (civil_date (d + 1) (era + 1) 0) by lia. change (year_of_era 0) with 0. change (year_start 0) with 0. f_equal; lia.
    + destruct (year_checked (y + 1) ltac:(lia)) as (Hs & _ & He).
      assert (year_start (y + 1) < 146097) by (unfold year_start; Z.div_mod_to_equations; lia).
      rewrite (civil_date (d + 1) era (year_start (y + 1))) by lia. rewrite Hs. f_equal; lia.
Qed.

(** The date computed from a count of days is the date: starting from 1970-01-01, as many steps of the
    Gregorian calendar as there are days, whatever leap years and centuries lie between. *)
Theorem civil_from_days_calendar (days : nat) :
  civil_from_days (Z.of_nat days) = Nat.iter days next_day (1970, 1, 1).
Proof.
  induction days as [|days IH]; [by vm_compute|]. rewrite Nat2Z.inj_succ. unfold Z.succ. rewrite civil_next, IH. done.
Qed.
