(* ===== verification/Uploads.v ===== *)
(** The uploads of [uploads.rs]: its frames, the checks on a request, the directory the host keeps with its
    quota and its sweeper, and one transfer into it. JSON and SHA-256 are parameters. *)
From S2P Require Import Prelude Text HostProtocol HostRpc Framing FrameReader UploadNames.

Local Open Scope N_scope.

Definition UPLOAD_JSON_VERSION : N := 1.

Definition FRAME_PUT_OPEN : N := 1.
Definition FRAME_PUT_ACCEPTED : N := 2.
Definition FRAME_PUT_CHUNK : N := 3.
Definition FRAME_PUT_FINISH : N := 4.
Definition FRAME_PUT_DONE : N := 5.
Definition FRAME_PUT_ERROR : N := 6.
Definition FRAME_PUT_CANCEL : N := 7.

Definition MAX_UPLOAD_CONTROL_PAYLOAD : N := 4096.
Definition MAX_UPLOAD_CHUNK_PAYLOAD : N := 16 * 1024.
Definition MAX_UPLOAD_FILE_BYTES : N := 8 * 1024 * 1024.

(** Nanoseconds, as every instant here. *)
Definition UPLOAD_PARTIAL_TTL : N := 15 * 60 * 1000000000.
Definition UPLOAD_COMPLETED_TTL : N := 24 * 60 * 60 * 1000000000.
Definition UPLOAD_QUOTA_BYTES : N := 256 * 1024 * 1024.

Inductive UploadErrorCode := Busy | TooLarge | Invalid | HashMismatch | FailedIo | Quota | TimedOut | Cancelled.

Definition wire (code : UploadErrorCode) : string :=
  match code with
  | Busy => "busy" | TooLarge => "too_large" | Invalid => "invalid" | HashMismatch => "hash_mismatch"
  | FailedIo => "io" | Quota => "quota" | TimedOut => "timeout" | Cancelled => "cancelled"
  end.

Record UploadFailure := mkUploadFailure { uf_code : UploadErrorCode; uf_message : string }.

(** ** Requests and replies *)

Record PutOpen := mkPutOpen {
  po_v : N; po_request_id : string; po_filename : string; po_source_kind : string; po_size : N; po_sha256 : string }.

Definition PutOpen_validate (p : PutOpen) : result UploadFailure unit :=
  refuse_if (negb (po_v p =? UPLOAD_JSON_VERSION)) (mkUploadFailure Invalid "This upload protocol version is not supported.") ?;
  refuse_if (negb (valid_upload_request_id (po_request_id p))) (mkUploadFailure Invalid "The upload request ID must be a UUID.") ?;
  refuse_if (negb (existsb (String.eqb (po_source_kind p)) ["photo"; "file"]%string))
    (mkUploadFailure Invalid "The upload source kind is not supported.") ?;
  refuse_if (negb (valid_sha256_hex (po_sha256 p)))
    (mkUploadFailure Invalid "The declared SHA-256 must be 64 lowercase hex characters.") ?;
  refuse_if (po_size p =? 0) (mkUploadFailure Invalid "An empty upload is not valid.") ?;
  refuse_if (MAX_UPLOAD_FILE_BYTES <? po_size p) (mkUploadFailure TooLarge "The file exceeds the 8 MiB upload limit.") ?;
  Ok tt.

(** The control values the host sends: [PutAccepted], [PutDone] and [PutError]. *)
Inductive PutReply :=
| PutAccepted (v : N) (transfer_id : string) (chunk_bytes max_bytes : N)
| PutDone (v : N) (host_path prompt_reference expires_at : string)
| PutError (v : N) (code message : string).

Definition reply_type (reply : PutReply) : N :=
  match reply with
  | PutAccepted _ _ _ _ => FRAME_PUT_ACCEPTED | PutDone _ _ _ _ => FRAME_PUT_DONE | PutError _ _ _ => FRAME_PUT_ERROR
  end.

Inductive UploadClientFrame := Open (open : PutOpen) | Chunk (payload : bytes) | Finish | Cancel.

(** ** Frames *)

Definition upload_frame_payload_limit (frame_type : N) : result HostProtocolError N :=
  if existsb (N.eqb frame_type) [FRAME_PUT_OPEN; FRAME_PUT_ACCEPTED; FRAME_PUT_DONE; FRAME_PUT_ERROR]
  then Ok MAX_UPLOAD_CONTROL_PAYLOAD
  else if frame_type =? FRAME_PUT_CHUNK then Ok MAX_UPLOAD_CHUNK_PAYLOAD
  else if existsb (N.eqb frame_type) [FRAME_PUT_FINISH; FRAME_PUT_CANCEL] then Ok 0
  else Err UnknownFrameType.

Definition encode_upload_frame : N -> bytes -> result HostProtocolError bytes :=
  encode_typed FrameTooLarge upload_frame_payload_limit.

Section frames.
(** [serde_json]. *)
Context (to_vec : PutReply -> option bytes) (from_slice : bytes -> option PutOpen).

Definition encode_upload_control (reply : PutReply) : result HostProtocolError bytes :=
  let? body := ok_or (to_vec reply) MalformedJson in encode_upload_frame (reply_type reply) body.

Definition decode_upload_client_frame (frame_type : N) (payload : bytes) : result HostProtocolError UploadClientFrame :=
  if frame_type =? FRAME_PUT_OPEN then rmap Open (ok_or (from_slice payload) MalformedJson)
  else if frame_type =? FRAME_PUT_CHUNK then refuse_if (len payload =? 0) ZeroLength ?; Ok (Chunk payload)
  else if frame_type =? FRAME_PUT_FINISH then refuse_if (negb (len payload =? 0)) InvalidControlValue ?; Ok Finish
  else if frame_type =? FRAME_PUT_CANCEL then refuse_if (negb (len payload =? 0)) InvalidControlValue ?; Ok Cancel
  else if existsb (N.eqb frame_type) [FRAME_PUT_ACCEPTED; FRAME_PUT_DONE; FRAME_PUT_ERROR] then Err UnexpectedDirection
  else Err UnknownFrameType.

(** [UploadFrameReader]; the reader is its buffer. *)
Definition take_upload : bytes -> result HostProtocolError (option (UploadClientFrame * bytes)) :=
  take_typed FrameTooLarge upload_frame_payload_limit decode_upload_client_frame.

Definition next_upload : bytes -> list read_event -> bytes * list read_event * option (result HostProtocolError UploadClientFrame) :=
  read_next take_upload Truncated Io.

#[export] Instance upload_format : FrameFormat take_upload (5 + MAX_UPLOAD_CHUNK_PAYLOAD).
Proof.
  apply typed_format. intros t n. unfold upload_frame_payload_limit.
  repeat case_match; intros [= <-]; done.
Qed.
End frames.

(** ** The gate *)

(** [UploadGate]: whether a lease is out. *)
Definition try_acquire (gate : bool) : bool * bool := (true, negb gate).

(** ** The directory *)

Record StoredFile := mkStoredFile { sf_contents : bytes; sf_modified : N; sf_regular : bool }.

(** The files of the uploads directory by name. *)
Abbreviation directory := (gmap string StoredFile).

Record UploadStore := mkUploadStore { us_root : string; us_quota_bytes : N; us_partial_ttl : N; us_completed_ttl : N }.

Definition UploadStore_new (root : string) : UploadStore :=
  mkUploadStore root UPLOAD_QUOTA_BYTES UPLOAD_PARTIAL_TTL UPLOAD_COMPLETED_TTL.

Definition joined (store : UploadStore) (name : string) : string := us_root store +:+ "/" +:+ name.

Definition partial_name (token : N) : string := hex (be_bytes 8 token) +:+ ".partial".
Definition final_name (token : N) (suggested_filename : string) : string :=
  hex (be_bytes 8 token) +:+ "-" +:+ sanitize_filename suggested_filename.

Record SweepEntry := mkSweepEntry { se_name : string; se_len : N; se_modified : N; se_partial : bool }.

Definition sweep_entry (file : string * StoredFile) : SweepEntry :=
  let '(name, f) := file in
  mkSweepEntry name (len (sf_contents f)) (sf_modified f) (bool_decide (utf8 name) && ends_with name ".partial").

Definition total_len (l : list SweepEntry) : N := foldr N.add 0 (se_len <$> l).

(** What a scan of the directory may come to. *)
Inductive scan_outcome := Scanned | ScanNotFound | ScanFailed.

Section store.
(** The order in which [read_dir] lists files, and whether a file can be removed. *)
Context (read_dir : directory -> list (string * StoredFile)) (removable : string -> bool).

Definition scan (dir : directory) : list SweepEntry :=
  sweep_entry <$> List.filter (fun '(_, f) => sf_regular f) (read_dir dir).

Definition remove_file (name : string) (dir : directory) : directory * bool :=
  if removable name && is_some (dir !! name) then (delete name dir, true) else (dir, false).

(** The first loop of [sweep_at]: what is stale goes, and the completed files that stay. *)
Fixpoint sweep_stale (store : UploadStore) (now : N) (entries : list SweepEntry) (dir : directory) (completed : list SweepEntry)
  : directory * list SweepEntry :=
  match entries with
  | [] => (dir, completed)
  | entry :: entries =>
      let age := now - se_modified entry in
      if se_partial entry then
        let dir := if us_partial_ttl store <=? age then (remove_file (se_name entry) dir).1 else dir in
        sweep_stale store now entries dir completed
      else if us_completed_ttl store <=? age then sweep_stale store now entries (remove_file (se_name entry) dir).1 completed
      else sweep_stale store now entries dir (completed ++ [entry])
  end.

(** Its last loop, which goes on where a file cannot be removed. *)
Fixpoint sweep_quota (store : UploadStore) (total : N) (oldest_first : list SweepEntry) (dir : directory) : directory :=
  match oldest_first with
  | [] => dir
  | entry :: oldest_first =>
      if total <=? us_quota_bytes store then dir
      else
        match remove_file (se_name entry) dir with
        | (dir, true) => sweep_quota store (total - se_len entry) oldest_first dir
        | (dir, false) => sweep_quota store total oldest_first dir
        end
  end.

Definition sweep_at (store : UploadStore) (scanned : scan_outcome) (now : N) (dir : directory) : directory :=
  match scanned with
  | Scanned =>
      let '(dir, completed) := sweep_stale store now (scan dir) dir [] in
      let completed := sort_by_key se_modified completed in
      sweep_quota store (total_len completed) completed dir
  | _ => dir
  end.

(** The loop of [make_room_for]. *)
Fixpoint evict (store : UploadStore) (incoming total : N) (oldest_first : list SweepEntry) (dir : directory)
  : directory * result UploadFailure unit :=
  if us_quota_bytes store <? sat_add64 total incoming then
    match oldest_first with
    | [] => (dir, Err (mkUploadFailure Quota "The Mac upload storage is full."))
    | entry :: oldest_first =>
        match remove_file (se_name entry) dir with
        | (dir, false) => (dir, Err (mkUploadFailure FailedIo "The Mac could not make room in its upload storage."))
        | (dir, true) => evict store incoming (total - se_len entry) oldest_first dir
        end
    end
  else (dir, Ok tt).

Definition make_room_for (store : UploadStore) (scanned : scan_outcome) (incoming : N) (dir : directory)
  : directory * result UploadFailure unit :=
  match scanned with
  | ScanFailed => (dir, Err (mkUploadFailure FailedIo "The Mac could not inspect its upload storage."))
  | ScanNotFound => evict store incoming 0 [] dir
  | Scanned =>
      let completed := sort_by_key se_modified (List.filter (fun entry => negb (se_partial entry)) (scan dir)) in
      evict store incoming (total_len completed) completed dir
  end.
End store.

(** ** One transfer *)

Record PartialUpload := mkPartialUpload {
  pu_store : UploadStore; pu_hashed : bytes; pu_written : N; pu_declared : N; pu_expected_sha256 : string;
  pu_partial : string; pu_final : string }.

Record CompletedUpload := mkCompletedUpload { cu_host_path : string; cu_prompt_reference : string; cu_expires_at : string }.

(** What becomes of one reply: it is taken, the stream breaks, or the peer never makes room for it. *)
Inductive send_outcome := Sent | SendFailed (e : io_error) | SendStalls.

(** What the file system and the peer do to one transfer: whether the directory and the file can be made;
    what of the [i]-th chunk is written where that fails; whether the file can be synced; how the scan ends;
    whether the file can be renamed, and which files removed; what becomes of the [i]-th reply. *)
Record Faults := mkFaults {
  ft_creates : bool; ft_write : nat -> option nat; ft_syncs : bool; ft_scan : scan_outcome; ft_renames : bool;
  ft_removable : string -> bool; ft_send : nat -> send_outcome }.

Section transfer.
Context (read_dir : directory -> list (string * StoredFile)) (sha256 : bytes -> bytes) (faults : Faults).

(** [UploadStore::begin]: the token is random, and [create_new] refuses a name that exists. *)
Definition begin (store : UploadStore) (token now : N) (suggested_filename : string) (declared_size : N) (expected_sha256 : string)
    (dir : directory) : directory * option PartialUpload :=
  if ft_creates faults && is_none (dir !! partial_name token) then
    (<[partial_name token := mkStoredFile [] now true]> dir,
     Some (mkPartialUpload store [] 0 declared_size expected_sha256 (partial_name token) (final_name token suggested_filename)))
  else (dir, None).

(** A write to the open file, whose name may be gone. *)
Definition append (name : string) (written : bytes) (now : N) (dir : directory) : directory :=
  alter (fun f => mkStoredFile (sf_contents f ++ written) now (sf_regular f)) name dir.

(** [write_chunk], the [i]-th. *)
Definition write_chunk (i : nat) (now : N) (chunk : bytes) (p : PartialUpload) (dir : directory)
  : directory * result UploadFailure PartialUpload :=
  if pu_declared p <? sat_add64 (pu_written p) (len chunk)
  then (dir, Err (mkUploadFailure Invalid "More bytes arrived than the declared size."))
  else
    match ft_write faults i with
    | Some k => (append (pu_partial p) (take k chunk) now dir, Err (mkUploadFailure FailedIo "The Mac could not store the upload."))
    | None =>
        (append (pu_partial p) chunk now dir,
         Ok (mkPartialUpload (pu_store p) (pu_hashed p ++ chunk) (pu_written p + len chunk) (pu_declared p)
               (pu_expected_sha256 p) (pu_partial p) (pu_final p)))
    end.

(** [fs::rename], which replaces what has the name. *)
Definition rename (from to : string) (dir : directory) : option directory :=
  match dir !! from with
  | Some f => if ft_renames faults then Some (<[to := f]> (delete from dir)) else None
  | None => None
  end.

(** [Drop] of a transfer that did not publish. *)
Definition drop_partial (p : PartialUpload) (dir : directory) : directory :=
  (remove_file (ft_removable faults) (pu_partial p) dir).1.

(** [finish], and the drop of what it took. *)
Definition finish (now : N) (p : PartialUpload) (dir : directory) : directory * result UploadFailure CompletedUpload :=
  if negb (pu_written p =? pu_declared p)
  then (drop_partial p dir, Err (mkUploadFailure Invalid "Fewer bytes arrived than the declared size."))
  else if negb (hex (sha256 (pu_hashed p)) =s? pu_expected_sha256 p)
  then (drop_partial p dir, Err (mkUploadFailure HashMismatch "The uploaded bytes did not match the declared SHA-256."))
  else if negb (ft_syncs faults)
  then (drop_partial p dir, Err (mkUploadFailure FailedIo "The Mac could not store the upload."))
  else
    match make_room_for read_dir (ft_removable faults) (pu_store p) (ft_scan faults) (pu_declared p) dir with
    | (dir, Err failure) => (drop_partial p dir, Err failure)
    | (dir, Ok _) =>
        match rename (pu_partial p) (pu_final p) dir with
        | None => (drop_partial p dir, Err (mkUploadFailure FailedIo "The Mac could not publish the upload."))
        | Some dir =>
            let host_path := joined (pu_store p) (pu_final p) in
            (dir, Ok (mkCompletedUpload host_path (posix_single_quote host_path)
                        (format_rfc3339_utc (now + us_completed_ttl (pu_store p)))))
        end
    end.
End transfer.

Lemma remove_file_subseteq removable name dir : (remove_file removable name dir).1 ⊆ dir.
Proof. unfold remove_file. destruct (_ && _); [apply delete_subseteq|done]. Qed.

Lemma evict_subseteq removable store incoming total l dir : (evict removable store incoming total l dir).1 ⊆ dir.
Proof.
  revert total dir. induction l as [|e l IH]; intros total dir; cbn [evict]; destruct (_ <? _); try done.
  pose proof (remove_file_subseteq removable (se_name e) dir) as Hrm.
  destruct (remove_file removable (se_name e) dir) as [d []]; [|done]. by etrans; [apply IH|].
Qed.

Lemma make_room_for_subseteq read_dir removable store scanned incoming dir :
  (make_room_for read_dir removable store scanned incoming dir).1 ⊆ dir.
Proof. destruct scanned; [apply evict_subseteq..|done]. Qed.

(** ** What the directory holds *)

#[export] Instance filter_permutation {A} (p : A -> bool) : Proper ((≡ₚ) ==> (≡ₚ)) (List.filter p).
Proof.
  induction 1 as [|x l k H IH|x y l|l k j H1 IH1 H2 IH2]; cbn [List.filter]; [done| | |by etrans].
  - destruct (p x); [by constructor|done].
  - destruct (p x), (p y); [constructor|done..].
Qed.

#[export] Instance total_len_permutation : Proper ((≡ₚ) ==> (=)) total_len.
Proof. intros l k. unfold total_len. induction 1; cbn; lia. Qed.

Section directory.
Context (read_dir : directory -> list (string * StoredFile)) (removable : string -> bool).
Context (read_dir_lists : forall dir, read_dir dir ≡ₚ map_to_list dir).

Definition is_completed (e : SweepEntry) : bool := negb (se_partial e).
(** The completed uploads, as a scan sees them, and the bytes they take. *)
Definition completed (dir : directory) : list SweepEntry :=
  List.filter is_completed (sweep_entry <$> List.filter (fun '(_, f) => sf_regular f) (map_to_list dir)).
Definition stored_bytes (dir : directory) : N := total_len (completed dir).

Lemma scan_completed dir : List.filter is_completed (scan read_dir dir) ≡ₚ completed dir.
Proof. unfold scan, completed. by rewrite read_dir_lists. Qed.

Lemma total_len_app l k : total_len (l ++ k) = total_len l + total_len k.
Proof. unfold total_len. induction l as [|x l IH]; cbn in *; lia. Qed.

Lemma completed_elem e dir :
  e ∈ completed dir <-> exists f, dir !! se_name e = Some f /\ sf_regular f = true /\ e = sweep_entry (se_name e, f) /\ se_partial e = false.
Proof.
  unfold completed. rewrite list_elem_of_In, filter_In, <- list_elem_of_In, list_elem_of_fmap. unfold is_completed. split.
  - intros (([n f] & He & Hf) & Hp%negb_true_iff). rewrite list_elem_of_In, filter_In, <- list_elem_of_In, elem_of_map_to_list in Hf.
    destruct Hf as [Hf Hr]. subst e. by exists f.
  - intros (f & Hf & Hr & He & ->). split; [|done]. exists (se_name e, f). split; [done|].
    by rewrite list_elem_of_In, filter_In, <- list_elem_of_In, elem_of_map_to_list.
Qed.

Lemma completed_delete e dir : e ∈ completed dir -> completed dir ≡ₚ e :: completed (delete (se_name e) dir).
Proof.
  intros (f & Hf & Hr & He & Hp)%completed_elem. unfold completed. rewrite <- (map_to_list_delete dir _ f Hf) at 1.
  cbn [List.filter]. rewrite Hr. cbn [fmap list_fmap List.filter]. rewrite <- He. unfold is_completed at 1. by rewrite Hp.
Qed.

(** What goes when the completed uploads [l] are let go in turn. *)
Definition without (dir : directory) (l : list SweepEntry) : directory := foldr (fun e => delete (se_name e)) dir l.

Lemma without_lookup dir l n : without dir l !! n = if bool_decide (n ∈ se_name <$> l) then None else dir !! n.
Proof.
  induction l as [|e l IH]; cbn [without foldr fmap list_fmap]; [done|]. fold (without dir l).
  destruct (decide (n = se_name e)) as [->|Hn].
  - rewrite lookup_delete_eq, bool_decide_eq_true_2 by constructor. done.
  - rewrite lookup_delete_ne, IH by done. do 2 case_bool_decide; set_solver.
Qed.

Lemma without_delete dir e l : without (delete (se_name e) dir) l = without dir (e :: l).
Proof.
  apply map_eq. intros n. rewrite !without_lookup, fmap_cons. destruct (decide (n = se_name e)) as [->|Hn].
  - rewrite lookup_delete_eq, (bool_decide_eq_true_2 (_ ∈ _ :: _)) by constructor. by case_bool_decide.
  - rewrite lookup_delete_ne by done. do 2 case_bool_decide; set_solver.
Qed.
(** Completed uploads let go oldest first, no more of them than it takes. *)
Record evicted (store : UploadStore) (incoming : N) (l : list SweepEntry) (dir dir' : directory) (gone kept : list SweepEntry)
  : Prop := {
  ev_split : l = gone ++ kept;
  ev_dir : dir' = without dir gone;
  ev_kept : kept ≡ₚ completed dir';
  ev_needed before e : gone = before ++ [e] -> us_quota_bytes store < sat_add64 (total_len (e :: kept)) incoming
}.

Lemma evicted_none store incoming l dir : l ≡ₚ completed dir -> evicted store incoming l dir dir [] l.
Proof. by split; [..|intros [|] ?]. Qed.

Lemma evicted_cons store incoming e l dir dir' gone kept :
  us_quota_bytes store < sat_add64 (total_len (e :: l)) incoming ->
  evicted store incoming l (delete (se_name e) dir) dir' gone kept -> evicted store incoming (e :: l) dir dir' (e :: gone) kept.
Proof.
  intros Hq [-> -> Hk Hn]. split; [done|by rewrite without_delete|done|].
  intros [|x before] y [= <- H]; [by subst gone|by eapply Hn].
Qed.

Lemma remove_completed e dir dir' ok :
  e ∈ completed dir -> remove_file removable (se_name e) dir = (dir', ok) ->
  if ok then dir' = delete (se_name e) dir else removable (se_name e) = false /\ dir' = dir.
Proof.
  intros (f & Hf & _)%completed_elem. unfold remove_file. rewrite Hf. destruct (removable _); cbn; by intros [= <- <-].
Qed.

Lemma completed_tail e l dir : e :: l ≡ₚ completed dir -> l ≡ₚ completed (delete (se_name e) dir).
Proof.
  intros H. assert (e ∈ completed dir) as He by (rewrite <- H; by constructor).
  rewrite (completed_delete e dir He) in H. by eapply Permutation.Permutation_cons_inv.
Qed.

Lemma evict_spec store incoming l dir dir' r :
  l ≡ₚ completed dir -> evict removable store incoming (total_len l) l dir = (dir', r) ->
  exists gone kept, evicted store incoming l dir dir' gone kept
  /\ (r = Ok tt <-> sat_add64 (total_len kept) incoming <= us_quota_bytes store)
  /\ ((forall n, removable n = true) -> r <> Ok tt -> kept = []).
Proof.
  revert dir. induction l as [|e l IH]; intros dir Hl; cbn [evict].
  - destruct (N.ltb_spec (us_quota_bytes store) (sat_add64 (total_len []) incoming)) as [Hq|Hq]; intros [= <- <-]; exists [], [].
    + split_and!; [by apply evicted_none|split; [done|lia]|done].
    + split_and!; [by apply evicted_none|done|done].
  - destruct (N.ltb_spec (us_quota_bytes store) (sat_add64 (total_len (e :: l)) incoming)) as [Hq|Hq].
    + destruct (remove_file removable (se_name e) dir) as [d ok] eqn:Hrm.
      apply remove_completed in Hrm; [|rewrite <- Hl; by constructor]. destruct ok.
      * subst d. replace (total_len (e :: l) - se_len e) with (total_len l) by (cbn; unfold total_len; lia).
        intros Hev. destruct (IH _ (completed_tail _ _ _ Hl) Hev) as (gone & kept & Hgk & Hr & Hall).
        exists (e :: gone), kept. split_and!; [by apply evicted_cons|done..].
      * destruct Hrm as [Hrm ->]. intros [= <- <-]. exists [], (e :: l). split_and!; [by apply evicted_none|split; [done|lia]|].
        intros Hall. by rewrite Hall in Hrm.
    + intros [= <- <-]. exists [], (e :: l). split_and!; [by apply evicted_none|done|done].
Qed.
Lemma without_subseteq dir l : without dir l ⊆ dir.
Proof.
  apply map_subseteq_spec. intros n f. rewrite without_lookup. by case_bool_decide.
Qed.

(** What went was a completed upload, not newer than any that stayed. *)
Lemma evicted_oldest store incoming l dir dir' gone kept n f :
  evicted store incoming l dir dir' gone kept -> l ≡ₚ completed dir -> StronglySorted (key_le se_modified) l ->
  dir !! n = Some f -> dir' !! n = None ->
  sweep_entry (n, f) ∈ completed dir /\ forall e, e ∈ completed dir' -> sf_modified f <= se_modified e.
Proof.
  intros [-> -> Hk _] Hl Hs Hf Hn. rewrite without_lookup in Hn. case_bool_decide as Hin; [|congruence].
  apply list_elem_of_fmap in Hin as (g & -> & Hg).
  assert (g ∈ completed dir) as Hc by (rewrite <- Hl; set_solver). pose proof Hc as (f' & Hf' & _ & He & _)%completed_elem.
  assert (f' = f) as -> by congruence. rewrite <- He. split; [done|]. intros e H. rewrite <- Hk in H.
  assert (sf_modified f = se_modified g) as -> by by rewrite He.
  apply list_elem_of_split in Hg as (l1 & l2 & ->). rewrite <- (assoc_L (++)) in Hs. apply StronglySorted_app_1_r in Hs.
  inversion_clear Hs as [|? ? _ Hall]. rewrite Forall_forall in Hall. apply (Hall e). set_solver.
Qed.

Lemma evicted_fits store incoming l dir dir' gone kept :
  evicted store incoming l dir dir' gone kept -> sat_add64 (total_len l) incoming <= us_quota_bytes store -> dir' = dir.
Proof.
  intros [-> -> _ Hn] Hq. destruct gone as [|e gone _] using rev_ind; [done|]. specialize (Hn gone e eq_refl).
  rewrite !total_len_app in Hq. unfold total_len, sat_add64 in *. cbn in *. lia.
Qed.
(** ** The quota *)

Lemma stored_perm l dir : l ≡ₚ completed dir -> total_len l = stored_bytes dir.
Proof. intros H. unfold stored_bytes. by rewrite H. Qed.

Lemma room_made store incoming dir dir' r :
  us_quota_bytes store < u64_max ->
  make_room_for read_dir removable store Scanned incoming dir = (dir', r) ->
  dir' ⊆ dir
  /\ (r = Ok tt <-> stored_bytes dir' + incoming <= us_quota_bytes store)
  /\ (stored_bytes dir + incoming <= us_quota_bytes store -> dir' = dir)
  /\ ((forall n, removable n = true) -> incoming <= us_quota_bytes store -> r = Ok tt)
  /\ (forall n f, dir !! n = Some f -> dir' !! n = None ->
      sweep_entry (n, f) ∈ completed dir /\ forall e, e ∈ completed dir' -> sf_modified f <= se_modified e).
Proof.
  intros Hq Hm. unfold make_room_for in Hm. set (l := sort_by_key _ _) in Hm.
  assert (l ≡ₚ completed dir) as Hl by (unfold l; rewrite sort_by_key_perm; apply scan_completed).
  assert (StronglySorted (key_le se_modified) l) as Hs by apply sort_by_key_sorted. clearbody l.
  destruct (evict_spec _ _ _ _ _ _ Hl Hm) as (gone & kept & Hev & Hr & Hall).
  pose proof (stored_perm _ _ (ev_kept _ _ _ _ _ _ _ Hev)) as Hk. rewrite Hk in Hr. unfold sat_add64 in Hr.
  split_and!.
  - rewrite (ev_dir _ _ _ _ _ _ _ Hev). apply without_subseteq.
  - rewrite Hr. lia.
  - intros Hfit. eapply evicted_fits; [exact Hev|]. rewrite (stored_perm _ _ Hl). unfold sat_add64. lia.
  - intros Hrm Hi. destruct r as [[]|e]; [done|]. apply Hr. rewrite <- Hk, (Hall Hrm) by done. cbn. lia.
  - intros n f. by eapply evicted_oldest.
Qed.

(** Room is made for an upload within the quota or the upload is refused: completed uploads go oldest
    first, no others do, none when there is room, and when they can be removed an upload that fits the quota
    alone is let in. *)
Theorem make_room_for_spec store incoming dir dir' r :
  us_quota_bytes store < u64_max ->
  make_room_for read_dir removable store Scanned incoming dir = (dir', r) ->
  dir' ⊆ dir
  /\ (r = Ok tt <-> stored_bytes dir' + incoming <= us_quota_bytes store)
  /\ (stored_bytes dir + incoming <= us_quota_bytes store -> dir' = dir)
  /\ ((forall n, removable n = true) -> incoming <= us_quota_bytes store -> r = Ok tt)
  /\ (forall n f, dir !! n = Some f -> dir' !! n = None ->
      sweep_entry (n, f) ∈ completed dir /\ forall e, e ∈ completed dir' -> sf_modified f <= se_modified e).
Proof. apply room_made. Qed.

(** ** The sweeper *)

Definition stale (store : UploadStore) (now : N) (e : SweepEntry) : bool :=
  (if se_partial e then us_partial_ttl store else us_completed_ttl store) <=? now - se_modified e.

Lemma sweep_stale_spec store now entries dir acc :
  (forall n, removable n = true) -> NoDup (se_name <$> entries) -> (forall e, e ∈ entries -> is_Some (dir !! se_name e)) ->
  sweep_stale removable store now entries dir acc
  = (without dir (List.filter (stale store now) entries),
     acc ++ List.filter (fun e => is_completed e && negb (stale store now e)) entries).
Proof.
  intros Hall. revert dir acc. induction entries as [|e entries IH]; intros dir acc Hnd Hin; cbn [sweep_stale List.filter].
  - by rewrite app_nil_r.
  - rewrite fmap_cons, NoDup_cons in Hnd. destruct Hnd as [He Hnd].
    assert (forall d, d = dir \/ d = delete (se_name e) dir -> forall e', e' ∈ entries -> is_Some (d !! se_name e')) as Hin'.
    { intros d [->| ->] e' H'; [apply Hin; by constructor|]. rewrite lookup_delete_ne; [apply Hin; by constructor|].
      intros Heq. apply He. rewrite Heq. by apply list_elem_of_fmap_2. }
    assert (remove_file removable (se_name e) dir = (delete (se_name e) dir, true)) as Hrm.
    { unfold remove_file. rewrite Hall. destruct (Hin e ltac:(by constructor)) as [f ->]. done. }
    destruct (stale store now e) eqn:Hst; pose proof Hst as Hage; unfold stale in Hage; destruct (se_partial e) eqn:Hp;
      rewrite Hage; unfold is_completed at 1; rewrite Hp; cbn [negb andb]; rewrite ?Hrm; cbn [fst]; rewrite IH by auto; rewrite ?without_delete, <- ?(assoc_L (++)); done.
Qed.

Lemma sweep_quota_evict store total l dir :
  (forall n, removable n = true) -> us_quota_bytes store < u64_max -> l ≡ₚ completed dir ->
  sweep_quota removable store total l dir = (evict removable store 0 total l dir).1.
Proof.
  intros Hall Hq. revert total dir. induction l as [|e l IH]; intros total dir Hl; cbn [sweep_quota evict].
  - by destruct (_ <? _).
  - assert ((us_quota_bytes store <? sat_add64 total 0) = negb (total <=? us_quota_bytes store)) as ->.
    { unfold sat_add64. destruct (N.leb_spec total (us_quota_bytes store)); cbn [negb]; [apply N.ltb_ge|apply N.ltb_lt]; lia. }
    destruct (_ <=? _); cbn [negb]; [done|]. assert (e ∈ completed dir) as He by (rewrite <- Hl; by constructor).
    destruct (remove_file removable (se_name e) dir) as [d ok] eqn:Hrm. apply remove_completed in Hrm; [|done].
    destruct ok; [|by destruct Hrm as [Hrm _]; rewrite Hall in Hrm]. subst d. by apply IH, completed_tail.
Qed.
Lemma scan_elem e dir :
  e ∈ scan read_dir dir <-> exists f, dir !! se_name e = Some f /\ sf_regular f = true /\ e = sweep_entry (se_name e, f).
Proof.
  unfold scan. rewrite list_elem_of_fmap. split.
  - intros ([n f] & -> & Hf). rewrite list_elem_of_In, filter_In, <- list_elem_of_In, read_dir_lists, elem_of_map_to_list in Hf.
    exists f. by destruct Hf.
  - intros (f & Hf & Hr & He). exists (se_name e, f). split; [done|].
    by rewrite list_elem_of_In, filter_In, <- list_elem_of_In, read_dir_lists, elem_of_map_to_list.
Qed.

Lemma scan_nodup dir : NoDup (se_name <$> scan read_dir dir).
Proof.
  unfold scan. rewrite <- list_fmap_compose, (list_fmap_ext _ fst); [|by intros ? [] _].
  eapply NoDup_fmap_sublist; [apply filter_sublist|]. rewrite read_dir_lists. apply NoDup_fst_map_to_list.
Qed.

Lemma completed_nodup dir : NoDup (completed dir).
Proof. rewrite <- scan_completed. eapply sublist_NoDup; [eapply NoDup_fmap_1, scan_nodup|apply filter_sublist]. Qed.

Lemma stored_mono dir1 dir : dir1 ⊆ dir -> stored_bytes dir1 <= stored_bytes dir.
Proof.
  intros Hsub. assert (completed dir1 ⊆+ completed dir) as (k & Hk)%submseteq_Permutation.
  { apply NoDup_submseteq; [apply completed_nodup|]. intros e (f & Hf & H)%completed_elem. apply completed_elem.
    exists f. split; [by eapply lookup_weaken|done]. }
  unfold stored_bytes. rewrite Hk, total_len_app. lia.
Qed.

Lemma stale_elem store now dir e :
  e ∈ List.filter (stale store now) (scan read_dir dir) <-> e ∈ scan read_dir dir /\ stale store now e = true.
Proof. by rewrite list_elem_of_In, filter_In, <- list_elem_of_In. Qed.

(** What is left once the stale files are gone. *)
Lemma unstale_lookup store now dir n :
  without dir (List.filter (stale store now) (scan read_dir dir)) !! n
  = match dir !! n with Some f => if sf_regular f && stale store now (sweep_entry (n, f)) then None else Some f | None => None end.
Proof.
  rewrite without_lookup. case_bool_decide as Hin.
  - apply list_elem_of_fmap in Hin as (e & -> & [(f & -> & Hr & He)%scan_elem Hs]%stale_elem). rewrite <- He. by rewrite Hr, Hs.
  - destruct (dir !! n) as [f|] eqn:Hf; [|done]. destruct (sf_regular f && _) eqn:Hs; [|done]. exfalso. apply Hin.
    apply andb_prop in Hs as [Hr Hs]. apply list_elem_of_fmap. exists (sweep_entry (n, f)). split; [done|].
    apply stale_elem. split; [|done]. apply scan_elem. by exists f.
Qed.

Lemma fresh_completed store now dir :
  List.filter (fun e => is_completed e && negb (stale store now e)) (scan read_dir dir)
  ≡ₚ completed (without dir (List.filter (stale store now) (scan read_dir dir))).
Proof.
  apply NoDup_Permutation; [|apply completed_nodup|].
  - eapply sublist_NoDup; [eapply NoDup_fmap_1, scan_nodup|apply filter_sublist].
  - intros e. rewrite list_elem_of_In, filter_In, <- list_elem_of_In, scan_elem, completed_elem. setoid_rewrite unstale_lookup.
    unfold is_completed. split.
    + intros ((f & Hf & Hr & He) & [Hp Hs]%andb_prop). exists f. rewrite Hf, Hr, <- He. apply negb_true_iff in Hp, Hs. by rewrite Hs.
    + intros (f & Hf & Hr & He & Hp). destruct (dir !! se_name e) as [g|] eqn:Hg; [|done].
      destruct (sf_regular g && stale _ _ _) eqn:Hs; [done|]. injection Hf as ->. rewrite Hr, <- He in Hs. cbn in Hs.
      rewrite Hp, Hs. split; [by exists f|done].
Qed.

(** A sweep leaves what it should, when files can be removed: no partial file and no completed upload
    that outlived its time, completed uploads within the quota, the newest of them; it touches nothing else,
    neither a younger partial file, nor what is no regular file, nor, within the quota, a younger upload. *)
Theorem sweep_at_spec store now dir dir' :
  (forall n, removable n = true) -> us_quota_bytes store < u64_max ->
  dir' = sweep_at read_dir removable store Scanned now dir ->
  dir' ⊆ dir
  /\ stored_bytes dir' <= us_quota_bytes store
  /\ (forall n f, dir' !! n = Some f -> sf_regular f = true -> stale store now (sweep_entry (n, f)) = false)
  /\ (forall n f, dir !! n = Some f -> dir' !! n = None ->
      sf_regular f = true /\
      (stale store now (sweep_entry (n, f)) = true
       \/ se_partial (sweep_entry (n, f)) = false /\ us_quota_bytes store < stored_bytes dir
          /\ forall e, e ∈ completed dir' -> sf_modified f <= se_modified e)).
Proof.
  intros Hall Hq ->. unfold sweep_at. rewrite sweep_stale_spec; [|done|apply scan_nodup|by intros e (f & Hf & _)%scan_elem; rewrite Hf].
  cbn [app]. pose proof (fresh_completed store now dir) as Hfc. pose proof (unstale_lookup store now dir) as Hlook.
  set (dir1 := without dir _) in *. set (l := sort_by_key _ _).
  assert (l ≡ₚ completed dir1) as Hl by (unfold l; by rewrite sort_by_key_perm).
  assert (StronglySorted (key_le se_modified) l) as Hs by apply sort_by_key_sorted. clearbody l dir1. clear Hfc.
  rewrite (sweep_quota_evict _ _ _ _ Hall Hq Hl). destruct (evict _ _ _ _ _ _) as [dir' r] eqn:Hev.
  destruct (evict_spec _ _ _ _ _ _ Hl Hev) as (gone & kept & Hgk & Hr & Hempty). cbn [fst].
  pose proof (stored_perm _ _ (ev_kept _ _ _ _ _ _ _ Hgk)) as Hk.
  assert (dir' ⊆ dir1) as Hsub by (rewrite (ev_dir _ _ _ _ _ _ _ Hgk); apply without_subseteq).
  assert (dir1 ⊆ dir) as Hsub1.
  { apply map_subseteq_spec. intros n f. rewrite Hlook. destruct (dir !! n); [|done]. by destruct (_ && _). }
  split_and!.
  - by etrans.
  - rewrite <- Hk. unfold sat_add64 in Hr. destruct r as [[]|e]; [|rewrite (Hempty Hall) by done; cbn; lia].
    destruct Hr as [Hr _]. specialize (Hr eq_refl). lia.
  - intros n f Hf Hreg. pose proof (lookup_weaken _ _ _ _ Hf Hsub) as Hf1. rewrite Hlook in Hf1.
    destruct (dir !! n) as [g|]; [|done]. destruct (sf_regular g && _) eqn:Hst; [done|]. injection Hf1 as ->. by rewrite Hreg in Hst.
  - intros n f Hf Hn. specialize (Hlook n). rewrite Hf in Hlook. destruct (sf_regular f && stale _ _ _) eqn:Hst.
    + apply andb_prop in Hst as [? ?]. split; [done|by left].
    + destruct (evicted_oldest _ _ _ _ _ _ _ n f Hgk Hl Hs Hlook Hn) as [Hc Hold].
      apply completed_elem in Hc as (f' & Hf' & Hreg & He & Hp). cbn in Hf'. assert (f' = f) as -> by congruence.
      split; [done|]. right. split_and!; [done| |done].
      destruct (N.ltb_spec (us_quota_bytes store) (stored_bytes dir)) as [|Hfit]; [done|].
      assert (dir' = dir1) as -> by (eapply evicted_fits; [exact Hgk|];
        rewrite (stored_perm _ _ Hl); unfold sat_add64; pose proof (stored_mono _ _ Hsub1); lia). congruence.
Qed.
(** A file that is new adds no more than its size. *)
Lemma stored_insert n f dir : dir !! n = None -> stored_bytes (<[n := f]> dir) <= stored_bytes dir + len (sf_contents f).
Proof.
  intros Hn. unfold stored_bytes, completed. rewrite map_to_list_insert by done. cbn [List.filter].
  destruct (sf_regular f); cbn [fmap list_fmap List.filter]; [|lia]. set (l := List.filter _ (_ <$> _)).
  destruct (is_completed _); unfold total_len; cbn; lia.
Qed.
End directory.
