(* ===== verification/UploadStream.v ===== *)
(** One upload over its stream, [run_upload_stream] of [uploads.rs], while sweeps and other uploads share
    its directory: what is published was verified, and every exchange ends with one answer, unless the peer
    never takes a reply. *)
From S2P Require Import Prelude Text HostProtocol HostRpc Framing FrameReader UploadNames Uploads.

Local Open Scope N_scope.

Section stream.
Context (to_vec : PutReply -> option bytes) (from_slice : bytes -> option PutOpen).
Context (read_dir : directory -> list (string * StoredFile)) (sha256 : bytes -> bytes) (faults : Faults).
(** The clock at each await, and what sweeps and other uploads do to the directory meanwhile. *)
Context (clock : nat -> N) (others : nat -> directory -> directory).
(** What the peer sends, without end, read by read, and how many of the reads still to come are ready before
    the deadline of each await. *)
Context (arrivals : nat -> read_event) (in_time : nat -> nat).

(** The next [n] reads after the first [k]. *)
Definition coming (k n : nat) : list read_event := arrivals <$> seq k n.

Inductive FrameOutcome :=
| Frame (frame : UploadClientFrame)
| Timeout
| Protocol
| Transport (e : HostProtocolError).

(** [next_frame], [k] reads into the stream: [timeout] waits for the reads that are ready in time. *)
Definition next_frame (await k : nat) (buffer : bytes) : bytes * nat * FrameOutcome :=
  let '(buffer, unread, read) := next_upload from_slice buffer (coming k (in_time await)) in
  (buffer, k + in_time await - length unread,
   match read with
   | None => Timeout
   | Some (Ok frame) => Frame frame
   | Some (Err (Io e)) => Transport (Io e)
   | Some (Err Truncated) => Transport Truncated
   | Some (Err _) => Protocol
   end)%nat.

(** How an exchange ends: it returns, or it waits for the peer to make room for a reply, under no deadline. *)
Inductive ending := Returned (v : verdict) | Stalled.

(** The directory as an exchange leaves it, the replies the peer took and how it ended. *)
Record Exchange := mkExchange { ex_dir : directory; ex_sent : list PutReply; ex_ending : ending }.

(** [write_upload_control], after the replies [sent]. *)
Definition write_upload_control (sent : list PutReply) (reply : PutReply) : list PutReply * ending :=
  match encode_upload_control to_vec reply with
  | Err e => (sent, Returned (Err e))
  | Ok _ =>
      match ft_send faults (length sent) with
      | Sent => (sent ++ [reply], Returned (Ok tt))
      | SendFailed e => (sent, Returned (Err (Io e)))
      | SendStalls => (sent, Stalled)
      end
  end.

(** A last reply: the directory is [held] while it is sent and [left] once the stream handler returns. *)
Definition ended (sent : list PutReply) (reply : PutReply) (held left : directory) : Exchange :=
  let '(sent, e) := write_upload_control sent reply in
  mkExchange (match e with Stalled => held | Returned _ => left end) sent e.

(** [refuse]. *)
Definition refuse (sent : list PutReply) (code : UploadErrorCode) (message : string) (held left : directory) : Exchange :=
  ended sent (PutError UPLOAD_JSON_VERSION (wire code) message) held left.

(** The loop after [put_accepted], [k] reads into the stream; the partial upload is dropped wherever it
    returns, after the reply, but [finish] takes it. *)
Fixpoint transfer_loop (fuel : nat) (await chunks k : nat) (p : PartialUpload) (buffer : bytes) (sent : list PutReply) (dir : directory)
  : option Exchange :=
  match fuel with
  | O => None
  | S fuel =>
      let dir := others await dir in
      let dropped := drop_partial faults p dir in
      let '(buffer, k, outcome) := next_frame await k buffer in
      match outcome with
      | Timeout => Some (refuse sent TimedOut "The upload timed out." dir dropped)
      | Protocol => Some (refuse sent Invalid "The upload frame was malformed." dir dropped)
      | Transport e => Some (mkExchange dropped sent (Returned (Err e)))
      | Frame (Chunk payload) =>
          match write_chunk faults chunks (clock await) payload p dir with
          | (dir, Err failure) => Some (refuse sent (uf_code failure) (uf_message failure) dir (drop_partial faults p dir))
          | (dir, Ok p) => transfer_loop fuel (S await) (S chunks) k p buffer sent dir
          end
      | Frame Finish =>
          match finish read_dir sha256 faults (clock await) p dir with
          | (dir, Ok completed) =>
              Some (ended sent (PutDone UPLOAD_JSON_VERSION (cu_host_path completed) (cu_prompt_reference completed)
                                  (cu_expires_at completed)) dir dir)
          | (dir, Err failure) => Some (refuse sent (uf_code failure) (uf_message failure) dir dir)
          end
      | Frame Cancel => Some (refuse sent Cancelled "The upload was cancelled." dir dropped)
      | Frame (Open _) => Some (refuse sent Invalid "Exactly one upload runs per stream." dir dropped)
      end
  end.

(** Every chunk that is kept takes a byte of the declared size. *)
Definition run_upload_stream (store : UploadStore) (token : N) (transfer_id : string) (dir : directory) : option Exchange :=
  let '(buffer, k, outcome) := next_frame 0 0 [] in
  match outcome with
  | Timeout => Some (refuse [] TimedOut "The upload timed out." dir dir)
  | Protocol => Some (refuse [] Invalid "The upload frame was malformed." dir dir)
  | Transport e => Some (mkExchange dir [] (Returned (Err e)))
  | Frame Cancel => Some (refuse [] Cancelled "The upload was cancelled." dir dir)
  | Frame (Chunk _ | Finish) => Some (refuse [] Invalid "The stream must begin with put_open." dir dir)
  | Frame (Open open) =>
      match PutOpen_validate open with
      | Err failure => Some (refuse [] (uf_code failure) (uf_message failure) dir dir)
      | Ok _ =>
          match begin faults store token (clock 0) (po_filename open) (po_size open) (po_sha256 open) dir with
          | (dir, None) => Some (refuse [] FailedIo "The Mac could not store the upload." dir dir)
          | (dir, Some p) =>
              match write_upload_control []
                      (PutAccepted UPLOAD_JSON_VERSION transfer_id MAX_UPLOAD_CHUNK_PAYLOAD MAX_UPLOAD_FILE_BYTES) with
              | (sent, Stalled) => Some (mkExchange dir sent Stalled)
              | (sent, Returned (Err e)) => Some (mkExchange (drop_partial faults p dir) sent (Returned (Err e)))
              | (sent, Returned (Ok _)) => transfer_loop (S (N.to_nat (po_size open))) 1 0 k p buffer sent dir
              end
          end
      end
  end.

(** ** Reading from a stream that does not end *)

Lemma coming_app k a b : coming k (a + b) = coming k a ++ coming (k + a) b.
Proof. unfold coming. by rewrite seq_app, fmap_app. Qed.

Lemma coming_prefix k n used left :
  coming k n = used ++ left -> used = coming k (length used) /\ n = (length used + length left)%nat.
Proof.
  intros H. assert (n = length used + length left)%nat as ->.
  { apply (f_equal length) in H. unfold coming in H. by rewrite length_fmap, length_seq, length_app in H. }
  split; [|done]. rewrite coming_app in H. apply app_inj_1 in H as [H _]; [done|]. unfold coming. by rewrite length_fmap, length_seq.
Qed.

(** A frame is read from the reads it took, whatever comes after. *)
Lemma next_frame_frame await k buffer buffer' k' frame :
  next_frame await k buffer = (buffer', k', Frame frame) ->
  exists used, k' = (k + used)%nat
  /\ forall more, next_upload from_slice buffer (coming k (used + more)) = (buffer', coming k' more, Some (Ok frame)).
Proof.
  unfold next_frame. destruct (next_upload _ _ _) as [[b left] [[f|e]|]] eqn:Hn; [|by destruct e|done].
  intros [= <- <- ->]. apply read_next_local in Hn as (used & [Hu Hl]%coming_prefix & Hread).
  exists (length used). split; [lia|]. intros more. rewrite coming_app, <- Hu, Hl, Nat.add_assoc, Nat.add_sub. apply Hread.
Qed.

(** A chunk carries at least a byte. *)
Lemma decode_chunk frame_type payload chunk : decode_upload_client_frame from_slice frame_type payload = Ok (Chunk chunk) -> chunk <> [].
Proof.
  unfold decode_upload_client_frame. destruct (_ =? _); [by destruct (from_slice payload)|].
  destruct (_ =? _); [rewrite rbind_unit_ok, refuse_if_ok; by intros [H%N.eqb_neq [= <-]] ->|].
  by repeat (destruct (_ =? _); [rewrite rbind_unit_ok; by intros [_ ?]|]); destruct (existsb _ _).
Qed.

Lemma next_frame_chunk await k buffer buffer' k' payload : next_frame await k buffer = (buffer', k', Frame (Chunk payload)) -> payload <> [].
Proof.
  intros (used & _ & H)%next_frame_frame. specialize (H O). apply read_next_taken in H as [whole H]. revert H.
  unfold take_upload, take_typed, take_delimited. destruct (len whole <? 5); [done|]. cbv zeta.
  destruct (typed_length _ _ _) as [n|]; [|done]. cbn [rbind]. destruct (len whole <? 5 + n); [done|].
  destruct (decode_upload_client_frame _ _ _) as [f|] eqn:Hd; [|done]. intros [= -> _]. by apply decode_chunk in Hd.
Qed.

(** ** Every exchange ends, with one answer *)

Definition terminal (reply : PutReply) : bool := match reply with PutAccepted _ _ _ _ => false | _ => true end.

(** One verdict was taken, the stream broke, or the peer takes no reply. *)
Definition answered_once (before : list PutReply) (ex : Exchange) : Prop :=
  match ex_ending ex with
  | Returned (Ok _) => exists reply, terminal reply = true /\ ex_sent ex = before ++ [reply]
  | Returned (Err _) => ex_sent ex = before
  | Stalled => ex_sent ex = before /\ ft_send faults (length before) = SendStalls
  end.

Lemma ended_answered sent reply held left : terminal reply = true -> answered_once sent (ended sent reply held left).
Proof.
  intros Ht. unfold ended, write_upload_control, answered_once. destruct (encode_upload_control _ _); [|done].
  destruct (ft_send _ _) eqn:Hs; cbn; [|done..]. by exists reply.
Qed.

Lemma refuse_answered sent code message held left : answered_once sent (refuse sent code message held left).
Proof. by apply ended_answered. Qed.

Lemma write_chunk_fits i now payload p dir dir' p' :
  pu_declared p < u64_max -> write_chunk faults i now payload p dir = (dir', Ok p') ->
  pu_declared p' = pu_declared p /\ pu_written p' = pu_written p + len payload /\ pu_written p' <= pu_declared p.
Proof.
  intros Hd. unfold write_chunk. destruct (N.ltb_spec (pu_declared p) (sat_add64 (pu_written p) (len payload))); [done|].
  destruct (ft_write _ _); [done|]. intros [= _ <-]. cbn. unfold sat_add64 in *. lia.
Qed.

Lemma transfer_loop_ends fuel await i k p buffer sent dir :
  pu_declared p < u64_max -> (N.to_nat (pu_declared p - pu_written p) < fuel)%nat ->
  exists ex, transfer_loop fuel await i k p buffer sent dir = Some ex /\ answered_once sent ex.
Proof.
  revert await i k p buffer dir. induction fuel as [|fuel IH]; intros await i k p buffer dir Hd Hf; [lia|].
  cbn [transfer_loop]. cbv zeta. destruct (next_frame await k buffer) as [[b k'] outcome] eqn:Hn.
  destruct outcome as [frame| | |e]; [|by eexists; split; [done|apply refuse_answered]..|by eexists].
  destruct frame as [open|payload| |];
    [by eexists; split; [done|apply refuse_answered]| | |by eexists; split; [done|apply refuse_answered]].
  - apply next_frame_chunk in Hn. destruct (write_chunk _ _ _ _ _ _) as [d [q|failure]] eqn:Hw;
      [|by eexists; split; [done|apply refuse_answered]]. apply write_chunk_fits in Hw as (Hq & Hw & Hle); [|done].
    apply IH; [by rewrite Hq|]. destruct payload as [|x payload]; [done|]. rewrite len_cons in Hw. lia.
  - destruct (finish _ _ _ _ _ _) as [d [c|failure]]; (eexists; split; [done|]); [by apply ended_answered|apply refuse_answered].
Qed.

Lemma validated_small open : PutOpen_validate open = Ok tt -> po_size open < u64_max.
Proof.
  unfold PutOpen_validate. rewrite !rbind_unit_ok, !refuse_if_ok. intros H. destruct_and!.
  match goal with H : (MAX_UPLOAD_FILE_BYTES <? _) = false |- _ => apply N.ltb_ge in H end.
  unfold MAX_UPLOAD_FILE_BYTES, u64_max in *. lia.
Qed.

(** C36: Every upload comes to an end, however long the peer goes on sending, whatever it sends or withholds,
    the disk refuses or others do meanwhile: the phone is answered with at most one acceptance followed by
    exactly one verdict, done or an error, or the host itself reports that the stream broke. The one other
    end is a reply the peer never makes room for: the host then waits, under no deadline, and has sent no
    verdict. *)
Theorem upload_answers_once store token transfer_id dir :
  exists ex before, run_upload_stream store token transfer_id dir = Some ex
  /\ (before = [] \/ before = [PutAccepted UPLOAD_JSON_VERSION transfer_id MAX_UPLOAD_CHUNK_PAYLOAD MAX_UPLOAD_FILE_BYTES])
  /\ match ex_ending ex with
     | Returned (Ok _) => exists verdict, terminal verdict = true /\ ex_sent ex = before ++ [verdict]
     | Returned (Err _) => ex_sent ex = before
     | Stalled => ex_sent ex = before /\ ft_send faults (length before) = SendStalls
     end.
Proof.
  change (exists ex before, run_upload_stream store token transfer_id dir = Some ex
          /\ (before = [] \/ before = [PutAccepted UPLOAD_JSON_VERSION transfer_id MAX_UPLOAD_CHUNK_PAYLOAD MAX_UPLOAD_FILE_BYTES])
          /\ answered_once before ex).
  unfold run_upload_stream. destruct (next_frame 0 0 []) as [[b k] [[open|payload| |]| | |e]];
    try (by eexists _, []; split_and!; [done|by left|apply refuse_answered]); [|by eexists _, []; split_and!; [done|by left|]].
  destruct (PutOpen_validate open) as [[]|] eqn:Hv; [|by eexists _, []; split_and!; [done|by left|apply refuse_answered]].
  apply validated_small in Hv. unfold begin. destruct (ft_creates faults && _); cbv iota beta;
    [|by eexists _, []; split_and!; [done|by left|apply refuse_answered]].
  unfold write_upload_control. destruct (encode_upload_control _ _); [|by eexists _, []; split_and!; [done|by left|]].
  cbn [length app]. destruct (ft_send faults 0) eqn:Hs; try by eexists _, []; split_and!; [done|by left|].
  edestruct transfer_loop_ends as (ex & Hex & Ha); [| |by eexists _, _; split_and!; [exact Hex|by right|exact Ha]]; cbn; [done|lia].
Qed.

(** ** The directory of one exchange *)

Section exchange.
Context (token : N).

(** The names of this exchange: its random token is nobody else's. *)
Definition own (name : string) : bool := starts_with name (hex (be_bytes 8 token)).

Definition holds (p : PartialUpload) (dir : directory) : Prop :=
  forall n f, own n = true -> dir !! n = Some f -> n = partial_name token /\ sf_contents f = pu_hashed p.

(** Others leave the files of this exchange as they are or remove them. *)
Definition apart : Prop := forall await dir n, own n = true -> others await dir !! n = dir !! n \/ others await dir !! n = None.

Context (others_apart : apart).

Lemma starts_with_prefix a b : starts_with (a +:+ b) a = true.
Proof. unfold starts_with. induction a as [|c a IH]; cbn; [by destruct b|]. by destruct (ascii_dec c c). Qed.

Lemma own_partial : own (partial_name token) = true.
Proof. apply starts_with_prefix. Qed.

Lemma own_final name : own (final_name token name) = true.
Proof. apply starts_with_prefix. Qed.

Lemma str_app_inj a b c : (a +:+ b = a +:+ c)%string -> b = c.
Proof. induction a as [|x a IH]; cbn; [done|]. by intros [= H]; auto. Qed.

Lemma partial_not_final name : partial_name token <> final_name token name.
Proof. unfold partial_name, final_name. intros H%str_app_inj. by injection H. Qed.

Lemma holds_sub p dir dir' : holds p dir -> dir' ⊆ dir -> holds p dir'.
Proof. intros H Hs n f Hn Hf. apply (H n f Hn). by eapply lookup_weaken. Qed.

Lemma holds_others p await dir : holds p dir -> holds p (others await dir).
Proof. intros H n f Hn Hf. apply (H n f Hn). destruct (others_apart await dir n Hn) as [<-|Hnone]; [done|congruence]. Qed.

(** All there is of this exchange is its partial file, or only where that cannot be removed. *)
Definition only_partial (dir : directory) : Prop := forall n f, own n = true -> dir !! n = Some f -> n = partial_name token.

Definition swept (dir : directory) : Prop :=
  forall n f, own n = true -> dir !! n = Some f -> n = partial_name token /\ ft_removable faults n = false.

Lemma holds_partial p dir : holds p dir -> only_partial dir.
Proof. intros H n f Hn Hf. by destruct (H n f Hn Hf). Qed.

Lemma swept_partial dir : swept dir -> only_partial dir.
Proof. intros H n f Hn Hf. by destruct (H n f Hn Hf). Qed.

Lemma fresh_swept dir : (forall n, own n = true -> dir !! n = None) -> swept dir.
Proof. intros H n f Hn Hf. by rewrite H in Hf. Qed.

Lemma partial_dropped p dir : pu_partial p = partial_name token -> only_partial dir -> swept (drop_partial faults p dir).
Proof.
  intros Hp Hh n f Hn. unfold drop_partial, remove_file. rewrite Hp. intros Hf.
  assert (dir !! n = Some f) as Hd by (destruct (_ && _); cbn in Hf; [by apply lookup_delete_Some in Hf as [_ ?]|done]).
  pose proof (Hh n f Hn Hd) as ->. split; [done|]. destruct (ft_removable faults (partial_name token)); [|done].
  rewrite Hd in Hf. cbn in Hf. by rewrite lookup_delete_eq in Hf.
Qed.

Lemma holds_append p dir written now :
  pu_partial p = partial_name token -> holds p dir ->
  forall n f, own n = true -> append (pu_partial p) written now dir !! n = Some f ->
  n = partial_name token /\ sf_contents f = pu_hashed p ++ written.
Proof.
  intros Hp Hh n f Hn. unfold append. rewrite Hp. destruct (decide (n = partial_name token)) as [->|Hne].
  - rewrite lookup_alter_eq. destruct (dir !! _) as [g|] eqn:Hg; [|done]. intros [= <-]. cbn. split; [done|].
    by destruct (Hh _ _ Hn Hg) as [_ ->].
  - rewrite lookup_alter_ne by done. intros Hf. by destruct (Hh _ _ Hn Hf).
Qed.

(** What [finish] publishes was checked, and otherwise it leaves nothing it can remove. *)
Lemma finish_spec now p dir suggested :
  pu_partial p = partial_name token -> pu_final p = final_name token suggested -> holds p dir ->
  match finish read_dir sha256 faults now p dir with
  | (dir', Ok c) =>
      pu_written p = pu_declared p /\ hex (sha256 (pu_hashed p)) = pu_expected_sha256 p
      /\ cu_host_path c = joined (pu_store p) (pu_final p) /\ cu_prompt_reference c = posix_single_quote (cu_host_path c)
      /\ (exists f, dir' !! pu_final p = Some f)
      /\ (forall n f, own n = true -> dir' !! n = Some f -> n = pu_final p /\ sf_contents f = pu_hashed p)
  | (dir', Err _) => swept dir'
  end.
Proof.
  intros Hp Hf Hh. assert (forall d, d ⊆ dir -> swept (drop_partial faults p d)) as Hsw
    by (intros d Hd; apply partial_dropped, (holds_partial p), (holds_sub _ dir); done).
  unfold finish. destruct (N.eqb_spec (pu_written p) (pu_declared p)) as [Hw|]; cbn [negb]; [|by apply Hsw].
  destruct (String.eqb_spec (hex (sha256 (pu_hashed p))) (pu_expected_sha256 p)) as [Hsha|]; cbn [negb]; [|by apply Hsw].
  destruct (ft_syncs faults); cbn [negb]; [|by apply Hsw].
  pose proof (make_room_for_subseteq read_dir (ft_removable faults) (pu_store p) (ft_scan faults) (pu_declared p) dir) as Hsub.
  destruct (make_room_for _ _ _ _ _ _) as [d [u|failure]]; cbn [fst] in Hsub; pose proof (holds_sub p _ _ Hh Hsub) as Hd; [|by apply Hsw].
  unfold rename. rewrite Hp. destruct (d !! partial_name token) as [g|] eqn:Hg; [|by apply Hsw].
  destruct (ft_renames faults); [|by apply Hsw].
  rewrite Hf. split_and!; try done; [by eexists; rewrite lookup_insert_eq|]. intros n f Hn.
  destruct (Hd _ _ own_partial Hg) as [_ Hc]. destruct (decide (n = final_name token suggested)) as [->|Hne].
  - rewrite lookup_insert_eq. by intros [= <-].
  - rewrite lookup_insert_ne by done. destruct (decide (n = partial_name token)) as [->|Hnp]; [by rewrite lookup_delete_eq|].
    rewrite lookup_delete_ne by done. intros Hl. by destruct (Hd _ _ Hn Hl).
Qed.

(** The file published from a request and the chunks that followed it. *)
Definition verified (open : PutOpen) (chunks : list bytes) (f : StoredFile) : Prop :=
  PutOpen_validate open = Ok tt /\ sf_contents f = mjoin chunks /\ len (sf_contents f) = po_size open
  /\ hex (sha256 (sf_contents f)) = po_sha256 open.

(** A transfer under way. *)
Record transfer_ok (store : UploadStore) (open : PutOpen) (before : list bytes) (p : PartialUpload) (dir : directory) : Prop := {
  to_partial : pu_partial p = partial_name token;
  to_final : pu_final p = final_name token (po_filename open);
  to_store : pu_store p = store;
  to_declared : pu_declared p = po_size open;
  to_expected : pu_expected_sha256 p = po_sha256 open;
  to_hashed : pu_hashed p = mjoin before;
  to_written : pu_written p = len (pu_hashed p);
  to_holds : holds p dir
}.

Lemma transfer_ok_others store open before p dir await : transfer_ok store open before p dir -> transfer_ok store open before p (others await dir).
Proof. intros []. split; [done..|]. by apply holds_others. Qed.

Lemma transfer_ok_partial store open before p dir : transfer_ok store open before p dir -> only_partial dir.
Proof. intros []. by eapply holds_partial. Qed.

Lemma transfer_ok_dropped store open before p dir : transfer_ok store open before p dir -> swept (drop_partial faults p dir).
Proof. intros []. apply partial_dropped; [done|by eapply holds_partial]. Qed.

Lemma write_chunk_spec store open before p dir i now payload :
  transfer_ok store open before p dir ->
  match write_chunk faults i now payload p dir with
  | (dir', Ok p') => transfer_ok store open (before ++ [payload]) p' dir'
  | (dir', Err _) => only_partial dir' /\ swept (drop_partial faults p dir')
  end.
Proof.
  intros [].
  assert (forall d, only_partial d -> only_partial d /\ swept (drop_partial faults p d)) as Hsw by (split; [done|by apply partial_dropped]).
  unfold write_chunk. destruct (pu_declared p <? _); [by apply Hsw, (holds_partial p)|].
  pose proof (fun written => holds_append p dir written now to_partial0 to_holds0) as Happ. destruct (ft_write faults i) as [k|].
  - apply Hsw. intros n f Hn Hf. by destruct (Happ _ n f Hn Hf).
  - split; cbn [pu_partial pu_final pu_store pu_declared pu_expected_sha256 pu_hashed pu_written]; try done.
    + rewrite to_hashed0, join_app. cbn. by rewrite app_nil_r.
    + by rewrite len_app, to_written0.
    + intros m f. by apply Happ.
Qed.

(** The first [n] frames in [m] reads of the stream, [k] reads into it with [buffer] left over. *)
Definition frames_from (k : nat) (buffer : bytes) (m n : nat) : list UploadClientFrame :=
  (read_many (take_upload from_slice) Truncated Io n buffer (coming k m)).1.

Lemma frames_from_step await k buffer buffer' k' frame m n :
  next_frame await k buffer = (buffer', k', Frame frame) ->
  exists m', frames_from k buffer m' (S n) = frame :: frames_from k' buffer' m n.
Proof.
  intros (used & -> & Hread)%next_frame_frame. exists (used + m)%nat. unfold frames_from. rewrite read_many_step.
  unfold next_upload in Hread. rewrite Hread. by destruct (read_many _ _ _ n _ _).
Qed.

(** A file left under the names of the exchange that is not the one it publishes. *)
Definition unpublished (n : string) (ex : Exchange) : Prop :=
  n = partial_name token /\ (ex_ending ex = Stalled \/ ft_removable faults n = false).

(** What an exchange leaves under its names, and what it says of it, [frames] being those still to come. *)
Definition left_behind (store : UploadStore) (open : PutOpen) (before : list bytes) (frames : nat -> nat -> list UploadClientFrame)
    (sent : list PutReply) (ex : Exchange) : Prop :=
  (forall n f, own n = true -> ex_dir ex !! n = Some f ->
    unpublished n ex
    \/ n = final_name token (po_filename open)
       /\ exists m chunks, frames m (S (length chunks)) = (Chunk <$> chunks) ++ [Finish] /\ verified open (before ++ chunks) f)
  /\ (forall v path reference expires_at, PutDone v path reference expires_at ∈ ex_sent ex ->
      PutDone v path reference expires_at ∈ sent
      \/ is_Some (ex_dir ex !! final_name token (po_filename open))
         /\ path = joined store (final_name token (po_filename open)) /\ reference = posix_single_quote path).

Lemma ended_sent sent reply held left r : r ∈ ex_sent (ended sent reply held left) -> r ∈ sent \/ r = reply.
Proof.
  unfold ended, write_upload_control. destruct (encode_upload_control _ _); [|by left].
  destruct (ft_send _ _); cbn [ex_sent]; [|by left..]. rewrite elem_of_app, list_elem_of_singleton. tauto.
Qed.

Lemma ended_dir sent reply dir : ex_dir (ended sent reply dir dir) = dir.
Proof. unfold ended. by destruct (write_upload_control sent reply) as [? []]. Qed.

Lemma refused_unpublished sent code message held left n f :
  only_partial held -> swept left -> own n = true -> ex_dir (refuse sent code message held left) !! n = Some f ->
  unpublished n (refuse sent code message held left).
Proof.
  intros Hh Hl Hn. unfold unpublished, refuse, ended. destruct (write_upload_control _ _) as [s []]; cbn; intros Hf.
  - destruct (Hl n f Hn Hf). auto.
  - split; [by eapply Hh|by left].
Qed.

Lemma refused_left store open before frames sent code message held left :
  only_partial held -> swept left -> left_behind store open before frames sent (refuse sent code message held left).
Proof.
  intros Hh Hl. split; [intros n f Hn Hf; left; by eapply refused_unpublished|].
  intros v path reference expires_at [H|H]%ended_sent; [by left|done].
Qed.

Lemma finished_left store open before p dir now frames m sent :
  PutOpen_validate open = Ok tt -> transfer_ok store open before p dir -> frames m 1%nat = [Finish] ->
  match finish read_dir sha256 faults now p dir with
  | (dir', Ok c) => left_behind store open before frames sent
      (ended sent (PutDone UPLOAD_JSON_VERSION (cu_host_path c) (cu_prompt_reference c) (cu_expires_at c)) dir' dir')
  | (dir', Err failure) => left_behind store open before frames sent (refuse sent (uf_code failure) (uf_message failure) dir' dir')
  end.
Proof.
  intros Hv [] Hfr. pose proof (finish_spec now p dir _ to_partial0 to_final0 to_holds0) as Hfin.
  destruct (finish _ _ _ _ _ _) as [d [c|failure]]; [|by apply refused_left; [apply swept_partial|]].
  destruct Hfin as (Hw & Hsha & Hpath & Hquote & Hin & Hown). rewrite to_final0 in *. split.
  - rewrite ended_dir. intros n f Hn Hf. destruct (Hown n f Hn Hf) as [-> Hc]. right. split; [done|]. exists m, []. split; [done|].
    rewrite app_nil_r. unfold verified. rewrite Hc, to_hashed0 in *. split_and!; [done..| |by rewrite Hsha]. by rewrite <- to_declared0, <- Hw.
  - intros v path reference expires_at [H|H]%ended_sent; [by left|]. injection H as -> -> -> ->. right.
    rewrite ended_dir. split_and!; [done| |done]. by rewrite Hpath, to_store0.
Qed.

Lemma transfer_loop_spec fuel store open before await i k p buffer sent dir ex :
  PutOpen_validate open = Ok tt -> transfer_ok store open before p dir ->
  transfer_loop fuel await i k p buffer sent dir = Some ex ->
  left_behind store open before (frames_from k buffer) sent ex.
Proof.
  intros Hv. revert before await i k p buffer dir. induction fuel as [|fuel IH]; intros before await i k p buffer dir Hok; [done|].
  cbn [transfer_loop]. cbv zeta. apply (transfer_ok_others _ _ _ _ _ await) in Hok. set (d := others await dir) in *.
  pose proof (transfer_ok_partial _ _ _ _ _ Hok) as Hheld. pose proof (transfer_ok_dropped _ _ _ _ _ Hok) as Hdrop.
  destruct (next_frame await k buffer) as [[b k'] outcome] eqn:Hn.
  destruct outcome as [frame| | |e]; [|by intros [= <-]; apply refused_left..|].
  - destruct frame as [o|payload| |]; [by intros [= <-]; apply refused_left| | |by intros [= <-]; apply refused_left].
    + pose proof (write_chunk_spec store open before p d i (clock await) payload Hok) as Hw.
      destruct (write_chunk _ _ _ _ _ _) as [d' [q|failure]]; [|by destruct Hw; intros [= <-]; apply refused_left].
      intros Hl. destruct (IH _ _ _ _ _ _ _ Hw Hl) as [H1 H2]. split; [|done]. intros n f Hown Hf.
      destruct (H1 n f Hown Hf) as [|(-> & m & chunks & Hr & Hver)]; [by left|]. right. split; [done|].
      destruct (frames_from_step _ _ _ _ _ _ m (S (length chunks)) Hn) as [m' Hm]. exists m', (payload :: chunks).
      rewrite <- (assoc_L (++)) in Hver. split; [|done]. cbn [length]. by rewrite Hm, Hr.
    + destruct (frames_from_step _ _ _ _ _ _ 0 0 Hn) as [m Hm].
      pose proof (finished_left store open before p d (clock await) (frames_from k buffer) m sent Hv Hok Hm) as Hfin.
      destruct (finish _ _ _ _ _ _) as [d' [c|failure]]; by intros [= <-].
  - intros [= <-]. split; cbn [ex_dir ex_sent]; [|by left]. intros n f Hown Hf. left. destruct (Hdrop n f Hown Hf). split; [done|by right].
Qed.

Definition accounted (store : UploadStore) (ex : Exchange) : Prop :=
  (forall n f, own n = true -> ex_dir ex !! n = Some f ->
    unpublished n ex
    \/ exists m open chunks, frames_from 0 [] m (S (S (length chunks))) = Open open :: (Chunk <$> chunks) ++ [Finish]
       /\ n = final_name token (po_filename open) /\ verified open chunks f)
  /\ (forall v path reference expires_at, PutDone v path reference expires_at ∈ ex_sent ex ->
      exists n, own n = true /\ is_Some (ex_dir ex !! n) /\ path = joined store n /\ shell_word false reference = Some (path, ""%string)).

Lemma accounted_nothing store ex :
  (forall n f, own n = true -> ex_dir ex !! n = Some f -> unpublished n ex) ->
  (forall v path reference expires_at, PutDone v path reference expires_at ∉ ex_sent ex) -> accounted store ex.
Proof.
  intros Hn Hsent. split; [intros n f Hown Hf; left; by eapply Hn|]. intros v path reference expires_at H. by destruct (Hsent _ _ _ _ H).
Qed.

Lemma accounted_refused store dir code message : swept dir -> accounted store (refuse [] code message dir dir).
Proof.
  intros Hs. apply accounted_nothing; [intros n f; apply refused_unpublished; [by apply swept_partial|done]|].
  by intros v path reference expires_at [H%elem_of_nil|H]%ended_sent.
Qed.

Lemma begin_spec store open now dir :
  (forall n, own n = true -> dir !! n = None) ->
  match begin faults store token now (po_filename open) (po_size open) (po_sha256 open) dir with
  | (dir', Some p) => transfer_ok store open [] p dir'
  | (dir', None) => dir' = dir
  end.
Proof.
  intros Hnone. unfold begin. destruct (ft_creates faults && _); [|done]. split; cbn; try done.
  intros n f Hn. destruct (decide (n = partial_name token)) as [->|Hne]; [by rewrite lookup_insert_eq; intros [= <-]|].
  rewrite lookup_insert_ne by done. intros Hf. by rewrite Hnone in Hf.
Qed.

(** C35: What is published was verified: however the peer's bytes come, whatever fails and whatever sweeps and
    other uploads do meanwhile, the only file an exchange publishes is one named by the host, holding exactly
    the chunks the peer sent between its request and its finish, of the declared size and SHA-256. Nothing else
    is left of an exchange, but for the partial file of one that still waits for the peer to take a reply or
    whose file system refused to remove it. A phone that is told where its file is, in words a shell reads as
    that path, is told of a file that was published. Others are assumed to make no file under the random token
    of the exchange. *)
Theorem upload_verified store transfer_id dir ex :
  (forall n, own n = true -> dir !! n = None) ->
  run_upload_stream store token transfer_id dir = Some ex ->
  accounted store ex.
Proof.
  intros Hfresh. pose proof (fresh_swept dir Hfresh) as Hswept. unfold run_upload_stream.
  destruct (next_frame 0 0 []) as [[b k] outcome] eqn:Hn.
  destruct outcome as [[open|payload| |]| | |e]; try (by intros [= <-]; apply accounted_refused);
    [|by intros [= <-]; apply accounted_nothing; [intros n f Ho Hf; by rewrite Hfresh in Hf|intros ???? ?%elem_of_nil]].
  destruct (PutOpen_validate open) as [[]|failure] eqn:Hv; [|by intros [= <-]; apply accounted_refused].
  pose proof (begin_spec store open (clock 0) dir Hfresh) as Hb.
  destruct (begin _ _ _ _ _ _ _ _) as [d [p|]]; [|by subst d; intros [= <-]; apply accounted_refused].
  pose proof (transfer_ok_partial _ _ _ _ _ Hb) as Hheld. pose proof (transfer_ok_dropped _ _ _ _ _ Hb) as Hdrop.
  assert (forall dir e, (forall n f, own n = true -> dir !! n = Some f -> unpublished n (mkExchange dir [] e)) ->
            accounted store (mkExchange dir [] e)) as Hquiet by (intros d0 e0 H; apply accounted_nothing; [done|by intros ???? ?%elem_of_nil]).
  assert (forall r, accounted store (mkExchange (drop_partial faults p d) [] r)) as Hdropped
    by (intros r; apply Hquiet; intros n f Ho Hf; destruct (Hdrop n f Ho Hf); split; [done|by right]).
  unfold write_upload_control. destruct (encode_upload_control _ _); [|by intros [= <-]]. cbn [length app].
  destruct (ft_send faults 0); [|by intros [= <-]|intros [= <-]; apply Hquiet; intros n f Ho Hf; split; [by eapply Hheld|by left]].
  intros Hl. destruct (transfer_loop_spec _ _ _ _ _ _ _ _ _ _ _ _ Hv Hb Hl) as [H1 H2]. split.
  - intros n f Hown Hf. destruct (H1 n f Hown Hf) as [|(-> & m & chunks & Hr & Hver)]; [by left|]. right.
    destruct (frames_from_step _ _ _ _ _ _ m (S (length chunks)) Hn) as [m' Hm]. exists m', open, chunks. by rewrite Hm, Hr.
  - intros v path reference expires_at [H|(Hin & -> & ->)]%H2; [by apply list_elem_of_singleton in H|].
    eexists. split_and!; [apply own_final|done|done|apply shell_word_path].
Qed.

(** Publishing keeps the store within its quota: once an upload has its name, the completed uploads, it
    included, take no more bytes than the store may hold, as far as a scan takes them for completed. *)
Theorem publishing_keeps_quota store open before p dir now dir' c :
  (forall d, read_dir d ≡ₚ map_to_list d) -> us_quota_bytes store < u64_max -> ft_scan faults = Scanned ->
  transfer_ok store open before p dir -> finish read_dir sha256 faults now p dir = (dir', Ok c) ->
  stored_bytes dir' <= us_quota_bytes store.
Proof.
  intros Hlists Hq Hscan [] Hfin. unfold finish in Hfin. destruct (N.eqb_spec (pu_written p) (pu_declared p)) as [Hw|]; [|done].
  cbn [negb] in Hfin. destruct (negb (_ =s? _)); [done|]. destruct (negb (ft_syncs faults)); [done|]. rewrite Hscan, to_store0 in Hfin.
  destruct (make_room_for _ _ _ _ _ _) as [d [[]|failure]] eqn:Hm; [|done].
  destruct (room_made read_dir _ Hlists _ _ _ _ _ Hq Hm) as (Hsub & [Hfit _] & _). specialize (Hfit eq_refl).
  pose proof (holds_sub _ _ _ to_holds0 Hsub) as Hd. unfold rename in Hfin. rewrite to_partial0, to_final0 in Hfin.
  destruct (d !! partial_name token) as [f|] eqn:Hf; [|done]. destruct (ft_renames faults); [|done]. injection Hfin as <- _.
  destruct (Hd _ _ own_partial Hf) as [_ Hc]. etrans; [apply stored_insert|].
  - rewrite lookup_delete_ne by apply partial_not_final. destruct (d !! final_name token _) as [g|] eqn:Hg; [|done].
    destruct (Hd _ _ (own_final _) Hg) as [H _]. symmetry in H. by apply partial_not_final in H.
  - rewrite Hc, <- to_written0, Hw.
    pose proof (stored_mono read_dir Hlists (delete (partial_name token) d) d (delete_subseteq _ _)). lia.
Qed.
End exchange.
End stream.
