(* ===== verification/GitDiff.v ===== *)
(** The patch of one workspace, [git_diff.rs]: the bases it can be measured against, the fixed calls of git
    and what is made of their output. The processes themselves are a parameter. *)
From S2P Require Import Prelude Text.

Local Open Scope string_scope.
Local Open Scope N_scope.

Definition GIT_BINARY_DIRS : list string := ["/usr/bin"; "/usr/local/bin"; "/opt/homebrew/bin"; "/bin"].
Definition MAX_DIFF_BYTES : N := 1024 * 1024.
Definition MAX_UNTRACKED_FILES : nat := 50.
Definition EMPTY_TREE : string := "4b825dc642cb6eb9a060e54bf8d69288fbee4904".

Inductive GitDiffError := GitUnavailable | NotARepository | Failed | TooLarge | Timeout.

Inductive DiffBase := Uncommitted | Branch.

#[export] Instance DiffBase_eq_dec : EqDecision DiffBase.
Proof. solve_decision. Defined.

Definition DiffBase_wire (base : DiffBase) : string :=
  match base with Uncommitted => "uncommitted" | Branch => "branch" end.

Definition DiffBase_from_wire (token : string) : option DiffBase :=
  if token =s? "uncommitted" then Some Uncommitted else if token =s? "branch" then Some Branch else None.

Record DiffBaseOption := mkDiffBaseOption { db_base : DiffBase; db_label : string }.

Record GitOutput := mkGitOutput { go_success : bool; go_stdout : string; go_truncated : bool }.

(** ** One call of git *)

(** What becomes of one call: no environment to run it in, no process, what its output is read as ([None] is
    a failed read) and how it ended ([None] if waiting failed), unless the deadline comes first. *)
Inductive GitProcess :=
| NoEnvironment
| NotSpawned
| Ran (reads : list (option string)) (status : option bool) (in_time : bool).

(** The loop that reads the output, a read of nothing being its end. *)
Fixpoint collect (buffer : string) (reads : list (option string)) : result GitDiffError (string * bool) :=
  match reads with
  | [] => Ok (buffer, false)
  | None :: _ => Err Failed
  | Some chunk :: reads =>
      if slen chunk =? 0 then Ok (buffer, false)
      else if MAX_DIFF_BYTES <? slen buffer + slen chunk then Ok (buffer, true)
      else collect (buffer +:+ chunk) reads
  end.

Definition run_git (process : GitProcess) : result GitDiffError GitOutput :=
  match process with
  | NoEnvironment => Err Failed
  | NotSpawned => Err GitUnavailable
  | Ran reads status in_time =>
      refuse_if (negb in_time) Timeout ?;
      let? (buffer, truncated) := collect "" reads in
      let? success := ok_or status Failed in
      Ok (mkGitOutput success buffer truncated)
  end.

Section git.
(** Which files can be run, whether the directory is one, and what each call of git in it becomes. *)
Context (is_absolute_executable : string -> bool) (is_dir : bool) (process : list string -> GitProcess).

Definition git (args : list string) : result GitDiffError GitOutput := run_git (process args).

Definition resolve_git : option string :=
  List.find is_absolute_executable ((fun dir => dir +:+ "/git") <$> GIT_BINARY_DIRS).

(** [matches!(&found, Ok(out) if ..)]. *)
Definition answers (p : GitOutput -> bool) (r : result GitDiffError GitOutput) : bool :=
  match r with Ok out => go_success out && p out | Err _ => false end.

Definition is_work_tree : bool :=
  answers (fun out => starts_with (go_stdout out) "true") (git ["rev-parse"; "--is-inside-work-tree"])
  && answers (fun out => starts_with (go_stdout out) "false") (git ["rev-parse"; "--is-bare-repository"]).

Definition verified_branch (candidate : string) : bool :=
  answers (fun _ => true) (git ["rev-parse"; "--verify"; "--quiet"; candidate]).

Definition base_branch : option string :=
  let local := List.find verified_branch ["main"; "master"] in
  match git ["rev-parse"; "--abbrev-ref"; "origin/HEAD"] with
  | Ok out =>
      let name := trim (default "" (from_utf8 (go_stdout out))) in
      if go_success out && negb (name =s? "") && negb (name =s? "origin/HEAD") then Some name else local
  | Err _ => local
  end.

(** [run_git(..).ok()?], [None] without success too, and its output as text. *)
Definition answer_text (args : list string) : option string :=
  match git args with
  | Ok out => if go_success out then trim <$> from_utf8 (go_stdout out) else None
  | Err _ => None
  end.

Definition branch_merge_base : option (string * string) :=
  match base_branch with
  | Some branch =>
      match answer_text ["merge-base"; branch; "HEAD"] with
      | Some merge_base =>
          if merge_base =s? "" then None
          else
            match answer_text ["rev-parse"; "HEAD"] with
            | Some head => if head =s? merge_base then None else Some (merge_base, branch)
            | None => None
            end
      | None => None
      end
  | None => None
  end.

(** [str::strip_prefix]. *)
Definition strip_prefix (s prefix : string) : option string :=
  if starts_with s prefix then Some (sdrop (String.length prefix) s) else None.

Definition available_bases : list DiffBaseOption :=
  mkDiffBaseOption Uncommitted "Uncommitted" ::
  match resolve_git with
  | Some _ =>
      match branch_merge_base with
      | Some (_, branch) => [mkDiffBaseOption Branch ("vs " +:+ default branch (strip_prefix branch "origin/"))]
      | None => []
      end
  | None => []
  end.

Definition open_work_tree : result GitDiffError string :=
  let? git := ok_or resolve_git GitUnavailable in
  refuse_if (negb is_dir) NotARepository ?;
  refuse_if (negb is_work_tree) NotARepository ?;
  Ok git.

(** The output of a [git diff] as a patch. *)
Definition whole_patch (out : GitOutput) : result GitDiffError string :=
  refuse_if (go_truncated out) TooLarge ?;
  refuse_if (negb (go_success out)) Failed ?;
  ok_or (from_utf8 (go_stdout out)) Failed.

Definition branch_diff : result GitDiffError string :=
  open_work_tree ?;
  match branch_merge_base with
  | Some (merge_base, _) =>
      let? out := git ["diff"; "--no-ext-diff"; "--no-textconv"; "--no-color"; merge_base; "HEAD"] in
      whole_patch out
  | None => Ok ""
  end.

Definition diff_base : string :=
  if answers (fun _ => true) (git ["rev-parse"; "--verify"; "HEAD"]) then "HEAD" else EMPTY_TREE.

Definition untracked_args (name : string) : list string :=
  ["diff"; "--no-ext-diff"; "--no-textconv"; "--no-color"; "--no-index"; "--"; "/dev/null"; name].

(** The loop over the untracked names, with what is left of the budget. *)
Fixpoint untracked_files (names : list string) (budget : N) : string * N :=
  match names with
  | [] => ("", budget)
  | name :: names =>
      let text :=
        match from_utf8 name with
        | Some name => match git (untracked_args name) with Ok out => from_utf8 (go_stdout out) | Err _ => None end
        | None => None
        end in
      match text with
      | Some text =>
          if (slen text =? 0) || (budget <? slen text) then untracked_files names budget
          else let '(patch, budget) := untracked_files names (budget - slen text) in (text +:+ patch, budget)
      | None => untracked_files names budget
      end
  end.

Definition untracked_patch (budget : N) : string * N :=
  match git ["ls-files"; "--others"; "--exclude-standard"; "-z"] with
  | Ok listed =>
      if go_success listed
      then untracked_files (take MAX_UNTRACKED_FILES (List.filter (fun entry => negb (entry =s? "")) (split_on "000" (go_stdout listed)))) budget
      else ("", budget)
  | Err _ => ("", budget)
  end.

Definition uncommitted_diff : result GitDiffError string :=
  open_work_tree ?;
  let? tracked := git ["diff"; "--no-ext-diff"; "--no-textconv"; "--no-color"; diff_base] in
  let? patch := whole_patch tracked in
  Ok (patch +:+ (untracked_patch (MAX_DIFF_BYTES - slen patch)).1).

Definition diff (base : DiffBase) : result GitDiffError string :=
  match base with Uncommitted => uncommitted_diff | Branch => branch_diff end.

(** ** How much is shown *)

Lemma collect_bounded buffer reads out truncated :
  slen buffer <= MAX_DIFF_BYTES -> collect buffer reads = Ok (out, truncated) -> slen out <= MAX_DIFF_BYTES.
Proof.
  revert buffer. induction reads as [|[chunk|] reads IH]; intros buffer Hb; cbn [collect]; [by intros [= <- _]| |done].
  destruct (slen chunk =? 0); [by intros [= <- _]|]. destruct (N.ltb_spec MAX_DIFF_BYTES (slen buffer + slen chunk)); [by intros [= <- _]|].
  apply IH. by rewrite slen_app.
Qed.

Lemma git_bounded args out : git args = Ok out -> slen (go_stdout out) <= MAX_DIFF_BYTES.
Proof.
  unfold git, run_git. destruct (process args) as [| |reads status in_time]; [done..|]. destruct (negb in_time); [done|]. cbn [refuse_if rbind].
  destruct (collect "" reads) as [[buffer truncated]|] eqn:Hc; [|done]. cbn [rbind]. destruct status; [|done]. intros [= <-].
  eapply collect_bounded; [|exact Hc]. done.
Qed.

Lemma from_utf8_some s t : from_utf8 s = Some t -> s = t /\ utf8 t.
Proof. unfold from_utf8. case_bool_decide; [|done]. by intros [= <-]. Qed.

Lemma whole_patch_ok out patch : whole_patch out = Ok patch -> go_stdout out = patch /\ utf8 patch /\ go_truncated out = false.
Proof.
  unfold whole_patch. destruct (go_truncated out), (negb (go_success out)); cbn; try done.
  destruct (from_utf8 _) as [t|] eqn:Hu; cbn; [|done]. intros [= <-]. by apply from_utf8_some in Hu as [-> ?].
Qed.

Lemma untracked_files_spec names budget :
  let '(patch, unspent) := untracked_files names budget in slen patch + unspent = budget /\ utf8 patch.
Proof.
  revert budget. induction names as [|name names IH]; intros budget; cbn [untracked_files]; [by split; [|constructor]|].
  destruct (match from_utf8 name with Some _ => _ | None => _ end) as [text|] eqn:Ht; [|apply IH].
  destruct ((slen text =? 0) || (budget <? slen text)) eqn:Hb; [apply IH|]. apply orb_false_iff in Hb as [_ Hb%N.ltb_ge].
  specialize (IH (budget - slen text)). destruct (untracked_files names _) as [patch unspent]. destruct IH as [IH Hu].
  rewrite slen_app. split; [lia|]. apply utf8_append; [|done].
  destruct (from_utf8 name); [|done]. destruct (git _); [|done]. by apply from_utf8_some in Ht as [_ ?].
Qed.

Lemma untracked_patch_spec budget :
  let '(patch, unspent) := untracked_patch budget in slen patch + unspent = budget /\ utf8 patch.
Proof.
  unfold untracked_patch. destruct (git _) as [listed|]; [|by split; [|constructor]].
  destruct (go_success listed); [apply untracked_files_spec|by split; [|constructor]].
Qed.

(** What is sent for a workspace is text of at most a mebibyte, tracked changes and untracked files
    together, for either base, whatever git puts out. *)
Theorem diff_bounded base patch : diff base = Ok patch -> slen patch <= MAX_DIFF_BYTES /\ utf8 patch.
Proof.
  destruct base; cbn [diff].
  - unfold uncommitted_diff. destruct open_work_tree; [|done]. cbn [rbind]. destruct (git _) as [tracked|] eqn:Hg; [|done]. cbn [rbind].
    destruct (whole_patch tracked) as [text|] eqn:Hw; [|done]. cbn [rbind]. intros [= <-].
    apply whole_patch_ok in Hw as (<- & Hu & _). apply git_bounded in Hg.
    pose proof (untracked_patch_spec (MAX_DIFF_BYTES - slen (go_stdout tracked))) as Hs.
    destruct (untracked_patch _) as [more unspent]. destruct Hs as [Hs Hm]. cbn [fst]. rewrite slen_app. split; [lia|]. by apply utf8_append.
  - unfold branch_diff. destruct open_work_tree; [|done]. cbn [rbind]. destruct branch_merge_base as [[merge_base branch]|].
    + destruct (git _) as [out|] eqn:Hg; [|done]. cbn [rbind]. intros (<- & Hu & _)%whole_patch_ok. by apply git_bounded in Hg.
    + intros [= <-]. by split; [|constructor].
Qed.

(** An untracked file whose patch was cut at the bound is shown as if it were whole, where a tracked one is
    refused. *)
Lemma cut_patch_is_shown name first rest status names budget :
  utf8 name -> process (untracked_args name) = Ran [Some first; Some rest] (Some status) true ->
  utf8 first -> slen first <= MAX_DIFF_BYTES -> MAX_DIFF_BYTES < slen first + slen rest -> 0 < slen first <= budget ->
  git (untracked_args name) = Ok (mkGitOutput status first true)
  /\ exists more, (untracked_files (name :: names) budget).1 = first +:+ more.
Proof.
  intros Hn Hp Hu Hf Hr [H0 Hb]. assert (git (untracked_args name) = Ok (mkGitOutput status first true)) as Hg.
  { unfold git, run_git. rewrite Hp. cbn [negb refuse_if rbind collect]. rewrite (proj2 (N.eqb_neq (slen first) 0)) by lia.
    change (slen "") with 0. rewrite (proj2 (N.ltb_ge _ _)) by lia. cbn [String.append].
    destruct (N.eqb_spec (slen rest) 0); [lia|]. by rewrite (proj2 (N.ltb_lt _ _)). }
  split; [done|]. cbn [untracked_files]. unfold from_utf8 at 1. rewrite bool_decide_eq_true_2, Hg by done.
  unfold from_utf8. cbn [go_stdout]. rewrite bool_decide_eq_true_2 by done.
  rewrite (proj2 (N.eqb_neq _ _)), (proj2 (N.ltb_ge _ _)) by lia. cbn [orb].
  destruct (untracked_files names _) as [patch unspent]. by exists patch.
Qed.

(** A base the reader is offered is one that can be shown, and the branch is offered exactly when git
    names a base branch that this branch has left; in a work tree its patch is then what git has between the
    point where it left and the head. *)
Theorem offered_bases :
  (mkDiffBaseOption Uncommitted "Uncommitted" ∈ available_bases)
  /\ (Branch ∈ (db_base <$> available_bases) <-> is_Some resolve_git /\ is_Some branch_merge_base)
  /\ forall merge_base branch, branch_merge_base = Some (merge_base, branch) -> is_ok open_work_tree = true ->
     merge_base <> "" /\ answer_text ["rev-parse"; "HEAD"] <> Some merge_base
     /\ diff Branch = (let? out := git ["diff"; "--no-ext-diff"; "--no-textconv"; "--no-color"; merge_base; "HEAD"] in whole_patch out).
Proof.
  split_and!.
  - constructor.
  - unfold available_bases. rewrite fmap_cons, elem_of_cons. split.
    + intros [|H]; [done|]. destruct resolve_git; [|by apply elem_of_nil in H]. destruct branch_merge_base; [done|by apply elem_of_nil in H].
    + intros [[g ->] [[m b] ->]]. right. by constructor.
  - intros merge_base branch Hb Ho. cbn [diff]. unfold branch_diff. rewrite Hb. destruct open_work_tree; [|done].
    unfold branch_merge_base in Hb. destruct base_branch as [b|]; [|done]. destruct (answer_text ["merge-base"; b; "HEAD"]) as [m|]; [|done].
    destruct (String.eqb_spec m ""); [done|]. destruct (answer_text ["rev-parse"; "HEAD"]) as [h|] eqn:Hh; [|done].
    destruct (String.eqb_spec h m) as [|Hne]; [done|]. injection Hb as <- <-. split_and!; [done|congruence|done].
Qed.
End git.
