(* ===== verification/Downloads.v ===== *)
(** One file or one patch, host to phone, [downloads.rs]: what the phone names is resolved to a file, and
    streamed once. JSON, the file system, git and the multiplexer's answers are parameters. *)
From S2P Require Import Prelude Text HostProtocol HostRpc Framing FrameReader UploadNames GitDiff.

Local Open Scope string_scope.
Local Open Scope N_scope.

Definition DOWNLOAD_JSON_VERSION : N := 1.

Definition FRAME_GET_OPEN : N := 1.
Definition FRAME_GET_ACCEPTED : N := 2.
Definition FRAME_GET_CHUNK : N := 3.
Definition FRAME_GET_DONE : N := 4.
Definition FRAME_GET_ERROR : N := 5.
Definition FRAME_GET_CANCEL : N := 6.

Definition MAX_DOWNLOAD_CONTROL_PAYLOAD : N := 4096.
Definition MAX_DOWNLOAD_CHUNK_PAYLOAD : N := 16 * 1024.
Definition MAX_DOWNLOAD_BYTES : N := 16 * 1024 * 1024.
Definition MAX_PATH_BYTES : N := 4096.

Definition GET_KIND_GIT_DIFF : string := "git_diff".

Inductive DownloadErrorCode := NotAFile | Denied | TooLarge | Invalid | FailedIo | TimedOut | Cancelled.

Definition DownloadErrorCode_wire (code : DownloadErrorCode) : string :=
  match code with
  | NotAFile => "not_a_file" | Denied => "denied" | TooLarge => "too_large" | Invalid => "invalid"
  | FailedIo => "io" | TimedOut => "timeout" | Cancelled => "cancelled"
  end.

Record DownloadFailure := mkDownloadFailure { df_code : DownloadErrorCode; df_message : string }.

(** ** Requests and replies *)

Record GetOpen := mkGetOpen {
  gp_v : N; gp_path : string; gp_cwd : option string; gp_kind : option string; gp_base : option string; gp_session : option string }.

Record GetDiffBase := mkGetDiffBase { gd_token : string; gd_label : string }.

(** The frames the host sends. *)
Inductive GetReply :=
| GetAccepted (v : N) (name : string) (size : N) (bases : list GetDiffBase) (base : option string)
| GetChunk (payload : bytes)
| GetDone
| GetError (v : N) (code message : string).

Inductive DownloadClientFrame := Open (open : GetOpen) | Cancel.

(** ** Frames *)

Definition download_frame_payload_limit (frame_type : N) : result HostProtocolError N :=
  if existsb (N.eqb frame_type) [FRAME_GET_OPEN; FRAME_GET_ACCEPTED; FRAME_GET_ERROR] then Ok MAX_DOWNLOAD_CONTROL_PAYLOAD
  else if frame_type =? FRAME_GET_CHUNK then Ok MAX_DOWNLOAD_CHUNK_PAYLOAD
  else if existsb (N.eqb frame_type) [FRAME_GET_DONE; FRAME_GET_CANCEL] then Ok 0
  else Err UnknownFrameType.

Definition encode_download_frame : N -> bytes -> result HostProtocolError bytes :=
  encode_typed FrameTooLarge download_frame_payload_limit.

Section frames.
(** [serde_json]. *)
Context (to_vec : GetReply -> option bytes) (from_slice : bytes -> option GetOpen).

Definition encode_download_control (frame_type : N) (reply : GetReply) : result HostProtocolError bytes :=
  let? body := ok_or (to_vec reply) MalformedJson in encode_download_frame frame_type body.

Definition encoded_reply (reply : GetReply) : result HostProtocolError bytes :=
  match reply with
  | GetAccepted _ _ _ _ _ => encode_download_control FRAME_GET_ACCEPTED reply
  | GetChunk payload => encode_download_frame FRAME_GET_CHUNK payload
  | GetDone => encode_download_frame FRAME_GET_DONE []
  | GetError _ _ _ => encode_download_control FRAME_GET_ERROR reply
  end.

Definition decode_download_client_frame (frame_type : N) (payload : bytes) : result HostProtocolError DownloadClientFrame :=
  if frame_type =? FRAME_GET_OPEN then rmap Open (ok_or (from_slice payload) MalformedJson)
  else if frame_type =? FRAME_GET_CANCEL then refuse_if (negb (len payload =? 0)) InvalidControlValue ?; Ok Cancel
  else if existsb (N.eqb frame_type) [FRAME_GET_ACCEPTED; FRAME_GET_CHUNK; FRAME_GET_DONE; FRAME_GET_ERROR]
  then Err UnexpectedDirection
  else Err UnknownFrameType.

(** [DownloadFrameReader]; the reader is its buffer. *)
Definition take_download : bytes -> result HostProtocolError (option (DownloadClientFrame * bytes)) :=
  take_typed FrameTooLarge download_frame_payload_limit decode_download_client_frame.

Definition next_download : bytes -> list read_event -> bytes * list read_event * option (result HostProtocolError DownloadClientFrame) :=
  read_next take_download Truncated Io.

#[export] Instance download_format : FrameFormat take_download (5 + MAX_DOWNLOAD_CHUNK_PAYLOAD).
Proof.
  apply typed_format. intros t n. unfold download_frame_payload_limit. repeat case_match; intros [= <-]; done.
Qed.
End frames.

(** ** Paths *)

(** The components of a path as its text has them, last first, without a trailing separator or dot. *)
Definition parts_rev (path : string) : list string :=
  drop_while (fun c => (c =s? "") || (c =s? ".")) (reverse (split_on "/" path)).

(** [Path::file_name]. *)
Definition file_name (path : string) : option string :=
  match parts_rev path with
  | [] => None
  | c :: _ => if c =s? ".." then None else Some c
  end.

(** [Path::parent], as text. *)
Definition parent_text (path : string) : string :=
  match drop_while (fun c => (c =s? "") || (c =s? ".")) (tail (parts_rev path)) with
  | [] => if starts_with path "/" then "/" else ""
  | parts => String.concat "/" (reverse parts)
  end.

(** [Path::join]. *)
Definition join (base path : string) : string :=
  if starts_with path "/" then path
  else if base =s? "" then path
  else if ends_with base "/" then base +:+ path
  else base +:+ "/" +:+ path.

(** [Path::with_file_name] of a path that has one. *)
Definition with_file_name (path name : string) : string := join (parent_text path) name.

(** The components of an absolute path, as [strip_prefix] and [starts_with] compare them. *)
Definition components (path : string) : list string :=
  List.filter (fun c => negb (c =s? "") && negb (c =s? ".")) (split_on "/" path).

Fixpoint components_after (prefix path : list string) : option (list string) :=
  match prefix, path with
  | [], _ => Some path
  | c :: prefix, d :: path => if c =s? d then components_after prefix path else None
  | _ :: _, [] => None
  end.

(** The loop of [strip_line_suffix]: what is left of the name, and whether anything went. A turn takes a
    colon at least. *)
Fixpoint strip_numbers (fuel : nat) (trimmed : string) (stripped : bool) : string * bool :=
  match fuel with
  | O => (trimmed, stripped)
  | S fuel =>
      match rsplit_once ":" trimmed with
      | Some (head, tail) =>
          if (head =s? "") || (tail =s? "") || negb (sall is_ascii_digit tail) then (trimmed, stripped)
          else strip_numbers fuel head true
      | None => (trimmed, stripped)
      end
  end.

Definition strip_line_suffix (path : string) : option string :=
  match file_name path with
  | Some name =>
      if bool_decide (utf8 name) then
        let '(trimmed, stripped) := strip_numbers (String.length name) name false in
        if stripped then Some (with_file_name path trimmed) else None
      else None
  | None => None
  end.

Definition GUARDED : list string := ["Desktop"; "Documents"; "Downloads"; "Library/Mobile Documents"].

Section paths.
(** What a path is: absent, out of reach, there but no regular file, or a file and its canonical path. *)
Inductive PathLookup := Missing | PermissionDenied | Irregular | Regular (canonical : string).
Context (macos : bool) (lookup_path : string -> PathLookup).

Definition tcc_protected (path : string) (home : option string) : bool :=
  macos &&
  match home with
  | Some home =>
      match components_after (components home) (components path) with
      | Some relative => existsb (fun folder => is_some (components_after (components folder) relative)) GUARDED
      | None => false
      end
  | None => false
  end.

Definition MISSING : DownloadFailure := mkDownloadFailure NotAFile "There is no file by that name here.".

Definition existing_file (path : string) : result DownloadFailure string :=
  match lookup_path path with
  | Missing | Irregular => Err MISSING
  | PermissionDenied => Err (mkDownloadFailure Denied "This Mac will not let Ciao open that folder.")
  | Regular canonical => Ok canonical
  end.

Definition INVALID : DownloadFailure := mkDownloadFailure Invalid "That selection is not a file path.".

(** The path a token stands for. *)
Definition expanded (token : string) (cwd home : option string) : result DownloadFailure string :=
  let token := trim token in
  refuse_if ((token =s? "") || (MAX_PATH_BYTES <? slen token) || negb (sall (fun ch => negb (Ascii.eqb ch "000")) token)) INVALID ?;
  if (token =s? "~") || starts_with token "~/" then
    let? home := ok_or home INVALID in
    Ok (join home (trim_start_matches "/" (trim_start_matches "~" token)))
  else if starts_with token "/" then Ok token
  else
    let? base := ok_or (match cwd with Some value => if starts_with value "/" then Some value else None | None => None end) MISSING in
    Ok (join base token).

Definition resolve_target (token : string) (cwd home : option string) : result DownloadFailure string :=
  let? path := expanded token cwd home in
  match existing_file path with
  | Ok file => Ok file
  | Err first =>
      match existing_file <$> strip_line_suffix path with
      | Some (Ok file) => Ok file
      | _ =>
          match df_code first with
          | NotAFile =>
              if tcc_protected path home
              then Err (mkDownloadFailure Denied "That folder is one macOS keeps private from Ciao.") else Err first
          | _ => Err first
          end
      end
  end.
End paths.

(** ** What a compiler prints *)

Definition no_char (c : ascii) (s : string) : bool := sall (fun x => negb (Ascii.eqb x c)) s.

Lemma rsplit_once_none c s : no_char c s = true -> rsplit_once c s = None.
Proof.
  induction s as [|x s IH]; cbn [no_char sall rsplit_once]; [done|]. unfold no_char in IH. intros [Hx Hs]%andb_prop.
  rewrite IH by done. by destruct (Ascii.eqb x c).
Qed.

Lemma rsplit_once_last c a b : no_char c b = true -> rsplit_once c (a +:+ String c b) = Some (a, b).
Proof.
  intros Hb. induction a as [|x a IH]; cbn [String.append rsplit_once].
  - by rewrite rsplit_once_none, Ascii.eqb_refl.
  - by rewrite IH.
Qed.

Lemma digits_no_char c s : is_ascii_digit c = false -> sall is_ascii_digit s = true -> no_char c s = true.
Proof.
  intros Hc. unfold no_char. induction s as [|x s IH]; cbn [sall]; [done|]. intros [Hx Hs]%andb_prop. rewrite IH by done.
  destruct (Ascii.eqb_spec x c) as [->|]; [congruence|done].
Qed.

Lemma split_on_nonempty c s : split_on c s <> [].
Proof. destruct s as [|x s]; cbn; [done|]. case_bool_decide; [done|]. by destruct (split_on c s). Qed.

Lemma split_on_app c a b : split_on c (a +:+ String c b) = (split_on c a ++ split_on c b)%list.
Proof.
  induction a as [|x a IH]; cbn [String.append split_on]; [by rewrite bool_decide_eq_true_2|].
  rewrite IH. case_bool_decide; [done|]. pose proof (split_on_nonempty c a). by destruct (split_on c a).
Qed.

Lemma split_on_none c s : no_char c s = true -> split_on c s = [s].
Proof.
  unfold no_char. induction s as [|x s IH]; cbn [sall split_on]; [done|]. intros [Hx%negb_true_iff%Ascii.eqb_neq Hs]%andb_prop.
  by rewrite IH, bool_decide_eq_false_2.
Qed.

Lemma concat_split_on s : String.concat "/" (split_on "/" s) = s.
Proof.
  induction s as [|x s IH]; [done|]. cbn [split_on]. pose proof (split_on_nonempty "/" s) as Hne.
  case_bool_decide as Hx; [subst x|]; destruct (split_on "/" s) as [|p l]; try done.
  - cbn in IH |- *. by rewrite IH.
  - destruct l; cbn in IH |- *; by rewrite IH.
Qed.

(** A directory as it is written: absolute, without a separator or a dot at its end. *)
Definition written_dir (dir : string) : Prop :=
  starts_with dir "/" = true /\ exists c parts, reverse (split_on "/" dir) = c :: parts /\ c <> "" /\ c <> "."%string.
Definition plain_name (name : string) : Prop := no_char "/" name = true /\ name <> "" /\ name <> "." /\ name <> "..".

Lemma parts_rev_file dir name :
  plain_name name -> parts_rev (dir +:+ "/" +:+ name) = name :: reverse (split_on "/" dir).
Proof.
  intros (Hs & H0 & H1 & _). unfold parts_rev. change (dir +:+ "/" +:+ name) with (dir +:+ String "/" name).
  rewrite split_on_app, (split_on_none _ name), reverse_app by done. cbn [reverse rev_append app drop_while].
  change (reverse [name]) with [name]. cbn [app drop_while].
  by rewrite (proj2 (String.eqb_neq name "")), (proj2 (String.eqb_neq name ".")).
Qed.

Lemma file_name_file dir name : plain_name name -> file_name (dir +:+ "/" +:+ name) = Some name.
Proof.
  intros Hn. unfold file_name. rewrite parts_rev_file by done. destruct Hn as (_ & _ & _ & H).
  by rewrite (proj2 (String.eqb_neq name "..")).
Qed.

Lemma with_file_name_file dir name other :
  written_dir dir -> plain_name name -> starts_with other "/" = false -> with_file_name (dir +:+ "/" +:+ name) other = dir +:+ "/" +:+ other.
Proof.
  intros (Habs & c & parts & Hr & Hc & Hd) Hn Ho. unfold with_file_name, parent_text. rewrite parts_rev_file by done. cbn [tail]. rewrite Hr.
  cbn [drop_while]. rewrite (proj2 (String.eqb_neq c "")), (proj2 (String.eqb_neq c ".")) by done. cbn [orb].
  rewrite <- Hr, reverse_involutive, concat_split_on. unfold join. rewrite Ho.
  destruct (String.eqb_spec dir "") as [->|]; [done|].
  destruct (ends_with dir "/") eqn:He; [|done]. exfalso. unfold ends_with in He. apply andb_prop in He as [Hl He%String.eqb_eq].
  apply Nat.leb_le in Hl. cbn in Hl. rewrite <- (stake_sdrop (String.length dir - String.length "/") dir), He in Hr.
  change "/" with (String "/" "") in Hr at 2. rewrite split_on_app, reverse_app in Hr. cbn in Hr. by injection Hr as <- _.
Qed.

(** A name with numbers after it, each after a colon. *)
Definition suffixed (name : string) (numbers : list string) : string := foldl (fun s n => s +:+ ":" +:+ n) name numbers.
Definition number (n : string) : Prop := n <> "" /\ sall is_ascii_digit n = true.
Definition unnumbered (name : string) : Prop :=
  match rsplit_once ":" name with Some (_, tail) => tail = "" \/ sall is_ascii_digit tail = false | None => True end.
Lemma suffixed_snoc name numbers n : suffixed name (numbers ++ [n])%list = suffixed name numbers +:+ ":" +:+ n.
Proof. unfold suffixed. by rewrite foldl_app. Qed.

Lemma append_nonempty a c b : a +:+ String c b <> "".
Proof. by destruct a. Qed.

Lemma suffixed_nonempty name numbers : name <> "" -> suffixed name numbers <> "".
Proof.
  intros Hne. induction numbers as [|n numbers _] using rev_ind; [done|].
  rewrite suffixed_snoc. apply append_nonempty.
Qed.

Lemma suffixed_plain name numbers : plain_name name -> Forall number numbers -> plain_name (suffixed name numbers).
Proof.
  intros Hn. induction numbers as [|n numbers IH] using rev_ind; [done|]. intros [Hall [Hnum _]%Forall_cons]%Forall_app.
  rewrite suffixed_snoc. destruct (IH Hall) as (Hs & H0 & _). split_and!; [|apply append_nonempty| |].
  - unfold no_char in *. rewrite !sall_app, Hs. cbn. apply (digits_no_char "/"); [done|apply Hnum].
  - destruct (suffixed name numbers) as [|x t]; [done|]. intros [= _ H]. by apply append_nonempty in H.
  - destruct (suffixed name numbers) as [|x [|y t]]; [done..|]. intros [= _ _ H]. by apply append_nonempty in H.
Qed.

Lemma strip_numbers_base fuel name stripped : unnumbered name -> strip_numbers fuel name stripped = (name, stripped).
Proof.
  intros Hu. destruct fuel; [done|]. cbn [strip_numbers]. unfold unnumbered in Hu. destruct (rsplit_once ":" name) as [[head tail]|]; [|done].
  destruct Hu as [->| ->]; cbn; by rewrite ?orb_true_r.
Qed.

Lemma strip_numbers_suffixed fuel name numbers stripped :
  name <> "" -> unnumbered name -> Forall number numbers -> (String.length (suffixed name numbers) <= fuel)%nat ->
  strip_numbers fuel (suffixed name numbers) stripped = (name, stripped || negb (bool_decide (numbers = []))).
Proof.
  intros Hne Hu. revert fuel stripped. induction numbers as [|n numbers IH] using rev_ind; intros fuel stripped Hall Hf.
  - cbn. rewrite orb_false_r. by apply strip_numbers_base.
  - apply Forall_app in Hall as [Hall [[Hn Hd] _]%Forall_cons].
    rewrite suffixed_snoc in *. rewrite (bool_decide_eq_false_2 (_ = [])) by (by destruct numbers). rewrite !str_length_app in Hf.
    destruct fuel as [|fuel]; [cbn in Hf; lia|]. cbn [strip_numbers]. change (suffixed name numbers +:+ ":" +:+ n) with (suffixed name numbers +:+ String ":" n).
    rewrite rsplit_once_last by by apply (digits_no_char ":").
    rewrite (proj2 (String.eqb_neq (suffixed name numbers) "")), (proj2 (String.eqb_neq n "")), Hd by (done || by apply suffixed_nonempty).
    cbn [orb negb]. rewrite IH by (done || cbn in Hf; lia). by rewrite orb_true_r.
Qed.

Lemma strip_line_suffix_numbers dir name numbers :
  written_dir dir -> plain_name name -> unnumbered name -> Forall number numbers -> numbers <> [] -> utf8 (suffixed name numbers) ->
  strip_line_suffix (dir +:+ "/" +:+ suffixed name numbers) = Some (dir +:+ "/" +:+ name).
Proof.
  intros Hd Hn Hu Hall Hne Hutf. unfold strip_line_suffix. pose proof (suffixed_plain _ _ Hn Hall) as Hp.
  rewrite file_name_file, bool_decide_eq_true_2 by done. pose proof Hn as (Hs & H0 & _). rewrite strip_numbers_suffixed by done.
  rewrite bool_decide_eq_false_2 by done. cbn [orb negb]. rewrite with_file_name_file; [done..|].
  unfold no_char in Hs. destruct name as [|x name]; [done|]. cbn [sall] in Hs. apply andb_prop in Hs as [Hx%negb_true_iff%Ascii.eqb_neq _].
  unfold starts_with. cbn [String.prefix]. destruct (ascii_dec "/" x); congruence.
Qed.

(** What a compiler prints can be pressed: where a token stands for a name followed by line and column
    numbers, the file of exactly that name is meant if there is one, and otherwise the file of the name
    without its numbers; a location that macOS hides changes nothing of it. *)
Theorem line_suffix_resolves macos lookup_path token cwd home dir name numbers canonical :
  written_dir dir -> plain_name name -> unnumbered name -> Forall number numbers -> numbers <> [] -> utf8 (suffixed name numbers) ->
  expanded token cwd home = Ok (dir +:+ "/" +:+ suffixed name numbers) ->
  (lookup_path (dir +:+ "/" +:+ suffixed name numbers) = Regular canonical -> resolve_target macos lookup_path token cwd home = Ok canonical)
  /\ ((forall other, lookup_path (dir +:+ "/" +:+ suffixed name numbers) <> Regular other) ->
      lookup_path (dir +:+ "/" +:+ name) = Regular canonical -> resolve_target macos lookup_path token cwd home = Ok canonical).
Proof.
  intros Hd Hn Hu Hall Hne Hutf He. unfold resolve_target. rewrite He. cbn [rbind]. unfold existing_file at 1 3. split.
  - by intros ->.
  - intros Hno Hyes. rewrite strip_line_suffix_numbers by done. cbn [fmap option_fmap option_map]. unfold existing_file. rewrite Hyes.
    destruct (lookup_path (dir +:+ "/" +:+ suffixed name numbers)) as [| | |other] eqn:Hl; [done..|by destruct (Hno other)].
Qed.

Example resolve_1 :
  resolve_target false (fun p => if p =s? "/w/src/main.rs" then Regular p else Missing) " src/main.rs:42:5 " (Some "/w") None
  = Ok "/w/src/main.rs"%string.
Proof. vm_compute. reflexivity. Qed.

(** ** The exchange *)

Local Close Scope string_scope.

Section exchange.
Context (to_vec : GetReply -> option bytes) (from_slice : bytes -> option GetOpen) (fails : nat -> option io_error).

(** A write, after the replies [sent]; [fails] tells which of them breaks the stream. *)
Definition send_reply (sent : list GetReply) (reply : GetReply) : list GetReply * verdict :=
  match encoded_reply to_vec reply with
  | Err e => (sent, Err e)
  | Ok _ => match fails (length sent) with Some e => (sent, Err (Io e)) | None => (sent ++ [reply], Ok tt) end
  end.

(** [send(..).await?], and on with [k]. *)
Definition then_send (s : list GetReply * verdict) (k : list GetReply -> list GetReply * verdict) : list GetReply * verdict :=
  match s with (sent, Ok _) => k sent | (sent, Err e) => (sent, Err e) end.

Definition send_get_error (sent : list GetReply) (code : DownloadErrorCode) (message : string) : list GetReply * verdict :=
  send_reply sent (GetError DOWNLOAD_JSON_VERSION (DownloadErrorCode_wire code) message).

(** An open file: its size when it was asked for, what it holds at each read, how much at least a read
    brings, and which reads fail. *)
Record OpenFile := mkOpenFile { of_size : option N; of_contents : nat -> bytes; of_short : nat -> nat; of_fails : nat -> bool }.

(** [file.read] into a buffer of [want] bytes: something, unless nothing is left. *)
Definition read_file (file : OpenFile) (i : nat) (position want : N) : option bytes :=
  if of_fails file i then None
  else Some (take (Nat.min (N.to_nat want) (S (of_short file i))) (drop (N.to_nat position) (of_contents file i))).

(** The loop that sends the chunks; every turn sends at least a byte. *)
Fixpoint send_file (fuel i : nat) (file : OpenFile) (size position : N) (sent : list GetReply) : option (list GetReply * verdict) :=
  match fuel with
  | O => None
  | S fuel =>
      if position <? size then
        match read_file file i position (N.min (size - position) MAX_DOWNLOAD_CHUNK_PAYLOAD) with
        | None => Some (send_get_error sent FailedIo "That file could not be read.")
        | Some [] => Some (send_reply sent GetDone)
        | Some chunk =>
            match send_reply sent (GetChunk chunk) with
            | (sent, Ok _) => send_file fuel (S i) file size (position + len chunk) sent
            | (sent, Err e) => Some (sent, Err e)
            end
        end
      else Some (send_reply sent GetDone)
  end.

(** [slice.chunks(n)], at most as many as there are bytes. *)
Fixpoint chunks_of (fuel n : nat) (l : bytes) : list bytes :=
  match fuel, l with
  | S fuel, _ :: _ => take n l :: chunks_of fuel n (drop n l)
  | _, _ => []
  end.

Fixpoint send_chunks (chunks : list bytes) (sent : list GetReply) : list GetReply * verdict :=
  match chunks with
  | [] => send_reply sent GetDone
  | chunk :: chunks => then_send (send_reply sent (GetChunk chunk)) (send_chunks chunks)
  end.

Definition patch_bytes (patch : string) : bytes := nb <$> String.list_ascii_of_string patch.

Definition git_failure (error : GitDiffError) : DownloadErrorCode * string :=
  match error with
  | NotARepository => (NotAFile, "That folder isn't a Git repository.")
  | GitUnavailable => (Denied, "Git isn't available on this host.")
  | GitDiff.TooLarge => (TooLarge, "That diff is too large to review here.")
  | GitDiff.Timeout => (TimedOut, "Git didn't answer in time.")
  | Failed => (FailedIo, "That diff couldn't be produced.")
  end%string.

(** Programs, directories and what calls of git come to in each: while the patch is made, and later while
    the bases are listed. *)
Context (is_executable : string -> bool) (is_dir : string -> bool) (process listing : string -> list string -> GitProcess).

Definition send_git_diff (cwd base : option string) : list GetReply * verdict :=
  match cwd with
  | None => send_get_error [] Invalid "There's no directory to diff here."
  | Some cwd =>
      match (match base with None => Some Uncommitted | Some token => DiffBase_from_wire token end) with
      | None => send_get_error [] Invalid "That comparison isn't available on this host."
      | Some selected =>
          match diff is_executable (is_dir cwd) (process cwd) selected with
          | Err error => let '(code, message) := git_failure error in send_get_error [] code message
          | Ok patch =>
              let bases := (fun option => mkGetDiffBase (DiffBase_wire (db_base option)) (db_label option))
                             <$> available_bases is_executable (listing cwd) in
              let bytes := patch_bytes patch in
              then_send (send_reply [] (GetAccepted DOWNLOAD_JSON_VERSION "changes.diff" (len bytes) bases (Some (DiffBase_wire selected))))
                (send_chunks (chunks_of (length bytes) (N.to_nat MAX_DOWNLOAD_CHUNK_PAYLOAD) bytes))
          end
      end
  end.

Context (macos : bool) (lookup_path : string -> PathLookup) (open_file : string -> option OpenFile).
Context (home session_cwd : option string) (agent_workspace : string -> option string).

Definition send_preview (path : string) : option (list GetReply * verdict) :=
  match open_file path with
  | None => Some (send_get_error [] NotAFile "There is no file by that name here.")
  | Some file =>
      match of_size file with
      | None => Some (send_get_error [] FailedIo "That file could not be read.")
      | Some size =>
          if MAX_DOWNLOAD_BYTES <? size then Some (send_get_error [] TooLarge "That file is too large to preview.")
          else
            let name := match file_name path with Some name => if bool_decide (utf8 name) then name else "file"%string | None => "file"%string end in
            match send_reply [] (GetAccepted DOWNLOAD_JSON_VERSION name size [] None) with
            | (sent, Ok _) => send_file (S (N.to_nat size)) 0 file size 0 sent
            | (sent, Err e) => Some (sent, Err e)
            end
      end
  end.

(** [run_download_stream] once it is known which directory the request is about. *)
Definition answer_in (open : GetOpen) (cwd : option string) : option (list GetReply * verdict) :=
  if is_some_and (fun kind => kind =s? GET_KIND_GIT_DIFF) (gp_kind open) then Some (send_git_diff cwd (gp_base open))
  else
    match resolve_target macos lookup_path (gp_path open) cwd home with
    | Err failure => Some (send_get_error [] (df_code failure) (df_message failure))
    | Ok path => send_preview path
    end.

(** [run_download_stream] once the request was read. *)
Definition answer_open (open : GetOpen) : option (list GetReply * verdict) :=
  if negb (gp_v open =? DOWNLOAD_JSON_VERSION)
  then Some (send_get_error [] Invalid "This preview protocol version is not supported.")
  else
    match gp_session open with
    | Some session =>
        match agent_workspace session with
        | Some path => answer_in open (Some path)
        | None => Some (send_get_error [] Invalid "There's no directory to diff here.")
        end
    | None => answer_in open (match gp_cwd open with Some cwd => Some cwd | None => session_cwd end)
    end.

(** [run_download_stream]: the replies sent and what it returns. The reads are those that come in time. *)
Definition run_download_stream (reads : list read_event) : option (list GetReply * verdict) :=
  match next_download from_slice [] reads with
  | (_, _, Some (Ok (Open open))) => answer_open open
  | (_, _, Some (Ok Cancel)) => Some (send_get_error [] Cancelled "The preview was cancelled.")
  | (_, _, None) => Some (send_get_error [] TimedOut "The preview timed out.")
  | (_, _, Some (Err (Io e))) => Some ([], Err (Io e))
  | (_, _, Some (Err Truncated)) => Some ([], Err Truncated)
  | (_, _, Some (Err _)) => Some (send_get_error [] Invalid "The preview request was malformed.")
  end.

(** ** Every exchange ends, and how *)

(** A refusal, or nothing where the stream broke. *)
Definition refused (sent : list GetReply) (r : verdict) : Prop :=
  match r with Ok _ => exists code message, sent = [GetError DOWNLOAD_JSON_VERSION code message] | Err _ => sent = [] end.

(** What ends a stream that was accepted. *)
Definition closing (sent : list GetReply) (r : verdict) : Prop := refused sent r \/ is_ok r = true /\ sent = [GetDone].

Definition fits (chunk : bytes) : Prop := 0 < len chunk <= MAX_DOWNLOAD_CHUNK_PAYLOAD.

(** From the replies [before] on: chunks of the bytes [content], or of some of them, and the end. *)
Definition streamed (before sent : list GetReply) (r : verdict) (limit : N) (content : bytes -> Prop) : Prop :=
  exists chunks last, sent = before ++ (GetChunk <$> chunks) ++ last /\ closing last r /\ Forall fits chunks
  /\ len (mjoin chunks) <= limit /\ (last = [GetDone] -> content (mjoin chunks)).

Lemma send_reply_cases sent reply :
  (exists e, send_reply sent reply = (sent, Err e)) \/ send_reply sent reply = (sent ++ [reply], Ok tt).
Proof.
  unfold send_reply. destruct (encoded_reply _ _); [|left; by eexists]. destruct (fails _); [left; by eexists|by right].
Qed.

Lemma error_refused code message : let '(sent, r) := send_get_error [] code message in refused sent r.
Proof.
  unfold send_get_error. destruct (send_reply_cases [] (GetError DOWNLOAD_JSON_VERSION (DownloadErrorCode_wire code) message)) as [[e ->]| ->];
    [done|by do 2 eexists].
Qed.

Lemma closing_streamed before last r limit (content : bytes -> Prop) :
  closing last r -> (last = [GetDone] -> content []) -> streamed before (before ++ last) r limit content.
Proof.
  intros Hcl Hc. exists [], last. split_and!; [done|done|by apply Forall_nil| |done].
  change (len (mjoin [])) with 0. lia.
Qed.

Lemma broken_streamed before e limit content : streamed before before (Err e) limit content.
Proof. rewrite <- (app_nil_r before) at 2. apply closing_streamed; [by left|done]. Qed.

Lemma done_streamed before limit (content : bytes -> Prop) :
  content [] -> let '(sent, r) := send_reply before GetDone in streamed before sent r limit content.
Proof.
  intros Hc. destruct (send_reply_cases before GetDone) as [[e ->]| ->]; [apply broken_streamed|].
  apply closing_streamed; [by right|done].
Qed.

Lemma error_streamed before limit content code message :
  let '(sent, r) := send_get_error before code message in streamed before sent r limit content.
Proof.
  unfold send_get_error. destruct (send_reply_cases before (GetError DOWNLOAD_JSON_VERSION (DownloadErrorCode_wire code) message)) as [[e ->]| ->];
    [apply broken_streamed|]. apply closing_streamed; [left; by do 2 eexists|done].
Qed.

Lemma chunk_streamed before chunk sent r limit (content : bytes -> Prop) :
  fits chunk -> len chunk <= limit ->
  streamed (before ++ [GetChunk chunk]) sent r (limit - len chunk) (fun rest => content (chunk ++ rest)) ->
  streamed before sent r limit content.
Proof.
  intros Hf Hl (chunks & last & -> & Hc & Hall & Hlen & Hd). exists (chunk :: chunks), last.
  change (mjoin (chunk :: chunks)) with (chunk ++ mjoin chunks). rewrite len_app.
  split_and!; [by rewrite <- !(assoc_L (++))|done|by constructor|lia|done].
Qed.

(** What a file holds from a position on, as long as it is not written to. *)
Definition rest_of (file : OpenFile) (size position : N) (read : bytes) : Prop :=
  forall content, (forall i, of_contents file i = content) -> len content = size -> read = drop (N.to_nat position) content.

Lemma take_then_drop {A} n (l c : list A) : take n l = c -> c ++ drop (length c) l = l.
Proof.
  intros <-. destruct (decide (n <= length l)%nat).
  - rewrite length_take, Nat.min_l by done. apply take_drop.
  - rewrite take_ge, drop_all by lia. apply app_nil_r.
Qed.

Lemma send_file_streams fuel i file size position sent :
  position <= size -> (N.to_nat (size - position) < fuel)%nat ->
  exists sent' r, send_file fuel i file size position sent = Some (sent', r)
  /\ streamed sent sent' r (size - position) (rest_of file size position).
Proof.
  revert i position sent. induction fuel as [|fuel IH]; intros i position sent Hp Hf; [lia|]. cbn [send_file].
  destruct (N.ltb_spec position size) as [Hlt|Hge].
  - unfold read_file. destruct (of_fails file i).
    { pose proof (error_streamed sent (size - position) (rest_of file size position) FailedIo "That file could not be read.") as H.
      destruct (send_get_error _ _ _) as [s' r]. by exists s', r. }
    set (n := Nat.min _ _). assert (0 < n <= N.to_nat (size - position))%nat as Hn by (unfold n, MAX_DOWNLOAD_CHUNK_PAYLOAD; lia).
    assert (N.of_nat n <= MAX_DOWNLOAD_CHUNK_PAYLOAD) as Hmax by lia. clearbody n.
    destruct (take n _) as [|b chunk'] eqn:Hread.
    + pose proof (done_streamed sent (size - position) (rest_of file size position)) as H.
      destruct (send_reply _ _) as [s' r]. exists s', r. split; [done|]. apply H. intros content Hc Hs. rewrite Hc in Hread.
      apply (f_equal length) in Hread. rewrite length_take, length_drop in Hread. unfold len in Hs. cbn in Hread. lia.
    + set (chunk := b :: chunk') in *. assert (fits chunk /\ len chunk <= size - position) as [Hfit Hlen].
      { assert (len chunk <= N.of_nat n) by (rewrite <- Hread; unfold len; rewrite length_take; lia).
        unfold fits. assert (len chunk = len chunk' + 1) by apply len_cons. split; lia. }
      destruct (send_reply_cases sent (GetChunk chunk)) as [[e ->]| ->].
      * do 2 eexists. split; [done|]. apply broken_streamed.
      * unfold fits in Hfit.
        destruct (IH (S i) (position + len chunk) (sent ++ [GetChunk chunk]) ltac:(lia) ltac:(lia)) as (s' & r & -> & Hs).
        exists s', r. split; [done|]. apply chunk_streamed with chunk; [done..|].
        destruct Hs as (chunks & last & Hsent & Hcl & Hall & Hle & Hd). exists chunks, last. split_and!; [done..|lia|].
        intros Hdone content Hc Hsz. rewrite (Hd Hdone content Hc Hsz). rewrite Hc in Hread.
        unfold len. rewrite N2Nat.inj_add, Nat2N.id, <- drop_drop. by apply take_then_drop with n.
  - pose proof (done_streamed sent (size - position) (rest_of file size position)) as H.
    destruct (send_reply _ _) as [s' r]. exists s', r. split; [done|]. apply H. intros content Hc Hs.
    rewrite drop_ge; [done|]. unfold len in Hs. lia.
Qed.

Lemma streamed_mono before sent r limit limit' (content content' : bytes -> Prop) :
  streamed before sent r limit content -> limit <= limit' -> (forall read, content read -> content' read) ->
  streamed before sent r limit' content'.
Proof. intros (chunks & last & -> & Hcl & Hall & Hle & Hd) Hl Hc. exists chunks, last. split_and!; [done..|lia|auto]. Qed.

Lemma send_chunks_streams chunks before :
  Forall fits chunks ->
  let '(sent, r) := send_chunks chunks before in streamed before sent r (len (mjoin chunks)) (fun read => read = mjoin chunks).
Proof.
  intros Hall. revert before. induction Hall as [|chunk chunks Hf Hall IH]; intros before; cbn [send_chunks]; [by apply done_streamed|].
  change (mjoin (chunk :: chunks)) with (chunk ++ mjoin chunks). rewrite len_app.
  destruct (send_reply_cases before (GetChunk chunk)) as [[e ->]| ->]; [apply broken_streamed|]. cbn [then_send].
  specialize (IH (before ++ [GetChunk chunk])). destruct (send_chunks chunks _) as [sent r].
  apply chunk_streamed with chunk; [done|lia|]. eapply streamed_mono; [exact IH|lia|]. by intros read ->.
Qed.

Lemma chunks_of_spec fuel n l :
  (length l <= fuel)%nat -> (0 < n)%nat -> N.of_nat n = MAX_DOWNLOAD_CHUNK_PAYLOAD ->
  mjoin (chunks_of fuel n l) = l /\ Forall fits (chunks_of fuel n l).
Proof.
  intros Hf Hn Hmax. revert l Hf. induction fuel as [|fuel IH]; intros [|b l] Hf; cbn [chunks_of]; try done; [cbn in Hf; lia|].
  destruct (IH (drop n (b :: l))) as [IH1 IH2]; [rewrite length_drop; cbn in *; lia|]. split.
  - change (take n (b :: l) ++ mjoin (chunks_of fuel n (drop n (b :: l))) = b :: l). by rewrite IH1, take_drop.
  - constructor; [|done]. unfold fits, len. rewrite length_take. cbn [length]. lia.
Qed.

(** An exchange, and what the chunks of one that was done hold. *)
Definition exchanged (sent : list GetReply) (r : verdict) (content : bytes -> Prop) : Prop :=
  refused sent r \/ exists name size bases base, streamed [GetAccepted DOWNLOAD_JSON_VERSION name size bases base] sent r size content.

Definition chosen_base (base : option string) : option DiffBase :=
  match base with None => Some Uncommitted | Some token => DiffBase_from_wire token end.

Lemma refused_exchanged code message content : let '(sent, r) := send_get_error [] code message in exchanged sent r content.
Proof. pose proof (error_refused code message). destruct (send_get_error _ _ _). by left. Qed.

Lemma refusal_exchanged code message content :
  exists sent r, Some (send_get_error [] code message) = Some (sent, r) /\ exchanged sent r content.
Proof. pose proof (refused_exchanged code message content) as H. destruct (send_get_error _ _ _) as [sent r]. by exists sent, r. Qed.

Lemma git_diff_exchanged cwd base :
  let '(sent, r) := send_git_diff cwd base in
  exchanged sent r (fun read => exists dir selected patch, cwd = Some dir /\ chosen_base base = Some selected
    /\ diff is_executable (is_dir dir) (process dir) selected = Ok patch /\ read = patch_bytes patch).
Proof.
  unfold send_git_diff. fold (chosen_base base). destruct cwd as [cwd|]; [|apply refused_exchanged].
  destruct (chosen_base base) as [selected|]; [|apply refused_exchanged].
  destruct (diff _ _ _ selected) as [patch|error] eqn:Hd; [|destruct (git_failure error); apply refused_exchanged].
  destruct (send_reply_cases [] (GetAccepted DOWNLOAD_JSON_VERSION "changes.diff" (len (patch_bytes patch))
    ((fun option => mkGetDiffBase (DiffBase_wire (db_base option)) (db_label option)) <$> available_bases is_executable (listing cwd))
    (Some (DiffBase_wire selected)))) as [[e ->]| ->]; [by left|]. cbn [then_send app].
  destruct (chunks_of_spec (length (patch_bytes patch)) (N.to_nat MAX_DOWNLOAD_CHUNK_PAYLOAD) (patch_bytes patch)) as [Hjoin Hall];
    [done|unfold MAX_DOWNLOAD_CHUNK_PAYLOAD; lia|by rewrite N2Nat.id|].
  match goal with |- context [send_chunks ?c ?b] => pose proof (send_chunks_streams c b Hall) as Hs; destruct (send_chunks c b) as [sent r] end.
  right. do 4 eexists. rewrite Hjoin in Hs. eapply streamed_mono; [exact Hs|done|]. intros read ->. by exists cwd, selected, patch.
Qed.

Lemma preview_exchanged path :
  exists sent r, send_preview path = Some (sent, r)
  /\ exchanged sent r (fun read => forall file content, open_file path = Some file -> of_size file = Some (len content) ->
       (forall i, of_contents file i = content) -> read = content).
Proof.
  unfold send_preview. destruct (open_file path) as [file|]; [|apply refusal_exchanged]. destruct (of_size file) as [size|] eqn:Hsz; [|apply refusal_exchanged].
  destruct (_ <? size); [apply refusal_exchanged|]. set (name := match file_name path with Some _ => _ | None => _ end). cbv zeta.
  destruct (send_reply_cases [] (GetAccepted DOWNLOAD_JSON_VERSION name size [] None)) as [[e ->]| ->]; [do 2 eexists; split; [done|by left]|].
  destruct (send_file_streams (S (N.to_nat size)) 0 file size 0 [GetAccepted DOWNLOAD_JSON_VERSION name size [] None]) as (sent & r & Hrun & Hs);
    [lia..|]. exists sent, r. split; [exact Hrun|]. right. do 4 eexists. rewrite N.sub_0_r in Hs. eapply streamed_mono; [exact Hs|done|].
  intros read Hread f content [= <-] Hlen Hc. rewrite (Hread content Hc); [done|congruence].
Qed.

(** The directory a request is about, if the session it names has one. *)
Definition working_dir (open : GetOpen) : option (option string) :=
  match gp_session open with
  | Some session => Some <$> agent_workspace session
  | None => Some (match gp_cwd open with Some cwd => Some cwd | None => session_cwd end)
  end.

(** What a request names there: the patch of the directory, or a file as long as it is not written to. *)
Definition names (open : GetOpen) (cwd : option string) (content : bytes) : Prop :=
  if is_some_and (fun kind => kind =s? GET_KIND_GIT_DIFF) (gp_kind open)
  then exists dir selected patch, cwd = Some dir /\ chosen_base (gp_base open) = Some selected
       /\ diff is_executable (is_dir dir) (process dir) selected = Ok patch /\ content = patch_bytes patch
  else exists path file, resolve_target macos lookup_path (gp_path open) cwd home = Ok path /\ open_file path = Some file
       /\ of_size file = Some (len content) /\ forall i, of_contents file i = content.

Definition source (open : GetOpen) (content : bytes) : Prop :=
  exists cwd, working_dir open = Some cwd /\ names open cwd content.

Lemma exchanged_mono sent r (content content' : bytes -> Prop) :
  exchanged sent r content -> (forall read, content read -> content' read) -> exchanged sent r content'.
Proof.
  intros [H|(name & size & bases & base & H)] Hc; [by left|right]. exists name, size, bases, base. by eapply streamed_mono.
Qed.

Lemma answer_in_exchanged open cwd :
  exists sent r, answer_in open cwd = Some (sent, r)
  /\ exchanged sent r (fun read => forall content, names open cwd content -> read = content).
Proof.
  unfold answer_in, names. destruct (is_some_and _ _).
  - pose proof (git_diff_exchanged cwd (gp_base open)) as H. destruct (send_git_diff _ _) as [sent r]. exists sent, r. split; [done|].
    eapply exchanged_mono; [exact H|]. intros read (dir & sel & patch & -> & Hb & Hd & ->) content (dir' & sel' & patch' & [= <-] & Hb' & Hd' & ->).
    congruence.
  - destruct (resolve_target _ _ _ _ _) as [path|failure]; [|apply refusal_exchanged].
    destruct (preview_exchanged path) as (sent & r & -> & H). exists sent, r. split; [done|]. eapply exchanged_mono; [exact H|].
    intros read Hread content (path' & file & [= <-] & Ho & Hs & Hc). by eapply Hread.
Qed.

Lemma answer_open_exchanged open :
  exists sent r, answer_open open = Some (sent, r)
  /\ exchanged sent r (fun read => forall content, source open content -> read = content).
Proof.
  unfold answer_open. destruct (negb _); [apply refusal_exchanged|].
  assert (forall cwd, working_dir open = Some cwd -> exists sent r, answer_in open cwd = Some (sent, r)
    /\ exchanged sent r (fun read => forall content, source open content -> read = content)) as Hin.
  { intros cwd Hw. destruct (answer_in_exchanged open cwd) as (sent & r & -> & H). exists sent, r. split; [done|].
    eapply exchanged_mono; [exact H|]. intros read Hread content (cwd' & Hw' & Hn). apply Hread. congruence. }
  unfold working_dir in Hin. destruct (gp_session open) as [session|]; [|by apply Hin].
  destruct (agent_workspace session) as [path|]; [by apply Hin|apply refusal_exchanged].
Qed.

(** A session the phone names decides which directory the answer is about: what the terminal reports and
    where its session stands make no difference, and a session that has no directory is refused. *)
Lemma session_decides open session cwd :
  gp_session open = Some session ->
  answer_open (mkGetOpen (gp_v open) (gp_path open) cwd (gp_kind open) (gp_base open) (gp_session open)) = answer_open open
  /\ answer_open open
    = (if negb (gp_v open =? DOWNLOAD_JSON_VERSION) then Some (send_get_error [] Invalid "This preview protocol version is not supported.")
       else match agent_workspace session with
            | Some path => answer_in open (Some path)
            | None => Some (send_get_error [] Invalid "There's no directory to diff here.")
            end).
Proof. intros Hs. unfold answer_open. cbn. by rewrite Hs. Qed.

(** A phone that asks for a file or a patch is answered once: by an error, or by an acceptance, chunks of
    at most 16 KiB that never exceed the size it was told, and one end, done or an error, unless the stream
    broke; and what it is told is done is exactly the patch, or the file as long as nobody writes to it. *)
Theorem download_answers_once reads :
  exists sent r, run_download_stream reads = Some (sent, r)
  /\ exchanged sent r (fun read => forall buffer left open content,
       next_download from_slice [] reads = (buffer, left, Some (Ok (Open open))) -> source open content -> read = content).
Proof.
  unfold run_download_stream. destruct (next_download from_slice [] reads) as [[b l] [[[open|]|e]|]]; try apply refusal_exchanged.
  - destruct (answer_open_exchanged open) as (sent & r & -> & H). exists sent, r. split; [done|]. eapply exchanged_mono; [exact H|].
    intros read Hread buffer' left' open' content [= <- <- <-]. apply Hread.
  - destruct e; try apply refusal_exchanged; do 2 eexists; (split; [done|]); by left.
Qed.
End exchange.
