(* ===== verification/WorkspaceScan.v ===== *)
(** Git checkouts under home, [workspace_scan.rs]: the walk behind the list of workspaces. The file system is
    a parameter. *)
From S2P Require Import Prelude Text Downloads.

Local Open Scope string_scope.
Local Open Scope N_scope.

Definition SKIPPED_DIRECTORIES : list string := ["Library"; "node_modules"; "Pictures"; "Music"; "Movies"].
Definition MAX_DEPTH : nat := 3.
Definition MAX_VISITS : nat := 2000.
Definition MAX_RESULTS : nat := 64.

Record WorkspaceScan := mkWorkspaceScan { wsc_paths : list string; wsc_denied : bool }.

Definition WorkspaceScan_default : WorkspaceScan := mkWorkspaceScan [] false.

(** An entry of a directory; [None] where [file_type] failed. *)
Record DirEntry := mkDirEntry { en_name : string; en_is_dir : option bool }.

Inductive ReadDir := Entries (entries : list DirEntry) | PermissionDenied | Unreadable.

(** The derived order of sequences. *)
Section lexicographic.
Context {A : Type} (cmp : A -> A -> comparison).

Fixpoint lexicographic (a b : list A) : comparison :=
  match a, b with
  | [], [] => Eq
  | [], _ => Lt
  | _, [] => Gt
  | x :: a, y :: b => match cmp x y with Eq => lexicographic a b | c => c end
  end.

(** What [Ord] promises of a comparison. *)
Record comparison_ok {B} (c : B -> B -> comparison) : Prop := {
  cp_eq x y : c x y = Eq <-> x = y;
  cp_opp x y : c y x = CompOpp (c x y);
  cp_trans x y z : c x y = Lt -> c y z = Lt -> c x z = Lt
}.

Lemma lexicographic_ok : comparison_ok cmp -> comparison_ok lexicographic.
Proof.
  intros [He Ho Ht]. split.
  - induction x as [|x a IH]; intros [|y b]; cbn; try done. destruct (cmp x y) eqn:Hc.
    + apply He in Hc as ->. rewrite IH. split; congruence.
    + split; [done|]. intros [= -> _]. by rewrite (proj2 (He y y) eq_refl) in Hc.
    + split; [done|]. intros [= -> _]. by rewrite (proj2 (He y y) eq_refl) in Hc.
  - induction x as [|x a IH]; intros [|y b]; cbn; try done. rewrite Ho, IH. by destruct (cmp x y).
  - induction x as [|x a IH]; intros [|y b] [|z c]; cbn; try done. destruct (cmp x y) eqn:Hxy; [|intros _|done].
    + apply He in Hxy as ->. destruct (cmp y z) eqn:Hyz; [apply IH|done..].
    + destruct (cmp y z) eqn:Hyz; [|intros _|done].
      * apply He in Hyz as ->. by rewrite Hxy.
      * by rewrite (Ht _ _ _ Hxy Hyz).
Qed.
End lexicographic.

(** [PathBuf]'s order: component by component, each by its bytes. *)
Definition component_compare (a b : string) : comparison :=
  lexicographic N.compare (nb <$> String.list_ascii_of_string a) (nb <$> String.list_ascii_of_string b).

Definition path_compare (a b : string) : comparison := lexicographic component_compare (components a) (components b).

(** The order of the list: the most recently touched first, then by path. *)
Definition before (left right : N * string) : bool :=
  (right.1 <? left.1) || ((left.1 =? right.1) && match path_compare left.2 right.2 with Gt => false | _ => true end).

Definition listed_before (left right : N * string) : Prop := before left right = true.

#[export] Instance listed_before_dec : RelDecision listed_before.
Proof. intros a b. unfold listed_before. apply _. Defined.

Section scan.
(** [fs::read_dir], and the time [.git] was touched if there is one, the epoch if that cannot be read. *)
Context (read_dir : string -> ReadDir) (git_marker : string -> option N).

(** What the walk knows: checkouts found, directories to open, whether one was refused. *)
Record Walk := mkWalk { wk_found : list (N * string); wk_stack : list (string * nat); wk_denied : bool }.

(** A name the walk follows. *)
Definition visible (entry : DirEntry) : option string :=
  if bool_decide (en_is_dir entry = Some true) then
    match from_utf8 (en_name entry) with
    | Some name => if starts_with name "." || existsb (String.eqb name) SKIPPED_DIRECTORIES then None else Some name
    | None => None
    end
  else None.

Definition visit_entry (directory : string) (depth : nat) (w : Walk) (entry : DirEntry) : Walk :=
  match visible entry with
  | None => w
  | Some name =>
      let path := join directory name in
      match git_marker path with
      | Some touched => mkWalk (wk_found w ++ [(touched, path)]) (wk_stack w) (wk_denied w)
      | None => if (depth + 1 <? MAX_DEPTH)%nat then mkWalk (wk_found w) ((path, (depth + 1)%nat) :: wk_stack w) (wk_denied w) else w
      end
  end.

Definition visit (directory : string) (depth : nat) (w : Walk) : Walk :=
  match read_dir directory with
  | Entries entries => foldl (visit_entry directory depth) w entries
  | PermissionDenied => mkWalk (wk_found w) (wk_stack w) true
  | Unreadable => w
  end.

(** [visits] directories may be opened yet. *)
Fixpoint walk (visits : nat) (w : Walk) : Walk :=
  match visits, wk_stack w with
  | S visits, (directory, depth) :: stack => walk visits (visit directory depth (mkWalk (wk_found w) stack (wk_denied w)))
  | _, _ => w
  end.

Definition walk_home (home : string) : Walk := walk MAX_VISITS (mkWalk [] [(home, O)] false).

Definition discover_git_workspaces (home : string) : WorkspaceScan :=
  let w := walk_home home in mkWorkspaceScan (snd <$> take MAX_RESULTS (merge_sort listed_before (wk_found w))) (wk_denied w).

(** ** What there is to find *)

(** The directories the walk may open, by depth. *)
Inductive openable (home : string) : string -> nat -> Prop :=
| OpenHome : openable home home 0
| OpenChild directory depth entries entry name :
    openable home directory depth -> read_dir directory = Entries entries -> entry ∈ entries -> visible entry = Some name ->
    git_marker (join directory name) = None -> (depth + 1 < MAX_DEPTH)%nat -> openable home (join directory name) (depth + 1).

(** A checkout the list is about: named in plain sight, at most three directories below home, in no other checkout. *)
Definition checkout (home : string) (touched : N) (path : string) : Prop :=
  exists directory depth entries entry name,
    openable home directory depth /\ read_dir directory = Entries entries /\ entry ∈ entries /\ visible entry = Some name
    /\ path = join directory name /\ git_marker path = Some touched.

(** The walk finds checkouts only, and none is lost: what is openable was opened or is on the stack. *)
Record walk_ok (home : string) (opened : string -> nat -> Prop) (w : Walk) : Prop := {
  wo_opened directory depth : opened directory depth -> openable home directory depth;
  wo_stack directory depth : (directory, depth) ∈ wk_stack w -> openable home directory depth;
  wo_found touched path : (touched, path) ∈ wk_found w -> checkout home touched path;
  wo_entries directory depth entries entry name : opened directory depth -> read_dir directory = Entries entries -> entry ∈ entries ->
    visible entry = Some name ->
    match git_marker (join directory name) with
    | Some touched => (touched, join directory name) ∈ wk_found w
    | None => (depth + 1 < MAX_DEPTH)%nat -> opened (join directory name) (depth + 1)%nat \/ (join directory name, (depth + 1)%nat) ∈ wk_stack w
    end;
  wo_home : opened home 0%nat \/ (home, 0%nat) ∈ wk_stack w;
  wo_denied : wk_denied w = true <-> exists directory depth, opened directory depth /\ read_dir directory = PermissionDenied
}.

(** What the entries of one directory add. *)
Lemma visit_entries_spec directory depth entries w :
  let w' := foldl (visit_entry directory depth) w entries in
  wk_denied w' = wk_denied w
  /\ (forall touched path, (touched, path) ∈ wk_found w' <-> (touched, path) ∈ wk_found w
       \/ exists entry name, entry ∈ entries /\ visible entry = Some name /\ path = join directory name /\ git_marker path = Some touched)
  /\ (forall path d, (path, d) ∈ wk_stack w' <-> (path, d) ∈ wk_stack w
       \/ exists entry name, entry ∈ entries /\ visible entry = Some name /\ path = join directory name /\ git_marker path = None
            /\ d = (depth + 1)%nat /\ (depth + 1 < MAX_DEPTH)%nat).
Proof.
  revert w. induction entries as [|entry entries IH]; intros w; cbn [foldl].
  { split; [done|]. split; intros; (split; [auto|]); by intros [?|(? & ? & []%not_elem_of_nil & _)]. }
  specialize (IH (visit_entry directory depth w entry)). cbv zeta in *. destruct IH as (Hd & Hf & Hs).
  setoid_rewrite elem_of_cons. unfold visit_entry in *. destruct (visible entry) as [name|] eqn:Hv.
  2:{ split; [done|]. split; intros; [rewrite Hf|rewrite Hs]; (split; [intros [?|(e & n & ? & ?)]; [by left|right; exists e, n; tauto]|]);
      (intros [?|(e & n & [->|?] & ? & ?)]; [by left|congruence|right; by exists e, n]). }
  destruct (git_marker (join directory name)) as [t|] eqn:Hg.
  - split; [done|]. cbn in *. split.
    + intros touched path. rewrite Hf, elem_of_app, list_elem_of_singleton. split.
      * intros [[?|[= -> ->]]|(e & n & ? & ?)]; [by left|right; exists entry, name; auto|right; exists e, n; tauto].
      * intros [?|(e & n & [->|?] & Hv' & -> & Hg')]; [tauto| |right; by exists e, n]. left. right. congruence.
    + intros path d. rewrite Hs. split; [intros [?|(e & n & ? & ?)]; [by left|right; exists e, n; tauto]|].
      intros [?|(e & n & [->|?] & Hv' & -> & Hg' & ?)]; [by left|congruence|right; by exists e, n].
  - destruct (Nat.ltb_spec (depth + 1) MAX_DEPTH) as [Hlt|Hge]; cbn in *.
    + split; [done|]. split.
      * intros touched path. rewrite Hf. split; [intros [?|(e & n & ? & ?)]; [by left|right; exists e, n; tauto]|].
        intros [?|(e & n & [->|?] & Hv' & -> & Hg')]; [by left|congruence|right; by exists e, n].
      * intros path d. rewrite Hs, elem_of_cons. split.
        -- intros [[[= -> ->]|?]|(e & n & ? & ?)]; [right; exists entry, name; tauto|by left|right; exists e, n; tauto].
        -- intros [?|(e & n & [->|?] & Hv' & -> & Hg' & -> & ?)]; [tauto| |right; exists e, n; auto 10]. left. left. congruence.
    + split; [done|]. split.
      * intros touched path. rewrite Hf. split; [intros [?|(e & n & ? & ?)]; [by left|right; exists e, n; tauto]|].
        intros [?|(e & n & [->|?] & Hv' & -> & Hg')]; [by left|congruence|right; by exists e, n].
      * intros path d. rewrite Hs. split; [intros [?|(e & n & ? & ?)]; [by left|right; exists e, n; tauto]|].
        intros [?|(e & n & [->|?] & Hv' & -> & Hg' & -> & ?)]; [by left|lia|right; by exists e, n].
Qed.

Lemma visit_ok home opened directory depth stack w :
  walk_ok home opened w -> wk_stack w = (directory, depth) :: stack ->
  walk_ok home (fun p d => opened p d \/ (p = directory /\ d = depth)) (visit directory depth (mkWalk (wk_found w) stack (wk_denied w))).
Proof.
  intros [Ho Hs Hf He Hh Hd] Hst. rewrite Hst in Hs, He, Hh. setoid_rewrite elem_of_cons in Hs. rewrite elem_of_cons in Hh.
  assert (openable home directory depth) as Hop by (apply Hs; by left).
  assert (forall p d, (p, d) ∈ (directory, depth) :: stack -> (p = directory /\ d = depth) \/ (p, d) ∈ stack) as Hsplit
    by (intros p d [[= -> ->]|?]%elem_of_cons; auto).
  unfold visit. destruct (read_dir directory) as [entries| |] eqn:Hr.
  - destruct (visit_entries_spec directory depth entries (mkWalk (wk_found w) stack (wk_denied w))) as (Hd' & Hf' & Hs'). cbn in Hd', Hf', Hs'.
    split; cbn.
    + intros p d [?|[-> ->]]; auto.
    + intros p d [Hin|(entry & name & Hin & Hv & -> & Hg & -> & Hlt)]%Hs'; [auto|by eapply OpenChild].
    + intros t p [Hin|(entry & name & Hin & Hv & Hp & Hg)]%Hf'; [auto|]. by exists directory, depth, entries, entry, name.
    + intros p d es entry name Hopen Hread Hin Hv. destruct (git_marker (join p name)) as [t|] eqn:Hg.
      * apply Hf'. destruct Hopen as [Hopen|[-> ->]].
        -- specialize (He _ _ _ _ _ Hopen Hread Hin Hv). rewrite Hg in He. by left.
        -- right. exists entry, name. split_and!; [congruence|done..].
      * intros Hlt. destruct Hopen as [Hopen|[-> ->]].
        -- specialize (He _ _ _ _ _ Hopen Hread Hin Hv). rewrite Hg in He. destruct (He Hlt) as [?|[?|?]%Hsplit]; [tauto|tauto|]. right. apply Hs'. by left.
        -- right. apply Hs'. right. exists entry, name. split_and!; [congruence|done..].
    + destruct Hh as [?|[[= <- <-]|?]]; [tauto..|]. right. apply Hs'. by left.
    + rewrite Hd', Hd. split; intros (p & d & H & Hden); [exists p, d; tauto|]. destruct H as [?|[-> ->]]; [by exists p, d|congruence].
  - split; cbn; [intros p d [?|[-> ->]]; auto|auto|auto| | |].
    + intros p d es entry name [Hopen|[-> ->]] Hread Hin Hv; [|congruence]. specialize (He _ _ _ _ _ Hopen Hread Hin Hv).
      destruct (git_marker _); [done|]. intros Hlt. destruct (He Hlt) as [?|[?|?]%Hsplit]; tauto.
    + destruct Hh as [?|[[= <- <-]|?]]; tauto.
    + split; [intros _; exists directory, depth; tauto|done].
  - split; cbn; [intros p d [?|[-> ->]]; auto|auto|auto| | |].
    + intros p d es entry name [Hopen|[-> ->]] Hread Hin Hv; [|congruence]. specialize (He _ _ _ _ _ Hopen Hread Hin Hv).
      destruct (git_marker _); [done|]. intros Hlt. destruct (He Hlt) as [?|[?|?]%Hsplit]; tauto.
    + destruct Hh as [?|[[= <- <-]|?]]; tauto.
    + rewrite Hd. split; intros (p & d & H & Hden); [exists p, d; tauto|]. destruct H as [?|[-> ->]]; [by exists p, d|congruence].
Qed.

Lemma walk_walk_ok home visits opened w : walk_ok home opened w -> exists opened', walk_ok home opened' (walk visits w).
Proof.
  revert opened w. induction visits as [|visits IH]; intros opened w Hok; cbn [walk]; [by exists opened|].
  destruct (wk_stack w) as [|[directory depth] stack] eqn:Hs; [by exists opened|]. eapply IH, visit_ok; [done|exact Hs].
Qed.

Lemma walk_home_ok home : exists opened, walk_ok home opened (walk_home home).
Proof.
  apply (walk_walk_ok home MAX_VISITS (fun _ _ => False)). split; cbn; try done.
  - intros directory depth [= -> ->]%list_elem_of_singleton. constructor.
  - by intros ? ? ?%not_elem_of_nil.
  - right. by left.
  - by split; [|intros (? & ? & [] & _)].
Qed.

(** What was opened when nothing is left to open. *)
Lemma openable_opened home opened w directory depth :
  walk_ok home opened w -> wk_stack w = [] -> openable home directory depth -> opened directory depth.
Proof.
  intros Hok Hs. induction 1 as [|directory depth entries entry name Hop IH Hread Hin Hv Hg Hlt].
  - destruct (wo_home _ _ _ Hok) as [?|H]; [done|]. rewrite Hs in H. by apply not_elem_of_nil in H.
  - pose proof (wo_entries _ _ _ Hok _ _ _ _ _ IH Hread Hin Hv) as H. rewrite Hg in H. destruct (H Hlt) as [?|H']; [done|].
    rewrite Hs in H'. by apply not_elem_of_nil in H'.
Qed.
End scan.

Lemma N_compare_ok : comparison_ok N.compare.
Proof.
  split; [intros; apply N.compare_eq_iff|intros; apply N.compare_antisym|]. intros x y z. rewrite !N.compare_lt_iff. lia.
Qed.

#[export] Instance nb_inj : Inj (=) (=) nb.
Proof. intros a b Hab. rewrite <- (ascii_N_embedding a), <- (ascii_N_embedding b). unfold nb in Hab. by rewrite Hab. Qed.

Lemma component_compare_ok : comparison_ok component_compare.
Proof.
  destruct (lexicographic_ok _ N_compare_ok) as [He Ho Ht]. unfold component_compare. split; [|done|by intros x y z; apply Ht].
  intros x y. rewrite He. split; [|by intros ->]. intros H%(inj (fmap nb)).
  by rewrite <- (String.string_of_list_ascii_of_string x), H, String.string_of_list_ascii_of_string.
Qed.

Lemma path_compare_ok : comparison_ok (lexicographic component_compare).
Proof. apply lexicographic_ok, component_compare_ok. Qed.

#[export] Instance listed_before_total : Total listed_before.
Proof.
  intros [t p] [u q]. unfold listed_before, before, path_compare. cbn [fst snd]. rewrite (cp_opp _ path_compare_ok (components p) (components q)).
  destruct (N.ltb_spec u t); [by left|]. destruct (N.ltb_spec t u); [by right|]. assert (t = u) as -> by lia. rewrite N.eqb_refl.
  destruct (lexicographic _ _ _); auto.
Qed.

#[export] Instance listed_before_trans : Transitive listed_before.
Proof.
  intros [t p] [u q] [v r]. unfold listed_before, before, path_compare. cbn [fst snd]. rewrite !orb_true_iff, !andb_true_iff, !N.ltb_lt, !N.eqb_eq.
  intros [?|[-> Hpq]] [?|[-> Hqr]]; [left; lia|left; lia|left; lia|]. right. split; [done|].
  destruct (lexicographic component_compare (components p) (components q)) eqn:Ep; [| |done].
  - apply (cp_eq _ path_compare_ok) in Ep as ->. done.
  - destruct (lexicographic component_compare (components q) (components r)) eqn:Eq; [| |done].
    + apply (cp_eq _ path_compare_ok) in Eq as <-. by rewrite Ep.
    + by rewrite (cp_trans _ path_compare_ok _ _ _ Ep Eq).
Qed.

(** What a bounded list leaves out comes after all it has. *)
Lemma left_out {A} (R : A -> A -> Prop) n (l : list A) x :
  StronglySorted R l -> x ∈ l -> x ∉ take n l -> length (take n l) = n /\ Forall (fun y => R y x) (take n l).
Proof.
  intros Hs Hin Hout. rewrite <- (take_drop n l) in Hin, Hs. apply elem_of_app in Hin as [?|Hin]; [done|]. split.
  - rewrite length_take. assert (length (drop n l) <> 0)%nat as H by (destruct (drop n l); [by apply not_elem_of_nil in Hin|done]).
    rewrite length_drop in H. lia.
  - clear Hout. induction (take n l) as [|y k IH]; [constructor|]. cbn in Hs. apply StronglySorted_inv in Hs as [Hs Hall]. constructor; [|by apply IH].
    rewrite Forall_forall in Hall. apply Hall, elem_of_app. by right.
Qed.

Lemma elem_of_take_elem {A} n (l : list A) x : x ∈ take n l -> x ∈ l.
Proof. intros H. rewrite <- (take_drop n l). apply elem_of_app. by left. Qed.

Section found.
Context (read_dir : string -> ReadDir) (git_marker : string -> option N).

(** C18: the list of workspaces is what it says: its at most 64 paths are checkouts at most three directories
    below home, none hidden, none in a skipped directory and none inside another checkout, the most recently
    touched first; and where the walk came to its end, nothing is missing but what was touched earlier than
    all that is listed of a full list, and [denied] says whether a directory was refused. *)
Theorem scan_finds_checkouts home :
  let scan := discover_git_workspaces read_dir git_marker home in
  exists listed,
    wsc_paths scan = snd <$> listed /\ (length listed <= MAX_RESULTS)%nat /\ StronglySorted listed_before listed
    /\ Forall (fun '(touched, path) => checkout read_dir git_marker home touched path) listed
    /\ (wk_stack (walk_home read_dir git_marker home) = [] ->
        (forall touched path, checkout read_dir git_marker home touched path -> (touched, path) ∉ listed ->
           length listed = MAX_RESULTS /\ Forall (fun other => listed_before other (touched, path)) listed)
        /\ (wsc_denied scan = true <-> exists directory depth,
              openable read_dir git_marker home directory depth /\ read_dir directory = PermissionDenied)).
Proof.
  cbv zeta. unfold discover_git_workspaces. set (w := walk_home read_dir git_marker home). set (sorted := merge_sort listed_before (wk_found w)).
  destruct (walk_home_ok read_dir git_marker home) as [opened Hok]. fold w in Hok.
  assert (StronglySorted listed_before sorted) as Hs by (apply StronglySorted_merge_sort; apply _).
  exists (take MAX_RESULTS sorted). cbn [wsc_paths wsc_denied]. split; [done|]. split; [rewrite length_take; lia|].
  split; [eapply StronglySorted_sublist; [apply sublist_take|done]|]. split.
  { rewrite Forall_forall. intros [t p] Hin%elem_of_take_elem. apply (wo_found _ _ _ _ _ Hok). unfold sorted in Hin. by rewrite merge_sort_Permutation in Hin. }
  intros Hend. split.
  - intros t p (d & n & es & e & name & Hop & Hread & Hin & Hv & -> & Hg) Hout.
    pose proof (wo_entries _ _ _ _ _ Hok _ _ _ _ _ (openable_opened _ _ _ _ _ _ _ Hok Hend Hop) Hread Hin Hv) as Hfound. rewrite Hg in Hfound.
    assert ((t, join d name) ∈ sorted) as Hmem by (unfold sorted; by rewrite merge_sort_Permutation). by apply left_out.
  - rewrite (wo_denied _ _ _ _ _ Hok). split; intros (d & n & Ho & Hden); exists d, n; (split; [|done]).
    + by apply (wo_opened _ _ _ _ _ Hok).
    + by eapply openable_opened.
Qed.
End found.

(** A home with a checkout in a directory, one in a hidden directory, and one nested in another. *)
Definition sample_dir (path : string) : ReadDir :=
  if path =s? "/home/ann" then Entries [mkDirEntry "code" (Some true); mkDirEntry ".cache" (Some true); mkDirEntry "notes.txt" (Some false)]
  else if path =s? "/home/ann/code" then Entries [mkDirEntry "app" (Some true); mkDirEntry "lib" (Some true)]
  else PermissionDenied.
Definition sample_marker (path : string) : option N :=
  if path =s? "/home/ann/code/app" then Some 5 else if path =s? "/home/ann/.cache" then Some 9 else None.

Example scan_sample :
  discover_git_workspaces sample_dir sample_marker "/home/ann" = mkWorkspaceScan ["/home/ann/code/app"] true.
Proof. by vm_compute. Qed.

(** A walk that stops at its bound says nothing of it: the list looks complete. *)
Definition wide_dir (path : string) : ReadDir :=
  if path =s? "/h" then Entries (mkDirEntry "b" (Some true) :: replicate MAX_VISITS (mkDirEntry "a" (Some true))) else Entries [].
Definition wide_marker (path : string) : option N := None.

Lemma cut_scan_looks_complete :
  wk_stack (walk_home wide_dir wide_marker "/h") = [("/h/a", 1%nat); ("/h/b", 1%nat)]
  /\ discover_git_workspaces wide_dir wide_marker "/h" = mkWorkspaceScan [] false.
Proof. split; by vm_compute. Qed.
