(* ===== verification/Terminal.v ===== *)
(** Terminal streams of [host_protocol.rs]: the frames with their validation, the binary codec, the
    decoder, the cancellation-safe reader, and the order of frames each side accepts. JSON payloads
    ([serde_json]) and base64 are parameters. *)
From S2P Require Import Prelude Text HostProtocol HostRpc Framing.

Local Open Scope N_scope.

(** ** Messages *)

Record TerminalOpen := mkTerminalOpen {
  to_v : N; to_target : string; to_session : option string; to_tab : option string; to_dimensions : Dimensions }.

Definition TerminalOpen_validated_target (o : TerminalOpen) : result HostProtocolError TerminalTarget :=
  refuse_if (negb (to_v o =? HOST_PROTOCOL_VERSION)) UnsupportedVersion ?;
  let? target := ok_or (TerminalTarget_from_wire (to_target o)) UnsupportedTarget in
  match to_session o, requires_session target with
  | None, false => Ok tt
  | Some session, true => refuse_if (negb (valid_session_name session)) InvalidTarget
  | _, _ => Err InvalidTarget
  end ?;
  opt_each (fun tab =>
    let attach := match target with TmuxAttach | HerdrAttach => true | _ => false end in
    refuse_if (negb attach || negb (valid_tab_id tab)) InvalidTarget) (to_tab o) ?;
  Dimensions_validate (to_dimensions o) ?;
  Ok target.

Definition TerminalOpen_validate (o : TerminalOpen) : verdict := rmap (fun _ => tt) (TerminalOpen_validated_target o).

Record TerminalOpened := mkTerminalOpened {
  td_v : N; td_terminal_id : string; td_dimensions : Dimensions; td_term : string }.

Record TerminalExit := mkTerminalExit {
  tx_v : N; tx_terminal_id : string; tx_kind : string; tx_code : option N; tx_signal : option string }.

Record TerminalError := mkTerminalError {
  tr_v : N; tr_terminal_id : option string; tr_code : string; tr_message : string }.

Inductive TerminalFrame :=
| Open (o : TerminalOpen) | Opened (o : TerminalOpened) | Input (data : bytes) | Output (data : bytes)
| Resize (d : Dimensions) | Close | Exit (e : TerminalExit) | Error (e : TerminalError).

Definition frame_type (frame : TerminalFrame) : N :=
  match frame with
  | Open _ => 1 | Opened _ => 2 | Input _ => 3 | Output _ => 4 | Resize _ => 5 | Close => 6 | Exit _ => 7 | Error _ => 8
  end.

Definition terminal_frame_payload_limit (frame_type : N) : result HostProtocolError N :=
  if frame_type =? 1 then Ok MAX_OPEN_PAYLOAD
  else if frame_type =? 2 then Ok MAX_OPENED_PAYLOAD
  else if (frame_type =? 3) || (frame_type =? 4) then Ok MAX_DATA_PAYLOAD
  else if frame_type =? 5 then Ok 8
  else if frame_type =? 6 then Ok 0
  else if frame_type =? 7 then Ok MAX_EXIT_PAYLOAD
  else if frame_type =? 8 then Ok MAX_ERROR_PAYLOAD
  else Err UnknownFrameType.

Definition validate_terminal_payload_length (frame_type length : N) : verdict :=
  if ((frame_type =? 3) || (frame_type =? 4)) && (length =? 0) then Err ZeroLength
  else if (frame_type =? 5) && negb (length =? 8) then Err InvalidDimensions
  else if (frame_type =? 6) && negb (length =? 0) then Err InvalidControlValue
  else if existsb (N.eqb frame_type) [1; 2; 7; 8] && (length =? 0) then Err ZeroLength
  else Ok tt.

Definition validate_terminal_payload (frame_type : N) (payload : bytes) : verdict :=
  let? limit := terminal_frame_payload_limit frame_type in
  refuse_if (limit <? len payload) FrameTooLarge ?;
  validate_terminal_payload_length frame_type (len payload).

(** ** The order of frames *)

Inductive FrameDirection := ClientToHost | HostToClient.

Definition validate_frame_direction (frame : TerminalFrame) (direction : FrameDirection) : verdict :=
  let valid := match direction, frame with
               | ClientToHost, (Open _ | Input _ | Resize _ | Close) => true
               | HostToClient, (Opened _ | Output _ | Exit _ | Error _) => true
               | _, _ => false
               end in
  refuse_if (negb valid) UnexpectedDirection.

Module Host.
Inductive HostReceiveState := AwaitingOpen | Attached | Finished.

Definition HostReceiveState_accept (self : HostReceiveState) (frame : TerminalFrame) : result HostProtocolError HostReceiveState :=
  validate_frame_direction frame ClientToHost ?;
  match self, frame with
  | AwaitingOpen, Open _ => Ok Attached
  | Attached, (Input _ | Resize _) => Ok Attached
  | Attached, Close => Ok Finished
  | _, _ => Err UnexpectedOrder
  end.
End Host.

Module Client.
Inductive ClientReceiveState := AwaitingOpened | Attached | Finished.

Definition ClientReceiveState_accept (self : ClientReceiveState) (frame : TerminalFrame) : result HostProtocolError ClientReceiveState :=
  validate_frame_direction frame HostToClient ?;
  match self, frame with
  | AwaitingOpened, Opened _ => Ok Attached
  | AwaitingOpened, Error _ => Ok Finished
  | Attached, Output _ => Ok Attached
  | Attached, (Exit _ | Error _) => Ok Finished
  | _, _ => Err UnexpectedOrder
  end.
End Client.

(** A stream read frame by frame: the state after the last one, or the first refusal. *)
Fixpoint accept_all {S} (accept : S -> TerminalFrame -> result HostProtocolError S) (state : S)
    (frames : list TerminalFrame) : result HostProtocolError S :=
  match frames with
  | [] => Ok state
  | frame :: frames => let? state := accept state frame in accept_all accept state frames
  end.

(** ** The codec *)

(** [serde_json] at one type. *)
Record Codec (T : Type) := mkCodec { to_vec : T -> option bytes; from_slice : bytes -> option T }.
Arguments mkCodec {T}.
Arguments to_vec {T}.
Arguments from_slice {T}.

(** What is written reads back. *)
Definition reads_back {T} (c : Codec T) : Prop := forall v body, to_vec c v = Some body -> from_slice c body = Some v.

Section codec.
(** [URL_SAFE_NO_PAD.decode] of the [base64] crate. *)
Context (decode_base64 : string -> option bytes).

Definition TerminalOpened_validate (o : TerminalOpened) : verdict :=
  refuse_if (negb (td_v o =? HOST_PROTOCOL_VERSION) || negb (td_term o =s? "xterm-256color")) InvalidControlValue ?;
  validate_terminal_id decode_base64 (td_terminal_id o) ?;
  Dimensions_validate (td_dimensions o).

Definition TerminalExit_validate (e : TerminalExit) : verdict :=
  refuse_if (negb (tx_v e =? HOST_PROTOCOL_VERSION)) UnsupportedVersion ?;
  validate_terminal_id decode_base64 (tx_terminal_id e) ?;
  if existsb (String.eqb (tx_kind e)) ["closed"; "server_shutdown"]%string && is_none (tx_code e) && is_none (tx_signal e)
  then Ok tt
  else if (tx_kind e =s? "exited") && is_some (tx_code e) && is_none (tx_signal e) then Ok tt
  else if (tx_kind e =s? "signaled") && is_none (tx_code e) then
    let? signal := ok_or (tx_signal e) InvalidControlValue in
    refuse_if (negb (negb (slen signal =? 0) && (slen signal <=? 32) && sall (fun b => nb b <? 128) signal))
      InvalidControlValue
  else Err InvalidControlValue.

Definition TerminalError_validate (e : TerminalError) : verdict :=
  refuse_if (negb (tr_v e =? HOST_PROTOCOL_VERSION)) UnsupportedVersion ?;
  opt_each (validate_terminal_id decode_base64) (tr_terminal_id e) ?;
  validate_code_and_message (tr_code e) (tr_message e).

Context (open_json : Codec TerminalOpen) (opened_json : Codec TerminalOpened).
Context (exit_json : Codec TerminalExit) (error_json : Codec TerminalError).

Definition json_payload {T} (c : Codec T) (validate : T -> verdict) (value : T) : result HostProtocolError bytes :=
  validate value ?; ok_or (to_vec c value) MalformedJson.

Definition frame_payload (frame : TerminalFrame) : result HostProtocolError bytes :=
  match frame with
  | Open value => json_payload open_json TerminalOpen_validate value
  | Opened value => json_payload opened_json TerminalOpened_validate value
  | Input value | Output value => Ok value
  | Resize value => encode_resize value
  | Close => Ok []
  | Exit value => json_payload exit_json TerminalExit_validate value
  | Error value => json_payload error_json TerminalError_validate value
  end.

Definition encode_terminal_frame (frame : TerminalFrame) : result HostProtocolError bytes :=
  let? payload := frame_payload frame in
  validate_terminal_payload (frame_type frame) payload ?;
  Ok (frame_type frame :: be_bytes 4 (len payload) ++ payload).

Definition strict_json {T} (c : Codec T) (validate : T -> verdict) (payload : bytes) : result HostProtocolError T :=
  let? value := ok_or (from_slice c payload) MalformedJson in validate value ?; Ok value.

Definition decode_terminal_frame (frame_type : N) (payload : bytes) : result HostProtocolError TerminalFrame :=
  validate_terminal_payload frame_type payload ?;
  if frame_type =? 1 then rmap Open (strict_json open_json TerminalOpen_validate payload)
  else if frame_type =? 2 then rmap Opened (strict_json opened_json TerminalOpened_validate payload)
  else if frame_type =? 3 then Ok (Input payload)
  else if frame_type =? 4 then Ok (Output payload)
  else if frame_type =? 5 then rmap Resize (decode_resize payload)
  else if frame_type =? 6 then Ok Close
  else if frame_type =? 7 then rmap Exit (strict_json exit_json TerminalExit_validate payload)
  else if frame_type =? 8 then rmap Error (strict_json error_json TerminalError_validate payload)
  else Err UnknownFrameType.

(** The length a five-byte header announces for its type. *)
Definition terminal_length (header : bytes) : result HostProtocolError N :=
  let frame_type := hd 0 header in
  let length := of_be_bytes (drop 1 header) in
  let? limit := terminal_frame_payload_limit frame_type in
  refuse_if (limit <? length) FrameTooLarge ?;
  validate_terminal_payload_length frame_type length ?;
  Ok length.

Definition read_terminal_frame : bytes -> result HostProtocolError (TerminalFrame * bytes) :=
  read_delimited Truncated 5 terminal_length (fun header => decode_terminal_frame (hd 0 header)).

(** One turn of the loop of [TerminalFrameDecoder::push]. *)
Definition take_terminal : bytes -> result HostProtocolError (option (TerminalFrame * bytes)) :=
  take_delimited 5 terminal_length (fun header => decode_terminal_frame (hd 0 header)).

Definition TERMINAL_MAX_BUFFERED : N := (MAX_DATA_PAYLOAD + 5) * MAX_INCOMING_BIDI_STREAMS.

(** [TerminalFrameDecoder::push]; the decoder is its buffer. *)
Definition TerminalFrameDecoder_push : bytes -> bytes -> bytes * result HostProtocolError (list TerminalFrame) :=
  push_within take_terminal FrameTooLarge TERMINAL_MAX_BUFFERED.

(** [TerminalFrameReader]: the decoder's buffer and the frames it decoded ahead. *)
Record TerminalFrameReader := mkTerminalFrameReader { tf_decoder : bytes; tf_queue : list TerminalFrame }.

(** What each [read] is asked for. *)
Definition TERMINAL_READ_CHUNK : N := 8 * 1024.

(** What polling the future of [next] comes to; dropping it while it waits leaves the reader as it is. *)
Inductive polled := Ready (r : result HostProtocolError TerminalFrame) | Pending.

Fixpoint next (r : TerminalFrameReader) (reads : list read_event) : TerminalFrameReader * list read_event * polled :=
  match tf_queue r with
  | frame :: queue => (mkTerminalFrameReader (tf_decoder r) queue, reads, Ready (Ok frame))
  | [] =>
      match reads with
      | [] => (r, [], Pending)
      | ReadBytes [] :: reads => (r, reads, Ready (Err Truncated))
      | ReadErr UnexpectedEof :: reads => (r, reads, Ready (Err Truncated))
      | ReadErr e :: reads => (r, reads, Ready (Err (Io e)))
      | ReadBytes chunk :: reads =>
          match TerminalFrameDecoder_push (tf_decoder r) chunk with
          | (decoder, Err e) => (mkTerminalFrameReader decoder [], reads, Ready (Err e))
          | (decoder, Ok frames) => next (mkTerminalFrameReader decoder frames) reads
          end
      end
  end.

(** Calling [next] until it fails or waits, and collecting what it returns. *)
Fixpoint read_all (k : nat) (r : TerminalFrameReader) (reads : list read_event)
  : list TerminalFrame * TerminalFrameReader * polled :=
  match k with
  | O => ([], r, Pending)
  | S k =>
      match next r reads with
      | (r, reads, Ready (Ok frame)) => let '(frames, r, p) := read_all k r reads in (frame :: frames, r, p)
      | (r, _, p) => ([], r, p)
      end
  end.

(** ** The decoder *)

Lemma payload_limit_bounded frame_type n : terminal_frame_payload_limit frame_type = Ok n -> n <= MAX_DATA_PAYLOAD.
Proof. unfold terminal_frame_payload_limit. repeat case_match; intros [= <-]; unfold MAX_DATA_PAYLOAD; by vm_compute. Qed.

#[export] Instance terminal_format : FrameFormat take_terminal (5 + MAX_DATA_PAYLOAD).
Proof.
  apply delimited_format; [done|]. intros header n. unfold terminal_length.
  destruct (terminal_frame_payload_limit _) as [limit|] eqn:Hl; [|done]. apply payload_limit_bounded in Hl.
  cbn [rbind]. rewrite !rbind_unit_ok, refuse_if_ok. intros (H%N.ltb_ge & _ & [= <-]). lia.
Qed.

Context (open_ok : reads_back open_json) (opened_ok : reads_back opened_json).
Context (exit_ok : reads_back exit_json) (error_ok : reads_back error_json).

Lemma json_payload_reads {T} (c : Codec T) (validate : T -> verdict) value payload :
  reads_back c -> json_payload c validate value = Ok payload -> strict_json c validate payload = Ok value.
Proof.
  unfold json_payload, strict_json. rewrite rbind_unit_ok. intros Hc [Hv Hw].
  destruct (to_vec c value) as [body|] eqn:Hb; [|done]. injection Hw as ->.
  rewrite (Hc _ _ Hb). cbn [ok_or rbind]. by rewrite Hv.
Qed.

Lemma frame_payload_decodes frame payload :
  frame_payload frame = Ok payload -> validate_terminal_payload (frame_type frame) payload = Ok tt ->
  decode_terminal_frame (frame_type frame) payload = Ok frame.
Proof.
  intros Hp Hv. unfold decode_terminal_frame. rewrite Hv.
  destruct frame; cbn [frame_payload frame_type] in *; cbn [rbind N.eqb Pos.eqb].
  1,2,7,8: by erewrite json_payload_reads by eassumption.
  - by injection Hp as ->.
  - by injection Hp as ->.
  - by rewrite (resize_roundtrip _ _ Hp).
  - done.
Qed.

(** An encoded frame at the front of a buffer is taken whole, whatever follows it. *)
Lemma encoded_taken frame encoded rest :
  encode_terminal_frame frame = Ok encoded -> take_terminal (encoded ++ rest) = Ok (Some (frame, rest)).
Proof.
  unfold encode_terminal_frame. destruct (frame_payload frame) as [payload|] eqn:Hp; [|done]. cbn [rbind].
  rewrite rbind_unit_ok. intros [Hv He].
  assert (encoded = (frame_type frame :: be_bytes 4 (len payload)) ++ payload) as -> by by injection He as <-.
  apply take_delimited_app; [done| |by apply frame_payload_decodes].
  unfold terminal_length. cbn [hd drop]. pose proof Hv as Hv'. unfold validate_terminal_payload in Hv'.
  destruct (terminal_frame_payload_limit _) as [limit|] eqn:Hl; [|done]. cbn [rbind] in *.
  rewrite rbind_unit_ok, refuse_if_ok in Hv'. destruct Hv' as [Hlen%N.ltb_ge Hv']. apply payload_limit_bounded in Hl.
  change (drop 0 ?x) with x. rewrite of_be_bytes_be_bytes, N.mod_small by (unfold MAX_DATA_PAYLOAD in *; simpl; lia).
  cbv zeta. rewrite (proj2 (N.ltb_ge _ _)) by done. cbn [refuse_if rbind]. by rewrite Hv'.
Qed.

Lemma drain_encoded_frames frames encoded :
  Forall2 (fun frame bytes => encode_terminal_frame frame = Ok bytes) frames encoded ->
  drain take_terminal (mjoin encoded) = ([], Ok frames).
Proof.
  induction 1 as [|frame b frames encoded He H IH]; [done|].
  change (mjoin (b :: encoded)) with (b ++ mjoin encoded). rewrite (drain_step take_terminal (b ++ _)).
  by rewrite (encoded_taken _ _ _ He), IH.
Qed.

(** ** The reader *)

(** A read the transport completes: some bytes, no more than the buffer it was given. *)
Definition read_chunk (chunk : bytes) : Prop := chunk <> [] /\ len chunk <= TERMINAL_READ_CHUNK.

(** A reader between calls: its decoder holds less than a frame. *)
Definition reader_waits (r : TerminalFrameReader) : Prop := take_terminal (tf_decoder r) = Ok None.

(** The frames a reader and the reads still to come hold. *)
Definition ahead (r : TerminalFrameReader) (chunks : list bytes) (frames : list TerminalFrame) : Prop :=
  exists later, drain take_terminal (tf_decoder r ++ mjoin chunks) = ([], Ok later) /\ frames = tf_queue r ++ later.

Lemma next_ahead r chunks frames :
  reader_waits r -> Forall read_chunk chunks -> ahead r chunks frames ->
  match frames with
  | [] => next r (stream_of chunks) = (mkTerminalFrameReader [] [], [], Pending)
  | frame :: frames =>
      exists r' left, next r (stream_of chunks) = (r', stream_of left, Ready (Ok frame))
      /\ reader_waits r' /\ Forall read_chunk left /\ ahead r' left frames
  end.
Proof.
  intros Hw Hc. revert r Hw. induction Hc as [|chunk chunks [Hne Hlen] Hc IH]; intros [decoder queue] Hw (later & Hd & ->);
    cbn [tf_decoder tf_queue] in *; destruct queue as [|frame queue].
  - unfold reader_waits in Hw. cbn [tf_decoder] in Hw. cbn [mjoin list_join] in Hd. rewrite app_nil_r in Hd.
    rewrite (drain_step take_terminal decoder), Hw in Hd. by injection Hd as -> <-.
  - cbn [app]. exists (mkTerminalFrameReader decoder queue), []. by split_and!; [..|exists later].
  - change (mjoin (chunk :: chunks)) with (chunk ++ mjoin chunks) in Hd. rewrite app_assoc in Hd.
    pose proof (drain_app take_terminal (decoder ++ chunk) (mjoin chunks)) as Happ.
    assert (next (mkTerminalFrameReader decoder []) (stream_of (chunk :: chunks))
            = match drain take_terminal (decoder ++ chunk) with
              | (b, Err e) => (mkTerminalFrameReader b [], stream_of chunks, Ready (Err e))
              | (b, Ok frames) => next (mkTerminalFrameReader b frames) (stream_of chunks)
              end) as Hn.
    { cbn [stream_of fmap list_fmap next tf_queue tf_decoder]. destruct chunk as [|x chunk]; [done|].
      unfold TerminalFrameDecoder_push, push_within. rewrite (proj2 (N.ltb_ge _ _)); [done|].
      pose proof (wait_bounded (take_frame := take_terminal) decoder Hw).
      unfold TERMINAL_MAX_BUFFERED, TERMINAL_READ_CHUNK, MAX_DATA_PAYLOAD, MAX_INCOMING_BIDI_STREAMS in *. lia. }
    rewrite Hn. destruct (drain take_terminal (decoder ++ chunk)) as [b [fs|e]] eqn:Hb.
    + rewrite Hd in Happ. destruct (drain take_terminal (b ++ mjoin chunks)) as [b' [later'|]] eqn:Hb'; [|done].
      injection Happ as <- ->. apply (drain_waits take_terminal) in Hb.
      change ([] ++ fs ++ later') with (fs ++ later').
      apply (IH (mkTerminalFrameReader b fs)); [exact Hb|]. by exists later'.
    + by rewrite Hd in Happ.
  - cbn [app]. exists (mkTerminalFrameReader decoder queue), (chunk :: chunks).
    split_and!; [done|done|by constructor|by exists later].
Qed.

Lemma read_all_step k r reads :
  read_all (S k) r reads = match next r reads with
                           | (r, reads, Ready (Ok frame)) =>
                               let '(frames, r, p) := read_all k r reads in (frame :: frames, r, p)
                           | (r, _, p) => ([], r, p)
                           end.
Proof. done. Qed.

(** C30: whatever frames the peer sends, and however the network cuts them into reads, the terminal
    reader returns exactly those frames, in order, and then waits with nothing left over. A dropped
    [next] future changes none of it: what it has read is in the reader. *)
Theorem terminal_reader_roundtrip frames encoded chunks :
  Forall2 (fun frame bytes => encode_terminal_frame frame = Ok bytes) frames encoded ->
  Forall read_chunk chunks -> mjoin chunks = mjoin encoded ->
  read_all (S (length frames)) (mkTerminalFrameReader [] []) (stream_of chunks)
  = (frames, mkTerminalFrameReader [] [], Pending).
Proof.
  intros He Hc Heq.
  cut (forall r, reader_waits r -> ahead r chunks frames ->
    read_all (S (length frames)) r (stream_of chunks) = (frames, mkTerminalFrameReader [] [], Pending)).
  { intros H. apply H; [done|]. exists frames. cbn [tf_decoder tf_queue app]. rewrite Heq.
    split; [by apply drain_encoded_frames|done]. }
  clear He Heq. revert chunks Hc. induction frames as [|frame frames IH]; intros chunks Hc r Hr Ha;
    pose proof (next_ahead r chunks _ Hr Hc Ha) as Hn.
  - cbn [length read_all]. by rewrite Hn.
  - destruct Hn as (r' & left & Hn & Hr' & Hl & Ha').
    specialize (IH left Hl r' Hr' Ha'). cbn [length]. rewrite read_all_step, Hn. by rewrite IH.
Qed.

(** Reading frames with the two readers the program has comes to the same: a turn of the decoder
    gives the frame [read_terminal_frame] gives, refuses what it refuses with the same error, and waits
    exactly where it calls the stream truncated. *)
Theorem take_terminal_agrees buffer :
  read_terminal_frame buffer = match take_terminal buffer with
                               | Ok (Some frame) => Ok frame | Ok None => Err Truncated | Err e => Err e end.
Proof. apply take_delimited_read. Qed.

Lemma next_read chunk reads :
  0 < len chunk <= TERMINAL_READ_CHUNK ->
  next (mkTerminalFrameReader [] []) (ReadBytes chunk :: reads)
  = match drain take_terminal chunk with
    | (b, Err e) => (mkTerminalFrameReader b [], reads, Ready (Err e))
    | (b, Ok frames) => next (mkTerminalFrameReader b frames) reads
    end.
Proof.
  intros [H0 H1]. cbn [next tf_queue tf_decoder]. destruct chunk as [|x chunk]; [done|].
  unfold TerminalFrameDecoder_push, push_within. rewrite (proj2 (N.ltb_ge _ _)); [done|]. rewrite len_nil.
  unfold TERMINAL_MAX_BUFFERED, TERMINAL_READ_CHUNK, MAX_DATA_PAYLOAD, MAX_INCOMING_BIDI_STREAMS in *. lia.
Qed.

Lemma drain_encoded_then frame encoded rest :
  encode_terminal_frame frame = Ok encoded ->
  drain take_terminal (encoded ++ rest) = (let '(b, r) := drain take_terminal rest in (b, rmap (cons frame) r)).
Proof. intros He. by rewrite (drain_step take_terminal), (encoded_taken _ _ _ He). Qed.

(** A frame that cannot be decoded costs the frames that arrived in the same read: cut in one chunk
    the reader refuses the stream at once, cut in two it first returns the valid frame — as
    [read_terminal_frame] does on the same bytes. *)
Theorem refused_frame_costs_its_read frame encoded refused e :
  encode_terminal_frame frame = Ok encoded -> take_terminal refused = Err e ->
  len encoded + len refused <= TERMINAL_READ_CHUNK ->
  read_terminal_frame (encoded ++ refused) = Ok (frame, refused)
  /\ read_all 2 (mkTerminalFrameReader [] []) (stream_of [encoded ++ refused])
     = ([], mkTerminalFrameReader refused [], Ready (Err e))
  /\ read_all 2 (mkTerminalFrameReader [] []) (stream_of [encoded; refused])
     = ([frame], mkTerminalFrameReader refused [], Ready (Err e)).
Proof.
  intros He Hr Hlen.
  assert (0 < len encoded) as Hpos.
  { unfold encode_terminal_frame in He. destruct (frame_payload frame); [|done]. cbn [rbind] in He.
    destruct (validate_terminal_payload _ _); [|done]. injection He as <-. rewrite len_cons. lia. }
  assert (refused <> []) as Hne by by intros ->.
  assert (0 < len refused) by (destruct refused; [done|rewrite len_cons; lia]).
  assert (drain take_terminal refused = (refused, Err e)) as Hd by by rewrite (drain_step take_terminal), Hr.
  split_and!.
  - unfold read_terminal_frame. rewrite take_delimited_read. fold take_terminal. by rewrite (encoded_taken _ _ _ He).
  - cbn [stream_of fmap list_fmap]. rewrite read_all_step, next_read by (rewrite len_app; lia).
    by rewrite (drain_encoded_then _ _ _ He), Hd.
  - cbn [stream_of fmap list_fmap]. rewrite read_all_step, next_read by lia.
    pose proof (drain_encoded_then _ _ [] He) as Hd'. rewrite app_nil_r in Hd'. rewrite Hd'.
    change (drain take_terminal []) with (([] : bytes), Ok [] : result HostProtocolError (list TerminalFrame)).
    cbn [rmap next tf_queue tf_decoder]. rewrite read_all_step, next_read by lia. by rewrite Hd.
Qed.

(** Whatever a client sends, a terminal reader's memory stays bounded: between calls it holds less
    than a frame at the bound, during one at most a read more. *)
Theorem terminal_buffer_bounded r reads r' left p :
  Forall (fun event => len (event_bytes event) <= TERMINAL_READ_CHUNK) reads ->
  len (tf_decoder r) < 5 + MAX_DATA_PAYLOAD -> next r reads = (r', left, p) ->
  len (tf_decoder r') < 5 + MAX_DATA_PAYLOAD + TERMINAL_READ_CHUNK
  /\ ((forall e, p <> Ready (Err e)) -> len (tf_decoder r') < 5 + MAX_DATA_PAYLOAD).
Proof.
  intros Hreads. revert r. induction Hreads as [|event reads He Hreads IH]; intros [decoder queue] Hb; cbn [next tf_queue];
    destruct queue as [|frame queue].
  1,2,4: intros [= <- <- <-]; split; [cbn in *; lia|done].
  cbn [tf_decoder] in *.
  assert (forall res, (mkTerminalFrameReader decoder [], reads, res) = (r', left, p) ->
    len (tf_decoder r') < 5 + MAX_DATA_PAYLOAD + TERMINAL_READ_CHUNK
    /\ ((forall e, p <> Ready (Err e)) -> len (tf_decoder r') < 5 + MAX_DATA_PAYLOAD)) as Hstop.
  { intros res [= <- <- <-]. cbn [tf_decoder]. split; [lia|done]. }
  destruct event as [[|x chunk]|[]]; [by apply Hstop| |by apply Hstop..]. cbn [event_bytes] in He.
  unfold TerminalFrameDecoder_push, push_within. rewrite (proj2 (N.ltb_ge _ _)).
  2: { unfold TERMINAL_MAX_BUFFERED, TERMINAL_READ_CHUNK, MAX_DATA_PAYLOAD, MAX_INCOMING_BIDI_STREAMS in *. lia. }
  pose proof (drain_bounds take_terminal (decoder ++ x :: chunk)) as [H1 H2]. rewrite len_app in H1.
  destruct (drain take_terminal (decoder ++ x :: chunk)) as [b [frames|e]]; cbn [fst snd] in *.
  - apply IH. cbn [tf_decoder]. by apply H2.
  - intros [= <- <- <-]. cbn [tf_decoder]. split; [lia|]. intros Hp. by destruct (Hp e).
Qed.
End codec.

(** ** The order of frames each side accepts *)

Definition client_sends (frame : TerminalFrame) : bool :=
  match frame with Input _ | Resize _ => true | _ => false end.
Definition is_output (frame : TerminalFrame) : bool := match frame with Output _ => true | _ => false end.
Definition ends_stream (frame : TerminalFrame) : bool := match frame with Exit _ | Error _ => true | _ => false end.

(** A state no frame leaves with success accepts the empty stream alone. *)
Lemma accept_all_stuck {S} accept (stuck : S) frames state :
  (forall frame, is_err (accept stuck frame) = true) ->
  accept_all accept stuck frames = Ok state <-> frames = [] /\ state = stuck.
Proof.
  intros Hs. destruct frames as [|frame frames]; cbn; [split; [by intros [= ->]|by intros [_ ->]]|].
  specialize (Hs frame). destruct (accept stuck frame); [done|]. by split; [|intros [? _]].
Qed.

(** A state that stays while frames are of one kind and leaves on another kind to a stuck one. *)
Lemma accept_all_loop {S} accept (loop stuck : S) (stays leaves : TerminalFrame -> bool) frames state :
  (forall frame, is_err (accept stuck frame) = true) ->
  (forall frame, accept loop frame = Ok loop /\ stays frame = true /\ leaves frame = false
                 \/ accept loop frame = Ok stuck /\ stays frame = false /\ leaves frame = true
                 \/ is_err (accept loop frame) = true /\ stays frame = false /\ leaves frame = false) ->
  accept_all accept loop frames = Ok state
  <-> (state = loop /\ forallb stays frames = true)
      \/ (state = stuck /\ exists middle last, frames = middle ++ [last] /\ forallb stays middle = true /\ leaves last = true).
Proof.
  intros Hs Hl. revert state. induction frames as [|frame frames IH]; intros state; cbn [accept_all forallb].
  - split; [intros [= <-]; by left|]. intros [[-> _]|(_ & middle & last & H & _)]; [done|by destruct middle].
  - destruct (Hl frame) as [(-> & Hst & Hle)|[(-> & Hst & Hle)|(Herr & Hst & Hle)]]; rewrite Hst; cbn [rbind andb].
    + rewrite IH. split; (intros [H|(-> & middle & last & Heq & Hm & Hlast)]; [by left|right; split; [done|]]).
      * exists (frame :: middle), last. subst. cbn. by rewrite Hst.
      * destruct middle as [|m middle]; injection Heq as -> ->; [congruence|].
        exists middle, last. by apply andb_true_iff in Hm as [_ Hm].
    + rewrite accept_all_stuck by done. split.
      * intros [-> ->]. right. split; [done|]. by exists [], frame.
      * intros [[_ H]|(-> & middle & last & Heq & Hm & _)]; [done|].
        destruct middle as [|m middle]; injection Heq as -> ->; [done|]. cbn in Hm. by rewrite Hst in Hm.
    + destruct (accept loop frame); [done|]. split; [done|].
      intros [[_ H]|(-> & middle & last & Heq & Hm & Hlast)]; [done|].
      destruct middle as [|m middle]; injection Heq as -> ->; [congruence|]. cbn in Hm. by rewrite Hst in Hm.
Qed.

(** The host reads a terminal stream exactly as the protocol orders it — one open, then input and
    resizes, then a close, and nothing after — and refuses at the first frame out of place. *)
Theorem host_accepts_iff frames state :
  accept_all Host.HostReceiveState_accept Host.AwaitingOpen frames = Ok state
  <-> match state with
      | Host.AwaitingOpen => frames = []
      | Host.Attached => exists o middle, frames = Open o :: middle /\ forallb client_sends middle = true
      | Host.Finished => exists o middle, frames = Open o :: middle ++ [Close] /\ forallb client_sends middle = true
      end.
Proof.
  destruct frames as [|frame frames].
  { cbn. split; [by intros [= <-]|]. destruct state; [done|by intros (o & middle & H & _)..]. }
  cbn [accept_all]. destruct frame; cbn [Host.HostReceiveState_accept validate_frame_direction negb refuse_if rbind];
    try (split; [done|]; by destruct state; [|intros (o' & middle & H & _)..]).
  rewrite (accept_all_loop Host.HostReceiveState_accept Host.Attached Host.Finished client_sends
             (fun frame => match frame with Close => true | _ => false end)) by
    (intros []; cbn; by auto 10).
  destruct state.
  - by split; [intros [[? _]|[? _]]|].
  - split; [intros [[_ H]|[? _]]; [by eauto|done]|]. intros (o' & middle & [= -> ->] & H). by left.
  - split.
    + intros [[? _]|(_ & middle & last & -> & H & Hl)]; [done|]. destruct last; try done. by eauto.
    + intros (o' & middle & [= -> ->] & H). right. split; [done|]. by exists middle, Close.
Qed.

(** The client reads a terminal stream exactly as the protocol orders it: an error alone when the
    open failed, or else one opened, output, and one exit or error that ends it. *)
Theorem client_accepts_iff frames state :
  accept_all Client.ClientReceiveState_accept Client.AwaitingOpened frames = Ok state
  <-> match state with
      | Client.AwaitingOpened => frames = []
      | Client.Attached => exists o middle, frames = Opened o :: middle /\ forallb is_output middle = true
      | Client.Finished =>
          (exists e, frames = [Error e])
          \/ exists o middle last, frames = Opened o :: middle ++ [last] /\ forallb is_output middle = true
             /\ ends_stream last = true
      end.
Proof.
  destruct frames as [|frame frames].
  { cbn. split; [by intros [= <-]|]. destruct state; [done|by intros (o & middle & H & _)|].
    by intros [[e H]|(o & middle & last & H & _)]. }
  cbn [accept_all]. destruct frame; cbn [Client.ClientReceiveState_accept validate_frame_direction negb refuse_if rbind];
    try (split; [done|]; destruct state;
         [done|by intros (o' & middle & H & _)|by intros [[e' H]|(o' & middle & last & H & _)]]).
  - rewrite (accept_all_loop Client.ClientReceiveState_accept Client.Attached Client.Finished is_output ends_stream) by
      (intros []; cbn; by auto 10).
    destruct state.
    + by split; [intros [[? _]|[? _]]|].
    + split; [intros [[_ H]|[? _]]; [by eauto|done]|]. intros (o' & middle & [= -> ->] & H). by left.
    + split.
      * intros [[? _]|(_ & middle & last & -> & H & Hl)]; [done|]. right. by eauto 10.
      * intros [[e H]|(o' & middle & last & [= -> ->] & H & Hl)]; [done|]. right. split; [done|]. by exists middle, last.
  - rewrite accept_all_stuck by (by intros []). destruct state.
    + by split; [intros [_ ?]|].
    + split; [by intros [_ ?]|]. by intros (o' & middle & H & _).
    + split; [intros [-> _]; left; by eexists|].
      intros [[e' [= -> ->]]|(o' & middle & last & H & _)]; done.
Qed.
