(* ===== verification/Qr.v ===== *)
(** The pairing code of [qr.rs]: the offer packed into a URI and read back. Base64, the endpoint's key
    and the relay's URL belong to other crates and are parameters. *)
From S2P Require Import Prelude Text.

Local Open Scope N_scope.

Definition QR_URI_PREFIX : string := "ciao://pair/".
Definition QR_FORMAT_VERSION : N := 2.
Definition HEADER_LEN : N := 85.
Definition MAX_RELAY_URL_LEN : N := 128.
Definition MAX_QR_PAYLOAD : N := HEADER_LEN + MAX_RELAY_URL_LEN.
Definition MAX_QR_URI : N := slen QR_URI_PREFIX + (MAX_QR_PAYLOAD + 2) / 3 * 4.

Inductive QrError :=
| UriTooLong | WrongScheme | PayloadTooLong | Malformed | UnsupportedVersion | InvalidTicket | QrExpired | QrCapacity.

#[export] Instance QrError_eq_dec : EqDecision QrError.
Proof. solve_decision. Defined.

Definition contains_any (codes : list N) (value : string) : bool :=
  existsb (fun b => existsb (N.eqb (nb b)) codes) (String.list_ascii_of_string value).

Section qr.
(** [URL_SAFE_NO_PAD] of the [base64] crate. *)
Context (encode_base64 : bytes -> string) (decode_base64 : string -> option bytes).

(** The [n] bytes an unpadded base64url text stands for. *)
Definition decode_exact (n : N) (value : string) : option bytes :=
  if (slen value =? 0) || contains_any [61] value then None
  else decoded ← decode_base64 value; if len decoded =? n then Some decoded else None.

Definition bytes_ok : bytes -> Prop := Forall (fun b => b < 256).

(** What is relied on of base64url: the text of [n] bytes takes no more than four characters for each
    three of them, none reserved, and reads back. *)
Record base64_ok : Prop := {
  base64_reads b : bytes_ok b -> decode_base64 (encode_base64 b) = Some b;
  base64_short b : slen (encode_base64 b) <= (len b + 2) / 3 * 4;
  base64_plain b : contains_any [61; 47; 43; 63; 35] (encode_base64 b) = false;
  base64_nonempty b : b <> [] -> encode_base64 b <> ""%string
}.

Lemma contains_any_incl codes codes' s : codes ⊆ codes' -> contains_any codes' s = false -> contains_any codes s = false.
Proof.
  intros Hsub. unfold contains_any. rewrite <- !not_true_iff_false, !existsb_exists. setoid_rewrite existsb_exists.
  intros Hn (b & Hb & c & Hc & Hbc). apply Hn. exists b. split; [done|]. exists c. split; [|done].
  apply list_elem_of_In, Hsub. by apply list_elem_of_In.
Qed.

Lemma decode_exact_encoded b n : base64_ok -> bytes_ok b -> len b = n -> 0 < n -> decode_exact n (encode_base64 b) = Some b.
Proof.
  intros [] Hb Hn Hpos. unfold decode_exact.
  rewrite (contains_any_incl [61] [61; 47; 43; 63; 35]), base64_reads0, orb_false_r by (done || set_solver).
  assert (encode_base64 b <> ""%string) as Hne by (apply base64_nonempty0; intros ->; rewrite len_nil in Hn; lia).
  rewrite (proj2 (N.eqb_neq (slen _) 0)) by (by intros H%slen_nil_inv). cbn. by rewrite Hn, N.eqb_refl.
Qed.

(** The keys and relay URLs of the [iroh] crate, as the bytes they are written with. *)
Context {EndpointId RelayUrl : Type}.
Context (as_bytes : EndpointId -> bytes) (from_bytes : bytes -> option EndpointId).
Context (url_bytes : RelayUrl -> bytes) (url_from_bytes : bytes -> option RelayUrl).

(** [EndpointTicket]: the endpoint and the relays it advertises. *)
Record EndpointTicket := mkEndpointTicket { et_id : EndpointId; et_relay_urls : list RelayUrl }.

Record DecodedPairingOffer := mkDecodedPairingOffer {
  do_ticket : EndpointTicket; do_pairing_id : bytes; do_capability : bytes; do_expires_at : N }.

Definition offer_payload (id : EndpointId) (relay : RelayUrl) (pairing_id capability : bytes) (expires_at : N) : bytes :=
  QR_FORMAT_VERSION :: pairing_id ++ capability ++ be_bytes 4 expires_at ++ as_bytes id ++ url_bytes relay.

Definition encode_pairing_uri (ticket : EndpointTicket) (pairing_id capability : bytes) (expires_at : N)
  : result QrError string :=
  let? relay := ok_or (head (et_relay_urls ticket)) InvalidTicket in
  refuse_if (u32_max <? expires_at) Malformed ?;
  let payload := offer_payload (et_id ticket) relay pairing_id capability expires_at in
  refuse_if (MAX_QR_PAYLOAD <? len payload) PayloadTooLong ?;
  Ok (QR_URI_PREFIX ++ encode_base64 payload)%string.

Definition field (payload : bytes) (start end_ : nat) : bytes := take (end_ - start) (drop start payload).

Definition decode_pairing_uri (uri : string) (now_unix : N) : result QrError DecodedPairingOffer :=
  refuse_if (MAX_QR_URI <? slen uri) UriTooLong ?;
  let? encoded := ok_or (if starts_with uri QR_URI_PREFIX then Some (sdrop (String.length QR_URI_PREFIX) uri) else None)
                    WrongScheme in
  refuse_if ((slen encoded =? 0) || contains_any [61; 47; 43; 63; 35] encoded) Malformed ?;
  let? payload := ok_or (decode_base64 encoded) Malformed in
  refuse_if (MAX_QR_PAYLOAD <? len payload) PayloadTooLong ?;
  refuse_if (len payload <=? HEADER_LEN) Malformed ?;
  refuse_if (negb (hd 0 payload =? QR_FORMAT_VERSION)) UnsupportedVersion ?;
  let expires_at := of_be_bytes (field payload 49 53) in
  let? id := ok_or (from_bytes (field payload 53 85)) InvalidTicket in
  let? relay := ok_or (url_from_bytes (drop 85 payload)) InvalidTicket in
  refuse_if (expires_at <=? now_unix) QrExpired ?;
  Ok (mkDecodedPairingOffer (mkEndpointTicket id [relay]) (field payload 1 17) (field payload 17 49) expires_at).

(** ** The round trip *)

(** And of the endpoint's crate: a key is 32 bytes and reads back; a relay URL is not empty and reads back. *)
Record codecs_ok : Prop := {
  payload_base64 : base64_ok;
  key_reads id : from_bytes (as_bytes id) = Some id;
  key_length id : length (as_bytes id) = 32%nat;
  key_bytes id : bytes_ok (as_bytes id);
  url_reads url : url_from_bytes (url_bytes url) = Some url;
  url_nonempty url : url_bytes url <> [];
  url_is_bytes url : bytes_ok (url_bytes url)
}.

Lemma starts_with_app prefix s : starts_with (prefix +:+ s)%string prefix = true.
Proof.
  unfold starts_with. induction prefix as [|b prefix IH]; [by destruct s|]. cbn. by destruct (ascii_dec b b).
Qed.

(** Where the fields of a payload lie. *)
Lemma offer_payload_fields id relay pairing_id capability expires_at :
  length pairing_id = 16%nat -> length capability = 32%nat -> length (as_bytes id) = 32%nat ->
  let payload := offer_payload id relay pairing_id capability expires_at in
  field payload 1 17 = pairing_id /\ field payload 17 49 = capability /\ field payload 49 53 = be_bytes 4 expires_at
  /\ field payload 53 85 = as_bytes id /\ drop 85 payload = url_bytes relay
  /\ len payload = HEADER_LEN + len (url_bytes relay).
Proof.
  intros Hid Hcap Hkey payload. unfold field.
  assert (drop 1 payload = pairing_id ++ capability ++ be_bytes 4 expires_at ++ as_bytes id ++ url_bytes relay) as D1 by done.
  assert (drop 17 payload = capability ++ be_bytes 4 expires_at ++ as_bytes id ++ url_bytes relay) as D17.
  { change 17%nat with (1 + 16)%nat. rewrite <- drop_drop, D1. by apply drop_app_length'. }
  assert (drop 49 payload = be_bytes 4 expires_at ++ as_bytes id ++ url_bytes relay) as D49.
  { change 49%nat with (17 + 32)%nat. rewrite <- drop_drop, D17. by apply drop_app_length'. }
  assert (drop 53 payload = as_bytes id ++ url_bytes relay) as D53.
  { change 53%nat with (49 + 4)%nat. rewrite <- drop_drop, D49. by apply drop_app_length'. }
  assert (drop 85 payload = url_bytes relay) as D85.
  { change 85%nat with (53 + 32)%nat. rewrite <- drop_drop, D53. by apply drop_app_length'. }
  rewrite D1, D17, D49, D53, D85. split_and!; [by apply take_app_length'..|done|].
  unfold payload, offer_payload. rewrite len_cons, !len_app. unfold len at 1 2 3 4, HEADER_LEN.
  rewrite Hid, Hcap, Hkey, be_bytes_length. lia.
Qed.

(** A pairing code that was written reads back, until it expires, as the offer it was written for:
    the same pairing id, capability and expiry, and the host's key with the relay to dial. *)
Theorem pairing_uri_roundtrip ticket pairing_id capability expires_at now uri :
  codecs_ok -> bytes_ok pairing_id -> bytes_ok capability ->
  length pairing_id = 16%nat -> length capability = 32%nat -> now < expires_at ->
  encode_pairing_uri ticket pairing_id capability expires_at = Ok uri ->
  exists relay, head (et_relay_urls ticket) = Some relay
  /\ decode_pairing_uri uri now
     = Ok (mkDecodedPairingOffer (mkEndpointTicket (et_id ticket) [relay]) pairing_id capability expires_at).
Proof.
  intros [[] ? ? ? ? ? ?] Hidb Hcapb Hid Hcap Hnow. unfold encode_pairing_uri. destruct (head (et_relay_urls ticket)) as [relay|]; [|done].
  cbn [ok_or rbind]. rewrite !rbind_unit_ok, !refuse_if_ok, !N.ltb_ge. intros (Hexp & Hlen & Huri).
  exists relay. split; [done|]. unfold decode_pairing_uri.
  destruct (offer_payload_fields (et_id ticket) relay pairing_id capability expires_at Hid Hcap (key_length0 _))
    as (F1 & F17 & F49 & F53 & F85 & Hl).
  assert (hd 0 (offer_payload (et_id ticket) relay pairing_id capability expires_at) = QR_FORMAT_VERSION) as Hv by done.
  assert (offer_payload (et_id ticket) relay pairing_id capability expires_at <> []) as Hne by done.
  assert (bytes_ok (offer_payload (et_id ticket) relay pairing_id capability expires_at)) as Hbytes.
  { constructor; [done|]. unfold bytes_ok in *. rewrite !Forall_app. by split_and!; [..|apply be_bytes_byte|apply key_bytes0|apply url_is_bytes0]. }
  set (payload := offer_payload _ _ _ _ _) in *. clearbody payload.
  assert (uri = (QR_URI_PREFIX ++ encode_base64 payload)%string) as -> by congruence.
  assert (slen (encode_base64 payload) <= (MAX_QR_PAYLOAD + 2) / 3 * 4) as Hshort.
  { etrans; [apply base64_short0|]. apply N.mul_le_mono_r, N.Div0.div_le_mono. lia. }
  rewrite slen_app, starts_with_app, sdrop_app, (proj2 (N.ltb_ge MAX_QR_URI _)) by (done || by unfold MAX_QR_URI; lia).
  cbn [refuse_if rbind ok_or]. rewrite base64_plain0, orb_false_r, (proj2 (N.eqb_neq (slen _) 0)).
  2: { apply base64_nonempty0 in Hne. destruct (encode_base64 payload); [done|]. unfold slen. cbn [String.length]. lia. }
  cbn [refuse_if rbind]. rewrite base64_reads0 by done. cbn [ok_or rbind]. rewrite (proj2 (N.ltb_ge MAX_QR_PAYLOAD _)) by done.
  rewrite Hl, (proj2 (N.leb_gt _ HEADER_LEN)).
  2: { pose proof (url_nonempty0 relay). destruct (url_bytes relay); [done|]. rewrite len_cons. lia. }
  rewrite Hv, F1, F17, F49, F53, F85, key_reads0, url_reads0. cbn [refuse_if rbind ok_or N.eqb negb].
  rewrite of_be_bytes_be_bytes, N.mod_small by (unfold u32_max in *; simpl; lia). cbv zeta.
  by rewrite (proj2 (N.leb_gt expires_at now)) by done.
Qed.
End qr.
