(* ===== verification/PrivateFile.v ===== *)
(** Private files of [storage.rs]: who may read one, and how one is replaced so that a failure at any point
    leaves the old file or the new. *)
From S2P Require Import Prelude.

Local Open Scope N_scope.

Inductive FileError := NotRegularFile | WrongOwner | InsecurePermissions | HardLinked | WriteError.

(** [r.map_err(f)]. *)
Definition map_err {E E' A} (f : E -> E') (r : result E A) : result E' A :=
  match r with Ok x => Ok x | Err e => Err (f e) end.

Record FileMetadata := mkFileMetadata {
  fm_is_file : bool; fm_is_symlink : bool; fm_uid : N; fm_mode : N; fm_nlink : N }.

(** What is at the path: what [symlink_metadata] says of it and what [fs::read] gives. *)
Inductive Disk :=
| NotFound
| Uninspectable
| Present (metadata : FileMetadata) (contents : option bytes).

Definition validate_private_file (effective_uid : N) (metadata : FileMetadata) : result FileError unit :=
  refuse_if (negb (fm_is_file metadata) || fm_is_symlink metadata) NotRegularFile ?;
  refuse_if (negb (fm_uid metadata =? effective_uid)) WrongOwner ?;
  refuse_if (negb (N.land (fm_mode metadata) 511 =? 384)) InsecurePermissions ?;
  refuse_if (negb (fm_nlink metadata =? 1)) HardLinked.

(** The calls of [atomic_write_private] that can fail. *)
Inductive write_step := OpenTemporary | SetPermissions | WriteAll | SyncFile | Rename | SyncDirectory.

#[export] Instance write_step_eq_dec : EqDecision write_step.
Proof. solve_decision. Defined.

Definition private_file (effective_uid : N) (contents : bytes) : Disk :=
  Present (mkFileMetadata true false effective_uid 33152 1) (Some contents).

(** The file is replaced once [rename] succeeded, whatever the call returns. *)
Definition atomic_write_private (effective_uid : N) (failed_at : option write_step) (contents : bytes) (disk : Disk)
  : Disk * result FileError unit :=
  match failed_at with
  | None => (private_file effective_uid contents, Ok tt)
  | Some SyncDirectory => (private_file effective_uid contents, Err WriteError)
  | Some _ => (disk, Err WriteError)
  end.

(** A write leaves the new file or the old one, and the old one only when it says so. *)
Lemma atomic_write_cases effective_uid failed_at contents disk disk' r :
  atomic_write_private effective_uid failed_at contents disk = (disk', r) ->
  (disk' = private_file effective_uid contents /\ (r = Ok tt \/ failed_at = Some SyncDirectory))
  \/ (disk' = disk /\ is_err r = true).
Proof. unfold atomic_write_private. destruct failed_at as [[]|]; intros [= <- <-]; auto. Qed.

Lemma private_file_valid effective_uid :
  validate_private_file effective_uid (mkFileMetadata true false effective_uid 33152 1) = Ok tt.
Proof. unfold validate_private_file. cbn. by rewrite N.eqb_refl. Qed.
