(* ===== verification/Drift.v ===== *)
(** The drift ledger of [drift.rs]: which shapes of vendor input this build did not recognize, tallied within
    bounds and kept in a private file. JSON is a parameter. *)
From S2P Require Import Prelude Text PrivateFile.

Local Open Scope N_scope.

Definition LEDGER_FILE_VERSION : N := 1.
Definition MAX_SIGNATURES_PER_VENDOR : N := 64.
Definition MAX_NAME_BYTES : N := 48.
Definition MAX_LEDGER_BYTES : N := 64 * 1024.
Definition FLUSH_INTERVAL_SECS : N := 30.

Record DriftSignature := mkDriftSignature {
  sg_surface : string; sg_kind : string; sg_name : string; sg_count : N; sg_first_seen : N; sg_last_seen : N;
  sg_seen_at_version : option string }.

Record VendorDrift := mkVendorDrift { vd_signatures : list DriftSignature; vd_overflow : N }.

Definition VendorDrift_default : VendorDrift := mkVendorDrift [] 0.

Record DriftLedger := mkDriftLedger { dl_v : N; dl_vendors : gmap string VendorDrift }.

Definition DriftLedger_empty : DriftLedger := mkDriftLedger LEDGER_FILE_VERSION ∅.

Definition is_empty (l : DriftLedger) : bool :=
  forallb (fun '(_, vendor) => (len (vd_signatures vendor) =? 0) && (vd_overflow vendor =? 0)) (map_to_list (dl_vendors l)).

Definition distinct_for (vendor : string) (l : DriftLedger) : N :=
  match dl_vendors l !! vendor with Some entry => len (vd_signatures entry) + vd_overflow entry | None => 0 end.

Definition name_byte (byte : ascii) : bool :=
  is_ascii_alphanumeric byte || Ascii.eqb byte "." || Ascii.eqb byte "_" || Ascii.eqb byte "/" || Ascii.eqb byte "-".

Definition sanitize_name (name : string) : string :=
  if name =s? "" then ""
  else if (slen name <=? MAX_NAME_BYTES) && sall name_byte name then name else "invalid".

Definition keyed (surface kind name : string) (existing : DriftSignature) : bool :=
  (sg_surface existing =s? surface) && (sg_kind existing =s? kind) && (sg_name existing =s? name).

(** What one note makes of its vendor's entry, and whether the signature is new. *)
Definition noted (surface kind name : string) (version : option string) (occurrences now : N) (vendor : VendorDrift) : VendorDrift * bool :=
  if existsb (keyed surface kind name) (vd_signatures vendor) then
    (mkVendorDrift
       (update_first (keyed surface kind name)
          (fun s => mkDriftSignature (sg_surface s) (sg_kind s) (sg_name s) (sat_add64 (sg_count s) occurrences) (sg_first_seen s) now
                      (match version with Some _ => version | None => sg_seen_at_version s end)) (vd_signatures vendor))
       (vd_overflow vendor), false)
  else if MAX_SIGNATURES_PER_VENDOR <=? len (vd_signatures vendor)
  then (mkVendorDrift (vd_signatures vendor) (sat_add64 (vd_overflow vendor) 1), false)
  else
    (mkVendorDrift (vd_signatures vendor ++ [mkDriftSignature (sanitize_name surface) (sanitize_name kind) name occurrences now now version])
       (vd_overflow vendor), true).

Definition merge_signature (incoming : DriftSignature) (vendor : VendorDrift) : VendorDrift :=
  let same := keyed (sg_surface incoming) (sg_kind incoming) (sg_name incoming) in
  if existsb same (vd_signatures vendor) then
    mkVendorDrift
      (update_first same
         (fun s => mkDriftSignature (sg_surface s) (sg_kind s) (sg_name s) (sat_add64 (sg_count s) (sg_count incoming)) (sg_first_seen s)
                     (N.max (sg_last_seen s) (sg_last_seen incoming))
                     (match sg_seen_at_version incoming with Some v => Some v | None => sg_seen_at_version s end)) (vd_signatures vendor))
      (vd_overflow vendor)
  else if MAX_SIGNATURES_PER_VENDOR <=? len (vd_signatures vendor)
  then mkVendorDrift (vd_signatures vendor) (sat_add64 (vd_overflow vendor) 1)
  else mkVendorDrift (vd_signatures vendor ++ [incoming]) (vd_overflow vendor).

(** The process-wide sink, with the file it is bound to. *)
Record Sink := mkSink { sk_ledger : DriftLedger; sk_bound : bool; sk_dirty : bool; sk_last_flush : N; sk_disk : Disk }.

Definition Sink_start (disk : Disk) : Sink := mkSink DriftLedger_empty false false 0 disk.

Section sink.
(** [serde_json]; and the vendor versions that call sites name. *)
Context (to_vec : DriftLedger -> option bytes) (from_slice : bytes -> option DriftLedger) (effective_uid : N) (versions : string -> Prop).

Definition load (disk : Disk) : option DriftLedger :=
  match disk with
  | Present _ (Some bytes) =>
      if MAX_LEDGER_BYTES <? len bytes then None
      else ledger ← from_slice bytes; if dl_v ledger =? LEDGER_FILE_VERSION then Some ledger else None
  | _ => None
  end.

Definition flush_locked (failed_at : option write_step) (now : N) (s : Sink) : Sink :=
  if negb (sk_bound s) then s
  else
    match to_vec (sk_ledger s) with
    | None => s
    | Some bytes =>
        if MAX_LEDGER_BYTES <? len bytes then s
        else
          match atomic_write_private effective_uid failed_at bytes (sk_disk s) with
          | (disk, Ok _) => mkSink (sk_ledger s) (sk_bound s) false now disk
          | (disk, Err _) => mkSink (sk_ledger s) (sk_bound s) (sk_dirty s) (sk_last_flush s) disk
          end
    end.

Definition note_by (failed_at : option write_step) (vendor surface kind name : string) (version : option string) (occurrences now : N) (s : Sink)
  : Sink :=
  if occurrences =? 0 then s
  else
    let vendors := dl_vendors (sk_ledger s) in
    let vendor := sanitize_name vendor in
    let '(entry, new_signature) :=
      noted surface kind (sanitize_name name) version occurrences now (default VendorDrift_default (vendors !! vendor)) in
    let s := mkSink (mkDriftLedger (dl_v (sk_ledger s)) (<[vendor := entry]> vendors)) (sk_bound s) true (sk_last_flush s) (sk_disk s) in
    if new_signature || (FLUSH_INTERVAL_SECS <=? now - sk_last_flush s) then flush_locked failed_at now s else s.

(** The signatures carried over into the loaded ledger, vendor by vendor. *)
Definition merge_vendor (vendors : gmap string VendorDrift) (carried : string * VendorDrift) : gmap string VendorDrift :=
  let '(vendor, entry) := carried in
  foldl (fun vendors signature => <[vendor := merge_signature signature (default VendorDrift_default (vendors !! vendor))]> vendors)
    vendors (vd_signatures entry).

Definition bind (failed_at : option write_step) (now : N) (s : Sink) : Sink :=
  let loaded := default DriftLedger_empty (load (sk_disk s)) in
  let s := mkSink (mkDriftLedger (dl_v loaded) (foldl merge_vendor (dl_vendors loaded) (map_to_list (dl_vendors (sk_ledger s)))))
             true (sk_dirty s) (sk_last_flush s) (sk_disk s) in
  if sk_dirty s then flush_locked failed_at now s else s.

Definition flush (failed_at : option write_step) (now : N) (s : Sink) : Sink :=
  if sk_dirty s then flush_locked failed_at now s else s.

Definition live_distinct_for (vendor : string) (s : Sink) : N := distinct_for vendor (sk_ledger s).

(** ** What the ledger may hold *)

Definition vocabulary (name : string) : Prop := slen name <= MAX_NAME_BYTES /\ sall name_byte name = true.

Lemma sanitize_vocabulary name : vocabulary (sanitize_name name).
Proof.
  unfold sanitize_name. destruct (name =s? ""); [by vm_compute|]. destruct ((slen name <=? MAX_NAME_BYTES) && _) eqn:H; [|by vm_compute].
  apply andb_prop in H as [H%N.leb_le Hs]. done.
Qed.

Lemma vocabulary_kept name : vocabulary name -> sanitize_name name = name.
Proof.
  intros [Hl Hs]. unfold sanitize_name. destruct (String.eqb_spec name ""); [done|]. by rewrite (proj2 (N.leb_le _ _)), Hs.
Qed.

Definition key (s : DriftSignature) : string * string * string := (sg_surface s, sg_kind s, sg_name s).

(** A surface or kind that was no vocabulary is stored as "invalid", under which a repeat is not found. *)
Definition found_again (k : string * string * string) : Prop := k.1.1 <> "invalid"%string /\ k.1.2 <> "invalid"%string.

#[export] Instance found_again_dec k : Decision (found_again k).
Proof. unfold found_again. apply _. Defined.

Definition words (s : DriftSignature) : Prop :=
  vocabulary (sg_surface s) /\ vocabulary (sg_kind s) /\ vocabulary (sg_name s) /\ (forall v, sg_seen_at_version s = Some v -> versions v).

Record vendor_ok (v : VendorDrift) : Prop := {
  vo_bound : len (vd_signatures v) <= MAX_SIGNATURES_PER_VENDOR;
  vo_distinct : NoDup (filter found_again (key <$> vd_signatures v));
  vo_words : Forall words (vd_signatures v)
}.

Definition ledger_ok (l : DriftLedger) : Prop := map_Forall (fun vendor v => vocabulary vendor /\ vendor_ok v) (dl_vendors l).

Lemma keyed_key surface kind name s : keyed surface kind name s = true <-> key s = (surface, kind, name).
Proof.
  unfold keyed, key. rewrite !andb_true_iff, !String.eqb_eq. split; [by intros [[-> ->] ->]|by intros [= -> -> ->]].
Qed.

Lemma unkeyed_new surface kind name l : existsb (keyed surface kind name) l = false -> (surface, kind, name) ∉ key <$> l.
Proof.
  intros H (s & Hs & Hin)%list_elem_of_fmap. apply not_true_iff_false in H. apply H, existsb_exists. exists s.
  split; [by apply list_elem_of_In|by apply keyed_key].
Qed.

(** An update that keeps the key, an overflow, or a new signature: each keeps the entry sound. *)
Lemma vendor_updated p f overflow v :
  vendor_ok v -> (forall s, key (f s) = key s) ->
  (forall s version, words s -> sg_seen_at_version (f s) = Some version -> versions version) ->
  vendor_ok (mkVendorDrift (update_first p f (vd_signatures v)) overflow).
Proof.
  intros [Hb Hd Hw] Hf Hv. split; cbn.
  - unfold len. by rewrite update_first_length.
  - by rewrite update_first_fmap by auto.
  - apply update_first_Forall; [done|]. intros s _ H. pose proof (Hf s) as Hk. unfold key in Hk. injection Hk as H1 H2 H3.
    destruct H as (? & ? & ? & ?) eqn:Hs. clear Hs. split_and!; [by rewrite ?H1, ?H2, ?H3..|]. intros version. by apply Hv.
Qed.

Lemma vendor_grown s overflow v :
  vendor_ok v -> len (vd_signatures v) < MAX_SIGNATURES_PER_VENDOR -> (found_again (key s) -> key s ∉ key <$> vd_signatures v) -> words s ->
  vendor_ok (mkVendorDrift (vd_signatures v ++ [s]) overflow).
Proof.
  intros [Hb Hd Hw] Hl Hs Hv. split; cbn.
  - rewrite len_snoc. lia.
  - rewrite fmap_app, filter_app. cbn [fmap list_fmap]. destruct (decide (found_again (key s))) as [Hf|Hf].
    + rewrite filter_cons_True, filter_nil by done. apply NoDup_app. split_and!; [done| |apply NoDup_singleton].
      intros k Hk ->%list_elem_of_singleton. by apply list_elem_of_filter in Hk as [_ ?%Hs].
    + by rewrite filter_cons_False, filter_nil, app_nil_r by done.
  - apply Forall_app. split; [done|]. by constructor.
Qed.

Lemma sanitize_cases name : sanitize_name name = name \/ sanitize_name name = "invalid"%string.
Proof. unfold sanitize_name. destruct (String.eqb_spec name ""); [by left|]. destruct (_ && _); auto. Qed.

Definition version_ok (version : option string) : Prop := forall v, version = Some v -> versions v.

Lemma vendor_noted_ok surface kind name version occurrences now v :
  vendor_ok v -> vocabulary name -> version_ok version -> vendor_ok (noted surface kind name version occurrences now v).1.
Proof.
  intros Hv Hn Hver. unfold noted. destruct (existsb _ _) eqn:Hex.
  { apply vendor_updated; [done..|]. intros s w (_ & _ & _ & Hs). cbn. destruct version; [apply Hver|apply Hs]. }
  destruct (N.leb_spec MAX_SIGNATURES_PER_VENDOR (len (vd_signatures v))); cbn [fst].
  - destruct Hv. by split.
  - apply vendor_grown; [done|done| |by split_and!; [apply sanitize_vocabulary|apply sanitize_vocabulary|done|done]]. unfold key, found_again. cbn.
    destruct (sanitize_cases surface) as [->| ->]; [|by intros []]. destruct (sanitize_cases kind) as [->| ->]; [|by intros []].
    intros _. by apply unkeyed_new.
Qed.

Lemma merge_signature_ok incoming v : vendor_ok v -> words incoming -> vendor_ok (merge_signature incoming v).
Proof.
  intros Hv Hw. unfold merge_signature. destruct (existsb _ _) eqn:Hex.
  { apply vendor_updated; [done..|]. intros s w (_ & _ & _ & Hs). cbn. destruct Hw as (_ & _ & _ & Hi).
    destruct (sg_seen_at_version incoming); [apply Hi|apply Hs]. }
  destruct (N.leb_spec MAX_SIGNATURES_PER_VENDOR (len (vd_signatures v))).
  - destruct Hv. by split.
  - apply vendor_grown; [done|done| |done]. intros _. by apply unkeyed_new.
Qed.

Definition vendors_ok (vendors : gmap string VendorDrift) : Prop := map_Forall (fun vendor v => vocabulary vendor /\ vendor_ok v) vendors.

Lemma default_ok vendors vendor : vendors_ok vendors -> vendor_ok (default VendorDrift_default (vendors !! vendor)).
Proof.
  intros H. destruct (vendors !! vendor) as [v|] eqn:Hv; [by apply (H _ _ Hv)|]. split; cbn; [done|constructor|constructor].
Qed.

Lemma merge_vendor_ok vendors vendor entry :
  vendors_ok vendors -> vocabulary vendor -> vendor_ok entry -> vendors_ok (merge_vendor vendors (vendor, entry)).
Proof.
  intros Hok Hv [_ _ Hw]. unfold merge_vendor. revert vendors Hok. induction Hw as [|s l Hs Hw IH]; intros vendors Hok; [done|].
  cbn [foldl]. apply IH. apply map_Forall_insert_2; [|done]. split; [done|]. by apply merge_signature_ok; [apply default_ok|].
Qed.

Lemma bind_vendors_ok carried vendors :
  vendors_ok vendors -> Forall (fun '(vendor, v) => vocabulary vendor /\ vendor_ok v) carried -> vendors_ok (foldl merge_vendor vendors carried).
Proof.
  intros Hok Hall. revert vendors Hok. induction Hall as [|[vendor v] l [Hv Hok'] Hall IH]; intros vendors Hok; [done|].
  cbn [foldl]. by apply IH, merge_vendor_ok.
Qed.

(** ** What the daemon keeps *)

Context (json_law : forall l bytes, to_vec l = Some bytes -> from_slice bytes = Some l).

(** The ledger in memory and the one a reader of the file gets. *)
Record sink_ok (s : Sink) : Prop := {
  so_ledger : ledger_ok (sk_ledger s);
  so_version : dl_v (sk_ledger s) = LEDGER_FILE_VERSION;
  so_disk l : load (sk_disk s) = Some l -> ledger_ok l
}.

Lemma ledger_load_written l bytes :
  to_vec l = Some bytes -> len bytes <= MAX_LEDGER_BYTES -> dl_v l = LEDGER_FILE_VERSION -> load (private_file effective_uid bytes) = Some l.
Proof.
  intros Hv Hl Hver. cbn. rewrite (proj2 (N.ltb_ge _ _)) by done. rewrite (json_law _ _ Hv). cbn. by rewrite Hver.
Qed.

Lemma flush_locked_ok failed_at now s : sink_ok s -> sink_ok (flush_locked failed_at now s).
Proof.
  intros [Hl Hv Hd]. unfold flush_locked. destruct (sk_bound s); cbn [negb]; [|done]. destruct (to_vec (sk_ledger s)) as [bytes|] eqn:Hb; [|done].
  destruct (N.ltb_spec MAX_LEDGER_BYTES (len bytes)); [done|].
  destruct (atomic_write_private _ _ _ _) as [disk r] eqn:Hw. apply atomic_write_cases in Hw.
  assert (forall l, load disk = Some l -> ledger_ok l) as Hdisk.
  { intros l Hload. destruct Hw as [[-> _]|[-> _]]; [|by apply Hd]. rewrite (ledger_load_written _ _ Hb) in Hload by done. by injection Hload as <-. }
  by destruct r.
Qed.

Lemma note_by_ok failed_at vendor surface kind name version occurrences now s :
  version_ok version -> sink_ok s -> sink_ok (note_by failed_at vendor surface kind name version occurrences now s).
Proof.
  intros Hver [Hl Hv Hd]. unfold note_by. destruct (occurrences =? 0); [done|].
  pose proof (vendor_noted_ok surface kind (sanitize_name name) version occurrences now _ (default_ok _ (sanitize_name vendor) Hl) (sanitize_vocabulary name) Hver) as Hn.
  destruct (noted _ _ _ _ _ _ _) as [entry new_signature]. cbv zeta.
  assert (sink_ok (mkSink (mkDriftLedger (dl_v (sk_ledger s)) (<[sanitize_name vendor := entry]> (dl_vendors (sk_ledger s)))) (sk_bound s) true
                     (sk_last_flush s) (sk_disk s))) as Hok.
  { split; [|done..]. apply map_Forall_insert_2; [|done]. split; [apply sanitize_vocabulary|done]. }
  destruct (_ || _); [by apply flush_locked_ok|done].
Qed.

Lemma bind_ok failed_at now s : sink_ok s -> sink_ok (bind failed_at now s).
Proof.
  intros [Hl Hv Hd]. unfold bind. set (loaded := default _ _).
  assert (ledger_ok loaded /\ dl_v loaded = LEDGER_FILE_VERSION) as [Hok Hver].
  { subst loaded. destruct (load (sk_disk s)) as [l|] eqn:Hload; cbn; [|by split]. split; [by apply Hd|]. unfold load in Hload.
    destruct (sk_disk s) as [| |? [bytes|]]; try done. destruct (_ <? _); [done|]. destruct (from_slice bytes) as [l'|]; [|done]. cbn in Hload.
    destruct (N.eqb_spec (dl_v l') LEDGER_FILE_VERSION); [|done]. by injection Hload as <-. }
  assert (sink_ok (mkSink (mkDriftLedger (dl_v loaded) (foldl merge_vendor (dl_vendors loaded) (map_to_list (dl_vendors (sk_ledger s)))))
             true (sk_dirty s) (sk_last_flush s) (sk_disk s))) as Hs.
  { split; [|done..]. apply bind_vendors_ok; [done|]. rewrite Forall_forall. intros [vendor v] H%elem_of_map_to_list. by apply (Hl _ _ H). }
  cbn [sk_dirty]. destruct (sk_dirty s); [by apply flush_locked_ok|done].
Qed.

(** Notes from parsers and workers, the daemon's start and its end, with writes that fail anywhere. *)
Inductive sink_step : Sink -> Sink -> Prop :=
| SinkNote failed_at vendor surface kind name version occurrences now s :
    version_ok version -> sink_step s (note_by failed_at vendor surface kind name version occurrences now s)
| SinkBind failed_at now s : sink_step s (bind failed_at now s)
| SinkFlush failed_at now s : sink_step s (flush failed_at now s)
| SinkRestart s : sink_step s (Sink_start (sk_disk s)).

(** C38: The ledger stays within its bounds: started on no file or on one within them, whatever vendors and
    workers send and whichever writes fail, in memory and in the file, across restarts, each vendor has at most
    64 signatures, and all that is kept of the input is names of at most 48 letters, digits, dots, dashes,
    slashes and underscores, besides the versions that the call sites name. No two signatures are the same, but
    for those whose surface or kind is "invalid", as one that was no such name is stored: a repeat of it is
    stored again. A signature seen for the first time by a daemon that bound its file is in the file at once, if
    the write succeeds and the ledger is no longer than 64 KiB. *)
Theorem ledger_bounded disk s :
  (forall l, load disk = Some l -> ledger_ok l) -> rtc sink_step (Sink_start disk) s ->
  (ledger_ok (sk_ledger s) /\ forall l, load (sk_disk s) = Some l -> ledger_ok l)
  /\ forall vendor surface kind name version occurrences now bytes,
       0 < occurrences -> sk_bound s = true ->
       (noted surface kind (sanitize_name name) version occurrences now
         (default VendorDrift_default (dl_vendors (sk_ledger s) !! sanitize_name vendor))).2 = true ->
       to_vec (sk_ledger (note_by None vendor surface kind name version occurrences now s)) = Some bytes -> len bytes <= MAX_LEDGER_BYTES ->
       load (sk_disk (note_by None vendor surface kind name version occurrences now s))
       = Some (sk_ledger (note_by None vendor surface kind name version occurrences now s)).
Proof.
  intros Hdisk Hsteps. assert (sink_ok s) as [Hl Hv Hd].
  { remember (Sink_start disk) as start eqn:Hs. assert (sink_ok start) as Hok by (subst start; by split; [apply map_Forall_empty|..]).
    clear Hs Hdisk. induction Hsteps as [s|s1 s2 s3 Hstep Hsteps IH]; [done|]. apply IH. destruct Hstep as [| |failed_at now s|s].
    - by apply note_by_ok.
    - by apply bind_ok.
    - unfold flush. destruct (sk_dirty s); [by apply flush_locked_ok|done].
    - destruct Hok. by split; [apply map_Forall_empty|..]. }
  split; [done|]. intros vendor surface kind name version occurrences now bytes Hocc Hb Hnew. unfold note_by.
  destruct (N.eqb_spec occurrences 0); [lia|]. destruct (noted _ _ _ _ _ _ _) as [entry new_signature]. cbn in Hnew. subst new_signature.
  cbn [orb]. unfold flush_locked. cbn [sk_bound]. rewrite Hb. cbn [negb sk_ledger]. set (l := mkDriftLedger _ _).
  destruct (to_vec l) as [b|] eqn:Hto; cbn [sk_ledger]; [|congruence]. destruct (N.ltb_spec MAX_LEDGER_BYTES (len b)) as [Hbig|Hfit]; cbn [sk_ledger sk_disk].
  - rewrite Hto. intros [= ->]. lia.
  - intros _ _. by apply ledger_load_written.
Qed.
End sink.

#[export] Instance DriftSignature_eq_dec : EqDecision DriftSignature.
Proof. solve_decision. Defined.
#[export] Instance VendorDrift_eq_dec : EqDecision VendorDrift.
Proof. solve_decision. Defined.
#[export] Instance DriftLedger_eq_dec : EqDecision DriftLedger.
Proof. solve_decision. Defined.

(** ** A ledger with one signature, by a codec that knows it *)

Definition one_signature : DriftLedger :=
  mkDriftLedger 1 {["codex"%string := mkVendorDrift [mkDriftSignature "hook_event" "unknown_event" "invalid" 2 7 7 None] 0]}.
Definition few_to_vec (l : DriftLedger) : option bytes := if decide (l = one_signature) then Some [123; 125] else None.
Definition few_from_slice (b : bytes) : option DriftLedger := Some one_signature.

Lemma few_law l b : few_to_vec l = Some b -> few_from_slice b = Some l.
Proof. unfold few_to_vec. destruct (decide _) as [->|]; done. Qed.

Definition bound_sink : Sink := bind few_to_vec few_from_slice 501 None 1 (Sink_start NotFound).

Lemma bound_sink_step : rtc (sink_step few_to_vec few_from_slice 501 (fun _ => False)) (Sink_start NotFound) bound_sink.
Proof. apply rtc_once, (SinkBind few_to_vec few_from_slice 501 (fun _ => False) None 1). Qed.

Lemma ledger_bounded_witness :
  load few_from_slice (sk_disk (note_by few_to_vec 501 None "codex" "hook_event" "unknown_event" "a name with spaces" None 2 7 bound_sink))
  = Some one_signature.
Proof.
  destruct (ledger_bounded few_to_vec few_from_slice 501 (fun _ => False) few_law NotFound bound_sink (fun l H => ltac:(discriminate H)) bound_sink_step) as [_ H].
  specialize (H "codex"%string "hook_event"%string "unknown_event"%string "a name with spaces"%string None 2 7 [123; 125]).
  rewrite H; [vm_compute; reflexivity|reflexivity|reflexivity|vm_compute; reflexivity|vm_compute; reflexivity|done].
Defined.

(** A note of a surface that is no vocabulary is never found again: each takes another of the 64 places, and
    once they are gone every new kind of input is overflow. *)
Lemma invalid_surface_stored_again to_vec uid :
  key <$> vd_signatures (default VendorDrift_default (dl_vendors (sk_ledger
    (note_by to_vec uid None "claude-managed" "sdk stream" "unknown_event" "delta" None 1 8
      (note_by to_vec uid None "claude-managed" "sdk stream" "unknown_event" "delta" None 1 7 (Sink_start NotFound)))) !! "claude-managed"%string))
  = [("invalid", "unknown_event", "delta"); ("invalid", "unknown_event", "delta")]%string.
Proof. reflexivity. Qed.

(** ** What the overflow counts *)

(** Past the cap every sighting counts, of one signature again and again; and what was counted before the
    daemon bound its file is forgotten when it does. *)
Lemma overflow_counts_sightings vendor surface kind name version occurrences now :
  existsb (keyed surface kind name) (vd_signatures vendor) = false -> MAX_SIGNATURES_PER_VENDOR <= len (vd_signatures vendor) ->
  vd_overflow (noted surface kind name version occurrences now (noted surface kind name version occurrences now vendor).1).1
  = sat_add64 (sat_add64 (vd_overflow vendor) 1) 1.
Proof.
  intros Hk Hl. assert (noted surface kind name version occurrences now vendor = (mkVendorDrift (vd_signatures vendor) (sat_add64 (vd_overflow vendor) 1), false)) as ->.
  { unfold noted. by rewrite Hk, (proj2 (N.leb_le _ _)). }
  unfold noted. cbn [fst vd_signatures]. by rewrite Hk, (proj2 (N.leb_le _ _)).
Qed.

Lemma bind_forgets_overflow to_vec from_slice uid overflow now :
  sk_ledger (bind to_vec from_slice uid None now
    (mkSink (mkDriftLedger 1 {["codex"%string := mkVendorDrift [] overflow]}) false false 0 NotFound)) = DriftLedger_empty.
Proof. unfold bind. cbn. by rewrite map_to_list_singleton. Qed.
