(* ===== verification/Devices.v ===== *)
(** The paired devices of [storage.rs]: the allowlist, the tickets and keys that reach each phone, and the
    private file they are kept in. JSON, base64 and the endpoint's key belong to other crates and are
    parameters; so is the point at which a write to disk fails. *)
From S2P Require Import Prelude Text HostProtocol Qr PrivateFile.

Local Open Scope N_scope.

(** ** Data *)

Record LiveActivitySelection := mkLiveActivitySelection {
  ls_session_id : string; ls_adapter : string; ls_workspace : string }.

Record LiveActivityRegistration := mkLiveActivityRegistration {
  lr_ticket : string; lr_selections : list LiveActivitySelection }.

Inductive LiveActivitySelectionChange :=
| Add (selection : LiveActivitySelection)
| Remove (session_id : string).

Record LiveActivityTarget := mkLiveActivityTarget {
  lt_endpoint_id : string; lt_ticket : string; lt_key : bytes; lt_selections : list LiveActivitySelection }.

Record PairedDevice := mkPairedDevice {
  pd_endpoint_id : string; pd_paired_at : N; pd_transcript_hash : string;
  pd_notification_key : option string; pd_push_ticket : option string;
  pd_live_activity : option LiveActivityRegistration }.

Record PairedDevicesFile := mkPairedDevicesFile { pf_v : N; pf_devices : list PairedDevice }.

Inductive DeviceError :=
| MalformedSelection | MalformedRegistration | DuplicateSession | InspectError | FileRefused (e : FileError)
| ReadError | MalformedFile | UnsupportedFileVersion | InvalidEndpointId
| InvalidTranscriptHash | InvalidNotificationKey | InvalidPushTicket | InvalidLiveActivity | DuplicateEndpoint
| NotPaired | NoNotificationKey | MissingTicket | SelectionLimit | MalformedSessionId | EncodeError.

Definition set_ticket (ticket : option string) (d : PairedDevice) : PairedDevice :=
  mkPairedDevice (pd_endpoint_id d) (pd_paired_at d) (pd_transcript_hash d) (pd_notification_key d) ticket
    (pd_live_activity d).
Definition set_live_activity (registration : option LiveActivityRegistration) (d : PairedDevice) : PairedDevice :=
  mkPairedDevice (pd_endpoint_id d) (pd_paired_at d) (pd_transcript_hash d) (pd_notification_key d)
    (pd_push_ticket d) registration.

(** [sort_by] on a string key: stable, in the order of the bytes. *)
Lemma sublist_full {A} (l k : list A) : sublist l k -> length l = length k -> l = k.
Proof.
  induction 1 as [|x l k Hs IH|x l k Hs IH]; [done| |]; cbn; intros Hlen; [f_equal; apply IH; lia|].
  apply sublist_length in Hs. lia.
Qed.

Section text_order.
Context {A : Type} (key : A -> string).

Fixpoint insert_text (x : A) (l : list A) : list A :=
  match l with
  | [] => [x]
  | y :: l' => if String.leb (key x) (key y) then x :: l else y :: insert_text x l'
  end.
Definition sort_by_text (l : list A) : list A := foldr insert_text [] l.

Lemma insert_text_perm x l : insert_text x l ≡ₚ x :: l.
Proof. induction l as [|y l IH]; [done|]. cbn. case_match; [done|]. rewrite IH. by constructor. Qed.
Lemma sort_by_text_perm l : sort_by_text l ≡ₚ l.
Proof. induction l as [|x l IH]; [done|]. cbn. by rewrite insert_text_perm, IH. Qed.
End text_order.

(** ** Live activities *)

Definition valid_live_activity_label (value : string) (maximum_bytes : N) : bool :=
  negb (slen value =? 0) && (slen value <=? maximum_bytes)
  && forallb (fun c => negb (display_forbidden c)) (chars value).

Definition LiveActivitySelection_validate (s : LiveActivitySelection) : result DeviceError unit :=
  refuse_if (negb (valid_live_activity_session_id (ls_session_id s))
             || (slen (ls_adapter s) =? 0) || (32 <? slen (ls_adapter s))
             || negb (sall is_ascii_graphic (ls_adapter s))
             || negb (valid_live_activity_label (ls_workspace s) 64)) MalformedSelection.

Definition validate_selections : list LiveActivitySelection -> result DeviceError unit :=
  each_distinct LiveActivitySelection_validate ls_session_id DuplicateSession [].

Definition LiveActivityRegistration_validate (r : LiveActivityRegistration) : result DeviceError unit :=
  refuse_if (negb (valid_push_ticket (lr_ticket r)) || (len (lr_selections r) =? 0)
             || (MAX_LIVE_ACTIVITY_SELECTIONS <? len (lr_selections r))) MalformedRegistration ?;
  validate_selections (lr_selections r).

(** ** The store *)

(** The devices in memory, and what the file holds. *)
Record PairedDeviceStore := mkPairedDeviceStore { ds_devices : list PairedDevice; ds_disk : Disk }.

Section store.
(** [serde_json], [base64], [iroh]'s keys as text, the user the daemon runs as. *)
Context (to_vec_pretty : PairedDevicesFile -> option bytes) (from_slice : bytes -> option PairedDevicesFile).
Context (encode_base64 : bytes -> string) (decode_base64 : string -> option bytes).
Context {EndpointId : Type} (to_string : EndpointId -> string) (from_str : string -> option EndpointId).
Context (effective_uid : N).

Definition validate_endpoint_id (value : string) : result DeviceError EndpointId :=
  refuse_if (negb (slen value =? 64) || negb (sall is_lower_hex value)) InvalidEndpointId ?;
  ok_or (from_str value) InvalidEndpointId.

(** One device of a file. *)
Definition check_device (d : PairedDevice) : result DeviceError unit :=
  validate_endpoint_id (pd_endpoint_id d) ?;
  refuse_if (is_none (decode_exact decode_base64 32 (pd_transcript_hash d))) InvalidTranscriptHash ?;
  refuse_if (is_some_and (fun key => is_none (decode_exact decode_base64 32 key)) (pd_notification_key d))
    InvalidNotificationKey ?;
  refuse_if (is_some_and (fun ticket => negb (valid_push_ticket ticket)) (pd_push_ticket d)) InvalidPushTicket ?;
  refuse_if (is_some_and (fun registration => is_none (pd_notification_key d)
               || is_err (LiveActivityRegistration_validate registration)) (pd_live_activity d)) InvalidLiveActivity.

Definition check_devices : list PairedDevice -> result DeviceError unit :=
  each_distinct check_device pd_endpoint_id DuplicateEndpoint [].

Definition write_file (failed_at : option write_step) (devices : list PairedDevice) (disk : Disk)
  : Disk * result DeviceError unit :=
  match to_vec_pretty (mkPairedDevicesFile 1 devices) with
  | None => (disk, Err EncodeError)
  | Some encoded =>
      let '(disk, written) := atomic_write_private effective_uid failed_at encoded disk in
      (disk, map_err FileRefused written)
  end.

Definition load (failed_at : option write_step) (disk : Disk) : result DeviceError PairedDeviceStore :=
  match disk with
  | NotFound =>
      let '(disk, written) := write_file failed_at [] disk in
      rmap (fun _ => mkPairedDeviceStore [] disk) written
  | Uninspectable => Err InspectError
  | Present metadata contents =>
      map_err FileRefused (validate_private_file effective_uid metadata) ?;
      let? encoded := ok_or contents ReadError in
      let? file := ok_or (from_slice encoded) MalformedFile in
      refuse_if (negb (pf_v file =? 1)) UnsupportedFileVersion ?;
      check_devices (pf_devices file) ?;
      Ok (mkPairedDeviceStore (pf_devices file) disk)
  end.

(** The memory changes only once the write returned. *)
Definition persist (failed_at : option write_step) (updated : list PairedDevice) (st : PairedDeviceStore)
  : PairedDeviceStore * result DeviceError unit :=
  match write_file failed_at updated (ds_disk st) with
  | (disk, Ok _) => (mkPairedDeviceStore updated disk, Ok tt)
  | (disk, Err e) => (mkPairedDeviceStore (ds_devices st) disk, Err e)
  end.

Definition persist_then {A} (failed_at : option write_step) (updated : list PairedDevice) (st : PairedDeviceStore)
    (value : A) : PairedDeviceStore * result DeviceError A :=
  let '(st, written) := persist failed_at updated st in (st, rmap (fun _ => value) written).

Definition has_id (endpoint_id : string) (d : PairedDevice) : bool := pd_endpoint_id d =s? endpoint_id.

Definition contains (endpoint_id : EndpointId) (st : PairedDeviceStore) : bool :=
  existsb (has_id (to_string endpoint_id)) (ds_devices st).

Definition new_device (endpoint_id : string) (paired_at : N) (transcript_hash notification_key : bytes) : PairedDevice :=
  mkPairedDevice endpoint_id paired_at (encode_base64 transcript_hash) (Some (encode_base64 notification_key)) None None.

Definition upserted (record : PairedDevice) (l : list PairedDevice) : list PairedDevice :=
  if existsb (has_id (pd_endpoint_id record)) l
  then update_first (has_id (pd_endpoint_id record)) (fun _ => record) l
  else sort_by_text pd_endpoint_id (l ++ [record]).

Definition upsert (failed_at : option write_step) (endpoint_id : EndpointId) (paired_at : N)
    (transcript_hash notification_key : bytes) (st : PairedDeviceStore) : PairedDeviceStore * result DeviceError unit :=
  persist failed_at
    (upserted (new_device (to_string endpoint_id) paired_at transcript_hash notification_key) (ds_devices st)) st.

Definition set_push_ticket (failed_at : option write_step) (endpoint_id : EndpointId) (ticket : option string)
    (st : PairedDeviceStore) : PairedDeviceStore * result DeviceError unit :=
  if is_some_and (fun ticket => negb (valid_push_ticket ticket)) ticket then (st, Err InvalidPushTicket)
  else
    match List.find (has_id (to_string endpoint_id)) (ds_devices st) with
    | None => (st, Err NotPaired)
    | Some device =>
        if bool_decide (pd_push_ticket device = ticket) then (st, Ok tt)
        else persist failed_at (update_first (has_id (to_string endpoint_id)) (set_ticket ticket) (ds_devices st)) st
    end.

(** What the change makes of the selections; [None] returns early. *)
Definition changed_selections (change : option LiveActivitySelectionChange) (l : list LiveActivitySelection)
  : result DeviceError (option (list LiveActivitySelection)) :=
  match change with
  | Some (Add selection) =>
      LiveActivitySelection_validate selection ?;
      if existsb (fun s => ls_session_id s =s? ls_session_id selection) l
      then Ok (Some (update_first (fun s => ls_session_id s =s? ls_session_id selection) (fun _ => selection) l))
      else
        refuse_if (MAX_LIVE_ACTIVITY_SELECTIONS <=? len l) SelectionLimit ?;
        Ok (Some (l ++ [selection]))
  | Some (Remove session_id) =>
      refuse_if (negb (valid_live_activity_session_id session_id)) MalformedSessionId ?;
      Ok (Some (List.filter (fun s => negb (ls_session_id s =s? session_id)) l))
  | None => Ok (if len l =? 0 then None else Some l)
  end.

Definition update_live_activity (failed_at : option write_step) (endpoint_id : EndpointId) (ticket : option string)
    (change : option LiveActivitySelectionChange) (st : PairedDeviceStore) : PairedDeviceStore * result DeviceError N :=
  let id := to_string endpoint_id in
  if is_some_and (fun ticket => negb (valid_push_ticket ticket)) ticket then (st, Err InvalidPushTicket)
  else
    match List.find (has_id id) (ds_devices st) with
    | None => (st, Err NotPaired)
    | Some device =>
        if is_none (pd_notification_key device) then (st, Err NoNotificationKey)
        else
          match ticket with
          | None =>
              if is_some change then (st, Err MissingTicket)
              else if is_none (pd_live_activity device) then (st, Ok 0)
              else persist_then failed_at (update_first (has_id id) (set_live_activity None) (ds_devices st)) st 0
          | Some ticket =>
              match changed_selections change (from_option lr_selections [] (pd_live_activity device)) with
              | Err e => (st, Err e)
              | Ok None => (st, Ok 0)
              | Ok (Some selections) =>
                  let selections := sort_by_text ls_session_id selections in
                  let registration := if 0 <? len selections then Some (mkLiveActivityRegistration ticket selections) else None in
                  persist_then failed_at (update_first (has_id id) (set_live_activity registration) (ds_devices st)) st
                    (len selections)
              end
          end
    end.

Definition clear_live_activity (failed_at : option write_step) (endpoint_id : EndpointId) (st : PairedDeviceStore)
  : PairedDeviceStore * result DeviceError unit :=
  let '(st, r) := update_live_activity failed_at endpoint_id None None st in (st, rmap (fun _ => tt) r).

Definition remove (failed_at : option write_step) (endpoint_id : string) (st : PairedDeviceStore)
  : PairedDeviceStore * result DeviceError bool :=
  let updated := List.filter (fun d => negb (has_id endpoint_id d)) (ds_devices st) in
  if len updated =? len (ds_devices st) then (st, Ok false) else persist_then failed_at updated st true.

Definition live_activity_target (d : PairedDevice) : option LiveActivityTarget :=
  registration ← pd_live_activity d;
  key ← (pd_notification_key d ≫= decode_exact decode_base64 32);
  Some (mkLiveActivityTarget (pd_endpoint_id d) (lr_ticket registration) key (lr_selections registration)).

Definition live_activity_targets (st : PairedDeviceStore) : list LiveActivityTarget :=
  omap live_activity_target (ds_devices st).

Definition push_target (d : PairedDevice) : option (string * option bytes) :=
  ticket ← pd_push_ticket d;
  Some (ticket, pd_notification_key d ≫= decode_exact decode_base64 32).

Definition push_targets (st : PairedDeviceStore) : list (string * option bytes) := omap push_target (ds_devices st).

(** ** What every store keeps *)

Lemma update_first_const {A} (key : A -> string) (x : A) l :
  key <$> update_first (fun y => key y =s? key x) (fun _ => x) l = key <$> l.
Proof. apply update_first_fmap. intros y Hy. by b2p. Qed.

Lemma existsb_none {A} (p : A -> bool) l : existsb p l = false -> Forall (fun x => p x = false) l.
Proof.
  intros H. apply Forall_forall. intros x Hx. apply not_true_iff_false. intros Hp. apply not_true_iff_false in H.
  apply H, existsb_exists. exists x. by rewrite <- list_elem_of_In.
Qed.

Lemma filter_negb_none {A} (p : A -> bool) l : Forall (fun x => p x = false) l -> List.filter (fun x => negb (p x)) l = l.
Proof. induction 1 as [|x l Hx Hl IH]; [done|]. cbn. rewrite Hx. cbn. by rewrite IH. Qed.

Definition selections_ok (l : list LiveActivitySelection) : Prop :=
  Forall (fun s => LiveActivitySelection_validate s = Ok tt) l /\ NoDup (ls_session_id <$> l)
  /\ len l <= MAX_LIVE_ACTIVITY_SELECTIONS.

Lemma registration_ok ticket l :
  LiveActivityRegistration_validate (mkLiveActivityRegistration ticket l) = Ok tt <->
  valid_push_ticket ticket = true /\ 0 < len l /\ selections_ok l.
Proof.
  unfold LiveActivityRegistration_validate, validate_selections, selections_ok. cbn [lr_ticket lr_selections].
  rewrite rbind_unit_ok, refuse_if_ok, !orb_false_iff, negb_false_iff, N.eqb_neq, N.ltb_ge, each_distinct_ok.
  split; [intros ((( -> & H0) & Hmax) & Hv & Hnd & _)|intros (-> & H0 & Hv & Hnd & Hmax)]; split_and!; try done; [lia..|].
  apply Forall_true. intros x. by apply not_elem_of_nil.
Qed.

Lemma changed_selections_ok change l l' :
  selections_ok l -> changed_selections change l = Ok (Some l') -> selections_ok l'.
Proof.
  intros (Hv & Hnd & Hmax). unfold changed_selections. destruct change as [[s|id]|].
  - rewrite rbind_unit_ok. intros [Hs Hadd]. destruct (existsb _ l) eqn:He.
    + injection Hadd as <-. split_and!; [by apply update_first_Forall|by rewrite update_first_const|].
      unfold len. by rewrite update_first_length.
    + rewrite rbind_unit_ok, refuse_if_ok in Hadd. destruct Hadd as [Hm Hadd]. injection Hadd as <-. b2p.
      split_and!; [by apply Forall_app; repeat constructor| |rewrite len_snoc; lia].
      apply NoDup_fmap_snoc; [done|]. apply existsb_none in He. eapply Forall_impl; [exact He|]. cbn. intros y Hy. by b2p.
  - rewrite rbind_unit_ok. intros [_ [= <-]]. pose proof (filter_sublist (fun s => negb (ls_session_id s =s? id)) l) as Hsub.
    split_and!; [by eapply Forall_sublist|by eapply NoDup_fmap_sublist|]. etrans; [by apply len_sublist|done].
  - case_match; [done|]. by intros [= <-].
Qed.

Lemma selections_ok_perm l k : l ≡ₚ k -> selections_ok k -> selections_ok l.
Proof.
  intros Hp (Hv & Hnd & Hmax). split_and!; [by eapply Permutation_Forall|by rewrite Hp|].
  unfold len in *. rewrite Hp. exact Hmax.
Qed.

(** A device whose tickets and live activity changed is as good as it was. *)
Lemma check_device_parts d :
  check_device d = Ok tt <->
  (exists e, validate_endpoint_id (pd_endpoint_id d) = Ok e)
  /\ is_none (decode_exact decode_base64 32 (pd_transcript_hash d)) = false
  /\ is_some_and (fun key => is_none (decode_exact decode_base64 32 key)) (pd_notification_key d) = false
  /\ is_some_and (fun ticket => negb (valid_push_ticket ticket)) (pd_push_ticket d) = false
  /\ (forall registration, pd_live_activity d = Some registration ->
        pd_notification_key d <> None /\ LiveActivityRegistration_validate registration = Ok tt).
Proof.
  transitivity ((exists e, validate_endpoint_id (pd_endpoint_id d) = Ok e)
    /\ is_none (decode_exact decode_base64 32 (pd_transcript_hash d)) = false
    /\ is_some_and (fun key => is_none (decode_exact decode_base64 32 key)) (pd_notification_key d) = false
    /\ is_some_and (fun ticket => negb (valid_push_ticket ticket)) (pd_push_ticket d) = false
    /\ is_some_and (fun registration => is_none (pd_notification_key d)
         || is_err (LiveActivityRegistration_validate registration)) (pd_live_activity d) = false).
  { unfold check_device. destruct (validate_endpoint_id _) as [e|e]; cbn [rbind].
    - rewrite !rbind_unit_ok, !refuse_if_ok. split; [intros H; split; [by exists e|done]|by intros (_ & ?)].
    - split; [done|by intros ((? & ?) & _)]. }
  do 4 (apply and_iff_compat_l). destruct (pd_live_activity d) as [r|]; cbn; [|done]. rewrite orb_false_iff. split.
  - intros [Hn Hr] ? [= <-]. split; [by destruct (pd_notification_key d)|].
    by destruct (LiveActivityRegistration_validate r) as [[]|].
  - intros H. destruct (H r eq_refl) as [Hn ->]. split; [by destruct (pd_notification_key d)|done].
Qed.

Definition devices_ok (l : list PairedDevice) : Prop :=
  Forall (fun d => check_device d = Ok tt) l /\ NoDup (pd_endpoint_id <$> l).

Lemma check_devices_ok l : check_devices l = Ok tt <-> devices_ok l.
Proof.
  unfold check_devices, devices_ok. rewrite each_distinct_ok. split; [by intros (? & ? & _)|].
  intros [Hc Hnd]. split_and!; [done..|]. apply Forall_true. intros x. by apply not_elem_of_nil.
Qed.

Lemma update_first_found {A} (p : A -> bool) f (P : A -> Prop) l :
  Forall P l -> (forall x, List.find p l = Some x -> P (f x)) -> Forall P (update_first p f l).
Proof.
  intros Hl Hf. induction Hl as [|x l Hx Hl IH]; [constructor|]. cbn in *.
  destruct (p x); constructor; auto.
Qed.

Lemma devices_ok_update id f l :
  (forall d, List.find (has_id id) l = Some d -> check_device d = Ok tt -> check_device (f d) = Ok tt) ->
  (forall d, pd_endpoint_id (f d) = pd_endpoint_id d) -> devices_ok l -> devices_ok (update_first (has_id id) f l).
Proof.
  intros Hf Hid [Hc Hnd]. split; [|by rewrite update_first_fmap]. apply update_first_found; [done|].
  intros d Hd. apply Hf; [done|]. rewrite Forall_forall in Hc. by apply Hc, (find_some_elem _ _ _ Hd).
Qed.

(** What the store relies on of the other crates: what was written reads back, and a key's text is 64
    lowercase hexadecimal digits that parse to it. *)
Record crates_ok : Prop := {
  file_reads file encoded : to_vec_pretty file = Some encoded -> from_slice encoded = Some file;
  key_text : base64_ok encode_base64 decode_base64;
  id_reads e : from_str (to_string e) = Some e;
  id_text e : slen (to_string e) = 64 /\ sall is_lower_hex (to_string e) = true
}.

Lemma new_device_ok e paired_at transcript_hash notification_key :
  crates_ok -> bytes_ok transcript_hash -> bytes_ok notification_key -> len transcript_hash = 32 -> len notification_key = 32 ->
  check_device (new_device (to_string e) paired_at transcript_hash notification_key) = Ok tt.
Proof.
  intros Hc Hbt Hbk Ht Hk. apply check_device_parts. cbn. rewrite !(decode_exact_encoded encode_base64 decode_base64 _ 32) by (done || apply Hc).
  split_and!; try done.
  exists e. unfold validate_endpoint_id. destruct Hc. destruct (id_text0 e) as [-> ->]. cbn. by rewrite id_reads0.
Qed.

(** The devices a file gives when it is loaded. *)
Definition loads (l : list PairedDevice) (disk : Disk) : Prop :=
  forall failed_at, load failed_at disk = Ok (mkPairedDeviceStore l disk).

(** Memory and disk agree. *)
Definition settled (st : PairedDeviceStore) : Prop := loads (ds_devices st) (ds_disk st).

(** What holds of the devices in memory and of those the file holds. *)
Definition both (P : list PairedDevice -> Prop) (st : PairedDeviceStore) : Prop :=
  P (ds_devices st) /\ exists l, P l /\ loads l (ds_disk st).

Lemma loads_private l encoded :
  crates_ok -> to_vec_pretty (mkPairedDevicesFile 1 l) = Some encoded -> devices_ok l ->
  loads l (private_file effective_uid encoded).
Proof.
  intros [] He Hl f. unfold load, private_file, validate_private_file. cbn [fm_is_file fm_is_symlink fm_uid fm_mode fm_nlink].
  rewrite N.eqb_refl. cbn. rewrite (file_reads0 _ _ He). cbn. by rewrite (proj2 (check_devices_ok l) Hl).
Qed.

(** What a write leaves on the disk. *)
Lemma write_file_cases f l disk disk' r :
  crates_ok -> devices_ok l -> write_file f l disk = (disk', r) ->
  (loads l disk' /\ (r = Ok tt \/ f = Some SyncDirectory)) \/ (disk' = disk /\ is_err r = true).
Proof.
  intros Hc Hl. unfold write_file. destruct (to_vec_pretty _) as [encoded|] eqn:He; [|intros [= <- <-]; by right].
  pose proof (loads_private l encoded Hc He Hl). destruct (atomic_write_private _ _ _ _) as [d w] eqn:Hw.
  apply atomic_write_cases in Hw as [[-> Hr]|[-> Hr]]; intros [= <- <-]; [left|right; by destruct w].
  split; [done|]. by destruct Hr as [->| ->]; [left|right].
Qed.

Lemma persist_cases f updated st :
  crates_ok -> devices_ok updated ->
  let '(st', r) := persist f updated st in
  (settled st' /\ r = Ok tt /\ ds_devices st' = updated)
  \/ (is_err r = true /\ ds_devices st' = ds_devices st
      /\ (ds_disk st' = ds_disk st \/ (f = Some SyncDirectory /\ loads updated (ds_disk st')))).
Proof.
  intros Hc Hl. unfold persist. destruct (write_file f updated (ds_disk st)) as [disk r] eqn:Hw.
  apply write_file_cases in Hw as [[Hd Hr]|[-> Hr]]; [| |done..].
  - destruct r as [[]|e]; [by left|]. right. destruct Hr as [Hr| ->]; [done|]. by auto.
  - destruct r as [|e]; [done|]. right. by auto.
Qed.

Lemma persist_both P f updated st :
  crates_ok -> (forall l, P l -> devices_ok l) -> P updated -> both P st -> both P (persist f updated st).1.
Proof.
  intros Hc HP Hu (Hm & l & Hl & Hd). pose proof (persist_cases f updated st Hc (HP _ Hu)) as Hp.
  destruct (persist f updated st) as [st' r]. cbn [fst].
  destruct Hp as [(Hs & _ & Hds)|(_ & Hds & [Hdisk|[_ Hdisk]])]; unfold both; rewrite Hds.
  - split; [done|]. exists updated. split; [done|]. unfold settled in Hs. by rewrite Hds in Hs.
  - split; [done|]. exists l. by rewrite Hdisk.
  - split; [done|]. by exists updated.
Qed.

Lemma persist_settled f updated st :
  crates_ok -> devices_ok updated -> f <> Some SyncDirectory -> settled st -> settled (persist f updated st).1.
Proof.
  intros Hc Hu Hf Hs. pose proof (persist_cases f updated st Hc Hu) as Hp. destruct (persist f updated st) as [st' r]. cbn [fst].
  destruct Hp as [(? & _)|(_ & Hds & [Hdisk|[Hsync _]])]; [done| |done]. unfold settled. by rewrite Hds, Hdisk.
Qed.

(** ** The operations *)

Inductive DeviceOperation :=
| Upsert (endpoint_id : EndpointId) (paired_at : N) (transcript_hash notification_key : bytes)
| SetPushTicket (endpoint_id : EndpointId) (ticket : option string)
| UpdateLiveActivity (endpoint_id : EndpointId) (ticket : option string) (change : option LiveActivitySelectionChange)
| RemoveDevice (endpoint_id : string).

(** The hashes and keys are arrays of 32 bytes. *)
Definition operation_typed (op : DeviceOperation) : Prop :=
  match op with
  | Upsert _ _ transcript_hash notification_key =>
      bytes_ok transcript_hash /\ bytes_ok notification_key /\ len transcript_hash = 32 /\ len notification_key = 32
  | _ => True
  end.

Definition operate (op : DeviceOperation) (failed_at : option write_step) (st : PairedDeviceStore) : PairedDeviceStore :=
  match op with
  | Upsert e paired_at transcript_hash key => (upsert failed_at e paired_at transcript_hash key st).1
  | SetPushTicket e ticket => (set_push_ticket failed_at e ticket st).1
  | UpdateLiveActivity e ticket change => (update_live_activity failed_at e ticket change st).1
  | RemoveDevice id => (remove failed_at id st).1
  end.

Definition operate_all (ops : list (DeviceOperation * option write_step)) (st : PairedDeviceStore) : PairedDeviceStore :=
  foldl (fun st '(op, failed_at) => operate op failed_at st) st ops.

(** What an operation may write in place of [l]. *)
Inductive writes (l : list PairedDevice) : DeviceOperation -> list PairedDevice -> Prop :=
| WritesUpsert e paired_at transcript_hash key :
    writes l (Upsert e paired_at transcript_hash key)
      (upserted (new_device (to_string e) paired_at transcript_hash key) l)
| WritesTicket e ticket :
    is_some_and (fun ticket => negb (valid_push_ticket ticket)) ticket = false ->
    writes l (SetPushTicket e ticket) (update_first (has_id (to_string e)) (set_ticket ticket) l)
| WritesLive e ticket change registration d :
    List.find (has_id (to_string e)) l = Some d -> pd_notification_key d <> None ->
    (devices_ok l -> forall r, registration = Some r -> LiveActivityRegistration_validate r = Ok tt) ->
    writes l (UpdateLiveActivity e ticket change) (update_first (has_id (to_string e)) (set_live_activity registration) l)
| WritesRemove id : writes l (RemoveDevice id) (List.filter (fun d => negb (has_id id d)) l).

Lemma persist_then_fst {A} f updated st (v : A) : (persist_then f updated st v).1 = (persist f updated st).1.
Proof. unfold persist_then. by destruct (persist f updated st). Qed.

Lemma found_device_ok l id d : devices_ok l -> List.find (has_id id) l = Some d -> check_device d = Ok tt /\ pd_endpoint_id d = id.
Proof.
  intros [Hc _] [Hd Hid]%find_some_elem. rewrite Forall_forall in Hc. split; [by apply Hc|]. unfold has_id in Hid. by b2p.
Qed.

Lemma device_selections_ok d : check_device d = Ok tt -> selections_ok (from_option lr_selections [] (pd_live_activity d)).
Proof.
  intros (_ & _ & _ & _ & H)%check_device_parts. destruct (pd_live_activity d) as [[t l]|]; cbn.
  - destruct (H _ eq_refl) as [_ Hr]. by apply registration_ok in Hr as (_ & _ & ?).
  - split_and!; [by constructor..|]. by rewrite len_nil.
Qed.

Lemma operate_writes op f st :
  operate op f st = st \/ exists updated, writes (ds_devices st) op updated /\ operate op f st = (persist f updated st).1.
Proof.
  destruct op as [e at_ th key|e ticket|e ticket change|id]; cbn [operate].
  - right. eexists. split; [constructor|done].
  - unfold set_push_ticket. destruct (is_some_and _ ticket) eqn:Ht; [by left|].
    destruct (List.find _ _) as [d|]; [|by left]. case_bool_decide; [by left|]. right. eexists. by split; [by constructor|].
  - unfold update_live_activity. destruct (is_some_and _ ticket) eqn:Ht; [by left|].
    destruct (List.find _ _) as [d|] eqn:Hd; [|by left]. destruct (is_none (pd_notification_key d)) eqn:Hk; [by left|].
    assert (pd_notification_key d <> None) as Hkey by (by destruct (pd_notification_key d)).
    destruct ticket as [ticket|].
    + destruct (changed_selections _ _) as [[l|]|] eqn:Hc; [|by left..]. right. rewrite persist_then_fst.
      eexists. split; [|done]. apply (WritesLive _ e _ _ _ d); [done..|]. intros Hok r Hr.
      destruct (N.ltb_spec 0 (len (sort_by_text ls_session_id l))) as [Hpos|]; [|done]. injection Hr as <-. apply registration_ok.
      split_and!; [cbn in Ht; by b2p|done|]. apply (selections_ok_perm _ l); [by apply sort_by_text_perm|].
      eapply changed_selections_ok; [|exact Hc]. apply device_selections_ok. by eapply found_device_ok.
    + destruct (is_some change); [by left|]. destruct (is_none (pd_live_activity d)); [by left|]. right. rewrite persist_then_fst.
      eexists. split; [|done]. by apply (WritesLive _ e _ _ _ d).
  - unfold remove. case_match; [by left|]. right. rewrite persist_then_fst. eexists. by split; [by constructor|].
Qed.

Lemma upserted_ok record l : check_device record = Ok tt -> devices_ok l -> devices_ok (upserted record l).
Proof.
  intros Hr [Hc Hnd]. unfold upserted. destruct (existsb _ l) eqn:He.
  - split; [by apply update_first_Forall|]. unfold has_id. by rewrite update_first_const.
  - unfold devices_ok. rewrite sort_by_text_perm. split; [by apply Forall_app; repeat constructor|].
    apply NoDup_fmap_snoc; [done|]. apply existsb_none in He. eapply Forall_impl; [exact He|]. unfold has_id. cbn.
    intros d Hd. by b2p.
Qed.

Lemma writes_ok op l l' : crates_ok -> operation_typed op -> devices_ok l -> writes l op l' -> devices_ok l'.
Proof.
  intros Hc Hop Hl Hw. destruct Hw as [e at_ th key|e ticket Ht|e ticket change r d Hd Hk Hr|id].
  - destruct Hop as (? & ? & ? & ?). by apply upserted_ok; [apply new_device_ok|].
  - apply devices_ok_update; [|done..]. intros d' _. rewrite !check_device_parts. naive_solver.
  - specialize (Hr Hl). apply devices_ok_update; [|done..]. intros d'. rewrite Hd. intros [= <-].
    rewrite !check_device_parts. cbn. naive_solver.
  - destruct Hl as [Hck Hnd]. pose proof (filter_sublist (fun d => negb (has_id id d)) l).
    split; [by eapply Forall_sublist|by eapply NoDup_fmap_sublist].
Qed.

(** A device that is nowhere is put there by pairing it only. *)
Definition absent (id : string) (l : list PairedDevice) : Prop := Forall (fun d => pd_endpoint_id d <> id) l.

Lemma writes_absent id op l l' :
  (forall e paired_at th key, op = Upsert e paired_at th key -> to_string e <> id) ->
  absent id l -> writes l op l' -> absent id l'.
Proof.
  intros Hop Ha Hw. unfold absent in *. destruct Hw as [e at_ th key|e ticket Ht|e ticket change r d Hd Hk Hr|id'].
  - specialize (Hop e at_ th key eq_refl). unfold upserted. case_match; [by apply update_first_Forall|].
    rewrite sort_by_text_perm. by apply Forall_app; repeat constructor.
  - by apply update_first_Forall.
  - by apply update_first_Forall.
  - eapply Forall_sublist; [apply filter_sublist|done].
Qed.

Lemma operate_both P op f st :
  crates_ok -> (forall l, P l -> devices_ok l) -> (forall l l', P l -> writes l op l' -> P l') ->
  both P st -> both P (operate op f st).
Proof.
  intros Hc HP Hw Hb. destruct (operate_writes op f st) as [->|(updated & Hu & ->)]; [done|].
  apply persist_both; [done..| |done]. eapply Hw; [apply Hb|done].
Qed.

Lemma operate_all_both P ops st :
  crates_ok -> (forall l, P l -> devices_ok l) ->
  Forall (fun '(op, _) => forall l l', P l -> writes l op l' -> P l') ops -> both P st -> both P (operate_all ops st).
Proof.
  intros Hc HP Hops. revert st. induction Hops as [|[op f] ops Hop Hops IH]; intros st Hb; [done|].
  apply (IH (operate op f st)). by apply operate_both.
Qed.

Lemma operate_settled op f st :
  crates_ok -> operation_typed op -> devices_ok (ds_devices st) -> f <> Some SyncDirectory -> settled st -> settled (operate op f st).
Proof.
  intros Hc Hop Hd Hf Hs. destruct (operate_writes op f st) as [->|(updated & Hu & ->)]; [done|].
  apply persist_settled; [done| |done..]. by eapply writes_ok.
Qed.

Lemma loaded_both failed_at disk st : crates_ok -> load failed_at disk = Ok st -> both devices_ok st /\ settled st.
Proof.
  intros Hc Hl. assert (devices_ok (ds_devices st) /\ settled st) as [Hd Hs]; [|split; [split; [done|by eexists]|done]].
  destruct disk as [| |metadata contents]; [|done|].
  - cbn in Hl. destruct (write_file failed_at [] NotFound) as [disk [[]|]] eqn:Hw; [|done]. injection Hl as <-.
    assert (devices_ok []) as H0 by (split; constructor). split; [done|].
    by destruct (write_file_cases _ _ _ _ _ Hc H0 Hw) as [[? _]|[_ ?]].
  - unfold settled, loads. pose proof Hl as Hl'. cbn [load] in Hl'. rewrite rbind_unit_ok, rbind_ok in Hl'.
    destruct Hl' as (_ & encoded & _ & H). rewrite rbind_ok in H. destruct H as (file & _ & H).
    rewrite !rbind_unit_ok, check_devices_ok in H. destruct H as (_ & Hok & [= <-]). cbn. split; [done|]. intros f.
    exact Hl.
Qed.

(** C31: the daemon can always start again on what it wrote: after any sequence of pairings, tickets,
    live activities and removals, with any of the writes failing at any point, the paired devices' file
    passes every check of [load], no device is in it twice, and unless a write failed after its rename
    it holds exactly the devices the daemon knew. *)
Theorem devices_survive_restart failed_at disk st ops :
  crates_ok -> load failed_at disk = Ok st -> Forall (fun '(op, _) => operation_typed op) ops ->
  let st' := operate_all ops st in
  devices_ok (ds_devices st')
  /\ (exists l, loads l (ds_disk st') /\ NoDup (pd_endpoint_id <$> l))
  /\ (Forall (fun '(_, f) => f <> Some SyncDirectory) ops -> loads (ds_devices st') (ds_disk st')).
Proof.
  intros Hc Hl Hops st'. apply loaded_both in Hl as [Hb Hs]; [|done].
  assert (forall ops st, Forall (fun '(op, _) => operation_typed op) ops -> both devices_ok st -> both devices_ok (operate_all ops st)) as Hall.
  { intros ops' s Ho. apply operate_all_both; [done..|]. eapply Forall_impl; [exact Ho|]. intros [op f] Hop l l'. by apply writes_ok. }
  destruct (Hall ops st Hops Hb) as (Hm & l & Hl & Hd). split; [done|]. split; [exists l; split; [done|apply Hl]|].
  subst st'. clear Hm Hd Hl. revert st Hb Hs. induction Hops as [|[op f] ops Hop Hops IH]; intros st Hb Hs; [done|].
  intros [Hf Hfs]%Forall_cons. apply (IH (operate op f st)); [|by apply operate_settled; [..|apply Hb| |]|done].
  apply (Hall [(op, f)]); [by repeat constructor|done].
Qed.

(** C9: an unpaired device stays unpaired: once [remove] has dropped it, neither the daemon nor any daemon
    started on its file knows it or holds anything that reaches it, whatever is registered or fails
    meanwhile, until it is paired again. *)
Theorem revoked_stays_revoked failed_at id st st' removed ops :
  crates_ok -> both devices_ok st -> settled st \/ removed = true ->
  remove failed_at id st = (st', Ok removed) ->
  Forall (fun '(op, _) => operation_typed op) ops ->
  (forall e paired_at th key f, (Upsert e paired_at th key, f) ∈ ops -> to_string e <> id) ->
  let st2 := operate_all ops st' in
  (forall e, to_string e = id -> contains e st2 = false)
  /\ absent id (ds_devices st2)
  /\ Forall (fun target => lt_endpoint_id target <> id) (live_activity_targets st2)
  /\ exists l, loads l (ds_disk st2) /\ absent id l.
Proof.
  intros Hc Hb Hset Hrem Hops Hfresh st2. set (P l := devices_ok l /\ absent id l).
  assert (both P st') as Hb'.
  { unfold remove in Hrem. set (updated := List.filter _ _) in Hrem.
    assert (devices_ok updated) as Hu by (eapply (writes_ok (RemoveDevice id)); [done|done|apply Hb|constructor]).
    assert (absent id updated) as Ha.
    { apply Forall_forall. intros d Hd. apply list_elem_of_In, List.filter_In in Hd as [_ Hd]. unfold has_id in Hd. by b2p. }
    destruct (N.eqb_spec (len updated) (len (ds_devices st))) as [He|He].
    - assert (updated = ds_devices st) as Heq.
      { apply sublist_full; [apply filter_sublist|]. by unfold len in He; lia. }
      assert (st' = st) as -> by congruence. assert (false = removed) as <- by congruence.
      destruct Hset as [Hset|]; [|done]. rewrite Heq in *. split; [done|]. by exists (ds_devices st).
    - assert ((persist_then failed_at updated st true).1 = st') as Hst by (by rewrite Hrem).
      rewrite persist_then_fst in Hst. pose proof (persist_cases failed_at updated st Hc Hu) as Hp.
      unfold persist_then in Hrem. destruct (persist failed_at updated st) as [s r]. cbn in Hst. subst s.
      destruct Hp as [(Hs & _ & Hds)|(Hr & _)]; [|by destruct r]. split; [by rewrite Hds|]. exists updated. split; [done|].
      unfold settled in Hs. by rewrite Hds in Hs. }
  assert (both P st2) as [[_ Ha] (l & [_ Hal] & Hl)].
  { apply operate_all_both; [done|by intros l [? _]| |done]. apply Forall_forall. intros [op f] Hin l l' [Hl Ha] Hw.
    rewrite Forall_forall in Hops. split; [eapply writes_ok; [done|apply (Hops _ Hin)|done..]|].
    eapply writes_absent; [|done..]. intros e paired_at th key ->. by eapply Hfresh. }
  split_and!; [|done| |by exists l].
  - intros e <-. unfold contains. apply not_true_iff_false. rewrite existsb_exists. intros (d & Hd & Hid).
    apply list_elem_of_In in Hd. unfold absent in Ha. rewrite Forall_forall in Ha. apply (Ha d Hd). unfold has_id in Hid. by b2p.
  - apply Forall_forall. intros t (d & Hd & Ht)%list_elem_of_omap. unfold absent in Ha. rewrite Forall_forall in Ha. specialize (Ha d Hd).
    unfold live_activity_target in Ht. destruct (pd_live_activity d); [|done]. destruct (pd_notification_key d); [|done]. cbn in Ht.
    destruct (decode_exact _ _ _); [|done]. by injection Ht as <-.
Qed.

(** ** Live activities as a map *)

(** What a phone follows, by session. *)
Definition selection_map (l : list LiveActivitySelection) : gmap string LiveActivitySelection :=
  list_to_map ((fun s => (ls_session_id s, s)) <$> l).

Definition followed (d : PairedDevice) : gmap string LiveActivitySelection :=
  selection_map (from_option lr_selections [] (pd_live_activity d)).

(** The change as the phone means it. *)
Definition apply_change (change : option LiveActivitySelectionChange) (m : gmap string LiveActivitySelection)
  : gmap string LiveActivitySelection :=
  match change with
  | Some (Add selection) => <[ls_session_id selection := selection]> m
  | Some (Remove session_id) => delete session_id m
  | None => m
  end.

Lemma selection_map_find l id : selection_map l !! id = List.find (fun s => ls_session_id s =s? id) l.
Proof.
  unfold selection_map. induction l as [|s l IH]; [done|]. cbn. rewrite lookup_insert. cbn in IH.
  destruct (String.eqb_spec (ls_session_id s) id) as [->|Hne]; [by rewrite decide_True|by rewrite decide_False].
Qed.

Lemma selection_map_perm l k : l ≡ₚ k -> NoDup (ls_session_id <$> k) -> selection_map l = selection_map k.
Proof.
  intros Hp Hnd. apply list_to_map_proper; [|by rewrite Hp]. rewrite Hp, <- list_fmap_compose. exact Hnd.
Qed.

Lemma selection_map_size l : NoDup (ls_session_id <$> l) -> size (selection_map l) = length l.
Proof.
  intros Hnd. unfold selection_map. rewrite map_size_list_to_map; [by rewrite length_fmap|].
  by rewrite <- list_fmap_compose.
Qed.

Lemma selection_map_perm_app l s :
  NoDup (ls_session_id <$> l ++ [s]) -> selection_map (l ++ [s]) = <[ls_session_id s := s]> (selection_map l).
Proof.
  intros Hnd. rewrite (selection_map_perm _ (s :: l)); [done|by rewrite Permutation_app_comm|].
  by rewrite <- (Permutation_cons_append l s) in Hnd.
Qed.

Lemma changed_selections_map change l l' :
  selections_ok l -> changed_selections change l = Ok (Some l') -> selection_map l' = apply_change change (selection_map l).
Proof.
  intros Hl Hc. pose proof (changed_selections_ok _ _ _ Hl Hc) as (_ & Hnd & _). revert Hc.
  unfold changed_selections. destruct change as [[s|id]|]; cbn [apply_change].
  - rewrite rbind_unit_ok. intros [Hs Hadd]. destruct (existsb _ l) eqn:He.
    + injection Hadd as <-. apply map_eq. intros id. rewrite lookup_insert, !selection_map_find. clear Hnd Hl Hs.
      induction l as [|x l IH]; [done|]. cbn in *. destruct (String.eqb_spec (ls_session_id x) (ls_session_id s)) as [Hx|Hx]; cbn in *.
      * destruct (String.eqb_spec (ls_session_id s) id) as [->|Hne]; [by rewrite decide_True|rewrite decide_False by done].
        by rewrite (proj2 (String.eqb_neq (ls_session_id x) id)) by congruence.
      * rewrite IH by done. case_decide as Hid; [|done]. by rewrite (proj2 (String.eqb_neq (ls_session_id x) id)) by congruence.
    + rewrite rbind_unit_ok in Hadd. destruct Hadd as [_ [= <-]]. by apply selection_map_perm_app.
  - rewrite rbind_unit_ok. intros [_ [= <-]]. apply map_eq. intros k. rewrite lookup_delete, !selection_map_find. clear Hnd Hl.
    induction l as [|x l IH]; cbn [List.filter List.find]; [by case_decide|].
    destruct (String.eqb_spec (ls_session_id x) id) as [Hx|Hx]; cbn [negb List.find].
    + rewrite IH. case_decide as Hid; [done|]. by rewrite (proj2 (String.eqb_neq (ls_session_id x) k)) by congruence.
    + destruct (String.eqb_spec (ls_session_id x) k) as [Hk|Hk]; [by rewrite decide_False by congruence|done].
  - case_match; [done|]. by intros [= <-].
Qed.

Lemma update_first_other l id f d :
  pd_endpoint_id d <> id -> (forall x, pd_endpoint_id (f x) = pd_endpoint_id x) ->
  d ∈ update_first (has_id id) f l <-> d ∈ l.
Proof.
  intros Hd Hf. induction l as [|x l IH]; [done|]. cbn. destruct (has_id id x) eqn:Hx; rewrite !elem_of_cons; [|by rewrite IH].
  unfold has_id in Hx. b2p. split; (intros [->|H]; [|by right]); [by rewrite Hf in Hd|done].
Qed.

Lemma find_updated l id f d :
  List.find (has_id id) l = Some d -> (forall x, pd_endpoint_id (f x) = pd_endpoint_id x) ->
  List.find (has_id id) (update_first (has_id id) f l) = Some (f d).
Proof.
  intros Hd Hf. rewrite update_first_find; [by rewrite Hd|]. intros x. unfold has_id. by rewrite Hf.
Qed.

Lemma devices_persist_then_ok {A} f updated st st' (v w : A) :
  persist_then f updated st v = (st', Ok w) -> ds_devices st' = updated /\ w = v.
Proof. unfold persist_then, persist. destruct (write_file _ _ _) as [disk [[]|]]; by intros [= <- <-]. Qed.

Lemma changed_selections_none change l : changed_selections change l = Ok None -> change = None /\ len l = 0.
Proof.
  unfold changed_selections. destruct change as [[s|id]|].
  - rewrite rbind_unit_ok. intros [_ H]. case_match; [done|]. by apply rbind_unit_ok in H as [_ H].
  - rewrite rbind_unit_ok. by intros [_ H].
  - case_match; [|done]. by b2p.
Qed.

(** A phone's Live Activity is the map it thinks it is: an update that succeeds adds, replaces or
    removes exactly the session named, answers how many are followed, of which there are never more than
    8, keeps the new ticket while any is, and touches neither the device's alert ticket and keys nor any
    other device. *)
Theorem update_live_activity_refines failed_at e ticket change st st' n d :
  devices_ok (ds_devices st) ->
  update_live_activity failed_at e (Some ticket) change st = (st', Ok n) ->
  List.find (has_id (to_string e)) (ds_devices st) = Some d ->
  exists registration,
    List.find (has_id (to_string e)) (ds_devices st') = Some (set_live_activity registration d)
    /\ followed (set_live_activity registration d) = apply_change change (followed d)
    /\ N.of_nat (size (apply_change change (followed d))) = n /\ n <= MAX_LIVE_ACTIVITY_SELECTIONS
    /\ (lr_ticket <$> registration = if 0 <? n then Some ticket else None)
    /\ (forall other, pd_endpoint_id other <> to_string e -> (other ∈ ds_devices st' <-> other ∈ ds_devices st)).
Proof.
  intros Hok Hup Hd. destruct (found_device_ok _ _ _ Hok Hd) as [Hdev _]. pose proof (device_selections_ok d Hdev) as Hsel.
  unfold update_live_activity in Hup. destruct (is_some_and _ _); [done|]. rewrite Hd in Hup.
  destruct (is_none (pd_notification_key d)); [done|].
  destruct (changed_selections _ _) as [[l|]|] eqn:Hch; [| |done].
  - apply devices_persist_then_ok in Hup as [Hds ->]. eexists. rewrite Hds.
    pose proof (changed_selections_ok _ _ _ Hsel Hch) as Hlok. pose proof (sort_by_text_perm ls_session_id l) as Hp.
    assert (selection_map (sort_by_text ls_session_id l) = apply_change change (followed d)) as Hmap.
    { unfold followed. rewrite <- (changed_selections_map _ _ _ Hsel Hch). apply selection_map_perm; [done|apply Hlok]. }
    destruct (selections_ok_perm _ _ Hp Hlok) as (_ & Hnd & Hmax). rewrite <- Hmap.
    split_and!; [by apply find_updated| | |done| |intros other Ho; by apply update_first_other].
    + unfold followed. cbn. case_match eqn:Hlen; [done|]. b2p. destruct (sort_by_text _ l); [done|].
      rewrite len_cons in Hlen. lia.
    + by rewrite selection_map_size.
    + by case_match.
  - assert (st' = st) as -> by congruence. assert (n = 0) as -> by congruence. exists (pd_live_activity d).
    assert (set_live_activity (pd_live_activity d) d = d) as -> by (by destruct d).
    apply changed_selections_none in Hch as [-> Hlen].
    assert (pd_live_activity d = None) as Hnone.
    { apply check_device_parts in Hdev as (_ & _ & _ & _ & Hreg). destruct (pd_live_activity d) as [[t l]|]; [|done].
      destruct (Hreg _ eq_refl) as [_ (_ & Hpos & _)%registration_ok]. cbn in Hlen. lia. }
    unfold followed. by rewrite Hnone.
Qed.

Lemma existsb_upserted record l : existsb (has_id (pd_endpoint_id record)) (upserted record l) = true.
Proof.
  unfold upserted. destruct (existsb _ l) eqn:He.
  - apply existsb_exists in He as (d & Hd & Hid). clear -Hd Hid. induction l as [|x l IH]; [done|]. cbn.
    destruct (has_id _ x) eqn:Hx; cbn; [by unfold has_id; rewrite String.eqb_refl|]. rewrite Hx. cbn. apply IH.
    destruct Hd as [->|]; [congruence|done].
  - apply existsb_exists. exists record. split; [|by unfold has_id; rewrite String.eqb_refl].
    apply list_elem_of_In. rewrite sort_by_text_perm. set_solver.
Qed.

(** A pairing that is reported as failed can still take: when the write fails after its rename, the
    daemon answers an error, does not know the device and finds nothing to unpair, yet the file holds the
    device and the next daemon to start admits it. *)
Theorem unsynced_upsert_authorizes e paired_at th key st st' r :
  crates_ok -> operation_typed (Upsert e paired_at th key) -> devices_ok (ds_devices st) -> contains e st = false ->
  to_vec_pretty (mkPairedDevicesFile 1 (upserted (new_device (to_string e) paired_at th key) (ds_devices st))) <> None ->
  upsert (Some SyncDirectory) e paired_at th key st = (st', r) ->
  r = Err (FileRefused WriteError) /\ contains e st' = false
  /\ (forall failed_at, remove failed_at (to_string e) st' = (st', Ok false))
  /\ forall failed_at, exists st2, load failed_at (ds_disk st') = Ok st2 /\ contains e st2 = true.
Proof.
  intros Hc (Hbt & Hbk & Ht & Hk) Hok Hnot Henc. unfold upsert, persist, write_file. destruct (to_vec_pretty _) as [encoded|] eqn:He; [|done].
  cbn [atomic_write_private]. intros [= <- <-]. split_and!; [done..| |].
  - intros f. unfold remove. cbn [ds_devices]. rewrite (filter_negb_none _ _ (existsb_none _ _ Hnot)).
    by rewrite N.eqb_refl.
  - intros f. eexists. split; [apply (loads_private _ _ Hc He)|apply (existsb_upserted (new_device _ _ _ _))].
    apply upserted_ok; [by apply new_device_ok|done].
Qed.
End store.
