(* ===== verification/RateWindow.v ===== *)
(** Sliding windows of instants, as the host's rate limits keep them: a queue whose stale front is popped
    before it is counted. *)
From S2P Require Import Prelude.

Local Open Scope N_scope.

Definition ascending : list N -> Prop := StronglySorted N.le.

(** The instants a log holds under a name. *)
Definition times_of (id : string) (log : list (string * N)) : list N := snd <$> List.filter (fun '(e, _) => e =s? id) log.

Lemma times_of_snoc id log e t : times_of id (log ++ [(e, t)]) = if e =s? id then times_of id log ++ [t] else times_of id log.
Proof.
  unfold times_of. rewrite List.filter_app. cbn. destruct (e =s? id); [by rewrite fmap_app|by rewrite app_nil_r].
Qed.

Lemma times_bounded now log id : Forall (fun '(_, t) => t <= now) log -> Forall (fun t => t <= now) (times_of id log).
Proof.
  intros Hall. unfold times_of. rewrite Forall_fmap. eapply Forall_sublist; [apply filter_sublist|].
  eapply Forall_impl; [exact Hall|]. by intros [].
Qed.

Section span.
Context (span : N).

(** [while front is stale { pop_front() }]. *)
Fixpoint pop_stale (now : N) (l : list N) : list N :=
  match l with
  | attempt :: rest => if span <=? now - attempt then pop_stale now rest else l
  | [] => []
  end.

Definition recent (now : N) (l : list N) : list N := List.filter (fun a => now - a <? span) l.

(** Those of the span that ends at [now]. *)
Definition window (now : N) (l : list N) : list N :=
  List.filter (fun a => (a <=? now) && (now - a <? span)) l.

Lemma pop_stale_recent now l : ascending l -> pop_stale now l = recent now l.
Proof.
  induction 1 as [|a l Hs IH Hall]; [done|]. cbn [pop_stale recent List.filter].
  destruct (N.leb_spec span (now - a)) as [Hle|Hlt].
  - by rewrite (proj2 (N.ltb_ge _ _)).
  - rewrite (proj2 (N.ltb_lt _ _)) by done. f_equal. clear IH. symmetry. unfold recent.
    induction Hall as [|b l Hab Hall IH]; [done|]. cbn. rewrite (proj2 (N.ltb_lt _ _)) by lia. f_equal. apply IH.
    by apply StronglySorted_inv in Hs as [? _].
Qed.

Lemma recent_recent now later l : now <= later -> recent later (recent now l) = recent later l.
Proof.
  intros Hle. unfold recent. induction l as [|a l IH]; [done|]. cbn [List.filter].
  destruct (N.ltb_spec (now - a) span); cbn [List.filter]; [by rewrite IH|].
  by rewrite (proj2 (N.ltb_ge _ _)) by lia.
Qed.

Lemma recent_ascending now l : ascending l -> ascending (recent now l).
Proof. apply StronglySorted_sublist, filter_sublist. Qed.

Lemma window_recent t later l : t <= later -> len (window later l) <= len (recent t l).
Proof.
  intros Hle. unfold window, recent. induction l as [|a l IH]; [done|]. cbn [List.filter].
  destruct (N.leb_spec a later), (N.ltb_spec (later - a) span), (N.ltb_spec (t - a) span);
    cbn [andb]; rewrite ?len_cons; lia.
Qed.

Lemma window_snoc t l a :
  len (window t (l ++ [a])) = len (window t l) + (if (a <=? t) && (t - a <? span) then 1 else 0).
Proof. unfold window. rewrite List.filter_app, len_app. f_equal. cbn. by case_match. Qed.

Lemma recent_snoc t l a : recent t (l ++ [a]) = recent t l ++ (if t - a <? span then [a] else []).
Proof. unfold recent. by rewrite List.filter_app. Qed.

Lemma ascending_snoc l a : ascending l -> Forall (fun b => b <= a) l -> ascending (l ++ [a]).
Proof.
  intros Hs Hall. apply StronglySorted_app_2; [|done|repeat constructor]. intros x y Hx ->%list_elem_of_singleton.
  rewrite Forall_forall in Hall. by apply Hall.
Qed.

End span.
