(* ===== verification/Admission.v ===== *)
(** The leases of [daemon.rs]: how many connections, terminals and subscriptions each device holds, which
    of them a newer one supersedes, and which multiplexer session a device's terminal is on. *)
From S2P Require Import Prelude Text HostProtocol.

Local Open Scope N_scope.

Definition MAX_NORMAL_CONNECTIONS : N := 16.
Definition MAX_NORMAL_CONNECTIONS_PER_ENDPOINT : N := 2.
Definition MAX_ACTIVE_PTYS : N := 8.
Definition MAX_ACTIVE_PTYS_PER_ENDPOINT : N := 2.
Definition MAX_ACTIVE_AGENT_SUBSCRIPTIONS : N := 16.
Definition MAX_PAIRING_CONNECTIONS : N := 16.
Definition CONNECTION_SUPERSEDED : N := 260.

(** ** The leases of each device *)

Record ConnectionAdmissions := mkConnectionAdmissions {
  ca_by_endpoint : gmap string (gset N); ca_total : N }.

Definition ConnectionAdmissions_default : ConnectionAdmissions := mkConnectionAdmissions ∅ 0.

Definition tokens_of (a : ConnectionAdmissions) (endpoint : string) : gset N :=
  default ∅ (ca_by_endpoint a !! endpoint).

(** [by_endpoint.entry(endpoint).or_default().insert(token); total += 1]. *)
Definition insert_lease (endpoint : string) (token : N) (a : ConnectionAdmissions) : ConnectionAdmissions :=
  mkConnectionAdmissions (<[endpoint := {[token]} ∪ tokens_of a endpoint]> (ca_by_endpoint a)) (ca_total a + 1).

(** [token] is random. *)
Definition try_add_with_limits (endpoint : string) (global_limit endpoint_limit token : N) (a : ConnectionAdmissions)
  : ConnectionAdmissions * option (string * N) :=
  if (global_limit <=? ca_total a) || (endpoint_limit <=? N.of_nat (size (tokens_of a endpoint))) then (a, None)
  else (insert_lease endpoint token a, Some (endpoint, token)).

Definition try_add (endpoint : string) (token : N) (a : ConnectionAdmissions) : ConnectionAdmissions * option (string * N) :=
  try_add_with_limits endpoint MAX_NORMAL_CONNECTIONS MAX_NORMAL_CONNECTIONS_PER_ENDPOINT token a.

Definition evict_endpoint (endpoint : string) (a : ConnectionAdmissions) : ConnectionAdmissions * list N :=
  match ca_by_endpoint a !! endpoint with
  | None => (a, [])
  | Some tokens =>
      (mkConnectionAdmissions (delete endpoint (ca_by_endpoint a)) (ca_total a - N.of_nat (size tokens)), elements tokens)
  end.

Definition try_add_superseding (endpoint : string) (global_limit token : N) (a : ConnectionAdmissions)
  : ConnectionAdmissions * option (string * N) :=
  let a := (evict_endpoint endpoint a).1 in
  if global_limit <=? ca_total a then (a, None)
  else (insert_lease endpoint token a, Some (endpoint, token)).

(** [ConnectionAdmissions::remove]; what [Drop] calls, with a token that may be gone already. *)
Definition remove_lease (endpoint : string) (token : N) (a : ConnectionAdmissions) : ConnectionAdmissions :=
  match ca_by_endpoint a !! endpoint with
  | None => a
  | Some tokens =>
      let total := if bool_decide (token ∈ tokens) then ca_total a - 1 else ca_total a in
      let tokens := tokens ∖ {[token]} in
      mkConnectionAdmissions
        (if bool_decide (tokens = ∅) then delete endpoint (ca_by_endpoint a) else <[endpoint := tokens]> (ca_by_endpoint a))
        total
  end.

Definition short_endpoint_text (endpoint : string) : string := sconcat (take 10 (chars endpoint)).

(** ** Connections *)

Section connections.
Context {Connection : Type}.

(** The leases of normal connections, the handles they are closed by, and the connections closed. *)
Record NormalConnections := mkNormalConnections {
  nc_admissions : ConnectionAdmissions; nc_handles : gmap N Connection; nc_closed : list (Connection * N) }.

Definition close_handle (s : NormalConnections) (old : N) : NormalConnections :=
  match nc_handles s !! old with
  | Some stale =>
      mkNormalConnections (nc_admissions s) (delete old (nc_handles s)) (nc_closed s ++ [(stale, CONNECTION_SUPERSEDED)])
  | None => s
  end.

(** [NormalConnectionLease::try_new] up to the handles: the lease and the tokens it superseded. *)
Definition try_lease (endpoint : string) (token : N) (s : NormalConnections)
  : NormalConnections * option (string * N * list N) :=
  match try_add endpoint token (nc_admissions s) with
  | (a, Some lease) => (mkNormalConnections a (nc_handles s) (nc_closed s), Some (lease, []))
  | (a, None) =>
      let '(a, evicted) := evict_endpoint endpoint a in
      let s := mkNormalConnections a (nc_handles s) (nc_closed s) in
      match evicted with
      | [] => (s, None)
      | _ =>
          let '(a, lease) := try_add endpoint token a in
          (mkNormalConnections a (nc_handles s) (nc_closed s), (fun lease => (lease, evicted)) <$> lease)
      end
  end.

(** Then, under the other lock. *)
Definition publish (token : N) (evicted : list N) (connection : Connection) (s : NormalConnections) : NormalConnections :=
  let s := foldl close_handle s evicted in
  mkNormalConnections (nc_admissions s) (<[token := connection]> (nc_handles s)) (nc_closed s).

Definition NormalConnectionLease_try_new (endpoint : string) (token : N) (connection : Connection) (s : NormalConnections)
  : NormalConnections * option (string * N) :=
  match try_lease endpoint token s with
  | (s, None) => (s, None)
  | (s, Some (lease, evicted)) => (publish lease.2 evicted connection s, Some lease)
  end.

(** [Drop], under the lock of the handles, and then under that of the leases. *)
Definition drop_handle (lease : string * N) (s : NormalConnections) : NormalConnections :=
  mkNormalConnections (nc_admissions s) (delete lease.2 (nc_handles s)) (nc_closed s).

Definition drop_lease (lease : string * N) (s : NormalConnections) : NormalConnections :=
  mkNormalConnections (remove_lease lease.1 lease.2 (nc_admissions s)) (nc_handles s) (nc_closed s).

Definition NormalConnectionLease_drop (lease : string * N) (s : NormalConnections) : NormalConnections :=
  drop_lease lease (drop_handle lease s).
End connections.

(** ** Terminals *)

(** [AttachedSession]. *)
Record AttachedSession := mkAttachedSession { at_kind : ProviderKind; at_name : string }.
#[export] Instance AttachedSession_eq_dec : EqDecision AttachedSession.
Proof. solve_decision. Defined.

Definition target_is_resumable (target : option TerminalTarget) (has_agent_plan : bool) : bool :=
  has_agent_plan || is_some (target ≫= TerminalTarget_provider).

Record PtyLease := mkPtyLease { pl_endpoint : string; pl_token : N; pl_resumable : bool }.

(** The terminals' leases, the sessions they are attached to, and how many outlive their terminal. *)
Record Ptys := mkPtys {
  pt_active : ConnectionAdmissions; pt_attached : gmap (string * N) AttachedSession; pt_resumable : N }.

Definition Ptys_default : Ptys := mkPtys ConnectionAdmissions_default ∅ 0.

Definition PtyLease_try_new (endpoint : string) (resumable : bool) (session : option AttachedSession) (token : N) (s : Ptys)
  : Ptys * option PtyLease :=
  match try_add_with_limits endpoint MAX_ACTIVE_PTYS MAX_ACTIVE_PTYS_PER_ENDPOINT token (pt_active s) with
  | (a, None) => (mkPtys a (pt_attached s) (pt_resumable s), None)
  | (a, Some (endpoint, token)) =>
      (mkPtys a
         (match session with Some session => <[(endpoint, token) := session]> (pt_attached s) | None => pt_attached s end)
         (if resumable then pt_resumable s + 1 else pt_resumable s),
       Some (mkPtyLease endpoint token resumable))
  end.

Definition PtyLease_drop (lease : PtyLease) (s : Ptys) : Ptys :=
  mkPtys (remove_lease (pl_endpoint lease) (pl_token lease) (pt_active s))
    (delete (pl_endpoint lease, pl_token lease) (pt_attached s))
    (if pl_resumable lease then pt_resumable s - 1 else pt_resumable s).

(** The loop of [sole_attached_session]. *)
Fixpoint sole_session (endpoint : string) (found : option AttachedSession)
    (sessions : list (string * N * AttachedSession)) : option AttachedSession :=
  match sessions with
  | [] => found
  | (lease_endpoint, _, session) :: rest =>
      if negb (lease_endpoint =s? endpoint) then sole_session endpoint found rest
      else
        match found with
        | Some existing => if bool_decide (existing = session) then sole_session endpoint found rest else None
        | None => sole_session endpoint (Some session) rest
        end
  end.

Definition sole_attached_session (endpoint : string) (s : Ptys) : option AttachedSession :=
  sole_session endpoint None (map_to_list (pt_attached s)).

(** ** Subscriptions and pairing *)

Definition AgentSubscriptionLease_try_new (endpoint : string) (token : N) (a : ConnectionAdmissions)
  : ConnectionAdmissions * option (string * N) :=
  try_add_superseding endpoint MAX_ACTIVE_AGENT_SUBSCRIPTIONS token a.

Definition PairingConnectionLease_try_new (current : N) : option N :=
  if current <? MAX_PAIRING_CONNECTIONS then Some (current + 1) else None.

(** ** Devices seen *)

(** [ActiveConnections]: the tokens of each device with a connection that proved itself. *)
Definition active_add (endpoint : string) (token : N) (m : gmap string (gset N)) : gmap string (gset N) :=
  <[endpoint := {[token]} ∪ default ∅ (m !! endpoint)]> m.

Definition active_remove (endpoint : string) (token : N) (m : gmap string (gset N)) : gmap string (gset N) :=
  match m !! endpoint with
  | None => m
  | Some tokens =>
      let tokens := tokens ∖ {[token]} in
      if bool_decide (tokens = ∅) then delete endpoint m else <[endpoint := tokens]> m
  end.

Definition device_count (m : gmap string (gset N)) : N := N.of_nat (size m).

(** ** The leases a table stands for *)

(** The abstract state: the set of leases held, each a device and a token. *)
Abbreviation leases := (gset (string * N)).

Definition leases_of_device (endpoint : string) (held : leases) : leases := filter (fun lease => lease.1 = endpoint) held.

Record holds (a : ConnectionAdmissions) (held : leases) : Prop := {
  holds_tokens endpoint token : token ∈ tokens_of a endpoint <-> (endpoint, token) ∈ held;
  holds_total : ca_total a = N.of_nat (size held);
  holds_nonempty endpoint : ca_by_endpoint a !! endpoint <> Some ∅
}.

Lemma holds_default : holds ConnectionAdmissions_default ∅.
Proof. split; [|done|by intros]. intros. unfold tokens_of. cbn. rewrite lookup_empty. set_solver. Qed.

(** A device's tokens, as leases. *)
Lemma device_leases a held endpoint :
  holds a held -> leases_of_device endpoint held = set_map (pair endpoint) (tokens_of a endpoint).
Proof.
  intros []. apply set_eq. intros [e t]. unfold leases_of_device. rewrite elem_of_filter, elem_of_map. cbn. split.
  - intros [-> Ht]. exists t. split; [done|]. by apply holds_tokens0.
  - intros (t' & [= -> ->] & Ht). split; [done|]. by apply holds_tokens0.
Qed.

Lemma set_map_pair_size (endpoint : string) (tokens : gset N) :
  size (set_map (pair endpoint) tokens : leases) = size tokens.
Proof.
  induction tokens as [|t tokens Ht IH] using set_ind_L; [by rewrite set_map_empty|].
  rewrite set_map_union_L, set_map_singleton_L, !size_union, !size_singleton, IH; [done|set_solver|].
  apply disjoint_singleton_l. rewrite elem_of_map. by intros (t' & [= <-] & ?).
Qed.

Lemma device_count_leases a held endpoint :
  holds a held -> size (leases_of_device endpoint held) = size (tokens_of a endpoint).
Proof. intros H. by rewrite (device_leases a), set_map_pair_size. Qed.

Lemma holds_insert a held endpoint token :
  holds a held -> (endpoint, token) ∉ held -> holds (insert_lease endpoint token a) ({[(endpoint, token)]} ∪ held).
Proof.
  intros [] Hfresh. split.
  - intros e t. unfold tokens_of, insert_lease. cbn. rewrite lookup_insert. case_decide as He; cbn; [subst|].
    + rewrite elem_of_union, elem_of_singleton, holds_tokens0. set_solver.
    + pose proof (holds_tokens0 e t). set_solver.
  - cbn. rewrite size_union, size_singleton, holds_total0 by set_solver. lia.
  - intros e. cbn. rewrite lookup_insert. case_decide; [|done]. intros [= Hempty]. set_solver.
Qed.

Lemma holds_remove a held endpoint token :
  holds a held -> holds (remove_lease endpoint token a) (held ∖ {[(endpoint, token)]}).
Proof.
  intros Hh. pose proof Hh as []. unfold remove_lease. destruct (ca_by_endpoint a !! endpoint) as [tokens|] eqn:He.
  - assert (tokens_of a endpoint = tokens) as Ht by (unfold tokens_of; by rewrite He).
    pose proof (holds_tokens0 endpoint) as Hte. rewrite Ht in Hte.
    assert (forall e t, t ∈ default ∅ ((if bool_decide (tokens ∖ {[token]} = ∅) then delete endpoint (ca_by_endpoint a)
        else <[endpoint := tokens ∖ {[token]}]> (ca_by_endpoint a)) !! e) <->
        (if decide (endpoint = e) then t ∈ tokens ∖ {[token]} else t ∈ tokens_of a e)) as Hlook.
    { intros e t. unfold tokens_of. case_bool_decide as Hemp; [rewrite lookup_delete|rewrite lookup_insert]; case_decide; [|done..].
      rewrite Hemp. set_solver. }
    split; cbn.
    + intros e t. unfold tokens_of at 1. cbn. rewrite Hlook. destruct (decide (endpoint = e)) as [<-|Hd].
      * specialize (Hte t). set_solver.
      * rewrite holds_tokens0. set_solver.
    + clear Hlook. rewrite holds_total0. case_bool_decide as Hin; rewrite Hte in Hin.
      * rewrite size_difference, size_singleton by set_solver. lia.
      * f_equal. f_equal. set_solver.
    + clear Hlook. intros e. case_bool_decide; [rewrite lookup_delete|rewrite lookup_insert]; case_decide; [done|done| |done]. by intros [= ?].
  - assert ((endpoint, token) ∉ held) as Hn by (rewrite <- holds_tokens0; unfold tokens_of; rewrite He; set_solver).
    by rewrite difference_disjoint_L by set_solver.
Qed.

Lemma holds_evict a held endpoint :
  holds a held ->
  let '(a', evicted) := evict_endpoint endpoint a in
  holds a' (held ∖ leases_of_device endpoint held)
  /\ (forall token, token ∈ evicted <-> (endpoint, token) ∈ held)
  /\ (evicted = [] <-> leases_of_device endpoint held = ∅)
  /\ (evicted = [] -> a' = a).
Proof.
  intros Hh. pose proof Hh as []. pose proof (device_leases a held endpoint Hh) as Hdev. unfold evict_endpoint.
  assert (forall e t, (e, t) ∈ held ∖ leases_of_device endpoint held <-> e <> endpoint /\ (e, t) ∈ held) as Hrest.
  { intros e t. unfold leases_of_device. rewrite elem_of_difference, elem_of_filter. cbn. naive_solver. }
  unfold tokens_of in Hdev. destruct (ca_by_endpoint a !! endpoint) as [tokens|] eqn:He; cbn in Hdev.
  - pose proof (holds_tokens0 endpoint) as Hte. unfold tokens_of in Hte. rewrite He in Hte. cbn in Hte.
    split; [split; cbn|split_and!].
    + intros e t. rewrite Hrest. unfold tokens_of. cbn. rewrite lookup_delete. case_decide as Hd; cbn; [set_solver|].
      rewrite <- holds_tokens0. unfold tokens_of. naive_solver.
    + rewrite size_difference, Hdev, set_map_pair_size, holds_total0 by (unfold leases_of_device; set_solver). lia.
    + intros e. rewrite lookup_delete. by case_decide.
    + intros t. rewrite elem_of_elements. apply Hte.
    + rewrite Hdev. assert (tokens <> ∅) as Hne by (intros ->; by apply (holds_nonempty0 endpoint)). split.
      * intros Hel. exfalso. apply Hne. by apply elements_empty_inv, leibniz_equiv in Hel.
      * intros Hm. exfalso. apply Hne. apply leibniz_equiv, size_empty_inv. rewrite <- (set_map_pair_size endpoint), Hm. apply size_empty.
    + intros Hel. exfalso. apply (holds_nonempty0 endpoint). by apply elements_empty_inv, leibniz_equiv in Hel as ->.
  - rewrite set_map_empty in Hdev. rewrite Hdev. split_and!; [by rewrite difference_empty_L| |done|done].
    intros t. rewrite <- holds_tokens0. unfold tokens_of. rewrite He. split; [by intros H%not_elem_of_nil|set_solver].
Qed.

Lemma holds_try_add a held endpoint global_limit endpoint_limit token :
  holds a held -> (endpoint, token) ∉ held ->
  match try_add_with_limits endpoint global_limit endpoint_limit token a with
  | (a', None) =>
      a' = a /\ (global_limit <= N.of_nat (size held) \/ endpoint_limit <= N.of_nat (size (leases_of_device endpoint held)))
  | (a', Some lease) =>
      lease = (endpoint, token) /\ holds a' ({[lease]} ∪ held)
      /\ N.of_nat (size held) < global_limit /\ N.of_nat (size (leases_of_device endpoint held)) < endpoint_limit
  end.
Proof.
  intros Hh Hf. unfold try_add_with_limits. rewrite (device_count_leases a) by done. rewrite <- (holds_total a held Hh).
  destruct (N.leb_spec global_limit (ca_total a)); cbn [orb]; [by auto|].
  destruct (N.leb_spec endpoint_limit (N.of_nat (size (tokens_of a endpoint)))); [by auto|].
  split_and!; [done|by apply holds_insert|done..].
Qed.

Lemma device_subset (endpoint : string) (held : leases) : leases_of_device endpoint held ⊆ held.
Proof. unfold leases_of_device. set_solver. Qed.

Lemma device_other (endpoint other : string) (held : leases) :
  other <> endpoint -> leases_of_device other (held ∖ leases_of_device endpoint held) = leases_of_device other held.
Proof.
  intros Hne. apply set_eq. intros [e t]. unfold leases_of_device. rewrite !elem_of_filter, elem_of_difference, elem_of_filter. cbn.
  naive_solver.
Qed.

Lemma device_evicted (endpoint : string) (held : leases) : leases_of_device endpoint (held ∖ leases_of_device endpoint held) = ∅.
Proof.
  apply set_eq. intros [e t]. unfold leases_of_device. rewrite !elem_of_filter, elem_of_difference, elem_of_filter. cbn. set_solver.
Qed.

Lemma device_insert (endpoint : string) (lease : string * N) (held : leases) :
  leases_of_device endpoint ({[lease]} ∪ held)
  = (if decide (lease.1 = endpoint) then {[lease]} else ∅) ∪ leases_of_device endpoint held.
Proof.
  apply set_eq. intros x. unfold leases_of_device.
  case_decide; rewrite elem_of_union, !elem_of_filter, elem_of_union, ?elem_of_singleton; set_solver.
Qed.

Lemma evicted_smaller (endpoint : string) (held : leases) :
  leases_of_device endpoint held <> ∅ -> (size (held ∖ leases_of_device endpoint held) < size held)%nat.
Proof.
  intros Hne. apply subset_size. apply set_choose_L in Hne as [x Hx]. pose proof (device_subset endpoint held). set_solver.
Qed.

(** ** A device's newest connection *)

Section newest.
Context {Connection : Type}.
Implicit Types (s : NormalConnections (Connection := Connection)) (c : Connection).

Lemma close_handles_spec (evicted : list N) s :
  nc_admissions (foldl close_handle s evicted) = nc_admissions s
  /\ nc_handles (foldl close_handle s evicted) = filter (fun '(t, _) => t ∉ evicted) (nc_handles s).
Proof.
  revert s. induction evicted as [|t evicted IH]; intros s; cbn [foldl].
  - split; [done|]. symmetry. apply map_filter_id. intros. by apply not_elem_of_nil.
  - destruct (IH (close_handle s t)) as [-> ->]. unfold close_handle. destruct (nc_handles s !! t) as [c|] eqn:Ht; cbn.
    + split; [done|]. apply map_eq. intros i. apply option_eq. intros x.
      rewrite !map_lookup_filter_Some, lookup_delete, not_elem_of_cons. case_decide; naive_solver.
    + split; [done|]. apply map_filter_ext. intros i x Hx. rewrite not_elem_of_cons. split; [|naive_solver].
      intros Hi. split; [|done]. intros ->. congruence.
Qed.

(** What [try_lease] makes of the leases. *)
Lemma admit_spec s held endpoint token :
  holds (nc_admissions s) held -> (endpoint, token) ∉ held -> N.of_nat (size held) <= MAX_NORMAL_CONNECTIONS ->
  match try_lease endpoint token s with
  | (s', None) => s' = s /\ leases_of_device endpoint held = ∅ /\ N.of_nat (size held) = MAX_NORMAL_CONNECTIONS
  | (s', Some (lease, evicted)) =>
      lease = (endpoint, token) /\ nc_handles s' = nc_handles s /\ nc_closed s' = nc_closed s
      /\ exists superseded,
           (superseded = ∅ /\ evicted = [] /\ N.of_nat (size (leases_of_device endpoint held)) < MAX_NORMAL_CONNECTIONS_PER_ENDPOINT
            \/ superseded = leases_of_device endpoint held)
           /\ (forall t, t ∈ evicted <-> (endpoint, t) ∈ superseded)
           /\ holds (nc_admissions s') ({[lease]} ∪ (held ∖ superseded))
           /\ N.of_nat (size ({[lease]} ∪ (held ∖ superseded))) <= MAX_NORMAL_CONNECTIONS
  end.
Proof.
  intros Hh Hf Hmax. unfold try_lease, try_add.
  pose proof (holds_try_add _ _ endpoint MAX_NORMAL_CONNECTIONS MAX_NORMAL_CONNECTIONS_PER_ENDPOINT token Hh Hf) as H1.
  destruct (try_add_with_limits _ _ _ _ _) as [a [lease|]]; cbn [nc_handles nc_closed nc_admissions].
  - destruct H1 as (-> & H1 & Hroom & Hfew). split_and!; [done..|]. exists ∅. split_and!; [by left|set_solver|by rewrite difference_empty_L|].
    rewrite difference_empty_L, size_union, size_singleton by set_solver. unfold MAX_NORMAL_CONNECTIONS in *. lia.
  - destruct H1 as [-> Hfull]. pose proof (holds_evict _ _ endpoint Hh) as H2.
    destruct (evict_endpoint endpoint _) as [a evicted]. destruct H2 as (Ha & Hev & Hnil & Hsame).
    destruct evicted as [|t evicted].
    + pose proof (proj1 Hnil eq_refl) as Hdev. rewrite Hdev, size_empty in Hfull. split; [|split; [done|]].
      * rewrite Hsame by done. by destruct s.
      * destruct Hfull as [|Hfull]; [lia|done].
    + assert (leases_of_device endpoint held <> ∅) as Hne by (intros He; by apply Hnil in He).
      pose proof (evicted_smaller _ _ Hne) as Hlt.
      assert ((endpoint, token) ∉ held ∖ leases_of_device endpoint held) as Hf' by set_solver.
      pose proof (holds_try_add _ _ endpoint MAX_NORMAL_CONNECTIONS MAX_NORMAL_CONNECTIONS_PER_ENDPOINT token Ha Hf') as H3.
      rewrite device_evicted, size_empty in H3. destruct (try_add_with_limits _ _ _ _ a) as [a' [lease|]]; cbn.
      * destruct H3 as (-> & H3 & _ & _). split_and!; [done..|]. exists (leases_of_device endpoint held). split_and!; [by right| |done|].
        -- intros t'. rewrite Hev. unfold leases_of_device. rewrite elem_of_filter. cbn. naive_solver.
        -- rewrite size_union, size_singleton by set_solver. unfold MAX_NORMAL_CONNECTIONS in *. lia.
      * destruct H3 as [_ [H3|H3]]; [unfold MAX_NORMAL_CONNECTIONS in *; lia|done].
Qed.

(** Where a connection's task is between its locks: leased with what that superseded, its handle published,
    or its handle removed. *)
Inductive Phase := Opening (evicted : list N) (c : Connection) | Opened (c : Connection) | Closing.

(** The daemon's tables; where the task of each lease is; the tokens drawn so far; and the leases that were
    superseded before their own handle was published. *)
Record Doors := mkDoors {
  dr_state : NormalConnections (Connection := Connection); dr_tasks : gmap (string * N) Phase; dr_used : gset N; dr_escaped : leases }.

Definition no_connections : NormalConnections (Connection := Connection) := mkNormalConnections ConnectionAdmissions_default ∅ [].
Definition doors_start : Doors := mkDoors no_connections ∅ ∅ ∅.

Definition is_opening (phase : Phase) : bool := match phase with Opening _ _ => true | _ => false end.

(** The leases of [endpoint] that [evicted] names while their own handle is still to be published. *)
Definition unpublished (endpoint : string) (evicted : list N) (tasks : gmap (string * N) Phase) : leases :=
  filter (fun lease => lease.1 = endpoint /\ lease.2 ∈ evicted) (dom (filter (fun '(_, phase) => is_opening phase = true) tasks)).

(** The steps of the connections' tasks, each under one lock, in any order. A token is 128 random bits, taken
    to differ from every one drawn before. *)
Inductive door_step : Doors -> Doors -> Prop :=
| DoorLeased endpoint token c s tasks used escaped s' evicted :
    token ∉ used -> try_lease endpoint token s = (s', Some ((endpoint, token), evicted)) ->
    door_step (mkDoors s tasks used escaped)
      (mkDoors s' (<[(endpoint, token) := Opening evicted c]> tasks) ({[token]} ∪ used) (escaped ∪ unpublished endpoint evicted tasks))
| DoorRefused endpoint token s tasks used escaped s' :
    token ∉ used -> try_lease endpoint token s = (s', None) -> door_step (mkDoors s tasks used escaped) (mkDoors s' tasks used escaped)
| DoorPublished lease evicted c s tasks used escaped :
    tasks !! lease = Some (Opening evicted c) ->
    door_step (mkDoors s tasks used escaped) (mkDoors (publish lease.2 evicted c s) (<[lease := Opened c]> tasks) used escaped)
| DoorHandleDropped lease c s tasks used escaped :
    tasks !! lease = Some (Opened c) ->
    door_step (mkDoors s tasks used escaped) (mkDoors (drop_handle lease s) (<[lease := Closing]> tasks) used escaped)
| DoorLeaseDropped lease s tasks used escaped :
    tasks !! lease = Some Closing ->
    door_step (mkDoors s tasks used escaped) (mkDoors (drop_lease lease s) (delete lease tasks) used escaped).

(** What is kept between the steps, [held] being the leases tracked. *)
Record doors_ok (d : Doors) (held : leases) : Prop := {
  do_holds : holds (nc_admissions (dr_state d)) held;
  do_live lease : lease ∈ held -> is_Some (dr_tasks d !! lease);
  do_used e t : is_Some (dr_tasks d !! (e, t)) -> t ∈ dr_used d;
  do_unique e1 e2 t : is_Some (dr_tasks d !! (e1, t)) -> is_Some (dr_tasks d !! (e2, t)) -> e1 = e2;
  do_total : N.of_nat (size held) <= MAX_NORMAL_CONNECTIONS;
  do_device endpoint : N.of_nat (size (leases_of_device endpoint held)) <= MAX_NORMAL_CONNECTIONS_PER_ENDPOINT;
  do_opening e t evicted c : dr_tasks d !! (e, t) = Some (Opening evicted c) -> (e, t) ∈ held \/ (e, t) ∈ dr_escaped d;
  do_evicted e t evicted c t' : dr_tasks d !! (e, t) = Some (Opening evicted c) -> t' ∈ evicted ->
    t' ∈ dr_used d /\ forall e', ((e', t') ∉ held) /\ (is_Some (dr_tasks d !! (e', t')) -> e' = e);
  do_tracked e t c : (e, t) ∈ held -> dr_tasks d !! (e, t) = Some (Opened c) -> nc_handles (dr_state d) !! t = Some c;
  do_handles t c : nc_handles (dr_state d) !! t = Some c ->
    exists e, dr_tasks d !! (e, t) = Some (Opened c)
    /\ ((e, t) ∈ held \/ (exists t' evicted c', dr_tasks d !! (e, t') = Some (Opening evicted c') /\ t ∈ evicted)
        \/ (e, t) ∈ dr_escaped d)
}.

Lemma device_size_subset (endpoint : string) (held held' : leases) :
  held ⊆ held' -> (size (leases_of_device endpoint held) <= size (leases_of_device endpoint held'))%nat.
Proof. intros Hs. apply subseteq_size. unfold leases_of_device. set_solver. Qed.

Lemma device_size_insert (endpoint e : string) (token : N) (held : leases) :
  (size (leases_of_device endpoint ({[(e, token)]} ∪ held))
   <= (if decide (e = endpoint) then 1 else 0) + size (leases_of_device endpoint held))%nat.
Proof.
  rewrite device_insert. cbn. rewrite size_union_alt. pose proof (subseteq_size (leases_of_device endpoint held ∖
    (if decide (e = endpoint) then {[(e, token)]} else ∅)) (leases_of_device endpoint held) ltac:(set_solver)).
  case_decide; [rewrite size_singleton|rewrite size_empty]; lia.
Qed.

Lemma unpublished_elem endpoint evicted tasks e t :
  (e, t) ∈ unpublished endpoint evicted tasks
  <-> e = endpoint /\ t ∈ evicted /\ exists evicted' c, tasks !! (e, t) = Some (Opening evicted' c).
Proof.
  unfold unpublished. rewrite elem_of_filter, elem_of_dom. cbn. split.
  - intros ([-> Ht] & phase & [Hp Ho]%map_lookup_filter_Some). destruct phase; [eauto|done..].
  - intros (-> & Ht & evicted' & c & Hp). split; [done|]. eexists. apply map_lookup_filter_Some. by split; [exact Hp|].
Qed.

(** Publishing: the new connection can be closed, those it superseded no longer, all others as before. *)
Lemma publish_spec token evicted c s t :
  nc_handles (publish token evicted c s) !! t
  = if decide (token = t) then Some c else if decide (t ∈ evicted) then None else nc_handles s !! t.
Proof.
  unfold publish. destruct (close_handles_spec evicted s) as [_ Hcl]. cbn. rewrite lookup_insert, Hcl. case_decide; [done|]. case_decide as Ht.
  - apply map_lookup_filter_None. right. intros x _ Hx. by apply Hx.
  - destruct (nc_handles s !! t) as [x|] eqn:Hx; [by apply map_lookup_filter_Some|]. apply map_lookup_filter_None. by left.
Qed.

Lemma publish_closes token evicted c s t stale :
  t ∈ evicted -> nc_handles s !! t = Some stale -> (stale, CONNECTION_SUPERSEDED) ∈ nc_closed (publish token evicted c s).
Proof.
  unfold publish. cbn. assert (forall l s x, x ∈ nc_closed s -> x ∈ nc_closed (foldl close_handle s l)) as Hkeep.
  { intros l. induction l as [|old l IH]; intros s0 x Hx; [done|]. cbn [foldl]. apply IH. unfold close_handle. destruct (_ !! old); [|done].
    cbn. apply elem_of_app. by left. }
  revert s. induction evicted as [|old evicted IH]; intros s; [by intros ?%elem_of_nil|]. intros [->|Hin]%elem_of_cons Hs; cbn [foldl].
  - apply Hkeep. unfold close_handle. rewrite Hs. cbn. apply elem_of_app. right. by apply list_elem_of_singleton.
  - destruct (decide (old = t)) as [->|Hne].
    + apply Hkeep. unfold close_handle. rewrite Hs. cbn. apply elem_of_app. right. by apply list_elem_of_singleton.
    + apply IH; [done|]. unfold close_handle. destruct (_ !! old); [|done]. cbn. by rewrite lookup_delete_ne.
Qed.

Lemma doors_leased endpoint token c s tasks used escaped s' evicted held :
  token ∉ used -> try_lease endpoint token s = (s', Some ((endpoint, token), evicted)) ->
  doors_ok (mkDoors s tasks used escaped) held ->
  exists held', doors_ok (mkDoors s' (<[(endpoint, token) := Opening evicted c]> tasks) ({[token]} ∪ used)
                            (escaped ∪ unpublished endpoint evicted tasks)) held'.
Proof.
  intros Hfresh Hlease []. cbn in *.
  assert (forall e, tasks !! (e, token) = None) as Hnew.
  { intros e. destruct (tasks !! (e, token)) as [q|] eqn:Hq; [|done]. destruct Hfresh. by apply (do_used0 e); rewrite Hq. }
  assert (forall e t, (e, t) ∈ held -> t <> token) as Hheld.
  { intros e t Hin ->. apply do_live0 in Hin as [q Hq]. by rewrite Hnew in Hq. }
  assert ((endpoint, token) ∉ held) as Hf by (intros H; by apply (Hheld _ _ H)).
  pose proof (admit_spec s held endpoint token do_holds0 Hf do_total0) as Ha. rewrite Hlease in Ha.
  destruct Ha as (_ & Hhandles & _ & superseded & Hsup & Hev & Hh & Hsize).
  assert (superseded ⊆ held) as Hss by (destruct Hsup as [[-> _]| ->]; [set_solver|apply device_subset]).
  assert (forall e t, (e, t) ∈ superseded -> e = endpoint /\ t ∈ evicted) as Hdev.
  { intros e t H. assert (e = endpoint) as ->; [|by rewrite Hev]. destruct Hsup as [[-> _]| ->]; [set_solver|].
    unfold leases_of_device in H. by apply elem_of_filter in H as [? _]. }
  assert (forall t, t ∈ evicted -> t ∈ used /\ t <> token) as Hold.
  { intros t Ht%Hev%Hss. split; [by apply (do_used0 endpoint), do_live0|by eapply Hheld]. }
  exists ({[(endpoint, token)]} ∪ (held ∖ superseded)). split; cbn.
  - done.
  - intros l. rewrite lookup_insert. case_decide; [by eexists|]. intros Hl. apply do_live0. set_solver.
  - intros e t. rewrite lookup_insert. case_decide as He; [injection He as <- <-; set_solver|]. intros H%do_used0. set_solver.
  - intros e1 e2 t. rewrite !lookup_insert. repeat case_decide; simplify_eq; [done|..|apply do_unique0];
      rewrite Hnew; try (by intros [? ?]); by intros _ [? ?].
  - done.
  - intros e. pose proof (device_size_insert e endpoint token (held ∖ superseded)) as Hi. specialize (do_device0 e).
    pose proof (device_size_subset e (held ∖ superseded) held ltac:(set_solver)). unfold MAX_NORMAL_CONNECTIONS_PER_ENDPOINT in *.
    case_decide as He; [subst e|lia]. destruct Hsup as [(-> & _ & Hfew)| ->]; [lia|]. rewrite device_evicted, size_empty in Hi. lia.
  - intros e t ev c0. rewrite lookup_insert. case_decide as He; [injection He as <- <-; set_solver|]. intros Ho.
    destruct (do_opening0 _ _ _ _ Ho) as [Hin|]; [|set_solver]. destruct (decide ((e, t) ∈ superseded)) as [Hs|]; [|set_solver].
    right. apply elem_of_union. right. destruct (Hdev _ _ Hs) as [-> Ht]. apply unpublished_elem. eauto.
  - intros e t ev c0 t'. rewrite lookup_insert. case_decide as He.
    + intros [= <- _] Ht'. injection He as <- <-. destruct (Hold _ Ht') as [Hu Hne]. split; [set_solver|]. intros e'.
      assert (is_Some (tasks !! (endpoint, t'))) as Hin by (by apply do_live0, Hss, Hev).
      rewrite lookup_insert_ne by congruence. split; [|intros H; by eapply do_unique0].
      rewrite elem_of_union, elem_of_singleton, elem_of_difference. intros [[= _ ->]|[H Hn]]; [done|]. apply Hn.
      rewrite (do_unique0 e' endpoint t') by auto. by apply Hev.
    + intros Ho Ht'. destruct (do_evicted0 _ _ _ _ _ Ho Ht') as [Hu Hn]. split; [set_solver|]. intros e'. destruct (Hn e') as [Hnot Hdom].
      rewrite lookup_insert_ne by (intros [= _ ->]; done). split; [|done]. rewrite elem_of_union, elem_of_singleton. intros [[= _ ->]|H]; [done|set_solver].
  - intros e t c0 Hin. rewrite lookup_insert, Hhandles. case_decide as He; [done|]. apply do_tracked0. set_solver.
  - intros t c0. rewrite Hhandles. intros Ht. destruct (do_handles0 _ _ Ht) as (e & Ho & Hcase). exists e.
    assert ((e, t) <> (endpoint, token)) as Hne by (intros [= -> ->]; by rewrite Hnew in Ho). split; [by rewrite lookup_insert_ne by congruence|].
    destruct Hcase as [Hin|[(t' & ev & c' & Hop & Hin)|Hesc]]; [|right; left; exists t', ev, c'|set_solver].
    + destruct (decide ((e, t) ∈ superseded)) as [Hs|]; [|set_solver]. right. left. destruct (Hdev _ _ Hs) as [-> Hte].
      exists token, evicted, c. by rewrite lookup_insert_eq.
    + split; [|done]. rewrite lookup_insert_ne; [done|]. intros [= <- <-]. by rewrite Hnew in Hop.
Qed.

Lemma doors_published lease evicted c s tasks used escaped held :
  tasks !! lease = Some (Opening evicted c) -> doors_ok (mkDoors s tasks used escaped) held ->
  doors_ok (mkDoors (publish lease.2 evicted c s) (<[lease := Opened c]> tasks) used escaped) held.
Proof.
  destruct lease as [e0 t0]. intros Hl []. cbn in *.
  assert (forall l, is_Some (<[(e0, t0) := Opened c]> tasks !! l) -> is_Some (tasks !! l)) as Hdom.
  { intros l. rewrite lookup_insert. case_decide as H; [subst l|done]. by rewrite Hl. }
  assert (forall l ev c0, <[(e0, t0) := Opened c]> tasks !! l = Some (Opening ev c0) -> tasks !! l = Some (Opening ev c0)) as Hop.
  { intros l ev c0. rewrite lookup_insert. by case_decide. }
  split; cbn [dr_state dr_tasks dr_used dr_escaped].
  - unfold publish. cbn. by destruct (close_handles_spec evicted s) as [-> _].
  - intros l H%do_live0. rewrite lookup_insert. by case_decide.
  - intros e t H. eapply do_used0, Hdom, H.
  - intros e1 e2 t H1 H2. eapply do_unique0; by apply Hdom.
  - done.
  - done.
  - intros e t ev c0 H. by eapply do_opening0, Hop.
  - intros e t ev c0 t' H Hin. destruct (do_evicted0 _ _ _ _ _ (Hop _ _ _ H) Hin) as [Hu Hn]. split; [done|].
    intros e'. destruct (Hn e') as [Hnot Hd]. split; [done|]. by intros ?%Hdom%Hd.
  - intros e t c0 Hin. rewrite publish_spec, lookup_insert. case_decide as He; [injection He as <- <-; intros [= <-]; by rewrite decide_True|].
    intros Ho. assert (t <> t0) as Hne. { intros ->. apply He. f_equal. by apply (do_unique0 _ _ t0); rewrite ?Hl, ?Ho. }
    rewrite decide_False by congruence. rewrite decide_False; [by eapply do_tracked0|]. intros Ht.
    destruct (do_evicted0 _ _ _ _ _ Hl Ht) as [_ Hn]. by destruct (Hn e).
  - intros t c0. rewrite publish_spec. case_decide as Ht; [subst t; intros [= <-]; exists e0|].
    + rewrite lookup_insert_eq. split; [done|]. destruct (do_opening0 _ _ _ _ Hl); tauto.
    + case_decide as Hev; [done|]. intros H. destruct (do_handles0 _ _ H) as (e & Ho & Hcase). exists e.
      rewrite lookup_insert_ne by congruence. split; [done|]. destruct Hcase as [|[(t' & ev & c' & Hop' & Hin)|]]; [tauto| |tauto].
      right. left. exists t', ev, c'. split; [|done]. rewrite lookup_insert_ne; [done|]. intros [= <- <-]. congruence.
Qed.

Lemma doors_handle_dropped lease c s tasks used escaped held :
  tasks !! lease = Some (Opened c) -> doors_ok (mkDoors s tasks used escaped) held ->
  doors_ok (mkDoors (drop_handle lease s) (<[lease := Closing]> tasks) used escaped) held.
Proof.
  destruct lease as [e0 t0]. intros Hl []. cbn in *.
  assert (forall l, is_Some (<[(e0, t0) := Closing]> tasks !! l) -> is_Some (tasks !! l)) as Hdom.
  { intros l. rewrite lookup_insert. case_decide as H; [subst l|done]. by rewrite Hl. }
  assert (forall l p, <[(e0, t0) := Closing]> tasks !! l = Some p -> p <> Closing -> tasks !! l = Some p) as Hop.
  { intros l p. rewrite lookup_insert. case_decide; [by intros [= <-]|done]. }
  split; cbn.
  - done.
  - intros l H%do_live0. rewrite lookup_insert. by case_decide.
  - intros e t H. eapply do_used0, Hdom, H.
  - intros e1 e2 t H1 H2. eapply do_unique0; by apply Hdom.
  - done.
  - done.
  - intros e t ev c0 H. by eapply do_opening0, Hop.
  - intros e t ev c0 t' H Hin. destruct (do_evicted0 _ _ _ _ _ (Hop _ _ H ltac:(done)) Hin) as [Hu Hn]. split; [done|].
    intros e'. destruct (Hn e') as [Hnot Hd]. split; [done|]. by intros ?%Hdom%Hd.
  - intros e t c0 Hin Ho. pose proof (Hop _ _ Ho ltac:(done)) as Ho'. rewrite lookup_delete_ne; [by eapply do_tracked0|]. intros <-.
    assert (e = e0) as -> by (by apply (do_unique0 _ _ t0); rewrite ?Hl, ?Ho'). by rewrite lookup_insert_eq in Ho.
  - intros t c0 [Hne H]%lookup_delete_Some. destruct (do_handles0 _ _ H) as (e & Ho & Hcase). exists e.
    rewrite lookup_insert_ne by congruence. split; [done|]. destruct Hcase as [|[(t' & ev & c' & Hop' & Hin)|]]; [tauto| |tauto].
    right. left. exists t', ev, c'. split; [|done]. rewrite lookup_insert_ne; [done|]. congruence.
Qed.

Lemma doors_lease_dropped lease s tasks used escaped held :
  tasks !! lease = Some Closing -> doors_ok (mkDoors s tasks used escaped) held ->
  doors_ok (mkDoors (drop_lease lease s) (delete lease tasks) used escaped) (held ∖ {[lease]}).
Proof.
  destruct lease as [e0 t0]. intros Hl []. cbn in *.
  assert (forall l p, delete (e0, t0) tasks !! l = Some p -> tasks !! l = Some p) as Hop by by intros l p [_ ?]%lookup_delete_Some.
  assert (forall l, is_Some (delete (e0, t0) tasks !! l) -> is_Some (tasks !! l)) as Hdom by (intros l [p Hp]; eauto).
  split; cbn.
  - by apply holds_remove.
  - intros l Hin. rewrite lookup_delete_ne by set_solver. apply do_live0. set_solver.
  - intros e t H. eapply do_used0, Hdom, H.
  - intros e1 e2 t H1 H2. eapply do_unique0; by apply Hdom.
  - pose proof (subseteq_size (held ∖ {[(e0, t0)]}) held ltac:(set_solver)). lia.
  - intros e. pose proof (device_size_subset e (held ∖ {[(e0, t0)]}) held ltac:(set_solver)). specialize (do_device0 e). lia.
  - intros e t ev c0 H. destruct (do_opening0 _ _ _ _ (Hop _ _ H)); [|by right]. left. apply Hop in H. set_solver.
  - intros e t ev c0 t' H Hin. destruct (do_evicted0 _ _ _ _ _ (Hop _ _ H) Hin) as [Hu Hn]. split; [done|].
    intros e'. destruct (Hn e') as [Hnot Hd]. split; [set_solver|]. by intros ?%Hdom%Hd.
  - intros e t c0 Hin Ho. apply (do_tracked0 e); [set_solver|by apply Hop].
  - intros t c0 H. destruct (do_handles0 _ _ H) as (e & Ho & Hcase). exists e.
    assert ((e, t) <> (e0, t0)) as Hne by congruence. split; [by rewrite lookup_delete_ne by congruence|].
    destruct Hcase as [|[(t' & ev & c' & Hop' & Hin)|]]; [left; set_solver| |tauto].
    right. left. exists t', ev, c'. split; [|done]. rewrite lookup_delete_ne; [done|]. congruence.
Qed.

Lemma doors_ok_reachable d : rtc door_step doors_start d -> exists held, doors_ok d held.
Proof.
  assert (forall x y, rtc door_step x y -> (exists held, doors_ok x held) -> exists held, doors_ok y held) as H.
  { intros x y Hrun. induction Hrun as [|x y z Hstep _ IH]; [done|]. intros [held Hok]. apply IH. clear IH. destruct Hstep as
      [endpoint token c s tasks used escaped s' evicted Hf Hl|endpoint token s tasks used escaped s' Hf Hl| | |].
    - by eapply doors_leased.
    - exists held. assert ((endpoint, token) ∉ held) as Hnew.
      { intros Hin. apply Hf. eapply (do_used _ _ Hok endpoint). by apply (do_live _ _ Hok). }
      pose proof (admit_spec s held endpoint token (do_holds _ _ Hok) Hnew (do_total _ _ Hok)) as Ha. rewrite Hl in Ha. by destruct Ha as [-> _].
    - exists held. by apply doors_published.
    - exists held. by eapply doors_handle_dropped.
    - eexists. by eapply doors_lease_dropped. }
  intros Hrun. apply (H _ _ Hrun). exists ∅. split; cbn; try set_solver.
  - apply holds_default.
  - intros e t [p Hp]. by rewrite lookup_empty in Hp.
  - intros e1 e2 t [p Hp]. by rewrite lookup_empty in Hp.
  - by rewrite size_empty.
  - intros e. assert (leases_of_device e ∅ = ∅) as -> by (unfold leases_of_device; set_solver). by rewrite size_empty.
Qed.

(** C39: A device's newest connection wins: through any interleaving of connections that open and close, lock by
    lock, at most 16 connections are tracked and 2 of each device, and one that is tracked can be closed from
    when it has published its handle to when it ends. A new connection is refused only to a device that has none
    tracked while 16 others are; what it supersedes is its own device's, and is closed when it publishes its
    handle, with every other device's left as it is. No handle is left over: one that is not of a tracked
    connection is about to be closed by a connection of the same device that is still opening, except for that
    of a connection which was itself superseded before it had published it; so the handles are exactly those of
    the tracked connections whenever no opening is under way and none overlapped that way. *)
Theorem newest_connection_wins d endpoint token :
  rtc door_step doors_start d -> token ∉ dr_used d ->
  let s := dr_state d in
  exists held,
  (forall lease, lease ∈ held -> is_Some (dr_tasks d !! lease))
  /\ N.of_nat (size held) <= MAX_NORMAL_CONNECTIONS
  /\ (forall e, N.of_nat (size (leases_of_device e held)) <= MAX_NORMAL_CONNECTIONS_PER_ENDPOINT)
  /\ (forall e t c, (e, t) ∈ held -> dr_tasks d !! (e, t) = Some (Opened c) -> nc_handles s !! t = Some c)
  /\ (forall t c, nc_handles s !! t = Some c -> exists e, dr_tasks d !! (e, t) = Some (Opened c)
      /\ ((e, t) ∈ held \/ (exists t' evicted c', dr_tasks d !! (e, t') = Some (Opening evicted c') /\ t ∈ evicted)
          \/ (e, t) ∈ dr_escaped d))
  /\ ((forall lease evicted c, dr_tasks d !! lease <> Some (Opening evicted c)) -> dr_escaped d = ∅ ->
      forall t c, nc_handles s !! t = Some c <-> exists e, (e, t) ∈ held /\ dr_tasks d !! (e, t) = Some (Opened c))
  /\ (forall e t evicted c, dr_tasks d !! (e, t) = Some (Opening evicted c) ->
      let s' := publish t evicted c s in
      nc_handles s' !! t = Some c
      /\ (forall t' stale, t' ∈ evicted -> nc_handles s !! t' = Some stale ->
          (stale, CONNECTION_SUPERSEDED) ∈ nc_closed s' /\ (t' <> t -> nc_handles s' !! t' = None))
      /\ forall other t', other <> e -> is_Some (dr_tasks d !! (other, t')) -> nc_handles s' !! t' = nc_handles s !! t')
  /\ match try_lease endpoint token s with
     | (s', None) => s' = s /\ leases_of_device endpoint held = ∅ /\ N.of_nat (size held) = MAX_NORMAL_CONNECTIONS
     | (s', Some (lease, evicted)) =>
         lease = (endpoint, token) /\ nc_handles s' = nc_handles s /\ (forall t, t ∈ evicted -> (endpoint, t) ∈ held)
     end.
Proof.
  intros Hrun Hf. destruct (doors_ok_reachable _ Hrun) as [held Hok]. exists held. pose proof Hok as []. cbv zeta.
  split_and!; [done..| | |].
  - intros Hquiet Hnone t c. split; [|by intros (e & ? & ?); eapply do_tracked0].
    intros (e & Ho & [Hin|[(t' & ev & c' & Hop & _)|Hesc]])%do_handles0; [by exists e|by apply Hquiet in Hop|set_solver].
  - intros e t evicted c Ho. split_and!.
    + by rewrite publish_spec, decide_True.
    + intros t' stale Hin Hs. split; [by eapply publish_closes|]. intros Hne. by rewrite publish_spec, decide_False, decide_True by congruence.
    + intros other t' Hne Hlive. rewrite publish_spec. rewrite decide_False by (intros <-; by apply Hne, (do_unique0 _ _ t); rewrite ?Ho).
      rewrite decide_False; [done|]. intros Hin. destruct (do_evicted0 _ _ _ _ _ Ho Hin) as [_ Hn]. by apply Hne, Hn.
  - assert ((endpoint, token) ∉ held) as Hnew by (intros Hin; by apply Hf, (do_used0 endpoint), do_live0).
    pose proof (admit_spec _ held endpoint token do_holds0 Hnew do_total0) as Ha.
    destruct (try_lease endpoint token (dr_state d)) as [s' [[lease evicted]|]]; [|done].
    destruct Ha as (-> & Hhandles & _ & superseded & Hsup & Hev & _). split_and!; [done..|].
    intros t Ht%Hev. destruct Hsup as [[-> _]| ->]; [set_solver|]. by apply device_subset in Ht.
Qed.

(** The two locks of [try_new] leave a gap: three connections of one device admitted before any of them
    published its handle are all left open, the first two tracked by nothing. *)
Lemma overlapping_admissions (a b c : Connection) :
  let phone := "phone"%string in
  match try_lease phone 1 no_connections with
  | (s, Some (_, e1)) =>
      match try_lease phone 2 s with
      | (s, Some (_, e2)) =>
          match try_lease phone 3 s with
          | (s, Some (_, e3)) =>
              let s := publish 2 e2 b (publish 1 e1 a (publish 3 e3 c s)) in
              nc_closed s = [] /\ size (nc_handles s) = 3%nat /\ tokens_of (nc_admissions s) phone = {[3]}
          | _ => False
          end
      | _ => False
      end
  | _ => False
  end.
Proof. by vm_compute. Qed.
End newest.

(** ** Subscriptions *)

(** A phone's newest subscription always wins: a subscription is refused only to a device that has
    none while 16 other devices hold one, and granting it leaves that device exactly this one and every
    other device its own. *)
Theorem subscription_supersedes a held endpoint token :
  holds a held -> N.of_nat (size held) <= MAX_ACTIVE_AGENT_SUBSCRIPTIONS -> (endpoint, token) ∉ held ->
  match AgentSubscriptionLease_try_new endpoint token a with
  | (a', None) =>
      holds a' held /\ leases_of_device endpoint held = ∅ /\ N.of_nat (size held) = MAX_ACTIVE_AGENT_SUBSCRIPTIONS
  | (a', Some lease) =>
      lease = (endpoint, token)
      /\ exists held', holds a' held' /\ N.of_nat (size held') <= MAX_ACTIVE_AGENT_SUBSCRIPTIONS
         /\ leases_of_device endpoint held' = {[lease]}
         /\ forall other, other <> endpoint -> leases_of_device other held' = leases_of_device other held
  end.
Proof.
  intros Hh Hmax Hf. unfold AgentSubscriptionLease_try_new, try_add_superseding.
  pose proof (holds_evict _ _ endpoint Hh) as H1. destruct (evict_endpoint endpoint a) as [a' evicted].
  destruct H1 as (Ha & _ & _ & _). cbn [fst]. rewrite (holds_total _ _ Ha).
  destruct (N.leb_spec MAX_ACTIVE_AGENT_SUBSCRIPTIONS (N.of_nat (size (held ∖ leases_of_device endpoint held)))) as [Hfull|Hroom].
  - destruct (decide (leases_of_device endpoint held = ∅)) as [He|Hne].
    + rewrite He, difference_empty_L in *. split_and!; [done..|lia].
    + pose proof (evicted_smaller _ _ Hne). lia.
  - split; [done|]. exists ({[(endpoint, token)]} ∪ (held ∖ leases_of_device endpoint held)). split_and!.
    + apply holds_insert; [done|]. set_solver.
    + rewrite size_union, size_singleton by set_solver. lia.
    + rewrite device_insert, device_evicted, decide_True by done. set_solver.
    + intros other Hne. rewrite device_insert, device_other, decide_False by (done || by intros <-). set_solver.
Qed.

(** ** Terminals *)

(** The abstract state: each terminal's lease, whether it is resumable, and the session it is on. *)
Abbreviation terminals := (gmap (string * N) (bool * option AttachedSession)).

(** A terminal is opened by a lease and closed by dropping it; its token is 128 random bits. *)
Inductive pty_step : Ptys * terminals -> Ptys * terminals -> Prop :=
| PtyOpens endpoint resumable session token s s' lease (live : terminals) :
    (forall other, live !! (other, token) = None) ->
    PtyLease_try_new endpoint resumable session token s = (s', Some lease) ->
    pty_step (s, live) (s', <[(endpoint, token) := (resumable, session)]> live)
| PtyRefused endpoint resumable session token s s' (live : terminals) :
    (forall other, live !! (other, token) = None) ->
    PtyLease_try_new endpoint resumable session token s = (s', None) -> pty_step (s, live) (s', live)
| PtyCloses endpoint token resumable session s (live : terminals) :
    live !! (endpoint, token) = Some (resumable, session) ->
    pty_step (s, live) (PtyLease_drop (mkPtyLease endpoint token resumable) s, delete (endpoint, token) live).

Definition resumable_terminals (live : terminals) : terminals := filter (fun '(_, t) => t.1 = true) live.

Record ptys_ok (s : Ptys) (live : terminals) : Prop := {
  po_holds : holds (pt_active s) (dom live);
  po_attached : pt_attached s = omap snd live;
  po_resumable : pt_resumable s = N.of_nat (size (resumable_terminals live));
  po_total : N.of_nat (size live) <= MAX_ACTIVE_PTYS;
  po_device endpoint : N.of_nat (size (leases_of_device endpoint (dom live))) <= MAX_ACTIVE_PTYS_PER_ENDPOINT
}.

Lemma resumable_insert (key : string * N) (r : bool) (session : option AttachedSession) (live : terminals) :
  live !! key = None ->
  size (resumable_terminals (<[key := (r, session)]> live)) = ((if r then 1 else 0) + size (resumable_terminals live))%nat.
Proof.
  intros Hk. unfold resumable_terminals. destruct r.
  - rewrite map_filter_insert_True, map_size_insert_None; [done| |done]. apply map_lookup_filter_None. by left.
  - rewrite map_filter_insert_False by done. by rewrite delete_id.
Qed.

Lemma resumable_delete (key : string * N) (r : bool) (session : option AttachedSession) (live : terminals) :
  live !! key = Some (r, session) ->
  (size (resumable_terminals live) = (if r then 1 else 0) + size (resumable_terminals (delete key live)))%nat.
Proof.
  intros Hk. rewrite <- (insert_id live key (r, session)) at 1 by done.
  rewrite <- insert_delete_eq. by rewrite resumable_insert by apply lookup_delete_eq.
Qed.

Lemma ptys_ok_open endpoint resumable session token s live :
  ptys_ok s live -> live !! (endpoint, token) = None ->
  match PtyLease_try_new endpoint resumable session token s with
  | (s', Some _) => ptys_ok s' (<[(endpoint, token) := (resumable, session)]> live)
  | (s', None) => ptys_ok s' live
  end.
Proof.
  intros [] Hf. unfold PtyLease_try_new.
  assert ((endpoint, token) ∉ dom live) as Hd by by apply not_elem_of_dom.
  pose proof (holds_try_add _ _ endpoint MAX_ACTIVE_PTYS MAX_ACTIVE_PTYS_PER_ENDPOINT token po_holds0 Hd) as Ht.
  destruct (try_add_with_limits _ _ _ _ _) as [a [[e t]|]]; [|by destruct Ht as [-> _]].
  destruct Ht as ([= -> ->] & Hh & Hroom & Hfew). rewrite size_dom in Hroom. split; cbn.
  - by rewrite dom_insert_L.
  - rewrite po_attached0. destruct session as [session|]; [by erewrite omap_insert_Some|].
    rewrite omap_insert_None by done. rewrite delete_id; [done|]. by rewrite lookup_omap, Hf.
  - rewrite resumable_insert, po_resumable0 by done. destruct resumable; lia.
  - rewrite map_size_insert_None by done. lia.
  - intros e'. rewrite dom_insert_L. pose proof (device_size_insert e' endpoint token (dom live)). specialize (po_device0 e').
    case_decide as He; [subst e'|]; lia.
Qed.

Lemma ptys_ok_close endpoint token resumable session s live :
  ptys_ok s live -> live !! (endpoint, token) = Some (resumable, session) ->
  ptys_ok (PtyLease_drop (mkPtyLease endpoint token resumable) s) (delete (endpoint, token) live).
Proof.
  intros [] Hl. pose proof (resumable_delete _ _ _ _ Hl) as Hr. split; cbn.
  - rewrite dom_delete_L. by apply holds_remove.
  - by rewrite po_attached0, omap_delete.
  - rewrite po_resumable0, Hr. destruct resumable; lia.
  - rewrite map_size_delete_Some by done. lia.
  - intros e. rewrite dom_delete_L. pose proof (device_size_subset e (dom live ∖ {[(endpoint, token)]}) (dom live) ltac:(set_solver)).
    specialize (po_device0 e). lia.
Qed.

Lemma sole_session_spec endpoint found l x :
  sole_session endpoint found l = Some x <->
  (forall t y, (endpoint, t, y) ∈ l -> y = x) /\ (found = Some x \/ (found = None /\ exists t, (endpoint, t, x) ∈ l)).
Proof.
  revert found. induction l as [|[[e t] y] l IH]; intros found; cbn.
  - split; [intros ->; split; [|by left]; intros t y Hy; by apply not_elem_of_nil in Hy|].
    intros (_ & [->|(_ & t & Ht)]); [done|]. by apply not_elem_of_nil in Ht.
  - setoid_rewrite elem_of_cons. destruct (String.eqb_spec e endpoint) as [->|Hne]; cbn [negb].
    + destruct found as [z|].
      * case_bool_decide as Hz; [subst z; rewrite IH|]; (split; [|intros [Hall Hf]; specialize (Hall t y (or_introl eq_refl)) as Hy]).
        -- intros [Hall [[= ->]|[Habs _]]]; [|done]. split; [|by left]. intros t' y' [[= _ ->]|Hin]; [done|by eapply Hall].
        -- subst y. split; [|by left]. intros t' y' Hin. apply (Hall t'). by right.
        -- done.
        -- destruct Hf as [[= ->]|[Habs _]]; [congruence|done].
      * rewrite IH. split.
        -- intros [Hall [[= ->]|[Habs _]]]; [|done]. split; [|right; split; [done|exists t; by left]].
           intros t' y' [[= _ ->]|Hin]; [done|by eapply Hall].
        -- intros [Hall _]. rewrite (Hall t y (or_introl eq_refl)). split; [|by left]. intros t' y' Hin. apply (Hall t'). by right.
    + rewrite IH. split.
      * intros [Hall Hf]. split.
        -- intros t' y' [[= <- _ _]|Hin]; [done|by eapply Hall].
        -- destruct Hf as [->|(-> & t' & Hin)]; [by left|]. right. split; [done|]. exists t'. by right.
      * intros [Hall Hf]. split; [intros t' y' Hin; apply (Hall t'); by right|].
        destruct Hf as [->|(-> & t' & [[= <- _ _]|Hin])]; [by left|done|]. right. split; [done|]. by exists t'.
Qed.

(** Terminals are accounted for exactly: however they are opened, refused and closed, at most 8 are
    open and 2 of each device; the count that an update may take down is that of the resumable ones; and
    a device is taken to be on a session just when all its terminals that are on one are on that one. *)
Theorem terminals_accounted s live :
  rtc pty_step (Ptys_default, ∅) (s, live) ->
  ca_total (pt_active s) = N.of_nat (size live) /\ N.of_nat (size live) <= MAX_ACTIVE_PTYS
  /\ (forall endpoint, N.of_nat (size (leases_of_device endpoint (dom live))) <= MAX_ACTIVE_PTYS_PER_ENDPOINT)
  /\ pt_resumable s = N.of_nat (size (resumable_terminals live))
  /\ forall endpoint session, sole_attached_session endpoint s = Some session <->
       (exists token r, live !! (endpoint, token) = Some (r, Some session))
       /\ forall token r other, live !! (endpoint, token) = Some (r, Some other) -> other = session.
Proof.
  intros Hrun. assert (ptys_ok s live) as [].
  { assert (forall x y, rtc pty_step x y -> ptys_ok x.1 x.2 -> ptys_ok y.1 y.2) as H; [clear Hrun s live|apply (H _ _ Hrun)].
    2: { split; cbn; [by rewrite dom_empty_L; apply holds_default|done..|].
         intros e. rewrite dom_empty_L. assert (leases_of_device e ∅ = ∅) as -> by (unfold leases_of_device; set_solver). by rewrite size_empty. }
    intros x y Hrun. induction Hrun as [|x y z Hstep _ IH]; [done|]. intros Hok. apply IH. clear IH.
    destruct Hstep as [e r session t s1 s2 lease l Hf Ho|e r session t s1 s2 l Hf Ho|e t r session s1 l Hl]; cbn [fst snd] in *.
    - pose proof (ptys_ok_open e r session t _ _ Hok (Hf e)) as H. by rewrite Ho in H.
    - pose proof (ptys_ok_open e r session t _ _ Hok (Hf e)) as H. by rewrite Ho in H.
    - by eapply ptys_ok_close. }
  split_and!; [|done..|]; [by rewrite (holds_total _ _ po_holds0), size_dom|].
  intros endpoint session. unfold sole_attached_session. rewrite sole_session_spec, po_attached0.
  setoid_rewrite elem_of_map_to_list. setoid_rewrite lookup_omap_Some. split.
  - intros [Hall [|(_ & t & [r o] & Ho & Hl)]]; [done|]. cbn in Ho. subst o. split; [by eexists _, _|].
    intros t' r' other Hl'. apply (Hall t'). by exists (r', Some other).
  - intros [(t & r & Hl) Hall]. split.
    + intros t' y ([r' o] & Ho & Hl'). cbn in Ho. subst o. by eapply Hall.
    + right. split; [done|]. exists t. by exists (r, Some session).
Qed.
