(* ===== verification/PathWatch.v ===== *)
(** The watch of [daemon.rs] over a connection's network paths: when a path whose sends go unanswered is
    abandoned for another. Instants are milliseconds; what QUIC counts on each path is given. *)
From S2P Require Import Prelude.

Local Open Scope N_scope.

Definition PTO_COUNT : N := 3.
Definition UNANSWERED : N := 2000.
Definition HEARD_SLACK : N := 2000.

Record PathProbeWatch := mkPathProbeWatch { pw_path : option N; pw_answered_at : option N }.

Definition PathProbeWatch_default : PathProbeWatch := mkPathProbeWatch None None.

Definition observe (now path pto_count : N) (w : PathProbeWatch) : PathProbeWatch * option (N * N) :=
  if negb (bool_decide (pw_path w = Some path)) || (pto_count =? 0) then (mkPathProbeWatch (Some path) (Some now), None)
  else
    (w, answered_at ← pw_answered_at w;
        let unanswered := now - answered_at in
        if (PTO_COUNT <=? pto_count) && (UNANSWERED <=? unanswered) then Some (unanswered, answered_at) else None).

(** [PathRxWatch]: each path's inbound count, and when it last moved. *)
Abbreviation heard_paths := (gmap N (N * N)).

Definition note (now path rx_datagrams : N) (heard : heard_paths) : heard_paths :=
  match heard !! path with
  | Some (seen, _) => if seen =? rx_datagrams then heard else <[path := (rx_datagrams, now)]> heard
  | None => <[path := (rx_datagrams, now)]> heard
  end.

Definition heard_on_since (path after : N) (heard : heard_paths) : bool :=
  is_some_and (fun '(_, at_) => after <? at_) (heard !! path).

(** ** The monitor *)

(** One open path, as a tick of [monitor_host_connection_flow] reads it. *)
Record PathStats := mkPathStats { ps_id : N; ps_selected : bool; ps_pto_count : N; ps_rx_datagrams : N }.

Record Tick := mkTick { tk_now : N; tk_paths : list PathStats }.

Record Monitor := mkMonitor { mo_watch : PathProbeWatch; mo_heard : heard_paths }.

Definition Monitor_default : Monitor := mkMonitor PathProbeWatch_default ∅.

Definition selected_path (paths : list PathStats) : option (N * N) :=
  (fun p => (ps_id p, ps_pto_count p)) <$> last (List.filter ps_selected paths).

Definition noted (t : Tick) (heard : heard_paths) : heard_paths :=
  foldl (fun heard p => note (tk_now t) (ps_id p) (ps_rx_datagrams p) heard) heard (tk_paths t).

(** One tick, and the path it closes. *)
Definition monitor_tick (m : Monitor) (t : Tick) : Monitor * option N :=
  let heard := noted t (mo_heard m) in
  match selected_path (tk_paths t) with
  | Some (id, pto_count) =>
      if 2 <=? len (tk_paths t)
      then
        let '(watch, verdict) := observe (tk_now t) id pto_count (mo_watch m) in
        match verdict with
        | Some (_, answered_at) =>
            if heard_on_since id (answered_at + HEARD_SLACK) heard
            then (mkMonitor PathProbeWatch_default heard, Some id)
            else (mkMonitor watch heard, None)
        | None => (mkMonitor watch heard, None)
        end
      else (mkMonitor (mo_watch m) heard, None)
  | None => (mkMonitor (mo_watch m) heard, None)
  end.

Definition monitor (ticks : list Tick) : Monitor := foldl (fun m t => (monitor_tick m t).1) Monitor_default ticks.

(** ** What a closed path was *)

(** What a tick shows the watch: nothing while a single path is open. *)
Definition watched (t : Tick) : option (N * N) :=
  if 2 <=? len (tk_paths t) then selected_path (tk_paths t) else None.

(** The watch hears nothing back on [path]. *)
Definition unanswered_on (path : N) (t : Tick) : Prop :=
  forall id pto_count, watched t = Some (id, pto_count) -> id = path /\ 0 < pto_count.

(** A reading of a path's count. *)
Definition reads (t : Tick) (path rx : N) : Prop :=
  exists p, p ∈ tk_paths t /\ ps_id p = path /\ ps_rx_datagrams p = rx.

(** The peer's count on [path] was first read, or not what it was, at this instant. *)
Definition heard_at (ticks : list Tick) (path at_ : N) : Prop :=
  exists before t after rx, ticks = before ++ t :: after /\ tk_now t = at_ /\ reads t path rx
  /\ ((forall t' rx', t' ∈ before -> ~ reads t' path rx') \/ exists t' rx', t' ∈ before ++ [t] /\ reads t' path rx' /\ rx' <> rx).

(** The baseline the watch holds is a tick at which the path was seen answered or newly selected, and
    nothing was heard back since. *)
Definition watch_ok (ticks : list Tick) (w : PathProbeWatch) : Prop :=
  match w with
  | mkPathProbeWatch (Some path) (Some at_) =>
      exists before base since, ticks = before ++ base :: since /\ tk_now base = at_
      /\ (exists pto_count, watched base = Some (path, pto_count)) /\ Forall (unanswered_on path) since
  | mkPathProbeWatch None None => True
  | _ => False
  end.

Definition heard_ok (ticks : list Tick) (heard : heard_paths) : Prop :=
  forall path,
    match heard !! path with
    | Some (seen, at_) => heard_at ticks path at_ /\ exists t, t ∈ ticks /\ reads t path seen
    | None => forall t rx, t ∈ ticks -> ~ reads t path rx
    end.

(** More is read at the last tick. *)
Lemma reads_more now ps p path rx : reads (mkTick now ps) path rx -> reads (mkTick now (ps ++ [p])) path rx.
Proof. intros (q & Hq & ?). exists q. split; [set_solver|done]. Qed.

Lemma reads_last now ps p path rx :
  reads (mkTick now (ps ++ [p])) path rx -> reads (mkTick now ps) path rx \/ (ps_id p = path /\ ps_rx_datagrams p = rx).
Proof.
  intros (q & Hq & Hid & Hrx). cbn in Hq. apply elem_of_app in Hq as [Hq| ->%list_elem_of_singleton]; [left; by exists q|by right].
Qed.

Lemma heard_at_more ticks now ps p path at_ :
  heard_at (ticks ++ [mkTick now ps]) path at_ -> heard_at (ticks ++ [mkTick now (ps ++ [p])]) path at_.
Proof.
  intros (before & t & after & rx & Heq & Ht & Hr & Hmoved). destruct after as [|x after _] using rev_ind.
  - apply app_inj_tail in Heq as [<- <-]. exists ticks, (mkTick now (ps ++ [p])), [], rx.
    split_and!; [done..|by apply reads_more|]. destruct Hmoved as [|(t' & rx' & Hin & Hr' & Hne)]; [by left|right].
    apply elem_of_app in Hin as [Hin| ->%list_elem_of_singleton].
    + exists t', rx'. split_and!; [set_solver|done..].
    + exists (mkTick now (ps ++ [p])), rx'. split_and!; [set_solver|by apply reads_more|done].
  - rewrite app_comm_cons, app_assoc in Heq. apply app_inj_tail in Heq as [-> _].
    exists before, t, (after ++ [mkTick now (ps ++ [p])]), rx. by rewrite <- app_assoc.
Qed.

Lemma note_ok ticks now ps p heard :
  heard_ok (ticks ++ [mkTick now ps]) heard ->
  heard_ok (ticks ++ [mkTick now (ps ++ [p])]) (note now (ps_id p) (ps_rx_datagrams p) heard).
Proof.
  intros Hh. assert (reads (mkTick now (ps ++ [p])) (ps_id p) (ps_rx_datagrams p)) as Hread by (exists p; split; [set_solver|done]).
  assert (forall path seen at_, heard !! path = Some (seen, at_) ->
    heard_at (ticks ++ [mkTick now (ps ++ [p])]) path at_ /\ exists t, t ∈ ticks ++ [mkTick now (ps ++ [p])] /\ reads t path seen) as Hkept.
  { intros path seen at_ Hl. specialize (Hh path). rewrite Hl in Hh. destruct Hh as (Hat & t & Hin & Hr).
    split; [by apply heard_at_more|]. apply elem_of_app in Hin as [Hin| ->%list_elem_of_singleton];
      [exists t; split; [set_solver|done]|exists (mkTick now (ps ++ [p])); split; [set_solver|by apply reads_more]]. }
  assert (heard !! ps_id p = None \/ (exists seen at_, heard !! ps_id p = Some (seen, at_) /\ seen <> ps_rx_datagrams p) ->
    heard_ok (ticks ++ [mkTick now (ps ++ [p])]) (<[ps_id p := (ps_rx_datagrams p, now)]> heard)) as Hins.
  { intros Hnew path. rewrite lookup_insert. case_decide as Hp.
    - subst path. split; [|eexists; split; [|exact Hread]; set_solver].
      exists ticks, (mkTick now (ps ++ [p])), [], (ps_rx_datagrams p). split_and!; [done..|].
      destruct Hnew as [Hnone|(seen & at_ & Hl & Hne)].
      + left. intros t' rx' Hin. specialize (Hh (ps_id p)). rewrite Hnone in Hh. apply Hh. set_solver.
      + right. destruct (Hkept _ _ _ Hl) as (_ & t' & Hin & Hr). by exists t', seen.
    - destruct (heard !! path) as [[seen at_]|] eqn:Hl; [by apply Hkept|]. intros t rx Hin Hr.
      specialize (Hh path). rewrite Hl in Hh. apply elem_of_app in Hin as [Hin| ->%list_elem_of_singleton].
      + apply (Hh t rx); [set_solver|done].
      + apply reads_last in Hr as [Hr|[? _]]; [|done]. apply (Hh (mkTick now ps) rx); [set_solver|done]. }
  unfold note. destruct (heard !! ps_id p) as [[seen at_]|] eqn:Hl; [|apply Hins; by left].
  destruct (N.eqb_spec seen (ps_rx_datagrams p)) as [->|Hne]; [|apply Hins; right; by exists seen, at_].
  intros path. destruct (heard !! path) as [[s a]|] eqn:Hl'; [by apply Hkept|]. intros t rx Hin Hr.
  specialize (Hh path). rewrite Hl' in Hh. apply elem_of_app in Hin as [Hin| ->%list_elem_of_singleton].
  - apply (Hh t rx); [set_solver|done].
  - apply reads_last in Hr as [Hr|[<- _]]; [|congruence]. apply (Hh (mkTick now ps) rx); [set_solver|done].
Qed.

Lemma noted_ok ticks t heard : heard_ok ticks heard -> heard_ok (ticks ++ [t]) (noted t heard).
Proof.
  intros Hh. unfold noted. destruct t as [now all]. cbn.
  assert (forall ps done_ h, heard_ok (ticks ++ [mkTick now done_]) h ->
    heard_ok (ticks ++ [mkTick now (done_ ++ ps)]) (foldl (fun h p => note now (ps_id p) (ps_rx_datagrams p) h) h ps)) as H.
  { intros ps. induction ps as [|p ps IH]; intros ps1 h Hok; [by rewrite app_nil_r|]. cbn.
    specialize (IH (ps1 ++ [p])). rewrite <- app_assoc in IH. apply IH. by apply note_ok. }
  apply (H all []). intros path. specialize (Hh path). destruct (heard !! path) as [[seen at_]|].
  - destruct Hh as ((before & t & after & rx & -> & Hat) & t' & Hin & Hr). split.
    + exists before, t, (after ++ [mkTick now []]), rx. by rewrite <- app_assoc.
    + exists t'. split; [set_solver|done].
  - intros t rx [Hin| ->%list_elem_of_singleton]%elem_of_app; [by apply Hh|]. intros (p & Hp & _). by apply not_elem_of_nil in Hp.
Qed.

Lemma observe_ok ticks t w id pto_count :
  watched t = Some (id, pto_count) -> watch_ok ticks w -> watch_ok (ticks ++ [t]) (observe (tk_now t) id pto_count w).1.
Proof.
  intros Hw Hok. unfold observe. destruct (negb _ || _) eqn:Hc; cbn [fst].
  - exists ticks, t, []. split_and!; [done..|by exists pto_count|constructor].
  - apply orb_false_iff in Hc as [Hp Hpto]. b2p. destruct w as [wp wa]. cbn in Hp. subst wp.
    destruct wa as [at_|]; [|done]. destruct Hok as (before & base & since & -> & Ht & Hb & Hs).
    exists before, base, (since ++ [t]). split_and!; [by rewrite <- app_assoc|done..|].
    apply Forall_app. split; [done|]. constructor; [|constructor]. intros id' pto'. rewrite Hw. intros [= <- <-]. split; [done|lia].
Qed.

Lemma unwatched_ok ticks t w : watched t = None -> watch_ok ticks w -> watch_ok (ticks ++ [t]) w.
Proof.
  intros Hw. destruct w as [[path|] [at_|]]; try done. intros (before & base & since & -> & Ht & Hb & Hs).
  exists before, base, (since ++ [t]). split_and!; [by rewrite <- app_assoc|done..|].
  apply Forall_app. split; [done|]. constructor; [|constructor]. intros id pto. by rewrite Hw.
Qed.

Lemma monitor_snoc ticks t : monitor (ticks ++ [t]) = (monitor_tick (monitor ticks) t).1.
Proof. unfold monitor. by rewrite foldl_app. Qed.

Lemma monitor_tick_heard m t : mo_heard (monitor_tick m t).1 = noted t (mo_heard m).
Proof. unfold monitor_tick. repeat case_match; done. Qed.

Lemma monitor_ok ticks : watch_ok ticks (mo_watch (monitor ticks)) /\ heard_ok ticks (mo_heard (monitor ticks)).
Proof.
  induction ticks as [|t ticks [IHw IHh]] using rev_ind.
  { split; [done|]. intros path. cbn. rewrite lookup_empty. intros t rx Ht. by apply not_elem_of_nil in Ht. }
  rewrite monitor_snoc, monitor_tick_heard.
  split; [|by apply noted_ok]. unfold monitor_tick. destruct (watched t) as [[id pto]|] eqn:Hw.
  - pose proof Hw as Hsel. unfold watched in Hsel. destruct (2 <=? len (tk_paths t)); [|done]. rewrite Hsel.
    pose proof (observe_ok ticks t (mo_watch (monitor ticks)) id pto Hw IHw) as Ho.
    destruct (observe _ _ _ _) as [w [[u a]|]]; [|done]. by case_match.
  - pose proof (unwatched_ok ticks t _ Hw IHw) as Ho. unfold watched in Hw.
    destruct (2 <=? len (tk_paths t)); [by rewrite Hw|]. by destruct (selected_path (tk_paths t)) as [[]|].
Qed.

(** A path is abandoned only on the evidence claimed: when a tick closes one, another path is open,
    QUIC counts three probes or more unanswered on it, at every tick the watch saw in the last two
    seconds and more it was the selected path and had not answered, and the peer was heard on it since. *)
Theorem abandoned_path_unanswered ticks t path :
  (monitor_tick (monitor ticks) t).2 = Some path ->
  2 <= len (tk_paths t)
  /\ (exists pto_count, selected_path (tk_paths t) = Some (path, pto_count) /\ PTO_COUNT <= pto_count)
  /\ exists before base since, ticks = before ++ base :: since
     /\ (exists pto_count, watched base = Some (path, pto_count)) /\ Forall (unanswered_on path) since
     /\ UNANSWERED <= tk_now t - tk_now base
     /\ exists at_, tk_now base + HEARD_SLACK < at_ /\ heard_at (ticks ++ [t]) path at_.
Proof.
  destruct (monitor_ok ticks) as [Hw Hh]. intros Hclose. unfold monitor_tick in Hclose.
  destruct (selected_path (tk_paths t)) as [[id pto]|] eqn:Hsel; [|done].
  destruct (N.leb_spec 2 (len (tk_paths t))) as [Hlen|]; [|done]. split; [done|].
  destruct (observe _ _ _ _) as [w [[u a]|]] eqn:Ho; [|done].
  destruct (heard_on_since _ _ _) eqn:Hheard; [|done]. injection Hclose as ->.
  unfold observe in Ho. destruct (negb _ || _) eqn:Hc; [done|]. apply orb_false_iff in Hc as [Hp Hpto]. b2p.
  destruct (mo_watch (monitor ticks)) as [wp wa]. cbn in Hp. subst wp. destruct wa as [at_|]; [|done]. cbn in Ho.
  destruct ((PTO_COUNT <=? pto) && _) eqn:Hbar; [|done]. injection Ho as _ _ ->. b2p. split; [by exists pto|].
  destruct Hw as (before & base & since & Htk & Ht & Hb & Hs). exists before, base, since. rewrite Ht. split_and!; try done.
  unfold heard_on_since in Hheard. destruct (noted t _ !! path) as [[seen h]|] eqn:Hl; [|done]. cbn in Hheard. b2p.
  exists h. split; [done|]. pose proof (noted_ok _ t _ Hh path) as Hn. rewrite Hl in Hn. apply Hn.
Qed.

(** What the watch does not see, it cannot count: while a single path is open it is not shown it, so a
    path that answered one second ago is abandoned once another opens. *)
Definition lone (now pto rx : N) : Tick := mkTick now [mkPathStats 0 true pto rx].
Definition paired (now pto rx : N) : Tick := mkTick now [mkPathStats 0 true pto rx; mkPathStats 1 false 0 0].

Lemma lone_path_goes_stale :
  (monitor_tick (monitor [paired 0 0 1; lone 1000 0 2; lone 2000 0 3; lone 3000 0 4]) (paired 4000 3 4)).2 = Some 0
  /\ (monitor_tick (monitor [paired 0 0 1; paired 1000 0 2; paired 2000 0 3; paired 3000 0 4]) (paired 4000 3 4)).2 = None.
Proof. by vm_compute. Qed.
