(* ===== verification/Pairing.v ===== *)
(** Pairing offers of [pairing.rs]: who may claim one, when, and how often. An offer is a capability shown
    once as a QR code; whoever presents it before it expires is added to the allowlist. *)
From S2P Require Import Prelude Text Qr RateWindow.

Local Open Scope N_scope.

Definition PAIRING_LIFETIME_SECS : N := 5 * 60.
Definition OUTCOME_RETENTION_SECS : N := 10 * 60.
Definition ATTEMPT_WINDOW_SECS : N := 60.
Definition MAX_ATTEMPTS_PER_WINDOW : N := 8.
Definition MAX_TRACKED_RATE_LIMIT_ENDPOINTS : N := 1024.

Abbreviation pop_stale := (RateWindow.pop_stale ATTEMPT_WINDOW_SECS).
Abbreviation recent := (RateWindow.recent ATTEMPT_WINDOW_SECS).
Abbreviation window := (RateWindow.window ATTEMPT_WINDOW_SECS).

(** ** Data *)

Record CreatedOffer := mkCreatedOffer { co_pairing_id : bytes; co_capability : bytes; co_expires_at : N }.

Record PairingClaim := mkPairingClaim {
  pc_pairing_id : bytes; pc_capability_hash : bytes; pc_expires_at : N; pc_token : N }.

Inductive OfferState :=
| Pending
| Validating (token : N)
| Accepted (installation_endpoint_id : string) (connected : bool)
| Expired
| Rejected (message : string).

Record Offer := mkOffer {
  of_capability_hash : bytes; of_created_at : N; of_expires_at : N; of_state : OfferState }.

Record PairingStatus := mkPairingStatus {
  st_state : string; st_installation_endpoint_id : option string; st_connected : bool; st_message : option string }.

Inductive PairingRejection := UnknownPairing | OfferExpired | AlreadyConsumed | InvalidCapability | InProgress | Internal.

#[export] Instance PairingRejection_eq_dec : EqDecision PairingRejection.
Proof. solve_decision. Defined.

Definition PairingRejection_code (r : PairingRejection) : string :=
  match r with
  | UnknownPairing => "unknown_pairing" | OfferExpired => "expired" | AlreadyConsumed => "already_consumed"
  | InvalidCapability => "invalid_capability" | InProgress => "rate_limited" | Internal => "internal_error"
  end.

Definition safe_message (r : PairingRejection) : string :=
  match r with
  | UnknownPairing => "Pairing code is not active. Run ciao pair again."
  | OfferExpired => "Pairing code expired. Run ciao pair again."
  | AlreadyConsumed => "Pairing code was already used. Run ciao pair again."
  | InvalidCapability => "Pairing code was rejected. Run ciao pair again."
  | InProgress => "Too many pairing attempts. Wait and try again."
  | Internal => "Pairing failed internally. Run ciao pair again."
  end.

Record PairingManager := mkPairingManager { pm_offers : gmap bytes Offer; pm_current_pending : option bytes }.

Definition PairingManager_default : PairingManager := mkPairingManager ∅ None.

Definition set_state (state : OfferState) (o : Offer) : Offer :=
  mkOffer (of_capability_hash o) (of_created_at o) (of_expires_at o) state.
Definition set_offer (id : bytes) (o : Offer) (m : PairingManager) : PairingManager :=
  mkPairingManager (<[id := o]> (pm_offers m)) (pm_current_pending m).
Definition set_current (current : option bytes) (m : PairingManager) : PairingManager :=
  mkPairingManager (pm_offers m) current.
(** [if self.current_pending == Some(id) { self.current_pending = None }]. *)
Definition clear_current (id : bytes) (m : PairingManager) : PairingManager :=
  if bool_decide (pm_current_pending m = Some id) then set_current None m else m.

(** ** The manager *)

Definition cleanup (now : N) (m : PairingManager) : PairingManager :=
  mkPairingManager
    (filter (fun '(_, offer) => now - of_created_at offer <= PAIRING_LIFETIME_SECS + OUTCOME_RETENTION_SECS) (pm_offers m))
    (pm_current_pending m).

(** The pending offer taken out of the way of a new one. *)
Definition retire_current (m : PairingManager) : result PairingRejection PairingManager :=
  match pm_current_pending m with
  | None => Ok m
  | Some current =>
      match pm_offers m !! current with
      | None => Ok (set_current None m)
      | Some offer =>
          match of_state offer with
          | Pending => Ok (set_current None (set_offer current
                             (set_state (Rejected "Replaced by a newer pairing code.") offer) m))
          | Validating _ => Err InProgress
          | _ => Ok (set_current None m)
          end
      end
  end.

Section manager.
(** [Sha256::digest] of the [sha2] crate, [EndpointId::to_string] of [iroh], base64 of [base64]. *)
Context (sha256 : bytes -> bytes) {EndpointId : Type} (to_string : EndpointId -> string).
Context (decode_base64 : string -> option bytes).

Definition capability_hash (capability : bytes) : bytes := sha256 capability.
(** [ct_eq]: equality, whatever time it takes. *)
Definition constant_time_hash_eq (expected submitted : bytes) : bool := bool_decide (expected = submitted).

(** [pairing_id], which the loop draws until no offer has it, and [capability] are random. *)
Definition create (now : N) (pairing_id capability : bytes) (m : PairingManager)
  : PairingManager * result PairingRejection CreatedOffer :=
  let m := cleanup now m in
  match retire_current m with
  | Err e => (m, Err e)
  | Ok m =>
      let expires_at := sat_add64 now PAIRING_LIFETIME_SECS in
      (set_current (Some pairing_id)
         (set_offer pairing_id (mkOffer (capability_hash capability) now expires_at Pending) m),
       Ok (mkCreatedOffer pairing_id capability expires_at))
  end.

(** [token] is random. *)
Definition claim (pairing_id capability : bytes) (now token : N) (m : PairingManager)
  : PairingManager * result PairingRejection PairingClaim :=
  match pm_offers m !! pairing_id with
  | None => (m, Err UnknownPairing)
  | Some offer =>
      match of_state offer with
      | Expired => (m, Err OfferExpired)
      | Validating _ | Accepted _ _ | Rejected _ => (m, Err AlreadyConsumed)
      | Pending =>
          if of_expires_at offer <=? now
          then (clear_current pairing_id (set_offer pairing_id (set_state Expired offer) m), Err OfferExpired)
          else if negb (constant_time_hash_eq (of_capability_hash offer) (capability_hash capability))
          then (m, Err InvalidCapability)
          else (set_offer pairing_id (set_state (Validating token) offer) m,
                Ok (mkPairingClaim pairing_id (of_capability_hash offer) (of_expires_at offer) token))
      end
  end.

Definition validating (token : N) (offer : Offer) : bool :=
  match of_state offer with Validating t => t =? token | _ => false end.

Definition complete (c : PairingClaim) (endpoint_id : EndpointId) (now : N) (m : PairingManager)
  : PairingManager * result PairingRejection unit :=
  match pm_offers m !! pc_pairing_id c with
  | None => (m, Err Internal)
  | Some offer =>
      if of_expires_at offer <=? now
      then (set_current None (set_offer (pc_pairing_id c) (set_state Expired offer) m), Err OfferExpired)
      else if validating (pc_token c) offer
      then (clear_current (pc_pairing_id c)
              (set_offer (pc_pairing_id c) (set_state (Accepted (to_string endpoint_id) false) offer) m), Ok tt)
      else (m, Err Internal)
  end.

Definition abort (c : PairingClaim) (now : N) (m : PairingManager) : PairingManager :=
  match pm_offers m !! pc_pairing_id c with
  | None => m
  | Some offer =>
      if negb (validating (pc_token c) offer) then m
      else if of_expires_at offer <=? now
      then set_current None (set_offer (pc_pairing_id c) (set_state Expired offer) m)
      else set_current (Some (pc_pairing_id c)) (set_offer (pc_pairing_id c) (set_state Pending offer) m)
  end.

Definition mark_connected (pairing_id : bytes) (endpoint_id : EndpointId) (m : PairingManager) : PairingManager :=
  match pm_offers m !! pairing_id with
  | Some offer =>
      match of_state offer with
      | Accepted installation connected =>
          if installation =s? to_string endpoint_id
          then set_offer pairing_id (set_state (Accepted installation true) offer) m else m
      | _ => m
      end
  | None => m
  end.

Definition reject_current (message : string) (m : PairingManager) : PairingManager :=
  match pm_current_pending m with
  | None => m
  | Some current =>
      match pm_offers m !! current with
      | Some offer => set_current None (set_offer current (set_state (Rejected message) offer) m)
      | None => set_current None m
      end
  end.

Definition unknown_status : PairingStatus :=
  mkPairingStatus "unknown" None false (Some "Pairing offer is no longer known. Run ciao pair again."%string).

Definition offer_status (state : OfferState) : PairingStatus :=
  match state with
  | Pending | Validating _ => mkPairingStatus "pending" None false None
  | Accepted installation connected =>
      mkPairingStatus (if connected then "connected" else "accepted")%string (Some installation) connected None
  | Expired => mkPairingStatus "expired" None false (Some "Pairing code expired. Run ciao pair again."%string)
  | Rejected message => mkPairingStatus "rejected" None false (Some message)
  end.

Definition is_pending (o : Offer) : bool := match of_state o with Pending => true | _ => false end.

Definition status (encoded_pairing_id : string) (now : N) (m : PairingManager) : PairingManager * PairingStatus :=
  match decode_exact decode_base64 16 encoded_pairing_id with
  | None => (m, unknown_status)
  | Some pairing_id =>
      match pm_offers m !! pairing_id with
      | None => (m, unknown_status)
      | Some offer =>
          if is_pending offer && (of_expires_at offer <=? now)
          then (clear_current pairing_id (set_offer pairing_id (set_state Expired offer) m), offer_status Expired)
          else (m, offer_status (of_state offer))
      end
  end.

(** ** Attempts *)

(** The instants of an endpoint's recent attempts, oldest first. *)
Abbreviation attempts := (gmap string (list N)).

Definition check (endpoint_id : EndpointId) (now : N) (limiter : attempts) : attempts * result PairingRejection unit :=
  let limiter := filter (fun '(_, l) => l <> []) (pop_stale now <$> limiter) in
  let id := to_string endpoint_id in
  if is_none (limiter !! id) && (MAX_TRACKED_RATE_LIMIT_ENDPOINTS <=? N.of_nat (size limiter))
  then (limiter, Err InProgress)
  else
    let l := default [] (limiter !! id) in
    if MAX_ATTEMPTS_PER_WINDOW <=? len l then (<[id := l]> limiter, Err InProgress)
    else (<[id := l ++ [now]]> limiter, Ok tt).

(** ** A code that was used *)

Definition terminal (o : Offer) : bool :=
  match of_state o with Accepted _ _ | Expired | Rejected _ => true | Pending | Validating _ => false end.

(** A pairing id no one can claim any more. *)
Definition spent (pairing_id : bytes) (m : PairingManager) : Prop :=
  match pm_offers m !! pairing_id with Some o => terminal o = true | None => True end.

(** The manager, and the claims the connections under way hold: each is completed or given up once, or
    lost with its task. A pairing id is 128 random bits: it is taken to name no offer and no claim under way, and to come from
    the ids that are ever drawn. An offer is rejected only before it is shown. *)
Inductive pairing_step (drawn : bytes -> Prop) : PairingManager * list PairingClaim -> PairingManager * list PairingClaim -> Prop :=
| StepCreate now pairing_id capability m claims :
    drawn pairing_id -> pm_offers (cleanup now m) !! pairing_id = None -> pairing_id ∉ (pc_pairing_id <$> claims) ->
    pairing_step drawn (m, claims) ((create now pairing_id capability m).1, claims)
| StepClaim pairing_id capability now token m m' c claims :
    claim pairing_id capability now token m = (m', Ok c) -> pairing_step drawn (m, claims) (m', c :: claims)
| StepClaimRefused pairing_id capability now token m m' e claims :
    claim pairing_id capability now token m = (m', Err e) -> pairing_step drawn (m, claims) (m', claims)
| StepComplete c endpoint_id now m before after :
    pairing_step drawn (m, before ++ c :: after) ((complete c endpoint_id now m).1, before ++ after)
| StepAbort c now m before after :
    pairing_step drawn (m, before ++ c :: after) (abort c now m, before ++ after)
| StepLost c m before after :
    pairing_step drawn (m, before ++ c :: after) (m, before ++ after)
| StepConnected pairing_id endpoint_id m claims :
    pairing_step drawn (m, claims) (mark_connected pairing_id endpoint_id m, claims)
| StepReject message m claims :
    (forall id o, pm_current_pending m = Some id -> pm_offers m !! id = Some o -> is_pending o = true) ->
    pairing_step drawn (m, claims) (reject_current message m, claims)
| StepStatus encoded now m claims :
    pairing_step drawn (m, claims) ((status encoded now m).1, claims).

Lemma offers_set_offer id o m : pm_offers (set_offer id o m) = <[id := o]> (pm_offers m).
Proof. done. Qed.
Lemma offers_set_current c m : pm_offers (set_current c m) = pm_offers m.
Proof. done. Qed.
Lemma offers_clear_current id m : pm_offers (clear_current id m) = pm_offers m.
Proof. unfold clear_current. by case_match. Qed.

Lemma spent_set_other id o m pairing_id : id <> pairing_id -> spent pairing_id (set_offer id o m) <-> spent pairing_id m.
Proof. intros Hne. unfold spent. by rewrite offers_set_offer, lookup_insert_ne. Qed.

Lemma spent_set_terminal id o m pairing_id :
  terminal o = true -> spent pairing_id m -> spent pairing_id (set_offer id o m).
Proof.
  intros Ho Hs. destruct (decide (id = pairing_id)) as [->|Hne]; [|by apply spent_set_other].
  unfold spent. by rewrite offers_set_offer, lookup_insert, decide_True.
Qed.

Lemma spent_current c m pairing_id : spent pairing_id (set_current c m) <-> spent pairing_id m.
Proof. done. Qed.
Lemma spent_clear id m pairing_id : spent pairing_id (clear_current id m) <-> spent pairing_id m.
Proof. unfold spent. by rewrite offers_clear_current. Qed.

Lemma spent_cleanup now m pairing_id : spent pairing_id m -> spent pairing_id (cleanup now m).
Proof.
  unfold spent, cleanup. cbn. destruct (filter _ _ !! pairing_id) as [o|] eqn:Ho; [|done].
  apply map_lookup_filter_Some in Ho as [Ho _]. by rewrite Ho.
Qed.

(** An offer about to change state is not a spent one. *)
Lemma spent_live pairing_id m o : spent pairing_id m -> pm_offers m !! pairing_id = Some o -> terminal o = true.
Proof. unfold spent. by intros H Ho; rewrite Ho in H. Qed.

Lemma retire_spent m m' pairing_id : retire_current m = Ok m' -> spent pairing_id m -> spent pairing_id m'.
Proof.
  unfold retire_current. destruct (pm_current_pending m) as [c|]; [|by intros [= <-]].
  destruct (pm_offers m !! c) as [o|] eqn:Ho; [|by intros [= <-]].
  destruct (of_state o) eqn:Hst; intros [= <-]; try done. intros H. apply spent_current.
  by apply spent_set_terminal.
Qed.

Lemma spent_step drawn s s' pairing_id :
  ~ drawn pairing_id -> pairing_step drawn s s' -> spent pairing_id s.1 -> spent pairing_id s'.1.
Proof.
  intros Hnd Hstep. destruct Hstep as [now id cap m cl Hd Hf _|id cap now t m m' c cl Hc|id cap now t m m' e cl Hc|c e now m cl cl'|
    c now m cl cl'|c m cl cl'|id e m cl|msg m cl Hp|enc now m cl]; cbn [fst]; intros Hs.
  - unfold create. destruct (retire_current (cleanup now m)) as [m1|] eqn:Hr; cbn [fst]; [|by apply spent_cleanup].
    apply spent_current, spent_set_other; [by intros ->|]. eapply retire_spent; [exact Hr|by apply spent_cleanup].
  - unfold claim in Hc. destruct (pm_offers m !! id) as [o|] eqn:Ho; [|done]. destruct (of_state o) eqn:Hst; try done.
    destruct (_ <=? now); [done|]. destruct (negb _); [done|]. injection Hc as <- _.
    destruct (decide (id = pairing_id)) as [->|]; [|by apply spent_set_other].
    pose proof (spent_live _ _ _ Hs Ho) as Ht. unfold terminal in Ht. by rewrite Hst in Ht.
  - unfold claim in Hc. destruct (pm_offers m !! id) as [o|]; [|by injection Hc as <- _].
    destruct (of_state o); try by injection Hc as <- _.
    destruct (_ <=? now); [injection Hc as <- _; apply spent_clear; by apply spent_set_terminal|].
    destruct (negb _); [by injection Hc as <- _|done].
  - unfold complete. destruct (pm_offers m !! _) as [o|]; [|done].
    destruct (_ <=? now); [by apply spent_current, spent_set_terminal|].
    destruct (validating _ _); [|done]. apply spent_clear. by apply spent_set_terminal.
  - unfold abort. destruct (pm_offers m !! _) as [o|] eqn:Ho; [|done]. destruct (validating _ o) eqn:Hv; [|done]. cbn [negb].
    destruct (_ <=? now); [by apply spent_current, spent_set_terminal|]. apply spent_current.
    destruct (decide (pc_pairing_id c = pairing_id)) as [He|]; [|by apply spent_set_other]. rewrite He in Ho.
    pose proof (spent_live _ _ _ Hs Ho) as Ht. unfold terminal, validating in *. by destruct (of_state o).
  - done.
  - unfold mark_connected. destruct (pm_offers m !! id) as [o|]; [|done]. destruct (of_state o); try done.
    case_match; [|done]. by apply spent_set_terminal.
  - unfold reject_current. destruct (pm_current_pending m) as [c|]; [|done].
    destruct (pm_offers m !! c) as [o|]; [|done]. by apply spent_current, spent_set_terminal.
  - unfold status. destruct (decode_exact _ _ _) as [id|]; [|done]. destruct (pm_offers m !! id) as [o|]; [|done].
    case_match; [|done]. cbn [fst]. apply spent_clear. by apply spent_set_terminal.
Qed.

Lemma spent_refused pairing_id capability now token m :
  spent pairing_id m -> exists e, claim pairing_id capability now token m = (m, Err e).
Proof.
  unfold spent, claim, terminal. destruct (pm_offers m !! pairing_id) as [o|]; [|by eexists].
  destruct (of_state o); try done; by eexists.
Qed.

(** A pairing code works once. Whatever happens after it was accepted, replaced, rejected or has
    expired — codes created and cleaned up, claims by any device, completed, given up or late — no device
    can claim it again, unless its 128 random bits are drawn again. *)
Theorem spent_stays_spent drawn pairing_id m claims m' claims' :
  spent pairing_id m -> ~ drawn pairing_id ->
  rtc (pairing_step drawn) (m, claims) (m', claims') ->
  spent pairing_id m'
  /\ forall capability now token, exists e, claim pairing_id capability now token m' = (m', Err e).
Proof.
  intros Hs Hnd Hrun.
  assert (spent pairing_id m') as Hs'.
  { change m' with (m', claims').1. change m with (m, claims).1 in Hs. revert Hs.
    induction Hrun; [done|]. eauto using spent_step. }
  split; [done|]. intros. by apply spent_refused.
Qed.

(** ** One code at a time *)

Definition live (o : Offer) : bool := negb (terminal o).

(** The one offer that can still be used is the current one. *)
Definition one_live (m : PairingManager) : Prop :=
  forall id o, pm_offers m !! id = Some o -> live o = true -> pm_current_pending m = Some id.

(** A claim under way holds its offer, while there is one. *)
Definition claims_hold (m : PairingManager) (claims : list PairingClaim) : Prop :=
  NoDup (pc_pairing_id <$> claims)
  /\ forall c o, c ∈ claims -> pm_offers m !! pc_pairing_id c = Some o -> validating (pc_token c) o = true.

Definition pairing_ok (s : PairingManager * list PairingClaim) : Prop := one_live s.1 /\ claims_hold s.1 s.2.

Lemma one_live_set_terminal id o m : terminal o = true -> one_live m -> one_live (set_offer id o m).
Proof.
  intros Ho Hl id' o'. rewrite offers_set_offer, lookup_insert_Some. intros [[<- <-]|[_ H]]; [|by apply Hl].
  unfold live. by rewrite Ho.
Qed.

Lemma one_live_none id o m c : terminal o = true -> pm_offers m !! id = Some c -> live c = true -> one_live m ->
  one_live (set_current None (set_offer id o m)).
Proof.
  intros Ho Hc Hlc Hl id' o'. rewrite offers_set_current, offers_set_offer, lookup_insert_Some.
  intros [[<- <-]|[Hne H]] Hlive; [unfold live in Hlive; by rewrite Ho in Hlive|]. exfalso. apply Hne.
  pose proof (Hl _ _ H Hlive). pose proof (Hl _ _ Hc Hlc). congruence.
Qed.

Lemma one_live_clear id o m : terminal o = true -> one_live m -> one_live (clear_current id (set_offer id o m)).
Proof.
  intros Ho Hl id' o'. rewrite offers_clear_current, offers_set_offer, lookup_insert_Some.
  intros [[<- <-]|[Hne H]] Hlive; [unfold live in Hlive; by rewrite Ho in Hlive|].
  unfold clear_current. pose proof (Hl _ _ H Hlive) as Hcur. cbn. rewrite Hcur. by rewrite bool_decide_eq_false_2 by congruence.
Qed.

Lemma one_live_or m id o :
  one_live m -> pm_offers m !! id = Some o -> terminal o = true \/ pm_current_pending m = Some id.
Proof. intros Hl Ho. destruct (terminal o) eqn:Ht; [by left|]. right. apply (Hl id o Ho). unfold live. by rewrite Ht. Qed.

(** Once the current offer is retired none can be used. *)
Lemma retire_one_live m m' id o :
  one_live m -> retire_current m = Ok m' -> pm_offers m' !! id = Some o -> terminal o = true.
Proof.
  intros Hl Hr Ho. unfold retire_current in Hr. destruct (pm_current_pending m) as [c|] eqn:Hc.
  - destruct (pm_offers m !! c) as [oc|] eqn:Hoc.
    + destruct (of_state oc) eqn:Hst; try discriminate Hr; injection Hr as <-;
        [cbn in Ho; apply lookup_insert_Some in Ho as [[<- <-]|[Hne Ho]]; [done|]|..];
        (destruct (one_live_or m id o Hl Ho) as [|Hi]; [done|]); rewrite Hc in Hi; injection Hi as ->; [done|..];
        cbn in Ho; rewrite Hoc in Ho; injection Ho as ->; unfold terminal; by rewrite Hst.
    + injection Hr as <-. destruct (one_live_or m id o Hl Ho) as [|Hi]; [done|]. rewrite Hc in Hi. injection Hi as ->.
      cbn in Ho. by rewrite Hoc in Ho.
  - injection Hr as <-. destruct (one_live_or m id o Hl Ho) as [|Hi]; [done|]. by rewrite Hc in Hi.
Qed.

Lemma cleanup_offer now m id o : pm_offers (cleanup now m) !! id = Some o -> pm_offers m !! id = Some o.
Proof. cbn. by intros [Ho _]%map_lookup_filter_Some. Qed.

Lemma one_live_cleanup now m : one_live m -> one_live (cleanup now m).
Proof. intros Hl id o Ho%cleanup_offer. by apply Hl. Qed.

(** Changing an offer no claim holds, or no offer at all, leaves the claims their offers. *)
Lemma claims_hold_offers m m' claims :
  (forall c o, c ∈ claims -> pm_offers m' !! pc_pairing_id c = Some o -> pm_offers m !! pc_pairing_id c = Some o) ->
  claims_hold m claims -> claims_hold m' claims.
Proof. intros Hsub [Hnd Hh]. split; [done|]. intros c o Hc Ho. by apply Hh; [|apply Hsub]. Qed.

Lemma claims_hold_set id o m claims :
  id ∉ (pc_pairing_id <$> claims) -> claims_hold m claims -> claims_hold (set_offer id o m) claims.
Proof.
  intros Hid. apply claims_hold_offers. intros c o' Hc. rewrite offers_set_offer, lookup_insert_ne; [done|].
  intros ->. apply Hid. by apply list_elem_of_fmap_2.
Qed.

Lemma held_not_pending m claims id o :
  claims_hold m claims -> pm_offers m !! id = Some o -> (forall t, of_state o <> Validating t) ->
  id ∉ (pc_pairing_id <$> claims).
Proof.
  intros [_ Hh] Ho Hn (c & -> & Hc)%list_elem_of_fmap. specialize (Hh c o Hc Ho). unfold validating in Hh.
  destruct (of_state o) eqn:Hst; try done. by destruct (Hn token).
Qed.

Lemma claims_hold_drop m before c after :
  claims_hold m (before ++ c :: after) ->
  claims_hold m (before ++ after) /\ (pc_pairing_id c ∉ (pc_pairing_id <$> (before ++ after)))
  /\ (forall o, pm_offers m !! pc_pairing_id c = Some o -> validating (pc_token c) o = true).
Proof.
  intros [Hnd Hh]. pose proof (Permutation_middle before after c) as Hp. symmetry in Hp.
  rewrite Hp, fmap_cons, NoDup_cons in Hnd. destruct Hnd as [Hn Hnd]. split_and!; [split; [done|]|done|].
  - intros c' o Hc'. apply Hh. rewrite Hp. by right.
  - intros o. apply Hh. rewrite Hp. by left.
Qed.

Lemma one_live_validated id o m token :
  pm_offers m !! id = Some o -> is_pending o = true -> one_live m ->
  one_live (set_offer id (set_state (Validating token) o) m).
Proof.
  intros Ho Hp Hl id' o'. rewrite offers_set_offer, lookup_insert_Some. intros [[<- _]|[_ H]]; [|by apply Hl].
  intros _. apply (Hl id o Ho). unfold live, terminal. unfold is_pending in Hp. by destruct (of_state o).
Qed.

Lemma pairing_ok_create now id cap m claims :
  pm_offers (cleanup now m) !! id = None -> id ∉ (pc_pairing_id <$> claims) ->
  pairing_ok (m, claims) -> pairing_ok ((create now id cap m).1, claims).
Proof.
  intros Hf Hid [Hl Hh]. cbn [fst snd] in *. apply (one_live_cleanup now) in Hl.
  assert (claims_hold (cleanup now m) claims) as Hh1.
  { revert Hh. apply claims_hold_offers. intros c o _. apply cleanup_offer. }
  unfold create. destruct (retire_current (cleanup now m)) as [m1|] eqn:Hr; [|done]. split; cbn [fst snd].
  - intros id' o'. rewrite offers_set_current, offers_set_offer, lookup_insert_Some. intros [[<- _]|[_ H]]; [done|].
    intros Hlive. unfold live in Hlive. by rewrite (retire_one_live _ _ _ _ Hl Hr H) in Hlive.
  - apply (claims_hold_offers (set_offer id (mkOffer (capability_hash cap) now (sat_add64 now PAIRING_LIFETIME_SECS) Pending) m1));
      [done|]. apply claims_hold_set; [done|]. clear Hf Hid Hl. unfold retire_current in Hr.
    destruct (pm_current_pending _) as [c|]; [|by injection Hr as <-].
    destruct (pm_offers (cleanup now m) !! c) as [o|] eqn:Ho; [|injection Hr as <-; revert Hh1; by apply claims_hold_offers].
    destruct (of_state o) eqn:Hst; try discriminate Hr; injection Hr as <-;
      [|revert Hh1; by apply claims_hold_offers..].
    apply (claims_hold_offers (set_offer c (set_state (Rejected "Replaced by a newer pairing code.") o) (cleanup now m))); [done|].
    apply claims_hold_set; [|done]. apply (held_not_pending _ _ _ _ Hh1 Ho). by rewrite Hst.
Qed.

Lemma pairing_ok_expired id o m claims :
  pm_offers m !! id = Some o -> id ∉ (pc_pairing_id <$> claims) -> pairing_ok (m, claims) ->
  pairing_ok (clear_current id (set_offer id (set_state Expired o) m), claims).
Proof.
  intros Ho Hid [Hl Hh]. split; cbn [fst snd] in *; [by apply one_live_clear|].
  apply (claims_hold_offers (set_offer id (set_state Expired o) m)); [|by apply claims_hold_set].
  intros c o' _. by rewrite offers_clear_current.
Qed.

Lemma pairing_ok_claim id cap now token m claims :
  pairing_ok (m, claims) ->
  match claim id cap now token m with
  | (m', Ok c) => pairing_ok (m', c :: claims)
  | (m', Err _) => pairing_ok (m', claims)
  end.
Proof.
  intros Hok. unfold claim. destruct (pm_offers m !! id) as [o|] eqn:Ho; [|done].
  destruct (of_state o) eqn:Hst; try done.
  assert (id ∉ (pc_pairing_id <$> claims)) as Hid.
  { destruct Hok as [_ Hh]. apply (held_not_pending _ _ _ _ Hh Ho). by rewrite Hst. }
  destruct (_ <=? now); [by apply pairing_ok_expired|]. destruct (negb _); [done|]. destruct Hok as [Hl Hh]. split; cbn [fst snd] in *.
  - apply one_live_validated; [done| |done]. unfold is_pending. by rewrite Hst.
  - destruct (claims_hold_set id (set_state (Validating token) o) m claims Hid Hh) as [Hnd Hh'].
    split; [by constructor|]. intros c o' [->|Hc]%elem_of_cons; [|by apply Hh'].
    rewrite offers_set_offer, lookup_insert, decide_True by done. intros [= <-]. apply N.eqb_refl.
Qed.

(** A claim under way holds a live offer, so ending it cannot touch another. *)
Lemma pairing_ok_end c m before after state :
  pairing_ok (m, before ++ c :: after) ->
  (forall o, pm_offers m !! pc_pairing_id c = Some o -> terminal (set_state state o) = true ->
     pairing_ok (set_current None (set_offer (pc_pairing_id c) (set_state state o) m), before ++ after))
  /\ (forall o, pm_offers m !! pc_pairing_id c = Some o ->
     pairing_ok (set_current (Some (pc_pairing_id c)) (set_offer (pc_pairing_id c) (set_state state o) m), before ++ after))
  /\ (pm_offers m !! pc_pairing_id c = None -> pairing_ok (m, before ++ after)).
Proof.
  intros [Hl Hh]. cbn [fst snd] in *. apply claims_hold_drop in Hh as (Hh & Hid & Hv).
  assert (forall o cur, claims_hold (set_current cur (set_offer (pc_pairing_id c) (set_state state o) m)) (before ++ after)) as Hh'.
  { intros o cur. apply (claims_hold_offers (set_offer (pc_pairing_id c) (set_state state o) m)); [done|].
    by apply claims_hold_set. }
  assert (forall o, pm_offers m !! pc_pairing_id c = Some o -> live o = true) as Hlive.
  { intros o Ho%Hv. unfold live, terminal. unfold validating in Ho. by destruct (of_state o). }
  split_and!; [intros o Ho Ht|intros o Ho|done]; (split; cbn [fst snd]; [|done]).
  - eapply one_live_none; [done|exact Ho|by apply Hlive|done].
  - intros id' o'. rewrite offers_set_current, offers_set_offer, lookup_insert_Some. intros [[<- _]|[Hne H]]; [done|].
    intros Hlive'. pose proof (Hl _ _ H Hlive'). pose proof (Hl _ _ Ho (Hlive _ Ho)). cbn. congruence.
Qed.

Lemma pairing_step_ok drawn s s' : pairing_step drawn s s' -> pairing_ok s -> pairing_ok s'.
Proof.
  intros Hstep Hok. destruct Hstep as [now id cap m cl _ Hf Hid|id cap now t m m' c cl Hc|id cap now t m m' e cl Hc|
    c e now m cl cl'|c now m cl cl'|c m cl cl'|id e m cl|msg m cl Hp|enc now m cl].
  - by apply pairing_ok_create.
  - pose proof (pairing_ok_claim id cap now t m cl Hok) as H. by rewrite Hc in H.
  - pose proof (pairing_ok_claim id cap now t m cl Hok) as H. by rewrite Hc in H.
  - pose proof Hok as [Hl Hh]. apply claims_hold_drop in Hh as (_ & _ & Hv). cbn [fst snd] in *. unfold complete.
    destruct (pm_offers m !! pc_pairing_id c) as [o|] eqn:Ho.
    + destruct (pairing_ok_end c m cl cl' Expired Hok) as (H & _ & _).
      destruct (pairing_ok_end c m cl cl' (Accepted (to_string e) false) Hok) as (H' & _ & _).
      destruct (_ <=? now); [by apply H|]. rewrite (Hv _ eq_refl). cbn [fst].
      pose proof (H' o Ho eq_refl) as [H1 H2]. split; cbn [fst snd] in *.
      * apply one_live_clear; done.
      * eapply claims_hold_offers; [|exact H2]. intros c' o' _. by rewrite offers_clear_current.
    + by apply (pairing_ok_end c m cl cl' Expired).
  - pose proof Hok as [Hl Hh]. apply claims_hold_drop in Hh as (_ & _ & Hv). cbn [fst snd] in *. unfold abort.
    destruct (pm_offers m !! pc_pairing_id c) as [o|] eqn:Ho.
    + rewrite (Hv _ eq_refl). cbn [negb]. destruct (pairing_ok_end c m cl cl' Expired Hok) as (H & _ & _).
      destruct (pairing_ok_end c m cl cl' Pending Hok) as (_ & H' & _).
      destruct (_ <=? now); [by apply H|by apply H'].
    + by apply (pairing_ok_end c m cl cl' Expired).
  - destruct Hok as [Hl Hh]. split; [done|]. by apply (claims_hold_drop _ _ c).
  - unfold mark_connected. destruct (pm_offers m !! id) as [o|] eqn:Ho; [|done]. destruct (of_state o) eqn:Hst; try done.
    case_match; [|done]. destruct Hok as [Hl Hh]. split; cbn [fst snd] in *; [by apply one_live_set_terminal|].
    apply claims_hold_set; [|done]. apply (held_not_pending _ _ _ _ Hh Ho). by rewrite Hst.
  - unfold reject_current. destruct (pm_current_pending m) as [c|] eqn:Hc; [|done]. destruct Hok as [Hl Hh]. cbn [fst snd] in *.
    destruct (pm_offers m !! c) as [o|] eqn:Ho; split; cbn [fst snd].
    + specialize (Hp c o eq_refl Ho). eapply one_live_none; [done|exact Ho| |done].
      unfold live, terminal. unfold is_pending in Hp. by destruct (of_state o).
    + specialize (Hp c o eq_refl Ho). apply (claims_hold_offers (set_offer c (set_state (Rejected msg) o) m)); [done|].
      apply claims_hold_set; [|done]. apply (held_not_pending _ _ _ _ Hh Ho). unfold is_pending in Hp. by destruct (of_state o).
    + intros id' o' Ho' Hlive. pose proof (Hl _ _ Ho' Hlive). cbn in Ho'. congruence.
    + revert Hh. by apply claims_hold_offers.
  - unfold status. destruct (decode_exact _ _ _) as [id|]; [|done]. destruct (pm_offers m !! id) as [o|] eqn:Ho; [|done].
    destruct (is_pending o) eqn:Hpend; [|done]. case_match; [|done]. cbn [fst]. apply pairing_ok_expired; [done| |done].
    destruct Hok as [_ Hh]. apply (held_not_pending _ _ _ _ Hh Ho). unfold is_pending in Hpend. by destruct (of_state o).
Qed.

(** C5: of all the pairing codes a host has shown, at most one can be used at any instant, the newest
    one: in every state the manager reaches, an offer that is pending or being proved is the current
    one, and every claim under way holds its own offer. *)
Theorem one_code_at_a_time drawn m claims :
  rtc (pairing_step drawn) (PairingManager_default, []) (m, claims) ->
  (forall id1 o1 id2 o2, pm_offers m !! id1 = Some o1 -> pm_offers m !! id2 = Some o2 ->
     live o1 = true -> live o2 = true -> id1 = id2 /\ pm_current_pending m = Some id1)
  /\ claims_hold m claims.
Proof.
  intros Hrun. assert (pairing_ok (m, claims)) as [Hl Hh].
  { assert (pairing_ok (PairingManager_default, [])) as H0.
    { split; [by intros id o|]. split; [by constructor|]. intros c o Hc. by apply not_elem_of_nil in Hc. }
    revert H0. induction Hrun; [done|]. eauto using pairing_step_ok. }
  split; [|done]. intros id1 o1 id2 o2 H1 H2 L1 L2. pose proof (Hl _ _ H1 L1). pose proof (Hl _ _ H2 L2).
  cbn in *. split; congruence.
Qed.

(** Without the discipline two codes can be live: a claim whose offer was rejected under it, completed
    after that offer's expiry, clears the current offer though it is another's, and the next code shown
    leaves that one usable. *)
Lemma late_complete_orphans_offer c endpoint_id now id id' cap o other m :
  pm_offers m !! pc_pairing_id c = Some o -> of_expires_at o <= now -> pm_current_pending m = Some id ->
  id <> pc_pairing_id c -> pm_offers m !! id = Some other -> of_state other = Pending -> of_created_at other <= now ->
  now - of_created_at other <= PAIRING_LIFETIME_SECS + OUTCOME_RETENTION_SECS -> id' <> id ->
  let m' := (create now id' cap (complete c endpoint_id now m).1).1 in
  (exists o1, pm_offers m' !! id = Some o1 /\ of_state o1 = Pending)
  /\ (exists o2, pm_offers m' !! id' = Some o2 /\ of_state o2 = Pending).
Proof.
  intros Ho Hexp Hcur Hne Hother Hst Hcr Hage Hid. unfold complete. rewrite Ho, (proj2 (N.leb_le _ _)) by done.
  cbn [fst]. unfold create. cbn [retire_current cleanup set_current pm_current_pending pm_offers fst]. split.
  - exists other. split; [|done]. cbn. rewrite lookup_insert_ne by done.
    apply map_lookup_filter_Some. split; [by rewrite lookup_insert_ne|done].
  - eexists. split; [cbn; by rewrite lookup_insert, decide_True|done].
Qed.

(** ** The attempts a device gets *)

(** Requests checked one after the other, and the accepted ones. *)
Definition checked (s : attempts * list (string * N)) (request : EndpointId * N) : attempts * list (string * N) :=
  let '(limiter, log) := s in let '(endpoint_id, now) := request in
  match check endpoint_id now limiter with
  | (limiter, Ok _) => (limiter, log ++ [(to_string endpoint_id, now)])
  | (limiter, Err _) => (limiter, log)
  end.

(** What the limiter knows: each endpoint's recent attempts, no more than the limits. *)
Record limiter_ok (now : N) (limiter : attempts) (log : list (string * N)) : Prop := {
  log_before : Forall (fun '(_, t) => t <= now) log;
  log_ascending id : ascending (times_of id log);
  held_ascending id l : limiter !! id = Some l -> ascending l;
  held_before id l : limiter !! id = Some l -> Forall (fun a => a <= now) l;
  held_recent id later : now <= later -> recent later (default [] (limiter !! id)) = recent later (times_of id log);
  held_few id l : limiter !! id = Some l -> len l <= MAX_ATTEMPTS_PER_WINDOW;
  held_endpoints : N.of_nat (size limiter) <= MAX_TRACKED_RATE_LIMIT_ENDPOINTS;
  log_few id t : len (window t (times_of id log)) <= MAX_ATTEMPTS_PER_WINDOW
}.

Section sweep.
Context (now t : N) (limiter : attempts) (log : list (string * N)).
Context (Hok : limiter_ok now limiter log) (Hle : now <= t).

Lemma swept_lookup id l :
  filter (fun '(_, l) => l <> []) (pop_stale t <$> limiter) !! id = Some l -> l = recent t (times_of id log) /\ l <> [].
Proof.
  destruct Hok. intros [Hl Hne]%map_lookup_filter_Some. rewrite lookup_fmap in Hl.
  apply fmap_Some in Hl as (l0 & Hl0 & ->). split; [|done]. rewrite pop_stale_recent by by eapply held_ascending0.
  rewrite <- held_recent0 by done. by rewrite Hl0.
Qed.

Lemma swept_default id :
  default [] (filter (fun '(_, l) => l <> []) (pop_stale t <$> limiter) !! id) = recent t (times_of id log).
Proof.
  destruct Hok. destruct (filter _ _ !! id) as [l|] eqn:Hl; [by apply swept_lookup in Hl as [? _]|]. cbn.
  apply map_lookup_filter_None in Hl as [Hl|Hl].
  - rewrite lookup_fmap in Hl. apply fmap_None in Hl. rewrite <- held_recent0 by done. by rewrite Hl.
  - destruct (limiter !! id) as [l0|] eqn:Hl0; [|rewrite <- held_recent0 by done; by rewrite Hl0].
    specialize (Hl (pop_stale t l0)). rewrite lookup_fmap, Hl0 in Hl. specialize (Hl eq_refl). cbn in Hl.
    apply dec_stable in Hl. rewrite <- held_recent0, Hl0 by done. change (default [] (Some l0)) with l0.
    rewrite <- pop_stale_recent by (by eapply held_ascending0). by rewrite Hl.
Qed.

End sweep.

Lemma swept_size t (limiter : attempts) :
  N.of_nat (size (filter (fun '(_, l) => l <> []) (pop_stale t <$> limiter))) <= N.of_nat (size limiter).
Proof.
  pose proof (map_size_fmap (pop_stale t) limiter) as Hs.
  pose proof (map_subseteq_size _ _ (map_filter_subseteq (fun '(_, l) => l <> []) (pop_stale t <$> limiter))). lia.
Qed.

(** Sweeping and refusing keeps what the limiter knows. *)
Lemma limiter_ok_swept now t limiter log :
  limiter_ok now limiter log -> now <= t ->
  limiter_ok t (filter (fun '(_, l) => l <> []) (pop_stale t <$> limiter)) log.
Proof.
  intros Hok Hle. pose proof (swept_lookup now t limiter log Hok Hle) as Hsl.
  pose proof (swept_default now t limiter log Hok Hle) as Hsd. pose proof (swept_size t limiter) as Hsz.
  destruct Hok. split; try done.
  - eapply Forall_impl; [exact log_before0|]. intros []; lia.
  - intros id l [-> _]%Hsl. by apply recent_ascending.
  - intros id l [-> _]%Hsl. eapply Forall_sublist; [apply filter_sublist|]. eapply Forall_impl; [by apply times_bounded|].
    cbn. lia.
  - intros id later Hl. by rewrite Hsd, recent_recent.
  - intros id l [-> _]%Hsl. rewrite <- held_recent0 by done. destruct (limiter !! id) as [l|] eqn:Hl; [|done].
    etrans; [apply len_sublist, filter_sublist|]. by eapply held_few0.
  - lia.
Qed.

Lemma accepted_ok t limiter log id :
  limiter_ok t limiter log -> len (default [] (limiter !! id)) < MAX_ATTEMPTS_PER_WINDOW ->
  is_some (limiter !! id) = true \/ N.of_nat (size limiter) < MAX_TRACKED_RATE_LIMIT_ENDPOINTS ->
  limiter_ok t (<[id := default [] (limiter !! id) ++ [t]]> limiter) (log ++ [(id, t)]).
Proof.
  intros [] Hfew Hroom. pose proof (times_bounded t log id log_before0) as Htimes.
  assert (ascending (default [] (limiter !! id)) /\ Forall (fun a => a <= t) (default [] (limiter !! id))) as [Hasc Hle].
  { destruct (limiter !! id) as [l|] eqn:Hl; [split; eauto|split; constructor]. }
  split.
  - apply Forall_app. by split; [|repeat constructor].
  - intros id'. rewrite times_of_snoc. case_match eqn:He; [|done]. apply String.eqb_eq in He as <-. by apply ascending_snoc.
  - intros id' l. rewrite lookup_insert_Some. intros [[<- <-]|[_ Hl]]; [by apply ascending_snoc|by eapply held_ascending0].
  - intros id' l. rewrite lookup_insert_Some. intros [[<- <-]|[_ Hl]]; [|by eapply held_before0].
    apply Forall_app. by split; [|repeat constructor].
  - intros id' later Hlater. rewrite times_of_snoc. destruct (id =s? id') eqn:He.
    + apply String.eqb_eq in He as <-. rewrite lookup_insert, decide_True by done. cbn [default from_option Datatypes.id].
      by rewrite !recent_snoc, held_recent0.
    + apply String.eqb_neq in He. by rewrite lookup_insert_ne, held_recent0.
  - intros id' l. rewrite lookup_insert_Some. intros [[<- <-]|[_ Hl]]; [|by eapply held_few0]. rewrite len_snoc. lia.
  - destruct (limiter !! id) as [l|] eqn:Hl.
    + by rewrite map_size_insert_Some.
    + rewrite map_size_insert_None by done. destruct Hroom as [|Hroom]; [done|]. lia.
  - intros id' t'. rewrite times_of_snoc. case_match eqn:He; [|done]. apply String.eqb_eq in He as <-. rewrite window_snoc.
    specialize (log_few0 id t'). destruct (N.leb_spec t t') as [Ht|]; cbn [andb]; [|lia].
    pose proof (window_recent ATTEMPT_WINDOW_SECS t t' (times_of id log) Ht) as Hw. rewrite <- held_recent0 in Hw by done.
    pose proof (len_sublist _ _ (filter_sublist (fun a => t - a <? ATTEMPT_WINDOW_SECS) (default [] (limiter !! id)))) as Hl.
    change (List.filter (fun a => t - a <? ATTEMPT_WINDOW_SECS)) with (recent t) in Hl. case_match; lia.
Qed.

Lemma checked_ok now t limiter log e :
  limiter_ok now limiter log -> now <= t ->
  limiter_ok t (checked (limiter, log) (e, t)).1 (checked (limiter, log) (e, t)).2.
Proof.
  intros Hok Hle. pose proof (limiter_ok_swept now t limiter log Hok Hle) as Hswept. unfold checked, check.
  set (swept := filter _ _) in *.
  destruct (is_none (swept !! to_string e) && (MAX_TRACKED_RATE_LIMIT_ENDPOINTS <=? N.of_nat (size swept))) eqn:Hfull;
    [exact Hswept|].
  destruct (N.leb_spec MAX_ATTEMPTS_PER_WINDOW (len (default [] (swept !! to_string e)))) as [Hmany|Hfew]; cbn [fst snd].
  - destruct (swept !! to_string e) as [l|] eqn:Hl; cbn [default from_option Datatypes.id] in *; [by rewrite insert_id|].
    unfold MAX_ATTEMPTS_PER_WINDOW in Hmany. rewrite len_nil in Hmany. lia.
  - apply accepted_ok; [exact Hswept|exact Hfew|]. apply andb_false_iff in Hfull as [Hn|Hn]; [left|right; by apply N.leb_gt].
    unfold is_some. by rewrite Hn.
Qed.

(** Guessing a pairing code is slow: over any sequence of requests, no device has more than 8
    attempts accepted in any minute, and the limiter itself stays small — at most 1024 devices with at
    most 8 instants each — however many devices ask. *)
Theorem pairing_rate_bounded requests :
  ascending (snd <$> requests) ->
  let '(limiter, log) := foldl checked (∅, []) requests in
  (forall id t, len (window t (times_of id log)) <= MAX_ATTEMPTS_PER_WINDOW)
  /\ N.of_nat (size limiter) <= MAX_TRACKED_RATE_LIMIT_ENDPOINTS
  /\ (forall id l, limiter !! id = Some l -> len l <= MAX_ATTEMPTS_PER_WINDOW).
Proof.
  intros Hasc.
  enough (forall now limiter log, limiter_ok now limiter log -> Forall (fun t => now <= t) (snd <$> requests) ->
    exists t, limiter_ok t (foldl checked (limiter, log) requests).1 (foldl checked (limiter, log) requests).2) as H.
  { destruct (H 0 ∅ []) as [t Ht].
    - split; intros; try match goal with H : ∅ !! _ = Some _ |- _ => by rewrite lookup_empty in H end; try done; by constructor.
    - apply Forall_forall. intros t _. lia.
    - destruct (foldl checked (∅, []) requests) as [limiter log]. cbn [fst snd] in Ht. destruct Ht. done. }
  induction requests as [|[e t] requests IH]; intros now limiter log Hok Hnow; [by exists now|].
  rewrite fmap_cons in Hasc, Hnow. apply StronglySorted_inv in Hasc as [Hasc Hall]. apply Forall_cons in Hnow as [Hnow _].
  pose proof (checked_ok now t limiter log e Hok Hnow) as Hc. cbn [foldl].
  destruct (checked (limiter, log) (e, t)) as [limiter' log']. by apply (IH Hasc t).
Qed.
End manager.
