(* ===== verification/PairingProtocol.v ===== *)
(** The pairing connection of [protocol.rs]: its messages and frames, the order the host takes them in,
    and what the two sides hash. JSON, SHA-256 and X25519 belong to other crates and are parameters. *)
From S2P Require Import Prelude Text Framing.

Local Open Scope N_scope.

Definition PROTOCOL_VERSION : N := 1.
Definition MAX_FRAME_BODY : N := 16 * 1024.
Definition HEARTBEAT_INTERVAL_MS : N := 3000.

Inductive WireMessage :=
| PairRequest (v : N) (pairing_id capability client_nonce client_kex : string)
| PairAccepted (v : N) (host_endpoint_id installation_endpoint_id server_nonce : string) (expires_at : N)
    (transcript_hash : string) (heartbeat_interval_ms : N) (server_kex : string)
| PairRejected (v : N) (code message : string)
| Ping (v sequence : N)
| Pong (v sequence : N).

Definition WireMessage_version (m : WireMessage) : N :=
  match m with
  | PairRequest v _ _ _ _ | PairAccepted v _ _ _ _ _ _ _ | PairRejected v _ _ | Ping v _ | Pong v _ => v
  end.

(** [ProtocolError], without the texts of [serde_json]. *)
Inductive ProtocolError :=
| ZeroLength | Oversized | Truncated | MalformedJson | UnsupportedVersion | UnknownMessageType
| UnexpectedMessageOrder | Io (e : io_error).

(** ** Frames *)

Section frames.
(** [serde_json]: writing a message, a value, what its keys hold, and reading a message from it. *)
Context {Value : Type} (to_vec : WireMessage -> option bytes) (value_from_slice : bytes -> option Value).
Context (is_object : Value -> bool) (get_u64 : Value -> string -> option N) (get_str : Value -> string -> option string).
Context (from_value : Value -> option WireMessage).

Definition encode_frame (message : WireMessage) : result ProtocolError bytes :=
  let? body := ok_or (to_vec message) MalformedJson in
  refuse_if (len body =? 0) ZeroLength ?;
  refuse_if (MAX_FRAME_BODY <? len body) Oversized ?;
  Ok (be_bytes 4 (len body) ++ body).

Definition decode_message (body : bytes) : result ProtocolError WireMessage :=
  refuse_if (len body =? 0) ZeroLength ?;
  refuse_if (MAX_FRAME_BODY <? len body) Oversized ?;
  let? value := ok_or (value_from_slice body) MalformedJson in
  refuse_if (negb (is_object value)) MalformedJson ?;
  let? version := ok_or (get_u64 value "v") MalformedJson in
  refuse_if (negb (version =? PROTOCOL_VERSION)) UnsupportedVersion ?;
  let? message_type := ok_or (get_str value "type") MalformedJson in
  refuse_if (negb (existsb (String.eqb message_type)
    ["pair_request"; "pair_accepted"; "pair_rejected"; "ping"; "pong"]%string)) UnknownMessageType ?;
  ok_or (from_value value) MalformedJson.

Definition frame_length (header : bytes) : result ProtocolError N :=
  let length := of_be_bytes header in
  refuse_if (length =? 0) ZeroLength ?;
  refuse_if (MAX_FRAME_BODY <? length) Oversized ?;
  Ok length.

Definition read_frame : bytes -> result ProtocolError (WireMessage * bytes) :=
  read_delimited Truncated 4 frame_length (fun _ => decode_message).

(** One turn of the loop of [FrameDecoder::push]. *)
Definition take_message : bytes -> result ProtocolError (option (WireMessage * bytes)) :=
  take_delimited 4 frame_length (fun _ => decode_message).

Definition FRAME_MAX_BUFFERED : N := (MAX_FRAME_BODY + 4) * 4.

(** [FrameDecoder::push]; the decoder is its buffer. *)
Definition FrameDecoder_push (buffer incoming : bytes) : bytes * result ProtocolError (list WireMessage) :=
  if FRAME_MAX_BUFFERED <? len buffer + len incoming then (buffer, Err Oversized)
  else drain take_message (buffer ++ incoming).

#[export] Instance message_format : FrameFormat take_message (4 + MAX_FRAME_BODY).
Proof.
  apply delimited_format; [done|]. intros header n. unfold frame_length. cbv zeta. rewrite !rbind_unit_ok, !refuse_if_ok.
  intros (_ & H & [= <-]). by apply N.ltb_ge.
Qed.

(** The decoder refuses a push only for what it would hold, as the shared loop does. *)
Lemma FrameDecoder_push_within buffer incoming :
  len buffer <= FRAME_MAX_BUFFERED ->
  FrameDecoder_push buffer incoming = push_within take_message Oversized FRAME_MAX_BUFFERED buffer incoming.
Proof.
  intros Hb. unfold FrameDecoder_push, push_within.
  destruct (N.ltb_spec FRAME_MAX_BUFFERED (len buffer + len incoming)),
    (N.ltb_spec (FRAME_MAX_BUFFERED - len buffer) (len incoming)); lia || done.
Qed.

(** A message that reads back is taken whole from the front of a buffer. *)
Lemma encoded_message_taken message encoded rest :
  (forall body, to_vec message = Some body -> decode_message body = Ok message) ->
  encode_frame message = Ok encoded -> take_message (encoded ++ rest) = Ok (Some (message, rest)).
Proof.
  unfold encode_frame. destruct (to_vec message) as [body|]; [|done]. cbn [ok_or rbind]. intros Hreads.
  rewrite !rbind_unit_ok, !refuse_if_ok. intros (H0 & Hmax & He). b2p.
  assert (encoded = be_bytes 4 (len body) ++ body) as -> by congruence.
  apply take_delimited_app; [done| |by apply Hreads]. unfold frame_length.
  rewrite of_be_bytes_be_bytes, N.mod_small by (unfold MAX_FRAME_BODY in *; simpl; lia). cbv zeta.
  rewrite (proj2 (N.eqb_neq _ _)) by done. by rewrite (proj2 (N.ltb_ge MAX_FRAME_BODY _)) by done.
Qed.
End frames.

(** ** The order of messages *)

Inductive HostMessageState := AwaitingPairRequest | AwaitingFirstPing | Paired (last_sequence : N).

Definition HostMessageState_accept (self : HostMessageState) (message : WireMessage)
  : result ProtocolError HostMessageState :=
  match self, message with
  | AwaitingPairRequest, PairRequest _ _ _ _ _ => Ok AwaitingFirstPing
  | AwaitingFirstPing, Ping _ sequence => if sequence =? 1 then Ok (Paired 1) else Err UnexpectedMessageOrder
  | Paired last_sequence, Ping v sequence =>
      if (v =? PROTOCOL_VERSION) && (last_sequence <? sequence) then Ok (Paired sequence)
      else Err UnexpectedMessageOrder
  | _, _ => Err UnexpectedMessageOrder
  end.

(** One turn of [process_heartbeats]: the sequence to answer with, and to go on from. *)
Definition heartbeat (last_sequence : N) (message : WireMessage) : result ProtocolError N :=
  match message with
  | Ping v sequence =>
      if (v =? PROTOCOL_VERSION)
         && (((last_sequence =? 0) && (sequence =? 1)) || (negb (last_sequence =? 0) && (last_sequence <? sequence)))
      then Ok sequence else Err UnexpectedMessageOrder
  | _ => Err UnexpectedMessageOrder
  end.

Definition heartbeat_state (last_sequence : N) : HostMessageState :=
  if last_sequence =? 0 then AwaitingFirstPing else Paired last_sequence.

(** The daemon's loop is the state machine, on the messages a frame can hold. *)
Lemma heartbeat_accepts last_sequence message :
  WireMessage_version message = PROTOCOL_VERSION ->
  rmap heartbeat_state (heartbeat last_sequence message)
  = HostMessageState_accept (heartbeat_state last_sequence) message.
Proof.
  unfold heartbeat, heartbeat_state. destruct message; cbn; try by destruct (last_sequence =? 0). intros ->.
  cbn [PROTOCOL_VERSION N.eqb]. destruct (N.eqb_spec last_sequence 0) as [->|Hne]; cbn.
  - destruct (N.eqb_spec sequence 1) as [->|]; done.
  - change (PROTOCOL_VERSION =? PROTOCOL_VERSION) with true. cbn [andb].
    destruct (N.ltb_spec last_sequence sequence); [|done]. cbn. by rewrite (proj2 (N.eqb_neq sequence 0)) by lia.
Qed.

(** ** What is hashed *)

Definition text_bytes (s : string) : bytes := nb <$> String.list_ascii_of_string s.

(** The bytes fed to the hasher of [pairing_transcript_hash], in order. *)
Definition pairing_transcript
    (pairing_id capability_hash host_endpoint_id installation_endpoint_id client_nonce server_nonce : bytes)
    (expires_at : N) : bytes :=
  (text_bytes "ciao-pair-v1" ++ [0]) ++ pairing_id ++ capability_hash ++ host_endpoint_id ++ installation_endpoint_id
  ++ client_nonce ++ server_nonce ++ be_bytes 8 expires_at.

Definition notification_transcript (shared transcript_hash : bytes) : bytes :=
  (text_bytes "ciao-notify-v1" ++ [0]) ++ shared ++ transcript_hash.

Section hashes.
(** [Sha256] of the [sha2] crate and [x25519] of [x25519_dalek]. *)
Context (sha256 : bytes -> bytes) (x25519 : bytes -> bytes -> bytes) (basepoint : bytes).

Definition pairing_transcript_hash pairing_id capability_hash host_endpoint_id installation_endpoint_id client_nonce
    server_nonce expires_at : bytes :=
  sha256 (pairing_transcript pairing_id capability_hash host_endpoint_id installation_endpoint_id client_nonce
            server_nonce expires_at).

Definition kex_public (secret : bytes) : bytes := x25519 secret basepoint.

(** Refuses the all-zero output. *)
Definition kex_shared (secret peer_public : bytes) : option bytes :=
  let shared := x25519 secret peer_public in
  if bool_decide (shared = replicate 32 0) then None else Some shared.

Definition notification_key (shared transcript_hash : bytes) : bytes := sha256 (notification_transcript shared transcript_hash).

Definition notification_key_fingerprint (key : bytes) : string := hex (take 4 (sha256 key)).

(** Both sides come to one key whichever secret each drew, as the exchange promises; and no one's key is
    the constant a low-order share would make. *)
Lemma kex_agrees secret_a secret_b shared :
  (forall a b, x25519 a (x25519 b basepoint) = x25519 b (x25519 a basepoint)) ->
  kex_shared secret_a (kex_public secret_b) = Some shared ->
  kex_shared secret_b (kex_public secret_a) = Some shared /\ shared <> replicate 32 0.
Proof.
  intros Hdh. unfold kex_shared, kex_public. rewrite (Hdh secret_b secret_a). case_bool_decide; [done|].
  by intros [= <-].
Qed.
End hashes.

(** What the pairing transcript hashes determines the pairing: two transcripts are the same bytes only
    for the same offer, capability, host, device, nonces and expiry; and no transcript is ever the bytes
    a notification key is hashed from. *)
Theorem transcript_binds id1 hash1 host1 device1 client1 server1 expires1 id2 hash2 host2 device2 client2 server2 expires2 :
  Forall (fun b => length b = 16%nat) [id1; id2] ->
  Forall (fun b => length b = 32%nat)
    [hash1; host1; device1; client1; server1; hash2; host2; device2; client2; server2] ->
  expires1 <= u64_max -> expires2 <= u64_max ->
  (pairing_transcript id1 hash1 host1 device1 client1 server1 expires1
   = pairing_transcript id2 hash2 host2 device2 client2 server2 expires2 ->
   (id1, hash1, host1, device1, client1, server1, expires1) = (id2, hash2, host2, device2, client2, server2, expires2))
  /\ (forall shared transcript_hash,
        pairing_transcript id1 hash1 host1 device1 client1 server1 expires1
        <> notification_transcript shared transcript_hash).
Proof.
  rewrite !Forall_cons. intros (L1 & L2 & _) (? & ? & ? & ? & ? & ? & ? & ? & ? & ? & _) He1 He2. split; [|by intros shared h].
  unfold pairing_transcript. intros Heq.
  apply app_inj_1 in Heq as [_ Heq]; [|done]. apply app_inj_1 in Heq as [-> Heq]; [|congruence].
  do 5 (apply app_inj_1 in Heq as [? Heq]; [subst|congruence]).
  apply (f_equal of_be_bytes) in Heq. rewrite !of_be_bytes_be_bytes, !N.mod_small in Heq by (unfold u64_max in *; simpl; lia).
  by subst.
Qed.
