(* ===== verification/Handshake.v ===== *)
(** How a phone is paired: [handle_pairing_stream] of [daemon.rs], from the first message to the answer,
    over the offers, the attempts and the allowlist, each behind a lock of its own. *)
From S2P Require Import Prelude Text HostProtocol Qr PrivateFile Devices Pairing PairingProtocol.

Local Open Scope N_scope.

Abbreviation attempts := (gmap string (list N)).

(** What the stream is told instead of an acceptance: a code and a text. *)
Abbreviation rejection := (string * string)%type.

Definition pairing_rejection (r : PairingRejection) : rejection := (PairingRejection_code r, safe_message r).

Definition protocol_rejection (error : ProtocolError) : rejection :=
  match error with
  | UnsupportedVersion => ("unsupported_version", "This Ciao pairing protocol version is not supported.")%string
  | _ => ("malformed_request", "Pairing request was malformed.")%string
  end.

Definition malformed_request (message : string) : rejection := ("malformed_request"%string, message).

Section handshake.
Context (sha256 : bytes -> bytes) (x25519 : bytes -> bytes -> bytes) (basepoint : bytes).
Context (to_vec_pretty : PairedDevicesFile -> option bytes) (from_slice : bytes -> option PairedDevicesFile).
Context (encode_base64 : bytes -> string) (decode_base64 : string -> option bytes).
Context {EndpointId : Type} (to_string : EndpointId -> string) (from_str : string -> option EndpointId).
Context (as_bytes : EndpointId -> bytes) (effective_uid : N) (host_endpoint_id : EndpointId).

(** ** The stream *)

(** The fields of the first message. *)
Definition pair_request (message : WireMessage) : result rejection (bytes * bytes * bytes * bytes) :=
  match message with
  | PairRequest v pairing_id capability client_nonce client_kex =>
      refuse_if (negb (v =? PROTOCOL_VERSION)) (malformed_request "Expected pair_request as the first message.") ?;
      let? pairing_id := ok_or (decode_exact decode_base64 16 pairing_id)
                           (malformed_request "Pairing request contains an invalid pairing ID.") in
      let? capability := ok_or (decode_exact decode_base64 32 capability)
                           (malformed_request "Pairing request contains an invalid capability.") in
      let? client_nonce := ok_or (decode_exact decode_base64 32 client_nonce)
                             (malformed_request "Pairing request contains an invalid nonce.") in
      let? client_kex := ok_or (decode_exact decode_base64 32 client_kex)
                           (malformed_request "Pairing request contains an invalid key share.") in
      Ok (pairing_id, capability, client_nonce, client_kex)
  | _ => Err (malformed_request "Expected pair_request as the first message.")
  end.

(** The attempts, then the claim. *)
Definition rate_checked (remote_id : EndpointId) (now : N) (limiter : attempts) : attempts * result rejection unit :=
  match check to_string remote_id now limiter with
  | (limiter, Ok _) => (limiter, Ok tt)
  | (limiter, Err e) => (limiter, Err (pairing_rejection e))
  end.

Definition claimed (pairing_id capability : bytes) (now token : N) (m : PairingManager)
  : PairingManager * result rejection PairingClaim :=
  match claim sha256 pairing_id capability now token m with
  | (m, Ok c) => (m, Ok c)
  | (m, Err e) => (m, Err (pairing_rejection e))
  end.

Definition transcript_hash_of (remote_id : EndpointId) (c : PairingClaim) (client_nonce server_nonce : bytes) : bytes :=
  pairing_transcript_hash sha256 (pc_pairing_id c) (pc_capability_hash c) (as_bytes host_endpoint_id) (as_bytes remote_id)
    client_nonce server_nonce (pc_expires_at c).

(** The transcript's hash and the key agreed; [server_nonce] and [secret] are random. *)
Definition agreed (remote_id : EndpointId) (c : PairingClaim) (client_nonce client_kex server_nonce secret : bytes)
    (commit_time : N) (m : PairingManager) : PairingManager * result rejection (bytes * bytes) :=
  let transcript_hash := transcript_hash_of remote_id c client_nonce server_nonce in
  if pc_expires_at c <=? commit_time then (abort c commit_time m, Err (pairing_rejection OfferExpired))
  else
    match kex_shared x25519 secret client_kex with
    | None => (abort c commit_time m, Err (malformed_request "Pairing request contains an unusable key share."))
    | Some shared => (m, Ok (transcript_hash, notification_key sha256 shared transcript_hash))
    end.

Definition persistence_failed : rejection :=
  ("persistence_failed", "Could not save paired-device authorization. Retry pairing.")%string.

(** The allowlist. *)
Definition stored (failed_at : option write_step) (remote_id : EndpointId) (commit_time : N) (transcript_hash key : bytes)
    (devices : PairedDeviceStore) : PairedDeviceStore * result DeviceError unit :=
  upsert to_vec_pretty encode_base64 to_string effective_uid failed_at remote_id commit_time transcript_hash key devices.

(** The offer is used up, and the phone told. *)
Definition finished (remote_id : EndpointId) (c : PairingClaim) (commit_time : N) (server_nonce transcript_hash secret : bytes)
    (m : PairingManager) : PairingManager * result rejection WireMessage :=
  match complete to_string c remote_id commit_time m with
  | (m, Err e) => (m, Err (pairing_rejection e))
  | (m, Ok _) =>
      (m, Ok (PairAccepted PROTOCOL_VERSION (to_string host_endpoint_id) (to_string remote_id) (encode_base64 server_nonce)
                (pc_expires_at c) (encode_base64 transcript_hash) HEARTBEAT_INTERVAL_MS
                (encode_base64 (kex_public x25519 basepoint secret))))
  end.

(** The state the locks guard. *)
Record PairingHost := mkPairingHost {
  ph_limiter : attempts; ph_manager : PairingManager; ph_devices : PairedDeviceStore }.

(** [handle_pairing_stream] with no other task between its locks, up to the answer. *)
Definition handle_pairing_stream (remote_id : EndpointId) (first : result ProtocolError WireMessage) (now token : N)
    (server_nonce secret : bytes) (commit_time : N) (failed_at : option write_step) (host : PairingHost)
  : PairingHost * result rejection WireMessage :=
  let '(mkPairingHost limiter m devices) := host in
  match first with
  | Err error => (host, Err (protocol_rejection error))
  | Ok message =>
      match pair_request message with
      | Err r => (host, Err r)
      | Ok (pairing_id, capability, client_nonce, client_kex) =>
          match rate_checked remote_id now limiter with
          | (limiter, Err r) => (mkPairingHost limiter m devices, Err r)
          | (limiter, Ok _) =>
              match claimed pairing_id capability now token m with
              | (m, Err r) => (mkPairingHost limiter m devices, Err r)
              | (m, Ok c) =>
                  match agreed remote_id c client_nonce client_kex server_nonce secret commit_time m with
                  | (m, Err r) => (mkPairingHost limiter m devices, Err r)
                  | (m, Ok (transcript_hash, key)) =>
                      match stored failed_at remote_id commit_time transcript_hash key devices with
                      | (devices, Err _) => (mkPairingHost limiter (abort c commit_time m) devices, Err persistence_failed)
                      | (devices, Ok _) =>
                          let '(m, answer) := finished remote_id c commit_time server_nonce transcript_hash secret m in
                          (mkPairingHost limiter m devices, answer)
                      end
                  end
              end
          end
      end
  end.

(** ** Every task at once *)

Inductive Progress :=
| AtClaim (client_nonce client_kex : bytes)
| AtKey (commit_time : N) (server_nonce transcript_hash key secret : bytes)
| AtStore (commit_time : N) (server_nonce transcript_hash secret : bytes).

(** A connection between two of its locks, and the capability its phone presented. *)
Record Pairing := mkPairing {
  cn_remote : EndpointId; cn_claim : PairingClaim; cn_capability : bytes; cn_progress : Progress }.

(** The host, the connections, and the codes that let a device in. *)
Record System := mkSystem {
  sy_host : PairingHost; sy_connections : list Pairing; sy_admitted : list (bytes * EndpointId) }.

Definition ids_of (connections : list Pairing) : list bytes := (fun cn => pc_pairing_id (cn_claim cn)) <$> connections.

Definition set_manager (m : PairingManager) (h : PairingHost) : PairingHost := mkPairingHost (ph_limiter h) m (ph_devices h).
Definition set_limiter (l : attempts) (h : PairingHost) : PairingHost := mkPairingHost l (ph_manager h) (ph_devices h).
Definition set_devices (d : PairedDeviceStore) (h : PairingHost) : PairingHost := mkPairingHost (ph_limiter h) (ph_manager h) d.
Definition set_progress (p : Progress) (cn : Pairing) : Pairing := mkPairing (cn_remote cn) (cn_claim cn) (cn_capability cn) p.

(** One task takes one lock. A pairing id is 128 random bits: it differs from those already drawn. A
    device's tickets and removal are the operations of [Devices] but [Upsert]. *)
Inductive system_step : System -> System -> Prop :=
| SysOffer now pairing_id capability h cs adm :
    pm_offers (cleanup now (ph_manager h)) !! pairing_id = None -> pairing_id ∉ ids_of cs -> pairing_id ∉ adm.*1 ->
    system_step (mkSystem h cs adm) (mkSystem (set_manager (create sha256 now pairing_id capability (ph_manager h)).1 h) cs adm)
| SysAttempt e now h cs adm :
    system_step (mkSystem h cs adm) (mkSystem (set_limiter (rate_checked e now (ph_limiter h)).1 h) cs adm)
| SysClaim e pairing_id capability client_nonce client_kex now token h cs adm :
    system_step (mkSystem h cs adm)
      (match claimed pairing_id capability now token (ph_manager h) with
       | (m, Ok c) => mkSystem (set_manager m h) (mkPairing e c capability (AtClaim client_nonce client_kex) :: cs) adm
       | (m, Err _) => mkSystem (set_manager m h) cs adm
       end)
| SysAgree cn client_nonce client_kex server_nonce secret commit_time h before after adm :
    cn_progress cn = AtClaim client_nonce client_kex ->
    system_step (mkSystem h (before ++ cn :: after) adm)
      (match agreed (cn_remote cn) (cn_claim cn) client_nonce client_kex server_nonce secret
               commit_time (ph_manager h) with
       | (m, Ok (transcript_hash, key)) =>
           mkSystem (set_manager m h)
             (before ++ set_progress (AtKey commit_time server_nonce transcript_hash key secret) cn :: after) adm
       | (m, Err _) => mkSystem (set_manager m h) (before ++ after) adm
       end)
| SysClockFails cn client_nonce client_kex h before after adm :
    cn_progress cn = AtClaim client_nonce client_kex ->
    system_step (mkSystem h (before ++ cn :: after) adm) (mkSystem h (before ++ after) adm)
| SysStore cn commit_time server_nonce transcript_hash key secret failed_at h before after adm :
    cn_progress cn = AtKey commit_time server_nonce transcript_hash key secret ->
    system_step (mkSystem h (before ++ cn :: after) adm)
      (match stored failed_at (cn_remote cn) commit_time transcript_hash key
               (ph_devices h) with
       | (devices, Ok _) =>
           mkSystem (set_devices devices h)
             (before ++ set_progress (AtStore commit_time server_nonce transcript_hash secret) cn :: after)
             ((pc_pairing_id (cn_claim cn), cn_remote cn) :: adm)
       | (devices, Err _) =>
           mkSystem (set_manager (abort (cn_claim cn) commit_time (ph_manager h)) (set_devices devices h)) (before ++ after) adm
       end)
| SysFinish cn commit_time server_nonce transcript_hash secret h before after adm :
    cn_progress cn = AtStore commit_time server_nonce transcript_hash secret ->
    system_step (mkSystem h (before ++ cn :: after) adm)
      (mkSystem (set_manager (finished (cn_remote cn) (cn_claim cn)
                                commit_time server_nonce transcript_hash secret (ph_manager h)).1 h) (before ++ after) adm)
| SysConnected pairing_id e h cs adm :
    system_step (mkSystem h cs adm) (mkSystem (set_manager (mark_connected to_string pairing_id e (ph_manager h)) h) cs adm)
| SysReject message h cs adm :
    (forall id o, pm_current_pending (ph_manager h) = Some id -> pm_offers (ph_manager h) !! id = Some o -> is_pending o = true) ->
    system_step (mkSystem h cs adm) (mkSystem (set_manager (reject_current message (ph_manager h)) h) cs adm)
| SysStatus encoded now h cs adm :
    system_step (mkSystem h cs adm) (mkSystem (set_manager (status decode_base64 encoded now (ph_manager h)).1 h) cs adm)
| SysDevices op failed_at h cs adm :
    (forall e paired_at transcript_hash key, op <> Upsert e paired_at transcript_hash key) ->
    system_step (mkSystem h cs adm)
      (mkSystem (set_devices (operate to_vec_pretty encode_base64 to_string effective_uid op failed_at (ph_devices h)) h) cs adm).

Definition system_start (devices : PairedDeviceStore) : System :=
  mkSystem (mkPairingHost ∅ PairingManager_default devices) [] [].

(** What a connection under way has shown. *)
Definition connection_ok (cn : Pairing) : Prop :=
  pc_capability_hash (cn_claim cn) = capability_hash sha256 (cn_capability cn)
  /\ match cn_progress cn with AtKey commit_time _ _ _ _ => commit_time < pc_expires_at (cn_claim cn) | _ => True end.

Definition at_store (cn : Pairing) : Prop := match cn_progress cn with AtStore _ _ _ _ => True | _ => False end.

(** A code that let a device in is held by the connection that did, or spent. *)
Definition code_used (m : PairingManager) (cs : list Pairing) (id : bytes) : Prop :=
  (exists cn, cn ∈ cs /\ at_store cn /\ pc_pairing_id (cn_claim cn) = id) \/ (spent id m /\ id ∉ ids_of cs).

Record system_ok (s : System) : Prop := {
  sk_pairing : pairing_ok (ph_manager (sy_host s), cn_claim <$> sy_connections s);
  sk_connections : Forall connection_ok (sy_connections s);
  sk_admitted : NoDup (sy_admitted s).*1;
  sk_used id : id ∈ (sy_admitted s).*1 -> code_used (ph_manager (sy_host s)) (sy_connections s) id
}.

Lemma ids_of_claims cs : ids_of cs = pc_pairing_id <$> (cn_claim <$> cs).
Proof. unfold ids_of. by rewrite <- list_fmap_compose. Qed.

(** Each step is one of the manager's. *)
Abbreviation manager_step adm := (pairing_step sha256 to_string decode_base64 (fun id : bytes => id ∉ adm)).

Definition manager_moves (s s' : System) : Prop :=
  manager_step (sy_admitted s).*1 (ph_manager (sy_host s), cn_claim <$> sy_connections s)
    (ph_manager (sy_host s'), cn_claim <$> sy_connections s')
  \/ (ph_manager (sy_host s') = ph_manager (sy_host s) /\ cn_claim <$> sy_connections s' = cn_claim <$> sy_connections s).

Lemma system_step_manager s s' : system_step s s' -> manager_moves s s'.
Proof.
  intros Hstep. unfold manager_moves. destruct Hstep as [now id cap h cs adm Hf Hid Hadm|e now h cs adm|
    e id cap cnon ckex now token h cs adm|cn cnon ckex snon sec ct h cs cs' adm Hp|cn cnon ckex h cs cs' adm Hp|
    cn ct snon th key sec f h cs cs' adm Hp|cn ct snon th sec h cs cs' adm Hp|id e h cs adm|msg h cs adm Hp|enc now h cs adm|
    op f h cs adm Hop]; cbn [sy_host sy_connections sy_admitted ph_manager set_manager set_limiter set_devices].
  - left. apply StepCreate; [done..|]. by rewrite <- ids_of_claims.
  - by right.
  - left. unfold claimed. destruct (claim _ _ _ _ _ _) as [m [c|]] eqn:Hc; cbn; [by eapply StepClaim|by eapply StepClaimRefused].
  - unfold agreed. destruct (_ <=? _); [left; cbn; rewrite !fmap_app; apply StepAbort|].
    destruct (kex_shared _ _ _) as [shared|]; cbn; [right; split; [done|by rewrite !fmap_app]|left; rewrite !fmap_app; apply StepAbort].
  - left. rewrite !fmap_app. apply StepLost.
  - unfold stored. destruct (upsert _ _ _ _ _ _ _ _ _ _) as [d [u|]]; cbn; [right; split; [done|by rewrite !fmap_app]|].
    left. rewrite !fmap_app. apply StepAbort.
  - left. unfold finished. pose proof (StepComplete sha256 to_string decode_base64 (fun id => id ∉ adm.*1) (cn_claim cn) (cn_remote cn) ct
      (ph_manager h) (cn_claim <$> cs) (cn_claim <$> cs')) as H. rewrite !fmap_app.
    destruct (complete _ _ _ _ _) as [m [u|]]; exact H.
  - left. apply StepConnected.
  - left. by apply StepReject.
  - left. apply StepStatus.
  - by right.
Qed.

Lemma code_used_kept m cs m' cs' id :
  code_used m cs id -> (spent id m -> spent id m') -> (forall cn, cn ∈ cs -> at_store cn -> cn ∈ cs') ->
  (spent id m -> id ∈ ids_of cs' -> id ∈ ids_of cs) -> code_used m' cs' id.
Proof.
  intros [(cn & Hin & Hst & Hid)|[Hs Hid]] Hsp Hkeep Hids; [left; exists cn; auto|right; split; [auto|]]. intros H. by apply Hid, Hids.
Qed.

Lemma ids_of_middle before cn after id :
  id ∈ ids_of (before ++ cn :: after) <-> id = pc_pairing_id (cn_claim cn) \/ id ∈ ids_of (before ++ after).
Proof. unfold ids_of. rewrite !fmap_app, fmap_cons, !elem_of_app, elem_of_cons. naive_solver. Qed.

Lemma in_ids_of cs cn : cn ∈ cs -> pc_pairing_id (cn_claim cn) ∈ ids_of cs.
Proof. intros H. apply list_elem_of_fmap. by exists cn. Qed.

Lemma not_stored_kept (before : list Pairing) cn after (cs' : list Pairing) :
  ~ at_store cn -> (forall x, x ∈ before ++ after -> x ∈ cs') -> forall x, x ∈ before ++ cn :: after -> at_store x -> x ∈ cs'.
Proof. intros Hn Hsub x Hx Hst. apply Hsub. set_unfold. destruct Hx as [Hx|[->|Hx]]; [by left|done|by right]. Qed.

Lemma progress_not_stored cn p : cn_progress cn = p -> (forall a b c d, p <> AtStore a b c d) -> ~ at_store cn.
Proof. unfold at_store. intros -> Hp Hst. destruct p; cbn in Hst; [done|done|by eapply Hp]. Qed.

(** Completing a claim that is held uses the code up. *)
Lemma finished_spent before cn after ct snon th sec m :
  pairing_ok (m, cn_claim <$> (before ++ cn :: after)) ->
  let m' := (finished (cn_remote cn) (cn_claim cn) ct snon th sec m).1 in
  spent (pc_pairing_id (cn_claim cn)) m' /\ pc_pairing_id (cn_claim cn) ∉ ids_of (before ++ after).
Proof.
  intros [_ Hh]. cbn [fst snd] in Hh. rewrite fmap_app, fmap_cons in Hh.
  destruct (claims_hold_drop _ _ _ _ Hh) as (_ & Hn & Hv). rewrite <- fmap_app, <- ids_of_claims in Hn. split; [|done].
  unfold finished, complete. destruct (pm_offers m !! _) as [o|] eqn:Ho; cbn [fst]; [|unfold spent; by rewrite Ho].
  rewrite (Hv o eq_refl). unfold spent. destruct (_ <=? ct); cbn [fst];
    rewrite ?offers_set_current, ?offers_clear_current, offers_set_offer, lookup_insert, decide_True by done; done.
Qed.

Lemma claim_spent_refused id cap now token m m' c : claim sha256 id cap now token m = (m', Ok c) -> ~ spent id m /\ pc_pairing_id c = id.
Proof.
  intros Hc. split.
  - intros Hs. destruct (spent_refused sha256 id cap now token m Hs) as [e He]. congruence.
  - unfold claim in Hc. destruct (pm_offers m !! id) as [o|]; [|done]. destruct (of_state o); try done.
    destruct (_ <=? now); [done|]. destruct (negb _); [done|]. by injection Hc as _ <-.
Qed.

Lemma claim_hash id cap now token m m' c :
  claim sha256 id cap now token m = (m', Ok c) -> pc_capability_hash c = capability_hash sha256 cap.
Proof.
  unfold claim. destruct (pm_offers m !! id) as [o|]; [|done]. destruct (of_state o); try done.
  destruct (_ <=? now); [done|]. destruct (negb _) eqn:Hh; [done|]. intros [= _ <-]. unfold constant_time_hash_eq in Hh. by b2p.
Qed.

Lemma system_step_connections s s' :
  system_step s s' -> Forall connection_ok (sy_connections s) -> Forall connection_ok (sy_connections s').
Proof.
  intros Hstep. destruct Hstep as [now id cap h cs adm Hf Hid Hadm|e now h cs adm|
    e id cap cnon ckex now token h cs adm|cn cnon ckex snon sec ct h cs cs' adm Hp|cn cnon ckex h cs cs' adm Hp|
    cn ct snon th key sec f h cs cs' adm Hp|cn ct snon th sec h cs cs' adm Hp|id e h cs adm|msg h cs adm Hp|enc now h cs adm|
    op f h cs adm Hop]; cbn [sy_connections]; try done.
  - unfold claimed. destruct (claim _ _ _ _ _ _) as [m [c|]] eqn:Hc; cbn; [|done]. intros Hok. constructor; [|done].
    split; [by eapply claim_hash|done].
  - rewrite Forall_app, Forall_cons. intros (H1 & [Hh _] & H2). unfold agreed.
    destruct (N.leb_spec (pc_expires_at (cn_claim cn)) ct); [by apply Forall_app|].
    destruct (kex_shared _ _ _); cbn; apply Forall_app; [split; [done|]; by constructor|done].
  - rewrite !Forall_app, Forall_cons. naive_solver.
  - rewrite Forall_app, Forall_cons. intros (H1 & [Hh _] & H2).
    destruct (stored _ _ _ _ _ _) as [d [u|]]; cbn; apply Forall_app; [split; [done|]; by constructor|done].
  - rewrite !Forall_app, Forall_cons. naive_solver.
Qed.

Lemma system_step_used s s' :
  system_step s s' -> system_ok s ->
  NoDup (sy_admitted s').*1
  /\ forall id, id ∈ (sy_admitted s').*1 -> code_used (ph_manager (sy_host s')) (sy_connections s') id.
Proof.
  intros Hstep [Hpo _ Hnd Hused].
  assert (forall id, id ∈ (sy_admitted s).*1 -> spent id (ph_manager (sy_host s)) -> spent id (ph_manager (sy_host s'))) as Hspent.
  { intros id Hid Hs. destruct (system_step_manager _ _ Hstep) as [Hm|[-> _]]; [|done].
    apply (spent_step sha256 to_string decode_base64 _ _ _ id) in Hm; [done|by intros H|done]. }
  destruct Hstep as [now id cap h cs adm Hf Hid Hadm|e now h cs adm|
    e id cap cnon ckex now token h cs adm|cn cnon ckex snon sec ct h cs cs' adm Hp|cn cnon ckex h cs cs' adm Hp|
    cn ct snon th key sec f h cs cs' adm Hp|cn ct snon th sec h cs cs' adm Hp|id e h cs adm|msg h cs adm Hp|enc now h cs adm|
    op f h cs adm Hop]; cbn [sy_connections sy_admitted sy_host] in *.
  all: try (split; [done|]; intros id' Hin; specialize (Hused id' Hin); eapply code_used_kept; [exact Hused|by apply Hspent|done|done]).
  - revert Hspent. unfold claimed. destruct (claim _ _ _ _ _ _) as [m [c|]] eqn:Hc; cbn; intros Hspent; (split; [done|]); intros id' Hin;
      (eapply code_used_kept; [by apply Hused|by apply Hspent| |]); [by intros x Hx _; right| |done|done].
    apply claim_spent_refused in Hc as [Hns <-]. intros Hs [->|?]%elem_of_cons; [by destruct Hns|done].
  - pose proof (progress_not_stored _ _ Hp ltac:(done)) as Hn. revert Hspent.
    destruct (agreed _ _ _ _ _ _ _ _) as [m [[th key]|]]; cbn; intros Hspent; (split; [done|]); intros id' Hin;
      (eapply code_used_kept; [by apply Hused|by apply Hspent| |]).
    + apply not_stored_kept; [done|]. set_solver.
    + intros _. rewrite !ids_of_middle. done.
    + by apply not_stored_kept.
    + intros _. rewrite ids_of_middle. by right.
  - pose proof (progress_not_stored _ _ Hp ltac:(done)) as Hn. split; [done|]. intros id' Hin.
    eapply code_used_kept; [by apply Hused|done|by apply not_stored_kept|]. intros _. rewrite ids_of_middle. by right.
  - pose proof (progress_not_stored _ _ Hp ltac:(done)) as Hn. revert Hspent.
    destruct (stored _ _ _ _ _ _) as [d [u|]]; cbn; intros Hspent.
    + assert (pc_pairing_id (cn_claim cn) ∉ adm.*1) as Hnew.
      { intros Hin. destruct (Hused _ Hin) as [(x & Hx & Hst & Hxid)|[_ Hids]]; [|apply Hids, in_ids_of; set_solver].
        destruct Hpo as [_ [Hndc _]]. cbn [snd] in Hndc. rewrite <- ids_of_claims in Hndc.
        assert (x = cn) as ->; [|done].
        apply (NoDup_fmap_inj_elem (fun cn => pc_pairing_id (cn_claim cn)) (cs ++ cn :: cs')); [done|done|set_solver|done]. }
      split; [by constructor|]. intros id' [->|Hin]%elem_of_cons.
      * left. eexists. split_and!; [apply elem_of_app; right; left|done|done].
      * eapply code_used_kept; [by apply Hused|by apply Hspent| |intros _; by rewrite !ids_of_middle].
        apply not_stored_kept; [done|]. set_solver.
    + split; [done|]. intros id' Hin. eapply code_used_kept; [by apply Hused|by apply Hspent|by apply not_stored_kept|].
      intros _. rewrite ids_of_middle. by right.
  - split; [done|]. intros id' Hin. destruct (finished_spent cs cn cs' ct snon th sec _ Hpo) as [Hsp Hids].
    destruct (decide (id' = pc_pairing_id (cn_claim cn))) as [->|Hne]; [by right|].
    destruct (Hused id' Hin) as [(x & Hx & Hst & Hxid)|[Hs Hn]].
    + left. exists x. split_and!; [|done..]. set_unfold. destruct Hx as [Hx|[->|Hx]]; [by left|by destruct Hne|by right].
    + right. split; [by apply Hspent|]. rewrite ids_of_middle in Hn. tauto.
Qed.

Lemma system_ok_step s s' : system_step s s' -> system_ok s -> system_ok s'.
Proof.
  intros Hstep Hok. destruct (system_step_used s s' Hstep Hok). pose proof Hok as []. split; [|by eapply system_step_connections|done..].
  destruct (system_step_manager s s' Hstep) as [Hm|[-> ->]]; [by eapply pairing_step_ok|done].
Qed.

Lemma system_ok_reachable devices s : rtc system_step (system_start devices) s -> system_ok s.
Proof.
  assert (system_ok (system_start devices)) as H0.
  { split; cbn; [|by constructor|by constructor|by intros id Hid%not_elem_of_nil].
    split; [by intros id o|]. split; [by constructor|]. by intros c o Hc%not_elem_of_nil. }
  assert (forall x y, rtc system_step x y -> system_ok x -> system_ok y) as H by (induction 1; eauto using system_ok_step).
  intros Hrun. by apply (H _ _ Hrun).
Qed.

Lemma devices_persist_memory f updated st :
  ds_devices (persist to_vec_pretty effective_uid f updated st).1 = updated
  \/ ds_devices (persist to_vec_pretty effective_uid f updated st).1 = ds_devices st.
Proof. unfold persist. destruct (write_file _ _ _ _ _) as [d [u|]]; cbn; [by left|by right]. Qed.

Lemma contains_absent e st : contains to_string e st = false <-> absent (to_string e) (ds_devices st).
Proof.
  unfold contains, absent. rewrite <- not_true_iff_false, existsb_exists, Forall_forall. unfold has_id. split.
  - intros Hn d Hd Hid. apply Hn. exists d. split; [by apply list_elem_of_In|by apply String.eqb_eq].
  - intros Hall (d & Hd & Hid). apply list_elem_of_In in Hd. b2p. by apply (Hall d Hd).
Qed.

Lemma operate_absent op f id st :
  (forall e paired_at th key, op = Upsert e paired_at th key -> to_string e <> id) -> absent id (ds_devices st) ->
  absent id (ds_devices (operate to_vec_pretty encode_base64 to_string effective_uid op f st)).
Proof.
  intros Hop Ha. destruct (operate_writes to_vec_pretty encode_base64 decode_base64 to_string from_str effective_uid op f st)
    as [->|(updated & Hw & ->)]; [done|].
  destruct (devices_persist_memory f updated st) as [->| ->]; [|done]. by eapply writes_absent.
Qed.

(** C4: a device enters the allowlist only by showing a code, and each code lets one device in: whatever
    tasks pair, unpair, register and create codes at once, and whichever writes fail, the step that makes a
    device known is the one that stores the handshake of that device's own connection, whose capability
    hashes to its code's, before the code expires; and no code ever does so twice. *)
Theorem paired_only_by_code devices s s' e :
  rtc system_step (system_start devices) s -> system_step s s' ->
  contains to_string e (ph_devices (sy_host s)) = false -> contains to_string e (ph_devices (sy_host s')) = true ->
  NoDup (sy_admitted s').*1
  /\ exists cn commit_time server_nonce transcript_hash key secret,
       cn ∈ sy_connections s /\ to_string (cn_remote cn) = to_string e
       /\ cn_progress cn = AtKey commit_time server_nonce transcript_hash key secret
       /\ pc_capability_hash (cn_claim cn) = capability_hash sha256 (cn_capability cn)
       /\ commit_time < pc_expires_at (cn_claim cn)
       /\ sy_admitted s' = (pc_pairing_id (cn_claim cn), cn_remote cn) :: sy_admitted s
       /\ forall o, pm_offers (ph_manager (sy_host s)) !! pc_pairing_id (cn_claim cn) = Some o ->
            validating (pc_token (cn_claim cn)) o = true.
Proof.
  intros Hrun Hstep Hno Hyes. pose proof (system_ok_reachable devices s Hrun) as Hok.
  destruct (system_step_used s s' Hstep Hok) as [Hnd _]. split; [done|]. pose proof Hok as [[_ Hh] Hcs _ _]. clear Hok Hnd Hrun.
  destruct Hstep as [now id cap h cs adm Hf Hid Hadm|e' now h cs adm|
    e' id cap cnon ckex now token h cs adm|cn cnon ckex snon sec ct h cs cs' adm Hp|cn cnon ckex h cs cs' adm Hp|
    cn ct snon th key sec f h cs cs' adm Hp|cn ct snon th sec h cs cs' adm Hp|id e' h cs adm|msg h cs adm Hp|enc now h cs adm|
    op f h cs adm Hop]; cbn [sy_connections sy_admitted sy_host ph_devices set_manager set_limiter set_devices fst snd] in *; try congruence.
  - destruct (claimed _ _ _ _ _) as [m [c|]]; cbn in Hyes; congruence.
  - destruct (agreed _ _ _ _ _ _ _ _) as [m [[th key]|]]; cbn in Hyes; congruence.
  - rewrite Forall_app, Forall_cons in Hcs. destruct Hcs as (_ & [Hhash Hct] & _). rewrite Hp in Hct.
    assert (cn ∈ cs ++ cn :: cs') as Hin by set_solver.
    assert (to_string (cn_remote cn) = to_string e) as Hrem.
    { apply contains_absent in Hno. destruct (decide (to_string (cn_remote cn) = to_string e)) as [|Hne]; [done|]. exfalso.
      assert (absent (to_string e) (ds_devices (stored f (cn_remote cn) ct th key (ph_devices h)).1)) as Ha.
      { apply (operate_absent (Upsert (cn_remote cn) ct th key) f); [|done]. by intros ? ? ? ? [= <- _ _ _]. }
      destruct (stored _ _ _ _ _ _) as [d [u|]]; cbn in Hyes, Ha; apply contains_absent in Ha; congruence. }
    destruct (stored f (cn_remote cn) ct th key (ph_devices h)) as [d [u|]] eqn:Hst; cbn in Hyes |- *.
    + exists cn, ct, snon, th, key, sec. split_and!; [done..|]. intros o Ho. destruct Hh as [_ Hh]. apply Hh; [|done].
      apply list_elem_of_fmap. by exists cn.
    + exfalso. unfold stored, upsert, persist in Hst. destruct (write_file _ _ _ _ _) as [dd [u|]]; [done|]. injection Hst as <- _.
      unfold contains in *. cbn in Hyes. congruence.
  - exfalso. apply contains_absent in Hno. assert (contains to_string e (operate to_vec_pretty encode_base64 to_string effective_uid op f (ph_devices h)) = false);
      [|congruence]. apply contains_absent, operate_absent; [|done]. intros e' pa th key ->. by destruct (Hop e' pa th key).
Qed.

(** C12: a phone that shows a live code is paired: when its request reads, it has attempts left, the offer is
    pending under its capability until the commit, the key shares agree and the file can be written, the
    answer is an acceptance carrying the very transcript hash and expiry the device is stored under, the
    device is known, and the code's status is accepted by it. *)
Theorem pairing_completes e message pairing_id capability client_nonce client_kex now token server_nonce secret commit_time
    host o shared encoded :
  let c := mkPairingClaim pairing_id (of_capability_hash o) (of_expires_at o) token in
  let transcript_hash := transcript_hash_of e c client_nonce server_nonce in
  let key := notification_key sha256 shared transcript_hash in
  let updated := upserted (new_device encode_base64 (to_string e) commit_time transcript_hash key) (ds_devices (ph_devices host)) in
  pair_request message = Ok (pairing_id, capability, client_nonce, client_kex) ->
  (check to_string e now (ph_limiter host)).2 = Ok tt ->
  pm_offers (ph_manager host) !! pairing_id = Some o -> of_state o = Pending ->
  of_capability_hash o = capability_hash sha256 capability ->
  now < of_expires_at o -> commit_time < of_expires_at o ->
  kex_shared x25519 secret client_kex = Some shared ->
  to_vec_pretty (mkPairedDevicesFile 1 updated) = Some encoded ->
  let '(host', answer) := handle_pairing_stream e (Ok message) now token server_nonce secret commit_time None host in
  answer = Ok (PairAccepted PROTOCOL_VERSION (to_string host_endpoint_id) (to_string e) (encode_base64 server_nonce)
             (of_expires_at o) (encode_base64 transcript_hash) HEARTBEAT_INTERVAL_MS (encode_base64 (kex_public x25519 basepoint secret)))
  /\ ds_devices (ph_devices host') = updated /\ contains to_string e (ph_devices host') = true
  /\ of_state <$> pm_offers (ph_manager host') !! pairing_id = Some (Accepted (to_string e) false).
Proof.
  intros c th key updated Hreq Hrate Ho Hpend Hhash Hnow Hcommit Hkex Henc. destruct host as [limiter m devices].
  cbn [ph_limiter ph_manager ph_devices] in *. unfold handle_pairing_stream. rewrite Hreq. unfold rate_checked.
  destruct (check to_string e now limiter) as [limiter' [u|]]; [|done]. unfold claimed, claim. rewrite Ho, Hpend.
  rewrite (proj2 (N.leb_gt (of_expires_at o) now)) by done.
  assert (constant_time_hash_eq (of_capability_hash o) (capability_hash sha256 capability) = true) as -> by (by apply bool_decide_eq_true).
  cbn [negb]. fold c. unfold agreed. cbn [pc_expires_at c]. rewrite (proj2 (N.leb_gt (of_expires_at o) commit_time)) by done.
  rewrite Hkex. unfold stored, upsert, persist, write_file. subst updated. fold th. fold key. rewrite Henc.
  cbn [atomic_write_private map_err]. unfold finished, complete. cbn [pc_pairing_id c].
  rewrite offers_set_offer, lookup_insert, decide_True by done. cbn [set_state of_expires_at of_state of_capability_hash of_created_at].
  rewrite (proj2 (N.leb_gt (of_expires_at o) commit_time)) by done. assert (validating (pc_token c) (set_state (Validating token) o) = true) as -> by apply N.eqb_refl.
  cbn [ph_devices ph_manager ds_devices]. split_and!; [done..| |].
  - unfold contains. cbn. apply (existsb_upserted (new_device encode_base64 (to_string e) commit_time th key)).
  - cbn [ph_manager]. by rewrite offers_clear_current, offers_set_offer, lookup_insert, decide_True.
Qed.
End handshake.
