(* ===== verification/Shed.v ===== *)
(** The loops of [host_protocol.rs] that shed a response until it fits its frame: slash commands lose
    prose, then aliases, then rows; a workspace snapshot loses tabs, then sessions. *)
From S2P Require Import Prelude Text HostProtocol HostRpc.

Local Open Scope N_scope.

(** ** Looking through a list the way the loops do *)

(** [iter_mut().rev().find(p)] and a write through the reference. *)
Definition update_last {A} (p : A -> bool) (f : A -> A) (l : list A) : option (list A) :=
  if existsb p l then Some (rev (update_first p f (rev l))) else None.

(** [min_by_key] over an enumerated list: the index of the first smallest key. *)
Fixpoint first_min_index {A} (key : A -> option N) (l : list A) : option (nat * N) :=
  match l with
  | [] => None
  | x :: l =>
      match key x, first_min_index key l with
      | Some n, Some (i, m) => if n <=? m then Some (0%nat, n) else Some (S i, m)
      | Some n, None => Some (0%nat, n)
      | None, Some (i, m) => Some (S i, m)
      | None, None => None
      end
  end.

(** [max_by_key], which returns the last of several largest. *)
Fixpoint last_max_index {A} (key : A -> option N) (l : list A) : option (nat * N) :=
  match l with
  | [] => None
  | x :: l =>
      match key x, last_max_index key l with
      | Some n, Some (i, m) => if n <=? m then Some (S i, m) else Some (0%nat, n)
      | Some n, None => Some (0%nat, n)
      | None, Some (i, m) => Some (S i, m)
      | None, None => None
      end
  end.

(** ** Shedding until a frame fits *)

Section shed.
Context {T : Type} (to_vec : T -> option bytes) (shed : T -> option T).

(** The [loop]: encode, and while the frame is too large shed once more; [None] out of fuel. *)
Fixpoint shed_loop (fuel : nat) (value : T) : option (result HostProtocolError (bytes * T)) :=
  match fuel with
  | O => None
  | S fuel =>
      match encode_rpc to_vec value with
      | Ok encoded => Some (Ok (encoded, value))
      | Err FrameTooLarge =>
          match shed value with
          | Some value => shed_loop fuel value
          | None => Some (Err FrameTooLarge)
          end
      | Err e => Some (Err e)
      end
  end.

Context (weight : T -> nat).

(** Shedding once makes a value lighter, which bounds the loop. *)
Definition encode_bounded (value : T) : result HostProtocolError (bytes * T) :=
  default (Err FrameTooLarge) (shed_loop (S (weight value)) value).

Context (Hweight : forall value value', shed value = Some value' -> (weight value' < weight value)%nat).

Definition sheds (value value' : T) : Prop := shed value = Some value'.

Lemma shed_loop_ends fuel value :
  (weight value < fuel)%nat -> shed_loop fuel value = Some (encode_bounded value).
Proof.
  unfold encode_bounded. remember (S (weight value)) as enough eqn:He.
  assert (weight value < enough)%nat as Hlt by lia. clear He. intros Hf.
  enough (exists r, shed_loop fuel value = Some r /\ shed_loop enough value = Some r) as (r & -> & ->) by done.
  revert enough value Hlt Hf. induction fuel as [|fuel IH]; intros enough value Hlt Hf; [lia|].
  destruct enough as [|enough]; [lia|]. cbn [shed_loop].
  destruct (encode_rpc to_vec value) as [encoded|[]]; try by eexists.
  destruct (shed value) as [value'|] eqn:Hs; [|by eexists]. apply Hweight in Hs. apply IH; lia.
Qed.

(** What the loop comes to: the first value of the shedding that fits, or the error of the one that
    stopped it — too large only when there is nothing left to shed. *)
Lemma encode_bounded_spec value :
  exists value', rtc sheds value value'
  /\ (forall earlier, rtc sheds value earlier -> rtc sheds earlier value' -> earlier <> value' ->
      encode_rpc to_vec earlier = Err FrameTooLarge)
  /\ match encode_bounded value with
     | Ok (encoded, shown) => shown = value' /\ encode_rpc to_vec value' = Ok encoded
     | Err e => encode_rpc to_vec value' = Err e /\ (e = FrameTooLarge -> shed value' = None)
     end.
Proof.
  pose proof (shed_loop_ends (S (weight value)) value ltac:(lia)) as Hloop.
  revert Hloop. generalize (encode_bounded value) as r. generalize (S (weight value)) as fuel.
  intros fuel r. revert value. induction fuel as [|fuel IH]; intros value; [done|]. cbn [shed_loop].
  assert (forall (P : Prop), P ->
    (forall earlier, rtc sheds value earlier -> rtc sheds earlier value -> earlier <> value ->
       encode_rpc to_vec earlier = Err FrameTooLarge) /\ P) as Hself.
  { intros P HP. split; [|done]. intros earlier H1 H2 Hne. exfalso. apply Hne.
    assert (forall a b, rtc sheds a b -> a = b \/ (weight b < weight a)%nat) as Hw.
    { clear -Hweight. induction 1 as [|a b c Hab Hbc IH]; [by left|]. right. apply Hweight in Hab.
      destruct IH as [->|]; lia. }
    destruct (Hw _ _ H1) as [|], (Hw _ _ H2) as [|]; congruence || lia. }
  destruct (encode_rpc to_vec value) as [encoded|e] eqn:He.
  - intros [= <-]. exists value. split; [done|]. by apply Hself.
  - destruct (decide (e = FrameTooLarge)) as [->|Hne].
    + destruct (shed value) as [next|] eqn:Hs.
      * intros H. apply IH in H as (value' & H1 & H2 & H3). exists value'.
        split; [by eapply rtc_l|]. split; [|done]. intros earlier Ha Hb Hn.
        inversion Ha as [|? next' ? Hn1 Hn2]; subst; [done|]. unfold sheds in Hn1. rewrite Hs in Hn1.
        injection Hn1 as ->. by apply H2.
      * intros [= <-]. exists value. split; [done|]. by apply Hself.
    + intros H. assert (r = Err e) as -> by (destruct e; try done; by injection H).
      exists value. split; [done|]. by apply Hself.
Qed.

(** A value that fits is sent as it is. *)
Lemma encode_bounded_whole value :
  is_ok (encode_rpc to_vec value) = true ->
  encode_bounded value = rmap (fun encoded => (encoded, value)) (encode_rpc to_vec value).
Proof. unfold encode_bounded. cbn [shed_loop]. by destruct (encode_rpc to_vec value). Qed.

Lemma encode_rpc_fits value encoded : encode_rpc to_vec value = Ok encoded -> len encoded <= 4 + MAX_RPC_BODY.
Proof.
  unfold encode_rpc. destruct (to_vec value) as [body|]; [|done]. cbn [ok_or rbind]. rewrite rbind_unit_ok.
  intros [Hs [= <-]]. unfold validate_body_size in Hs. ok_inv Hs. b2p. rewrite !len_cons in *. lia.
Qed.

(** The loop's answer fits and is related to the value by whatever shedding once keeps; out of options,
    it is a value that nothing is left to shed from that is too large. *)
Lemma encode_bounded_outcome (R : T -> T -> Prop) value :
  (forall v, R v v) -> (forall v v' v'', R v v' -> shed v' = Some v'' -> R v v'') ->
  match encode_bounded value with
  | Ok (encoded, shown) =>
      R value shown /\ encode_rpc to_vec shown = Ok encoded /\ len encoded <= 4 + MAX_RPC_BODY
      /\ (is_ok (encode_rpc to_vec value) = true -> shown = value)
  | Err e => e = FrameTooLarge ->
      exists last, R value last /\ encode_rpc to_vec last = Err FrameTooLarge /\ shed last = None
  end.
Proof.
  intros Hrefl Hstep. destruct (encode_bounded_spec value) as (value' & Hr & _ & H).
  assert (R value value') as HR.
  { enough (forall v, R value v -> rtc sheds v value' -> R value value') as Hk by (by apply (Hk value)).
    intros v Hv Hrtc. clear -Hv Hrtc Hstep. induction Hrtc; eauto. }
  pose proof (encode_bounded_whole value) as Hwhole. destruct (encode_bounded value) as [[encoded shown]|e].
  - destruct H as [-> He]. split_and!; [done|done|by eapply encode_rpc_fits|]. intros Hok. specialize (Hwhole Hok).
    destruct (encode_rpc to_vec value); [by injection Hwhole|done].
  - intros ->. destruct H as [He Hn]. exists value'. by split_and!; [..|apply Hn].
Qed.
End shed.

(** The one element [update_last] writes: the last that satisfies the test. *)
Lemma update_last_some {A} (p : A -> bool) f (l l' : list A) :
  update_last p f l = Some l' ->
  exists l1 x l2, l = l1 ++ x :: l2 /\ p x = true /\ existsb p l2 = false /\ l' = l1 ++ f x :: l2.
Proof.
  unfold update_last. destruct (existsb p l) eqn:He; [|done]. intros [= <-].
  assert (existsb p (rev l) = true) as Hr.
  { apply existsb_exists in He as (x & Hx & Hp). apply existsb_exists. exists x. by rewrite <- in_rev. }
  clear He. rewrite <- (rev_involutive l). generalize dependent (rev l). clear l. intros l Hr. rewrite rev_involutive.
  induction l as [|x l IH]; [done|]. cbn [existsb update_first] in *. destruct (p x) eqn:Hx.
  - exists (rev l), x, []. by rewrite rev_app_distr || cbn [rev].
  - destruct (IH Hr) as (l1 & y & l2 & Hl & Hy & Hn & He). exists l1, y, (l2 ++ [x]). cbn [rev].
    rewrite Hl, He, <- !app_assoc. split_and!; [done|done| |done]. by rewrite existsb_app, Hn; cbn; rewrite Hx.
Qed.

Lemma update_last_none {A} (p : A -> bool) f (l : list A) : update_last p f l = None <-> existsb p l = false.
Proof. unfold update_last. by destruct (existsb p l). Qed.

Lemma first_min_none {A} (key : A -> option N) l : first_min_index key l = None <-> Forall (fun x => key x = None) l.
Proof.
  induction l as [|x l IH]; cbn; [by split|]. rewrite Forall_cons, <- IH.
  destruct (key x), (first_min_index key l) as [[]|]; repeat case_match; naive_solver.
Qed.

Lemma first_min_some {A} (key : A -> option N) l i m :
  first_min_index key l = Some (i, m) ->
  exists l1 x l2, l = l1 ++ x :: l2 /\ length l1 = i /\ key x = Some m
  /\ (forall y n, y ∈ l -> key y = Some n -> m <= n).
Proof.
  revert i m. induction l as [|x l IH]; intros i m; cbn; [done|].
  destruct (first_min_index key l) as [[j k]|] eqn:Hl.
  - destruct (IH j k eq_refl) as (l1 & y & l2 & -> & <- & Hy & Hmin).
    assert (key x = None \/ (exists n, key x = Some n /\ k < n) ->
      exists l3 z l4, x :: l1 ++ y :: l2 = l3 ++ z :: l4 /\ length l3 = S (length l1) /\ key z = Some k
      /\ (forall y' n, y' ∈ x :: l1 ++ y :: l2 -> key y' = Some n -> k <= n)) as Hlater.
    { intros Hx. exists (x :: l1), y, l2. split_and!; [done..|].
      intros y' n [->|Hin]%elem_of_cons Hk; [|by eapply Hmin]. destruct Hx as [|(n' & Hn' & ?)]; [congruence|].
      rewrite Hk in Hn'. injection Hn' as ->. lia. }
    destruct (key x) as [n|] eqn:Hx; [destruct (N.leb_spec n k)|].
    + intros [= <- <-]. exists [], x, (l1 ++ y :: l2). split_and!; [done..|].
      intros y' n' [->|Hin]%elem_of_cons Hk; [|etrans; [done|by eapply Hmin]]. rewrite Hx in Hk. by injection Hk as ->.
    + intros [= <- <-]. apply Hlater. right. by exists n.
    + intros [= <- <-]. apply Hlater. by left.
  - apply first_min_none in Hl. destruct (key x) as [n|] eqn:Hx; [|done]. intros [= <- <-].
    exists [], x, l. split_and!; [done..|]. intros y' n' [->|Hin]%elem_of_cons Hk; [rewrite Hx in Hk; by injection Hk as ->|].
    rewrite Forall_forall in Hl. rewrite (Hl _ Hin) in Hk. done.
Qed.

Lemma last_max_none {A} (key : A -> option N) l : last_max_index key l = None <-> Forall (fun x => key x = None) l.
Proof.
  induction l as [|x l IH]; cbn; [by split|]. rewrite Forall_cons, <- IH.
  destruct (key x), (last_max_index key l) as [[]|]; repeat case_match; naive_solver.
Qed.

Lemma last_max_some {A} (key : A -> option N) l i m :
  last_max_index key l = Some (i, m) -> exists l1 x l2, l = l1 ++ x :: l2 /\ length l1 = i /\ key x = Some m.
Proof.
  revert i m. induction l as [|x l IH]; intros i m; cbn; [done|].
  assert (forall j k, last_max_index key l = Some (j, k) ->
    exists l3 z l4, x :: l = l3 ++ z :: l4 /\ length l3 = S j /\ key z = Some k) as Hlater.
  { intros j k Hl. destruct (IH j k Hl) as (l1 & y & l2 & -> & <- & Hy). by exists (x :: l1), y, l2. }
  destruct (key x) as [n|] eqn:Hx, (last_max_index key l) as [[j k]|] eqn:Hl; [case_match|..|done];
    intros [= <- <-]; first [by apply Hlater | by exists [], x, l].
Qed.

(** ** Slash commands *)

Definition set_result {R} (result : R) (r : Response R) : Response R :=
  mkResponse (rs_v r) (rs_message_type r) (rs_request_id r) result.

Definition has_description (c : SlashCommand) : bool := negb (slen (sc_description c) =? 0).
Definition has_hint (c : SlashCommand) : bool := negb (slen (sc_hint c) =? 0).
Definition has_aliases (c : SlashCommand) : bool := negb (len (sc_aliases c) =? 0).

Definition clear_description (c : SlashCommand) : SlashCommand :=
  mkSlashCommand (sc_name c) (sc_hint c) "" (sc_aliases c) (sc_terminal c).
Definition clear_hint (c : SlashCommand) : SlashCommand :=
  mkSlashCommand (sc_name c) "" (sc_description c) (sc_aliases c) (sc_terminal c).
Definition clear_aliases (c : SlashCommand) : SlashCommand :=
  mkSlashCommand (sc_name c) (sc_hint c) (sc_description c) [] (sc_terminal c).

(** [Vec::pop], of which only the rest matters. *)
Definition pop {A} (l : list A) : option (list A) := if len l =? 0 then None else Some (removelast l).

(** One turn of the loop after a frame was too large. *)
Definition shed_commands (r : Response (list SlashCommand)) : option (Response (list SlashCommand)) :=
  (fun commands => set_result commands r) <$>
  match update_last has_description clear_description (rs_result r) with
  | Some commands => Some commands
  | None =>
      match update_last has_hint clear_hint (rs_result r) with
      | Some commands => Some commands
      | None =>
          match update_last has_aliases clear_aliases (rs_result r) with
          | Some commands => Some commands
          | None => pop (rs_result r)
          end
      end
  end.

Definition command_weight (c : SlashCommand) : nat :=
  S (Nat.b2n (has_description c) + Nat.b2n (has_hint c) + Nat.b2n (has_aliases c)).
Definition commands_weight (r : Response (list SlashCommand)) : nat := sum_list_with command_weight (rs_result r).

Definition encode_terminal_commands_response_bounded (to_vec : Response (list SlashCommand) -> option bytes)
  : Response (list SlashCommand) -> result HostProtocolError (bytes * Response (list SlashCommand)) :=
  encode_bounded to_vec shed_commands commands_weight.

(** The four things a turn can do, each only where none before it can be done. *)
Inductive commands_turn : list SlashCommand -> list SlashCommand -> Prop :=
| TurnDescription l1 c l2 : has_description c = true ->
    commands_turn (l1 ++ c :: l2) (l1 ++ clear_description c :: l2)
| TurnHint l1 c l2 : existsb has_description (l1 ++ c :: l2) = false -> has_hint c = true ->
    commands_turn (l1 ++ c :: l2) (l1 ++ clear_hint c :: l2)
| TurnAliases l1 c l2 : existsb has_description (l1 ++ c :: l2) = false -> existsb has_hint (l1 ++ c :: l2) = false ->
    has_aliases c = true -> commands_turn (l1 ++ c :: l2) (l1 ++ clear_aliases c :: l2)
| TurnPop l c : existsb has_description (l ++ [c]) = false -> existsb has_hint (l ++ [c]) = false ->
    existsb has_aliases (l ++ [c]) = false -> commands_turn (l ++ [c]) l.

Lemma pop_some {A} (l l' : list A) : pop l = Some l' <-> exists x, l = l' ++ [x].
Proof.
  unfold pop. destruct l as [|x l _] using rev_ind; [split; [done|]; by intros [x ?%app_cons_not_nil]|].
  rewrite len_snoc, (proj2 (N.eqb_neq _ _)) by lia. rewrite removelast_last.
  split; [intros [= <-]; by exists x|]. intros [y [-> _]%app_inj_tail]. done.
Qed.

Lemma shed_commands_turn r r' :
  shed_commands r = Some r' ->
  commands_turn (rs_result r) (rs_result r') /\ r' = set_result (rs_result r') r.
Proof.
  unfold shed_commands. intros H. apply fmap_Some in H as (commands & H & ->). split; [cbn|done].
  destruct (update_last has_description _ _) as [?|] eqn:H1.
  { injection H as ->. apply update_last_some in H1 as (l1 & c & l2 & -> & Hc & _ & ->). by constructor. }
  apply update_last_none in H1. destruct (update_last has_hint _ _) as [?|] eqn:H2.
  { injection H as ->. apply update_last_some in H2 as (l1 & c & l2 & Hl & Hc & _ & ->). rewrite Hl in *. by constructor. }
  apply update_last_none in H2. destruct (update_last has_aliases _ _) as [?|] eqn:H3.
  { injection H as ->. apply update_last_some in H3 as (l1 & c & l2 & Hl & Hc & _ & ->). rewrite Hl in *. by constructor. }
  apply update_last_none in H3. apply pop_some in H as [c Hl]. rewrite Hl in *. by constructor.
Qed.

Lemma shed_commands_none r : shed_commands r = None -> rs_result r = [].
Proof.
  unfold shed_commands. intros H. apply fmap_None in H. repeat (case_match; [done|]).
  destruct (rs_result r); [done|]. unfold pop in H. by rewrite len_cons, (proj2 (N.eqb_neq _ _)) in H by lia.
Qed.

Lemma clear_lighter c :
  (has_description c = true -> command_weight (clear_description c) < command_weight c)%nat
  /\ (has_hint c = true -> command_weight (clear_hint c) < command_weight c)%nat
  /\ (has_aliases c = true -> command_weight (clear_aliases c) < command_weight c)%nat.
Proof.
  unfold command_weight, clear_description, clear_hint, clear_aliases, has_description, has_hint, has_aliases.
  cbn [sc_description sc_hint sc_aliases]. change (slen "") with 0. change (len (@nil string)) with 0.
  cbn [N.eqb negb Nat.b2n]. split_and!; intros ->; cbn [Nat.b2n]; lia.
Qed.

Lemma commands_turn_weight l l' :
  commands_turn l l' -> (sum_list_with command_weight l' < sum_list_with command_weight l)%nat.
Proof.
  destruct 1 as [l1 c l2 H|l1 c l2 _ H|l1 c l2 _ _ H|l c _ _ _]; rewrite ?sum_list_with_app; cbn [sum_list_with];
    try (destruct (clear_lighter c) as (H1 & H2 & H3); specialize (H1 H) || specialize (H2 H) || specialize (H3 H); lia).
  unfold command_weight at 3. lia.
Qed.

(** What a row shows of the command it stands for. *)
Record row_of (c shown : SlashCommand) : Prop := {
  row_name : sc_name shown = sc_name c;
  row_terminal : sc_terminal shown = sc_terminal c;
  row_description : sc_description shown = sc_description c \/ sc_description shown = ""%string;
  row_hint : sc_hint shown = sc_hint c \/ sc_hint shown = ""%string;
  row_aliases : sc_aliases shown = sc_aliases c \/ sc_aliases shown = []
}.

Definition same_aliases (c shown : SlashCommand) : Prop := sc_aliases shown = sc_aliases c.
Definition same_usage (c shown : SlashCommand) : Prop := sc_hint shown = sc_hint c /\ same_aliases c shown.

(** The rows are the first commands, in their order; aliases are lost only once no prose is left, hints
    only once no description is, and a command only once every row is its name alone. *)
Record sheds_in_order (commands shown : list SlashCommand) : Prop := {
  rows_in_order : Forall2 row_of (take (length shown) commands) shown;
  hints_after_descriptions : existsb has_description shown = true -> Forall2 same_usage commands shown;
  aliases_after_hints : existsb has_hint shown = true -> Forall2 same_aliases commands shown;
  rows_after_aliases : existsb has_aliases shown = true -> length commands = length shown
}.

Lemma Forall2_set {A B} (P : A -> B -> Prop) f l k1 x k2 :
  (forall a, P a x -> P a (f x)) -> Forall2 P l (k1 ++ x :: k2) -> Forall2 P l (k1 ++ f x :: k2).
Proof.
  intros Hf (l1 & l2 & H1 & H2 & ->)%Forall2_app_inv_r. apply Forall2_app; [done|].
  inversion H2; subst. constructor; auto.
Qed.

Lemma existsb_set {A} (p : A -> bool) f l1 x l2 :
  p (f x) = p x \/ p (f x) = false -> existsb p (l1 ++ f x :: l2) = true -> existsb p (l1 ++ x :: l2) = true.
Proof.
  intros Hp. rewrite !existsb_app, !orb_true_iff. cbn. rewrite !orb_true_iff. intros [?|[H|?]]; auto.
  right. left. destruct Hp as [<-|Hp]; congruence.
Qed.

Lemma row_of_refl c : row_of c c.
Proof. split; auto. Qed.

Lemma row_cleared a c :
  row_of a c -> row_of a (clear_description c) /\ row_of a (clear_hint c) /\ row_of a (clear_aliases c).
Proof. intros []. split_and!; (split; cbn; auto). Qed.

Lemma Forall2_self {A} (P : A -> A -> Prop) l : (forall x, P x x) -> Forall2 P l l.
Proof. intros HP. induction l; by constructor. Qed.

Lemma sheds_in_order_refl l : sheds_in_order l l.
Proof.
  split; [rewrite take_ge by done|intros _..|done]; apply Forall2_self; [apply row_of_refl|by split|done].
Qed.

Lemma commands_turn_in_order l0 l l' : commands_turn l l' -> sheds_in_order l0 l -> sheds_in_order l0 l'.
Proof.
  assert (forall f l1 c l2, (forall a, row_of a c -> row_of a (f c)) ->
    Forall2 row_of (take (length (l1 ++ c :: l2)) l0) (l1 ++ c :: l2) ->
    Forall2 row_of (take (length (l1 ++ f c :: l2)) l0) (l1 ++ f c :: l2)) as Hrows.
  { intros f l1 c l2 Hf H. apply Forall2_set; [done|]. by rewrite !length_app in *. }
  assert (forall f l1 (c : SlashCommand) l2, length (l1 ++ f c :: l2) = length (l1 ++ c :: l2)) as Hlen
    by (intros; by rewrite !length_app).
  destruct 1 as [l1 c l2 Hd|l1 c l2 Hnd Hh|l1 c l2 Hnd Hnh Ha|l c Hnd Hnh Hna]; intros [R1 R2 R3 R4].
  - assert (existsb has_description (l1 ++ c :: l2) = true) as Hex.
    { rewrite existsb_app. cbn. by rewrite Hd, orb_true_r. }
    split.
    + apply (Hrows clear_description); [|done]. intros a H. by apply row_cleared.
    + intros _. apply (Forall2_set _ clear_description); [done|]. by apply R2.
    + intros _. apply (Forall2_set _ clear_description); [done|].
      eapply Forall2_impl; [by apply R2|]. by intros ? ? [].
    + intros _. rewrite (Hlen clear_description). by apply Forall2_length in R2.
  - assert (existsb has_hint (l1 ++ c :: l2) = true) as Hex.
    { rewrite existsb_app. cbn. by rewrite Hh, orb_true_r. }
    split.
    + apply (Hrows clear_hint); [|done]. intros a H. by apply row_cleared.
    + intros H. apply (existsb_set _ clear_hint) in H; [congruence|by left].
    + intros _. apply (Forall2_set _ clear_hint); [done|]. by apply R3.
    + intros _. rewrite (Hlen clear_hint). by apply R3, Forall2_length in Hex.
  - assert (existsb has_aliases (l1 ++ c :: l2) = true) as Hex.
    { rewrite existsb_app. cbn. by rewrite Ha, orb_true_r. }
    split.
    + apply (Hrows clear_aliases); [|done]. intros a H. by apply row_cleared.
    + intros H. apply (existsb_set _ clear_aliases) in H; [congruence|by left].
    + intros H. apply (existsb_set _ clear_aliases) in H; [congruence|by left].
    + intros _. rewrite (Hlen clear_aliases). by apply R4.
  - rewrite existsb_app, orb_false_iff in Hnd, Hnh, Hna. destruct Hnd as [Hnd _], Hnh as [Hnh _], Hna as [Hna _].
    split; [|congruence..]. rewrite length_app in R1. apply Forall2_app_inv_r in R1 as (k1 & k2 & H1 & H2 & Heq).
    apply (f_equal (take (length l))) in Heq. rewrite take_take, Nat.min_l in Heq by lia.
    rewrite Heq, <- (Forall2_length _ _ _ H1), take_app_length. done.
Qed.

(** A row of a valid list is valid. *)
Lemma row_of_valid c shown : row_of c shown -> validate_slash_command c = Ok tt -> validate_slash_command shown = Ok tt.
Proof.
  intros [Hn _ Hd Hh Ha]. unfold validate_slash_command. rewrite !rbind_unit_ok, !refuse_if_ok, !orb_false_iff, Hn.
  rewrite !existsb_app, !orb_false_iff.
  intros ((((Hn1 & Hn2) & Hh1) & Hd1) & Hname & Hal & Hals & Hch & Hcd). split_and!; try done.
  - destruct Hh as [->| ->]; [done|by vm_compute].
  - destruct Hd as [->| ->]; [done|by vm_compute].
  - destruct Ha as [->| ->]; [done|by vm_compute].
  - by destruct Ha as [->| ->].
  - by destruct Hh as [->| ->].
  - by destruct Hd as [->| ->].
Qed.

Lemma sheds_in_order_valid commands shown :
  sheds_in_order commands shown -> validate_slash_commands commands = Ok tt -> validate_slash_commands shown = Ok tt.
Proof.
  intros [Hrows _ _ _]. unfold validate_slash_commands. rewrite !rbind_unit_ok, !refuse_if_ok, !each_ok, !N.ltb_ge.
  intros [Hlen Hall]. pose proof (Forall2_length _ _ _ Hrows) as Hl. rewrite length_take in Hl. split; [unfold len in *; lia|].
  apply (Forall_take _ (length shown)) in Hall. clear Hlen Hl. revert Hall. induction Hrows as [|c row l k Hr H IH]; [done|].
  intros [H1 H2]%Forall_cons. constructor; [by eapply row_of_valid|by apply IH].
Qed.

Section commands.
Context (decode_base64 : string -> option bytes).

(** The slash-command picker is never lost to the size of its frame. The response sent fits the
    frame; it shows the first commands in their order, with their names whole; descriptions go before
    hints, hints before aliases, and a command only once every row is bare; nothing is shed from a
    response that fits, and what the phone would accept before, it accepts after. The encoder gives up
    only where even the empty list does not fit, or the JSON encoder itself fails. *)
Theorem commands_shed_in_order to_vec r :
  match encode_terminal_commands_response_bounded to_vec r with
  | Ok (encoded, shown) =>
      encode_rpc to_vec shown = Ok encoded /\ len encoded <= 4 + MAX_RPC_BODY
      /\ shown = set_result (rs_result shown) r
      /\ sheds_in_order (rs_result r) (rs_result shown)
      /\ (is_ok (encode_rpc to_vec r) = true -> shown = r)
      /\ (TerminalCommandsResponse_validate decode_base64 r = Ok tt ->
          TerminalCommandsResponse_validate decode_base64 shown = Ok tt)
  | Err e => e = FrameTooLarge -> encode_rpc to_vec (set_result [] r) = Err FrameTooLarge
  end.
Proof.
  set (R := fun r r' => r' = set_result (rs_result r') r /\ sheds_in_order (rs_result r) (rs_result r')).
  assert (forall r, R r r) as Hrefl by (intros []; split; [done|apply sheds_in_order_refl]).
  assert (forall r r' r'', R r r' -> shed_commands r' = Some r'' -> R r r'') as Hstep.
  { intros r1 r2 r3 [He Ho] [Ht Hs]%shed_commands_turn. split; [by rewrite Hs, He|].
    by eapply commands_turn_in_order. }
  assert (forall r r', shed_commands r = Some r' -> (commands_weight r' < commands_weight r)%nat) as Hweight
    by (intros ?? [Ht _]%shed_commands_turn; by apply commands_turn_weight).
  unfold encode_terminal_commands_response_bounded.
  pose proof (encode_bounded_outcome to_vec shed_commands commands_weight Hweight R r Hrefl Hstep) as H.
  destruct (encode_bounded _ _ _ r) as [[encoded shown]|e].
  - destruct H as ([He Ho] & Hok & Hlen & Hwhole). split_and!; try done.
    unfold TerminalCommandsResponse_validate. rewrite He. cbn [set_result rs_request_id rs_result].
    rewrite !rbind_unit_ok. intros (H1 & H2 & H3). split_and!; [done..|]. by eapply sheds_in_order_valid.
  - intros ->. destruct (H eq_refl) as (r' & [Heq Ho] & He & Hn). apply shed_commands_none in Hn.
    rewrite Hn in Heq. by rewrite <- Heq.
Qed.
End commands.
