(* ===== verification/ShedSnapshot.v ===== *)
(** The loop of [host_protocol.rs] that sheds a workspace snapshot until it fits its frame: listings are
    shortened, then stripped, and only then sessions dropped and counted. *)
From S2P Require Import Prelude Text HostProtocol HostRpc Shed.

Local Open Scope N_scope.

(** ** Sessions with tabs *)

(** What the loop needs of a session entry of either provider. *)
Class Tabbed (A : Type) := {
  tabs_of : A -> option (list SessionTabEntry);
  with_tabs : option (list SessionTabEntry) -> A -> A;
  tabs_with t s : tabs_of (with_tabs t s) = t;
  with_with t t' s : with_tabs t (with_tabs t' s) = with_tabs t s;
  with_same s : with_tabs (tabs_of s) s = s
}.

#[export, refine] Instance herdr_tabbed : Tabbed HerdrSessionEntry := {
  tabs_of := he_tabs;
  with_tabs t s := mkHerdrSessionEntry (he_name s) (he_running s) (he_is_default s) t
}.
Proof. all: by try intros []. Defined.

#[export, refine] Instance tmux_tabbed : Tabbed TmuxSessionEntry := {
  tabs_of := ts_tabs;
  with_tabs t s := mkTmuxSessionEntry (ts_name s) (ts_attached s) (ts_windows s) (ts_created_unix s) t
}.
Proof. all: by try intros []. Defined.

(** ** The loop *)

Definition provider_sessions {A} (p : ProviderSnapshot A) : list A := default [] (ps_sessions p).
Definition set_sessions {A} (sessions : list A) (p : ProviderSnapshot A) : ProviderSnapshot A :=
  mkProviderSnapshot (ps_state p) (ps_version p) (Some sessions).

Definition herdr (r : WorkspaceSnapshotResult) : list HerdrSessionEntry := provider_sessions (wr_herdr r).
Definition tmux (r : WorkspaceSnapshotResult) : list TmuxSessionEntry := provider_sessions (wr_tmux r).
Definition set_herdr (sessions : list HerdrSessionEntry) (r : WorkspaceSnapshotResult) : WorkspaceSnapshotResult :=
  mkWorkspaceSnapshotResult (wr_v r) (wr_tmux r) (set_sessions sessions (wr_herdr r)) (wr_omitted_sessions r).
Definition set_tmux (sessions : list TmuxSessionEntry) (r : WorkspaceSnapshotResult) : WorkspaceSnapshotResult :=
  mkWorkspaceSnapshotResult (wr_v r) (set_sessions sessions (wr_tmux r)) (wr_herdr r) (wr_omitted_sessions r).
Definition count_omitted (r : WorkspaceSnapshotResult) : WorkspaceSnapshotResult :=
  mkWorkspaceSnapshotResult (wr_v r) (wr_tmux r) (wr_herdr r) (sat_add32 (wr_omitted_sessions r) 1).

(** A listing that can be shortened, by its length. *)
Definition long_listing (tabs : option (list SessionTabEntry)) : option N :=
  tabs ← tabs; if 1 <? len tabs then Some (len tabs) else None.

Definition shorten_tabs (tabs : list SessionTabEntry) : list SessionTabEntry :=
  take (N.to_nat (N.max (len tabs * 3 / 4) 1)) tabs.

Definition shorten {A} `{Tabbed A} (s : A) : A := with_tabs (shorten_tabs <$> tabs_of s) s.
Definition strip {A} `{Tabbed A} (s : A) : A := with_tabs None s.

Definition shorten_longest_tab_list (r : WorkspaceSnapshotResult) : option WorkspaceSnapshotResult :=
  '(i, _) ← last_max_index long_listing ((tabs_of <$> herdr r) ++ (tabs_of <$> tmux r));
  if (i <? length (herdr r))%nat then Some (set_herdr (alter shorten i (herdr r)) r)
  else Some (set_tmux (alter shorten (i - length (herdr r))%nat (tmux r)) r).

Definition has_tabs {A} `{Tabbed A} (s : A) : bool := is_some (tabs_of s).

Definition strip_tmux (r : WorkspaceSnapshotResult) : option WorkspaceSnapshotResult :=
  '(i, _) ← first_min_index (fun s => if has_tabs s then Some (ts_created_unix s) else None) (tmux r);
  Some (set_tmux (alter strip i (tmux r)) r).

Definition drop_oldest_tmux (r : WorkspaceSnapshotResult) : option WorkspaceSnapshotResult :=
  '(i, _) ← first_min_index (fun s => Some (ts_created_unix s)) (tmux r);
  Some (count_omitted (set_tmux (delete i (tmux r)) r)).

(** One turn of the loop after a frame was too large. *)
Definition shed_snapshot (r : WorkspaceSnapshotResult) : option WorkspaceSnapshotResult :=
  match shorten_longest_tab_list r with
  | Some r => Some r
  | None =>
      match update_last has_tabs strip (herdr r) with
      | Some sessions => Some (set_herdr sessions r)
      | None =>
          match strip_tmux r with
          | Some r => Some r
          | None =>
              match pop (herdr r) with
              | Some sessions => Some (count_omitted (set_herdr sessions r))
              | None => drop_oldest_tmux r
              end
          end
      end
  end.

Definition session_weight {A} `{Tabbed A} (s : A) : nat :=
  match tabs_of s with Some tabs => S (S (length tabs)) | None => 1%nat end.
Definition snapshot_weight (r : Response WorkspaceSnapshotResult) : nat :=
  (sum_list_with session_weight (herdr (rs_result r)) + sum_list_with session_weight (tmux (rs_result r)))%nat.

Definition shed_response (r : Response WorkspaceSnapshotResult) : option (Response WorkspaceSnapshotResult) :=
  (fun result => set_result result r) <$> shed_snapshot (rs_result r).

Definition encode_snapshot_response_bounded (to_vec : Response WorkspaceSnapshotResult -> option bytes)
  : Response WorkspaceSnapshotResult -> result HostProtocolError (bytes * Response WorkspaceSnapshotResult) :=
  encode_bounded to_vec shed_response snapshot_weight.

(** ** What a turn does *)

Definition short (r : WorkspaceSnapshotResult) : Prop :=
  Forall (fun tabs => long_listing tabs = None) ((tabs_of <$> herdr r) ++ (tabs_of <$> tmux r)).
Definition any_tabs {A} `{Tabbed A} (l : list A) : bool := existsb has_tabs l.

(** The six turns, each only where none before it can be done. *)
Inductive snapshot_turn (r : WorkspaceSnapshotResult) : WorkspaceSnapshotResult -> Prop :=
| ShortenHerdr h1 s h2 : herdr r = h1 ++ s :: h2 -> long_listing (tabs_of s) <> None ->
    snapshot_turn r (set_herdr (h1 ++ shorten s :: h2) r)
| ShortenTmux t1 s t2 : tmux r = t1 ++ s :: t2 -> long_listing (tabs_of s) <> None ->
    snapshot_turn r (set_tmux (t1 ++ shorten s :: t2) r)
| StripHerdr h1 s h2 : short r -> herdr r = h1 ++ s :: h2 -> has_tabs s = true ->
    snapshot_turn r (set_herdr (h1 ++ strip s :: h2) r)
| StripTmux t1 s t2 : short r -> any_tabs (herdr r) = false -> tmux r = t1 ++ s :: t2 -> has_tabs s = true ->
    snapshot_turn r (set_tmux (t1 ++ strip s :: t2) r)
| DropHerdr h s : short r -> any_tabs (herdr r) = false -> any_tabs (tmux r) = false -> herdr r = h ++ [s] ->
    snapshot_turn r (count_omitted (set_herdr h r))
| DropTmux t1 s t2 : short r -> herdr r = [] -> any_tabs (tmux r) = false -> tmux r = t1 ++ s :: t2 ->
    (forall k, k ∈ tmux r -> ts_created_unix s <= ts_created_unix k) ->
    snapshot_turn r (count_omitted (set_tmux (t1 ++ t2) r)).

Lemma alter_middle {A} (f : A -> A) l1 x l2 : alter f (length l1) (l1 ++ x :: l2) = l1 ++ f x :: l2.
Proof. induction l1 as [|y l1 IH]; cbn; [done|]. by f_equal. Qed.

Lemma fmap_middle {A B} (f : A -> B) l k1 y k2 :
  f <$> l = k1 ++ y :: k2 -> exists l1 x l2, l = l1 ++ x :: l2 /\ length l1 = length k1 /\ f x = y.
Proof.
  intros (l1 & l3 & -> & H3 & ->)%fmap_app_inv. apply eq_sym, fmap_cons_inv in H3 as (x & l2 & -> & _ & ->).
  exists l1, x, l2. by rewrite length_fmap.
Qed.

Lemma shorten_turn r r' : shorten_longest_tab_list r = Some r' -> snapshot_turn r r'.
Proof.
  unfold shorten_longest_tab_list. destruct (last_max_index _ _) as [[i m]|] eqn:Hi; [|done]. cbn [mbind option_bind].
  apply last_max_some in Hi as (k1 & tabs & k2 & Hk & <- & Hm).
  destruct (Nat.ltb_spec (length k1) (length (herdr r))) as [Hlt|Hge]; intros [= <-].
  - assert (exists k3, tabs_of <$> herdr r = k1 ++ tabs :: k3) as [k3 H3].
    { exists (drop (S (length k1)) (tabs_of <$> herdr r)).
      apply (f_equal (take (length (tabs_of <$> herdr r)))) in Hk as Hk'. rewrite take_app_length in Hk'. rewrite Hk'.
      rewrite take_app_ge by (rewrite length_fmap; lia). rewrite length_fmap in *.
      destruct (length (herdr r) - length k1)%nat as [|n] eqn:Hn; [lia|]. cbn [take]. rewrite drop_app_ge by lia.
      by replace (S (length k1) - length k1)%nat with 1%nat by lia. }
    apply fmap_middle in H3 as (h1 & s & h2 & Hh & <- & <-). rewrite Hh, alter_middle.
    apply ShortenHerdr; [done|]. by rewrite Hm.
  - assert (exists k3 k4, tabs_of <$> tmux r = k3 ++ tabs :: k4 /\ length k3 = (length k1 - length (herdr r))%nat)
      as (k3 & k4 & H3 & Hl).
    { apply (f_equal (drop (length (tabs_of <$> herdr r)))) in Hk. rewrite drop_app_length in Hk.
      rewrite drop_app_le in Hk by (rewrite length_fmap; lia). eexists _, _. split; [exact Hk|].
      by rewrite length_drop, length_fmap. }
    apply fmap_middle in H3 as (t1 & s & t2 & Ht & Hl' & <-). rewrite <- Hl, <- Hl', Ht, alter_middle.
    apply ShortenTmux; [done|]. by rewrite Hm.
Qed.

Lemma shorten_none r : shorten_longest_tab_list r = None -> short r.
Proof.
  unfold shorten_longest_tab_list. destruct (last_max_index _ _) as [[i m]|] eqn:Hi; cbn; [by case_match|].
  intros _. by apply last_max_none in Hi.
Qed.

Lemma strip_tmux_none r : strip_tmux r = None -> any_tabs (tmux r) = false.
Proof.
  unfold strip_tmux. destruct (first_min_index _ _) as [[i m]|] eqn:Hi; [done|]. intros _.
  apply first_min_none in Hi. unfold any_tabs. induction Hi as [|s l Hs _ IH]; [done|]. cbn. rewrite IH. by destruct (has_tabs s).
Qed.

Lemma delete_middle {A} l1 (x : A) l2 : delete (length l1) (l1 ++ x :: l2) = l1 ++ l2.
Proof. induction l1 as [|y l1 IH]; cbn; [done|]. by f_equal. Qed.

Lemma shed_snapshot_turn r r' : shed_snapshot r = Some r' -> snapshot_turn r r'.
Proof.
  unfold shed_snapshot. destruct (shorten_longest_tab_list r) eqn:H1; [intros [= <-]; by apply shorten_turn|].
  apply shorten_none in H1. destruct (update_last has_tabs strip (herdr r)) eqn:H2.
  { intros [= <-]. apply update_last_some in H2 as (h1 & s & h2 & Hh & Hs & _ & ->). by apply StripHerdr. }
  apply update_last_none in H2. destruct (strip_tmux r) eqn:H3.
  { intros [= <-]. unfold strip_tmux in H3. destruct (first_min_index _ _) as [[i m]|] eqn:Hi; [|done].
    injection H3 as <-. apply first_min_some in Hi as (t1 & s & t2 & Ht & <- & Hs & _). rewrite Ht, alter_middle.
    apply StripTmux; [done..|]. by destruct (has_tabs s). }
  apply strip_tmux_none in H3. destruct (pop (herdr r)) eqn:H4.
  { intros [= <-]. apply pop_some in H4 as [s Hs]. by eapply DropHerdr. }
  unfold drop_oldest_tmux. destruct (first_min_index _ _) as [[i m]|] eqn:Hi; [|done]. intros [= <-].
  apply first_min_some in Hi as (t1 & s & t2 & Ht & <- & Hs & Hmin). rewrite Ht, delete_middle.
  eapply DropTmux; [done| |done|exact Ht|].
  - unfold pop in H4. destruct (herdr r); [done|]. by rewrite len_cons, (proj2 (N.eqb_neq _ _)) in H4 by lia.
  - injection Hs as <-. intros k Hk. by eapply Hmin.
Qed.

Lemma shed_snapshot_none r : shed_snapshot r = None -> herdr r = [] /\ tmux r = [].
Proof.
  unfold shed_snapshot. repeat (case_match; [done|]). unfold drop_oldest_tmux.
  destruct (first_min_index _ _) as [[i m]|] eqn:Hi; [done|]. intros _. split.
  - match goal with H : pop _ = None |- _ => unfold pop in H end.
    destruct (herdr r); [done|]. rewrite len_cons, (proj2 (N.eqb_neq _ _)) in * by lia. done.
  - apply first_min_none in Hi. by destruct Hi.
Qed.

Lemma long_listing_some tabs : long_listing tabs <> None <-> exists l, tabs = Some l /\ 1 < len l.
Proof.
  unfold long_listing. destruct tabs as [l|]; cbn [mbind option_bind].
  - destruct (N.ltb_spec 1 (len l)); split; try done; [by exists l|]. intros (l' & [= <-] & ?). lia.
  - split; [done|by intros (l & ? & _)].
Qed.

Lemma shorten_tabs_length l : 1 < len l -> (0 < length (shorten_tabs l) < length l)%nat.
Proof.
  unfold shorten_tabs, len. intros H. rewrite length_take.
  assert (N.of_nat (length l) * 3 / 4 < N.of_nat (length l)) by (apply N.Div0.div_lt_upper_bound; lia). lia.
Qed.

Section tabbed.
Context {A : Type} `{!Tabbed A}.

Lemma shorten_lighter (s : A) :
  long_listing (tabs_of s) <> None -> (session_weight (shorten s) < session_weight s)%nat.
Proof.
  intros (l & Hl & Hlen)%long_listing_some. apply shorten_tabs_length in Hlen. unfold session_weight, shorten.
  rewrite tabs_with, Hl. cbn [fmap option_fmap option_map]. lia.
Qed.

Lemma strip_lighter (s : A) : has_tabs s = true -> (session_weight (strip s) < session_weight s)%nat.
Proof. unfold session_weight, strip, has_tabs. rewrite tabs_with. destruct (tabs_of s); [lia|done]. Qed.

Lemma session_weight_pos (s : A) : (0 < session_weight s)%nat.
Proof. unfold session_weight. destruct (tabs_of s); lia. Qed.

(** ** What a row shows of its session *)

(** The listing: none, or the first tabs of the session's, and some where it had some. *)
Definition listing_of (tabs shown : option (list SessionTabEntry)) : Prop :=
  match shown with
  | None => True
  | Some shown => exists all k, tabs = Some all /\ shown = take k all /\ (all <> [] -> shown <> [])
  end.

Definition entry_of (s shown : A) : Prop := strip shown = strip s /\ listing_of (tabs_of s) (tabs_of shown).
Definition listed_alike (s shown : A) : Prop := has_tabs shown = has_tabs s.

Lemma entry_of_refl s : entry_of s s.
Proof. split; [done|]. unfold listing_of. destruct (tabs_of s) as [l|]; [|done]. exists l, (length l). by rewrite firstn_all. Qed.

Lemma row_stripped s shown : entry_of s shown -> entry_of s (strip shown).
Proof. intros [H _]. unfold strip in *. split; [by unfold strip; rewrite with_with|]. by rewrite tabs_with. Qed.

Lemma row_shortened s shown :
  long_listing (tabs_of shown) <> None -> entry_of s shown -> entry_of s (shorten shown).
Proof.
  intros (l & Hl & Hlen)%long_listing_some [H1 H2]. unfold entry_of, strip, shorten in *.
  rewrite with_with, tabs_with. split; [done|]. rewrite Hl in H2 |- *. destruct H2 as (all & k & -> & -> & _).
  cbn [fmap option_fmap option_map listing_of]. eexists all, _. split; [done|]. unfold shorten_tabs. rewrite take_take.
  split; [done|]. intros _ Hnil. apply shorten_tabs_length in Hlen. apply (f_equal length) in Hnil. cbn in Hnil.
  unfold shorten_tabs in Hlen. rewrite take_take in Hlen. rewrite Hnil in Hlen. lia.
Qed.

Lemma shorten_listed (s : A) : has_tabs (shorten s) = has_tabs s.
Proof. unfold has_tabs, shorten. rewrite tabs_with. by destruct (tabs_of s). Qed.

Lemma any_tabs_middle (l1 : list A) s l2 : has_tabs s = true -> any_tabs (l1 ++ s :: l2) = true.
Proof. intros H. unfold any_tabs. rewrite existsb_app. cbn. by rewrite H, orb_true_r. Qed.

Lemma any_tabs_stripped (l1 : list A) s l2 : any_tabs (l1 ++ strip s :: l2) = true -> any_tabs (l1 ++ s :: l2) = true.
Proof. apply existsb_set. right. unfold has_tabs, strip. by rewrite tabs_with. Qed.

(** Shortening or stripping one row of a list. *)
Lemma rows_shortened (l : list A) l1 s l2 :
  long_listing (tabs_of s) <> None -> Forall2 entry_of l (l1 ++ s :: l2) -> Forall2 entry_of l (l1 ++ shorten s :: l2).
Proof. intros Hs. apply Forall2_set. intros a. by apply row_shortened. Qed.

Lemma rows_stripped (l : list A) l1 s l2 : Forall2 entry_of l (l1 ++ s :: l2) -> Forall2 entry_of l (l1 ++ strip s :: l2).
Proof. apply Forall2_set. intros a. apply row_stripped. Qed.

Lemma listed_shortened (l : list A) l1 s l2 :
  Forall2 listed_alike l (l1 ++ s :: l2) -> Forall2 listed_alike l (l1 ++ shorten s :: l2).
Proof. apply Forall2_set. intros a. unfold listed_alike. by rewrite shorten_listed. Qed.

Lemma long_in_middle (l1 : list A) s l2 :
  long_listing (tabs_of s) <> None -> ~ Forall (fun s => long_listing (tabs_of s) = None) (l1 ++ s :: l2).
Proof. intros H [_ [? _]%Forall_cons]%Forall_app. done. Qed.

Lemma short_stripped (l1 : list A) s l2 :
  Forall (fun s => long_listing (tabs_of s) = None) (l1 ++ s :: l2) ->
  Forall (fun s => long_listing (tabs_of s) = None) (l1 ++ strip s :: l2).
Proof.
  rewrite !Forall_app, !Forall_cons. intros (? & _ & ?). split_and!; [done| |done]. unfold strip. by rewrite tabs_with.
Qed.
End tabbed.

Lemma short_iff r :
  short r <-> Forall (fun s => long_listing (tabs_of s) = None) (herdr r)
              /\ Forall (fun s => long_listing (tabs_of s) = None) (tmux r).
Proof. unfold short. by rewrite Forall_app, !Forall_fmap. Qed.

Lemma herdr_set_herdr h r : herdr (set_herdr h r) = h.
Proof. done. Qed.
Lemma tmux_set_herdr h r : tmux (set_herdr h r) = tmux r.
Proof. done. Qed.
Lemma herdr_set_tmux t r : herdr (set_tmux t r) = herdr r.
Proof. done. Qed.
Lemma tmux_set_tmux t r : tmux (set_tmux t r) = t.
Proof. done. Qed.
Lemma herdr_count r : herdr (count_omitted r) = herdr r.
Proof. done. Qed.
Lemma tmux_count r : tmux (count_omitted r) = tmux r.
Proof. done. Qed.
Create Rewrite HintDb snapshots.
#[export] Hint Rewrite herdr_set_herdr tmux_set_herdr herdr_set_tmux tmux_set_tmux herdr_count tmux_count : snapshots.

Lemma snapshot_turn_weight r r' :
  snapshot_turn r r' ->
  (sum_list_with session_weight (herdr r') + sum_list_with session_weight (tmux r')
   < sum_list_with session_weight (herdr r) + sum_list_with session_weight (tmux r))%nat.
Proof.
  destruct 1 as [h1 s h2 Hh Hs|t1 s t2 Ht Hs|h1 s h2 _ Hh Hs|t1 s t2 _ _ Ht Hs|h s _ _ _ Hh|t1 s t2 _ _ _ Ht _];
    autorewrite with snapshots; rewrite ?Hh, ?Ht, !sum_list_with_app; cbn [sum_list_with].
  - pose proof (shorten_lighter s Hs). lia.
  - pose proof (shorten_lighter s Hs). lia.
  - pose proof (strip_lighter s Hs). lia.
  - pose proof (strip_lighter s Hs). lia.
  - pose proof (session_weight_pos s). lia.
  - pose proof (session_weight_pos s). lia.
Qed.

(** ** The order of what is given up *)

Definition provider_head {A} (p : ProviderSnapshot A) : string * option string * bool :=
  (ps_state p, ps_version p, is_some (ps_sessions p)).

(** The tmux sessions shown: some of them, in their order, the rest being no newer. *)
Definition newest_of (sessions kept : list TmuxSessionEntry) : Prop :=
  sublist kept sessions
  /\ forall s, s ∈ sessions -> s ∈ kept \/ forall k, k ∈ kept -> ts_created_unix s <= ts_created_unix k.

Definition dropped (r0 r : WorkspaceSnapshotResult) : N :=
  len (herdr r0) + len (tmux r0) - (len (herdr r) + len (tmux r)).

(** Every row is a session's, with the first of its tabs; herdr rows go from the end, tmux rows oldest
    first, and each is counted. A listing is lost only once every listing is down to a tab, tmux
    listings after herdr's, a session only once no listing is left, a tmux session only once no herdr
    session is. *)
Record sheds_tabs_first (r0 r : WorkspaceSnapshotResult) : Prop := {
  version_kept : wr_v r = wr_v r0;
  herdr_head : provider_head (wr_herdr r) = provider_head (wr_herdr r0);
  tmux_head : provider_head (wr_tmux r) = provider_head (wr_tmux r0);
  herdr_rows : Forall2 entry_of (take (length (herdr r)) (herdr r0)) (herdr r);
  tmux_rows : exists kept, newest_of (tmux r0) kept /\ Forall2 entry_of kept (tmux r);
  omitted_counted : wr_omitted_sessions r = if dropped r0 r =? 0 then wr_omitted_sessions r0
                                            else sat_add32 (wr_omitted_sessions r0) (dropped r0 r);
  shortened_first : ~ short r ->
    Forall2 listed_alike (herdr r0) (herdr r) /\ Forall2 listed_alike (tmux r0) (tmux r);
  herdr_stripped_first : any_tabs (herdr r) = true -> Forall2 listed_alike (tmux r0) (tmux r);
  tabs_before_sessions : any_tabs (herdr r) = true \/ any_tabs (tmux r) = true -> dropped r0 r = 0;
  herdr_dropped_first : herdr r <> [] -> length (tmux r) = length (tmux r0)
}.

Lemma sheds_tabs_first_refl r : sheds_tabs_first r r.
Proof.
  assert (dropped r r = 0) as Hd by (unfold dropped; lia).
  split; try done.
  - rewrite firstn_all. apply Forall2_self, entry_of_refl.
  - exists (tmux r). split; [|apply Forall2_self, entry_of_refl]. by split; [|auto].
  - by rewrite Hd.
  - intros _. split; by apply Forall2_self.
  - intros _. by apply Forall2_self.
Qed.

Lemma sheds_lengths r0 r :
  sheds_tabs_first r0 r -> (length (herdr r) <= length (herdr r0))%nat /\ (length (tmux r) <= length (tmux r0))%nat.
Proof.
  intros [? _ _ Hh (kept & [Hk _] & Ht) _ _ _ _ _]. split.
  - apply Forall2_length in Hh. rewrite length_take in Hh. lia.
  - apply sublist_length in Hk. apply Forall2_length in Ht. lia.
Qed.

Lemma set_herdr_head h r : herdr r <> [] -> provider_head (wr_herdr (set_herdr h r)) = provider_head (wr_herdr r).
Proof. unfold herdr, provider_sessions, provider_head. cbn. by destruct (ps_sessions (wr_herdr r)). Qed.

Lemma set_tmux_head t r : tmux r <> [] -> provider_head (wr_tmux (set_tmux t r)) = provider_head (wr_tmux r).
Proof. unfold tmux, provider_sessions, provider_head. cbn. by destruct (ps_sessions (wr_tmux r)). Qed.

Lemma set_herdr_short h r :
  short (set_herdr h r) <-> Forall (fun s => long_listing (tabs_of s) = None) h
                            /\ Forall (fun s => long_listing (tabs_of s) = None) (tmux r).
Proof. by rewrite short_iff. Qed.

Lemma set_tmux_short t r :
  short (set_tmux t r) <-> Forall (fun s => long_listing (tabs_of s) = None) (herdr r)
                           /\ Forall (fun s => long_listing (tabs_of s) = None) t.
Proof. by rewrite short_iff. Qed.

Lemma dropped_same r0 r r' :
  length (herdr r') = length (herdr r) -> length (tmux r') = length (tmux r) -> dropped r0 r' = dropped r0 r.
Proof. unfold dropped, len. by intros -> ->. Qed.

Lemma middle_length {A} (l1 : list A) x y l2 : length (l1 ++ x :: l2) = length (l1 ++ y :: l2).
Proof. by rewrite !length_app. Qed.

Lemma middle_not_nil {A} (l l1 : list A) x l2 : l = l1 ++ x :: l2 -> l <> [].
Proof. intros -> H. by apply app_eq_nil in H as [_ ?]. Qed.

Section turns.
Context (r0 r : WorkspaceSnapshotResult) (H : sheds_tabs_first r0 r).

Lemma herdr_turn h1 s h2 s' :
  herdr r = h1 ++ s :: h2 ->
  (forall l, Forall2 entry_of l (h1 ++ s :: h2) -> Forall2 entry_of l (h1 ++ s' :: h2)) ->
  (~ short (set_herdr (h1 ++ s' :: h2) r) -> ~ short r /\ listed_alike s s') ->
  has_tabs s = true ->
  sheds_tabs_first r0 (set_herdr (h1 ++ s' :: h2) r).
Proof.
  intros Hh Hrows Hlong Hs. destruct H. pose proof (middle_not_nil _ _ _ _ Hh) as Hne.
  assert (dropped r0 (set_herdr (h1 ++ s' :: h2) r) = dropped r0 r) as Hd.
  { apply dropped_same; [|done]. rewrite Hh. apply middle_length. }
  assert (any_tabs (herdr r) = true) as Hany by (rewrite Hh; by apply any_tabs_middle).
  split; rewrite ?Hd; autorewrite with snapshots; try done.
  - by rewrite set_herdr_head.
  - apply Hrows. rewrite (middle_length h1 s' s h2), <- Hh. done.
  - intros [Hl Hs']%Hlong. destruct (shortened_first0 Hl) as [Hf Ht]. split; [|done]. rewrite Hh in Hf.
    clear -Hf Hs'. revert Hf. apply Forall2_set with (f := fun _ => s').
    intros a Ha. unfold listed_alike in *. congruence.
  - intros _. by apply herdr_stripped_first0.
  - intros _. apply tabs_before_sessions0. by left.
  - intros _. by apply herdr_dropped_first0.
Qed.

Lemma tmux_turn t1 s t2 s' :
  tmux r = t1 ++ s :: t2 ->
  (forall l, Forall2 entry_of l (t1 ++ s :: t2) -> Forall2 entry_of l (t1 ++ s' :: t2)) ->
  (~ short (set_tmux (t1 ++ s' :: t2) r) -> ~ short r /\ listed_alike s s') ->
  (any_tabs (herdr r) = true -> listed_alike s s') ->
  has_tabs s = true ->
  sheds_tabs_first r0 (set_tmux (t1 ++ s' :: t2) r).
Proof.
  intros Ht Hrows Hlong Hherdr Hs. destruct H. pose proof (middle_not_nil _ _ _ _ Ht) as Hne.
  assert (dropped r0 (set_tmux (t1 ++ s' :: t2) r) = dropped r0 r) as Hd.
  { apply dropped_same; [done|]. rewrite Ht. apply middle_length. }
  assert (any_tabs (tmux r) = true) as Hany by (rewrite Ht; by apply any_tabs_middle).
  assert (listed_alike s s' -> Forall2 listed_alike (tmux r0) (tmux r) ->
    Forall2 listed_alike (tmux r0) (t1 ++ s' :: t2)) as Hset.
  { intros Hs' Hf. rewrite Ht in Hf. revert Hf. apply Forall2_set with (f := fun _ => s').
    intros a Ha. unfold listed_alike in *. congruence. }
  split; rewrite ?Hd; autorewrite with snapshots; try done.
  - by rewrite set_tmux_head.
  - destruct tmux_rows0 as (kept & Hk & Hf). exists kept. split; [done|]. apply Hrows. by rewrite <- Ht.
  - intros [Hl Hs']%Hlong. destruct (shortened_first0 Hl) as [Hf Hf']. split; [done|]. by apply Hset.
  - intros Ha. by apply Hset; [apply Hherdr|apply herdr_stripped_first0].
  - intros _. apply tabs_before_sessions0. by right.
  - intros Hn. rewrite (middle_length t1 s' s t2), <- Ht. by apply herdr_dropped_first0.
Qed.

Lemma counted_once r' :
  dropped r0 r' = dropped r0 r + 1 ->
  sat_add32 (wr_omitted_sessions r) 1
  = if dropped r0 r' =? 0 then wr_omitted_sessions r0 else sat_add32 (wr_omitted_sessions r0) (dropped r0 r').
Proof.
  intros ->. destruct H. rewrite omitted_counted0.
  rewrite (proj2 (N.eqb_neq (dropped r0 r + 1) 0)) by lia. unfold sat_add32.
  destruct (N.eqb_spec (dropped r0 r) 0) as [->|]; [by rewrite N.add_0_l|lia].
Qed.

Lemma drop_herdr_turn h s :
  short r -> any_tabs (herdr r) = false -> any_tabs (tmux r) = false -> herdr r = h ++ [s] ->
  sheds_tabs_first r0 (count_omitted (set_herdr h r)).
Proof.
  intros Hs Hh Ht Heq. pose proof (sheds_lengths _ _ H) as [Hl1 Hl2].
  assert (dropped r0 (count_omitted (set_herdr h r)) = dropped r0 r + 1) as Hd.
  { unfold dropped, len. autorewrite with snapshots. rewrite Heq, length_app in Hl1 |- *. cbn [length] in *. lia. }
  pose proof (counted_once _ Hd) as Hc. destruct H.
  assert (any_tabs h = false) as Hh'.
  { rewrite Heq in Hh. unfold any_tabs in *. rewrite existsb_app in Hh. by apply orb_false_iff in Hh as [? _]. }
  split; autorewrite with snapshots; try done.
  - change (provider_head (wr_herdr (set_herdr h r)) = provider_head (wr_herdr r0)).
    rewrite set_herdr_head; [done|]. by eapply middle_not_nil.
  - rewrite Heq, length_app in herdr_rows0. apply Forall2_app_inv_r in herdr_rows0 as (k1 & k2 & H1 & H2 & Hk).
    apply (f_equal (take (length h))) in Hk. rewrite take_take, Nat.min_l in Hk by lia.
    by rewrite Hk, <- (Forall2_length _ _ _ H1), take_app_length.
  - intros Hns. exfalso. apply Hns. apply set_herdr_short. apply short_iff in Hs as [Hs1 Hs2]. split; [|done].
    rewrite Heq in Hs1. by apply Forall_app in Hs1 as [? _].
  - intros ?. congruence.
  - intros [?|?]; congruence.
  - intros _. apply herdr_dropped_first0. by eapply middle_not_nil.
Qed.

Lemma drop_tmux_turn t1 s t2 :
  short r -> herdr r = [] -> any_tabs (tmux r) = false -> tmux r = t1 ++ s :: t2 ->
  (forall k, k ∈ tmux r -> ts_created_unix s <= ts_created_unix k) ->
  sheds_tabs_first r0 (count_omitted (set_tmux (t1 ++ t2) r)).
Proof.
  intros Hs Hh Ht Heq Hold. pose proof (sheds_lengths _ _ H) as [Hl1 Hl2].
  assert (dropped r0 (count_omitted (set_tmux (t1 ++ t2) r)) = dropped r0 r + 1) as Hd.
  { unfold dropped, len. autorewrite with snapshots. rewrite Heq in Hl2 |- *. rewrite !length_app in *. cbn [length] in *. lia. }
  pose proof (counted_once _ Hd) as Hc. destruct H.
  split; autorewrite with snapshots; try done.
  - change (provider_head (wr_tmux (set_tmux (t1 ++ t2) r)) = provider_head (wr_tmux r0)).
    rewrite set_tmux_head; [done|]. by eapply middle_not_nil.
  - destruct tmux_rows0 as (kept & [Hsub Hnew] & Hf). rewrite Heq in Hf, Hold.
    apply Forall2_app_inv_r in Hf as (k1 & k2 & H1 & H2 & ->). inversion H2 as [|c ? k3 ? Hc' H3]; subst.
    exists (k1 ++ k3). split; [|by apply Forall2_app]. split.
    { etrans; [|exact Hsub]. apply sublist_app; [done|]. by apply sublist_cons. }
    assert (forall k, k ∈ k1 ++ k3 -> ts_created_unix c <= ts_created_unix k) as Hmin.
    { assert (forall a b, entry_of a b -> ts_created_unix a = ts_created_unix b) as Hsame.
      { intros [] [] [Heq' _]. by injection Heq' as -> _. }
      rewrite (Hsame c s Hc'). intros k Hk. apply elem_of_app in Hk as [Hk|Hk];
        [pose proof H1 as Hl|pose proof H3 as Hl]; apply list_elem_of_lookup_1 in Hk as [i Hi];
        destruct (Forall2_lookup_l _ _ _ _ _ Hl Hi) as (b & Hb & Hr); rewrite (Hsame _ _ Hr); apply Hold;
        apply elem_of_app; [left|right; apply elem_of_cons; right]; by eapply list_elem_of_lookup_2. }
    intros k Hk. destruct (Hnew k Hk) as [Hin|Hle].
    + apply elem_of_app in Hin as [Hin|[->|Hin]%elem_of_cons]; [left; apply elem_of_app; by left|by right|
        left; apply elem_of_app; by right].
    + right. intros k' Hk'. apply Hle. apply elem_of_app in Hk' as [?|?]; apply elem_of_app; [by left|right; apply elem_of_cons; by right].
  - intros Hns. exfalso. apply Hns. apply set_tmux_short. apply short_iff in Hs as [Hs1 Hs2]. split; [done|].
    rewrite Heq in Hs2. apply Forall_app in Hs2 as [? [_ ?]%Forall_cons]. by apply Forall_app.
  - rewrite Hh. done.
  - rewrite Hh. intros [?|Ha]; [done|]. rewrite Heq in Ht. unfold any_tabs in *. rewrite existsb_app in Ht, Ha. cbn in Ht.
    apply orb_false_iff in Ht as [Ht1 [_ Ht2]%orb_false_iff]. by rewrite Ht1, Ht2 in Ha.
Qed.

Lemma turn_keeps r' : snapshot_turn r r' -> sheds_tabs_first r0 r'.
Proof.
  intros Hturn. destruct Hturn as [h1 s h2 Hh Hs|t1 s t2 Ht Hs|h1 s h2 Hns Hh Hs|t1 s t2 Hns Hn Ht Hs|h s|t1 s t2].
  - apply herdr_turn with (s := s); [done|intros l; by apply rows_shortened| |].
    + intros _. split; [|by apply shorten_listed]. rewrite short_iff, Hh. intros [Hf _].
      by apply long_in_middle in Hf.
    + apply long_listing_some in Hs as (l & Hl & _). unfold has_tabs. by rewrite Hl.
  - apply tmux_turn with (s := s); [done|intros l; by apply rows_shortened| | |].
    + intros _. split; [|by apply shorten_listed]. rewrite short_iff, Ht. intros [_ Hf].
      by apply long_in_middle in Hf.
    + intros _. by apply shorten_listed.
    + apply long_listing_some in Hs as (l & Hl & _). unfold has_tabs. by rewrite Hl.
  - apply herdr_turn with (s := s); [done|intros l; by apply rows_stripped| |done].
    intros Hl. exfalso. apply Hl. apply set_herdr_short. apply short_iff in Hns as [Hs1 Hs2]. split; [|done].
    rewrite Hh in Hs1. by apply short_stripped.
  - apply tmux_turn with (s := s); [done|intros l; by apply rows_stripped| |by rewrite Hn|done].
    intros Hl. exfalso. apply Hl. apply set_tmux_short. apply short_iff in Hns as [Hs1 Hs2]. split; [done|].
    rewrite Ht in Hs2. by apply short_stripped.
  - by eapply drop_herdr_turn.
  - by eapply drop_tmux_turn.
Qed.
End turns.

(** ** A valid snapshot stays valid *)

Lemma listing_valid tabs shown :
  listing_of tabs shown -> opt_each validate_session_tabs tabs = Ok tt -> opt_each validate_session_tabs shown = Ok tt.
Proof.
  destruct shown as [shown|]; [|done]. intros (all & k & -> & -> & Hne). cbn [opt_each].
  unfold validate_session_tabs. rewrite !rbind_unit_ok, !refuse_if_ok, !orb_false_iff, !each_ok.
  intros [[[H1 H2] H3] H4]. b2p. split; [|by apply Forall_take]. split_and!.
  - apply N.eqb_neq. intros H0. apply Hne; [by intros ->|]. destruct (take k all); [done|].
    rewrite len_cons in H0. lia.
  - apply N.ltb_ge. unfold len in *. rewrite length_take. lia.
  - apply N.ltb_ge. etrans; [|exact H3]. apply len_sublist.
    rewrite <- (take_drop k all) at 2. rewrite List.filter_app. by apply sublist_inserts_r.
Qed.

Lemma provider_shape_keeps {A} `{Tabbed A} (session_name : A -> string) (p p' : ProviderSnapshot A) rows :
  (forall t s, session_name (with_tabs t s) = session_name s) ->
  provider_head p' = provider_head p -> sublist rows (provider_sessions p) ->
  Forall2 entry_of rows (provider_sessions p') ->
  validate_provider_shape session_name tabs_of p = Ok tt -> validate_provider_shape session_name tabs_of p' = Ok tt.
Proof.
  intros Hname [= Hst Hve Hse] Hsub Hrows. unfold validate_provider_shape, provider_sessions in *. rewrite Hst, Hve.
  rewrite !rbind_unit_ok. intros (H1 & H2 & H3). split; [done|]. split; [done|].
  destruct (ps_sessions p') as [l'|], (ps_sessions p) as [l|]; try done.
  cbn [default id from_option] in *. destruct (ps_state p =s? _); [|done]. rewrite rbind_unit_ok, refuse_if_ok, each_ok in H3 |- *.
  destruct H3 as [Hlen Hall]. pose proof (Forall2_length _ _ _ Hrows). apply N.ltb_ge in Hlen.
  split; [apply N.ltb_ge; apply len_sublist in Hsub; unfold len in *; lia|].
  apply (Forall_sublist _ _ _ Hsub) in Hall. clear -Hname Hrows Hall. revert Hall.
  induction Hrows as [|s shown l l' [Hs Hl] Hrows IH]; [done|]. intros [Hv Hall]%Forall_cons.
  constructor; [|by apply IH]. rewrite rbind_unit_ok in Hv |- *. destruct Hv as [Hv Ht]. split; [|by eapply listing_valid].
  apply (f_equal session_name) in Hs. unfold strip in Hs. rewrite !Hname in Hs. by rewrite Hs.
Qed.

Lemma sheds_valid r0 r :
  sheds_tabs_first r0 r -> WorkspaceSnapshotResult_validate r0 = Ok tt -> WorkspaceSnapshotResult_validate r = Ok tt.
Proof.
  intros []. unfold WorkspaceSnapshotResult_validate. rewrite !rbind_unit_ok, version_kept0.
  intros (Hv & Ht & Hh). split; [done|]. destruct tmux_rows0 as (kept & [Hk _] & Hf).
  split; [exact (provider_shape_keeps ts_name _ _ kept ltac:(done) tmux_head0 Hk Hf Ht)|].
  exact (provider_shape_keeps he_name _ _ _ ltac:(done) herdr_head0 (sublist_take _ _) herdr_rows0 Hh).
Qed.

Section snapshot.
Context (decode_base64 : string -> option bytes).

(** A workspace snapshot is never lost to the size of its frame. The response sent fits the frame;
    every row is a session the host reported, with the first tabs of its listing; each session left out
    is counted; listings are shortened to a tab before one is lost, every listing goes before a session
    does, herdr's sessions go before tmux's and tmux's oldest first; nothing is shed from a response
    that fits, and a valid response stays valid. The encoder gives up only where even the snapshot
    without sessions does not fit, or the JSON encoder itself fails. *)
Theorem snapshot_sheds_tabs_first to_vec r :
  match encode_snapshot_response_bounded to_vec r with
  | Ok (encoded, shown) =>
      encode_rpc to_vec shown = Ok encoded /\ len encoded <= 4 + MAX_RPC_BODY
      /\ shown = set_result (rs_result shown) r
      /\ sheds_tabs_first (rs_result r) (rs_result shown)
      /\ (is_ok (encode_rpc to_vec r) = true -> shown = r)
      /\ (WorkspaceSnapshotResponse_validate decode_base64 r = Ok tt ->
          WorkspaceSnapshotResponse_validate decode_base64 shown = Ok tt)
  | Err e => e = FrameTooLarge ->
      exists emptied, sheds_tabs_first (rs_result r) emptied /\ herdr emptied = [] /\ tmux emptied = []
      /\ encode_rpc to_vec (set_result emptied r) = Err FrameTooLarge
  end.
Proof.
  set (R := fun r r' => r' = set_result (rs_result r') r /\ sheds_tabs_first (rs_result r) (rs_result r')).
  assert (forall r, R r r) as Hrefl by (intros []; split; [done|apply sheds_tabs_first_refl]).
  assert (forall r r', shed_response r = Some r' ->
    snapshot_turn (rs_result r) (rs_result r') /\ r' = set_result (rs_result r') r) as Hturn.
  { intros r1 r2 H. unfold shed_response in H. apply fmap_Some in H as (result & Hs & ->).
    split; [by apply shed_snapshot_turn|done]. }
  assert (forall r r' r'', R r r' -> shed_response r' = Some r'' -> R r r'') as Hstep.
  { intros r1 r2 r3 [He Ho] [Ht Hs]%Hturn. split; [by rewrite Hs, He|]. by eapply turn_keeps. }
  assert (forall r r', shed_response r = Some r' -> (snapshot_weight r' < snapshot_weight r)%nat) as Hweight
    by (intros ?? [Ht _]%Hturn; by apply snapshot_turn_weight).
  unfold encode_snapshot_response_bounded.
  pose proof (encode_bounded_outcome to_vec shed_response snapshot_weight Hweight R r Hrefl Hstep) as H.
  destruct (encode_bounded _ _ _ r) as [[encoded shown]|e].
  - destruct H as ([He Ho] & Hok & Hlen & Hwhole). split_and!; try done.
    unfold WorkspaceSnapshotResponse_validate. rewrite He. cbn [set_result rs_request_id rs_result].
    rewrite !rbind_unit_ok. intros (H1 & H2 & H3). split_and!; [done..|]. by eapply sheds_valid.
  - intros ->. destruct (H eq_refl) as (r' & [Heq Ho] & He & Hn). unfold shed_response in Hn.
    apply fmap_None, shed_snapshot_none in Hn as [Hh Ht]. exists (rs_result r'). by rewrite <- Heq.
Qed.
End snapshot.
