(* ===== verification/Protocol.v ===== *)
(** The Agent Session v1 model of [agent_protocol.rs]: the bounds, the canonical data types and
    their validation, as the daemon and the phone share them. *)
From S2P Require Import Prelude Text HostProtocol.

Local Open Scope N_scope.

(** ** Bounds *)

Definition AGENT_PROTOCOL_VERSION : N := 1.
Definition CAPABILITY_AGENT_SESSION_V1 : string := "agent.session.v1".
Definition CAPABILITY_AGENT_SESSION_MANAGED_V1 : string := "agent.session.managed.v1".
Definition CAPABILITY_AGENT_SESSION_ADOPTED_V1 : string := "agent.session.adopted.v1".
Definition MAX_AGENT_FRAME_BYTES : N := 64 * 1024.
Definition MAX_BRIDGE_FRAME_BYTES : N := 2 * 1024 * 1024.
Definition MAX_AGENT_SESSIONS : N := 64.
Definition MAX_TIMELINE_PAGE_ENTRIES : N := 64.
Definition MAX_TIMELINE_PAGE_BYTES : N := 256 * 1024.
Definition MAX_AGENT_OUTBOUND_QUEUE_BYTES : N := 1024 * 1024.
Definition MAX_PROMPT_BYTES : N := 32 * 1024.
Definition MAX_PENDING_INTERACTIONS : N := 16.
Definition MAX_QUESTIONS : N := 8.
Definition MAX_OPTIONS_PER_QUESTION : N := 16.
Definition MAX_TOOL_INPUT_PREVIEW_BYTES : N := 16 * 1024.
Definition MAX_TOOL_RESULT_PREVIEW_BYTES : N := 32 * 1024.
Definition MAX_COMMAND_RECEIPTS : N := 128.
Definition MAX_TOKEN_BYTES : N := 64.
Definition MAX_OPAQUE_ID_BYTES : N := 64.
Definition MAX_WORKSPACE_DISPLAY_BYTES : N := 256.
Definition MAX_RECENT_PROMPT_BYTES : N := 200.
Definition MAX_RESUME_COMMAND_BYTES : N := 128.
Definition MAX_MODEL_CATALOGUE_ENTRIES : N := 16.
Definition MAX_MODEL_ID_BYTES : N := 64.
Definition MAX_MODEL_DISPLAY_NAME_BYTES : N := 48.
Definition MAX_EFFORT_LEVELS_PER_MODEL : N := 8.
Definition MAX_INTERACTION_TEXT_BYTES : N := 32 * 1024.
Definition MAX_TIMELINE_TEXT_BYTES : N := 48 * 1024.
Definition MAX_RETAINED_TEXT_BYTES : N := 1024 * 1024.
Definition MAX_ENTRY_BODY_CHUNK_BYTES : N := 32 * 1024.
Definition TRUNCATION_BODY_AVAILABLE : string := "body_available".
Definition MAX_TIMELINE_ENTRIES_IN_SNAPSHOT : N := 64.
Definition MAX_WORKSPACE_LIST_ENTRIES : N := 64.
Definition MAX_WORKSPACE_LABEL_BYTES : N := 128.

(** ** Errors *)

Inductive AgentProtocolError :=
| Truncated | ZeroLength | FrameTooLarge | MalformedJson | UnsupportedVersion
| InvalidValue | UnexpectedMessage | Io (e : io_error).

#[export] Instance AgentProtocolError_eq_dec : EqDecision AgentProtocolError.
Proof. solve_decision. Defined.

Abbreviation checked := (result AgentProtocolError unit).

(** [if bad { return Err(AgentProtocolError::InvalidValue) }]. *)
Definition invalid_if (bad : bool) : checked := refuse_if bad InvalidValue.

(** [matches!(value, "a" | "b")]. *)
Definition one_of (value : string) (tokens : list string) : bool :=
  existsb (String.eqb value) tokens.

Definition opt_is (o : option string) (token : string) : bool :=
  match o with Some value => value =s? token | None => false end.

(** ** Grammars *)

Definition token_byte (b : ascii) : bool :=
  is_ascii_alphanumeric b || (nb b =? 46) || (nb b =? 95) || (nb b =? 45).

Definition valid_token (value : string) : checked :=
  invalid_if ((slen value =? 0) || (MAX_TOKEN_BYTES <? slen value)
              || negb (sall token_byte value)).

Definition valid_opaque_id (value : string) : checked :=
  invalid_if ((slen value =? 0) || (MAX_OPAQUE_ID_BYTES <? slen value)
              || negb (sall token_byte value)).

Definition valid_model_id (value : string) : checked :=
  invalid_if ((slen value =? 0) || (MAX_MODEL_ID_BYTES <? slen value)
              || negb (sall (fun b => token_byte b || (nb b =? 91) || (nb b =? 93)) value)).

Definition first_byte_is (value : string) (b : N) : bool :=
  match String.list_ascii_of_string value with x :: _ => nb x =? b | [] => false end.
Definition last_byte_is (value : string) (b : N) : bool :=
  match last (String.list_ascii_of_string value) with Some x => nb x =? b | None => false end.

Definition valid_resume_command (value : string) : checked :=
  invalid_if ((slen value =? 0) || (MAX_RESUME_COMMAND_BYTES <? slen value)
              || first_byte_is value 32 || last_byte_is value 32
              || negb (sall (fun b => token_byte b || (nb b =? 32)) value)).

Definition KNOWN_PERMISSION_MODES : list string :=
  ["default"; "acceptEdits"; "bypassPermissions"; "plan"; "dontAsk"; "auto"]%string.

Definition valid_permission_mode (mode : string) : bool := one_of mode KNOWN_PERMISSION_MODES.

Definition require_version (version : N) : checked :=
  if version =? AGENT_PROTOCOL_VERSION then Ok tt else Err UnsupportedVersion.

(** ** Vendor versions *)

Definition parse_version (text : string) : option (N * N * N) :=
  match split_on "."%char text with
  | [a; b; c] => major ← parse_u32 a; minor ← parse_u32 b; patch ← parse_u32 c; Some (major, minor, patch)
  | _ => None
  end.

Inductive VendorVersionState := Grounded | Carried | Ahead | Unsupported.

Definition VendorVersionState_admitted (s : VendorVersionState) : bool :=
  match s with Unsupported => false | _ => true end.

Definition VendorVersionState_token (s : VendorVersionState) : string :=
  match s with
  | Grounded => "grounded" | Carried => "carried" | Ahead => "ahead" | Unsupported => "unsupported"
  end%string.

Definition version_within_tested_minor (running tested : string) : bool :=
  match parse_version running, parse_version tested with
  | Some (r0, r1, r2), Some (t0, t1, t2) => (r0 =? t0) && (r1 =? t1) && (t2 <=? r2)
  | _, _ => false
  end.

Definition later_minor_of_tested_major (running tested : string) : bool :=
  match parse_version running, parse_version tested with
  | Some (r0, r1, _), Some (t0, t1, _) => (r0 =? t0) && (t1 <? r1)
  | _, _ => false
  end.

Definition classify_vendor_version (running tested : string) : VendorVersionState :=
  match parse_version running, parse_version tested with
  | Some (r0, r1, r2), Some (t0, t1, t2) =>
      if negb (r0 =? t0) then Unsupported
      else match r1 ?= t1 with
           | Lt => Unsupported
           | Eq => if t2 <=? r2 then Grounded else Unsupported
           | Gt => if 1 <=? t0 then Ahead else Unsupported
           end
  | _, _ => Unsupported
  end.

Definition version_major_matches (running tested : string) : bool :=
  match parse_version running, parse_version tested with
  | Some (r0, _, _), Some (t0, _, _) => r0 =? t0
  | _, _ => false
  end.

(** ** Observation and capabilities *)

Record Observation := mkObservation {
  ob_coverage : string;
  ob_reason_code : string;
  ob_last_authoritative_at : option N
}.

Definition Observation_validate (o : Observation) : checked :=
  valid_token (ob_coverage o) ?; valid_token (ob_reason_code o) ?; Ok tt.

Definition Observation_is_authoritative (o : Observation) : bool :=
  ob_coverage o =s? "authoritative".

Record CommandCapabilities := mkCommandCapabilities {
  cc_prompt : bool;
  cc_steer : bool;
  cc_follow_up : bool;
  cc_interrupt : bool;
  cc_permission_mode : bool;
  cc_model : bool;
  cc_effort : bool
}.

Definition CommandCapabilities_none : CommandCapabilities :=
  mkCommandCapabilities false false false false false false false.

Record AgentModelOption := mkAgentModelOption {
  mo_value : string;
  mo_display_name : string;
  mo_supports_effort : bool;
  mo_supported_effort_levels : list string
}.

Definition AgentModelOption_validate (m : AgentModelOption) : checked :=
  valid_model_id (mo_value m) ?;
  invalid_if ((slen (mo_display_name m) =? 0)
              || (MAX_MODEL_DISPLAY_NAME_BYTES <? slen (mo_display_name m))
              || (MAX_EFFORT_LEVELS_PER_MODEL <? len (mo_supported_effort_levels m))) ?;
  each valid_token (mo_supported_effort_levels m).

Definition validate_model_catalogue (models : list AgentModelOption) : checked :=
  invalid_if (MAX_MODEL_CATALOGUE_ENTRIES <? len models) ?;
  each AgentModelOption_validate models.

Record InteractionCapability := mkInteractionCapability {
  ic_enabled : bool;
  ic_max_questions : N;
  ic_max_options_per_question : N;
  ic_allows_free_text : bool
}.

Definition InteractionCapability_validate (c : InteractionCapability) : checked :=
  invalid_if ((MAX_QUESTIONS <? ic_max_questions c)
              || (MAX_OPTIONS_PER_QUESTION <? ic_max_options_per_question c)
              || (negb (ic_enabled c)
                  && (negb (ic_max_questions c =? 0)
                      || negb (ic_max_options_per_question c =? 0)
                      || ic_allows_free_text c))).

Definition InteractionCapability_disabled : InteractionCapability :=
  mkInteractionCapability false 0 0 false.

Record InteractionCapabilities := mkInteractionCapabilities {
  ic_permission : InteractionCapability;
  ic_question : InteractionCapability;
  ic_plan_decision : InteractionCapability;
  ic_review_decision : InteractionCapability;
  ic_elicitation : InteractionCapability;
  ic_generic_choice : InteractionCapability
}.

Definition InteractionCapabilities_validate (c : InteractionCapabilities) : checked :=
  each InteractionCapability_validate
    [ic_permission c; ic_question c; ic_plan_decision c; ic_review_decision c;
     ic_elicitation c; ic_generic_choice c].

Definition InteractionCapabilities_none : InteractionCapabilities :=
  mkInteractionCapabilities InteractionCapability_disabled InteractionCapability_disabled
    InteractionCapability_disabled InteractionCapability_disabled
    InteractionCapability_disabled InteractionCapability_disabled.

Definition InteractionCapabilities_any_enabled (c : InteractionCapabilities) : bool :=
  ic_enabled (ic_permission c) || ic_enabled (ic_question c) || ic_enabled (ic_plan_decision c)
  || ic_enabled (ic_review_decision c) || ic_enabled (ic_elicitation c)
  || ic_enabled (ic_generic_choice c).

Record AgentCapabilities := mkAgentCapabilities {
  ac_history : string;
  ac_commands : CommandCapabilities;
  ac_interactions : InteractionCapabilities;
  ac_pending_rehydration : string;
  ac_terminal_continuity : string
}.

Definition AgentCapabilities_validate (c : AgentCapabilities) : checked :=
  valid_token (ac_history c) ?;
  valid_token (ac_pending_rehydration c) ?;
  valid_token (ac_terminal_continuity c) ?;
  InteractionCapabilities_validate (ac_interactions c) ?;
  Ok tt.

(** ** Terminal fallback *)

Record TerminalFallback := mkTerminalFallback {
  tf_continuity : string;
  tf_route_id : option string;
  tf_availability_reason : option string;
  tf_handback_session : option string;
  tf_resume_command : option string
}.

Definition TerminalFallback_validate (f : TerminalFallback) : checked :=
  valid_token (tf_continuity f) ?;
  opt_each valid_opaque_id (tf_route_id f) ?;
  opt_each (fun session => invalid_if (negb (valid_session_name session))) (tf_handback_session f) ?;
  opt_each valid_token (tf_availability_reason f) ?;
  opt_each valid_resume_command (tf_resume_command f) ?;
  let has_route_id := is_some (tf_route_id f) in
  let has_handback := is_some (tf_handback_session f) in
  let has_resume := is_some (tf_resume_command f) in
  let value := tf_continuity f in
  invalid_if
    (if one_of value ["exact_live"; "workspace_only"]%string
        && (negb has_route_id || has_handback || has_resume) then true
     else if (value =s? "resumable_session")
             && ((has_route_id && has_handback) || negb (has_route_id || has_handback || has_resume)) then true
     else if (value =s? "unavailable") && (has_route_id || has_handback || has_resume) then true
     else if negb (one_of value ["exact_live"; "resumable_session"; "workspace_only"]%string)
             && (has_route_id || has_handback || has_resume) then true
     else false).

(** ** Turns *)

Inductive TurnState :=
| Idle
| Running (run_id activity : string)
| AwaitingInteraction (run_id : option string)
| Stopping (run_id : string)
| Completed (run_id : option string)
| Interrupted (run_id : option string)
| Failed (run_id : option string) (category : string)
| TurnUnknown (reason_code : string)
| TurnUnsupported.

#[export] Instance TurnState_eq_dec : EqDecision TurnState.
Proof. solve_decision. Defined.

Definition TurnState_validate (t : TurnState) : checked :=
  match t with
  | Running run_id activity => valid_opaque_id run_id ?; valid_token activity ?; Ok tt
  | AwaitingInteraction run_id | Completed run_id | Interrupted run_id =>
      opt_each valid_opaque_id run_id
  | Stopping run_id => valid_opaque_id run_id
  | Failed run_id category => opt_each valid_opaque_id run_id ?; valid_token category ?; Ok tt
  | TurnUnknown reason_code => valid_token reason_code
  | Idle | TurnUnsupported => Ok tt
  end.

Definition is_running (t : TurnState) : bool :=
  match t with Running _ _ => true | _ => false end.
Definition is_awaiting (t : TurnState) : bool :=
  match t with AwaitingInteraction _ => true | _ => false end.

(** [turn_from_bridge_frame]. *)
Definition turn_from_bridge_frame (state : string) (run_id activity : option string)
  : result AgentProtocolError TurnState :=
  let? turn :=
    (if state =s? "running" then
       let? r := ok_or run_id InvalidValue in
       let? a := ok_or activity InvalidValue in
       Ok (Running r a)
     else if state =s? "completed" then Ok (Completed run_id)
     else Err InvalidValue) in
  TurnState_validate turn ?; Ok turn.

(** ** Timeline entries *)

Record ToolTimelineBody := mkToolTimelineBody {
  tb_name : string;
  tb_status : string;
  tb_input_preview : option string;
  tb_result_preview : option string
}.

Definition ToolTimelineBody_validate (t : ToolTimelineBody) : checked :=
  valid_token (tb_name t) ?;
  valid_token (tb_status t) ?;
  invalid_if (is_some_and (fun v => MAX_TOOL_INPUT_PREVIEW_BYTES <? slen v) (tb_input_preview t)
              || is_some_and (fun v => MAX_TOOL_RESULT_PREVIEW_BYTES <? slen v) (tb_result_preview t)).

Inductive TimelineBody :=
| Text (text : string)
| Tool (tool : ToolTimelineBody)
| BodyUnsupported (reason_code : string)
| BodyUnknown.

Definition TimelineBody_validate_within (b : TimelineBody) (text_bytes : N) : checked :=
  match b with
  | Text text => if slen text <=? text_bytes then Ok tt else Err InvalidValue
  | Tool tool => ToolTimelineBody_validate tool
  | BodyUnsupported reason_code => valid_token reason_code
  | BodyUnknown => Ok tt
  end.

Definition TimelineBody_validate (b : TimelineBody) : checked :=
  TimelineBody_validate_within b MAX_TIMELINE_TEXT_BYTES.

Definition opt_slen (o : option string) : N := match o with Some s => slen s | None => 0 end.

Definition TimelineBody_decoded_bytes (b : TimelineBody) : N :=
  match b with
  | Text text => slen text
  | Tool tool =>
      slen (tb_name tool) + slen (tb_status tool) + opt_slen (tb_input_preview tool)
      + opt_slen (tb_result_preview tool)
  | BodyUnsupported reason_code => slen reason_code
  | BodyUnknown => 0
  end.

Record Truncation := mkTruncation {
  tr_truncated : bool;
  tr_reason_code : option string;
  tr_original_bytes : option N
}.

Definition Truncation_validate (t : Truncation) : checked :=
  opt_each valid_token (tr_reason_code t) ?;
  invalid_if (negb (Bool.eqb (tr_truncated t) (is_some (tr_reason_code t)))).

Record TimelineEntry := mkTimelineEntry {
  te_entry_id : string;
  te_entry_revision : N;
  te_sequence : N;
  te_timestamp : N;
  te_state : string;
  te_kind : string;
  te_body : TimelineBody;
  te_truncation : Truncation
}.

#[export] Instance ToolTimelineBody_eq_dec : EqDecision ToolTimelineBody.
Proof. solve_decision. Defined.
#[export] Instance TimelineBody_eq_dec : EqDecision TimelineBody.
Proof. solve_decision. Defined.
#[export] Instance Truncation_eq_dec : EqDecision Truncation.
Proof. solve_decision. Defined.
#[export] Instance TimelineEntry_eq_dec : EqDecision TimelineEntry.
Proof. solve_decision. Defined.

Definition TimelineEntry_validate (e : TimelineEntry) : checked :=
  valid_opaque_id (te_entry_id e) ?;
  invalid_if ((te_entry_revision e =? 0) || (te_sequence e =? 0) || (te_timestamp e =? 0)) ?;
  valid_token (te_state e) ?;
  valid_token (te_kind e) ?;
  TimelineBody_validate (te_body e) ?;
  Truncation_validate (te_truncation e) ?;
  if opt_is (tr_reason_code (te_truncation e)) TRUNCATION_BODY_AVAILABLE then
    match te_body e with
    | Text text =>
        let? whole := ok_or (tr_original_bytes (te_truncation e)) InvalidValue in
        invalid_if ((whole <=? slen text) || (MAX_RETAINED_TEXT_BYTES <? whole))
    | _ => Err InvalidValue
    end
  else Ok tt.

Definition TimelineEntry_decoded_bytes (e : TimelineEntry) : N :=
  slen (te_entry_id e) + slen (te_state e) + slen (te_kind e)
  + TimelineBody_decoded_bytes (te_body e).

(** ** Interactions *)

Record ResponseChoice := mkResponseChoice {
  rc_choice_id : string;
  rc_label : string;
  rc_description : option string;
  rc_scope : option string
}.

Definition empty_or_over (bound : N) (value : string) : bool :=
  (slen value =? 0) || (bound <? slen value).

Definition ResponseChoice_validate (c : ResponseChoice) : checked :=
  valid_opaque_id (rc_choice_id c) ?;
  invalid_if (empty_or_over 1024 (rc_label c)) ?;
  invalid_if (is_some_and (empty_or_over MAX_INTERACTION_TEXT_BYTES) (rc_description c)) ?;
  opt_each valid_token (rc_scope c).

Record CanonicalQuestion := mkCanonicalQuestion {
  cq_question_id : string;
  cq_prompt : string;
  cq_response_kind : string;
  cq_required : bool;
  cq_header : option string;
  cq_options : list ResponseChoice;
  cq_max_text_bytes : option N
}.

Definition CanonicalQuestion_validate (q : CanonicalQuestion) : checked :=
  valid_opaque_id (cq_question_id q) ?;
  valid_token (cq_response_kind q) ?;
  invalid_if (is_some_and (empty_or_over MAX_INTERACTION_TEXT_BYTES) (cq_header q)) ?;
  invalid_if (empty_or_over MAX_INTERACTION_TEXT_BYTES (cq_prompt q)
              || (MAX_OPTIONS_PER_QUESTION <? len (cq_options q))
              || is_some_and (fun v => (v =? 0) || (MAX_PROMPT_BYTES <? v)) (cq_max_text_bytes q)) ?;
  each ResponseChoice_validate (cq_options q).

Inductive ResponseSchema :=
| SchemaChoices (minimum maximum : N) (choices : list ResponseChoice)
| SchemaQuestions (questions : list CanonicalQuestion)
| SchemaFreeText (maximum_bytes : N)
| SchemaUnsupported
| SchemaUnknown.

Definition ResponseSchema_validate (s : ResponseSchema) : checked :=
  match s with
  | SchemaChoices minimum maximum choices =>
      invalid_if ((len choices =? 0) || (MAX_OPTIONS_PER_QUESTION <? len choices)
                  || (maximum <? minimum) || (len choices <? maximum)) ?;
      each ResponseChoice_validate choices
  | SchemaQuestions questions =>
      invalid_if ((len questions =? 0) || (MAX_QUESTIONS <? len questions)) ?;
      each CanonicalQuestion_validate questions
  | SchemaFreeText maximum_bytes =>
      invalid_if ((maximum_bytes =? 0) || (MAX_PROMPT_BYTES <? maximum_bytes))
  | SchemaUnsupported | SchemaUnknown => Ok tt
  end.

Record PendingInteraction := mkPendingInteraction {
  pi_interaction_id : string;
  pi_interaction_revision : N;
  pi_kind : string;
  pi_blocking : bool;
  pi_created_at : N;
  pi_expires_at : option N;
  pi_title : option string;
  pi_body : string;
  pi_response_schema : ResponseSchema;
  pi_terminal_fallback : TerminalFallback;
  pi_state : string
}.

Definition PendingInteraction_validate (i : PendingInteraction) : checked :=
  valid_opaque_id (pi_interaction_id i) ?;
  valid_token (pi_kind i) ?;
  valid_token (pi_state i) ?;
  invalid_if ((pi_interaction_revision i =? 0) || (pi_created_at i =? 0)
              || is_some_and (fun v => v <? pi_created_at i) (pi_expires_at i)
              || is_some_and (fun v => MAX_INTERACTION_TEXT_BYTES <? slen v) (pi_title i)
              || (MAX_INTERACTION_TEXT_BYTES <? slen (pi_body i))) ?;
  ResponseSchema_validate (pi_response_schema i) ?;
  TerminalFallback_validate (pi_terminal_fallback i) ?;
  Ok tt.

Definition is_unresolved_blocking (i : PendingInteraction) : bool :=
  pi_blocking i && one_of (pi_state i) ["pending"; "submitting"]%string.

(** ** Receipts *)

Record CommandReceipt := mkCommandReceipt {
  cr_command_id : string;
  cr_session_id : string;
  cr_process_generation : N;
  cr_snapshot_epoch : N;
  cr_state : string;
  cr_updated_at : N;
  cr_reason_code : option string;
  cr_application_evidence : option string
}.

#[export] Instance CommandReceipt_eq_dec : EqDecision CommandReceipt.
Proof. solve_decision. Defined.

Definition CommandReceipt_validate (r : CommandReceipt) : checked :=
  valid_opaque_id (cr_command_id r) ?;
  valid_opaque_id (cr_session_id r) ?;
  valid_token (cr_state r) ?;
  invalid_if ((cr_process_generation r =? 0) || (cr_snapshot_epoch r =? 0)
              || (cr_updated_at r =? 0)) ?;
  opt_each valid_token (cr_reason_code r) ?;
  opt_each valid_token (cr_application_evidence r) ?;
  invalid_if ((cr_state r =s? "applied") && is_none (cr_application_evidence r)).

(** ** Snapshots *)

Record TimelineWindow := mkTimelineWindow {
  tw_entries : list TimelineEntry;
  tw_has_older : bool;
  tw_history_boundary : option string;
  tw_oldest_sequence : option N;
  tw_newest_sequence : option N;
  tw_truncated : bool
}.

(** The loop of [TimelineWindow::validate]: every entry valid, sequences strictly increasing. *)
Fixpoint validate_window_entries (last : option N) (entries : list TimelineEntry) : checked :=
  match entries with
  | [] => Ok tt
  | entry :: entries' =>
      TimelineEntry_validate entry ?;
      invalid_if (is_some_and (fun sequence => te_sequence entry <=? sequence) last) ?;
      validate_window_entries (Some (te_sequence entry)) entries'
  end.

Definition TimelineWindow_validate (w : TimelineWindow) : checked :=
  invalid_if (MAX_TIMELINE_ENTRIES_IN_SNAPSHOT <? len (tw_entries w)) ?;
  opt_each valid_token (tw_history_boundary w) ?;
  validate_window_entries None (tw_entries w) ?;
  invalid_if (is_some_and (fun first => negb (bool_decide (tw_oldest_sequence w = Some (te_sequence first))))
                (head (tw_entries w))) ?;
  invalid_if (is_some_and (fun newest => negb (bool_decide (tw_newest_sequence w = Some (te_sequence newest))))
                (last (tw_entries w))) ?;
  invalid_if ((len (tw_entries w) =? 0)
              && (is_some (tw_oldest_sequence w) || is_some (tw_newest_sequence w))).

Record DriftNote := mkDriftNote {
  dn_state : string;
  dn_vendor_version : string;
  dn_tested : string;
  dn_gaps : N;
  dn_fix : option string
}.

Definition DriftNote_validate (d : DriftNote) : checked :=
  invalid_if (negb (one_of (dn_state d) ["ahead"; "carried"; "unsupported"]%string)) ?;
  invalid_if ((dn_state d =s? "unsupported") && is_none (dn_fix d)) ?;
  valid_token (dn_vendor_version d) ?;
  valid_token (dn_tested d) ?;
  invalid_if (4096 <? dn_gaps d) ?;
  opt_each valid_token (dn_fix d).

Record AgentAdapterMetadata := mkAgentAdapterMetadata {
  am_family : string;
  am_version : string;
  am_compatibility : string
}.

Definition AgentAdapterMetadata_validate (a : AgentAdapterMetadata) : checked :=
  valid_token (am_family a) ?; valid_token (am_version a) ?; valid_token (am_compatibility a).

Record AgentSessionSnapshot := mkAgentSessionSnapshot {
  ss_v : N;
  ss_session_id : string;
  ss_snapshot_epoch : N;
  ss_revision : N;
  ss_process_generation : N;
  ss_adapter : AgentAdapterMetadata;
  ss_topology : string;
  ss_presence : string;
  ss_stored_reason : option string;
  ss_control_owner : string;
  ss_observation : Observation;
  ss_turn : TurnState;
  ss_permission_mode : option string;
  ss_model : option string;
  ss_effort : option string;
  ss_models : option (list AgentModelOption);
  ss_drift : option DriftNote;
  ss_capabilities : AgentCapabilities;
  ss_pending_interactions : list PendingInteraction;
  ss_timeline_window : TimelineWindow;
  ss_terminal_fallback : TerminalFallback;
  ss_latest_command_receipts : list CommandReceipt
}.

#[export] Instance Observation_eq_dec : EqDecision Observation.
Proof. solve_decision. Defined.
#[export] Instance CommandCapabilities_eq_dec : EqDecision CommandCapabilities.
Proof. solve_decision. Defined.
#[export] Instance AgentModelOption_eq_dec : EqDecision AgentModelOption.
Proof. solve_decision. Defined.
#[export] Instance InteractionCapability_eq_dec : EqDecision InteractionCapability.
Proof. solve_decision. Defined.
#[export] Instance InteractionCapabilities_eq_dec : EqDecision InteractionCapabilities.
Proof. solve_decision. Defined.
#[export] Instance AgentCapabilities_eq_dec : EqDecision AgentCapabilities.
Proof. solve_decision. Defined.
#[export] Instance AgentAdapterMetadata_eq_dec : EqDecision AgentAdapterMetadata.
Proof. solve_decision. Defined.
#[export] Instance DriftNote_eq_dec : EqDecision DriftNote.
Proof. solve_decision. Defined.

(** [validate_topology_presence]. *)
Definition validate_topology_presence (topology presence : string) (stored_reason : option string)
    (turn : TurnState) (capabilities : AgentCapabilities) : checked :=
  opt_each (fun reason => valid_token reason ?; invalid_if (negb (presence =s? "stored"))) stored_reason ?;
  invalid_if ((presence =s? "stored")
    && (negb (topology =s? "managed")
        || match turn with Running _ _ | AwaitingInteraction _ | Stopping _ => true | _ => false end
        || negb (bool_decide (ac_commands capabilities = CommandCapabilities_none))
        || negb (bool_decide (ac_interactions capabilities = InteractionCapabilities_none)))) ?;
  invalid_if ((topology =s? "managed")
    && negb (ac_terminal_continuity capabilities =s? "unavailable")
    && negb ((presence =s? "stored") && opt_is stored_reason "released"
             && (ac_terminal_continuity capabilities =s? "resumable_session"))) ?;
  invalid_if ((topology =s? "adopted")
    && (negb (presence =s? "live")
        || negb (ac_terminal_continuity capabilities =s? "resumable_session"))).

(** A receipt issued under the snapshot's own identity. *)
Definition receipt_of (s : AgentSessionSnapshot) (r : CommandReceipt) : bool :=
  (cr_session_id r =s? ss_session_id s)
  && (cr_process_generation r =? ss_process_generation s)
  && (cr_snapshot_epoch r =? ss_snapshot_epoch s).

Definition AgentSessionSnapshot_validate (s : AgentSessionSnapshot) : checked :=
  require_version (ss_v s) ?;
  valid_opaque_id (ss_session_id s) ?;
  invalid_if ((ss_snapshot_epoch s =? 0) || (ss_revision s =? 0) || (ss_process_generation s =? 0)) ?;
  AgentAdapterMetadata_validate (ss_adapter s) ?;
  valid_token (ss_topology s) ?;
  valid_token (ss_presence s) ?;
  valid_token (ss_control_owner s) ?;
  Observation_validate (ss_observation s) ?;
  TurnState_validate (ss_turn s) ?;
  opt_each (fun mode => invalid_if (negb (valid_permission_mode mode))) (ss_permission_mode s) ?;
  opt_each valid_model_id (ss_model s) ?;
  opt_each valid_token (ss_effort s) ?;
  opt_each validate_model_catalogue (ss_models s) ?;
  opt_each DriftNote_validate (ss_drift s) ?;
  AgentCapabilities_validate (ss_capabilities s) ?;
  invalid_if ((MAX_PENDING_INTERACTIONS <? len (ss_pending_interactions s))
              || (MAX_COMMAND_RECEIPTS <? len (ss_latest_command_receipts s))) ?;
  each PendingInteraction_validate (ss_pending_interactions s) ?;
  each (fun receipt => CommandReceipt_validate receipt ?; invalid_if (negb (receipt_of s receipt)))
    (ss_latest_command_receipts s) ?;
  TimelineWindow_validate (ss_timeline_window s) ?;
  TerminalFallback_validate (ss_terminal_fallback s) ?;
  invalid_if (negb (ac_terminal_continuity (ss_capabilities s) =s? tf_continuity (ss_terminal_fallback s))
              || (existsb is_unresolved_blocking (ss_pending_interactions s)
                  && negb (is_awaiting (ss_turn s)))) ?;
  validate_topology_presence (ss_topology s) (ss_presence s) (ss_stored_reason s)
    (ss_turn s) (ss_capabilities s) ?;
  invalid_if ((ss_presence s =s? "stored") && negb (len (ss_pending_interactions s) =? 0)).

(** ** Deltas *)

Inductive AgentDeltaChange :=
| ChUpsertEntry (entry : TimelineEntry)
| ChObservation (observation : Observation)
| ChTurn (turn : TurnState)
| ChCapabilities (capabilities : AgentCapabilities)
| ChPermissionMode (permission_mode : string)
| ChModel (model : string)
| ChEffort (effort : string)
| ChModelCatalogue (models : list AgentModelOption)
| ChTerminalFallback (terminal_fallback : TerminalFallback)
| ChUpsertInteraction (interaction : PendingInteraction)
| ChRemoveInteraction (interaction_id resolution : string)
| ChCommandReceipt (receipt : CommandReceipt)
| ChUnknown.

Definition AgentDeltaChange_validate (c : AgentDeltaChange) : checked :=
  match c with
  | ChUpsertEntry entry => TimelineEntry_validate entry
  | ChObservation observation => Observation_validate observation
  | ChTurn turn => TurnState_validate turn
  | ChCapabilities capabilities => AgentCapabilities_validate capabilities
  | ChPermissionMode permission_mode => invalid_if (negb (valid_permission_mode permission_mode))
  | ChModel model => valid_model_id model
  | ChEffort effort => valid_token effort
  | ChModelCatalogue models => validate_model_catalogue models
  | ChTerminalFallback terminal_fallback => TerminalFallback_validate terminal_fallback
  | ChUpsertInteraction interaction => PendingInteraction_validate interaction
  | ChRemoveInteraction interaction_id resolution =>
      valid_opaque_id interaction_id ?; valid_token resolution
  | ChCommandReceipt receipt => CommandReceipt_validate receipt
  | ChUnknown => Ok tt
  end.

Record AgentSessionDelta := mkAgentSessionDelta {
  sd_v : N;
  sd_session_id : string;
  sd_snapshot_epoch : N;
  sd_process_generation : N;
  sd_base_revision : N;
  sd_revision : N;
  sd_changes : list AgentDeltaChange
}.

Definition AgentSessionDelta_validate (d : AgentSessionDelta) : checked :=
  require_version (sd_v d) ?;
  valid_opaque_id (sd_session_id d) ?;
  invalid_if ((sd_snapshot_epoch d =? 0) || (sd_process_generation d =? 0)
              || (sd_base_revision d =? 0) || (sd_revision d <=? sd_base_revision d)
              || (len (sd_changes d) =? 0) || (64 <? len (sd_changes d))) ?;
  each AgentDeltaChange_validate (sd_changes d).

(** ** Commands *)

Record QuestionAnswer := mkQuestionAnswer {
  qa_question_id : string;
  qa_choice_ids : list string;
  qa_text : option string
}.

Inductive InteractionAnswer :=
| AnswerChoices (choice_ids : list string)
| AnswerQuestions (answers : list QuestionAnswer)
| AnswerFreeText (text : string)
| AnswerUnknown.

Inductive AgentCommandKind :=
| Prompt (text : string)
| Steer (text : string)
| FollowUp (text : string)
| Interrupt
| InteractionResponse (interaction_id : string) (interaction_revision : N) (answer : InteractionAnswer)
| SetPermissionMode (mode : string)
| SetModel (model : string)
| SetEffort (effort : string)
| CommandUnknown.

Definition CommandCapabilities_permits (c : CommandCapabilities) (kind : AgentCommandKind) : bool :=
  match kind with
  | Prompt _ => cc_prompt c
  | Steer _ => cc_steer c
  | FollowUp _ => cc_follow_up c
  | Interrupt => cc_interrupt c
  | SetPermissionMode _ => cc_permission_mode c
  | SetModel _ => cc_model c
  | SetEffort _ => cc_effort c
  | InteractionResponse _ _ _ | CommandUnknown => false
  end.

Definition AgentCapabilities_permits (c : AgentCapabilities) (kind : AgentCommandKind) : bool :=
  match kind with
  | InteractionResponse _ _ _ => InteractionCapabilities_any_enabled (ac_interactions c)
  | other => CommandCapabilities_permits (ac_commands c) other
  end.

Definition validate_answer (answer : InteractionAnswer) : checked :=
  match answer with
  | AnswerChoices choice_ids =>
      invalid_if ((len choice_ids =? 0) || (MAX_OPTIONS_PER_QUESTION <? len choice_ids)) ?;
      each valid_opaque_id choice_ids
  | AnswerQuestions answers =>
      invalid_if ((len answers =? 0) || (MAX_QUESTIONS <? len answers)) ?;
      each (fun answer =>
        valid_opaque_id (qa_question_id answer) ?;
        invalid_if ((MAX_OPTIONS_PER_QUESTION <? len (qa_choice_ids answer))
                    || is_some_and (fun text => MAX_PROMPT_BYTES <? slen text) (qa_text answer)) ?;
        each valid_opaque_id (qa_choice_ids answer)) answers
  | AnswerFreeText text => invalid_if (MAX_PROMPT_BYTES <? slen text)
  | AnswerUnknown => Err InvalidValue
  end.

Definition AgentCommandKind_validate (kind : AgentCommandKind) : checked :=
  match kind with
  | Prompt text | Steer text | FollowUp text => invalid_if (empty_or_over MAX_PROMPT_BYTES text)
  | Interrupt => Ok tt
  | InteractionResponse interaction_id interaction_revision answer =>
      valid_opaque_id interaction_id ?;
      invalid_if (interaction_revision =? 0) ?;
      validate_answer answer
  | SetPermissionMode mode => invalid_if (negb (valid_permission_mode mode))
  | SetModel model => valid_model_id model
  | SetEffort effort => valid_token effort
  | CommandUnknown => Err InvalidValue
  end.

Record AgentCommand := mkAgentCommand {
  co_v : N;
  co_command_id : string;
  co_session_id : string;
  co_snapshot_epoch : N;
  co_expected_generation : N;
  co_expected_revision : option N;
  co_kind : AgentCommandKind
}.

Definition AgentCommand_validate (c : AgentCommand) : checked :=
  require_version (co_v c) ?;
  valid_opaque_id (co_command_id c) ?;
  valid_opaque_id (co_session_id c) ?;
  invalid_if ((co_snapshot_epoch c =? 0) || (co_expected_generation c =? 0)) ?;
  AgentCommandKind_validate (co_kind c).

(** ** Streams *)

Record AgentStreamOpen := mkAgentStreamOpen {
  so_v : N;
  so_message_type : string;
  so_client_instance_id : string;
  so_operation : string;
  so_capabilities : list string;
  so_session_id : option string;
  so_before_sequence : option N;
  so_page_limit : option N;
  so_workspace_id : option string;
  so_lifecycle_command_id : option string;
  so_expected_generation : option N;
  so_entry_id : option string
}.

(** Which optional parameters are present: session, before, limit, workspace, command,
    generation, entry. *)
Definition so_shape (o : AgentStreamOpen) : list bool :=
  [is_some (so_session_id o); is_some (so_before_sequence o); is_some (so_page_limit o);
   is_some (so_workspace_id o); is_some (so_lifecycle_command_id o);
   is_some (so_expected_generation o); is_some (so_entry_id o)].

Definition shape_is (o : AgentStreamOpen) (shape : list bool) : bool :=
  bool_decide (so_shape o = shape).

(** Exactly the parameters each operation requires; [None] for an operation the host does not
    know. *)
Definition valid_shape (o : AgentStreamOpen) : option bool :=
  let operation := so_operation o in
  if one_of operation ["agent.sessions.list"; "agent.workspaces.list"]%string then
    Some (shape_is o [false; false; false; false; false; false; false])
  else if one_of operation ["agent.session.snapshot"; "agent.session.subscribe"; "agent.command.submit"]%string then
    Some (shape_is o [true; false; false; false; false; false; false])
  else if operation =s? "agent.timeline.page" then
    Some (shape_is o [true; true; true; false; false; false; false]
          && match so_page_limit o with
             | Some limit => negb ((limit =? 0) || (MAX_TIMELINE_PAGE_ENTRIES <? limit))
             | None => false
             end)
  else if operation =s? "agent.timeline.entry" then
    Some (shape_is o [true; false; false; false; false; false; true])
  else if operation =s? "agent.managed.start" then
    Some (shape_is o [false; false; false; true; true; false; false])
  else if operation =s? "agent.managed.stop" then
    Some (shape_is o [true; false; false; false; true; true; false])
  else if one_of operation ["agent.managed.resume"; "agent.managed.promote";
                            "agent.managed.release"; "agent.managed.forget"]%string then
    Some (shape_is o [true; false; false; false; true; false; false])
  else if operation =s? "agent.adopted.pickup" then
    Some (shape_is o [true; false; false; false; true; false; false])
  else None.

Definition has_capability (o : AgentStreamOpen) (capability : string) : bool :=
  existsb (fun c => c =s? capability) (so_capabilities o).

Definition AgentStreamOpen_validate (o : AgentStreamOpen) : checked :=
  require_version (so_v o) ?;
  refuse_if (negb (so_message_type o =s? "agent_stream_open")) UnexpectedMessage ?;
  valid_opaque_id (so_client_instance_id o) ?;
  valid_token (so_operation o) ?;
  invalid_if ((16 <? len (so_capabilities o)) || negb (has_capability o CAPABILITY_AGENT_SESSION_V1)) ?;
  each valid_token (so_capabilities o) ?;
  let? shape_ok := ok_or (valid_shape o) UnexpectedMessage in
  invalid_if (negb shape_ok) ?;
  invalid_if (starts_with (so_operation o) "agent.managed."
              && negb (has_capability o CAPABILITY_AGENT_SESSION_MANAGED_V1)) ?;
  invalid_if (starts_with (so_operation o) "agent.adopted."
              && negb (has_capability o CAPABILITY_AGENT_SESSION_ADOPTED_V1)) ?;
  opt_each valid_opaque_id (so_session_id o) ?;
  opt_each valid_opaque_id (so_workspace_id o) ?;
  opt_each valid_opaque_id (so_lifecycle_command_id o) ?;
  opt_each valid_opaque_id (so_entry_id o) ?;
  invalid_if (bool_decide (so_expected_generation o = Some 0)).

Record AgentLimits := mkAgentLimits {
  al_max_frame_bytes : N;
  al_max_page_entries : N;
  al_max_page_bytes : N;
  al_max_prompt_bytes : N;
  al_max_outbound_queue_bytes : N
}.

Definition AgentLimits_default : AgentLimits :=
  mkAgentLimits MAX_AGENT_FRAME_BYTES MAX_TIMELINE_PAGE_ENTRIES MAX_TIMELINE_PAGE_BYTES
    MAX_PROMPT_BYTES MAX_AGENT_OUTBOUND_QUEUE_BYTES.

(** ** Directory *)

Record AgentSessionDescriptor := mkAgentSessionDescriptor {
  de_v : N;
  de_session_id : string;
  de_adapter_family : string;
  de_adapter_version : string;
  de_topology : string;
  de_presence : string;
  de_stored_reason : option string;
  de_process_generation : N;
  de_observation : Observation;
  de_turn : TurnState;
  de_capabilities : AgentCapabilities;
  de_workspace_display : string;
  de_terminal_fallback : TerminalFallback;
  de_recent_prompt : option string;
  de_managed_session_id : option string;
  de_takeover : option string;
  de_drift : option DriftNote;
  de_revision : N;
  de_updated_at : N
}.

Definition AgentSessionDescriptor_validate (d : AgentSessionDescriptor) : checked :=
  require_version (de_v d) ?;
  valid_opaque_id (de_session_id d) ?;
  valid_token (de_adapter_family d) ?;
  valid_token (de_adapter_version d) ?;
  valid_token (de_topology d) ?;
  valid_token (de_presence d) ?;
  invalid_if ((de_process_generation d =? 0) || (de_revision d =? 0) || (de_updated_at d =? 0)
              || empty_or_over MAX_WORKSPACE_DISPLAY_BYTES (de_workspace_display d)) ?;
  invalid_if (is_some_and (empty_or_over MAX_RECENT_PROMPT_BYTES) (de_recent_prompt d)) ?;
  opt_each (fun takeover => valid_token takeover ?; invalid_if (negb (de_topology d =s? "attached")))
    (de_takeover d) ?;
  opt_each DriftNote_validate (de_drift d) ?;
  Observation_validate (de_observation d) ?;
  TurnState_validate (de_turn d) ?;
  AgentCapabilities_validate (de_capabilities d) ?;
  TerminalFallback_validate (de_terminal_fallback d) ?;
  invalid_if (negb (ac_terminal_continuity (de_capabilities d) =s? tf_continuity (de_terminal_fallback d))) ?;
  validate_topology_presence (de_topology d) (de_presence d) (de_stored_reason d) (de_turn d)
    (de_capabilities d) ?;
  Ok tt.

Record AgentSessionList := mkAgentSessionList {
  sl_v : N;
  sl_message_type : string;
  sl_sessions : list AgentSessionDescriptor;
  sl_omitted_sessions : N
}.

Definition AgentSessionList_validate (l : AgentSessionList) : checked :=
  require_version (sl_v l) ?;
  invalid_if (negb (sl_message_type l =s? "agent_session_list")
              || (MAX_AGENT_SESSIONS <? len (sl_sessions l))) ?;
  each AgentSessionDescriptor_validate (sl_sessions l).

Record TimelinePage := mkTimelinePage {
  tp_v : N;
  tp_message_type : string;
  tp_session_id : string;
  tp_snapshot_epoch : N;
  tp_process_generation : N;
  tp_entries : list TimelineEntry;
  tp_has_older : bool;
  tp_next_before_sequence : option N;
  tp_aggregate_bytes : N
}.

Definition TimelinePage_validate (p : TimelinePage) : checked :=
  require_version (tp_v p) ?;
  invalid_if (negb (tp_message_type p =s? "agent_timeline_page")
              || (tp_snapshot_epoch p =? 0) || (tp_process_generation p =? 0)
              || (MAX_TIMELINE_PAGE_ENTRIES <? len (tp_entries p))
              || (MAX_TIMELINE_PAGE_BYTES <? tp_aggregate_bytes p)) ?;
  valid_opaque_id (tp_session_id p) ?;
  each TimelineEntry_validate (tp_entries p).

Record WorkspaceDescriptor := mkWorkspaceDescriptor {
  wd_workspace_id : string;
  wd_display_label : string
}.

Definition WorkspaceDescriptor_validate (w : WorkspaceDescriptor) : checked :=
  valid_opaque_id (wd_workspace_id w) ?;
  invalid_if (empty_or_over MAX_WORKSPACE_LABEL_BYTES (wd_display_label w)).

Record AgentWorkspaceList := mkAgentWorkspaceList {
  wl_v : N;
  wl_message_type : string;
  wl_workspaces : list WorkspaceDescriptor;
  wl_omitted_workspaces : N;
  wl_scan_incomplete : bool
}.

Definition AgentWorkspaceList_validate (l : AgentWorkspaceList) : checked :=
  require_version (wl_v l) ?;
  invalid_if (negb (wl_message_type l =s? "agent_workspace_list")
              || (MAX_WORKSPACE_LIST_ENTRIES <? len (wl_workspaces l))) ?;
  each WorkspaceDescriptor_validate (wl_workspaces l).

Record LifecycleOutcome := mkLifecycleOutcome {
  lo_v : N;
  lo_command_id : string;
  lo_state : string;
  lo_session_id : option string;
  lo_process_generation : option N;
  lo_reason_code : option string;
  lo_deduplicated : option bool;
  lo_resume_command : option string
}.

Definition LifecycleOutcome_validate (o : LifecycleOutcome) : checked :=
  require_version (lo_v o) ?;
  valid_opaque_id (lo_command_id o) ?;
  valid_token (lo_state o) ?;
  opt_each valid_opaque_id (lo_session_id o) ?;
  opt_each valid_token (lo_reason_code o) ?;
  opt_each valid_resume_command (lo_resume_command o) ?;
  invalid_if
    (if (lo_state o =s? "accepted") && is_some (lo_reason_code o) then true
     else if (lo_state o =s? "refused") && is_none (lo_reason_code o) then true
     else if (lo_state o =s? "refused")
             && (is_some (lo_session_id o) || is_some (lo_process_generation o)
                 || is_some (lo_resume_command o)) then true
     else negb (one_of (lo_state o) ["accepted"; "refused"]%string)).

(** ** Server frames *)

Inductive AgentServerFrame :=
| StreamAccepted (v : N) (operation : string) (server_epoch : N) (limits : AgentLimits)
| SessionList (v : N) (sessions : list AgentSessionDescriptor) (omitted_sessions : N)
| SessionSnapshot (v : N) (snapshot : AgentSessionSnapshot)
| TimelinePageFrame (v : N) (page : TimelinePage)
| TimelinePageStart (v : N) (page_id session_id : string) (snapshot_epoch process_generation
    total_entries aggregate_bytes : N) (has_older : bool) (next_before_sequence : option N)
| TimelinePageEntry (v : N) (page_id : string) (entry : TimelineEntry)
| TimelinePageEnd (v : N) (page_id : string)
| TimelineEntryStart (v : N) (session_id : string) (snapshot_epoch process_generation : N)
    (entry_id : string) (entry_revision total_bytes : N) (truncation : Truncation)
| TimelineEntryChunk (v : N) (entry_id : string) (offset : N) (text : string)
| TimelineEntryEnd (v : N) (entry_id : string)
| SessionDelta (v : N) (delta : AgentSessionDelta)
| CommandReceiptFrame (v : N) (receipt : CommandReceipt)
| ResyncRequired (v : N) (session_id reason_code : string)
| WorkspaceList (v : N) (workspaces : list WorkspaceDescriptor) (omitted_workspaces : N)
    (scan_incomplete : bool)
| LifecycleOutcomeFrame (v : N) (outcome : LifecycleOutcome)
| FrameError (v : N) (code : string)
| FrameUnknown.

(** ** Field assignment *)

Definition set_ss_snapshot_epoch (x : N) (s : AgentSessionSnapshot) : AgentSessionSnapshot :=
  mkAgentSessionSnapshot (ss_v s) (ss_session_id s) x (ss_revision s)
    (ss_process_generation s) (ss_adapter s) (ss_topology s) (ss_presence s)
    (ss_stored_reason s) (ss_control_owner s) (ss_observation s)
    (ss_turn s) (ss_permission_mode s) (ss_model s) (ss_effort s)
    (ss_models s) (ss_drift s) (ss_capabilities s) (ss_pending_interactions s)
    (ss_timeline_window s) (ss_terminal_fallback s) (ss_latest_command_receipts s).
Definition set_ss_revision (x : N) (s : AgentSessionSnapshot) : AgentSessionSnapshot :=
  mkAgentSessionSnapshot (ss_v s) (ss_session_id s) (ss_snapshot_epoch s) x
    (ss_process_generation s) (ss_adapter s) (ss_topology s) (ss_presence s)
    (ss_stored_reason s) (ss_control_owner s) (ss_observation s)
    (ss_turn s) (ss_permission_mode s) (ss_model s) (ss_effort s)
    (ss_models s) (ss_drift s) (ss_capabilities s) (ss_pending_interactions s)
    (ss_timeline_window s) (ss_terminal_fallback s) (ss_latest_command_receipts s).
Definition set_ss_adapter (x : AgentAdapterMetadata) (s : AgentSessionSnapshot) : AgentSessionSnapshot :=
  mkAgentSessionSnapshot (ss_v s) (ss_session_id s) (ss_snapshot_epoch s)
    (ss_revision s) (ss_process_generation s) x (ss_topology s) (ss_presence s)
    (ss_stored_reason s) (ss_control_owner s) (ss_observation s)
    (ss_turn s) (ss_permission_mode s) (ss_model s) (ss_effort s)
    (ss_models s) (ss_drift s) (ss_capabilities s) (ss_pending_interactions s)
    (ss_timeline_window s) (ss_terminal_fallback s) (ss_latest_command_receipts s).
Definition set_ss_topology (x : string) (s : AgentSessionSnapshot) : AgentSessionSnapshot :=
  mkAgentSessionSnapshot (ss_v s) (ss_session_id s) (ss_snapshot_epoch s)
    (ss_revision s) (ss_process_generation s) (ss_adapter s) x (ss_presence s)
    (ss_stored_reason s) (ss_control_owner s) (ss_observation s)
    (ss_turn s) (ss_permission_mode s) (ss_model s) (ss_effort s)
    (ss_models s) (ss_drift s) (ss_capabilities s) (ss_pending_interactions s)
    (ss_timeline_window s) (ss_terminal_fallback s) (ss_latest_command_receipts s).
Definition set_ss_control_owner (x : string) (s : AgentSessionSnapshot) : AgentSessionSnapshot :=
  mkAgentSessionSnapshot (ss_v s) (ss_session_id s) (ss_snapshot_epoch s)
    (ss_revision s) (ss_process_generation s) (ss_adapter s) (ss_topology s)
    (ss_presence s) (ss_stored_reason s) x (ss_observation s) (ss_turn s)
    (ss_permission_mode s) (ss_model s) (ss_effort s) (ss_models s)
    (ss_drift s) (ss_capabilities s) (ss_pending_interactions s)
    (ss_timeline_window s) (ss_terminal_fallback s) (ss_latest_command_receipts s).
Definition set_ss_observation (x : Observation) (s : AgentSessionSnapshot) : AgentSessionSnapshot :=
  mkAgentSessionSnapshot (ss_v s) (ss_session_id s) (ss_snapshot_epoch s)
    (ss_revision s) (ss_process_generation s) (ss_adapter s) (ss_topology s)
    (ss_presence s) (ss_stored_reason s) (ss_control_owner s) x (ss_turn s)
    (ss_permission_mode s) (ss_model s) (ss_effort s) (ss_models s)
    (ss_drift s) (ss_capabilities s) (ss_pending_interactions s)
    (ss_timeline_window s) (ss_terminal_fallback s) (ss_latest_command_receipts s).
Definition set_ss_turn (x : TurnState) (s : AgentSessionSnapshot) : AgentSessionSnapshot :=
  mkAgentSessionSnapshot (ss_v s) (ss_session_id s) (ss_snapshot_epoch s)
    (ss_revision s) (ss_process_generation s) (ss_adapter s) (ss_topology s)
    (ss_presence s) (ss_stored_reason s) (ss_control_owner s) (ss_observation s) x
    (ss_permission_mode s) (ss_model s) (ss_effort s) (ss_models s)
    (ss_drift s) (ss_capabilities s) (ss_pending_interactions s)
    (ss_timeline_window s) (ss_terminal_fallback s) (ss_latest_command_receipts s).
Definition set_ss_permission_mode (x : option string) (s : AgentSessionSnapshot) : AgentSessionSnapshot :=
  mkAgentSessionSnapshot (ss_v s) (ss_session_id s) (ss_snapshot_epoch s)
    (ss_revision s) (ss_process_generation s) (ss_adapter s) (ss_topology s)
    (ss_presence s) (ss_stored_reason s) (ss_control_owner s) (ss_observation s)
    (ss_turn s) x (ss_model s) (ss_effort s) (ss_models s) (ss_drift s)
    (ss_capabilities s) (ss_pending_interactions s) (ss_timeline_window s)
    (ss_terminal_fallback s) (ss_latest_command_receipts s).
Definition set_ss_model (x : option string) (s : AgentSessionSnapshot) : AgentSessionSnapshot :=
  mkAgentSessionSnapshot (ss_v s) (ss_session_id s) (ss_snapshot_epoch s)
    (ss_revision s) (ss_process_generation s) (ss_adapter s) (ss_topology s)
    (ss_presence s) (ss_stored_reason s) (ss_control_owner s) (ss_observation s)
    (ss_turn s) (ss_permission_mode s) x (ss_effort s) (ss_models s)
    (ss_drift s) (ss_capabilities s) (ss_pending_interactions s)
    (ss_timeline_window s) (ss_terminal_fallback s) (ss_latest_command_receipts s).
Definition set_ss_effort (x : option string) (s : AgentSessionSnapshot) : AgentSessionSnapshot :=
  mkAgentSessionSnapshot (ss_v s) (ss_session_id s) (ss_snapshot_epoch s)
    (ss_revision s) (ss_process_generation s) (ss_adapter s) (ss_topology s)
    (ss_presence s) (ss_stored_reason s) (ss_control_owner s) (ss_observation s)
    (ss_turn s) (ss_permission_mode s) (ss_model s) x (ss_models s)
    (ss_drift s) (ss_capabilities s) (ss_pending_interactions s)
    (ss_timeline_window s) (ss_terminal_fallback s) (ss_latest_command_receipts s).
Definition set_ss_models (x : option (list AgentModelOption)) (s : AgentSessionSnapshot) : AgentSessionSnapshot :=
  mkAgentSessionSnapshot (ss_v s) (ss_session_id s) (ss_snapshot_epoch s)
    (ss_revision s) (ss_process_generation s) (ss_adapter s) (ss_topology s)
    (ss_presence s) (ss_stored_reason s) (ss_control_owner s) (ss_observation s)
    (ss_turn s) (ss_permission_mode s) (ss_model s) (ss_effort s) x
    (ss_drift s) (ss_capabilities s) (ss_pending_interactions s)
    (ss_timeline_window s) (ss_terminal_fallback s) (ss_latest_command_receipts s).
Definition set_ss_drift (x : option DriftNote) (s : AgentSessionSnapshot) : AgentSessionSnapshot :=
  mkAgentSessionSnapshot (ss_v s) (ss_session_id s) (ss_snapshot_epoch s)
    (ss_revision s) (ss_process_generation s) (ss_adapter s) (ss_topology s)
    (ss_presence s) (ss_stored_reason s) (ss_control_owner s) (ss_observation s)
    (ss_turn s) (ss_permission_mode s) (ss_model s) (ss_effort s)
    (ss_models s) x (ss_capabilities s) (ss_pending_interactions s)
    (ss_timeline_window s) (ss_terminal_fallback s) (ss_latest_command_receipts s).
Definition set_ss_capabilities (x : AgentCapabilities) (s : AgentSessionSnapshot) : AgentSessionSnapshot :=
  mkAgentSessionSnapshot (ss_v s) (ss_session_id s) (ss_snapshot_epoch s)
    (ss_revision s) (ss_process_generation s) (ss_adapter s) (ss_topology s)
    (ss_presence s) (ss_stored_reason s) (ss_control_owner s) (ss_observation s)
    (ss_turn s) (ss_permission_mode s) (ss_model s) (ss_effort s)
    (ss_models s) (ss_drift s) x (ss_pending_interactions s) (ss_timeline_window s)
    (ss_terminal_fallback s) (ss_latest_command_receipts s).
Definition set_ss_pending_interactions (x : list PendingInteraction) (s : AgentSessionSnapshot) : AgentSessionSnapshot :=
  mkAgentSessionSnapshot (ss_v s) (ss_session_id s) (ss_snapshot_epoch s)
    (ss_revision s) (ss_process_generation s) (ss_adapter s) (ss_topology s)
    (ss_presence s) (ss_stored_reason s) (ss_control_owner s) (ss_observation s)
    (ss_turn s) (ss_permission_mode s) (ss_model s) (ss_effort s)
    (ss_models s) (ss_drift s) (ss_capabilities s) x (ss_timeline_window s)
    (ss_terminal_fallback s) (ss_latest_command_receipts s).
Definition set_ss_timeline_window (x : TimelineWindow) (s : AgentSessionSnapshot) : AgentSessionSnapshot :=
  mkAgentSessionSnapshot (ss_v s) (ss_session_id s) (ss_snapshot_epoch s)
    (ss_revision s) (ss_process_generation s) (ss_adapter s) (ss_topology s)
    (ss_presence s) (ss_stored_reason s) (ss_control_owner s) (ss_observation s)
    (ss_turn s) (ss_permission_mode s) (ss_model s) (ss_effort s)
    (ss_models s) (ss_drift s) (ss_capabilities s) (ss_pending_interactions s) x
    (ss_terminal_fallback s) (ss_latest_command_receipts s).
Definition set_ss_terminal_fallback (x : TerminalFallback) (s : AgentSessionSnapshot) : AgentSessionSnapshot :=
  mkAgentSessionSnapshot (ss_v s) (ss_session_id s) (ss_snapshot_epoch s)
    (ss_revision s) (ss_process_generation s) (ss_adapter s) (ss_topology s)
    (ss_presence s) (ss_stored_reason s) (ss_control_owner s) (ss_observation s)
    (ss_turn s) (ss_permission_mode s) (ss_model s) (ss_effort s)
    (ss_models s) (ss_drift s) (ss_capabilities s) (ss_pending_interactions s)
    (ss_timeline_window s) x (ss_latest_command_receipts s).
Definition set_ss_latest_command_receipts (x : list CommandReceipt) (s : AgentSessionSnapshot) : AgentSessionSnapshot :=
  mkAgentSessionSnapshot (ss_v s) (ss_session_id s) (ss_snapshot_epoch s)
    (ss_revision s) (ss_process_generation s) (ss_adapter s) (ss_topology s)
    (ss_presence s) (ss_stored_reason s) (ss_control_owner s) (ss_observation s)
    (ss_turn s) (ss_permission_mode s) (ss_model s) (ss_effort s)
    (ss_models s) (ss_drift s) (ss_capabilities s) (ss_pending_interactions s)
    (ss_timeline_window s) (ss_terminal_fallback s) x.
Definition set_te_sequence (x : N) (s : TimelineEntry) : TimelineEntry :=
  mkTimelineEntry (te_entry_id s) (te_entry_revision s) x (te_timestamp s)
    (te_state s) (te_kind s) (te_body s) (te_truncation s).
Definition set_te_body (x : TimelineBody) (s : TimelineEntry) : TimelineEntry :=
  mkTimelineEntry (te_entry_id s) (te_entry_revision s) (te_sequence s)
    (te_timestamp s) (te_state s) (te_kind s) x (te_truncation s).
Definition set_te_truncation (x : Truncation) (s : TimelineEntry) : TimelineEntry :=
  mkTimelineEntry (te_entry_id s) (te_entry_revision s) (te_sequence s)
    (te_timestamp s) (te_state s) (te_kind s) (te_body s) x.
Definition set_ac_history (x : string) (s : AgentCapabilities) : AgentCapabilities :=
  mkAgentCapabilities x (ac_commands s) (ac_interactions s) (ac_pending_rehydration s)
    (ac_terminal_continuity s).
Definition set_ac_commands (x : CommandCapabilities) (s : AgentCapabilities) : AgentCapabilities :=
  mkAgentCapabilities (ac_history s) x (ac_interactions s) (ac_pending_rehydration s)
    (ac_terminal_continuity s).
Definition set_ac_terminal_continuity (x : string) (s : AgentCapabilities) : AgentCapabilities :=
  mkAgentCapabilities (ac_history s) (ac_commands s) (ac_interactions s)
    (ac_pending_rehydration s) x.
Definition set_tw_entries (x : list TimelineEntry) (s : TimelineWindow) : TimelineWindow :=
  mkTimelineWindow x (tw_has_older s) (tw_history_boundary s) (tw_oldest_sequence s)
    (tw_newest_sequence s) (tw_truncated s).
Definition set_tw_history_boundary (x : option string) (s : TimelineWindow) : TimelineWindow :=
  mkTimelineWindow (tw_entries s) (tw_has_older s) x (tw_oldest_sequence s)
    (tw_newest_sequence s) (tw_truncated s).

(** ** Properties of the grammars *)

Lemma valid_opaque_id_ok value :
  valid_opaque_id value = Ok tt <->
  0 < slen value <= MAX_OPAQUE_ID_BYTES /\ sall token_byte value = true.
Proof.
  unfold valid_opaque_id, invalid_if. rewrite refuse_if_ok, !orb_false_iff, N.eqb_neq, N.ltb_ge,
    negb_false_iff. intuition lia.
Qed.

Lemma alphanumeric_token b : is_ascii_alphanumeric b = true -> token_byte b = true.
Proof. unfold token_byte. by intros ->. Qed.

Lemma sall_impl (p q : ascii -> bool) s :
  (forall b, p b = true -> q b = true) -> sall p s = true -> sall q s = true.
Proof.
  intros H. induction s; simpl; [done|]. rewrite !andb_true_iff. intros [? ?]; auto.
Qed.

(** A drawn identifier is always a valid opaque id. *)
Lemma format_u128_valid v : valid_opaque_id (format_u128 v) = Ok tt.
Proof.
  apply valid_opaque_id_ok. destruct (format_u128_shape v) as [Hl Ha].
  unfold slen. rewrite Hl. split; [by vm_compute|].
  eapply sall_impl; [apply alphanumeric_token|done].
Qed.

(** [validate_window_entries] is validity of every entry plus a strictly increasing order. *)
Lemma validate_window_entries_ok last entries :
  validate_window_entries last entries = Ok tt <->
  Forall (fun e => TimelineEntry_validate e = Ok tt) entries
  /\ StronglySorted (key_lt te_sequence) entries
  /\ (forall s, last = Some s -> Forall (fun e => s < te_sequence e) entries).
Proof.
  revert last. induction entries as [|e es IH]; intros last; cbn [validate_window_entries].
  - split; [|done]. repeat split; constructor.
  - rewrite !rbind_unit_ok, IH. unfold invalid_if. rewrite refuse_if_ok. split.
    + intros (He & Hlast & Hes & Hs & Hgt). repeat split.
      * by constructor.
      * constructor; [done|]. by apply Hgt.
      * intros s ->. simpl in Hlast. b2p. constructor; [done|].
        eapply Forall_impl; [by apply Hgt|]. simpl. lia.
    + intros ([He Hes]%Forall_cons & [Hs Hall]%StronglySorted_inv & Hgt). repeat split; try done.
      * destruct last as [s|]; [|done]. specialize (Hgt s eq_refl). apply Forall_cons in Hgt as [? _].
        simpl. by apply N.leb_gt.
      * by intros s [= <-].
Qed.
