(* ===== verification/ReleaseMeta.v ===== *)
(** Which release fixes a drift, [release_meta.rs]: what a release promises, what registrations saw of the
    vendors, and when the host asks. JSON is a parameter. *)
From S2P Require Import Prelude Text Protocol.

Local Open Scope N_scope.

Definition MAX_META_BYTES : N := 16 * 1024.
Definition POLL_FLOOR_SECS : N := 20 * 60 * 60.
Definition POLL_JITTER_SECS : N := 8 * 60 * 60.

(** Vendors by name, each with the version it is pinned to. *)
Record ReleaseMeta := mkReleaseMeta { rm_v : N; rm_host : string; rm_vendors : gmap string string }.

Record Sighting := mkSighting { si_version : string; si_drifting : bool }.

Record State := mkState {
  st_sightings : gmap string Sighting; st_fixes : gmap string string; st_meta : option ReleaseMeta; st_last_poll : N; st_jitter : N }.

Definition State_start (draw : N) : State := mkState ∅ ∅ None 0 (draw mod POLL_JITTER_SECS).

Definition covers (meta : ReleaseMeta) (vendor version : string) : bool :=
  match rm_vendors meta !! vendor with
  | Some pinned => match classify_vendor_version version pinned with Grounded => true | _ => false end
  | None => false
  end.

(** The derived order on parsed versions. *)
Definition version_gtb (a b : N * N * N) : bool :=
  let '(a0, a1, a2) := a in let '(b0, b1, b2) := b in
  (b0 <? a0) || ((a0 =? b0) && ((b1 <? a1) || ((a1 =? b1) && (b2 <? a2)))).

Definition fixed_by (meta : ReleaseMeta) (vendor : string) (s : Sighting) : option string :=
  if si_drifting s && covers meta vendor (si_version s) then Some (rm_host meta) else None.

Definition resolve_locked (s : State) : State :=
  match st_meta s with
  | None => s
  | Some meta =>
      mkState (st_sightings s) (map_imap (fixed_by meta) (st_sightings s)) (st_meta s) (st_last_poll s) (st_jitter s)
  end.

Definition drifting (version state_token tested : string) : bool :=
  let newer := match parse_version version, parse_version tested with
               | Some running, Some tested => version_gtb running tested
               | _, _ => false
               end in
  (state_token =s? "ahead") || ((state_token =s? "unsupported") && newer).

Definition sighted (vendor version state_token tested : string) (s : State) : State :=
  resolve_locked (mkState (<[vendor := mkSighting version (drifting version state_token tested)]> (st_sightings s)) (st_fixes s) (st_meta s)
                    (st_last_poll s) (st_jitter s)).

Definition fix_for (s : State) (vendor : string) : option string := st_fixes s !! vendor.

Definition apply_meta (meta : ReleaseMeta) (s : State) : State :=
  resolve_locked (mkState (st_sightings s) (st_fixes s) (Some meta) (st_last_poll s) (st_jitter s)).

Definition unanswered (s : State) : bool :=
  existsb (fun '(vendor, sighting) => si_drifting sighting && is_none (st_fixes s !! vendor)) (map_to_list (st_sightings s)).

Definition poll_due (disabled : bool) (now : N) (s : State) : bool :=
  negb disabled && unanswered s && (POLL_FLOOR_SECS + st_jitter s <=? now - st_last_poll s).

Section meta.
(** [serde_json]. *)
Context (from_slice : bytes -> option ReleaseMeta).

Definition parse_meta (file : bytes) : option ReleaseMeta :=
  if MAX_META_BYTES <? len file then None
  else
    meta ← from_slice file;
    if negb (rm_v meta =? 1) || (rm_host meta =s? "") || (64 <? slen (rm_host meta)) || is_none (parse_version (rm_host meta))
       || (16 <? N.of_nat (size (rm_vendors meta)))
    then None
    else if forallb (fun '(_, pinned) => negb (pinned =s? "") && (slen pinned <=? 64)) (map_to_list (rm_vendors meta)) then Some meta else None.

(** A file read, if it could be. *)
Definition load_cached (file : option bytes) (s : State) : State :=
  match file with
  | Some file => match parse_meta file with Some meta => apply_meta meta s | None => s end
  | None => s
  end.

(** One tick of [poll_loop]: whether it asked, and what became of the answer, [None] if the fetch failed. *)
Definition poll_tick (disabled : bool) (now : N) (fetched : option bytes) (s : State) : State * bool :=
  if poll_due disabled now s then
    (load_cached fetched (mkState (st_sightings s) (st_fixes s) (st_meta s) now (st_jitter s)), true)
  else (s, false).

Inductive meta_step : State -> State -> Prop :=
| MetaSighted vendor version state_token tested s : meta_step s (sighted vendor version state_token tested s)
| MetaCached file s : meta_step s (load_cached file s)
| MetaTick disabled now fetched s : meta_step s (poll_tick disabled now fetched s).1.

(** The fixes are those of the meta that is held, which was read from a file. *)
Record state_ok (s : State) : Prop := {
  sto_fixes vendor : st_fixes s !! vendor = (meta ← st_meta s; sighting ← st_sightings s !! vendor; fixed_by meta vendor sighting);
  sto_meta meta : st_meta s = Some meta -> exists file, parse_meta file = Some meta
}.

Lemma resolve_ok s : (st_meta s = None -> st_fixes s = ∅) -> (forall meta, st_meta s = Some meta -> exists file, parse_meta file = Some meta) ->
  state_ok (resolve_locked s).
Proof.
  intros Hnone Hm. unfold resolve_locked. destruct (st_meta s) as [meta|] eqn:Hmeta.
  - split; cbn; [intros vendor; apply map_lookup_imap|by intros m [= <-]; apply Hm].
  - split; rewrite Hmeta; [|done]. intros vendor. rewrite Hnone by done. apply lookup_empty.
Qed.

Lemma no_meta_no_fixes s : state_ok s -> st_meta s = None -> st_fixes s = ∅.
Proof. intros [Hf _] Hn. apply map_eq. intros vendor. by rewrite Hf, Hn, lookup_empty. Qed.

Lemma load_cached_ok file s : state_ok s -> state_ok (load_cached file s).
Proof.
  intros Hok. unfold load_cached. destruct file as [file|]; [|done]. destruct (parse_meta file) as [meta|] eqn:Hp; [|done].
  apply resolve_ok; cbn; [done|]. intros m [= <-]. by exists file.
Qed.

Lemma meta_steps_ok draw s : rtc meta_step (State_start draw) s -> state_ok s.
Proof.
  intros H. remember (State_start draw) as start eqn:Hs. assert (state_ok start) as Hok by (subst start; split; cbn; [intros; apply lookup_empty|done]).
  clear Hs. induction H as [|s1 s2 s3 Hstep Hsteps IH]; [done|]. apply IH. destruct Hstep as [vendor version token tested s|file s|disabled now fetched s].
  - apply resolve_ok; cbn; [by apply no_meta_no_fixes|apply Hok].
  - by apply load_cached_ok.
  - unfold poll_tick. destruct (poll_due _ _ _); cbn [fst]; [|done]. apply load_cached_ok. by destruct Hok.
Qed.

(** A promised fix is true, and all that are true are made: whatever was seen and fetched in whatever
    order, a vendor has a fix exactly when its last sighting drifts and the release last read grounds the
    version seen, and the fix is that release; the host asks only while some drift is without an answer, and
    not twice within twenty hours. *)
Theorem fixes_exact draw s :
  rtc meta_step (State_start draw) s ->
  (forall vendor release, fix_for s vendor = Some release <->
    exists meta sighting pinned file, st_meta s = Some meta /\ parse_meta file = Some meta /\ st_sightings s !! vendor = Some sighting
    /\ si_drifting sighting = true /\ rm_vendors meta !! vendor = Some pinned
    /\ classify_vendor_version (si_version sighting) pinned = Grounded /\ release = rm_host meta)
  /\ forall disabled now fetched, (poll_tick disabled now fetched s).2 = true ->
       disabled = false /\ POLL_FLOOR_SECS <= now - st_last_poll s /\ st_last_poll (poll_tick disabled now fetched s).1 = now
       /\ exists vendor sighting, st_sightings s !! vendor = Some sighting /\ si_drifting sighting = true /\ fix_for s vendor = None.
Proof.
  intros Hsteps. pose proof (meta_steps_ok _ _ Hsteps) as [Hf Hm]. split.
  - intros vendor release. unfold fix_for. rewrite Hf. split.
    + destruct (st_meta s) as [meta|]; [|done]. destruct (Hm meta eq_refl) as [file Hfile]. cbn.
      destruct (st_sightings s !! vendor) as [sighting|]; [|done]. cbn. unfold fixed_by, covers.
      destruct (si_drifting sighting) eqn:Hd; [|done]. destruct (rm_vendors meta !! vendor) as [pinned|] eqn:Hp; [|done]. cbn.
      destruct (classify_vendor_version _ _) eqn:Hc; [|done..]. intros [= <-]. by exists meta, sighting, pinned, file.
    + intros (meta & sighting & pinned & file & -> & _ & Hs & Hd & Hp & Hc & ->). cbn. rewrite Hs. cbn. unfold fixed_by, covers. by rewrite Hd, Hp, Hc.
  - intros disabled now fetched. unfold poll_tick. destruct (poll_due disabled now s) eqn:Hdue; [|done]. intros _. unfold poll_due in Hdue.
    apply andb_prop in Hdue as [[Hd Hu]%andb_prop Hfl%N.leb_le]. cbn [fst]. split_and!.
    + by apply negb_true_iff.
    + lia.
    + unfold load_cached. destruct fetched as [file|]; [|done]. by destruct (parse_meta file).
    + apply existsb_exists in Hu as ([vendor sighting] & Hin & H%andb_prop). exists vendor, sighting. destruct H as [Hdr Hnone].
      split_and!; [by apply elem_of_map_to_list, list_elem_of_In|done|]. unfold fix_for. by destruct (st_fixes s !! vendor).
Qed.

End meta.

(** What a version may be: a plus sign is read, so a release may be named so that no note can carry it. *)
Lemma signed_release_is_no_token : is_some (parse_version "+0.1.41") = true /\ is_err (valid_token "+0.1.41") = true.
Proof. by vm_compute. Qed.

(** A release that grounds 2.2.5, served to a host whose vendor runs ahead. *)
Definition shipped : ReleaseMeta := mkReleaseMeta 1 "0.1.41" {["claude" := "2.2.5"]}.

Lemma fixes_exact_witness :
  let serve (_ : bytes) := Some shipped in
  let ahead := sighted "claude" "2.2.7" "ahead" "2.1.0" (State_start 5) in
  let asked := poll_tick serve false 200000 (Some []) ahead in
  (poll_tick serve false 200000 (Some []) ahead).2 = true /\ fix_for ahead "claude" = None
  /\ fix_for asked.1 "claude" = Some "0.1.41" /\ (poll_tick serve false 900000 (Some []) asked.1).2 = false
  /\ exists meta sighting pinned file, st_meta asked.1 = Some meta /\ parse_meta serve file = Some meta
       /\ st_sightings asked.1 !! "claude" = Some sighting /\ si_drifting sighting = true /\ rm_vendors meta !! "claude" = Some pinned
       /\ classify_vendor_version (si_version sighting) pinned = Grounded /\ "0.1.41" = rm_host meta.
Proof.
  split; [by vm_compute|]. split; [by vm_compute|]. split; [by vm_compute|]. split; [by vm_compute|].
  apply (fixes_exact (fun _ => Some shipped) 5
           (poll_tick (fun _ => Some shipped) false 200000 (Some []) (sighted "claude" "2.2.7" "ahead" "2.1.0" (State_start 5))).1).
  - apply (rtc_l _ _ (sighted "claude" "2.2.7" "ahead" "2.1.0" (State_start 5))); [apply MetaSighted|]. apply rtc_once, MetaTick.
  - by vm_compute.
Defined.
