(* ===== verification/Wire.v ===== *)
(** Length-prefixed framing of [agent_protocol.rs]: encoding, the [read_exact] reader and the
    cancellation-safe [AgentFrameReader], with the properties that make every chunking of the
    byte stream equivalent. JSON itself ([serde_json]) is a parameter. *)
From S2P Require Import Prelude Text Protocol.

Local Open Scope N_scope.

(** ** Encoding and decoding one body *)

Section codec.
Context {T : Type}.
(** [serde_json::to_vec] and [serde_json::from_slice] at the frame's type. *)
Context (to_vec : T -> option bytes) (from_slice : bytes -> option T).

Definition encode_agent_frame_within (value : T) (limit : N) : result AgentProtocolError bytes :=
  let? body := ok_or (to_vec value) MalformedJson in
  refuse_if (len body =? 0) ZeroLength ?;
  refuse_if (limit <? len body) FrameTooLarge ?;
  refuse_if (u32_max <? len body) FrameTooLarge ?;
  Ok (be_bytes 4 (len body) ++ body).

Definition encode_agent_frame (value : T) : result AgentProtocolError bytes :=
  encode_agent_frame_within value MAX_AGENT_FRAME_BYTES.

Definition decode_agent_body_within (body : bytes) (limit : N) : result AgentProtocolError T :=
  refuse_if (len body =? 0) ZeroLength ?;
  refuse_if (limit <? len body) FrameTooLarge ?;
  ok_or (from_slice body) MalformedJson.

Definition decode_agent_body (body : bytes) : result AgentProtocolError T :=
  decode_agent_body_within body MAX_AGENT_FRAME_BYTES.

Definition decode_bridge_body (body : bytes) : result AgentProtocolError T :=
  decode_agent_body_within body MAX_BRIDGE_FRAME_BYTES.
End codec.

(** ** Readers *)

Record AgentFrameReader := mkAgentFrameReader {
  fr_buffered : bytes;
  fr_limit : N
}.

(** The read buffer handed to each [read]. *)
Definition READ_CHUNK : N := 8 * 1024.

Definition AgentFrameReader_within (limit : N) : AgentFrameReader := mkAgentFrameReader [] limit.
Definition AgentFrameReader_default : AgentFrameReader := AgentFrameReader_within MAX_AGENT_FRAME_BYTES.

Definition take_frame (r : AgentFrameReader)
  : AgentFrameReader * result AgentProtocolError (option bytes) :=
  if len (fr_buffered r) <? 4 then (r, Ok None)
  else
    let length := of_be_bytes (take 4 (fr_buffered r)) in
    if length =? 0 then (r, Err ZeroLength)
    else if fr_limit r <? length then (r, Err FrameTooLarge)
    else if len (fr_buffered r) <? 4 + length then (r, Ok None)
    else
      let body := take (N.to_nat length) (drop 4 (fr_buffered r)) in
      (mkAgentFrameReader (drop (N.to_nat (4 + length)) (fr_buffered r)) (fr_limit r), Ok (Some body)).

(** What polling the future of [next] comes to: a value, or still waiting when the reads that
    have happened are used up — where dropping it leaves the reader as it is. *)
Inductive polled := Ready (r : result AgentProtocolError bytes) | Pending.

Fixpoint next (r : AgentFrameReader) (reads : list read_event)
  : AgentFrameReader * list read_event * polled :=
  match take_frame r with
  | (r, Err e) => (r, reads, Ready (Err e))
  | (r, Ok (Some body)) => (r, reads, Ready (Ok body))
  | (r, Ok None) =>
      match reads with
      | [] => (r, [], Pending)
      | ReadErr UnexpectedEof :: reads => (r, reads, Ready (Err Truncated))
      | ReadErr e :: reads => (r, reads, Ready (Err (Io e)))
      | ReadBytes [] :: reads => (r, reads, Ready (Err Truncated))
      | ReadBytes chunk :: reads => next (mkAgentFrameReader (fr_buffered r ++ chunk) (fr_limit r)) reads
      end
  end.

(** [read_exact] on the bytes a stream still holds before its end. *)
Definition read_exact (stream : bytes) (n : N) : result AgentProtocolError (bytes * bytes) :=
  if len stream <? n then Err Truncated
  else Ok (take (N.to_nat n) stream, drop (N.to_nat n) stream).

Definition read_agent_frame_within (stream : bytes) (limit : N)
  : result AgentProtocolError (bytes * bytes) :=
  let? (header, stream) := read_exact stream 4 in
  let length := of_be_bytes header in
  refuse_if (length =? 0) ZeroLength ?;
  refuse_if (limit <? length) FrameTooLarge ?;
  read_exact stream length.

Definition read_agent_frame (stream : bytes) : result AgentProtocolError (bytes * bytes) :=
  read_agent_frame_within stream MAX_AGENT_FRAME_BYTES.

(** Calling [next] up to [k] times and collecting what it returns. *)
Fixpoint read_frames (k : nat) (r : AgentFrameReader) (reads : list read_event)
  : list bytes * AgentFrameReader * list read_event :=
  match k with
  | O => ([], r, reads)
  | S k =>
      match next r reads with
      | (r, reads, Ready (Ok body)) =>
          let '(bodies, r, reads) := read_frames k r reads in (body :: bodies, r, reads)
      | (r, reads, _) => ([], r, reads)
      end
  end.

(** ** Lemmas *)

Definition frame (body : bytes) : bytes := be_bytes 4 (len body) ++ body.

Definition fits (limit : N) (body : bytes) : Prop :=
  0 < len body <= limit /\ len body <= u32_max.

Lemma take_frame_limit r : fr_limit (take_frame r).1 = fr_limit r.
Proof. unfold take_frame. repeat case_match; done. Qed.

(** A complete frame at the front of the buffer is taken, whatever follows it. *)
Lemma take_frame_frame limit body rest :
  fits limit body ->
  take_frame (mkAgentFrameReader (frame body ++ rest) limit)
  = (mkAgentFrameReader rest limit, Ok (Some body)).
Proof.
  intros [[Hpos Hlim] Hu]. unfold take_frame, frame. cbn [fr_buffered fr_limit].
  assert (length (be_bytes 4 (len body)) = 4%nat) as H4 by apply be_bytes_length.
  rewrite <- app_assoc, take_app_length' by exact H4.
  rewrite of_be_bytes_be_bytes, N.mod_small by (unfold u32_max in *; simpl; lia).
  rewrite (drop_app_length' (be_bytes 4 (len body)) (body ++ rest) 4 H4).
  rewrite !len_app. replace (len (be_bytes 4 (len body))) with 4 by done.
  rewrite (proj2 (N.ltb_ge _ _)) by lia. rewrite (proj2 (N.eqb_neq _ _)) by lia.
  rewrite (proj2 (N.ltb_ge limit _)) by lia. rewrite (proj2 (N.ltb_ge _ _)) by lia.
  unfold len in *. repeat f_equal.
  - rewrite N2Nat.inj_add, Nat2N.id, <- drop_drop.
    change (N.to_nat 4) with 4%nat. rewrite drop_app_length' by exact H4. by rewrite drop_app_length.
  - rewrite Nat2N.id. apply take_app_length.
Qed.

(** A proper prefix of a frame keeps the reader waiting. *)
Lemma take_frame_partial limit body p q :
  fits limit body -> frame body = p ++ q -> q <> [] ->
  take_frame (mkAgentFrameReader p limit) = (mkAgentFrameReader p limit, Ok None).
Proof.
  intros [[Hpos Hlim] Hu] Heq Hq. unfold take_frame. cbn [fr_buffered fr_limit].
  assert (0 < len q) by (destruct q; [done|rewrite len_cons; lia]).
  assert (len p + len q = 4 + len body) as Hlen.
  { rewrite <- len_app, <- Heq. unfold frame. by rewrite len_app. }
  destruct (N.ltb_spec (len p) 4) as [|Hge]; [done|].
  assert (take 4 p = be_bytes 4 (len body)) as ->.
  { transitivity (take 4 (frame body)).
    - rewrite Heq, take_app_le; [done|]. unfold len in Hge. lia.
    - unfold frame. by rewrite take_app_length'. }
  rewrite of_be_bytes_be_bytes, N.mod_small by (unfold u32_max in *; simpl; lia).
  rewrite (proj2 (N.eqb_neq _ _)) by lia. rewrite (proj2 (N.ltb_ge limit _)) by lia.
  by rewrite (proj2 (N.ltb_lt _ _)) by lia.
Qed.

(** [next] assembles one frame from any sequence of non-empty chunks. *)
Lemma next_assembles limit body chunks buffered rest :
  fits limit body -> Forall (fun c => c <> []) chunks ->
  buffered ++ mjoin chunks = frame body ++ rest ->
  exists used left buffered',
    chunks = used ++ left /\ buffered' ++ mjoin left = rest
    /\ next (mkAgentFrameReader buffered limit) (stream_of chunks)
       = (mkAgentFrameReader buffered' limit, stream_of left, Ready (Ok body)).
Proof.
  intros Hfit. revert buffered. induction chunks as [|c chunks IH]; intros buffered Hne Heq.
  - rewrite app_nil_r in Heq. subst buffered. exists [], [], rest.
    rewrite app_nil_r. split; [done|]. split; [apply app_nil_r|]. cbn [next stream_of fmap list_fmap]. by rewrite take_frame_frame.
  - destruct (decide (length (frame body) <= length buffered)%nat) as [Hlong|Hshort].
    + assert (exists b', buffered = frame body ++ b') as [b' ->].
      { exists (drop (length (frame body)) buffered).
        rewrite <- (take_drop (length (frame body)) buffered) at 1. f_equal.
        apply (f_equal (take (length (frame body)))) in Heq.
        by rewrite take_app_le, take_app_length in Heq. }
      rewrite <- app_assoc in Heq. apply app_inv_head in Heq.
      exists [], (c :: chunks), b'. repeat split; [done|]. cbn [next stream_of fmap list_fmap].
      by rewrite take_frame_frame.
    + apply Forall_cons in Hne as [Hc Hne].
      assert (exists q, frame body = buffered ++ q /\ q <> []) as (q & Hq & Hqne).
      { exists (drop (length buffered) (frame body)). split.
        - rewrite <- (take_drop (length buffered) (frame body)) at 1. f_equal.
          apply (f_equal (take (length buffered))) in Heq.
          rewrite take_app_length, take_app_le in Heq by lia. done.
        - intros Hn. apply (f_equal length) in Hn. rewrite length_drop in Hn. cbn [length] in Hn. lia. }
      destruct (IH (buffered ++ c)) as (used & left & b' & -> & Hr & Hn); [done|by rewrite <- app_assoc|].
      exists (c :: used), left, b'. repeat split; [done|].
      cbn [next stream_of fmap list_fmap]. rewrite (take_frame_partial _ _ _ _ Hfit Hq Hqne).
      destruct c as [|x c]; [done|]. exact Hn.
Qed.

(** Dropping a pending read loses nothing: resuming with the reads that come later is the same
    as never having been interrupted. *)
Lemma next_resume r reads1 reads2 r1 :
  next r reads1 = (r1, [], Pending) -> next r (reads1 ++ reads2) = next r1 reads2.
Proof.
  revert r. induction reads1 as [|e reads1 IH]; intros r.
  - cbn [next app]. destruct (take_frame r) as [r' [[body|]|e]] eqn:Ht; try done.
    intros [= ->].
    assert (r1 = r) as ->; [|done].
    unfold take_frame in Ht. by repeat case_match; simplify_eq.
  - cbn [next app]. destruct (take_frame r) as [r' [[body|]|e']] eqn:Ht; try done.
    destruct e as [[|b c]|[]]; try done. apply IH.
Qed.

(** What a take from a buffered prefix says about reading the whole stream exactly. *)
Lemma take_frame_read limit p q :
  match take_frame (mkAgentFrameReader p limit) with
  | (r, Ok (Some body)) =>
      fr_limit r = limit /\ read_agent_frame_within (p ++ q) limit = Ok (body, fr_buffered r ++ q)
  | (_, Err e) => read_agent_frame_within (p ++ q) limit = Err e
  | (r, Ok None) =>
      r = mkAgentFrameReader p limit /\ read_agent_frame_within p limit = Err Truncated
  end.
Proof.
  unfold take_frame, read_agent_frame_within, read_exact. cbn [fr_buffered fr_limit].
  destruct (N.ltb_spec (len p) 4) as [Hlt|Hge].
  { by split. }
  assert (4 <= length p)%nat as H4 by (unfold len in Hge; lia).
  assert ((len (p ++ q) <? 4) = false) as -> by (apply N.ltb_ge; rewrite len_app; lia).
  change (N.to_nat 4) with 4%nat. rewrite (take_app_le p q 4 H4).
  cbn [rbind]. generalize (of_be_bytes (take 4 p)). intros length.
  destruct (length =? 0) eqn:H0; [done|].
  destruct (limit <? length) eqn:Hlim; [done|]. cbn [refuse_if rbind].
  assert (drop 4 (p ++ q) = drop 4 p ++ q) as -> by by apply drop_app_le.
  assert (len (drop 4 p) = len p - 4) as Hd by (unfold len; rewrite length_drop; lia).
  destruct (N.ltb_spec (len p) (4 + length)) as [Hs|Hl].
  - split; [done|]. by rewrite (proj2 (N.ltb_lt _ _)) by lia.
  - split; [done|].
    rewrite (proj2 (N.ltb_ge (len (drop 4 p ++ q)) length)) by (rewrite len_app; lia).
    cbn [fr_buffered]. rewrite N2Nat.inj_add. change (N.to_nat 4) with 4%nat.
    assert (N.to_nat length <= List.length (drop 4 p))%nat by (unfold len in *; lia).
    rewrite take_app_le, drop_app_le, drop_drop by done. done.
Qed.

(** ** Properties *)

(** C7: every chunking of the concatenated frames reads back exactly the bodies, in order, with
    nothing left over — whatever the chunk boundaries. *)
Theorem read_frames_roundtrip limit bodies chunks :
  Forall (fits limit) bodies -> Forall (fun c => c <> []) chunks ->
  mjoin chunks = mjoin (frame <$> bodies) ->
  read_frames (length bodies) (AgentFrameReader_within limit) (stream_of chunks)
  = (bodies, AgentFrameReader_within limit, []).
Proof.
  unfold AgentFrameReader_within. intros Hfit Hne Heq.
  cut (forall buffered, buffered ++ mjoin chunks = mjoin (frame <$> bodies) ->
    read_frames (length bodies) (mkAgentFrameReader buffered limit) (stream_of chunks)
    = (bodies, mkAgentFrameReader [] limit, [])); [intros H; by apply H|clear Heq].
  revert chunks Hne. induction Hfit as [|body bodies Hb Hbs IH]; intros chunks Hne buffered Heq.
  - simpl in Heq. apply app_eq_nil in Heq as [-> Hc].
    destruct Hne as [|c chunks Hcne Hne]; [done|]. by destruct c.
  - cbn [length read_frames].
    destruct (next_assembles limit body chunks buffered _ Hb Hne Heq)
      as (used & left & b' & -> & Hr & ->).
    apply Forall_app in Hne as [_ Hne]. by rewrite (IH left Hne b' Hr).
Qed.

Lemma next_agrees limit chunks buffered :
  Forall (fun c => c <> []) chunks ->
  exists r left,
    next (mkAgentFrameReader buffered limit) (stream_of chunks ++ [ReadBytes []])
    = (r, left, Ready (rmap fst (read_agent_frame_within (buffered ++ mjoin chunks) limit)))
    /\ (forall body rest, read_agent_frame_within (buffered ++ mjoin chunks) limit = Ok (body, rest) ->
        fr_buffered r ++ bytes_of left = rest).
Proof.
  intros Hne. revert buffered.
  assert (forall cs : list bytes, bytes_of (stream_of cs ++ [ReadBytes []]) = mjoin cs) as Hleft.
  { intros cs. unfold bytes_of, stream_of. rewrite fmap_app, <- list_fmap_compose, join_app.
    cbn. rewrite app_nil_r. f_equal. rewrite <- (list_fmap_id cs) at 2. by apply list_fmap_ext. }
  induction Hne as [|c chunks Hc Hne IH]; intros buffered.
  - pose proof (take_frame_read limit buffered []) as H. rewrite app_nil_r in H.
    cbn [mjoin list_join app stream_of fmap list_fmap next]. rewrite app_nil_r.
    destruct (take_frame (mkAgentFrameReader buffered limit)) as [r [[body|]|e]].
    + destruct H as [_ ->]. eexists _, _. split; [done|]. intros b rest [= <- <-]. done.
    + destruct H as [_ ->]. by eexists _, _.
    + rewrite H. by eexists _, _.
  - pose proof (take_frame_read limit buffered (mjoin (c :: chunks))) as H.
    specialize (IH (buffered ++ c)). rewrite <- app_assoc in IH.
    cbn [app stream_of fmap list_fmap next].
    destruct (take_frame (mkAgentFrameReader buffered limit)) as [r [[body|]|e]].
    + destruct H as [_ ->]. eexists _, _. split; [done|]. intros b rest [= <- <-].
      f_equal. apply (Hleft (c :: chunks)).
    + destruct H as [-> _]. cbn [fr_buffered fr_limit]. by destruct c.
    + rewrite H. by eexists _, _.
Qed.

(** A successful take empties the frame out of the buffer; otherwise fewer bytes than a header
    and a body at the bound are waiting. *)
Lemma take_frame_buffer r :
  match take_frame r with
  | (r', Ok None) => r' = r /\ len (fr_buffered r) < 4 + fr_limit r
  | (r', Ok (Some _)) => len (fr_buffered r') <= len (fr_buffered r) /\ fr_limit r' = fr_limit r
  | (r', Err _) => r' = r
  end.
Proof.
  unfold take_frame. destruct (N.ltb_spec (len (fr_buffered r)) 4); [split; [done|lia]|].
  destruct (_ =? 0); [done|]. destruct (N.ltb_spec (fr_limit r) (of_be_bytes (take 4 (fr_buffered r)))); [done|].
  destruct (N.ltb_spec (len (fr_buffered r)) (4 + of_be_bytes (take 4 (fr_buffered r)))); [split; [done|lia]|].
  cbn [fr_buffered fr_limit]. split; [|done]. unfold len. rewrite length_drop. lia.
Qed.

(** C8: reading one frame off any chunking of a stream that then ends agrees with [read_exact]
    reading on the stream itself: the same body and the same remaining bytes, and the same
    error — empty, oversized or truncated. *)
Theorem next_agrees_with_read_exact limit chunks :
  Forall (fun c => c <> []) chunks ->
  exists r left,
    next (AgentFrameReader_within limit) (stream_of chunks ++ [ReadBytes []])
    = (r, left, Ready (rmap fst (read_agent_frame_within (mjoin chunks) limit)))
    /\ (forall body rest, read_agent_frame_within (mjoin chunks) limit = Ok (body, rest) ->
        fr_buffered r ++ bytes_of left = rest).
Proof. intros Hne. exact (next_agrees limit chunks [] Hne). Qed.

(** The reader's memory is bounded whatever the peer sends: with reads of at most 8 KiB,
    a buffer that starts within a frame at the bound plus one read never grows past it. *)
Theorem next_buffer_bounded r reads r' left p :
  Forall (fun e => len (event_bytes e) <= READ_CHUNK) reads ->
  len (fr_buffered r) <= 4 + fr_limit r + READ_CHUNK ->
  next r reads = (r', left, p) ->
  fr_limit r' = fr_limit r /\ len (fr_buffered r') <= 4 + fr_limit r' + READ_CHUNK.
Proof.
  intros Hreads. revert r. induction Hreads as [|e reads He Hreads IH]; intros r Hb; cbn [next];
    pose proof (take_frame_buffer r) as Ht; destruct (take_frame r) as [r1 [[body|]|err]].
  1,4: intros [= <- <- <-]; destruct Ht as [? ->]; split; [done|lia].
  2,4: intros [= <- <- <-]; subst; done.
  - intros [= <- <- <-]. destruct Ht as [-> ?]. split; [done|lia].
  - destruct Ht as [-> Hlt].
    assert (forall res, (r, reads, res) = (r', left, p) ->
      fr_limit r' = fr_limit r /\ len (fr_buffered r') <= 4 + fr_limit r' + READ_CHUNK) as Hstop
      by (intros res [= <- <- <-]; done).
    destruct e as [[|b chunk]|[]]; try by apply Hstop.
    intros Hn. apply IH in Hn; [done|]. cbn [fr_buffered fr_limit]. rewrite len_app.
    cbn [event_bytes] in He. lia.
Qed.

(** The two ways a header is refused are decided before any of the body is waited for. *)
Theorem take_frame_refuses_early limit length rest :
  length <= u32_max -> length = 0 \/ limit < length ->
  (take_frame (mkAgentFrameReader (be_bytes 4 length ++ rest) limit)).2
  = Err (if length =? 0 then ZeroLength else FrameTooLarge).
Proof.
  intros Hu Hbad. unfold take_frame. cbn [fr_buffered fr_limit].
  rewrite len_app, (proj2 (N.ltb_ge _ _)) by (change (len (be_bytes 4 length)) with 4; lia).
  rewrite (take_app_length' (be_bytes 4 length) rest 4) by done.
  rewrite of_be_bytes_be_bytes, N.mod_small by (unfold u32_max in Hu; simpl; lia).
  destruct (N.eqb_spec length 0) as [|Hne]; [done|].
  by rewrite (proj2 (N.ltb_lt limit length)) by lia.
Qed.
