(* ===== verification/Fit.v ===== *)
(** Sizing wire entries, snapshots and bodies to one frame: [fit_entry_to_frame],
    [fit_entry_alone], [fit_snapshot_with_envelope], [entry_body_frames] and
    [bounded_session_list] of [agent_protocol.rs]. What one value encodes to is [serde_json]'s
    business and a parameter; the escape arithmetic is the source's own. *)
From S2P Require Import Prelude Text Protocol.

Local Open Scope N_scope.

(** ** One entry *)

(** What a head stands for: the retained body's size. *)
Definition fit_whole (entry : TimelineEntry) : N :=
  match te_body entry with
  | Text text =>
      if opt_is (tr_reason_code (te_truncation entry)) TRUNCATION_BODY_AVAILABLE
      then default (slen text) (tr_original_bytes (te_truncation entry))
      else slen text
  | _ => 0
  end.

(** [cut_to_head]. *)
Definition cut_to_head (wire : TimelineEntry) (whole limit : N) : TimelineEntry :=
  match te_body wire with
  | Text text =>
      let boundary := floor_boundary text (N.to_nat (N.min limit (slen text))) in
      set_te_truncation (mkTruncation true (Some TRUNCATION_BODY_AVAILABLE) (Some whole))
        (set_te_body (Text (stake boundary text)) wire)
  | _ => wire
  end.

(** The entry the loop starts from. *)
Definition fit_start (entry : TimelineEntry) : TimelineEntry :=
  let wire :=
    match te_body entry with
    | Text text =>
        if MAX_TIMELINE_TEXT_BYTES <? slen text
        then set_te_body (Text (stake (floor_char_boundary text MAX_TIMELINE_TEXT_BYTES) text)) entry
        else entry
    | _ => entry
    end in
  if MAX_TIMELINE_TEXT_BYTES <? fit_whole entry
  then cut_to_head wire (fit_whole entry) MAX_TIMELINE_TEXT_BYTES
  else wire.

Definition preview_bounded : Truncation := mkTruncation true (Some "preview_bounded") None.

(** A tool entry gives up its result preview, then its input preview. *)
Definition shed_preview (wire : TimelineEntry) (tool : ToolTimelineBody) : TimelineEntry :=
  let tool :=
    match tb_result_preview tool with
    | Some _ => mkToolTimelineBody (tb_name tool) (tb_status tool) (tb_input_preview tool) None
    | None => mkToolTimelineBody (tb_name tool) (tb_status tool) None None
    end in
  let wire := set_te_body (Tool tool) wire in
  if tr_truncated (te_truncation wire) then wire else set_te_truncation preview_bounded wire.

Section fit_entry.
Context (frame_len : TimelineEntry -> N).

(** One turn of the loop: [None] when the entry is returned as it stands. *)
Definition fit_step (whole : N) (wire : TimelineEntry) : option TimelineEntry :=
  let size := frame_len wire in
  if size <=? MAX_AGENT_FRAME_BYTES then None
  else match te_body wire with
       | Text text =>
           if slen text =? 0 then None
           else
             let envelope := size - json_string_len text in
             let keep := json_prefix_within text (MAX_AGENT_FRAME_BYTES - envelope) in
             Some (cut_to_head wire whole (N.of_nat keep))
       | Tool tool =>
           if is_some (tb_result_preview tool) || is_some (tb_input_preview tool)
           then Some (shed_preview wire tool) else None
       | _ => None
       end.

(** The loop, [None] when the fuel runs out. *)
Fixpoint fit_loop (fuel : nat) (whole : N) (wire : TimelineEntry) : option TimelineEntry :=
  match fit_step whole wire with
  | None => Some wire
  | Some wire' => match fuel with O => None | S fuel => fit_loop fuel whole wire' end
  end.

(** How many turns the loop can take at most: one per byte of text, one per preview. *)
Definition fit_fuel (wire : TimelineEntry) : nat :=
  match te_body wire with
  | Text text => String.length text
  | Tool tool => (if is_some (tb_result_preview tool) then 1 else 0)
                 + (if is_some (tb_input_preview tool) then 1 else 0)
  | _ => 0
  end%nat.

Definition fit_entry_to_frame (entry : TimelineEntry) : TimelineEntry :=
  let wire := fit_start entry in
  default wire (fit_loop (fit_fuel wire) (fit_whole entry) wire).
End fit_entry.

Section encoded.
(** [encoded_frame_len] at [AgentServerFrame]: what [serde_json] writes. *)
Context (encoded_frame_len : AgentServerFrame -> N).

Definition ENVELOPE_SLACK : N := 4 * 1024.

Definition alone_frame (candidate : TimelineEntry) : AgentServerFrame :=
  SessionDelta AGENT_PROTOCOL_VERSION
    (mkAgentSessionDelta AGENT_PROTOCOL_VERSION
       (sconcat (replicate (N.to_nat MAX_OPAQUE_ID_BYTES) "s"%string))
       u64_max u64_max u64_max u64_max [ChUpsertEntry candidate]).

(** [usize::saturating_mul(6)], within 64 bits. *)
Definition fit_entry_alone (entry : TimelineEntry) : TimelineEntry :=
  if N.min (TimelineEntry_decoded_bytes entry * 6) u64_max + ENVELOPE_SLACK <=? MAX_AGENT_FRAME_BYTES
  then entry
  else fit_entry_to_frame (fun candidate => encoded_frame_len (alone_frame candidate)) entry.

(** The loop of [fit_snapshot_with_envelope] over the window's entries. *)
Fixpoint fit_window (frame_len : AgentSessionSnapshot -> N) (entries : list TimelineEntry)
    (snapshot : AgentSessionSnapshot) : AgentSessionSnapshot :=
  if frame_len snapshot <=? MAX_AGENT_FRAME_BYTES then snapshot
  else
    let window := ss_timeline_window snapshot in
    match entries with
    | [] => snapshot
    | [newest] =>
        let fitted := fit_entry_to_frame (fun candidate =>
          frame_len (set_ss_timeline_window (set_tw_entries [candidate] window) snapshot)) newest in
        set_ss_timeline_window (set_tw_entries [fitted] window) snapshot
    | _ :: entries' =>
        fit_window frame_len entries'
          (set_ss_timeline_window
             (mkTimelineWindow entries' true (tw_history_boundary window)
                (te_sequence <$> head entries') (tw_newest_sequence window) true) snapshot)
    end.

Definition fit_snapshot_with_envelope (snapshot : AgentSessionSnapshot)
    (frame_len : AgentSessionSnapshot -> N) : AgentSessionSnapshot :=
  let window := ss_timeline_window snapshot in
  let entries := fit_entry_alone <$> tw_entries window in
  fit_window frame_len entries (set_ss_timeline_window (set_tw_entries entries window) snapshot).

Definition fit_snapshot_to_frame (snapshot : AgentSessionSnapshot) : AgentSessionSnapshot :=
  fit_snapshot_with_envelope snapshot
    (fun snapshot => encoded_frame_len (SessionSnapshot AGENT_PROTOCOL_VERSION snapshot)).

(** ** A retained body *)

Definition as_u32 (n : N) : N := if n <=? u32_max then n else u32_max.

Definition chunk_frame (entry_id body : string) (offset end_ : nat) : AgentServerFrame :=
  TimelineEntryChunk AGENT_PROTOCOL_VERSION entry_id (as_u32 (N.of_nat offset))
    (stake (end_ - offset) (sdrop offset body)).

(** The inner loop: shorten [end_] until the chunk's frame fits or one character is left. *)
Fixpoint chunk_loop (fuel : nat) (entry_id body : string) (offset one_character end_ : nat)
  : option nat :=
  let end_ := Nat.max (floor_boundary body end_) one_character in
  let size := encoded_frame_len (chunk_frame entry_id body offset end_) in
  if (size <=? MAX_AGENT_FRAME_BYTES) || (end_ =? one_character)%nat then Some end_
  else
    let chunk := stake (end_ - offset) (sdrop offset body) in
    let envelope := size - json_string_len chunk in
    match fuel with
    | O => None
    | S fuel =>
        chunk_loop fuel entry_id body offset one_character
          (offset + json_prefix_within chunk (MAX_AGENT_FRAME_BYTES - envelope))
    end.

Definition one_character_end (body : string) (offset : nat) : nat :=
  offset + match chars (sdrop offset body) with c :: _ => String.length c | [] => 1 end.

Definition chunk_end (entry_id body : string) (offset : nat) : nat :=
  let one_character := one_character_end body offset in
  let end_ := Nat.min (offset + N.to_nat MAX_ENTRY_BODY_CHUNK_BYTES) (String.length body) in
  default one_character (chunk_loop end_ entry_id body offset one_character end_).

(** The outer loop, from [offset] to the end of the body. *)
Fixpoint body_chunks (fuel : nat) (entry_id body : string) (offset : nat) : list AgentServerFrame :=
  if (offset <? String.length body)%nat then
    match fuel with
    | O => []
    | S fuel =>
        let end_ := chunk_end entry_id body offset in
        chunk_frame entry_id body offset end_ :: body_chunks fuel entry_id body end_
    end
  else [].

Definition entry_body_frames (session_id : string) (snapshot_epoch process_generation : N)
    (entry_id : string) (entry_revision : N) (truncation : Truncation) (body : string)
  : list AgentServerFrame :=
  TimelineEntryStart AGENT_PROTOCOL_VERSION session_id snapshot_epoch process_generation
    entry_id entry_revision (as_u32 (slen body)) truncation
  :: body_chunks (String.length body) entry_id body 0
  ++ [TimelineEntryEnd AGENT_PROTOCOL_VERSION entry_id].

(** ** The session list *)

(** [sort_by_key(|d| Reverse(d.updated_at))], stable. *)
Fixpoint insert_newest (d : AgentSessionDescriptor) (l : list AgentSessionDescriptor) :=
  match l with
  | [] => [d]
  | e :: l' => if de_updated_at e <=? de_updated_at d then d :: e :: l' else e :: insert_newest d l'
  end.
Definition sort_newest (l : list AgentSessionDescriptor) : list AgentSessionDescriptor :=
  foldr insert_newest [] l.

Definition list_frame (descriptors : list AgentSessionDescriptor) (omitted : N) : AgentServerFrame :=
  SessionList AGENT_PROTOCOL_VERSION descriptors omitted.

(** The popping loop, on the descriptors oldest first. *)
Fixpoint pop_until_fits (oldest_first : list AgentSessionDescriptor) (omitted : N)
  : list AgentSessionDescriptor * N :=
  if encoded_frame_len (list_frame (reverse oldest_first) omitted) <=? MAX_AGENT_FRAME_BYTES
  then (reverse oldest_first, omitted)
  else match oldest_first with
       | [] => ([], omitted)
       | _ :: oldest_first => pop_until_fits oldest_first (sat_add32 omitted 1)
       end.

Definition bounded_session_list (descriptors : list AgentSessionDescriptor) (already_omitted : N)
  : AgentSessionList :=
  let descriptors := sort_newest descriptors in
  let omitted := sat_add32 already_omitted ((len descriptors - MAX_AGENT_SESSIONS) mod (u32_max + 1)) in
  let descriptors := take (N.to_nat MAX_AGENT_SESSIONS) descriptors in
  let '(sessions, omitted) := pop_until_fits (reverse descriptors) omitted in
  mkAgentSessionList AGENT_PROTOCOL_VERSION "agent_session_list" sessions omitted.
End encoded.

(** ** Lemmas on the loop *)

Definition shed_tool (tool : ToolTimelineBody) : ToolTimelineBody :=
  match tb_result_preview tool with
  | Some _ => mkToolTimelineBody (tb_name tool) (tb_status tool) (tb_input_preview tool) None
  | None => mkToolTimelineBody (tb_name tool) (tb_status tool) None None
  end.

Lemma shed_preview_eq wire tool :
  shed_preview wire tool
  = set_te_truncation (if tr_truncated (te_truncation wire) then te_truncation wire else preview_bounded)
      (set_te_body (Tool (shed_tool tool)) wire).
Proof. unfold shed_preview, shed_tool. destruct wire; cbn. by destruct (tr_truncated _). Qed.

Section fit_facts.
Context (frame_len : TimelineEntry -> N).

(** A cut in the loop keeps a boundary prefix, strictly shorter than the text. *)
Lemma fit_step_text whole wire text wire' :
  te_body wire = Text text -> fit_step frame_len whole wire = Some wire' ->
  exists k, is_char_boundary text k = true /\ (k < String.length text)%nat
    /\ k = json_prefix_within text
             (MAX_AGENT_FRAME_BYTES - (frame_len wire - json_string_len text))
    /\ wire' = set_te_truncation (mkTruncation true (Some TRUNCATION_BODY_AVAILABLE) (Some whole))
                 (set_te_body (Text (stake k text)) wire).
Proof.
  intros Hb. unfold fit_step. destruct (N.leb_spec (frame_len wire) MAX_AGENT_FRAME_BYTES) as [|Hbig]; [done|].
  rewrite Hb. destruct (N.eqb_spec (slen text) 0) as [|Hne]; [done|]. intros [= <-].
  set (budget := MAX_AGENT_FRAME_BYTES - _).
  destruct (json_prefix_within_spec text budget) as (Hk & _).
  exists (json_prefix_within text budget). split; [done|]. split; [|split; [done|]].
  - apply json_prefix_within_lt.
    assert (0 < json_string_len text) by (apply json_string_len_pos; intros ->; done).
    unfold budget. lia.
  - unfold cut_to_head. rewrite Hb. by rewrite floor_min_boundary.
Qed.

Lemma fit_step_decreases whole wire wire' :
  fit_step frame_len whole wire = Some wire' -> (fit_fuel wire' < fit_fuel wire)%nat.
Proof.
  intros H. destruct (te_body wire) as [text|tool| |] eqn:Hb.
  - destruct (fit_step_text _ _ _ _ Hb H) as (k & Hk & Hlt & _ & ->).
    unfold fit_fuel. rewrite Hb. cbn. rewrite stake_length. lia.
  - unfold fit_step in H. case_match; [done|]. rewrite Hb in H. rewrite shed_preview_eq in H.
    unfold fit_fuel. rewrite Hb. unfold shed_tool in H.
    destruct (tb_result_preview tool) eqn:Hr, (tb_input_preview tool) eqn:Hi; simpl in H; simplify_eq;
      cbn; rewrite ?Hi; cbn; lia.
  - unfold fit_step in H. rewrite Hb in H. by case_match.
  - unfold fit_step in H. rewrite Hb in H. by case_match.
Qed.

Lemma fit_loop_total fuel whole wire :
  (fit_fuel wire <= fuel)%nat -> exists r, fit_loop frame_len fuel whole wire = Some r.
Proof.
  revert wire. induction fuel as [|fuel IH]; intros wire Hle; cbn [fit_loop];
    destruct (fit_step frame_len whole wire) as [wire'|] eqn:Hs; eauto;
    apply fit_step_decreases in Hs; [lia|]. apply IH. lia.
Qed.

Lemma fit_loop_mono fuel fuel' whole wire r :
  fit_loop frame_len fuel whole wire = Some r -> (fuel <= fuel')%nat ->
  fit_loop frame_len fuel' whole wire = Some r.
Proof.
  revert fuel' wire. induction fuel as [|fuel IH]; intros fuel' wire; destruct fuel' as [|fuel'];
    cbn [fit_loop]; destruct (fit_step frame_len whole wire) as [wire'|]; try done; try lia.
  intros H Hle. apply IH; [done|lia].
Qed.

Lemma fit_loop_inv (P : TimelineEntry -> Prop) fuel whole wire r :
  (forall w w', P w -> fit_step frame_len whole w = Some w' -> P w') ->
  P wire -> fit_loop frame_len fuel whole wire = Some r ->
  P r /\ fit_step frame_len whole r = None.
Proof.
  intros Hstep. revert wire. induction fuel as [|fuel IH]; intros wire HP; cbn [fit_loop];
    destruct (fit_step frame_len whole wire) as [wire'|] eqn:Hs; try done.
  - by intros [= <-].
  - apply IH. by eapply Hstep.
  - by intros [= <-].
Qed.

(** The result satisfies every invariant of the loop and is a point where the loop stops. *)
Lemma fit_entry_ind (P : TimelineEntry -> Prop) entry :
  P (fit_start entry) ->
  (forall w w', P w -> fit_step frame_len (fit_whole entry) w = Some w' -> P w') ->
  P (fit_entry_to_frame frame_len entry)
  /\ fit_step frame_len (fit_whole entry) (fit_entry_to_frame frame_len entry) = None.
Proof.
  intros H0 Hstep. unfold fit_entry_to_frame.
  destruct (fit_loop_total (fit_fuel (fit_start entry)) (fit_whole entry) (fit_start entry)) as [r Hr]; [done|].
  rewrite Hr. cbn [default]. by eapply fit_loop_inv.
Qed.
End fit_facts.

(** How a wire entry relates to the entry it was sized from. *)
Definition same_row (entry wire : TimelineEntry) : Prop :=
  te_entry_id wire = te_entry_id entry /\ te_entry_revision wire = te_entry_revision entry
  /\ te_sequence wire = te_sequence entry /\ te_timestamp wire = te_timestamp entry
  /\ te_state wire = te_state entry /\ te_kind wire = te_kind entry.

Definition head_of (whole : N) : Truncation :=
  mkTruncation true (Some TRUNCATION_BODY_AVAILABLE) (Some whole).

Definition preview_kept (before after : option string) : Prop := after = None \/ after = before.

Definition wire_body (entry wire : TimelineEntry) : Prop :=
  match te_body entry with
  | Text text =>
      exists i, is_char_boundary text i = true /\ te_body wire = Text (stake i text)
        /\ N.of_nat i <= MAX_TIMELINE_TEXT_BYTES
        /\ ((te_truncation wire = te_truncation entry /\ stake i text = text
             /\ fit_whole entry <= MAX_TIMELINE_TEXT_BYTES)
            \/ (te_truncation wire = head_of (fit_whole entry)
                /\ N.of_nat i < fit_whole entry))
  | Tool tool =>
      exists tool', te_body wire = Tool tool' /\ tb_name tool' = tb_name tool
        /\ tb_status tool' = tb_status tool
        /\ preview_kept (tb_input_preview tool) (tb_input_preview tool')
        /\ preview_kept (tb_result_preview tool) (tb_result_preview tool')
        /\ ((te_truncation wire = te_truncation entry /\ (tool' = tool \/ tr_truncated (te_truncation entry) = true))
            \/ (te_truncation wire = preview_bounded /\ tr_truncated (te_truncation entry) = false))
  | body => te_body wire = body /\ te_truncation wire = te_truncation entry
  end.

Definition wire_of (entry wire : TimelineEntry) : Prop := same_row entry wire /\ wire_body entry wire.

(** A head names at least the text it carries, as every entry the host makes does. *)
Definition honest_head (entry : TimelineEntry) : Prop :=
  forall text, te_body entry = Text text -> slen text <= fit_whole entry.

Lemma honest_retained entry :
  opt_is (tr_reason_code (te_truncation entry)) TRUNCATION_BODY_AVAILABLE = false -> honest_head entry.
Proof. intros H text Hb. unfold fit_whole. by rewrite Hb, H. Qed.

Lemma fit_start_wire entry : honest_head entry -> wire_of entry (fit_start entry).
Proof.
  intros Hh. unfold fit_start. destruct (te_body entry) as [text|tool| |] eqn:Hb.
  2-4: unfold fit_whole; rewrite Hb; cbn; split; [done|]; unfold wire_body; rewrite ?Hb; try done.
  2: { eexists. unfold preview_kept. naive_solver. }
  specialize (Hh text Hb).
  set (wire := if _ <? slen text then _ else _).
  assert (exists i, is_char_boundary text i = true /\ te_body wire = Text (stake i text)
    /\ N.of_nat i <= N.min (slen text) MAX_TIMELINE_TEXT_BYTES /\ te_truncation wire = te_truncation entry
    /\ same_row entry wire /\ (slen text <= MAX_TIMELINE_TEXT_BYTES -> stake i text = text))
    as (i & Hi & Hw & Hle & Ht & Hrow & Hall).
  { unfold wire. destruct (N.ltb_spec MAX_TIMELINE_TEXT_BYTES (slen text)) as [Hlt|Hge].
    - exists (floor_char_boundary text MAX_TIMELINE_TEXT_BYTES).
      pose proof (floor_char_boundary_le text MAX_TIMELINE_TEXT_BYTES).
      repeat split; auto with ciao; lia.
    - exists (String.length text). rewrite stake_all by done. unfold slen in *.
      repeat split; auto with ciao; lia. }
  destruct (N.ltb_spec MAX_TIMELINE_TEXT_BYTES (fit_whole entry)) as [Hbig|Hsmall].
  - unfold cut_to_head. rewrite Hw.
    assert (floor_boundary (stake i text) (N.to_nat (N.min MAX_TIMELINE_TEXT_BYTES (slen (stake i text)))) = i) as ->.
    { unfold slen in *. rewrite stake_length, N.min_r by lia. rewrite Nat2N.id, Nat.min_l by lia.
      apply floor_boundary_fix. apply boundary_stake; [done|lia]. }
    split; [destruct Hrow as (?&?&?&?&?&?); repeat split; done|].
    unfold wire_body. rewrite Hb. exists i. cbn. rewrite stake_stake by lia.
    repeat split; [done|lia|]. right. split; [done|lia].
  - split; [done|]. unfold wire_body. rewrite Hb. exists i. repeat split; [done|done|lia|].
    left. repeat split; [done| |done]. apply Hall. lia.
Qed.

Lemma fit_step_wire frame_len entry wire wire' :
  honest_head entry -> wire_of entry wire ->
  fit_step frame_len (fit_whole entry) wire = Some wire' -> wire_of entry wire'.
Proof.
  intros Hh [Hrow Hw] Hstep. unfold wire_body in Hw.
  destruct (te_body entry) as [text|tool| |] eqn:Hb.
  - destruct Hw as (i & Hi & Hwb & Hle & Hcase).
    destruct (fit_step_text _ _ _ _ _ Hwb Hstep) as (k & Hk & Hlt & _ & ->).
    destruct (boundary_unstake _ _ _ Hi Hk) as [Hk' Hki].
    split; [destruct Hrow as (?&?&?&?&?&?); repeat split; done|].
    unfold wire_body. rewrite Hb. exists k. cbn. rewrite stake_stake by done.
    repeat split; [done|lia|]. right. split; [done|].
    specialize (Hh text Hb). rewrite stake_length in Hlt. unfold slen in Hh. lia.
  - destruct Hw as (tool' & Hwb & Hn & Hs & Hi & Hr & Hcase).
    unfold fit_step in Hstep. rewrite Hwb in Hstep. case_match; [done|].
    destruct (is_some (tb_result_preview tool') || is_some (tb_input_preview tool')) eqn:Hsome;
      simplify_eq. rewrite shed_preview_eq.
    split; [destruct Hrow as (?&?&?&?&?&?); repeat split; done|].
    unfold wire_body. rewrite Hb. exists (shed_tool tool'). cbn.
    unfold shed_tool. destruct (tb_result_preview tool') eqn:Hrp; cbn; rewrite ?Hn, ?Hs; unfold preview_kept in *;
      repeat split; auto; destruct Hcase as [[Ht Hc]|[Ht Hc]]; rewrite Ht; cbn;
      destruct (tr_truncated (te_truncation entry)) eqn:Htr; cbn; auto.
  - unfold fit_step in Hstep. destruct Hw as [Hwb _]. rewrite Hwb in Hstep. by case_match.
  - unfold fit_step in Hstep. destruct Hw as [Hwb _]. rewrite Hwb in Hstep. by case_match.
Qed.

Lemma fit_entry_wire frame_len entry :
  honest_head entry -> wire_of entry (fit_entry_to_frame frame_len entry).
Proof.
  intros Hh. apply (fit_entry_ind frame_len (wire_of entry)).
  - by apply fit_start_wire.
  - intros w w' Hw Hs. by eapply fit_step_wire.
Qed.

(** The serializer's shape: an entry's frame is an envelope that depends on everything but the
    text, plus the text's escaped bytes. *)
Definition text_frame (frame_len : TimelineEntry -> N) : Prop :=
  forall entry a b, frame_len (set_te_body (Text a) entry) + json_string_len b
                    = frame_len (set_te_body (Text b) entry) + json_string_len a.

Lemma set_te_body_id entry : set_te_body (te_body entry) entry = entry.
Proof. by destruct entry. Qed.

(** The loop keeps at least every boundary prefix within the head bound to start from. *)
Lemma fit_start_longest entry text h j :
  honest_head entry -> te_body entry = Text text -> te_body (fit_start entry) = Text h ->
  is_char_boundary text j = true -> N.of_nat j <= MAX_TIMELINE_TEXT_BYTES -> (j <= String.length h)%nat.
Proof.
  intros Hh Hb Hs Hj Hj48. specialize (Hh text Hb). unfold fit_start in Hs. rewrite Hb in Hs.
  pose proof (boundary_le _ _ Hj) as Hjlen.
  destruct (N.ltb_spec MAX_TIMELINE_TEXT_BYTES (slen text)) as [Hlt|Hge].
  - rewrite (proj2 (N.ltb_lt _ _)) in Hs by lia. cbn in Hs. injection Hs as <-.
    assert (j <= floor_char_boundary text MAX_TIMELINE_TEXT_BYTES)%nat as Hf.
    { unfold floor_char_boundary. rewrite (proj2 (N.leb_gt _ _) Hlt). apply floor_boundary_max; [lia|done]. }
    rewrite stake_length.
    assert (is_char_boundary (stake (floor_char_boundary text MAX_TIMELINE_TEXT_BYTES) text) j = true) as Hjb
      by by apply boundary_stake.
    pose proof (boundary_le _ _ Hjb) as Hl. apply Nat.min_glb; [|done].
    apply floor_boundary_max; [|done]. unfold slen. lia.
  - unfold cut_to_head in Hs. rewrite Hb in Hs.
    destruct (_ <? fit_whole entry); cbn in Hs; [injection Hs as <-|by rewrite Hb in Hs; injection Hs as <-].
    rewrite stake_length. apply Nat.min_glb; [|done]. apply floor_boundary_max; [|done]. unfold slen. lia.
Qed.

Lemma fit_entry_stops frame_len entry :
  frame_len (fit_entry_to_frame frame_len entry) <= MAX_AGENT_FRAME_BYTES
  \/ match te_body (fit_entry_to_frame frame_len entry) with
     | Text text => text = ""%string
     | Tool tool => tb_result_preview tool = None /\ tb_input_preview tool = None
     | _ => True
     end.
Proof.
  destruct (fit_entry_ind frame_len (fun _ => True) entry) as [_ Hstop]; [done..|].
  unfold fit_step in Hstop.
  destruct (N.leb_spec (frame_len (fit_entry_to_frame frame_len entry)) MAX_AGENT_FRAME_BYTES); [by left|right].
  destruct (te_body _) as [text|[n s i r]| |]; try done.
  - destruct (N.eqb_spec (slen text) 0); [by apply slen_nil_inv|done].
  - destruct r, i; done.
Qed.

Lemma wire_body_valid entry wire :
  TimelineBody_validate_within (te_body entry) MAX_RETAINED_TEXT_BYTES = Ok tt ->
  wire_body entry wire -> TimelineBody_validate (te_body wire) = Ok tt.
Proof.
  unfold wire_body, TimelineBody_validate. intros Hv Hw. destruct (te_body entry) as [text|tool| |] eqn:Hb.
  - destruct Hw as (i & _ & -> & Hle & _). cbn. rewrite (proj2 (N.leb_le _ _)); [done|].
    unfold slen. rewrite stake_length. lia.
  - destruct Hw as (tool' & -> & Hn & Hs & Hi & Hr & _). cbn in *.
    unfold ToolTimelineBody_validate, invalid_if in *. rewrite !rbind_unit_ok, !refuse_if_ok, Hn, Hs in *.
    destruct Hv as (? & ? & [Hv1 Hv2]%orb_false_iff). split_and!; [done..|].
    apply orb_false_iff. split; [destruct Hi as [->| ->]|destruct Hr as [->| ->]]; done.
  - destruct Hw as [-> _]. done.
  - destruct Hw as [-> _]. done.
Qed.

Lemma wire_truncation_valid entry wire :
  Truncation_validate (te_truncation entry) = Ok tt ->
  wire_body entry wire -> Truncation_validate (te_truncation wire) = Ok tt.
Proof.
  unfold wire_body. intros Hv Hw. destruct (te_body entry) as [text|tool| |].
  - destruct Hw as (i & _ & _ & _ & [(-> & _)|[-> _]]); [done|]. by vm_compute.
  - destruct Hw as (tool' & _ & _ & _ & _ & _ & [[-> _]|[-> _]]); [done|]. by vm_compute.
  - by destruct Hw as [_ ->].
  - by destruct Hw as [_ ->].
Qed.

(** ** Lemmas on body chunks *)

(** A character is at most four bytes. *)
Lemma utf8_char_len c : utf8_char c = true -> (String.length c <= 4)%nat.
Proof.
  unfold utf8_char.
  assert (String.length c = length (String.list_ascii_of_string c)) as ->
    by (induction c; simpl; congruence).
  destruct (String.list_ascii_of_string c) as [|? [|? [|? [|? [|? ?]]]]]; simpl; try done; lia.
Qed.

Lemma one_character_spec body offset :
  is_char_boundary body offset = true -> (offset < String.length body)%nat ->
  is_char_boundary body (one_character_end body offset) = true
  /\ (offset < one_character_end body offset)%nat
  /\ (utf8 body -> (one_character_end body offset <= offset + 4)%nat).
Proof.
  intros Hb Hlt. unfold one_character_end.
  destruct (chars (sdrop offset body)) as [|c cs] eqn:Hc.
  { pose proof (sconcat_chars (sdrop offset body)) as He. rewrite Hc in He.
    apply (f_equal String.length) in He. rewrite sdrop_length in He. simpl in He. lia. }
  pose proof (boundary_of_split _ [c] cs Hc) as (Hcb & _). rewrite sconcat_cons in Hcb. simpl in Hcb.
  rewrite str_app_nil_r in Hcb. split; [by apply boundary_sdrop|]. split.
  - pose proof (chars_chars_shape (sdrop offset body)) as [Hs _]. rewrite Hc in Hs.
    apply Forall_cons in Hs as [Hs _]. destruct c; simpl in *; [done|lia].
  - intros Hu. apply (utf8_sdrop _ _ Hu) in Hb. unfold utf8 in Hb. rewrite Hc in Hb.
    apply Forall_cons in Hb as [Hb _]. apply utf8_char_len in Hb. lia.
Qed.

Section chunk_facts.
Context (encoded_frame_len : AgentServerFrame -> N) (entry_id body : string).

Lemma chunk_loop_spec fuel offset one e :
  is_char_boundary body offset = true -> is_char_boundary body one = true -> (offset < one)%nat ->
  (Nat.max (floor_boundary body e) one <= one + fuel)%nat ->
  exists r, chunk_loop encoded_frame_len fuel entry_id body offset one e = Some r
    /\ is_char_boundary body r = true /\ (one <= r <= Nat.max e one)%nat
    /\ (encoded_frame_len (chunk_frame entry_id body offset r) <= MAX_AGENT_FRAME_BYTES \/ r = one).
Proof.
  intros Ho Hone Hlt. revert e. induction fuel as [|fuel IH]; intros e Hfuel; cbn [chunk_loop];
    pose proof (floor_boundary_le body e) as Hfl;
    assert (is_char_boundary body (Nat.max (floor_boundary body e) one) = true) as Hmb
      by (destruct (Nat.max_dec (floor_boundary body e) one) as [-> | ->]; auto with ciao);
    set (m := Nat.max (floor_boundary body e) one) in *;
    destruct ((encoded_frame_len (chunk_frame entry_id body offset m) <=? MAX_AGENT_FRAME_BYTES)
              || (m =? one)%nat) eqn:Hstop.
  1,3: exists m; repeat split; try done; try lia;
       apply orb_true_iff in Hstop as [?%N.leb_le|?%Nat.eqb_eq]; auto.
  - apply orb_false_iff in Hstop as [_ Hne%Nat.eqb_neq]. lia.
  - apply orb_false_iff in Hstop as [Hbig%N.leb_gt Hne%Nat.eqb_neq].
    set (chunk := stake (m - offset) (sdrop offset body)) in *.
    set (budget := MAX_AGENT_FRAME_BYTES - _).
    pose proof (boundary_le _ _ Hmb) as Hmlen.
    assert (String.length chunk = (m - offset)%nat) as Hcl
      by (unfold chunk; rewrite stake_length, sdrop_length; lia).
    assert (json_prefix_within chunk budget < String.length chunk)%nat as Hk.
    { apply json_prefix_within_lt.
      assert (0 < json_string_len chunk) by (apply json_string_len_pos; intros He; rewrite He in Hcl; simpl in Hcl; lia).
      unfold budget. lia. }
    destruct (json_prefix_within_spec chunk budget) as (Hkb & _).
    assert (is_char_boundary body (offset + json_prefix_within chunk budget) = true) as Hnext.
    { apply boundary_sdrop; [done|]. eapply boundary_unstake; [|exact Hkb].
      rewrite <- (Nat.add_sub m offset), Nat.add_comm, <- Nat.add_sub_assoc in Hmb by lia.
      assert (is_char_boundary (sdrop offset body) (m - offset) = true); [|done].
      unfold is_char_boundary. apply orb_true_iff; right. apply andb_true_iff; split.
      - apply Nat.leb_le. rewrite sdrop_length. lia.
      - rewrite sdrop_sdrop. destruct (boundary_drop _ _ Hmb) as [?|Hc]; [lia|]. by rewrite Hc. }
    destruct (IH (offset + json_prefix_within chunk budget)%nat) as (r & Hr & Hrb & Hrange & Hrfit).
    { rewrite floor_boundary_fix by done. lia. }
    exists r. repeat split; [done|done|lia|lia|done].
Qed.

Lemma chunk_end_spec offset :
  is_char_boundary body offset = true -> (offset < String.length body)%nat ->
  let e := chunk_end encoded_frame_len entry_id body offset in
  is_char_boundary body e = true /\ (offset < e)%nat
  /\ (utf8 body -> (e <= offset + N.to_nat MAX_ENTRY_BODY_CHUNK_BYTES)%nat)
  /\ (encoded_frame_len (chunk_frame entry_id body offset e) <= MAX_AGENT_FRAME_BYTES
      \/ e = one_character_end body offset).
Proof.
  intros Ho Hlt. destruct (one_character_spec body offset Ho Hlt) as (Hone & Hlo & H4).
  unfold chunk_end. set (e0 := Nat.min _ _).
  destruct (chunk_loop_spec e0 offset (one_character_end body offset) e0) as (r & -> & Hr & Hrange & Hfit);
    [done|done|done|pose proof (floor_boundary_le body e0); lia|].
  cbn. repeat split; [done|lia| |done].
  intros Hu. specialize (H4 Hu). unfold e0, MAX_ENTRY_BODY_CHUNK_BYTES in *. lia.
Qed.
End chunk_facts.

(** What the phone does with the answer: chunks must be contiguous by UTF-8 offset, never empty,
    within their bound, and add up to the announced total. *)
Fixpoint collect_chunks (entry_id acc : string) (frames : list AgentServerFrame) : option string :=
  match frames with
  | [TimelineEntryEnd _ id] => if id =s? entry_id then Some acc else None
  | TimelineEntryChunk _ id offset text :: frames =>
      if (id =s? entry_id) && (offset =? slen acc) && negb (slen text =? 0)
         && (slen text <=? MAX_ENTRY_BODY_CHUNK_BYTES)
      then collect_chunks entry_id (acc +:+ text) frames
      else None
  | _ => None
  end.

Definition reassemble (frames : list AgentServerFrame) : option string :=
  match frames with
  | TimelineEntryStart _ _ _ _ entry_id _ total_bytes _ :: frames =>
      body ← collect_chunks entry_id "" frames;
      if slen body =? total_bytes then Some body else None
  | _ => None
  end.

Lemma body_chunks_collect encoded_frame_len entry_id body fuel offset :
  utf8 body -> slen body <= u32_max ->
  is_char_boundary body offset = true -> (String.length body - offset <= fuel)%nat ->
  collect_chunks entry_id (stake offset body)
    (body_chunks encoded_frame_len fuel entry_id body offset
     ++ [TimelineEntryEnd AGENT_PROTOCOL_VERSION entry_id]) = Some body.
Proof.
  intros Hu Hmax. revert offset. induction fuel as [|fuel IH]; intros offset Ho Hfuel; cbn [body_chunks];
    pose proof (boundary_le _ _ Ho) as Hol;
    destruct (Nat.ltb_spec offset (String.length body)) as [Hlt|Hge].
  1: lia.
  1,3: cbn; rewrite String.eqb_refl; f_equal; apply stake_all; lia.
  destruct (chunk_end_spec encoded_frame_len entry_id body offset Ho Hlt) as (He & Hlo & Hlen & _).
  set (e := chunk_end encoded_frame_len entry_id body offset) in *. specialize (Hlen Hu).
  pose proof (boundary_le _ _ He) as Hel.
  cbn [app collect_chunks chunk_frame]. rewrite String.eqb_refl. cbn [andb].
  assert (slen (stake (e - offset) (sdrop offset body)) = N.of_nat (e - offset)) as Hs
    by (unfold slen; rewrite stake_length, sdrop_length; f_equal; lia).
  rewrite Hs. unfold as_u32. unfold slen in Hmax. rewrite (proj2 (N.leb_le (N.of_nat offset) _)) by lia.
  unfold slen. rewrite stake_length, Nat.min_l, N.eqb_refl by lia.
  rewrite (proj2 (N.eqb_neq _ _)) by lia. rewrite (proj2 (N.leb_le _ _)) by lia. cbn [andb negb].
  rewrite <- stake_extend by lia. apply IH; [done|lia].
Qed.

(** ** Lemmas on windows and lists *)

Lemma cut_to_head_row wire whole limit : same_row wire (cut_to_head wire whole limit).
Proof. unfold cut_to_head. by destruct (te_body wire). Qed.

Lemma same_row_trans a b c : same_row a b -> same_row b c -> same_row a c.
Proof. unfold same_row. intros. destruct_and!. repeat split; congruence. Qed.

Lemma fit_start_row entry : same_row entry (fit_start entry).
Proof.
  unfold fit_start. set (wire := match te_body entry with Text _ => _ | _ => _ end).
  assert (same_row entry wire) as Hw by (unfold wire; repeat case_match; done).
  case_match; [|done]. eapply same_row_trans; [exact Hw|apply cut_to_head_row].
Qed.

Lemma fit_step_row frame_len whole w w' : fit_step frame_len whole w = Some w' -> same_row w w'.
Proof.
  unfold fit_step. case_match; [done|]. destruct (te_body w) as [text|tool| |]; try done.
  - case_match; [done|]. intros [= <-]. apply cut_to_head_row.
  - case_match; [|done]. intros [= <-]. by rewrite shed_preview_eq.
Qed.

Lemma fit_entry_row frame_len entry : same_row entry (fit_entry_to_frame frame_len entry).
Proof.
  apply (fit_entry_ind frame_len (same_row entry)); [apply fit_start_row|].
  intros w w' Hw Hs. eapply same_row_trans; [exact Hw|by eapply fit_step_row].
Qed.

Lemma fit_entry_alone_row encoded_frame_len entry :
  same_row entry (fit_entry_alone encoded_frame_len entry).
Proof. unfold fit_entry_alone. case_match; [done|apply fit_entry_row]. Qed.

Lemma fit_alone_sequences encoded_frame_len (entries : list TimelineEntry) :
  te_sequence <$> (fit_entry_alone encoded_frame_len <$> entries) = te_sequence <$> entries.
Proof.
  rewrite <- list_fmap_compose. apply list_fmap_ext. intros _ e _. cbn.
  by destruct (fit_entry_alone_row encoded_frame_len e) as (_ & _ & ? & _).
Qed.

Definition window_note (w : TimelineWindow) : Prop :=
  tw_has_older w = true /\ tw_truncated w = true
  /\ tw_oldest_sequence w = te_sequence <$> head (tw_entries w).

Lemma fit_window_spec frame_len entries snapshot :
  tw_entries (ss_timeline_window snapshot) = entries ->
  let r := fit_window frame_len entries snapshot in
  let w := ss_timeline_window r in
  r = set_ss_timeline_window w snapshot
  /\ (frame_len r <= MAX_AGENT_FRAME_BYTES \/ len (tw_entries w) <= 1)
  /\ exists k, te_sequence <$> tw_entries w = drop k (te_sequence <$> entries)
     /\ (entries <> [] -> tw_entries w <> [])
     /\ (if (k =? 0)%nat then
           tw_has_older w = tw_has_older (ss_timeline_window snapshot)
           /\ tw_truncated w = tw_truncated (ss_timeline_window snapshot)
           /\ tw_oldest_sequence w = tw_oldest_sequence (ss_timeline_window snapshot)
         else window_note w).
Proof.
  revert snapshot. induction entries as [|e entries IH]; intros snapshot He; cbn [fit_window];
    destruct (N.leb_spec (frame_len snapshot) MAX_AGENT_FRAME_BYTES) as [Hfit|Hbig].
  1,3: cbn; split; [by destruct snapshot|]; split; [by left|]; exists 0%nat; rewrite He; done.
  - cbn. split; [by destruct snapshot|]. split; [right; by rewrite He|]. exists 0%nat. by rewrite He.
  - destruct entries as [|e2 entries].
    + cbn. split; [done|]. split; [right; done|]. exists 0%nat. cbn.
      destruct (fit_entry_row (fun candidate => frame_len (set_ss_timeline_window
        (set_tw_entries [candidate] (ss_timeline_window snapshot)) snapshot)) e) as (_ & _ & -> & _). done.
    + set (snapshot' := set_ss_timeline_window _ snapshot).
      destruct (IH snapshot' eq_refl) as (Hr & Hf & k & Hk & Hne & Hnote). cbn zeta in *.
      split; [rewrite Hr at 1; unfold snapshot'; by destruct snapshot|]. split; [done|].
      exists (S k). rewrite Hk. split; [done|]. split; [intros _; by apply Hne|]. cbn [Nat.eqb].
      destruct (Nat.eqb_spec k 0) as [->|]; [|done].
      destruct Hnote as (Ho & Ht & Hs). split_and!; [done|done|].
      rewrite Hs. rewrite drop_0 in Hk. by rewrite <- head_map, Hk.
Qed.

Lemma insert_newest_perm d l : insert_newest d l ≡ₚ d :: l.
Proof. induction l as [|e l IH]; cbn; [done|]. case_match; [done|]. rewrite IH. constructor. Qed.

Lemma sort_newest_perm l : sort_newest l ≡ₚ l.
Proof. induction l as [|d l IH]; cbn; [done|]. rewrite insert_newest_perm. by constructor. Qed.

Definition newer_or_equal (a b : AgentSessionDescriptor) : Prop := de_updated_at b <= de_updated_at a.

Lemma insert_newest_sorted d l :
  StronglySorted newer_or_equal l -> StronglySorted newer_or_equal (insert_newest d l).
Proof.
  induction 1 as [|e k Hs IH Hall]; cbn; [repeat constructor|].
  destruct (N.leb_spec (de_updated_at e) (de_updated_at d)) as [Hle|Hgt].
  - constructor; [by constructor|]. constructor; [done|]. eapply Forall_impl; [done|].
    unfold newer_or_equal. lia.
  - constructor; [done|]. rewrite insert_newest_perm. constructor; [unfold newer_or_equal; lia|done].
Qed.

Lemma sort_newest_sorted l : StronglySorted newer_or_equal (sort_newest l).
Proof. induction l; cbn; [constructor|by apply insert_newest_sorted]. Qed.

Lemma reverse_drop_aux {A} k (l : list A) : reverse (drop k l) = take (length l - k) (reverse l).
Proof.
  rewrite <- (take_drop k l) at 3. rewrite reverse_app. rewrite take_app_length'; [done|].
  by rewrite length_reverse, length_drop.
Qed.

Lemma pop_until_fits_spec encoded_frame_len oldest omitted :
  omitted + len oldest <= u32_max ->
  let '(kept, omitted') := pop_until_fits encoded_frame_len oldest omitted in
  (exists k, kept = reverse (drop k oldest))
  /\ omitted' + len kept = omitted + len oldest
  /\ (kept = [] \/ encoded_frame_len (list_frame kept omitted') <= MAX_AGENT_FRAME_BYTES).
Proof.
  revert omitted. induction oldest as [|d oldest IH]; intros omitted Hmax; cbn [pop_until_fits];
    match goal with |- context [?size <=? MAX_AGENT_FRAME_BYTES] =>
      destruct (N.leb_spec size MAX_AGENT_FRAME_BYTES) as [Hfit|Hbig] end.
  1,3: split_and!; [by exists 0%nat|unfold len; by rewrite length_reverse|by right].
  - split_and!; [by exists 0%nat|done|by left].
  - rewrite len_cons in *. unfold sat_add32. rewrite N.min_l by lia.
    specialize (IH (omitted + 1)). destruct (pop_until_fits _ _ _) as [kept omitted'].
    destruct IH as ([k Hk] & Hsum & Hf); [lia|]. split_and!; [by exists (S k)|lia|done].
Qed.

(** ** Properties *)

(** Sizing terminates for any measure of a frame — even one that is not monotone or not the
    real encoder's: the loop stops within one turn per byte of text or per preview, and more
    fuel changes nothing. *)
Theorem fit_entry_terminates frame_len entry fuel :
  (fit_fuel (fit_start entry) <= fuel)%nat ->
  fit_loop frame_len fuel (fit_whole entry) (fit_start entry)
  = Some (fit_entry_to_frame frame_len entry).
Proof.
  intros Hle. unfold fit_entry_to_frame.
  destruct (fit_loop_total frame_len (fit_fuel (fit_start entry)) (fit_whole entry) (fit_start entry)) as [r Hr]; [done|].
  rewrite Hr. by eapply fit_loop_mono.
Qed.

(** A text entry whose empty head fits its frame always fits it, whatever the measure. *)
Theorem fit_entry_fits frame_len entry text :
  honest_head entry -> te_body entry = Text text ->
  frame_len (set_te_truncation (head_of (fit_whole entry)) (set_te_body (Text "") entry)) <= MAX_AGENT_FRAME_BYTES ->
  frame_len (set_te_body (Text "") entry) <= MAX_AGENT_FRAME_BYTES ->
  frame_len (fit_entry_to_frame frame_len entry) <= MAX_AGENT_FRAME_BYTES.
Proof.
  intros Hh Hb Hhead Hplain.
  destruct (fit_entry_stops frame_len entry) as [|Hempty]; [done|].
  destruct (fit_entry_wire frame_len entry Hh) as [Hrow Hw].
  unfold wire_body in Hw. rewrite Hb in Hw. destruct Hw as (i & Hi & Hwb & _ & Hcase).
  rewrite Hwb in Hempty. rewrite Hempty in Hwb.
  revert Hwb Hcase Hrow. generalize (fit_entry_to_frame frame_len entry). intros [] Hwb Hcase Hrow.
  destruct entry. unfold same_row in Hrow. cbn in *. destruct_and!. subst.
  destruct Hcase as [(-> & _)|[-> _]]; done.
Qed.

(** With a serializer that writes an envelope plus the escaped text, nothing is cut
    needlessly: every boundary prefix of at most 48 KiB whose own head frame would fit is no
    longer than the text that was kept. *)
Theorem fit_entry_maximal frame_len entry text kept j :
  text_frame frame_len -> honest_head entry -> te_body entry = Text text ->
  (forall t, frame_len (set_te_body (Text t) entry)
             <= frame_len (set_te_truncation (head_of (fit_whole entry)) (set_te_body (Text t) entry))) ->
  te_body (fit_entry_to_frame frame_len entry) = Text kept ->
  is_char_boundary text j = true -> N.of_nat j <= MAX_TIMELINE_TEXT_BYTES ->
  frame_len (set_te_truncation (head_of (fit_whole entry)) (set_te_body (Text (stake j text)) entry))
    <= MAX_AGENT_FRAME_BYTES ->
  (j <= String.length kept)%nat.
Proof.
  intros Hser Hh Hb Hmono Hkept Hj Hj48 Hfit.
  destruct (fit_entry_ind frame_len (fun w => wire_of entry w /\
    forall h, te_body w = Text h -> (j <= String.length h)%nat) entry) as [[_ Hmax] _]; [| |by apply Hmax].
  - split; [by apply fit_start_wire|]. intros h Hw. by eapply fit_start_longest.
  - intros w w' [Hw Hm] Hs. split; [by eapply fit_step_wire|]. intros h' Hw'.
    destruct Hw as [Hrow Hwb]. unfold wire_body in Hwb. rewrite Hb in Hwb.
    destruct Hwb as (i & Hi & Hwbody & _ & Hcase). specialize (Hm _ Hwbody).
    rewrite stake_length in Hm. destruct (fit_step_text _ _ _ _ _ Hwbody Hs) as (k & Hk & Hlt & Hke & ->).
    cbn in Hw'. injection Hw' as <-. rewrite stake_length.
    assert (j <= i)%nat by lia.
    assert (is_char_boundary (stake i text) j = true) as Hji by (by apply boundary_stake).
    enough (j <= k)%nat by (apply boundary_le in Hji; lia).
    rewrite Hke. destruct (json_prefix_within_spec (stake i text)
      (MAX_AGENT_FRAME_BYTES - (frame_len w - json_string_len (stake i text)))) as (_ & _ & Hbest).
    apply Hbest; [done|]. rewrite stake_stake by lia.
    assert (frame_len (set_te_body (Text (stake j text)) w) <= MAX_AGENT_FRAME_BYTES) as Hwj.
    { etrans; [|exact Hfit]. destruct entry, w. unfold same_row in Hrow. cbn in *. destruct_and!. subst.
      destruct Hcase as [(-> & _)|[-> _]]; [apply Hmono|done]. }
    pose proof (Hser w (stake i text) (stake j text)) as H1.
    pose proof (Hser w (stake i text) "") as H2.
    rewrite <- Hwbody, set_te_body_id in H1, H2. rewrite json_string_len_nil in H2. lia.
Qed.

(** What the host holds: an adapter's valid entry, whole up to the retained bound. *)
Definition retained_valid (e : TimelineEntry) : checked :=
  valid_opaque_id (te_entry_id e) ?;
  invalid_if ((te_entry_revision e =? 0) || (te_sequence e =? 0) || (te_timestamp e =? 0)) ?;
  valid_token (te_state e) ?;
  valid_token (te_kind e) ?;
  TimelineBody_validate_within (te_body e) MAX_RETAINED_TEXT_BYTES ?;
  Truncation_validate (te_truncation e) ?;
  invalid_if (opt_is (tr_reason_code (te_truncation e)) TRUNCATION_BODY_AVAILABLE).

(** The wire form of an entry the host may hold passes the protocol's own validation. *)
Lemma fit_entry_is_valid frame_len entry :
  retained_valid entry = Ok tt ->
  TimelineEntry_validate (fit_entry_to_frame frame_len entry) = Ok tt.
Proof.
  unfold retained_valid, invalid_if. rewrite !rbind_unit_ok, !refuse_if_ok.
  intros (Hid & Hpos & Hst & Hki & Hbody & Htr & Hna).
  assert (honest_head entry) as Hh by by apply honest_retained.
  destruct (fit_entry_wire frame_len entry Hh) as [(H1 & H2 & H3 & H4 & H5 & H6) Hw].
  unfold TimelineEntry_validate, invalid_if. rewrite H1, H2, H3, H4, H5, H6, !rbind_unit_ok, !refuse_if_ok.
  split_and!; try done.
  all: revert Hw; generalize (fit_entry_to_frame frame_len entry) as r; intros r Hw; unfold wire_body in Hw.
  - by apply (wire_body_valid entry).
  - by apply (wire_truncation_valid entry).
  - destruct (te_body entry) as [text|tool| |] eqn:Hb.
    + destruct Hw as (i & Hi & Hwb & Hle & [(Ht & _)|[Ht Hlt]]); [by rewrite Ht, Hna|].
      rewrite Ht, Hwb.
      cbn. apply refuse_if_ok. apply orb_false_iff. rewrite N.leb_gt, N.ltb_ge.
      unfold slen. rewrite stake_length. split; [lia|].
      unfold fit_whole. rewrite Hb, Hna. cbn in Hbody. by case_match; [apply N.leb_le|].
    + destruct Hw as (tool' & Hwb & _ & _ & _ & _ & [[Ht _]|[Ht _]]); by rewrite Ht, ?Hna.
    + destruct Hw as [_ ->]. by rewrite Hna.
    + destruct Hw as [_ ->]. by rewrite Hna.
Qed.

(** Whatever the frame measure, the wire form of an entry the host may hold passes the
    protocol's own validation: its text is a head within 48 KiB, and [body_available] is claimed
    exactly as the phone requires it. *)
Theorem fit_entry_valid frame_len entry :
  retained_valid entry = Ok tt ->
  TimelineEntry_validate (fit_entry_to_frame frame_len entry) = Ok tt.
Proof. apply fit_entry_is_valid. Qed.

(** The frames that answer [agent.timeline.entry] reassemble, by the checks the protocol
    states for them, to exactly the retained body — for any encoder. *)
Theorem entry_body_roundtrip encoded_frame_len session_id epoch generation entry_id revision truncation body :
  utf8 body -> slen body <= u32_max ->
  reassemble (entry_body_frames encoded_frame_len session_id epoch generation entry_id revision truncation body)
  = Some body.
Proof.
  intros Hu Hmax. unfold entry_body_frames, reassemble.
  pose proof (body_chunks_collect encoded_frame_len entry_id body (String.length body) 0
    Hu Hmax (boundary_0 body)) as Hc.
  change (stake 0 body) with ""%string in Hc. rewrite Hc by lia. cbn. unfold as_u32. rewrite (proj2 (N.leb_le _ _) Hmax). by rewrite N.eqb_refl.
Qed.

(** Every chunk frame of a body fits one agent frame, given an encoder under which a
    chunk of one character does. *)
Theorem body_chunks_fit encoded_frame_len entry_id body fuel offset :
  utf8 body ->
  (forall o text, slen text <= 4 ->
    encoded_frame_len (TimelineEntryChunk AGENT_PROTOCOL_VERSION entry_id o text) <= MAX_AGENT_FRAME_BYTES) ->
  is_char_boundary body offset = true ->
  Forall (fun frame => encoded_frame_len frame <= MAX_AGENT_FRAME_BYTES)
    (body_chunks encoded_frame_len fuel entry_id body offset).
Proof.
  intros Hu Hone. revert offset. induction fuel as [|fuel IH]; intros offset Ho; cbn [body_chunks];
    destruct (Nat.ltb_spec offset (String.length body)) as [Hlt|Hge]; try constructor.
  - destruct (chunk_end_spec encoded_frame_len entry_id body offset Ho Hlt) as (_ & _ & _ & [Hfit|Heq]); [done|].
    apply Hone. rewrite Heq. destruct (one_character_spec body offset Ho Hlt) as (_ & _ & H4).
    specialize (H4 Hu). unfold slen. rewrite stake_length. lia.
  - apply IH. by destruct (chunk_end_spec encoded_frame_len entry_id body offset Ho Hlt) as (? & _).
Qed.

(** A fitted snapshot differs from the one it came from only in its window, which keeps a
    newest suffix of the timeline and never drops the newest entry; it fits the frame or holds a
    single entry that cannot shrink further; and when anything older went, the window says so. *)
Theorem fit_snapshot_window encoded_frame_len snapshot frame_len :
  let r := fit_snapshot_with_envelope encoded_frame_len snapshot frame_len in
  let w := ss_timeline_window r in
  r = set_ss_timeline_window w snapshot
  /\ (frame_len r <= MAX_AGENT_FRAME_BYTES \/ len (tw_entries w) <= 1)
  /\ exists k, te_sequence <$> tw_entries w
               = drop k (te_sequence <$> tw_entries (ss_timeline_window snapshot))
     /\ (tw_entries (ss_timeline_window snapshot) <> [] -> tw_entries w <> [])
     /\ (k <> 0%nat -> window_note w).
Proof.
  unfold fit_snapshot_with_envelope.
  set (entries := fit_entry_alone encoded_frame_len <$> tw_entries (ss_timeline_window snapshot)).
  set (s := set_ss_timeline_window _ snapshot).
  destruct (fit_window_spec frame_len entries s eq_refl) as (Hr & Hf & k & Hk & Hne & Hnote).
  cbn zeta in *. split; [rewrite Hr at 1; unfold s; by destruct snapshot|]. split; [done|].
  exists k. rewrite Hk. unfold entries at 1. rewrite fit_alone_sequences. split; [done|]. split.
  - intros Hs. apply Hne. unfold entries. by destruct (tw_entries _).
  - intros Hk0. by rewrite (proj2 (Nat.eqb_neq _ _) Hk0) in Hnote.
Qed.

Lemma bounded_list_facts encoded_frame_len descriptors omitted :
  omitted + len descriptors <= u32_max ->
  let r := bounded_session_list encoded_frame_len descriptors omitted in
  (exists k, sl_sessions r = take k (sort_newest descriptors))
  /\ StronglySorted newer_or_equal (sl_sessions r)
  /\ len (sl_sessions r) <= MAX_AGENT_SESSIONS
  /\ sl_omitted_sessions r + len (sl_sessions r) = omitted + len descriptors
  /\ (sl_sessions r = [] \/
      encoded_frame_len (list_frame (sl_sessions r) (sl_omitted_sessions r)) <= MAX_AGENT_FRAME_BYTES).
Proof.
  intros Hmax. unfold bounded_session_list.
  assert (len (sort_newest descriptors) = len descriptors) as Hlen
    by (unfold len; by rewrite sort_newest_perm).
  set (sorted := sort_newest descriptors) in *. rewrite Hlen.
  set (top := take _ sorted).
  assert (len top = N.min MAX_AGENT_SESSIONS (len descriptors)) as Htop
    by (rewrite <- Hlen; unfold top, len; rewrite length_take; lia).
  rewrite N.mod_small by lia. unfold sat_add32. rewrite N.min_l by lia.
  pose proof (pop_until_fits_spec encoded_frame_len (reverse top)
    (omitted + (len descriptors - MAX_AGENT_SESSIONS))) as Hpop.
  assert (len (reverse top) = len top) as Hrev by (unfold len; by rewrite length_reverse).
  destruct (pop_until_fits _ _ _) as [kept omitted']. cbn.
  destruct Hpop as ([k Hk] & Hsum & Hf); [lia|].
  assert (exists k, kept = take k sorted) as [k' Hk'].
  { rewrite Hk. unfold top. rewrite reverse_drop_aux, reverse_involutive, take_take. by eexists. }
  assert (len kept <= len top) as Hle
    by (rewrite Hk; unfold len; rewrite length_reverse, length_drop, length_reverse; lia).
  split_and!; [by exists k'| |lia|lia|done].
  rewrite Hk'. eapply StronglySorted_sublist; [apply sublist_take|apply sort_newest_sorted].
Qed.

(** The session list is the newest part of the directory, newest first, at most 64 rows;
    every row it leaves out is counted; and its frame fits unless nothing is left in it. *)
Theorem bounded_session_list_spec encoded_frame_len descriptors omitted :
  omitted + len descriptors <= u32_max ->
  let r := bounded_session_list encoded_frame_len descriptors omitted in
  (exists k, sl_sessions r = take k (sort_newest descriptors))
  /\ StronglySorted newer_or_equal (sl_sessions r)
  /\ len (sl_sessions r) <= MAX_AGENT_SESSIONS
  /\ sl_omitted_sessions r + len (sl_sessions r) = omitted + len descriptors
  /\ (sl_sessions r = [] \/
      encoded_frame_len (list_frame (sl_sessions r) (sl_omitted_sessions r)) <= MAX_AGENT_FRAME_BYTES).
Proof. apply bounded_list_facts. Qed.
