(* ===== verification/Reducer.v ===== *)
(** The canonical reducer of [agent_protocol.rs]: how one delta advances a session snapshot, and
    what survives it. *)
From S2P Require Import Prelude Text Protocol.

Local Open Scope N_scope.

(** ** The reducer *)

Inductive ReduceOutcome :=
| Applied
| Duplicate
| Stale
| ResyncRequired (reason : string).

#[export] Instance ReduceOutcome_eq_dec : EqDecision ReduceOutcome.
Proof. solve_decision. Defined.

(** [entries.first()] and [entries.last()] written back to the window's bounds. *)
Definition window_bounds (w : TimelineWindow) : TimelineWindow :=
  mkTimelineWindow (tw_entries w) (tw_has_older w) (tw_history_boundary w)
    (te_sequence <$> head (tw_entries w)) (te_sequence <$> last (tw_entries w)) (tw_truncated w).

Definition same_entry (entry candidate : TimelineEntry) : bool :=
  te_entry_id candidate =s? te_entry_id entry.

(** The window after [entries.push], [sort_by_key] and the [remove(0)] past the bound. *)
Definition push_entry (w : TimelineWindow) (entry : TimelineEntry) : TimelineWindow :=
  let entries := sort_by_key te_sequence (tw_entries w ++ [entry]) in
  if MAX_TIMELINE_ENTRIES_IN_SNAPSHOT <? len entries
  then mkTimelineWindow (tail entries) true (tw_history_boundary w)
         (tw_oldest_sequence w) (tw_newest_sequence w) true
  else set_tw_entries entries w.

Definition replace_entry (w : TimelineWindow) (entry : TimelineEntry) : TimelineWindow :=
  set_tw_entries
    (update_first (same_entry entry)
       (fun existing => if te_entry_revision existing <? te_entry_revision entry then entry else existing)
       (tw_entries w)) w.

Definition upsert_window (w : TimelineWindow) (entry : TimelineEntry) : TimelineWindow :=
  window_bounds
    (if is_some (List.find (same_entry entry) (tw_entries w)) then replace_entry w entry
     else push_entry w entry).

Definition upsert_entry (snapshot : AgentSessionSnapshot) (entry : TimelineEntry) : AgentSessionSnapshot :=
  set_ss_timeline_window (upsert_window (ss_timeline_window snapshot) entry) snapshot.

Definition same_interaction (interaction candidate : PendingInteraction) : bool :=
  pi_interaction_id candidate =s? pi_interaction_id interaction.

Definition upsert_interaction (snapshot : AgentSessionSnapshot) (interaction : PendingInteraction)
  : AgentSessionSnapshot * checked :=
  let pending := ss_pending_interactions snapshot in
  if is_some (List.find (same_interaction interaction) pending) then
    (set_ss_pending_interactions
       (update_first (same_interaction interaction)
          (fun existing => if pi_interaction_revision existing <? pi_interaction_revision interaction
                           then interaction else existing) pending) snapshot, Ok tt)
  else if MAX_PENDING_INTERACTIONS <=? len pending then (snapshot, Err InvalidValue)
  else (set_ss_pending_interactions (pending ++ [interaction]) snapshot, Ok tt).

Definition same_command (receipt candidate : CommandReceipt) : bool :=
  cr_command_id candidate =s? cr_command_id receipt.

(** Ambiguous delivery claimed as applied without evidence. *)
Definition unproved_application (existing receipt : CommandReceipt) : bool :=
  (cr_state existing =s? "outcome_unknown") && (cr_state receipt =s? "applied")
  && is_none (cr_application_evidence receipt).

Definition upsert_receipt (snapshot : AgentSessionSnapshot) (receipt : CommandReceipt)
  : AgentSessionSnapshot * checked :=
  let receipts := ss_latest_command_receipts snapshot in
  if negb (cr_session_id receipt =s? ss_session_id snapshot)
     || negb (cr_snapshot_epoch receipt =? ss_snapshot_epoch snapshot)
     || negb (cr_process_generation receipt =? ss_process_generation snapshot)
  then (snapshot, Ok tt)
  else match List.find (same_command receipt) receipts with
       | Some existing =>
           if unproved_application existing receipt then (snapshot, Err InvalidValue)
           else if cr_updated_at existing <=? cr_updated_at receipt
           then (set_ss_latest_command_receipts
                   (update_first (same_command receipt) (fun _ => receipt) receipts) snapshot, Ok tt)
           else (snapshot, Ok tt)
       | None =>
           let pushed := receipts ++ [receipt] in
           (set_ss_latest_command_receipts
              (if MAX_COMMAND_RECEIPTS <? len pushed then tail pushed else pushed) snapshot, Ok tt)
       end.

Definition enforce_reducer_invariants (snapshot : AgentSessionSnapshot)
  : AgentSessionSnapshot * checked :=
  let snapshot :=
    if existsb is_unresolved_blocking (ss_pending_interactions snapshot)
    then set_ss_turn (AwaitingInteraction None) snapshot else snapshot in
  let snapshot :=
    if negb (ac_terminal_continuity (ss_capabilities snapshot)
             =s? tf_continuity (ss_terminal_fallback snapshot))
    then set_ss_capabilities
           (set_ac_terminal_continuity (tf_continuity (ss_terminal_fallback snapshot))
              (ss_capabilities snapshot)) snapshot
    else snapshot in
  if (ss_topology snapshot =s? "managed")
     && negb (tf_continuity (ss_terminal_fallback snapshot) =s? "unavailable")
  then (snapshot, Err InvalidValue)
  else (snapshot, Ok tt).

(** The first pass: route and capability proof, before any presentation content. *)
Definition apply_route_change (snapshot : AgentSessionSnapshot) (change : AgentDeltaChange)
  : AgentSessionSnapshot :=
  match change with
  | ChTerminalFallback terminal_fallback =>
      let snapshot := set_ss_terminal_fallback terminal_fallback snapshot in
      set_ss_capabilities
        (set_ac_terminal_continuity (tf_continuity terminal_fallback) (ss_capabilities snapshot)) snapshot
  | ChCapabilities capabilities => set_ss_capabilities capabilities snapshot
  | _ => snapshot
  end.

(** One step of the second pass. *)
Definition apply_content_change (snapshot : AgentSessionSnapshot) (change : AgentDeltaChange)
  : AgentSessionSnapshot * checked :=
  match change with
  | ChUpsertEntry entry => (upsert_entry snapshot entry, Ok tt)
  | ChObservation observation => (set_ss_observation observation snapshot, Ok tt)
  | ChTurn turn => (set_ss_turn turn snapshot, Ok tt)
  | ChPermissionMode permission_mode => (set_ss_permission_mode (Some permission_mode) snapshot, Ok tt)
  | ChModel model => (set_ss_model (Some model) snapshot, Ok tt)
  | ChEffort effort => (set_ss_effort (Some effort) snapshot, Ok tt)
  | ChModelCatalogue models => (set_ss_models (Some models) snapshot, Ok tt)
  | ChUpsertInteraction interaction => upsert_interaction snapshot interaction
  | ChRemoveInteraction interaction_id _ =>
      (set_ss_pending_interactions
         (List.filter (fun item => negb (pi_interaction_id item =s? interaction_id))
            (ss_pending_interactions snapshot)) snapshot, Ok tt)
  | ChCommandReceipt receipt => upsert_receipt snapshot receipt
  | ChUnknown => (set_ss_turn (TurnUnknown "unsupported_delta") snapshot, Ok tt)
  | ChCapabilities _ | ChTerminalFallback _ => (snapshot, Ok tt)
  end.

Fixpoint apply_content_changes (snapshot : AgentSessionSnapshot) (changes : list AgentDeltaChange)
  : AgentSessionSnapshot * checked :=
  match changes with
  | [] => (snapshot, Ok tt)
  | change :: changes' =>
      match apply_content_change snapshot change with
      | (snapshot, Ok _) => apply_content_changes snapshot changes'
      | (snapshot, Err e) => (snapshot, Err e)
      end
  end.

(** The three checks in front of the reducer's writes; [None] admits the delta. *)
Definition fence_delta (snapshot : AgentSessionSnapshot) (delta : AgentSessionDelta) : option ReduceOutcome :=
  if negb (sd_session_id delta =s? ss_session_id snapshot)
     || negb (sd_snapshot_epoch delta =? ss_snapshot_epoch snapshot)
     || negb (sd_process_generation delta =? ss_process_generation snapshot)
  then Some (ResyncRequired "identity_fence")
  else if sd_revision delta <=? ss_revision snapshot
  then Some (if sd_revision delta =? ss_revision snapshot then Duplicate else Stale)
  else if negb (sd_base_revision delta =? ss_revision snapshot)
          || negb (sd_revision delta =? ss_revision snapshot + 1)
  then Some (ResyncRequired "revision_gap")
  else None.

(** The mutated snapshot and the returned value: an error leaves what was written before it. *)
Definition apply_delta (snapshot : AgentSessionSnapshot) (delta : AgentSessionDelta)
  : AgentSessionSnapshot * result AgentProtocolError ReduceOutcome :=
  match AgentSessionDelta_validate delta with
  | Err e => (snapshot, Err e)
  | Ok _ =>
      match fence_delta snapshot delta with
      | Some outcome => (snapshot, Ok outcome)
      | None =>
          let snapshot := foldl apply_route_change snapshot (sd_changes delta) in
          match apply_content_changes snapshot (sd_changes delta) with
          | (snapshot, Err e) => (snapshot, Err e)
          | (snapshot, Ok _) =>
              match enforce_reducer_invariants (set_ss_revision (sd_revision delta) snapshot) with
              | (snapshot, Err e) => (snapshot, Err e)
              | (snapshot, Ok _) => (snapshot, Ok Applied)
              end
          end
      end
  end.

(** A client that reduces deltas in arrival order, whatever each one's outcome. *)
Definition reduce_all (snapshot : AgentSessionSnapshot) (deltas : list AgentSessionDelta)
  : AgentSessionSnapshot :=
  foldl (fun s delta => (apply_delta s delta).1) snapshot deltas.

(** ** Windows *)

(** Entry ids and sequences name the same rows: the numbering a host keeps. *)
Definition numbered (entries : list TimelineEntry) : Prop :=
  forall a b, a ∈ entries -> b ∈ entries -> (te_entry_id a = te_entry_id b <-> te_sequence a = te_sequence b).

(** [TimelineWindow::validate] as a statement. *)
Record window_valid (w : TimelineWindow) : Prop := mk_window_valid {
  wv_bound : len (tw_entries w) <= MAX_TIMELINE_ENTRIES_IN_SNAPSHOT;
  wv_boundary : opt_each valid_token (tw_history_boundary w) = Ok tt;
  wv_entries : Forall (fun e => TimelineEntry_validate e = Ok tt) (tw_entries w);
  wv_sorted : StronglySorted (key_lt te_sequence) (tw_entries w);
  wv_oldest : tw_oldest_sequence w = te_sequence <$> head (tw_entries w);
  wv_newest : tw_newest_sequence w = te_sequence <$> last (tw_entries w)
}.

Lemma window_valid_iff w : TimelineWindow_validate w = Ok tt <-> window_valid w.
Proof.
  unfold TimelineWindow_validate, invalid_if.
  rewrite !rbind_unit_ok, validate_window_entries_ok, !refuse_if_ok. split.
  - intros (Hb & Hh & (He & Hs & _) & Ho & Hn & Hz). b2p.
    assert (tw_entries w = [] \/ exists x l, tw_entries w = l ++ [x]) as Hl.
    { destruct (tw_entries w) as [|x l] using rev_ind; eauto. }
    split; try done; destruct Hl as [Hl|(x & l & Hl)]; rewrite Hl in *.
    + apply andb_false_iff in Hz as [?|?]; [done|]. b2p. by destruct (tw_oldest_sequence w).
    + destruct l; simpl in *; by b2p.
    + apply andb_false_iff in Hz as [?|?]; [done|]. b2p. by destruct (tw_newest_sequence w).
    + rewrite last_snoc in *. simpl in *. by b2p.
  - intros [Hb Hh He Hs Ho Hn]. split_and!; try done.
    + by apply N.ltb_ge.
    + rewrite Ho. destruct (head _); simpl; [|done]. by rewrite bool_decide_true.
    + rewrite Hn. destruct (last _); simpl; [|done]. by rewrite bool_decide_true.
    + rewrite Ho, Hn. by destruct (tw_entries w).
Qed.

Lemma key_lt_fmap {A} (key : A -> N) l :
  StronglySorted (key_lt key) l <-> StronglySorted N.lt (key <$> l).
Proof.
  induction l as [|x l IH]; [split; constructor|]. rewrite fmap_cons. split;
    intros [Hs Hall]%StronglySorted_inv; constructor; try by apply IH.
  - by rewrite Forall_fmap.
  - by rewrite Forall_fmap in Hall.
Qed.

Lemma numbered_subset es es' : es ⊆ es' -> numbered es' -> numbered es.
Proof. intros Hsub Hn a b Ha Hb. apply Hn; by apply Hsub. Qed.

(** What the entries of an upserted window are. *)
Lemma upsert_window_entries w entry :
  tw_entries (upsert_window w entry) =
    (if is_some (List.find (same_entry entry) (tw_entries w)) then tw_entries (replace_entry w entry)
     else tw_entries (push_entry w entry)).
Proof. unfold upsert_window. by case_match. Qed.

Lemma same_entry_true entry x : same_entry entry x = true <-> te_entry_id x = te_entry_id entry.
Proof. apply String.eqb_eq. Qed.

Lemma push_entry_sublist w entry :
  sublist (tw_entries (push_entry w entry)) (sort_by_key te_sequence (tw_entries w ++ [entry])).
Proof. unfold push_entry. case_match; simpl; [apply tail_sublist|done]. Qed.

Lemma upsert_window_subset w entry : tw_entries (upsert_window w entry) ⊆ entry :: tw_entries w.
Proof.
  rewrite upsert_window_entries. case_match.
  - apply update_first_subset. intros x. case_match; auto.
  - intros x Hx%(sublist_subset _ _ (push_entry_sublist w entry)).
    rewrite sort_by_key_perm in Hx. set_solver.
Qed.

Lemma window_bounds_valid w :
  len (tw_entries w) <= MAX_TIMELINE_ENTRIES_IN_SNAPSHOT ->
  opt_each valid_token (tw_history_boundary w) = Ok tt ->
  Forall (fun e => TimelineEntry_validate e = Ok tt) (tw_entries w) ->
  StronglySorted (key_lt te_sequence) (tw_entries w) ->
  window_valid (window_bounds w).
Proof. by split. Qed.

Lemma replace_entry_sequences w entry :
  numbered (entry :: tw_entries w) ->
  te_sequence <$> tw_entries (replace_entry w entry) = te_sequence <$> tw_entries w.
Proof.
  intros Hn. cbn. assert (forall x, x ∈ tw_entries w -> te_entry_id x = te_entry_id entry ->
    te_sequence entry = te_sequence x) as Hx.
  { intros x Hx Hid. symmetry. apply (Hn x entry); [by right|by left|done]. }
  clear Hn. induction (tw_entries w) as [|x l IH]; [done|]. cbn [update_first].
  destruct (same_entry entry x) eqn:Hp; rewrite !fmap_cons; f_equal.
  - case_match; [|done]. apply Hx; [by left|by apply same_entry_true].
  - apply IH. intros y Hy. apply Hx. by right.
Qed.

Lemma push_entry_sorted w entry :
  numbered (entry :: tw_entries w) ->
  StronglySorted (key_lt te_sequence) (tw_entries w) ->
  List.find (same_entry entry) (tw_entries w) = None ->
  StronglySorted (key_lt te_sequence) (tw_entries (push_entry w entry)).
Proof.
  intros Hn Hs Hf. eapply StronglySorted_sublist; [apply push_entry_sublist|].
  apply sort_by_key_lt; [apply sort_by_key_sorted|].
  rewrite sort_by_key_perm, fmap_app. apply NoDup_app. split_and!.
  - by apply key_lt_NoDup.
  - intros s Hin Hs'. apply list_elem_of_fmap in Hin as (x & -> & Hx).
    apply list_elem_of_singleton in Hs'. apply find_none_forall in Hf.
    rewrite Forall_forall in Hf. specialize (Hf x Hx).
    assert (te_entry_id x = te_entry_id entry) as Hid
      by (apply (Hn x entry); [by right|by left|done]).
    apply same_entry_true in Hid. congruence.
  - apply NoDup_singleton.
Qed.

Lemma push_entry_bound w entry :
  len (tw_entries w) <= MAX_TIMELINE_ENTRIES_IN_SNAPSHOT ->
  len (tw_entries (push_entry w entry)) <= MAX_TIMELINE_ENTRIES_IN_SNAPSHOT.
Proof.
  intros Hl. unfold push_entry. set (es := sort_by_key _ _).
  assert (len es = len (tw_entries w) + 1) as He.
  { unfold es, len. rewrite sort_by_key_perm. fold (len (tw_entries w ++ [entry])).
    by rewrite len_app. }
  destruct (N.ltb_spec MAX_TIMELINE_ENTRIES_IN_SNAPSHOT (len es)); cbn; [|done].
  rewrite len_tail. lia.
Qed.

(** An upsert keeps the window valid as long as ids and sequences name the same rows. *)
Lemma upsert_window_valid w entry :
  window_valid w -> TimelineEntry_validate entry = Ok tt ->
  numbered (entry :: tw_entries w) ->
  window_valid (upsert_window w entry).
Proof.
  intros [Hb Hh He Hs Ho Hn] Hv Hnum.
  assert (Forall (fun e => TimelineEntry_validate e = Ok tt) (entry :: tw_entries w)) as Hall
    by by constructor.
  pose proof (upsert_window_subset w entry) as Hsub.
  rewrite upsert_window_entries in Hsub. unfold upsert_window.
  destruct (is_some _) eqn:Hf; apply window_bounds_valid; try done.
  - unfold replace_entry, len. cbn. by rewrite update_first_length.
  - rewrite Forall_forall in Hall |- *. auto.
  - rewrite key_lt_fmap, replace_entry_sequences, <- key_lt_fmap; done.
  - by apply push_entry_bound.
  - unfold push_entry. by case_match.
  - rewrite Forall_forall in Hall |- *. auto.
  - apply push_entry_sorted; [done..|]. by destruct (List.find _ _).
Qed.

(** ** Validity of a snapshot, field by field *)

(** The fields no delta writes. *)
Definition fixed_fields (s : AgentSessionSnapshot) :=
  (ss_v s, ss_session_id s, ss_snapshot_epoch s, ss_process_generation s, ss_adapter s,
   ss_topology s, ss_presence s, ss_stored_reason s, ss_control_owner s, ss_drift s).

Definition fixed_valid (s : AgentSessionSnapshot) : Prop :=
  require_version (ss_v s) = Ok tt /\ valid_opaque_id (ss_session_id s) = Ok tt
  /\ ss_snapshot_epoch s <> 0 /\ ss_process_generation s <> 0
  /\ AgentAdapterMetadata_validate (ss_adapter s) = Ok tt
  /\ valid_token (ss_topology s) = Ok tt /\ valid_token (ss_presence s) = Ok tt
  /\ valid_token (ss_control_owner s) = Ok tt
  /\ opt_each DriftNote_validate (ss_drift s) = Ok tt.

Definition mode_valid (mode : string) : checked := invalid_if (negb (valid_permission_mode mode)).

(** The fields a delta writes, each valid by itself. *)
Record content_valid (s : AgentSessionSnapshot) : Prop := mk_content_valid {
  cv_observation : Observation_validate (ss_observation s) = Ok tt;
  cv_turn : TurnState_validate (ss_turn s) = Ok tt;
  cv_mode : opt_each mode_valid (ss_permission_mode s) = Ok tt;
  cv_model : opt_each valid_model_id (ss_model s) = Ok tt;
  cv_effort : opt_each valid_token (ss_effort s) = Ok tt;
  cv_models : opt_each validate_model_catalogue (ss_models s) = Ok tt;
  cv_capabilities : AgentCapabilities_validate (ss_capabilities s) = Ok tt;
  cv_pending_bound : len (ss_pending_interactions s) <= MAX_PENDING_INTERACTIONS;
  cv_pending : Forall (fun i => PendingInteraction_validate i = Ok tt) (ss_pending_interactions s);
  cv_receipts_bound : len (ss_latest_command_receipts s) <= MAX_COMMAND_RECEIPTS;
  cv_receipts : Forall (fun r => CommandReceipt_validate r = Ok tt /\ receipt_of s r = true)
                  (ss_latest_command_receipts s);
  cv_window : window_valid (ss_timeline_window s);
  cv_fallback : TerminalFallback_validate (ss_terminal_fallback s) = Ok tt
}.

(** The checks that tie fields together. *)
Record coherent (s : AgentSessionSnapshot) : Prop := mk_coherent {
  co_revision : ss_revision s <> 0;
  co_continuity : ac_terminal_continuity (ss_capabilities s) = tf_continuity (ss_terminal_fallback s);
  co_awaiting : existsb is_unresolved_blocking (ss_pending_interactions s) = true ->
                is_awaiting (ss_turn s) = true;
  co_topology : validate_topology_presence (ss_topology s) (ss_presence s) (ss_stored_reason s)
                  (ss_turn s) (ss_capabilities s) = Ok tt;
  co_stored : ss_presence s = "stored"%string -> ss_pending_interactions s = []
}.

Lemma snapshot_valid_iff s :
  AgentSessionSnapshot_validate s = Ok tt <-> fixed_valid s /\ content_valid s /\ coherent s.
Proof.
  unfold AgentSessionSnapshot_validate, invalid_if.
  rewrite !rbind_unit_ok, !each_ok, !refuse_if_ok, window_valid_iff, !orb_false_iff,
    !N.eqb_neq, !N.ltb_ge, negb_false_iff, String.eqb_eq, !andb_false_iff, !negb_false_iff, N.eqb_eq,
    String.eqb_neq.
  split.
  - intros Hall. destruct_and! Hall.
    split; [unfold fixed_valid; by split_and!|split; split]; try done.
    + eapply Forall_impl; [done|]. cbn. intros r Hr.
      by rewrite rbind_unit_ok, refuse_if_ok, negb_false_iff in Hr.
    + intros Hb. destruct_or!; congruence.
    + intros Hp. destruct_or!; try done; by apply List.length_zero_iff_nil, Nat2N.inj.
  - intros ((?&?&?&?&?&?&?&?&?) & [] & [Hrev Hc Ha Ht Hst]). split_and!; try done.
    + eapply Forall_impl; [done|]. cbn. intros r Hr.
      by rewrite rbind_unit_ok, refuse_if_ok, negb_false_iff.
    + destruct (existsb _ _); [right|left]; auto.
    + destruct (String.eqb_spec (ss_presence s) "stored"); [right; by rewrite Hst|by left].
Qed.

(** ** The content pass *)

(** What a change may bring into the window. *)
Definition upserts_of (changes : list AgentDeltaChange) : list TimelineEntry :=
  omap (fun change => match change with ChUpsertEntry entry => Some entry | _ => None end) changes.

Definition pooled (pool : list TimelineEntry) (s : AgentSessionSnapshot) : Prop :=
  tw_entries (ss_timeline_window s) ⊆ pool.

Lemma receipt_of_fixed s s' r : fixed_fields s = fixed_fields s' -> receipt_of s r = receipt_of s' r.
Proof. unfold fixed_fields, receipt_of. by intros [= _ -> -> -> _ _ _ _ _ _]. Qed.

Lemma upsert_interaction_valid s i s' r :
  content_valid s -> PendingInteraction_validate i = Ok tt ->
  upsert_interaction s i = (s', r) -> content_valid s' /\ fixed_fields s' = fixed_fields s
    /\ ss_timeline_window s' = ss_timeline_window s.
Proof.
  intros [] Hi. unfold upsert_interaction. case_match; [|destruct (N.leb_spec MAX_PENDING_INTERACTIONS
    (len (ss_pending_interactions s)))]; intros [= <- <-]; split; try done; split; try done; cbn.
  - unfold len; by rewrite update_first_length.
  - apply update_first_Forall; [done|]. intros x _ Hx. by case_match.
  - rewrite len_snoc. lia.
  - apply Forall_app. by split; [|constructor].
Qed.

Lemma upsert_receipt_valid s r s' res :
  content_valid s -> CommandReceipt_validate r = Ok tt ->
  upsert_receipt s r = (s', res) -> content_valid s' /\ fixed_fields s' = fixed_fields s
    /\ ss_timeline_window s' = ss_timeline_window s.
Proof.
  intros Hcv Hr. unfold upsert_receipt.
  destruct (_ || _) eqn:Hid; [by intros [= <- <-]|].
  assert (receipt_of s r = true) as Hof.
  { apply orb_false_iff in Hid as [[Hs He]%orb_false_iff Hg]. apply negb_false_iff in Hs, He, Hg.
    unfold receipt_of. by rewrite Hs, He, Hg. }
  case_match; [case_match; [by intros [= <- <-]|case_match; [|by intros [= <- <-]]]|];
    intros [= <- <-]; destruct Hcv; split; try done; split; try done; cbn.
  - unfold len; by rewrite update_first_length.
  - apply update_first_Forall; [done|]. by intros.
  - case_match; [rewrite len_tail|]; rewrite len_snoc in *; b2p; lia.
  - assert (Forall (fun r0 => CommandReceipt_validate r0 = Ok tt /\ receipt_of s r0 = true)
      (ss_latest_command_receipts s ++ [r])) by (apply Forall_app; by split; [|constructor]).
    case_match; [by apply Forall_tail|done].
Qed.

Lemma apply_content_change_valid pool s change s' r :
  content_valid s -> AgentDeltaChange_validate change = Ok tt ->
  numbered pool -> pooled pool s -> (forall e, change = ChUpsertEntry e -> e ∈ pool) ->
  apply_content_change s change = (s', r) ->
  content_valid s' /\ fixed_fields s' = fixed_fields s /\ pooled pool s'.
Proof.
  intros Hcv Hv Hnum Hpool Hin Happ.
  destruct change; cbn in Happ, Hv;
    try (injection Happ as <- <-; split; [destruct Hcv; by split|by split]).
  - injection Happ as <- <-. specialize (Hin _ eq_refl).
    split; [|split; [done|]].
    + destruct Hcv. split; try done. cbn. apply upsert_window_valid; [done..|].
      eapply numbered_subset; [|done]. set_solver.
    + unfold pooled. cbn. pose proof (upsert_window_subset (ss_timeline_window s) entry).
      unfold pooled in Hpool. set_solver.
  - eapply upsert_interaction_valid in Happ as (? & ? & Hw); [|done..].
    unfold pooled. by rewrite Hw.
  - injection Happ as <- <-. split; [|done]. destruct Hcv; split; try done; cbn.
    + etrans; [|done]. unfold len. pose proof (List.filter_length_le
        (fun item => negb (pi_interaction_id item =s? interaction_id)) (ss_pending_interactions s)). lia.
    + rewrite Forall_forall in *. intros x Hx. apply list_elem_of_In, List.filter_In in Hx as [Hx _].
      apply list_elem_of_In in Hx. auto.
  - eapply upsert_receipt_valid in Happ as (? & ? & Hw); [|done..].
    unfold pooled. by rewrite Hw.
Qed.

Lemma apply_content_changes_valid pool changes s s' r :
  content_valid s -> Forall (fun c => AgentDeltaChange_validate c = Ok tt) changes ->
  numbered pool -> pooled pool s -> upserts_of changes ⊆ pool ->
  apply_content_changes s changes = (s', r) ->
  content_valid s' /\ fixed_fields s' = fixed_fields s /\ pooled pool s'.
Proof.
  revert s. induction changes as [|c cs IH]; intros s Hcv Hall Hnum Hpool Hsub;
    cbn [apply_content_changes]; [by intros [= <- <-]|].
  apply Forall_cons in Hall as [Hc Hcs].
  destruct (apply_content_change s c) as [s1 r1] eqn:H1.
  assert (content_valid s1 /\ fixed_fields s1 = fixed_fields s /\ pooled pool s1) as (Hcv1 & Hf1 & Hp1).
  { eapply apply_content_change_valid; try done. intros e ->. apply Hsub. by left. }
  destruct r1 as [[]|e]; [|by intros [= <- <-]].
  intros H2. rewrite <- Hf1. eapply IH; try done.
  intros e He. apply Hsub. unfold upserts_of. cbn. destruct c; set_solver.
Qed.

(** ** The route pass *)

Lemma apply_route_change_valid s change :
  content_valid s -> AgentDeltaChange_validate change = Ok tt ->
  content_valid (apply_route_change s change).
Proof.
  intros [] Hv. destruct change; try done; cbn in *; split; try done; cbn.
  unfold AgentCapabilities_validate, TerminalFallback_validate in *. rewrite !rbind_unit_ok in *.
  by intuition.
Qed.

Lemma route_pass_facts changes s :
  content_valid s -> Forall (fun c => AgentDeltaChange_validate c = Ok tt) changes ->
  let s' := foldl apply_route_change s changes in
  content_valid s' /\ fixed_fields s' = fixed_fields s
  /\ ss_timeline_window s' = ss_timeline_window s.
Proof.
  revert s. induction changes as [|c cs IH]; intros s Hcv Hall; [done|].
  apply Forall_cons in Hall as [Hc Hcs]. cbn.
  destruct (IH (apply_route_change s c)) as (H1 & H2 & H3); [by apply apply_route_change_valid|done|].
  split_and!; [done|rewrite H2|rewrite H3]; by destruct c.
Qed.

(** ** One delta *)

Definition same_identity (s : AgentSessionSnapshot) (d : AgentSessionDelta) : Prop :=
  sd_session_id d = ss_session_id s /\ sd_snapshot_epoch d = ss_snapshot_epoch s
  /\ sd_process_generation d = ss_process_generation s.

Lemma fence_delta_none s d :
  fence_delta s d = None <->
  same_identity s d /\ sd_base_revision d = ss_revision s /\ sd_revision d = ss_revision s + 1.
Proof.
  unfold fence_delta, same_identity.
  destruct (String.eqb_spec (sd_session_id d) (ss_session_id s)),
    (N.eqb_spec (sd_snapshot_epoch d) (ss_snapshot_epoch s)),
    (N.eqb_spec (sd_process_generation d) (ss_process_generation s)); cbn; try (split; [done|tauto]).
  destruct (N.leb_spec (sd_revision d) (ss_revision s)); [split; [done|lia]|].
  destruct (N.eqb_spec (sd_base_revision d) (ss_revision s)),
    (N.eqb_spec (sd_revision d) (ss_revision s + 1)); cbn; split; try done; tauto.
Qed.

Lemma apply_delta_cases s d :
  (exists e, AgentSessionDelta_validate d = Err e /\ apply_delta s d = (s, Err e))
  \/ (AgentSessionDelta_validate d = Ok tt /\ exists o, fence_delta s d = Some o /\ apply_delta s d = (s, Ok o))
  \/ (AgentSessionDelta_validate d = Ok tt /\ fence_delta s d = None).
Proof.
  unfold apply_delta. destruct (AgentSessionDelta_validate d) as [[]|e]; [|left; by eexists].
  right. destruct (fence_delta s d) as [o|]; [left; split; [done|by eexists]|by right].
Qed.

Lemma delta_changes_valid d : AgentSessionDelta_validate d = Ok tt ->
  Forall (fun c => AgentDeltaChange_validate c = Ok tt) (sd_changes d).
Proof. unfold AgentSessionDelta_validate. rewrite !rbind_unit_ok, each_ok. by intros (_ & _ & _ & ?). Qed.

Definition enforced (s : AgentSessionSnapshot) : AgentSessionSnapshot := (enforce_reducer_invariants s).1.

(** What [enforce_reducer_invariants] writes, and when it refuses. *)
Lemma enforce_spec s :
  let s' := enforced s in
  fixed_fields s' = fixed_fields s /\ ss_revision s' = ss_revision s
  /\ ss_terminal_fallback s' = ss_terminal_fallback s
  /\ ss_capabilities s' =
       set_ac_terminal_continuity (tf_continuity (ss_terminal_fallback s)) (ss_capabilities s)
  /\ ss_timeline_window s' = ss_timeline_window s
  /\ ss_turn s' = (if existsb is_unresolved_blocking (ss_pending_interactions s)
                   then AwaitingInteraction None else ss_turn s)
  /\ (content_valid s -> content_valid s')
  /\ ss_pending_interactions s' = ss_pending_interactions s
  /\ (enforce_reducer_invariants s).2
     = invalid_if ((ss_topology s =s? "managed")
                   && negb (tf_continuity (ss_terminal_fallback s) =s? "unavailable")).
Proof.
  destruct s as [? ? ? ? ? ? topology ? ? ? ? ? ? ? ? ? ? caps pending ? fallback ?].
  unfold enforced, enforce_reducer_invariants. cbn.
  assert (ac_terminal_continuity caps = tf_continuity fallback ->
    caps = set_ac_terminal_continuity (tf_continuity fallback) caps) as Hsame
    by (intros <-; by destruct caps).
  destruct (existsb _ pending); cbn;
  destruct (String.eqb_spec (ac_terminal_continuity caps) (tf_continuity fallback)) as [Heq|]; cbn;
    destruct ((topology =s? "managed") && _); cbn; split_and!; auto;
    intros []; split; try done; cbn in *;
    unfold AgentCapabilities_validate, TerminalFallback_validate in *;
    rewrite !rbind_unit_ok in *; by intuition.
Qed.

Lemma apply_content_changes_route changes s s' r :
  apply_content_changes s changes = (s', r) ->
  ss_terminal_fallback s' = ss_terminal_fallback s /\ ss_capabilities s' = ss_capabilities s
  /\ ss_revision s' = ss_revision s /\ fixed_fields s' = fixed_fields s.
Proof.
  revert s. induction changes as [|c cs IH]; intros s; cbn [apply_content_changes];
    [by intros [= <- <-]|].
  destruct (apply_content_change s c) as [s1 r1] eqn:H1.
  assert (ss_terminal_fallback s1 = ss_terminal_fallback s /\ ss_capabilities s1 = ss_capabilities s
    /\ ss_revision s1 = ss_revision s /\ fixed_fields s1 = fixed_fields s) as (Ht & Hc & Hr & Hf).
  { destruct c; cbn in H1; try (by injection H1 as <- <-).
    - unfold upsert_interaction in H1. repeat case_match; by injection H1 as <- <-.
    - unfold upsert_receipt in H1. repeat case_match; by injection H1 as <- <-. }
  destruct r1; [|by intros [= <- <-]].
  intros H2%IH. rewrite <- Ht, <- Hc, <- Hr, <- Hf. done.
Qed.

Lemma route_pass_fixed changes s :
  fixed_fields (foldl apply_route_change s changes) = fixed_fields s
  /\ ss_revision (foldl apply_route_change s changes) = ss_revision s.
Proof.
  revert s. induction changes as [|c cs IH]; intros s; [done|]. cbn.
  destruct (IH (apply_route_change s c)) as [-> ->]. by destruct c.
Qed.

(** An admitted delta, as its three passes. *)
Lemma apply_delta_admitted s d s' r :
  AgentSessionDelta_validate d = Ok tt -> fence_delta s d = None -> apply_delta s d = (s', r) ->
  exists s1 r1, apply_content_changes (foldl apply_route_change s (sd_changes d)) (sd_changes d) = (s1, r1)
  /\ match r1 with
     | Err e => s' = s1 /\ r = Err e
     | Ok _ => s' = enforced (set_ss_revision (sd_revision d) s1)
               /\ r = rmap (fun _ => Applied)
                        (enforce_reducer_invariants (set_ss_revision (sd_revision d) s1)).2
     end.
Proof.
  unfold apply_delta. intros -> ->. unfold enforced.
  destruct (apply_content_changes _ _) as [s1 [[]|e]] eqn:Hc;
    [|intros [= <- <-]; by eexists _, _].
  destruct (enforce_reducer_invariants _) as [s2 [[]|e]] eqn:He; intros [= <- <-];
    eexists _, _; (split; [done|]); by rewrite He.
Qed.

Lemma apply_delta_fixed s d s' r : apply_delta s d = (s', r) -> fixed_fields s' = fixed_fields s.
Proof.
  intros Ha. destruct (apply_delta_cases s d) as [(e & _ & H)|[(_ & o & _ & H)|[Hv Hf]]];
    [congruence..|].
  destruct (apply_delta_admitted _ _ _ _ Hv Hf Ha) as (s1 & r1 & Hc & H).
  apply apply_content_changes_route in Hc as (_ & _ & _ & Hfx).
  destruct (route_pass_fixed (sd_changes d) s) as [Hr _].
  destruct r1; destruct H as [-> _]; [|congruence].
  destruct (enforce_spec (set_ss_revision (sd_revision d) s1)) as [He _].
  etrans; [exact He|]. rewrite <- Hr, <- Hfx. by destruct s1.
Qed.

Lemma apply_delta_not_applied s d s' o :
  apply_delta s d = (s', Ok o) -> o <> Applied -> s' = s /\ fence_delta s d = Some o.
Proof.
  intros Ha Ho. destruct (apply_delta_cases s d) as [(e & _ & H)|[(_ & o' & Hf & H)|[Hv Hf]]];
    [congruence|by split; congruence|].
  destruct (apply_delta_admitted _ _ _ _ Hv Hf Ha) as (s1 & [[]|e] & _ & _ & Hr); [|done].
  destruct (enforce_reducer_invariants _).2; simpl in Hr; congruence.
Qed.

Lemma apply_delta_applied s d s' :
  apply_delta s d = (s', Ok Applied) ->
  AgentSessionDelta_validate d = Ok tt /\ fence_delta s d = None
  /\ ss_revision s' = ss_revision s + 1.
Proof.
  intros Ha. destruct (apply_delta_cases s d) as [(e & _ & H)|[(_ & o' & Hf & H)|[Hv Hf]]].
  - congruence.
  - rewrite Ha in H. injection H as -> <-. unfold fence_delta in Hf. by repeat case_match.
  - split_and!; [done..|]. destruct (apply_delta_admitted _ _ _ _ Hv Hf Ha) as (s1 & [[]|e] & Hc & H);
      [|by destruct H].
    destruct H as [-> _]. destruct (enforce_spec (set_ss_revision (sd_revision d) s1)) as (_ & Hrev & _).
    etrans; [exact Hrev|]. apply fence_delta_none in Hf. cbn. lia.
Qed.

(** An [Ok] outcome says exactly how the delta stood against the snapshot. [Applied] is one
    revision forward under the same identity; every other outcome leaves the snapshot as it was,
    and the identity fields never change. *)
Theorem apply_delta_outcome s d s' o :
  apply_delta s d = (s', Ok o) ->
  fixed_fields s' = fixed_fields s /\
  match o with
  | Applied => same_identity s d /\ sd_base_revision d = ss_revision s
               /\ sd_revision d = ss_revision s + 1 /\ ss_revision s' = sd_revision d
  | Duplicate => s' = s /\ same_identity s d /\ sd_revision d = ss_revision s
  | Stale => s' = s /\ same_identity s d /\ sd_revision d < ss_revision s
  | ResyncRequired reason =>
      s' = s /\ ((reason = "identity_fence"%string /\ ~ same_identity s d)
                 \/ (reason = "revision_gap"%string /\ same_identity s d /\ ss_revision s < sd_revision d
                     /\ ~ (sd_base_revision d = ss_revision s /\ sd_revision d = ss_revision s + 1)))
  end.
Proof.
  intros Ha. split; [by eapply apply_delta_fixed|].
  destruct (decide (o = Applied)) as [->|Ho].
  { apply apply_delta_applied in Ha as (_ & Hf & Hr). apply fence_delta_none in Hf as (? & ? & ?).
    split_and!; [done..|lia]. }
  apply apply_delta_not_applied in Ha as [-> Hf]; [|done].
  unfold fence_delta, same_identity in *.
  destruct (String.eqb_spec (sd_session_id d) (ss_session_id s)),
    (N.eqb_spec (sd_snapshot_epoch d) (ss_snapshot_epoch s)),
    (N.eqb_spec (sd_process_generation d) (ss_process_generation s)); cbn in Hf;
    try (injection Hf as <-; split; [done|]; left; split; [done|tauto]).
  destruct (N.leb_spec (sd_revision d) (ss_revision s)).
  - destruct (N.eqb_spec (sd_revision d) (ss_revision s)); injection Hf as <-; split_and!; auto. lia.
  - destruct (N.eqb_spec (sd_base_revision d) (ss_revision s)),
      (N.eqb_spec (sd_revision d) (ss_revision s + 1)); cbn in Hf; try done;
      injection Hf as <-; split; try done; right; split_and!; try done; tauto.
Qed.

Lemma receipts_fixed s s' : fixed_fields s' = fixed_fields s -> fixed_valid s -> fixed_valid s'.
Proof.
  unfold fixed_fields, fixed_valid. by intros [= -> -> -> -> -> -> -> _ -> ->].
Qed.

(** For a live session the topology rules constrain only the terminal continuity. *)
Lemma topology_live topology presence reason turn turn' caps caps' :
  presence <> "stored"%string ->
  validate_topology_presence topology presence reason turn caps = Ok tt ->
  (topology = "managed"%string -> ac_terminal_continuity caps' = "unavailable"%string) ->
  (topology = "adopted"%string -> ac_terminal_continuity caps' = "resumable_session"%string) ->
  validate_topology_presence topology presence reason turn' caps' = Ok tt.
Proof.
  intros Hp%String.eqb_neq. unfold validate_topology_presence, invalid_if. rewrite Hp, !andb_false_l.
  rewrite !rbind_unit_ok, !refuse_if_ok. intros (Hr & _ & _ & Ha) Hm Had.
  split_and!; [done..| |].
  - destruct (String.eqb_spec topology "managed"); [|done]. by rewrite Hm.
  - destruct (String.eqb_spec topology "adopted"); [|done].
    rewrite Had, String.eqb_refl by done. cbn in *. rewrite orb_false_r.
    by apply orb_false_iff in Ha as [-> _].
Qed.

Lemma route_pass_fallback changes s :
  ss_terminal_fallback (foldl apply_route_change s changes) = ss_terminal_fallback s
  \/ ChTerminalFallback (ss_terminal_fallback (foldl apply_route_change s changes)) ∈ changes.
Proof.
  revert s. induction changes as [|c cs IH]; intros s; [by left|]. cbn.
  destruct (IH (apply_route_change s c)) as [->|H]; [|right; by right].
  destruct c; cbn; auto. right. by left.
Qed.

Lemma apply_delta_valid s d s' :
  AgentSessionSnapshot_validate s = Ok tt ->
  ss_presence s <> "stored"%string ->
  numbered (tw_entries (ss_timeline_window s) ++ upserts_of (sd_changes d)) ->
  (ss_topology s = "adopted"%string -> forall f, ChTerminalFallback f ∈ sd_changes d ->
     tf_continuity f = "resumable_session"%string) ->
  apply_delta s d = (s', Ok Applied) ->
  AgentSessionSnapshot_validate s' = Ok tt.
Proof.
  intros (Hfx & Hcv & [Hrev Hcont Haw Htop Hst])%snapshot_valid_iff Hlive Hnum Hadopt Ha.
  apply snapshot_valid_iff.
  assert (fixed_fields s' = fixed_fields s) as Hfixed by by eapply apply_delta_fixed.
  destruct (apply_delta_applied _ _ _ Ha) as (Hv & Hf & Hr').
  destruct (apply_delta_admitted _ _ _ _ Hv Hf Ha) as (s2 & [[]|e] & Hc & H); [|by destruct H].
  destruct H as [Hs' Henf].
  destruct (route_pass_facts (sd_changes d) s Hcv (delta_changes_valid _ Hv)) as (Hcv1 & Hf1 & Hw1).
  set (s1 := foldl apply_route_change s (sd_changes d)) in *.
  destruct (apply_content_changes_valid _ _ _ _ _ Hcv1 (delta_changes_valid _ Hv) Hnum
    ltac:(unfold pooled; rewrite Hw1; set_solver) ltac:(set_solver) Hc) as (Hcv2 & Hf2 & _).
  apply apply_content_changes_route in Hc as (Hfb & Hcaps & _ & _).
  destruct (enforce_spec (set_ss_revision (sd_revision d) s2))
    as (_ & _ & Efb & Ecaps & _ & Eturn & Ecv & Epend & Eres).
  rewrite <- Hs' in Efb, Ecaps, Eturn, Ecv, Epend. cbn in Efb, Ecaps, Eturn, Epend.
  split; [by eapply receipts_fixed|]. split; [apply Ecv; by destruct Hcv2|].
  assert (ss_topology s' = ss_topology s /\ ss_presence s' = ss_presence s
    /\ ss_stored_reason s' = ss_stored_reason s) as (Htp & Hpr & Hsr) by (by injection Hfixed).
  assert (ss_topology s2 = ss_topology s) as Htp2.
  { assert (fixed_fields s2 = fixed_fields s) as H by congruence. by injection H. }
  split.
  - lia.
  - by rewrite Ecaps, Efb.
  - rewrite Epend, Eturn. by intros ->.
  - rewrite Htp, Hpr, Hsr. eapply topology_live; [done..| |]; rewrite Ecaps; cbn.
    + intros Hm. rewrite Eres in Henf. cbn in Henf. rewrite Htp2, Hm in Henf. cbn in Henf.
      destruct (String.eqb_spec (tf_continuity (ss_terminal_fallback s2)) "unavailable"); done.
    + intros Had. rewrite Hfb. pose proof (route_pass_fallback (sd_changes d) s) as Hroute.
      fold s1 in Hroute. destruct Hroute as [->|Hin];
        [|by apply (Hadopt Had)].
      rewrite <- Hcont. unfold validate_topology_presence, invalid_if in Htop.
      rewrite !rbind_unit_ok, !refuse_if_ok, Had in Htop. destruct Htop as (_ & _ & _ & Ht).
      cbn in Ht. b2p. done.
  - by rewrite Hpr.
Qed.

(** C3: the reducer keeps a live snapshot valid: whatever a valid delta carries, the snapshot it
    is [Applied] to still passes [AgentSessionSnapshot::validate], provided entry ids and sequences
    keep naming the same rows and an adopted session keeps its resumable route. *)
Theorem apply_delta_preserves_valid s d s' :
  AgentSessionSnapshot_validate s = Ok tt ->
  ss_presence s <> "stored"%string ->
  numbered (tw_entries (ss_timeline_window s) ++ upserts_of (sd_changes d)) ->
  (ss_topology s = "adopted"%string -> forall f, ChTerminalFallback f ∈ sd_changes d ->
     tf_continuity f = "resumable_session"%string) ->
  apply_delta s d = (s', Ok Applied) ->
  AgentSessionSnapshot_validate s' = Ok tt.
Proof. apply apply_delta_valid. Qed.

(** ** Progress *)

Definition interactions_of (changes : list AgentDeltaChange) : list PendingInteraction :=
  omap (fun change => match change with ChUpsertInteraction i => Some i | _ => None end) changes.

Lemma content_change_progress s change s' r :
  AgentDeltaChange_validate change = Ok tt ->
  len (ss_pending_interactions s) + len (interactions_of [change]) <= MAX_PENDING_INTERACTIONS ->
  apply_content_change s change = (s', r) ->
  r = Ok tt
  /\ len (ss_pending_interactions s') <= len (ss_pending_interactions s) + len (interactions_of [change]).
Proof.
  intros Hv Hroom. destruct change; cbn; try (intros [= <- <-]; split; [done|cbn; lia]).
  - unfold upsert_interaction. cbn in Hroom. case_match.
    + intros [= <- <-]. split; [done|]. cbn. unfold len at 1. rewrite update_first_length.
      fold (len (ss_pending_interactions s)). lia.
    + destruct (N.leb_spec MAX_PENDING_INTERACTIONS (len (ss_pending_interactions s)));
        [change (len [interaction]) with 1 in Hroom; lia|].
      intros [= <- <-]. split; [done|]. cbn [ss_pending_interactions set_ss_pending_interactions]. rewrite len_snoc. change (len [interaction]) with 1. lia.
  - intros [= <- <-]. split; [done|]. cbn. unfold len. pose proof (List.filter_length_le
      (fun item => negb (pi_interaction_id item =s? interaction_id)) (ss_pending_interactions s)). lia.
  - unfold upsert_receipt. repeat case_match; intros [= <- <-]; try (split; [done|cbn; lia]).
    unfold unproved_application in *. cbn in Hv. unfold CommandReceipt_validate, invalid_if in Hv.
    rewrite !rbind_unit_ok, !refuse_if_ok in Hv. destruct Hv as (_ & _ & _ & _ & _ & _ & Hv).
    b2p. apply andb_false_iff in Hv as [Hv|Hv]; b2p; congruence.
Qed.

Lemma content_changes_progress changes s :
  Forall (fun c => AgentDeltaChange_validate c = Ok tt) changes ->
  len (ss_pending_interactions s) + len (interactions_of changes) <= MAX_PENDING_INTERACTIONS ->
  (apply_content_changes s changes).2 = Ok tt.
Proof.
  revert s. induction changes as [|c cs IH]; intros s Hall Hroom; [done|].
  apply Forall_cons in Hall as [Hc Hcs]. cbn [apply_content_changes].
  assert (interactions_of (c :: cs) = interactions_of [c] ++ interactions_of cs) as Hio
    by (unfold interactions_of; by destruct c).
  rewrite Hio, len_app in Hroom.
  destruct (apply_content_change s c) as [s1 r1] eqn:H1.
  apply content_change_progress in H1 as [-> Hlen]; [|done|lia].
  apply IH; [done|lia].
Qed.

(** C6: a well-formed delta that follows the snapshot is always applied, as long as the session has
    room for its interactions and it opens no terminal route on a managed session. *)
Theorem apply_delta_progress s d :
  AgentSessionDelta_validate d = Ok tt ->
  same_identity s d -> sd_base_revision d = ss_revision s -> sd_revision d = ss_revision s + 1 ->
  len (ss_pending_interactions s) + len (interactions_of (sd_changes d)) <= MAX_PENDING_INTERACTIONS ->
  (ss_topology s = "managed"%string -> tf_continuity (ss_terminal_fallback s) = "unavailable"%string
     /\ forall f, ChTerminalFallback f ∈ sd_changes d -> tf_continuity f = "unavailable"%string) ->
  (apply_delta s d).2 = Ok Applied.
Proof.
  intros Hv Hid Hbase Hrev Hroom Hman.
  assert (fence_delta s d = None) as Hf by by apply fence_delta_none.
  destruct (apply_delta s d) as [s' r] eqn:Ha.
  destruct (apply_delta_admitted _ _ _ _ Hv Hf Ha) as (s2 & r1 & Hc & H).
  assert (forall cs, ss_pending_interactions (foldl apply_route_change s cs) = ss_pending_interactions s) as Hp.
  { clear. intros cs. revert s. induction cs as [|c cs IH]; intros s; [done|].
    cbn. rewrite IH. by destruct c. }
  pose proof (content_changes_progress (sd_changes d) (foldl apply_route_change s (sd_changes d))
    (delta_changes_valid _ Hv)) as Hprog.
  rewrite Hp, Hc in Hprog. cbn in Hprog. rewrite Hprog in H by done. destruct H as [_ ->].
  destruct (enforce_spec (set_ss_revision (sd_revision d) s2)) as (_ & _ & _ & _ & _ & _ & _ & _ & ->).
  apply apply_content_changes_route in Hc as (Hfb & _ & _ & Hfx). cbn.
  destruct (route_pass_fixed (sd_changes d) s) as [Hr _]. rewrite Hr in Hfx.
  assert (ss_topology s2 = ss_topology s) as Htp by (by injection Hfx).
  rewrite Htp, Hfb. destruct (String.eqb_spec (ss_topology s) "managed") as [Hm|]; [|done].
  destruct (Hman Hm) as [H1 H2].
  destruct (route_pass_fallback (sd_changes d) s) as [Heq|Hin]; [by rewrite Heq, H1|].
  by rewrite (H2 _ Hin).
Qed.

(** ** Route first *)

(** The fallback and the capabilities a list of changes settles on. *)
Definition last_fallback (changes : list AgentDeltaChange) : option TerminalFallback :=
  last (omap (fun change => match change with ChTerminalFallback f => Some f | _ => None end) changes).
Definition last_capabilities (changes : list AgentDeltaChange) : option AgentCapabilities :=
  last (omap (fun change => match change with ChCapabilities c => Some c | _ => None end) changes).

Definition commands_and_interactions (c : AgentCapabilities) :=
  (ac_history c, ac_commands c, ac_interactions c, ac_pending_rehydration c).

Lemma route_pass_last changes s :
  let s' := foldl apply_route_change s changes in
  ss_terminal_fallback s' = default (ss_terminal_fallback s) (last_fallback changes)
  /\ commands_and_interactions (ss_capabilities s')
     = commands_and_interactions (default (ss_capabilities s) (last_capabilities changes)).
Proof.
  revert s. induction changes as [|c cs IH]; intros s; [done|]. cbn zeta in *. cbn [foldl].
  destruct (IH (apply_route_change s c)) as [-> ->].
  unfold last_fallback, last_capabilities.
  destruct c; cbn [omap list_omap]; try done; split; try done;
    cbn; rewrite ?last_cons; by destruct (last (omap _ cs)).
Qed.

(** Route and capability proof is committed before presentation content: once a delta passes
    the fences, the snapshot holds its last terminal route and its last capabilities however the
    content pass ends, and an [Applied] snapshot's capabilities agree with its route. *)
Theorem apply_delta_route_first s d s' r :
  AgentSessionDelta_validate d = Ok tt -> fence_delta s d = None -> apply_delta s d = (s', r) ->
  ss_terminal_fallback s' = default (ss_terminal_fallback s) (last_fallback (sd_changes d))
  /\ commands_and_interactions (ss_capabilities s')
     = commands_and_interactions (default (ss_capabilities s) (last_capabilities (sd_changes d)))
  /\ (r = Ok Applied ->
      ac_terminal_continuity (ss_capabilities s') = tf_continuity (ss_terminal_fallback s')).
Proof.
  intros Hv Hf Ha. destruct (apply_delta_admitted _ _ _ _ Hv Hf Ha) as (s2 & r1 & Hc & H).
  apply apply_content_changes_route in Hc as (Hfb & Hcaps & _ & _).
  destruct (route_pass_last (sd_changes d) s) as [Hl1 Hl2].
  destruct r1 as [[]|e]; destruct H as [-> ->].
  - destruct (enforce_spec (set_ss_revision (sd_revision d) s2)) as (_ & _ & -> & -> & _). cbn.
    rewrite Hfb, Hl1, <- Hl2, <- Hcaps. done.
  - rewrite Hfb, Hcaps. by split_and!.
Qed.

(** ** Arrival orders *)

(** The deltas a host publishes from [s]: each one applies where the previous one left off. *)
Inductive published : AgentSessionSnapshot -> list AgentSessionDelta -> Prop :=
| published_nil s : published s []
| published_cons s s' d ds :
    apply_delta s d = (s', Ok Applied) -> published s' ds -> published s (d :: ds).

Definition client_step (s : AgentSessionSnapshot) (d : AgentSessionDelta) : AgentSessionSnapshot :=
  (apply_delta s d).1.

Lemma reduce_all_app s ds1 ds2 : reduce_all s (ds1 ++ ds2) = reduce_all (reduce_all s ds1) ds2.
Proof. apply foldl_app. Qed.

(** Where the [k]-th published delta stands. *)
Lemma published_revision s ds k :
  published s ds -> (k <= length ds)%nat ->
  ss_revision (reduce_all s (take k ds)) = ss_revision s + N.of_nat k.
Proof.
  intros Hp. revert k. induction Hp as [s|s s' d ds Ha Hp IH]; intros [|k] Hk; simpl in *; try lia.
  change (reduce_all s (d :: take k ds)) with (reduce_all (apply_delta s d).1 (take k ds)).
  rewrite Ha. cbn [fst]. rewrite IH by lia.
  apply apply_delta_applied in Ha as (_ & _ & ->). lia.
Qed.

Lemma published_delta s ds k d :
  published s ds -> ds !! k = Some d ->
  exists s', apply_delta (reduce_all s (take k ds)) d = (s', Ok Applied)
  /\ reduce_all s (take (S k) ds) = s'.
Proof.
  intros Hp. revert k. induction Hp as [s|s s' d' ds Ha Hp IH]; intros [|k] Hd; simplify_eq/=.
  - exists s'. by rewrite Ha.
  - apply IH in Hd as (s'' & H1 & H2). exists s''.
    change (reduce_all s (d' :: take k ds)) with (reduce_all (apply_delta s d').1 (take k ds)).
    split; [by rewrite Ha|]. by rewrite Ha.
Qed.

Lemma published_delta_revision s ds k d :
  published s ds -> ds !! k = Some d -> sd_revision d = ss_revision s + N.of_nat k + 1.
Proof.
  intros Hp Hd. destruct (published_delta _ _ _ _ Hp Hd) as (s' & Ha & _).
  apply apply_delta_applied in Ha as (_ & Hf & _). apply fence_delta_none in Hf as (_ & _ & ->).
  rewrite published_revision; [done..|]. apply lookup_lt_Some in Hd. lia.
Qed.

(** One arrival: the next delta is applied, any other published one changes nothing. *)
Lemma arrival_step s ds k j d :
  published s ds -> (k <= length ds)%nat -> ds !! j = Some d ->
  client_step (reduce_all s (take k ds)) d
  = reduce_all s (take (if Nat.eqb j k then S k else k) ds).
Proof.
  intros Hp Hk Hd. unfold client_step. destruct (Nat.eqb_spec j k) as [->|Hne].
  - destruct (published_delta _ _ _ _ Hp Hd) as (s' & -> & ->). done.
  - destruct (apply_delta_cases (reduce_all s (take k ds)) d) as [(e & _ & ->)|[(_ & o & _ & ->)|[_ Hf]]];
      [done..|].
    apply fence_delta_none in Hf as (_ & _ & Hr).
    rewrite (published_delta_revision _ _ _ _ Hp Hd), published_revision in Hr by done. lia.
Qed.

Lemma reduce_all_cons s d ds : reduce_all s (d :: ds) = reduce_all (client_step s d) ds.
Proof. done. Qed.

Lemma arrivals_prefix s ds arrivals k :
  published s ds -> (k <= length ds)%nat -> Forall (fun d => d ∈ ds) arrivals ->
  exists j, (k <= j <= length ds)%nat
  /\ reduce_all (reduce_all s (take k ds)) arrivals = reduce_all s (take j ds)
  /\ (forall rest, rest = drop k ds -> sublist rest arrivals -> j = length ds).
Proof.
  intros Hp. revert k. induction arrivals as [|d arrivals IH]; intros k Hk Hall.
  - exists k. split_and!; [lia..|done|]. intros rest -> Hsub.
    apply sublist_nil_r in Hsub. apply (f_equal length) in Hsub. rewrite length_drop in Hsub.
    simpl in Hsub. lia.
  - apply Forall_cons in Hall as [[j Hd]%list_elem_of_lookup Hall].
    rewrite reduce_all_cons, (arrival_step _ _ _ j) by done.
    assert (j < length ds)%nat as Hj by by eapply lookup_lt_Some.
    destruct (IH (if Nat.eqb j k then S k else k)) as (j' & Hj' & Hr & Hfull); [|done|].
    { destruct (Nat.eqb_spec j k); lia. }
    exists j'. split_and!; [destruct (Nat.eqb_spec j k); lia..|done|].
    intros rest Hrest Hsub. destruct (Nat.eqb_spec j k) as [->|Hne].
    + rewrite (drop_S _ d) in Hrest by done. subst rest.
      apply (Hfull (drop (S k) ds)); [done|].
      inversion Hsub; subst; [done|]. etrans; [|done]. by apply sublist_cons.
    + apply (Hfull rest); [done|]. inversion Hsub as [|? rest' ? Hsub' Heq|]; subst; [|done].
      assert (ds !! k = Some d) as Hk'.
      { rewrite <- (Nat.add_0_r k), <- lookup_drop. by rewrite <- Heq. }
      pose proof (published_delta_revision _ _ _ _ Hp Hd).
      pose proof (published_delta_revision _ _ _ _ Hp Hk'). lia.
Qed.

