(* ===== verification/Metadata.v ===== *)
(** The durable identity map of [agent_session.rs] ([AgentMetadataStore]): opaque session ids for
    upstream conversations, their fences, and the receipts kept for a day. *)
From S2P Require Import Prelude Text Protocol.

Local Open Scope N_scope.

Definition METADATA_VERSION : N := 1.
Definition MAX_IDENTITY_MAPPINGS : N := 256.
Definition RECEIPT_TTL_SECONDS : N := 24 * 60 * 60.
Definition MAX_AGENT_METADATA_FILE_BYTES : N := 16 * 1024 * 1024.
Definition MAX_UPSTREAM_SOURCE_ID_BYTES : N := 128.

(** [valid_source_id]. *)
Definition valid_source_id (value : string) : checked :=
  invalid_if ((slen value =? 0) || (MAX_UPSTREAM_SOURCE_ID_BYTES <? slen value)
              || negb (sall (fun b => token_byte b || (nb b =? 58)) value)).

(** ** Randomness: a draw is an argument of the operation that makes it *)

(** [random_id] for a draw of [random::<u128>()]. *)
Definition random_id (draw : N) : string := format_u128 draw.
(** [nonzero_random_u64] for a draw of [random::<u64>()]. *)
Definition nonzero_random_u64 (draw : N) : N := N.max (draw mod (u64_max + 1)) 1.

(** ** The file and the store *)

Record IdentityMapping := mkIdentityMapping {
  im_upstream_digest : string;
  im_session_id : string;
  im_process_nonce_digest : string;
  im_adapter_family : string;
  im_adapter_version : string;
  im_process_generation : N;
  im_snapshot_epoch : N;
  im_revision_seed : N;
  im_updated_at : N
}.

#[export] Instance IdentityMapping_eq_dec : EqDecision IdentityMapping.
Proof. solve_decision. Defined.

Record AgentMetadataFile := mkAgentMetadataFile {
  af_v : N;
  af_key : string;
  af_mappings : list IdentityMapping;
  af_receipts : list CommandReceipt
}.

(** The store in memory, and the file it last replaced on disk. *)
Record AgentMetadataStore := mkAgentMetadataStore {
  ms_key : list N;
  ms_mappings : list IdentityMapping;
  ms_receipts : list CommandReceipt;
  ms_disk : option AgentMetadataFile
}.

Definition set_mappings (l : list IdentityMapping) (st : AgentMetadataStore) : AgentMetadataStore :=
  mkAgentMetadataStore (ms_key st) l (ms_receipts st) (ms_disk st).
Definition set_receipts (l : list CommandReceipt) (st : AgentMetadataStore) : AgentMetadataStore :=
  mkAgentMetadataStore (ms_key st) (ms_mappings st) l (ms_disk st).
Definition set_disk (f : AgentMetadataFile) (st : AgentMetadataStore) : AgentMetadataStore :=
  mkAgentMetadataStore (ms_key st) (ms_mappings st) (ms_receipts st) (Some f).

Inductive MetadataError :=
| MetadataBounds | MetadataKey | MetadataMapping | MetadataTooLarge | MetadataWrite
| PreferredInvalid | PreferredMapped.

(** A value or an error, with the state as it was left. *)
Abbreviation stored A := (AgentMetadataStore * result MetadataError A)%type.

Definition MAX_STORED_RECEIPTS : N := MAX_IDENTITY_MAPPINGS * MAX_COMMAND_RECEIPTS.

Definition unexpired (now : N) (receipt : CommandReceipt) : bool :=
  now - cr_updated_at receipt <=? RECEIPT_TTL_SECONDS.

Definition bad_mapping (m : IdentityMapping) : bool :=
  is_none (decode_hex_32 (im_upstream_digest m))
  || is_none (decode_hex_32 (im_process_nonce_digest m))
  || is_err (valid_opaque_id (im_session_id m))
  || is_err (valid_token (im_adapter_family m))
  || is_err (valid_token (im_adapter_version m))
  || (im_process_generation m =? 0) || (im_snapshot_epoch m =? 0) || (im_revision_seed m =? 0).

Definition bytes_of (s : string) : list N := nb <$> String.list_ascii_of_string s.

Section store.
(** The hash of the [sha2] crate, the size [serde_json] encodes a file to, and whether the
    private file could be replaced. *)
Context (sha256 : list N -> list N) (encoded_len : AgentMetadataFile -> N)
  (write_private : AgentMetadataFile -> bool).

Definition digest (st : AgentMetadataStore) (value : string) : string :=
  hex (sha256 (bytes_of "ciao-agent-identity-v1" ++ [0] ++ ms_key st
               ++ be_bytes 8 (slen value) ++ bytes_of value)).

Definition persist (st : AgentMetadataStore) : stored unit :=
  let file := mkAgentMetadataFile METADATA_VERSION (hex (ms_key st)) (ms_mappings st) (ms_receipts st) in
  if MAX_AGENT_METADATA_FILE_BYTES <? encoded_len file then (st, Err MetadataTooLarge)
  else if write_private file then (set_disk file st, Ok tt)
  else (st, Err MetadataWrite).

(** [self.persist()?; Ok(value)]. *)
Definition persist_then {A} (st : AgentMetadataStore) (value : A) : stored A :=
  let '(st, r) := persist st in (st, rmap (fun _ => value) r).

(** The checks of [load] on a parsed file, and the store it builds. [fresh_key] is the draw for
    a file that does not exist. *)
Definition empty_file (fresh_key : list N) : AgentMetadataFile :=
  mkAgentMetadataFile METADATA_VERSION (hex fresh_key) [] [].

Definition load_file (file : AgentMetadataFile) (now : N) : result MetadataError AgentMetadataStore :=
  refuse_if (negb (af_v file =? METADATA_VERSION)
             || (MAX_IDENTITY_MAPPINGS <? len (af_mappings file))
             || (MAX_STORED_RECEIPTS <? len (af_receipts file))) MetadataBounds ?;
  let? key := ok_or (decode_hex_32 (af_key file)) MetadataKey in
  each (fun m => refuse_if (bad_mapping m) MetadataMapping) (af_mappings file) ?;
  let store := mkAgentMetadataStore key (af_mappings file)
                 (List.filter (unexpired now) (af_receipts file)) (Some file) in
  let '(store, r) := persist store in
  rmap (fun _ => store) r.

Definition load (disk : option AgentMetadataFile) (fresh_key : list N) (now : N)
  : result MetadataError AgentMetadataStore :=
  load_file (default (empty_file fresh_key) disk) now.

Definition mapping_for (st : AgentMetadataStore) (upstream_identity : string) : option IdentityMapping :=
  List.find (fun m => im_upstream_digest m =s? digest st upstream_identity) (ms_mappings st).

Definition mapping_for_process (st : AgentMetadataStore) (upstream_identity process_nonce : string)
  : option (string * N * N) :=
  let process_nonce_digest := digest st process_nonce in
  mapping ← mapping_for st upstream_identity;
  if im_process_nonce_digest mapping =s? process_nonce_digest
  then Some (im_session_id mapping, im_process_generation mapping, im_snapshot_epoch mapping)
  else None.

(** What [register] makes of a mapping it already holds. *)
Definition refreshed_mapping (mapping : IdentityMapping) (preferred : option string)
    (process_nonce_digest adapter_family adapter_version : string) (live_revision : option N)
    (epoch_draw now : N) : IdentityMapping :=
  let same_process := im_process_nonce_digest mapping =s? process_nonce_digest in
  mkIdentityMapping (im_upstream_digest mapping) (default (im_session_id mapping) preferred)
    process_nonce_digest adapter_family adapter_version
    (if same_process then im_process_generation mapping
     else N.max (sat_add64 (im_process_generation mapping) 1) 1)
    (if negb same_process || is_none live_revision then nonzero_random_u64 epoch_draw
     else im_snapshot_epoch mapping)
    (N.max (sat_add64 (N.max (im_revision_seed mapping) (default 0 live_revision)) 1) 1)
    now.

Definition mapping_values (m : IdentityMapping) : string * N * N * N :=
  (im_session_id m, im_process_generation m, im_snapshot_epoch m, im_revision_seed m).

(** Make room for one more mapping. *)
Definition evict_mapping (mappings : list IdentityMapping) : list IdentityMapping :=
  if MAX_IDENTITY_MAPPINGS <=? len mappings
  then tail (sort_by_key im_updated_at mappings) else mappings.

Definition register (st : AgentMetadataStore) (upstream_identity : string)
    (preferred_session_id : option string) (process_nonce_digest adapter_family adapter_version : string)
    (live_revision : option N) (now id_draw epoch_draw : N) : stored (string * N * N * N) :=
  match opt_each (fun p => valid_opaque_id p) preferred_session_id with
  | Err _ => (st, Err PreferredInvalid)
  | Ok _ =>
      let upstream_digest := digest st upstream_identity in
      let held := fun m => im_upstream_digest m =s? upstream_digest in
      let position := list_find (fun m => held m = true) (ms_mappings st) in
      let elsewhere := fun preferred =>
        existsb (fun '(index, m) => negb (bool_decide (Some index = (fst <$> position)))
                                    && (im_session_id m =s? preferred))
          (imap pair (ms_mappings st)) in
      if is_some_and elsewhere preferred_session_id then (st, Err PreferredMapped)
      else match position with
           | Some (_, mapping) =>
               let renamed := is_some_and (fun preferred => negb (im_session_id mapping =s? preferred))
                                preferred_session_id in
               let receipts := if renamed
                 then List.filter (fun r => negb (cr_session_id r =s? im_session_id mapping)) (ms_receipts st)
                 else ms_receipts st in
               let mapping' := refreshed_mapping mapping preferred_session_id process_nonce_digest
                 adapter_family adapter_version live_revision epoch_draw now in
               let st := set_receipts receipts
                 (set_mappings (update_first held (fun _ => mapping') (ms_mappings st)) st) in
               persist_then st (mapping_values mapping')
           | None =>
               let mapping := mkIdentityMapping upstream_digest
                 (default (random_id id_draw) preferred_session_id) process_nonce_digest
                 adapter_family adapter_version 1 (nonzero_random_u64 epoch_draw) 1 now in
               let st := set_mappings (evict_mapping (ms_mappings st) ++ [mapping]) st in
               persist_then st (mapping_values mapping)
           end
  end.

Definition of_session (session_id : string) (m : IdentityMapping) : bool :=
  im_session_id m =s? session_id.

Definition touch_mapping (st : AgentMetadataStore) (session_id : string)
    (f : IdentityMapping -> IdentityMapping) : stored unit :=
  if is_some (List.find (of_session session_id) (ms_mappings st))
  then persist (set_mappings (update_first (of_session session_id) f (ms_mappings st)) st)
  else (st, Ok tt).

Definition update_revision (st : AgentMetadataStore) (session_id : string) (revision now : N) : stored unit :=
  touch_mapping st session_id (fun m =>
    mkIdentityMapping (im_upstream_digest m) (im_session_id m) (im_process_nonce_digest m)
      (im_adapter_family m) (im_adapter_version m) (im_process_generation m) (im_snapshot_epoch m)
      (N.max (im_revision_seed m) revision) now).

Definition update_epoch (st : AgentMetadataStore) (session_id : string) (epoch now : N) : stored unit :=
  touch_mapping st session_id (fun m =>
    mkIdentityMapping (im_upstream_digest m) (im_session_id m) (im_process_nonce_digest m)
      (im_adapter_family m) (im_adapter_version m) (im_process_generation m) epoch
      (im_revision_seed m) now).

Definition of_command (command_id : string) (r : CommandReceipt) : bool :=
  cr_command_id r =s? command_id.

Definition receipt (st : AgentMetadataStore) (command_id : string) : option CommandReceipt :=
  List.find (of_command command_id) (ms_receipts st).

Definition receipts_for (st : AgentMetadataStore) (session_id : string) (generation epoch : N)
  : list CommandReceipt :=
  reverse (take (N.to_nat MAX_COMMAND_RECEIPTS)
    (reverse (List.filter (fun r => (cr_session_id r =s? session_id)
                                    && (cr_process_generation r =? generation)
                                    && (cr_snapshot_epoch r =? epoch)) (ms_receipts st)))).

(** The receipts after one more: replaced or pushed, expired ones dropped, oldest first, and
    the oldest removed past the bound. *)
Definition upserted_receipts (receipts : list CommandReceipt) (r : CommandReceipt) (now : N)
  : list CommandReceipt :=
  let receipts :=
    if is_some (List.find (of_command (cr_command_id r)) receipts)
    then update_first (of_command (cr_command_id r))
           (fun existing => if cr_updated_at existing <=? cr_updated_at r then r else existing) receipts
    else receipts ++ [r] in
  let receipts := sort_by_key cr_updated_at (List.filter (unexpired now) receipts) in
  drop (length receipts - N.to_nat MAX_STORED_RECEIPTS) receipts.

Definition upsert_receipt (st : AgentMetadataStore) (r : CommandReceipt) (now : N) : stored unit :=
  persist (set_receipts (upserted_receipts (ms_receipts st) r now) st).
End store.

(** ** The invariant *)

Record store_wf (st : AgentMetadataStore) : Prop := mk_store_wf {
  sw_key : length (ms_key st) = 32%nat /\ Forall (fun b => b < 256) (ms_key st);
  sw_bound : len (ms_mappings st) <= MAX_IDENTITY_MAPPINGS;
  sw_digests : NoDup (im_upstream_digest <$> ms_mappings st);
  sw_sessions : NoDup (im_session_id <$> ms_mappings st);
  sw_mappings : Forall (fun m => bad_mapping m = false) (ms_mappings st);
  sw_receipts_bound : len (ms_receipts st) <= MAX_STORED_RECEIPTS;
  sw_commands : NoDup (cr_command_id <$> ms_receipts st)
}.

Lemma nonzero_random_u64_bounds draw : 1 <= nonzero_random_u64 draw <= u64_max.
Proof.
  unfold nonzero_random_u64. pose proof (N.mod_lt draw (u64_max + 1) ltac:(done)).
  change (u64_max + 1) with 18446744073709551616 in *. unfold u64_max. lia.
Qed.

Lemma bad_mapping_false m :
  bad_mapping m = false <->
  is_some (decode_hex_32 (im_upstream_digest m)) = true
  /\ is_some (decode_hex_32 (im_process_nonce_digest m)) = true
  /\ valid_opaque_id (im_session_id m) = Ok tt
  /\ valid_token (im_adapter_family m) = Ok tt /\ valid_token (im_adapter_version m) = Ok tt
  /\ im_process_generation m <> 0 /\ im_snapshot_epoch m <> 0 /\ im_revision_seed m <> 0.
Proof.
  unfold bad_mapping, is_some, is_err.
  rewrite !orb_false_iff, !N.eqb_neq, !negb_true_iff, !negb_false_iff.
  assert (forall r : checked, is_ok r = true <-> r = Ok tt) as Hok by (intros [[]|]; simpl; by split).
  rewrite !Hok. tauto.
Qed.

(** Thirty-two bytes printed by [hex] read back. *)
Lemma decode_hex_32_hex l :
  length l = 32%nat -> Forall (fun b => b < 256) l -> decode_hex_32 (hex l) = Some l.
Proof.
  intros Hl Hb. destruct (hex_facts l Hb) as (Hd & Hlen & Hx & _).
  unfold decode_hex_32, slen. by rewrite Hlen, Hl, Hx.
Qed.

Section properties.
Context (sha256 : list N -> list N) (encoded_len : AgentMetadataFile -> N)
  (write_private : AgentMetadataFile -> bool).

(** SHA-256 yields thirty-two bytes. *)
Definition sha256_bytes : Prop :=
  forall m, length (sha256 m) = 32%nat /\ Forall (fun b => b < 256) (sha256 m).

Lemma digest_decodes st value : sha256_bytes -> is_some (decode_hex_32 (digest sha256 st value)) = true.
Proof.
  intros Hs. unfold digest. destruct (Hs (bytes_of "ciao-agent-identity-v1" ++ [0] ++ ms_key st
    ++ be_bytes 8 (slen value) ++ bytes_of value)) as [H1 H2].
  by rewrite (decode_hex_32_hex _ H1 H2).
Qed.

Lemma persist_memory st st' r :
  persist encoded_len write_private st = (st', r) ->
  ms_key st' = ms_key st /\ ms_mappings st' = ms_mappings st /\ ms_receipts st' = ms_receipts st
  /\ (r = Ok tt -> ms_disk st' = Some (mkAgentMetadataFile METADATA_VERSION (hex (ms_key st))
                                         (ms_mappings st) (ms_receipts st))).
Proof. unfold persist. repeat case_match; by intros [= <- <-]. Qed.

Lemma persist_wf st st' r :
  persist encoded_len write_private st = (st', r) -> store_wf st -> store_wf st'.
Proof. intros (Hk & Hm & Hr & _)%persist_memory []. by split; rewrite ?Hk, ?Hm, ?Hr. Qed.

Lemma evict_sublist mappings :
  exists mappings', mappings' ≡ₚ mappings /\ sublist (evict_mapping mappings) mappings'
  /\ (len mappings <= MAX_IDENTITY_MAPPINGS -> len (evict_mapping mappings) < MAX_IDENTITY_MAPPINGS).
Proof.
  unfold evict_mapping. destruct (N.leb_spec MAX_IDENTITY_MAPPINGS (len mappings)).
  - exists (sort_by_key im_updated_at mappings). split_and!; [apply sort_by_key_perm| |].
    + destruct (sort_by_key _ _); [done|]. by constructor.
    + intros Hle. assert (len (tail (sort_by_key im_updated_at mappings)) + 1 <= len mappings); [|lia].
      rewrite <- (sort_by_key_len im_updated_at mappings) in *.
      destruct (sort_by_key im_updated_at mappings); [by vm_compute in H|].
      cbn [tail]. rewrite len_cons. lia.
  - by exists mappings.
Qed.

(** A mapping pushed under a digest and a session id the store does not hold. *)
Lemma push_mapping_wf st m :
  store_wf st -> bad_mapping m = false ->
  Forall (fun m' => im_upstream_digest m' <> im_upstream_digest m) (ms_mappings st) ->
  Forall (fun m' => im_session_id m' <> im_session_id m) (ms_mappings st) ->
  store_wf (set_mappings (evict_mapping (ms_mappings st) ++ [m]) st).
Proof.
  intros [] Hm Hd Hs. destruct (evict_sublist (ms_mappings st)) as (ms & Hp & Hsub & Hlen).
  assert (forall (P : IdentityMapping -> Prop), Forall P (ms_mappings st) ->
    Forall P (evict_mapping (ms_mappings st))) as Hall.
  { intros P HP. eapply Forall_sublist; [done|]. by rewrite Hp. }
  assert (forall (g : IdentityMapping -> string), NoDup (g <$> ms_mappings st) ->
    Forall (fun m' => g m' <> g m) (ms_mappings st) ->
    NoDup (g <$> evict_mapping (ms_mappings st) ++ [m])) as Hnd.
  { intros g Hg Hne%Hall. apply NoDup_fmap_snoc; [|done].
    eapply NoDup_fmap_sublist; [done|]. by rewrite Hp. }
  split; try done; cbn.
  - rewrite len_snoc. specialize (Hlen sw_bound0). lia.
  - by apply Hnd.
  - by apply Hnd.
  - apply Forall_app. split; [by apply Hall|by constructor].
Qed.
(** The session id a registration settles on is not mapped at another position. *)
Lemma elsewhere_false (position : option nat) preferred (l : list IdentityMapping) :
  existsb (fun '(index, m) => negb (bool_decide (Some index = position))
                              && (im_session_id m =s? preferred)) (imap pair l) = false ->
  forall j m, l !! j = Some m -> Some j <> position -> im_session_id m <> preferred.
Proof.
  intros Hex j m Hj Hne Heq. assert (existsb (fun '(index, m) => negb (bool_decide (Some index = position))
    && (im_session_id m =s? preferred)) (imap pair l) = true); [|congruence].
  apply existsb_exists. exists (j, m). split.
  - apply list_elem_of_In, list_elem_of_lookup. exists j. rewrite list_lookup_imap, Hj. done.
  - rewrite bool_decide_false by done. cbn. by apply String.eqb_eq.
Qed.

Definition held_mapping (st : AgentMetadataStore) (upstream : string) (m : IdentityMapping) : bool :=
  im_upstream_digest m =s? digest sha256 st upstream.

Definition registered_again (st : AgentMetadataStore) (old new : IdentityMapping) (upstream : string)
    (preferred : option string) : AgentMetadataStore :=
  set_receipts
    (if is_some_and (fun p => negb (im_session_id old =s? p)) preferred
     then List.filter (fun r => negb (cr_session_id r =s? im_session_id old)) (ms_receipts st)
     else ms_receipts st)
    (set_mappings (update_first (held_mapping st upstream) (fun _ => new) (ms_mappings st)) st).

(** The ways a registration ends. *)
Inductive register_ends (st : AgentMetadataStore) (upstream : string) (preferred : option string)
    (nonce family version : string) (live : option N) (now id_draw epoch_draw : N)
  : AgentMetadataStore * result MetadataError (string * N * N * N) -> Prop :=
| register_refused e :
    register_ends st upstream preferred nonce family version live now id_draw epoch_draw (st, Err e)
| register_again i old new :
    list_find (fun m => held_mapping st upstream m = true) (ms_mappings st) = Some (i, old) ->
    new = refreshed_mapping old preferred nonce family version live epoch_draw now ->
    opt_each valid_opaque_id preferred = Ok tt ->
    (forall p j m, preferred = Some p -> ms_mappings st !! j = Some m -> j <> i -> im_session_id m <> p) ->
    register_ends st upstream preferred nonce family version live now id_draw epoch_draw
      (persist_then encoded_len write_private (registered_again st old new upstream preferred)
         (mapping_values new))
| register_fresh new :
    Forall (fun m => im_upstream_digest m <> digest sha256 st upstream) (ms_mappings st) ->
    new = mkIdentityMapping (digest sha256 st upstream) (default (random_id id_draw) preferred)
            nonce family version 1 (nonzero_random_u64 epoch_draw) 1 now ->
    opt_each valid_opaque_id preferred = Ok tt ->
    (forall p, preferred = Some p -> Forall (fun m => im_session_id m <> p) (ms_mappings st)) ->
    register_ends st upstream preferred nonce family version live now id_draw epoch_draw
      (persist_then encoded_len write_private
         (set_mappings (evict_mapping (ms_mappings st) ++ [new]) st) (mapping_values new)).

Lemma register_cases st upstream preferred nonce family version live now id_draw epoch_draw :
  register_ends st upstream preferred nonce family version live now id_draw epoch_draw
    (register sha256 encoded_len write_private st upstream preferred nonce family version live now
       id_draw epoch_draw).
Proof.
  unfold register. destruct (opt_each _ preferred) as [[]|e] eqn:Hp; [|constructor].
  destruct (is_some_and _ preferred) eqn:Hel; [constructor|].
  assert (forall p j m, preferred = Some p -> ms_mappings st !! j = Some m ->
    Some j <> (fst <$> list_find (fun m => held_mapping st upstream m = true) (ms_mappings st)) ->
    im_session_id m <> p) as Hne.
  { intros p j m -> Hj Hpos. by eapply elsewhere_false. }
  fold (held_mapping st upstream) in *.
  destruct (list_find _ _) as [[i old]|] eqn:Hf.
  - apply (register_again _ _ _ _ _ _ _ _ _ _ i old); [done..|].
    intros p j m Hpr Hj Hji. apply (Hne p j m); [done..|]. cbn. congruence.
  - constructor; [|done..|].
    + apply list_find_None in Hf. eapply Forall_impl; [done|]. cbn. intros m Hm Heq.
      apply Hm. by apply String.eqb_eq.
    + intros p Hpr. apply Forall_lookup. intros j m Hj. by eapply Hne.
Qed.

Lemma persist_then_ok {A} st st' (v w : A) :
  persist_then encoded_len write_private st v = (st', Ok w) ->
  w = v /\ ms_mappings st' = ms_mappings st /\ ms_receipts st' = ms_receipts st
  /\ ms_key st' = ms_key st
  /\ ms_disk st' = Some (mkAgentMetadataFile METADATA_VERSION (hex (ms_key st)) (ms_mappings st) (ms_receipts st)).
Proof.
  unfold persist_then. destruct (persist _ _ st) as [st1 [[]|e]] eqn:Hp; cbn; [|done].
  intros [= <- <-]. apply persist_memory in Hp as (Hk & Hm & Hr & Hd). by rewrite Hd.
Qed.

Lemma persist_then_wf {A} st (v : A) :
  store_wf st -> store_wf (persist_then encoded_len write_private st v).1.
Proof.
  unfold persist_then. destruct (persist _ _ st) as [st1 r] eqn:Hp. by eapply persist_wf.
Qed.

(** A held mapping refreshed in place. *)
Lemma registered_again_wf st i old new upstream preferred nonce family version live draw now :
  store_wf st ->
  list_find (fun m => held_mapping st upstream m = true) (ms_mappings st) = Some (i, old) ->
  new = refreshed_mapping old preferred nonce family version live draw now ->
  opt_each valid_opaque_id preferred = Ok tt ->
  (forall p j m, preferred = Some p -> ms_mappings st !! j = Some m -> j <> i -> im_session_id m <> p) ->
  is_some (decode_hex_32 nonce) = true -> valid_token family = Ok tt -> valid_token version = Ok tt ->
  store_wf (registered_again st old new upstream preferred).
Proof.
  intros [] Hf -> Hp Hne Hn Hfam Hver.
  pose proof (proj1 (list_find_Some _ _ _ _) Hf) as (Hi & Hheld%String.eqb_eq & _).
  assert (bad_mapping old = false) as Hold by by eapply Forall_lookup in sw_mappings0.
  set (new := refreshed_mapping _ _ _ _ _ _ _ _).
  assert (bad_mapping new = false) as Hnew.
  { apply bad_mapping_false in Hold as (Hd & _ & Hs & _ & _ & Hg & He & Hr).
    apply bad_mapping_false. unfold new. cbn. pose proof (nonzero_random_u64_bounds draw).
    split_and!; try done.
    - destruct preferred; [|done]. rewrite opt_each_ok in Hp. by apply Hp.
    - case_match; [done|lia].
    - case_match; [lia|done].
    - lia. }
  unfold registered_again. rewrite (update_first_insert _ _ _ _ _ Hf).
  split; try done; cbn [ms_mappings ms_receipts set_receipts set_mappings].
  - unfold len. by rewrite length_insert.
  - apply NoDup_fmap_insert; [done|]. intros j x Hj Hji.
    intros Heq. apply Hji. eapply NoDup_lookup; [exact sw_digests0| |]; rewrite list_lookup_fmap;
      [by rewrite Hj|]. rewrite Hi. by rewrite Heq.
  - apply NoDup_fmap_insert; [done|]. intros j x Hj Hji. cbn.
    destruct preferred as [p|]; [by eapply Hne|]. cbn. intros Heq. apply Hji.
    eapply NoDup_lookup; [exact sw_sessions0| |]; rewrite list_lookup_fmap;
      [by rewrite Hj|]. rewrite Hi. by rewrite Heq.
  - by apply Forall_insert.
  - case_match; [|done]. etrans; [|exact sw_receipts_bound0]. apply len_sublist, filter_sublist.
  - case_match; [|done]. eapply NoDup_fmap_sublist; [apply filter_sublist|done].
Qed.

(** A registration keeps the store well formed in memory even when it cannot be written: at
    most 256 valid mappings, no upstream conversation and no session id mapped twice. *)
Theorem register_wf st upstream preferred nonce family version live now id_draw epoch_draw :
  sha256_bytes -> store_wf st ->
  is_some (decode_hex_32 nonce) = true -> valid_token family = Ok tt -> valid_token version = Ok tt ->
  Forall (fun m => im_session_id m <> random_id id_draw) (ms_mappings st) ->
  store_wf (register sha256 encoded_len write_private st upstream preferred nonce family version live
              now id_draw epoch_draw).1.
Proof.
  intros Hsha Hwf Hn Hf Hv Hfresh.
  destruct (register_cases st upstream preferred nonce family version live now id_draw epoch_draw)
    as [e|i old new Hfind Hnew Hp Hne|new Hfree -> Hp Hne]; [done|apply persist_then_wf..].
  - by eapply registered_again_wf.
  - apply push_mapping_wf; [done| |done|].
    + apply bad_mapping_false. cbn. pose proof (nonzero_random_u64_bounds epoch_draw).
      split_and!; try done; [by apply digest_decodes| |lia].
      destruct preferred; [rewrite opt_each_ok in Hp; by apply Hp|apply format_u128_valid].
    + destruct preferred; [by apply Hne|done].
Qed.

(** What a successful registration answers is what the store then holds for that
    conversation and what is on disk; a known process resumed with live state keeps its
    generation and epoch, a new process moves to the next generation, and the revision always
    moves past both the stored seed and the live one. *)
Theorem register_fences st upstream preferred nonce family version live now id_draw epoch_draw st' id
    generation epoch revision :
  register sha256 encoded_len write_private st upstream preferred nonce family version live now
    id_draw epoch_draw = (st', Ok (id, generation, epoch, revision)) ->
  (exists m, mapping_for sha256 st' upstream = Some m
     /\ mapping_values m = (id, generation, epoch, revision) /\ im_process_nonce_digest m = nonce
     /\ ms_disk st' = Some (mkAgentMetadataFile METADATA_VERSION (hex (ms_key st)) (ms_mappings st')
                              (ms_receipts st')))
  /\ id = default (match mapping_for sha256 st upstream with
                    | Some m => im_session_id m | None => random_id id_draw end) preferred
  /\ match mapping_for sha256 st upstream with
     | Some m =>
         let same := im_process_nonce_digest m =s? nonce in
         generation = (if same then im_process_generation m
                       else N.max (N.min (im_process_generation m + 1) u64_max) 1)
         /\ (same = true -> is_some live = true -> epoch = im_snapshot_epoch m)
         /\ (im_revision_seed m < u64_max -> im_revision_seed m < revision)
         /\ (forall r, live = Some r -> r < u64_max -> r < revision)
     | None => generation = 1 /\ revision = 1
     end.
Proof.
  destruct (register_cases st upstream preferred nonce family version live now id_draw epoch_draw)
    as [e|i old new Hfind Hnew Hp Hne|new Hfree Hnew Hp Hne]; [done|..];
    intros (Hv & Hm & Hr & Hk & Hd)%persist_then_ok; unfold mapping_for.
  - assert (List.find (fun m => im_upstream_digest m =s? digest sha256 st upstream) (ms_mappings st)
      = Some old) as Hold by (etrans; [apply (find_list_find (held_mapping st upstream))|by rewrite Hfind]).
    rewrite Hold. split; [exists new|].
    + unfold digest. rewrite Hk, Hm, Hd, Hr. fold (digest sha256 st upstream). split_and!; try done; [|by subst new].
      cbn. unfold held_mapping. rewrite update_first_find; [by rewrite Hold|].
      intros x _. subst new. by apply find_some_elem in Hold as [_ ?].
    + subst new. injection Hv as -> -> -> ->. cbn zeta. cbn -[N.max N.min u64_max].
      split; [done|]. unfold sat_add64. split_and!.
      * by case_match.
      * intros Hs Hl. destruct live; [|done]. by rewrite Hs.
      * intros. destruct live; cbn -[u64_max]; lia.
      * intros r -> Hlt. cbn -[u64_max]. lia.
  - assert (List.find (fun m => im_upstream_digest m =s? digest sha256 st upstream) (ms_mappings st)
      = None) as Hold.
    { apply find_none_forall. eapply Forall_impl; [done|]. cbn. intros m Hm'.
      by apply String.eqb_neq. }
    rewrite Hold. split; [exists new|subst new; by injection Hv as -> -> -> ->].
    unfold digest. rewrite Hk, Hm, Hd, Hr. fold (digest sha256 st upstream).
    split_and!; [|done|by subst new|done].
    apply find_snoc; [|subst new; by apply String.eqb_eq].
    destruct (evict_sublist (ms_mappings st)) as (ms & Hperm & Hsub & _).
    eapply Forall_sublist; [done|]. rewrite Hperm. eapply Forall_impl; [done|]. cbn.
    intros m Hm'. by apply String.eqb_neq.
Qed.

(** The receipts kept once one more was upserted. *)
Lemma upserted_receipts_spec receipts r now :
  NoDup (cr_command_id <$> receipts) -> len receipts <= MAX_STORED_RECEIPTS ->
  let kept := upserted_receipts receipts r now in
  NoDup (cr_command_id <$> kept) /\ len kept <= MAX_STORED_RECEIPTS
  /\ StronglySorted (key_le cr_updated_at) kept /\ Forall (fun r => unexpired now r = true) kept
  /\ (Forall (fun r' => cr_updated_at r' <= cr_updated_at r) receipts -> unexpired now r = true ->
      List.find (of_command (cr_command_id r)) kept = Some r).
Proof.
  intros Hnd Hlen. unfold upserted_receipts.
  set (pushed := if is_some _ then _ else _).
  set (fresh := List.filter (unexpired now) pushed).
  set (sorted := sort_by_key cr_updated_at fresh).
  assert (NoDup (cr_command_id <$> pushed)) as Hpushed.
  { unfold pushed. case_match.
    - rewrite update_first_fmap; [done|]. intros x Hx%String.eqb_eq. by case_match.
    - apply NoDup_fmap_snoc; [done|]. destruct (List.find _ receipts) eqn:Hf; [done|].
      apply find_none_forall in Hf. eapply Forall_impl; [done|]. cbn. intros x Hx.
      by apply String.eqb_neq. }
  assert (sublist (drop (length sorted - N.to_nat MAX_STORED_RECEIPTS) sorted) sorted) as Hdrop
    by apply sublist_drop.
  assert (NoDup (cr_command_id <$> sorted)) as Hsorted.
  { unfold sorted. rewrite sort_by_key_perm. eapply NoDup_fmap_sublist; [apply filter_sublist|done]. }
  assert (NoDup (cr_command_id <$> drop (length sorted - N.to_nat MAX_STORED_RECEIPTS) sorted)) as Hkept
    by by eapply NoDup_fmap_sublist.
  split_and!; [done| | | |].
  - unfold len. rewrite length_drop. lia.
  - eapply StronglySorted_sublist; [done|]. apply sort_by_key_sorted.
  - eapply Forall_sublist; [done|]. unfold sorted. rewrite sort_by_key_perm.
    apply Forall_forall. intros x Hx. by apply list_elem_of_In, List.filter_In in Hx as [_ ?].
  - intros Hmax Hr. apply (find_unique cr_command_id); [done| |intros y; apply String.eqb_eq].
    unfold pushed in *. destruct (is_some _) eqn:Hf.
    + assert (length sorted <= length receipts)%nat as Hl.
      { unfold sorted. rewrite sort_by_key_perm. unfold fresh.
        etrans; [apply List.filter_length_le|]. unfold pushed. by rewrite update_first_length. }
      replace (length sorted - N.to_nat MAX_STORED_RECEIPTS)%nat with 0%nat
        by (unfold len in Hlen; lia).
      rewrite drop_0. unfold sorted. rewrite sort_by_key_perm. unfold fresh.
      apply list_elem_of_In, List.filter_In. split; [|done]. apply list_elem_of_In. unfold pushed.
      destruct (List.find _ receipts) as [old|] eqn:Hfind; [|done].
      assert (List.find (of_command (cr_command_id r)) (update_first (of_command (cr_command_id r))
        (fun existing => if cr_updated_at existing <=? cr_updated_at r then r else existing) receipts)
        = Some r) as Hfr.
      { rewrite update_first_find, Hfind; cbn.
        - apply find_some_elem in Hfind as [Hin _]. rewrite Forall_forall in Hmax.
          by rewrite (proj2 (N.leb_le _ _) (Hmax _ Hin)).
        - intros x Hx. case_match; [apply String.eqb_refl|done]. }
      by apply find_some_elem in Hfr as [? _].
    + assert (sorted = sort_by_key cr_updated_at (List.filter (unexpired now) receipts) ++ [r]) as Hs.
      { unfold sorted, fresh, pushed. rewrite List.filter_app. cbn. rewrite Hr. apply sort_by_key_snoc.
        eapply Forall_sublist; [apply filter_sublist|done]. }
      rewrite Hs, drop_app_le; [set_solver|]. rewrite length_app. cbn.
      assert (0 < MAX_STORED_RECEIPTS) by done. lia.
Qed.

(** A recorded receipt is the one looked up by its command afterwards, unless it is already a
    day old or older than another; the store stays bounded, in order, free of expired receipts
    and of duplicate commands. *)
Theorem upsert_receipt_recorded st r now st' :
  store_wf st ->
  upsert_receipt encoded_len write_private st r now = (st', Ok tt) ->
  store_wf st' /\ StronglySorted (key_le cr_updated_at) (ms_receipts st')
  /\ Forall (fun r => unexpired now r = true) (ms_receipts st')
  /\ (Forall (fun r' => cr_updated_at r' <= cr_updated_at r) (ms_receipts st) -> unexpired now r = true ->
      receipt st' (cr_command_id r) = Some r).
Proof.
  intros [] (Hk & Hm & Hr & _)%persist_memory. cbn in Hk, Hm, Hr.
  destruct (upserted_receipts_spec (ms_receipts st) r now) as (? & ? & ? & ? & ?); [done..|].
  unfold receipt. rewrite Hr. split; [|done]. by split; rewrite ?Hk, ?Hm, ?Hr.
Qed.

(** What a store writes, the next daemon loads: the same key, the same mappings and every
    receipt less than a day old, with nothing refused, as long as dropping receipts does not
    lengthen the encoding and the file can be replaced again. *)
Theorem persist_load st st' fresh_key now :
  (forall file rs, sublist rs (af_receipts file) ->
     encoded_len (mkAgentMetadataFile (af_v file) (af_key file) (af_mappings file) rs) <= encoded_len file) ->
  (forall file, write_private file = true) ->
  store_wf st -> persist encoded_len write_private st = (st', Ok tt) ->
  exists st2, load encoded_len write_private (ms_disk st') fresh_key now = Ok st2
  /\ ms_key st2 = ms_key st /\ ms_mappings st2 = ms_mappings st
  /\ ms_receipts st2 = List.filter (unexpired now) (ms_receipts st) /\ store_wf st2.
Proof.
  intros Henc Hwrite Hwf Hp. destruct Hwf as [[Hkl Hkb] ? ? ? ? ? ?].
  assert (ms_disk st' = Some (mkAgentMetadataFile METADATA_VERSION (hex (ms_key st))
    (ms_mappings st) (ms_receipts st))) as -> by (by apply persist_memory in Hp as (_ & _ & _ & ->)).
  assert (encoded_len (mkAgentMetadataFile METADATA_VERSION (hex (ms_key st))
    (ms_mappings st) (ms_receipts st)) <= MAX_AGENT_METADATA_FILE_BYTES) as Hsize.
  { unfold persist in Hp. case_match; [done|]. by b2p. }
  assert (encoded_len (mkAgentMetadataFile METADATA_VERSION (hex (ms_key st)) (ms_mappings st)
    (List.filter (unexpired now) (ms_receipts st))) <= MAX_AGENT_METADATA_FILE_BYTES) as Hsize'.
  { etrans; [|exact Hsize]. apply (Henc (mkAgentMetadataFile METADATA_VERSION (hex (ms_key st))
      (ms_mappings st) (ms_receipts st))). apply filter_sublist. }
  unfold load, load_file. cbn [default af_v af_key af_mappings af_receipts from_option id].
  rewrite N.eqb_refl, !(proj2 (N.ltb_ge _ _)) by done. cbn [negb orb refuse_if rbind].
  rewrite decode_hex_32_hex by done. cbn [ok_or rbind].
  rewrite (proj2 (each_ok _ _)); cbn [rbind].
  2: { eapply Forall_impl; [done|]. cbn. by intros m ->. }
  unfold persist. cbn [ms_key ms_mappings ms_receipts].
  rewrite (proj2 (N.ltb_ge _ _)), Hwrite by done. cbn.
  eexists. split; [done|]. split_and!; try done. split; try done; cbn.
  - etrans; [apply len_sublist, filter_sublist|done].
  - eapply NoDup_fmap_sublist; [apply filter_sublist|done].
Qed.

Lemma touch_mapping_held st sid f st' m :
  List.find (of_session sid) (ms_mappings st) = Some m ->
  touch_mapping encoded_len write_private st sid f = (st', Ok tt) ->
  ms_key st' = ms_key st /\ ms_mappings st' = update_first (of_session sid) f (ms_mappings st)
  /\ ms_disk st' = Some (mkAgentMetadataFile METADATA_VERSION (hex (ms_key st))
                           (ms_mappings st') (ms_receipts st)).
Proof.
  unfold touch_mapping. intros ->. cbn. intros (Hk & -> & Hr & Hd)%persist_memory.
  cbn in *. by rewrite Hd.
Qed.

(** Fencing a session into a new epoch keeps its process recognised: the next registration
    of the same conversation and process finds its session id and generation, with the new epoch,
    in memory and on disk. *)
Theorem update_epoch_recognised st st' upstream nonce sid generation epoch epoch' now :
  store_wf st ->
  mapping_for_process sha256 st upstream nonce = Some (sid, generation, epoch) ->
  update_epoch encoded_len write_private st sid epoch' now = (st', Ok tt) ->
  mapping_for_process sha256 st' upstream nonce = Some (sid, generation, epoch')
  /\ af_mappings <$> ms_disk st' = Some (ms_mappings st').
Proof.
  intros [] Hm Hu. unfold mapping_for_process, mapping_for in *.
  destruct (List.find _ (ms_mappings st)) as [m|] eqn:Hf; [|done]. cbn in Hm.
  destruct (_ =s? _) eqn:Hn; [|done]. injection Hm as <- <- <-.
  pose proof (find_some_elem _ _ _ Hf) as [Hin Hdig].
  assert (List.find (of_session (im_session_id m)) (ms_mappings st) = Some m) as Hs
    by (eapply find_unique; [exact sw_sessions0|done|intros y; apply String.eqb_eq]).
  unfold update_epoch in Hu. eapply touch_mapping_held in Hu as (Hk & Hms & Hd); [|done].
  split; [|by rewrite Hd].
  assert (forall value, digest sha256 st' value = digest sha256 st value) as Hdg
    by (intros value; unfold digest; by rewrite Hk).
  rewrite !Hdg, Hms.
  pose proof (find_some_elem _ _ _ Hs) as [_ Hof].
  set (f := fun m => mkIdentityMapping (im_upstream_digest m) (im_session_id m)
    (im_process_nonce_digest m) (im_adapter_family m) (im_adapter_version m)
    (im_process_generation m) epoch' (im_revision_seed m) now).
  rewrite (find_unique im_upstream_digest _ _ (f m)).
  - cbn. by rewrite Hn.
  - rewrite update_first_fmap; done.
  - pose proof (update_first_find (of_session (im_session_id m)) f (ms_mappings st)
      (fun _ H => H)) as Hf'.
    rewrite Hs in Hf'. by apply find_some_elem in Hf' as [? _].
  - intros y. cbn. apply String.eqb_eq in Hdig. rewrite Hdig. apply String.eqb_eq.
Qed.
End properties.
