(* ===== verification/Reconcile.v ===== *)
(** How a vendor-side read lines up with the timeline a session holds ([agent_session.rs]):
    anchors by a longest increasing chain, the merge between them, and the plan's guarantees. *)
From S2P Require Import Prelude Text Protocol.

Local Open Scope N_scope.

(** ** Data *)

Record NormalizedTimelineEntry := mkNormalizedTimelineEntry {
  ne_source_id : string;
  ne_source_revision : N;
  ne_timestamp : N;
  ne_state : string;
  ne_kind : string;
  ne_body : TimelineBody;
  ne_truncation : Truncation
}.

Record HeldEntry := mkHeldEntry {
  he_entry : TimelineEntry;
  he_source : option string
}.

Inductive ReconcileMode :=
| Backfill (complete : bool)
| Turn (from_turn_start : bool) (after : option N).

Inductive Planned :=
| Held (index : nat) (refresh : option nat) (rekey : bool)
| New (authority : nat).

#[export] Instance Planned_eq_dec : EqDecision Planned.
Proof. solve_decision. Defined.

Definition text_of (entry : TimelineEntry) : option string :=
  match te_body entry with Text text => Some text | _ => None end.

(** ** The longest chain of matches both sides order the same way *)

(** [slice.partition_point]: the length of the prefix satisfying the predicate. *)
Fixpoint partition_point {A} (p : A -> bool) (l : list A) : nat :=
  match l with
  | x :: l' => if p x then S (partition_point p l') else 0
  | [] => 0
  end.

Section chain.
Context (matches : list (nat * nat)).

Definition authority_at (position : nat) : nat := default 0%nat (snd <$> matches !! position).

(** One turn of the patience loop over [(tails, previous)]. *)
Definition chain_step (state : list nat * list (option nat)) (position : nat)
  : list nat * list (option nat) :=
  let '(tails, previous) := state in
  let length' := partition_point (fun tail => Nat.ltb (authority_at tail) (authority_at position)) tails in
  let previous := <[position := match length' with O => None | S shorter => tails !! shorter end]> previous in
  (if Nat.eqb length' (length tails) then tails ++ [position] else <[length' := position]> tails, previous).

Definition chain_tables : list nat * list (option nat) :=
  foldl chain_step ([], replicate (length matches) None) (seq 0 (length matches)).

(** The walk back along [previous]: positions only fall, so as many steps as there are matches
    are enough. *)
Fixpoint chain_walk (previous : list (option nat)) (fuel : nat) (cursor : option nat) : list nat :=
  match fuel, cursor with
  | S fuel, Some position => position :: chain_walk previous fuel (mjoin (previous !! position))
  | _, _ => []
  end.

Definition longest_increasing_chain : list (nat * nat) :=
  let '(tails, previous) := chain_tables in
  reverse (omap (fun position => matches !! position)
             (chain_walk previous (length matches) (last tails))).
End chain.

(** ** What a repaired row takes and what pairs *)

Definition refreshes (held : TimelineEntry) (authority : NormalizedTimelineEntry) (mode : ReconcileMode)
  : bool :=
  let differs := negb (bool_decide (te_body held = ne_body authority))
                 || negb (bool_decide (te_truncation held = ne_truncation authority))
                 || negb (te_state held =s? ne_state authority) in
  differs && (if ne_kind authority =s? "assistant_message" then true
              else if ne_kind authority =s? "tool" then
                match mode with Turn _ _ => te_state held =s? "streaming" | Backfill _ => false end
              else false).

Section plan.
Context (held : list HeldEntry) (authority : list NormalizedTimelineEntry) (mode : ReconcileMode)
  (live_only_prefix : option string).

Definition reply_starts_with (shown : string) (reply : nat) : bool :=
  match ne_body <$> authority !! reply with
  | Some (Text text) => starts_with (trim_start text) shown
  | _ => false
  end.

Definition held_text (index : nat) : option string :=
  row ← held !! index; text_of (he_entry row).

(** The greedy loop of [pair_displays_with_replies]; the list is what [replies[cursor..]] holds. *)
Fixpoint pair_by_text (displays replies : list nat) : list (nat * nat) :=
  match displays with
  | [] => []
  | display :: displays =>
      match trim <$> held_text display with
      | Some shown =>
          if slen shown =? 0 then pair_by_text displays replies
          else match list_find (fun reply => reply_starts_with shown reply = true) replies with
               | Some (offset, reply) => (display, reply) :: pair_by_text displays (drop (S offset) replies)
               | None => pair_by_text displays replies
               end
      | None => pair_by_text displays replies
      end
  end.

Definition pair_displays_with_replies (displays replies : list nat) : list (nat * nat) :=
  if Nat.eqb (length displays) (length replies) then zip displays replies
  else pair_by_text displays replies.

(** The pair a display was inserted under; every display is inserted once. *)
Definition paired (pairs : list (nat * nat)) (index : nat) : option nat :=
  snd <$> List.find (fun pair => Nat.eqb pair.1 index) pairs.

(** [by_source]: a later entry under the same source replaces an earlier one. *)
Definition by_source (source : string) : option nat :=
  fst <$> last (List.filter (fun '(_, entry) => ne_source_id entry =s? source) (imap pair authority)).

Definition match_of (index : nat) (row : HeldEntry) : option (nat * nat) :=
  source ← he_source row; found ← by_source source; Some (index, found).

Definition plan_matches : list (nat * nat) := omap (fun o => o) (imap match_of held).

Definition held_authority (index : nat) : bool :=
  existsb (fun pair => Nat.eqb pair.2 index) plan_matches.

(** [range.filter(|index| !held_authority.contains(index))] for [first..last]. *)
Definition unheld (first last : nat) : list nat :=
  List.filter (fun index => negb (held_authority index)) (seq first (last - first)).

Definition turn : bool := match mode with Turn _ _ => true | Backfill _ => false end.
Definition from_turn_start : bool := match mode with Turn b _ => b | Backfill _ => false end.
Definition after_mark : option N := match mode with Turn _ a => a | Backfill _ => None end.

Definition after_turn (index : nat) : bool :=
  is_some_and (fun mark => is_some_and (fun row => mark <=? te_sequence (he_entry row)) (held !! index))
    after_mark.

Definition is_display (index : nat) : bool :=
  turn && negb (after_turn index)
  && match live_only_prefix, held !! index ≫= he_source with
     | Some prefix, Some source => starts_with source prefix
     | _, _ => false
     end.

Definition held_row (index : nat) : Planned := Held index None false.

(** [while let Some(authority) = pending.next_if(|authority| *authority < reply)]. *)
Fixpoint next_below (reply : nat) (pending : list nat) : list nat * list nat :=
  match pending with
  | x :: pending' =>
      if Nat.ltb x reply then let '(taken, rest) := next_below reply pending' in (x :: taken, rest)
      else ([], pending)
  | [] => ([], [])
  end.

(** [pending.next_if_eq(&reply)]. *)
Definition next_if_eq (reply : nat) (pending : list nat) : list nat :=
  match pending with
  | x :: pending' => if Nat.eqb x reply then pending' else pending
  | [] => []
  end.

(** The rows of one gap, over the held rows between two anchors. *)
Fixpoint merge_gap (pairs : list (nat * nat)) (gap_replies : list string) (rows pending : list nat)
  : list Planned :=
  match rows with
  | [] => New <$> pending
  | index :: rows =>
      if after_turn index then (New <$> pending) ++ held_row index :: merge_gap pairs gap_replies rows []
      else match paired pairs index with
           | Some reply =>
               let '(before, rest) := next_below reply pending in
               (New <$> before) ++ Held index (Some reply) true
                 :: merge_gap pairs gap_replies rows (next_if_eq reply rest)
           | None =>
               if is_display index
                  && is_some_and (fun text => existsb (String.eqb (trim text)) gap_replies)
                       (held_text index)
               then merge_gap pairs gap_replies rows pending
               else if is_display index
               then (New <$> pending) ++ held_row index :: merge_gap pairs gap_replies rows []
               else held_row index :: merge_gap pairs gap_replies rows pending
           end
  end.

Definition is_reply (index : nat) : bool :=
  is_some_and (fun entry => ne_kind entry =s? "assistant_message") (authority !! index).

(** The texts of a gap's replies, the anchor opening it included. *)
Definition reply_texts (indices : list nat) : list string :=
  omap (fun index => entry ← authority !! index;
          if ne_kind entry =s? "assistant_message" then
            match ne_body entry with Text text => Some (trim text) | _ => None end
          else None) indices.

Definition anchor_refresh (held_index authority_index : nat) : option nat :=
  match held !! held_index, authority !! authority_index with
  | Some row, Some entry =>
      if refreshes (he_entry row) entry mode then Some authority_index else None
  | _, _ => None
  end.

(** The anchor at [held_index] and the gap after it, up to the next anchor. *)
Definition anchor_rows (held_index authority_index held_end authority_end : nat) : list Planned :=
  let gap_new := unheld (S authority_index) authority_end in
  let rows := seq (S held_index) (held_end - S held_index) in
  let displays := List.filter is_display rows in
  let replies := List.filter is_reply gap_new in
  let pairs := pair_displays_with_replies displays replies in
  let gap_replies := reply_texts (authority_index :: seq (S authority_index) (authority_end - S authority_index)) in
  Held held_index (anchor_refresh held_index authority_index) false
    :: merge_gap pairs gap_replies rows gap_new.

Fixpoint anchors_rows (anchors : list (nat * nat)) : list Planned :=
  match anchors with
  | [] => []
  | (held_index, authority_index) :: rest =>
      let '(held_end, authority_end) := default (length held, length authority) (head rest) in
      anchor_rows held_index authority_index held_end authority_end ++ anchors_rows rest
  end.

Definition plan_reconcile : option (list Planned) :=
  let anchors := longest_increasing_chain plan_matches in
  match anchors with
  | [] =>
      if turn then None
      else Some ((New <$> unheld 0 (length authority)) ++ (held_row <$> seq 0 (length held)))
  | (first_held, first_authority) :: _ =>
      let before_held := held_row <$> seq 0 first_held in
      let before_new := New <$> unheld 0 first_authority in
      Some ((if turn then before_held ++ (if from_turn_start then before_new else [])
             else before_new ++ before_held) ++ anchors_rows anchors)
  end.
End plan.

(** ** The chain *)

Lemma partition_point_le {A} (p : A -> bool) l : (partition_point p l <= length l)%nat.
Proof. induction l as [|x l IH]; simpl; [lia|]. case_match; lia. Qed.

Lemma partition_point_spec {A} (p : A -> bool) l k x :
  l !! k = Some x ->
  ((k < partition_point p l)%nat -> p x = true) /\ (k = partition_point p l -> p x = false).
Proof.
  revert k. induction l as [|y l IH]; intros k; simpl; [done|].
  destruct (p y) eqn:Hy; destruct k; simpl; intros Hx; simplify_eq; split; try done; try lia.
  - intros. apply (IH k); [done|lia].
  - intros. apply (IH k); [done|lia].
Qed.

Definition increasing (l : list (nat * nat)) : Prop := StronglySorted (fun x y => (x.2 < y.2)%nat) l.

Lemma StronglySorted_snoc {A} (R : A -> A -> Prop) l x :
  StronglySorted R (l ++ [x]) <-> StronglySorted R l /\ Forall (fun y => R y x) l.
Proof.
  induction l as [|y l IH]; simpl.
  - split; [split; constructor|]. repeat constructor.
  - split.
    + intros [Hs Hall]%StronglySorted_inv. apply IH in Hs as [Hs Hx].
      apply Forall_app in Hall as [Hall Hy]. apply Forall_cons in Hy as [Hy _]. split; by constructor.
    + intros [[Hs Hall]%StronglySorted_inv [Hy Hx]%Forall_cons]. constructor; [by apply IH|].
      apply Forall_app. by split; [|constructor].
Qed.

Lemma sublist_snoc_inv {A} (s l : list A) x :
  sublist s (l ++ [x]) -> sublist s l \/ exists s', s = s' ++ [x] /\ sublist s' l.
Proof.
  intros (s1 & s2 & -> & H1 & H2)%sublist_app_r.
  apply sublist_cons_r in H2 as [H2|(s3 & -> & H2)]; apply sublist_nil_r in H2 as ->.
  - left. by rewrite app_nil_r.
  - right. by exists s1.
Qed.

Section chain_properties.
Context (ms : list (nat * nat)).

(** A walk of [k] positions ending at position [p], by what [previous] links. *)
Inductive linked (previous : list (option nat)) : nat -> list nat -> Prop :=
| linked_first p : previous !! p = Some None -> linked previous p [p]
| linked_next p q c :
    previous !! p = Some (Some q) -> (q < p)%nat -> (authority_at ms q < authority_at ms p)%nat ->
    linked previous q c -> linked previous p (p :: c).

Record chain_inv (n : nat) (tails : list nat) (previous : list (option nat)) : Prop := mk_chain_inv {
  ci_length : length previous = length ms;
  ci_linked k p : tails !! k = Some p -> (p < n)%nat /\ exists c, linked previous p c /\ length c = S k;
  ci_tails j k p q : tails !! j = Some p -> tails !! k = Some q -> (j < k)%nat ->
    (authority_at ms p < authority_at ms q)%nat;
  ci_best s x : sublist (s ++ [x]) (take n ms) -> increasing (s ++ [x]) ->
    exists p, tails !! length s = Some p /\ (authority_at ms p <= x.2)%nat
}.

(** Links written later do not disturb a walk below them. *)
Lemma linked_insert previous p c n v :
  linked previous p c -> (p < n)%nat -> linked (<[n := v]> previous) p c.
Proof.
  induction 1 as [p Hp|p q c Hp Hq Ha Hl IH]; intros Hn.
  - constructor. by rewrite list_lookup_insert_ne by lia.
  - eapply linked_next; [by rewrite list_lookup_insert_ne by lia|done|done|]. apply IH. lia.
Qed.

Lemma chain_step_inv n tails previous :
  (n < length ms)%nat -> chain_inv n tails previous ->
  chain_inv (S n) (chain_step ms (tails, previous) n).1 (chain_step ms (tails, previous) n).2.
Proof.
  intros Hn [Hlen Hlink Htails Hbest]. unfold chain_step.
  set (p := fun tail => Nat.ltb (authority_at ms tail) (authority_at ms n)).
  set (k0 := partition_point p tails).
  set (link := match k0 with O => None | S shorter => tails !! shorter end).
  assert (k0 <= length tails)%nat as Hk0 by apply partition_point_le.
  assert (forall k q, tails !! k = Some q -> (k < k0)%nat -> (authority_at ms q < authority_at ms n)%nat) as Hlow.
  { intros k q Hq Hk. destruct (partition_point_spec p tails k q Hq) as [Hp _].
    apply Nat.ltb_lt. by apply Hp. }
  assert (forall k q, tails !! k = Some q -> (k0 <= k)%nat -> (authority_at ms n <= authority_at ms q)%nat) as Hhigh.
  { intros k q Hq Hk. destruct (lookup_lt_is_Some_2 tails k0) as [q0 Hq0].
    { apply lookup_lt_Some in Hq. lia. }
    destruct (partition_point_spec p tails k0 q0 Hq0) as [_ Hp].
    specialize (Hp eq_refl). apply Nat.ltb_ge in Hp.
    destruct (decide (k = k0)) as [->|]; [congruence|].
    specialize (Htails k0 k q0 q Hq0 Hq ltac:(lia)). lia. }
  assert (exists c, linked (<[n := link]> previous) n c /\ length c = S k0) as (c & Hc & Hcl).
  { unfold link. destruct k0 as [|k1] eqn:Hk.
    - exists [n]. split; [|done]. constructor. apply list_lookup_insert_eq. lia.
    - destruct (lookup_lt_is_Some_2 tails k1) as [q Hq]; [lia|].
      destruct (Hlink _ _ Hq) as (Hqn & c & Hc & Hl). exists (n :: c). split; [|simpl; lia].
      eapply (linked_next _ n q c); [rewrite Hq; apply list_lookup_insert_eq; lia|done| |].
      + eapply Hlow; [done|lia].
      + by apply linked_insert. }
  set (tails' := if Nat.eqb k0 (length tails) then tails ++ [n] else <[k0 := n]> tails).
  assert (tails' !! k0 = Some n) as Hnew.
  { unfold tails'. destruct (Nat.eqb_spec k0 (length tails)) as [->|].
    - by rewrite lookup_app_r, Nat.sub_diag.
    - apply list_lookup_insert_eq. lia. }
  assert (forall k, k <> k0 -> tails' !! k = tails !! k) as Hold.
  { intros k Hk. unfold tails'. destruct (Nat.eqb_spec k0 (length tails)) as [He|].
    - destruct (decide (k < length tails)%nat); [by rewrite lookup_app_l|].
      rewrite !lookup_ge_None_2; [done|lia|rewrite length_app; simpl; lia].
    - by apply list_lookup_insert_ne. }
  change (chain_inv (S n) tails' (<[n := link]> previous)). split.
  - by rewrite length_insert.
  - intros k q Hq. destruct (decide (k = k0)) as [->|Hne].
    + rewrite Hnew in Hq. injection Hq as <-. split; [lia|]. by exists c.
    + rewrite Hold in Hq by done. destruct (Hlink _ _ Hq) as (Hqn & c' & Hc' & Hl).
      split; [lia|]. exists c'. split; [by apply linked_insert|done].
  - intros j k q r Hq Hr Hjk.
    destruct (decide (j = k0)) as [->|Hj], (decide (k = k0)) as [->|Hk]; [lia|..].
    + rewrite Hnew in Hq. injection Hq as <-. rewrite Hold in Hr by done.
      destruct (lookup_lt_is_Some_2 tails k0) as [q0 Hq0].
      { apply lookup_lt_Some in Hr. lia. }
      specialize (Hhigh k0 q0 Hq0 ltac:(lia)). specialize (Htails k0 k q0 r Hq0 Hr Hjk). lia.
    + rewrite Hnew in Hr. injection Hr as <-. rewrite Hold in Hq by done. by eapply Hlow.
    + rewrite Hold in Hq, Hr by done. by eapply Htails.
  - intros s x Hsub Hinc. destruct (lookup_lt_is_Some_2 ms n Hn) as [m Hm].
    assert (authority_at ms n = m.2) as Hat by (unfold authority_at; by rewrite Hm).
    rewrite (take_S_r _ _ _ Hm) in Hsub. apply sublist_snoc_inv in Hsub as [Hsub|(s' & Heq & Hsub)].
    + destruct (Hbest _ _ Hsub Hinc) as (q & Hq & Hle).
      destruct (decide (length s = k0)) as [Hk|Hk].
      * exists n. rewrite Hk. split; [done|]. specialize (Hhigh _ _ Hq ltac:(lia)). lia.
      * exists q. by rewrite Hold.
    + apply app_inj_tail in Heq as [<- ->]. rewrite <- Hat.
      assert (length s <= k0)%nat as Hs.
      { destruct s as [|y s0 _] using rev_ind; [simpl; lia|].
        apply StronglySorted_snoc in Hinc as [Hinc Hlt].
        apply Forall_app in Hlt as [_ [Hlt _]%Forall_cons]. cbn in Hlt.
        destruct (Hbest _ _ Hsub Hinc) as (q & Hq & Hle). rewrite length_app. simpl.
        destruct (decide (length s0 < k0)%nat); [lia|].
        specialize (Hhigh _ _ Hq ltac:(lia)). lia. }
      destruct (decide (length s = k0)) as [->|Hk]; [by exists n|].
      destruct (lookup_lt_is_Some_2 tails (length s)) as [q Hq]; [lia|].
      exists q. rewrite Hold by done. split; [done|]. specialize (Hlow _ _ Hq ltac:(lia)). lia.
Qed.

Lemma chain_tables_inv n :
  (n <= length ms)%nat ->
  let state := foldl (chain_step ms) ([], replicate (length ms) None) (seq 0 n) in
  chain_inv n state.1 state.2.
Proof.
  induction n as [|n IH]; intros Hn.
  - cbn. split; [by rewrite length_replicate|done|done|].
    intros s x Hs. apply sublist_nil_r in Hs. by destruct s.
  - rewrite seq_S, foldl_app. cbn [foldl Nat.add]. specialize (IH ltac:(lia)).
    destruct (foldl _ _ (seq 0 n)) as [tails previous]. by apply chain_step_inv.
Qed.

Lemma linked_length previous p c : linked previous p c -> (length c <= S p)%nat.
Proof. induction 1; simpl; lia. Qed.

(** Enough steps follow a whole walk. *)
Lemma chain_walk_linked previous p c fuel :
  linked previous p c -> (length c <= fuel)%nat -> chain_walk previous fuel (Some p) = c.
Proof.
  intros Hl. revert fuel. induction Hl as [p Hp|p q c Hp Hq Ha Hl IH]; intros [|fuel] Hf; simpl in *; try lia.
  - rewrite Hp. simpl. by destruct fuel.
  - rewrite Hp. simpl. f_equal. apply IH. lia.
Qed.

Lemma linked_chain previous p c :
  linked previous p c -> (p < length ms)%nat ->
  exists m, ms !! p = Some m
  /\ sublist (reverse (omap (fun position => ms !! position) c)) (take (S p) ms)
  /\ increasing (reverse (omap (fun position => ms !! position) c))
  /\ last (reverse (omap (fun position => ms !! position) c)) = Some m
  /\ length (omap (fun position => ms !! position) c) = length c.
Proof.
  induction 1 as [p Hp|p q c Hp Hq Ha Hl IH]; intros Hlen;
    destruct (lookup_lt_is_Some_2 ms p Hlen) as [m Hm]; exists m; split; try done;
    rewrite (take_S_r _ _ _ Hm); cbn [omap list_omap]; rewrite Hm.
  - split_and!; [apply sublist_inserts_l; done|repeat constructor|done|done].
  - destruct IH as (mq & Hmq & Hsub & Hinc & Hlast & Hl'); [lia|].
    rewrite reverse_cons. split_and!.
    + apply sublist_app; [|done]. etrans; [exact Hsub|].
      rewrite <- (Nat.min_l (S q) p), <- take_take by lia. apply sublist_take.
    + apply StronglySorted_snoc. split; [done|].
      destruct (reverse (omap _ c)) as [|z l _] using rev_ind; [done|].
      rewrite last_snoc in Hlast. injection Hlast as ->. apply StronglySorted_snoc in Hinc as [Hinc Hlt].
      unfold authority_at in Ha. rewrite Hm, Hmq in Ha. cbn in Ha.
      apply Forall_app. split; [|by constructor]. eapply Forall_impl; [exact Hlt|]. cbn. lia.
    + by rewrite last_snoc.
    + cbn [length]. by f_equal.
Qed.

(** The chain is a subsequence of the matches, strictly increasing on the other side, and none
    is longer. *)
Lemma longest_chain_spec :
  let chain := longest_increasing_chain ms in
  sublist chain ms /\ increasing chain
  /\ (forall s, sublist s ms -> increasing s -> (length s <= length chain)%nat).
Proof.
  unfold longest_increasing_chain, chain_tables.
  pose proof (chain_tables_inv (length ms) ltac:(lia)) as Hinv.
  destruct (foldl _ _ _) as [tails previous]. cbn [fst snd] in Hinv.
  destruct Hinv as [_ Hlink _ Hbest].
  assert (forall s, sublist s ms -> increasing s -> (length s <= length tails)%nat) as Hall.
  { intros s Hs Hinc. destruct s as [|x s _] using rev_ind; [simpl; lia|].
    destruct (Hbest s x) as (p & Hp & _); [by rewrite firstn_all|done|].
    apply lookup_lt_Some in Hp. rewrite length_app. simpl. lia. }
  destruct tails as [|p tails _] using rev_ind.
  - cbn. destruct ms; cbn; (split_and!; [apply sublist_nil_l|constructor|done]).
  - rewrite last_snoc. destruct (Hlink (length tails) p) as (Hp & c & Hc & Hl).
    { by rewrite lookup_app_r, Nat.sub_diag. }
    rewrite (chain_walk_linked _ _ c); [|done|apply linked_length in Hc; lia].
    destruct (linked_chain _ _ _ Hc Hp) as (m & _ & Hsub & Hinc & _ & Hlen).
    split_and!; [etrans; [exact Hsub|apply sublist_take]|done|].
    intros s Hs Hs'. specialize (Hall s Hs Hs'). rewrite length_app in Hall.
    rewrite length_reverse, Hlen, Hl. simpl in Hall. lia.
Qed.
End chain_properties.

(** The anchors are a longest chain of matches that both sides order the same way: a
    subsequence of the matches whose record positions strictly increase, and no such subsequence
    is longer. *)
Theorem longest_increasing_chain_longest ms :
  let chain := longest_increasing_chain ms in
  sublist chain ms /\ increasing chain
  /\ (forall s, sublist s ms -> increasing s -> (length s <= length chain)%nat).
Proof. apply longest_chain_spec. Qed.

(** ** What a plan keeps and adds *)

(** The held rows of a plan, and the record rows it adds, in order. *)
Definition held_of (plan : list Planned) : list nat :=
  omap (fun item => match item with Held index _ _ => Some index | New _ => None end) plan.
Definition new_of (plan : list Planned) : list nat :=
  omap (fun item => match item with New index => Some index | Held _ _ _ => None end) plan.

Lemma held_of_app p q : held_of (p ++ q) = held_of p ++ held_of q.
Proof. apply omap_app. Qed.
Lemma new_of_app p q : new_of (p ++ q) = new_of p ++ new_of q.
Proof. apply omap_app. Qed.
Lemma held_of_new l : held_of (New <$> l) = [].
Proof. by induction l. Qed.
Lemma new_of_new l : new_of (New <$> l) = l.
Proof. induction l as [|x l IH]; [done|]. unfold new_of in *. cbn. by f_equal. Qed.
Lemma held_of_rows l : held_of (held_row <$> l) = l.
Proof. induction l as [|x l IH]; [done|]. unfold held_of in *. cbn. by f_equal. Qed.
Lemma new_of_rows l : new_of (held_row <$> l) = [].
Proof. by induction l. Qed.
Lemma held_of_cons i r k p : held_of (Held i r k :: p) = i :: held_of p.
Proof. done. Qed.
Lemma new_of_cons i r k p : new_of (Held i r k :: p) = new_of p.
Proof. done. Qed.
Create Rewrite HintDb plan.
#[local] Hint Rewrite held_of_app new_of_app held_of_new new_of_new held_of_rows new_of_rows held_of_cons
  new_of_cons @app_nil_r : plan.

Lemma seq_split a b c : (a <= b <= c)%nat -> seq a (c - a) = seq a (b - a) ++ seq b (c - b).
Proof.
  intros. replace (c - a)%nat with ((b - a) + (c - b))%nat by lia. rewrite seq_app.
  do 2 f_equal. lia.
Qed.

Section plan_properties.
Context (held : list HeldEntry) (authority : list NormalizedTimelineEntry) (mode : ReconcileMode)
  (prefix : option string).

Abbreviation unheld := (unheld held authority).
Abbreviation after_turn := (after_turn held mode).
Abbreviation is_display := (is_display held mode prefix).
Abbreviation merge_gap := (merge_gap held mode prefix).

Lemma next_below_app reply pending :
  (next_below reply pending).1 ++ (next_below reply pending).2 = pending.
Proof.
  induction pending as [|x l IH]; [done|]. cbn. case_match; [|done].
  destruct (next_below reply l). cbn in *. by rewrite IH.
Qed.

Lemma next_if_eq_sublist reply pending : sublist (next_if_eq reply pending) pending.
Proof. destruct pending; cbn; [done|]. case_match; [by apply sublist_cons|done]. Qed.

(** A record row is in a plan when it is added or repairs the live row it was re-keyed onto. *)
Definition covered (plan : list Planned) (x : nat) : Prop :=
  New x ∈ plan \/ exists i, Held i (Some x) true ∈ plan.

Lemma covered_app p q x : covered (p ++ q) x <-> covered p x \/ covered q x.
Proof. unfold covered. setoid_rewrite elem_of_app. naive_solver. Qed.
Lemma covered_cons i p x : covered p x -> covered (i :: p) x.
Proof. unfold covered. intros [?|[j ?]]; [left|right; exists j]; by right. Qed.
Lemma covered_new l x : x ∈ l -> covered (New <$> l) x.
Proof. intros. left. by apply list_elem_of_fmap_2. Qed.

(** A gap keeps the order of its held rows and of its record rows, adds or pairs every record
    row, and leaves out only a live display whose text the gap's replies hold. *)
Record gap_ok (gap_replies : list string) (rows pending : list nat) (out : list Planned) : Prop := mk_gap_ok {
  go_held : sublist (held_of out) rows;
  go_new : sublist (new_of out) pending;
  go_covered x : x ∈ pending -> covered out x;
  go_kept i : i ∈ rows -> i ∈ held_of out \/
    is_display i = true /\ exists t, held_text held i = Some t /\ trim t ∈ gap_replies
}.

(** A held row behind some of the pending record rows; [refresh] may name the next of them. *)
Lemma gap_ok_held gap_replies index refresh rekey rows before rest rest' out :
  gap_ok gap_replies rows rest' out ->
  sublist rest' rest ->
  (forall x, x ∈ rest -> x ∈ rest' \/ (refresh = Some x /\ rekey = true)) ->
  gap_ok gap_replies (index :: rows) (before ++ rest)
    ((New <$> before) ++ Held index refresh rekey :: out).
Proof.
  intros [H1 H2 H3 H4] Hsub Hin. split; autorewrite with plan; cbn [app].
  - by apply sublist_skip.
  - apply sublist_app; [done|]. by etrans.
  - intros x [Hx|Hx]%elem_of_app; apply covered_app; [left; by apply covered_new|right].
    destruct (Hin x Hx) as [Hx'|[-> ->]]; [by apply covered_cons, H3|].
    right. exists index. by left.
  - intros i [->|Hi]%elem_of_cons; [left; by left|]. destruct (H4 i Hi); [left; by right|by right].
Qed.

Lemma merge_gap_spec pairs gap_replies rows pending :
  gap_ok gap_replies rows pending (merge_gap pairs gap_replies rows pending).
Proof.
  revert pending. induction rows as [|index rows IH]; intros pending; cbn [Reconcile.merge_gap].
  { split; autorewrite with plan; [done..|apply covered_new|]. by intros i ?%not_elem_of_nil. }
  assert (gap_ok gap_replies (index :: rows) pending
    ((New <$> pending) ++ held_row index :: merge_gap pairs gap_replies rows [])) as Hflush.
  { rewrite <- (app_nil_r pending) at 1. eapply gap_ok_held; [apply IH|done|by left]. }
  assert (gap_ok gap_replies (index :: rows) pending
    (held_row index :: merge_gap pairs gap_replies rows pending)) as Hpass
    by (apply (gap_ok_held _ _ _ _ _ [] pending pending); [apply IH|done|by left]).
  case_match; [done|]. destruct (paired pairs index) as [reply|].
  - pose proof (next_below_app reply pending) as Hn. destruct (next_below reply pending) as [before rest].
    cbn in Hn. subst pending. eapply gap_ok_held; [apply IH|apply next_if_eq_sublist|].
    intros x Hx. destruct rest as [|y rest]; cbn; [by left|]. destruct (Nat.eqb_spec y reply) as [->|]; [|by left].
    apply elem_of_cons in Hx as [->|Hx]; [by right|by left].
  - destruct (is_display index) eqn:Hd; cbn; [|done].
    destruct (is_some_and _ (held_text held index)) eqn:Ht; [|done].
    destruct (IH pending) as [H1 H2 H3 H4]. split; try done; [by apply sublist_cons|].
    intros i [->|Hi]%elem_of_cons; [|by apply H4]. right. split; [done|].
    destruct (held_text held index) as [t|]; [|done]. exists t. split; [done|].
    cbn in Ht. apply existsb_exists in Ht as (r & Hr & Heq%String.eqb_eq). rewrite Heq.
    by apply list_elem_of_In.
Qed.

Definition both_lt (x y : nat * nat) : Prop := (x.1 < y.1)%nat /\ (x.2 < y.2)%nat.

Lemma by_source_spec source j :
  by_source authority source = Some j ->
  exists entry, authority !! j = Some entry /\ ne_source_id entry = source.
Proof.
  unfold by_source. intros (x & Hx & ->)%fmap_Some. apply last_Some_elem_of in Hx.
  destruct x as [k entry]. apply list_elem_of_In, List.filter_In in Hx as [Hx Heq%String.eqb_eq].
  apply list_elem_of_In, list_elem_of_lookup in Hx as (k' & Hk).
  rewrite list_lookup_imap in Hk. apply fmap_Some in Hk as (e & He & [= -> ->]). by exists e.
Qed.

Lemma plan_matches_offset n l :
  StronglySorted (fun x y => (x.1 < y.1)%nat)
    (omap (fun o => o) (imap (fun i => match_of authority (n + i)%nat) l))
  /\ Forall (fun p => (n <= p.1 < n + length l)%nat /\ (p.2 < length authority)%nat)
       (omap (fun o => o) (imap (fun i => match_of authority (n + i)%nat) l)).
Proof.
  revert n. induction l as [|row l IH]; intros n; [by split; constructor|].
  rewrite imap_cons. destruct (IH (S n)) as [H1 H2].
  assert (imap ((fun i => match_of authority (n + i)%nat) ∘ S) l
          = imap (fun i => match_of authority (S n + i)%nat) l) as Heq.
  { apply imap_ext. intros i x _. cbn. by rewrite Nat.add_succ_r. }
  rewrite Heq. rewrite Nat.add_0_r.
  assert (Forall (fun p => (n <= p.1 < n + length (row :: l))%nat /\ (p.2 < length authority)%nat)
    (omap (fun o => o) (imap (fun i => match_of authority (S n + i)%nat) l))) as H2'.
  { eapply Forall_impl; [exact H2|]. cbn. intros [] ?. cbn in *. lia. }
  destruct (match_of authority n row) as [[i j]|] eqn:Hm; cbn [omap list_omap]; [|done].
  unfold match_of in Hm. destruct (he_source row) as [source|]; [|done]. cbn in Hm.
  destruct (by_source authority source) as [j'|] eqn:Hb; [|done]. injection Hm as <- <-.
  apply by_source_spec in Hb as (e & He & _). apply lookup_lt_Some in He.
  split; constructor; [done| |cbn; lia|done].
  eapply Forall_impl; [exact H2|]. cbn. intros [] ?. cbn in *. lia.
Qed.

Lemma plan_matches_spec :
  StronglySorted (fun x y => (x.1 < y.1)%nat) (plan_matches held authority)
  /\ Forall (fun p => (p.1 < length held)%nat /\ (p.2 < length authority)%nat) (plan_matches held authority).
Proof.
  destruct (plan_matches_offset 0 held) as [H1 H2]. split; [exact H1|].
  eapply Forall_impl; [exact H2|]. cbn. lia.
Qed.

Lemma StronglySorted_and {A} (R S : A -> A -> Prop) l :
  StronglySorted R l -> StronglySorted S l -> StronglySorted (fun x y => R x y /\ S x y) l.
Proof.
  induction 1 as [|x l Hs IH Hall]; intros HS; [constructor|].
  apply StronglySorted_inv in HS as [HS HallS]. constructor; [by apply IH|].
  rewrite Forall_forall in *. auto.
Qed.

Definition anchors_ok (anchors : list (nat * nat)) : Prop :=
  StronglySorted both_lt anchors
  /\ Forall (fun p => (p.1 < length held)%nat /\ (p.2 < length authority)%nat
                      /\ held_authority held authority p.2 = true) anchors.

Lemma anchors_are_ok : anchors_ok (longest_increasing_chain (plan_matches held authority)).
Proof.
  destruct (longest_chain_spec (plan_matches held authority)) as (Hsub & Hinc & _).
  destruct plan_matches_spec as [Hs Hall]. split.
  - apply StronglySorted_and; [by eapply StronglySorted_sublist|done].
  - apply Forall_forall. intros p Hp. pose proof (sublist_subset _ _ Hsub p Hp) as Hin.
    rewrite Forall_forall in Hall. specialize (Hall p Hin). split_and!; try apply Hall.
    apply existsb_exists. exists p. split; [by apply list_elem_of_In|apply Nat.eqb_refl].
Qed.

Lemma unheld_split a b c : (a <= b <= c)%nat -> unheld a c = unheld a b ++ unheld b c.
Proof. intros H. unfold Reconcile.unheld. by rewrite (seq_split a b c), List.filter_app. Qed.

Lemma unheld_held a c : (a < c)%nat -> held_authority held authority a = true -> unheld a c = unheld (S a) c.
Proof.
  intros H Ha. rewrite (unheld_split a (S a) c) by lia. unfold Reconcile.unheld at 1.
  replace (S a - a)%nat with 1%nat by lia. cbn. by rewrite Ha.
Qed.

(** The only rows a plan may leave out: live displays of a reply the record holds. *)
Definition drawn_twice (i : nat) : Prop :=
  is_display i = true /\ exists t j entry t', held_text held i = Some t /\ authority !! j = Some entry
    /\ ne_kind entry = "assistant_message"%string /\ ne_body entry = Text t' /\ trim t' = trim t.

Lemma reply_texts_elem indices r :
  r ∈ reply_texts authority indices ->
  exists j entry t, authority !! j = Some entry /\ ne_kind entry = "assistant_message"%string
    /\ ne_body entry = Text t /\ r = trim t.
Proof.
  unfold reply_texts. intros (j & _ & Hj)%list_elem_of_omap.
  destruct (authority !! j) as [entry|] eqn:He; [|done]. cbn in Hj.
  destruct (String.eqb_spec (ne_kind entry) "assistant_message"); [|done].
  destruct (ne_body entry) as [t| | |] eqn:Hb; try done. injection Hj as <-. by exists j, entry, t.
Qed.

Record rows_ok (rows pending : list nat) (out : list Planned) : Prop := mk_rows_ok {
  ro_held : sublist (held_of out) rows;
  ro_new : sublist (new_of out) pending;
  ro_covered x : x ∈ pending -> covered out x;
  ro_kept i : i ∈ rows -> i ∈ held_of out \/ drawn_twice i
}.

Lemma rows_ok_app r1 r2 p1 p2 o1 o2 :
  rows_ok r1 p1 o1 -> rows_ok r2 p2 o2 -> rows_ok (r1 ++ r2) (p1 ++ p2) (o1 ++ o2).
Proof.
  intros [H1 H2 H3 H4] [G1 G2 G3 G4]. split; autorewrite with plan.
  - by apply sublist_app.
  - by apply sublist_app.
  - intros x [Hx|Hx]%elem_of_app; apply covered_app; auto.
  - intros i [Hi|Hi]%elem_of_app; rewrite elem_of_app; [destruct (H4 i Hi)|destruct (G4 i Hi)]; auto.
Qed.

Lemma rows_ok_held l : rows_ok l [] (held_row <$> l).
Proof. split; autorewrite with plan; [done..| |auto]. by intros x ?%not_elem_of_nil. Qed.
Lemma rows_ok_new l : rows_ok [] l (New <$> l).
Proof. split; autorewrite with plan; [done..|apply covered_new|]. by intros x ?%not_elem_of_nil. Qed.

Lemma anchor_rows_ok h a he ae :
  (h < he)%nat ->
  rows_ok (seq h (he - h)) (unheld (S a) ae) (anchor_rows held authority mode prefix h a he ae).
Proof.
  intros Hh. unfold anchor_rows. set (pairs := pair_displays_with_replies _ _ _ _).
  destruct (merge_gap_spec pairs (reply_texts authority (a :: seq (S a) (ae - S a)))
    (seq (S h) (he - S h)) (unheld (S a) ae)) as [H1 H2 H3 H4].
  replace (he - h)%nat with (S (he - S h)) by lia. cbn [seq]. split; autorewrite with plan.
  - by apply sublist_skip.
  - done.
  - intros x Hx. by apply covered_cons, H3.
  - intros i [->|Hi]%elem_of_cons; [left; by left|].
    destruct (H4 i Hi) as [?|(Hd & t & Ht & Hr)]; [left; by right|right]. split; [done|].
    apply reply_texts_elem in Hr as (j & entry & t' & ? & ? & ? & ?). by exists t, j, entry, t'.
Qed.

Lemma anchors_rows_ok h a rest :
  anchors_ok ((h, a) :: rest) ->
  rows_ok (seq h (length held - h)) (unheld (S a) (length authority))
    (anchors_rows held authority mode prefix ((h, a) :: rest)).
Proof.
  revert h a. induction rest as [|[h' a'] rest IH]; intros h a [Hs Hall].
  - apply Forall_cons in Hall as [(Hh & Ha & _) _]. cbn in Hh, Ha |- *. rewrite app_nil_r.
    by apply anchor_rows_ok.
  - apply StronglySorted_inv in Hs as [Hs Hlt]. apply Forall_cons in Hlt as [[Hlt Hlt'] _].
    apply Forall_cons in Hall as [(Hh & Ha & _) Hall].
    pose proof (proj1 (Forall_cons _ _ _) Hall) as [(Hh' & Ha' & Hheld) _]. cbn in Hlt, Hlt', Hh, Ha, Hh', Ha', Hheld.
    change (anchors_rows held authority mode prefix ((h, a) :: (h', a') :: rest)) with
      (anchor_rows held authority mode prefix h a h' a' ++ anchors_rows held authority mode prefix ((h', a') :: rest)).
    rewrite (seq_split h h'), (unheld_split (S a) a'), (unheld_held a') by (done || lia).
    apply rows_ok_app; [by apply anchor_rows_ok|apply IH]. by split.
Qed.

Lemma plan_rows_ok plan :
  plan_reconcile held authority mode prefix = Some plan ->
  exists pending, rows_ok (seq 0 (length held)) pending plan
  /\ sublist pending (unheld 0 (length authority))
  /\ (turn mode = false \/ from_turn_start mode = true -> pending = unheld 0 (length authority)).
Proof.
  unfold plan_reconcile. pose proof anchors_are_ok as Hok.
  destruct (longest_increasing_chain (plan_matches held authority)) as [|[h a] rest].
  { destruct (turn mode); [done|]. intros [= <-]. exists (unheld 0 (length authority)). split; [|done].
    pose proof (rows_ok_app _ _ _ _ _ _ (rows_ok_new (unheld 0 (length authority)))
      (rows_ok_held (seq 0 (length held)))) as H. by rewrite app_nil_r in H. }
  destruct Hok as [Hs Hall]. pose proof (proj1 (Forall_cons _ _ _) Hall) as [(Hh & Ha & Hheld) _].
  cbn in Hh, Ha, Hheld. intros [= <-].
  pose proof (anchors_rows_ok h a rest (conj Hs Hall)) as Hrows.
  pose proof (rows_ok_held (seq 0 h)) as Hbh. pose proof (rows_ok_new (unheld 0 a)) as Hbn.
  rewrite (unheld_split 0 a (length authority)), (unheld_held a (length authority)) by (done || lia).
  replace (seq 0 (length held)) with (seq 0 h ++ seq h (length held - h))
    by (rewrite <- (Nat.sub_0_r (length held)) at 2; rewrite (seq_split 0 h) by lia; by rewrite Nat.sub_0_r).
  pose proof (rows_ok_app _ _ _ _ _ _ Hbh Hbn) as H1. pose proof (rows_ok_app _ _ _ _ _ _ Hbn Hbh) as H2.
  rewrite !app_nil_r in H1. cbn [app] in H1, H2. rewrite app_nil_r in H2.
  destruct (turn mode); [destruct (from_turn_start mode)|]; eexists.
  - split; [by apply rows_ok_app|done].
  - rewrite app_nil_r. split; [by eapply rows_ok_app|].
    split; [by apply sublist_inserts_l|]. by intros [|].
  - split; [by apply rows_ok_app|done].
Qed.
End plan_properties.

(** A plan never reorders, repeats or invents rows: its held rows and its record rows are
    subsequences of what it was given, no record row a held one already shows is added again, a held
    row is left out only when it is a live display of a reply the record holds, and, unless the read
    may reach back past the turn, every other record row is added or repairs the row it was paired
    with. *)
Theorem plan_reconcile_keeps held authority mode prefix plan :
  plan_reconcile held authority mode prefix = Some plan ->
  sublist (held_of plan) (seq 0 (length held))
  /\ sublist (new_of plan) (seq 0 (length authority))
  /\ (forall x, x ∈ new_of plan -> held_authority held authority x = false)
  /\ (forall i, (i < length held)%nat -> i ∈ held_of plan \/ drawn_twice held authority mode prefix i)
  /\ (turn mode = false \/ from_turn_start mode = true -> forall x, (x < length authority)%nat ->
       held_authority held authority x = false -> covered plan x).
Proof.
  intros (pending & [H1 H2 H3 H4] & Hsub & Hall)%plan_rows_ok.
  assert (sublist (new_of plan) (unheld held authority 0 (length authority))) as Hnew by by etrans.
  split_and!; [done| | | |].
  - etrans; [exact Hnew|]. unfold unheld. rewrite Nat.sub_0_r. apply filter_sublist.
  - intros x Hx. eapply sublist_subset in Hx; [|exact Hnew].
    apply list_elem_of_In, List.filter_In in Hx as [_ Hx]. by apply negb_true_iff in Hx.
  - intros i Hi. apply H4. apply elem_of_seq. lia.
  - intros Hm x Hx Hheld. apply H3. rewrite (Hall Hm). unfold unheld.
    apply list_elem_of_In, List.filter_In. rewrite Hheld. split; [apply in_seq; lia|done].
Qed.

Section backfill.
Context (held : list HeldEntry) (authority : list NormalizedTimelineEntry) (complete : bool)
  (prefix : option string).

Abbreviation unheld := (unheld held authority).

Lemma merge_gap_backfill gap_replies rows pending :
  merge_gap held (Backfill complete) prefix [] gap_replies rows pending
  = (held_row <$> rows) ++ (New <$> pending).
Proof. revert pending. induction rows as [|i rows IH]; intros pending; [done|]. cbn. by rewrite IH. Qed.

Definition never_rekeyed (plan : list Planned) : Prop := forall i r k, Held i r k ∈ plan -> k = false.

Lemma never_rekeyed_rows l k : never_rekeyed ((held_row <$> l) ++ (New <$> k)).
Proof.
  intros i r b [H|H]%elem_of_app; apply list_elem_of_fmap in H as (? & Heq & _); [|done].
  unfold held_row in Heq. congruence.
Qed.

Lemma never_rekeyed_app p q : never_rekeyed p -> never_rekeyed q -> never_rekeyed (p ++ q).
Proof. intros Hp Hq i r k [H|H]%elem_of_app; [by eapply Hp|by eapply Hq]. Qed.

(** What a backfill gap or a whole backfill plan holds. *)
Definition backfill_ok (rows pending : list nat) (out : list Planned) : Prop :=
  held_of out = rows /\ new_of out = pending /\ never_rekeyed out.

Lemma backfill_ok_app r1 r2 p1 p2 o1 o2 :
  backfill_ok r1 p1 o1 -> backfill_ok r2 p2 o2 -> backfill_ok (r1 ++ r2) (p1 ++ p2) (o1 ++ o2).
Proof.
  intros (<- & <- & ?) (<- & <- & ?). split_and!; [apply held_of_app|apply new_of_app|].
  by apply never_rekeyed_app.
Qed.

Lemma anchor_rows_backfill h a he ae :
  (h < he)%nat ->
  backfill_ok (seq h (he - h)) (unheld (S a) ae) (anchor_rows held authority (Backfill complete) prefix h a he ae).
Proof.
  intros Hh. unfold anchor_rows.
  assert (forall l, List.filter (is_display held (Backfill complete) prefix) l = []) as -> by (by induction l).
  assert (forall l, pair_displays_with_replies held authority [] l = []) as -> by (by intros []).
  rewrite merge_gap_backfill. replace (he - h)%nat with (S (he - S h)) by lia. cbn [seq].
  unfold backfill_ok. autorewrite with plan. split_and!; [done..|].
  apply (never_rekeyed_app [_] _); [|apply never_rekeyed_rows].
  intros i r k Heq%list_elem_of_singleton. congruence.
Qed.

Lemma anchors_rows_backfill h a rest :
  anchors_ok held authority ((h, a) :: rest) ->
  backfill_ok (seq h (length held - h)) (unheld (S a) (length authority))
    (anchors_rows held authority (Backfill complete) prefix ((h, a) :: rest)).
Proof.
  revert h a. induction rest as [|[h' a'] rest IH]; intros h a [Hs Hall].
  - apply Forall_cons in Hall as [(Hh & Ha & _) _]. cbn in Hh, Ha |- *. rewrite app_nil_r.
    by apply anchor_rows_backfill.
  - apply StronglySorted_inv in Hs as [Hs Hlt]. apply Forall_cons in Hlt as [[Hlt Hlt'] _].
    apply Forall_cons in Hall as [(Hh & Ha & _) Hall].
    pose proof (proj1 (Forall_cons _ _ _) Hall) as [(Hh' & Ha' & Hheld) _]. cbn in Hlt, Hlt', Hh, Ha, Hh', Ha', Hheld.
    change (anchors_rows held authority (Backfill complete) prefix ((h, a) :: (h', a') :: rest)) with
      (anchor_rows held authority (Backfill complete) prefix h a h' a'
       ++ anchors_rows held authority (Backfill complete) prefix ((h', a') :: rest)).
    rewrite (seq_split h h'), (unheld_split _ _ (S a) a'), (unheld_held _ _ a') by (done || lia).
    apply backfill_ok_app; [by apply anchor_rows_backfill|apply IH]. by split.
Qed.
End backfill.

(** A backfill always has a plan: every held row in place and none re-keyed, with exactly the
    record rows no held row already shows, in the record's order. *)
Theorem backfill_plan_exact held authority complete prefix :
  exists plan, plan_reconcile held authority (Backfill complete) prefix = Some plan
  /\ held_of plan = seq 0 (length held)
  /\ new_of plan = List.filter (fun x => negb (held_authority held authority x)) (seq 0 (length authority))
  /\ never_rekeyed plan.
Proof.
  rewrite <- (Nat.sub_0_r (length authority)). fold (unheld held authority 0 (length authority)).
  unfold plan_reconcile. pose proof (anchors_are_ok held authority) as Hok.
  destruct (longest_increasing_chain (plan_matches held authority)) as [|[h a] rest]; cbn [turn].
  { eexists. split; [done|]. autorewrite with plan. cbn [app]. split_and!; [done..|].
    apply never_rekeyed_app; [apply (never_rekeyed_rows [])|].
    pose proof (never_rekeyed_rows (seq 0 (length held)) []) as H. by rewrite app_nil_r in H. }
  pose proof Hok as [_ Hall]. apply Forall_cons in Hall as [(Hh & Ha & Hheld) _]. cbn in Hh, Ha, Hheld.
  destruct (anchors_rows_backfill held authority complete prefix h a rest Hok) as (H1 & H2 & H3).
  eexists. split; [done|]. autorewrite with plan. rewrite H1, H2. split_and!.
  - cbn [app]. pose proof (seq_split 0 h (length held) ltac:(lia)) as Hseq. by rewrite !Nat.sub_0_r in Hseq.
  - by rewrite (unheld_split _ _ 0 a (length authority)), (unheld_held _ _ a (length authority)) by (done || lia).
  - repeat apply never_rekeyed_app; [apply (never_rekeyed_rows [])| |done].
    pose proof (never_rekeyed_rows (seq 0 h) []) as H. by rewrite app_nil_r in H.
Qed.
