(* ===== verification/Session.v ===== *)
(** One live session of the supervisor ([agent_session.rs]): its state, the helpers every
    operation shares, and the bound and window of its timeline. *)
From S2P Require Import Prelude Text Protocol Fit Reducer Metadata Reconcile.

Local Open Scope N_scope.

Definition MAX_HOST_TIMELINE_BYTES : N := 4 * 1024 * 1024.
Definition MAX_HOST_TIMELINE_ENTRIES : N := 4096.
Definition TURN_CLAIM_EXPIRY_SECONDS : N := 15 * 60.
Definition MAX_ENDED_VERDICTS : N := 256.

(** ** State *)

Record TerminalBinding := mkTerminalBinding {
  bi_tui_pid : N;
  bi_tui_identity : string;
  bi_server_pid : N;
  bi_server_identity : string;
  bi_generation : N;
  bi_thread_id : string;
  bi_status_directory : string
}.

#[export] Instance TerminalBinding_eq_dec : EqDecision TerminalBinding.
Proof. solve_decision. Defined.

Record SourceEntryMapping := mkSourceEntryMapping {
  sm_entry_id : string;
  sm_sequence : N;
  sm_settled : bool
}.

#[export] Instance SourceEntryMapping_eq_dec : EqDecision SourceEntryMapping.
Proof. solve_decision. Defined.

(** [ls_bridge_sender] is the queue behind the channel to the bridge, absent without one;
    [ls_updates] is every frame the session broadcast, oldest first. What the whereabouts
    announcer was told is not modelled. *)
Record LiveSession := mkLiveSession {
  ls_snapshot : AgentSessionSnapshot;
  ls_workspace_display : string;
  ls_workspace_path : option string;
  ls_upstream_identity : string;
  ls_bridge_disconnect_token : string;
  ls_process_id : N;
  ls_terminal_binding : option TerminalBinding;
  ls_compatible : bool;
  ls_offered_commands : CommandCapabilities;
  ls_bridge_sender : option (list AgentCommand);
  ls_adapter_active : bool;
  ls_open_run : option TurnState;
  ls_source_entries : gmap string SourceEntryMapping;
  ls_history : list TimelineEntry;
  ls_next_sequence : N;
  ls_updated_at : N;
  ls_route_id : option string;
  ls_in_flight_commands : gset string;
  ls_updates : list AgentServerFrame
}.

Definition set_ls_snapshot (x : AgentSessionSnapshot) (s : LiveSession) : LiveSession :=
  mkLiveSession x (ls_workspace_display s) (ls_workspace_path s)
    (ls_upstream_identity s) (ls_bridge_disconnect_token s) (ls_process_id s)
    (ls_terminal_binding s) (ls_compatible s) (ls_offered_commands s)
    (ls_bridge_sender s) (ls_adapter_active s) (ls_open_run s) (ls_source_entries s)
    (ls_history s) (ls_next_sequence s) (ls_updated_at s) (ls_route_id s)
    (ls_in_flight_commands s) (ls_updates s).
Definition set_ls_workspace_display (x : string) (s : LiveSession) : LiveSession :=
  mkLiveSession (ls_snapshot s) x (ls_workspace_path s) (ls_upstream_identity s)
    (ls_bridge_disconnect_token s) (ls_process_id s) (ls_terminal_binding s)
    (ls_compatible s) (ls_offered_commands s) (ls_bridge_sender s)
    (ls_adapter_active s) (ls_open_run s) (ls_source_entries s) (ls_history s)
    (ls_next_sequence s) (ls_updated_at s) (ls_route_id s) (ls_in_flight_commands s)
    (ls_updates s).
Definition set_ls_process_id (x : N) (s : LiveSession) : LiveSession :=
  mkLiveSession (ls_snapshot s) (ls_workspace_display s) (ls_workspace_path s)
    (ls_upstream_identity s) (ls_bridge_disconnect_token s) x (ls_terminal_binding s)
    (ls_compatible s) (ls_offered_commands s) (ls_bridge_sender s)
    (ls_adapter_active s) (ls_open_run s) (ls_source_entries s) (ls_history s)
    (ls_next_sequence s) (ls_updated_at s) (ls_route_id s) (ls_in_flight_commands s)
    (ls_updates s).
Definition set_ls_terminal_binding (x : option TerminalBinding) (s : LiveSession) : LiveSession :=
  mkLiveSession (ls_snapshot s) (ls_workspace_display s) (ls_workspace_path s)
    (ls_upstream_identity s) (ls_bridge_disconnect_token s) (ls_process_id s) x
    (ls_compatible s) (ls_offered_commands s) (ls_bridge_sender s)
    (ls_adapter_active s) (ls_open_run s) (ls_source_entries s) (ls_history s)
    (ls_next_sequence s) (ls_updated_at s) (ls_route_id s) (ls_in_flight_commands s)
    (ls_updates s).
Definition set_ls_compatible (x : bool) (s : LiveSession) : LiveSession :=
  mkLiveSession (ls_snapshot s) (ls_workspace_display s) (ls_workspace_path s)
    (ls_upstream_identity s) (ls_bridge_disconnect_token s) (ls_process_id s)
    (ls_terminal_binding s) x (ls_offered_commands s) (ls_bridge_sender s)
    (ls_adapter_active s) (ls_open_run s) (ls_source_entries s) (ls_history s)
    (ls_next_sequence s) (ls_updated_at s) (ls_route_id s) (ls_in_flight_commands s)
    (ls_updates s).
Definition set_ls_offered_commands (x : CommandCapabilities) (s : LiveSession) : LiveSession :=
  mkLiveSession (ls_snapshot s) (ls_workspace_display s) (ls_workspace_path s)
    (ls_upstream_identity s) (ls_bridge_disconnect_token s) (ls_process_id s)
    (ls_terminal_binding s) (ls_compatible s) x (ls_bridge_sender s)
    (ls_adapter_active s) (ls_open_run s) (ls_source_entries s) (ls_history s)
    (ls_next_sequence s) (ls_updated_at s) (ls_route_id s) (ls_in_flight_commands s)
    (ls_updates s).
Definition set_ls_bridge_sender (x : option (list AgentCommand)) (s : LiveSession) : LiveSession :=
  mkLiveSession (ls_snapshot s) (ls_workspace_display s) (ls_workspace_path s)
    (ls_upstream_identity s) (ls_bridge_disconnect_token s) (ls_process_id s)
    (ls_terminal_binding s) (ls_compatible s) (ls_offered_commands s) x
    (ls_adapter_active s) (ls_open_run s) (ls_source_entries s) (ls_history s)
    (ls_next_sequence s) (ls_updated_at s) (ls_route_id s) (ls_in_flight_commands s)
    (ls_updates s).
Definition set_ls_adapter_active (x : bool) (s : LiveSession) : LiveSession :=
  mkLiveSession (ls_snapshot s) (ls_workspace_display s) (ls_workspace_path s)
    (ls_upstream_identity s) (ls_bridge_disconnect_token s) (ls_process_id s)
    (ls_terminal_binding s) (ls_compatible s) (ls_offered_commands s)
    (ls_bridge_sender s) x (ls_open_run s) (ls_source_entries s)
    (ls_history s) (ls_next_sequence s) (ls_updated_at s) (ls_route_id s)
    (ls_in_flight_commands s) (ls_updates s).
Definition set_ls_open_run (x : option TurnState) (s : LiveSession) : LiveSession :=
  mkLiveSession (ls_snapshot s) (ls_workspace_display s) (ls_workspace_path s)
    (ls_upstream_identity s) (ls_bridge_disconnect_token s) (ls_process_id s)
    (ls_terminal_binding s) (ls_compatible s) (ls_offered_commands s)
    (ls_bridge_sender s) (ls_adapter_active s) x (ls_source_entries s)
    (ls_history s) (ls_next_sequence s) (ls_updated_at s) (ls_route_id s)
    (ls_in_flight_commands s) (ls_updates s).
Definition set_ls_source_entries (x : gmap string SourceEntryMapping) (s : LiveSession) : LiveSession :=
  mkLiveSession (ls_snapshot s) (ls_workspace_display s) (ls_workspace_path s)
    (ls_upstream_identity s) (ls_bridge_disconnect_token s) (ls_process_id s)
    (ls_terminal_binding s) (ls_compatible s) (ls_offered_commands s)
    (ls_bridge_sender s) (ls_adapter_active s) (ls_open_run s) x
    (ls_history s) (ls_next_sequence s) (ls_updated_at s) (ls_route_id s)
    (ls_in_flight_commands s) (ls_updates s).
Definition set_ls_history (x : list TimelineEntry) (s : LiveSession) : LiveSession :=
  mkLiveSession (ls_snapshot s) (ls_workspace_display s) (ls_workspace_path s)
    (ls_upstream_identity s) (ls_bridge_disconnect_token s) (ls_process_id s)
    (ls_terminal_binding s) (ls_compatible s) (ls_offered_commands s)
    (ls_bridge_sender s) (ls_adapter_active s) (ls_open_run s) (ls_source_entries s) x
    (ls_next_sequence s) (ls_updated_at s) (ls_route_id s) (ls_in_flight_commands s)
    (ls_updates s).
Definition set_ls_next_sequence (x : N) (s : LiveSession) : LiveSession :=
  mkLiveSession (ls_snapshot s) (ls_workspace_display s) (ls_workspace_path s)
    (ls_upstream_identity s) (ls_bridge_disconnect_token s) (ls_process_id s)
    (ls_terminal_binding s) (ls_compatible s) (ls_offered_commands s)
    (ls_bridge_sender s) (ls_adapter_active s) (ls_open_run s) (ls_source_entries s)
    (ls_history s) x (ls_updated_at s) (ls_route_id s) (ls_in_flight_commands s)
    (ls_updates s).
Definition set_ls_updated_at (x : N) (s : LiveSession) : LiveSession :=
  mkLiveSession (ls_snapshot s) (ls_workspace_display s) (ls_workspace_path s)
    (ls_upstream_identity s) (ls_bridge_disconnect_token s) (ls_process_id s)
    (ls_terminal_binding s) (ls_compatible s) (ls_offered_commands s)
    (ls_bridge_sender s) (ls_adapter_active s) (ls_open_run s) (ls_source_entries s)
    (ls_history s) (ls_next_sequence s) x (ls_route_id s) (ls_in_flight_commands s)
    (ls_updates s).
Definition set_ls_route_id (x : option string) (s : LiveSession) : LiveSession :=
  mkLiveSession (ls_snapshot s) (ls_workspace_display s) (ls_workspace_path s)
    (ls_upstream_identity s) (ls_bridge_disconnect_token s) (ls_process_id s)
    (ls_terminal_binding s) (ls_compatible s) (ls_offered_commands s)
    (ls_bridge_sender s) (ls_adapter_active s) (ls_open_run s) (ls_source_entries s)
    (ls_history s) (ls_next_sequence s) (ls_updated_at s) x (ls_in_flight_commands s)
    (ls_updates s).
Definition set_ls_in_flight_commands (x : gset string) (s : LiveSession) : LiveSession :=
  mkLiveSession (ls_snapshot s) (ls_workspace_display s) (ls_workspace_path s)
    (ls_upstream_identity s) (ls_bridge_disconnect_token s) (ls_process_id s)
    (ls_terminal_binding s) (ls_compatible s) (ls_offered_commands s)
    (ls_bridge_sender s) (ls_adapter_active s) (ls_open_run s) (ls_source_entries s)
    (ls_history s) (ls_next_sequence s) (ls_updated_at s) (ls_route_id s) x
    (ls_updates s).
Definition set_ls_updates (x : list AgentServerFrame) (s : LiveSession) : LiveSession :=
  mkLiveSession (ls_snapshot s) (ls_workspace_display s) (ls_workspace_path s)
    (ls_upstream_identity s) (ls_bridge_disconnect_token s) (ls_process_id s)
    (ls_terminal_binding s) (ls_compatible s) (ls_offered_commands s)
    (ls_bridge_sender s) (ls_adapter_active s) (ls_open_run s) (ls_source_entries s)
    (ls_history s) (ls_next_sequence s) (ls_updated_at s) (ls_route_id s)
    (ls_in_flight_commands s) x.

(** [session.snapshot.field = value]. *)
Definition over_snapshot (f : AgentSessionSnapshot -> AgentSessionSnapshot) (s : LiveSession) : LiveSession :=
  set_ls_snapshot (f (ls_snapshot s)) s.

(** [session.updates.send(frame)]: the log of what subscribers are sent. *)
Definition send (frame : AgentServerFrame) (s : LiveSession) : LiveSession :=
  set_ls_updates (ls_updates s ++ [frame]) s.

Definition bump_revision (now : N) (s : LiveSession) : LiveSession :=
  set_ls_updated_at now
    (over_snapshot (fun p => set_ss_revision (N.max (sat_add64 (ss_revision p) 1) 1) p) s).

(** The delta every operation builds from the bumped session. *)
Definition session_delta (base_revision : N) (changes : list AgentDeltaChange) (p : AgentSessionSnapshot)
  : AgentSessionDelta :=
  mkAgentSessionDelta AGENT_PROTOCOL_VERSION (ss_session_id p) (ss_snapshot_epoch p)
    (ss_process_generation p) base_revision (ss_revision p) changes.

Definition send_delta (base_revision : N) (changes : list AgentDeltaChange) (s : LiveSession) : LiveSession :=
  send (SessionDelta AGENT_PROTOCOL_VERSION (session_delta base_revision changes (ls_snapshot s))) s.

Definition send_resync (reason : string) (s : LiveSession) : LiveSession :=
  send (Protocol.ResyncRequired AGENT_PROTOCOL_VERSION (ss_session_id (ls_snapshot s)) reason) s.

(** ** Entries *)

Definition source_mapping (s : LiveSession) (source_id : string) : option SourceEntryMapping :=
  ls_source_entries s !! source_id.

Definition entry_named (entry_id : string) (entry : TimelineEntry) : bool := te_entry_id entry =s? entry_id.

Definition previous_source_revision (s : LiveSession) (source_id : string) : option N :=
  mapping ← source_mapping s source_id;
  te_entry_revision <$> List.find (entry_named (sm_entry_id mapping)) (ls_history s).

(** [normalize_entry]: a source seen for the first time is mapped to a fresh entry id and the next
    sequence. [id_draw] is the draw of its [random_id]. *)
Definition normalize_entry (id_draw : N) (entry : NormalizedTimelineEntry) (s : LiveSession)
  : LiveSession * TimelineEntry :=
  let '(s, mapping) :=
    match source_mapping s (ne_source_id entry) with
    | Some mapping => (s, mapping)
    | None =>
        let mapping := mkSourceEntryMapping (random_id id_draw) (ls_next_sequence s) false in
        (set_ls_next_sequence (N.max (sat_add64 (ls_next_sequence s) 1) 1)
           (set_ls_source_entries (<[ne_source_id entry := mapping]> (ls_source_entries s)) s), mapping)
    end in
  (s, mkTimelineEntry (sm_entry_id mapping) (ne_source_revision entry) (sm_sequence mapping)
        (ne_timestamp entry) (ne_state entry) (ne_kind entry) (ne_body entry) (ne_truncation entry)).

(** [history.push(entry); history.sort_by_key(sequence)]. *)
Definition push_sorted (entry : TimelineEntry) (s : LiveSession) : LiveSession :=
  set_ls_history (sort_by_key te_sequence (ls_history s ++ [entry])) s.

(** ** History coverage *)

Definition history_coverage (complete : bool) : string * option string :=
  if complete then ("full", None)%string else ("live_tail", Some "resume")%string.

Definition set_history_coverage (complete : bool) (s : LiveSession) : LiveSession * bool :=
  let '(history, boundary) := history_coverage complete in
  let p := ls_snapshot s in
  let changed := negb (ac_history (ss_capabilities p) =s? history)
                 || negb (bool_decide (tw_history_boundary (ss_timeline_window p) = boundary)) in
  (set_ls_snapshot
     (set_ss_timeline_window (set_tw_history_boundary boundary (ss_timeline_window p))
        (set_ss_capabilities (set_ac_history history (ss_capabilities p)) p)) s, changed).

Definition publish_evicted_start (now : N) (start_evicted : bool) (s : LiveSession) : LiveSession :=
  if negb start_evicted then s
  else let '(s, changed) := set_history_coverage false s in
       if negb changed then s else send_resync "history_bounded" (bump_revision now s).

(** ** The host bound *)

Definition history_bytes (history : list TimelineEntry) : N :=
  foldr N.add 0 (TimelineEntry_decoded_bytes <$> history).

Definition over_bound (bytes : N) (history : list TimelineEntry) : bool :=
  (MAX_HOST_TIMELINE_BYTES <? bytes) || (MAX_HOST_TIMELINE_ENTRIES <? len history).

Definition complete_item (entry : TimelineEntry) : Prop := te_state entry <> "streaming"%string.

(** The entry one turn of the loop removes: the first that is not streaming, or the oldest. *)
Definition eviction_index (history : list TimelineEntry) : nat :=
  default 0%nat (fst <$> list_find complete_item history).

(** The loop over [(bytes, history, source_entries, evicted)]; each turn removes an entry, so one
    more than the entries held is enough fuel. *)
Fixpoint evict_loop (fuel : nat) (bytes : N) (history : list TimelineEntry)
    (sources : gmap string SourceEntryMapping) (evicted : bool)
  : list TimelineEntry * gmap string SourceEntryMapping * bool :=
  match fuel with
  | O => (history, sources, evicted)
  | S fuel =>
      if over_bound bytes history then
        let index := eviction_index history in
        match history !! index with
        | Some removed =>
            evict_loop fuel (bytes - TimelineEntry_decoded_bytes removed) (delete index history)
              (filter (fun '(_, mapping) => sm_entry_id mapping <> te_entry_id removed) sources) true
        | None => (history, sources, true)
        end
      else (history, sources, evicted)
  end.

Definition enforce_history_bound (s : LiveSession) : LiveSession * bool :=
  let '(history, sources, evicted) :=
    evict_loop (S (length (ls_history s))) (history_bytes (ls_history s)) (ls_history s)
      (ls_source_entries s) false in
  (set_ls_history history (set_ls_source_entries sources s), evicted).

(** ** The window *)

Definition still_sized_for (wire entry : TimelineEntry) : bool :=
  (te_state wire =s? te_state entry) && (te_kind wire =s? te_kind entry)
  && (te_timestamp wire =? te_timestamp entry)
  && match te_body wire, te_body entry with
     | Text head, Text text =>
         if opt_is (tr_reason_code (te_truncation wire)) TRUNCATION_BODY_AVAILABLE
         then bool_decide (tr_original_bytes (te_truncation wire) = Some (slen text))
              && starts_with text head
         else bool_decide (te_truncation wire = te_truncation entry) && (head =s? text)
     | _, _ => bool_decide (wire = entry)
     end.

(** Entries the last window sized, by what identifies their content; a later one replaces an
    earlier one. *)
Definition sized_entry (sized : list TimelineEntry) (entry : TimelineEntry) : option TimelineEntry :=
  last (List.filter (fun wire => (te_entry_id wire =s? te_entry_id entry)
                                 && (te_entry_revision wire =? te_entry_revision entry)
                                 && (te_sequence wire =? te_sequence entry)) sized).

Section window.
(** What [serde_json] encodes a frame to. *)
Context (encoded_frame_len : AgentServerFrame -> N).

Definition window_entry (sized : list TimelineEntry) (entry : TimelineEntry) : TimelineEntry :=
  match sized_entry sized entry with
  | Some wire => if still_sized_for wire entry then wire else fit_entry_alone encoded_frame_len entry
  | None => fit_entry_alone encoded_frame_len entry
  end.

Definition refresh_snapshot_window (s : LiveSession) : LiveSession :=
  let window := ss_timeline_window (ls_snapshot s) in
  let newest := reverse (take (N.to_nat MAX_TIMELINE_PAGE_ENTRIES) (reverse (ls_history s))) in
  let entries := window_entry (tw_entries window) <$> newest in
  let older := len entries <? len (ls_history s) in
  over_snapshot (set_ss_timeline_window
    (mkTimelineWindow entries older (tw_history_boundary window) (te_sequence <$> head entries)
       (te_sequence <$> last entries) older)) s.

Definition snapshot_for_wire (s : LiveSession) : AgentSessionSnapshot :=
  fit_snapshot_to_frame encoded_frame_len (ls_snapshot s).

(** [entry_delta]: the frame that publishes one entry, sized against the frame itself. *)
Definition entry_frame (base_revision : N) (also : option AgentDeltaChange) (p : AgentSessionSnapshot)
    (entry : TimelineEntry) : AgentServerFrame :=
  SessionDelta AGENT_PROTOCOL_VERSION
    (session_delta base_revision (ChUpsertEntry entry :: option_list also) p).

Definition entry_delta (base_revision : N) (entry : TimelineEntry) (also : option AgentDeltaChange)
    (s : LiveSession) : AgentServerFrame :=
  entry_frame base_revision also (ls_snapshot s)
    (fit_entry_to_frame (fun candidate => encoded_frame_len (entry_frame base_revision also (ls_snapshot s) candidate))
       entry).
End window.

(** ** The bound holds *)

Lemma history_bytes_cons e history :
  history_bytes (e :: history) = TimelineEntry_decoded_bytes e + history_bytes history.
Proof. done. Qed.

Lemma history_bytes_delete history index removed :
  history !! index = Some removed ->
  history_bytes (delete index history) + TimelineEntry_decoded_bytes removed = history_bytes history.
Proof.
  revert index. induction history as [|e history IH]; intros [|index]; [done..| |].
  - intros [= ->]. change (delete 0%nat (removed :: history)) with history.
    rewrite history_bytes_cons. lia.
  - intros H. change (delete (S index) (e :: history)) with (e :: delete index history).
    rewrite !history_bytes_cons. specialize (IH index H). lia.
Qed.

Lemma eviction_index_lt history : history <> [] -> (eviction_index history < length history)%nat.
Proof.
  intros Hne. unfold eviction_index. destruct (list_find complete_item history) as [[i x]|] eqn:Hf; cbn.
  - apply list_find_Some in Hf as (Hi & _). by eapply lookup_lt_Some.
  - destruct history; [done|simpl; lia].
Qed.

Lemma sublist_delete_at {A} (l : list A) i : sublist (delete i l) l.
Proof. apply sublist_delete. Qed.

Lemma evict_loop_spec fuel history sources evicted :
  (length history < fuel)%nat ->
  let '(history', sources', evicted') := evict_loop fuel (history_bytes history) history sources evicted in
  over_bound (history_bytes history') history' = false
  /\ sublist history' history
  /\ (forall src m, sources' !! src = Some m -> sources !! src = Some m)
  /\ (forall src m e, sources' !! src = Some m -> e ∈ history -> te_entry_id e = sm_entry_id m ->
        exists e', e' ∈ history' /\ te_entry_id e' = sm_entry_id m)
  /\ (evicted' = evicted /\ history' = history /\ sources' = sources
      \/ evicted' = true /\ over_bound (history_bytes history) history = true).
Proof.
  revert history sources evicted. induction fuel as [|fuel IH]; intros history sources evicted Hf; [lia|].
  cbn [evict_loop]. destruct (over_bound _ _) eqn:Hover.
  2: { split_and!; auto; by eauto. }
  assert (history <> []) as Hne by (intros ->; by vm_compute in Hover).
  destruct (lookup_lt_is_Some_2 history _ (eviction_index_lt _ Hne)) as [removed Hr].
  rewrite Hr. pose proof (history_bytes_delete _ _ _ Hr) as Hb.
  replace (history_bytes history - TimelineEntry_decoded_bytes removed)
    with (history_bytes (delete (eviction_index history) history)) by lia.
  specialize (IH (delete (eviction_index history) history)
    (filter (fun '(_, mapping) => sm_entry_id mapping <> te_entry_id removed) sources) true).
  destruct (evict_loop fuel _ _ _ _) as [[history' sources'] evicted'].
  destruct IH as (H1 & H2 & H4 & H5 & H6).
  { rewrite length_delete by (by eexists). apply lookup_lt_Some in Hr. lia. }
  split_and!; [done| | | |].
  - etrans; [exact H2|apply sublist_delete_at].
  - intros src m Hm. apply H4 in Hm. by apply map_lookup_filter_Some in Hm as [Hm _].
  - intros src m e Hm He Hid. pose proof (H4 _ _ Hm) as Hm'.
    apply map_lookup_filter_Some in Hm' as [_ Hrem].
    apply (H5 src m e Hm); [|done].
    apply list_elem_of_lookup in He as [i Hi]. destruct (decide (i = eviction_index history)) as [->|Hne'].
    + congruence.
    + apply list_elem_of_lookup. destruct (decide (i < eviction_index history)%nat).
      * exists i. by rewrite list_lookup_delete_lt.
      * exists (pred i). rewrite list_lookup_delete_ge by lia. by replace (S (pred i)) with i by lia.
  - right. split; [|done]. by destruct H6 as [(-> & _)|[? _]].
Qed.

(** Every source names a row the session holds, at its sequence. *)
Definition sources_ok (s : LiveSession) : Prop :=
  forall source mapping, ls_source_entries s !! source = Some mapping ->
    exists e, e ∈ ls_history s /\ te_entry_id e = sm_entry_id mapping /\ te_sequence e = sm_sequence mapping.

(** Eviction always ends within both host bounds; it reports itself exactly when it removed
    something, keeps the order of what stays, and no source is left naming a removed row. *)
Theorem enforce_history_bound_spec s s' evicted :
  enforce_history_bound s = (s', evicted) ->
  history_bytes (ls_history s') <= MAX_HOST_TIMELINE_BYTES
  /\ len (ls_history s') <= MAX_HOST_TIMELINE_ENTRIES
  /\ sublist (ls_history s') (ls_history s)
  /\ (evicted = false -> s' = s)
  /\ (evicted = true -> over_bound (history_bytes (ls_history s)) (ls_history s) = true)
  /\ (sources_ok s -> NoDup (te_entry_id <$> ls_history s) -> sources_ok s').
Proof.
  unfold enforce_history_bound.
  pose proof (evict_loop_spec (S (length (ls_history s))) (ls_history s) (ls_source_entries s) false
    ltac:(lia)) as Hspec.
  destruct (evict_loop _ _ _ _ _) as [[history sources] evicted']. intros [= <- <-].
  destruct Hspec as (Hover & Hsub & Hsrc & Hkept & Hflag).
  unfold over_bound in Hover. apply orb_false_iff in Hover as [Hb%N.ltb_ge Hl%N.ltb_ge].
  split_and!; [done..| | |].
  - destruct Hflag as [(_ & -> & ->)|[-> _]]; [|done]. by destruct s.
  - by destruct Hflag as [(-> & _)|[_ ?]].
  - intros Hok Hnd source mapping Hm. cbn in Hm |- *. pose proof (Hok _ _ (Hsrc _ _ Hm)) as (e & He & Hid & Hseq).
    destruct (Hkept _ _ _ Hm He Hid) as (e' & He' & Hid').
    exists e'. split_and!; [done..|].
    assert (e' ∈ ls_history s) as Hin by (by eapply sublist_subset).
    apply list_elem_of_lookup in He as [i Hi], Hin as [j Hj].
    assert (i = j) as ->.
    { eapply NoDup_lookup; [exact Hnd| |]; rewrite list_lookup_fmap; [by rewrite Hi|].
      rewrite Hj. cbn. congruence. }
    congruence.
Qed.

(** The evicted rows are not always the oldest end: a session whose oldest row is still
    streaming loses the row after it and keeps the oldest. *)
Theorem eviction_from_the_middle s a b rest :
  ls_history s = a :: b :: rest ->
  te_state a = "streaming"%string -> te_state b <> "streaming"%string ->
  len (ls_history s) = MAX_HOST_TIMELINE_ENTRIES + 1 ->
  history_bytes (ls_history s) <= MAX_HOST_TIMELINE_BYTES ->
  ls_history (enforce_history_bound s).1 = a :: rest /\ (enforce_history_bound s).2 = true.
Proof.
  intros Hh Ha Hb Hlen Hbytes. unfold enforce_history_bound. rewrite Hh in *.
  cbn [evict_loop length]. assert (over_bound (history_bytes (a :: b :: rest)) (a :: b :: rest) = true) as ->.
  { unfold over_bound. rewrite Hlen. apply orb_true_iff. right. apply N.ltb_lt. lia. }
  assert (eviction_index (a :: b :: rest) = 1%nat) as ->.
  { unfold eviction_index. cbn [list_find]. rewrite decide_False by (intros H; by apply H).
    by rewrite decide_True. }
  cbn [lookup list_lookup]. change (delete 1%nat (a :: b :: rest)) with (a :: rest).
  rewrite !history_bytes_cons in *. rewrite !len_cons in Hlen.
  assert (over_bound (TimelineEntry_decoded_bytes a + (TimelineEntry_decoded_bytes b + history_bytes rest)
    - TimelineEntry_decoded_bytes b) (a :: rest) = false) as ->; [|done].
  unfold over_bound. rewrite len_cons. apply orb_false_iff. rewrite !N.ltb_ge. lia.
Qed.

(** ** The window is the newest rows, as the phone accepts them *)

(** A timeline a session may hold: in order, and each row as the host validated it. *)
Definition history_ok (history : list TimelineEntry) : Prop :=
  StronglySorted (key_lt te_sequence) history
  /\ Forall (fun e => retained_valid e = Ok tt) history.

Lemma fit_entry_alone_valid encoded_frame_len entry :
  retained_valid entry = Ok tt -> TimelineEntry_validate (fit_entry_alone encoded_frame_len entry) = Ok tt.
Proof.
  intros Hv. unfold fit_entry_alone. case_match eqn:Hsmall; [|by apply fit_entry_is_valid].
  apply N.leb_le in Hsmall. unfold retained_valid, TimelineEntry_validate, invalid_if in *.
  rewrite !rbind_unit_ok, !refuse_if_ok in *. destruct Hv as (? & ? & ? & ? & Hb & ? & Hna).
  rewrite Hna. split_and!; try done. unfold TimelineBody_validate.
  destruct (te_body entry) as [text|tool| |] eqn:Hbody; try done. cbn.
  assert (slen text <= TimelineEntry_decoded_bytes entry) as Hle
    by (unfold TimelineEntry_decoded_bytes; rewrite Hbody; cbn; lia).
  unfold ENVELOPE_SLACK, MAX_AGENT_FRAME_BYTES, u64_max in Hsmall.
  rewrite (proj2 (N.leb_le _ _)); [done|]. unfold MAX_TIMELINE_TEXT_BYTES. lia.
Qed.

(** The identity of a row, which both the cached and the fresh wire copy keep. *)
Definition row_of (e : TimelineEntry) : string * N * N * N * string * string :=
  (te_entry_id e, te_entry_revision e, te_sequence e, te_timestamp e, te_state e, te_kind e).

Lemma window_entry_facts encoded_frame_len sized entry :
  retained_valid entry = Ok tt -> Forall (fun e => TimelineEntry_validate e = Ok tt) sized ->
  TimelineEntry_validate (window_entry encoded_frame_len sized entry) = Ok tt
  /\ row_of (window_entry encoded_frame_len sized entry) = row_of entry.
Proof.
  intros Hv Hs. unfold window_entry.
  assert (TimelineEntry_validate (fit_entry_alone encoded_frame_len entry) = Ok tt
    /\ row_of (fit_entry_alone encoded_frame_len entry) = row_of entry) as Hfresh.
  { split; [by apply fit_entry_alone_valid|].
    destruct (fit_entry_alone_row encoded_frame_len entry) as (H1 & H2 & H3 & H4 & H5 & H6).
    unfold row_of. by rewrite H1, H2, H3, H4, H5, H6. }
  destruct (sized_entry sized entry) as [wire|] eqn:Hw; [|done].
  destruct (still_sized_for wire entry) eqn:Hst; [|done].
  unfold sized_entry in Hw. apply last_Some_elem_of, list_elem_of_In, List.filter_In in Hw as [Hin Hid].
  apply list_elem_of_In in Hin. rewrite Forall_forall in Hs. split; [by apply Hs|].
  unfold still_sized_for in Hst. b2p. unfold row_of. congruence.
Qed.

Lemma refresh_window_valid encoded_frame_len s :
  history_ok (ls_history s) -> window_valid (ss_timeline_window (ls_snapshot s)) ->
  let w := ss_timeline_window (ls_snapshot (refresh_snapshot_window encoded_frame_len s)) in
  window_valid w
  /\ row_of <$> tw_entries w = row_of <$> drop (length (ls_history s) - N.to_nat MAX_TIMELINE_PAGE_ENTRIES) (ls_history s)
  /\ tw_has_older w = (MAX_TIMELINE_PAGE_ENTRIES <? len (ls_history s))
  /\ tw_history_boundary w = tw_history_boundary (ss_timeline_window (ls_snapshot s)).
Proof.
  intros [Hsort Hval] [_ Hbound Hent _ _ _]. cbn zeta. unfold refresh_snapshot_window.
  set (sized := tw_entries (ss_timeline_window (ls_snapshot s))) in *.
  rewrite take_reverse, reverse_involutive.
  set (newest := drop _ (ls_history s)).
  assert (sublist newest (ls_history s)) as Hsub by apply sublist_drop.
  assert (Forall (fun e => TimelineEntry_validate (window_entry encoded_frame_len sized e) = Ok tt
    /\ row_of (window_entry encoded_frame_len sized e) = row_of e) newest) as Hall.
  { eapply Forall_sublist; [exact Hsub|]. eapply Forall_impl; [exact Hval|]. cbn.
    intros e He. by apply window_entry_facts. }
  assert (row_of <$> (window_entry encoded_frame_len sized <$> newest) = row_of <$> newest) as Hrows.
  { rewrite <- list_fmap_compose. apply Forall_fmap_ext. eapply Forall_impl; [exact Hall|]. by intros e []. }
  assert (length newest = Nat.min (N.to_nat MAX_TIMELINE_PAGE_ENTRIES) (length (ls_history s))) as Hlen
    by (unfold newest; rewrite length_drop; lia).
  cbn. split_and!; [|done| |done].
  - split; try done; cbn.
    + unfold len. rewrite length_fmap, Hlen. unfold MAX_TIMELINE_PAGE_ENTRIES, MAX_TIMELINE_ENTRIES_IN_SNAPSHOT. lia.
    + apply Forall_fmap. eapply Forall_impl; [exact Hall|]. by intros e [].
    + apply (proj2 (key_lt_fmap te_sequence _)). replace (te_sequence <$> (window_entry encoded_frame_len sized <$> newest))
        with (te_sequence <$> newest).
      * apply (proj1 (key_lt_fmap te_sequence newest)). by eapply StronglySorted_sublist.
      * apply (f_equal (fmap (fun r : string * N * N * N * string * string => r.1.1.1.2))) in Hrows.
        rewrite <- !list_fmap_compose in Hrows. by rewrite <- list_fmap_compose.
  - unfold len. rewrite length_fmap, Hlen.
    destruct (N.ltb_spec MAX_TIMELINE_PAGE_ENTRIES (N.of_nat (length (ls_history s))));
      [apply N.ltb_lt|apply N.ltb_ge]; lia.
Qed.

(** The refreshed window is what the phone accepts: the newest 64 rows of the timeline, each a
    valid wire copy of its row whether it was sized now or reused, with the older rows announced and
    the history boundary kept. *)
Theorem refresh_snapshot_window_spec encoded_frame_len s :
  history_ok (ls_history s) -> TimelineWindow_validate (ss_timeline_window (ls_snapshot s)) = Ok tt ->
  let w := ss_timeline_window (ls_snapshot (refresh_snapshot_window encoded_frame_len s)) in
  TimelineWindow_validate w = Ok tt
  /\ row_of <$> tw_entries w = row_of <$> drop (length (ls_history s) - N.to_nat MAX_TIMELINE_PAGE_ENTRIES) (ls_history s)
  /\ tw_has_older w = (MAX_TIMELINE_PAGE_ENTRIES <? len (ls_history s))
  /\ tw_history_boundary w = tw_history_boundary (ss_timeline_window (ls_snapshot s)).
Proof. intros Hh Hw%window_valid_iff. cbn zeta. rewrite window_valid_iff. by apply refresh_window_valid. Qed.
