(* ===== verification/History.v ===== *)
(** Rewriting a session's timeline ([agent_session.rs]): carrying out a reconcile plan, numbering
    restored rows, and the fence that keeps what clients retain truthful. *)
From S2P Require Import Prelude Text Protocol Fit Reducer Metadata Reconcile Session.

Local Open Scope N_scope.

(** A row of the timeline being rebuilt, with the source it will be mapped under. *)
Abbreviation row := (TimelineEntry * option string)%type.

Definition row_sequence (r : row) : N := te_sequence r.1.
Definition renumber (sequence : N) (r : row) : row := (set_te_sequence sequence r.1, r.2).

(** ** Numbers for restored rows *)

(** The run of restored rows (sequence 0) at the front. *)
Fixpoint restored_run (rows : list row) : list row * list row :=
  match rows with
  | r :: rows' =>
      if row_sequence r =? 0
      then let '(run, rest) := restored_run rows' in (r :: run, rest)
      else ([], rows)
  | [] => ([], [])
  end.

(** [entry.sequence = first + offset] over a run. *)
Definition number_run (first : N) (run : list row) : list row :=
  imap (fun offset r => renumber (wrap_add64 first (N.of_nat offset)) r) run.

(** Where a run of restored rows starts, between what precedes it and what follows. *)
Definition run_start (next previous count : N) (above : option row) : option N :=
  match above with
  | None => Some (N.max next (sat_add64 previous 1))
  | Some r => if count <? row_sequence r - previous then Some (previous + 1) else None
  end.

(** The loop of [number_restored_rows] from [previous] on: the rows as it leaves them, and its
    answer. Each turn consumes a row, so one step per row is enough. *)
Fixpoint number_rows (fuel : nat) (next previous : N) (rows : list row) : list row * bool :=
  match fuel, rows with
  | S fuel, r :: rows' =>
      if negb (row_sequence r =? 0) then
        if row_sequence r <=? previous then (rows, false)
        else let '(numbered, ok) := number_rows fuel next (row_sequence r) rows' in (r :: numbered, ok)
      else
        let '(run, rest) := restored_run rows in
        match run_start next previous (len run) (head rest) with
        | None => (rows, false)
        | Some first =>
            let '(numbered, ok) := number_rows fuel next (wrap_add64 first (len run) - 1) rest in
            (number_run first run ++ numbered, ok)
        end
  | _, _ => (rows, true)
  end.

Definition number_restored_rows (rows : list row) (next : N) : list row * bool :=
  number_rows (length rows) next 0 rows.

(** The dense renumbering when some run has no room: from the first numbered row's own number. *)
Definition dense_start (rows : list row) : Z :=
  match list_find (fun r => row_sequence r <> 0) rows with
  | Some (position, r) => Z.max (Z.of_N (row_sequence r) - Z.of_nat position) 1
  | None => 1
  end.

Definition renumber_densely (rows : list row) : list row :=
  let start := dense_start rows in
  imap (fun position r => renumber (N.min (Z.to_N (start + Z.of_nat position)) u64_max) r) rows.

(** ** Carrying out a plan *)

(** What [source_entries.drain()] leaves: the source each row is held under, and the settled
    aliases, which name distinct sources. *)
Definition live_sources (sources : gmap string SourceEntryMapping) : gmap string string :=
  foldr (fun '(source, m) acc => if sm_settled m then acc else <[sm_entry_id m := source]> acc)
    ∅ (map_to_list sources).
Definition settled_aliases (sources : gmap string SourceEntryMapping) : list (string * string) :=
  omap (fun '(source, m) => if sm_settled m then Some (source, sm_entry_id m) else None) (map_to_list sources).

(** A held row repaired from the record, when that changes what a client sees. *)
Definition repaired (entry : TimelineEntry) (authority : NormalizedTimelineEntry) : bool :=
  negb (bool_decide (te_body entry = ne_body authority))
  || negb (bool_decide (te_truncation entry = ne_truncation authority))
  || negb (te_state entry =s? ne_state authority).

Definition repair (entry : TimelineEntry) (authority : NormalizedTimelineEntry) : TimelineEntry :=
  if repaired entry authority
  then mkTimelineEntry (te_entry_id entry)
         (N.max (sat_add64 (te_entry_revision entry) 1) (ne_source_revision authority))
         (te_sequence entry) (ne_timestamp authority) (ne_state authority) (te_kind entry)
         (ne_body authority) (ne_truncation authority)
  else entry.

Record Rebuild := mkRebuild {
  rb_source_of : gmap string string;
  rb_aliases : list (string * string);
  rb_visible : bool;
  rb_rows : list row
}.

Section apply.
Context (old : list TimelineEntry) (authority : list NormalizedTimelineEntry) (id_draw : nat -> N).

(** One item of the plan; [id_draw] at its position is the draw of a new row's [random_id]. *)
Definition plan_item (state : Rebuild) (item : nat * Planned) : Rebuild :=
  match item.2 with
  | Held index refresh rekey =>
      match old !! index with
      | None => state
      | Some entry =>
          let source := rb_source_of state !! te_entry_id entry in
          let source_of := delete (te_entry_id entry) (rb_source_of state) in
          match refresh ≫= (fun i => authority !! i) with
          | Some found =>
              let visible := rb_visible state || repaired entry found in
              let entry := repair entry found in
              if rekey
              then mkRebuild source_of
                     (rb_aliases state ++ option_list ((fun display => (display, te_entry_id entry)) <$> source))
                     visible (rb_rows state ++ [(entry, Some (ne_source_id found))])
              else mkRebuild source_of (rb_aliases state) visible (rb_rows state ++ [(entry, source)])
          | None => mkRebuild source_of (rb_aliases state) (rb_visible state) (rb_rows state ++ [(entry, source)])
          end
      end
  | New index =>
      match authority !! index with
      | None => state
      | Some found =>
          let entry := mkTimelineEntry (random_id (id_draw item.1)) (ne_source_revision found) 0
            (ne_timestamp found) (ne_state found) (ne_kind found) (ne_body found) (ne_truncation found) in
          mkRebuild (rb_source_of state) (rb_aliases state) true
            (rb_rows state ++ [(entry, Some (ne_source_id found))])
      end
  end.

Definition plan_rows (sources : gmap string SourceEntryMapping) (plan : list Planned) : Rebuild :=
  foldl plan_item
    (mkRebuild (live_sources sources) (settled_aliases sources)
       (negb (Nat.eqb (length (held_of plan)) (length old))) [])
    (imap pair plan).
End apply.

(** The mappings of the rebuilt rows, then of the aliases whose row survived. *)
Definition row_mappings (rows : list row) : gmap string SourceEntryMapping :=
  foldl (fun acc (r : row) =>
           match r.2 with
           | Some source => <[source := mkSourceEntryMapping (te_entry_id r.1) (te_sequence r.1) false]> acc
           | None => acc
           end) ∅ rows.

(** [sequence_of]: where the last row of an entry id sits. *)
Definition sequence_of (rows : list row) (entry_id : string) : option N :=
  te_sequence <$> last (List.filter (entry_named entry_id) (fst <$> rows)).

Definition alias_mappings (rows : list row) (aliases : list (string * string))
    (sources : gmap string SourceEntryMapping) : gmap string SourceEntryMapping :=
  foldl (fun acc '(source, entry_id) =>
           match sequence_of rows entry_id with
           | Some sequence => <[source := mkSourceEntryMapping entry_id sequence true]> acc
           | None => acc
           end) sources aliases.

Definition apply_reconcile_plan (plan : list Planned) (authority : list NormalizedTimelineEntry)
    (id_draw : nat -> N) (s : LiveSession) : LiveSession * bool :=
  let state := plan_rows (ls_history s) authority id_draw (ls_source_entries s) plan in
  let '(rows, ok) := number_restored_rows (rb_rows state) (ls_next_sequence s) in
  let rows := if ok then rows else renumber_densely rows in
  let sources := alias_mappings rows (rb_aliases state) (row_mappings rows) in
  let newest := default 0 (row_sequence <$> last rows) in
  let next := if ok then N.max (ls_next_sequence s) (sat_add64 newest 1) else sat_add64 newest 1 in
  (set_ls_next_sequence next (set_ls_source_entries sources (set_ls_history (fst <$> rows) s)),
   rb_visible state || negb ok).

(** ** The fence *)

Definition held_sequences (s : LiveSession) : list (string * N) :=
  (fun entry => (te_entry_id entry, te_sequence entry)) <$> ls_history s.

(** A [HashMap] collected from the pairs: the last pair of a key. *)
Definition collected (pairs : list (string * N)) : gmap string N :=
  foldl (fun acc '(entry_id, sequence) => <[entry_id := sequence]> acc) ∅ pairs.

Definition renumbered (before after : gmap string N) : bool :=
  existsb (fun '(entry_id, sequence) => is_some_and (fun current => negb (current =? sequence)) (after !! entry_id))
    (map_to_list before).

Definition minimum (l : list N) : option N :=
  match l with [] => None | x :: l => Some (foldr N.min x l) end.

Definition oldest_survivor (before after : gmap string N) : option N :=
  minimum (omap (fun '(entry_id, sequence) => if is_some (after !! entry_id) then Some sequence else None)
             (map_to_list before)).

Definition removed_from_the_middle (before after : gmap string N) : bool :=
  existsb (fun '(entry_id, sequence) =>
             is_none (after !! entry_id) && is_some_and (fun oldest => oldest <? sequence) (oldest_survivor before after))
    (map_to_list before).

(** The first of the draws that differs from the epoch before. *)
Definition fresh_epoch (previous : N) (draws : list N) : N :=
  default (N.max (wrap_add64 previous 1) 1)
    (List.find (fun candidate => negb (candidate =? previous)) (nonzero_random_u64 <$> draws)).

Section fence.
Context (encoded_len : AgentMetadataFile -> N) (write_private : AgentMetadataFile -> bool).

Definition fence_rewritten_history (metadata : AgentMetadataStore) (s : LiveSession)
    (before : gmap string N) (draws : list N) (now : N)
  : AgentMetadataStore * LiveSession * result MetadataError bool :=
  let after := collected (held_sequences s) in
  if negb (renumbered before after) && negb (removed_from_the_middle before after)
  then (metadata, s, Ok false)
  else
    let epoch := fresh_epoch (ss_snapshot_epoch (ls_snapshot s)) draws in
    let s := over_snapshot (fun p => set_ss_latest_command_receipts [] (set_ss_snapshot_epoch epoch p)) s in
    let '(metadata, r) := update_epoch encoded_len write_private metadata (ss_session_id (ls_snapshot s)) epoch now in
    (metadata, s, rmap (fun _ => true) r).
End fence.

(** ** Numbering keeps order *)

Lemma StronglySorted_join {A} (R : A -> A -> Prop) l k :
  StronglySorted R l -> StronglySorted R k -> (forall x y, x ∈ l -> y ∈ k -> R x y) ->
  StronglySorted R (l ++ k).
Proof.
  induction 1 as [|x l Hs IH Hall]; intros Hk Hlk; cbn; [done|].
  constructor; [apply IH; [done|]; intros; apply Hlk; [by right|done]|].
  apply Forall_app. split; [done|]. apply Forall_forall. intros y Hy. apply Hlk; [by left|done].
Qed.

Lemma restored_run_spec rows :
  let '(run, rest) := restored_run rows in
  rows = run ++ rest /\ Forall (fun r => row_sequence r = 0) run
  /\ (forall r, head rest = Some r -> row_sequence r <> 0).
Proof.
  induction rows as [|r rows IH]; cbn; [done|].
  destruct (N.eqb_spec (row_sequence r) 0).
  - destruct (restored_run rows) as [run rest]. destruct IH as (-> & ? & ?).
    split_and!; [done|by constructor|done].
  - split_and!; [done|constructor|]. by intros ? [= <-].
Qed.

(** What numbering may do to a row: a held one stays, a restored one only gains a number. *)
Definition only_numbered (r r' : row) : Prop :=
  (row_sequence r <> 0 -> r' = r) /\ r' = renumber (row_sequence r') r.

Lemma only_numbered_refl r : only_numbered r r.
Proof. split; [done|]. destruct r as [[] ?]. done. Qed.

Lemma number_run_spec first run :
  Forall (fun r => row_sequence r = 0) run -> first + len run <= u64_max ->
  Forall2 only_numbered run (number_run first run)
  /\ StronglySorted N.lt (row_sequence <$> number_run first run)
  /\ Forall (fun r => first <= row_sequence r < first + len run) (number_run first run).
Proof.
  unfold number_run. intros Hz Hmax.
  assert (forall n, n + N.of_nat (length run) <= u64_max ->
    let f := fun offset r => renumber (wrap_add64 n (N.of_nat offset)) r in
    Forall2 only_numbered run (imap f run) /\ StronglySorted N.lt (row_sequence <$> imap f run)
    /\ Forall (fun r => n <= row_sequence r < n + N.of_nat (length run)) (imap f run)) as H;
    [|by apply H].
  clear first Hmax. induction Hz as [|r run Hr Hz IH]; intros n Hn; cbn zeta; [by repeat constructor|].
  rewrite imap_cons. destruct (IH (n + 1)) as (H1 & H2 & H3); [simpl in Hn; lia|]. cbn zeta in H1, H2, H3.
  assert (imap ((fun offset r => renumber (wrap_add64 n (N.of_nat offset)) r) ∘ S) run
          = imap (fun offset r => renumber (wrap_add64 (n + 1) (N.of_nat offset)) r) run) as ->.
  { apply imap_ext. intros i x _. cbn. f_equal. unfold wrap_add64. f_equal. lia. }
  assert (wrap_add64 n (N.of_nat 0) = n) as Hn0.
  { unfold wrap_add64. rewrite N.add_0_r. apply N.mod_small. lia. }
  split_and!.
  - constructor; [|done]. split; [done|done].
  - rewrite fmap_cons. constructor; [done|]. apply Forall_fmap. eapply Forall_impl; [exact H3|].
    cbn. intros x Hx. rewrite Hn0. cbn. lia.
  - constructor; [cbn; rewrite Hn0; simpl; lia|]. eapply Forall_impl; [exact H3|]. simpl. intros x Hx. lia.
Qed.

Lemma number_rows_spec fuel next previous rows rows' :
  (length rows <= fuel)%nat -> number_rows fuel next previous rows = (rows', true) ->
  previous < next -> Forall (fun r => row_sequence r < next) rows -> next + len rows <= u64_max ->
  Forall2 only_numbered rows rows' /\ StronglySorted N.lt (row_sequence <$> rows')
  /\ Forall (fun r => previous < row_sequence r < next + len rows) rows'.
Proof.
  revert previous rows rows'. induction fuel as [|fuel IH]; intros previous [|r rows] rows' Hf;
    cbn [number_rows]; try (intros [= <-]; intros; by repeat constructor); [simpl in Hf; lia|].
  intros Hnum Hprev Hall Hmax. destruct (N.eqb_spec (row_sequence r) 0) as [Hz|Hz]; cbn [negb] in Hnum.
  - pose proof (restored_run_spec (r :: rows)) as Hrun. destruct (restored_run (r :: rows)) as [run rest] eqn:He.
    destruct Hrun as (Heq & Hrun & Hhead). rewrite Heq in *. rewrite len_app in *.
    apply Forall_app in Hall as [_ Hrest].
    assert (run <> []) as Hne.
    { intros ->. cbn in Heq. subst rest. by apply (Hhead r). }
    assert (0 < len run) by (destruct run; [done|rewrite len_cons; lia]).
    destruct (run_start next previous (len run) (head rest)) as [first|] eqn:Hstart; [|done].
    destruct (number_rows fuel next _ rest) as [numbered ok] eqn:Hrec. injection Hnum as <- ->.
    assert (previous < first /\ (rest = [] /\ first = next
            \/ first + len run - 1 < next /\ first + len run <= u64_max)) as [Hfirst Hcase].
    { unfold run_start in Hstart. unfold sat_add64 in Hstart. destruct rest as [|a rest]; cbn in Hstart.
      - injection Hstart as <-. split; [lia|]. left. split; [done|lia].
      - destruct (N.ltb_spec (len run) (row_sequence a - previous)); [|done]. injection Hstart as <-.
        apply Forall_cons in Hrest as [Ha _]. split; [lia|]. right. lia. }
    destruct (number_run_spec first run Hrun) as (N1 & N2 & N3); [destruct Hcase as [[_ ->]|?]; lia|].
    destruct Hcase as [[-> ->]|[Hlt Hmax']].
    + destruct fuel; cbn in Hrec; injection Hrec as <-; rewrite !app_nil_r; split_and!; try done;
        eapply Forall_impl; try exact N3; cbn; intros; rewrite len_nil; lia.
    + assert (wrap_add64 first (len run) - 1 = first + len run - 1) as Hw
        by (unfold wrap_add64; rewrite N.mod_small by lia; done).
      rewrite Hw in Hrec. eapply IH in Hrec as (R1 & R2 & R3); [|rewrite <- Heq in *| | |]; try done.
      * split_and!.
        -- by apply Forall2_app.
        -- rewrite fmap_app. apply StronglySorted_join; [done..|].
           intros x y (rx & -> & Hx)%list_elem_of_fmap (ry & -> & Hy)%list_elem_of_fmap.
           rewrite Forall_forall in N3, R3. specialize (N3 _ Hx). specialize (R3 _ Hy). cbn in N3, R3. lia.
        -- apply Forall_app. split; eapply Forall_impl; try exact N3; try exact R3; cbn; intros; lia.
      * apply (f_equal length) in Heq. rewrite length_app in Heq. destruct run; [done|]. simpl in *. lia.
      * lia.
  - destruct (N.leb_spec (row_sequence r) previous); [done|].
    destruct (number_rows fuel next (row_sequence r) rows) as [numbered ok] eqn:Hrec.
    injection Hnum as <- ->. apply Forall_cons in Hall as [Hr Hall]. rewrite len_cons in *.
    eapply IH in Hrec as (R1 & R2 & R3); [|simpl in Hf; lia|done|done|lia]. split_and!.
    + constructor; [apply only_numbered_refl|done].
    + rewrite fmap_cons. constructor; [done|]. apply Forall_fmap. eapply Forall_impl; [exact R3|]. cbn. lia.
    + constructor; [lia|]. eapply Forall_impl; [exact R3|]. cbn. lia.
Qed.

(** Whatever its answer, numbering changes nothing but numbers, and stays below the bound. *)
Definition renumbered_row (r r' : row) : Prop := r' = renumber (row_sequence r') r.

Lemma renumbered_refl r : renumbered_row r r.
Proof. apply only_numbered_refl. Qed.

Lemma Forall2_renumbered_refl rows : Forall2 renumbered_row rows rows.
Proof. induction rows; constructor; [apply renumbered_refl|done]. Qed.

Lemma number_rows_bound fuel next previous rows rows' ok :
  number_rows fuel next previous rows = (rows', ok) ->
  previous < next -> Forall (fun r => row_sequence r < next) rows -> next + len rows <= u64_max ->
  Forall2 renumbered_row rows rows' /\ Forall (fun r => row_sequence r < next + len rows) rows'.
Proof.
  revert previous rows rows' ok. induction fuel as [|fuel IH]; intros previous [|r rows] rows' ok;
    cbn [number_rows]; intros Hnum Hprev Hall Hmax.
  1-3: injection Hnum as <- <-; split; [apply Forall2_renumbered_refl|];
    eapply Forall_impl; try exact Hall; cbn; intros; lia.
  assert (Forall2 renumbered_row (r :: rows) (r :: rows)
    /\ Forall (fun x => row_sequence x < next + len (r :: rows)) (r :: rows)) as Hsame.
  { split; [apply Forall2_renumbered_refl|]. eapply Forall_impl; [exact Hall|]. cbn. intros; lia. }
  destruct (N.eqb_spec (row_sequence r) 0) as [Hz|Hz]; cbn [negb] in Hnum.
  - pose proof (restored_run_spec (r :: rows)) as Hrun. destruct (restored_run (r :: rows)) as [run rest] eqn:He.
    destruct Hrun as (Heq & Hrun & Hhead).
    destruct (run_start next previous (len run) (head rest)) as [first|] eqn:Hstart;
      [|injection Hnum as <- <-; by rewrite Heq in *].
    destruct (number_rows fuel next _ rest) as [numbered ok'] eqn:Hrec. injection Hnum as <- ->.
    rewrite Heq in *. rewrite len_app in *. apply Forall_app in Hall as [_ Hrest].
    assert (rest = [] /\ first = next \/ first + len run - 1 < next /\ first + len run <= u64_max
      /\ first <= first + len run - 1) as Hcase.
    { assert (0 < len run).
      { destruct run; [|rewrite len_cons; lia]. cbn in Heq. subst rest. by destruct (Hhead r). }
      unfold run_start in Hstart. unfold sat_add64 in Hstart. destruct rest as [|a rest]; cbn in Hstart.
      - injection Hstart as <-. left. split; [done|lia].
      - destruct (N.ltb_spec (len run) (row_sequence a - previous)); [|done]. injection Hstart as <-.
        apply Forall_cons in Hrest as [Ha _]. right. lia. }
    destruct (number_run_spec first run Hrun) as (N1 & _ & N3); [destruct Hcase as [[_ ->]|?]; lia|].
    assert (Forall2 renumbered_row run (number_run first run)) as N1'
      by (eapply Forall2_impl; [exact N1|by intros ? ? []]).
    destruct Hcase as [[-> ->]|(Hlt & Hmax' & Hge)].
    + destruct fuel; cbn in Hrec; injection Hrec as <-; rewrite !app_nil_r; split; try done;
        eapply Forall_impl; try exact N3; cbn; intros; lia.
    + assert (wrap_add64 first (len run) - 1 = first + len run - 1) as Hw
        by (unfold wrap_add64; rewrite N.mod_small by lia; done).
      rewrite Hw in Hrec. eapply IH in Hrec as (R1 & R3); [|done|done|lia]. split; [by apply Forall2_app|].
      apply Forall_app. split; eapply Forall_impl; try exact N3; try exact R3; cbn; intros; lia.
  - destruct (N.leb_spec (row_sequence r) previous); [by injection Hnum as <- <-|].
    destruct (number_rows fuel next (row_sequence r) rows) as [numbered ok'] eqn:Hrec.
    injection Hnum as <- ->. apply Forall_cons in Hall as [Hr Hall]. rewrite len_cons in *.
    eapply IH in Hrec as (R1 & R3); [|done|done|lia]. split.
    + constructor; [apply renumbered_refl|done].
    + constructor; [lia|]. eapply Forall_impl; [exact R3|]. cbn. lia.
Qed.

Lemma dense_rows_spec start rows :
  (1 <= start)%Z -> (start + Z.of_nat (length rows) <= Z.of_N u64_max)%Z ->
  let f := fun position r => renumber (N.min (Z.to_N (start + Z.of_nat position)) u64_max) r in
  Forall2 renumbered_row rows (imap f rows) /\ StronglySorted N.lt (row_sequence <$> imap f rows)
  /\ Forall (fun r => Z.to_N start <= row_sequence r < Z.to_N start + len rows) (imap f rows).
Proof.
  revert start. induction rows as [|r rows IH]; intros start Hs Hmax; cbn zeta; [by repeat constructor|].
  rewrite imap_cons. destruct (IH (start + 1)%Z) as (H1 & H2 & H3); [lia|cbn [length] in Hmax; lia|]. cbn zeta in H1, H2, H3.
  assert (imap ((fun position r => renumber (N.min (Z.to_N (start + Z.of_nat position)) u64_max) r) ∘ S) rows
    = imap (fun position r => renumber (N.min (Z.to_N (start + 1 + Z.of_nat position)) u64_max) r) rows) as ->.
  { apply imap_ext. intros i x _. cbn. do 2 f_equal. lia. }
  assert (N.min (Z.to_N (start + Z.of_nat 0)) u64_max = Z.to_N start) as -> by (cbn [length] in Hmax; lia).
  rewrite len_cons. split_and!.
  - constructor; [done|done].
  - rewrite fmap_cons. constructor; [done|]. apply Forall_fmap. eapply Forall_impl; [exact H3|]. cbn. intros x Hx. lia.
  - constructor; [cbn; lia|]. eapply Forall_impl; [exact H3|]. cbn. intros x Hx. lia.
Qed.

(** The numbers a rebuilt timeline ends with. *)
Definition final_rows (next : N) (rows : list row) : list row :=
  let '(rows, ok) := number_restored_rows rows next in if ok then rows else renumber_densely rows.

Lemma final_rows_spec next rows :
  0 < next -> Forall (fun r => row_sequence r < next) rows -> next + 2 * len rows < u64_max ->
  Forall2 renumbered_row rows (final_rows next rows)
  /\ StronglySorted N.lt (row_sequence <$> final_rows next rows)
  /\ Forall (fun r => 0 < row_sequence r < next + 2 * len rows + 1) (final_rows next rows)
  /\ ((number_restored_rows rows next).2 = true -> Forall2 only_numbered rows (final_rows next rows)).
Proof.
  intros Hnext Hall Hmax. unfold final_rows, number_restored_rows.
  destruct (number_rows (length rows) next 0 rows) as [numbered ok] eqn:Hnum. cbn [snd]. destruct ok.
  - destruct (number_rows_spec _ _ _ _ _ ltac:(done) Hnum Hnext Hall ltac:(lia)) as (H1 & H2 & H3).
    split_and!; [|done| |done].
    + eapply Forall2_impl; [exact H1|by intros ? ? []].
    + eapply Forall_impl; [exact H3|]. cbn. lia.
  - destruct (number_rows_bound _ _ _ _ _ _ Hnum Hnext Hall ltac:(lia)) as (H1 & H3).
    assert (length numbered = length rows) as Hlen by (symmetry; by eapply Forall2_length).
    assert (1 <= dense_start numbered <= Z.of_N (next + len rows))%Z as Hstart.
    { unfold dense_start. destruct (list_find _ numbered) as [[i r]|] eqn:Hf; [|lia].
      apply list_find_Some in Hf as (Hi & _). rewrite Forall_forall in H3.
      specialize (H3 r ltac:(by eapply list_elem_of_lookup_2)). cbn in H3. lia. }
    destruct (dense_rows_spec (dense_start numbered) numbered) as (D1 & D2 & D3); [lia|unfold len in *; lia|].
    unfold renumber_densely. split_and!; [|done| |done].
    + clear -H1 D1. revert H1 D1. generalize (imap (fun position r => renumber
        (N.min (Z.to_N (dense_start numbered + Z.of_nat position)) u64_max) r) numbered) as final.
      intros final H1. revert final. induction H1 as [|r r' l l' Hr Hl IH]; intros final Hd;
        inversion Hd as [|? r'' ? ? Hr' Hd']; subst; constructor; [|by apply IH].
      unfold renumbered_row in *. rewrite Hr', Hr. by destruct r.
    + eapply Forall_impl; [exact D3|]. cbn. unfold len in *. intros x Hx. lia.
Qed.

(** ** What a plan makes of a timeline *)

Section plan_facts.
Context (old : list TimelineEntry) (authority : list NormalizedTimelineEntry) (id_draw : nat -> N).

Definition new_row (position : nat) (found : NormalizedTimelineEntry) : TimelineEntry :=
  mkTimelineEntry (random_id (id_draw position)) (ne_source_revision found) 0
    (ne_timestamp found) (ne_state found) (ne_kind found) (ne_body found) (ne_truncation found).

(** The row an item of the plan stands for. *)
Definition item_entry (item : nat * Planned) : option TimelineEntry :=
  match item.2 with
  | Held index refresh _ =>
      entry ← old !! index;
      Some (match refresh ≫= (fun i => authority !! i) with
            | Some found => repair entry found
            | None => entry
            end)
  | New index => new_row item.1 <$> authority !! index
  end.

Lemma plan_item_rows state item :
  fst <$> rb_rows (plan_item old authority id_draw state item)
  = (fst <$> rb_rows state) ++ option_list (item_entry item).
Proof.
  destruct item as [position [index refresh rekey|index]]; cbn.
  - destruct (old !! index) as [entry|]; cbn; [|by rewrite app_nil_r].
    destruct (refresh ≫= _); [destruct rekey|]; cbn; by rewrite fmap_app.
  - destruct (authority !! index); cbn; [by rewrite fmap_app|by rewrite app_nil_r].
Qed.

Lemma plan_items_rows items state :
  fst <$> rb_rows (foldl (plan_item old authority id_draw) state items)
  = (fst <$> rb_rows state) ++ omap item_entry items.
Proof.
  revert state. induction items as [|item items IH]; intros state; cbn; [by rewrite app_nil_r|].
  rewrite IH, plan_item_rows, <- app_assoc. by destruct (item_entry item).
Qed.

(** An item that leaves nothing for a client to notice. *)
Definition quiet_item (item : nat * Planned) : Prop :=
  match item.2 with
  | Held index _ _ => item_entry item = old !! index
  | New index => authority !! index = None
  end.

Lemma plan_items_visible items state :
  rb_visible (foldl (plan_item old authority id_draw) state items) = false ->
  rb_visible state = false /\ Forall quiet_item items.
Proof.
  revert state. induction items as [|item items IH]; intros state; cbn; [done|].
  intros (Hvis & Hall)%IH.
  destruct item as [position [index refresh rekey|index]]; cbn in Hvis.
  - destruct (old !! index) as [entry|] eqn:Ho.
    2: { split; [done|]. constructor; [|done]. unfold quiet_item. cbn. by rewrite Ho. }
    assert (rb_visible state = false /\ item_entry (position, Held index refresh rekey) = Some entry) as [? Hi].
    { unfold item_entry. cbn. rewrite Ho. cbn. destruct (refresh ≫= _) as [found|]; [|done].
      assert (rb_visible state || repaired entry found = false) as [? Hr]%orb_false_iff by (by destruct rekey).
      split; [done|]. unfold repair. by rewrite Hr. }
    split; [done|]. constructor; [|done].
    change (item_entry (position, Held index refresh rekey) = old !! index). by rewrite Hi, Ho.
  - destruct (authority !! index) eqn:Ha; [done|]. split; [done|]. by constructor.
Qed.

(** The sequence of a row the plan made is its old one, or 0. *)
Lemma item_entry_sequence next item entry :
  Forall (fun e => te_sequence e < next) old -> 0 < next -> item_entry item = Some entry ->
  te_sequence entry < next.
Proof.
  intros Hold Hnext. unfold item_entry. destruct item as [position [index refresh rekey|index]]; cbn.
  - destruct (old !! index) as [e|] eqn:Ho; [|done]. cbn. intros [= <-].
    rewrite Forall_forall in Hold. specialize (Hold e ltac:(by eapply list_elem_of_lookup_2)). cbn in Hold.
    destruct (refresh ≫= _); [|done]. unfold repair. by case_match.
  - intros (found & _ & ->)%fmap_Some. done.
Qed.
End plan_facts.

(** Every mapping built from rows names one of them. *)
Lemma row_mappings_ok rows source m :
  row_mappings rows !! source = Some m ->
  exists r, r ∈ rows /\ te_entry_id r.1 = sm_entry_id m /\ te_sequence r.1 = sm_sequence m.
Proof.
  unfold row_mappings.
  assert (forall acc : gmap string SourceEntryMapping, (forall src m, acc !! src = Some m ->
      exists r, r ∈ rows /\ te_entry_id r.1 = sm_entry_id m /\ te_sequence r.1 = sm_sequence m) ->
    forall rows', rows' ⊆ rows -> forall src m,
    foldl (fun acc (r : row) =>
           match r.2 with
           | Some source => <[source := mkSourceEntryMapping (te_entry_id r.1) (te_sequence r.1) false]> acc
           | None => acc
           end) acc rows' !! src = Some m ->
    exists r, r ∈ rows /\ te_entry_id r.1 = sm_entry_id m /\ te_sequence r.1 = sm_sequence m) as H.
  { intros acc Hacc rows'. revert acc Hacc. induction rows' as [|r rows' IH]; intros acc Hacc Hsub src m'; cbn; [apply Hacc|].
    apply IH; [|set_solver]. intros src' m'' Hm. destruct r.2 as [s|]; [|by eapply Hacc].
    apply lookup_insert_Some in Hm as [[-> <-]|[_ Hm]]; [|by eapply Hacc].
    exists r. split; [set_solver|done]. }
  apply (H ∅); [|done]. intros src m' Hm. by apply lookup_empty_Some in Hm.
Qed.

Lemma alias_mappings_ok rows aliases sources source m :
  (forall src m, sources !! src = Some m ->
     exists r, r ∈ rows /\ te_entry_id r.1 = sm_entry_id m /\ te_sequence r.1 = sm_sequence m) ->
  alias_mappings rows aliases sources !! source = Some m ->
  exists r, r ∈ rows /\ te_entry_id r.1 = sm_entry_id m /\ te_sequence r.1 = sm_sequence m.
Proof.
  unfold alias_mappings. revert sources. induction aliases as [|[src entry_id] aliases IH]; intros sources Hs; cbn; [apply Hs|].
  apply IH. intros src' m'. destruct (sequence_of rows entry_id) as [sequence|] eqn:Hseq; [|apply Hs].
  intros [[-> <-]|[_ Hm]]%lookup_insert_Some; [|by eapply Hs]. cbn.
  unfold sequence_of in Hseq. apply fmap_Some in Hseq as (e & He & ->).
  apply last_Some_elem_of, list_elem_of_In, List.filter_In in He as [He Hid%String.eqb_eq].
  apply list_elem_of_In, list_elem_of_fmap in He as (r & -> & Hr). by exists r.
Qed.

(** The rows a plan stands for, before numbering. *)
Definition planned_entries (old : list TimelineEntry) (authority : list NormalizedTimelineEntry)
    (id_draw : nat -> N) (plan : list Planned) : list TimelineEntry :=
  omap (item_entry old authority id_draw) (imap pair plan).

Lemma apply_plan_rows plan authority id_draw s :
  fst <$> rb_rows (plan_rows (ls_history s) authority id_draw (ls_source_entries s) plan)
  = planned_entries (ls_history s) authority id_draw plan.
Proof. unfold plan_rows. by rewrite plan_items_rows. Qed.

Lemma apply_reconcile_plan_eq plan authority id_draw s :
  let state := plan_rows (ls_history s) authority id_draw (ls_source_entries s) plan in
  let rows := final_rows (ls_next_sequence s) (rb_rows state) in
  let ok := (number_restored_rows (rb_rows state) (ls_next_sequence s)).2 in
  let s' := (apply_reconcile_plan plan authority id_draw s).1 in
  ls_history s' = fst <$> rows
  /\ ls_source_entries s' = alias_mappings rows (rb_aliases state) (row_mappings rows)
  /\ ls_next_sequence s' = (let newest := default 0 (row_sequence <$> last rows) in
        if ok then N.max (ls_next_sequence s) (sat_add64 newest 1) else sat_add64 newest 1)
  /\ (apply_reconcile_plan plan authority id_draw s).2 = rb_visible state || negb ok.
Proof.
  unfold apply_reconcile_plan, final_rows. cbn zeta.
  by destruct (number_restored_rows _ _) as [rows ok].
Qed.

Lemma Forall2_renumbered_ids rows rows' :
  Forall2 renumbered_row rows rows' ->
  (te_entry_id <$> (fst <$> rows')) = (te_entry_id <$> (fst <$> rows)).
Proof.
  induction 1 as [|r r' l l' Hr Hl IH]; [done|]. rewrite !fmap_cons. f_equal; [|done].
  rewrite Hr. done.
Qed.

Lemma sorted_last_max l x :
  StronglySorted N.lt l -> last l = Some x -> Forall (fun y => y <= x) l.
Proof.
  intros Hs Hl. destruct l as [|y l _] using rev_ind; [done|].
  rewrite last_snoc in Hl. injection Hl as ->. apply StronglySorted_snoc in Hs as [_ Hall].
  apply Forall_app. split; [|by repeat constructor]. eapply Forall_impl; [exact Hall|]. cbn. lia.
Qed.

Lemma length_omap_le {A B} (f : A -> option B) l : (length (omap f l) <= length l)%nat.
Proof. induction l as [|x l IH]; cbn; [done|]. case_match; cbn; lia. Qed.

Lemma sublist_same_length {A} (l k : list A) : sublist l k -> length l = length k -> l = k.
Proof.
  induction 1 as [|x l k Hs IH|x l k Hs IH]; cbn; intros Hl; [done|f_equal; apply IH; lia|].
  apply sublist_length in Hs. lia.
Qed.

Lemma omap_lookup_seq {A} (l : list A) : omap (fun i => l !! i) (seq 0 (length l)) = l.
Proof.
  induction l as [|x l IH] using rev_ind; [done|].
  rewrite length_app, Nat.add_comm. cbn [length Nat.add]. rewrite seq_S, omap_app. cbn [omap list_omap Nat.add].
  rewrite lookup_app_r, Nat.sub_diag by done. cbn. f_equal. rewrite <- IH at 2.
  apply list_omap_ext, Forall_Forall2_diag, Forall_seq. intros i Hi. by rewrite lookup_app_l by lia.
Qed.

Lemma quiet_plan_entries old authority id_draw plan :
  Forall (quiet_item old authority id_draw) (imap pair plan) ->
  planned_entries old authority id_draw plan = omap (fun i => old !! i) (held_of plan).
Proof.
  unfold planned_entries.
  assert (forall items, Forall (quiet_item old authority id_draw) items ->
    omap (item_entry old authority id_draw) items = omap (fun i => old !! i) (held_of (snd <$> items))) as H.
  { induction 1 as [|[position item] items Hq Hall IH]; [done|]. rewrite fmap_cons. unfold held_of in *. cbn.
    rewrite IH. destruct item as [index refresh rekey|index].
    - change (item_entry old authority id_draw (position, Held index refresh rekey) = old !! index) in Hq.
      rewrite Hq. done.
    - change (authority !! index = None) in Hq. cbn. by rewrite Hq. }
  intros Hq. rewrite (H _ Hq). f_equal. f_equal. rewrite fmap_imap. clear. induction plan as [|x plan IH] using rev_ind; [done|].
  rewrite imap_app. cbn. by rewrite IH.
Qed.

Lemma only_numbered_id rows rows' :
  Forall2 only_numbered rows rows' -> Forall (fun r => row_sequence r <> 0) rows -> rows' = rows.
Proof.
  induction 1 as [|r r' l l' [Hr _] Hl IH]; intros Hall; [done|].
  apply Forall_cons in Hall as [H1 H2]. f_equal; auto.
Qed.

(** A timeline as a session numbers it: in order, above 0 and below the next number. *)
Definition numbered_below (next : N) (history : list TimelineEntry) : Prop :=
  StronglySorted (key_lt te_sequence) history /\ Forall (fun e => 0 < te_sequence e < next) history.

(** Carrying out a plan leaves a well-numbered timeline: every row the plan stands for in the
    plan's order under the entry id it had, numbers strictly increasing and below the session's next
    one, every source and every alias naming a row where it now sits; and when the answer is that a
    client could see no difference, the timeline is exactly the one before. *)
Theorem apply_reconcile_plan_spec plan authority id_draw s :
  numbered_below (ls_next_sequence s) (ls_history s) -> 0 < ls_next_sequence s ->
  ls_next_sequence s + 2 * len plan < u64_max ->
  sublist (held_of plan) (seq 0 (length (ls_history s))) ->
  let s' := (apply_reconcile_plan plan authority id_draw s).1 in
  numbered_below (ls_next_sequence s') (ls_history s')
  /\ te_entry_id <$> ls_history s'
     = te_entry_id <$> planned_entries (ls_history s) authority id_draw plan
  /\ sources_ok s'
  /\ ((apply_reconcile_plan plan authority id_draw s).2 = false -> ls_history s' = ls_history s).
Proof.
  intros [Hsort Hbelow] Hnext Hmax Hheld. cbn zeta.
  destruct (apply_reconcile_plan_eq plan authority id_draw s) as (Hh & Hsrc & Hn & Hans). cbn zeta in *.
  set (state := plan_rows _ _ _ _ _) in *.
  pose proof (apply_plan_rows plan authority id_draw s) as Hrows. fold state in Hrows.
  assert (Forall (fun r => row_sequence r < ls_next_sequence s) (rb_rows state)) as Hlow.
  { apply (Forall_fmap fst (fun e => te_sequence e < ls_next_sequence s)). rewrite Hrows.
    apply Forall_forall. intros e (item & _ & Hi)%list_elem_of_omap. eapply item_entry_sequence; [|done|exact Hi].
    eapply Forall_impl; [exact Hbelow|]. cbn. lia. }
  assert (len (rb_rows state) <= len plan) as Hlen.
  { assert (length (rb_rows state) <= length plan)%nat; [|unfold len; lia].
    rewrite <- (length_fmap fst), Hrows. unfold planned_entries.
    etrans; [apply length_omap_le|]. by rewrite length_imap. }
  destruct (final_rows_spec _ _ Hnext Hlow ltac:(lia)) as (F1 & F2 & F3 & F4).
  rewrite Hh, Hn. split_and!.
  - assert (Forall (fun r => row_sequence r <= default 0 (row_sequence <$> last (final_rows (ls_next_sequence s)
      (rb_rows state))) < u64_max) (final_rows (ls_next_sequence s) (rb_rows state))) as Hlast.
    { set (rows := final_rows _ _) in *. destruct (last rows) as [r|] eqn:Hl;
        [|by apply last_None in Hl; rewrite Hl].
      assert (last (row_sequence <$> rows) = Some (row_sequence r)) as Hl' by (by rewrite fmap_last, Hl).
      pose proof (sorted_last_max _ _ F2 Hl') as Hle. rewrite Forall_fmap in Hle.
      apply last_Some_elem_of in Hl. rewrite Forall_forall in F3. specialize (F3 r Hl) as Hr. cbn in Hr.
      eapply Forall_impl; [exact Hle|]. cbn. intros x Hx. lia. }
    split.
    + apply (proj2 (key_lt_fmap te_sequence _)). by rewrite <- list_fmap_compose.
    + apply Forall_fmap. apply Forall_forall. intros r Hr. cbn.
      rewrite Forall_forall in Hlast, F3. specialize (Hlast r Hr). specialize (F3 r Hr). cbn in Hlast, F3.
      change (te_sequence r.1) with (row_sequence r). unfold sat_add64.
      destruct (number_restored_rows (rb_rows state) (ls_next_sequence s)).2; lia.
  - by rewrite (Forall2_renumbered_ids _ _ F1), Hrows.
  - intros source m Hm. rewrite Hsrc in Hm. apply alias_mappings_ok in Hm as (r & Hr & ? & ?); [|apply row_mappings_ok].
    exists r.1. rewrite Hh. split; [by apply list_elem_of_fmap_2|done].
  - rewrite Hans. intros [Hvis Hok%negb_false_iff]%orb_false_iff.
    apply plan_items_visible in Hvis as [Hcount Hquiet]. cbn in Hcount.
    apply negb_false_iff, Nat.eqb_eq in Hcount.
    apply sublist_same_length in Hheld; [|by rewrite length_seq].
    rewrite (quiet_plan_entries _ _ _ _ Hquiet), Hheld, omap_lookup_seq in Hrows.
    rewrite (only_numbered_id _ _ (F4 Hok)); [done|].
    apply (Forall_fmap fst (fun e => te_sequence e <> 0)). rewrite Hrows.
    eapply Forall_impl; [exact Hbelow|]. cbn. lia.
Qed.

(** ** The fence keeps what clients retain truthful *)

Lemma collected_snoc pairs k v : collected (pairs ++ [(k, v)]) = <[k := v]> (collected pairs).
Proof. unfold collected. by rewrite foldl_app. Qed.

Lemma collected_lookup pairs k v :
  NoDup (fst <$> pairs) -> collected pairs !! k = Some v <-> (k, v) ∈ pairs.
Proof.
  induction pairs as [|[k' v'] pairs IH] using rev_ind; intros Hnd.
  - split; [by rewrite (lookup_empty (M := gmap string) k : collected [] !! k = None)|by intros ?%not_elem_of_nil].
  - rewrite fmap_app in Hnd. apply NoDup_app in Hnd as (Hnd & Hk & _).
    rewrite collected_snoc, lookup_insert_Some, elem_of_app, list_elem_of_singleton, IH by done.
    split; [intros [[-> ->]|[_ ?]]; auto|]. intros [H|[= -> ->]]; [|by left].
    right. split; [|done]. intros ->. apply (Hk k); [by apply (list_elem_of_fmap_2 fst _ _ H)|by left].
Qed.

Lemma held_sequences_elem s k v :
  (k, v) ∈ held_sequences s <-> exists e, e ∈ ls_history s /\ te_entry_id e = k /\ te_sequence e = v.
Proof.
  unfold held_sequences. rewrite list_elem_of_fmap. split.
  - intros (e & [= -> ->] & He). by exists e.
  - intros (e & He & <- & <-). by exists e.
Qed.

Definition ids_distinct (s : LiveSession) : Prop := NoDup (te_entry_id <$> ls_history s).

Lemma held_lookup s k v :
  ids_distinct s ->
  collected (held_sequences s) !! k = Some v <-> exists e, e ∈ ls_history s /\ te_entry_id e = k /\ te_sequence e = v.
Proof.
  intros Hd. rewrite collected_lookup; [apply held_sequences_elem|].
  unfold held_sequences. by rewrite <- list_fmap_compose.
Qed.

Lemma existsb_false {A} (f : A -> bool) l : existsb f l = false <-> forall x, x ∈ l -> f x = false.
Proof.
  split.
  - intros H x Hx. destruct (f x) eqn:Hf; [|done].
    assert (existsb f l = true); [|congruence]. apply existsb_exists. exists x. by rewrite <- list_elem_of_In.
  - intros H. destruct (existsb f l) eqn:He; [|done]. apply existsb_exists in He as (x & Hx & Hf).
    rewrite H in Hf; [done|by apply list_elem_of_In].
Qed.

Lemma minimum_spec l x : minimum l = Some x -> x ∈ l /\ Forall (fun y => x <= y) l.
Proof.
  destruct l as [|a l]; [done|]. cbn. intros [= <-]. induction l as [|b l [IH1 IH2]]; cbn.
  - split; [by left|by repeat constructor].
  - apply Forall_cons in IH2 as [Ha Hl]. split.
    + destruct (N.min_spec b (foldr N.min a l)) as [[_ ->]|[_ ->]]; [right; by left|].
      apply elem_of_cons in IH1 as [->|?]; [by left|right; by right].
    + repeat constructor; [lia..|]. eapply Forall_impl; [exact Hl|]. cbn. lia.
Qed.

Lemma oldest_survivor_le (before after : gmap string N) k v :
  before !! k = Some v -> is_some (after !! k) = true ->
  exists o, oldest_survivor before after = Some o /\ o <= v.
Proof.
  intros Hk Ha. unfold oldest_survivor. set (l := omap _ _).
  assert (v ∈ l) as Hv.
  { apply list_elem_of_omap. exists (k, v). rewrite elem_of_map_to_list. by rewrite Ha. }
  destruct (minimum l) as [o|] eqn:Ho.
  - exists o. split; [done|]. apply minimum_spec in Ho as [_ Hall]. rewrite Forall_forall in Hall. by apply Hall.
  - by destruct l; [apply not_elem_of_nil in Hv|].
Qed.

Lemma fresh_epoch_differs previous draws : previous <= u64_max -> fresh_epoch previous draws <> previous.
Proof.
  unfold fresh_epoch. intros Hp. destruct (List.find _ _) as [e|] eqn:Hf; cbn.
  - apply find_some_elem in Hf as [_ Hf]. by b2p.
  - unfold wrap_add64. destruct (N.eq_dec previous u64_max) as [->|Hne]; [by vm_compute|].
    rewrite N.mod_small by lia. lia.
Qed.

Section fence_facts.
Context (encoded_len : AgentMetadataFile -> N) (write_private : AgentMetadataFile -> bool).

(** The fence lets a rewrite stand in its epoch only when no row a client may hold was moved
    and every row it dropped is older than each one that stayed; otherwise the session moves to a
    different epoch and sheds the receipts of the old one. *)
Theorem fence_rewritten_history_spec metadata metadata' s0 s s' draws now fenced :
  ids_distinct s0 -> ids_distinct s -> StronglySorted (key_lt te_sequence) (ls_history s0) ->
  ss_snapshot_epoch (ls_snapshot s) <= u64_max ->
  fence_rewritten_history encoded_len write_private metadata s (collected (held_sequences s0)) draws now
  = (metadata', s', Ok fenced) ->
  ls_history s' = ls_history s
  /\ if fenced
     then ss_snapshot_epoch (ls_snapshot s') <> ss_snapshot_epoch (ls_snapshot s)
          /\ ss_latest_command_receipts (ls_snapshot s') = []
     else s' = s /\ metadata' = metadata
          /\ forall e, e ∈ ls_history s0 ->
             (exists e', e' ∈ ls_history s /\ te_entry_id e' = te_entry_id e /\ te_sequence e' = te_sequence e)
             \/ (forall e', e' ∈ ls_history s -> te_entry_id e' <> te_entry_id e)
                /\ (forall kept, kept ∈ ls_history s0 ->
                     (exists e', e' ∈ ls_history s /\ te_entry_id e' = te_entry_id kept) ->
                     te_sequence e < te_sequence kept).
Proof.
  intros Hd0 Hd Hsort Hep. unfold fence_rewritten_history.
  set (before := collected (held_sequences s0)). set (after := collected (held_sequences s)).
  destruct (negb _ && negb _) eqn:Hquiet.
  - intros [= <- <- <-]. split; [done|]. split_and!; [done..|]. intros e He.
    apply andb_true_iff in Hquiet as [Hren%negb_true_iff Hmid%negb_true_iff].
    unfold renumbered in Hren. unfold removed_from_the_middle in Hmid. rewrite existsb_false in Hren, Hmid.
    assert (forall e, e ∈ ls_history s0 -> before !! te_entry_id e = Some (te_sequence e)) as Hb.
    { intros x Hx. apply held_lookup; [done|]. by exists x. }
    specialize (Hren (te_entry_id e, te_sequence e)). specialize (Hmid (te_entry_id e, te_sequence e)).
    rewrite elem_of_map_to_list in Hren, Hmid. specialize (Hren (Hb e He)). specialize (Hmid (Hb e He)).
    cbn in Hren, Hmid. destruct (after !! te_entry_id e) as [current|] eqn:Ha; cbn in Hren, Hmid.
    + apply negb_false_iff, N.eqb_eq in Hren. subst current. left.
      by apply (held_lookup s _ _ Hd) in Ha as (e' & ? & ? & ?); exists e'.
    + right. split.
      * intros e' He' Hid. assert (after !! te_entry_id e = Some (te_sequence e')); [|congruence].
        apply held_lookup; [done|]. by exists e'.
      * intros kept Hk (e' & He' & Hid).
        assert (is_some (after !! te_entry_id kept) = true) as Hsurv.
        { assert (after !! te_entry_id kept = Some (te_sequence e')) as ->; [|done].
          apply held_lookup; [done|]. by exists e'. }
        destruct (oldest_survivor_le before after (te_entry_id kept) (te_sequence kept)) as (o & Ho & Hle);
          [by apply Hb|done|].
        rewrite Ho in Hmid. cbn in Hmid. apply N.ltb_ge in Hmid.
        assert (te_sequence e <> te_sequence kept); [|lia]. intros Heq.
        apply list_elem_of_lookup in He as [i Hi], Hk as [j Hj].
        assert (i = j) as ->; [|assert (e = kept) as -> by congruence; by rewrite Ha in Hsurv].
        eapply NoDup_lookup; [apply (key_lt_NoDup te_sequence _ Hsort)| |]; rewrite list_lookup_fmap; [by rewrite Hi|].
        by rewrite Hj, Heq.
  - destruct (update_epoch _ _ _ _ _ _) as [md r] eqn:Hu. intros [= <- <- Hr].
    destruct r as [[]|]; [|done]. injection Hr as <-. split; [done|]. split; [|done].
    cbn. by apply fresh_epoch_differs.
Qed.
End fence_facts.
