(* ===== verification/Bridge.v ===== *)
(** What a bridge reports about one session ([agent_session.rs]): modes, models, commands, turns,
    attention, interactions, downgrades, and the delta each report publishes. *)
From S2P Require Import Prelude Text Protocol Fit Reducer Metadata Reconcile Session.

Local Open Scope N_scope.

(** ** Reported settings *)

(** Bump, assign, publish: what every report that moved something does. *)
Definition report (now : N) (write : AgentSessionSnapshot -> AgentSessionSnapshot)
    (changes : AgentSessionSnapshot -> list AgentDeltaChange) (s : LiveSession) : LiveSession :=
  let base_revision := ss_revision (ls_snapshot s) in
  let s := over_snapshot write (bump_revision now s) in
  send_delta base_revision (changes (ls_snapshot s)) s.

Definition update_bridge_permission_mode (now : N) (mode : string) (s : LiveSession) : LiveSession :=
  if opt_is (ss_permission_mode (ls_snapshot s)) mode then s
  else report now (set_ss_permission_mode (Some mode)) (fun _ => [ChPermissionMode mode]) s.

Definition update_bridge_model (now : N) (model : string) (s : LiveSession) : LiveSession :=
  if opt_is (ss_model (ls_snapshot s)) model then s
  else report now (set_ss_model (Some model)) (fun _ => [ChModel model]) s.

Definition update_bridge_effort (now : N) (effort : string) (s : LiveSession) : LiveSession :=
  if opt_is (ss_effort (ls_snapshot s)) effort then s
  else report now (set_ss_effort (Some effort)) (fun _ => [ChEffort effort]) s.

Definition update_bridge_model_catalogue (now : N) (models : list AgentModelOption) (s : LiveSession)
  : LiveSession :=
  if bool_decide (ss_models (ls_snapshot s) = Some models) then s
  else report now (set_ss_models (Some models)) (fun _ => [ChModelCatalogue models]) s.

Definition set_commands (commands : CommandCapabilities) (p : AgentSessionSnapshot) : AgentSessionSnapshot :=
  set_ss_capabilities (set_ac_commands commands (ss_capabilities p)) p.

Definition update_bridge_commands (now : N) (commands : CommandCapabilities) (s : LiveSession) : LiveSession :=
  let s := set_ls_offered_commands commands s in
  let effective := if ls_compatible s && is_some (ls_bridge_sender s) then commands
                   else CommandCapabilities_none in
  if bool_decide (ac_commands (ss_capabilities (ls_snapshot s)) = effective) then s
  else report now (set_commands effective) (fun p => [ChCapabilities (ss_capabilities p)]) s.

(** ** Turns and attention *)

Definition note_bridge_turn (now : N) (turn : TurnState) (s : LiveSession) : LiveSession * bool :=
  let s := set_ls_open_run (if is_running turn then Some turn else None) s in
  if bool_decide (ss_turn (ls_snapshot s) = turn) then (s, false)
  else (report now (set_ss_turn turn) (fun p => [ChTurn (ss_turn p)]) s, true).

Inductive AttentionKind := Latches | ReportsIdle | Informational | Unrecognized.

Definition classify_attention_kind (kind : string) : AttentionKind :=
  if one_of kind ["permission_prompt"; "agent_needs_input"]%string then Latches
  else if kind =s? "idle_prompt" then ReportsIdle
  else if one_of kind ["auth_success"; "agent_completed"; "unspecified"]%string then Informational
  else Unrecognized.

Definition note_bridge_idle_report (now : N) (s : LiveSession) : LiveSession :=
  if negb (is_running (ss_turn (ls_snapshot s))) then s
  else report now (set_ss_turn Idle) (fun p => [ChTurn (ss_turn p)]) (set_ls_open_run None s).

Definition note_bridge_attention (now : N) (kind : string) (s : LiveSession) : LiveSession :=
  match classify_attention_kind kind with
  | Latches =>
      if is_awaiting (ss_turn (ls_snapshot s)) then s
      else report now (set_ss_turn (AwaitingInteraction None)) (fun p => [ChTurn (ss_turn p)]) s
  | ReportsIdle => note_bridge_idle_report now s
  | Informational | Unrecognized => s
  end.

(** The turn a session goes back to when what outranked its run is gone. *)
Definition handed_back (reason : string) (s : LiveSession) : TurnState :=
  default (TurnUnknown reason) (ls_open_run s).

Definition clear_hook_attention (s : LiveSession) : LiveSession * option AgentDeltaChange :=
  let p := ls_snapshot s in
  if negb (is_awaiting (ss_turn p)) || negb (len (ss_pending_interactions p) =? 0) then (s, None)
  else let turn := handed_back "awaiting_agent_state" s in
       (over_snapshot (set_ss_turn turn) s, Some (ChTurn turn)).

(** One session's turn of the loop of [expire_stale_turn_claims]. *)
Definition expire_stale_turn_claim (now : N) (s : LiveSession) : LiveSession :=
  if is_some (ls_bridge_sender s) || negb (is_running (ss_turn (ls_snapshot s)))
     || (now - ls_updated_at s <? TURN_CLAIM_EXPIRY_SECONDS)
  then s
  else report now (set_ss_turn (TurnUnknown "turn_claim_expired")) (fun p => [ChTurn (ss_turn p)])
         (set_ls_open_run None s).

(** ** Interactions *)

Inductive BridgeError :=
| InvalidInput | SessionUnavailable | BoundExceeded | SourceWithoutEntry | KindChanged
| NonTextEntry | MetadataFailed (e : MetadataError).

Definition interaction_named (interaction_id : string) (i : PendingInteraction) : bool :=
  pi_interaction_id i =s? interaction_id.

Definition upsert_bridge_interaction (now : N) (interaction : PendingInteraction) (s : LiveSession)
  : LiveSession * result BridgeError unit :=
  let publish s :=
    report now (set_ss_turn (AwaitingInteraction None))
      (fun p => [ChUpsertInteraction interaction; ChTurn (ss_turn p)]) s in
  let pending := ss_pending_interactions (ls_snapshot s) in
  match PendingInteraction_validate interaction with
  | Err _ => (s, Err InvalidInput)
  | Ok _ =>
      match List.find (same_interaction interaction) pending with
      | Some existing =>
          if pi_interaction_revision interaction <=? pi_interaction_revision existing then (s, Ok tt)
          else (publish (over_snapshot (set_ss_pending_interactions
                  (update_first (same_interaction interaction) (fun _ => interaction) pending)) s), Ok tt)
      | None =>
          if MAX_PENDING_INTERACTIONS <=? len pending then (s, Err BoundExceeded)
          else (publish (over_snapshot (set_ss_pending_interactions (pending ++ [interaction])) s), Ok tt)
      end
  end.

Definition resolve_bridge_interaction (now : N) (interaction_id resolution : string) (s : LiveSession)
  : LiveSession * result BridgeError unit :=
  match valid_opaque_id interaction_id ?; valid_token resolution with
  | Err _ => (s, Err InvalidInput)
  | Ok _ =>
      let pending := ss_pending_interactions (ls_snapshot s) in
      if negb (existsb (interaction_named interaction_id) pending) then (s, Ok tt)
      else
        let rest := List.filter (fun i => negb (interaction_named interaction_id i)) pending in
        let s := over_snapshot (set_ss_pending_interactions rest) s in
        let turn := if negb (len rest =? 0) then AwaitingInteraction None
                    else handed_back "awaiting_worker_state" s in
        (report now (set_ss_turn turn)
           (fun p => [ChRemoveInteraction interaction_id resolution; ChTurn (ss_turn p)]) s, Ok tt)
  end.

(** ** Downgrades *)

Definition unavailable_fallback (reason : string) : TerminalFallback :=
  mkTerminalFallback "unavailable" None (Some reason) None None.

Definition set_continuity (continuity : string) (p : AgentSessionSnapshot) : AgentSessionSnapshot :=
  set_ss_capabilities (set_ac_terminal_continuity continuity (ss_capabilities p)) p.

Definition lose_route (reason : string) (p : AgentSessionSnapshot) : AgentSessionSnapshot :=
  set_continuity "unavailable" (set_ss_terminal_fallback (unavailable_fallback reason) p).

Definition downgrade_route (now : N) (reason : string) (s : LiveSession) : LiveSession :=
  report now (lose_route reason)
    (fun p => [ChTerminalFallback (ss_terminal_fallback p); ChCapabilities (ss_capabilities p)]) s.

(** The six assignments of [downgrade_session], at once. *)
Definition lose_bridge (reason : string) (p : AgentSessionSnapshot) : AgentSessionSnapshot :=
  mkAgentSessionSnapshot (ss_v p) (ss_session_id p) (ss_snapshot_epoch p) (ss_revision p)
    (ss_process_generation p) (ss_adapter p) (ss_topology p) (ss_presence p) (ss_stored_reason p)
    (ss_control_owner p)
    (mkObservation "stale" reason (ob_last_authoritative_at (ss_observation p)))
    (TurnUnknown reason) (ss_permission_mode p) (ss_model p) (ss_effort p) (ss_models p) (ss_drift p)
    (mkAgentCapabilities (ac_history (ss_capabilities p)) CommandCapabilities_none
       (ac_interactions (ss_capabilities p)) (ac_pending_rehydration (ss_capabilities p)) "unavailable")
    (ss_pending_interactions p) (ss_timeline_window p) (unavailable_fallback reason)
    (ss_latest_command_receipts p).

Definition downgrade_session (now : N) (reason : string) (s : LiveSession) : LiveSession :=
  report now (lose_bridge reason)
    (fun p => [ChObservation (ss_observation p); ChTerminalFallback (ss_terminal_fallback p);
               ChCapabilities (ss_capabilities p); ChTurn (ss_turn p)])
    (set_ls_open_run None s).

(** ** Receipts *)

Definition publish_receipt (now : N) (receipt : CommandReceipt) (s : LiveSession) : LiveSession :=
  let receipts := ss_latest_command_receipts (ls_snapshot s) in
  let pushed := receipts ++ [receipt] in
  let receipts :=
    if is_some (List.find (same_command receipt) receipts)
    then update_first (same_command receipt) (fun _ => receipt) receipts
    else if MAX_COMMAND_RECEIPTS <? len pushed then tail pushed else pushed in
  let s := over_snapshot (set_ss_latest_command_receipts receipts) s in
  let base_revision := ss_revision (ls_snapshot s) in
  let s := bump_revision now s in
  let delta := session_delta base_revision [ChCommandReceipt receipt] (ls_snapshot s) in
  send (SessionDelta AGENT_PROTOCOL_VERSION delta)
    (send (CommandReceiptFrame AGENT_PROTOCOL_VERSION receipt) s).

(** ** What the bridge reports, as one step of the session *)

Inductive BridgeReport :=
| ReportPermissionMode (mode : string)
| ReportModel (model : string)
| ReportEffort (effort : string)
| ReportCatalogue (models : list AgentModelOption)
| ReportCommands (commands : CommandCapabilities)
| ReportTurn (turn : TurnState)
| ReportAttention (kind : string)
| ReportInteraction (interaction : PendingInteraction)
| ReportResolution (interaction_id resolution : string)
| ExpireClaim
| LoseRoute (reason : string)
| LoseBridge (reason : string)
| ReportReceipt (receipt : CommandReceipt).

Definition bridge_step (now : N) (r : BridgeReport) (s : LiveSession) : LiveSession :=
  match r with
  | ReportPermissionMode mode => update_bridge_permission_mode now mode s
  | ReportModel model => update_bridge_model now model s
  | ReportEffort effort => update_bridge_effort now effort s
  | ReportCatalogue models => update_bridge_model_catalogue now models s
  | ReportCommands commands => update_bridge_commands now commands s
  | ReportTurn turn => (note_bridge_turn now turn s).1
  | ReportAttention kind => note_bridge_attention now kind s
  | ReportInteraction interaction => (upsert_bridge_interaction now interaction s).1
  | ReportResolution interaction_id resolution => (resolve_bridge_interaction now interaction_id resolution s).1
  | ExpireClaim => expire_stale_turn_claim now s
  | LoseRoute reason => downgrade_route now reason s
  | LoseBridge reason => downgrade_session now reason s
  | ReportReceipt receipt => publish_receipt now receipt s
  end.
