(* ===== verification/Replay.v ===== *)
(** What a subscriber makes of the deltas a session publishes: reduced in order, they give the
    host's own snapshot after every bridge report. *)
From S2P Require Import Prelude Text Protocol Fit Reducer Metadata Reconcile Session Bridge.

Local Open Scope N_scope.

(** The deltas among broadcast frames. *)
Definition deltas_of (frames : list AgentServerFrame) : list AgentSessionDelta :=
  omap (fun frame => match frame with SessionDelta _ d => Some d | _ => None end) frames.

Definition blocked (p : AgentSessionSnapshot) : bool :=
  existsb is_unresolved_blocking (ss_pending_interactions p).

(** ** The invariant of a session between reports *)

Record session_ok (s : LiveSession) : Prop := mk_session_ok {
  so_valid : AgentSessionSnapshot_validate (ls_snapshot s) = Ok tt;
  so_live : ss_presence (ls_snapshot s) <> "stored"%string;
  so_numbered : numbered (tw_entries (ss_timeline_window (ls_snapshot s)));
  so_blocked : blocked (ls_snapshot s) = true -> ss_turn (ls_snapshot s) = AwaitingInteraction None;
  so_open_run : opt_each TurnState_validate (ls_open_run s) = Ok tt
}.

(** The reports a session may be handed: valid values; a turn or the loss of the bridge only while
    no unresolved interaction blocks it (or the turn says so), a receipt only under the session's own
    identity and no older than the one it replaces, the loss of a route only where one may be lost. *)
Definition report_ok (s : LiveSession) (r : BridgeReport) : Prop :=
  let p := ls_snapshot s in
  match r with
  | ReportPermissionMode mode => valid_permission_mode mode = true
  | ReportModel model => valid_model_id model = Ok tt
  | ReportEffort effort => valid_token effort = Ok tt
  | ReportCatalogue models => validate_model_catalogue models = Ok tt
  | ReportTurn turn => TurnState_validate turn = Ok tt
      /\ (blocked p = true -> turn = AwaitingInteraction None)
  | LoseRoute reason => valid_token reason = Ok tt /\ ss_topology p <> "adopted"%string
  | LoseBridge reason => valid_token reason = Ok tt /\ ss_topology p <> "adopted"%string
      /\ blocked p = false
  | ReportReceipt receipt => CommandReceipt_validate receipt = Ok tt /\ receipt_of p receipt = true
      /\ (forall existing, List.find (same_command receipt) (ss_latest_command_receipts p) = Some existing ->
            cr_updated_at existing <= cr_updated_at receipt)
  | ReportCommands _ | ReportAttention _ | ReportInteraction _ | ReportResolution _ _ | ExpireClaim => True
  end.

(** ** One delta *)

Lemma enforce_settled q :
  (blocked q = true -> ss_turn q = AwaitingInteraction None) ->
  ac_terminal_continuity (ss_capabilities q) = tf_continuity (ss_terminal_fallback q) ->
  (ss_topology q = "managed"%string -> tf_continuity (ss_terminal_fallback q) = "unavailable"%string) ->
  enforce_reducer_invariants q = (q, Ok tt).
Proof.
  intros Hb Hc Hm. unfold enforce_reducer_invariants. fold (blocked q).
  assert ((if blocked q then set_ss_turn (AwaitingInteraction None) q else q) = q) as ->.
  { destruct (blocked q); [|done]. rewrite <- (Hb eq_refl). by destruct q. }
  rewrite (proj2 (String.eqb_eq _ _) Hc). cbn [negb].
  destruct (String.eqb_spec (ss_topology q) "managed") as [Ht|]; [|done].
  by rewrite (Hm Ht).
Qed.

Lemma delta_applies p cs q :
  fixed_valid p -> ss_revision p <> 0 ->
  0 < len cs <= 64 -> Forall (fun c => AgentDeltaChange_validate c = Ok tt) cs ->
  apply_content_changes (foldl apply_route_change p cs) cs = (q, Ok tt) ->
  let q' := set_ss_revision (ss_revision p + 1) q in
  enforce_reducer_invariants q' = (q', Ok tt) ->
  apply_delta p (session_delta (ss_revision p) cs q') = (q', Ok Applied).
Proof.
  intros (Hv & Hid & He & Hg & _) Hrev Hlen Hall Hc q' Henf.
  destruct (apply_content_changes_route _ _ _ _ Hc) as (_ & _ & _ & Hf).
  destruct (route_pass_fixed cs p) as [Hf' _]. rewrite Hf' in Hf.
  injection Hf as Hfv Hfid Hfe Hfg _ _ _ _ _ _.
  set (d := session_delta _ _ _).
  assert (AgentSessionDelta_validate d = Ok tt) as Hd.
  { unfold AgentSessionDelta_validate, d, invalid_if. cbn -[len AgentDeltaChange_validate N.add].
    rewrite !rbind_unit_ok, each_ok, refuse_if_ok, Hfid, Hfe, Hfg. split_and!; [done..| |done].
    rewrite !orb_false_iff, !N.eqb_neq, N.leb_gt, N.ltb_ge. split_and!; try done; lia. }
  unfold apply_delta. rewrite Hd.
  assert (fence_delta p d = None) as ->.
  { apply fence_delta_none. split; [|done]. split_and!; done. }
  cbn [sd_changes d session_delta]. rewrite Hc. cbn [sd_revision d session_delta].
  change (ss_revision q') with (ss_revision p + 1). fold q'. by rewrite Henf.
Qed.

(** ** One report *)

(** What [enforce_reducer_invariants] finds nothing to change in. *)
Record settled (p : AgentSessionSnapshot) : Prop := mk_settled {
  st_blocked : blocked p = true -> ss_turn p = AwaitingInteraction None;
  st_continuity : ac_terminal_continuity (ss_capabilities p) = tf_continuity (ss_terminal_fallback p);
  st_managed : ss_topology p = "managed"%string -> tf_continuity (ss_terminal_fallback p) = "unavailable"%string
}.

Lemma session_settled s : session_ok s -> settled (ls_snapshot s).
Proof.
  intros [(_ & _ & [_ Hc _ Ht _])%snapshot_valid_iff Hlive _ Hb _]. split; [done..|].
  intros Hm. rewrite <- Hc. unfold validate_topology_presence, invalid_if in Ht.
  rewrite !rbind_unit_ok, !refuse_if_ok, Hm in Ht. destruct Ht as (_ & _ & Ht & _).
  rewrite (proj2 (String.eqb_neq _ _) Hlive), !andb_false_l in Ht. cbn in Ht. rewrite andb_true_r in Ht.
  by apply negb_false_iff, String.eqb_eq in Ht.
Qed.

(** [s'] holds what a subscriber of [s] gets from the deltas published in between. *)
Definition publishes (s s' : LiveSession) : Prop :=
  exists ds, published (ls_snapshot s) ds /\ reduce_all (ls_snapshot s) ds = ls_snapshot s'
  /\ deltas_of (ls_updates s') = deltas_of (ls_updates s) ++ ds.

Lemma publishes_nothing s s' :
  ls_snapshot s' = ls_snapshot s -> ls_updates s' = ls_updates s -> publishes s s'.
Proof. intros Hp Hu. exists []. rewrite Hp, Hu, app_nil_r. split; [constructor|done]. Qed.

Lemma publishes_one s s' d :
  apply_delta (ls_snapshot s) d = (ls_snapshot s', Ok Applied) ->
  deltas_of (ls_updates s') = deltas_of (ls_updates s) ++ [d] -> publishes s s'.
Proof.
  intros Ha Hu. exists [d]. split; [econstructor; [done|constructor]|]. split; [|done].
  unfold reduce_all. cbn. by rewrite Ha.
Qed.

Lemma published_app s ds1 ds2 :
  published s ds1 -> published (reduce_all s ds1) ds2 -> published s (ds1 ++ ds2).
Proof.
  induction 1 as [s|s s' d ds Ha Hp IH]; intros H2; [done|].
  cbn [app]. econstructor; [done|]. apply IH. unfold reduce_all in H2. cbn in H2. by rewrite Ha in H2.
Qed.

Lemma publishes_trans s1 s2 s3 : publishes s1 s2 -> publishes s2 s3 -> publishes s1 s3.
Proof.
  intros (d1 & P1 & R1 & U1) (d2 & P2 & R2 & U2). exists (d1 ++ d2). split_and!.
  - apply published_app; [done|]. by rewrite R1.
  - by rewrite reduce_all_app, R1.
  - by rewrite U2, U1, app_assoc.
Qed.

Lemma deltas_of_snoc frames v d : deltas_of (frames ++ [SessionDelta v d]) = deltas_of frames ++ [d].
Proof. unfold deltas_of. by rewrite omap_app. Qed.

(** A published change: [s1] is the session with whatever was written before the bump. *)
Lemma report_publishes now s s1 write changes q :
  session_ok s -> ss_revision (ls_snapshot s) < u64_max ->
  ls_updates s1 = ls_updates s -> opt_each TurnState_validate (ls_open_run s1) = Ok tt ->
  ss_revision (ls_snapshot s1) = ss_revision (ls_snapshot s) ->
  let p' := write (set_ss_revision (ss_revision (ls_snapshot s) + 1) (ls_snapshot s1)) in
  let cs := changes p' in
  0 < len cs <= 64 -> Forall (fun c => AgentDeltaChange_validate c = Ok tt) cs ->
  upserts_of cs = [] ->
  (ss_topology (ls_snapshot s) = "adopted"%string -> forall f, ChTerminalFallback f ∉ cs) ->
  apply_content_changes (foldl apply_route_change (ls_snapshot s) cs) cs = (q, Ok tt) ->
  p' = set_ss_revision (ss_revision (ls_snapshot s) + 1) q -> settled p' ->
  ss_timeline_window p' = ss_timeline_window (ls_snapshot s) ->
  session_ok (report now write changes s1) /\ publishes s (report now write changes s1).
Proof.
  intros Hok Hmax Hup Hrun Hrev p' cs Hlen Hall Hnu Had Hc Hq Hset Hwin.
  pose proof Hok as [Hvalid Hlive Hnum _ _].
  pose proof (proj1 (snapshot_valid_iff _) Hvalid) as (Hfx & _ & Hco).
  destruct Hset as [Hb Hcont Hman].
  assert (ls_snapshot (report now write changes s1) = p') as Hp'.
  { unfold report, bump_revision, over_snapshot. cbn. rewrite Hrev. unfold p'. do 2 f_equal.
    unfold sat_add64. lia. }
  assert (apply_delta (ls_snapshot s) (session_delta (ss_revision (ls_snapshot s)) cs p') = (p', Ok Applied)) as Ha.
  { rewrite Hq. apply delta_applies; [done|apply Hco|done..|]. cbn zeta. rewrite <- Hq.
    by apply enforce_settled. }
  assert (fixed_fields p' = fixed_fields (ls_snapshot s)) as Hfields by by eapply apply_delta_fixed.
  split.
  - split; rewrite ?Hp'.
    + eapply apply_delta_valid; [done|done| | |exact Ha].
      * change (sd_changes (session_delta (ss_revision (ls_snapshot s)) cs p')) with cs. by rewrite Hnu, app_nil_r.
      * intros Ht f Hf. by apply (Had Ht f) in Hf.
    + by injection Hfields as _ _ _ _ _ _ -> _ _ _.
    + by rewrite Hwin.
    + done.
    + done.
  - eapply publishes_one; [rewrite Hp'; exact Ha|].
    unfold report. cbn. rewrite deltas_of_snoc, Hup. do 2 f_equal.
    unfold cs. fold p' in Hp'.
    unfold report, bump_revision, over_snapshot in Hp'. cbn in Hp'. cbn. rewrite Hp', Hrev. done.
Qed.

(** A report that moves one field no invariant ties to another. *)
Ltac publish_field :=
  match goal with
  | Hok : session_ok ?s |- _ =>
      let Hset := fresh in
      pose proof (session_settled s Hok) as Hset; destruct Hset;
      eapply report_publishes; [done|done|done|apply Hok|done|done|repeat constructor|done|
        by intros _ ? ?%list_elem_of_singleton|reflexivity|reflexivity|split; done|done]
  end.

Lemma unmoved s : session_ok s -> session_ok s /\ publishes s s.
Proof. intros Hok. split; [done|by apply publishes_nothing]. Qed.

Lemma setting_reports now s r :
  session_ok s -> ss_revision (ls_snapshot s) < u64_max -> report_ok s r ->
  match r with
  | ReportPermissionMode _ | ReportModel _ | ReportEffort _ | ReportCatalogue _ => True
  | _ => False
  end ->
  session_ok (bridge_step now r s) /\ publishes s (bridge_step now r s).
Proof.
  intros Hok Hmax Hr Hkind. destruct r; try (exfalso; exact Hkind); cbn [bridge_step report_ok] in *;
    unfold update_bridge_permission_mode, update_bridge_model, update_bridge_effort,
      update_bridge_model_catalogue; (case_match; [by apply unmoved|]).
  - publish_field. change (invalid_if (negb (valid_permission_mode mode)) = Ok tt). by rewrite Hr.
  - by publish_field.
  - by publish_field.
  - by publish_field.
Qed.

Lemma commands_report now commands s :
  session_ok s -> ss_revision (ls_snapshot s) < u64_max ->
  session_ok (update_bridge_commands now commands s) /\ publishes s (update_bridge_commands now commands s).
Proof.
  intros Hok Hmax. unfold update_bridge_commands.
  set (effective := if _ : bool then commands else _).
  pose proof Hok as [Hvalid Hlive Hnum Hb Hopen].
  case_match.
  { split; [|by apply publishes_nothing]. by split. }
  destruct (session_settled s Hok).
  eapply report_publishes; [done|done|done|done|done|done| |done| |reflexivity|reflexivity|split; done|done].
  - constructor; [|constructor]. apply snapshot_valid_iff in Hvalid as (_ & [] & _).
    cbn -[AgentCapabilities_validate]. unfold AgentCapabilities_validate in *. cbn. done.
  - by intros _ ? ?%list_elem_of_singleton.
Qed.

(** A turn is published alone; whatever blocks the session, the turn says so. *)
Lemma turn_published now s s1 turn :
  session_ok s -> ss_revision (ls_snapshot s) < u64_max ->
  ls_snapshot s1 = ls_snapshot s -> ls_updates s1 = ls_updates s ->
  opt_each TurnState_validate (ls_open_run s1) = Ok tt ->
  TurnState_validate turn = Ok tt -> (blocked (ls_snapshot s) = true -> turn = AwaitingInteraction None) ->
  let s' := report now (set_ss_turn turn) (fun p => [ChTurn (ss_turn p)]) s1 in
  session_ok s' /\ publishes s s'.
Proof.
  intros Hok Hmax Hs Hu Ho Ht Hb. destruct (session_settled s Hok).
  eapply report_publishes; rewrite ?Hs; [done|done|done|done|done|done|by repeat constructor|done|
    by intros _ ? ?%list_elem_of_singleton|reflexivity|reflexivity|split; done|done].
Qed.

Lemma running_unblocked s turn :
  session_ok s -> is_running (ss_turn (ls_snapshot s)) = true -> blocked (ls_snapshot s) = true ->
  turn = AwaitingInteraction None.
Proof. intros Hok Hr Hb. by rewrite (so_blocked _ Hok Hb) in Hr. Qed.

Lemma turn_reports now s r :
  session_ok s -> ss_revision (ls_snapshot s) < u64_max -> report_ok s r ->
  match r with ReportTurn _ | ReportAttention _ | ExpireClaim => True | _ => False end ->
  session_ok (bridge_step now r s) /\ publishes s (bridge_step now r s).
Proof.
  intros Hok Hmax Hr Hkind. pose proof Hok as [Hvalid Hlive Hnum Hb Hopen].
  destruct r; try (exfalso; exact Hkind); cbn [bridge_step report_ok] in *.
  - destruct Hr as [Ht Htb]. unfold note_bridge_turn.
    assert (opt_each TurnState_validate (if is_running turn then Some turn else None) = Ok tt) as Ho
      by (by destruct (is_running turn)).
    destruct (bool_decide _); cbn [fst].
    + split; [by split|by apply publishes_nothing].
    + by apply turn_published.
  - unfold note_bridge_attention, note_bridge_idle_report. case_match; try by apply unmoved.
    + case_match; [by apply unmoved|]. by apply turn_published.
    + destruct (is_running _) eqn:Hrun; cbn; [|by apply unmoved].
      apply turn_published; try done. intros. by eapply running_unblocked.
  - unfold expire_stale_turn_claim. destruct (_ || _) eqn:Hg; [by apply unmoved|].
    apply orb_false_iff in Hg as [[_ Hrun%negb_false_iff]%orb_false_iff _].
    apply turn_published; try done. intros. by eapply running_unblocked.
Qed.

Lemma interaction_report now interaction s :
  session_ok s -> ss_revision (ls_snapshot s) < u64_max ->
  let s' := (upsert_bridge_interaction now interaction s).1 in session_ok s' /\ publishes s s'.
Proof.
  intros Hok Hmax. cbn zeta. unfold upsert_bridge_interaction.
  destruct (PendingInteraction_validate interaction) as [[]|] eqn:Hv; [|by apply unmoved].
  destruct (session_settled s Hok). pose proof Hok as [_ _ _ _ Hopen].
  destruct (List.find _ _) as [existing|] eqn:Hf.
  - destruct (N.leb_spec (pi_interaction_revision interaction) (pi_interaction_revision existing));
      [by apply unmoved|].
    eapply report_publishes with (q := set_ss_turn (AwaitingInteraction None)
      (set_ss_pending_interactions (update_first (same_interaction interaction) (fun _ => interaction)
         (ss_pending_interactions (ls_snapshot s))) (ls_snapshot s)));
      [done|done|done|done|done|done|by repeat constructor|done| | |done|by split|done].
    + intros _ f. set_solver.
    + cbn [foldl apply_route_change apply_content_changes apply_content_change]. unfold upsert_interaction.
      rewrite Hf. cbn [is_some is_none negb].
      rewrite (update_first_ext _ (fun x => if pi_interaction_revision x <? pi_interaction_revision interaction
        then interaction else x) (fun _ => interaction) _ existing Hf); [done|].
      cbn. by rewrite (proj2 (N.ltb_lt _ _)).
  - destruct (N.leb_spec MAX_PENDING_INTERACTIONS (len (ss_pending_interactions (ls_snapshot s))));
      [by apply unmoved|].
    eapply report_publishes with (q := set_ss_turn (AwaitingInteraction None)
      (set_ss_pending_interactions (ss_pending_interactions (ls_snapshot s) ++ [interaction]) (ls_snapshot s)));
      [done|done|done|done|done|done|by repeat constructor|done| | |done|by split|done].
    + intros _ f. set_solver.
    + cbn [foldl apply_route_change apply_content_changes apply_content_change]. unfold upsert_interaction.
      rewrite Hf. cbn [is_some is_none negb]. by rewrite (proj2 (N.leb_gt _ _)).
Qed.

Lemma resolution_report now interaction_id resolution s :
  session_ok s -> ss_revision (ls_snapshot s) < u64_max ->
  let s' := (resolve_bridge_interaction now interaction_id resolution s).1 in session_ok s' /\ publishes s s'.
Proof.
  intros Hok Hmax. cbn zeta. unfold resolve_bridge_interaction.
  destruct (valid_opaque_id interaction_id ?; valid_token resolution) as [[]|] eqn:Hv; [|by apply unmoved].
  destruct (negb _); [by apply unmoved|]. cbn [fst].
  set (rest := List.filter _ _). set (turn := if _ : bool then _ else _).
  destruct (session_settled s Hok). pose proof Hok as [_ _ _ _ Hopen].
  assert (TurnState_validate turn = Ok tt) as Ht.
  { unfold turn, handed_back. case_match; [done|]. cbn. destruct (ls_open_run s); [done|by vm_compute]. }
  eapply report_publishes with (q := set_ss_turn turn (set_ss_pending_interactions rest (ls_snapshot s)));
    [done|done|done|done|done|done| |done| |done|done| |done].
  - constructor; [done|by repeat constructor].
  - intros _ f. set_solver.
  - split; [|done..]. unfold blocked. cbn. intros Hb. unfold turn.
    destruct rest; [done|]. by rewrite len_cons, (proj2 (N.eqb_neq _ _)) by lia.
Qed.

(** A continuity lost twice over is lost once. *)
Lemma lost_route_valid s reason :
  session_ok s -> valid_token reason = Ok tt ->
  TerminalFallback_validate (unavailable_fallback reason) = Ok tt
  /\ AgentCapabilities_validate (set_ac_terminal_continuity "unavailable" (ss_capabilities (ls_snapshot s))) = Ok tt.
Proof.
  intros [Hvalid _ _ _ _] Hr. split.
  - unfold TerminalFallback_validate. cbn -[valid_token]. by rewrite Hr.
  - apply snapshot_valid_iff in Hvalid as (_ & [] & _).
    unfold AgentCapabilities_validate in *. rewrite !rbind_unit_ok in *.
    destruct cv_capabilities as (? & ? & ? & ? & ?). by split_and!.
Qed.

Lemma downgrade_reports now s r :
  session_ok s -> ss_revision (ls_snapshot s) < u64_max -> report_ok s r ->
  match r with LoseRoute _ | LoseBridge _ => True | _ => False end ->
  session_ok (bridge_step now r s) /\ publishes s (bridge_step now r s).
Proof.
  intros Hok Hmax Hr Hkind. pose proof Hok as [Hvalid Hlive Hnum Hb Hopen].
  destruct (session_settled s Hok). destruct r; try (exfalso; exact Hkind); cbn [bridge_step report_ok] in *.
  - destruct Hr as [Ht Hna]. destruct (lost_route_valid s reason Hok Ht) as [Hf Hc].
    eapply report_publishes; [done|done|done|done|done|done|by repeat constructor|done|done|reflexivity|
      reflexivity|by split|done].
  - destruct Hr as (Ht & Hna & Hblocked). destruct (lost_route_valid s reason Hok Ht) as [Hf Hc].
    eapply report_publishes with (q := lose_bridge reason (ls_snapshot s));
      [done|done|done|done|done|done| |done|done|reflexivity|reflexivity|split; [|done..]|done].
    + constructor; [|constructor; [exact Hf|constructor; [exact Hc|by repeat constructor]]].
      cbn. unfold Observation_validate. cbn -[valid_token]. by rewrite Ht.
    + intros Hbl. exfalso. change (blocked (ls_snapshot s) = true) in Hbl. congruence.
Qed.

Lemma receipt_report now receipt s :
  session_ok s -> ss_revision (ls_snapshot s) < u64_max -> report_ok s (ReportReceipt receipt) ->
  session_ok (publish_receipt now receipt s) /\ publishes s (publish_receipt now receipt s).
Proof.
  intros Hok Hmax (Hv & Hof & Hnewer). destruct (session_settled s Hok).
  set (q := set_ss_latest_command_receipts
    (if is_some (List.find (same_command receipt) (ss_latest_command_receipts (ls_snapshot s)))
     then update_first (same_command receipt) (fun _ => receipt) (ss_latest_command_receipts (ls_snapshot s))
     else if MAX_COMMAND_RECEIPTS <? len (ss_latest_command_receipts (ls_snapshot s) ++ [receipt])
          then tail (ss_latest_command_receipts (ls_snapshot s) ++ [receipt])
          else ss_latest_command_receipts (ls_snapshot s) ++ [receipt]) (ls_snapshot s)).
  set (s2 := report now (fun p => p) (fun _ => [ChCommandReceipt receipt]) (set_ls_snapshot q s)).
  assert (session_ok s2 /\ publishes s s2) as [Hs2 Hp2].
  { eapply (report_publishes now s (set_ls_snapshot q s) _ _ q);
      [done|done|done|by apply Hok|done|done|by repeat constructor|done|by intros _ ? ?%list_elem_of_singleton| |done|by split|done].
    cbn [foldl apply_route_change apply_content_changes apply_content_change]. unfold Reducer.upsert_receipt.
    unfold receipt_of in Hof. b2p. rewrite (proj2 (String.eqb_eq _ _)), !(proj2 (N.eqb_eq _ _)) by done.
    cbn [negb orb]. destruct (List.find _ _) as [existing|] eqn:Hf.
    - assert (unproved_application existing receipt = false) as ->.
      { unfold unproved_application. unfold CommandReceipt_validate, invalid_if in Hv.
        rewrite !rbind_unit_ok, !refuse_if_ok in Hv. destruct Hv as (_ & _ & _ & _ & _ & _ & Hap).
        rewrite <- andb_assoc, Hap. by rewrite andb_false_r. }
      rewrite (proj2 (N.leb_le _ _)) by (by apply Hnewer). done.
    - done. }
  assert (ls_snapshot (publish_receipt now receipt s) = ls_snapshot s2) as Hsn by done.
  split.
  - destruct Hs2. split; by rewrite ?Hsn.
  - destruct Hp2 as (ds & H1 & H2 & H3). exists ds. rewrite Hsn. split_and!; [done..|].
    rewrite <- H3. unfold publish_receipt, s2, report. cbn. rewrite !deltas_of_snoc.
    unfold deltas_of at 1. rewrite omap_app. cbn. by rewrite app_nil_r.
Qed.

Lemma bridge_step_ok now s r :
  session_ok s -> ss_revision (ls_snapshot s) < u64_max -> report_ok s r ->
  session_ok (bridge_step now r s) /\ publishes s (bridge_step now r s).
Proof.
  intros Hok Hmax Hr. destruct r.
  1-4: by apply setting_reports.
  - by apply commands_report.
  - by apply turn_reports.
  - by apply turn_reports.
  - by apply interaction_report.
  - by apply resolution_report.
  - by apply turn_reports.
  - by apply downgrade_reports.
  - by apply downgrade_reports.
  - by apply receipt_report.
Qed.

(** ** A run of reports *)

Definition bridge_run (steps : list (N * BridgeReport)) (s : LiveSession) : LiveSession :=
  foldl (fun s step => bridge_step step.1 step.2 s) s steps.

Fixpoint reports_ok (s : LiveSession) (steps : list (N * BridgeReport)) : Prop :=
  match steps with
  | [] => True
  | step :: steps =>
      report_ok s step.2 /\ ss_revision (ls_snapshot s) < u64_max
      /\ reports_ok (bridge_step step.1 step.2 s) steps
  end.

Lemma bridge_run_ok s steps :
  session_ok s -> reports_ok s steps -> session_ok (bridge_run steps s) /\ publishes s (bridge_run steps s).
Proof.
  revert s. induction steps as [|[now r] steps IH]; intros s Hok Hsteps; [by apply unmoved|].
  destruct Hsteps as (Hr & Hmax & Hsteps). destruct (bridge_step_ok now s r Hok Hmax Hr) as [Hok1 Hp1].
  cbn [fst snd] in *. destruct (IH _ Hok1 Hsteps) as [Hok2 Hp2].
  split; [done|]. by eapply publishes_trans.
Qed.

(** C2: After a run of bridge reports on a session that is in order ([session_ok]), a subscriber that reduces the deltas published since its snapshot, in
    order, holds exactly the host's snapshot, which is still one the protocol accepts, as long as each report
    is one of these ([reports_ok]): its values are valid; while an interaction blocks, a turn reported is one
    that awaits it and the bridge is not lost; an adopted session loses neither route nor bridge; a receipt is
    of the session's own epoch and generation and no older than the one held for its command; and revisions
    stay below 2^64 - 1. Other reports can part the two ([downgrade_while_blocked], [foreign_receipt_refused]). *)
Theorem subscriber_follows_host s steps :
  session_ok s -> reports_ok s steps ->
  let s' := bridge_run steps s in
  AgentSessionSnapshot_validate (ls_snapshot s') = Ok tt
  /\ exists ds, deltas_of (ls_updates s') = deltas_of (ls_updates s) ++ ds
     /\ published (ls_snapshot s) ds /\ reduce_all (ls_snapshot s) ds = ls_snapshot s'.
Proof.
  intros Hok Hsteps. destruct (bridge_run_ok s steps Hok Hsteps) as [[Hv _ _ _ _] (ds & H1 & H2 & H3)].
  split; [done|]. by exists ds.
Qed.

(** ** Where the host and its subscribers part *)

Lemma published_receipt_held now receipt s :
  receipt ∈ ss_latest_command_receipts (ls_snapshot (publish_receipt now receipt s)).
Proof.
  unfold publish_receipt. cbn. destruct (List.find _ _) as [existing|] eqn:Hf; cbn [is_some is_none negb].
  - assert (List.find (same_command receipt) (update_first (same_command receipt) (fun _ => receipt)
      (ss_latest_command_receipts (ls_snapshot s))) = Some receipt) as H.
    { rewrite update_first_find, Hf; [done|]. intros x _. apply String.eqb_refl. }
    by apply find_some_elem in H as [? _].
  - destruct (N.ltb_spec MAX_COMMAND_RECEIPTS (len (ss_latest_command_receipts (ls_snapshot s) ++ [receipt])));
      [|set_solver].
    destruct (ss_latest_command_receipts (ls_snapshot s)) as [|x l]; [by vm_compute in H|]. cbn. set_solver.
Qed.

(** A receipt published under another identity than the session's, as a command submitted
    against an old epoch gets, leaves the host's snapshot one the protocol refuses, while every
    subscriber ignores it. *)
Theorem foreign_receipt_refused now receipt s :
  receipt_of (ls_snapshot s) receipt = false ->
  AgentSessionSnapshot_validate (ls_snapshot (publish_receipt now receipt s)) <> Ok tt
  /\ Reducer.upsert_receipt (ls_snapshot s) receipt = (ls_snapshot s, Ok tt).
Proof.
  intros Hof. split.
  - intros (_ & [] & _)%snapshot_valid_iff. rewrite Forall_forall in cv_receipts.
    destruct (cv_receipts _ (published_receipt_held now receipt s)) as [_ Hr].
    change (receipt_of (ls_snapshot s) receipt = true) in Hr. congruence.
  - unfold Reducer.upsert_receipt, receipt_of in *.
    destruct (cr_session_id receipt =s? ss_session_id (ls_snapshot s)),
      (cr_process_generation receipt =? ss_process_generation (ls_snapshot s)),
      (cr_snapshot_epoch receipt =? ss_snapshot_epoch (ls_snapshot s)); done.
Qed.

(** A session that loses its bridge while an unresolved interaction blocks it keeps the
    interaction but gives up the turn it holds: the host's snapshot is then one the protocol
    refuses, and no delta the reducer applies leaves a subscriber with it. *)
Theorem downgrade_while_blocked now reason s p d p' :
  blocked (ls_snapshot s) = true ->
  let s' := downgrade_session now reason s in
  AgentSessionSnapshot_validate (ls_snapshot s') <> Ok tt
  /\ (apply_delta p d = (p', Ok Applied) -> p' <> ls_snapshot s').
Proof.
  intros Hb. cbn zeta. split.
  - intros (_ & _ & [_ _ Haw _ _])%snapshot_valid_iff. by specialize (Haw Hb).
  - intros Ha ->. destruct (apply_delta_applied _ _ _ Ha) as (Hv & Hf & _).
    destruct (apply_delta_admitted _ _ _ _ Hv Hf Ha) as (s2 & [[]|e] & _ & H); [|by destruct H].
    destruct H as [Hs' _]. destruct (enforce_spec (set_ss_revision (sd_revision d) s2))
      as (_ & _ & _ & _ & _ & Ht & _ & Hp & _).
    rewrite <- Hs' in Ht, Hp. rewrite <- Hp in Ht. unfold blocked in Hb.
    change (ss_pending_interactions (ls_snapshot (downgrade_session now reason s)))
      with (ss_pending_interactions (ls_snapshot s)) in Ht. rewrite Hb in Ht. done.
Qed.
