(* ===== verification/Timeline.v ===== *)
(** What an adapter does to a session's timeline ([agent_session.rs]): entries upserted, text
    appended, snapshots replaced and vendor reads reconciled, and the invariant they keep. *)
From S2P Require Import Prelude Text Protocol Fit Reducer Metadata Reconcile Session History.
From S2P Require Import Bridge.

Local Open Scope N_scope.

(** ** What an adapter may hand over *)

Definition refuse_adapter_body_available (t : Truncation) : checked :=
  invalid_if (opt_is (tr_reason_code t) TRUNCATION_BODY_AVAILABLE).

Definition NormalizedTimelineEntry_validate (e : NormalizedTimelineEntry) : checked :=
  valid_source_id (ne_source_id e) ?;
  valid_token (ne_state e) ?;
  valid_token (ne_kind e) ?;
  TimelineBody_validate_within (ne_body e) MAX_RETAINED_TEXT_BYTES ?;
  Truncation_validate (ne_truncation e) ?;
  refuse_adapter_body_available (ne_truncation e) ?;
  invalid_if ((ne_source_revision e =? 0) || (ne_timestamp e =? 0)).

Record NormalizedTextDelta := mkNormalizedTextDelta {
  nd_source_id : string;
  nd_source_revision : N;
  nd_timestamp : N;
  nd_kind : string;
  nd_delta : string;
  nd_final_chunk : bool;
  nd_truncation : Truncation
}.

Definition NormalizedTextDelta_validate (d : NormalizedTextDelta) : checked :=
  valid_source_id (nd_source_id d) ?;
  valid_token (nd_kind d) ?;
  Truncation_validate (nd_truncation d) ?;
  refuse_adapter_body_available (nd_truncation d) ?;
  invalid_if ((nd_source_revision d =? 0) || (nd_timestamp d =? 0)
              || (MAX_RETAINED_TEXT_BYTES <? slen (nd_delta d))).

Section timeline.
(** The size [serde_json] encodes a frame or a metadata file to, and whether the metadata file
    could be replaced. The clock is read once per operation, as [now]. *)
Context (encoded_frame_len : AgentServerFrame -> N) (encoded_len : AgentMetadataFile -> N)
  (write_private : AgentMetadataFile -> bool).

(** The end [upsert_bridge_entry] and [append_bridge_text] share: bound, bump, window, attention,
    the entry's delta, and the word on an evicted start. *)
Definition publish_entry (now : N) (canonical : TimelineEntry) (s : LiveSession) : LiveSession :=
  let '(s, start_evicted) := enforce_history_bound s in
  let base_revision := ss_revision (ls_snapshot s) in
  let s := refresh_snapshot_window encoded_frame_len (bump_revision now s) in
  let '(s, attention) := clear_hook_attention s in
  let s := send (entry_delta encoded_frame_len base_revision canonical attention s) s in
  publish_evicted_start now start_evicted s.

Definition upsert_bridge_entry (now id_draw : N) (entry : NormalizedTimelineEntry) (s : LiveSession)
  : LiveSession * result BridgeError unit :=
  match NormalizedTimelineEntry_validate entry with
  | Err _ => (s, Err InvalidInput)
  | Ok _ =>
      let '(s, canonical) := normalize_entry id_draw entry s in
      match List.find (same_entry canonical) (ls_history s) with
      | Some existing =>
          if te_entry_revision canonical <=? te_entry_revision existing then (s, Ok tt)
          else (publish_entry now canonical
                  (set_ls_history (update_first (same_entry canonical) (fun _ => canonical) (ls_history s)) s),
                Ok tt)
      | None => (publish_entry now canonical (push_sorted canonical s), Ok tt)
      end
  end.

(** ** Appending text *)

Definition chunk_state (final_chunk : bool) : string :=
  if final_chunk then "complete" else "streaming".

Definition cut_note (reason : string) (original_bytes : N) : Truncation :=
  mkTruncation true (Some reason) (Some original_bytes).

(** The row a chunk leaves, from the row and its text. *)
Definition appended (delta : NormalizedTextDelta) (existing : TimelineEntry) (text : string) : TimelineEntry :=
  let gap := negb (nd_source_revision delta =? sat_add64 (te_entry_revision existing) 1) in
  let original_bytes :=
    sat_add64 (default (slen text) (tr_original_bytes (te_truncation existing))) (slen (nd_delta delta)) in
  let '(text, overflowed) := truncate_utf8 (text +:+ nd_delta delta) MAX_RETAINED_TEXT_BYTES in
  let truncation :=
    if negb (tr_truncated (te_truncation existing)) then
      if gap then cut_note "adapter_delta_gap" original_bytes
      else if tr_truncated (nd_truncation delta) then nd_truncation delta
      else te_truncation existing
    else te_truncation existing in
  let truncation := if overflowed : bool then cut_note "adapter_bound" original_bytes else truncation in
  mkTimelineEntry (te_entry_id existing) (nd_source_revision delta) (te_sequence existing)
    (nd_timestamp delta) (chunk_state (nd_final_chunk delta)) (te_kind existing) (Text text) truncation.

(** The first chunk of a source, as an entry. *)
Definition first_chunk (delta : NormalizedTextDelta) : NormalizedTimelineEntry :=
  mkNormalizedTimelineEntry (nd_source_id delta) (nd_source_revision delta) (nd_timestamp delta)
    (chunk_state (nd_final_chunk delta)) (nd_kind delta) (Text (nd_delta delta))
    (if negb (nd_source_revision delta =? 1) && negb (tr_truncated (nd_truncation delta))
     then cut_note "adapter_delta_gap" (slen (nd_delta delta)) else nd_truncation delta).

Definition append_bridge_text (now id_draw : N) (delta : NormalizedTextDelta) (s : LiveSession)
  : LiveSession * result BridgeError unit :=
  match NormalizedTextDelta_validate delta with
  | Err _ => (s, Err InvalidInput)
  | Ok _ =>
      if is_some_and (fun revision => nd_source_revision delta <=? revision)
           (previous_source_revision s (nd_source_id delta))
         || is_some_and sm_settled (source_mapping s (nd_source_id delta))
      then (s, Ok tt)
      else match source_mapping s (nd_source_id delta) with
           | Some mapping =>
               match List.find (entry_named (sm_entry_id mapping)) (ls_history s) with
               | None => (s, Err SourceWithoutEntry)
               | Some existing =>
                   if negb (te_kind existing =s? nd_kind delta) then (s, Err KindChanged)
                   else match te_body existing with
                        | Text text =>
                            let canonical := appended delta existing text in
                            (publish_entry now canonical
                               (set_ls_history (update_first (entry_named (sm_entry_id mapping))
                                  (fun _ => canonical) (ls_history s)) s), Ok tt)
                        | _ => (s, Err NonTextEntry)
                        end
               end
           | None =>
               let '(s, canonical) := normalize_entry id_draw (first_chunk delta) s in
               (publish_entry now canonical
                  (if existsb (same_entry canonical) (ls_history s) then s else push_sorted canonical s), Ok tt)
           end
  end.

(** ** Replacing and reconciling *)

(** The loop over a snapshot's entries: each revision moved past the one held, each entry
    normalized under its source. *)
Definition replaced_entries (id_draw : nat -> N) (entries : list NormalizedTimelineEntry) (s : LiveSession)
  : LiveSession * list TimelineEntry :=
  foldl (fun '(s, history) '(position, entry) =>
           let entry :=
             match previous_source_revision s (ne_source_id entry) with
             | Some previous =>
                 if ne_source_revision entry <=? previous
                 then mkNormalizedTimelineEntry (ne_source_id entry) (N.max (sat_add64 previous 1) 1)
                        (ne_timestamp entry) (ne_state entry) (ne_kind entry) (ne_body entry) (ne_truncation entry)
                 else entry
             | None => entry
             end in
           let '(s, canonical) := normalize_entry (id_draw position) entry s in
           (s, history ++ [canonical]))
    (s, []) (imap pair entries).

(** Entries a session inherits are numbered from 1, and its own are shifted above them. *)
Definition carried_over (carried history : list TimelineEntry) (s : LiveSession)
  : LiveSession * list TimelineEntry :=
  let count := len carried in
  let shift sequence := sat_add64 sequence count in
  let sources := (fun m => mkSourceEntryMapping (sm_entry_id m) (shift (sm_sequence m)) (sm_settled m))
                   <$> ls_source_entries s in
  (set_ls_next_sequence (shift (ls_next_sequence s)) (set_ls_source_entries sources s),
   imap (fun index entry => set_te_sequence (N.of_nat index + 1) entry) carried
   ++ ((fun entry => set_te_sequence (shift (te_sequence entry)) entry) <$> history)).

(** [bump_revision; refresh_snapshot_window; send(ResyncRequired); update_revision]. *)
Definition publish_rewrite (now : N) (reason : string) (metadata : AgentMetadataStore) (s : LiveSession)
  : AgentMetadataStore * LiveSession * result BridgeError unit :=
  let s := refresh_snapshot_window encoded_frame_len (bump_revision now s) in
  let s := send_resync reason s in
  match update_revision encoded_len write_private metadata (ss_session_id (ls_snapshot s))
          (ss_revision (ls_snapshot s)) now with
  | (metadata, Ok _) => (metadata, s, Ok tt)
  | (metadata, Err e) => (metadata, s, Err (MetadataFailed e))
  end.

Definition each_entry_valid (entries : list NormalizedTimelineEntry) : bool :=
  forallb (fun entry => is_ok (NormalizedTimelineEntry_validate entry)) entries.

(** [carried] is what the supervisor removed from its carried history for this session. *)
Definition replace_bridge_snapshot_covering (now : N) (id_draw : nat -> N) (epoch_draws : list N)
    (carried : option (list TimelineEntry)) (entries : list NormalizedTimelineEntry)
    (history_complete : option bool) (metadata : AgentMetadataStore) (s : LiveSession)
  : AgentMetadataStore * LiveSession * result BridgeError unit :=
  if MAX_HOST_TIMELINE_ENTRIES <? len entries then (metadata, s, Err BoundExceeded)
  else if negb (each_entry_valid entries) then (metadata, s, Err InvalidInput)
  else
  let held := collected (held_sequences s) in
  let '(s, history) := replaced_entries id_draw entries s in
  let history := sort_by_key te_sequence history in
  let s := set_ls_source_entries
    (filter (fun '(source, _) => existsb (fun entry => ne_source_id entry =s? source) entries = true)
       (ls_source_entries s)) s in
  let '(s, history) :=
    if negb (ac_history (ss_capabilities (ls_snapshot s)) =s? "full") then
      match carried with Some carried => carried_over carried history s | None => (s, history) end
    else (s, history) in
  let s := set_ls_history history s in
  match fence_rewritten_history encoded_len write_private metadata s held epoch_draws now with
  | (metadata, s, Err e) => (metadata, s, Err (MetadataFailed e))
  | (metadata, s, Ok _) =>
      let '(s, cut_by_bound) := enforce_history_bound s in
      let s := match history_complete with
               | Some complete => (set_history_coverage (complete && negb cut_by_bound) s).1
               | None => if cut_by_bound : bool then (set_history_coverage false s).1 else s
               end in
      publish_rewrite now "snapshot_reconciled" metadata s
  end.

Record TurnMark := mkTurnMark { tm_snapshot_epoch : N; tm_next_sequence : N }.
Record TurnScope := mkTurnScope { sc_from_turn_start : bool; sc_mark : option TurnMark }.

(** The mark of another epoch was taken over other numbers. *)
Definition scoped_mode (mode : ReconcileMode) (scope : TurnScope) (s : LiveSession) : ReconcileMode :=
  match mode with
  | Turn _ _ =>
      Turn (sc_from_turn_start scope)
        (mark ← sc_mark scope;
         if tm_snapshot_epoch mark =? ss_snapshot_epoch (ls_snapshot s)
         then Some (tm_next_sequence mark) else None)
  | Backfill complete => Backfill complete
  end.

Definition held_entries (s : LiveSession) : list HeldEntry :=
  (fun entry => mkHeldEntry entry (live_sources (ls_source_entries s) !! te_entry_id entry)) <$> ls_history s.

Definition reconcile_bridge_history (now : N) (id_draw : nat -> N) (epoch_draws : list N)
    (process_generation : option N) (authority : list NormalizedTimelineEntry) (mode : ReconcileMode)
    (live_only_prefix : option string) (scope : TurnScope) (metadata : AgentMetadataStore) (s : LiveSession)
  : AgentMetadataStore * LiveSession * result BridgeError unit :=
  if MAX_HOST_TIMELINE_ENTRIES <? len authority then (metadata, s, Err BoundExceeded)
  else if negb (each_entry_valid authority) then (metadata, s, Err InvalidInput)
  else if is_some_and (fun generation => negb (generation =? ss_process_generation (ls_snapshot s)))
            process_generation then (metadata, s, Ok tt)
  else
    let mode := scoped_mode mode scope s in
    match plan_reconcile (held_entries s) authority mode live_only_prefix with
    | None => (metadata, s, Ok tt)
    | Some plan =>
        let before := collected (held_sequences s) in
        let '(s, rewritten) := apply_reconcile_plan plan authority id_draw s in
        match fence_rewritten_history encoded_len write_private metadata s before epoch_draws now with
        | (metadata, s, Err e) => (metadata, s, Err (MetadataFailed e))
        | (metadata, s, Ok fenced) =>
            let '(s, cut_by_bound) := enforce_history_bound s in
            let '(s, coverage_changed) :=
              match mode with
              | Backfill complete => set_history_coverage (complete && negb cut_by_bound) s
              | Turn _ _ => if cut_by_bound : bool then set_history_coverage false s else (s, false)
              end in
            if negb rewritten && negb fenced && negb cut_by_bound && negb coverage_changed
            then (metadata, s, Ok tt)
            else publish_rewrite now "history_reconciled" metadata s
        end
    end.
End timeline.

(** ** Reading a timeline *)

Definition turn_mark (s : LiveSession) : TurnMark :=
  mkTurnMark (ss_snapshot_epoch (ls_snapshot s)) (ls_next_sequence s).

Definition holds_source (s : LiveSession) (source_id : string) : bool := is_some (source_mapping s source_id).

Definition awaits_history (s : LiveSession) : bool :=
  (len (ls_history s) =? 0)
  && opt_is (tw_history_boundary (ss_timeline_window (ls_snapshot s))) "resume".

Section reading.
(** What [serde_json] encodes a frame or a list of entries to. *)
Context (encoded_frame_len : AgentServerFrame -> N) (page_bytes : list TimelineEntry -> N).

(** The loop that drops a page's oldest entry while it is too large. *)
Fixpoint page_within (entries : list TimelineEntry) : list TimelineEntry :=
  match entries with
  | [] => []
  | _ :: rest => if MAX_TIMELINE_PAGE_BYTES <? page_bytes entries then page_within rest else entries
  end.

Definition page (session_id : string) (before_sequence limit : N) (s : LiveSession) : option TimelinePage :=
  if (limit =? 0) || (MAX_TIMELINE_PAGE_ENTRIES <? limit) then None
  else
    let candidates := fit_entry_alone encoded_frame_len
      <$> take (N.to_nat limit) (reverse (List.filter (fun e => te_sequence e <? before_sequence) (ls_history s))) in
    let entries := page_within (reverse candidates) in
    let has_older := is_some_and (fun first => existsb (fun e => te_sequence e <? te_sequence first) (ls_history s))
                       (head entries) in
    let next := if has_older then Some (default before_sequence (te_sequence <$> head entries)) else None in
    Some (mkTimelinePage AGENT_PROTOCOL_VERSION "agent_timeline_page" session_id
            (ss_snapshot_epoch (ls_snapshot s)) (ss_process_generation (ls_snapshot s)) entries has_older next
            (if page_bytes entries <=? u32_max then page_bytes entries else u32_max)).

Definition session_entry_body_frames (session_id entry_id : string) (s : LiveSession)
  : option (list AgentServerFrame) :=
  entry ← List.find (entry_named entry_id) (ls_history s);
  match te_body entry with
  | Text text =>
      Some (entry_body_frames encoded_frame_len session_id (ss_snapshot_epoch (ls_snapshot s))
              (ss_process_generation (ls_snapshot s)) entry_id (te_entry_revision entry)
              (te_truncation entry) text)
  | _ => None
  end.
End reading.

(** ** The invariant of a session's timeline *)

Record timeline_ok (s : LiveSession) : Prop := mk_timeline_ok {
  to_next : 0 < ls_next_sequence s;
  to_numbered : numbered_below (ls_next_sequence s) (ls_history s);
  to_valid : Forall (fun e => retained_valid e = Ok tt) (ls_history s);
  to_ids : NoDup (te_entry_id <$> ls_history s);
  to_sources : sources_ok s;
  to_window : window_valid (ss_timeline_window (ls_snapshot s))
}.

(** The window a subscriber opens on shows the newest rows the session holds. *)
Definition window_current (s : LiveSession) : Prop :=
  row_of <$> tw_entries (ss_timeline_window (ls_snapshot s))
  = row_of <$> drop (length (ls_history s) - N.to_nat MAX_TIMELINE_PAGE_ENTRIES) (ls_history s).

(** The rows the host bound leaves of a timeline. *)
Definition bounded (rows : list TimelineEntry) : list TimelineEntry :=
  (evict_loop (S (length rows)) (history_bytes rows) rows ∅ false).1.1.

Lemma evict_loop_rows fuel bytes rows sources sources' evicted evicted' :
  (evict_loop fuel bytes rows sources evicted).1.1 = (evict_loop fuel bytes rows sources' evicted').1.1.
Proof.
  revert bytes rows sources sources' evicted evicted'.
  induction fuel as [|fuel IH]; intros; [done|]. cbn [evict_loop].
  destruct (over_bound _ _); [|done]. destruct (rows !! _); [apply IH|done].
Qed.

Lemma enforce_history_bound_rows s : ls_history (enforce_history_bound s).1 = bounded (ls_history s).
Proof.
  unfold enforce_history_bound, bounded.
  rewrite (evict_loop_rows _ _ _ ∅ (ls_source_entries s) false false).
  by destruct (evict_loop _ _ _ (ls_source_entries s) _) as [[??]?].
Qed.

(** A session whose rows, sources and numbering are the same, under a valid window, is as sound. *)
Lemma timeline_ok_same s s' :
  timeline_ok s -> ls_history s' = ls_history s -> ls_source_entries s' = ls_source_entries s ->
  ls_next_sequence s' = ls_next_sequence s -> window_valid (ss_timeline_window (ls_snapshot s')) ->
  timeline_ok s'.
Proof.
  intros [] Hh Hs Hn Hw. split; unfold sources_ok in *; rewrite ?Hh, ?Hs, ?Hn; done.
Qed.

Lemma enforce_history_bound_ok s :
  timeline_ok s -> timeline_ok (enforce_history_bound s).1.
Proof.
  intros [Hnext [Hsort Hbelow] Hval Hids Hsrc Hw]. unfold enforce_history_bound.
  pose proof (evict_loop_spec (S (length (ls_history s))) (ls_history s) (ls_source_entries s) false
    ltac:(lia)) as Hspec.
  destruct (evict_loop _ _ _ _ _) as [[history sources] evicted]. cbn [fst].
  destruct Hspec as (_ & Hsub & Hold & Hkept & _). split; cbn; try done.
  - split; [by eapply StronglySorted_sublist|by eapply Forall_sublist].
  - by eapply Forall_sublist.
  - by eapply NoDup_fmap_sublist.
  - intros source m Hm. cbn in *. destruct (Hsrc _ _ (Hold _ _ Hm)) as (e & He & Hid & Hseq).
    destruct (Hkept _ _ _ Hm He Hid) as (e' & He' & Hid'). exists e'. split_and!; [done..|].
    assert (e' = e) as ->; [|done]. eapply (NoDup_fmap_inj_elem te_entry_id); [exact Hids| |done|congruence].
    by eapply sublist_subset.
Qed.

Lemma set_history_coverage_window complete s :
  window_valid (ss_timeline_window (ls_snapshot s)) ->
  window_valid (ss_timeline_window (ls_snapshot (set_history_coverage complete s).1)).
Proof. intros []. unfold set_history_coverage. by destruct complete; split. Qed.

Lemma publish_evicted_start_ok now evicted s :
  timeline_ok s -> timeline_ok (publish_evicted_start now evicted s).
Proof.
  intros Hok. pose proof (set_history_coverage_window false s (to_window s Hok)) as Hw.
  unfold publish_evicted_start, set_history_coverage in *. cbn [history_coverage fst] in Hw |- *.
  repeat case_match; [done| |]; by apply (timeline_ok_same s).
Qed.

Lemma publish_entry_ok encoded_frame_len now canonical s :
  timeline_ok s ->
  let s' := publish_entry encoded_frame_len now canonical s in
  timeline_ok s' /\ window_current s' /\ ls_history s' = bounded (ls_history s).
Proof.
  intros Hok%enforce_history_bound_ok. cbn zeta. rewrite <- enforce_history_bound_rows. unfold publish_entry.
  destruct (enforce_history_bound s) as [s1 evicted]. cbn [fst] in *.
  set (s2 := refresh_snapshot_window encoded_frame_len (bump_revision now s1)).
  destruct (refresh_window_valid encoded_frame_len (bump_revision now s1)) as (Hw & Hrows & _).
  { destruct Hok as [_ [? _] ? _ _ _]. by split. } { apply Hok. }
  fold s2 in Hw, Hrows. assert (timeline_ok s2) as Hok2 by (by apply (timeline_ok_same s1)).
  assert (ls_history s2 = ls_history s1) as Hh by done. clearbody s2.
  destruct (clear_hook_attention s2) as [s3 attention] eqn:Hc.
  assert (timeline_ok s3 /\ ls_history s3 = ls_history s2
    /\ ss_timeline_window (ls_snapshot s3) = ss_timeline_window (ls_snapshot s2)) as (Hok3 & Hh3 & Hw3).
  { unfold clear_hook_attention in Hc. case_match; injection Hc as <- <-; [done|].
    split; [|done]. apply (timeline_ok_same s2); [done..|apply Hok2]. }
  set (s4 := send _ s3). assert (timeline_ok s4) as Hok4
    by (apply (timeline_ok_same s3); [done..|apply Hok3]).
  split; [by apply publish_evicted_start_ok|].
  assert (forall x, ls_history (publish_evicted_start now evicted x) = ls_history x
    /\ tw_entries (ss_timeline_window (ls_snapshot (publish_evicted_start now evicted x)))
       = tw_entries (ss_timeline_window (ls_snapshot x))) as Hpub.
  { intros x. unfold publish_evicted_start, set_history_coverage. cbn [history_coverage]. by repeat case_match. }
  destruct (Hpub s4) as [Hh4 Hw4]. unfold window_current. rewrite Hh4, Hw4.
  change (ls_history s4) with (ls_history s3). change (ls_snapshot s4) with (ls_snapshot s3).
  rewrite Hh3, Hh, Hw3. done.
Qed.

(** ** One row written *)

(** What a source is mapped to: a row's id and sequence. *)
Definition row_key (e : TimelineEntry) : string * N := (te_entry_id e, te_sequence e).

(** The row a source's entry becomes. *)
Definition entry_row (entry_id : string) (sequence : N) (entry : NormalizedTimelineEntry) : TimelineEntry :=
  mkTimelineEntry entry_id (ne_source_revision entry) sequence (ne_timestamp entry) (ne_state entry)
    (ne_kind entry) (ne_body entry) (ne_truncation entry).

Lemma entry_row_valid entry_id sequence entry :
  NormalizedTimelineEntry_validate entry = Ok tt -> valid_opaque_id entry_id = Ok tt -> 0 < sequence ->
  retained_valid (entry_row entry_id sequence entry) = Ok tt.
Proof.
  unfold NormalizedTimelineEntry_validate, refuse_adapter_body_available, retained_valid, invalid_if.
  rewrite !rbind_unit_ok, !refuse_if_ok. intros (_ & Hst & Hk & Hb & Ht & Ha & Hz) Hid Hseq. b2p.
  split_and!; try done. cbn. by rewrite !orb_false_iff, !N.eqb_neq; split_and!; [|lia|].
Qed.

Lemma row_written s held row :
  timeline_ok s -> List.find (entry_named (te_entry_id row)) (ls_history s) = Some held ->
  te_sequence row = te_sequence held -> retained_valid row = Ok tt ->
  timeline_ok (set_ls_history (update_first (entry_named (te_entry_id row)) (fun _ => row) (ls_history s)) s).
Proof.
  intros [Hnext [Hsort Hbelow] Hval Hids Hsrc Hw] Hf Hseq Hv.
  pose proof (find_some_elem _ _ _ Hf) as [Hin Hid%String.eqb_eq].
  set (rows := update_first _ _ _).
  assert (te_sequence <$> rows = te_sequence <$> ls_history s) as Hseqs
    by (apply (update_first_held te_sequence _ held); [done|congruence]).
  assert (te_entry_id <$> rows = te_entry_id <$> ls_history s) as Hnames
    by (apply (update_first_held te_entry_id _ held); [done|congruence]).
  assert (row_key <$> rows = row_key <$> ls_history s) as Hkeys.
  { apply (update_first_held row_key _ held); [done|]. unfold row_key. congruence. }
  split; cbn -[rows]; try done.
  - split.
    + apply (proj2 (key_lt_fmap te_sequence _)). rewrite Hseqs. by apply (proj1 (key_lt_fmap te_sequence _)).
    + apply (Forall_fmap te_sequence (fun n => 0 < n < ls_next_sequence s)). rewrite Hseqs. by apply Forall_fmap.
  - by apply update_first_Forall.
  - by rewrite Hnames.
  - intros source m Hm. destruct (Hsrc _ _ Hm) as (e & He & He1 & He2).
    assert (row_key e ∈ row_key <$> rows) as (e' & He' & Hin')%list_elem_of_fmap
      by (rewrite Hkeys; by apply list_elem_of_fmap_2).
    exists e'. unfold row_key in He'. split_and!; [done|congruence..].
Qed.

Lemma row_pushed s source row :
  timeline_ok s -> ls_next_sequence s < u64_max -> te_sequence row = ls_next_sequence s ->
  te_entry_id row ∉ te_entry_id <$> ls_history s -> retained_valid row = Ok tt ->
  let mapping := mkSourceEntryMapping (te_entry_id row) (ls_next_sequence s) false in
  let s' := push_sorted row (set_ls_next_sequence (N.max (sat_add64 (ls_next_sequence s) 1) 1)
              (set_ls_source_entries (<[source := mapping]> (ls_source_entries s)) s)) in
  timeline_ok s' /\ ls_history s' = ls_history s ++ [row].
Proof.
  intros [Hnext [Hsort Hbelow] Hval Hids Hsrc Hw] Hmax Hseq Hid Hv. cbn zeta.
  set (s' := push_sorted _ _).
  assert (ls_history s' = ls_history s ++ [row]) as Hh.
  { change (ls_history s') with (sort_by_key te_sequence (ls_history s ++ [row])). rewrite sort_by_key_snoc.
    - by rewrite sort_by_key_id by by apply key_lt_le.
    - eapply Forall_impl; [exact Hbelow|]. cbn. lia. }
  split; [|done]. assert (ls_next_sequence s' = ls_next_sequence s + 1) as Hn
    by (unfold s', push_sorted, sat_add64; cbn -[u64_max N.add]; lia).
  split; unfold sources_ok; rewrite ?Hh, ?Hn.
  - lia.
  - split.
    + apply StronglySorted_join; [done|by repeat constructor|].
      intros x y Hx ->%list_elem_of_singleton. rewrite Forall_forall in Hbelow. specialize (Hbelow x Hx).
      unfold key_lt. cbn in Hbelow. lia.
    + apply Forall_app. split; [|by repeat constructor; lia].
      eapply Forall_impl; [exact Hbelow|]. cbn. lia.
  - apply Forall_app. by split; [|repeat constructor].
  - apply NoDup_fmap_snoc; [done|]. apply Forall_forall. intros e He Heq. apply Hid. rewrite <- Heq.
    by apply list_elem_of_fmap_2.
  - intros source' m Hm. change (ls_source_entries s')
      with (<[source := mkSourceEntryMapping (te_entry_id row) (ls_next_sequence s) false]> (ls_source_entries s)) in Hm.
    apply lookup_insert_Some in Hm as [[_ <-]|[_ Hm]].
    + exists row. split_and!; [set_solver|done|done].
    + destruct (Hsrc _ _ Hm) as (e & He & ? & ?). exists e. split_and!; [set_solver|done..].
  - done.
Qed.

Lemma random_id_valid draw : valid_opaque_id (random_id draw) = Ok tt.
Proof. apply format_u128_valid. Qed.

Lemma mapped_row s source mapping :
  timeline_ok s -> source_mapping s source = Some mapping ->
  exists held, List.find (entry_named (sm_entry_id mapping)) (ls_history s) = Some held
    /\ te_entry_id held = sm_entry_id mapping /\ te_sequence held = sm_sequence mapping
    /\ valid_opaque_id (te_entry_id held) = Ok tt /\ 0 < te_sequence held
    /\ retained_valid held = Ok tt.
Proof.
  intros [_ [_ Hbelow] Hval Hids Hsrc _] Hm. destruct (Hsrc _ _ Hm) as (e & He & Hid & Hseq).
  exists e. rewrite Forall_forall in Hbelow, Hval. specialize (Hbelow e He). pose proof (Hval e He) as Hv.
  cbn in Hbelow, Hv. split_and!; try done; try lia.
  - eapply (find_unique te_entry_id); [done..|]. intros y. unfold entry_named. rewrite String.eqb_eq. by rewrite Hid.
  - unfold retained_valid in Hv. rewrite !rbind_unit_ok in Hv. by destruct Hv.
Qed.

Lemma same_named entry : same_entry entry = entry_named (te_entry_id entry).
Proof. done. Qed.

(** A row written over, and published. *)
Lemma written_published encoded_frame_len now s held row :
  timeline_ok s -> List.find (entry_named (te_entry_id row)) (ls_history s) = Some held ->
  te_sequence row = te_sequence held -> retained_valid row = Ok tt ->
  let rows := update_first (entry_named (te_entry_id row)) (fun _ => row) (ls_history s) in
  let s' := publish_entry encoded_frame_len now row (set_ls_history rows s) in
  timeline_ok s' /\ window_current s' /\ ls_history s' = bounded rows.
Proof. intros Hok Hf Hseq Hv. by apply publish_entry_ok, (row_written s held). Qed.

(** A row drawn for a source seen for the first time, and published. *)
Lemma drawn_published encoded_frame_len now id_draw entry s :
  timeline_ok s -> ls_next_sequence s < u64_max -> random_id id_draw ∉ te_entry_id <$> ls_history s ->
  source_mapping s (ne_source_id entry) = None -> NormalizedTimelineEntry_validate entry = Ok tt ->
  let '(s1, row) := normalize_entry id_draw entry s in
  let s' := publish_entry encoded_frame_len now row (push_sorted row s1) in
  row = entry_row (random_id id_draw) (ls_next_sequence s) entry
  /\ ls_history s1 = ls_history s
  /\ timeline_ok s' /\ window_current s' /\ ls_history s' = bounded (ls_history s ++ [row]).
Proof.
  intros Hok Hmax Hfresh Hsrc Hv. unfold normalize_entry. rewrite Hsrc.
  set (row := mkTimelineEntry _ _ _ _ _ _ _ _).
  assert (row = entry_row (random_id id_draw) (ls_next_sequence s) entry) as Hrow by done.
  destruct (row_pushed s (ne_source_id entry) row Hok Hmax) as [Hok' Hh]; [done|done| |].
  { rewrite Hrow. apply entry_row_valid; [done|apply random_id_valid|apply Hok]. }
  destruct (publish_entry_ok encoded_frame_len now row _ Hok') as (H1 & H2 & H3).
  split_and!; [done..|]. by rewrite <- Hh.
Qed.

(** An entry an adapter hands over keeps the timeline sound, and leaves exactly the rows the
    adapter's revisions call for: an invalid entry changes nothing; a source seen for the first
    time appends one row at the session's next sequence; a known source's row is rewritten in place
    by a newer revision and untouched by any other; then the host bound applies, and the window a
    subscriber opens on shows the newest rows. *)
Theorem upsert_bridge_entry_spec encoded_frame_len now id_draw entry s :
  timeline_ok s -> ls_next_sequence s < u64_max -> random_id id_draw ∉ te_entry_id <$> ls_history s ->
  let '(s', r) := upsert_bridge_entry encoded_frame_len now id_draw entry s in
  timeline_ok s' /\
  match NormalizedTimelineEntry_validate entry with
  | Err _ => s' = s /\ r = Err InvalidInput
  | Ok _ =>
      r = Ok tt /\
      match source_mapping s (ne_source_id entry) with
      | None =>
          ls_history s' = bounded (ls_history s ++ [entry_row (random_id id_draw) (ls_next_sequence s) entry])
          /\ window_current s'
      | Some m => exists held,
          List.find (entry_named (sm_entry_id m)) (ls_history s) = Some held
          /\ if ne_source_revision entry <=? te_entry_revision held then s' = s
             else ls_history s' = bounded (update_first (entry_named (sm_entry_id m))
                                    (fun _ => entry_row (sm_entry_id m) (sm_sequence m) entry) (ls_history s))
                  /\ window_current s'
      end
  end.
Proof.
  intros Hok Hmax Hfresh. unfold upsert_bridge_entry.
  destruct (NormalizedTimelineEntry_validate entry) as [[]|e] eqn:Hv; [|done].
  destruct (source_mapping s (ne_source_id entry)) as [m|] eqn:Hm.
  - destruct (mapped_row s _ m Hok Hm) as (held & Hf & Hid & Hseq & Hvid & Hpos & Hvh).
    unfold normalize_entry. rewrite Hm.
    change (mkTimelineEntry _ _ _ _ _ _ _ _) with (entry_row (sm_entry_id m) (sm_sequence m) entry).
    rewrite same_named. change (te_entry_id (entry_row _ _ _)) with (sm_entry_id m). rewrite Hf.
    change (te_entry_revision (entry_row _ _ _)) with (ne_source_revision entry).
    destruct (ne_source_revision entry <=? te_entry_revision held) eqn:Hrev.
    { split_and!; [done..|]. exists held. by rewrite Hrev. }
    destruct (written_published encoded_frame_len now s held (entry_row (sm_entry_id m) (sm_sequence m) entry))
      as (H1 & H2 & H3); [done..| |].
    { apply entry_row_valid; [done|congruence|lia]. }
    split_and!; [done..|]. exists held. by rewrite Hrev.
  - pose proof (drawn_published encoded_frame_len now id_draw entry s Hok Hmax Hfresh Hm Hv) as H.
    destruct (normalize_entry id_draw entry s) as [s1 row]. destruct H as (-> & Hh1 & H1 & H2 & H3).
    rewrite Hh1. replace (List.find _ (ls_history s)) with (@None TimelineEntry); [by split_and!|].
    symmetry. apply find_none_forall, Forall_forall. intros e He. apply String.eqb_neq. intros Heq.
    apply Hfresh. change (random_id id_draw) with (te_entry_id (entry_row (random_id id_draw) (ls_next_sequence s) entry)).
    rewrite <- Heq. by apply list_elem_of_fmap_2.
Qed.

(** ** Text appended *)

Lemma cut_note_ok reason original_bytes :
  valid_token reason = Ok tt -> reason <> TRUNCATION_BODY_AVAILABLE ->
  Truncation_validate (cut_note reason original_bytes) = Ok tt
  /\ opt_is (tr_reason_code (cut_note reason original_bytes)) TRUNCATION_BODY_AVAILABLE = false.
Proof.
  intros Ht Hne. unfold Truncation_validate, cut_note, invalid_if. cbn [tr_reason_code tr_truncated opt_each].
  rewrite Ht. split; [done|]. by apply String.eqb_neq.
Qed.

(** The text a chunk leaves: what the row held and the chunk after it, cut on a character
    boundary at the retained bound; a cut or a skipped revision is noted in the row, and a row
    without either carries no note it did not have. *)
Theorem appended_text delta existing text :
  exists i,
    let whole := (text +:+ nd_delta delta)%string in
    is_char_boundary whole i = true
    /\ te_body (appended delta existing text) = Text (stake i whole)
    /\ slen (stake i whole) <= MAX_RETAINED_TEXT_BYTES
    /\ (slen whole <= MAX_RETAINED_TEXT_BYTES -> stake i whole = whole)
    /\ (MAX_RETAINED_TEXT_BYTES < slen whole ->
          opt_is (tr_reason_code (te_truncation (appended delta existing text))) "adapter_bound" = true)
    /\ (nd_source_revision delta <> sat_add64 (te_entry_revision existing) 1 ->
          tr_truncated (te_truncation (appended delta existing text)) = true)
    /\ (slen whole <= MAX_RETAINED_TEXT_BYTES -> nd_source_revision delta = sat_add64 (te_entry_revision existing) 1 ->
        tr_truncated (nd_truncation delta) = false ->
          te_truncation (appended delta existing text) = te_truncation existing).
Proof.
  unfold appended. destruct (truncate_utf8 _ _) as [out cut] eqn:Ht.
  destruct (truncate_utf8_spec _ _ _ _ Ht) as (i & Hb & Ho & Hlen & Hwhole & Hcut & _).
  exists i. cbn zeta. rewrite <- Ho.
  assert (cut = (MAX_RETAINED_TEXT_BYTES <? slen (text +:+ nd_delta delta))) as Hc.
  { destruct cut; [symmetry; apply N.ltb_lt; auto|]. rewrite <- (Hwhole eq_refl). symmetry. apply N.ltb_ge. lia. }
  split_and!; cbn [te_body te_truncation]; try done; try lia.
  - intros Hle. rewrite (proj2 (N.ltb_ge _ _) Hle) in Hc. by apply Hwhole.
  - intros Hlt. by rewrite Hc, (proj2 (N.ltb_lt _ _) Hlt).
  - intros Hgap. rewrite (proj2 (N.eqb_neq _ _) Hgap). cbn [negb].
    destruct cut; [done|]. destruct (tr_truncated (te_truncation existing)) eqn:Htr; cbn [negb]; done.
  - intros Hle Hgap Hd. rewrite (proj2 (N.ltb_ge _ _) Hle) in Hc. subst cut.
    rewrite (proj2 (N.eqb_eq _ _) Hgap), Hd. cbn [negb]. by case_match.
Qed.

Lemma appended_valid delta existing text :
  NormalizedTextDelta_validate delta = Ok tt -> retained_valid existing = Ok tt ->
  te_body existing = Text text -> retained_valid (appended delta existing text) = Ok tt.
Proof.
  unfold NormalizedTextDelta_validate, refuse_adapter_body_available, retained_valid, invalid_if.
  rewrite !rbind_unit_ok, !refuse_if_ok. intros (_ & _ & Hdt & Hda & Hz) (Hid & Hpos & _ & Hk & _ & Ht & Ha) _.
  unfold appended. destruct (truncate_utf8 _ _) as [out cut] eqn:Hcut.
  destruct (truncate_utf8_spec _ _ _ _ Hcut) as (_ & _ & _ & Hlen & _).
  cbn [te_entry_id te_entry_revision te_sequence te_timestamp te_state te_kind te_body te_truncation].
  set (note := if cut then _ else _).
  assert (Truncation_validate note = Ok tt /\ opt_is (tr_reason_code note) TRUNCATION_BODY_AVAILABLE = false) as [Hn1 Hn2].
  { unfold note. repeat case_match; first [done|apply cut_note_ok; [by vm_compute|done]]. }
  b2p. split_and!; try done.
  - by rewrite !orb_false_iff, !N.eqb_neq.
  - unfold chunk_state. by case_match.
  - cbn. rewrite (proj2 (N.leb_le _ _)); [done|lia].
Qed.

Lemma first_chunk_valid delta :
  NormalizedTextDelta_validate delta = Ok tt -> NormalizedTimelineEntry_validate (first_chunk delta) = Ok tt.
Proof.
  unfold NormalizedTextDelta_validate, NormalizedTimelineEntry_validate, refuse_adapter_body_available, invalid_if.
  rewrite !rbind_unit_ok, !refuse_if_ok. intros (Hs & Hk & Ht & Ha & Hz). b2p. unfold first_chunk.
  cbn [ne_source_id ne_state ne_kind ne_body ne_truncation ne_source_revision ne_timestamp].
  set (note := if _ : bool then cut_note _ _ else _).
  assert (Truncation_validate note = Ok tt /\ opt_is (tr_reason_code note) TRUNCATION_BODY_AVAILABLE = false) as [Hn1 Hn2].
  { unfold note. case_match; [apply cut_note_ok; [by vm_compute|done]|done]. }
  split_and!; try done.
  - unfold chunk_state. by case_match.
  - cbn. by rewrite (proj2 (N.leb_le _ _)).
  - by rewrite !orb_false_iff, !N.eqb_neq.
Qed.

(** A chunk keeps the timeline sound and is answered by what its source already is: the first
    chunk starts a row; a chunk of a known source grows the row when it is newer, and is ignored
    when it is not or when the row was settled by the vendor's own record; a chunk of another kind,
    or for a row that is not text, is refused with nothing changed. A source that names no row, the
    one error left, cannot arise. *)
Theorem append_bridge_text_spec encoded_frame_len now id_draw delta s :
  timeline_ok s -> ls_next_sequence s < u64_max -> random_id id_draw ∉ te_entry_id <$> ls_history s ->
  let '(s', r) := append_bridge_text encoded_frame_len now id_draw delta s in
  timeline_ok s' /\
  match NormalizedTextDelta_validate delta with
  | Err _ => s' = s /\ r = Err InvalidInput
  | Ok _ =>
      match source_mapping s (nd_source_id delta) with
      | None =>
          r = Ok tt
          /\ ls_history s' = bounded (ls_history s
               ++ [entry_row (random_id id_draw) (ls_next_sequence s) (first_chunk delta)])
          /\ window_current s'
      | Some m => exists held,
          List.find (entry_named (sm_entry_id m)) (ls_history s) = Some held
          /\ if (nd_source_revision delta <=? te_entry_revision held) || sm_settled m then s' = s /\ r = Ok tt
             else if negb (te_kind held =s? nd_kind delta) then s' = s /\ r = Err KindChanged
             else match te_body held with
                  | Text text =>
                      r = Ok tt
                      /\ ls_history s' = bounded (update_first (entry_named (sm_entry_id m))
                           (fun _ => appended delta held text) (ls_history s))
                      /\ window_current s'
                  | _ => s' = s /\ r = Err NonTextEntry
                  end
      end
  end.
Proof.
  intros Hok Hmax Hfresh. unfold append_bridge_text.
  destruct (NormalizedTextDelta_validate delta) as [[]|e] eqn:Hv; [|done].
  unfold previous_source_revision.
  destruct (source_mapping s (nd_source_id delta)) as [m|] eqn:Hm; cbn [mbind option_bind is_some_and].
  - destruct (mapped_row s _ m Hok Hm) as (held & Hf & Hid & Hseq & Hvid & Hpos & Hvh).
    rewrite Hf. cbn [fmap option_fmap option_map is_some_and].
    destruct (_ || _) eqn:Hskip; [split; [done|]; exists held; by rewrite Hskip|].
    destruct (negb (te_kind held =s? nd_kind delta)) eqn:Hkind.
    { split; [done|]. exists held. by rewrite Hskip, Hkind. }
    destruct (te_body held) as [text| | |] eqn:Hbody;
      try (split; [done|]; exists held; by rewrite Hskip, Hkind, Hbody).
    assert (te_entry_id (appended delta held text) = sm_entry_id m) as Hrow
      by (unfold appended; by destruct (truncate_utf8 _ _)).
    rewrite <- Hrow in *.
    destruct (written_published encoded_frame_len now s held (appended delta held text)) as (H1 & H2 & H3); [done|done| | |].
    + unfold appended. by destruct (truncate_utf8 _ _).
    + by apply appended_valid.
    + split; [done|]. exists held. by rewrite Hskip, Hkind, Hbody.
  - pose proof (drawn_published encoded_frame_len now id_draw (first_chunk delta) s Hok Hmax Hfresh Hm
      (first_chunk_valid _ Hv)) as H.
    destruct (normalize_entry id_draw (first_chunk delta) s) as [s1 row]. destruct H as (-> & Hh1 & H1 & H2 & H3).
    assert (existsb (same_entry (entry_row (random_id id_draw) (ls_next_sequence s) (first_chunk delta)))
      (ls_history s1) = false) as ->; [|by split_and!].
    rewrite Hh1. apply existsb_false. intros e He. apply String.eqb_neq. intros Heq. apply Hfresh.
    change (random_id id_draw)
      with (te_entry_id (entry_row (random_id id_draw) (ls_next_sequence s) (first_chunk delta))).
    rewrite <- Heq. by apply list_elem_of_fmap_2.
Qed.

(** ** What a page shows *)

Lemma page_within_spec page_bytes (entries : list TimelineEntry) :
  exists k, page_within page_bytes entries = drop k entries
    /\ (page_within page_bytes entries = [] \/ page_bytes (page_within page_bytes entries) <= MAX_TIMELINE_PAGE_BYTES)
    /\ (forall j, (j < k)%nat -> MAX_TIMELINE_PAGE_BYTES < page_bytes (drop j entries)).
Proof.
  induction entries as [|e rest IH]; [exists 0%nat; split_and!; [done|by left|lia]|].
  cbn [page_within]. destruct (N.ltb_spec MAX_TIMELINE_PAGE_BYTES (page_bytes (e :: rest))) as [Hlt|Hle].
  - destruct IH as (k & Hk & Hfit & Hmax). exists (S k). split_and!; [done..|].
    intros [|j] Hj; [done|]. apply Hmax. lia.
  - exists 0%nat. split_and!; [done|by right|lia].
Qed.

Lemma filter_below before (history : list TimelineEntry) :
  StronglySorted (key_lt te_sequence) history ->
  exists k, List.filter (fun e => te_sequence e <? before) history = take k history
    /\ forall e, e ∈ drop k history -> before <= te_sequence e.
Proof.
  induction history as [|e history IH]; intros Hs; [exists 0%nat; split; [done|by intros e ?%not_elem_of_nil]|].
  apply StronglySorted_inv in Hs as [Hs Hall]. cbn. destruct (N.ltb_spec (te_sequence e) before) as [Hlt|Hge].
  - destruct (IH Hs) as (k & -> & Hk). by exists (S k).
  - exists 0%nat. split.
    + cbn. rewrite Forall_forall in Hall. destruct (List.filter _ history) as [|x l] eqn:Hf; [done|].
      assert (x ∈ List.filter (fun e => te_sequence e <? before) history) as Hx by (rewrite Hf; by left).
      apply list_elem_of_In, List.filter_In in Hx as [Hx%list_elem_of_In Hb]. specialize (Hall x Hx).
      unfold key_lt in Hall. b2p. lia.
    + intros x [->|Hx]%elem_of_cons; [done|]. rewrite Forall_forall in Hall. specialize (Hall x Hx).
      unfold key_lt in Hall. lia.
Qed.

Lemma below_prefix k (history : list TimelineEntry) e :
  StronglySorted (key_lt te_sequence) history -> history !! k = Some e ->
  List.filter (fun x => te_sequence x <? te_sequence e) history = take k history.
Proof.
  revert k. induction history as [|x history IH]; intros [|k] Hs Hk; [done|done| |];
    apply StronglySorted_inv in Hs as [Hs Hall]; cbn in Hk |- *; rewrite Forall_forall in Hall.
  - injection Hk as ->. rewrite N.ltb_irrefl.
    destruct (List.filter _ history) as [|y l] eqn:Hf; [done|].
    assert (In y (List.filter (fun x => te_sequence x <? te_sequence e) history)) as Hy by (rewrite Hf; by left).
    apply List.filter_In in Hy as [Hy%list_elem_of_In Hb]. specialize (Hall y Hy). unfold key_lt in Hall. b2p. lia.
  - assert (e ∈ history) as He by (apply list_elem_of_lookup; by exists k).
    specialize (Hall e He). unfold key_lt in Hall. rewrite (proj2 (N.ltb_lt _ _)) by lia.
    by rewrite (IH k).
Qed.

Lemma page_inv encoded_frame_len page_bytes session_id before limit s p :
  page encoded_frame_len page_bytes session_id before limit s = Some p ->
  StronglySorted (key_lt te_sequence) (ls_history s) ->
  let rows := List.filter (fun e => te_sequence e <? before) (ls_history s) in
  let wire := fit_entry_alone encoded_frame_len in
  0 < limit <= MAX_TIMELINE_PAGE_ENTRIES
  /\ exists d,
     tp_entries p = wire <$> drop d rows
     /\ (length rows <= d + N.to_nat limit)%nat
     /\ (forall j, (length rows - N.to_nat limit <= j < d)%nat ->
           MAX_TIMELINE_PAGE_BYTES < page_bytes (wire <$> drop j rows))
     /\ (tp_entries p = [] /\ tp_next_before_sequence p = None \/
         page_bytes (tp_entries p) <= MAX_TIMELINE_PAGE_BYTES
         /\ exists first, rows !! d = Some first
            /\ List.filter (fun e => te_sequence e <? te_sequence first) (ls_history s) = take d rows
            /\ tp_next_before_sequence p = if (d =? 0)%nat then None else Some (te_sequence first))
     /\ tp_has_older p = is_some (tp_next_before_sequence p).
Proof.
  intros Hp Hsort. cbn zeta. set (rows := List.filter _ _). set (wire := fit_entry_alone _).
  destruct (filter_below before (ls_history s) Hsort) as (k & Hrows & _). fold rows in Hrows.
  unfold page in Hp. destruct (_ || _) eqn:Hl; [done|]. b2p. injection Hp as <-.
  cbn [tp_entries tp_next_before_sequence tp_has_older]. split; [lia|]. fold rows. fold wire.
  rewrite <- fmap_reverse, take_reverse, reverse_involutive.
  set (m := (length rows - N.to_nat limit)%nat).
  destruct (page_within_spec page_bytes (wire <$> drop m rows)) as (j & Hj & Hfit & Hmax).
  rewrite Hj in Hfit |- *. rewrite <- fmap_drop, drop_drop in Hfit |- *. exists (m + j)%nat.
  split_and!; [done|lia| | |].
  - intros i Hi. specialize (Hmax (i - m)%nat ltac:(lia)). rewrite <- fmap_drop, drop_drop in Hmax.
    by replace (m + (i - m))%nat with i in Hmax by lia.
  - destruct (drop (m + j) rows) as [|first rest] eqn:Hd; [by left|right].
    destruct Hfit as [Hnil|Hfit]; [done|]. split; [done|].
    assert (rows !! (m + j)%nat = Some first) as Hfirst.
    { rewrite <- (Nat.add_0_r (m + j)), <- lookup_drop, Hd. done. }
    assert (te_sequence (wire first) = te_sequence first) as Hseq
      by (unfold wire; by destruct (fit_entry_alone_row encoded_frame_len first) as (_ & _ & -> & _)).
    assert (ls_history s !! (m + j)%nat = Some first) as Hin.
    { rewrite Hrows in Hfirst. by apply lookup_take_Some in Hfirst as [? _]. }
    pose proof (below_prefix (m + j) (ls_history s) first Hsort Hin) as Hbelow.
    assert (take (m + j) (ls_history s) = take (m + j) rows) as Htake.
    { rewrite Hrows in Hfirst |- *. apply lookup_take_Some in Hfirst as [_ Hlt].
      rewrite take_take. f_equal. lia. }
    exists first. split_and!; [done|congruence|]. cbn [head fmap list_fmap is_some_and]. rewrite Hseq.
    assert (existsb (fun e => te_sequence e <? te_sequence first) (ls_history s) = negb (m + j =? 0)%nat) as ->.
    { destruct (Nat.eqb_spec (m + j) 0) as [Hz|Hz]; cbn [negb].
      - apply existsb_false. intros x Hx. destruct (_ <? _) eqn:Hb; [|done]. exfalso.
        assert (In x (List.filter (fun e => te_sequence e <? te_sequence first) (ls_history s))) as Hc
          by (apply List.filter_In; split; [by apply list_elem_of_In|done]).
        rewrite Hbelow, Hz in Hc. by cbn in Hc.
      - apply existsb_exists. clear -Hin Hbelow Hz. destruct (ls_history s) as [|x l]; [done|].
        exists x. split; [by left|]. destruct (m + j)%nat as [|n]; [done|].
        assert (In x (List.filter (fun e => te_sequence e <? te_sequence first) (x :: l))) as Hc
          by (rewrite Hbelow; by left). apply List.filter_In in Hc. apply Hc. }
    destruct (m + j =? 0)%nat; cbn; [done|by rewrite ?Hseq].
  - by destruct (is_some_and _ _).
Qed.

(** A page is one the phone accepts, and shows consecutive rows: the newest before the cursor, no
    more than asked for, none left out that would still have fit; it names a next cursor exactly when
    older rows are left. *)
Theorem page_spec encoded_frame_len page_bytes session_id before limit s p :
  timeline_ok s -> page encoded_frame_len page_bytes session_id before limit s = Some p ->
  let rows := List.filter (fun e => te_sequence e <? before) (ls_history s) in
  let wire := fit_entry_alone encoded_frame_len in
  (valid_opaque_id session_id = Ok tt -> 0 < ss_snapshot_epoch (ls_snapshot s) ->
   0 < ss_process_generation (ls_snapshot s) -> page_bytes [] <= MAX_TIMELINE_PAGE_BYTES ->
   TimelinePage_validate p = Ok tt)
  /\ len (tp_entries p) <= limit
  /\ exists d,
     tp_entries p = wire <$> drop d rows
     /\ (forall j, (length rows - N.to_nat limit <= j < d)%nat ->
           MAX_TIMELINE_PAGE_BYTES < page_bytes (wire <$> drop j rows))
     /\ (tp_entries p <> [] -> (tp_next_before_sequence p = None <-> d = 0%nat)).
Proof.
  intros Hok Hp. cbn zeta. pose proof (to_numbered s Hok) as [Hsort _].
  destruct (page_inv _ _ _ _ _ _ _ Hp Hsort) as ([Hl0 Hl] & d & Hent & Hd & Hmax & Hcase & Hold).
  assert (len (tp_entries p) <= limit) as Hlen
    by (rewrite Hent; unfold len; rewrite length_fmap, length_drop; lia).
  split_and!; [|done|].
  - intros Hid He Hg Hnil.
    assert (tp_aggregate_bytes p = N.min (page_bytes (tp_entries p)) u32_max /\ tp_v p = AGENT_PROTOCOL_VERSION
      /\ tp_message_type p = "agent_timeline_page"%string /\ tp_session_id p = session_id
      /\ tp_snapshot_epoch p = ss_snapshot_epoch (ls_snapshot s)
      /\ tp_process_generation p = ss_process_generation (ls_snapshot s)) as (Ha & Hv & Hm & Hs & Hep & Hge).
    { unfold page in Hp. destruct (_ || _); [done|]. injection Hp as <-. split_and!; try done.
      cbn [tp_aggregate_bytes tp_entries]. by destruct (N.leb_spec (page_bytes (page_within page_bytes
        (reverse (fit_entry_alone encoded_frame_len <$> take (N.to_nat limit)
          (reverse (List.filter (fun e => te_sequence e <? before) (ls_history s))))))) u32_max); lia. }
    unfold TimelinePage_validate, invalid_if. rewrite !rbind_unit_ok, refuse_if_ok, each_ok, Hv, Hm, Hs, Hep, Hge.
    split_and!; [done| |done|].
    + rewrite !orb_false_iff, !N.eqb_neq, !N.ltb_ge. split_and!; [done|lia..|].
      rewrite Ha. destruct Hcase as [[-> _]|[Hfit _]]; lia.
    + rewrite Hent. apply Forall_fmap. eapply Forall_sublist; [apply sublist_drop|].
      eapply Forall_sublist; [apply filter_sublist|]. eapply Forall_impl; [apply (to_valid s Hok)|].
      intros e He'. by apply fit_entry_alone_valid.
  - exists d. split_and!; [done..|]. intros Hne. destruct Hcase as [[? _]|(_ & first & Hf & _ & ->)]; [done|].
    by destruct d.
Qed.

(** A reader that follows the cursors back until none is named. *)
Fixpoint read_back (encoded_frame_len : AgentServerFrame -> N) (page_bytes : list TimelineEntry -> N)
    (fuel : nat) (session_id : string) (before limit : N) (s : LiveSession) : option (list TimelineEntry) :=
  match fuel with
  | O => None
  | S fuel =>
      p ← page encoded_frame_len page_bytes session_id before limit s;
      match tp_next_before_sequence p with
      | None => Some (tp_entries p)
      | Some next =>
          older ← read_back encoded_frame_len page_bytes fuel session_id next limit s;
          Some (older ++ tp_entries p)
      end
  end.

(** A reader that follows the cursors back ends, and has then read every row before the one it
    started from, each once and in order, as long as each row's wire copy fits a page by itself. *)
Theorem paging_reads_everything encoded_frame_len page_bytes fuel session_id before limit s :
  timeline_ok s -> 0 < limit <= MAX_TIMELINE_PAGE_ENTRIES ->
  Forall (fun e => page_bytes [fit_entry_alone encoded_frame_len e] <= MAX_TIMELINE_PAGE_BYTES) (ls_history s) ->
  (length (ls_history s) < fuel)%nat ->
  read_back encoded_frame_len page_bytes fuel session_id before limit s
  = Some (fit_entry_alone encoded_frame_len
            <$> List.filter (fun e => te_sequence e <? before) (ls_history s)).
Proof.
  intros Hok Hlimit Hfits Hfuel. pose proof (to_numbered s Hok) as [Hsort _].
  assert (length (List.filter (fun e => (te_sequence e <? before)%N) (ls_history s)) < fuel)%nat as Hrows
    by (pose proof (sublist_length _ _ (filter_sublist (fun e => te_sequence e <? before) (ls_history s))); lia).
  clear Hfuel Hok. revert before Hrows. induction fuel as [|fuel IH]; intros before Hrows; [lia|].
  cbn [read_back]. destruct (page _ _ _ _ _ _) as [p|] eqn:Hp.
  2: { unfold page in Hp. destruct (_ || _) eqn:Hl; [|done]. rewrite orb_true_iff, N.eqb_eq, N.ltb_lt in Hl. lia. }
  cbn [mbind option_bind].
  destruct (page_inv _ _ _ _ _ _ _ Hp Hsort) as (_ & d & Hent & Hd & Hmax & Hcase & _).
  set (rows := List.filter (fun e => te_sequence e <? before) (ls_history s)) in *.
  destruct Hcase as [[Hnil ->]|(_ & first & Hf & Hbelow & ->)].
  - rewrite Hnil. destruct rows as [|r rows'] eqn:Hr using rev_ind; [done|exfalso]. clear IHrows'.
    rewrite length_app in *. cbn in *. rewrite Hnil in Hent. symmetry in Hent. apply fmap_nil_inv in Hent.
    apply (f_equal length) in Hent. rewrite length_drop, length_app in Hent. cbn in Hent.
    specialize (Hmax (length rows') ltac:(lia)). rewrite drop_app_length in Hmax.
    rewrite Forall_forall in Hfits. specialize (Hfits r). cbn in Hmax, Hfits.
    assert (r ∈ ls_history s) as Hin; [|specialize (Hfits Hin); lia].
    assert (r ∈ rows) as Hr' by (rewrite Hr; set_solver). by eapply sublist_subset, Hr'; apply filter_sublist.
  - destruct (Nat.eqb_spec d 0) as [->|Hd0]; [by rewrite Hent, drop_0|].
    rewrite (IH (te_sequence first)), Hbelow.
    + cbn. by rewrite Hent, <- fmap_app, take_drop.
    + rewrite Hbelow, length_take. apply lookup_lt_Some in Hf. lia.
Qed.
