(* ===== verification/Registration.v ===== *)
(** What an adapter registers, and what a session is made of and listed as ([agent_session.rs]):
    validation, the drift note, the snapshot a registration starts, and the session's descriptor. *)
From S2P Require Import Prelude Text Protocol Fit Reducer Metadata Reconcile Session.

Local Open Scope N_scope.

(** ** Registrations *)

Record NormalizedRegistration := mkNormalizedRegistration {
  nr_history_boundary : option string;
  nr_upstream_identity : string;
  nr_process_nonce : string;
  nr_process_id : N;
  nr_terminal_binding : option TerminalBinding;
  nr_adapter_family : string;
  nr_adapter_version : string;
  nr_topology : string;
  nr_compatible : bool;
  nr_version_state : string;
  nr_tested_version : string;
  nr_workspace_display : string;
  nr_workspace_path : option string;
  nr_observation : Observation;
  nr_turn : TurnState;
  nr_capabilities : AgentCapabilities;
  nr_control_owner : string
}.

(** A binding that does not speak for this registration. *)
Definition foreign_binding (r : NormalizedRegistration) (binding : TerminalBinding) : bool :=
  negb (nr_adapter_family r =s? "Codex") || negb (nr_compatible r) || negb (nr_topology r =s? "attached")
  || negb (bi_tui_pid binding =? nr_process_id r) || negb (bi_thread_id binding =s? nr_upstream_identity r)
  || negb (bool_decide (ac_commands (nr_capabilities r) = CommandCapabilities_none)).

Definition NormalizedRegistration_validate (r : NormalizedRegistration) : checked :=
  valid_source_id (nr_upstream_identity r) ?;
  valid_opaque_id (nr_process_nonce r) ?;
  valid_token (nr_adapter_family r) ?;
  valid_token (nr_adapter_version r) ?;
  valid_token (nr_control_owner r) ?;
  Observation_validate (nr_observation r) ?;
  TurnState_validate (nr_turn r) ?;
  AgentCapabilities_validate (nr_capabilities r) ?;
  valid_token (nr_tested_version r) ?;
  invalid_if
    ((nr_process_id r =? 0)
     || empty_or_over 256 (nr_workspace_display r)
     || negb (one_of (nr_topology r) ["attached"; "managed"; "adopted"]%string)
     || negb (one_of (nr_version_state r) ["grounded"; "carried"; "ahead"; "unsupported"]%string)
     || Bool.eqb (nr_version_state r =s? "unsupported") (nr_compatible r)
     || (one_of (nr_topology r) ["managed"; "adopted"]%string && negb (nr_control_owner r =s? "none"))
     || negb (ac_terminal_continuity (nr_capabilities r) =s? "unavailable")
     || (negb (Observation_is_authoritative (nr_observation r)) && is_running (nr_turn r))
     || (negb (nr_compatible r) && negb (bool_decide (ac_commands (nr_capabilities r) = CommandCapabilities_none)))
     || is_some_and (foreign_binding r) (nr_terminal_binding r)).

(** ** What a session offers *)

Definition takeover_verb (topology family : string) : option string :=
  if negb (topology =s? "attached") then None
  else if family =s? "Claude" then Some "promote"%string
  else if family =s? "Codex" then Some "pickup"%string
  else None.

(** [str::to_lowercase] on an adapter family, which validation holds to ASCII. *)
Definition ascii_lower (b : ascii) : ascii :=
  if (65 <=? nb b) && (nb b <=? 90) then ascii_of_N (nb b + 32) else b.

Fixpoint to_lowercase (s : string) : string :=
  match s with
  | EmptyString => EmptyString
  | String b s => String (ascii_lower b) (to_lowercase s)
  end.

Definition drift_vendor (r : NormalizedRegistration) : string :=
  if nr_topology r =s? "managed" then "claude-managed" else to_lowercase (nr_adapter_family r).

Section drift.
(** [release_meta::fix_for] and [drift::live_distinct_for], by vendor. *)
Context (fix_for : string -> option string) (live_distinct_for : string -> N).

Definition drift_note_for (r : NormalizedRegistration) : option DriftNote :=
  let vendor := drift_vendor r in
  let known_fix := fix_for vendor in
  if (nr_version_state r =s? "ahead")
     || ((nr_version_state r =s? "unsupported") && is_some known_fix)
  then Some (mkDriftNote (nr_version_state r) (nr_adapter_version r) (nr_tested_version r)
               (N.min (live_distinct_for vendor) 4096) known_fix)
  else None.
End drift.

(** The adapter metadata both registration paths put on the snapshot. *)
Definition adapter_of (r : NormalizedRegistration) : AgentAdapterMetadata :=
  mkAgentAdapterMetadata (nr_adapter_family r) (nr_adapter_version r)
    (if nr_compatible r then "compatible" else "unsupported_version").

(** The fallback a registration grants: an adopted conversation is resumable by identity. *)
Definition granted_fallback (r : NormalizedRegistration) (route_draw : N) : TerminalFallback :=
  if nr_topology r =s? "adopted"
  then mkTerminalFallback "resumable_session" (Some (random_id route_draw)) (Some "adopted_resume"%string) None None
  else mkTerminalFallback "unavailable" None (Some "route_resolving"%string) None None.

(** The snapshot [register_new] starts a session with. *)
Definition registered_snapshot (r : NormalizedRegistration) (identity : string * N * N * N)
    (fallback : TerminalFallback) (drift : option DriftNote) (receipts : list CommandReceipt)
  : AgentSessionSnapshot :=
  let '(session_id, generation, epoch, revision) := identity in
  mkAgentSessionSnapshot AGENT_PROTOCOL_VERSION session_id epoch revision generation (adapter_of r)
    (nr_topology r) "live" None (nr_control_owner r) (nr_observation r) (nr_turn r) None None None None
    drift (set_ac_terminal_continuity (tf_continuity fallback) (nr_capabilities r)) []
    (mkTimelineWindow [] false (nr_history_boundary r) None None false) fallback receipts.

(** ** How a session is listed *)

(** [str::lines]: a carriage return goes with the line feed after it, and a trailing line feed
    starts no line. *)
Definition strip_cr (line : string) : string :=
  if bool_decide (String.get (String.length line - 1) line = Some (ascii_of_N 13))
  then stake (String.length line - 1) line else line.

Definition lines (s : string) : list string :=
  let pieces := split_on (ascii_of_N 10) s in
  (strip_cr <$> removelast pieces)
  ++ match last pieces with
     | Some piece => if slen piece =? 0 then [] else [piece]
     | None => []
     end.

Definition text_of_kind (kind : string) (history : list TimelineEntry) : option string :=
  head (omap (fun entry => if te_kind entry =s? kind
                           then match te_body entry with Text text => Some text | _ => None end
                           else None) (reverse history)).

Section descriptor.
(** [claude_transcript::recent_prompt], by upstream identity. *)
Context (transcript_prompt : string -> option string).

Definition recent_prompt_for (s : LiveSession) : option string :=
  match text_of_kind "user_message" (ls_history s) with
  | None =>
      if negb (am_family (ss_adapter (ls_snapshot s)) =s? "Claude") then None
      else transcript_prompt (ls_upstream_identity s)
  | Some text =>
      line ← List.find (fun line => negb (slen (trim line) =? 0)) (lines text);
      let bounded := truncate_on_char_boundary (trim line) MAX_RECENT_PROMPT_BYTES in
      if slen bounded =? 0 then None else Some bounded
  end.

Definition descriptor_for (s : LiveSession) : AgentSessionDescriptor :=
  let p := ls_snapshot s in
  mkAgentSessionDescriptor AGENT_PROTOCOL_VERSION (ss_session_id p) (am_family (ss_adapter p))
    (am_version (ss_adapter p)) (ss_topology p) (ss_presence p) (ss_stored_reason p)
    (ss_process_generation p) (ss_observation p) (ss_turn p) (ss_capabilities p)
    (ls_workspace_display s) (ss_terminal_fallback p) (recent_prompt_for s) None
    (if is_none (ls_terminal_binding s) then takeover_verb (ss_topology p) (am_family (ss_adapter p)) else None)
    (ss_drift p) (ss_revision p) (ls_updated_at s).
End descriptor.

Example lines_crlf : lines (sconcat ["a"; String (ascii_of_N 13) (String (ascii_of_N 10) ""); "b"]) = ["a"; "b"]%string.
Proof. vm_compute. reflexivity. Qed.

(** ** What a registration starts is what the protocol accepts *)

Lemma registration_checks r : NormalizedRegistration_validate r = Ok tt ->
  valid_token (nr_adapter_family r) = Ok tt /\ valid_token (nr_adapter_version r) = Ok tt
  /\ valid_token (nr_control_owner r) = Ok tt /\ Observation_validate (nr_observation r) = Ok tt
  /\ TurnState_validate (nr_turn r) = Ok tt /\ AgentCapabilities_validate (nr_capabilities r) = Ok tt
  /\ valid_token (nr_tested_version r) = Ok tt
  /\ empty_or_over 256 (nr_workspace_display r) = false
  /\ one_of (nr_topology r) ["attached"; "managed"; "adopted"]%string = true
  /\ one_of (nr_version_state r) ["grounded"; "carried"; "ahead"; "unsupported"]%string = true.
Proof.
  unfold NormalizedRegistration_validate, invalid_if. rewrite !rbind_unit_ok, refuse_if_ok.
  intros H. destruct_and! H. b2p. by split_and!.
Qed.

Lemma one_of_elem value options : one_of value options = true <-> value ∈ options.
Proof.
  unfold one_of. rewrite existsb_exists. setoid_rewrite String.eqb_eq. split.
  - intros (x & Hx%list_elem_of_In & ->). done.
  - intros Hin. exists value. by rewrite <- list_elem_of_In.
Qed.

Lemma drift_note_valid fix_for live_distinct_for r :
  NormalizedRegistration_validate r = Ok tt ->
  (forall vendor release, fix_for vendor = Some release -> valid_token release = Ok tt) ->
  opt_each DriftNote_validate (drift_note_for fix_for live_distinct_for r) = Ok tt.
Proof.
  intros (_ & Hv & _ & _ & _ & _ & Ht & _ & _ & Hs)%registration_checks Hfix. apply opt_each_ok.
  intros note. unfold drift_note_for. destruct (_ || _) eqn:Hnoted; [|done].
  intros [= <-]. unfold DriftNote_validate, invalid_if. cbn -[valid_token one_of].
  rewrite !rbind_unit_ok, !refuse_if_ok. split_and!; [| |done|done| |].
  - destruct (String.eqb_spec (nr_version_state r) "ahead") as [->|]; [done|].
    cbn in Hnoted. apply andb_true_iff in Hnoted as [->%String.eqb_eq _]. done.
  - destruct (String.eqb_spec (nr_version_state r) "ahead") as [->|]; [done|].
    cbn in Hnoted. apply andb_true_iff in Hnoted as [_ Hfixed]. unfold is_some in Hfixed.
    apply negb_true_iff in Hfixed. rewrite Hfixed. by rewrite andb_false_r.
  - apply N.ltb_ge. lia.
  - apply opt_each_ok. intros release. apply Hfix.
Qed.

Lemma granted_fallback_valid r draw :
  TerminalFallback_validate (granted_fallback r draw) = Ok tt
  /\ valid_token (tf_continuity (granted_fallback r draw)) = Ok tt.
Proof.
  unfold granted_fallback. destruct (_ =s? _); [|by vm_compute]. split; [|by vm_compute].
  unfold TerminalFallback_validate. cbn -[valid_opaque_id random_id].
  by rewrite (format_u128_valid draw : valid_opaque_id (random_id draw) = Ok tt).
Qed.

(** The snapshot a registration starts a session with is one the protocol accepts — whatever its
    topology: an adopted session is granted the resumable route its invariant demands, and every
    other one starts with its route unresolved — as long as the boundary, the identity and the
    receipts it is given are valid themselves. *)
Theorem registered_snapshot_valid fix_for live_distinct_for r session_id generation epoch revision draw receipts :
  NormalizedRegistration_validate r = Ok tt ->
  (forall vendor release, fix_for vendor = Some release -> valid_token release = Ok tt) ->
  opt_each valid_token (nr_history_boundary r) = Ok tt ->
  valid_opaque_id session_id = Ok tt -> generation <> 0 -> epoch <> 0 -> revision <> 0 ->
  len receipts <= MAX_COMMAND_RECEIPTS ->
  Forall (fun c => CommandReceipt_validate c = Ok tt /\ cr_session_id c = session_id
                   /\ cr_process_generation c = generation /\ cr_snapshot_epoch c = epoch) receipts ->
  AgentSessionSnapshot_validate
    (registered_snapshot r (session_id, generation, epoch, revision) (granted_fallback r draw)
       (drift_note_for fix_for live_distinct_for r) receipts) = Ok tt.
Proof.
  intros Hreg Hfix Hboundary Hid Hg He Hrev Hbound Hreceipts.
  pose proof (drift_note_valid fix_for live_distinct_for r Hreg Hfix) as Hdrift.
  destruct (granted_fallback_valid r draw) as [Hfall Hcont].
  apply registration_checks in Hreg as (Hf & Hv & Ho & Hobs & Ht & Hc & _ & _ & Htop & _).
  apply snapshot_valid_iff. split; [|split].
  - unfold fixed_valid, registered_snapshot, AgentAdapterMetadata_validate. cbn.
    rewrite !rbind_unit_ok. split_and!; try done.
    + by destruct (nr_compatible r).
    + apply one_of_elem in Htop. by repeat (apply elem_of_cons in Htop as [->|Htop]);
        [vm_compute..|apply not_elem_of_nil in Htop].
  - split; cbn; try done.
    + unfold AgentCapabilities_validate in *. cbn -[InteractionCapabilities_validate valid_token]. rewrite !rbind_unit_ok in *. destruct Hc as (? & ? & ? & ? & ?).
      by split_and!.
    + eapply Forall_impl; [exact Hreceipts|]. cbn. intros c (H1 & H2 & H3 & H4). split; [done|].
      unfold receipt_of. cbn. by rewrite (proj2 (String.eqb_eq _ _) H2), !(proj2 (N.eqb_eq _ _)).
    + split; try done; constructor.
  - split; cbn; try done. unfold validate_topology_presence, invalid_if, granted_fallback. cbn.
    destruct (String.eqb_spec (nr_topology r) "adopted") as [->|]; [done|]. cbn. by rewrite andb_false_r.
Qed.

(** ** A session's row *)

Lemma takeover_valid topology family takeover :
  takeover_verb topology family = Some takeover ->
  valid_token takeover = Ok tt /\ topology = "attached"%string.
Proof.
  unfold takeover_verb. destruct (String.eqb_spec topology "attached"); [|done]. cbn.
  by repeat case_match; intros [= <-].
Qed.

(** The row a session is listed under is one the phone accepts whenever its snapshot is: the
    title is never empty nor over its bound, and only an attached session offers a takeover. *)
Lemma descriptor_for_valid transcript_prompt s :
  AgentSessionSnapshot_validate (ls_snapshot s) = Ok tt ->
  empty_or_over MAX_WORKSPACE_DISPLAY_BYTES (ls_workspace_display s) = false -> ls_updated_at s <> 0 ->
  (forall upstream title, transcript_prompt upstream = Some title -> 0 < slen title <= MAX_RECENT_PROMPT_BYTES) ->
  AgentSessionDescriptor_validate (descriptor_for transcript_prompt s) = Ok tt.
Proof.
  intros ((Hv & Hid & He & Hg & Had & Htop & Hpres & Hown & Hdrift) & [] & [])%snapshot_valid_iff Hw Hu Htr.
  unfold AgentSessionDescriptor_validate, invalid_if, descriptor_for.
  cbn -[valid_token valid_opaque_id recent_prompt_for]. unfold AgentAdapterMetadata_validate in Had.
  rewrite !rbind_unit_ok, !refuse_if_ok in *. destruct Had as (? & ? & ?). split_and!; try done.
  - rewrite !orb_false_iff, !N.eqb_neq. by split_and!.
  - assert (forall title, recent_prompt_for transcript_prompt s = Some title ->
      0 < slen title <= MAX_RECENT_PROMPT_BYTES) as Hprompt.
    { intros title. unfold recent_prompt_for. destruct (text_of_kind _ _) as [text|].
      - destruct (List.find _ _) as [line|]; [|done]. cbn. case_match eqn:Hz; [done|]. intros [= <-]. b2p.
        pose proof (truncate_on_char_boundary_le (trim line) MAX_RECENT_PROMPT_BYTES). lia.
      - case_match; [done|]. apply Htr. }
    destruct (recent_prompt_for _ _) as [title|]; [|done]. cbn. unfold empty_or_over.
    specialize (Hprompt title eq_refl). rewrite orb_false_iff, N.eqb_neq, N.ltb_ge. lia.
  - apply opt_each_ok. intros takeover Htake. case_match; [|done]. apply takeover_valid in Htake as [? ->].
    by rewrite rbind_unit_ok.
  - by rewrite (proj2 (String.eqb_eq _ _) co_continuity).
Qed.
