(* ===== verification/Whereabouts.v ===== *)
(** Where the person is, [whereabouts.rs]: what the evidence of one prompt says, and what each session's
    agent is told so that it always knows. Idle times are nanoseconds. *)
From S2P Require Import Prelude Text UploadNames Registration.

Local Open Scope N_scope.

Definition AT_HOST_WINDOW : N := 3 * 1000000000.
Definition DEVICE_WINDOW : N := 10 * 1000000000.

Inductive Location := AtHost | Away | Remote.

#[export] Instance Location_eq_dec : EqDecision Location.
Proof. solve_decision. Defined.

Inductive HostInput := Unobservable | Unreadable | IdleFor (idle : N).

Record Evidence := mkEvidence { ev_host : HostInput; ev_device_idle : option N }.

Definition locate (host : HostInput) (device_idle : option N) : option Location :=
  let device := if is_some_and (fun idle => idle <? DEVICE_WINDOW) device_idle then Some Away else None in
  match host with
  | Unobservable => Some Remote
  | IdleFor idle => if idle <? AT_HOST_WINDOW then Some AtHost else device
  | Unreadable => device
  end.

Definition Evidence_location (e : Evidence) : option Location := locate (ev_host e) (ev_device_idle e).

(** ** The probe *)

(** [str::split_once]. *)
Fixpoint split_once (sep : ascii) (s : string) : option (string * string) :=
  match s with
  | EmptyString => None
  | String ch s =>
      if Ascii.eqb ch sep then Some (""%string, s)
      else (fun '(before, after) => (String ch before, after)) <$> split_once sep s
  end.

(** [str::parse::<u64>]. *)
Fixpoint parse_digits64 (acc : N) (s : string) : option N :=
  match s with
  | EmptyString => Some acc
  | String b s =>
      if is_ascii_digit b then
        let acc := acc * 10 + (nb b - 48) in if acc <=? u64_max then parse_digits64 acc s else None
      else None
  end.

Definition parse_u64 (s : string) : option N :=
  match (match s with String "+" digits => digits | _ => s end) with
  | EmptyString => None
  | digits => parse_digits64 0 digits
  end.

Definition HID_IDLE_TIME : string := String "034" ("HIDIdleTime" +:+ String "034" EmptyString).

Definition hid_line (line : string) : option N :=
  match split_once "=" line with
  | Some (key, value) => if ends_with (trim_end key) HID_IDLE_TIME then parse_u64 (trim value) else None
  | None => None
  end.

(** [parse_hid_idle], on the probe's output as text. *)
Definition parse_hid_idle (stdout : string) : option N := head (omap hid_line (lines stdout)).

(** [host_input] on a Mac, from the output of a probe that ended in time; elsewhere there is none. *)
Definition host_input (macos : bool) (probe : option string) : HostInput :=
  if macos then
    match probe with
    | Some stdout => match parse_hid_idle stdout with Some idle => IdleFor idle | None => Unreadable end
    | None => Unreadable
    end
  else Unobservable.

(** ** What the agent was told *)

Record Announced := mkAnnounced { an_last : option Location; an_ever_away : bool }.

Definition Announced_default : Announced := mkAnnounced None false.

Definition on_prompt (location : Location) (a : Announced) : Announced * option Location :=
  if bool_decide (an_last a = Some location) then (a, None)
  else
    let assumed := is_none (an_last a) && bool_decide (location = AtHost) && negb (an_ever_away a) in
    (mkAnnounced (Some location) (an_ever_away a || negb (bool_decide (location = AtHost))),
     if assumed then None else Some location).

Definition reset (a : Announced) : Announced := mkAnnounced None (an_ever_away a).

(** ** The sessions' agents *)

(** What each live session's agent was told. *)
Abbreviation announcements := (gmap string Announced).

(** [whereabouts_context]: the note to go with the prompt. *)
Definition whereabouts_context (session_id : string) (e : Evidence) (sessions : announcements) : announcements * option Location :=
  match sessions !! session_id, Evidence_location e with
  | Some a, Some location => let '(a, told) := on_prompt location a in (<[session_id := a]> sessions, told)
  | _, _ => (sessions, None)
  end.

Definition reset_whereabouts (session_id : string) (sessions : announcements) : announcements := alter reset session_id sessions.

(** A registration: what was announced is taken from the live session that the new process replaces. *)
Definition registered (session_id : string) (sessions : announcements) : announcements :=
  <[session_id := default Announced_default (sessions !! session_id)]> sessions.

(** A session that ended, or was superseded, takes its announcements with it. *)
Definition session_removed (session_id : string) (sessions : announcements) : announcements := delete session_id sessions.

(** ** What the agent believes *)

(** The last note its context holds; without one it assumes the person at the host. *)
Definition belief (context : option Location) : Location := default AtHost context.

(** The sessions' announcements and, of one conversation, the note its agent's context holds, the notes and
    prompts since its session was last registered with nothing to inherit, and the notes from before. *)
Record Scene := mkScene {
  sc_sessions : announcements; sc_context : option Location; sc_notes : list Location; sc_prompts : list Location;
  sc_before : list Location }.

Section conversation.
Context (session_id : string).

Definition scene_start (sessions : announcements) : Scene := mkScene (delete session_id sessions) None [] [] [].

(** One of its prompts, at a place the evidence shows: its agent reads the note, if there is one, with it. *)
Definition prompted (e : Evidence) (w : Scene) : Scene :=
  let '(sessions, told) := whereabouts_context session_id e (sc_sessions w) in
  mkScene sessions (match told with Some note => Some note | None => sc_context w end) (option_list told ++ sc_notes w)
    (option_list (Evidence_location e) ++ sc_prompts w) (sc_before w).

Definition elsewhere (sessions : announcements) (w : Scene) : Scene :=
  mkScene sessions (sc_context w) (sc_notes w) (sc_prompts w) (sc_before w).

(** A registration of its session: one that is not live starts over. *)
Definition session_registered (w : Scene) : Scene :=
  match sc_sessions w !! session_id with
  | Some _ => elsewhere (registered session_id (sc_sessions w)) w
  | None => mkScene (registered session_id (sc_sessions w)) (sc_context w) [] [] (sc_notes w ++ sc_before w)
  end.

(** Prompts, and contexts rebuilt, of which nothing may be left of the notes, or any of them; sessions that
    are registered and removed; and the same of the other sessions. *)
Inductive scene_step : Scene -> Scene -> Prop :=
| ScenePrompt e w : scene_step w (prompted e w)
| SceneReset context w :
    (forall note, context = Some note -> note ∈ sc_notes w ++ sc_before w) ->
    scene_step w (mkScene (reset_whereabouts session_id (sc_sessions w)) context (sc_notes w) (sc_prompts w) (sc_before w))
| SceneRegistered w : scene_step w (session_registered w)
| SceneRemoved w : scene_step w (elsewhere (session_removed session_id (sc_sessions w)) w)
| SceneOther other e w :
    other <> session_id -> scene_step w (elsewhere (whereabouts_context other e (sc_sessions w)).1 w)
| SceneOtherReset other w : other <> session_id -> scene_step w (elsewhere (reset_whereabouts other (sc_sessions w)) w)
| SceneOtherRegistered other w : other <> session_id -> scene_step w (elsewhere (registered other (sc_sessions w)) w)
| SceneOtherRemoved other w : other <> session_id -> scene_step w (elsewhere (session_removed other (sc_sessions w)) w).

(** What the context holds of before, although the person is back at the host. *)
Definition stale (w : Scene) : Prop := sc_notes w = [] /\ exists note, sc_context w = Some note /\ note ∈ sc_before w /\ note <> AtHost.

Record announced_ok (a : Announced) (w : Scene) : Prop := {
  ao_last location : an_last a = Some location -> belief (sc_context w) = location \/ location = AtHost /\ stale w;
  ao_away : an_ever_away a = false -> sc_notes w = [] /\ (an_last a = None \/ an_last a = Some AtHost);
  ao_home : Forall (eq AtHost) (sc_prompts w) -> an_ever_away a = false
}.

Record scene_ok (w : Scene) : Prop := {
  so_context note : sc_context w = Some note -> note ∈ sc_notes w ++ sc_before w;
  so_announced a : sc_sessions w !! session_id = Some a -> announced_ok a w
}.

Lemma home_or_stale w : scene_ok w -> sc_notes w = [] -> belief (sc_context w) = AtHost \/ stale w.
Proof.
  intros Hok Hn. destruct (sc_context w) as [note|] eqn:Hw; [|by left]. pose proof (so_context w Hok note Hw) as Hc.
  rewrite Hn in Hc. destruct (decide (note = AtHost)) as [->|]; [by left|]. right. split; [done|]. by exists note.
Qed.

Lemma prompted_live e w a location :
  sc_sessions w !! session_id = Some a -> Evidence_location e = Some location ->
  prompted e w = let '(a', told) := on_prompt location a in
    mkScene (<[session_id := a']> (sc_sessions w)) (match told with Some note => Some note | None => sc_context w end)
      (option_list told ++ sc_notes w) (location :: sc_prompts w) (sc_before w).
Proof. intros Ha He. unfold prompted, whereabouts_context. rewrite Ha, He. by destruct (on_prompt location a). Qed.

Lemma prompted_unseen e w :
  sc_sessions w !! session_id = None \/ Evidence_location e = None ->
  prompted e w = mkScene (sc_sessions w) (sc_context w) (sc_notes w) (option_list (Evidence_location e) ++ sc_prompts w) (sc_before w).
Proof. intros H. unfold prompted, whereabouts_context. destruct H as [->| ->]; [done|]. by destruct (_ !! _). Qed.

Lemma prompted_ok e w :
  scene_ok w -> scene_ok (prompted e w)
  /\ forall a location, sc_sessions w !! session_id = Some a -> Evidence_location e = Some location ->
     belief (sc_context (prompted e w)) = location \/ location = AtHost /\ stale (prompted e w).
Proof.
  intros Hok. destruct (sc_sessions w !! session_id) as [a|] eqn:Ha; [destruct (Evidence_location e) as [location|] eqn:He|].
  - destruct Hok as [Hc Hann] eqn:Hwok. clear Hwok. destruct (Hann a Ha) as [Hl Haway Hhome].
    cut (scene_ok (prompted e w) /\ (belief (sc_context (prompted e w)) = location \/ location = AtHost /\ stale (prompted e w))).
    { intros [H1 H2]. split; [done|]. by intros ? ? _ [= <-]. }
    rewrite (prompted_live e w a location Ha He). unfold on_prompt. case_bool_decide as Hsame.
    + split; [|by apply Hl]. split; cbn; [done|]. rewrite lookup_insert_eq. intros ? [= <-]. split; cbn; [by intros l H; apply Hl|done|].
      intros H. apply Hhome. by inversion H.
    + destruct (is_none (an_last a) && bool_decide (location = AtHost) && negb (an_ever_away a)) eqn:Hassumed.
      * apply andb_prop in Hassumed as [[Hn ->%bool_decide_eq_true]%andb_prop Hev%negb_true_iff].
        destruct (Haway Hev) as [Hnotes _]. pose proof (home_or_stale w Hok Hnotes) as Hb.
        assert (belief (sc_context w) = AtHost \/ AtHost = AtHost /\ stale w) as Hb' by tauto.
        rewrite bool_decide_eq_true_2, Hev by done. cbn. split; [|done]. split; cbn; [done|]. rewrite lookup_insert_eq. intros ? [= <-].
        split; cbn; [by intros ? [= <-]|auto|done].
      * cbn. split; [|by left]. split; cbn; [by intros ? [= <-]; constructor|]. rewrite lookup_insert_eq. intros ? [= <-].
        assert (an_ever_away a = false -> location = AtHost -> False) as Htold.
        { intros Hev ->. rewrite Hev in Hassumed. destruct (Haway Hev) as [_ [Hn|Hn]]; [by rewrite Hn in Hassumed|done]. }
        split; cbn; [by intros ? [= <-]; left| |].
        -- intros [Hev Hat%negb_false_iff%bool_decide_eq_true]%orb_false_iff. by destruct (Htold Hev).
        -- intros H. exfalso. inversion H as [|? ? Hat Hrest]; subst. by apply Htold; [apply Hhome|].
  - split; [|done]. rewrite (prompted_unseen e w), He by auto. by destruct w, Hok.
  - split; [|done]. rewrite (prompted_unseen e w) by auto. destruct Hok as [Hc _]. split; cbn; [done|]. congruence.
Qed.

Lemma elsewhere_ok sessions w : scene_ok w -> sessions !! session_id = sc_sessions w !! session_id -> scene_ok (elsewhere sessions w).
Proof. intros [Hc Ha] Hs. split; cbn; [done|]. rewrite Hs. intros a H. by destruct (Ha a H). Qed.

Lemma scene_step_ok w w' : scene_step w w' -> scene_ok w -> scene_ok w'.
Proof.
  intros [] Hok; [| | | |apply elsewhere_ok; [done|]..].
  - by apply prompted_ok.
  - destruct Hok as [Hc Ha]. split; cbn; [done|]. unfold reset_whereabouts. rewrite lookup_alter_eq.
    intros a (b & Hb & ->)%fmap_Some. destruct (Ha b Hb) as [_ Haway Hhome]. split; cbn; [done| |done]. intros Hev. destruct (Haway Hev). auto.
  - destruct Hok as [Hc Ha]. unfold session_registered, registered. destruct (sc_sessions _ !! session_id) as [a|] eqn:Hs.
    + apply elsewhere_ok; [split; [done|by rewrite Hs]|]. by rewrite lookup_insert_eq, Hs.
    + split; cbn; [exact Hc|]. rewrite lookup_insert_eq. intros ? [= <-]. split; cbn; [done|by auto|done].
  - destruct Hok as [Hc _]. split; cbn; [done|]. unfold session_removed. by rewrite lookup_delete_eq.
  - unfold whereabouts_context. destruct (_ !! other); [|done]. destruct (Evidence_location e); [|done].
    destruct (on_prompt _ _). cbn. by rewrite lookup_insert_ne.
  - unfold reset_whereabouts. by rewrite lookup_alter_ne.
  - unfold registered. by rewrite lookup_insert_ne.
  - unfold session_removed. by rewrite lookup_delete_ne.
Qed.

Lemma conversations_ok sessions w : rtc scene_step (scene_start sessions) w -> scene_ok w.
Proof.
  intros H. remember (scene_start sessions) as s eqn:Hs.
  assert (scene_ok s) as Hok by (subst s; split; cbn; [done|by rewrite lookup_delete_eq]).
  clear Hs. induction H; [done|]. eauto using scene_step_ok.
Qed.

(** C37: An agent knows where its person is: whatever prompts came before, of its session and of others, however
    often its context was rebuilt (which resets what was announced) and whichever of its notes that left, and however often its session ended and
    was resumed, once a prompt of a live session has shown where the person is, that is what the agent believes,
    with one exception. Where the session had ended and was resumed, and nothing was announced since, an agent
    whose context still holds a note of before goes on believing that its person is away when they are back at
    the host. The same place shown twice in a row is announced once at most, and an agent whose person was at
    the host at every prompt since its session was registered is told nothing. *)
Theorem agent_knows_where sessions w a e location :
  rtc scene_step (scene_start sessions) w -> sc_sessions w !! session_id = Some a -> Evidence_location e = Some location ->
  (belief (sc_context (prompted e w)) = location
   \/ location = AtHost /\ sc_notes (prompted e w) = []
      /\ exists note, sc_context (prompted e w) = Some note /\ note ∈ sc_before w /\ note <> AtHost)
  /\ (forall e', Evidence_location e' = Some location -> sc_notes (prompted e' (prompted e w)) = sc_notes (prompted e w))
  /\ (Forall (eq AtHost) (sc_prompts w) -> sc_notes w = []).
Proof.
  intros Hw%conversations_ok Ha He. split_and!.
  - destruct (prompted_ok e w Hw) as [_ [|(Hat & Hn & Hb)]%(fun H => H a location Ha He)]; [by left|]. right. split_and!; [done..|].
    rewrite (prompted_live e w a location Ha He) in Hb |- *. by destruct (on_prompt location a).
  - intros e' He'. rewrite (prompted_live e w a location Ha He). destruct (on_prompt location a) as [a' told] eqn:Ho.
    erewrite prompted_live; [|apply lookup_insert_eq|exact He']. unfold on_prompt in Ho |- *.
    case_bool_decide as Hsame; injection Ho as <- _; [by rewrite bool_decide_eq_true_2|]. by rewrite bool_decide_eq_true_2.
  - intros Hhome. destruct (so_announced w Hw a Ha) as [_ Haway Hh]. by destruct (Haway (Hh Hhome)).
Qed.

Lemma registered_anew w :
  sc_sessions w !! session_id = None ->
  session_registered w
  = mkScene (<[session_id := Announced_default]> (sc_sessions w)) (sc_context w) [] [] (sc_notes w ++ sc_before w).
Proof. intros H. unfold session_registered, registered. by rewrite H. Qed.

(** A conversation whose session had ended starts over when it is resumed, though its history still holds
    the note that its person was away: back at the host, the agent goes on believing that. *)
Lemma forgotten_when_ended sessions away home :
  Evidence_location away = Some Away -> Evidence_location home = Some AtHost ->
  exists w, rtc scene_step (scene_start sessions) w /\ sc_sessions w !! session_id = Some Announced_default
  /\ belief (sc_context (prompted home w)) = Away.
Proof.
  intros Ha Hh. assert (sc_sessions (scene_start sessions) !! session_id = None) as H0 by apply lookup_delete_eq.
  set (live := <[session_id := mkAnnounced (Some Away) true]> (<[session_id := Announced_default]> (delete session_id sessions))).
  assert (delete session_id live !! session_id = None) as H1 by apply lookup_delete_eq.
  exists (mkScene (<[session_id := Announced_default]> (delete session_id live)) (Some Away) [] [] [Away]). split_and!.
  - eapply rtc_l; [apply SceneRegistered|]. rewrite (registered_anew _ H0). eapply rtc_l; [apply (ScenePrompt away)|].
    rewrite (prompted_live away _ Announced_default Away) by (done || apply lookup_insert_eq).
    eapply rtc_l; [apply SceneRemoved|].
    pose proof (registered_anew (mkScene (delete session_id live) (Some Away) [Away] [Away] []) H1) as Heq.
    apply rtc_once. cbn in Heq |- *. rewrite <- Heq. apply SceneRegistered.
  - apply lookup_insert_eq.
  - by rewrite (prompted_live home _ Announced_default AtHost) by (done || apply lookup_insert_eq).
Qed.
End conversation.

(** A conversation that was away before its context was rebuilt. *)
Definition away_evidence : Evidence := mkEvidence Unreadable (Some 0).
Definition home_evidence : Evidence := mkEvidence (IdleFor 0) None.
Definition away_once : Scene := mkScene {["s" := mkAnnounced None true]} (Some Away) [Away] [Away] [].

Lemma agent_knows_where_witness :
  rtc (scene_step "s") (scene_start "s" ∅) away_once /\ belief (sc_context (prompted "s" home_evidence away_once)) = AtHost.
Proof.
  assert (rtc (scene_step "s") (scene_start "s" ∅) away_once) as H.
  { eapply rtc_l; [apply SceneRegistered|]. eapply rtc_l; [apply (ScenePrompt "s" away_evidence)|].
    eapply rtc_l; [apply (SceneReset "s" (Some Away)); intros note [= <-]; vm_compute; constructor|]. apply rtc_refl. }
  split; [exact H|].
  destruct (agent_knows_where "s" ∅ away_once (mkAnnounced None true) home_evidence AtHost H eq_refl eq_refl)
    as [[Hb|(_ & Hn & _)] _]; [exact Hb|discriminate Hn].
Defined.
