(* ===== verification/Peers.v ===== *)
(** Peers of [peers.rs] and [peer_daemon.rs]: what another host may do here under a grant, what it started
    and therefore owns, and how a grant is taken back. Keys and JSON belong to other crates and are
    parameters; so are the managed sessions a start launches. *)
From S2P Require Import Prelude Text HostProtocol PrivateFile Protocol.

Local Open Scope N_scope.

Definition MAX_PEERS : N := 16.
Definition MAX_WORKSPACES : N := 32.
Definition MAX_STARTS : N := 256.
Definition MAX_LIVE : N := 2.
Definition MAX_STORE_BYTES : N := 512 * 1024.

(** ** Data *)

Record Descriptor := mkDescriptor { de_endpoint_id : string; de_name : string }.

Record Incoming := mkIncoming {
  in_peer : Descriptor; in_grant_id : string; in_issuer : string; in_workspace_ids : list string }.

Record Outgoing := mkOutgoing { ou_peer : Descriptor; ou_grant_id : string }.

Record StartRecord := mkStartRecord {
  sr_grant_id : string; sr_request_id : string; sr_workspace_id : string; sr_outcome : option LifecycleOutcome }.

Record Store := mkStore { st_incoming : list Incoming; st_outgoing : list Outgoing; st_starts : list StartRecord }.

Definition Store_default : Store := mkStore [] [] [].

Inductive Admin :=
| Describe
| Grant (peer : Descriptor) (workspace_ids : list string)
| Remember (link : Outgoing)
| Revoke (endpoint_id : string).

Inductive Action :=
| Workspaces
| Start (request_id workspace_id : string)
| Snapshot (session_id : string)
| Command (command : AgentCommand)
| Stop (session_id request_id : string) (expected_generation : N).

Record Request := mkRequest { rq_v : N; rq_grant_id : string; rq_action : Action }.

Definition peer_id_byte (b : ascii) : bool := is_ascii_alphanumeric b || is_byte [45; 95; 46] b.

Definition valid_id (value : string) : bool :=
  negb (slen value =? 0) && (slen value <=? 64) && sall peer_id_byte value.

Definition is_prompt_or_interrupt (kind : AgentCommandKind) : bool :=
  match kind with Prompt _ | Interrupt => true | _ => false end.

Definition Request_validate (r : Request) : result string unit :=
  refuse_if (negb (rq_v r =? 1) || negb (valid_id (rq_grant_id r))) "invalid_request"%string ?;
  refuse_if (negb (match rq_action r with
                   | Workspaces => true
                   | Start request_id workspace_id => valid_id request_id && valid_id workspace_id
                   | Snapshot session_id => valid_id session_id
                   | Stop session_id request_id expected_generation =>
                       valid_id session_id && valid_id request_id && (0 <? expected_generation)
                   | Command command => is_ok (AgentCommand_validate command) && is_prompt_or_interrupt (co_kind command)
                   end)) "invalid_request"%string.

(** The bytes a peer's ids are hashed from. *)
Definition command_id_text (grant id : string) : string :=
  ("ciao-peer-command-v1" ++ String "000" "" ++ grant ++ String "000" "" ++ id)%string.

(** What a request may do next to the store. *)
Inductive Performed :=
| ListWorkspaces (workspace_ids : list string)
| Launch (workspace_id command_id : string)
| Replay (outcome : LifecycleOutcome)
| ReadSnapshot (session_id : string)
| Submit (command : AgentCommand)
| StopWorker (session_id command_id : string) (expected_generation : N).

Section peers.
(** [iroh]'s keys as text, [serde_json], SHA-256 in hexadecimal, the user the daemon runs as. *)
Context {EndpointId : Type} (to_string : EndpointId -> string) (from_str : string -> option EndpointId).
Context (to_vec : Store -> option bytes) (from_slice : bytes -> option Store).
Context (sha256_hex : string -> string) (effective_uid : N) (host_endpoint_id : EndpointId).

Definition command_id (grant id : string) : string := sha256_hex (command_id_text grant id).

Definition Descriptor_validate (d : Descriptor) : result string unit :=
  let? id := ok_or (from_str (de_endpoint_id d)) "invalid_key"%string in
  refuse_if (negb (to_string id =s? de_endpoint_id d) || (slen (de_name d) =? 0) || (128 <? slen (de_name d))
             || existsb is_control (chars (de_name d))) "invalid_peer"%string.

Definition endpoint_of (g : Incoming) : string := de_endpoint_id (in_peer g).
Definition link_endpoint (l : Outgoing) : string := de_endpoint_id (ou_peer l).

(** One grant, after those whose endpoints and grant ids are given. *)
Definition check_incoming (endpoints grants : list string) (g : Incoming) : result string unit :=
  Descriptor_validate (in_peer g) ?;
  refuse_if (is_none (from_str (in_issuer g))) "invalid_key"%string ?;
  refuse_if (negb (valid_id (in_grant_id g)) || bool_decide (endpoint_of g ∈ endpoints)
             || bool_decide (in_grant_id g ∈ grants) || (len (in_workspace_ids g) =? 0)
             || (MAX_WORKSPACES <? len (in_workspace_ids g)) || existsb (fun id => negb (valid_id id)) (in_workspace_ids g)
             || negb (bool_decide (NoDup (in_workspace_ids g)))) "invalid_grant"%string.

Fixpoint check_incomings (endpoints grants : list string) (l : list Incoming) : result string unit :=
  match l with
  | [] => Ok tt
  | g :: rest => check_incoming endpoints grants g ?; check_incomings (endpoint_of g :: endpoints) (in_grant_id g :: grants) rest
  end.

Definition check_outgoing (l : Outgoing) : result string unit :=
  Descriptor_validate (ou_peer l) ?; refuse_if (negb (valid_id (ou_grant_id l))) "invalid_link"%string.

Definition claim_key (r : StartRecord) : string * string := (sr_grant_id r, sr_request_id r).

Fixpoint check_starts (grants : list string) (claims : list (string * string)) (l : list StartRecord) : result string unit :=
  match l with
  | [] => Ok tt
  | r :: rest =>
      refuse_if (negb (bool_decide (sr_grant_id r ∈ grants)) || negb (valid_id (sr_request_id r))
                 || negb (valid_id (sr_workspace_id r)) || bool_decide (claim_key r ∈ claims)) "invalid_claim"%string ?;
      refuse_if (is_some_and (fun o => is_err (LifecycleOutcome_validate o)) (sr_outcome r)) "invalid_outcome"%string ?;
      check_starts grants (claim_key r :: claims) rest
  end.

Definition Store_validate (s : Store) : result string unit :=
  refuse_if ((MAX_PEERS <? len (st_incoming s)) || (MAX_PEERS <? len (st_outgoing s)) || (MAX_STARTS <? len (st_starts s)))
    "peer_limit"%string ?;
  check_incomings [] [] (st_incoming s) ?;
  each_distinct check_outgoing link_endpoint "invalid_link"%string [] (st_outgoing s) ?;
  check_starts (in_grant_id <$> st_incoming s) [] (st_starts s).

(** ** The store and its file *)

Record Peers := mkPeers { pe_store : Store; pe_disk : Disk }.

Definition load (disk : Disk) : result string Peers :=
  match disk with
  | NotFound => Ok (mkPeers Store_default disk)
  | Uninspectable => Err "io"%string
  | Present metadata contents =>
      map_err (fun _ => "insecure"%string) (validate_private_file effective_uid metadata) ?;
      let? encoded := ok_or contents "io"%string in
      refuse_if (MAX_STORE_BYTES <? len encoded) "peer_store_too_large"%string ?;
      let? store := ok_or (from_slice encoded) "malformed"%string in
      Store_validate store ?;
      Ok (mkPeers store disk)
  end.

(** [change]: the memory is replaced once the file was. *)
Definition change {A} (failed_at : option write_step) (f : Store -> result string (Store * A)) (p : Peers)
  : Peers * result string A :=
  match f (pe_store p) with
  | Err e => (p, Err e)
  | Ok (next, value) =>
      if is_err (Store_validate next) then (p, Err "invalid_peer_state"%string)
      else
        match to_vec next with
        | None => (p, Err "storage_failed"%string)
        | Some encoded =>
            if MAX_STORE_BYTES <? len encoded then (p, Err "peer_limit"%string)
            else
              match atomic_write_private effective_uid failed_at encoded (pe_disk p) with
              | (disk, Ok _) => (mkPeers next disk, Ok value)
              | (disk, Err _) => (mkPeers (pe_store p) disk, Err "storage_failed"%string)
              end
        end
  end.

Definition incoming (endpoint : EndpointId) (grant_id : option string) (p : Peers) : option Incoming :=
  List.find (fun g => (endpoint_of g =s? to_string endpoint)
                      && match grant_id with Some id => id =s? in_grant_id g | None => true end) (st_incoming (pe_store p)).

Definition owned_start (grant_id session : string) (r : StartRecord) : bool :=
  (sr_grant_id r =s? grant_id)
  && is_some_and (fun o => (lo_state o =s? "accepted") && bool_decide (lo_session_id o = Some session)) (sr_outcome r).

Definition owns (grant_id session : string) (p : Peers) : bool :=
  existsb (owned_start grant_id session) (st_starts (pe_store p)).

Definition revoked (endpoint : string) (s : Store) : Store :=
  let grants := in_grant_id <$> List.filter (fun g => endpoint_of g =s? endpoint) (st_incoming s) in
  mkStore (List.filter (fun g => negb (endpoint_of g =s? endpoint)) (st_incoming s))
    (List.filter (fun l => negb (link_endpoint l =s? endpoint)) (st_outgoing s))
    (List.filter (fun r => negb (bool_decide (sr_grant_id r ∈ grants))) (st_starts s)).

Definition revoke (failed_at : option write_step) (endpoint : string) (p : Peers) : Peers * result string unit :=
  change failed_at (fun s => Ok (revoked endpoint s, tt)) p.

(** [failures] is where each write fails, if it does. *)
Fixpoint revoke_each (failures : list (option write_step)) (endpoints : list string) (p : Peers) : Peers * result string unit :=
  match endpoints with
  | [] => (p, Ok tt)
  | endpoint :: rest =>
      match revoke (default None (head failures)) endpoint p with
      | (p, Ok _) => revoke_each (tail failures) rest p
      | (p, Err e) => (p, Err e)
      end
  end.

Definition revoke_issuer (failures : list (option write_step)) (issuer : string) (p : Peers) : Peers * result string unit :=
  revoke_each failures (endpoint_of <$> List.filter (fun g => in_issuer g =s? issuer) (st_incoming (pe_store p))) p.

(** ** Introductions *)

(** [authorized] is the allowlist's word on the issuer, asked again under the gate; [grant_id] is random. *)
Definition grant (failed_at : option write_step) (issuer : option EndpointId) (peer : Descriptor) (workspace_ids known : list string)
    (grant_id : string) (p : Peers) : Peers * result string string :=
  match
    map_err (fun _ => "invalid_peer"%string) (Descriptor_validate peer) ?;
    refuse_if (de_endpoint_id peer =s? to_string host_endpoint_id) "self_link"%string ?;
    refuse_if ((len workspace_ids =? 0) || (MAX_WORKSPACES <? len workspace_ids)
               || existsb (fun id => negb (existsb (String.eqb id) known)) workspace_ids) "unknown_workspace"%string
  with
  | Err e => (p, Err e)
  | Ok _ =>
      let g := mkIncoming peer grant_id (to_string (default host_endpoint_id issuer)) workspace_ids in
      change failed_at
        (fun s =>
           refuse_if (existsb (fun g' => endpoint_of g' =s? de_endpoint_id peer) (st_incoming s)) "already_linked"%string ?;
           refuse_if (MAX_PEERS <=? len (st_incoming s)) "peer_limit"%string ?;
           Ok (mkStore (st_incoming s ++ [g]) (st_outgoing s) (st_starts s), grant_id)) p
  end.

Definition remember (failed_at : option write_step) (link : Outgoing) (p : Peers) : Peers * result string unit :=
  match
    map_err (fun _ => "invalid_peer"%string) (Descriptor_validate (ou_peer link)) ?;
    refuse_if (negb (valid_id (ou_grant_id link)) || (link_endpoint link =s? to_string host_endpoint_id)) "invalid_link"%string
  with
  | Err e => (p, Err e)
  | Ok _ =>
      change failed_at
        (fun s =>
           refuse_if (existsb (fun l => link_endpoint l =s? link_endpoint link) (st_outgoing s)) "already_linked"%string ?;
           refuse_if (MAX_PEERS <=? len (st_outgoing s)) "peer_limit"%string ?;
           Ok (mkStore (st_incoming s) (st_outgoing s ++ [link]) (st_starts s), tt)) p
  end.

(** ** Requests *)

Definition find_start (grant_id request_id : string) (s : Store) : option StartRecord :=
  List.find (fun r => (sr_grant_id r =s? grant_id) && (sr_request_id r =s? request_id)) (st_starts s).

(** The workers a grant has: [live] are the managed sessions said to be live. *)
Definition live_count (grant_id : string) (live : list string) (p : Peers) : N :=
  len (List.filter (fun session => owns grant_id session p) live)
  + len (List.filter (fun r => (sr_grant_id r =s? grant_id) && is_none (sr_outcome r)) (st_starts (pe_store p))).

Definition push_start (grant_id request_id workspace_id : string) (s : Store) : result string (Store * unit) :=
  refuse_if (MAX_STARTS <=? len (st_starts s)) "request_limit"%string ?;
  Ok (mkStore (st_incoming s) (st_outgoing s) (st_starts s ++ [mkStartRecord grant_id request_id workspace_id None]), tt).

(** The [Start] arm of [execute], up to the launch. *)
Definition start (failed_at : option write_step) (g : Incoming) (request_id workspace_id : string) (live : list string) (p : Peers)
  : Peers * result string Performed :=
  if negb (existsb (String.eqb workspace_id) (in_workspace_ids g)) then (p, Err "authorization_denied"%string)
  else
    match find_start (in_grant_id g) request_id (pe_store p) with
    | Some record =>
        if negb (sr_workspace_id record =s? workspace_id) then (p, Err "request_id_reused"%string)
        else (p, rmap Replay (ok_or (sr_outcome record) "outcome_unknown"%string))
    | None =>
        if MAX_LIVE <=? live_count (in_grant_id g) live p then (p, Err "worker_limit"%string)
        else
          let '(p, r) := change failed_at (push_start (in_grant_id g) request_id workspace_id) p in
          (p, rmap (fun _ => Launch workspace_id (command_id (in_grant_id g) ("start/" ++ request_id))) r)
    end.

Definition set_outcome (outcome : LifecycleOutcome) (r : StartRecord) : StartRecord :=
  mkStartRecord (sr_grant_id r) (sr_request_id r) (sr_workspace_id r) (Some outcome).

(** Its end, once [managed_start] answered. *)
Definition record_start (failed_at : option write_step) (grant_id request_id : string) (outcome : LifecycleOutcome) (p : Peers)
  : Peers * result string LifecycleOutcome :=
  change failed_at
    (fun s =>
       match find_start grant_id request_id s with
       | None => Err "outcome_unknown"%string
       | Some _ =>
           Ok (mkStore (st_incoming s) (st_outgoing s)
                 (update_first (fun r => (sr_grant_id r =s? grant_id) && (sr_request_id r =s? request_id)) (set_outcome outcome)
                    (st_starts s)), outcome)
       end) p.

(** [execute], under the gate. *)
Definition execute (failed_at : option write_step) (id : EndpointId) (request : Request) (live known : list string) (p : Peers)
  : Peers * result string Performed :=
  match Request_validate request with
  | Err e => (p, Err e)
  | Ok _ =>
      match incoming id (Some (rq_grant_id request)) p with
      | None => (p, Err "authorization_denied"%string)
      | Some g =>
          let if_owned session performed :=
            (p, if owns (in_grant_id g) session p then Ok performed else Err "authorization_denied"%string) in
          match rq_action request with
          | Workspaces => (p, Ok (ListWorkspaces (List.filter (fun w => existsb (String.eqb w) (in_workspace_ids g)) known)))
          | Start request_id workspace_id => start failed_at g request_id workspace_id live p
          | Snapshot session_id => if_owned session_id (ReadSnapshot session_id)
          | Command command =>
              if_owned (co_session_id command)
                (Submit (mkAgentCommand (co_v command) (command_id (in_grant_id g) (co_command_id command)) (co_session_id command)
                           (co_snapshot_epoch command) (co_expected_generation command) (co_expected_revision command) (co_kind command)))
          | Stop session_id request_id expected_generation =>
              if_owned session_id
                (StopWorker session_id (command_id (in_grant_id g) ("stop/" ++ request_id)) expected_generation)
          end
      end
  end.

(** ** Connections *)

Inductive ServeRefusal := AccessDenied | PeerBusy.

(** [serve] up to the request: [before] and [p] are the grants before the gate and under it. *)
Definition serve_admit (id : EndpointId) (stable_id : N) (before p : Peers) (connections : gmap string N)
  : gmap string N * result ServeRefusal unit :=
  if is_none (incoming id None before) || is_none (incoming id None p) then (connections, Err AccessDenied)
  else if is_some (connections !! to_string id) || (MAX_PEERS <=? N.of_nat (size connections)) then (connections, Err PeerBusy)
  else (<[to_string id := stable_id]> connections, Ok tt).

(** Its end: a revoke may have removed the entry, and a newer connection have taken it. *)
Definition serve_end (id : EndpointId) (stable_id : N) (connections : gmap string N) : gmap string N :=
  if bool_decide (connections !! to_string id = Some stable_id) then delete (to_string id) connections else connections.

(** The connection closed, if any. *)
Definition close (endpoint : string) (connections : gmap string N) : gmap string N * option N :=
  (delete endpoint connections, connections !! endpoint).

(** What an introduction answers. *)
Inductive Introduced := Described (workspaces : list WorkspaceDescriptor) (incomplete : bool) | Granted (grant_id : string) | Remembered | Revoked.

(** The loop of [description_result]: [fits] is whether the encoded answer fits its line. *)
Fixpoint describe_loop (fits : list WorkspaceDescriptor -> bool -> bool) (fuel : nat) (workspaces : list WorkspaceDescriptor)
    (incomplete : bool) : result string Introduced :=
  if fits workspaces incomplete then Ok (Described workspaces incomplete)
  else
    match fuel, workspaces with
    | S fuel, _ :: _ => describe_loop fits fuel (removelast workspaces) true
    | _, _ => Err "response_too_large"%string
    end.

Definition description_result (fits : list WorkspaceDescriptor -> bool -> bool) (projects : AgentWorkspaceList) : result string Introduced :=
  let incomplete := wl_scan_incomplete projects || (0 <? wl_omitted_workspaces projects)
                    || (MAX_WORKSPACES <? len (wl_workspaces projects)) in
  let workspaces := take (N.to_nat MAX_WORKSPACES) (wl_workspaces projects) in
  describe_loop fits (length workspaces) workspaces incomplete.

(** [admin]; [authorized] and [still_authorized] are the allowlist's answers, before and under the gate. *)
Definition admin (failed_at : option write_step) (authorized still_authorized : bool) (issuer : option EndpointId)
    (fits : list WorkspaceDescriptor -> bool -> bool) (projects : AgentWorkspaceList) (grant_id : string) (action : Admin) (p : Peers)
  : Peers * result string Introduced :=
  if is_some issuer && negb (authorized && still_authorized) then (p, Err "authorization_denied"%string)
  else
    match action with
    | Describe => (p, description_result fits projects)
    | Grant peer workspace_ids =>
        let '(p, r) := grant failed_at issuer peer workspace_ids (wd_workspace_id <$> wl_workspaces projects) grant_id p in
        (p, rmap Granted r)
    | Remember link => let '(p, r) := remember failed_at link p in (p, rmap (fun _ => Remembered) r)
    | Revoke endpoint_id =>
        if is_none (from_str endpoint_id) then (p, Err "invalid_peer"%string)
        else let '(p, r) := revoke failed_at endpoint_id p in (p, rmap (fun _ => Revoked) r)
    end.

(** ** What a change leaves *)

Definition store_reads : Prop := forall s encoded, to_vec s = Some encoded -> from_slice encoded = Some s.

Definition holds_on_disk (s : Store) (disk : Disk) : Prop := load disk = Ok (mkPeers s disk).

Definition copies (P : Store -> Prop) (p : Peers) : Prop :=
  P (pe_store p) /\ exists s, holds_on_disk s (pe_disk p) /\ P s.

Lemma load_written s encoded :
  store_reads -> to_vec s = Some encoded -> len encoded <= MAX_STORE_BYTES -> Store_validate s = Ok tt ->
  holds_on_disk s (private_file effective_uid encoded).
Proof.
  intros Hr He Hlen Hv. unfold holds_on_disk, load, private_file. rewrite private_file_valid. cbn.
  rewrite (proj2 (N.ltb_ge MAX_STORE_BYTES _)) by done. cbn. rewrite (Hr _ _ He). cbn. by rewrite Hv.
Qed.

Lemma change_cases {A} failed_at (f : Store -> result string (Store * A)) p :
  store_reads ->
  let '(p', r) := change failed_at f p in
  (exists next v, f (pe_store p) = Ok (next, v) /\ Store_validate next = Ok tt /\ r = Ok v /\ pe_store p' = next
     /\ holds_on_disk next (pe_disk p'))
  \/ (is_err r = true /\ pe_store p' = pe_store p
      /\ (pe_disk p' = pe_disk p
          \/ exists next v, f (pe_store p) = Ok (next, v) /\ Store_validate next = Ok tt /\ holds_on_disk next (pe_disk p'))).
Proof.
  intros Hr. unfold change. destruct (f (pe_store p)) as [[next v]|e]; [|by right; auto].
  destruct (Store_validate next) as [[]|] eqn:Hv; cbn [is_err is_ok negb]; [|by right; auto].
  destruct (to_vec next) as [encoded|] eqn:He; [|by right; auto].
  destruct (N.ltb_spec MAX_STORE_BYTES (len encoded)); [by right; auto|].
  pose proof (load_written next encoded Hr He ltac:(done) Hv) as Hl.
  destruct (atomic_write_private _ _ _ _) as [disk w] eqn:Hw. apply atomic_write_cases in Hw as [[-> Hok]|[-> Herr]].
  - destruct w as [[]|]; [left; by exists next, v|]. right. split_and!; [done..|]. right. by exists next, v.
  - destruct w; [done|]. right. auto.
Qed.

Lemma change_copies {A} (P : Store -> Prop) failed_at (f : Store -> result string (Store * A)) p :
  store_reads -> copies P p ->
  (forall next v, f (pe_store p) = Ok (next, v) -> Store_validate next = Ok tt -> P next) ->
  copies P (change failed_at f p).1.
Proof.
  intros Hr [Hm (s & Hd & Hs)] Hnext. pose proof (change_cases failed_at f p Hr) as Hc.
  destruct (change failed_at f p) as [p' r]. cbn [fst].
  destruct Hc as [(next & v & Hf & Hv & _ & Hst & Hl)|(_ & Hst & [Hl|(next & v & Hf & Hv & Hl)])]; unfold copies; rewrite Hst.
  - split; [by eapply Hnext|]. exists next. split; [done|by eapply Hnext].
  - split; [done|]. exists s. by rewrite Hl.
  - split; [done|]. exists next. split; [done|by eapply Hnext].
Qed.

(** ** Every request and introduction *)

(** What a request launches. *)
Definition launched_by (request : Request) (r : result string Performed) : list (string * string) :=
  match rq_action request, r with
  | Start request_id _, Ok (Launch _ _) => [(rq_grant_id request, request_id)]
  | _, _ => []
  end.

Record World := mkWorld { wo_peers : Peers; wo_launched : list (string * string); wo_drawn : list string }.

(** Grants are made to the peers [allowed] only; a grant id is 128 random bits, never drawn before. *)
Inductive peer_step (allowed : string -> Prop) : World -> World -> Prop :=
| PeerGrant failed_at issuer peer workspace_ids known grant_id p launched drawn :
    allowed (de_endpoint_id peer) -> grant_id ∉ drawn ->
    peer_step allowed (mkWorld p launched drawn)
      (mkWorld (grant failed_at issuer peer workspace_ids known grant_id p).1 launched (grant_id :: drawn))
| PeerRemember failed_at link p launched drawn :
    peer_step allowed (mkWorld p launched drawn) (mkWorld (remember failed_at link p).1 launched drawn)
| PeerRevoke failed_at endpoint p launched drawn :
    peer_step allowed (mkWorld p launched drawn) (mkWorld (revoke failed_at endpoint p).1 launched drawn)
| PeerRequest failed_at id request live known p launched drawn :
    peer_step allowed (mkWorld p launched drawn)
      (mkWorld (execute failed_at id request live known p).1
         (launched_by request (execute failed_at id request live known p).2 ++ launched) drawn)
| PeerAnswer failed_at grant_id request_id outcome p launched drawn :
    peer_step allowed (mkWorld p launched drawn) (mkWorld (record_start failed_at grant_id request_id outcome p).1 launched drawn)
| PeerRestart p p' launched drawn :
    load (pe_disk p) = Ok p' -> peer_step allowed (mkWorld p launched drawn) (mkWorld p' launched drawn).

(** A store that was ever written: it validates, its grants were drawn, and what its grants launched it
    remembers. *)
Record store_ok (launched : list (string * string)) (drawn : list string) (s : Store) : Prop := {
  so_valid : Store_validate s = Ok tt;
  so_drawn : forall g, g ∈ st_incoming s -> in_grant_id g ∈ drawn;
  so_launched : forall g request_id, g ∈ st_incoming s -> (in_grant_id g, request_id) ∈ launched ->
    find_start (in_grant_id g) request_id s <> None
}.

Lemma store_ok_more launched drawn grant_id s : store_ok launched drawn s -> store_ok launched (grant_id :: drawn) s.
Proof. intros []. split; [done| |done]. intros g Hg. right. by apply so_drawn0. Qed.

Lemma copies_impl (P Q : Store -> Prop) p : (forall s, P s -> Q s) -> copies P p -> copies Q p.
Proof. intros HPQ [Hm (s & Hd & Hs)]. split; [by apply HPQ|]. exists s. auto. Qed.

Lemma find_start_app grant_id request_id s extra :
  find_start grant_id request_id s <> None ->
  find_start grant_id request_id (mkStore (st_incoming s) (st_outgoing s) (st_starts s ++ extra)) <> None.
Proof. unfold find_start. cbn. intros H. induction (st_starts s) as [|x l IH]; [done|]. cbn in *. case_match; auto. Qed.

Lemma check_incomings_ok endpoints grants l :
  check_incomings endpoints grants l = Ok tt ->
  NoDup (endpoint_of <$> l) /\ NoDup (in_grant_id <$> l)
  /\ Forall (fun g => valid_id (in_grant_id g) = true /\ (endpoint_of g ∉ endpoints) /\ (in_grant_id g ∉ grants)) l.
Proof.
  revert endpoints grants. induction l as [|g l IH]; intros endpoints grants; cbn [check_incomings].
  - intros _. split_and!; constructor.
  - rewrite rbind_unit_ok. intros [Hg Hl]. destruct (IH _ _ Hl) as (He & Hi & Hall). clear IH Hl.
    unfold check_incoming in Hg. rewrite !rbind_unit_ok, !refuse_if_ok in Hg. destruct Hg as (_ & _ & Hg). b2p.
    rewrite !fmap_cons, !NoDup_cons, Forall_cons. rewrite Forall_forall in Hall.
    split_and!; try done; [..|apply Forall_forall; set_solver];
      intros (g' & Heq & Hin)%list_elem_of_fmap; destruct (Hall g' Hin) as (_ & Hne1 & Hne2); set_solver.
Qed.

Lemma store_valid_incoming s :
  Store_validate s = Ok tt ->
  NoDup (endpoint_of <$> st_incoming s) /\ NoDup (in_grant_id <$> st_incoming s)
  /\ Forall (fun g => valid_id (in_grant_id g) = true) (st_incoming s).
Proof.
  unfold Store_validate. rewrite !rbind_unit_ok. intros (_ & H & _). apply check_incomings_ok in H as (He & Hi & Hall).
  split_and!; [done..|]. eapply Forall_impl; [exact Hall|]. by intros g (? & _).
Qed.

Lemma incoming_found id grant_id p g :
  incoming id (Some grant_id) p = Some g ->
  g ∈ st_incoming (pe_store p) /\ endpoint_of g = to_string id /\ in_grant_id g = grant_id.
Proof. intros [Hg Hp]%find_some_elem. b2p. done. Qed.

Lemma store_ok_granted launched drawn g s :
  store_ok launched drawn s -> in_grant_id g ∉ drawn -> (forall grant_id r, (grant_id, r) ∈ launched -> grant_id ∈ drawn) ->
  Store_validate (mkStore (st_incoming s ++ [g]) (st_outgoing s) (st_starts s)) = Ok tt ->
  store_ok launched (in_grant_id g :: drawn) (mkStore (st_incoming s ++ [g]) (st_outgoing s) (st_starts s)).
Proof.
  intros [] Hf Hl Hv. split; cbn; [done|..].
  - intros g' [Hg'| ->%list_elem_of_singleton]%elem_of_app; [right; by apply so_drawn0|by left].
  - intros g' r [Hg'| ->%list_elem_of_singleton]%elem_of_app Hin; [by apply so_launched0|]. by apply Hl in Hin.
Qed.

Lemma find_filtered (keep : StartRecord -> bool) grant_id request_id s incoming' outgoing' :
  (forall r, sr_grant_id r = grant_id -> keep r = true) -> find_start grant_id request_id s <> None ->
  find_start grant_id request_id (mkStore incoming' outgoing' (List.filter keep (st_starts s))) <> None.
Proof.
  unfold find_start. cbn. intros Hk H. induction (st_starts s) as [|r l IH]; [done|]. cbn in *.
  destruct (String.eqb_spec (sr_grant_id r) grant_id) as [Hr|Hr]; cbn [andb] in *.
  - rewrite (Hk r Hr). cbn. destruct (String.eqb_spec (sr_grant_id r) grant_id); [|done]. cbn. case_match; [done|by apply IH].
  - case_match; [|by apply IH]. cbn. rewrite (proj2 (String.eqb_neq _ _)) by done. cbn. by apply IH.
Qed.

Lemma store_ok_revoked launched drawn endpoint s :
  store_ok launched drawn s -> Store_validate (revoked endpoint s) = Ok tt -> store_ok launched drawn (revoked endpoint s).
Proof.
  intros [] Hv. destruct (store_valid_incoming _ so_valid0) as (_ & Hnd & _).
  assert (forall g, g ∈ st_incoming (revoked endpoint s) -> g ∈ st_incoming s /\ endpoint_of g <> endpoint) as Hin.
  { intros g Hg. cbn in Hg. apply list_elem_of_In, List.filter_In in Hg as [Hg Hne]. b2p. by rewrite list_elem_of_In. }
  split; [done|..].
  - intros g [Hg _]%Hin. by apply so_drawn0.
  - intros g r [Hg Hne]%Hin Hl. unfold revoked. apply find_filtered; [|by apply so_launched0]. intros r' Hr'.
    apply negb_true_iff, bool_decide_eq_false. intros (g' & Heq & Hg')%list_elem_of_fmap.
    apply list_elem_of_In, List.filter_In in Hg' as [Hg' He']. apply list_elem_of_In in Hg'. b2p.
    assert (g = g') as ->; [|done]. apply (NoDup_fmap_inj_elem in_grant_id (st_incoming s)); [done..|]. congruence.
Qed.

Lemma find_start_pushed grant_id request_id workspace_id s :
  find_start grant_id request_id (mkStore (st_incoming s) (st_outgoing s) (st_starts s ++ [mkStartRecord grant_id request_id workspace_id None])) <> None.
Proof.
  unfold find_start. cbn. induction (st_starts s) as [|r l IH]; cbn; [by rewrite !String.eqb_refl|]. case_match; [done|exact IH].
Qed.

Lemma store_ok_pushed launched drawn grant_id request_id workspace_id s next u :
  store_ok launched drawn s -> push_start grant_id request_id workspace_id s = Ok (next, u) -> Store_validate next = Ok tt ->
  store_ok ((grant_id, request_id) :: launched) drawn next.
Proof.
  intros [] Hp Hv. unfold push_start in Hp. rewrite rbind_unit_ok in Hp. destruct Hp as [_ [= <- _]].
  split; cbn; [done|by apply so_drawn0|]. intros g r Hg [[= -> ->]|Hl]%elem_of_cons.
  - apply find_start_pushed.
  - by apply find_start_app, so_launched0.
Qed.

Lemma store_ok_answered launched drawn (p : StartRecord -> bool) outcome s :
  store_ok launched drawn s ->
  Store_validate (mkStore (st_incoming s) (st_outgoing s) (update_first p (set_outcome outcome) (st_starts s))) = Ok tt ->
  store_ok launched drawn (mkStore (st_incoming s) (st_outgoing s) (update_first p (set_outcome outcome) (st_starts s))).
Proof.
  intros [] Hv. split; cbn; [done|done|]. intros g r Hg Hl. specialize (so_launched0 g r Hg Hl). unfold find_start in *. cbn.
  clear Hv. induction (st_starts s) as [|x l IH]; [done|]. cbn in *.
  destruct (p x); cbn; destruct ((sr_grant_id x =s? in_grant_id g) && (sr_request_id x =s? r)); auto.
Qed.

Lemma store_ok_fewer launched launched' drawn s :
  (forall x, x ∈ launched -> x ∈ launched') -> store_ok launched' drawn s -> store_ok launched drawn s.
Proof. intros Hsub []. split; [done..|]. intros g r Hg Hl. apply so_launched0; auto. Qed.

Record world_ok (w : World) : Prop := {
  wk_copies : copies (store_ok (wo_launched w) (wo_drawn w)) (wo_peers w);
  wk_once : NoDup (wo_launched w);
  wk_drawn grant_id request_id : (grant_id, request_id) ∈ wo_launched w -> grant_id ∈ wo_drawn w
}.

Lemma grant_copies P failed_at issuer peer ws known gid p :
  store_reads -> copies P p ->
  (forall issuer, let s := pe_store p in let g := mkIncoming peer gid issuer ws in
     Store_validate (mkStore (st_incoming s ++ [g]) (st_outgoing s) (st_starts s)) = Ok tt ->
     P (mkStore (st_incoming s ++ [g]) (st_outgoing s) (st_starts s))) ->
  copies P (grant failed_at issuer peer ws known gid p).1.
Proof.
  intros Hr Hc Hnext. unfold grant. case_match; [|done]. apply change_copies; [done..|]. intros next v Hf Hv.
  rewrite !rbind_unit_ok in Hf. destruct Hf as (_ & _ & [= <- <-]). by apply Hnext.
Qed.

Lemma remember_copies P failed_at link p :
  store_reads -> copies P p ->
  (forall s, P s -> Store_validate (mkStore (st_incoming s) (st_outgoing s ++ [link]) (st_starts s)) = Ok tt ->
     P (mkStore (st_incoming s) (st_outgoing s ++ [link]) (st_starts s))) ->
  copies P (remember failed_at link p).1.
Proof.
  intros Hr Hc Hnext. unfold remember. case_match; [|done]. apply change_copies; [done..|]. intros next v Hf Hv.
  rewrite !rbind_unit_ok in Hf. destruct Hf as (_ & _ & [= <- <-]). apply Hnext; [apply Hc|done].
Qed.

Lemma record_start_copies P failed_at gid rid outcome p :
  store_reads -> copies P p ->
  (forall s pred, P s -> Store_validate (mkStore (st_incoming s) (st_outgoing s) (update_first pred (set_outcome outcome) (st_starts s))) = Ok tt ->
     P (mkStore (st_incoming s) (st_outgoing s) (update_first pred (set_outcome outcome) (st_starts s)))) ->
  copies P (record_start failed_at gid rid outcome p).1.
Proof.
  intros Hr Hc Hnext. unfold record_start. apply change_copies; [done..|]. intros next v Hf Hv.
  destruct (find_start gid rid (pe_store p)); [|done]. injection Hf as <- <-. apply Hnext; [apply Hc|done].
Qed.

Lemma revoke_copies P failed_at endpoint p :
  store_reads -> copies P p -> (Store_validate (revoked endpoint (pe_store p)) = Ok tt -> P (revoked endpoint (pe_store p))) ->
  copies P (revoke failed_at endpoint p).1.
Proof. intros Hr Hc Hnext. unfold revoke. apply change_copies; [done..|]. intros next v [= <- <-]. exact Hnext. Qed.

(** What a request does to the store: nothing, or a claim for a grant that is held and never made it. *)
Lemma execute_cases failed_at id request live known p :
  (exists r, execute failed_at id request live known p = (p, r) /\ launched_by request r = [])
  \/ exists g request_id workspace_id r,
       execute failed_at id request live known p = ((change failed_at (push_start (in_grant_id g) request_id workspace_id) p).1, r)
       /\ g ∈ st_incoming (pe_store p) /\ in_grant_id g = rq_grant_id request /\ endpoint_of g = to_string id
       /\ find_start (in_grant_id g) request_id (pe_store p) = None
       /\ launched_by request r = (if is_ok (change failed_at (push_start (in_grant_id g) request_id workspace_id) p).2
                                   then [(in_grant_id g, request_id)] else [])
       /\ live_count (in_grant_id g) live p < MAX_LIVE.
Proof.
  unfold execute. destruct (Request_validate request); [|left; eexists; split; [done|unfold launched_by; by repeat case_match]].
  destruct (incoming _ _ _) as [g|] eqn:Hg; [|left; eexists; split; [done|unfold launched_by; by repeat case_match]].
  apply incoming_found in Hg as (Hin & He & Hi). destruct (rq_action request) as [|rid wid|sid|c|sid rid gen] eqn:Ha;
    try (left; eexists; split; [done|unfold launched_by; rewrite Ha; by repeat case_match]).
  unfold start. destruct (negb _); [left; eexists; split; [done|unfold launched_by; by rewrite Ha]|].
  destruct (find_start (in_grant_id g) rid (pe_store p)) as [record|] eqn:Hfs.
  - destruct (negb _); left; eexists; (split; [done|]); unfold launched_by; rewrite Ha; [done|].
    by destruct (sr_outcome record).
  - destruct (N.leb_spec MAX_LIVE (live_count (in_grant_id g) live p)) as [|Hlt]; [left; eexists; split; [done|unfold launched_by; by rewrite Ha]|].
    right. exists g, rid, wid. destruct (change _ _ p) as [p' r] eqn:Hc. eexists. split_and!; [done..| |done].
    unfold launched_by. rewrite Ha, <- Hi. by destruct r.
Qed.

Lemma world_ok_request failed_at id request live known p launched drawn :
  store_reads -> world_ok (mkWorld p launched drawn) ->
  world_ok (mkWorld (execute failed_at id request live known p).1
              (launched_by request (execute failed_at id request live known p).2 ++ launched) drawn).
Proof.
  intros Hr [Hc Hnd Hd]. cbn [wo_peers wo_launched wo_drawn] in *.
  destruct (execute_cases failed_at id request live known p) as [(r & -> & Hl)|(g & rid & wid & r & -> & Hin & _ & _ & Hfs & Hl & _)];
    cbn [fst snd]; rewrite Hl; [done|].
  pose proof (change_cases failed_at (push_start (in_grant_id g) rid wid) p Hr) as Hcc.
  destruct (change _ _ p) as [p' r'] eqn:Hch. cbn [fst snd]. destruct Hcc as [(next & v & Hf & Hv & -> & Hst & Hdisk)|(Herr & _)].
  - cbn [is_ok app]. assert (store_ok ((in_grant_id g, rid) :: launched) drawn next) as Hn.
    { eapply store_ok_pushed; [apply Hc|done|done]. }
    split; cbn.
    + split; [by rewrite Hst|]. by exists next.
    + constructor; [|done]. intros Hin'. destruct Hc as [[] _]. by apply (so_launched0 g rid Hin Hin').
    + intros gid r0 [[= -> ->]|H]%elem_of_cons; [destruct Hc as [[] _]; by apply so_drawn0|by eapply Hd].
  - destruct r'; [done|]. cbn [is_ok app]. split; cbn; [|done..].
    assert (p' = (change failed_at (push_start (in_grant_id g) rid wid) p).1) as -> by (by rewrite Hch).
    apply change_copies; [done..|]. intros next v Hf Hv.
    eapply store_ok_fewer; [|eapply store_ok_pushed; [apply Hc|done|done]]. intros x Hx. by right.
Qed.

Lemma world_ok_step allowed w w' : store_reads -> peer_step allowed w w' -> world_ok w -> world_ok w'.
Proof.
  intros Hr Hstep Hok. destruct Hstep as [f i peer ws known gid p la dr Ha Hf|f link p la dr|f e p la dr|f id rq live known p la dr|
    f gid rid o p la dr|p p' la dr Hl]; [..|by apply world_ok_request| |]; destruct Hok as [Hc Hnd Hd]; cbn [wo_peers wo_launched wo_drawn] in *.
  - split; cbn; [|done|intros g r H; right; by eapply Hd]. apply grant_copies; [done|eapply copies_impl; [apply store_ok_more|exact Hc]|].
    intros issuer s g Hv. apply (store_ok_granted la dr g); [apply Hc|done|exact Hd|done].
  - split; cbn; [|done..]. apply remember_copies; [done..|]. intros s [] Hv. by split.
  - split; cbn -[revoke]; [|done..]. apply revoke_copies; [done..|]. intros Hv. apply store_ok_revoked; [apply Hc|done].
  - split; cbn; [|done..]. apply record_start_copies; [done..|]. intros s pred Hs Hv. by apply store_ok_answered.
  - split; cbn; [|done..]. destruct Hc as [_ (s & Hd' & Hs)]. unfold holds_on_disk in Hd'. assert (p' = mkPeers s (pe_disk p)) as -> by congruence.
    split; [done|]. by exists s.
Qed.

Lemma world_ok_reachable allowed w w' : store_reads -> rtc (peer_step allowed) w w' -> world_ok w -> world_ok w'.
Proof. intros Hr. induction 1; eauto using world_ok_step. Qed.

Lemma world_start p : load (pe_disk p) = Ok p -> world_ok (mkWorld p [] (in_grant_id <$> st_incoming (pe_store p))).
Proof.
  intros Hl. assert (store_ok [] (in_grant_id <$> st_incoming (pe_store p)) (pe_store p)) as Hok.
  { split; [|intros g Hg; by apply list_elem_of_fmap_2|by intros g r _ H%not_elem_of_nil].
    destruct p as [s disk]. cbn in *. destruct disk as [| |metadata contents]; [by injection Hl as <-|done|].
    cbn in Hl. rewrite rbind_unit_ok, rbind_ok in Hl. destruct Hl as (_ & encoded & _ & Hl). rewrite rbind_unit_ok, rbind_ok in Hl.
    destruct Hl as (_ & s' & _ & Hl). rewrite rbind_unit_ok in Hl. by destruct Hl as [Hv [= <-]]. }
  split; cbn; [|constructor|by intros g r H%not_elem_of_nil]. split; [done|]. exists (pe_store p). split; [|done].
  unfold holds_on_disk. rewrite Hl. by destruct p.
Qed.

(** C11: a peer's start runs once: however peers are introduced, revoked, served and answered, whichever
    writes fail and however often the daemon restarts on its file, no start is launched twice under one
    grant and request id, every launch found room for it, and the file always loads. *)
Theorem peers_launch_once allowed p p' launched drawn :
  store_reads -> load (pe_disk p) = Ok p ->
  rtc (peer_step allowed) (mkWorld p [] (in_grant_id <$> st_incoming (pe_store p))) (mkWorld p' launched drawn) ->
  NoDup launched
  /\ (exists p2, load (pe_disk p') = Ok p2)
  /\ forall failed_at id request live known workspace_id cid,
       (execute failed_at id request live known p').2 = Ok (Launch workspace_id cid) ->
       exists request_id, launched_by request (Ok (Launch workspace_id cid)) = [(rq_grant_id request, request_id)]
       /\ ((rq_grant_id request, request_id) ∉ launched) /\ live_count (rq_grant_id request) live p' < MAX_LIVE.
Proof.
  intros Hr Hl Hrun. destruct (world_ok_reachable _ _ _ Hr Hrun (world_start p Hl)) as [Hc Hnd Hd]. cbn in *.
  split; [done|]. split; [destruct Hc as [_ (s & Hd' & _)]; by eexists|].
  intros f id rq live known wid cid Hex.
  destruct (execute_cases f id rq live known p') as [(r & Heq & Hnone)|(g & rid & wid' & r & Heq & Hin & Hg & _ & Hfs & Hlb & Hlive)];
    rewrite Heq in Hex; cbn in Hex; subst r.
  - exfalso. unfold execute in Heq. destruct (Request_validate rq); [|congruence]. destruct (incoming _ _ _); [|congruence].
    unfold launched_by in Hnone. destruct (rq_action rq); try discriminate; try congruence;
      destruct (owns _ _ _); congruence.
  - destruct (is_ok _).
    + exists rid. rewrite Hg in *. split_and!; [done| |done]. intros Hin'. destruct Hc as [[] _].
      by apply (so_launched0 g rid Hin); rewrite Hg.
    + exfalso. unfold execute in Heq. destruct (Request_validate rq); [|congruence]. destruct (incoming _ _ _); [|congruence].
      unfold launched_by in Hlb. destruct (rq_action rq); try discriminate; try congruence;
      destruct (owns _ _ _); congruence.
Qed.

(** ** Taking a grant back *)

Definition ungranted (endpoint : string) (s : Store) : Prop := forall g, g ∈ st_incoming s -> endpoint_of g <> endpoint.

Lemma revoked_ungranted endpoint s : ungranted endpoint (revoked endpoint s).
Proof. intros g Hg. cbn in Hg. apply list_elem_of_In, List.filter_In in Hg as [_ Hne]. by b2p. Qed.

Lemma revoke_done failed_at endpoint p p' :
  store_reads -> revoke failed_at endpoint p = (p', Ok tt) ->
  pe_store p' = revoked endpoint (pe_store p) /\ Store_validate (pe_store p') = Ok tt /\ holds_on_disk (pe_store p') (pe_disk p').
Proof.
  intros Hr Hv. unfold revoke in Hv.
  pose proof (change_cases failed_at (fun s => Ok (revoked endpoint s, tt)) p Hr) as Hc. rewrite Hv in Hc.
  destruct Hc as [(next & v & [= <- _] & Hok & _ & -> & Hd)|(H & _)]; done.
Qed.

Lemma ungranted_step endpoint w w' :
  store_reads -> peer_step (fun e => e <> endpoint) w w' ->
  copies (ungranted endpoint) (wo_peers w) -> copies (ungranted endpoint) (wo_peers w').
Proof.
  intros Hr Hstep Hc. destruct Hstep as [f i peer ws known gid p la dr Ha Hf|f link p la dr|f e p la dr|f id rq live known p la dr|
    f gid rid o p la dr|p p' la dr Hl]; cbn -[revoke execute] in *.
  - apply grant_copies; [done..|]. intros issuer s g _ g' [Hg| ->%list_elem_of_singleton]%elem_of_app; [by apply Hc|done].
  - apply remember_copies; auto.
  - apply revoke_copies; [done..|]. intros _ g Hg. cbn in Hg. apply list_elem_of_In, List.filter_In in Hg as [Hg _].
    apply Hc. by apply list_elem_of_In.
  - destruct (execute_cases f id rq live known p) as [(r & -> & _)|(g & rid & wid & r & -> & _)]; [done|].
    apply change_copies; [done..|]. intros next v Hf _. unfold push_start in Hf. rewrite rbind_unit_ok in Hf.
    destruct Hf as [_ [= <- _]]. apply Hc.
  - apply record_start_copies; auto.
  - destruct Hc as [_ (s & Hd & Hs)]. unfold holds_on_disk in Hd. assert (p' = mkPeers s (pe_disk p)) as -> by congruence.
    split; [done|]. by exists s.
Qed.

Lemma ungranted_reachable endpoint w w' :
  store_reads -> rtc (peer_step (fun e => e <> endpoint)) w w' ->
  copies (ungranted endpoint) (wo_peers w) -> copies (ungranted endpoint) (wo_peers w').
Proof. intros Hr. induction 1; eauto using ungranted_step. Qed.

Lemma Request_validate_err request e : Request_validate request = Err e -> e = "invalid_request"%string.
Proof. unfold Request_validate, refuse_if. destruct (_ || _); cbn; [congruence|]. destruct (negb _); cbn; congruence. Qed.

(** C10: a revoked peer is denied: once a revoke has succeeded, nothing that endpoint asks for is done,
    through other introductions, requests, failed writes and restarts, until somebody grants it again. *)
Theorem revoked_peer_denied failed_at id p p1 p2 launched launched' drawn drawn' :
  store_reads -> revoke failed_at (to_string id) p = (p1, Ok tt) ->
  rtc (peer_step (fun e => e <> to_string id)) (mkWorld p1 launched drawn) (mkWorld p2 launched' drawn') ->
  forall failed_at' request live known,
    execute failed_at' id request live known p2
      = (p2, Err (if is_ok (Request_validate request) then "authorization_denied" else "invalid_request")%string).
Proof.
  intros Hr Hrev Hrun f rq live known. apply revoke_done in Hrev as (Hst & _ & Hd); [|done].
  apply ungranted_reachable in Hrun as [Hm _]; [|done|split; [|exists (pe_store p1); split; [done|]]; cbn; rewrite Hst; apply revoked_ungranted].
  cbn in Hm. unfold execute. destruct (Request_validate rq) as [[]|e] eqn:Hv; cbn [is_ok].
  - destruct (incoming _ _ _) as [g|] eqn:Hg; [|done]. apply incoming_found in Hg as (Hin & He & _). by apply Hm in Hin.
  - by rewrite (Request_validate_err rq e).
Qed.

Lemma filter_filter_andb {A} (p q : A -> bool) l : List.filter p (List.filter q l) = List.filter (fun x => q x && p x) l.
Proof. induction l as [|x l IH]; [done|]. cbn. destruct (q x); cbn; [destruct (p x); cbn; by rewrite IH|done]. Qed.

Lemma revoke_each_done failures endpoints p p' :
  store_reads -> revoke_each failures endpoints p = (p', Ok tt) ->
  st_incoming (pe_store p') = List.filter (fun g => negb (bool_decide (endpoint_of g ∈ endpoints))) (st_incoming (pe_store p)).
Proof.
  intros Hr. revert failures p. induction endpoints as [|e l IH]; intros failures p; cbn [revoke_each].
  - intros [= ->]. symmetry. apply forallb_filter_id, forallb_forall. intros g _. by rewrite bool_decide_eq_false_2 by apply not_elem_of_nil.
  - destruct (revoke _ e p) as [p1 [[]|]] eqn:Hrev; [|done]. apply revoke_done in Hrev as (Hst & _); [|done].
    intros ->%IH. rewrite Hst. cbn [revoked st_incoming]. rewrite filter_filter_andb. apply filter_ext. intros g.
    destruct (String.eqb_spec (endpoint_of g) e) as [->|Hne]; cbn.
    + by rewrite bool_decide_eq_true_2 by apply list_elem_of_here.
    + f_equal. apply bool_decide_ext. rewrite elem_of_cons. naive_solver.
Qed.

(** Unpairing a phone takes back what it introduced: when [revoke_issuer] succeeds, exactly the grants
    that issuer made are gone, and the others stay as they were. *)
Theorem unpair_revokes_grants failures issuer p p' :
  store_reads -> Store_validate (pe_store p) = Ok tt -> revoke_issuer failures issuer p = (p', Ok tt) ->
  st_incoming (pe_store p') = List.filter (fun g => negb (in_issuer g =s? issuer)) (st_incoming (pe_store p)).
Proof.
  intros Hr Hv Hrev. apply revoke_each_done in Hrev; [|done]. rewrite Hrev. clear Hrev.
  destruct (store_valid_incoming _ Hv) as (Hnd & _ & _). apply filter_ext_in. intros g Hg%list_elem_of_In. f_equal.
  destruct (String.eqb_spec (in_issuer g) issuer) as [Hi|Hi]; apply bool_decide_eq_true || apply bool_decide_eq_false.
  - apply list_elem_of_fmap. exists g. split; [done|]. apply list_elem_of_In, List.filter_In. split; [by apply list_elem_of_In|].
    by apply String.eqb_eq.
  - intros (g' & Heq & Hg')%list_elem_of_fmap. apply list_elem_of_In, List.filter_In in Hg' as [Hg' Hi'%String.eqb_eq].
    apply list_elem_of_In in Hg'. assert (g = g') as ->; [|done]. by apply (NoDup_fmap_inj_elem endpoint_of (st_incoming (pe_store p))).
Qed.

(** ** One connection a peer *)

Inductive serve_step : gmap string N -> gmap string N -> Prop :=
| ServeAdmit id stable_id before p connections : serve_step connections (serve_admit id stable_id before p connections).1
| ServeEnd id stable_id connections : serve_step connections (serve_end id stable_id connections)
| ServeClose endpoint connections : serve_step connections (close endpoint connections).1.

(** A peer has one connection at a time and there are never more than 16: admission refuses a second
    one and never replaces the first, and the end of a connection only removes its own entry, not that
    of the connection admitted after a revoke closed it. *)
Theorem peer_connections connections :
  rtc serve_step ∅ connections ->
  N.of_nat (size connections) <= MAX_PEERS
  /\ (forall id stable_id before p connections' other held, serve_admit id stable_id before p connections = (connections', Ok tt) ->
        connections !! other = Some held -> connections' !! other = Some held)
  /\ (forall id stable_id held, connections !! to_string id = Some held -> held <> stable_id ->
        serve_end id stable_id connections = connections).
Proof.
  intros Hrun. split_and!.
  - enough (forall c, N.of_nat (size c) <= MAX_PEERS -> rtc serve_step c connections -> N.of_nat (size connections) <= MAX_PEERS) as H
      by by apply (H ∅).
    clear. intros c Hc Hrun. induction Hrun as [|c c1 c2 Hstep _ IH]; [done|]. apply IH. clear IH.
    destruct Hstep as [id sid before p c|id sid c|e c]; unfold serve_admit, serve_end, close.
    + destruct (_ || _); [done|]. destruct (_ || _) eqn:Hroom; [done|]. cbn. b2p.
      rewrite map_size_insert. destruct (c !! to_string id); cbn; lia.
    + case_bool_decide; [|done]. rewrite map_size_delete. destruct (c !! to_string id); cbn; lia.
    + cbn. rewrite map_size_delete. destruct (c !! e); cbn; lia.
  - intros id sid before p c' other held Ha Hother. unfold serve_admit in Ha. destruct (_ || _); [done|].
    destruct (connections !! to_string id) eqn:Hid; [done|]. cbn in Ha. destruct (MAX_PEERS <=? _); [done|].
    injection Ha as <-. rewrite lookup_insert_ne; [done|]. intros Heq. congruence.
  - intros id sid held Hid Hne. unfold serve_end. case_bool_decide; [|done]. congruence.
Qed.

(** ** Ids apart *)

Lemma app_nul_inj s1 s2 t1 t2 :
  sall peer_id_byte s1 = true -> sall peer_id_byte s2 = true ->
  (s1 ++ String "000" t1)%string = (s2 ++ String "000" t2)%string -> s1 = s2 /\ t1 = t2.
Proof.
  revert s2. induction s1 as [|a s1 IH]; intros [|b s2] H1 H2; cbn in *.
  - by intros [= ->].
  - intros [= <- _]. by vm_compute in H2.
  - intros [= -> _]. by vm_compute in H1.
  - intros [= -> Heq]. b2p. by destruct (IH s2 ltac:(done) ltac:(done) Heq) as [-> ->].
Qed.

(** What a peer's command id is hashed from tells its grant, so peers do not share receipts. *)
Lemma command_id_text_inj grant1 grant2 id1 id2 :
  valid_id grant1 = true -> valid_id grant2 = true ->
  command_id_text grant1 id1 = command_id_text grant2 id2 -> grant1 = grant2 /\ id1 = id2.
Proof.
  unfold valid_id, command_id_text. intros H1 H2 Heq. b2p. cbn in Heq. injection Heq as Heq. by apply app_nul_inj.
Qed.

End peers.
