(* ===== verification/LiveActivity.v ===== *)
(** The overview of [live_activity.rs]: what the agent supervisor, the managed directory and the verdicts
    on ended sessions claim of each session, cut to what a lock screen may show. *)
From S2P Require Import Prelude Text Protocol.

Local Open Scope N_scope.

Definition MAX_LIVE_ACTIVITY_ADAPTER_CHARACTERS : N := 32.
Definition MAX_LIVE_ACTIVITY_DISPLAY_BYTES : N := 64.

Record LiveActivityLabels := mkLiveActivityLabels { la_agent : string; la_workspace : string; la_prompt : option string }.

Record LiveActivitySessionFact := mkLiveActivitySessionFact { lf_state : string; lf_labels : option LiveActivityLabels }.

(** Of [managed_session.rs]. *)
Record ManagedSessionSummary := mkManagedSessionSummary {
  mm_session_id : string; mm_presence : string; mm_stored_reason : option string;
  mm_workspace_label : string; mm_process_generation : N; mm_updated_at : N }.

Abbreviation LiveActivityOverview := (gmap string LiveActivitySessionFact).

(** ** Text *)

(** [char::from]: the byte as a character of its own. *)
Definition latin1 (b : ascii) : string :=
  if nb b <? 128 then String b ""
  else String (ascii_of_N (192 + nb b / 64)) (String (ascii_of_N (128 + nb b mod 64)) "").

Definition bounded_ascii_token (value : string) (bytes : N) : string :=
  sconcat (latin1 <$> String.list_ascii_of_string (stake (N.to_nat bytes) value)).

Definition ellipsis : string := "…".

(** The characters pushed before the break. *)
Fixpoint pushed (content_bytes used : N) (cs : list string) : list string :=
  match cs with
  | [] => []
  | c :: cs => if content_bytes <? used + slen c then [] else c :: pushed content_bytes (used + slen c) cs
  end.

Definition bounded_utf8 (value : string) (bytes : N) : string :=
  if slen value <=? bytes then value
  else (sconcat (pushed (bytes - slen ellipsis) 0 (chars value)) +:+ ellipsis)%string.

(** ** States *)

Definition state_for (d : AgentSessionDescriptor) : string :=
  if de_presence d =s? "stored" then "stopped"
  else
    match de_turn d with
    | AwaitingInteraction _ => "needs_input"
    | Failed _ _ => "failed"
    | Running _ _ => if ob_coverage (de_observation d) =s? "authoritative" then "working" else "active"
    | Stopping _ => "stopping"
    | Completed _ | Interrupted _ => "done"
    | Idle => "idle"
    | TurnUnknown _ | TurnUnsupported => "unknown"
    end%string.

Definition state_priority (state : string) : N :=
  if state =s? "needs_input" then 0
  else if state =s? "failed" then 1
  else if state =s? "working" then 2
  else if state =s? "active" then 3
  else if state =s? "stopping" then 4
  else if state =s? "done" then 5
  else if state =s? "idle" then 6
  else if state =s? "stopped" then 7 else 8.

(** ** The overview *)

Definition stored_state (summary : ManagedSessionSummary) : string :=
  if bool_decide (mm_stored_reason summary = Some "worker_crash"%string) then "failed" else "stopped".

Definition add_stored (facts : LiveActivityOverview) (summary : ManagedSessionSummary) : LiveActivityOverview :=
  if mm_presence summary =s? "stored"
  then <[mm_session_id summary := mkLiveActivitySessionFact (stored_state summary) None]> facts else facts.

Definition labels_for (d : AgentSessionDescriptor) : LiveActivityLabels :=
  mkLiveActivityLabels (bounded_ascii_token (de_adapter_family d) MAX_LIVE_ACTIVITY_ADAPTER_CHARACTERS)
    (bounded_utf8 (de_workspace_display d) MAX_LIVE_ACTIVITY_DISPLAY_BYTES)
    (prompt ← de_recent_prompt d;
     if slen prompt =? 0 then None else Some (bounded_utf8 prompt MAX_LIVE_ACTIVITY_DISPLAY_BYTES)).

Definition add_descriptor (facts : LiveActivityOverview) (d : AgentSessionDescriptor) : LiveActivityOverview :=
  let state := match facts !! de_session_id d with
               | Some prior => if state_for d =s? "unknown" then lf_state prior else state_for d
               | None => state_for d
               end in
  <[de_session_id d := mkLiveActivitySessionFact state (Some (labels_for d))]> facts.

Definition project (descriptors : list AgentSessionDescriptor) (stored : list ManagedSessionSummary) (ended : gset string)
  : LiveActivityOverview :=
  let facts := gset_to_gmap (mkLiveActivitySessionFact "stopped" None) ended in
  foldl add_descriptor (foldl add_stored facts stored) descriptors.

Definition fact (overview : LiveActivityOverview) (session_id : string) : option LiveActivitySessionFact := overview !! session_id.

(** ** What a label may hold *)

Lemma pushed_prefix content_bytes used cs : exists rest, cs = pushed content_bytes used cs ++ rest.
Proof.
  revert used. induction cs as [|c cs IH]; intros used; [by exists []|]. cbn. destruct (content_bytes <? used + slen c); [by exists (c :: cs)|].
  destruct (IH (used + slen c)) as [rest Heq]. exists rest. cbn. by rewrite <- Heq.
Qed.

Lemma pushed_fits content_bytes used cs : used <= content_bytes -> used + slen (sconcat (pushed content_bytes used cs)) <= content_bytes.
Proof.
  revert used. induction cs as [|c cs IH]; intros used Hu; cbn [pushed]; [change (slen (sconcat [])) with 0; lia|].
  destruct (N.ltb_spec content_bytes (used + slen c)) as [|Hle]; [change (slen (sconcat [])) with 0; lia|].
  rewrite sconcat_cons, slen_app. specialize (IH _ Hle). lia.
Qed.

(** A label keeps its bound, is text still, and is the value itself or a cut of it marked by an ellipsis. *)
Lemma bounded_utf8_spec value bytes :
  3 <= bytes ->
  slen (bounded_utf8 value bytes) <= bytes
  /\ (utf8 value -> utf8 (bounded_utf8 value bytes))
  /\ (bounded_utf8 value bytes = value \/ exists kept rest, value = (kept +:+ rest)%string /\ rest <> ""%string
        /\ bounded_utf8 value bytes = (kept +:+ ellipsis)%string).
Proof.
  intros Hb. unfold bounded_utf8. destruct (N.leb_spec (slen value) bytes) as [Hle|Hlt]; [split_and!; auto|].
  change (slen ellipsis) with 3. destruct (pushed_prefix (bytes - 3) 0 (chars value)) as [rest Hrest].
  pose proof (pushed_fits (bytes - 3) 0 (chars value) ltac:(lia)) as Hf. split_and!.
  - rewrite slen_app. change (slen ellipsis) with 3. lia.
  - intros Hu. apply utf8_app; [|by repeat constructor|done]. unfold utf8 in *. rewrite Hrest in Hu.
    apply Forall_app in Hu as [Hu _]. rewrite chars_sconcat; [done|].
    eapply chars_shape_app_l. rewrite <- Hrest. apply chars_chars_shape.
  - right. exists (sconcat (pushed (bytes - 3) 0 (chars value))), (sconcat rest). rewrite <- sconcat_app, <- Hrest, sconcat_chars.
    split_and!; [done| |done]. intros Hnil. assert (slen value = slen (sconcat (pushed (bytes - 3) 0 (chars value)))) as Heq.
    { rewrite <- (sconcat_chars value) at 1. rewrite Hrest at 1. by rewrite sconcat_app, Hnil, str_app_nil_r. }
    lia.
Qed.

(** ** Who speaks for a session *)

(** What is known of a session that no one describes. *)
Definition verdict (stored : list ManagedSessionSummary) (ended : gset string) (id : string) : option string :=
  match List.find (fun s => (mm_presence s =s? "stored") && (mm_session_id s =s? id)) (rev stored) with
  | Some s => Some (stored_state s)
  | None => if bool_decide (id ∈ ended) then Some "stopped"%string else None
  end.

Lemma find_app {A} (p : A -> bool) l k :
  List.find p (l ++ k) = match List.find p l with Some x => Some x | None => List.find p k end.
Proof. induction l as [|x l IH]; [done|]. cbn. by destruct (p x). Qed.

Lemma stored_facts facts stored id :
  foldl add_stored facts stored !! id
  = match List.find (fun s => (mm_presence s =s? "stored") && (mm_session_id s =s? id)) (rev stored) with
    | Some s => Some (mkLiveActivitySessionFact (stored_state s) None)
    | None => facts !! id
    end.
Proof.
  revert facts. induction stored as [|s l IH]; intros facts; [done|]. cbn [foldl rev]. rewrite IH, find_app.
  destruct (List.find _ (rev l)); [done|]. cbn. unfold add_stored. destruct (mm_presence s =s? "stored"); cbn; [|done].
  destruct (String.eqb_spec (mm_session_id s) id) as [->|Hne]; [by rewrite lookup_insert_eq|by rewrite lookup_insert_ne].
Qed.

Lemma described_facts facts descriptors id :
  NoDup (de_session_id <$> descriptors) ->
  foldl add_descriptor facts descriptors !! id
  = match List.find (fun d => de_session_id d =s? id) descriptors with
    | Some d => Some (mkLiveActivitySessionFact
                        (if state_for d =s? "unknown" then default "unknown"%string (lf_state <$> facts !! id) else state_for d)
                        (Some (labels_for d)))
    | None => facts !! id
    end.
Proof.
  revert facts. induction descriptors as [|d l IH]; intros facts; [done|]. rewrite fmap_cons, NoDup_cons. intros [Hn Hnd].
  cbn [foldl List.find]. rewrite (IH _ Hnd). destruct (String.eqb_spec (de_session_id d) id) as [<-|Hne].
  - destruct (List.find _ l) as [d'|] eqn:Hf.
    { exfalso. apply find_some_elem in Hf as [Hin Heq]. b2p. apply Hn. rewrite <- Heq. by apply list_elem_of_fmap_2. }
    unfold add_descriptor. rewrite lookup_insert_eq. do 2 f_equal.
    destruct (facts !! de_session_id d) as [prior|]; cbn; destruct (String.eqb_spec (state_for d) "unknown") as [H|]; done.
  - assert (add_descriptor facts d !! id = facts !! id) as -> by by (unfold add_descriptor; rewrite lookup_insert_ne). done.
Qed.

(** Who speaks for a session on the lock screen: a descriptor gives the labels, and the state unless it
    only says unknown; then, or without one, the verdict of a stored record stands, a crash being a
    failure, and before it the verdict that the session ended; with none of these nothing is claimed. *)
Theorem overview_fact descriptors stored ended id :
  NoDup (de_session_id <$> descriptors) ->
  fact (project descriptors stored ended) id
  = match List.find (fun d => de_session_id d =s? id) descriptors with
    | Some d => Some (mkLiveActivitySessionFact
                        (if state_for d =s? "unknown" then default "unknown"%string (verdict stored ended id) else state_for d)
                        (Some (labels_for d)))
    | None => (fun state => mkLiveActivitySessionFact state None) <$> verdict stored ended id
    end.
Proof.
  intros Hnd. unfold fact, project. rewrite (described_facts _ _ _ Hnd), stored_facts. unfold verdict.
  rewrite lookup_gset_to_gmap. destruct (List.find _ (rev stored)) as [s|]; cbn; [done|].
  destruct (List.find _ descriptors); repeat case_guard; case_bool_decide; done.
Qed.
