(* ===== verification/Supervisor.v ===== *)
(** The supervisor ([agent_session.rs]): every live session, its routes, the ends it observed and the
    metadata behind them, and the operations that run under its lock. *)
From S2P Require Import Prelude Text Protocol Fit Reducer Metadata Reconcile Session History.
From S2P Require Import Bridge Timeline Registration.

Local Open Scope N_scope.

(** ** State *)

Inductive RouteContinuity := ExactLive | WorkspaceOnly.

Definition RouteContinuity_wire (c : RouteContinuity) : string :=
  match c with ExactLive => "exact_live" | WorkspaceOnly => "workspace_only" end.

Inductive AgentRouteProof :=
| Tmux (binary : string) (bridge_pid : N) (session_name session_id window_id pane_id : string)
    (pane_pid : N) (pane_tty : string)
| HerdrWorkspace (binary : string) (bridge_pid : N) (session_name pane_id terminal_id : string)
    (tab_id : option string).

Definition continuity (proof : AgentRouteProof) : RouteContinuity :=
  match proof with Tmux _ _ _ _ _ _ _ _ => ExactLive | HerdrWorkspace _ _ _ _ _ _ => WorkspaceOnly end.

Record RouteRecord := mkRouteRecord {
  rt_session_id : string;
  rt_process_generation : N;
  rt_proof : AgentRouteProof
}.

(** [SupervisorInner] and the metadata store behind the same operations. *)
Record Supervisor := mkSupervisor {
  sv_sessions : gmap string LiveSession;
  sv_routes : gmap string RouteRecord;
  sv_carried_history : gmap string (list TimelineEntry);
  sv_ended : gmap string N;
  sv_metadata : AgentMetadataStore
}.

Definition set_sessions (x : gmap string LiveSession) (sv : Supervisor) : Supervisor :=
  mkSupervisor x (sv_routes sv) (sv_carried_history sv) (sv_ended sv) (sv_metadata sv).
Definition set_routes (x : gmap string RouteRecord) (sv : Supervisor) : Supervisor :=
  mkSupervisor (sv_sessions sv) x (sv_carried_history sv) (sv_ended sv) (sv_metadata sv).
Definition set_carried (x : gmap string (list TimelineEntry)) (sv : Supervisor) : Supervisor :=
  mkSupervisor (sv_sessions sv) (sv_routes sv) x (sv_ended sv) (sv_metadata sv).
Definition set_ended (x : gmap string N) (sv : Supervisor) : Supervisor :=
  mkSupervisor (sv_sessions sv) (sv_routes sv) (sv_carried_history sv) x (sv_metadata sv).
Definition set_metadata (x : AgentMetadataStore) (sv : Supervisor) : Supervisor :=
  mkSupervisor (sv_sessions sv) (sv_routes sv) (sv_carried_history sv) (sv_ended sv) x.

(** [sessions.get_mut(session_id)] written back. *)
Definition put_session (session_id : string) (s : LiveSession) (sv : Supervisor) : Supervisor :=
  set_sessions (<[session_id := s]> (sv_sessions sv)) sv.

Record RegisteredAgentSession := mkRegisteredAgentSession {
  ra_session_id : string;
  ra_process_generation : N;
  ra_snapshot_epoch : N;
  ra_disconnect_token : string
}.

Definition rejected_receipt (command : AgentCommand) (state reason : string) (now : N) : CommandReceipt :=
  mkCommandReceipt (co_command_id command) (co_session_id command) (co_expected_generation command)
    (co_snapshot_epoch command) state now (Some reason) None.

(** The receipt a session writes under its own identity. *)
Definition session_receipt (session_id : string) (p : AgentSessionSnapshot) (command_id state : string)
    (reason evidence : option string) (now : N) : CommandReceipt :=
  mkCommandReceipt command_id session_id (ss_process_generation p) (ss_snapshot_epoch p) state now reason evidence.

Section supervisor.
(** The order a [HashMap] or [HashSet] is walked in, which the program may not rely on. *)
Context (iterate : forall A, gmap string A -> list (string * A)) (drain : gset string -> list string).
(** The encodings [serde_json] and [sha2] compute, and whether the metadata file could be replaced. *)
Context (sha256 : list N -> list N) (encoded_frame_len : AgentServerFrame -> N)
  (encoded_len : AgentMetadataFile -> N) (write_private : AgentMetadataFile -> bool).

(** ** Ends *)

(** [min_by_key]: the first of the least. *)
Fixpoint oldest_verdict (l : list (string * N)) : option (string * N) :=
  match l with
  | [] => None
  | x :: l => match oldest_verdict l with
              | Some y => if x.2 <=? y.2 then Some x else Some y
              | None => Some x
              end
  end.

(** The loop past the cap; each turn removes a verdict, so their count is enough fuel. *)
Fixpoint trim_verdicts (fuel : nat) (ended : gmap string N) : gmap string N :=
  match fuel with
  | O => ended
  | S fuel =>
      if MAX_ENDED_VERDICTS <? N.of_nat (size ended) then
        match oldest_verdict (iterate N ended) with
        | Some (oldest, _) => trim_verdicts fuel (delete oldest ended)
        | None => ended
        end
      else ended
  end.

Definition record_ended_verdict (now : N) (session_id : string) (ended : gmap string N) : gmap string N :=
  let ended := <[session_id := now]> ended in
  trim_verdicts (size ended) ended.

(** [if let Some(route_id) = session.route_id { inner.routes.remove(&route_id) }]. *)
Definition drop_route (s : LiveSession) (routes : gmap string RouteRecord) : gmap string RouteRecord :=
  match ls_route_id s with Some route_id => delete route_id routes | None => routes end.

(** A session removed with its route, and the end recorded. *)
Definition remove_session (now : N) (sv : Supervisor) (session_id : string) : Supervisor :=
  match sv_sessions sv !! session_id with
  | None => sv
  | Some old =>
      mkSupervisor (delete session_id (sv_sessions sv)) (drop_route old (sv_routes sv))
        (sv_carried_history sv) (record_ended_verdict now session_id (sv_ended sv)) (sv_metadata sv)
  end.

(** ** Receipts *)

Definition persist_and_publish_receipt (now : N) (receipt : CommandReceipt)
    (metadata : AgentMetadataStore) (s : LiveSession)
  : AgentMetadataStore * LiveSession * result MetadataError unit :=
  match Metadata.upsert_receipt encoded_len write_private metadata receipt now with
  | (metadata, Ok _) => (metadata, publish_receipt now receipt s, Ok tt)
  | (metadata, Err e) => (metadata, s, Err e)
  end.

(** A receipt the phone is owed whether or not it could be persisted. *)
Definition publish_regardless (now : N) (receipt : CommandReceipt) (metadata : AgentMetadataStore)
    (s : LiveSession) : AgentMetadataStore * LiveSession :=
  match persist_and_publish_receipt now receipt metadata s with
  | (metadata, s, Ok _) => (metadata, s)
  | (metadata, s, Err _) => (metadata, publish_receipt now receipt s)
  end.

Definition mark_outcome_unknown (now : N) (command : AgentCommand) (reason : string) (sv : Supervisor)
  : Supervisor * CommandReceipt :=
  let receipt := rejected_receipt command "outcome_unknown" reason now in
  match sv_sessions sv !! co_session_id command with
  | None => (sv, receipt)
  | Some s =>
      let s := set_ls_in_flight_commands (ls_in_flight_commands s ∖ {[co_command_id command]}) s in
      let '(metadata, s) := publish_regardless now receipt (sv_metadata sv) s in
      (put_session (co_session_id command) s (set_metadata metadata sv), receipt)
  end.

(** ** Commands *)

Definition stale_command (command : AgentCommand) (p : AgentSessionSnapshot) : bool :=
  negb (co_snapshot_epoch command =? ss_snapshot_epoch p)
  || negb (co_expected_generation command =? ss_process_generation p)
  || is_some_and (fun revision => negb (revision =? ss_revision p)) (co_expected_revision command).

(** A receipt persisted and published if it can be, and answered either way. *)
Definition answer_with (now : N) (command : AgentCommand) (state reason : string) (s : LiveSession)
    (sv : Supervisor) : Supervisor * CommandReceipt :=
  let receipt := rejected_receipt command state reason now in
  let '(metadata, s, _) := persist_and_publish_receipt now receipt (sv_metadata sv) s in
  (put_session (co_session_id command) s (set_metadata metadata sv), receipt).

(** What a submission answers before it takes the sessions' lock: the receipt is looked up under the
    metadata lock alone, which is let go of again. *)
Definition look_up (now : N) (command : AgentCommand) (metadata : AgentMetadataStore) : option CommandReceipt :=
  if is_err (AgentCommand_validate command)
  then Some (rejected_receipt command "rejected" "invalid_command" now)
  else match receipt metadata (co_command_id command) with
       | Some existing =>
           if (cr_session_id existing =s? co_session_id command)
              && (cr_snapshot_epoch existing =? co_snapshot_epoch command)
              && (cr_process_generation existing =? co_expected_generation command)
           then Some existing
           else Some (rejected_receipt command "rejected" "duplicate_command_id" now)
       | None => None
       end.

(** A bridge's channel, by the token drawn with it. *)
Definition bridge_channel (s : LiveSession) : option string :=
  (fun _ => ls_bridge_disconnect_token s) <$> ls_bridge_sender s.

(** What a submission leaves the sessions' lock with: its answer, or a clone of the bridge's sender and
    the receipt it will answer once the command is handed over. *)
Inductive CommandAdmission :=
| Answer (receipt : CommandReceipt)
| HandOver (channel : option string) (receipt : CommandReceipt).

(** The block under the sessions' lock. *)
Definition admit_command (now : N) (command : AgentCommand) (sv : Supervisor) : Supervisor * CommandAdmission :=
  match sv_sessions sv !! co_session_id command with
  | None => (sv, Answer (rejected_receipt command "unavailable" "session_unavailable" now))
  | Some s =>
      if stale_command command (ls_snapshot s)
      then let '(sv, receipt) := answer_with now command "stale" "snapshot_stale" s sv in (sv, Answer receipt)
      else if negb (AgentCapabilities_permits (ss_capabilities (ls_snapshot s)) (co_kind command))
      then let '(sv, receipt) := answer_with now command "unavailable" "command_not_advertised" s sv in
           (sv, Answer receipt)
      else
        let receipt := mkCommandReceipt (co_command_id command) (co_session_id command)
          (co_expected_generation command) (co_snapshot_epoch command) "sending" now None None in
        match persist_and_publish_receipt now receipt (sv_metadata sv) s with
        | (metadata, s, Err _) =>
            (put_session (co_session_id command) s (set_metadata metadata sv),
             Answer (rejected_receipt command "unavailable" "receipt_store_unavailable" now))
        | (metadata, s, Ok _) =>
            let s := set_ls_in_flight_commands ({[co_command_id command]} ∪ ls_in_flight_commands s) s in
            (put_session (co_session_id command) s (set_metadata metadata sv),
             HandOver (bridge_channel s) receipt)
        end
  end.

(** The queue a cloned sender still feeds: the session's, unless its bridge went or was replaced since. *)
Definition queue_of (session_id channel : string) (sv : Supervisor) : option (LiveSession * list AgentCommand) :=
  s ← sv_sessions sv !! session_id;
  queue ← ls_bridge_sender s;
  if ls_bridge_disconnect_token s =s? channel then Some (s, queue) else None.

(** [try_send] on the cloned sender, every lock let go of; [accepts] says whether the queue takes one
    more, and [orphan] whether a channel that is no session's any more still has its receiver. *)
Definition deliver (accepts : list AgentCommand -> bool) (orphan : bool) (now : N) (command : AgentCommand)
    (channel : option string) (receipt : CommandReceipt) (sv : Supervisor) : Supervisor * CommandReceipt :=
  match channel with
  | None => mark_outcome_unknown now command "bridge_disconnected" sv
  | Some channel =>
      match queue_of (co_session_id command) channel sv with
      | Some (s, queue) =>
          if accepts queue
          then (put_session (co_session_id command) (set_ls_bridge_sender (Some (queue ++ [command])) s) sv, receipt)
          else mark_outcome_unknown now command "bridge_backpressure" sv
      | None =>
          if orphan then (sv, receipt) else mark_outcome_unknown now command "bridge_backpressure" sv
      end
  end.

(** [submit_command_from] run with nothing in between its locks. *)
Definition submit_command_from (accepts : list AgentCommand -> bool) (now : N) (command : AgentCommand)
    (sv : Supervisor) : Supervisor * CommandReceipt :=
  match look_up now command (sv_metadata sv) with
  | Some receipt => (sv, receipt)
  | None =>
      match admit_command now command sv with
      | (sv, Answer receipt) => (sv, receipt)
      | (sv, HandOver channel receipt) => deliver accepts false now command channel receipt sv
      end
  end.

(** Submissions under way: each is a task of its own, and between any two of its steps another task's
    step or any other operation may run. *)
Inductive Submission :=
| Asked (now : N) (command : AgentCommand)
| LookedUp (now : N) (command : AgentCommand)
| HandingOver (command : AgentCommand) (channel : option string) (receipt : CommandReceipt)
| Answered (command : AgentCommand) (receipt : CommandReceipt).

Record Submitting := mkSubmitting { su_sv : Supervisor; su_tasks : list Submission }.

(** The steps of one task. *)
Inductive task_step (sv : Supervisor) : Submission -> Supervisor -> Submission -> Prop :=
| TaskAnswered now command receipt :
    look_up now command (sv_metadata sv) = Some receipt ->
    task_step sv (Asked now command) sv (Answered command receipt)
| TaskLooksUp now command :
    look_up now command (sv_metadata sv) = None ->
    task_step sv (Asked now command) sv (LookedUp now command)
| TaskRefused now command sv' receipt :
    admit_command now command sv = (sv', Answer receipt) ->
    task_step sv (LookedUp now command) sv' (Answered command receipt)
| TaskRecorded now command sv' channel receipt :
    admit_command now command sv = (sv', HandOver channel receipt) ->
    task_step sv (LookedUp now command) sv' (HandingOver command channel receipt)
| TaskHandsOver accepts orphan now command channel receipt sv' receipt' :
    deliver accepts orphan now command channel receipt sv = (sv', receipt') ->
    task_step sv (HandingOver command channel receipt) sv' (Answered command receipt').

(** A submission arrives, a task takes a step, or whatever else the supervisor does happens. *)
Inductive submitting_step (other : Supervisor -> Supervisor -> Prop) (st : Submitting) : Submitting -> Prop :=
| SubmissionArrives now command :
    submitting_step other st (mkSubmitting (su_sv st) (su_tasks st ++ [Asked now command]))
| SubmissionSteps i task sv' task' :
    su_tasks st !! i = Some task -> task_step (su_sv st) task sv' task' ->
    submitting_step other st (mkSubmitting sv' (<[i := task']> (su_tasks st)))
| OtherOperation sv' :
    other (su_sv st) sv' -> submitting_step other st (mkSubmitting sv' (su_tasks st)).

Definition final_states : list string := ["applied"; "rejected"; "outcome_unknown"]%string.

Definition record_bridge_receipt (now : N) (session_id command_id state : string)
    (evidence reason : option string) (sv : Supervisor) : Supervisor * option CommandReceipt :=
  if is_err (valid_opaque_id command_id) || is_err (valid_token state)
     || is_some_and (fun value => is_err (valid_token value)) evidence
     || is_some_and (fun value => is_err (valid_token value)) reason
     || negb (one_of state ("accepted" :: final_states)%string)
     || ((state =s? "applied") && is_none evidence)
  then (sv, None)
  else match sv_sessions sv !! session_id with
       | None => (sv, None)
       | Some s =>
           if negb (bool_decide (command_id ∈ ls_in_flight_commands s))
           then (sv, List.find (of_command command_id) (ss_latest_command_receipts (ls_snapshot s)))
           else
             let receipt := session_receipt session_id (ls_snapshot s) command_id state reason evidence now in
             match persist_and_publish_receipt now receipt (sv_metadata sv) s with
             | (metadata, s, Err _) => (put_session session_id s (set_metadata metadata sv), None)
             | (metadata, s, Ok _) =>
                 let s := if one_of state final_states
                          then set_ls_in_flight_commands (ls_in_flight_commands s ∖ {[command_id]}) s else s in
                 (put_session session_id s (set_metadata metadata sv), Some receipt)
             end
       end.
(** ** Bridges lost and sessions ended *)

(** The loop over in-flight commands whose receipts go out whatever the store says. *)
Definition give_up_in_flight (now : N) (session_id reason : string) (commands : list string)
    (metadata : AgentMetadataStore) (s : LiveSession) : AgentMetadataStore * LiveSession :=
  foldl (fun '(metadata, s) command_id =>
           publish_regardless now
             (session_receipt session_id (ls_snapshot s) command_id "outcome_unknown" (Some reason) None now)
             metadata s) (metadata, s) commands.

(** An adopted session whose hold ended is the user's own again. *)
Definition release_adopted (p : AgentSessionSnapshot) : AgentSessionSnapshot :=
  set_ss_pending_interactions [] (set_ss_topology "attached" p).

Definition bridge_disconnected (now : N) (session_id disconnect_token : string) (process_exited : bool)
    (sv : Supervisor) : Supervisor :=
  match sv_sessions sv !! session_id with
  | None => sv
  | Some s =>
      if negb (ls_bridge_disconnect_token s =s? disconnect_token) then sv
      else if process_exited then remove_session now sv session_id
      else
        let commands := drain (ls_in_flight_commands s) in
        let s := set_ls_in_flight_commands ∅ (set_ls_adapter_active false (set_ls_bridge_sender None s)) in
        let '(metadata, s) := give_up_in_flight now session_id "bridge_disconnected" commands (sv_metadata sv) s in
        let s := if ss_topology (ls_snapshot s) =s? "adopted" then over_snapshot release_adopted s else s in
        put_session session_id (downgrade_session now "bridge_disconnected" s) (set_metadata metadata sv)
  end.

Definition end_observed_session (now : N) (session_id : string) (process_generation : N) (sv : Supervisor)
  : Supervisor :=
  match sv_sessions sv !! session_id with
  | None => sv
  | Some s =>
      if is_some (ls_bridge_sender s)
         || negb (ss_process_generation (ls_snapshot s) =? process_generation) then sv
      else
        let ended := downgrade_session now "session_ended" (set_ls_route_id None (set_ls_adapter_active false s)) in
        set_ended (record_ended_verdict now session_id (sv_ended sv))
          (set_routes (drop_route s (sv_routes sv)) (put_session session_id ended sv))
  end.

Definition end_adopted_session (now : N) (session_id : string) (process_generation : N) (reason : string)
    (sv : Supervisor) : Supervisor :=
  match sv_sessions sv !! session_id with
  | None => sv
  | Some s =>
      if negb (ss_topology (ls_snapshot s) =s? "adopted")
         || negb (ss_process_generation (ls_snapshot s) =? process_generation) then sv
      else
        let ended := downgrade_session now reason
          (over_snapshot release_adopted
             (set_ls_route_id None (set_ls_adapter_active false (set_ls_bridge_sender None s)))) in
        set_routes (drop_route s (sv_routes sv)) (put_session session_id ended sv)
  end.

Definition remove_terminal_binding_if_current (now : N) (session_id : string) (binding : TerminalBinding)
    (sv : Supervisor) : Supervisor :=
  if is_some_and (fun s => bool_decide (ls_terminal_binding s = Some binding)) (sv_sessions sv !! session_id)
  then remove_session now sv session_id else sv.

Definition sweep_dead_sessions (process_exists : N -> bool) (now : N) (sv : Supervisor) : Supervisor :=
  let dead := fst <$> List.filter (fun '(_, s) => negb (process_exists (ls_process_id s)))
                        (iterate LiveSession (sv_sessions sv)) in
  foldl (remove_session now) sv dead.

Definition expire_stale_turn_claims (now : N) (sv : Supervisor) : Supervisor :=
  set_sessions (expire_stale_turn_claim now <$> sv_sessions sv) sv.

(** ** Routes *)

Definition downgrade_if_current (now : N) (route_id session_id : string) (process_generation : N)
    (reason : string) (sv : Supervisor) : Supervisor :=
  match sv_sessions sv !! session_id with
  | None => sv
  | Some s =>
      if opt_is (ls_route_id s) route_id && (ss_process_generation (ls_snapshot s) =? process_generation)
      then put_session session_id (downgrade_route now reason (set_ls_route_id None s))
             (set_routes (delete route_id (sv_routes sv)) sv)
      else sv
  end.

Record RouteFence := mkRouteFence {
  rf_process_id : N; rf_disconnect_token : string; rf_process_generation : N }.

(** What [refresh_route] reads before it asks the resolver. *)
Definition route_fence (session_id : string) (sv : Supervisor) : option RouteFence :=
  s ← sv_sessions sv !! session_id;
  if ls_adapter_active s && negb (ss_topology (ls_snapshot s) =s? "adopted")
  then Some (mkRouteFence (ls_process_id s) (ls_bridge_disconnect_token s)
               (ss_process_generation (ls_snapshot s)))
  else None.

Definition fence_holds (fence : RouteFence) (s : LiveSession) : bool :=
  ls_adapter_active s && (ls_process_id s =? rf_process_id fence)
  && (ls_bridge_disconnect_token s =s? rf_disconnect_token fence)
  && (ss_process_generation (ls_snapshot s) =? rf_process_generation fence).

Definition resolved_fallback (proof : option AgentRouteProof) (route_id : string) : TerminalFallback :=
  match proof with
  | Some proof =>
      mkTerminalFallback (RouteContinuity_wire (continuity proof)) (Some route_id)
        (match continuity proof with
         | WorkspaceOnly => Some "exact_context_unqualified"%string | ExactLive => None end) None None
  | None => mkTerminalFallback "unavailable" None (Some "durable_context_unavailable"%string) None None
  end.

(** What [refresh_route] writes once the resolver answered. *)
Definition install_route (now : N) (session_id : string) (fence : RouteFence)
    (proof : option AgentRouteProof) (route_draw : N) (sv : Supervisor) : Supervisor :=
  match sv_sessions sv !! session_id with
  | None => sv
  | Some s =>
      if negb (fence_holds fence s) then sv
      else
        let routes := drop_route s (sv_routes sv) in
        let commands := if ls_compatible s && is_some (ls_bridge_sender s) then ls_offered_commands s
                        else CommandCapabilities_none in
        let fallback := resolved_fallback proof (random_id route_draw) in
        let s := set_ls_route_id (tf_route_id fallback) s in
        let write p := set_ss_capabilities (set_ac_commands commands
                         (set_ac_terminal_continuity (tf_continuity fallback) (ss_capabilities p)))
                         (set_ss_terminal_fallback fallback p) in
        let s' := report now write
          (fun p => [ChTerminalFallback fallback; ChCapabilities (ss_capabilities p)]) s in
        set_routes
          (match proof with
           | Some proof => <[random_id route_draw :=
               mkRouteRecord session_id (ss_process_generation (ls_snapshot s)) proof]> routes
           | None => routes
           end) (put_session session_id s' sv)
  end.

(** ** Registrations *)

Context (fix_for : string -> option string) (live_distinct_for : string -> N).

Inductive RegisterError := RegistrationInvalid | ObserverCommands | StoreFailed (e : MetadataError).

(** The draws of one registration: the session id and epoch the store may need, the disconnect
    token and the adopted route. *)
Record Draws := mkDraws { dr_session : N; dr_epoch : N; dr_token : N; dr_route : N }.

(** The loop that fences a superseded bridge's commands; the first receipt that cannot be
    persisted ends it. *)
Fixpoint fence_in_flight (now : N) (session_id : string) (commands : list string)
    (metadata : AgentMetadataStore) (s : LiveSession)
  : AgentMetadataStore * LiveSession * result MetadataError unit :=
  match commands with
  | [] => (metadata, set_ls_in_flight_commands ∅ s, Ok tt)
  | command_id :: commands =>
      let receipt := session_receipt session_id (ls_snapshot s) command_id "outcome_unknown"
                       (Some "bridge_superseded"%string) None now in
      match persist_and_publish_receipt now receipt metadata s with
      | (metadata, s, Ok _) => fence_in_flight now session_id commands metadata s
      | (metadata, s, Err e) => (metadata, s, Err e)
      end
  end.

(** Sessions the process left behind without a bridge. *)
Definition superseded_by (process_id : N) (session_id : string) (sv : Supervisor) : list string :=
  fst <$> List.filter (fun '(id, s) => is_none (ls_bridge_sender s) && (ls_process_id s =? process_id)
                                       && negb (id =s? session_id))
            (iterate LiveSession (sv_sessions sv)).

(** What a same-process reconnect keeps of the session it replaces: canonical history and its
    source mappings, and nothing of another process or epoch. *)
Definition retained_history (previous : option LiveSession) (generation epoch : N)
  : gmap string SourceEntryMapping * list TimelineEntry * N :=
  match previous with
  | Some previous =>
      if (ss_process_generation (ls_snapshot previous) =? generation)
         && (ss_snapshot_epoch (ls_snapshot previous) =? epoch)
      then (ls_source_entries previous, ls_history previous, ls_next_sequence previous)
      else (∅, [], 1)
  | None => (∅, [], 1)
  end.

Definition new_session (now : N) (r : NormalizedRegistration) (sender : option (list AgentCommand))
    (snapshot : AgentSessionSnapshot) (token : string)
    (kept : gmap string SourceEntryMapping * list TimelineEntry * N) : LiveSession :=
  let '(sources, history, next_sequence) := kept in
  refresh_snapshot_window encoded_frame_len
    (mkLiveSession snapshot (nr_workspace_display r) (nr_workspace_path r) (nr_upstream_identity r) token
       (nr_process_id r) (nr_terminal_binding r) (nr_compatible r) (ac_commands (nr_capabilities r)) sender
       true None sources history next_sequence now None ∅ []).

(** The part of [register_new] after the store answered with an identity. *)
Definition install_session (now : N) (r : NormalizedRegistration) (sender : option (list AgentCommand))
    (mapped : option string) (minted : string * N * N * N) (draws : Draws) (sv : Supervisor)
  : Supervisor :=
  let '(session_id, generation, epoch, _) := minted in
  let snapshot := registered_snapshot r minted (granted_fallback r (dr_route draws))
    (drift_note_for fix_for live_distinct_for r)
    (receipts_for (sv_metadata sv) session_id generation epoch) in
  let sv := foldl (remove_session now) sv (superseded_by (nr_process_id r) session_id sv) in
  let sv := match mapped with
            | Some previous_id => if negb (previous_id =s? session_id) then remove_session now sv previous_id else sv
            | None => sv
            end in
  let previous := sv_sessions sv !! session_id in
  let routes := match previous with Some previous => drop_route previous (sv_routes sv) | None => sv_routes sv end in
  let session := new_session now r sender snapshot (random_id (dr_token draws))
                   (retained_history previous generation epoch) in
  mkSupervisor (<[session_id := session]> (sv_sessions sv)) routes (sv_carried_history sv)
    (delete session_id (sv_ended sv)) (sv_metadata sv).

(** Fence the live session the registration maps to, and take its revision. *)
Definition fence_live (now : N) (mapped : option string) (sv : Supervisor)
  : Supervisor * result MetadataError (option N) :=
  match mapped with
  | None => (sv, Ok None)
  | Some session_id =>
      match sv_sessions sv !! session_id with
      | None => (sv, Ok None)
      | Some s =>
          match fence_in_flight now session_id (drain (ls_in_flight_commands s)) (sv_metadata sv) s with
          | (metadata, s, Ok _) =>
              (put_session session_id s (set_metadata metadata sv), Ok (Some (ss_revision (ls_snapshot s))))
          | (metadata, s, Err e) => (put_session session_id s (set_metadata metadata sv), Err e)
          end
      end
  end.

Definition register_new (now : N) (r : NormalizedRegistration) (sender : option (list AgentCommand))
    (draws : Draws) (sv : Supervisor) : Supervisor * result RegisterError RegisteredAgentSession :=
  match NormalizedRegistration_validate r with
  | Err _ => (sv, Err RegistrationInvalid)
  | Ok _ =>
      let nonce_digest := digest sha256 (sv_metadata sv) (nr_process_nonce r) in
      let mapped := im_session_id <$> mapping_for sha256 (sv_metadata sv) (nr_upstream_identity r) in
      match fence_live now mapped sv with
      | (sv, Err e) => (sv, Err (StoreFailed e))
      | (sv, Ok live_revision) =>
          let preferred := if one_of (nr_topology r) ["managed"; "adopted"]%string
                           then Some (nr_upstream_identity r) else None in
          match register sha256 encoded_len write_private (sv_metadata sv) (nr_upstream_identity r) preferred
                  nonce_digest (nr_adapter_family r) (nr_adapter_version r) live_revision now
                  (dr_session draws) (dr_epoch draws) with
          | (metadata, Err e) => (set_metadata metadata sv, Err (StoreFailed e))
          | (metadata, Ok minted) =>
              let '(session_id, generation, epoch, _) := minted in
              (install_session now r sender mapped minted draws (set_metadata metadata sv),
               Ok (mkRegisteredAgentSession session_id generation epoch (random_id (dr_token draws))))
          end
      end
  end.

(** ** Observers *)

(** Whether the note says something else; its count alone does not. *)
Definition drift_identity_changed (old new : option DriftNote) : bool :=
  match old, new with
  | Some old, Some new =>
      negb (dn_state old =s? dn_state new) || negb (dn_vendor_version old =s? dn_vendor_version new)
      || negb (dn_tested old =s? dn_tested new) || negb (bool_decide (dn_fix old = dn_fix new))
  | None, None => false
  | _, _ => true
  end.

Definition observer_capabilities (r : NormalizedRegistration) (p : AgentSessionSnapshot) : AgentCapabilities :=
  set_ac_history (ac_history (ss_capabilities p))
    (set_ac_terminal_continuity (ac_terminal_continuity (ss_capabilities p))
       (set_ac_commands CommandCapabilities_none (nr_capabilities r))).

Definition facts_changed (r : NormalizedRegistration) (drift : option DriftNote) (s : LiveSession) : bool :=
  let p := ls_snapshot s in
  negb (bool_decide (ss_adapter p = adapter_of r))
  || negb (ss_control_owner p =s? nr_control_owner r)
  || negb (bool_decide (ss_observation p = nr_observation r))
  || negb (bool_decide (ss_capabilities p = observer_capabilities r p))
  || negb (ls_workspace_display s =s? nr_workspace_display r)
  || drift_identity_changed (ss_drift p) drift.

(** The assignments of a refresh that hold whether or not a fact changed. *)
Definition refreshed_session (now : N) (r : NormalizedRegistration) (drift : option DriftNote) (s : LiveSession)
  : LiveSession :=
  mkLiveSession (set_ss_drift drift (ls_snapshot s)) (nr_workspace_display r) (ls_workspace_path s)
    (ls_upstream_identity s) (ls_bridge_disconnect_token s) (nr_process_id r) (nr_terminal_binding r)
    (nr_compatible r) CommandCapabilities_none (ls_bridge_sender s) true (ls_open_run s)
    (ls_source_entries s) (ls_history s) (ls_next_sequence s) now (ls_route_id s)
    (ls_in_flight_commands s) (ls_updates s).

Definition set_facts (r : NormalizedRegistration) (p : AgentSessionSnapshot) : AgentSessionSnapshot :=
  mkAgentSessionSnapshot (ss_v p) (ss_session_id p) (ss_snapshot_epoch p) (ss_revision p)
    (ss_process_generation p) (adapter_of r) (ss_topology p) (ss_presence p) (ss_stored_reason p)
    (nr_control_owner r) (nr_observation r) (ss_turn p) (ss_permission_mode p) (ss_model p) (ss_effort p)
    (ss_models p) (ss_drift p) (observer_capabilities r p) (ss_pending_interactions p)
    (ss_timeline_window p) (ss_terminal_fallback p) (ss_latest_command_receipts p).

Definition refresh_observer_registration (now : N) (r : NormalizedRegistration) (sv : Supervisor)
  : Supervisor * result MetadataError (option RegisteredAgentSession) :=
  match mapping_for_process sha256 (sv_metadata sv) (nr_upstream_identity r) (nr_process_nonce r) with
  | None => (sv, Ok None)
  | Some (session_id, generation, epoch) =>
      let sv := set_ended (delete session_id (sv_ended sv)) sv in
      match sv_sessions sv !! session_id with
      | None => (sv, Ok None)
      | Some s =>
          if negb (ss_process_generation (ls_snapshot s) =? generation)
             || negb (ss_snapshot_epoch (ls_snapshot s) =? epoch)
          then (sv, Ok None)
          else
            let drift := drift_note_for fix_for live_distinct_for r in
            let registered := mkRegisteredAgentSession session_id generation epoch (ls_bridge_disconnect_token s) in
            let s' := refreshed_session now r drift s in
            if facts_changed r drift s then
              let s' := send (Protocol.ResyncRequired AGENT_PROTOCOL_VERSION session_id "adapter_facts_changed")
                          (bump_revision now (over_snapshot (set_facts r) s')) in
              match update_revision encoded_len write_private (sv_metadata sv) session_id
                      (ss_revision (ls_snapshot s')) now with
              | (metadata, Ok _) => (put_session session_id s' (set_metadata metadata sv), Ok (Some registered))
              | (metadata, Err e) => (put_session session_id s' (set_metadata metadata sv), Err e)
              end
            else (put_session session_id s' sv, Ok (Some registered))
      end
  end.

(** [register_observer] up to the route it spawns a resolution for. *)
Definition register_observer (now : N) (r : NormalizedRegistration) (draws : Draws) (sv : Supervisor)
  : Supervisor * result RegisterError RegisteredAgentSession :=
  if is_err (NormalizedRegistration_validate r) then (sv, Err RegistrationInvalid)
  else if negb (bool_decide (ac_commands (nr_capabilities r) = CommandCapabilities_none))
  then (sv, Err ObserverCommands)
  else match refresh_observer_registration now r sv with
       | (sv, Err e) => (sv, Err (StoreFailed e))
       | (sv, Ok (Some registered)) => (sv, Ok registered)
       | (sv, Ok None) => register_new now r None draws sv
       end.
End supervisor.

Lemma put_session_same id s sv : sv_sessions (put_session id s sv) !! id = Some s.
Proof. unfold put_session, set_sessions. cbn [sv_sessions]. by rewrite lookup_insert, decide_True. Qed.

Lemma put_session_other id id' s sv : id <> id' -> sv_sessions (put_session id s sv) !! id' = sv_sessions sv !! id'.
Proof. intros Hne. unfold put_session, set_sessions. cbn [sv_sessions]. by rewrite lookup_insert_ne. Qed.

Lemma put_session_metadata id s sv : sv_metadata (put_session id s sv) = sv_metadata sv.
Proof. done. Qed.
