(* ===== verification/Commands.v ===== *)
(** What the supervisor promises about ends and commands: verdicts kept within their cap, commands
    forwarded only when current, permitted and recorded, and never twice. *)
From S2P Require Import Prelude Text Protocol Fit Reducer Metadata Reconcile Session History.
From S2P Require Import Bridge Timeline Registration Supervisor.

Local Open Scope N_scope.

(** ** Ends *)

Section ends.
Context (iterate : forall A, gmap string A -> list (string * A)).

Definition iterates : Prop := forall A (m : gmap string A), iterate A m ≡ₚ map_to_list m.

Lemma oldest_verdict_spec l :
  match oldest_verdict l with
  | Some x => x ∈ l /\ Forall (fun y => x.2 <= y.2) l
  | None => l = []
  end.
Proof.
  induction l as [|x l IH]; [done|]. cbn. destruct (oldest_verdict l) as [y|].
  - destruct IH as [Hin Hall]. destruct (N.leb_spec x.2 y.2).
    + split; [by left|]. constructor; [lia|]. eapply Forall_impl; [exact Hall|]. cbn. lia.
    + split; [by right|]. constructor; [lia|done].
  - subst l. split; [by left|]. by repeat constructor.
Qed.

(** Verdicts dropped are no later than those kept. *)
Definition trimmed (before after : gmap string N) : Prop :=
  after ⊆ before
  /\ (forall k t k' t', before !! k = Some t -> after !! k = None -> after !! k' = Some t' -> t <= t').

Lemma trim_verdicts_spec fuel ended :
  iterates -> (size ended <= fuel)%nat ->
  N.of_nat (size (trim_verdicts iterate fuel ended)) <= MAX_ENDED_VERDICTS
  /\ trimmed ended (trim_verdicts iterate fuel ended)
  /\ (N.of_nat (size ended) <= MAX_ENDED_VERDICTS -> trim_verdicts iterate fuel ended = ended)
  /\ N.min (N.of_nat (size ended)) MAX_ENDED_VERDICTS = N.of_nat (size (trim_verdicts iterate fuel ended)).
Proof.
  intros Hit. revert ended. induction fuel as [|fuel IH]; intros ended Hfuel; cbn [trim_verdicts].
  { unfold trimmed. split_and!; try done; [lia|congruence|lia]. }
  destruct (N.ltb_spec MAX_ENDED_VERDICTS (N.of_nat (size ended))) as [Hlt|Hle].
  2: { unfold trimmed. split_and!; try done; [congruence|lia]. }
  pose proof (oldest_verdict_spec (iterate N ended)) as Ho. pose proof (Hit N ended) as Hperm.
  destruct (oldest_verdict _) as [[oldest at_]|].
  2: { rewrite Ho in Hperm. symmetry in Hperm. apply Permutation_nil_r, map_to_list_empty_iff in Hperm.
       rewrite Hperm, map_size_empty in Hlt. unfold MAX_ENDED_VERDICTS in Hlt. lia. }
  destruct Ho as [Hin Hall]. rewrite Hperm in Hin. apply elem_of_map_to_list in Hin.
  assert (size (delete oldest ended) = pred (size ended)) as Hsize by (rewrite map_size_delete, Hin; done).
  destruct (IH (delete oldest ended)) as (H1 & [H2 H3] & _ & H5); [lia|].
  split_and!; [done| |lia|lia]. split.
  - etrans; [exact H2|apply delete_subseteq].
  - intros k t k' t' Hk Hdrop Hkept. destruct (decide (k = oldest)) as [->|Hne].
    + assert (t = at_) as -> by congruence. rewrite Hperm in Hall.
      pose proof (lookup_weaken _ _ _ _ Hkept H2) as Hold. apply lookup_delete_Some in Hold as [_ Hold].
      rewrite Forall_forall in Hall. by apply (Hall (k', t')), elem_of_map_to_list.
    + apply (H3 k t k' t'); [|done..]. by rewrite lookup_delete_ne.
Qed.

(** Ends are remembered within their cap: a verdict recorded never leaves more than 256, only
    ever drops verdicts no later than every one it keeps, and is itself kept whenever every other
    verdict is older, as the clock makes them unless ends fall in one second. *)
Theorem record_ended_verdict_spec now session_id ended :
  iterates ->
  let ended' := record_ended_verdict iterate now session_id ended in
  N.of_nat (size ended') <= MAX_ENDED_VERDICTS
  /\ trimmed (<[session_id := now]> ended) ended'
  /\ ((forall k t, ended !! k = Some t -> k <> session_id -> t < now) -> ended' !! session_id = Some now).
Proof.
  intros Hit. cbn zeta. unfold record_ended_verdict.
  destruct (trim_verdicts_spec (size (<[session_id := now]> ended)) (<[session_id := now]> ended) Hit)
    as (H1 & [H2 H3] & H4 & H5); [done|].
  split_and!; [done|done|]. intros Holder.
  set (ended' := trim_verdicts _ _ _) in *. destruct (ended' !! session_id) as [t|] eqn:Hs.
  - pose proof (lookup_weaken _ _ _ _ Hs H2) as Ht. rewrite lookup_insert in Ht. by rewrite decide_True in Ht.
  - exfalso. assert (ended' <> ∅) as Hne.
    { intros He. rewrite He, map_size_empty in H5. unfold MAX_ENDED_VERDICTS in H5.
      assert (size (<[session_id := now]> ended) <> 0%nat) as Hz.
      { intros Hz%map_size_empty_iff. apply (insert_non_empty ended session_id now Hz). }
      lia. }
    apply map_choose in Hne as (k & t & Hk). pose proof (lookup_weaken _ _ _ _ Hk H2) as Hold.
    assert (k <> session_id) as Hks by congruence. rewrite lookup_insert_ne in Hold by done.
    specialize (Holder k t Hold Hks). specialize (H3 session_id now k t).
    rewrite lookup_insert, decide_True in H3 by done. specialize (H3 eq_refl Hs Hk). lia.
Qed.
End ends.

(** ** Receipts *)

Section commands.
Context (encoded_len : AgentMetadataFile -> N) (write_private : AgentMetadataFile -> bool).

Abbreviation persist_receipt := (persist_and_publish_receipt encoded_len write_private).
Abbreviation submit := (submit_command_from encoded_len write_private).

(** What neither a receipt nor its publication touches. *)
Definition same_bridge (s s' : LiveSession) : Prop :=
  ls_bridge_sender s' = ls_bridge_sender s /\ ls_in_flight_commands s' = ls_in_flight_commands s
  /\ ls_bridge_disconnect_token s' = ls_bridge_disconnect_token s
  /\ ls_route_id s' = ls_route_id s
  /\ ss_process_generation (ls_snapshot s') = ss_process_generation (ls_snapshot s)
  /\ ss_topology (ls_snapshot s') = ss_topology (ls_snapshot s).

Definition same_route (s s' : LiveSession) : Prop :=
  ls_route_id s' = ls_route_id s
  /\ ss_process_generation (ls_snapshot s') = ss_process_generation (ls_snapshot s).

Lemma publish_receipt_bridge now receipt s : same_bridge s (publish_receipt now receipt s).
Proof. by split_and!. Qed.

(** The store a receipt leaves, written or not. *)
Definition receipt_store (metadata : AgentMetadataStore) (r : CommandReceipt) (now : N) : AgentMetadataStore :=
  (Metadata.upsert_receipt encoded_len write_private metadata r now).1.

Definition receipt_written (metadata : AgentMetadataStore) (r : CommandReceipt) (now : N) : bool :=
  is_ok (Metadata.upsert_receipt encoded_len write_private metadata r now).2.

Lemma persist_receipt_eq now r metadata s :
  exists e, persist_receipt now r metadata s
  = (receipt_store metadata r now,
     if receipt_written metadata r now then publish_receipt now r s else s,
     if receipt_written metadata r now then Ok tt else Err e).
Proof.
  unfold persist_and_publish_receipt, receipt_store, receipt_written.
  destruct (Metadata.upsert_receipt _ _ _ _ _) as [st [[]|e]]; [by exists MetadataWrite|by exists e].
Qed.

Lemma publish_regardless_eq now r metadata s :
  publish_regardless encoded_len write_private now r metadata s
  = (receipt_store metadata r now, publish_receipt now r s).
Proof.
  unfold publish_regardless. destruct (persist_receipt_eq now r metadata s) as [e ->].
  by destruct (receipt_written _ _ _).
Qed.

(** A receipt no older than the others is found by its command, whether or not it was written. *)
Lemma receipt_store_found metadata r now :
  store_wf metadata -> Forall (fun r' => cr_updated_at r' <= cr_updated_at r) (ms_receipts metadata) ->
  unexpired now r = true ->
  store_wf (receipt_store metadata r now)
  /\ Forall (fun r' => cr_updated_at r' <= cr_updated_at r) (ms_receipts (receipt_store metadata r now))
  /\ receipt (receipt_store metadata r now) (cr_command_id r) = Some r
  /\ (receipt_written metadata r now = true ->
      af_receipts <$> ms_disk (receipt_store metadata r now) = Some (ms_receipts (receipt_store metadata r now))).
Proof.
  intros [] Hold Hfresh. unfold receipt_store, receipt_written, Metadata.upsert_receipt.
  destruct (persist _ _ _) as [st res] eqn:Hp. apply persist_memory in Hp as (Hk & Hm & Hr & Hd).
  cbn in Hk, Hm, Hr, Hd |- *.
  destruct (upserted_receipts_spec (ms_receipts metadata) r now) as (H1 & H2 & H3 & _ & H5); [done..|].
  unfold receipt. rewrite Hr. split_and!.
  - by split; rewrite ?Hk, ?Hm, ?Hr.
  - unfold upserted_receipts. eapply Forall_sublist; [apply sublist_drop|]. rewrite sort_by_key_perm.
    eapply Forall_sublist; [apply filter_sublist|]. case_match.
    + apply update_first_Forall; [done|]. intros x _ Hx. by case_match.
    + apply Forall_app. split; [done|by repeat constructor].
  - by apply H5.
  - destruct res as [[]|]; [|done]. intros _. by rewrite (Hd eq_refl).
Qed.

Lemma unexpired_now state now id sid g e reason evidence :
  unexpired now (mkCommandReceipt id sid g e state now reason evidence) = true.
Proof. unfold unexpired. cbn. apply N.leb_le. rewrite N.sub_diag. done. Qed.

(** ** Submission *)

Definition sending_receipt (now : N) (command : AgentCommand) : CommandReceipt :=
  mkCommandReceipt (co_command_id command) (co_session_id command) (co_expected_generation command)
    (co_snapshot_epoch command) "sending" now None None.

Lemma mark_outcome_unknown_eq now command reason sv s :
  sv_sessions sv !! co_session_id command = Some s ->
  let r := rejected_receipt command "outcome_unknown" reason now in
  mark_outcome_unknown encoded_len write_private now command reason sv
  = (put_session (co_session_id command)
       (publish_receipt now r (set_ls_in_flight_commands (ls_in_flight_commands s ∖ {[co_command_id command]}) s))
       (set_metadata (receipt_store (sv_metadata sv) r now) sv), r).
Proof. intros Hs. unfold mark_outcome_unknown. by rewrite Hs, publish_regardless_eq. Qed.
(** The very process and epoch a session is at, and its revision if the command names one. *)
Definition aimed_at (command : AgentCommand) (p : AgentSessionSnapshot) : Prop :=
  co_snapshot_epoch command = ss_snapshot_epoch p
  /\ co_expected_generation command = ss_process_generation p
  /\ forall revision, co_expected_revision command = Some revision -> revision = ss_revision p.

Lemma stale_command_false command p : stale_command command p = false <-> aimed_at command p.
Proof.
  unfold stale_command, aimed_at. rewrite !orb_false_iff, !negb_false_iff, !N.eqb_eq.
  destruct (co_expected_revision command) as [revision|]; cbn; [|naive_solver].
  rewrite negb_false_iff, N.eqb_eq. naive_solver.
Qed.

(** What has to hold of a command before the store is asked to record it. *)
Definition admissible (command : AgentCommand) (sv : Supervisor) (s : LiveSession) : Prop :=
  AgentCommand_validate command = Ok tt
  /\ receipt (sv_metadata sv) (co_command_id command) = None
  /\ sv_sessions sv !! co_session_id command = Some s
  /\ aimed_at command (ls_snapshot s)
  /\ AgentCapabilities_permits (ss_capabilities (ls_snapshot s)) (co_kind command) = true.

Lemma admissible_or command sv :
  (exists s, admissible command sv s) \/ (forall s, ~ admissible command sv s).
Proof.
  unfold admissible. destruct (AgentCommand_validate command) as [[]|]; [|right; naive_solver].
  destruct (receipt _ _); [right; naive_solver|].
  destruct (sv_sessions sv !! co_session_id command) as [s|]; [|right; naive_solver].
  destruct (stale_command command (ls_snapshot s)) eqn:Hst;
    [right; intros s' (_ & _ & [= <-] & Ha%stale_command_false & _); congruence|].
  apply stale_command_false in Hst.
  destruct (AgentCapabilities_permits (ss_capabilities (ls_snapshot s)) (co_kind command)) eqn:Hp;
    [by left; exists s|right; naive_solver congruence].
Qed.

(** What becomes of a command handed over: queued, or given up with its receipt. *)
Inductive delivery (accepts : list AgentCommand -> bool) (now : N) (command : AgentCommand)
    (receipt : CommandReceipt) (s : LiveSession) (sv : Supervisor) : Supervisor * CommandReceipt -> Prop :=
| delivered queue :
    ls_bridge_sender s = Some queue -> accepts queue = true ->
    delivery accepts now command receipt s sv
      (put_session (co_session_id command) (set_ls_bridge_sender (Some (queue ++ [command])) s) sv, receipt)
| given_up reason s' :
    ls_bridge_sender s' = ls_bridge_sender s -> same_route s s' ->
    let r := rejected_receipt command "outcome_unknown" reason now in
    delivery accepts now command receipt s sv
      (put_session (co_session_id command) s' (set_metadata (receipt_store (sv_metadata sv) r now) sv), r).

Lemma deliver_cases accepts orphan now command receipt s sv :
  sv_sessions sv !! co_session_id command = Some s ->
  delivery accepts now command receipt s sv
    (deliver encoded_len write_private accepts orphan now command (bridge_channel s) receipt sv).
Proof.
  intros Hs. unfold deliver, bridge_channel, queue_of. rewrite Hs. cbn [mbind option_bind].
  destruct (ls_bridge_sender s) as [queue|] eqn:Hq; cbn [fmap option_fmap option_map mbind option_bind].
  - rewrite String.eqb_refl. destruct (accepts queue) eqn:Ha; [by constructor|].
    rewrite (mark_outcome_unknown_eq now command _ sv s Hs). by constructor.
  - rewrite (mark_outcome_unknown_eq now command _ sv s Hs). by constructor.
Qed.

(** An admissible command: recorded as sending and in flight, then handed over; or, when the receipt
    could not be written, answered [unavailable]. *)
Inductive submission (accepts : list AgentCommand -> bool) (now : N) (command : AgentCommand) (sv : Supervisor)
    (s : LiveSession) : Supervisor * CommandReceipt -> Prop :=
| recorded s1 result :
    let sending := sending_receipt now command in
    receipt_written (sv_metadata sv) sending now = true ->
    ls_bridge_sender s1 = ls_bridge_sender s -> co_command_id command ∈ ls_in_flight_commands s1 ->
    same_route s s1 ->
    delivery accepts now command sending s1
      (put_session (co_session_id command) s1 (set_metadata (receipt_store (sv_metadata sv) sending now) sv)) result ->
    submission accepts now command sv s result
| unrecorded :
    let sending := sending_receipt now command in
    receipt_written (sv_metadata sv) sending now = false ->
    submission accepts now command sv s
      (put_session (co_session_id command) s (set_metadata (receipt_store (sv_metadata sv) sending now) sv),
       rejected_receipt command "unavailable" "receipt_store_unavailable" now).

Lemma submit_admissible accepts now command sv s :
  admissible command sv s -> submission accepts now command sv s (submit accepts now command sv).
Proof.
  intros (Hv & Hr & Hs & Hst%stale_command_false & Hp). unfold submit_command_from, look_up, admit_command.
  rewrite Hv, Hr. cbn [is_err is_ok negb]. rewrite Hs, Hst, Hp. cbn [negb]. fold (sending_receipt now command).
  destruct (persist_receipt_eq now (sending_receipt now command) (sv_metadata sv) s) as [e ->].
  destruct (receipt_written _ _ _) eqn:Hw; [|by apply unrecorded].
  eapply recorded; [done| | | |apply deliver_cases, put_session_same]; [done| |done].
  apply elem_of_union_l, elem_of_singleton. done.
Qed.

(** Every other command: answered without the bridge, its session at most told the answer. *)
Lemma submit_refused accepts now command sv :
  (forall s, ~ admissible command sv s) ->
  let '(sv', r) := submit accepts now command sv in
  sv_routes sv' = sv_routes sv
  /\ forall id, sv_sessions sv' !! id = sv_sessions sv !! id
     \/ exists s s', sv_sessions sv !! id = Some s /\ sv_sessions sv' !! id = Some s' /\ same_bridge s s'.
Proof.
  intros Hno. unfold submit_command_from, look_up, admit_command.
  destruct (is_err (AgentCommand_validate command)) eqn:Hv; [by auto|].
  assert (AgentCommand_validate command = Ok tt) as Hok
    by (revert Hv; by destruct (AgentCommand_validate command) as [[]|]).
  destruct (receipt _ _) as [existing|] eqn:Hr; [by destruct (_ && _); auto|].
  destruct (sv_sessions sv !! co_session_id command) as [s|] eqn:Hs; [|by auto].
  assert (forall state reason, let '(sv', r) := answer_with encoded_len write_private now command state reason s sv in
    sv_routes sv' = sv_routes sv
    /\ forall id, sv_sessions sv' !! id = sv_sessions sv !! id
       \/ exists s s', sv_sessions sv !! id = Some s /\ sv_sessions sv' !! id = Some s' /\ same_bridge s s') as Hans.
  { intros state reason. unfold answer_with.
    destruct (persist_receipt_eq now (rejected_receipt command state reason now)
      (sv_metadata sv) s) as [e ->]. split; [done|]. intros id. cbn.
    destruct (decide (id = co_session_id command)) as [->|Hne]; [|left; by rewrite lookup_insert_ne].
    right. eexists s, _. rewrite lookup_insert, decide_True by done. split_and!; [done|done|].
    case_match; [apply publish_receipt_bridge|by split_and!]. }
  destruct (stale_command _ _) eqn:Hst; [specialize (Hans "stale" "snapshot_stale")%string; by destruct (answer_with _ _ _ _ _ _ _)|].
  destruct (AgentCapabilities_permits _ _) eqn:Hp;
    [|specialize (Hans "unavailable" "command_not_advertised")%string; by destruct (answer_with _ _ _ _ _ _ _)].
  exfalso. apply (Hno s). by apply stale_command_false in Hst.
Qed.

(** ** Submissions interleaved *)

(** Which bridge a session holds, as the commands queued for it. *)
Definition bridge_of (sv : Supervisor) (id : string) : option (option (list AgentCommand)) :=
  ls_bridge_sender <$> sv_sessions sv !! id.

Lemma bridge_of_put id s sv m : sv_sessions sv !! id = Some s -> forall s' id',
  ls_bridge_sender s' = ls_bridge_sender s ->
  bridge_of (put_session id s' (set_metadata m sv)) id' = bridge_of sv id'.
Proof.
  intros Hs s' id' Hb. unfold bridge_of. destruct (decide (id' = id)) as [->|Hne].
  - by rewrite put_session_same, Hs; cbn; rewrite Hb.
  - by rewrite put_session_other.
Qed.

Lemma mark_unknown_bridges now command reason sv id :
  bridge_of (mark_outcome_unknown encoded_len write_private now command reason sv).1 id = bridge_of sv id.
Proof.
  destruct (sv_sessions sv !! co_session_id command) as [s|] eqn:Hs.
  - rewrite (mark_outcome_unknown_eq _ _ _ _ s Hs). cbn [fst]. by apply (bridge_of_put _ s).
  - unfold mark_outcome_unknown. by rewrite Hs.
Qed.

Lemma persist_receipt_bridges now r sv s id :
  sv_sessions sv !! co_session_id id = Some s -> forall m s' res id' f,
  persist_receipt now r (sv_metadata sv) s = (m, s', res) -> (forall s1, ls_bridge_sender (f s1) = ls_bridge_sender s1) ->
  bridge_of (put_session (co_session_id id) (f s') (set_metadata m sv)) id' = bridge_of sv id'.
Proof.
  intros Hs m s' res id' f Hp Hf. destruct (persist_receipt_eq now r (sv_metadata sv) s) as [e He].
  rewrite He in Hp. injection Hp as <- <- _. apply (bridge_of_put _ _ _ _ Hs). rewrite Hf. by case_match.
Qed.

Abbreviation admit_command := (admit_command encoded_len write_private).

(** Admission fills no queue. *)
Lemma admit_bridges now command sv id : bridge_of (admit_command now command sv).1 id = bridge_of sv id.
Proof.
  unfold admit_command. destruct (sv_sessions sv !! co_session_id command) as [s|] eqn:Hs; [|done].
  assert (forall state reason, bridge_of (answer_with encoded_len write_private now command state reason s sv).1 id
                               = bridge_of sv id) as Hans.
  { intros state reason. unfold answer_with.
    destruct (persist_and_publish_receipt _ _ _ _ _ s) as [[m s'] res] eqn:Hp.
    by apply (persist_receipt_bridges _ _ _ _ _ Hs _ _ _ _ (fun s1 => s1) Hp). }
  case_match; [specialize (Hans "stale" "snapshot_stale")%string; by destruct (answer_with _ _ _ _ _ _ _)|].
  case_match; [specialize (Hans "unavailable" "command_not_advertised")%string; by destruct (answer_with _ _ _ _ _ _ _)|].
  destruct (persist_and_publish_receipt _ _ _ _ _ s) as [[m s'] [u|e]] eqn:Hp; cbn [fst].
  - by apply (persist_receipt_bridges _ _ _ _ _ Hs _ _ _ _ (fun s1 => set_ls_in_flight_commands _ s1) Hp).
  - by apply (persist_receipt_bridges _ _ _ _ _ Hs _ _ _ _ (fun s1 => s1) Hp).
Qed.

(** A command let through: aimed at the very process, epoch and revision its session is at, one the
    session advertises; left in flight, and its receipt written. *)
Definition let_through (now : N) (command : AgentCommand) (channel : option string) (sv sv' : Supervisor) : Prop :=
  exists s s' file,
    sv_sessions sv !! co_session_id command = Some s
    /\ aimed_at command (ls_snapshot s)
    /\ AgentCapabilities_permits (ss_capabilities (ls_snapshot s)) (co_kind command) = true
    /\ channel = bridge_channel s
    /\ sv_sessions sv' !! co_session_id command = Some s'
    /\ co_command_id command ∈ ls_in_flight_commands s'
    /\ ms_disk (sv_metadata sv') = Some file
    /\ af_receipts file = upserted_receipts (ms_receipts (sv_metadata sv)) (sending_receipt now command) now
    /\ (store_wf (sv_metadata sv) -> Forall (fun r' => cr_updated_at r' <= now) (ms_receipts (sv_metadata sv)) ->
        sending_receipt now command ∈ af_receipts file).

Lemma admit_let_through now command sv sv' channel r :
  admit_command now command sv = (sv', HandOver channel r) ->
  r = sending_receipt now command /\ let_through now command channel sv sv'.
Proof.
  unfold admit_command. destruct (sv_sessions sv !! _) as [s|] eqn:Hs; [|done].
  destruct (stale_command _ _) eqn:Hst; [by destruct (answer_with _ _ _ _ _ _ _)|].
  destruct (AgentCapabilities_permits _ _) eqn:Hp; [|by destruct (answer_with _ _ _ _ _ _ _)].
  cbn [negb]. fold (sending_receipt now command).
  destruct (persist_receipt_eq now (sending_receipt now command) (sv_metadata sv) s) as [e ->].
  destruct (receipt_written _ _ _) eqn:Hw; [|done]. intros [= <- <- <-]. split; [done|].
  assert (exists file, ms_disk (receipt_store (sv_metadata sv) (sending_receipt now command) now) = Some file
          /\ af_receipts file = upserted_receipts (ms_receipts (sv_metadata sv)) (sending_receipt now command) now)
    as (file & Hd & Hf).
  { revert Hw. unfold receipt_store, receipt_written, Metadata.upsert_receipt.
    destruct (persist _ _ _) as [st res] eqn:Hps. apply persist_memory in Hps as (_ & _ & _ & Hd).
    destruct res as [[]|]; [|done]. intros _. cbn [fst]. rewrite (Hd eq_refl). by eexists. }
  exists s. eexists _, file. apply stale_command_false in Hst.
  split_and!; [done|done|done|done|apply put_session_same|set_solver|done|done|].
  intros Hwf Hold. rewrite Hf.
  pose proof (upserted_receipts_spec (ms_receipts (sv_metadata sv)) (sending_receipt now command) now
    (sw_commands _ Hwf) (sw_receipts_bound _ Hwf)) as (_ & _ & _ & _ & Hfind).
  by apply find_some_elem in Hfind as [? _]; [|done|apply unexpired_now].
Qed.

(** A command handed over: last in the queue of the very channel, and no other queue touched. *)
Definition handed (command : AgentCommand) (channel : string) (sv sv' : Supervisor) : Prop :=
  exists s queue, queue_of (co_session_id command) channel sv = Some (s, queue)
  /\ forall id, bridge_of sv' id = if decide (id = co_session_id command) then Some (Some (queue ++ [command]))
                                   else bridge_of sv id.

Lemma deliver_bridges accepts orphan now command channel r sv sv' r' :
  deliver encoded_len write_private accepts orphan now command channel r sv = (sv', r') ->
  (forall id, bridge_of sv' id = bridge_of sv id)
  \/ exists token, channel = Some token /\ r' = r /\ handed command token sv sv'.
Proof.
  intros Hd. assert (forall reason, mark_outcome_unknown encoded_len write_private now command reason sv = (sv', r') ->
    forall id, bridge_of sv' id = bridge_of sv id) as Hmark.
  { intros reason Hm id. pose proof (mark_unknown_bridges now command reason sv id) as H. by rewrite Hm in H. }
  unfold deliver in Hd. destruct channel as [token|]; [|left; by eapply Hmark].
  destruct (queue_of _ _ _) as [[s queue]|] eqn:Hq; [destruct (accepts queue)|destruct orphan].
  - injection Hd as <- <-. right. exists token. split_and!; [done|done|]. exists s, queue. split; [done|].
    intros id. unfold bridge_of. case_decide as Hid; [subst; by rewrite put_session_same|by rewrite put_session_other].
  - left. by eapply Hmark.
  - left. by injection Hd as <- <-.
  - left. by eapply Hmark.
Qed.

Section interleaved.
Context (other : Supervisor -> Supervisor -> Prop).
Abbreviation step := (submitting_step encoded_len write_private other).
Abbreviation task_step := (task_step encoded_len write_private).

(** When a task looked its receipt up, found none, and went on. *)
Definition looked_up (st0 st : Submitting) (i : nat) (now : N) (command : AgentCommand) : Prop :=
  exists st_a, rtc step st0 st_a /\ su_tasks st_a !! i = Some (Asked now command)
  /\ look_up now command (sv_metadata (su_sv st_a)) = None /\ rtc step st_a st.

(** When a task let its command through, after it looked. *)
Definition recorded_for (st0 st : Submitting) (i : nat) (now : N) (command : AgentCommand) (channel : option string)
    (r : CommandReceipt) : Prop :=
  exists st_b sv_b, looked_up st0 st_b i now command
  /\ admit_command now command (su_sv st_b) = (sv_b, HandOver channel r)
  /\ rtc step (mkSubmitting sv_b (<[i := HandingOver command channel r]> (su_tasks st_b))) st.

(** What a task's state tells of its past. *)
Definition past (st0 st : Submitting) (i : nat) (task : Submission) : Prop :=
  match task with
  | LookedUp now command => looked_up st0 st i now command
  | HandingOver command channel r => exists now, recorded_for st0 st i now command channel r
  | _ => True
  end.

Lemma past_step st0 st st' i task : past st0 st i task -> step st st' -> past st0 st' i task.
Proof.
  intros Hp Hst. destruct task as [| | |]; [done| | |done].
  - destruct Hp as (a & H1 & H2 & H3 & H4). exists a. split_and!; [done..|]. by eapply rtc_r.
  - destruct Hp as (now' & b & sv_b & H1 & H2 & H3). exists now', b, sv_b. split_and!; [done..|]. by eapply rtc_r.
Qed.

Lemma pasts st0 st : su_tasks st0 = [] -> rtc step st0 st ->
  forall i task, su_tasks st !! i = Some task -> past st0 st i task.
Proof.
  intros H0 Hrun. pattern st. eapply rtc_ind_r; [| |exact Hrun]; clear st Hrun.
  - by intros i task; rewrite H0.
  - intros st st' Hrun Hst IH i task Hi. pose proof Hst as Hst'.
    inversion Hst as [now command|j task0 sv' task' Hj Htask|sv' Hother]; subst; cbn [su_tasks] in Hi.
    + apply lookup_app_Some in Hi as [Hi|[_ Hi]]; [eapply past_step; [by apply IH|done]|].
      by apply list_lookup_singleton_Some in Hi as [_ <-].
    + destruct (decide (i = j)) as [->|Hne];
        [|rewrite list_lookup_insert_ne in Hi by done; eapply past_step; [by apply IH|done]].
      rewrite list_lookup_insert_eq in Hi by (by eapply lookup_lt_Some). injection Hi as <-.
      inversion Htask; subst; cbn [past]; [done| |done| |done].
      * exists st. split_and!; try done. by apply rtc_once.
      * specialize (IH _ _ Hj). cbn [past] in IH. eexists _, st, _. split; [done|]. split; [done|]. by constructor.
    + eapply past_step; [by apply IH|done].
Qed.

Lemma look_up_none now command metadata :
  look_up now command metadata = None ->
  AgentCommand_validate command = Ok tt /\ receipt metadata (co_command_id command) = None.
Proof.
  unfold look_up. destruct (AgentCommand_validate command) as [[]|]; [|done]. cbn.
  destruct (receipt _ _); [by case_match|done].
Qed.

(** C1: whatever else the supervisor does and however submissions interleave, a step of a submission
    either leaves every bridge's queue alone or hands its own command over, answering [sending]: last
    in the queue of the very channel the session held when the command was let through. Before that the
    task found the command valid and no receipt held under its id, and after that, under the sessions'
    lock, it found the command aimed at the very process, epoch and revision the session was at and one
    the session advertises, and left it in flight with its receipt written to disk. *)
Theorem submit_forwards st0 st i task sv' task' :
  su_tasks st0 = [] -> rtc step st0 st -> su_tasks st !! i = Some task -> task_step (su_sv st) task sv' task' ->
  (forall id, bridge_of sv' id = bridge_of (su_sv st) id)
  \/ exists now command channel st_a st_b sv_b,
       let sending := sending_receipt now command in
       task = HandingOver command (Some channel) sending /\ task' = Answered command sending
       /\ handed command channel (su_sv st) sv'
       /\ rtc step st0 st_a /\ su_tasks st_a !! i = Some (Asked now command)
       /\ AgentCommand_validate command = Ok tt
       /\ receipt (sv_metadata (su_sv st_a)) (co_command_id command) = None
       /\ rtc step st_a st_b /\ let_through now command (Some channel) (su_sv st_b) sv_b
       /\ rtc step (mkSubmitting sv_b (<[i := task]> (su_tasks st_b))) st.
Proof.
  intros H0 Hrun Hi Htask. pose proof (pasts _ _ H0 Hrun _ _ Hi) as Hpast.
  inversion Htask as [| |now command sv1 r Ha|now command sv1 channel r Ha|accepts orphan now command channel r sv1 r' Hd];
    subst; [by left..| | |].
  1, 2: left; intros id; pose proof (admit_bridges now command (su_sv st) id) as H; by rewrite Ha in H.
  destruct (deliver_bridges _ _ _ _ _ _ _ _ _ Hd) as [?|(token & -> & -> & Hh)]; [by left|]. right.
  destruct Hpast as (now0 & st_b & sv_b & (st_a & Hra & Hla & Hnone & Hrab) & Ha & Hrb).
  apply admit_let_through in Ha as [-> Hlet]. apply look_up_none in Hnone as [Hv Hr].
  exists now0, command, token, st_a, st_b, sv_b. cbv zeta. by split_and!.
Qed.
End interleaved.

Definition command_identity (command : AgentCommand) : string * N * N :=
  (co_session_id command, co_snapshot_epoch command, co_expected_generation command).

Definition receipt_identity (r : CommandReceipt) : string * N * N :=
  (cr_session_id r, cr_snapshot_epoch r, cr_process_generation r).

(** A command the store has a receipt for: answered from it, and nothing else happens. *)
Lemma submit_held write accepts now command sv held :
  AgentCommand_validate command = Ok tt -> receipt (sv_metadata sv) (co_command_id command) = Some held ->
  submit_command_from encoded_len write accepts now command sv
  = (sv, if bool_decide (receipt_identity held = command_identity command) then held
         else rejected_receipt command "rejected" "duplicate_command_id" now).
Proof.
  intros Hv Hh. unfold submit_command_from, look_up. rewrite Hv, Hh. cbn [is_err is_ok negb].
  unfold receipt_identity, command_identity.
  destruct (String.eqb_spec (cr_session_id held) (co_session_id command)) as [H1|H1],
    (N.eqb_spec (cr_snapshot_epoch held) (co_snapshot_epoch command)) as [H2|H2],
    (N.eqb_spec (cr_process_generation held) (co_expected_generation command)) as [H3|H3]; cbn [andb];
    first [rewrite bool_decide_true by congruence; done|rewrite bool_decide_false by congruence; done].
Qed.

(** What the store holds for an admissible command once it was submitted. *)
Lemma submit_recorded accepts now command sv s sv' r :
  admissible command sv s -> store_wf (sv_metadata sv) ->
  Forall (fun r' => cr_updated_at r' <= now) (ms_receipts (sv_metadata sv)) ->
  submit accepts now command sv = (sv', r) ->
  let sending := sending_receipt now command in
  if receipt_written (sv_metadata sv) sending now
  then receipt (sv_metadata sv') (co_command_id command) = Some r
       /\ (r = sending \/ exists reason, r = rejected_receipt command "outcome_unknown" reason now)
  else receipt (sv_metadata sv') (co_command_id command) = Some sending
       /\ r = rejected_receipt command "unavailable" "receipt_store_unavailable" now
       /\ sv_sessions sv' = sv_sessions sv.
Proof.
  intros Hadm Hwf Hold Hsub. cbn zeta. pose proof (submit_admissible accepts now command sv s Hadm) as Hcase.
  rewrite Hsub in Hcase. pose proof Hadm as (_ & _ & Hs & _).
  destruct (receipt_store_found (sv_metadata sv) (sending_receipt now command) now)
    as (Hwf1 & Hold1 & Hfound & _); [done|done|apply unexpired_now|].
  inversion Hcase as [s1 result sending Hw Hsender Hflight _ Hdel|sending Hw]; subst; subst sending; rewrite Hw.
  2: { split_and!; [done|done|]. unfold put_session. cbn [sv_sessions set_sessions set_metadata]. by apply insert_id. }
  inversion Hdel as [queue Hq Hacc|reason s2 Hs2 _ r2]; subst.
  - rewrite !put_session_metadata. by split; [|left].
  - split; [|right; by exists reason]. rewrite put_session_metadata.
    destruct (receipt_store_found (receipt_store (sv_metadata sv) (sending_receipt now command) now)
      (rejected_receipt command "outcome_unknown" reason now) now)
      as (_ & _ & H & _); [done|done|apply unexpired_now|done].
Qed.

(** A command submitted again is never run again: whatever became of the first submission, the
    second is answered from the receipt it left, or refused when it reuses the id for another
    session, epoch or process, and changes nothing at all. *)
Theorem resubmission_runs_nothing accepts now command sv s sv' r accepts' now' command' :
  admissible command sv s -> store_wf (sv_metadata sv) ->
  Forall (fun r' => cr_updated_at r' <= now) (ms_receipts (sv_metadata sv)) ->
  submit accepts now command sv = (sv', r) ->
  AgentCommand_validate command' = Ok tt -> co_command_id command' = co_command_id command ->
  exists held,
    receipt_identity held = command_identity command
    /\ (cr_state r <> "unavailable"%string -> held = r)
    /\ submit accepts' now' command' sv'
       = (sv', if bool_decide (command_identity command = command_identity command') then held
               else rejected_receipt command' "rejected" "duplicate_command_id" now').
Proof.
  intros Hadm Hwf Hold Hsub Hv Hid. pose proof (submit_recorded _ _ _ _ _ _ _ Hadm Hwf Hold Hsub) as Hrec.
  cbn zeta in Hrec. destruct (receipt_written _ _ _).
  - destruct Hrec as [Hh Hr]. exists r.
    assert (receipt_identity r = command_identity command) as Hri by (by destruct Hr as [->|[reason ->]]).
    split_and!; [done|done|]. rewrite (submit_held _ _ _ _ _ r); [by rewrite Hri|done|by rewrite Hid].
  - destruct Hrec as (Hh & -> & _). exists (sending_receipt now command). split_and!; [done|done|].
    by rewrite (submit_held _ _ _ _ _ (sending_receipt now command)); [|done|rewrite Hid].
Qed.

(** A submission the receipt store could not record is answered [unavailable], and yet cannot be
    retried: the store kept the receipt in memory, so the same command is answered [sending] from
    then on, even by a store that can be written again, and no bridge is ever handed it. *)
Theorem failed_store_pins_sending accepts now command sv s sv' r write' accepts' now' :
  admissible command sv s -> store_wf (sv_metadata sv) ->
  Forall (fun r' => cr_updated_at r' <= now) (ms_receipts (sv_metadata sv)) ->
  receipt_written (sv_metadata sv) (sending_receipt now command) now = false ->
  submit accepts now command sv = (sv', r) ->
  cr_state r = "unavailable"%string /\ sv_sessions sv' = sv_sessions sv
  /\ submit_command_from encoded_len write' accepts' now' command sv' = (sv', sending_receipt now command).
Proof.
  intros Hadm Hwf Hold Hfail Hsub. pose proof (submit_recorded _ _ _ _ _ _ _ Hadm Hwf Hold Hsub) as Hrec.
  cbn zeta in Hrec. rewrite Hfail in Hrec. destruct Hrec as (Hh & -> & Hsame). split_and!; [done|done|].
  rewrite (submit_held _ _ _ _ _ (sending_receipt now command)); [|by apply Hadm|done].
  by rewrite bool_decide_true.
Qed.
(** ** Bridges lost *)

(** What giving up commands keeps of the session, and the frames it sends. *)
Definition gave_up (command_ids : list string) (now : N) (session_id reason : string) (s s' : LiveSession) : Prop :=
  same_bridge s s'
  /\ ls_adapter_active s' = ls_adapter_active s
  /\ exists frames, ls_updates s' = ls_updates s ++ frames
     /\ forall command_id, command_id ∈ command_ids ->
          CommandReceiptFrame AGENT_PROTOCOL_VERSION
            (session_receipt session_id (ls_snapshot s) command_id "outcome_unknown" (Some reason) None now) ∈ frames.

Lemma publish_receipt_frames now r s :
  exists d, ls_updates (publish_receipt now r s)
    = ls_updates s ++ [CommandReceiptFrame AGENT_PROTOCOL_VERSION r; d].
Proof. eexists. unfold publish_receipt. cbn. by rewrite <- app_assoc. Qed.

Lemma give_up_in_flight_spec command_ids now session_id reason metadata s :
  exists metadata' s',
    give_up_in_flight encoded_len write_private now session_id reason command_ids metadata s = (metadata', s')
    /\ gave_up command_ids now session_id reason s s'.
Proof.
  revert metadata s. induction command_ids as [|c command_ids IH]; intros metadata s.
  { exists metadata, s. split; [done|]. split; [by split_and!|]. split; [done|]. exists [].
    split; [by rewrite app_nil_r|]. by intros c ?%not_elem_of_nil. }
  unfold give_up_in_flight. cbn [foldl]. rewrite publish_regardless_eq.
  set (r := session_receipt session_id (ls_snapshot s) c "outcome_unknown" (Some reason) None now).
  destruct (publish_receipt_frames now r s) as [d Hd].
  pose proof (publish_receipt_bridge now r s) as Hb.
  assert (ls_adapter_active (publish_receipt now r s) = ls_adapter_active s) as Ha by done.
  assert (ss_snapshot_epoch (ls_snapshot (publish_receipt now r s)) = ss_snapshot_epoch (ls_snapshot s)) as He by done.
  generalize dependent (publish_receipt now r s). intros s1 Hd Hb Ha He.
  destruct (IH (receipt_store metadata r now) s1) as (metadata' & s' & Heq & Hb' & Ha' & frames & Hf & Hall).
  exists metadata', s'. split; [exact Heq|]. split; [|split; [congruence|]].
  - destruct Hb as (?&?&?&?&?&?), Hb' as (?&?&?&?&?&?). by split_and!; etrans.
  - exists ([CommandReceiptFrame AGENT_PROTOCOL_VERSION r; d] ++ frames).
    split; [by rewrite app_assoc, <- Hd|]. intros c' [->|Hc]%elem_of_cons; [set_solver|].
    apply elem_of_app. right. specialize (Hall c' Hc). unfold session_receipt in *.
    destruct Hb as (_ & _ & _ & _ & Hg & _). by rewrite Hg, He in Hall.
Qed.

(** When a bridge drops without its process exiting, no command is left hanging: the session offers
    no commands, holds no bridge and nothing in flight, says nothing of its turn, is no longer adopted,
    and every command that was in flight was told to subscribers as [outcome_unknown]; every other
    session and every route is as it was. *)
Theorem bridge_disconnected_spec iterate drain now session_id token sv s :
  (forall commands, drain commands ≡ₚ elements commands) ->
  sv_sessions sv !! session_id = Some s -> ls_bridge_disconnect_token s = token ->
  let sv' := bridge_disconnected iterate drain encoded_len write_private now session_id token false sv in
  exists s' frames,
    sv_sessions sv' = <[session_id := s']> (sv_sessions sv) /\ sv_routes sv' = sv_routes sv
    /\ ls_bridge_sender s' = None /\ ls_in_flight_commands s' = ∅ /\ ls_adapter_active s' = false
    /\ ac_commands (ss_capabilities (ls_snapshot s')) = CommandCapabilities_none
    /\ ss_turn (ls_snapshot s') = TurnUnknown "bridge_disconnected"
    /\ ss_topology (ls_snapshot s') <> "adopted"%string
    /\ ls_updates s' = ls_updates s ++ frames
    /\ forall command_id, command_id ∈ ls_in_flight_commands s ->
         CommandReceiptFrame AGENT_PROTOCOL_VERSION
           (session_receipt session_id (ls_snapshot s) command_id "outcome_unknown"
              (Some "bridge_disconnected"%string) None now) ∈ frames.
Proof.
  intros Hdrain Hs Htok. cbn zeta. unfold bridge_disconnected. rewrite Hs, Htok, String.eqb_refl. cbn [negb].
  set (s0 := set_ls_in_flight_commands ∅ _).
  destruct (give_up_in_flight_spec (drain (ls_in_flight_commands s)) now session_id "bridge_disconnected"
    (sv_metadata sv) s0) as (metadata' & s1 & -> & (Hb & Hf & _ & _ & _ & Htop) & Ha & frames & Hup & Hall).
  set (s2 := if _ : bool then _ else _).
  assert (ss_topology (ls_snapshot s2) <> "adopted"%string /\ ls_bridge_sender s2 = None
    /\ ls_in_flight_commands s2 = ∅ /\ ls_adapter_active s2 = false
    /\ ls_updates s2 = ls_updates s ++ frames) as (H1 & H2 & H3 & H4 & H5).
  { unfold s2. destruct (String.eqb_spec (ss_topology (ls_snapshot s1)) "adopted"); by split_and!. }
  clearbody s2. exists (downgrade_session now "bridge_disconnected" s2).
  eexists (frames ++ _). unfold put_session. split_and!; try done.
  - unfold downgrade_session, report, send_delta, send. cbn. rewrite H5. by rewrite <- app_assoc.
  - intros c Hc. apply elem_of_app. left. apply Hall. rewrite Hdrain. by apply elem_of_elements.
Qed.
End commands.
