(* ===== verification/Queries.v ===== *)
(** What the supervisor answers about its sessions ([agent_session.rs]): the list, what a notification
    says, who may take a session over, and what each pane holds. *)
From S2P Require Import Prelude Text HostProtocol Protocol Fit Reducer Metadata Reconcile Session History Bridge.
From S2P Require Import Timeline Registration Supervisor Commands.

Local Open Scope N_scope.

(** ** Words *)

(** [str::split_whitespace] and [join(" ")], on characters. *)
Fixpoint words_of (word : string) (cs : list string) : list string :=
  match cs with
  | [] => [word]
  | c :: cs => if is_whitespace c then word :: words_of "" cs else words_of (word +:+ c) cs
  end.

Definition split_whitespace (s : string) : list string :=
  List.filter (fun word => negb (slen word =? 0)) (words_of "" (chars s)).

Fixpoint join_words (words : list string) : string :=
  match words with
  | [] => ""
  | [word] => word
  | word :: words => word +:+ " " +:+ join_words words
  end.

(** ** Adoption and promotion *)

Definition blocks_adoption (s : LiveSession) : bool := is_some (ls_terminal_binding s).

Record PromotionTarget := mkPromotionTarget {
  pt_vendor_session_id : option string;
  pt_workspace_path : string;
  pt_process_id : N
}.

Definition has_resumable_conversation (observed_a_prompt : bool) (transcript_prompt : option string) : bool :=
  observed_a_prompt || is_some transcript_prompt.

Section queries.
Context (iterate : forall A, gmap string A -> list (string * A)).
(** [claude_transcript::recent_prompt], by upstream identity. *)
Context (transcript_prompt : string -> option string) (encoded_frame_len : AgentServerFrame -> N).

Definition sessions_of (sv : Supervisor) : list LiveSession := snd <$> iterate LiveSession (sv_sessions sv).

Definition promotion_target (session_id : string) (sv : Supervisor) : result string PromotionTarget :=
  let? s := ok_or (sv_sessions sv !! session_id) "unknown_session"%string in
  refuse_if (negb (ss_topology (ls_snapshot s) =s? "attached")) "not_attached"%string ?;
  refuse_if (negb (am_family (ss_adapter (ls_snapshot s)) =s? "Claude")) "promotion_unsupported"%string ?;
  let? workspace_path := ok_or (ls_workspace_path s) "workspace_path_unknown"%string in
  let observed_a_prompt := existsb (fun entry => te_kind entry =s? "user_message") (ls_history s) in
  let resumable := has_resumable_conversation observed_a_prompt (transcript_prompt (ls_upstream_identity s)) in
  Ok (mkPromotionTarget (if resumable then Some (ls_upstream_identity s) else None) workspace_path
        (ls_process_id s)).

Definition adoption_refusal (session_id : string) (sv : Supervisor) : option string :=
  if is_some_and blocks_adoption (sv_sessions sv !! session_id)
  then Some "terminal_holds_conversation"%string else None.

Definition thread_adoption_refusal (thread_id : string) (sv : Supervisor) : option string :=
  if existsb (fun s => (ls_upstream_identity s =s? thread_id) && blocks_adoption s) (sessions_of sv)
  then Some "terminal_holds_conversation"%string else None.

Definition codex_thread_for_session (session_id : string) (sv : Supervisor) : option string :=
  s ← sv_sessions sv !! session_id;
  if (am_family (ss_adapter (ls_snapshot s)) =s? "Codex") && (ss_topology (ls_snapshot s) =s? "attached")
  then Some (ls_upstream_identity s) else None.

Definition has_upstream (upstream_identity : string) (sv : Supervisor) : bool :=
  existsb (fun s => ls_upstream_identity s =s? upstream_identity) (sessions_of sv).

Definition registered_process (sha256 : list N -> list N) (upstream_identity process_nonce : string) (sv : Supervisor)
  : option (string * string) :=
  _ ← mapping_for_process sha256 (sv_metadata sv) upstream_identity process_nonce;
  (fun mapping => (im_adapter_family mapping, im_adapter_version mapping))
    <$> mapping_for sha256 (sv_metadata sv) upstream_identity.

(** ** The list *)

Definition set_managed_session_id (x : option string) (d : AgentSessionDescriptor) : AgentSessionDescriptor :=
  mkAgentSessionDescriptor (de_v d) (de_session_id d) (de_adapter_family d) (de_adapter_version d)
    (de_topology d) (de_presence d) (de_stored_reason d) (de_process_generation d) (de_observation d) (de_turn d)
    (de_capabilities d) (de_workspace_display d) (de_terminal_fallback d) (de_recent_prompt d) x
    (de_takeover d) (de_drift d) (de_revision d) (de_updated_at d).

(** A row, told which managed session owns its conversation. *)
Definition owned_descriptor (owners : gmap string string) (s : LiveSession) : AgentSessionDescriptor :=
  let descriptor := descriptor_for transcript_prompt s in
  if de_topology descriptor =s? "attached"
  then set_managed_session_id (owners !! ls_upstream_identity s) descriptor else descriptor.

Definition list_with_managed_owners (owners : gmap string string) (sv : Supervisor) : AgentSessionList :=
  bounded_session_list encoded_frame_len (owned_descriptor owners <$> sessions_of sv) 0.

Definition session_list (sv : Supervisor) : AgentSessionList :=
  bounded_session_list encoded_frame_len (descriptor_for transcript_prompt <$> sessions_of sv) 0.

(** ** Notifications *)

Definition recent_reply_for (s : LiveSession) : option string :=
  text ← text_of_kind "assistant_message" (ls_history s);
  let head := stake (floor_boundary text (N.to_nat (8 * 1024))) text in
  let bounded := truncate_on_char_boundary (join_words (split_whitespace head)) MAX_RECENT_PROMPT_BYTES in
  if slen bounded =? 0 then None else Some bounded.

Record NotificationFacts := mkNotificationFacts {
  nf_workspace : string;
  nf_tab : option string;
  nf_subject : option string;
  nf_reply : option string
}.

(** [tab_label] is the provider's answer about a route's proof. *)
Definition notification_facts (tab_label : AgentRouteProof -> option string) (session_id : string) (sv : Supervisor)
  : option NotificationFacts :=
  s ← sv_sessions sv !! session_id;
  let proof := (fun '(_, record) => rt_proof record) <$>
    List.find (fun '(_, record) => rt_session_id record =s? session_id) (iterate RouteRecord (sv_routes sv)) in
  Some (mkNotificationFacts (ls_workspace_display s) (proof ≫= tab_label)
          (recent_prompt_for transcript_prompt s) (recent_reply_for s)).

(** ** Panes *)

Definition tab_key (proof : AgentRouteProof) : option (ProviderKind * string * string) :=
  match proof with
  | Tmux _ _ session_name _ window_id _ _ _ => Some (ProviderTmux, session_name, window_id)
  | HerdrWorkspace _ _ session_name _ _ tab_id => (fun tab => (ProviderHerdr, session_name, tab)) <$> tab_id
  end.

(** The pairs [agent_tabs] collects; of two with one key the map keeps the later. *)
Definition agent_tabs (sv : Supervisor) : list (ProviderKind * string * string * string) :=
  omap (fun '(_, record) => (fun key => (key, rt_session_id record)) <$> tab_key (rt_proof record))
    (iterate RouteRecord (sv_routes sv)).

Definition active_count (sv : Supervisor) : N := len (List.filter ls_adapter_active (sessions_of sv)).

(** A snapshot and, by its position in the session's updates, the stream that continues it. *)
Definition subscribe_from_snapshot (session_id : string) (sv : Supervisor) : option (AgentSessionSnapshot * nat) :=
  s ← sv_sessions sv !! session_id;
  Some (snapshot_for_wire encoded_frame_len s, length (ls_updates s)).
End queries.

Definition timeline_for_handover (session_id : string) (sv : Supervisor) : list TimelineEntry :=
  default [] (ls_history <$> sv_sessions sv !! session_id).

Definition carry_history_into (session_id : string) (history : list TimelineEntry) (sv : Supervisor) : Supervisor :=
  if len history =? 0 then sv else set_carried (<[session_id := history]> (sv_carried_history sv)) sv.

Definition workspace_path (session_id : string) (sv : Supervisor) : option string :=
  sv_sessions sv !! session_id ≫= ls_workspace_path.

Definition ended_session_ids (sv : Supervisor) : gset string := dom (sv_ended sv).

(** ** The list is one the phone accepts *)

(** What a session must be for its row to be listed. *)
Definition listable (s : LiveSession) : Prop :=
  AgentSessionSnapshot_validate (ls_snapshot s) = Ok tt
  /\ empty_or_over MAX_WORKSPACE_DISPLAY_BYTES (ls_workspace_display s) = false
  /\ ls_updated_at s <> 0.

(** A transcript names a conversation within the bound it is asked for. *)
Definition titles_bounded (transcript_prompt : string -> option string) : Prop :=
  forall upstream title, transcript_prompt upstream = Some title -> 0 < slen title <= MAX_RECENT_PROMPT_BYTES.

Lemma owned_descriptor_valid transcript_prompt owners s :
  titles_bounded transcript_prompt -> listable s ->
  AgentSessionDescriptor_validate (owned_descriptor transcript_prompt owners s) = Ok tt.
Proof.
  intros Ht (Hv & Hw & Hu). pose proof (descriptor_for_valid transcript_prompt s Hv Hw Hu Ht) as H.
  unfold owned_descriptor. by case_match.
Qed.

Lemma bounded_list_subset encoded_frame_len descriptors d :
  len descriptors <= u32_max ->
  d ∈ sl_sessions (bounded_session_list encoded_frame_len descriptors 0) -> d ∈ descriptors.
Proof.
  intros Hmax Hd. destruct (bounded_list_facts encoded_frame_len descriptors 0) as ([k Hk] & _); [lia|].
  rewrite Hk in Hd. rewrite <- (sort_newest_perm descriptors). by eapply sublist_subset; [apply sublist_take|].
Qed.

(** The session list the phone is sent is one it accepts whole, whichever sessions are live and
    whoever owns their conversations: every row is valid, at most 64, newest first, and each session
    not shown is counted. A single bad row would make the phone refuse the list. *)
Theorem session_list_valid iterate transcript_prompt encoded_frame_len owners sv :
  iterates iterate -> titles_bounded transcript_prompt ->
  (forall id s, sv_sessions sv !! id = Some s -> listable s) ->
  N.of_nat (size (sv_sessions sv)) <= u32_max ->
  let r := list_with_managed_owners iterate transcript_prompt encoded_frame_len owners sv in
  AgentSessionList_validate r = Ok tt
  /\ StronglySorted newer_or_equal (sl_sessions r)
  /\ sl_omitted_sessions r + len (sl_sessions r) = N.of_nat (size (sv_sessions sv))
  /\ (forall d, d ∈ sl_sessions r -> exists id s, sv_sessions sv !! id = Some s
        /\ d = owned_descriptor transcript_prompt owners s).
Proof.
  intros Hit Ht Hall Hsize. cbn zeta. unfold list_with_managed_owners.
  assert (forall d, d ∈ owned_descriptor transcript_prompt owners <$> sessions_of iterate sv ->
    exists id s, sv_sessions sv !! id = Some s /\ d = owned_descriptor transcript_prompt owners s) as Hin.
  { intros d (s & -> & Hs)%list_elem_of_fmap. unfold sessions_of in Hs.
    apply list_elem_of_fmap in Hs as ([id s'] & -> & Hs). rewrite (Hit _ _) in Hs. apply elem_of_map_to_list in Hs.
    by exists id, s'. }
  set (descriptors := _ <$> sessions_of iterate sv) in *.
  assert (len descriptors = N.of_nat (size (sv_sessions sv))) as Hlen.
  { unfold descriptors, sessions_of, len. rewrite !length_fmap, (Hit _ _). by rewrite length_map_to_list. }
  destruct (bounded_list_facts encoded_frame_len descriptors 0) as (_ & Hsorted & Hmax & Hsum & _); [lia|].
  split_and!; [|done|lia|intros d Hd; apply Hin; by eapply bounded_list_subset; [lia|]].
  unfold AgentSessionList_validate. rewrite !rbind_unit_ok. split_and!.
  - unfold bounded_session_list. by destruct (pop_until_fits _ _ _).
  - unfold invalid_if. rewrite refuse_if_ok, orb_false_iff. split; [|by apply N.ltb_ge].
    unfold bounded_session_list. by destruct (pop_until_fits _ _ _).
  - apply each_ok, Forall_forall. intros d Hd. apply bounded_list_subset in Hd; [|lia].
    apply Hin in Hd as (id & s & Hs & ->). apply owned_descriptor_valid; [done|by eapply Hall].
Qed.

(** A notification's lines are short enough to be sealed in one alert. *)
Lemma recent_reply_bounded s reply :
  recent_reply_for s = Some reply -> 0 < slen reply <= MAX_RECENT_PROMPT_BYTES.
Proof.
  unfold recent_reply_for. destruct (text_of_kind _ _) as [text|]; [|discriminate].
  change (Some text ≫= ?f) with (f text). cbv beta. generalize (stake (floor_boundary text (N.to_nat (8 * 1024))) text).
  intros head. cbv zeta.
  pose proof (truncate_on_char_boundary_le (join_words (split_whitespace head)) MAX_RECENT_PROMPT_BYTES) as Hle.
  destruct (truncate_on_char_boundary _ _) as [|b rest]; [discriminate|]. intros [= <-].
  split; [|exact Hle]. unfold slen. cbn. lia.
Qed.
