(* ===== verification/Output.v ===== *)
(** What processes print, as text and as JSON: the parts of the standard library and of [serde_json]'s value
    type that the readers of such output share. *)
From S2P Require Import Prelude Text UploadNames Registration Whereabouts.

Local Open Scope string_scope.
Local Open Scope N_scope.

(** ** Text *)

Definition REPLACEMENT : string := String "239" (String "191" (String "189" "")).

Definition is_within (low high : N) (b : ascii) : bool := (low <=? nb b) && (nb b <=? high).

(** [String::from_utf8_lossy]: what is no character, as far as it could have become one, is replaced. *)
Fixpoint from_utf8_lossy (s : string) : string :=
  match s with
  | EmptyString => EmptyString
  | String a s1 =>
      let broken rest := REPLACEMENT +:+ rest in
      if nb a <? 128 then String a (from_utf8_lossy s1)
      else if is_within 194 223 a then
        match s1 with
        | String b s2 => if is_cont b then String a (String b (from_utf8_lossy s2)) else broken (from_utf8_lossy s1)
        | EmptyString => broken EmptyString
        end
      else if is_within 224 239 a then
        match s1 with
        | String b s2 =>
            if is_within (if nb a =? 224 then 160 else 128) (if nb a =? 237 then 159 else 191) b then
              match s2 with
              | String d s3 => if is_cont d then String a (String b (String d (from_utf8_lossy s3))) else broken (from_utf8_lossy s2)
              | EmptyString => broken EmptyString
              end
            else broken (from_utf8_lossy s1)
        | EmptyString => broken EmptyString
        end
      else if is_within 240 244 a then
        match s1 with
        | String b s2 =>
            if is_within (if nb a =? 240 then 144 else 128) (if nb a =? 244 then 143 else 191) b then
              match s2 with
              | String d s3 =>
                  if is_cont d then
                    match s3 with
                    | String e s4 =>
                        if is_cont e then String a (String b (String d (String e (from_utf8_lossy s4)))) else broken (from_utf8_lossy s3)
                    | EmptyString => broken EmptyString
                    end
                  else broken (from_utf8_lossy s2)
              | EmptyString => broken EmptyString
              end
            else broken (from_utf8_lossy s1)
        | EmptyString => broken EmptyString
        end
      else broken (from_utf8_lossy s1)
  end.

(** [str::contains] and [str::split] of a text; [skip] counts the bytes of a match still to pass. *)
Fixpoint contains_text (pattern s : string) : bool :=
  starts_with s pattern || match s with EmptyString => false | String _ s => contains_text pattern s end.

Fixpoint split_text (pattern : string) (skip : nat) (s : string) : list string :=
  match s with
  | EmptyString => [""]
  | String b s' =>
      match skip with
      | S skip => split_text pattern skip s'
      | O =>
          if starts_with s pattern then "" :: split_text pattern (String.length pattern - 1) s'
          else match split_text pattern 0 s' with
               | c :: cs => String b c :: cs
               | [] => [String b ""]
               end
      end
  end.

(** [str::splitn], and [str::rsplitn], whose pieces come last first. *)
Fixpoint splitn (n : nat) (sep : ascii) (s : string) : list string :=
  match n with
  | O => []
  | S O => [s]
  | S n => match split_once sep s with Some (piece, rest) => piece :: splitn n sep rest | None => [s] end
  end.

Fixpoint rsplitn (n : nat) (sep : ascii) (s : string) : list string :=
  match n with
  | O => []
  | S O => [s]
  | S n => match rsplit_once sep s with Some (rest, piece) => piece :: rsplitn n sep rest | None => [s] end
  end.

(** How [Display] writes a number. *)
Fixpoint decimal_loop (fuel : nat) (n : N) (rest : string) : string :=
  let rest := String (ascii_of_N (48 + n mod 10)) rest in
  match fuel with
  | O => rest
  | S fuel => if n <? 10 then rest else decimal_loop fuel (n / 10) rest
  end.
Definition decimal (n : N) : string := decimal_loop (N.to_nat (N.log2 n)) n "".

(** ** JSON *)

(** [serde_json::Number]: a float is its bits. *)
Inductive JsonNumber := PosInt (n : N) | NegInt (magnitude : N) | Float (bits : N).

(** [serde_json::Value]; the fields of an object have distinct names. *)
#[local] Unset Elimination Schemes.
Inductive Value :=
| Null
| Bool (b : bool)
| Number (n : JsonNumber)
| Str (s : string)
| Array (items : list Value)
| Object (fields : list (string * Value)).
#[local] Set Elimination Schemes.

Definition as_object (v : Value) : option (list (string * Value)) := match v with Object fields => Some fields | _ => None end.
Definition as_array (v : Value) : option (list Value) := match v with Array items => Some items | _ => None end.
Definition as_str (v : Value) : option string := match v with Str s => Some s | _ => None end.
Definition as_u64 (v : Value) : option N := match v with Number (PosInt n) => Some n | _ => None end.
Definition as_bool (v : Value) : option bool := match v with Bool b => Some b | _ => None end.

(** [Map::get] and [Value::get]. *)
Definition field (name : string) (fields : list (string * Value)) : option Value :=
  snd <$> List.find (fun '(key, _) => key =s? name) fields.
Definition get (name : string) (v : Value) : option Value := as_object v ≫= field name.

(** ** Numbers are read back *)

Lemma digit_byte n : n < 10 -> nb (ascii_of_N (48 + n)) = 48 + n.
Proof. intros H. unfold nb. rewrite N_ascii_embedding by lia. done. Qed.

Lemma parse_decimal_loop fuel n rest :
  n <= u64_max -> N.log2 n <= N.of_nat fuel -> parse_digits64 0 (decimal_loop fuel n rest) = parse_digits64 n rest.
Proof.
  revert n rest. induction fuel as [|fuel IH]; intros n rest Hn Hf; cbn [decimal_loop].
  - assert (n < 10) as Hlt by (destruct (N.lt_ge_cases n 2); [lia|apply N.log2_le_mono in H; change (N.log2 2) with 1 in H; lia]).
    rewrite N.mod_small by done. cbn [parse_digits64]. unfold is_ascii_digit. rewrite digit_byte by done.
    rewrite (proj2 (N.leb_le _ _)), (proj2 (N.leb_le _ _)), (proj2 (N.leb_le _ _)) by lia. cbn [andb]. f_equal. lia.
  - destruct (N.ltb_spec n 10) as [Hlt|Hge].
    + rewrite N.mod_small by done. cbn [parse_digits64]. unfold is_ascii_digit. rewrite digit_byte by done.
      rewrite (proj2 (N.leb_le _ _)), (proj2 (N.leb_le _ _)), (proj2 (N.leb_le _ _)) by lia. cbn [andb]. f_equal. lia.
    + assert (n / 10 <= n) by (apply N.Div0.div_le_upper_bound; lia).
      assert (N.log2 (n / 10) <= N.of_nat fuel) as Hlog.
      { assert (n / 10 <= n / 2) as Hd by (apply N.div_le_compat_l; lia). apply N.log2_le_mono in Hd.
        rewrite <- N.div2_div in Hd. rewrite N.div2_spec, N.log2_shiftr in Hd. lia. }
      rewrite IH by lia. pose proof (N.mod_lt n 10 ltac:(done)); pose proof (N.le_0_l (n mod 10)). pose proof (N.Div0.div_mod n 10).
      cbn [parse_digits64]. unfold is_ascii_digit. rewrite digit_byte by lia.
      rewrite (proj2 (N.leb_le _ _)), (proj2 (N.leb_le _ _)), (proj2 (N.leb_le _ _)) by lia. cbn [andb]. f_equal. lia.
Qed.

Lemma decimal_digits n : sall is_ascii_digit (decimal n) = true /\ decimal n <> "".
Proof.
  unfold decimal. generalize (N.to_nat (N.log2 n)). intros fuel.
  assert (forall rest, sall is_ascii_digit rest = true -> sall is_ascii_digit (decimal_loop fuel n rest) = true /\ decimal_loop fuel n rest <> "") as H; [|by apply H].
  revert n. induction fuel as [|fuel IH]; intros n rest Hr; cbn [decimal_loop];
    assert (sall is_ascii_digit (String (ascii_of_N (48 + n mod 10)) rest) = true) as Hd
      by (cbn [sall]; rewrite Hr, andb_true_r; unfold is_ascii_digit; pose proof (N.mod_lt n 10 ltac:(done)); pose proof (N.le_0_l (n mod 10)); rewrite digit_byte by lia;
          rewrite !(proj2 (N.leb_le _ _)) by lia; done).
  - by split.
  - destruct (n <? 10); [by split|]. by apply IH.
Qed.

Lemma parse_u64_decimal n : n <= u64_max -> parse_u64 (decimal n) = Some n.
Proof.
  intros Hn. pose proof (decimal_digits n) as [Hd Hne]. unfold parse_u64.
  assert (parse_digits64 0 (decimal n) = Some n) as Hp by (unfold decimal; rewrite parse_decimal_loop by lia; done).
  destruct (decimal n) as [|b s]; [done|]. cbn [sall] in Hd. apply andb_true_iff in Hd as [Hb _].
  assert (b <> "+"%char) as Hplus by (intros ->; done). destruct b as [[] [] [] [] [] [] [] []]; try exact Hp. by destruct Hplus.
Qed.
