(* ===== verification/Providers.v ===== *)
(** Terminal multiplexers, [workspace.rs]: what Ciao runs of tmux and herdr, and what it makes of their output. *)
From S2P Require Import Prelude Text HostProtocol HostRpc UploadNames GitDiff Downloads Registration Whereabouts Output.

Local Open Scope string_scope.
Local Open Scope N_scope.

Definition PROVIDER_STDOUT_CAP : N := 64 * 1024.
Definition PROVIDER_STDERR_CAP : N := 8 * 1024.
Definition HERDR_JSON_MAX_BYTES : N := 64 * 1024.
Definition HERDR_JSON_MAX_DEPTH : N := 4.
Definition HERDR_PANE_LIST_MAX_DEPTH : N := 5.
Definition TMUX_MIN_MAJOR : N := 3.
Definition HERDR_MIN_MAJOR_MINOR : N * N := (0, 7).
Definition UNIT_SEPARATOR : ascii := ascii_of_N 31.
Definition UNIT_SEPARATOR_ESCAPE : string := "\037".
Definition TMUX_FORCE_UTF8 : string := "-u".
Definition TMUX_LIST_FORMAT : string :=
  let separator := String UNIT_SEPARATOR "" in
  "#{session_name}" +:+ separator +:+ "#{session_attached}" +:+ separator +:+ "#{session_windows}" +:+ separator +:+ "#{session_created}".
Definition TMUX_WINDOW_LIST_FORMAT : string := "#{window_id} #{window_active} #{window_index} #{session_name} #{window_name}".
Definition MAX_HERDR_TAB_QUERIES : nat := 8.
Definition HANDBACK_ENV_BINARY : string := "/usr/bin/env".

(** ** Running a provider *)

Inductive ProviderExecError := SpawnFailed | TimedOut | WaitFailed.

Record BoundedOutput := mkBoundedOutput {
  bo_status_success : bool; bo_stdout : string; bo_stderr : string; bo_stdout_truncated : bool; bo_stderr_truncated : bool }.

(** What becomes of a child: it is not spawned, it outlives the timeout, or it ends, each pipe read piece by
    piece; [status] is none where waiting for it fails. *)
Inductive Child :=
| Unspawned
| Overrun
| Ended (stdout stderr : list string) (status : option bool).

(** [read_capped], on the reads that return bytes: what is over the cap is read and dropped. *)
Fixpoint read_capped_loop (cap : N) (reads : list string) (buffer : string) (truncated : bool) : string * bool :=
  match reads with
  | [] => (buffer, truncated)
  | chunk :: reads =>
      let taken := N.min (slen chunk) (cap - slen buffer) in
      read_capped_loop cap reads (buffer +:+ stake (N.to_nat taken) chunk) (truncated || (taken <? slen chunk))
  end.
Definition read_capped (cap : N) (reads : list string) : string * bool := read_capped_loop cap reads "" false.

Definition run_bounded (child : Child) : result ProviderExecError BoundedOutput :=
  match child with
  | Unspawned => Err SpawnFailed
  | Overrun => Err TimedOut
  | Ended _ _ None => Err WaitFailed
  | Ended stdout stderr (Some success) =>
      let '(out, out_truncated) := read_capped PROVIDER_STDOUT_CAP stdout in
      let '(err, err_truncated) := read_capped PROVIDER_STDERR_CAP stderr in
      Ok (mkBoundedOutput success out err out_truncated err_truncated)
  end.

(** What an operation does outside: processes run, exits requested, time let pass, drift noted. *)
Inductive Call :=
| Exec (program : string) (args : list string)
| RequestExit (pid : N)
| Settle
| Note (vendor surface kind name : string) (version : option string) (occurrences : N).

Definition Reply (c : Call) : Type := match c with Exec _ _ => Child | _ => unit end.

Inductive prov (A : Type) : Type :=
| Done (a : A)
| Doing (c : Call) (k : Reply c -> prov A).

#[export] Instance prov_ret : MRet prov := Done.

#[export] Instance prov_bind : MBind prov :=
  fun A B k => fix go p :=
    match p with
    | Done _ a => k a
    | Doing _ c f => Doing B c (fun r => go (f r))
    end.

Definition does (c : Call) : prov (Reply c) := Doing (Reply c) c (Done (Reply c)).

Definition exec (program : string) (args : list string) : prov (result ProviderExecError BoundedOutput) :=
  child ← does (Exec program args);
  mret (run_bounded child).

Definition note (vendor surface kind name : string) (version : option string) (occurrences : N) : prov unit :=
  if occurrences =? 0 then mret tt else _ ← does (Note vendor surface kind name version occurrences); mret tt.

(** The standard output of a run that succeeded and was read whole. *)
Definition whole (r : result ProviderExecError BoundedOutput) : option string :=
  match r with
  | Ok output => if bo_status_success output && negb (bo_stdout_truncated output) then Some (bo_stdout output) else None
  | Err _ => None
  end.

Definition succeeded (r : result ProviderExecError BoundedOutput) : bool :=
  match r with Ok output => bo_status_success output | Err _ => false end.

(** ** Versions *)

Definition is_ascii_alphabetic (b : ascii) : bool := within 65 90 (nb b) || within 97 122 (nb b).

Definition provider_byte (b : ascii) : bool := is_ascii_alphanumeric b || is_byte [46; 95; 45] b.

Definition parse_version_stdout (kind : ProviderKind) (stdout : string) : option string :=
  text ← from_utf8 stdout;
  first ← head (lines text);
  rest ← strip_prefix first (match kind with ProviderTmux => "tmux " | ProviderHerdr => "herdr " end);
  let token := trim rest in
  if negb (token =s? "") && (slen token <=? MAX_PROVIDER_VERSION_BYTES) && sall provider_byte token then Some token else None.

(** The digits a text starts with, and what follows them. *)
Fixpoint take_digits (s : string) : string * string :=
  match s with
  | String b s' => if is_ascii_digit b then let '(digits, rest) := take_digits s' in (String b digits, rest) else ("", s)
  | EmptyString => ("", "")
  end.

Definition parse_tmux_version (version : string) : option (N * N) :=
  let version := default version (strip_prefix version "next-") in
  '(major, minor_and_suffix) ← split_once "." version;
  if (major =s? "") || negb (sall is_ascii_digit major) then None
  else
    let '(digits, suffix) := take_digits minor_and_suffix in
    if (digits =s? "") || negb (sall is_ascii_alphabetic suffix) then None
    else major ← parse_u64 major; minor ← parse_u64 digits; Some (major, minor).

Definition slast (s : string) : option ascii := last (String.list_ascii_of_string s).

Definition parse_herdr_version (version : string) : option (N * N) :=
  let '(release, prerelease) := match split_once "-" version with
                                | Some (release, suffix) => (release, Some suffix)
                                | None => (version, None)
                                end in
  let parts := split_on "." release in
  if (len parts <? 2) || existsb (fun part => (part =s? "") || negb (sall is_ascii_digit part)) parts then None
  else if existsb (fun part => is_none (parse_u64 part)) parts then None
  else if is_some_and (fun suffix => (suffix =s? "") || negb (is_some_and is_ascii_alphanumeric (shead suffix))
                                     || negb (is_some_and is_ascii_alphanumeric (slast suffix)) || negb (sall provider_byte suffix)) prerelease
  then None
  else major ← head parts ≫= parse_u64; minor ← parts !! 1%nat ≫= parse_u64; Some (major, minor).

Definition version_meets_minimum (kind : ProviderKind) (version : string) : bool :=
  match (match kind with ProviderTmux => parse_tmux_version version | ProviderHerdr => parse_herdr_version version end) with
  | None => false
  | Some (major, minor) =>
      match kind with
      | ProviderTmux => TMUX_MIN_MAJOR <=? major
      | ProviderHerdr => (HERDR_MIN_MAJOR_MINOR.1 <? major) || ((HERDR_MIN_MAJOR_MINOR.1 =? major) && (HERDR_MIN_MAJOR_MINOR.2 <=? minor))
      end
  end.

(** ** Lists of tmux sessions *)

(** One line of a format, in the form tmux wrote it. *)
Definition split_tmux_fields (n : nat) (line : string) : option (list string) :=
  let fields :=
    if existsb (Ascii.eqb UNIT_SEPARATOR) (String.list_ascii_of_string line) then split_on UNIT_SEPARATOR line
    else if contains_text UNIT_SEPARATOR_ESCAPE line then split_text UNIT_SEPARATOR_ESCAPE 0 line
    else reverse (rsplitn n "_" line) in
  if Nat.eqb (length fields) n then Some fields else None.

Definition parse_tmux_line (line : string) : option TmuxSessionEntry :=
  fields ← split_tmux_fields 4 line;
  match fields with
  | [name; attached; windows; created] =>
      if negb (valid_session_name name) then None
      else
        attached ← parse_u64 attached;
        windows ← parse_u32 windows;
        created ← parse_u64 created;
        Some (mkTmuxSessionEntry name (0 <? attached) windows created None)
  | _ => None
  end.

(** The entries, and how many lines were left out. *)
Definition parse_tmux_list (stdout : string) : list TmuxSessionEntry * N :=
  foldl (fun '(sessions, omitted) line =>
           if line =s? "" then (sessions, omitted)
           else match parse_tmux_line line with
                | Some session => ((sessions ++ [session])%list, omitted)
                | None => (sessions, N.min (omitted + 1) u32_max)
                end)
        ([], 0) (lines (from_utf8_lossy stdout)).

Definition newer (sessions : list TmuxSessionEntry) (i j : nat) : Prop :=
  let created k := default 0 (ts_created_unix <$> sessions !! k) in
  created j < created i \/ created i = created j /\ (i <= j)%nat.

#[export] Instance newer_dec sessions : RelDecision (newer sessions).
Proof. intros i j. unfold newer. apply _. Defined.

Definition cap_tmux_sessions (sessions : list TmuxSessionEntry) : list TmuxSessionEntry * N :=
  if len sessions <=? MAX_SESSIONS_PER_PROVIDER then (sessions, 0)
  else
    let ranked := merge_sort (newer sessions) (seq 0 (length sessions)) in
    let keep := take (N.to_nat MAX_SESSIONS_PER_PROVIDER) ranked in
    (omap id (imap (fun index session => if bool_decide (index ∈ keep) then Some session else None) sessions),
     len sessions - MAX_SESSIONS_PER_PROVIDER).

(** ** Tabs *)

Definition tmux_window_id (id : string) : bool :=
  (1 <? slen id) && (slen id <=? 11) && starts_with id "@" && sall is_ascii_digit (sdrop 1 id).

(** The characters that fit, in order, up to the first that does not. *)
Fixpoint fitting (maximum : N) (cs : list string) (label : string) : string :=
  match cs with
  | [] => label
  | c :: cs => if maximum <? slen label + slen c then label else fitting maximum cs (label +:+ c)
  end.

Definition sanitize_tab_label (raw : string) : option string :=
  let trimmed := trim (fitting MAX_TAB_LABEL_BYTES (List.filter (fun c => negb (is_control c)) (chars raw)) "") in
  if trimmed =s? "" then None else Some trimmed.

Definition set_focused (focused : bool) (tab : SessionTabEntry) : SessionTabEntry :=
  mkSessionTabEntry (st_id tab) (st_label tab) focused (st_status tab) (st_agent_session_id tab) (st_agent tab) (st_workspace tab).

Fixpoint one_focused (seen_focused : bool) (tabs : list SessionTabEntry) : list SessionTabEntry :=
  match tabs with
  | [] => []
  | tab :: tabs => set_focused (st_focused tab && negb seen_focused) tab :: one_focused (seen_focused || st_focused tab) tabs
  end.

Definition normalize_tabs (tabs : list SessionTabEntry) : option (list SessionTabEntry) :=
  let tabs := one_focused false (take (N.to_nat MAX_TABS_PER_SESSION) tabs) in
  if len tabs =? 0 then None else Some tabs.

Definition AgentTabIndex : Type := list (ProviderKind * string * string * string).

(** Of two sessions for one tab the later is the map's. *)
Definition agent_of (kind : ProviderKind) (session tab : string) (agents : AgentTabIndex) : option string :=
  snd <$> last (List.filter (fun '(key, _) => bool_decide (key = (kind, session, tab))) agents).

Definition set_agent_session (agent_session_id : option string) (tab : SessionTabEntry) : SessionTabEntry :=
  mkSessionTabEntry (st_id tab) (st_label tab) (st_focused tab) (st_status tab) agent_session_id (st_agent tab) (st_workspace tab).

Definition annotate_agents (kind : ProviderKind) (session : string) (tabs : list SessionTabEntry) (agents : AgentTabIndex)
  : list SessionTabEntry :=
  if len agents =? 0 then tabs else (fun tab => set_agent_session (agent_of kind session (st_id tab) agents) tab) <$> tabs.

(** A line of the list of windows: its session, and the tab with its index. *)
Definition parse_tmux_window (known : string -> bool) (line : string) : option (string * (N * SessionTabEntry)) :=
  match splitn 5 " " line with
  | id :: active :: index :: session :: name =>
      if negb (tmux_window_id id) || negb (known session) then None
      else
        index ← parse_u32 index;
        focused ← (if active =s? "1" then Some true else if active =s? "0" then Some false else None);
        let label := default (decimal index) (sanitize_tab_label (default "" (head name))) in
        Some (session, (index, mkSessionTabEntry id label focused None None None None))
  | _ => None
  end.

Definition parse_tmux_window_list (stdout : string) (sessions : list TmuxSessionEntry) : gmap string (list SessionTabEntry) :=
  let known name := existsb (fun s => ts_name s =s? name) sessions in
  let windows := foldl (fun windows line =>
                          if line =s? "" then windows
                          else match parse_tmux_window known line with
                               | Some (session, tab) => <[session := (default [] (windows !! session) ++ [tab])%list]> windows
                               | None => windows
                               end)
                       (∅ : gmap string (list (N * SessionTabEntry))) (lines (from_utf8_lossy stdout)) in
  (fun tabs => snd <$> sort_by_key fst tabs) <$> windows.

(** ** What herdr answers *)

Fixpoint container_depth (v : Value) : N :=
  match v with
  | Object fields => 1 + foldr N.max 0 ((fun '(_, v) => container_depth v) <$> fields)
  | Array items => 1 + foldr N.max 0 (container_depth <$> items)
  | _ => 0
  end.

Section herdr.
(** [serde_json::from_slice]. *)
Context (from_slice : string -> option Value).

Definition str_field (name : string) (object : list (string * Value)) : option string := value ← field name object; as_str value.
Definition bool_field (name : string) (object : list (string * Value)) : option bool := value ← field name object; as_bool value.
Definition array_field (name : string) (object : list (string * Value)) : option (list Value) := value ← field name object; as_array value.

(** A document within its bounds. *)
Definition document (depth : N) (stdout : string) : option Value :=
  if HERDR_JSON_MAX_BYTES <? slen stdout then None
  else value ← from_slice stdout; if depth <? container_depth value then None else Some value.

Definition result_items (name : string) (depth : N) (stdout : string) : option (list Value) :=
  value ← document depth stdout;
  object ← as_object value;
  result ← field "result" object;
  object ← as_object result;
  array_field name object.

Definition parse_herdr_session (entry : Value) : option HerdrSessionEntry :=
  object ← as_object entry;
  name ← str_field "name" object;
  if negb (valid_session_name name) then None
  else Some (mkHerdrSessionEntry name (default false (bool_field "running" object)) (default false (bool_field "default" object)) None).

Definition parse_herdr_list (stdout : string) : option (list HerdrSessionEntry * N) :=
  value ← document HERDR_JSON_MAX_DEPTH stdout;
  object ← as_object value;
  entries ← array_field "sessions" object;
  Some (foldl (fun '(sessions, omitted) entry =>
                 match parse_herdr_session entry with
                 | Some session => ((sessions ++ [session])%list, omitted)
                 | None => (sessions, N.min (omitted + 1) u32_max)
                 end) ([], 0) entries).

Definition cap_herdr_sessions (sessions : list HerdrSessionEntry) : list HerdrSessionEntry * N :=
  if len sessions <=? MAX_SESSIONS_PER_PROVIDER then (sessions, 0)
  else (take (N.to_nat MAX_SESSIONS_PER_PROVIDER) sessions, len sessions - MAX_SESSIONS_PER_PROVIDER).

Definition kept_if (p : string -> bool) (o : option string) : option string := value ← o; if p value then Some value else None.

Definition parse_herdr_tab (tab : Value) : option SessionTabEntry :=
  tab ← as_object tab;
  id ← str_field "tab_id" tab;
  if negb (valid_tab_id id) then None
  else
    Some (mkSessionTabEntry id (default id (str_field "label" tab ≫= sanitize_tab_label))
            (default false (bool_field "focused" tab)) (kept_if valid_tab_status (str_field "agent_status" tab)) None None
            (kept_if valid_tab_id (str_field "workspace_id" tab))).

Definition parse_herdr_tab_list (stdout : string) : option (list SessionTabEntry) :=
  (fun tabs : list Value => omap parse_herdr_tab tabs) <$> result_items "tabs" HERDR_JSON_MAX_DEPTH stdout.

Definition parse_herdr_workspace (workspace : Value) : option (string * string) :=
  workspace ← as_object workspace;
  id ← str_field "workspace_id" workspace;
  if negb (valid_tab_id id) then None
  else label ← str_field "label" workspace ≫= sanitize_tab_label; Some (id, label).

Definition parse_herdr_workspace_labels (stdout : string) : option (gmap string string) :=
  (fun workspaces => foldl (fun labels '(id, label) => <[id := label]> labels) ∅
                       (omap parse_herdr_workspace (take (N.to_nat MAX_TABS_PER_SESSION) workspaces)))
    <$> result_items "workspaces" HERDR_JSON_MAX_DEPTH stdout.

(** One pane's word on its tab: the tabs' agents, each with whether its pane was focused, and the names refused. *)
Definition note_pane (held : gmap string (string * bool) * N) (pane : Value) : gmap string (string * bool) * N :=
  let '(agents, refused) := held in
  match as_object pane with
  | None => held
  | Some pane =>
      match kept_if valid_tab_id (str_field "tab_id" pane), field "agent" pane with
      | None, _ | _, None | _, Some Null => held
      | Some tab, Some agent =>
          match kept_if valid_tab_agent (as_str agent) with
          | None => (agents, refused + 1)
          | Some agent =>
              let focused := default false (bool_field "focused" pane) in
              let keep := match agents !! tab with None => true | Some (_, held_focused) => focused && negb held_focused end in
              if keep then (<[tab := (agent, focused)]> agents, refused) else held
          end
      end
  end.

Definition parse_herdr_pane_agents (stdout : string) : option (gmap string string * N) :=
  (fun panes => let '(agents, refused) := foldl note_pane (∅, 0) panes in (fst <$> agents, refused))
    <$> result_items "panes" HERDR_PANE_LIST_MAX_DEPTH stdout.

Definition set_workspace (workspace : option string) (tab : SessionTabEntry) : SessionTabEntry :=
  mkSessionTabEntry (st_id tab) (st_label tab) (st_focused tab) (st_status tab) (st_agent_session_id tab) (st_agent tab) workspace.

Definition set_agent (agent : option string) (tab : SessionTabEntry) : SessionTabEntry :=
  mkSessionTabEntry (st_id tab) (st_label tab) (st_focused tab) (st_status tab) (st_agent_session_id tab) agent (st_workspace tab).

Definition resolve_workspaces (tabs : list SessionTabEntry) (labels : gmap string string) : list SessionTabEntry :=
  let named := List.filter (fun id => is_some (labels !! id)) (omap st_workspace tabs) in
  let distinct := len (remove_dups named) in
  (fun tab => set_workspace (if 1 <? distinct then id ← st_workspace tab; labels !! id else None) tab) <$> tabs.

(** ** Snapshots *)

(** The platform, and which paths are programs. *)
Context (macos linux : bool) (is_absolute_executable : string -> bool).

Definition PROVIDER_BINARY_DIRS : list string :=
  if macos then ["/opt/homebrew/bin"; "/usr/local/bin"; "/usr/bin"] else ["/usr/local/bin"; "/usr/bin"].
Definition PROVIDER_HOME_RELATIVE_DIRS : list string := if linux then [".local/bin"; ".cargo/bin"] else [].

(** [WorkspaceConfig::for_home] and [resolve]. *)
Definition for_home (home : string) : list string := (PROVIDER_BINARY_DIRS ++ (join home <$> PROVIDER_HOME_RELATIVE_DIRS))%list.

Definition WorkspaceConfig_resolve (config : list string) (kind : ProviderKind) : option string :=
  List.find is_absolute_executable ((fun directory => join directory (ProviderKind_wire kind)) <$> config).

Definition error_tmux (version : option string) : ProviderSnapshot TmuxSessionEntry := mkProviderSnapshot PROVIDER_STATE_ERROR version None.
Definition error_herdr (version : option string) : ProviderSnapshot HerdrSessionEntry := mkProviderSnapshot PROVIDER_STATE_ERROR version None.

Definition probe_version (binary : string) (args : list string) (kind : ProviderKind) : prov (option string) :=
  r ← exec binary args;
  mret (whole r ≫= parse_version_stdout kind).

Definition set_ts_tabs (tabs : option (list SessionTabEntry)) (s : TmuxSessionEntry) : TmuxSessionEntry :=
  mkTmuxSessionEntry (ts_name s) (ts_attached s) (ts_windows s) (ts_created_unix s) tabs.

Definition set_he_tabs (tabs : option (list SessionTabEntry)) (s : HerdrSessionEntry) : HerdrSessionEntry :=
  mkHerdrSessionEntry (he_name s) (he_running s) (he_is_default s) tabs.

Definition with_windows (windows : gmap string (list SessionTabEntry)) (agents : AgentTabIndex) (s : TmuxSessionEntry) : TmuxSessionEntry :=
  set_ts_tabs ((fun tabs => annotate_agents ProviderTmux (ts_name s) tabs agents) <$> normalize_tabs (default [] (windows !! ts_name s))) s.

(** Each session takes its windows out of the map, so a second of one name finds none. *)
Fixpoint with_all_windows (windows : gmap string (list SessionTabEntry)) (agents : AgentTabIndex) (sessions : list TmuxSessionEntry)
  : list TmuxSessionEntry :=
  match sessions with
  | [] => []
  | s :: sessions => with_windows windows agents s :: with_all_windows (delete (ts_name s) windows) agents sessions
  end.

Definition attach_tmux_tabs (binary : string) (sessions : list TmuxSessionEntry) (agents : AgentTabIndex) : prov (list TmuxSessionEntry) :=
  listing ← exec binary ["list-windows"; "-a"; "-F"; TMUX_WINDOW_LIST_FORMAT];
  mret (match whole listing with
        | None => sessions
        | Some stdout => with_all_windows (parse_tmux_window_list stdout sessions) agents sessions
        end).

(** What the listing of sessions comes to; nothing where it failed. *)
Definition tmux_listing (listing : result ProviderExecError BoundedOutput) : option (list TmuxSessionEntry * N) :=
  match listing with
  | Ok output =>
      if bo_status_success output && negb (bo_stdout_truncated output) then Some (parse_tmux_list (bo_stdout output))
      else if negb (bo_stderr_truncated output) && contains_text "no server running" (from_utf8_lossy (bo_stderr output)) then Some ([], 0)
      else None
  | Err _ => None
  end.

Definition snapshot_tmux (config : list string) (tabs : option AgentTabIndex) : prov (ProviderSnapshot TmuxSessionEntry * N) :=
  match WorkspaceConfig_resolve config ProviderTmux with
  | None => mret (mkProviderSnapshot PROVIDER_STATE_NOT_INSTALLED None None, 0)
  | Some binary =>
      probed ← probe_version binary ["-V"] ProviderTmux;
      match probed with
      | None => _ ← note "tmux" "version_probe" "invalid" "" None 1; mret (error_tmux None, 0)
      | Some version =>
          if negb (version_meets_minimum ProviderTmux version)
          then mret (mkProviderSnapshot PROVIDER_STATE_UNSUPPORTED_VERSION (Some version) None, 0)
          else
            listing ← exec binary ["list-sessions"; "-F"; TMUX_LIST_FORMAT];
            match tmux_listing listing with
            | None => mret (error_tmux (Some version), 0)
            | Some (sessions, omitted) =>
                _ ← note "tmux" "mux_list" "omitted" "" (Some version) omitted;
                let '(sessions, capped) := cap_tmux_sessions sessions in
                sessions ← match tabs with
                           | Some agents => if len sessions =? 0 then mret sessions else attach_tmux_tabs binary sessions agents
                           | None => mret sessions
                           end;
                mret (mkProviderSnapshot PROVIDER_STATE_AVAILABLE (Some version) (Some sessions), N.min (omitted + capped) u32_max)
            end
      end
  end.

(** The three questions about one herdr session: its tabs, and how many agents' names were refused. *)
Definition herdr_tabs (binary name : string) : prov (option (list SessionTabEntry) * N) :=
  tabs ← exec binary ["--session"; name; "tab"; "list"];
  workspaces ← exec binary ["--session"; name; "workspace"; "list"];
  panes ← exec binary ["--session"; name; "pane"; "list"];
  let labels := default ∅ (whole workspaces ≫= parse_herdr_workspace_labels) in
  let '(detected, refused) := default (∅, 0) (whole panes ≫= parse_herdr_pane_agents) in
  mret ((fun tabs => (fun tab => set_agent (detected !! st_id tab) tab) <$> resolve_workspaces tabs labels)
          <$> (whole tabs ≫= parse_herdr_tab_list), refused).

Fixpoint each_done {A B} (f : A -> prov B) (l : list A) : prov (list B) :=
  match l with
  | [] => mret []
  | x :: l => y ← f x; ys ← each_done f l; mret (y :: ys)
  end.

Definition queried_sessions (sessions : list HerdrSessionEntry) : list (nat * HerdrSessionEntry) :=
  take MAX_HERDR_TAB_QUERIES (List.filter (fun '(_, s) => he_running s) (imap pair sessions)).

Definition attach_herdr_tabs (binary version : string) (sessions : list HerdrSessionEntry) (agents : AgentTabIndex)
  : prov (list HerdrSessionEntry) :=
  let queried := queried_sessions sessions in
  answers ← each_done (fun '(_, s) => herdr_tabs binary (he_name s)) queried;
  _ ← each_done (fun '(_, refused) => note "herdr" "pane_list" "invalid" "agent" (Some version) refused) answers;
  mret (foldl (fun sessions '((index, s), (tabs, _)) =>
                 alter (set_he_tabs ((fun tabs => annotate_agents ProviderHerdr (he_name s) tabs agents) <$> (tabs ≫= normalize_tabs))) index sessions)
              sessions (zip queried answers)).

Definition snapshot_herdr (config : list string) (tabs : option AgentTabIndex) : prov (ProviderSnapshot HerdrSessionEntry * N) :=
  match WorkspaceConfig_resolve config ProviderHerdr with
  | None => mret (mkProviderSnapshot PROVIDER_STATE_NOT_INSTALLED None None, 0)
  | Some binary =>
      probed ← probe_version binary ["--version"] ProviderHerdr;
      match probed with
      | None => _ ← note "herdr" "version_probe" "invalid" "" None 1; mret (error_herdr None, 0)
      | Some version =>
          if negb (version_meets_minimum ProviderHerdr version)
          then mret (mkProviderSnapshot PROVIDER_STATE_UNSUPPORTED_VERSION (Some version) None, 0)
          else
            listing ← exec binary ["session"; "list"; "--json"];
            match whole listing with
            | None => mret (error_herdr (Some version), 0)
            | Some stdout =>
                match parse_herdr_list stdout with
                | None => _ ← note "herdr" "mux_list" "invalid" "" (Some version) 1; mret (error_herdr (Some version), 0)
                | Some (sessions, omitted) =>
                    _ ← note "herdr" "mux_list" "omitted" "" (Some version) omitted;
                    let '(sessions, capped) := cap_herdr_sessions sessions in
                    sessions ← match tabs with Some agents => attach_herdr_tabs binary version sessions agents | None => mret sessions end;
                    mret (mkProviderSnapshot PROVIDER_STATE_AVAILABLE (Some version) (Some sessions), N.min (omitted + capped) u32_max)
                end
            end
      end
  end.

(** Both providers; one that has not answered within the budget has erred. *)
Definition capture_snapshot (config : list string) (tabs : option AgentTabIndex) (tmux_in_time herdr_in_time : bool) : prov WorkspaceSnapshotResult :=
  tmux ← snapshot_tmux config tabs;
  herdr ← snapshot_herdr config tabs;
  let '(tmux, tmux_omitted) := if tmux_in_time then tmux else (error_tmux None, 0) in
  let '(herdr, herdr_omitted) := if herdr_in_time then herdr else (error_herdr None, 0) in
  mret (mkWorkspaceSnapshotResult HOST_PROTOCOL_VERSION tmux herdr (N.min (tmux_omitted + herdr_omitted) u32_max)).

(** ** Opening, handing back and asking *)

Definition target_command (target : TerminalTarget) (session binary home : string) : result HostProtocolError (string * list string) :=
  refuse_if (negb (valid_session_name session)) InvalidTarget ?;
  let? args := match target with
               | TmuxAttach => Ok [TMUX_FORCE_UTF8; "attach-session"; "-t"; "=" +:+ session]
               | TmuxCreate => Ok [TMUX_FORCE_UTF8; "new-session"; "-A"; "-s"; session; "-c"; home]
               | HerdrAttach => Ok ["session"; "attach"; session]
               | HerdrCreate => Ok ["--session"; session]
               | Shell | AgentRoute => Err UnsupportedTarget
               end in
  Ok (binary, args).

Record HandbackRequest := mkHandbackRequest {
  hr_session : string; hr_workspace : string; hr_tool_path : string; hr_cli : string; hr_vendor_session : string }.

Definition handback_argv (r : HandbackRequest) : option (list string) :=
  if negb (valid_session_name (hr_session r)) then None
  else if (hr_vendor_session r =s? "") || negb (sall (fun b => is_ascii_alphanumeric b || is_byte [45; 95] b) (hr_vendor_session r)) then None
  else if negb (starts_with (hr_workspace r) "/") || negb (starts_with (hr_cli r) "/") then None
  else Some [TMUX_FORCE_UTF8; "new-session"; "-d"; "-s"; hr_session r; "-c"; hr_workspace r; HANDBACK_ENV_BINARY; "PATH=" +:+ hr_tool_path r;
             hr_cli r; "--resume"; hr_vendor_session r].

Definition create_handback_session (config : list string) (request : HandbackRequest) : prov bool :=
  match WorkspaceConfig_resolve config ProviderTmux, handback_argv request with
  | Some binary, Some argv =>
      created ← exec binary argv;
      if negb (succeeded created) then mret false
      else
        _ ← does Settle;
        there ← exec binary ["has-session"; "-t"; "=" +:+ hr_session request];
        mret (succeeded there)
  | _, _ => mret false
  end.

(** The processes to ask, at most eight. *)
Definition pane_pids (listing : string) : list N := take 8 (omap (fun line => parse_u32 (trim line)) (lines listing)).

Definition close_handback_session (config : list string) (session : string) : prov bool :=
  if negb (valid_session_name session) then mret false
  else
    match WorkspaceConfig_resolve config ProviderTmux with
    | None => mret false
    | Some binary =>
        let target := "=" +:+ session in
        panes ← exec binary ["list-panes"; "-t"; target; "-F"; "#{pane_pid}"];
        _ ← each_done (fun pid => does (RequestExit pid)) (match whole panes ≫= from_utf8 with Some listing => pane_pids listing | None => [] end);
        killed ← exec binary ["kill-session"; "-t"; target];
        mret (succeeded killed)
    end.

Definition existing_tmux_sessions (config : list string) (candidates : list string) : prov (list string) :=
  if len candidates =? 0 then mret []
  else
    match WorkspaceConfig_resolve config ProviderTmux with
    | None => mret []
    | Some binary =>
        listing ← exec binary ["list-sessions"; "-F"; "#{session_name}"];
        mret (match listing with
              | Ok output =>
                  if negb (bo_status_success output) then []
                  else
                    let live := List.filter (fun name => negb (name =s? "")) (trim <$> lines (from_utf8_lossy (bo_stdout output))) in
                    List.filter (fun candidate => existsb (String.eqb candidate) live) candidates
              | Err _ => []
              end)
    end.

Definition focus_tab (config : list string) (kind : ProviderKind) (session tab : string) : prov bool :=
  if negb (valid_session_name session) || negb (valid_tab_id tab) then mret false
  else
    match WorkspaceConfig_resolve config kind with
    | None => mret false
    | Some binary =>
        match kind with
        | ProviderTmux =>
            if negb (tmux_window_id tab) then mret false
            else r ← exec binary ["select-window"; "-t"; "=" +:+ session +:+ ":" +:+ tab]; mret (succeeded r)
        | ProviderHerdr =>
            r ← exec binary ["--session"; session; "tab"; "focus"; tab];
            mret (match r with
                  | Ok output => bo_status_success output
                      && negb (contains_text (String "034" "error" +:+ String "034" "") (from_utf8_lossy (bo_stdout output)))
                  | Err _ => false
                  end)
        end
    end.

Record PaneFacts := mkPaneFacts { pf_cwd : option string; pf_agent : option string }.

Definition valid_agent_name (value : string) : bool :=
  negb (value =s? "") && (slen value <=? 32) && sall (fun b => is_ascii_lowercase b || is_ascii_digit b || is_byte [45] b) value.

Definition absolute_directory (reported : string) : option string :=
  if negb (starts_with reported "/") || (MAX_PATH_BYTES <? slen reported) || existsb (Ascii.eqb "000") (String.list_ascii_of_string reported)
  then None else Some reported.

(** What herdr says of its current pane. *)
Definition herdr_pane (stdout : string) : option PaneFacts :=
  value ← from_slice stdout;
  result ← get "result" value;
  pane ← get "pane" result;
  let agent := kept_if valid_agent_name (agent ← get "agent" pane; as_str agent) in
  match (directory ← match get "foreground_cwd" pane with Some directory => Some directory | None => get "cwd" pane end; as_str directory) with
  | None => Some (mkPaneFacts None agent)
  | Some directory => Some (mkPaneFacts (absolute_directory (trim directory)) agent)
  end.

Definition inner_pane_facts (config : list string) (kind : ProviderKind) (session : string) : prov (option PaneFacts) :=
  if negb (valid_session_name session) then mret None
  else
    match WorkspaceConfig_resolve config kind with
    | None => mret None
    | Some binary =>
        match kind with
        | ProviderTmux =>
            r ← exec binary ["display"; "-p"; "-t"; "=" +:+ session +:+ ":"; "#{pane_current_path}"];
            mret (reported ← whole r ≫= from_utf8; Some (mkPaneFacts (absolute_directory (trim reported)) None))
        | ProviderHerdr =>
            r ← exec binary ["--session"; session; "pane"; "current"];
            mret (whole r ≫= herdr_pane)
        end
    end.

Definition pane_facts (config : list string) (kind : ProviderKind) (session : string) : prov PaneFacts :=
  facts ← inner_pane_facts config kind session;
  mret (default (mkPaneFacts None None) facts).

Definition session_cwd (config : list string) (kind : ProviderKind) (session : string) : prov (option string) :=
  facts ← pane_facts config kind session;
  mret (pf_cwd facts).

(** [home] is none where it is not text. *)
Definition ensure_detached_tmux_session (program session : string) (home : option string) : prov bool :=
  if negb (valid_session_name session) then mret false
  else
    match home with
    | None => mret false
    | Some home =>
        created ← exec program [TMUX_FORCE_UTF8; "new-session"; "-d"; "-s"; session; "-c"; home];
        if succeeded created then mret true
        else there ← exec program ["has-session"; "-t"; "=" +:+ session]; mret (succeeded there)
    end.

Definition valid_tmux_client_tty (client_tty : string) : option string :=
  target ← file_name client_tty;
  let parent := parent_text client_tty in
  let allocated_locally :=
    if parent =s? "/dev" then starts_with target "tty"
    else if parent =s? "/dev/pts" then negb (target =s? "") && sall is_ascii_digit target
    else false in
  if allocated_locally && (slen target <=? 64) && sall provider_byte target then Some client_tty else None.

Definition detach_tmux_client (program client_tty : string) : prov bool :=
  match valid_tmux_client_tty client_tty with
  | None => mret false
  | Some target => r ← exec program ["detach-client"; "-t"; target]; mret (succeeded r)
  end.
End herdr.
