(* ===== verification/ProvidersSpec.v ===== *)
(** What the multiplexers' output can do: whatever they print, a snapshot is valid, and what is run of them is
    what was validated. *)
From S2P Require Import Prelude Text HostProtocol HostRpc Protocol UploadNames GitDiff Downloads Registration Whereabouts Output Providers.

Local Open Scope string_scope.
Local Open Scope N_scope.

(** ** Labels *)

Lemma shape_app_r l k : chars_shape (l ++ k) -> chars_shape k.
Proof.
  intros [Hs Ht]. apply Forall_app in Hs as [_ Hs]. split; [done|].
  destruct l as [|x l]; [done|]. cbn in Ht. apply Forall_app in Ht as [_ Ht]. by destruct k; [|apply Forall_cons in Ht as [_ Ht]].
Qed.

Lemma shape_filter p l :
  chars_shape l -> (forall c, starts_cont c = true -> p c = true) -> chars_shape (List.filter p l).
Proof.
  intros [Hs Ht] Hp. assert (forall k, Forall (fun c => starts_cont c = false) k -> Forall (fun c => starts_cont c = false) (List.filter p k)) as Hf.
  { induction 1 as [|c k Hc Hk IH]; cbn; [constructor|]. by destruct (p c); [constructor|]. }
  split.
  - clear Ht. induction Hs as [|c l Hc Hl IH]; cbn; [constructor|]. by destruct (p c); [constructor|].
  - destruct l as [|c l]; [constructor|]. cbn in *. destruct (p c) eqn:Hc; [by apply Hf|].
    destruct (starts_cont c) eqn:Hcont; [by rewrite Hp in Hc|]. apply Hf in Ht. by destruct (List.filter p l); [|apply Forall_cons in Ht as [_ Ht]].
Qed.

Lemma trim_start_chars s : exists dropped, chars s = (dropped ++ chars (trim_start s))%list.
Proof.
  unfold trim_start. destruct (drop_while_suffix is_whitespace (chars s)) as [k Hk]. exists k.
  rewrite chars_sconcat; [done|]. apply (shape_app_r k). rewrite <- Hk. apply chars_chars_shape.
Qed.

Lemma trim_end_chars s : exists dropped, chars s = (chars (trim_end s) ++ dropped)%list.
Proof.
  unfold trim_end. destruct (drop_while_suffix is_whitespace (reverse (chars s))) as [k Hk]. exists (reverse k).
  apply (f_equal reverse) in Hk. rewrite reverse_involutive, reverse_app in Hk.
  rewrite chars_sconcat; [done|]. apply (chars_shape_app_l _ (reverse k)). rewrite <- Hk. apply chars_chars_shape.
Qed.

Lemma trim_chars s : (exists a b, chars s = a ++ chars (trim s) ++ b)%list /\ slen (trim s) <= slen s.
Proof.
  unfold trim. destruct (trim_start_chars s) as [a Ha], (trim_end_chars (trim_start s)) as [b Hb]. rewrite Hb in Ha. split; [by exists a, b|].
  apply (f_equal sconcat) in Ha. rewrite !sconcat_app, !sconcat_chars in Ha. apply (f_equal slen) in Ha. rewrite !slen_app in Ha. lia.
Qed.

Lemma fitting_prefix maximum cs label : slen label <= maximum ->
  exists taken rest, cs = (taken ++ rest)%list /\ fitting maximum cs label = label +:+ sconcat taken /\ slen (fitting maximum cs label) <= maximum.
Proof.
  revert label. induction cs as [|c cs IH]; intros label Hl; cbn [fitting].
  - exists [], []. split; [done|]. cbn. by rewrite str_app_nil_r.
  - destruct (N.ltb_spec maximum (slen label + slen c)).
    + exists [], (c :: cs). cbn. by rewrite str_app_nil_r.
    + destruct (IH (label +:+ c)) as (taken & rest & -> & -> & Hle); [rewrite slen_app; lia|]. exists (c :: taken), rest.
      split; [done|]. rewrite sconcat_cons, str_app_assoc in *. by split.
Qed.

Lemma cont_not_control c : starts_cont c = true -> is_control c = false.
Proof.
  destruct c as [|a c]; [done|]. unfold starts_cont, is_cont, is_control. intros [H1%N.leb_le H2%N.ltb_lt]%andb_true_iff.
  destruct c as [|b [|]]; cbn [String.list_ascii_of_string fmap list_fmap].
  - rewrite (proj2 (N.ltb_ge _ _)), (proj2 (N.eqb_neq _ _)) by lia. done.
  - by rewrite (proj2 (N.eqb_neq (nb a) 194)) by lia.
  - done.
Qed.

Lemma sanitize_tab_label_valid raw label : sanitize_tab_label raw = Some label -> valid_tab_label label = true.
Proof.
  unfold sanitize_tab_label. set (kept := List.filter _ (chars raw)). destruct (fitting_prefix MAX_TAB_LABEL_BYTES kept "") as (taken & rest & Hk & Hf & Hle); [done|].
  set (f := fitting _ kept "") in *. destruct (String.eqb_spec (trim f) "") as [|Hne]; [done|]. intros [= <-].
  destruct (trim_chars f) as [(a & b & Hc) Hl]. unfold valid_tab_label. rewrite (proj2 (N.leb_le _ _)) by lia.
  destruct (N.eqb_spec (slen (trim f)) 0) as [He|_]; [by apply slen_nil_inv in He|]. cbn [negb andb].
  apply negb_true_iff, not_true_iff_false. intros (c & Hin & Hcontrol)%existsb_exists. apply list_elem_of_In in Hin.
  assert (chars_shape kept) as Hshape by (apply shape_filter; [apply chars_chars_shape|]; intros x Hx; by rewrite cont_not_control).
  assert (chars f = taken) as Htaken by (rewrite Hf; cbn [String.append]; apply chars_sconcat, (chars_shape_app_l _ rest); by rewrite <- Hk).
  assert (c ∈ kept) as Hkept.
  { rewrite Hk, <- Htaken, Hc. apply elem_of_app. left. apply elem_of_app. right. apply elem_of_app. by left. }
  unfold kept in Hkept. apply list_elem_of_In, filter_In in Hkept as [_ Hno]. by rewrite Hcontrol in Hno.
Qed.

(** Text of plain bytes is a valid label. *)
Lemma plain_chars s : sall (fun b => (32 <=? nb b) && (nb b <? 127)) s = true -> existsb is_control (chars s) = false.
Proof.
  intros H. assert (Forall (fun c => exists b, c = String b "" /\ 32 <= nb b < 127) (chars s)) as Hc.
  { induction s as [|b s IH]; [constructor|]. cbn [sall] in H. apply andb_true_iff in H as [[Hlo%N.leb_le Hhi%N.ltb_lt]%andb_true_iff Hs].
    specialize (IH Hs). cbn [chars]. destruct (chars s) as [|c cs]; [repeat constructor; by exists b|].
    pose proof IH as Hall. apply Forall_cons in IH as [(x & -> & Hx) _]. unfold starts_cont, is_cont.
    rewrite (proj2 (N.leb_gt 128 (nb x))) by lia. cbn [andb]. constructor; [by exists b|done]. }
  apply not_true_iff_false. intros (c & Hin & Hcontrol)%existsb_exists. rewrite Forall_forall in Hc.
  destruct (Hc c) as (b & -> & Hb); [by apply list_elem_of_In|]. unfold is_control in Hcontrol. cbn in Hcontrol.
  apply orb_true_iff in Hcontrol as [?%N.ltb_lt|?%N.eqb_eq]; lia.
Qed.

Lemma tab_id_byte_plain b :
  is_ascii_alphanumeric b || is_byte [64; 58; 46; 95; 45] b = true -> (32 <=? nb b) && (nb b <? 127) = true.
Proof.
  unfold is_ascii_alphanumeric, is_byte. cbn [existsb]. intros H. apply andb_true_iff. rewrite N.leb_le, N.ltb_lt.
  repeat first [apply orb_true_iff in H as [H|H] | apply andb_true_iff in H as [H H2]]; rewrite ?N.leb_le, ?N.eqb_eq in *; try lia; done.
Qed.

Lemma tab_id_label id : valid_tab_id id = true -> valid_tab_label id = true.
Proof.
  unfold valid_tab_id, valid_tab_label. intros [[[[Hne Hle]%andb_true_iff _]%andb_true_iff _]%andb_true_iff Hall]%andb_true_iff.
  rewrite Hne. change MAX_TAB_LABEL_BYTES with MAX_TAB_ID_BYTES. rewrite Hle. cbn [andb].
  rewrite plain_chars; [done|]. eapply sall_impl; [apply tab_id_byte_plain|done].
Qed.

(** ** Tabs *)

Record tab_base (t : SessionTabEntry) : Prop := {
  tb_id : valid_tab_id (st_id t) = true;
  tb_label : valid_tab_label (st_label t) = true;
  tb_status : none_or valid_tab_status (st_status t) = true
}.

Definition tab_ok (t : SessionTabEntry) : Prop :=
  tab_base t /\ none_or valid_tab_agent (st_agent t) = true /\ none_or valid_tab_label (st_workspace t) = true.

Lemma tab_ok_valid t : tab_ok t -> validate_session_tab t = Ok tt.
Proof. intros ([Hi Hl Hs] & Ha & Hw). unfold validate_session_tab. by rewrite Hi, Hl, Hs, Ha, Hw. Qed.

Lemma one_focused_ok seen tabs :
  Forall tab_ok tabs -> Forall tab_ok (one_focused seen tabs) /\ length (one_focused seen tabs) = length tabs
  /\ (length (List.filter st_focused (one_focused seen tabs)) <= if seen then 0 else 1)%nat.
Proof.
  intros Hall. revert seen. induction Hall as [|t tabs Ht Hall IH]; intros seen; cbn [one_focused]; [split; [constructor|]; by destruct seen; cbn; split; lia|].
  destruct (IH (seen || st_focused t)) as (Hok & Hlen & Hf). split; [constructor; [destruct Ht as ([] & ? & ?); by split; [split|]|done]|]. split; [cbn; lia|].
  cbn [List.filter set_focused st_focused]. destruct seen; cbn [orb negb] in *; rewrite ?andb_false_r, ?andb_true_r; [exact Hf|].
  destruct (st_focused t); cbn [length] in *; lia.
Qed.

Lemma normalize_tabs_ok tabs tabs' : Forall tab_ok tabs -> normalize_tabs tabs = Some tabs' -> validate_session_tabs tabs' = Ok tt.
Proof.
  intros Hall. unfold normalize_tabs. destruct (one_focused_ok false (take (N.to_nat MAX_TABS_PER_SESSION) tabs)) as (Hok & Hlen & Hf); [by apply Forall_take|].
  destruct (N.eqb_spec (len (one_focused false (take (N.to_nat MAX_TABS_PER_SESSION) tabs))) 0) as [|Hne]; [done|]. intros [= <-].
  unfold validate_session_tabs. rewrite (proj2 (N.eqb_neq _ _)) by done. rewrite (proj2 (N.ltb_ge MAX_TABS_PER_SESSION _)), (proj2 (N.ltb_ge 1 _)).
  - cbn [orb refuse_if rbind]. apply each_ok. eapply Forall_impl; [exact Hok|]. apply tab_ok_valid.
  - unfold len. lia.
  - unfold len. rewrite Hlen, length_take. lia.
Qed.

Lemma annotate_agents_ok kind session tabs agents :
  validate_session_tabs tabs = Ok tt -> validate_session_tabs (annotate_agents kind session tabs agents) = Ok tt.
Proof.
  unfold annotate_agents. destruct (len agents =? 0); [done|]. unfold validate_session_tabs. intros Hv.
  assert (forall l, len (List.filter st_focused ((fun tab => set_agent_session (agent_of kind session (st_id tab) agents) tab) <$> l)) = len (List.filter st_focused l)) as Hf.
  { intros l. unfold len. f_equal. induction l as [|t l IH]; [done|]. cbn. by destruct (st_focused t); cbn; rewrite IH. }
  rewrite Hf. unfold len at 1 2. rewrite length_fmap. change (N.of_nat (length tabs)) with (len tabs).
  apply rbind_ok in Hv as (u & Hb & He). rewrite Hb. cbn [rbind]. apply each_ok. apply each_ok in He. apply Forall_fmap. exact He.
Qed.

Lemma tmux_window_id_tab id : tmux_window_id id = true -> valid_tab_id id = true.
Proof.
  unfold tmux_window_id. intros [[[Hlo%N.ltb_lt Hhi%N.leb_le]%andb_true_iff Hat]%andb_true_iff Hd]%andb_true_iff.
  destruct id as [|a id]; [done|]. cbn [sdrop] in Hd. 
  assert (a = "@"%char) as -> by (by destruct a as [[] [] [] [] [] [] [] []]). unfold valid_tab_id, first_byte. cbn [shead]. rewrite (proj2 (N.eqb_neq _ _)) by lia.
  rewrite (proj2 (N.leb_le _ _)) by (unfold MAX_TAB_ID_BYTES; lia). change (nb "@"%char) with 64. cbn [negb andb orb N.eqb Pos.eqb].
  assert (sall is_ascii_alphanumeric id = true) as Ha.
  { eapply sall_impl; [|exact Hd]. unfold is_ascii_digit, is_ascii_alphanumeric. intros b [?%N.leb_le ?%N.leb_le]%andb_true_iff.
    rewrite (proj2 (N.leb_le 48 _)), (proj2 (N.leb_le _ 57)) by lia. done. }
  apply andb_true_iff. split.
  - rewrite orb_true_r. cbn [andb]. destruct id as [|b id]; [unfold slen in Hlo; cbn in Hlo; lia|]. cbn [String.list_ascii_of_string existsb].
    cbn [sall] in Ha. apply andb_true_iff in Ha as [Hb _]. rewrite Hb. by rewrite orb_true_r.
  - cbn [sall]. replace (is_ascii_alphanumeric "@" || is_byte [64; 58; 46; 95; 45] "@") with true by done. cbn [andb].
    eapply sall_impl; [|exact Ha]. intros b Hb. by rewrite Hb.
Qed.

Lemma decimal_loop_le fuel n rest : slen (decimal_loop fuel n rest) <= N.of_nat (S fuel) + slen rest.
Proof.
  revert n rest. induction fuel as [|fuel IH]; intros n rest; cbn [decimal_loop].
  - unfold slen. cbn [String.length]. lia.
  - destruct (n <? 10); [unfold slen; cbn [String.length]; lia|]. etransitivity; [apply IH|]. unfold slen. cbn [String.length]. lia.
Qed.

Lemma decimal_label n : n <= u32_max -> valid_tab_label (decimal n) = true.
Proof.
  intros Hn. destruct (decimal_digits n) as [Hd Hne]. unfold valid_tab_label.
  assert (slen (decimal n) <= MAX_TAB_LABEL_BYTES) as Hle.
  { unfold decimal. pose proof (decimal_loop_le (N.to_nat (N.log2 n)) n "") as H. apply N.log2_le_mono in Hn.
    assert (N.log2 u32_max = 31) as Hu by (by vm_compute). unfold MAX_TAB_LABEL_BYTES. change (slen "") with 0 in H. lia. }
  rewrite (proj2 (N.leb_le _ _) Hle). destruct (N.eqb_spec (slen (decimal n)) 0) as [He|_]; [by apply slen_nil_inv in He|].
  rewrite plain_chars; [done|]. eapply sall_impl; [|exact Hd]. unfold is_ascii_digit. intros b [?%N.leb_le ?%N.leb_le]%andb_true_iff.
  apply andb_true_iff. rewrite N.leb_le, N.ltb_lt. lia.
Qed.

Lemma parse_digits_bound acc s n : parse_digits acc s = Some n -> acc <= u32_max -> n <= u32_max.
Proof.
  revert acc. induction s as [|b s IH]; intros acc; cbn [parse_digits]; [by intros [= <-]|].
  destruct (is_ascii_digit b); [|done]. cbv zeta. destruct (N.leb_spec (acc * 10 + (nb b - 48)) u32_max); [|done]. intros Hp _. by eapply IH.
Qed.

Lemma parse_u32_bound s n : parse_u32 s = Some n -> n <= u32_max.
Proof.
  unfold parse_u32. destruct (match s with String b s' => if nb b =? 43 then s' else s | EmptyString => s end); [done|].
  intros H. by eapply parse_digits_bound.
Qed.

Lemma parse_tmux_window_ok known line session index tab : parse_tmux_window known line = Some (session, (index, tab)) -> tab_ok tab.
Proof.
  unfold parse_tmux_window. destruct (splitn 5 " " line) as [|id [|active [|number [|s name]]]]; try done.
  destruct (tmux_window_id id) eqn:Hid; [|done]. destruct (known s); [|done]. cbn [negb orb].
  destruct (parse_u32 number) as [n|] eqn:Hn; [|done]. cbn. destruct (if active =s? "1" then _ else _) as [focused|]; [|done]. cbn. intros [= <- <- <-].
  split; [|done]. split; [by apply tmux_window_id_tab| |done]. cbn. destruct (sanitize_tab_label _) as [label|] eqn:Hl; [by eapply sanitize_tab_label_valid|].
  cbn. apply decimal_label. by eapply parse_u32_bound.
Qed.

Lemma parse_tmux_window_list_ok stdout sessions :
  map_Forall (fun _ tabs => Forall tab_ok tabs) (parse_tmux_window_list stdout sessions).
Proof.
  unfold parse_tmux_window_list. set (known := fun name => existsb _ sessions). apply map_Forall_fmap.
  set (step := fun windows line => _). enough (forall l (w : gmap string (list (N * SessionTabEntry))),
    map_Forall (fun _ tabs => Forall (fun t => tab_ok t.2) tabs) w -> map_Forall (fun _ tabs => Forall (fun t => tab_ok t.2) tabs) (foldl step w l)) as H.
  - eapply map_Forall_impl; [apply H, map_Forall_empty|]. intros name tabs Htabs. cbn. apply Forall_fmap. rewrite sort_by_key_perm. exact Htabs.
  - induction l as [|line l IH]; intros w Hw; [done|]. cbn [foldl]. apply IH. unfold step. destruct (line =s? ""); [done|].
    destruct (parse_tmux_window known line) as [[session [index tab]]|] eqn:Hp; [|done]. apply map_Forall_insert_2; [|done].
    apply Forall_app. split; [|constructor; [by eapply parse_tmux_window_ok|constructor]].
    destruct (w !! session) as [held|] eqn:Hh; [|constructor]. exact (Hw _ _ Hh).
Qed.

(** ** What is listed *)

Definition tmux_ok (s : TmuxSessionEntry) : Prop :=
  valid_session_name (ts_name s) = true /\ opt_each validate_session_tabs (ts_tabs s) = Ok tt.
Definition herdr_ok (s : HerdrSessionEntry) : Prop :=
  valid_session_name (he_name s) = true /\ opt_each validate_session_tabs (he_tabs s) = Ok tt.

Lemma parse_tmux_line_ok line s : parse_tmux_line line = Some s -> tmux_ok s.
Proof.
  unfold parse_tmux_line. destruct (split_tmux_fields 4 line) as [[|name [|a [|w [|c [|]]]]]|]; try done. cbn.
  destruct (valid_session_name name) eqn:Hn; [|done]. cbn. destruct (parse_u64 a), (parse_u32 w), (parse_u64 c); try done. cbn. intros [= <-]. by split.
Qed.

Lemma parse_tmux_list_ok stdout : Forall tmux_ok (parse_tmux_list stdout).1 /\ (parse_tmux_list stdout).2 <= u32_max.
Proof.
  unfold parse_tmux_list. match goal with |- context [foldl ?f _ _] => set (step := f) end.
  enough (forall l acc, Forall tmux_ok acc.1 -> acc.2 <= u32_max -> Forall tmux_ok (foldl step acc l).1 /\ (foldl step acc l).2 <= u32_max) as H by (apply H; [constructor|done]).
  induction l as [|line l IH]; intros [sessions omitted] Hs Ho; [done|]. cbn [foldl]. apply IH; unfold step; destruct (line =s? ""); try done;
    destruct (parse_tmux_line line) as [s|] eqn:Hp; cbn [fst snd]; try done; [|lia].
  apply Forall_app. split; [done|]. constructor; [by eapply parse_tmux_line_ok|constructor].
Qed.


Lemma with_all_windows_ok windows agents sessions :
  map_Forall (fun _ tabs => Forall tab_ok tabs) windows -> Forall tmux_ok sessions ->
  Forall tmux_ok (with_all_windows windows agents sessions) /\ length (with_all_windows windows agents sessions) = length sessions.
Proof.
  intros Hw Hs. revert windows Hw. induction Hs as [|s sessions [Hname _] Hs IH]; intros windows Hw; [done|]. cbn [with_all_windows].
  destruct (IH (delete (ts_name s) windows)) as [Hok Hlen]; [by apply map_Forall_delete|]. split; [|cbn; by rewrite Hlen].
  constructor; [|done]. split; [done|]. unfold with_windows. cbn [ts_tabs set_ts_tabs].
  destruct (normalize_tabs _) as [tabs|] eqn:Hn; [|done]. cbn. apply annotate_agents_ok. eapply normalize_tabs_ok; [|exact Hn].
  destruct (windows !! ts_name s) as [held|] eqn:Hh; [exact (Hw _ _ Hh)|constructor].
Qed.

Section herdr.
Context (from_slice : string -> option Value).

Lemma parse_herdr_list_ok stdout sessions omitted :
  parse_herdr_list from_slice stdout = Some (sessions, omitted) -> Forall herdr_ok sessions /\ omitted <= u32_max.
Proof.
  unfold parse_herdr_list. destruct (document _ _ _) as [v|]; [|done]. cbn. destruct (as_object v) as [o|]; [|done]. cbn.
  destruct (array_field _ o) as [entries|]; [|done]. cbn. match goal with |- context [foldl ?f _ _] => set (step := f) end.
  enough (forall l acc, Forall herdr_ok acc.1 -> acc.2 <= u32_max -> Forall herdr_ok (foldl step acc l).1 /\ (foldl step acc l).2 <= u32_max) as H.
  { intros [= Heq]. specialize (H entries ([], 0) (Forall_nil_2 _)). rewrite Heq in H. apply H. done. }
  induction l as [|entry l IH]; intros [acc n] Hs Ho; [done|]. cbn [foldl]. apply IH; unfold step; destruct (parse_herdr_session entry) as [s|] eqn:Hp; cbn [fst snd]; try done; [|lia].
  apply Forall_app. split; [done|]. constructor; [|constructor]. unfold parse_herdr_session in Hp. destruct (as_object entry) as [e|]; [|done]. cbn in Hp.
  destruct (str_field "name" e) as [name|]; [|done]. cbn in Hp. destruct (valid_session_name name) eqn:Hn; [|done]. cbn in Hp. injection Hp as <-. by split.
Qed.

Lemma cap_herdr_sessions_ok sessions :
  Forall herdr_ok sessions -> Forall herdr_ok (cap_herdr_sessions sessions).1 /\ len (cap_herdr_sessions sessions).1 <= MAX_SESSIONS_PER_PROVIDER.
Proof.
  intros Hs. unfold cap_herdr_sessions. destruct (N.leb_spec (len sessions) MAX_SESSIONS_PER_PROVIDER); [done|]. cbn [fst].
  split; [by apply Forall_take|]. unfold len. rewrite length_take. lia.
Qed.

Lemma kept_if_ok p o : none_or p (kept_if p o) = true.
Proof. destruct o as [value|]; [|done]. cbn. destruct (p value) eqn:Hp; [exact Hp|done]. Qed.

Lemma parse_herdr_tab_list_ok stdout tabs : parse_herdr_tab_list from_slice stdout = Some tabs -> Forall (fun t => tab_base t) tabs.
Proof.
  unfold parse_herdr_tab_list. destruct (result_items _ _ _ _) as [items|]; [|done]. cbn. intros [= <-]. apply Forall_forall.
  intros t (item & Hin & Hp)%list_elem_of_omap. unfold parse_herdr_tab in Hp. destruct (as_object item) as [o|]; [|done]. cbn in Hp.
  destruct (str_field "tab_id" o) as [id|]; [|done]. cbn in Hp. destruct (valid_tab_id id) eqn:Hid; [|done]. cbn in Hp. injection Hp as <-.
  split; cbn [st_id st_label st_status]; [done| |apply kept_if_ok].
  destruct (str_field "label" o ≫= sanitize_tab_label) as [label|] eqn:Hl; [|by apply tab_id_label]. cbn.
  apply bind_Some in Hl as (raw & _ & Hl). by eapply sanitize_tab_label_valid.
Qed.

Lemma parse_herdr_workspace_labels_ok stdout labels :
  parse_herdr_workspace_labels from_slice stdout = Some labels -> map_Forall (fun _ label => valid_tab_label label = true) labels.
Proof.
  unfold parse_herdr_workspace_labels. destruct (result_items _ _ _ _) as [items|]; [|done]. cbn [fmap option_fmap option_map]. intros [= <-].
  assert (Forall (fun x => valid_tab_label x.2 = true) (omap parse_herdr_workspace (take (N.to_nat MAX_TABS_PER_SESSION) items))) as Hall.
  { apply Forall_forall. intros [id label] (item & _ & Hp)%list_elem_of_omap. unfold parse_herdr_workspace in Hp. destruct (as_object item) as [o|]; [|done]. cbn in Hp.
    destruct (str_field "workspace_id" o) as [i|]; [|done]. cbn in Hp. destruct (valid_tab_id i); [|done]. cbn in Hp.
    destruct (str_field "label" o ≫= sanitize_tab_label) as [l|] eqn:Hl; [|done]. cbn in Hp. injection Hp as <- <-. apply bind_Some in Hl as (raw & _ & Hl).
    by eapply sanitize_tab_label_valid. }
  revert Hall. generalize (omap parse_herdr_workspace (take (N.to_nat MAX_TABS_PER_SESSION) items)). intros l Hall.
  enough (forall m : gmap string string, map_Forall (fun _ label => valid_tab_label label = true) m ->
    map_Forall (fun _ label => valid_tab_label label = true) (foldl (fun labels '(id, label) => <[id := label]> labels) m l)) as H by apply H, map_Forall_empty.
  induction Hall as [|[id label] l Hl Hall IH]; intros m Hm; [done|]. cbn [foldl]. apply IH. by apply map_Forall_insert_2.
Qed.

Lemma parse_herdr_pane_agents_ok stdout agents refused :
  parse_herdr_pane_agents from_slice stdout = Some (agents, refused) -> map_Forall (fun _ agent => valid_tab_agent agent = true) agents.
Proof.
  unfold parse_herdr_pane_agents. destruct (result_items _ _ _ _) as [items|]; [|done]. cbn [fmap option_fmap option_map].
  destruct (foldl note_pane (∅, 0) items) as [held n] eqn:Hf. intros [= <- <-].
  enough (forall acc, map_Forall (fun _ a => valid_tab_agent a.1 = true) acc.1 -> map_Forall (fun _ a => valid_tab_agent a.1 = true) (foldl note_pane acc items).1) as H.
  { specialize (H (∅, 0) (map_Forall_empty _)). rewrite Hf in H. apply map_Forall_fmap. exact H. }
  clear Hf. induction items as [|pane items IH]; intros acc Hacc; [done|]. cbn [foldl]. apply IH. destruct acc as [m k]. unfold note_pane.
  destruct (as_object pane) as [o|]; [|done]. destruct (kept_if valid_tab_id _) as [tab|]; [|done]. destruct (field "agent" o) as [agent|]; [|done].
  assert (map_Forall (fun _ a => valid_tab_agent a.1 = true)
    (match kept_if valid_tab_agent (as_str agent) with
     | None => (m, k + 1)
     | Some agent => if match m !! tab with None => true | Some (_, f) => default false (bool_field "focused" o) && negb f end
                     then (<[tab := (agent, default false (bool_field "focused" o))]> m, k) else (m, k)
     end).1) as H.
  { pose proof (kept_if_ok valid_tab_agent (as_str agent)) as Hk. destruct (kept_if valid_tab_agent (as_str agent)) as [name|]; [|done].
    destruct (match m !! tab with None => true | Some (_, f) => _ end); [|done]. by apply map_Forall_insert_2. }
  by destruct agent.
Qed.

Lemma resolve_workspaces_ok tabs (labels detected : gmap string string) :
  Forall tab_base tabs -> map_Forall (fun _ label => valid_tab_label label = true) labels ->
  map_Forall (fun _ agent => valid_tab_agent agent = true) detected ->
  Forall tab_ok ((fun tab => set_agent (detected !! st_id tab) tab) <$> resolve_workspaces tabs labels).
Proof.
  intros Ht Hl Hd. unfold resolve_workspaces. rewrite <- list_fmap_compose. apply Forall_fmap. eapply Forall_impl; [exact Ht|].
  intros t [Hi Hlb Hs]. cbn [compose]. split; [by split|]. cbn [set_agent set_workspace st_agent st_workspace st_id]. split.
  - destruct (detected !! st_id t) as [agent|] eqn:Ha; [exact (Hd _ _ Ha)|done].
  - destruct (1 <? _); [|done]. destruct (st_workspace t) as [id|]; [|done]. cbn.
    destruct (labels !! id) as [label|] eqn:Hlab; [exact (Hl _ _ Hlab)|done].
Qed.
End herdr.

(** ** The newest sessions are kept *)

(** The elements at the places [keep], in their order. *)
Definition selected {A} (keep : nat -> bool) (l : list A) : list A :=
  omap id (imap (fun index x => if keep index then Some x else None) l).

Lemma selected_cons {A} keep (x : A) l : selected keep (x :: l) = ((if keep 0%nat then [x] else []) ++ selected (keep ∘ S) l)%list.
Proof. unfold selected. cbn. by destruct (keep 0%nat). Qed.

Lemma selected_sublist {A} keep (l : list A) : sublist (selected keep l) l.
Proof.
  revert keep. induction l as [|x l IH]; intros keep; [constructor|]. rewrite selected_cons. destruct (keep 0%nat); constructor; apply IH.
Qed.

Lemma selected_length {A} keep (l : list A) k : length (selected (fun i => keep (k + i)%nat) l) = length (List.filter keep (seq k (length l))).
Proof.
  revert k. induction l as [|x l IH]; intros k; [done|]. rewrite selected_cons, length_app. cbn [length seq List.filter].
  rewrite Nat.add_0_r. assert (selected ((fun i => keep (k + i)%nat) ∘ S) l = selected (fun i => keep (S k + i)%nat) l) as ->.
  { unfold selected. f_equal. apply imap_ext. intros i y _. cbn. by rewrite Nat.add_succ_r. }
  rewrite IH. by destruct (keep k).
Qed.

Lemma kept_count (keep : list nat) n :
  NoDup keep -> Forall (fun i => (i < n)%nat) keep -> length (List.filter (fun i => bool_decide (i ∈ keep)) (seq 0 n)) = length keep.
Proof.
  intros Hn Hlt. apply Permutation_length, NoDup_Permutation; [|done|].
  - apply NoDup_ListNoDup, List.NoDup_filter, seq_NoDup.
  - intros i. rewrite list_elem_of_In, filter_In, bool_decide_eq_true. split; [by intros [_ ?]|]. intros Hi. split; [|done].
    rewrite Forall_forall in Hlt. apply in_seq. specialize (Hlt i Hi). lia.
Qed.

#[export] Instance newer_total sessions : Total (newer sessions).
Proof. intros i j. unfold newer. destruct (N.lt_total (default 0 (ts_created_unix <$> sessions !! i)) (default 0 (ts_created_unix <$> sessions !! j))) as [?|[?|?]]; [by right; left| |by left; left].
  destruct (Nat.le_ge_cases i j); [left|right]; right; by split. Qed.

#[export] Instance newer_transitive sessions : Transitive (newer sessions).
Proof. intros i j k. unfold newer. intros [?|[? ?]] [?|[? ?]]; [left; lia|left; lia|left; lia|right; split; [congruence|lia]]. Qed.

Lemma ranked_facts sessions :
  let ranked := merge_sort (newer sessions) (seq 0 (length sessions)) in
  ranked ≡ₚ seq 0 (length sessions) /\ StronglySorted (newer sessions) ranked.
Proof. split; [apply merge_sort_Permutation|apply StronglySorted_merge_sort; apply _]. Qed.

Lemma sorted_cut {A} (R : A -> A -> Prop) n l x y : StronglySorted R l -> x ∈ take n l -> y ∈ drop n l -> R x y.
Proof.
  intros Hs Hx Hy. rewrite <- (take_drop n l) in Hs. revert Hs Hx. generalize (take n l). intros k. induction k as [|z k IH]; [by intros _ ?%not_elem_of_nil|].
  cbn. intros [Hk Hz]%StronglySorted_inv [->|Hin]%elem_of_cons; [|by apply IH].
  rewrite Forall_forall in Hz. apply Hz, elem_of_app. by right.
Qed.

(** The places of those created last. *)
Definition top (sessions : list TmuxSessionEntry) : list nat :=
  take (N.to_nat MAX_SESSIONS_PER_PROVIDER) (merge_sort (newer sessions) (seq 0 (length sessions))).

Lemma top_count sessions :
  MAX_SESSIONS_PER_PROVIDER < len sessions -> len (selected (fun i => bool_decide (i ∈ top sessions)) sessions) = MAX_SESSIONS_PER_PROVIDER.
Proof.
  intros Hgt. destruct (ranked_facts sessions) as [Hperm _]. unfold top. set (ranked := merge_sort _ _) in *. set (n := N.to_nat MAX_SESSIONS_PER_PROVIDER) in *.
  transitivity (len (List.filter (fun i => bool_decide (i ∈ take n ranked)) (seq 0 (length sessions)))).
  { unfold len. f_equal. exact (selected_length (fun i => bool_decide (i ∈ take n ranked)) sessions 0). }
  unfold len. rewrite kept_count.
  - rewrite length_take, Hperm, length_seq. unfold len in Hgt. lia.
  - eapply sublist_NoDup; [|apply sublist_take]. rewrite Hperm. apply NoDup_ListNoDup, seq_NoDup.
  - apply Forall_forall. intros i Hi. apply (sublist_subseteq _ _ (sublist_take _ _)) in Hi. rewrite Hperm in Hi.
    apply list_elem_of_In, in_seq in Hi. lia.
Qed.

Lemma cap_tmux_sessions_ok sessions :
  Forall tmux_ok sessions -> Forall tmux_ok (cap_tmux_sessions sessions).1 /\ len (cap_tmux_sessions sessions).1 <= MAX_SESSIONS_PER_PROVIDER.
Proof.
  intros Hs. unfold cap_tmux_sessions. destruct (N.leb_spec (len sessions) MAX_SESSIONS_PER_PROVIDER) as [|Hgt]; [done|].
  change (omap id (imap _ sessions)) with (selected (fun i => bool_decide (i ∈ top sessions)) sessions). cbn [fst]. split; [|by rewrite top_count].
  rewrite Forall_forall in Hs |- *. intros s Hin. apply Hs. by apply (sublist_subseteq _ _ (selected_sublist _ _)) in Hin.
Qed.

(** More sessions than a snapshot may carry: those created last are kept, in the order they were listed, and
    every other one is counted as left out. *)
Theorem newest_sessions_kept sessions :
  let '(kept, left_out) := cap_tmux_sessions sessions in
  len kept = N.min (len sessions) MAX_SESSIONS_PER_PROVIDER /\ len kept + left_out = len sessions /\ sublist kept sessions
  /\ exists keep, kept = selected keep sessions
       /\ forall i j s t, sessions !! i = Some s -> keep i = true -> sessions !! j = Some t -> keep j = false ->
            ts_created_unix t < ts_created_unix s \/ ts_created_unix t = ts_created_unix s /\ (i < j)%nat.
Proof.
  unfold cap_tmux_sessions. destruct (N.leb_spec (len sessions) MAX_SESSIONS_PER_PROVIDER) as [Hle|Hgt].
  - split; [lia|]. split; [lia|]. split; [done|]. exists (fun _ => true). split; [|done].
    unfold selected. induction sessions as [|s l IH] using rev_ind; [done|]. rewrite imap_app, omap_app. cbn. rewrite <- IH; [done|].
    revert Hle. unfold len. rewrite length_app. cbn. lia.
  - destruct (ranked_facts sessions) as [Hperm Hsort]. pose proof (top_count sessions Hgt) as Hcount.
    change (omap id (imap _ sessions)) with (selected (fun i => bool_decide (i ∈ top sessions)) sessions).
    split; [rewrite Hcount; lia|]. split; [rewrite Hcount; lia|]. split; [apply selected_sublist|].
    eexists. split; [reflexivity|]. cbn. intros i j s t Hs Hi%bool_decide_eq_true Ht Hj%bool_decide_eq_false.
    unfold top in Hi, Hj. set (ranked := merge_sort _ _) in *. set (n := N.to_nat MAX_SESSIONS_PER_PROVIDER) in *. assert (j ∈ drop n ranked) as Hdrop.
    { assert (j ∈ ranked) as Hin by (rewrite Hperm; apply list_elem_of_In, in_seq; apply lookup_lt_Some in Ht; lia).
      rewrite <- (take_drop n ranked) in Hin. by apply elem_of_app in Hin as [?|?]. }
    pose proof (sorted_cut _ _ _ _ _ Hsort Hi Hdrop) as Hnew. unfold newer in Hnew. rewrite Hs, Ht in Hnew. cbn in Hnew.
    destruct Hnew as [?|[Heq Hij]]; [by left|]. right. split; [done|]. assert (i <> j) by (by intros ->). lia.
Qed.

(** ** Snapshots *)

Fixpoint performs {A} (reply : forall c, Reply c) (p : prov A) : list Call * A :=
  match p with
  | Done _ a => ([], a)
  | Doing _ c k => let '(calls, a) := performs reply (k (reply c)) in (c :: calls, a)
  end.

Section snapshot.
Context (from_slice : string -> option Value) (macos linux : bool) (is_absolute_executable : string -> bool).
Context (reply : forall c, Reply c).

Abbreviation outcome p := (performs reply p).2.

Lemma performs_bind {A B} (p : prov A) (k : A -> prov B) :
  performs reply (p ≫= k) = ((performs reply p).1 ++ (performs reply (k (outcome p))).1, outcome (k (outcome p)))%list.
Proof.
  induction p as [a|c f IH]; [by cbn; destruct (performs reply (k a))|].
  change (Doing A c f ≫= k) with (Doing B c (fun r => f r ≫= k)). cbn [performs]. rewrite IH. by destruct (performs reply (f (reply c))).
Qed.

Lemma outcome_bind {A B} (p : prov A) (k : A -> prov B) : outcome (p ≫= k) = outcome (k (outcome p)).
Proof. by rewrite performs_bind. Qed.

Lemma outcome_ret {A} (a : A) : outcome (mret a) = a.
Proof. done. Qed.

Lemma each_done_outcome {A B} (f : A -> prov B) l : outcome (each_done f l) = (fun x => outcome (f x)) <$> l.
Proof. induction l as [|x l IH]; [done|]. cbn [each_done]. by rewrite outcome_bind, outcome_bind, IH. Qed.

Lemma version_valid kind stdout version : parse_version_stdout kind stdout = Some version -> validate_provider_version (Some version) = Ok tt.
Proof.
  unfold parse_version_stdout. destruct (from_utf8 stdout) as [text|]; [|done]. cbn. destruct (head (lines text)) as [first|]; [|done]. cbn.
  destruct (strip_prefix first _) as [rest|]; [|done]. cbn. destruct (String.eqb_spec (trim rest) "") as [|Hne]; [done|]. cbn.
  destruct (N.leb_spec (slen (trim rest)) MAX_PROVIDER_VERSION_BYTES); [|done]. cbn. destruct (sall provider_byte (trim rest)) eqn:Hs; [|done]. intros [= <-].
  unfold validate_provider_version. cbn [opt_each]. change (sall _ (trim rest)) with (sall provider_byte (trim rest)).
  rewrite Hs. rewrite (proj2 (N.ltb_ge _ _)) by done. destruct (N.eqb_spec (slen (trim rest)) 0) as [He|]; [by apply slen_nil_inv in He|done].
Qed.

Lemma probe_version_valid binary args kind : validate_provider_version (outcome (probe_version binary args kind)) = Ok tt.
Proof.
  unfold probe_version. rewrite outcome_bind, outcome_ret. destruct (whole _ ≫= parse_version_stdout kind) as [version|] eqn:Hp; [|done].
  apply bind_Some in Hp as (stdout & _ & Hp). by eapply version_valid.
Qed.

Definition shape_ok {S} (name : S -> string) (tabs : S -> option (list SessionTabEntry)) (r : ProviderSnapshot S * N) : Prop :=
  validate_provider_shape name tabs r.1 = Ok tt /\ r.2 <= u32_max.

Lemma available_ok {S} (name : S -> string) tabs version sessions n :
  validate_provider_version version = Ok tt -> Forall (fun s => valid_session_name (name s) = true /\ opt_each validate_session_tabs (tabs s) = Ok tt) sessions ->
  len sessions <= MAX_SESSIONS_PER_PROVIDER -> n <= u32_max -> shape_ok name tabs (mkProviderSnapshot PROVIDER_STATE_AVAILABLE version (Some sessions), n).
Proof.
  intros Hv Hs Hl Hn. split; [|done]. unfold validate_provider_shape. cbn [fst ps_state ps_version ps_sessions]. rewrite Hv. cbn [rbind].
  change (validate_provider_state PROVIDER_STATE_AVAILABLE) with (Ok tt : verdict). cbn [rbind].
  change (PROVIDER_STATE_AVAILABLE =s? PROVIDER_STATE_AVAILABLE) with true. cbv iota. rewrite (proj2 (N.ltb_ge _ _) Hl). cbn [refuse_if rbind].
  apply each_ok. eapply Forall_impl; [exact Hs|]. intros s [Hname Ht]. cbn. rewrite Hname. cbn. exact Ht.
Qed.

Lemma nothing_ok {S} (name : S -> string) tabs state version :
  validate_provider_version version = Ok tt -> validate_provider_state state = Ok tt -> (state =s? PROVIDER_STATE_AVAILABLE) = false ->
  shape_ok name tabs (mkProviderSnapshot state version None, 0).
Proof.
  intros Hv Hs Ha. split; [|done]. unfold validate_provider_shape. cbn [fst ps_state ps_version ps_sessions]. by rewrite Hs, Hv, Ha.
Qed.

Lemma tmux_listing_ok listing sessions omitted : tmux_listing listing = Some (sessions, omitted) -> Forall tmux_ok sessions /\ omitted <= u32_max.
Proof.
  unfold tmux_listing. destruct listing as [o|]; [|done]. destruct (bo_status_success o && _).
  - intros [= Hp]. pose proof (parse_tmux_list_ok (bo_stdout o)) as H. by rewrite Hp in H.
  - destruct (_ && _); [|done]. intros [= <- <-]. by split.
Qed.

Lemma snapshot_tmux_ok config tabs : shape_ok ts_name ts_tabs (outcome (snapshot_tmux is_absolute_executable config tabs)).
Proof.
  unfold snapshot_tmux. destruct (WorkspaceConfig_resolve _ _ _) as [binary|]; [|by apply nothing_ok].
  rewrite outcome_bind. pose proof (probe_version_valid binary ["-V"] ProviderTmux) as Hv.
  destruct (outcome (probe_version binary ["-V"] ProviderTmux)) as [version|]; [|rewrite outcome_bind; by apply nothing_ok].
  destruct (version_meets_minimum ProviderTmux version); cbn [negb]; [|by apply nothing_ok].
  rewrite outcome_bind. destruct (tmux_listing _) as [[sessions omitted]|] eqn:Hl; [|by apply nothing_ok].
  apply tmux_listing_ok in Hl as [Hs Ho]. rewrite outcome_bind. destruct (cap_tmux_sessions_ok sessions Hs) as [Hc Hlen].
  destruct (cap_tmux_sessions sessions) as [kept capped]. cbn [fst] in Hc, Hlen. rewrite outcome_bind, outcome_ret.
  apply available_ok; [done| | |lia].
  - destruct tabs as [agents|]; [|done]. destruct (len kept =? 0); [done|]. unfold attach_tmux_tabs. rewrite outcome_bind, outcome_ret.
    destruct (whole _) as [stdout|]; [|done]. by apply with_all_windows_ok; [apply parse_tmux_window_list_ok|].
  - destruct tabs as [agents|]; [|done]. destruct (len kept =? 0); [done|]. unfold attach_tmux_tabs. rewrite outcome_bind, outcome_ret.
    destruct (whole _) as [stdout|]; [|done]. unfold len. destruct (with_all_windows_ok (parse_tmux_window_list stdout kept) agents kept) as [_ ->]; [apply parse_tmux_window_list_ok|done|done].
Qed.

Lemma labels_ok r : map_Forall (fun _ label => valid_tab_label label = true) (default ∅ (whole r ≫= parse_herdr_workspace_labels from_slice)).
Proof.
  destruct (whole r ≫= parse_herdr_workspace_labels from_slice) as [labels|] eqn:Hw; [|apply map_Forall_empty].
  apply bind_Some in Hw as (out & _ & Hw). by eapply parse_herdr_workspace_labels_ok.
Qed.

Lemma agents_ok r : map_Forall (fun _ agent => valid_tab_agent agent = true) (default (∅, 0) (whole r ≫= parse_herdr_pane_agents from_slice)).1.
Proof.
  destruct (whole r ≫= parse_herdr_pane_agents from_slice) as [[agents n]|] eqn:Hp; [|apply map_Forall_empty].
  apply bind_Some in Hp as (out & _ & Hp). by eapply parse_herdr_pane_agents_ok.
Qed.

Lemma herdr_tabs_ok binary name tabs refused :
  outcome (herdr_tabs from_slice binary name) = (Some tabs, refused) -> Forall tab_ok tabs.
Proof.
  unfold herdr_tabs. rewrite outcome_bind, outcome_bind, outcome_bind.
  generalize (outcome (exec binary ["--session"; name; "tab"; "list"])) (outcome (exec binary ["--session"; name; "workspace"; "list"]))
    (outcome (exec binary ["--session"; name; "pane"; "list"])). intros t w p. pose proof (agents_ok p) as Ha.
  destruct (default (∅, 0) (whole p ≫= parse_herdr_pane_agents from_slice)) as [detected n]. rewrite outcome_ret.
  destruct (whole t ≫= parse_herdr_tab_list from_slice) as [found|] eqn:Ht; [|done]. cbn. intros [= <- _].
  apply bind_Some in Ht as (out & _ & Ht). apply resolve_workspaces_ok; [by eapply parse_herdr_tab_list_ok|apply labels_ok|exact Ha].
Qed.

Lemma attach_herdr_tabs_ok binary version sessions agents :
  Forall herdr_ok sessions -> let after := outcome (attach_herdr_tabs from_slice binary version sessions agents) in
  Forall herdr_ok after /\ length after = length sessions.
Proof.
  intros Hs. unfold attach_herdr_tabs. rewrite outcome_bind, outcome_bind, outcome_ret, each_done_outcome. cbv zeta.
  generalize (queried_sessions sessions). intros queried. revert sessions Hs. induction queried as [|[i s] queried IH]; intros sessions Hs; [done|].
  cbn [fmap list_fmap zip zip_with foldl]. destruct (outcome (herdr_tabs from_slice binary (he_name s))) as [tabs refused] eqn:Ht.
  match goal with |- Forall _ (foldl _ ?next _) /\ _ => destruct (IH next) as [Hok Hlen] end; [|split; [exact Hok|by rewrite Hlen, length_alter]].
  apply Forall_alter; [done|]. intros x _ [Hn _]. split; [done|]. cbn [he_tabs set_he_tabs].
  destruct (tabs ≫= normalize_tabs) as [tabs'|] eqn:Hnorm; [|done]. cbn. apply annotate_agents_ok.
  apply bind_Some in Hnorm as (found & -> & Hnorm). eapply normalize_tabs_ok; [|exact Hnorm]. by eapply herdr_tabs_ok.
Qed.

Lemma snapshot_herdr_ok config tabs : shape_ok he_name he_tabs (outcome (snapshot_herdr from_slice is_absolute_executable config tabs)).
Proof.
  unfold snapshot_herdr. destruct (WorkspaceConfig_resolve _ _ _) as [binary|]; [|by apply nothing_ok].
  rewrite outcome_bind. pose proof (probe_version_valid binary ["--version"] ProviderHerdr) as Hv.
  destruct (outcome (probe_version binary ["--version"] ProviderHerdr)) as [version|]; [|rewrite outcome_bind; by apply nothing_ok].
  destruct (version_meets_minimum ProviderHerdr version); cbn [negb]; [|by apply nothing_ok].
  rewrite outcome_bind. destruct (whole _) as [stdout|]; [|by apply nothing_ok].
  destruct (parse_herdr_list from_slice stdout) as [[sessions omitted]|] eqn:Hl; [|rewrite outcome_bind; by apply nothing_ok].
  apply parse_herdr_list_ok in Hl as [Hs Ho]. rewrite outcome_bind. destruct (cap_herdr_sessions_ok sessions Hs) as [Hc Hlen].
  destruct (cap_herdr_sessions sessions) as [kept capped]. cbn [fst] in Hc, Hlen. rewrite outcome_bind, outcome_ret.
  apply available_ok; [done| | |lia]; destruct tabs as [agents|]; [|done| |done].
  - by apply attach_herdr_tabs_ok.
  - unfold len. by rewrite (proj2 (attach_herdr_tabs_ok binary version kept agents Hc)).
Qed.

(** C19: whatever the multiplexers print, whichever of their processes fail, hang or are cut off, and whether or
    not they answer in time, the snapshot that is made of it is one the protocol accepts. *)
Theorem snapshots_always_valid config tabs tmux_in_time herdr_in_time :
  let '(_, snapshot) := performs reply (capture_snapshot from_slice is_absolute_executable config tabs tmux_in_time herdr_in_time) in
  WorkspaceSnapshotResult_validate snapshot = Ok tt /\ wr_omitted_sessions snapshot <= u32_max.
Proof.
  destruct (performs reply _) as [calls snapshot] eqn:Hp. apply (f_equal snd) in Hp. cbn [snd] in Hp. subst snapshot.
  unfold capture_snapshot. rewrite outcome_bind, outcome_bind. destruct (snapshot_tmux_ok config tabs) as [Ht Hto], (snapshot_herdr_ok config tabs) as [Hh Hho].
  destruct (outcome (snapshot_tmux is_absolute_executable config tabs)) as [tmux n], (outcome (snapshot_herdr from_slice is_absolute_executable config tabs)) as [herdr k].
  cbn [fst snd] in *. destruct tmux_in_time, herdr_in_time; rewrite outcome_ret; (split; [|cbn; lia]); unfold WorkspaceSnapshotResult_validate; cbn [wr_v wr_tmux wr_herdr];
    rewrite N.eqb_refl; cbn [negb refuse_if rbind]; rewrite ?Ht; cbn [rbind]; rewrite ?Hh; done.
Qed.
End snapshot.

(** ** What tmux prints is read back *)

Lemma starts_with_appended p s : starts_with (p +:+ s) p = true.
Proof. unfold starts_with. induction p as [|b p IH]; [by destruct s|]. cbn. destruct (Ascii.ascii_dec b b); [exact IH|done]. Qed.

Lemma starts_with_first b p c s : b <> c -> starts_with (String c s) (String b p) = false.
Proof. intros H. unfold starts_with. cbn. by destruct (Ascii.ascii_dec b c). Qed.

Lemma split_text_skip p k s t : String.length s = k -> split_text p k (s +:+ t) = split_text p 0 t.
Proof. revert k. induction s as [|b s IH]; intros k <-; [done|]. cbn. by apply IH. Qed.

Lemma split_text_app b p a rest : no_char b a = true -> split_text (String b p) 0 (a +:+ String b (p +:+ rest)) = a :: split_text (String b p) 0 rest.
Proof.
  unfold no_char. induction a as [|x a IH]; intros H; cbn [String.append].
  - cbn [split_text]. change (String b (p +:+ rest)) with (String b p +:+ rest). rewrite starts_with_appended. cbn [String.length Nat.sub]. rewrite Nat.sub_0_r.
    by rewrite split_text_skip.
  - cbn [sall] in H. apply andb_true_iff in H as [Hx Ha]. apply negb_true_iff, Ascii.eqb_neq in Hx. cbn [split_text].
    rewrite starts_with_first by congruence. by rewrite IH.
Qed.

Lemma split_text_one b p a : no_char b a = true -> split_text (String b p) 0 a = [a].
Proof.
  unfold no_char. induction a as [|x a IH]; intros H; [done|]. cbn [sall] in H. apply andb_true_iff in H as [Hx Ha].
  apply negb_true_iff, Ascii.eqb_neq in Hx. cbn [split_text]. rewrite starts_with_first by congruence. by rewrite IH.
Qed.

Lemma contains_text_app p a rest : contains_text p (a +:+ p +:+ rest) = true.
Proof.
  induction a as [|x a IH]; cbn [String.append contains_text].
  - destruct (p +:+ rest) eqn:He; cbn [contains_text]; rewrite <- He, starts_with_appended; done.
  - by rewrite IH, orb_true_r.
Qed.

Lemma contains_text_absent b p s : no_char b s = true -> contains_text (String b p) s = false.
Proof.
  unfold no_char. induction s as [|x s IH]; intros H; [done|]. cbn [sall] in H. apply andb_true_iff in H as [Hx Hs].
  apply negb_true_iff, Ascii.eqb_neq in Hx. cbn [contains_text]. rewrite starts_with_first by congruence. by apply IH.
Qed.

Lemma lossy_ascii s : sall (fun b => nb b <? 128) s = true -> from_utf8_lossy s = s.
Proof.
  induction s as [|b s IH]; [done|]. cbn [sall]. intros [Hb Hs]%andb_true_iff. cbn [from_utf8_lossy]. rewrite Hb. by rewrite IH.
Qed.

Lemma parse_digits_narrow acc s n : parse_digits64 acc s = Some n -> n <= u32_max -> parse_digits acc s = Some n /\ acc <= n.
Proof.
  revert acc. induction s as [|b s IH]; intros acc; cbn [parse_digits64 parse_digits]; [by intros [= <-]|].
  destruct (is_ascii_digit b); [|done]. cbv zeta. destruct (_ <=? u64_max); [|done]. intros Hp Hn. destruct (IH _ Hp Hn) as [Hd Hle].
  rewrite (proj2 (N.leb_le _ _)) by lia. split; [done|lia].
Qed.

Lemma parse_u32_decimal n : n <= u32_max -> parse_u32 (decimal n) = Some n.
Proof.
  intros Hn. destruct (decimal_digits n) as [Hd Hne].
  assert (parse_digits64 0 (decimal n) = Some n) as Hp.
  { unfold decimal. rewrite parse_decimal_loop; [done|unfold u64_max, u32_max in *; lia|lia]. }
  destruct (parse_digits_narrow _ _ _ Hp Hn) as [H _]. unfold parse_u32. destruct (decimal n) as [|b s]; [done|].
  cbn [sall] in Hd. apply andb_true_iff in Hd as [[Hb _]%andb_true_iff _]. apply N.leb_le in Hb. by rewrite (proj2 (N.eqb_neq (nb b) 43)) by lia.
Qed.

(** How tmux writes the separator: as it is, escaped, or replaced. *)
Inductive Separator := Raw | Escaped | Replaced.
Definition separator (sep : Separator) : string :=
  match sep with Raw => String UNIT_SEPARATOR "" | Escaped => UNIT_SEPARATOR_ESCAPE | Replaced => "_" end.

(** A session as tmux knows it: how many clients are attached, how many windows it has, when it was created. *)
Record Listed := mkListed { li_name : string; li_attached : N; li_windows : N; li_created : N }.

Definition listed_ok (l : Listed) : Prop :=
  valid_session_name (li_name l) = true /\ li_attached l <= u64_max /\ li_windows l <= u32_max /\ li_created l <= u64_max.

Definition printed_line (sep : Separator) (l : Listed) : string :=
  li_name l +:+ separator sep +:+ decimal (li_attached l) +:+ separator sep +:+ decimal (li_windows l) +:+ separator sep +:+ decimal (li_created l).

Definition printed (sep : Separator) (l : list Listed) : string := sconcat ((fun x => printed_line sep x +:+ String (ascii_of_N 10) "") <$> l).

Definition entry_of (l : Listed) : TmuxSessionEntry := mkTmuxSessionEntry (li_name l) (0 <? li_attached l) (li_windows l) (li_created l) None.

Lemma valid_name_bytes name : valid_session_name name = true ->
  name <> "" /\ sall (fun b => is_ascii_alphanumeric b || (nb b =? 95) || (nb b =? 45)) name = true.
Proof.
  unfold valid_session_name. intros [[[Hne _]%andb_true_iff _]%andb_true_iff H]%andb_true_iff. split; [by intros ->|done].
Qed.

Lemma sall_no_char p c s : sall p s = true -> p c = false -> no_char c s = true.
Proof.
  intros Hs Hc. unfold no_char. induction s as [|b s IH]; [done|]. cbn [sall] in *. apply andb_true_iff in Hs as [Hb Hs].
  rewrite IH by done. rewrite andb_true_r. apply negb_true_iff, Ascii.eqb_neq. intros ->. by rewrite Hb in Hc.
Qed.

Lemma no_char_existsb c s : no_char c s = true -> existsb (Ascii.eqb c) (String.list_ascii_of_string s) = false.
Proof.
  unfold no_char. induction s as [|b s IH]; [done|]. cbn [sall String.list_ascii_of_string existsb]. intros [Hb Hs]%andb_true_iff.
  rewrite IH by done. rewrite orb_false_r. by rewrite Ascii.eqb_sym, <- negb_true_iff.
Qed.

Lemma no_char_app c a b : no_char c (a +:+ b) = no_char c a && no_char c b.
Proof. apply sall_app. Qed.

Lemma existsb_app_sep c a b : existsb (Ascii.eqb c) (String.list_ascii_of_string (a +:+ String c b)) = true.
Proof. induction a as [|x a IH]; cbn; [by rewrite Ascii.eqb_refl|]. by rewrite IH, orb_true_r. Qed.

Section fields.
Context (name a w c : string) (Hname : valid_session_name name = true) (Ha : sall is_ascii_digit a = true) (Hw : sall is_ascii_digit w = true)
  (Hc : sall is_ascii_digit c = true).

Lemma name_no b : is_ascii_alphanumeric b || (nb b =? 95) || (nb b =? 45) = false -> no_char b name = true.
Proof. intros Hb. eapply sall_no_char; [by apply valid_name_bytes|exact Hb]. Qed.

Lemma line_no_char b s :
  no_char b name = true -> no_char b s = true -> is_ascii_digit b = false -> no_char b (name +:+ s +:+ a +:+ s +:+ w +:+ s +:+ c) = true.
Proof. intros Hn Hs Hb. rewrite !no_char_app, Hn, Hs. by rewrite !digits_no_char. Qed.

Lemma line_last s : name +:+ s +:+ a +:+ s +:+ w +:+ s +:+ c = (name +:+ s +:+ a +:+ s +:+ w) +:+ s +:+ c.
Proof. by rewrite <- !str_app_assoc. Qed.

Lemma fields_split sep :
  split_tmux_fields 4 (name +:+ separator sep +:+ a +:+ separator sep +:+ w +:+ separator sep +:+ c) = Some [name; a; w; c].
Proof.
  pose proof (fun b s => digits_no_char b s) as Hd. unfold split_tmux_fields. destruct sep.
  - cbn [separator String.append]. rewrite existsb_app_sep.
    rewrite split_on_app, (split_on_none _ name), split_on_app, (split_on_none _ a), split_on_app, (split_on_none _ w), (split_on_none _ c) by first [by apply name_no|by apply Hd].
    done.
  - rewrite (no_char_existsb UNIT_SEPARATOR) by (apply line_no_char; [by apply name_no|done|done]).
    cbn [separator]. unfold UNIT_SEPARATOR_ESCAPE. rewrite (contains_text_app "\037" name).
    assert (split_text "\037" 0 (name +:+ "\037" +:+ a +:+ "\037" +:+ w +:+ "\037" +:+ c) = [name; a; w; c]) as ->; [|done].
    etransitivity; [exact (split_text_app "\" "037" name _ (name_no "\" eq_refl))|f_equal].
    etransitivity; [exact (split_text_app "\" "037" a _ (Hd "\"%char a eq_refl Ha))|f_equal].
    etransitivity; [exact (split_text_app "\" "037" w _ (Hd "\"%char w eq_refl Hw))|f_equal].
    exact (split_text_one "\" "037" c (Hd "\"%char c eq_refl Hc)).
  - rewrite (no_char_existsb UNIT_SEPARATOR) by (apply line_no_char; [by apply name_no|done|done]).
    rewrite (contains_text_absent "\" "037") by (apply line_no_char; [by apply name_no|done|done]).
    rewrite line_last. cbn [separator rsplitn String.append].
    assert (name +:+ String "_" (a +:+ String "_" w) = (name +:+ String "_" a) +:+ String "_" w) as Hw' by (by rewrite <- str_app_assoc).
    rewrite rsplit_once_last by by apply Hd. rewrite Hw', rsplit_once_last by by apply Hd. by rewrite rsplit_once_last by by apply Hd.
Qed.
End fields.

Lemma strip_cr_none line : no_char (ascii_of_N 13) line = true -> strip_cr line = line.
Proof.
  intros H. unfold strip_cr. rewrite bool_decide_eq_false_2; [done|]. intros Hget. revert Hget H. generalize (String.length line - 1)%nat.
  unfold no_char. induction line as [|b line IH]; intros n Hget; [by destruct n|]. cbn [sall]. intros [Hb Hl]%andb_true_iff.
  destruct n as [|n]; cbn in Hget; [|by eapply IH]. injection Hget as ->. by rewrite Ascii.eqb_refl in Hb.
Qed.

Lemma lines_of l :
  Forall (fun line => no_char (ascii_of_N 10) line = true /\ no_char (ascii_of_N 13) line = true) l ->
  lines (sconcat ((fun line => line +:+ String (ascii_of_N 10) "") <$> l)) = l.
Proof.
  intros Hall. unfold lines. assert (split_on (ascii_of_N 10) (sconcat ((fun line => line +:+ String (ascii_of_N 10) "") <$> l)) = (l ++ [""])%list) as ->.
  { induction Hall as [|line l [Hlf _] Hall IH]; [done|]. cbn [fmap list_fmap]. rewrite sconcat_cons, <- str_app_assoc. cbn [String.append].
    rewrite split_on_app, split_on_none by done. cbn [app]. f_equal. exact IH. }
  rewrite removelast_last, last_snoc. change (slen "" =? 0) with true. cbv iota. rewrite app_nil_r.
  induction Hall as [|line l [_ Hcr] Hall IH]; [done|]. cbn. by rewrite IH, strip_cr_none.
Qed.

Lemma sall_app_true p a b : sall p a = true -> sall p b = true -> sall p (a +:+ b) = true.
Proof. intros Ha Hb. by rewrite sall_app, Ha, Hb. Qed.

Definition line_byte (b : ascii) : bool := (nb b <? 128) && negb (Ascii.eqb b (ascii_of_N 10)) && negb (Ascii.eqb b (ascii_of_N 13)).

Lemma line_byte_ok b : 31 <= nb b < 128 -> line_byte b = true.
Proof.
  intros H. unfold line_byte. rewrite (proj2 (N.ltb_lt _ _)) by lia.
  assert (b <> ascii_of_N 10) as H10 by (intros ->; change (nb (ascii_of_N 10)) with 10 in H; lia).
  assert (b <> ascii_of_N 13) as H13 by (intros ->; change (nb (ascii_of_N 13)) with 13 in H; lia).
  by rewrite (proj2 (Ascii.eqb_neq _ _) H10), (proj2 (Ascii.eqb_neq _ _) H13).
Qed.

Lemma printed_line_facts sep l :
  listed_ok l ->
  sall line_byte (printed_line sep l) = true
  /\ printed_line sep l <> "" /\ parse_tmux_line (printed_line sep l) = Some (entry_of l).
Proof.
  intros (Hn & Ha & Hw & Hc). destruct (valid_name_bytes _ Hn) as [Hne Hb]. split; [|split].
  - assert (forall n, sall line_byte (decimal n) = true) as Hd.
    { intros n. eapply sall_impl; [|apply decimal_digits]. intros b Hdig. unfold is_ascii_digit in Hdig. apply andb_true_iff in Hdig as [?%N.leb_le ?%N.leb_le].
      apply line_byte_ok. lia. }
    assert (sall line_byte (separator sep) = true) as Hs by (by destruct sep; vm_compute).
    assert (sall line_byte (li_name l) = true) as Hname.
    { eapply sall_impl; [|exact Hb]. intros b Hbyte. apply line_byte_ok. unfold is_ascii_alphanumeric in Hbyte.
      repeat first [apply orb_true_iff in Hbyte as [Hbyte|Hbyte] | apply andb_true_iff in Hbyte as [Hbyte ?]]; rewrite ?N.leb_le, ?N.eqb_eq in *; lia. }
    unfold printed_line. repeat (apply sall_app_true; [done|]). done.
  - unfold printed_line. destruct (li_name l); [done|]. done.
  - unfold parse_tmux_line, printed_line. rewrite fields_split by (done || apply decimal_digits). cbn [mbind option_bind].
    rewrite Hn. cbn [negb]. rewrite parse_u64_decimal, parse_u32_decimal, parse_u64_decimal by done. done.
Qed.

(** C21: what tmux lists is read back: whichever way it writes the separator, every session with a name the
    protocol can carry is there with its metadata, and none is counted as left out. *)
Theorem tmux_list_reads_back sep l :
  Forall listed_ok l -> parse_tmux_list (printed sep l) = (entry_of <$> l, 0).
Proof.
  intros Hl. unfold parse_tmux_list.
  assert (Forall (fun x => no_char (ascii_of_N 10) x = true /\ no_char (ascii_of_N 13) x = true) (printed_line sep <$> l)) as Hlines.
  { apply Forall_fmap. eapply Forall_impl; [exact Hl|]. intros x Hx. destruct (printed_line_facts sep x Hx) as (Hb & _ & _).
    split; (eapply sall_no_char; [exact Hb|by vm_compute]). }
  assert (printed sep l = sconcat ((fun line => line +:+ String (ascii_of_N 10) "") <$> (printed_line sep <$> l))) as Hp
    by (unfold printed; by rewrite <- list_fmap_compose).
  rewrite lossy_ascii; [rewrite Hp, lines_of by done|].
  - enough (forall acc, foldl (fun '(sessions, omitted) line => if line =s? "" then (sessions, omitted)
        else match parse_tmux_line line with Some session => ((sessions ++ [session])%list, omitted) | None => (sessions, N.min (omitted + 1) u32_max) end)
        (acc, 0) (printed_line sep <$> l) = ((acc ++ (entry_of <$> l))%list, 0)) as H by apply (H []).
    induction Hl as [|x l Hx Hl IH]; intros acc; [by rewrite app_nil_r|]. destruct (printed_line_facts sep x Hx) as (_ & Hne & Hparse).
    cbn [fmap list_fmap foldl]. rewrite (proj2 (String.eqb_neq _ _) Hne), Hparse. cbn in Hlines. apply Forall_cons in Hlines as [_ Hlines].
    rewrite IH; [by rewrite <- app_assoc|done|]. unfold printed. by rewrite <- list_fmap_compose.
  - unfold printed. clear Hlines Hp. induction Hl as [|x l Hx Hl IH]; [done|]. cbn [fmap list_fmap]. rewrite sconcat_cons. apply sall_app_true; [|exact IH].
    apply sall_app_true; [|done]. destruct (printed_line_facts sep x Hx) as (Hb & _ & _). eapply sall_impl; [|exact Hb]. by intros b [[? _]%andb_true_iff _]%andb_true_iff.
Qed.

(** ** What is run is what was validated *)

Inductive Operation :=
| OpSnapshot (tabs : option AgentTabIndex) (tmux_in_time herdr_in_time : bool)
| OpHandback (request : HandbackRequest)
| OpCloseHandback (session : string)
| OpExisting (candidates : list string)
| OpFocus (kind : ProviderKind) (session tab : string)
| OpPane (kind : ProviderKind) (session : string)
| OpEnsure (program session : string) (home : option string)
| OpDetach (program client_tty : string).

(** The words Ciao itself puts in an argument list, those apart that take something with them. *)
Definition own_words : list string :=
  ["-V"; "--version"; "list-sessions"; "-F"; TMUX_LIST_FORMAT; "list-windows"; "-a"; TMUX_WINDOW_LIST_FORMAT; "session"; "list"; "--json";
   "tab"; "workspace"; "pane"; TMUX_FORCE_UTF8; "new-session"; "-d"; "has-session"; "list-panes"; "#{pane_pid}"; "kill-session"; "#{session_name}";
   "select-window"; "current"; "display"; "-p"; "#{pane_current_path}"; "attach-session"; "-A"].

(** The exact target of a session, of its current pane, or of one of its windows. *)
Definition exact_target (a : string) : Prop :=
  exists session, valid_session_name session = true
    /\ (a = "=" +:+ session \/ a = "=" +:+ session +:+ ":" \/ exists tab, tmux_window_id tab = true /\ a = "=" +:+ session +:+ ":" +:+ tab).

Definition conversation_id (vendor : string) : Prop :=
  vendor <> "" /\ sall (fun b => is_ascii_alphanumeric b || is_byte [45; 95] b) vendor = true.

(** An argument list Ciao may give: its own words; after a word that takes something, what that word takes. *)
Inductive arguments_ok : list string -> Prop :=
| ArgsDone : arguments_ok []
| ArgsTarget target rest : exact_target target -> arguments_ok rest -> arguments_ok ("-t" :: target :: rest)
| ArgsClient tty rest : valid_tmux_client_tty tty = Some tty -> starts_with tty "/" = true -> arguments_ok rest -> arguments_ok ("detach-client" :: "-t" :: tty :: rest)
| ArgsName word name rest :
    word ∈ ["-s"; "--session"; "attach"] -> valid_session_name name = true -> arguments_ok rest -> arguments_ok (word :: name :: rest)
| ArgsDirectory path rest : starts_with path "/" = true -> arguments_ok rest -> arguments_ok ("-c" :: path :: rest)
| ArgsTab tab rest : valid_tab_id tab = true -> arguments_ok rest -> arguments_ok ("focus" :: tab :: rest)
| ArgsProgram tools cli rest :
    starts_with cli "/" = true -> arguments_ok rest -> arguments_ok (HANDBACK_ENV_BINARY :: ("PATH=" +:+ tools) :: cli :: rest)
| ArgsConversation vendor : conversation_id vendor -> arguments_ok ["--resume"; vendor]
| ArgsWord word rest : bool_decide (word ∈ own_words) = true -> arguments_ok rest -> arguments_ok (word :: rest).

(** The options Ciao gives. *)
Definition own_options : list string :=
  ["-V"; "--version"; "-F"; "-a"; "--json"; TMUX_FORCE_UTF8; "-d"; "-p"; "-A"; "-t"; "-s"; "--session"; "-c"; "--resume"].

Lemma not_option_first b s : Ascii.eqb b "-" = false -> starts_with (String b s) "-" = false.
Proof. intros Hb%Ascii.eqb_neq. apply starts_with_first. congruence. Qed.

Lemma name_no_option a : valid_session_name a = true -> starts_with a "-" = false.
Proof.
  intros Hn. destruct a as [|b a]; [done|]. apply not_option_first, Ascii.eqb_neq. intros ->. unfold valid_session_name, first_byte in Hn. cbn [shead] in Hn.
  change (is_ascii_alphanumeric "-") with false in Hn. by rewrite andb_false_r in Hn.
Qed.

Lemma tab_no_option a : valid_tab_id a = true -> starts_with a "-" = false.
Proof.
  intros Htab. destruct a as [|b a]; [done|]. apply not_option_first, Ascii.eqb_neq. intros ->. unfold valid_tab_id, first_byte in Htab. cbn [shead] in Htab.
  change (is_ascii_alphanumeric "-" || (nb "-" =? 64)) with false in Htab. by rewrite andb_false_r in Htab.
Qed.

Lemma path_no_option a : starts_with a "/" = true -> starts_with a "-" = false.
Proof. intros Hp. destruct a as [|b a]; [done|]. apply not_option_first, Ascii.eqb_neq. by intros ->. Qed.

Lemma target_no_option a : exact_target a -> starts_with a "-" = false.
Proof. intros (session & _ & [->|[->|(tab & _ & ->)]]); by apply not_option_first. Qed.

Lemma own_no_option word : bool_decide (word ∈ own_words) = true -> starts_with word "-" = true -> word ∈ own_options.
Proof.
  intros Hin%bool_decide_eq_true Hd. assert (forallb (fun w => negb (starts_with w "-") || bool_decide (w ∈ own_options)) own_words = true) as H by (by vm_compute).
  rewrite forallb_forall in H. specialize (H word (proj1 (list_elem_of_In _ _) Hin)). rewrite Hd in H. by apply bool_decide_eq_true in H.
Qed.

(** Nothing else in such a list looks like an option, but for the id of a conversation. *)
Lemma arguments_no_option args a :
  arguments_ok args -> a ∈ args -> starts_with a "-" = true ->
  a ∈ own_options \/ exists before, args = (before ++ ["--resume"; a])%list /\ conversation_id a.
Proof.
  intros Hargs Ha Hd. assert (forall x, starts_with x "-" = false -> a <> x) as Hnot by congruence.
  assert (forall x rest, (a ∈ own_options \/ exists before, rest = (before ++ ["--resume"; a])%list /\ conversation_id a) ->
            a ∈ own_options \/ exists before, (x :: rest)%list = (before ++ ["--resume"; a])%list /\ conversation_id a) as Hcons.
  { intros x rest [?|(before & -> & ?)]; [by left|right; by exists (x :: before)%list]. }
  assert (forall w, a = w -> bool_decide (w ∈ own_options) = true -> a ∈ own_options) as Hown by (by intros w -> Hw%bool_decide_eq_true).
  induction Hargs as [|target rest Ht Hr IH|tty rest Ht Hp Hr IH|word name rest Hw Hn Hr IH|path rest Hp Hr IH|tab rest Ht Hr IH|tools cli rest Hc Hr IH|
    vendor Hv|word rest Hw Hr IH]; try (by apply not_elem_of_nil in Ha).
  - apply elem_of_cons in Ha as [Ha|[Ha|Ha]%elem_of_cons]; [left; by apply (Hown _ Ha eq_refl)| |by apply Hcons, Hcons, IH].
    by destruct (Hnot _ (target_no_option _ Ht)).
  - apply elem_of_cons in Ha as [Ha|[Ha|[Ha|Ha]%elem_of_cons]%elem_of_cons]; [by subst|left; by apply (Hown _ Ha eq_refl)| |by apply Hcons, Hcons, Hcons, IH].
    by destruct (Hnot _ (path_no_option _ Hp)).
  - apply elem_of_cons in Ha as [Ha|[Ha|Ha]%elem_of_cons]; [|by destruct (Hnot _ (name_no_option _ Hn))|by apply Hcons, Hcons, IH].
    rewrite <- Ha in Hw. left. repeat (apply elem_of_cons in Hw as [Hw|Hw]); [by apply (Hown _ Hw eq_refl)..|by subst|by apply not_elem_of_nil in Hw].
  - apply elem_of_cons in Ha as [Ha|[Ha|Ha]%elem_of_cons]; [left; by apply (Hown _ Ha eq_refl)| |by apply Hcons, Hcons, IH].
    by destruct (Hnot _ (path_no_option _ Hp)).
  - apply elem_of_cons in Ha as [Ha|[Ha|Ha]%elem_of_cons]; [by subst| |by apply Hcons, Hcons, IH].
    by destruct (Hnot _ (tab_no_option _ Ht)).
  - apply elem_of_cons in Ha as [Ha|[Ha|[Ha|Ha]%elem_of_cons]%elem_of_cons]; [by subst|by subst| |by apply Hcons, Hcons, Hcons, IH].
    by destruct (Hnot _ (path_no_option _ Hc)).
  - apply elem_of_cons in Ha as [Ha|[Ha|Ha%not_elem_of_nil]%elem_of_cons]; [left; by apply (Hown _ Ha eq_refl)| |done].
    right. subst a. by exists [].
  - apply elem_of_cons in Ha as [->|Ha]; [left; by apply own_no_option|by apply Hcons, IH].
Qed.

Section safe.
Context (from_slice : string -> option Value) (is_absolute_executable : string -> bool) (config : list string).
Context (reply : forall c, Reply c).

Definition call_ok (c : Call) : Prop :=
  match c with Exec program args => is_absolute_executable program = true /\ arguments_ok args | _ => True end.

Definition operation (op : Operation) : prov unit :=
  match op with
  | OpSnapshot tabs t h => _ ← capture_snapshot from_slice is_absolute_executable config tabs t h; mret tt
  | OpHandback request => _ ← create_handback_session is_absolute_executable config request; mret tt
  | OpCloseHandback session => _ ← close_handback_session is_absolute_executable config session; mret tt
  | OpExisting candidates => _ ← existing_tmux_sessions is_absolute_executable config candidates; mret tt
  | OpFocus kind session tab => _ ← focus_tab is_absolute_executable config kind session tab; mret tt
  | OpPane kind session => _ ← pane_facts from_slice is_absolute_executable config kind session; mret tt
  | OpEnsure program session home => _ ← ensure_detached_tmux_session program session home; mret tt
  | OpDetach program client_tty => _ ← detach_tmux_client program client_tty; mret tt
  end.

(** What callers give beyond text: programs that are, the home directory of the account, a terminal's path. *)
Definition given (op : Operation) : Prop :=
  match op with
  | OpEnsure program _ home => is_absolute_executable program = true /\ (forall h, home = Some h -> starts_with h "/" = true)
  | OpDetach program client_tty => is_absolute_executable program = true /\ starts_with client_tty "/" = true
  | _ => True
  end.

Definition safe {A} (p : prov A) : Prop := Forall call_ok (performs reply p).1.

Lemma safe_ret {A} (a : A) : safe (mret a).
Proof. constructor. Qed.

Lemma safe_bind {A B} (p : prov A) (k : A -> prov B) : safe p -> safe (k (performs reply p).2) -> safe (p ≫= k).
Proof. intros Hp Hk. unfold safe. rewrite performs_bind. apply Forall_app. by split. Qed.

Lemma safe_exec {B} program args (k : result ProviderExecError BoundedOutput -> prov B) :
  is_absolute_executable program = true -> arguments_ok args -> (forall r, safe (k r)) -> safe (exec program args ≫= k).
Proof. intros Hp Ha Hk. apply safe_bind; [|apply Hk]. constructor; [by split|constructor]. Qed.

Lemma safe_note {B} vendor surface kind name version n (k : unit -> prov B) : safe (k tt) -> safe (note vendor surface kind name version n ≫= k).
Proof. intros Hk. unfold note. destruct (n =? 0); [exact Hk|]. apply safe_bind; [by constructor; [|constructor]|]. by destruct (performs reply _).2. Qed.

Lemma safe_probe {B} program args kind (k : option string -> prov B) :
  is_absolute_executable program = true -> arguments_ok args -> (forall r, safe (k r)) -> safe (probe_version program args kind ≫= k).
Proof. intros Hp Ha Hk. apply safe_bind; [|apply Hk]. unfold probe_version. apply safe_exec; [done..|intros; apply safe_ret]. Qed.

Lemma safe_each {A B} (f : A -> prov B) l : Forall (fun x => safe (f x)) l -> safe (each_done f l).
Proof.
  induction 1 as [|x l Hx Hl IH]; [apply safe_ret|]. cbn [each_done]. apply safe_bind; [done|]. apply safe_bind; [done|apply safe_ret].
Qed.

Lemma resolved kind binary : WorkspaceConfig_resolve is_absolute_executable config kind = Some binary -> is_absolute_executable binary = true.
Proof. intros H%find_some_elem. by destruct H. Qed.

Lemma target_of session : valid_session_name session = true -> exact_target ("=" +:+ session).
Proof. intros H. exists session. split; [done|]. by left. Qed.
End safe.

Ltac safe_args :=
  repeat first
    [ apply ArgsDone
    | apply ArgsTarget; [first [by apply target_of|idtac]|]
    | apply ArgsName; [by apply (bool_decide_unpack _)|done|]
    | apply ArgsDirectory; [first [done|idtac]|]
    | apply ArgsTab; [done|]
    | apply ArgsProgram; [done|]
    | apply ArgsConversation; [done]
    | apply ArgsClient; [first [done|idtac]..|]
    | apply ArgsWord; [by vm_compute|] ].

Section validated.
Context (from_slice : string -> option Value) (is_absolute_executable : string -> bool) (config : list string).
Context (reply : forall c, Reply c).

Abbreviation safe p := (safe is_absolute_executable reply p).

Lemma snapshot_tmux_safe tabs : safe (snapshot_tmux is_absolute_executable config tabs).
Proof.
  unfold snapshot_tmux. destruct (WorkspaceConfig_resolve _ _ _) as [binary|] eqn:Hb; [|apply safe_ret]. apply resolved in Hb.
  apply safe_probe; [done|safe_args|]. intros [version|]; [|apply safe_note, safe_ret].
  destruct (negb _); [apply safe_ret|]. apply safe_exec; [done|safe_args|]. intros listing.
  destruct (tmux_listing listing) as [[sessions omitted]|]; [|apply safe_ret]. apply safe_note.
  destruct (cap_tmux_sessions sessions) as [kept capped]. apply safe_bind; [|apply safe_ret]. destruct tabs as [agents|]; [|apply safe_ret].
  destruct (len kept =? 0); [apply safe_ret|]. unfold attach_tmux_tabs. apply safe_exec; [done|safe_args|]. intros r. apply safe_ret.
Qed.

Lemma herdr_tabs_safe binary name : is_absolute_executable binary = true -> valid_session_name name = true -> safe (herdr_tabs from_slice binary name).
Proof.
  intros Hb Hn. unfold herdr_tabs. apply safe_exec; [done|safe_args|]. intros t. apply safe_exec; [done|safe_args|]. intros w.
  apply safe_exec; [done|safe_args|]. intros p. destruct (default (∅, 0) _) as [d n]. apply safe_ret.
Qed.

Lemma snapshot_herdr_safe tabs : safe (snapshot_herdr from_slice is_absolute_executable config tabs).
Proof.
  unfold snapshot_herdr. destruct (WorkspaceConfig_resolve _ _ _) as [binary|] eqn:Hb; [|apply safe_ret]. apply resolved in Hb.
  apply safe_probe; [done|safe_args|]. intros [version|]; [|apply safe_note, safe_ret].
  destruct (negb _); [apply safe_ret|]. apply safe_exec; [done|safe_args|]. intros listing.
  destruct (whole listing) as [stdout|]; [|apply safe_ret]. destruct (parse_herdr_list from_slice stdout) as [[sessions omitted]|] eqn:Hp; [|apply safe_note, safe_ret].
  apply parse_herdr_list_ok in Hp as [Hs _]. apply safe_note. destruct (cap_herdr_sessions_ok sessions Hs) as [Hc _].
  destruct (cap_herdr_sessions sessions) as [kept capped]. cbn [fst] in Hc. apply safe_bind; [|apply safe_ret]. destruct tabs as [agents|]; [|apply safe_ret].
  unfold attach_herdr_tabs. apply safe_bind; [|apply safe_bind; [|apply safe_ret]]; apply safe_each, Forall_forall.
  - intros [i s] Hin. apply herdr_tabs_safe; [done|]. rewrite Forall_forall in Hc. apply Hc. unfold queried_sessions in Hin.
    apply (sublist_subseteq _ _ (sublist_take _ _)), list_elem_of_In, filter_In in Hin as [Hin _]. apply list_elem_of_In, elem_of_lookup_imap in Hin as (k & x & [= -> ->] & Hx).
    by eapply list_elem_of_lookup_2.
  - intros [t n] _. unfold note. destruct (n =? 0); [apply safe_ret|]. apply safe_bind; [by constructor; [|constructor]|apply safe_ret].
Qed.

Lemma close_safe session : safe (close_handback_session is_absolute_executable config session).
Proof.
  unfold close_handback_session. destruct (valid_session_name session) eqn:Hn; cbn [negb]; [|apply safe_ret].
  destruct (WorkspaceConfig_resolve _ _ _) as [binary|] eqn:Hb; [|apply safe_ret]. apply resolved in Hb.
  apply safe_exec; [done|safe_args|]. intros panes. apply safe_bind; [|apply safe_exec; [done|safe_args|intros; apply safe_ret]].
  apply safe_each, Forall_forall. intros pid _. by constructor; [|constructor].
Qed.

Lemma handback_safe request : safe (create_handback_session is_absolute_executable config request).
Proof.
  unfold create_handback_session. destruct (WorkspaceConfig_resolve _ _ _) as [binary|] eqn:Hb; [|apply safe_ret]. apply resolved in Hb.
  destruct (handback_argv request) as [argv|] eqn:Ha; [|apply safe_ret]. unfold handback_argv in Ha.
  destruct (valid_session_name (hr_session request)) eqn:Hn; [|done]. destruct (String.eqb_spec (hr_vendor_session request) "") as [|Hv]; [done|].
  destruct (sall _ (hr_vendor_session request)) eqn:Hall; [|done]. destruct (starts_with (hr_workspace request) "/") eqn:Hw; [|done].
  destruct (starts_with (hr_cli request) "/") eqn:Hc; [|done]. cbn [negb orb] in Ha. injection Ha as <-. apply safe_exec; [done| |].
  - assert (conversation_id (hr_vendor_session request)) by (by split). safe_args.
  - intros created. destruct (negb _); [apply safe_ret|]. apply safe_bind; [by constructor; [|constructor]|]. apply safe_exec; [done|safe_args|intros; apply safe_ret].
Qed.

Lemma operation_calls op :
  given is_absolute_executable op ->
  Forall (call_ok is_absolute_executable) (performs reply (operation from_slice is_absolute_executable config op)).1.
Proof.
  intros Hg. destruct op as [tabs t h|request|session|candidates|kind session tab|kind session|program session home|program tty];
    cbn [operation]; apply safe_bind; try apply safe_ret; cbn [given] in Hg.
  - unfold capture_snapshot. apply safe_bind; [apply snapshot_tmux_safe|]. apply safe_bind; [apply snapshot_herdr_safe|].
    destruct (if t then _ else _) as [a b], (if h then _ else _) as [c d]. apply safe_ret.
  - apply handback_safe.
  - apply close_safe.
  - unfold existing_tmux_sessions. destruct (len candidates =? 0); [apply safe_ret|]. destruct (WorkspaceConfig_resolve _ _ _) as [binary|] eqn:Hb; [|apply safe_ret].
    apply resolved in Hb. apply safe_exec; [done|safe_args|]. intros; apply safe_ret.
  - unfold focus_tab. destruct (valid_session_name session) eqn:Hn; [|apply safe_ret]. destruct (valid_tab_id tab) eqn:Ht; [|apply safe_ret]. cbn [negb orb].
    destruct (WorkspaceConfig_resolve _ _ _) as [binary|] eqn:Hb; [|apply safe_ret]. apply resolved in Hb. destruct kind.
    + destruct (tmux_window_id tab) eqn:Hw; [|apply safe_ret]. apply safe_exec; [done| |intros; apply safe_ret]. safe_args.
      exists session. split; [done|]. right. right. by exists tab.
    + apply safe_exec; [done|safe_args|intros; apply safe_ret].
  - unfold pane_facts. apply safe_bind; [|apply safe_ret]. unfold inner_pane_facts. destruct (valid_session_name session) eqn:Hn; [|apply safe_ret]. cbn [negb].
    destruct (WorkspaceConfig_resolve _ _ _) as [binary|] eqn:Hb; [|apply safe_ret]. apply resolved in Hb.
    destruct kind; (apply safe_exec; [done| |intros; apply safe_ret]); safe_args.
    exists session. split; [done|]. right. by left.
  - destruct Hg as [Hp Hh]. unfold ensure_detached_tmux_session. destruct (valid_session_name session) eqn:Hn; [|apply safe_ret]. cbn [negb].
    destruct home as [h|]; [|apply safe_ret]. apply safe_exec; [done| |].
    + specialize (Hh h eq_refl). safe_args.
    + intros created. destruct (succeeded created); [apply safe_ret|]. apply safe_exec; [done|safe_args|intros; apply safe_ret].
  - destruct Hg as [Hp Habs]. unfold detach_tmux_client. destruct (valid_tmux_client_tty tty) as [target|] eqn:Ht; [|apply safe_ret].
    assert (target = tty) as -> by (revert Ht; unfold valid_tmux_client_tty; destruct (file_name tty); [|done]; cbn; destruct (_ && _ && _); congruence).
    apply safe_exec; [done|safe_args|intros; apply safe_ret].
Qed.

Lemma target_arguments target session binary home program args :
  target_command target session binary home = Ok (program, args) -> starts_with home "/" = true -> program = binary /\ arguments_ok args.
Proof.
  unfold target_command. destruct (valid_session_name session) eqn:Hn; [|done]. cbn [negb refuse_if rbind].
  intros H Hh. destruct target; try done; injection H as <- <-; (split; [done|]); safe_args.
Qed.

(** C20: everything Ciao runs of a multiplexer is a program it resolved, with arguments it chose or checked: its
    own words and, after a word that takes something, what that word takes: after -t always the exact target of a
    session with a valid name, which tmux matches by no prefix, or the terminal of a client; after the words for
    sessions, tabs and directories valid names, tabs and absolute paths. So what looks like an option is one of
    those Ciao gives, with one exception: the id of the conversation that a handback resumes, letters, digits,
    dashes and underscores, is the last word and may begin with a dash. *)
Theorem runs_only_validated op :
  given is_absolute_executable op ->
  let calls := (performs reply (operation from_slice is_absolute_executable config op)).1 in
  Forall (call_ok is_absolute_executable) calls
  /\ (forall program args a, Exec program args ∈ calls -> a ∈ args -> starts_with a "-" = true ->
       a ∈ own_options \/ exists before, args = (before ++ ["--resume"; a])%list /\ conversation_id a)
  /\ forall target session binary home program args,
       target_command target session binary home = Ok (program, args) -> starts_with home "/" = true -> program = binary /\ arguments_ok args.
Proof.
  intros Hg. pose proof (operation_calls op Hg) as Hcalls. split; [exact Hcalls|]. split; [|apply target_arguments].
  intros program args a Hin Ha Hdash. rewrite Forall_forall in Hcalls. destruct (Hcalls _ Hin) as [_ Hargs]. by apply arguments_no_option.
Qed.
End validated.

(** ** Bounded output *)

Lemma stake_app_over n a b : (String.length a <= n)%nat -> stake n (a +:+ b) = a +:+ stake (n - String.length a) b.
Proof.
  revert n. induction a as [|x a IH]; intros n Hn; cbn [String.append String.length]; [by rewrite Nat.sub_0_r|].
  destruct n as [|n]; [cbn in Hn; lia|]. cbn [stake Nat.sub]. by rewrite IH by (cbn in Hn; lia).
Qed.

Lemma stake_app_le n a b : (n <= String.length a)%nat -> stake n (a +:+ b) = stake n a.
Proof.
  revert n. induction a as [|x a IH]; intros [|n] Hn; try done; [cbn in Hn; lia|]. cbn. by rewrite IH by (cbn in Hn; lia).
Qed.

Lemma read_capped_loop_spec cap reads buffer truncated :
  slen buffer <= cap ->
  read_capped_loop cap reads buffer truncated
  = (stake (N.to_nat cap) (buffer +:+ sconcat reads), truncated || (cap <? slen buffer + slen (sconcat reads))).
Proof.
  revert buffer truncated. induction reads as [|chunk reads IH]; intros buffer truncated Hb; cbn [read_capped_loop].
  - cbn [sconcat foldr]. rewrite str_app_nil_r, stake_all by (unfold slen in Hb; lia). change (slen "") with 0.
    rewrite (proj2 (N.ltb_ge _ _)) by lia. by rewrite orb_false_r.
  - set (taken := N.min (slen chunk) (cap - slen buffer)).
    assert (slen (stake (N.to_nat taken) chunk) = taken) as Hlen by (unfold slen; rewrite stake_length; unfold taken, slen; lia).
    rewrite IH by (rewrite slen_app, Hlen; unfold taken; lia). rewrite sconcat_cons. f_equal.
    + destruct (N.le_gt_cases (slen chunk) (cap - slen buffer)) as [Hle|Hgt].
      * rewrite (stake_all (N.to_nat taken)) by (unfold taken, slen in *; lia). by rewrite str_app_assoc.
      * assert (taken = cap - slen buffer) as Ht by (unfold taken; lia).
        rewrite !stake_app_over by (unfold slen in *; try rewrite str_length_app, stake_length; unfold taken, slen in *; lia).
        assert (N.to_nat cap - String.length (buffer +:+ stake (N.to_nat taken) chunk) = 0)%nat as -> by (rewrite str_length_app, stake_length; unfold taken, slen in *; lia).
        assert (stake 0 (sconcat reads) = "") as -> by done. rewrite str_app_nil_r. f_equal.
        assert (N.to_nat cap - String.length buffer = N.to_nat taken)%nat as -> by (rewrite Ht; unfold slen; lia).
        symmetry. apply stake_app_le. unfold taken, slen. lia.
    + rewrite !slen_app, Hlen. destruct truncated; [done|]. cbn [orb]. unfold taken.
      destruct (N.ltb_spec (N.min (slen chunk) (cap - slen buffer)) (slen chunk)), (N.ltb_spec cap (slen buffer + (slen chunk + slen (sconcat reads)))); try lia; cbn [orb]; try done.
      * apply N.ltb_lt. lia.
      * apply N.ltb_ge. lia.
Qed.

(** What a provider prints is read to its end and kept up to the cap, in whatever pieces it comes; it is
    known whether anything was dropped. *)
Theorem output_capped cap reads :
  read_capped cap reads = (stake (N.to_nat cap) (sconcat reads), cap <? slen (sconcat reads)).
Proof. unfold read_capped. rewrite read_capped_loop_spec by (change (slen "") with 0; lia). done. Qed.

(** ** Terminals handed back *)

Section handback.
Context (is_absolute_executable : string -> bool) (config : list string) (reply : forall c, Reply c).

Definition ran (program : string) (args : list string) : bool := succeeded (run_bounded (reply (Exec program args))).

Lemma performs_exec {B} program args (k : result ProviderExecError BoundedOutput -> prov B) :
  performs reply (exec program args ≫= k)
  = (Exec program args :: (performs reply (k (run_bounded (reply (Exec program args))))).1, (performs reply (k (run_bounded (reply (Exec program args))))).2).
Proof. rewrite performs_bind. done. Qed.

Lemma each_exit pids : (performs reply (each_done (fun pid => does (RequestExit pid)) pids)).1 = RequestExit <$> pids.
Proof.
  induction pids as [|pid pids IH]; [done|]. cbn [each_done fmap list_fmap]. rewrite performs_bind. cbn [fst].
  rewrite performs_bind. cbn [fst]. rewrite IH. cbn. by rewrite app_nil_r.
Qed.

(** A conversation is handed back only where its terminal is known to stand: the session was created, was
    given time to fail, and was still there; and it is taken back by asking what runs in it to exit, eight
    processes at most, before the terminal is ended. Without a valid name or an installed tmux nothing is run. *)
Theorem handback_stands request session :
  (let '(calls, handed_back) := performs reply (create_handback_session is_absolute_executable config request) in
   handed_back = true ->
   exists binary argv, WorkspaceConfig_resolve is_absolute_executable config ProviderTmux = Some binary /\ handback_argv request = Some argv
     /\ calls = [Exec binary argv; Settle; Exec binary ["has-session"; "-t"; "=" +:+ hr_session request]]
     /\ ran binary argv = true /\ ran binary ["has-session"; "-t"; "=" +:+ hr_session request] = true)
  /\ let '(calls, closed) := performs reply (close_handback_session is_absolute_executable config session) in
     match WorkspaceConfig_resolve is_absolute_executable config ProviderTmux with
     | Some binary =>
         if valid_session_name session then
           exists pids, (length pids <= 8)%nat
             /\ calls = (Exec binary ["list-panes"; "-t"; "=" +:+ session; "-F"; "#{pane_pid}"] :: (RequestExit <$> pids)
                         ++ [Exec binary ["kill-session"; "-t"; "=" +:+ session]])%list
             /\ closed = ran binary ["kill-session"; "-t"; "=" +:+ session]
         else calls = [] /\ closed = false
     | None => calls = [] /\ closed = false
     end.
Proof.
  split.
  - unfold create_handback_session. destruct (WorkspaceConfig_resolve _ _ _) as [binary|]; [|done].
    destruct (handback_argv request) as [argv|] eqn:Ha; [|done]. rewrite performs_exec.
    destruct (succeeded (run_bounded (reply (Exec binary argv)))) eqn:Hc; cbn [negb]; [|done].
    rewrite performs_bind. cbn [performs does fst snd app]. rewrite performs_exec. cbn [performs mret prov_ret fst snd]. intros Ht.
    exists binary, argv. by split_and!.
  - unfold close_handback_session. destruct (valid_session_name session); cbn [negb]; [|by destruct (WorkspaceConfig_resolve _ _ _)].
    destruct (WorkspaceConfig_resolve _ _ _) as [binary|]; [|done]. rewrite performs_exec, performs_bind, each_exit. cbn [fst snd]. rewrite performs_exec. cbn [fst snd performs mret prov_ret].
    eexists. split; [|split; reflexivity]. destruct (whole _ ≫= from_utf8) as [listing|]; [|cbn; lia]. unfold pane_pids. rewrite length_take. lia.
Qed.
End handback.
