(* ===== verification/HookCommon.v ===== *)
(** What the hooks of every vendor share ([hook_common.rs]): fields of their input, digests, bounded text and
    previews, and the event sized for the daemon that reads it. The hasher and [serde_json] are parameters. *)
From S2P Require Import Prelude Text HostProtocol Protocol PairingProtocol Downloads Output.

Local Open Scope string_scope.
Local Open Scope N_scope.

Definition MAX_PREVIEW_STRING_BYTES : N := 512.
Definition GENEROUS_PREVIEW_STRING_BYTES : N := 2048.
Definition MAX_ADDITIONAL_CONTEXT_BYTES : N := 8 * 1024.
Definition SESSION_START_SOURCES : list string := ["startup"; "resume"; "clear"; "compact"; "fork"].

(** ** Fields of the input *)

Definition object (value : Value) : result string (list (string * Value)) :=
  ok_or (as_object value) "hook input is not an object".

Definition required_string (object : list (string * Value)) (key : string) : result string string :=
  ok_or (value ← field key object ≫= as_str; if value =s? "" then None else Some value) "hook string field is missing".

Definition required_u64 (object : list (string * Value)) (key : string) : result string N :=
  ok_or (field key object ≫= as_u64) "hook integer field is missing".

Definition required_bool (object : list (string * Value)) (key : string) : result string bool :=
  ok_or (field key object ≫= as_bool) "hook boolean field is missing".

(** [read_bounded_stdin]: the reads, to the end. *)
Definition read_bounded_stdin (maximum_bytes : N) (reads : list string) : result string string :=
  let '(body, oversized) :=
    foldl (fun '(body, oversized) read =>
             if negb oversized && (slen body + slen read <=? maximum_bytes) then (body +:+ read, oversized) else (body, true))
          ("", false) reads in
  if oversized : bool then Err "hook input exceeded its byte bound" else Ok body.

Definition workspace_display (cwd : string) : string :=
  let display := match file_name cwd with Some name => if name =s? "" then "Workspace" else name | None => "Workspace" end in
  let sanitized := trim (sconcat (List.filter (fun c => negb (is_control c)) (chars display))) in
  (truncate_utf8 (if sanitized =s? "" then "Workspace" else sanitized) 256).1.

(** Whether the agent's context was rebuilt, and what is noted of a source nobody named. *)
Definition session_start_resets_context (object : list (string * Value)) : bool * option string :=
  match field "source" object ≫= as_str with
  | None => (false, None)
  | Some source => if source =s? "startup" then (false, None) else (true, if one_of source SESSION_START_SOURCES then None else Some source)
  end.

(** ** Digests *)

Section digest.
Context (sha256 : list N -> list N).

Definition keyed_digest (domain namespace value : string) : string :=
  hex (take 16 (sha256 (text_bytes domain ++ text_bytes namespace ++ [0] ++ be_bytes 8 (slen value) ++ text_bytes value)%list)).
End digest.

(** ** Bounded text *)

Definition no_truncation : Truncation := mkTruncation false None None.

Definition bounded_text (value : string) (maximum_bytes : N) : string * Truncation :=
  let '(text, truncated) := truncate_utf8 value maximum_bytes in
  (text, if truncated : bool then mkTruncation true (Some "adapter_bound") (Some (slen value)) else no_truncation).

(** The text, how it was cut, and whether it was. *)
Definition cut_named (text : string) (truncation : Truncation) (bound : N) : string * Truncation * bool :=
  let '(head, cut) := truncate_utf8 text bound in
  if cut : bool
  then (head, mkTruncation true (Some "adapter_bound") (Some (N.max (default 0 (tr_original_bytes truncation)) (slen text))), true)
  else (text, truncation, false).

(** ** Previews *)

Fixpoint cap_strings (cap : N) (value : Value) : Value :=
  match value with
  | Str text => Str (truncate_utf8 text cap).1
  | Array items => Array (cap_strings cap <$> items)
  | Object fields => Object ((fun '(key, item) => (key, cap_strings cap item)) <$> fields)
  | other => other
  end.

(** What [cap_strings] sets [clipped] to. *)
Fixpoint clips (cap : N) (value : Value) : bool :=
  match value with
  | Str text => cap <? slen text
  | Array items => existsb (clips cap) items
  | Object fields => existsb (fun '(_, item) => clips cap item) fields
  | _ => false
  end.

Section preview.
(** [serde_json::to_string]. *)
Context (to_string : Value -> option string).

(** The caps tried in turn. *)
Fixpoint capped_preview (value : Value) (limit : N) (caps : list N) : option string * bool :=
  match caps with
  | [] => (None, true)
  | cap :: caps =>
      match to_string (cap_strings cap value) with
      | None => (None, false)
      | Some text => if slen text <=? limit then (Some text, clips cap value) else capped_preview value limit caps
      end
  end.

Definition bounded_preview (value : option Value) (limit : N) : option string * bool :=
  match value with
  | None => (None, false)
  | Some value =>
      match to_string value with
      | None => (None, false)
      | Some whole =>
          if slen whole <=? limit then (Some whole, false)
          else capped_preview value limit [GENEROUS_PREVIEW_STRING_BYTES; MAX_PREVIEW_STRING_BYTES]
      end
  end.

(** [encoded_frame_len] of a document. *)
Definition encoded_len (value : Value) : N := match to_string value with Some text => slen text | None => u64_max end.

Definition preview_truncation (clipped : bool) (documents : list (option Value)) : Truncation :=
  if negb clipped then no_truncation
  else mkTruncation true (Some "preview_bounded") (Some (foldr N.add 0 (encoded_len <$> omap id documents))).
End preview.

(** ** What the daemon answers *)

Section answers.
(** [decode_agent_body] of a frame. *)
Context (decode_agent_body : string -> option Value).

Definition validate_response (body : string) (protocol_version : N) (expected_type : string) : result string Value :=
  let? value := ok_or (decode_agent_body body) "invalid hook response" in
  let? fields := object value in
  if bool_decide (field "v" fields ≫= as_u64 = Some protocol_version) && opt_is (field "type" fields ≫= as_str) expected_type
  then Ok value else Err "unexpected hook response".

Definition frame_grant (registered : Value) : option N :=
  bytes ← get "frame_bytes" registered ≫= as_u64; Some (N.max MAX_AGENT_FRAME_BYTES (N.min (N.min bytes u64_max) MAX_BRIDGE_FRAME_BYTES)).

(** What follows the event: the text the daemon has for the agent. *)
Definition additional_context (applied : Value) : result string (option string) :=
  match get "additional_context" applied with
  | None => Ok None
  | Some (Str text) =>
      if negb (text =s? "") && (slen text <=? MAX_ADDITIONAL_CONTEXT_BYTES) then Ok (Some text)
      else Err "hook acknowledgement carried invalid additional context"
  | Some _ => Err "hook acknowledgement carried invalid additional context"
  end.
End answers.
