(* ===== verification/AgentAdapter.v ===== *)
(** The boundary between the vendors' adapters and the sessions ([agent_adapter.rs]): the wire forms of entries
    and deltas, the frames a hook sends and is answered with, and the registration every attached hook makes.
    [serde_json] is a parameter. *)
From S2P Require Import Prelude Text Protocol Metadata Reconcile Timeline Registration Downloads Output HookCommon.

Local Open Scope string_scope.
Local Open Scope N_scope.

(** ** Entries and deltas *)

Record WireTimelineEntry := mkWireTimelineEntry {
  we_source_id : string; we_source_revision : N; we_timestamp : N; we_state : string; we_kind : string; we_body : TimelineBody;
  we_truncation : Truncation }.

Definition WireTimelineEntry_normalize (w : WireTimelineEntry) : result AgentProtocolError NormalizedTimelineEntry :=
  let entry := mkNormalizedTimelineEntry (we_source_id w) (we_source_revision w) (we_timestamp w) (we_state w) (we_kind w) (we_body w)
                 (we_truncation w) in
  NormalizedTimelineEntry_validate entry ?; Ok entry.

Record WireTextDelta := mkWireTextDelta {
  wd_source_id : string; wd_source_revision : N; wd_timestamp : N; wd_kind : string; wd_delta : string; wd_final_chunk : bool;
  wd_truncation : Truncation }.

Definition WireTextDelta_normalize (w : WireTextDelta) : result AgentProtocolError NormalizedTextDelta :=
  let delta := mkNormalizedTextDelta (wd_source_id w) (wd_source_revision w) (wd_timestamp w) (wd_kind w) (wd_delta w) (wd_final_chunk w)
                 (wd_truncation w) in
  NormalizedTextDelta_validate delta ?; Ok delta.

Inductive NormalizedAdapterEvent :=
| EvRegistration
| EvSnapshotStart
| EvSnapshotEntry (entry : NormalizedTimelineEntry)
| EvSnapshotEnd (history_complete : option bool)
| EvUpsertEntry (entry : NormalizedTimelineEntry)
| EvAppendText (delta : NormalizedTextDelta)
| EvHeartbeat
| EvContextReset
| EvWhereaboutsQuery (query_id : string)
| EvSessionEnded
| EvCommandCapabilities (commands : CommandCapabilities)
| EvPermissionMode (mode : string)
| EvModel (model : string)
| EvEffort (effort : string)
| EvModelCatalogue (models : list AgentModelOption)
| EvCommandReceipt (command_id state : string) (evidence reason_code : option string)
| EvVendorSession (vendor_session_id : string)
| EvTurn (turn : TurnState)
| EvUpsertInteraction (interaction : PendingInteraction)
| EvResolveInteraction (interaction_id resolution : string)
| EvShutdown (process_exited : bool)
| EvNotification (kind : string)
| EvUnknown.

(** ** Frames *)

Definition validate_frame_header (version protocol_version : N) (actual expected : string) : checked :=
  if negb (version =? protocol_version) then Err UnsupportedVersion
  else if negb (actual =s? expected) then Err UnexpectedMessage
  else Ok tt.

(** A frame with one payload: its version, its type and what it carries. *)
Record Frame (A : Type) := mkFrame { fm_v : N; fm_message_type : string; fm_payload : A }.
Arguments mkFrame {A}.
Arguments fm_v {A}.
Arguments fm_message_type {A}.
Arguments fm_payload {A}.

Section decode.
Context {A : Type} (from_value : Value -> option (Frame A)).

(** What the decoders of frames share: a frame of this shape, of this version and this type. *)
Definition decode_frame (value : Value) (protocol_version : N) (expected : string) : result AgentProtocolError A :=
  let? frame := ok_or (from_value value) MalformedJson in
  validate_frame_header (fm_v frame) protocol_version (fm_message_type frame) expected ?;
  Ok (fm_payload frame).
End decode.

(** The shapes a hook's frames are read as, [serde_json::from_value] at each. *)
Class HookShapes := {
  unit_of : Value -> option (Frame unit);
  entry_of : Value -> option (Frame WireTimelineEntry);
  delta_of : Value -> option (Frame WireTextDelta);
  kind_of : Value -> option (Frame string);
  turn_of : Value -> option (Frame TurnState) }.

Section frames.
Context `{HookShapes}.

Definition decode_unit_frame (value : Value) (protocol_version : N) (expected : string) : checked :=
  decode_frame unit_of value protocol_version expected.

Definition decode_entry_frame (value : Value) (protocol_version : N) (expected : string) : result AgentProtocolError WireTimelineEntry :=
  decode_frame entry_of value protocol_version expected.

Definition decode_delta_frame (value : Value) (protocol_version : N) : result AgentProtocolError WireTextDelta :=
  decode_frame delta_of value protocol_version "append_text".

Definition decode_notification_frame (value : Value) (protocol_version : N) : result AgentProtocolError string :=
  let? kind := decode_frame kind_of value protocol_version "notification" in
  valid_token kind ?; Ok kind.

Definition decode_turn_frame (value : Value) (protocol_version : N) : result AgentProtocolError TurnState :=
  let? turn := decode_frame turn_of value protocol_version "turn" in
  TurnState_validate turn ?; Ok turn.

(** [decode_bridge_body]. *)
Context (decode_bridge_body : string -> result AgentProtocolError Value).

Definition frame_type (body : string) : result AgentProtocolError (string * Value) :=
  let? value := decode_bridge_body body in
  let? message_type := ok_or (fields ← as_object value; field "type" fields ≫= as_str) MalformedJson in
  Ok (message_type, value).
End frames.

(** ** Registrations of attached hooks *)

Record AttachedHookDialect := mkAttachedHookDialect {
  di_adapter : string; di_family : string; di_pinned_version : string; di_carry : option (string -> bool); di_protocol_version : N;
  di_partial_reason : string; di_turn_reason_supported : string; di_turn_reason_unsupported : string }.

Record AttachedHookRegister := mkAttachedHookRegister {
  hr_v : N; hr_message_type : string; hr_adapter : string; hr_adapter_version : string; hr_mode : string; hr_session_id : string;
  hr_process_nonce : string; hr_process_id : N; hr_workspace_display : string; hr_workspace_path : string;
  hr_terminal_status_directory : option string }.

(** [Path::is_absolute]. *)
Definition is_absolute (path : string) : bool := starts_with path "/".

Definition foreign_status_directory (dialect : AttachedHookDialect) (directory : string) : bool :=
  negb (di_adapter dialect =s? "codex") || (4096 <? slen directory) || negb (is_absolute directory)
  || negb (opt_is (file_name directory) "tui-status") || existsb (Ascii.eqb "000") (String.list_ascii_of_string directory).

Definition registered_version (running : string) (dialect : AttachedHookDialect) : VendorVersionState :=
  let state := classify_vendor_version running (di_pinned_version dialect) in
  if match state with Unsupported => true | _ => false end && later_minor_of_tested_major running (di_pinned_version dialect)
     && match di_carry dialect with Some carry => carry running | None => false end
  then Carried else state.

Definition AttachedHookRegister_normalize (r : AttachedHookRegister) (peer_process_id : option N) (dialect : AttachedHookDialect)
  : result AgentProtocolError NormalizedRegistration :=
  refuse_if (negb (hr_v r =? di_protocol_version dialect) || negb (hr_message_type r =s? "register")
             || negb (hr_adapter r =s? di_adapter dialect) || negb (hr_mode r =s? "tui_hook") || (hr_process_id r =? 0)
             || negb (is_some peer_process_id)) InvalidValue ?;
  valid_opaque_id (hr_session_id r) ?;
  valid_opaque_id (hr_process_nonce r) ?;
  valid_token (hr_adapter_version r) ?;
  refuse_if ((slen (hr_workspace_display r) =? 0) || (256 <? slen (hr_workspace_display r))) InvalidValue ?;
  refuse_if (is_some_and (foreign_status_directory dialect) (hr_terminal_status_directory r)) InvalidValue ?;
  let state := registered_version (hr_adapter_version r) dialect in
  let compatible := VendorVersionState_admitted state in
  Ok (mkNormalizedRegistration None (hr_session_id r) (hr_process_nonce r) (hr_process_id r) None (di_family dialect) (hr_adapter_version r)
        "attached" compatible (VendorVersionState_token state) (di_pinned_version dialect) (hr_workspace_display r)
        (if is_absolute (hr_workspace_path r) then Some (hr_workspace_path r) else None)
        (mkObservation "partial" (if compatible then di_partial_reason dialect else "adapter_version_unsupported") None)
        (TurnUnknown (if compatible then di_turn_reason_supported dialect else di_turn_reason_unsupported dialect))
        (mkAgentCapabilities "live_tail" CommandCapabilities_none InteractionCapabilities_none "none" "unavailable")
        "terminal").

Record AgentSighting := mkAgentSighting { si_process_id : N; si_vendor_session_id : string; si_cwd : string }.

Definition readopted_hook_registration (dialect : AttachedHookDialect) (sighting : AgentSighting) (hook_nonce adapter_version : string)
  : result AgentProtocolError NormalizedRegistration :=
  AttachedHookRegister_normalize
    (mkAttachedHookRegister (di_protocol_version dialect) "register" (di_adapter dialect) adapter_version "tui_hook"
       (si_vendor_session_id sighting) hook_nonce (si_process_id sighting) (workspace_display (si_cwd sighting)) (si_cwd sighting) None)
    (Some (si_process_id sighting)) dialect.

(** ** Events sized for the daemon *)

Definition MAX_LIVE_TEXT_DELTA_BYTES : N := 16 * 1024.

Section sized.
(** [serde_json::to_string], and [from_value] and [to_value] of entries and deltas. *)
Context (to_string : Value -> option string) (entry_from : Value -> option WireTimelineEntry) (entry_to : WireTimelineEntry -> option Value)
  (delta_from : Value -> option WireTextDelta) (delta_to : WireTextDelta -> option Value).

(** A field of an object replaced, where [f] has something for it. *)
Definition edit_field (name : string) (f : Value -> option Value) (v : Value) : Value :=
  match v with
  | Object fields => Object ((fun '(key, item) => (key, if key =s? name then default item (f item) else item)) <$> fields)
  | other => other
  end.

(** The entry with its text cut to what every daemon takes; none where there is nothing to cut. *)
Definition cut_entry (slot : Value) : option Value :=
  entry ← entry_from slot;
  match we_body entry with
  | Protocol.Text text =>
      let '(text, truncation, cut) := cut_named text (we_truncation entry) MAX_TIMELINE_TEXT_BYTES in
      if cut : bool then
        entry_to (mkWireTimelineEntry (we_source_id entry) (we_source_revision entry) (we_timestamp entry) (we_state entry) (we_kind entry)
                    (Protocol.Text text) truncation)
      else None
  | _ => None
  end.

Definition cut_delta (slot : Value) : option Value :=
  delta ← delta_from slot;
  let '(text, truncation, cut) := cut_named (wd_delta delta) (wd_truncation delta) MAX_LIVE_TEXT_DELTA_BYTES in
  if cut : bool then
    delta_to (mkWireTextDelta (wd_source_id delta) (wd_source_revision delta) (wd_timestamp delta) (wd_kind delta) text (wd_final_chunk delta)
                truncation)
  else None.

Definition sized_for_daemon (event : Value) (grant : option N) : Value :=
  if is_some_and (fun bytes => encoded_len to_string event <=? bytes) grant then event
  else edit_field "delta" cut_delta (edit_field "entry" cut_entry event).
End sized.
