(* ===== verification/ClaudeHook.v ===== *)
(** Claude's hooks: what a payload becomes ([claude_hook.rs]) and how the daemon reads it ([claude_adapter.rs]).
    The hasher, [serde_json] and the clock are parameters. *)
From S2P Require Import Prelude Text Protocol Metadata Reconcile Timeline Registration Drift Downloads Output HookCommon AgentAdapter.

Local Open Scope string_scope.
Local Open Scope N_scope.

Definition PINNED_CLAUDE_VERSION : string := "2.1.222".
Definition CLAUDE_HOOK_PROTOCOL_VERSION : N := 1.
Definition CLAUDE_DIGEST_DOMAIN : string := "ciao-claude-hook-v1" +:+ String "000" "".

Definition SYNTHETIC_PROMPT_ENVELOPES : list string :=
  ["<task-notification>"; "<system-reminder>"; "<local-command-caveat>"; "<local-command-stdout>"; "<command-name>"; "<command-message>";
   "<bash-input>"; "<bash-stdout>"; "Another Claude session sent a message:"].

Definition is_synthetic_prompt (prompt : string) : bool :=
  existsb (starts_with (trim_start prompt)) SYNTHETIC_PROMPT_ENVELOPES.

Inductive ClaudeHookEventFrame :=
| HookHeartbeat (v : N) (unrecognized_event : option string) (context_reset : bool)
| HookUpsertEntry (v : N) (entry : WireTimelineEntry)
| HookAppendText (v : N) (delta : WireTextDelta)
| HookNotification (v : N) (kind : string)
| HookTurn (v : N) (turn : TurnState)
| HookSessionEnd (v : N).

Record HookRuntimeFacts := mkHookRuntimeFacts {
  hf_process_id : N; hf_process_nonce : string; hf_adapter_version : string; hf_environment_session_id : string }.

Record HookDispatch := mkHookDispatch {
  hd_registration : AttachedHookRegister; hd_event : ClaudeHookEventFrame; hd_turn : option TurnState }.

(** [DIALECT]. *)
Definition claude_dialect : AttachedHookDialect :=
  mkAttachedHookDialect "claude" "Claude" PINNED_CLAUDE_VERSION None CLAUDE_HOOK_PROTOCOL_VERSION "claude_hooks_partial"
    "claude_turn_unreported" "adapter_version_unsupported".

Section hook.
Context (sha256 : list N -> list N).

Definition opaque_digest (namespace value : string) : string :=
  "claude." +:+ namespace +:+ "." +:+ keyed_digest sha256 CLAUDE_DIGEST_DOMAIN namespace value.

Definition run_id (prompt_id : string) : string := opaque_digest "turn" prompt_id.

Definition process_nonce (process_id : N) : string := opaque_digest "process" (decimal process_id).

(** [serde_json::to_string], and what [unix_now] read. *)
Context (to_string : Value -> option string) (timestamp : N).

Definition heartbeat (unrecognized_event : option string) (context_reset : bool) : ClaudeHookEventFrame :=
  HookHeartbeat CLAUDE_HOOK_PROTOCOL_VERSION unrecognized_event context_reset.

Definition upsert_entry (entry : WireTimelineEntry) : ClaudeHookEventFrame := HookUpsertEntry CLAUDE_HOOK_PROTOCOL_VERSION entry.

Definition tool_event (fields : list (string * Value)) (state status : string) (source_revision : N) : result string ClaudeHookEventFrame :=
  let? tool_name := required_string fields "tool_name" in
  let? tool_use_id := required_string fields "tool_use_id" in
  let safe_name := if is_ok (valid_token tool_name) then tool_name else "unknown_tool" in
  let '(input_preview, input_clipped) := bounded_preview to_string (field "tool_input" fields) MAX_TOOL_INPUT_PREVIEW_BYTES in
  let '(result_preview, result_clipped) := bounded_preview to_string (field "tool_response" fields) MAX_TOOL_RESULT_PREVIEW_BYTES in
  let truncation := preview_truncation to_string (input_clipped || result_clipped) [field "tool_input" fields; field "tool_response" fields] in
  Ok (upsert_entry (mkWireTimelineEntry (opaque_digest "tool" tool_use_id) source_revision timestamp state "tool"
                      (Tool (mkToolTimelineBody safe_name status input_preview result_preview)) truncation)).

(** The event a payload carries and the turn it opens or closes, by the event's name. *)
Definition hook_event (fields : list (string * Value)) (session_id event_name : string)
  : result string (ClaudeHookEventFrame * option TurnState) :=
  if event_name =s? "SessionStart" then Ok (heartbeat None (session_start_resets_context fields).1, None)
  else if one_of event_name ["PreCompact"; "PostCompact"] then Ok (heartbeat None false, None)
  else if event_name =s? "Stop" then
    let closed := prompt_id ← field "prompt_id" fields ≫= as_str;
                  if is_ok (valid_opaque_id (run_id prompt_id)) then Some (run_id prompt_id) else None in
    Ok (heartbeat None false, Some (Completed closed))
  else if event_name =s? "UserPromptSubmit" then
    let? prompt := required_string fields "prompt" in
    if is_synthetic_prompt prompt then Ok (heartbeat None false, None)
    else
      let? prompt_id := required_string fields "prompt_id" in
      let '(text, truncation) := bounded_text prompt MAX_RETAINED_TEXT_BYTES in
      Ok (upsert_entry (mkWireTimelineEntry (opaque_digest "prompt" prompt_id) 1 timestamp "complete" "user_message" (Protocol.Text text) truncation),
          Some (Running (run_id prompt_id) "responding"))
  else if event_name =s? "MessageDisplay" then
    let? message_id := required_string fields "message_id" in
    let? index := required_u64 fields "index" in
    let? final_chunk := required_bool fields "final" in
    let? whole := required_string fields "delta" in
    let '(delta, truncation) := bounded_text whole MAX_RETAINED_TEXT_BYTES in
    let? source_revision := if index <? u64_max then Ok (index + 1) else Err "Claude display index overflowed" in
    Ok (HookAppendText CLAUDE_HOOK_PROTOCOL_VERSION
          (mkWireTextDelta (opaque_digest "message" message_id) source_revision timestamp "assistant_message" delta final_chunk truncation), None)
  else if event_name =s? "Notification" then
    let? kind := match field "notification_type" fields with
                 | None => Ok "unspecified"
                 | Some value => ok_or (kind ← as_str value; if is_ok (valid_token kind) then Some kind else None)
                                       "Claude notification type is invalid"
                 end in
    Ok (HookNotification CLAUDE_HOOK_PROTOCOL_VERSION kind, None)
  else if event_name =s? "PreToolUse" then let? event := tool_event fields "streaming" "running" 1 in Ok (event, None)
  else if event_name =s? "PostToolUse" then let? event := tool_event fields "complete" "completed" 2 in Ok (event, None)
  else if event_name =s? "PostToolUseFailure" then let? event := tool_event fields "failed" "failed" 2 in Ok (event, None)
  else if event_name =s? "StopFailure" then
    let correlation := default session_id (field "prompt_id" fields ≫= as_str) in
    Ok (upsert_entry (mkWireTimelineEntry (opaque_digest "stop_failure" correlation) 1 timestamp "failed" "unsupported"
                        (BodyUnsupported "claude_stop_failure") no_truncation), None)
  else if event_name =s? "SessionEnd" then Ok (HookSessionEnd CLAUDE_HOOK_PROTOCOL_VERSION, None)
  else Ok (heartbeat (Some (sanitize_name event_name)) false, None).

Definition map_hook_input (value : Value) (facts : HookRuntimeFacts) : result string (option HookDispatch) :=
  let? fields := object value in
  let? session_id := required_string fields "session_id" in
  refuse_if (negb (is_ok (valid_opaque_id session_id))) "Claude session ID is invalid" ?;
  refuse_if (negb (session_id =s? hf_environment_session_id facts)) "Claude hook session identity mismatched its environment" ?;
  if is_some (field "agent_id" fields) then Ok None
  else
    let? cwd := required_string fields "cwd" in
    let? event_name := required_string fields "hook_event_name" in
    let? dispatched :=
      if negb (VendorVersionState_admitted (classify_vendor_version (hf_adapter_version facts) PINNED_CLAUDE_VERSION))
      then Ok (heartbeat None false, None)
      else hook_event fields session_id event_name in
    let '(event, turn) := dispatched in
    Ok (Some (mkHookDispatch
                (mkAttachedHookRegister CLAUDE_HOOK_PROTOCOL_VERSION "register" "claude" (hf_adapter_version facts) "tui_hook" session_id
                   (hf_process_nonce facts) (hf_process_id facts) (workspace_display cwd) cwd None)
                event turn)).
End hook.

(** ** The daemon's side *)

Section adapter.
(** [decode_bridge_body], and what [serde_json] reads as a registration and as a heartbeat. *)
Context `{HookShapes} (decode_bridge_body : string -> result AgentProtocolError Value).
Context (register_of : Value -> option AttachedHookRegister) (heartbeat_of : Value -> option (Frame (option string * bool))).

Definition decode_heartbeat_frame (value : Value) : result AgentProtocolError (option string * bool) :=
  decode_frame heartbeat_of value CLAUDE_HOOK_PROTOCOL_VERSION "heartbeat".

Definition decode_registration (body : string) (peer_process_id : option N) : result AgentProtocolError NormalizedRegistration :=
  let? typed := frame_type decode_bridge_body body in
  let '(message_type, value) := typed in
  refuse_if (negb (message_type =s? "register")) UnexpectedMessage ?;
  let? register := ok_or (register_of value) MalformedJson in
  AttachedHookRegister_normalize register peer_process_id claude_dialect.

(** The event, and the drift it names. *)
Definition decode_event (body : string) : result AgentProtocolError (NormalizedAdapterEvent * option string) :=
  let? typed := frame_type decode_bridge_body body in
  let '(message_type, value) := typed in
  if message_type =s? "register" then let? _ := ok_or (register_of value) MalformedJson in Ok (EvRegistration, None)
  else if message_type =s? "heartbeat" then
    let? beat := decode_heartbeat_frame value in
    let '(unrecognized, context_reset) := beat in
    Ok (if context_reset : bool then EvContextReset else EvHeartbeat, unrecognized)
  else if message_type =s? "upsert_entry" then
    let? wire := decode_entry_frame value CLAUDE_HOOK_PROTOCOL_VERSION "upsert_entry" in
    let? entry := WireTimelineEntry_normalize wire in
    Ok (EvUpsertEntry entry, None)
  else if message_type =s? "append_text" then
    let? wire := decode_delta_frame value CLAUDE_HOOK_PROTOCOL_VERSION in
    let? delta := WireTextDelta_normalize wire in
    Ok (EvAppendText delta, None)
  else if message_type =s? "notification" then
    let? kind := decode_notification_frame value CLAUDE_HOOK_PROTOCOL_VERSION in Ok (EvNotification kind, None)
  else if message_type =s? "turn" then
    let? turn := decode_turn_frame value CLAUDE_HOOK_PROTOCOL_VERSION in Ok (EvTurn turn, None)
  else if message_type =s? "session_end" then
    decode_unit_frame value CLAUDE_HOOK_PROTOCOL_VERSION "session_end" ?; Ok (EvSessionEnded, None)
  else Ok (EvUnknown, None).
End adapter.
