(* ===== verification/ClaudeHistory.v ===== *)
(** Claude's transcript mapped into the canonical timeline ([claude_history.rs]): the records read line by line,
    the mapper that keeps the newest entries within its bounds, and what a reconcile makes of the result. The
    file, [serde_json], the hasher and the clock are parameters. *)
From S2P Require Import Prelude Text Protocol Metadata Reconcile Timeline Whereabouts Output HookCommon AgentAdapter ClaudeHook.

Local Open Scope string_scope.
Local Open Scope N_scope.

Definition BACKFILL_READ_BYTES : N := 64 * 1024 * 1024.
Definition TURN_READ_BYTES : N := 8 * 1024 * 1024.
Definition MAX_RECORD_BYTES : N := 8 * 1024 * 1024.
Definition MAX_HISTORY_ENTRIES : N := 4096.
Definition MAX_HISTORY_BYTES : N := 4 * 1024 * 1024.
Definition HISTORY_TEXT_BYTES : N := MAX_RETAINED_TEXT_BYTES.
Definition LIVE_DISPLAY_PREFIX : string := "claude.message.".

Definition METADATA_RECORD_TYPES : list string :=
  ["agent-name"; "agent-setting"; "ai-title"; "artifact-autoreact-ledger"; "artifact-comment-monitor"; "atis-latch"; "attachment";
   "bridge-session"; "continued-in"; "cost-state"; "custom-title"; "file-history-delta"; "file-history-snapshot"; "frame-link";
   "history-suppression"; "last-prompt"; "mode"; "permission-mode"; "pr-link"; "progress"; "queue-operation"; "relocated"; "summary";
   "system"; "worktree-state"].

Definition GROUNDED_CONTENT_BLOCKS : list string := ["text"; "thinking"; "redacted_thinking"; "tool_use"; "tool_result"; "image"].

Inductive SourceScheme := AttachedScheme | ManagedScheme.

Record TranscriptHistory := mkTranscriptHistory {
  th_entries : list NormalizedTimelineEntry; th_complete : bool; th_turn_prompts : gmap string string }.

(** From the first entry the predicate holds of, if there is one. *)
Fixpoint from_first {A} (p : A -> bool) (l : list A) : option (list A) :=
  match l with
  | [] => None
  | x :: rest => if p x then Some l else from_first p rest
  end.

Definition into_turn (run_id : option string) (history : TranscriptHistory) : list NormalizedTimelineEntry * bool :=
  match run_id ≫= fun run_id => th_turn_prompts history !! run_id with
  | Some prompt =>
      match from_first (fun entry => ne_source_id entry =s? prompt) (th_entries history) with
      | Some rest => (rest, true)
      | None => (th_entries history, false)
      end
  | None => (th_entries history, false)
  end.

Definition live_only_prefix (scheme : SourceScheme) : option string :=
  match scheme with AttachedScheme => Some LIVE_DISPLAY_PREFIX | ManagedScheme => None end.

(** The set of sessions already read, after the claim, and whether this one had not been. *)
Definition claim (session_id : string) (process_generation : N) (claimed : gset string) : gset string * bool :=
  let claimed := if 512 <? N.of_nat (size claimed) then ∅ else claimed in
  let key := session_id +:+ ":" +:+ decimal process_generation in
  ({[key]} ∪ claimed, negb (bool_decide (key ∈ claimed))).

(** ** Records *)

(** JavaScript truthiness. *)
Definition truthy (value : option Value) : bool :=
  match value with
  | None | Some Null => false
  | Some (Bool flag) => flag
  | Some (Number (PosInt n)) => negb (n =? 0)
  | Some (Number (NegInt magnitude)) => negb (magnitude =? 0)
  | Some (Number (Float bits)) => negb (bits mod 2 ^ 63 =? 0)
  | Some (Str text) => negb (text =s? "")
  | Some (Array _ | Object _) => true
  end.

Definition str_of (name : string) (value : Value) : option string := get name value ≫= as_str.

(** What is noted in the drift ledger: kind and name. *)
Definition note : Type := string * string.

Definition conversation_record (record : Value) : bool * list note :=
  match str_of "type" record with
  | None => (false, [("invalid", "type")])
  | Some record_type =>
      if one_of record_type ["user"; "assistant"] then
        (is_some (str_of "uuid" record) && negb (truthy (get "isMeta" record)) && negb (truthy (get "isSidechain" record))
         && negb (truthy (get "teamName" record)) && negb (truthy (get "isCompactSummary" record)), [])
      else if one_of record_type METADATA_RECORD_TYPES then (false, [])
      else (false, [("unknown_record", record_type)])
  end.

Definition note_content (block_type : option string) : list note :=
  match block_type with
  | Some name => if one_of name GROUNDED_CONTENT_BLOCKS then [] else [("unknown_content", name)]
  | None => [("invalid", "content_block")]
  end.

Definition text_from_content (content : option Value) : string :=
  match content with
  | Some (Str text) => text
  | Some (Array blocks) => sconcat (omap (str_of "text") (List.filter (fun block => opt_is (str_of "type" block) "text") blocks))
  | _ => ""
  end.

(** ** Instants *)

Definition sub (s : string) (from until : nat) : string := stake (until - from) (sdrop from s).

(** [digits] of a range: none, unless all of it is there and is digits. *)
Definition digits (s : string) (from until : nat) : option Z :=
  let slice := sub s from until in
  if (String.length s <? until)%nat || (slice =s? "") || negb (sall is_ascii_digit slice) then None
  else Z.of_N <$> parse_digits 0 slice.

Definition byte_is (s : string) (index : nat) (c : ascii) : bool := bool_decide (shead (sdrop index s) = Some c).

Fixpoint skip_digits (s : string) : string :=
  match s with
  | String b s' => if is_ascii_digit b then skip_digits s' else s
  | EmptyString => EmptyString
  end.

(** Past the fraction of a second, if there is one. *)
Definition after_fraction (rest : string) : option string :=
  match rest with
  | String "." fraction =>
      let rest := skip_digits fraction in if (String.length rest =? String.length fraction)%nat then None else Some rest
  | _ => Some rest
  end.

Definition offset_seconds (rest : string) : option Z :=
  match rest with
  | String "Z" "" | String "z" "" => Some 0%Z
  | String sign _ =>
      if (Ascii.eqb sign "+" || Ascii.eqb sign "-") && (slen rest =? 6) && byte_is rest 3 ":" then
        hours ← digits rest 1 3;
        minutes ← digits rest 4 6;
        let magnitude := (hours * 3600 + minutes * 60)%Z in
        Some (if Ascii.eqb sign "+" then magnitude else (- magnitude)%Z)
      else None
  | "" => None
  end.

(** Days from the civil calendar. *)
Definition days_from_civil (year month day : Z) : Z :=
  (let shifted := if month <=? 2 then year - 1 else year in
   let era := shifted / 400 in
   let year_of_era := shifted - era * 400 in
   let month_index := (month + 9) mod 12 in
   let day_of_year := (153 * month_index + 2) / 5 + day - 1 in
   let day_of_era := year_of_era * 365 + year_of_era / 4 - year_of_era / 100 + day_of_year in
   era * 146097 + day_of_era - 719468)%Z.

Definition rfc3339_seconds (value : string) : option N :=
  if (slen value <? 20) || negb (byte_is value 4 "-") || negb (byte_is value 7 "-") || negb (byte_is value 10 "T" || byte_is value 10 "t")
     || negb (byte_is value 13 ":") || negb (byte_is value 16 ":")
  then None
  else
    year ← digits value 0 4;
    month ← digits value 5 7;
    day ← digits value 8 10;
    hour ← digits value 11 13;
    minute ← digits value 14 16;
    second ← digits value 17 19;
    if (negb ((1 <=? month) && (month <=? 12)) || negb ((1 <=? day) && (day <=? 31)) || (23 <? hour) || (59 <? minute) || (60 <? second))%Z
    then None
    else
      rest ← after_fraction (sdrop 19 value);
      offset ← offset_seconds rest;
      let seconds := (days_from_civil year month day * 86400 + hour * 3600 + minute * 60 + second - offset)%Z in
      if (0 <=? seconds)%Z then Some (Z.to_N seconds) else None.

(** ** Bodies *)

Record MappedBody := mkMappedBody { mb_body : TimelineBody; mb_truncation : Truncation }.

Definition named_cut (truncated : bool) (reason : string) (original_bytes : N) : Truncation :=
  if negb truncated then no_truncation
  else mkTruncation true (Some reason) (if 0 <? original_bytes then Some original_bytes else None).

Record Bounded := mkBounded { bd_text : option string; bd_truncated : bool; bd_original_bytes : N }.

Definition bounded_prose (text : string) (limit : N) : Bounded :=
  let '(cut, truncated) := truncate_utf8 text limit in mkBounded (Some cut) truncated (slen text).

Definition text_body (text : string) : MappedBody :=
  let bounded := bounded_prose text HISTORY_TEXT_BYTES in
  mkMappedBody (Protocol.Text (default "" (bd_text bounded))) (named_cut (bd_truncated bounded) "adapter_bound" (bd_original_bytes bounded)).

Definition unsupported_body (reason_code : string) : MappedBody := mkMappedBody (BodyUnsupported reason_code) no_truncation.

(** [char::len_utf16]. *)
Definition len_utf16 (c : string) : nat := if (String.length c =? 4)%nat then 2 else 1.

Definition token_char (c : string) : bool :=
  match c with String b "" => is_ascii_alphanumeric b || existsb (Ascii.eqb b) ["."; "_"; "-"]%char | _ => false end.

(** ** The mapper *)

Record Slot := mkSlot { sl_entry : NormalizedTimelineEntry; sl_bytes : N }.

Record HistoryMapper := mkHistoryMapper {
  hm_slots : list Slot;
  hm_base : nat;
  hm_by_source : gmap string nat;
  hm_evicted : gset string;
  hm_bytes : N;
  hm_prompts : gset string;
  hm_turn_prompts : gmap string string;
  hm_messages : N;
  hm_truncated : bool }.

Definition HistoryMapper_new : HistoryMapper := mkHistoryMapper [] 0 ∅ ∅ 0 ∅ ∅ 0 false.

Definition set_slots (slots : list Slot) (bytes : N) (m : HistoryMapper) : HistoryMapper :=
  mkHistoryMapper slots (hm_base m) (hm_by_source m) (hm_evicted m) bytes (hm_prompts m) (hm_turn_prompts m) (hm_messages m) (hm_truncated m).

Definition set_truncated (truncated : bool) (m : HistoryMapper) : HistoryMapper :=
  mkHistoryMapper (hm_slots m) (hm_base m) (hm_by_source m) (hm_evicted m) (hm_bytes m) (hm_prompts m) (hm_turn_prompts m) (hm_messages m) truncated.

(** [evict_oldest]; none where the count of bytes would fall below zero. *)
Definition evict_oldest (m : HistoryMapper) : option HistoryMapper :=
  match hm_slots m with
  | [] => Some m
  | slot :: slots =>
      let source := ne_source_id (sl_entry slot) in
      if hm_bytes m <? sl_bytes slot then None
      else Some (mkHistoryMapper slots (S (hm_base m)) (delete source (hm_by_source m)) ({[source]} ∪ hm_evicted m) (hm_bytes m - sl_bytes slot)
                   (hm_prompts m) (hm_turn_prompts m) (hm_messages m) true)
  end.

Definition over_bounds (m : HistoryMapper) : bool := (MAX_HISTORY_ENTRIES <? len (hm_slots m)) || (MAX_HISTORY_BYTES <? hm_bytes m).

(** The loop that evicts while [over]; none where it would not end. *)
Fixpoint evict_while (over : HistoryMapper -> bool) (fuel : nat) (m : HistoryMapper) : option HistoryMapper :=
  if over m then match fuel with O => None | S fuel => evict_oldest m ≫= evict_while over fuel end else Some m.

Section mapper.
(** [serde_json::to_string] and [from_str], what [to_vec] makes of an entry, the hasher, what the clock reads at
    each message, and what is known of the file's age. *)
Context (to_string : Value -> option string) (from_str : string -> option Value) (to_vec : WireTimelineEntry -> option string)
  (sha256 : list N -> list N) (unix_now : N -> N) (scheme : SourceScheme) (created_at_ms : option N).
(** When the mapper evicts: [over_bounds]. *)
Context (over : HistoryMapper -> bool).

Definition bounded_json (serialized : string) (limit : N) : Bounded :=
  match from_str serialized with
  | None => bounded_prose serialized limit
  | Some document =>
      if slen serialized <=? limit then mkBounded (Some serialized) false (slen serialized)
      else mkBounded (bounded_preview to_string (Some document) limit).1 true (slen serialized)
  end.

Definition tool_body (name status : string) (input result : option string) : MappedBody :=
  let input := (fun input => bounded_json input MAX_TOOL_INPUT_PREVIEW_BYTES) <$> input in
  let result := (fun result => bounded_prose result MAX_TOOL_RESULT_PREVIEW_BYTES) <$> result in
  let truncated := is_some_and bd_truncated input || is_some_and bd_truncated result in
  let original_bytes := default 0 (bd_original_bytes <$> input) + default 0 (bd_original_bytes <$> result) in
  mkMappedBody (Tool (mkToolTimelineBody name status (input ≫= bd_text) (result ≫= bd_text))) (named_cut truncated "preview_bounded" original_bytes).

Definition safe_tool_name (name : option Value) : string :=
  let raw := match name with
             | None | Some Null => "tool"
             | Some (Str text) => text
             | Some other => default "" (to_string other)
             end in
  let token := stake 64 (sconcat ((fun c => if token_char c then c else String.concat "" (replicate (len_utf16 c) "_"%string)) <$> chars raw)) in
  if token =s? "" then "tool" else token.

Definition json_text (value : option Value) : string :=
  match value with None | Some Null => "{}" | Some value => default "" (to_string value) end.

Definition managed_source_id (prefix key : string) : string :=
  let raw := prefix +:+ "-" +:+ key in
  if (slen raw <=? 128) && sall (fun b => is_ascii_alphanumeric b || existsb (Ascii.eqb b) ["."; "_"; ":"; "-"]%char) raw then raw
  else prefix +:+ "-" +:+ stake 32 (hex (sha256 (PairingProtocol.text_bytes raw))).

Definition entry_bytes (entry : NormalizedTimelineEntry) : N :=
  match to_vec (mkWireTimelineEntry (ne_source_id entry) (ne_source_revision entry) (ne_timestamp entry) (ne_state entry) (ne_kind entry)
                  (ne_body entry) (ne_truncation entry)) with
  | Some bytes => slen bytes
  | None => u64_max / 2
  end.

Definition timestamp (record : Value) (index : N) : N :=
  match str_of "timestamp" record ≫= rfc3339_seconds with
  | Some seconds => N.max seconds 1
  | None => sat_add64 (N.max (match created_at_ms with Some created => created / 1000 | None => unix_now index end) 1) index
  end.

Definition source (prefix key : string) : string :=
  match scheme with
  | ManagedScheme => managed_source_id prefix key
  | AttachedScheme => if prefix =s? "assistant" then opaque_digest sha256 "reply" key else opaque_digest sha256 prefix key
  end.

Definition user_source (record : Value) (uuid : string) (m : HistoryMapper) : HistoryMapper * string :=
  match scheme, str_of "promptId" record with
  | AttachedScheme, Some prompt_id =>
      if bool_decide (prompt_id ∈ hm_prompts m) then (m, source "user" uuid)
      else
        let source := opaque_digest sha256 "prompt" prompt_id in
        (mkHistoryMapper (hm_slots m) (hm_base m) (hm_by_source m) (hm_evicted m) (hm_bytes m) ({[prompt_id]} ∪ hm_prompts m)
           (<[run_id sha256 prompt_id := source]> (hm_turn_prompts m)) (hm_messages m) (hm_truncated m), source)
  | _, _ => (m, source "user" uuid)
  end.

(** The row of a source updated, or a new one; none where an index would be out of range or a count below zero. *)
Definition put (source : string) (timestamp : N) (kind : string) (body : MappedBody) (m : HistoryMapper) : option HistoryMapper :=
  match hm_by_source m !! source with
  | Some index =>
      if (index <? hm_base m)%nat then None
      else
        slot ← hm_slots m !! (index - hm_base m)%nat;
        let old := sl_entry slot in
        let entry := mkNormalizedTimelineEntry (ne_source_id old) (sat_add64 (ne_source_revision old) 1) timestamp "complete" kind
                       (mb_body body) (mb_truncation body) in
        let bytes := entry_bytes entry in
        if hm_bytes m <? sl_bytes slot then None
        else Some (set_slots (<[(index - hm_base m)%nat := mkSlot entry bytes]> (hm_slots m)) (hm_bytes m - sl_bytes slot + bytes) m)
  | None =>
      let entry := mkNormalizedTimelineEntry source 1 timestamp "complete" kind (mb_body body) (mb_truncation body) in
      let bytes := entry_bytes entry in
      Some (mkHistoryMapper (hm_slots m ++ [mkSlot entry bytes]) (hm_base m)
              (<[source := (hm_base m + length (hm_slots m))%nat]> (hm_by_source m)) (hm_evicted m) (hm_bytes m + bytes) (hm_prompts m)
              (hm_turn_prompts m) (hm_messages m) (hm_truncated m))
  end.

Definition upsert (source : string) (timestamp : N) (kind : string) (body : MappedBody) (m : HistoryMapper) : option HistoryMapper :=
  if bool_decide (source ∈ hm_evicted m) then Some m
  else m ← put source timestamp kind body m; evict_while over (length (hm_slots m)) m.

(** The row a source has. *)
Definition existing (source : string) (m : HistoryMapper) : option (option NormalizedTimelineEntry) :=
  match hm_by_source m !! source with
  | None => Some None
  | Some index => if (index <? hm_base m)%nat then None else slot ← hm_slots m !! (index - hm_base m)%nat; Some (Some (sl_entry slot))
  end.

Definition tool_of (entry : NormalizedTimelineEntry) : option ToolTimelineBody := match ne_body entry with Tool tool => Some tool | _ => None end.

(** What a call's row becomes: what is new of it, and what it had of the rest. *)
Definition tool_update (name : option string) (status : string) (input result : option string) (row : option NormalizedTimelineEntry) : MappedBody :=
  let previous := row ≫= tool_of in
  let effective_status :=
    match previous with
    | Some previous => if (status =s? "running") && one_of (tb_status previous) ["complete"; "failed"] then tb_status previous else status
    | None => status
    end in
  let body := tool_body (default "tool" (match name with Some name => Some name | None => tb_name <$> previous end)) effective_status
                (match input with Some input => Some input | None => previous ≫= tb_input_preview end)
                (match result with Some result => Some result | None => previous ≫= tb_result_preview end) in
  match row with
  | Some row => if tr_truncated (ne_truncation row) && negb (tr_truncated (mb_truncation body)) then mkMappedBody (mb_body body) (ne_truncation row) else body
  | None => body
  end.

Definition upsert_tool (source : string) (timestamp : N) (name : option string) (status : string) (input result : option string)
    (m : HistoryMapper) : option HistoryMapper :=
  if bool_decide (source ∈ hm_evicted m) then Some m
  else row ← existing source m; upsert source timestamp "tool" (tool_update name status input result row) m.

(** What each block of a message does, with its index; and what is noted. *)
Fixpoint each_block (f : N -> Value -> HistoryMapper -> option (HistoryMapper * list note)) (index : N) (blocks : list Value) (m : HistoryMapper)
  : option (HistoryMapper * list note) :=
  match blocks with
  | [] => Some (m, [])
  | block :: blocks =>
      '(m, first) ← f index block m;
      '(m, others) ← each_block f (index + 1) blocks m;
      Some (m, (first ++ others)%list)
  end.

Definition unsupported_block (uuid : string) (at_ : N) (block_type : option string) (index : N) (m : HistoryMapper)
  : option (HistoryMapper * list note) :=
  m ← upsert (source "unsupported" (uuid +:+ "-" +:+ decimal index)) at_ "unsupported" (unsupported_body "claude_history_content") m;
  Some (m, note_content block_type).

Definition unsupported_message (uuid : string) (at_ : N) (m : HistoryMapper) : option (HistoryMapper * list note) :=
  m ← upsert (source "unsupported" uuid) at_ "unsupported" (unsupported_body "claude_history_message") m;
  Some (m, []).

Definition user_block (uuid : string) (at_ : N) (index : N) (block : Value) (m : HistoryMapper) : option (HistoryMapper * list note) :=
  let block_type := str_of "type" block in
  if opt_is block_type "text" then Some (m, [])
  else
    match str_of "tool_use_id" block with
    | Some tool_use_id =>
        if opt_is block_type "tool_result" then
          let status := match get "is_error" block with Some (Bool true) => "failed" | _ => "complete" end in
          m ← upsert_tool (source "tool" tool_use_id) at_ None status None (Some (text_from_content (get "content" block))) m;
          Some (m, [])
        else unsupported_block uuid at_ block_type index m
    | None => unsupported_block uuid at_ block_type index m
    end.

Definition assistant_block (uuid : string) (at_ : N) (index : N) (block : Value) (m : HistoryMapper) : option (HistoryMapper * list note) :=
  let block_type := str_of "type" block in
  if is_some_and (fun name => one_of name ["thinking"; "redacted_thinking"; "text"]) block_type then Some (m, [])
  else
    match str_of "id" block with
    | Some id =>
        if opt_is block_type "tool_use" then
          m ← upsert_tool (source "tool" id) at_ (Some (safe_tool_name (get "name" block))) "running" (Some (json_text (get "input" block))) None m;
          Some (m, [])
        else unsupported_block uuid at_ block_type index m
    | None => unsupported_block uuid at_ block_type index m
    end.

Definition push_record (record : Value) (m : HistoryMapper) : option (HistoryMapper * list note) :=
  let '(conversation, noted) := conversation_record record in
  if negb conversation then Some (m, noted)
  else
    let index := hm_messages m in
    let m := mkHistoryMapper (hm_slots m) (hm_base m) (hm_by_source m) (hm_evicted m) (hm_bytes m) (hm_prompts m) (hm_turn_prompts m) (index + 1)
               (hm_truncated m) in
    let at_ := timestamp record index in
    let uuid := default "" (str_of "uuid" record) in
    let message := message ← get "message" record; if is_some (as_object message) then Some message else None in
    let content := message ≫= get "content" in
    let text := text_from_content content in
    if opt_is (str_of "type" record) "user" then
      m ← (if negb (text =s? "") && negb (is_synthetic_prompt text) then
             let '(m, source) := user_source record uuid m in upsert source at_ "user_message" (text_body text) m
           else Some m);
      match content with
      | Some (Array blocks) => each_block (user_block uuid at_) 0 blocks m
      | None | Some (Str _) => Some (m, [])
      | Some _ => unsupported_message uuid at_ m
      end
    else
      m ← (if negb (text =s? "") then
             upsert (source "assistant" (default uuid (message ≫= str_of "id"))) at_ "assistant_message" (text_body text) m
           else Some m);
      match content with
      | Some (Array blocks) => each_block (assistant_block uuid at_) 0 blocks m
      | None | Some (Str _) => Some (m, [])
      | Some _ => unsupported_message uuid at_ m
      end.

(** [hole]: everything before it goes. *)
Definition hole (m : HistoryMapper) : option HistoryMapper :=
  set_truncated true <$> evict_while (fun m => negb (len (hm_slots m) =? 0)) (length (hm_slots m)) m.

(** A call with no result is no longer running. *)
Definition settle (entry : NormalizedTimelineEntry) : NormalizedTimelineEntry :=
  match ne_body entry with
  | Tool tool =>
      if tb_status tool =s? "running" then
        mkNormalizedTimelineEntry (ne_source_id entry) (ne_source_revision entry) (ne_timestamp entry) (ne_state entry) (ne_kind entry)
          (Tool (mkToolTimelineBody (tb_name tool) "unknown" (tb_input_preview tool) (tb_result_preview tool))) (ne_truncation entry)
      else entry
  | _ => entry
  end.

Definition finish (m : HistoryMapper) : TranscriptHistory :=
  let '(entries, truncated) :=
    foldl (fun '(entries, truncated) entry =>
             if is_ok (NormalizedTimelineEntry_validate entry) then ((entries ++ [entry])%list, truncated) else ([], true))
      ([], hm_truncated m) (settle ∘ sl_entry <$> hm_slots m) in
  mkTranscriptHistory entries (negb truncated) (hm_turn_prompts m).
End mapper.

(** ** The file *)

Inductive Line := LineRecord (line : string) (terminated : bool) | LineOversized | LineEnd.

(** [read_bounded_line] of what the reader's buffer holds from one fill to the next; none where a read fails. *)
Fixpoint read_bounded_line (limit : N) (line : string) (oversized read_any : bool) (reads : list (result unit string))
  : option (Line * list (result unit string)) :=
  match reads with
  | Err _ :: _ => None
  | Ok available :: later =>
      if available =s? "" then Some (if read_any then if oversized then LineOversized else LineRecord line false else LineEnd, later)
      else
        let '(chunk, rest) := match split_once "010" available with
                              | Some (chunk, rest) => (chunk, Some rest)
                              | None => (available, None)
                              end in
        let '(line, oversized) :=
          if oversized then (line, true) else if limit <? slen line + slen chunk then ("", true) else (line +:+ chunk, false) in
        match rest with
        | Some rest => Some (if oversized : bool then LineOversized else LineRecord line true, if rest =s? "" then later else Ok rest :: later)
        | None => read_bounded_line limit line oversized true later
        end
  | [] => Some (if read_any then if oversized then LineOversized else LineRecord line false else LineEnd, [])
  end.

Definition next_line (reads : list (result unit string)) : option (Line * list (result unit string)) :=
  read_bounded_line MAX_RECORD_BYTES "" false false reads.

(** What is left to read, a byte for the end. *)
Definition unread (reads : list (result unit string)) : nat :=
  foldr (fun read rest => (match read with Ok bytes => S (String.length bytes) | Err _ => 1 end + rest)%nat) 1%nat reads.

(** [u8::is_ascii_whitespace]. *)
Definition is_ascii_whitespace (b : ascii) : bool := existsb (N.eqb (nb b)) [9; 10; 12; 13; 32].

Record TranscriptFile := mkTranscriptFile {
  tf_is_file : bool; tf_length : N; tf_created_at_ms : option N; tf_reads : N -> option (list (result unit string)) }.

Section reading.
Context (to_string : Value -> option string) (from_str : string -> option Value) (to_vec : WireTimelineEntry -> option string)
  (sha256 : list N -> list N) (unix_now : N -> N) (scheme : SourceScheme).

(** What one line does to the mapper. *)
Definition take_line (created_at_ms : option N) (line : Line) (m : HistoryMapper) : option (HistoryMapper * list note) :=
  match line with
  | LineEnd => Some (m, [])
  | LineOversized => m ← hole m; Some (m, [])
  | LineRecord line terminated =>
      if sall is_ascii_whitespace line then Some (m, [])
      else
        match from_str line with
        | Some record => push_record to_string from_str to_vec sha256 unix_now scheme created_at_ms over_bounds record m
        | None => Some (m, if terminated : bool then [("invalid", "record")] else [])
        end
  end.

Fixpoint read_lines (fuel : nat) (created_at_ms : option N) (reads : list (result unit string)) (m : HistoryMapper)
  : option (HistoryMapper * list note) :=
  match fuel with
  | O => None
  | S fuel =>
      '(line, reads) ← next_line reads;
      match line with
      | LineEnd => Some (m, [])
      | _ =>
          '(m, first) ← take_line created_at_ms line m;
          '(m, others) ← read_lines fuel created_at_ms reads m;
          Some (m, (first ++ others)%list)
      end
  end.

(** None where the file cannot be read. *)
Definition read_history (file : option TranscriptFile) (read_bytes : N) : option (TranscriptHistory * list note) :=
  file ← file;
  if negb (tf_is_file file) then None
  else
    let start := tf_length file - read_bytes in
    reads ← tf_reads file start;
    '(reads, m) ← (if 0 <? start then '(_, reads) ← next_line reads; Some (reads, set_truncated true HistoryMapper_new)
                   else Some (reads, HistoryMapper_new));
    '(m, noted) ← read_lines (unread reads) (tf_created_at_ms file) reads m;
    Some (finish m, noted).
End reading.
