(* ===== verification/HookSpec.v ===== *)
(** What the hooks of every vendor promise: previews that fit and still read as the document they stand for,
    identifiers, entries and registrations that the daemon accepts. *)
From S2P Require Import Prelude Text HostProtocol Protocol Fit Metadata Reconcile Timeline Registration Drift UploadNames Downloads Output Providers ProvidersSpec HookCommon.
From S2P Require Import AgentAdapter.

Local Open Scope string_scope.
Local Open Scope N_scope.

(** ** Previews *)

Lemma Value_ind' (P : Value -> Prop) :
  P Null -> (forall b, P (Bool b)) -> (forall n, P (Number n)) -> (forall s, P (Str s)) ->
  (forall items, Forall P items -> P (Array items)) ->
  (forall fields, Forall (fun '(_, item) => P item) fields -> P (Object fields)) -> forall v, P v.
Proof.
  intros Hn Hb Hnum Hs Ha Ho. fix IH 1. intros [|b|n|s|items|fields]; [exact Hn|apply Hb|apply Hnum|apply Hs|apply Ha|apply Ho].
  - induction items as [|item items IHi]; constructor; [apply IH|exact IHi].
  - induction fields as [|[key item] fields IHf]; constructor; [apply IH|exact IHf].
Qed.

(** One document cut down to another: the same but for strings that stop early, between two characters. *)
Inductive shortened : Value -> Value -> Prop :=
| shortened_str s i : is_char_boundary s i = true -> shortened (Str s) (Str (stake i s))
| shortened_array items shown : Forall2 shortened items shown -> shortened (Array items) (Array shown)
| shortened_object fields shown :
    Forall2 (fun field shown => field.1 = shown.1 /\ shortened field.2 shown.2) fields shown -> shortened (Object fields) (Object shown)
| shortened_same v : shortened v v.

Lemma cap_strings_shortens cap v : shortened v (cap_strings cap v).
Proof.
  induction v as [|b|n|s|items IH|fields IH] using Value_ind'; cbn [cap_strings]; try apply shortened_same.
  - destruct (truncate_utf8 s cap) as [text cut] eqn:Ht. destruct (truncate_utf8_spec s cap text cut Ht) as (i & Hi & -> & _). by constructor.
  - constructor. apply Forall2_fmap_r. induction IH; by constructor.
  - constructor. apply Forall2_fmap_r. induction IH as [|[key item] fields]; constructor; [by split|done].
Qed.

Lemma unclipped_whole cap v : clips cap v = false -> cap_strings cap v = v.
Proof.
  induction v as [|b|n|s|items IH|fields IH] using Value_ind'; cbn [cap_strings clips]; try done; intros Hc.
  - unfold truncate_utf8. destruct (N.leb_spec (slen s) cap); [done|]. apply N.ltb_ge in Hc. lia.
  - f_equal. induction IH as [|item items Hi _ IHi]; [done|]. cbn [existsb] in Hc. apply orb_false_iff in Hc as [? ?].
    cbn [fmap list_fmap]. f_equal; [by apply Hi|by apply IHi].
  - f_equal. induction IH as [|[key item] fields Hi _ IHi]; [done|]. cbn [existsb] in Hc. apply orb_false_iff in Hc as [? ?].
    cbn [fmap list_fmap]. f_equal; [f_equal; by apply Hi|by apply IHi].
Qed.

Lemma capped_preview_spec to_string value limit caps text clipped :
  capped_preview to_string value limit caps = (Some text, clipped) ->
  slen text <= limit /\ exists cap, cap ∈ caps /\ to_string (cap_strings cap value) = Some text /\ clipped = clips cap value.
Proof.
  induction caps as [|cap caps IH]; [done|]. cbn [capped_preview]. destruct (to_string _) as [shown|] eqn:Hs; [|done].
  destruct (N.leb_spec (slen shown) limit).
  - intros [= <- <-]. split; [done|]. exists cap. by rewrite elem_of_cons; auto.
  - intros H'. destruct (IH H') as (? & cap' & ? & ?). split; [done|]. exists cap'. rewrite elem_of_cons. auto.
Qed.

Lemma capped_preview_none to_string value limit caps clipped :
  (forall v, is_some (to_string v) = true) -> capped_preview to_string value limit caps = (None, clipped) ->
  clipped = true /\ forall cap text, cap ∈ caps -> to_string (cap_strings cap value) = Some text -> limit < slen text.
Proof.
  intros Htotal. induction caps as [|cap caps IH]; cbn [capped_preview].
  - intros [= <-]. split; [done|]. by intros ?? ?%not_elem_of_nil.
  - pose proof (Htotal (cap_strings cap value)) as Hsome. destruct (to_string _) as [shown|] eqn:Hs; [|done].
    destruct (N.leb_spec (slen shown) limit); [done|]. intros H'. destruct (IH H') as [-> Hrest]. split; [done|].
    intros cap' text [->|Hin]%elem_of_cons Ht; [congruence|by eapply Hrest].
Qed.

(** What is there of a preview fits. *)
Lemma bounded_preview_fits to_string value limit : is_some_and (fun text => limit <? slen text) (bounded_preview to_string value limit).1 = false.
Proof.
  unfold bounded_preview. destruct value as [value|]; [|done]. destruct (to_string value) as [whole|]; [|done].
  destruct (N.leb_spec (slen whole) limit); [by apply N.ltb_ge|]. destruct (capped_preview _ _ _ _) as [[text|] clipped] eqn:Hc; [|done].
  apply capped_preview_spec in Hc as [Hle _]. by apply N.ltb_ge.
Qed.

(** A preview fits its budget and is the encoding of the document itself, or, when it says it was clipped, of
    the document with strings cut between characters: so it parses, with every field in its place. It is left
    out only where even the tightest cut does not fit. *)
Theorem previews_faithful to_string value limit :
  match bounded_preview to_string (Some value) limit with
  | (Some text, clipped) =>
      slen text <= limit
      /\ exists shown, to_string shown = Some text /\ shortened value shown /\ (clipped = false -> shown = value)
  | (None, clipped) =>
      (forall v, is_some (to_string v) = true) ->
      clipped = true /\ forall text, to_string (cap_strings MAX_PREVIEW_STRING_BYTES value) = Some text -> limit < slen text
  end.
Proof.
  unfold bounded_preview. destruct (to_string value) as [whole|] eqn:Hw.
  - destruct (N.leb_spec (slen whole) limit); [split; [done|]; exists value; split_and!; [done|apply shortened_same|done]|].
    destruct (capped_preview _ _ _ _) as [[text|] clipped] eqn:Hc.
    + apply capped_preview_spec in Hc as (Hle & cap & _ & Ht & ->). split; [done|]. exists (cap_strings cap value).
      split_and!; [done|apply cap_strings_shortens|apply unclipped_whole].
    + intros Htotal. destruct (capped_preview_none _ _ _ _ _ Htotal Hc) as [-> Hover]. split; [done|]. intros text. apply Hover.
      by apply (bool_decide_unpack _).
  - intros Htotal. specialize (Htotal value). by rewrite Hw in Htotal.
Qed.

(** ** Names shown for a directory *)

Lemma utf8_parts a b : utf8 (a +:+ String "/" b) -> utf8 a /\ utf8 b.
Proof.
  unfold utf8. rewrite chars_app by done. rewrite Forall_app. intros [Ha Hb]. split; [done|]. cbn [chars] in Hb.
  destruct (chars b) as [|c cs]; [constructor|]. destruct (starts_cont c) eqn:Hc; [|by apply Forall_cons in Hb as [_ Hb]].
  exfalso. apply Forall_cons in Hb as [Hb _]. unfold utf8_char in Hb. cbn [String.list_ascii_of_string fmap list_fmap] in Hb.
  change (nb "/") with 47 in Hb. destruct c as [|x1 [|x2 [|x3 [|x4 c]]]]; cbn [String.list_ascii_of_string fmap list_fmap] in Hb; done.
Qed.

Lemma utf8_split s : utf8 s -> Forall utf8 (split_on "/" s).
Proof.
  remember (String.length s) as n eqn:Hn. revert s Hn. induction (lt_wf n) as [n _ IH]. intros s -> Hs.
  assert (no_char "/" s = true \/ exists a b, s = a +:+ String "/" b) as [Hno|(a & b & ->)].
  { clear. induction s as [|x s [IH|(a & b & ->)]]; [by left| |right; by exists (String x a), b].
    destruct (Ascii.eqb_spec x "/") as [->|Hx]; [right; by exists "", s|left]. unfold no_char in *. cbn [sall].
    rewrite IH. by rewrite (proj2 (Ascii.eqb_neq _ _) Hx). }
  - rewrite split_on_none by done. by repeat constructor.
  - apply utf8_parts in Hs as [Ha Hb]. rewrite split_on_app, Forall_app.
    rewrite str_length_app in *. cbn [String.length] in *. split; (eapply IH; [|reflexivity|done]; lia).
Qed.

Lemma file_name_utf8 path name : utf8 path -> file_name path = Some name -> utf8 name.
Proof.
  intros Hp%utf8_split. unfold file_name, parts_rev. destruct (drop_while_suffix (fun c => (c =s? "") || (c =s? ".")) (reverse (split_on "/" path))) as [k Hk].
  intros Hn. destruct (drop_while _ _) as [|c parts]; [done|]. destruct (c =s? ".."); [done|]. injection Hn as <-.
  apply Forall_reverse in Hp. rewrite Hk in Hp. by apply Forall_app in Hp as [_ [? _]%Forall_cons].
Qed.

(** Text of which something is left when it is cut. *)
Lemma truncate_nonempty s bound : utf8 s -> 4 <= bound -> 0 < slen s -> 0 < slen (truncate_utf8 s bound).1 <= bound.
Proof.
  intros Hs Hb Hlen. destruct (truncate_utf8 s bound) as [out cut] eqn:Ht.
  destruct (truncate_utf8_spec _ _ _ _ Ht) as (i & Hi & -> & Hle & _ & _ & Hmax). cbn [fst]. split; [|lia].
  destruct (chars s) as [|c cs] eqn:Hc; [apply (f_equal sconcat) in Hc; rewrite sconcat_chars in Hc; by subst|].
  assert (s = c +:+ sconcat cs) as Heq by (rewrite <- (sconcat_chars s), Hc; done).
  pose proof (chars_chars_shape s) as [Hshape Htail]. unfold utf8 in Hs. rewrite Hc in *. apply Forall_cons in Hs as [Hc4%utf8_char_len _].
  apply Forall_cons in Hshape as [Hcs _]. cbn [tail] in Htail.
  assert (is_char_boundary s (String.length c) = true) as Hbd.
  { unfold is_char_boundary. rewrite Heq, sdrop_app, str_length_app by done.
    destruct cs as [|d cs]; cbn [sconcat foldr starts_cont]; [rewrite (proj2 (Nat.leb_le _ _)) by (cbn; lia); by rewrite orb_true_r|].
    apply Forall_cons in Htail as [Hd _]. destruct d as [|x d]; cbn in *; [|by rewrite Hd, (proj2 (Nat.leb_le _ _)) by lia; rewrite orb_true_r].
    destruct cs as [|e cs]; cbn; [by rewrite (proj2 (Nat.leb_le _ _)) by lia; rewrite orb_true_r|].
    exfalso. pose proof (chars_chars_shape s) as [H1 _]. rewrite Hc in H1. by apply Forall_cons in H1 as [_ [? _]%Forall_cons]. }
  specialize (Hmax (String.length c) ltac:(lia) Hbd). unfold slen. rewrite stake_length.
  assert (0 < String.length c)%nat by (destruct c; [done|cbn; lia]). unfold slen in Hlen. lia.
Qed.

Lemma workspace_display_ok cwd : utf8 cwd -> 0 < slen (workspace_display cwd) <= 256.
Proof.
  intros Hc. unfold workspace_display. apply truncate_nonempty; [|lia|].
  2:{ destruct (String.eqb_spec (trim (sconcat (List.filter (fun c => negb (is_control c)) (chars match file_name cwd with
        | Some name => if name =s? "" then "Workspace" else name | None => "Workspace" end)))) "") as [|Hne]; [by vm_compute|].
      destruct (trim _) as [|x s]; [done|]. unfold slen. cbn. lia. }
  assert (utf8 match file_name cwd with Some name => if name =s? "" then "Workspace" else name | None => "Workspace" end) as Hd.
  { destruct (file_name cwd) as [name|] eqn:Hf; [|by apply (bool_decide_unpack _)].
    apply file_name_utf8 in Hf; [|done]. destruct (name =s? ""); [by apply (bool_decide_unpack _)|done]. }
  set (display := match file_name cwd with Some name => _ | None => _ end) in *. clearbody display.
  destruct (_ =s? ""); [by apply (bool_decide_unpack _)|]. unfold utf8.
  destruct (trim_chars (sconcat (List.filter (fun c => negb (is_control c)) (chars display)))) as [(a & b & Hab) _].
  rewrite chars_sconcat in Hab by (apply shape_filter; [apply chars_chars_shape|]; intros c Hcont; by rewrite cont_not_control).
  assert (Forall (fun c => utf8_char c = true) (List.filter (fun c => negb (is_control c)) (chars display))) as Hf.
  { apply List.Forall_forall. intros c [Hin _]%filter_In. apply List.Forall_forall with (x := c) in Hd; done. }
  rewrite Hab in Hf. by apply Forall_app in Hf as [_ [Hf _]%Forall_app].
Qed.

(** ** Identifiers *)

Lemma valid_source_id_of value : valid_opaque_id value = Ok tt -> valid_source_id value = Ok tt.
Proof.
  intros [[H1 H2] H3]%valid_opaque_id_ok. unfold valid_source_id, invalid_if. apply refuse_if_ok. rewrite !orb_false_iff, N.eqb_neq, N.ltb_ge, negb_false_iff.
  unfold MAX_OPAQUE_ID_BYTES, MAX_UPSTREAM_SOURCE_ID_BYTES in *. split_and!; [lia|lia|]. eapply sall_impl; [|exact H3]. intros b Hb. by rewrite Hb.
Qed.

Lemma valid_token_id value : valid_opaque_id value = valid_token value.
Proof. done. Qed.

Section identifiers.
Context (sha256 : list N -> list N) (sha256_law : sha256_bytes sha256).

Lemma keyed_digest_ok domain namespace value :
  String.length (keyed_digest sha256 domain namespace value) = 32%nat /\ sall is_ascii_alphanumeric (keyed_digest sha256 domain namespace value) = true.
Proof.
  unfold keyed_digest. match goal with |- context [sha256 ?m] => destruct (sha256_law m) as [Hl Hb]; set (d := sha256 m) in * end.
  destruct (hex_facts (take 16 d) ltac:(by apply Forall_take)) as (_ & -> & _ & ->). rewrite length_take, Hl. done.
Qed.

(** Every digest is an identifier, where the vendor and the namespace are short tokens. *)
Lemma vendor_digest_ok vendor domain namespace inner value :
  (String.length vendor <= 8)%nat -> sall token_byte vendor = true -> (String.length namespace <= 20)%nat -> sall token_byte namespace = true ->
  valid_opaque_id (vendor +:+ "." +:+ namespace +:+ "." +:+ keyed_digest sha256 domain inner value) = Ok tt.
Proof.
  intros Hv Htv Hn Ht. destruct (keyed_digest_ok domain inner value) as [Hl Ha].
  apply valid_opaque_id_ok. unfold slen. rewrite !str_length_app, Hl. cbn [String.length]. split; [unfold MAX_OPAQUE_ID_BYTES; lia|].
  rewrite !sall_app, Htv, Ht. by erewrite (sall_impl _ _ (keyed_digest _ _ _ _)); [| |exact Ha]; [|apply alphanumeric_token].
Qed.
End identifiers.

(** ** Events are accepted *)

Lemma no_truncation_ok : Truncation_validate no_truncation = Ok tt /\ refuse_adapter_body_available no_truncation = Ok tt.
Proof. done. Qed.

Lemma bounded_text_ok value maximum text truncation : bounded_text value maximum = (text, truncation) ->
  slen text <= maximum /\ Truncation_validate truncation = Ok tt /\ refuse_adapter_body_available truncation = Ok tt.
Proof.
  unfold bounded_text. destruct (truncate_utf8 value maximum) as [t cut] eqn:Ht. destruct (truncate_utf8_spec _ _ _ _ Ht) as (i & _ & _ & Hle & _).
  intros [= <- <-]. split; [lia|]. by destruct cut.
Qed.

Lemma preview_truncation_ok to_string clipped documents :
  Truncation_validate (preview_truncation to_string clipped documents) = Ok tt
  /\ refuse_adapter_body_available (preview_truncation to_string clipped documents) = Ok tt.
Proof. by destruct clipped. Qed.

(** An event that a daemon takes is taken when it was cut for an older one, and its text is within the bounds
    every daemon has. *)
Lemma cut_named_ok text truncation bound cut_text cut_truncation cut :
  Truncation_validate truncation = Ok tt -> refuse_adapter_body_available truncation = Ok tt ->
  cut_named text truncation bound = (cut_text, cut_truncation, cut) ->
  slen cut_text <= bound /\ slen cut_text <= slen text /\ Truncation_validate cut_truncation = Ok tt
  /\ refuse_adapter_body_available cut_truncation = Ok tt.
Proof.
  intros Ht Ha. unfold cut_named. destruct (truncate_utf8 text bound) as [out short] eqn:Hcut.
  destruct (truncate_utf8_spec _ _ _ _ Hcut) as (i & _ & Hout & Hle & Hwhole & Hover & _).
  destruct short; intros [= <- <- <-]; [split_and!; try done; specialize (Hover eq_refl); lia|].
  rewrite (Hwhole eq_refl) in Hle. split_and!; (done || lia).
Qed.

Lemma cut_entry_ok entry_from entry_to slot entry text shown : entry_from slot = Some entry -> we_body entry = Protocol.Text text ->
  is_ok (WireTimelineEntry_normalize entry) = true -> cut_entry entry_from entry_to slot = Some shown ->
  exists cut, entry_to cut = Some shown /\ is_ok (WireTimelineEntry_normalize cut) = true
    /\ TimelineBody_validate (we_body cut) = Ok tt /\ we_source_id cut = we_source_id entry /\ we_kind cut = we_kind entry.
Proof.
  intros He Hb. unfold cut_entry. rewrite He. cbn [mbind option_bind]. rewrite Hb.
  unfold WireTimelineEntry_normalize, NormalizedTimelineEntry_validate.
  cbn [ne_source_id ne_source_revision ne_timestamp ne_state ne_kind ne_body ne_truncation]. rewrite Hb.
  destruct (valid_source_id (we_source_id entry)) as [[]|] eqn:Hs; [|done]. destruct (valid_token (we_state entry)) as [[]|] eqn:Hst; [|done].
  destruct (valid_token (we_kind entry)) as [[]|] eqn:Hk; [|done]. cbn [rbind].
  destruct (TimelineBody_validate_within (Protocol.Text text) MAX_RETAINED_TEXT_BYTES) as [[]|] eqn:Ht; [|done].
  destruct (Truncation_validate (we_truncation entry)) as [[]|] eqn:Htr; [|done].
  destruct (refuse_adapter_body_available (we_truncation entry)) as [[]|] eqn:Hav; [|done]. cbn [rbind].
  destruct (cut_named text (we_truncation entry) MAX_TIMELINE_TEXT_BYTES) as [[out truncation] cut] eqn:Hcut.
  destruct (cut_named_ok _ _ _ _ _ _ Htr Hav Hcut) as (Hle & _ & Hv & Ha). intros Hnum. destruct cut; [|done]. intros Hshown.
  eexists. split; [exact Hshown|]. cbn [we_source_id we_source_revision we_timestamp we_state we_kind we_body we_truncation].
  assert (forall bound, MAX_TIMELINE_TEXT_BYTES <= bound -> TimelineBody_validate_within (Protocol.Text out) bound = Ok tt) as Hwithin.
  { intros bound Hbound. cbn. rewrite (proj2 (N.leb_le (slen out) bound)) by lia. done. }
  rewrite Hs, Hst, Hk. cbn [rbind]. rewrite Hwithin by by vm_compute. cbn [rbind]. rewrite Hv, Ha. cbn [rbind].
  split_and!; try done; [|by apply Hwithin]. by destruct (invalid_if _).
Qed.

(** ** Entries *)

Definition accepted (entry : WireTimelineEntry) : Prop := exists normal, WireTimelineEntry_normalize entry = Ok normal.

Lemma entry_accepted entry :
  valid_opaque_id (we_source_id entry) = Ok tt -> we_source_revision entry <> 0 -> we_timestamp entry <> 0 ->
  valid_token (we_state entry) = Ok tt -> valid_token (we_kind entry) = Ok tt ->
  TimelineBody_validate_within (we_body entry) MAX_RETAINED_TEXT_BYTES = Ok tt ->
  Truncation_validate (we_truncation entry) = Ok tt -> refuse_adapter_body_available (we_truncation entry) = Ok tt ->
  accepted entry.
Proof.
  intros Hs Hr Ht Hstate Hkind Hb Htr Hav. unfold accepted, WireTimelineEntry_normalize, NormalizedTimelineEntry_validate.
  cbn [ne_source_id ne_source_revision ne_timestamp ne_state ne_kind ne_body ne_truncation].
  rewrite (valid_source_id_of _ Hs), Hstate, Hkind, Hb, Htr, Hav, (proj2 (N.eqb_neq _ _) Hr), (proj2 (N.eqb_neq _ _) Ht). cbn. by eexists.
Qed.

Lemma accepted_entry_valid source revision at_ state kind body truncation :
  accepted (mkWireTimelineEntry source revision at_ state kind body truncation) ->
  NormalizedTimelineEntry_validate (mkNormalizedTimelineEntry source revision at_ state kind body truncation) = Ok tt.
Proof.
  intros [normal Hn]. unfold WireTimelineEntry_normalize in Hn.
  cbn [we_source_id we_source_revision we_timestamp we_state we_kind we_body we_truncation] in Hn. by destruct (NormalizedTimelineEntry_validate _) as [[]|].
Qed.

Lemma text_entry_accepted whole text truncation source at_ kind :
  bounded_text whole MAX_RETAINED_TEXT_BYTES = (text, truncation) -> valid_opaque_id source = Ok tt -> at_ <> 0 -> valid_token kind = Ok tt ->
  accepted (mkWireTimelineEntry source 1 at_ "complete" kind (Protocol.Text text) truncation).
Proof.
  intros (Hlen & Ht & Ha)%bounded_text_ok Hs Hat Hk. apply entry_accepted; try done. cbn. by rewrite (proj2 (N.leb_le _ _) Hlen).
Qed.

Lemma tool_preview_ok to_string name status input output clipped clipped' doc doc' :
  valid_token status = Ok tt ->
  bounded_preview to_string doc MAX_TOOL_INPUT_PREVIEW_BYTES = (input, clipped) ->
  bounded_preview to_string doc' MAX_TOOL_RESULT_PREVIEW_BYTES = (output, clipped') ->
  TimelineBody_validate_within (Tool (mkToolTimelineBody (if is_ok (valid_token name) then name else "unknown_tool") status input output))
    MAX_RETAINED_TEXT_BYTES = Ok tt.
Proof.
  intros Hstatus Hin Hout. pose proof (bounded_preview_fits to_string doc MAX_TOOL_INPUT_PREVIEW_BYTES) as Hi. rewrite Hin in Hi.
  pose proof (bounded_preview_fits to_string doc' MAX_TOOL_RESULT_PREVIEW_BYTES) as Ho. rewrite Hout in Ho. cbn [fst] in *.
  unfold TimelineBody_validate_within, ToolTimelineBody_validate. cbn [tb_name Protocol.tb_status tb_input_preview tb_result_preview].
  rewrite Hstatus, Hi, Ho. cbn [orb invalid_if refuse_if rbind].
  destruct (valid_token name) as [[]|] eqn:Hn; cbn [is_ok]; [by rewrite Hn|by vm_compute].
Qed.

Lemma turn_ok namespaced activity : valid_opaque_id namespaced = Ok tt -> valid_token activity = Ok tt -> TurnState_validate (Running namespaced activity) = Ok tt.
Proof. intros Hn Ha. unfold TurnState_validate. rewrite Hn. cbn [rbind]. by rewrite Ha. Qed.

(** ** Registrations *)

Lemma frame_type_of decode_bridge_body body v token : decode_bridge_body body = Ok v -> get "type" v ≫= as_str = Some token ->
  frame_type decode_bridge_body body = Ok (token, v).
Proof.
  intros Hd Ht. unfold frame_type. rewrite Hd. cbn [rbind]. unfold get in Ht. destruct (as_object v) as [fields|]; [|done].
  cbn in Ht |- *. by rewrite Ht.
Qed.

(** The tokens of a dialect. *)
Definition dialect_ok (dialect : AttachedHookDialect) : Prop :=
  valid_token (di_family dialect) = Ok tt /\ valid_token (di_pinned_version dialect) = Ok tt /\ valid_token (di_partial_reason dialect) = Ok tt
  /\ valid_token (di_turn_reason_supported dialect) = Ok tt /\ valid_token (di_turn_reason_unsupported dialect) = Ok tt.

Lemma register_accepted dialect version process_nonce process_id session_id cwd peer :
  dialect_ok dialect -> process_id <> 0 -> valid_opaque_id process_nonce = Ok tt -> valid_token version = Ok tt ->
  valid_opaque_id session_id = Ok tt -> utf8 cwd ->
  let register := mkAttachedHookRegister (di_protocol_version dialect) "register" (di_adapter dialect) version "tui_hook" session_id
                    process_nonce process_id (workspace_display cwd) cwd None in
  exists r, AttachedHookRegister_normalize register (Some peer) dialect = Ok r /\ NormalizedRegistration_validate r = Ok tt
    /\ nr_upstream_identity r = session_id /\ nr_process_id r = process_id.
Proof.
  intros (Hfamily & Hpin & Hpartial & Hturn & Hturn') Hpid Hnonce Hversion Hsession Hcwd. destruct (workspace_display_ok cwd Hcwd) as [Hd0 Hd].
  cbv zeta. unfold AttachedHookRegister_normalize.
  cbn [hr_v hr_message_type hr_adapter hr_adapter_version hr_mode hr_session_id hr_process_nonce hr_process_id hr_workspace_display hr_workspace_path
       hr_terminal_status_directory is_some is_some_and negb].
  rewrite (proj2 (N.eqb_neq _ _) Hpid), Hsession, Hnonce, Hversion, N.eqb_refl, !String.eqb_refl.
  rewrite (proj2 (N.eqb_neq (slen (workspace_display cwd)) 0)), (proj2 (N.ltb_ge _ _) Hd) by lia.
  cbn [String.eqb Ascii.eqb Bool.eqb N.eqb negb orb refuse_if rbind]. eexists. split; [reflexivity|]. split; [|done].
  unfold NormalizedRegistration_validate.
  cbn [nr_upstream_identity nr_process_nonce nr_adapter_family nr_adapter_version nr_control_owner nr_observation nr_turn nr_capabilities
       nr_tested_version nr_process_id nr_workspace_display nr_topology nr_version_state nr_compatible nr_terminal_binding].
  rewrite (valid_source_id_of _ Hsession), Hnonce, Hversion, Hfamily, Hpin. cbn [rbind]. unfold empty_or_over, Observation_validate, TurnState_validate.
  cbn [ob_coverage ob_reason_code]. rewrite (proj2 (N.eqb_neq _ _) Hpid), (proj2 (N.eqb_neq (slen (workspace_display cwd)) 0)), (proj2 (N.ltb_ge _ _) Hd) by lia.
  destruct (registered_version _ _); cbn [VendorVersionState_admitted]; rewrite ?Hpartial, ?Hturn, ?Hturn'; done.
Qed.
