(* ===== verification/ClaudeHookSpec.v ===== *)
(** Claude's hooks and the daemon that reads them: whatever a payload holds, what the hook makes of it is accepted. *)
From S2P Require Import Prelude Text HostProtocol Protocol Fit Metadata Reconcile Timeline Registration Drift UploadNames Downloads Output HookCommon.
From S2P Require Import AgentAdapter ClaudeHook HookSpec.

Local Open Scope string_scope.
Local Open Scope N_scope.

(** ** Identifiers *)

Lemma opaque_digest_ok sha256 namespace value : sha256_bytes sha256 ->
  (String.length namespace <= 20)%nat -> sall token_byte namespace = true -> valid_opaque_id (opaque_digest sha256 namespace value) = Ok tt.
Proof. intros Hlaw Hn Ht. by apply (vendor_digest_ok sha256 Hlaw "claude"); [cbn; lia| | |]. Qed.

(** ** Events are accepted *)

(** What the daemon makes of a frame. *)
Definition read_as (event : ClaudeHookEventFrame) : result AgentProtocolError (NormalizedAdapterEvent * option string) :=
  match event with
  | HookHeartbeat _ unrecognized context_reset => Ok (if context_reset then EvContextReset else EvHeartbeat, unrecognized)
  | HookUpsertEntry _ entry => let? entry := WireTimelineEntry_normalize entry in Ok (EvUpsertEntry entry, None)
  | HookAppendText _ delta => let? delta := WireTextDelta_normalize delta in Ok (EvAppendText delta, None)
  | HookNotification _ kind => valid_token kind ?; Ok (EvNotification kind, None)
  | HookTurn _ turn => TurnState_validate turn ?; Ok (EvTurn turn, None)
  | HookSessionEnd _ => Ok (EvSessionEnded, None)
  end.

Definition version_of (event : ClaudeHookEventFrame) : N :=
  match event with
  | HookHeartbeat v _ _ | HookUpsertEntry v _ | HookAppendText v _ | HookNotification v _ | HookTurn v _ | HookSessionEnd v => v
  end.

Definition token_of (event : ClaudeHookEventFrame) : string :=
  match event with
  | HookHeartbeat _ _ _ => "heartbeat" | HookUpsertEntry _ _ => "upsert_entry" | HookAppendText _ _ => "append_text"
  | HookNotification _ _ => "notification" | HookTurn _ _ => "turn" | HookSessionEnd _ => "session_end"
  end.

Lemma claude_dialect_ok : dialect_ok claude_dialect.
Proof. by vm_compute. Qed.

(** What [serde_json] writes of registrations and events is read back, where it fits a frame. *)
Class HookWire `{HookShapes} (decode_bridge_body : string -> result AgentProtocolError Value) (register_of : Value -> option AttachedHookRegister)
    (heartbeat_of : Value -> option (Frame (option string * bool))) := {
  register_body : AttachedHookRegister -> string;
  event_body : ClaudeHookEventFrame -> string;
  register_read register : slen (register_body register) <= MAX_BRIDGE_FRAME_BYTES ->
    exists v, decode_bridge_body (register_body register) = Ok v /\ get "type" v ≫= as_str = Some (hr_message_type register)
      /\ register_of v = Some register;
  event_read event : slen (event_body event) <= MAX_BRIDGE_FRAME_BYTES ->
    exists v, decode_bridge_body (event_body event) = Ok v /\ get "type" v ≫= as_str = Some (token_of event)
      /\ match event with
         | HookHeartbeat version unrecognized context_reset => heartbeat_of v = Some (mkFrame version "heartbeat" (unrecognized, context_reset))
         | HookUpsertEntry version entry => entry_of v = Some (mkFrame version "upsert_entry" entry)
         | HookAppendText version delta => delta_of v = Some (mkFrame version "append_text" delta)
         | HookNotification version kind => kind_of v = Some (mkFrame version "notification" kind)
         | HookTurn version turn => turn_of v = Some (mkFrame version "turn" turn)
         | HookSessionEnd version => unit_of v = Some (mkFrame version "session_end" tt)
         end }.

Section accepted.
Context `{HookWire}.

Lemma event_decoded event : slen (event_body event) <= MAX_BRIDGE_FRAME_BYTES -> version_of event = CLAUDE_HOOK_PROTOCOL_VERSION ->
  decode_event decode_bridge_body register_of heartbeat_of (event_body event) = read_as event.
Proof.
  intros Hfit Hv. destruct (event_read event Hfit) as (v & Hd & Ht & Hread). unfold decode_event. rewrite (frame_type_of _ _ _ _ Hd Ht).
  cbn [rbind]. destruct event; cbn [version_of token_of] in *; subst; cbn [String.eqb Ascii.eqb Bool.eqb rbind];
    unfold decode_heartbeat_frame, decode_entry_frame, decode_delta_frame, decode_notification_frame, decode_turn_frame, decode_unit_frame, decode_frame;
    rewrite Hread; cbn [ok_or rbind fm_v fm_message_type fm_payload validate_frame_header]; try done; cbn; [by destruct (valid_token kind) as [[]|]|by destruct (TurnState_validate turn) as [[]|]].
Qed.

(** What a hook knows of its process. *)
Definition facts_ok (facts : HookRuntimeFacts) : Prop :=
  hf_process_id facts <> 0 /\ valid_opaque_id (hf_process_nonce facts) = Ok tt /\ valid_token (hf_adapter_version facts) = Ok tt.

Context (sha256 : list N -> list N) (sha256_law : sha256_bytes sha256) (to_string : Value -> option string) (now : N) (now_law : now <> 0).

(** A frame of the dialect's version that the daemon reads. *)
Definition readable (event : ClaudeHookEventFrame) : Prop :=
  version_of event = CLAUDE_HOOK_PROTOCOL_VERSION /\ exists read, read_as event = Ok read.

Lemma entry_readable entry : accepted entry -> readable (upsert_entry entry).
Proof. intros [normal Hn]. split; [done|]. cbn. rewrite Hn. by eexists. Qed.

Lemma tool_event_ok fields state status revision event :
  valid_token state = Ok tt -> valid_token status = Ok tt -> revision <> 0 ->
  tool_event sha256 to_string now fields state status revision = Ok event -> readable event.
Proof.
  intros Hstate Hstatus Hrev. unfold tool_event. destruct (required_string fields "tool_name") as [name|]; [|done].
  destruct (required_string fields "tool_use_id") as [id|]; [|done]. cbn [rbind].
  destruct (bounded_preview _ (field "tool_input" _) _) as [input clipped] eqn:Hin, (bounded_preview _ (field "tool_response" _) _) as [output clipped'] eqn:Hout.
  intros [= <-]. destruct (preview_truncation_ok to_string (clipped || clipped') [field "tool_input" fields; field "tool_response" fields]).
  apply entry_readable, entry_accepted; try done; [apply opaque_digest_ok; [done|cbn; lia|done]|by eapply tool_preview_ok].
Qed.

Lemma hook_event_ok fields session_id name event turn :
  hook_event sha256 to_string now fields session_id name = Ok (event, turn) ->
  readable event /\ forall t, turn = Some t -> TurnState_validate t = Ok tt.
Proof.
  assert (forall u c, readable (heartbeat u c)) as Hbeat by (intros; split; [done|by eexists]).
  assert (forall f st stat r, valid_token st = Ok tt -> valid_token stat = Ok tt -> r <> 0 ->
    (let? e := tool_event sha256 to_string now f st stat r in Ok (e, None)) = Ok (event, turn) ->
    readable event /\ forall t, turn = Some t -> TurnState_validate t = Ok tt) as Htool.
  { intros f st stat r Hst Hstat Hr. destruct (tool_event _ _ _ _ _ _ _) as [e|] eqn:He; [|done]. cbn [rbind]. intros [= <- <-].
    split; [exact (tool_event_ok _ _ _ _ _ Hst Hstat Hr He)|done]. }
  unfold hook_event. repeat match goal with |- (if ?b then _ else _) = _ -> _ => destruct b end.
  all: try (by intros [= <- <-]; split; [apply Hbeat|]); try (apply Htool; by vm_compute).
  - intros [= <- <-]. split; [apply Hbeat|]. intros t [= <-]. destruct (field "prompt_id" fields ≫= as_str) as [id|]; [|done].
    cbn [option_bind mbind]. destruct (valid_opaque_id (run_id sha256 id)) as [[]|] eqn:Hid; cbn [is_ok]; [|done]. unfold TurnState_validate. apply opt_each_ok. by intros x [= <-].
  - destruct (required_string fields "prompt") as [prompt|]; [|done]. cbn [rbind]. destruct (is_synthetic_prompt prompt); [by intros [= <- <-]|].
    destruct (required_string fields "prompt_id") as [id|]; [|done]. cbn [rbind]. destruct (bounded_text _ _) as [text truncation] eqn:Hb.
    destruct (bounded_text_ok _ _ _ _ Hb) as (Hlen & Ht & Ha). intros [= <- <-]. split.
    + eapply entry_readable, text_entry_accepted; try done. apply opaque_digest_ok; [done|cbn; lia|done].
    + intros t [= <-]. apply turn_ok; [|done]. apply opaque_digest_ok; [done|cbn; lia|done].
  - destruct (required_string fields "message_id") as [id|]; [|done]. cbn [rbind]. destruct (required_u64 fields "index") as [index|]; [|done].
    cbn [rbind]. destruct (required_bool fields "final") as [final|]; [|done]. cbn [rbind].
    destruct (required_string fields "delta") as [whole|]; [|done]. cbn [rbind]. destruct (bounded_text _ _) as [text truncation] eqn:Hb.
    destruct (bounded_text_ok _ _ _ _ Hb) as (Hlen & Ht & Ha). destruct (index <? u64_max); [|done]. cbn [rbind]. intros [= <- <-].
    split; [|done]. split; [done|]. cbn [read_as]. unfold WireTextDelta_normalize, NormalizedTextDelta_validate.
    cbn [nd_source_id nd_source_revision nd_timestamp nd_kind nd_delta nd_truncation wd_source_id wd_source_revision wd_timestamp wd_kind wd_delta wd_truncation wd_final_chunk].
    rewrite valid_source_id_of by (apply opaque_digest_ok; [done|cbn; lia|done]).
    rewrite Ht, Ha, (proj2 (N.eqb_neq (index + 1) 0)), (proj2 (N.eqb_neq _ _) now_law), (proj2 (N.ltb_ge _ _) Hlen) by lia. cbn. by eexists.
  - destruct (match field "notification_type" fields with Some _ => _ | None => _ end) as [kind|] eqn:Hk; [|done]. cbn [rbind]. intros [= <- <-].
    split; [|done]. split; [done|]. assert (valid_token kind = Ok tt) as Hv.
    { destruct (field "notification_type" fields) as [v|]; [|by injection Hk as <-]. destruct (as_str v) as [s|]; [|done]. cbn in Hk.
      destruct (valid_token s) as [[]|] eqn:Hs; [|done]. by injection Hk as <-. }
    cbn. rewrite Hv. by eexists.
  - intros [= <- <-]. split; [|done]. apply entry_readable, entry_accepted; try done. apply opaque_digest_ok; [done|cbn; lia|done].
  - intros [= <- <-]. split; [|done]. split; [done|by eexists].
Qed.

(** C24: whatever Claude hands a hook, what the hook makes of it the daemon accepts: its registration is a valid
    one, its event is read as the entry, the text or the turn it stands for, and so is the turn that follows
    it; nothing a payload holds makes the daemon refuse a frame that fits. *)
Theorem hook_events_accepted value facts dispatch peer :
  facts_ok facts -> (forall cwd, get "cwd" value ≫= as_str = Some cwd -> utf8 cwd) ->
  map_hook_input sha256 to_string now value facts = Ok (Some dispatch) ->
  (slen (register_body (hd_registration dispatch)) <= MAX_BRIDGE_FRAME_BYTES ->
   exists r, decode_registration decode_bridge_body register_of (register_body (hd_registration dispatch)) (Some peer) = Ok r
     /\ NormalizedRegistration_validate r = Ok tt /\ nr_upstream_identity r = hf_environment_session_id facts
     /\ nr_process_id r = hf_process_id facts)
  /\ forall event, event = hd_event dispatch \/ (exists turn, hd_turn dispatch = Some turn /\ event = HookTurn CLAUDE_HOOK_PROTOCOL_VERSION turn) ->
      slen (event_body event) <= MAX_BRIDGE_FRAME_BYTES ->
      exists read, decode_event decode_bridge_body register_of heartbeat_of (event_body event) = Ok read /\ read_as event = Ok read.
Proof.
  intros Hfacts Hutf. unfold map_hook_input. destruct (object value) as [fields|] eqn:Hobj; [|done]. cbn [rbind].
  destruct (required_string fields "session_id") as [session_id|]; [|done]. cbn [rbind].
  destruct (valid_opaque_id session_id) as [[]|] eqn:Hid; [|done]. cbn [is_ok negb refuse_if rbind].
  destruct (String.eqb_spec session_id (hf_environment_session_id facts)) as [Henv|]; [|done]. cbn [negb refuse_if rbind].
  destruct (is_some (field "agent_id" fields)); [done|]. destruct (required_string fields "cwd") as [cwd|] eqn:Hcwd; [|done]. cbn [rbind].
  destruct (required_string fields "hook_event_name") as [name|]; [|done]. cbn [rbind].
  destruct (if negb _ then _ else _) as [[event turn]|] eqn:Hevent; [|done]. cbn [rbind]. intros [= <-]. cbn [hd_registration hd_event hd_turn].
  assert (readable event /\ forall t, turn = Some t -> TurnState_validate t = Ok tt) as [[Hv Hread] Hturn].
  { destruct (negb _); [|by eapply hook_event_ok]. injection Hevent as <- <-. split; [|done]. split; [done|by eexists]. }
  split.
  - intros Hfit. destruct (register_read _ Hfit) as (v & Hd & Ht & Hr). unfold decode_registration. rewrite (frame_type_of _ _ _ _ Hd Ht).
    cbn [rbind]. cbn [hr_message_type String.eqb Ascii.eqb Bool.eqb negb refuse_if rbind]. rewrite Hr. cbn [ok_or rbind].
    destruct Hfacts as (Hpid & Hnonce & Hversion).
    destruct (register_accepted claude_dialect _ _ _ session_id cwd peer claude_dialect_ok Hpid Hnonce Hversion Hid) as (r & Hn & Hok & Hup & Hp).
    { apply Hutf. unfold required_string in Hcwd. unfold object in Hobj. unfold get. destruct (as_object value) as [f|]; [|done].
      injection Hobj as ->. cbn. destruct (field "cwd" fields ≫= as_str) as [c|]; [|done]. cbn in Hcwd. destruct (c =s? ""); [done|]. by injection Hcwd as ->. }
    exists r. rewrite <- Henv. by split_and!.
  - intros e [->|(t & Ht & ->)] Hfit; rewrite event_decoded by done; [destruct Hread as [read Hread]; by exists read|].
    exists (EvTurn t, None). cbn. by rewrite (Hturn t Ht).
Qed.
End accepted.
