(* ===== verification/ClaudeHistorySpec.v ===== *)
(** What reading Claude's transcript promises: instants read back, lines whole however they arrive, and a mapper
    that stays within its bounds, keeps the newest end of the conversation and makes only rows the timeline
    accepts. *)
From S2P Require Import Prelude Text Protocol Metadata Reconcile Timeline Fit UploadNames Downloads Whereabouts Output HookCommon AgentAdapter ClaudeHook HookSpec ClaudeHookSpec.
From S2P Require Import ClaudeHistory.
From stdpp Require Import pretty.

Local Open Scope string_scope.
Local Open Scope N_scope.

(** ** Instants are read back *)

Definition decimal_char (d : N) : ascii := pretty_N_char d.

Lemma decimal_char_value d : d < 10 -> is_ascii_digit (decimal_char d) = true /\ nb (decimal_char d) = 48 + d.
Proof.
  intros H. assert (d ∈ [0; 1; 2; 3; 4; 5; 6; 7; 8; 9]) as Hin by (rewrite !elem_of_cons; lia).
  repeat (apply elem_of_cons in Hin as [->|Hin]; [by vm_compute|]). by apply not_elem_of_nil in Hin.
Qed.

Lemma pretty_digits n s : 0 < n -> pretty_N_go n s = pretty_N_go (n / 10) (String (decimal_char (n mod 10)) s).
Proof. apply pretty_N_go_step. Qed.

Lemma zero_padded_2 n : n < 100 ->
  zero_padded 2 n = String (decimal_char (n / 10)) (String (decimal_char (n mod 10)) "").
Proof.
  intros H. unfold zero_padded. destruct (decide (n = 0)) as [->|Hn]; [by vm_compute|].
  unfold pretty, pretty_N. rewrite decide_False by done. rewrite pretty_digits by lia.
  destruct (N.lt_ge_cases n 10).
  - rewrite N.div_small by done. rewrite pretty_N_go_0. done.
  - assert (0 < n / 10 < 10) as [? ?] by (split; [apply N.div_str_pos; lia|apply N.Div0.div_lt_upper_bound; lia]).
    rewrite pretty_digits by done. rewrite (N.div_small (n / 10)) by done. rewrite pretty_N_go_0, (N.mod_small (n / 10)) by done. done.
Qed.

Lemma zero_padded_4 n : n < 10000 ->
  zero_padded 4 n = String (decimal_char (n / 1000)) (String (decimal_char (n / 100 mod 10)) (String (decimal_char (n / 10 mod 10))
    (String (decimal_char (n mod 10)) ""))).
Proof.
  intros H. unfold zero_padded. destruct (decide (n = 0)) as [->|Hn]; [by vm_compute|].
  unfold pretty, pretty_N. rewrite decide_False by done. rewrite pretty_digits by lia.
  assert (n / 10 / 10 = n / 100) as E1 by (rewrite N.Div0.div_div; done).
  assert (n / 100 / 10 = n / 1000) as E2 by (rewrite N.Div0.div_div; done).
  assert (n / 1000 < 10) by (apply N.Div0.div_lt_upper_bound; lia).
  destruct (N.lt_ge_cases n 10).
  { rewrite !(N.div_small n) by lia. rewrite pretty_N_go_0. done. }
  rewrite pretty_digits, E1 by (apply N.div_str_pos; lia).
  destruct (N.lt_ge_cases n 100).
  { rewrite !(N.div_small n 100), !(N.div_small n 1000) by lia. rewrite pretty_N_go_0. done. }
  rewrite pretty_digits, E2 by (apply N.div_str_pos; lia).
  destruct (N.lt_ge_cases n 1000).
  { rewrite !(N.div_small n 1000) by lia. rewrite pretty_N_go_0. done. }
  rewrite pretty_digits by (apply N.div_str_pos; lia). rewrite (N.div_small (n / 1000)), (N.mod_small (n / 1000)), pretty_N_go_0 by done. done.
Qed.

Lemma parse_two a b : a < 10 -> b < 10 -> parse_digits 0 (String (decimal_char a) (String (decimal_char b) "")) = Some (a * 10 + b).
Proof.
  intros Ha Hb. destruct (decimal_char_value a Ha) as [Da Va], (decimal_char_value b Hb) as [Db Vb].
  cbn [parse_digits]. rewrite Da, Va. cbv zeta. rewrite (proj2 (N.leb_le _ _)) by (unfold u32_max; lia). rewrite Db, Vb.
  rewrite (proj2 (N.leb_le _ _)) by (unfold u32_max; lia). f_equal. lia.
Qed.

Lemma parse_four a b c d : a < 10 -> b < 10 -> c < 10 -> d < 10 ->
  parse_digits 0 (String (decimal_char a) (String (decimal_char b) (String (decimal_char c) (String (decimal_char d) ""))))
  = Some (((a * 10 + b) * 10 + c) * 10 + d).
Proof.
  intros Ha Hb Hc Hd. destruct (decimal_char_value a Ha) as [Da Va], (decimal_char_value b Hb) as [Db Vb],
    (decimal_char_value c Hc) as [Dc Vc], (decimal_char_value d Hd) as [Dd Vd].
  cbn [parse_digits]. rewrite Da, Va, Db, Vb, Dc, Vc, Dd, Vd. cbv zeta.
  rewrite !(proj2 (N.leb_le _ _)) by (unfold u32_max; lia). f_equal. lia.
Qed.

Lemma two_read n : n < 100 ->
  (if negb (is_ascii_digit (decimal_char (n / 10)) && (is_ascii_digit (decimal_char (n mod 10)) && true)) then None
   else Z.of_N <$> parse_digits 0 (String (decimal_char (n / 10)) (String (decimal_char (n mod 10)) ""))) = Some (Z.of_N n).
Proof.
  intros H. assert (n / 10 < 10) by (apply N.Div0.div_lt_upper_bound; lia). assert (n mod 10 < 10) by (apply N.mod_lt; lia).
  rewrite (proj1 (decimal_char_value (n / 10) ltac:(done))), (proj1 (decimal_char_value (n mod 10) ltac:(done))).
  rewrite parse_two by done. cbn. do 2 f_equal. pose proof (N.div_mod' n 10). lia.
Qed.

Lemma four_read n : n < 10000 ->
  (if negb (is_ascii_digit (decimal_char (n / 1000)) && (is_ascii_digit (decimal_char (n / 100 mod 10))
            && (is_ascii_digit (decimal_char (n / 10 mod 10)) && (is_ascii_digit (decimal_char (n mod 10)) && true)))) then None
   else Z.of_N <$> parse_digits 0 (String (decimal_char (n / 1000)) (String (decimal_char (n / 100 mod 10))
          (String (decimal_char (n / 10 mod 10)) (String (decimal_char (n mod 10)) ""))))) = Some (Z.of_N n).
Proof.
  intros H. assert (n / 1000 < 10) by (apply N.Div0.div_lt_upper_bound; lia).
  assert (forall m, m mod 10 < 10) as Hm by (intros m; apply N.mod_lt; lia).
  rewrite (proj1 (decimal_char_value (n / 1000) ltac:(done))), (proj1 (decimal_char_value (n / 100 mod 10) ltac:(done))),
    (proj1 (decimal_char_value (n / 10 mod 10) ltac:(done))), (proj1 (decimal_char_value (n mod 10) ltac:(done))).
  rewrite parse_four by done. cbn [negb andb fmap option_fmap option_map]. do 2 f_equal.
  pose proof (N.div_mod' n 10). pose proof (N.div_mod' (n / 10) 10). pose proof (N.div_mod' (n / 100) 10).
  rewrite (N.Div0.div_div n 10 10), (N.Div0.div_div n 100 10) in *. change (10 * 10) with 100 in *. change (100 * 10) with 1000 in *. lia.
Qed.

Lemma days_from_date yoe era doy : (0 <= yoe < 400)%Z -> (0 <= doy <= 365)%Z ->
  let '(year, month, day) := date_in (yoe + era * 400) doy in
  days_from_civil year month day = (era * 146097 + year_start yoe + doy - 719468)%Z
  /\ (1 <= month <= 12)%Z /\ (1 <= day <= 31)%Z /\ (yoe + era * 400 <= year <= yoe + era * 400 + 1)%Z.
Proof.
  intros Hy Hd. unfold date_in, month_day. cbv zeta. set (mp := ((5 * doy + 2) / 153)%Z).
  assert (0 <= mp < 12)%Z as Hmp by (subst mp; Z.div_mod_to_equations; lia).
  assert (1 <= doy - (153 * mp + 2) / 5 + 1 <= 31)%Z as Hday by (subst mp; Z.div_mod_to_equations; lia).
  set (month := (if mp <? 10 then mp + 3 else mp - 9)%Z).
  assert ((month + 9) mod 12 = mp)%Z as Hindex by (subst month; destruct (Z.ltb_spec mp 10); Z.div_mod_to_equations; lia).
  assert (1 <= month <= 12)%Z as Hmonth by (subst month; destruct (Z.ltb_spec mp 10); lia).
  assert ((if month <=? 2 then (if month <=? 2 then yoe + era * 400 + 1 else yoe + era * 400) - 1
           else (if month <=? 2 then yoe + era * 400 + 1 else yoe + era * 400)) = yoe + era * 400)%Z as Hshifted by (destruct (month <=? 2)%Z; lia).
  split; [|split_and!; try lia; destruct (month <=? 2)%Z; lia].
  unfold days_from_civil, year_start. cbv zeta. rewrite Hshifted, Hindex.
  assert ((yoe + era * 400) / 400 = era)%Z as -> by (Z.div_mod_to_equations; lia).
  replace (yoe + era * 400 - era * 400)%Z with yoe by lia. lia.
Qed.

(** The days of a date are those it was made of. *)
Lemma days_from_civil_from d :
  let '(year, month, day) := civil_from_days d in days_from_civil year month day = d /\ (1 <= month <= 12)%Z /\ (1 <= day <= 31)%Z.
Proof.
  set (era := ((d + 719468) / 146097)%Z). set (doe := ((d + 719468) mod 146097)%Z).
  assert (d + 719468 = era * 146097 + doe /\ 0 <= doe < 146097)%Z as [Hd Hdoe] by (subst era doe; Z.div_mod_to_equations; lia).
  rewrite (civil_date d era doe) by done. pose proof (day_of_year doe Hdoe) as Hdoy. pose proof (year_of_era_bound doe Hdoe) as Hy.
  assert (year_days (year_of_era doe) <= 366)%Z by (unfold year_days; destruct (is_leap _); lia).
  pose proof (days_from_date (year_of_era doe) era (doe - year_start (year_of_era doe)) Hy ltac:(lia)) as Hdate.
  destruct (date_in _ _) as [[year month] day]. destruct Hdate as (-> & Hm & Hday & _). split_and!; lia.
Qed.

Lemma civil_year d : (0 <= d < 2932897)%Z -> let '(year, _, _) := civil_from_days d in (0 <= year < 10000)%Z.
Proof.
  intros Hd. set (era := ((d + 719468) / 146097)%Z). set (doe := ((d + 719468) mod 146097)%Z).
  assert (d + 719468 = era * 146097 + doe /\ 0 <= doe < 146097)%Z as [He Hdoe] by (subst era doe; Z.div_mod_to_equations; lia).
  rewrite (civil_date d era doe) by done. pose proof (day_of_year doe Hdoe) as Hdoy. pose proof (year_of_era_bound doe Hdoe) as Hy.
  assert (year_days (year_of_era doe) <= 366)%Z by (unfold year_days; destruct (is_leap _); lia).
  set (yoe := year_of_era doe) in *. set (doy := (doe - year_start yoe)%Z) in *.
  unfold date_in, month_day. cbv zeta. set (mp := ((5 * doy + 2) / 153)%Z).
  assert (0 <= mp < 12)%Z by (subst mp; Z.div_mod_to_equations; lia).
  assert (0 <= yoe + era * 400 < 10000)%Z as Hin by (Z.div_mod_to_equations; lia).
  destruct (Z.leb_spec (if (mp <? 10)%Z then mp + 3 else mp - 9)%Z 2%Z) as [Hm|]; [|lia].
  destruct (Z.ltb_spec mp 10%Z); [lia|]. split; [lia|].
  (* January and February of the year 9999 *)
  destruct (Z.eq_dec (yoe + era * 400)%Z 9999%Z) as [H9|]; [|lia]. exfalso.
  assert (era = 24 /\ yoe = 399)%Z as [-> ->] by lia.
  assert (306 <= doy)%Z by (subst mp; Z.div_mod_to_equations; lia). subst doy. change (year_start 399) with 145731%Z in *. lia.
Qed.

(** C26: an instant the host printed reads back as the second it was printed of, to the end of the year 9999. *)
Theorem instants_read_back time : time / 1000000000 < 253402300800 ->
  rfc3339_seconds (format_rfc3339_utc time) = Some (time / 1000000000).
Proof.
  intros Ht. unfold format_rfc3339_utc. set (seconds := time / 1000000000) in *. clearbody seconds.
  set (rem := seconds mod 86400). set (days := seconds / 86400).
  assert (seconds = days * 86400 + rem /\ rem < 86400) as [Hs Hrem] by (subst days rem; split; [rewrite N.mul_comm; apply N.div_mod'|apply N.mod_lt; lia]).
  assert (days < 2932897) as Hdays by (apply N.Div0.div_lt_upper_bound; lia). clearbody rem days.
  pose proof (days_from_civil_from (Z.of_N days)) as Hback. pose proof (civil_year (Z.of_N days) ltac:(lia)) as Hyear.
  destruct (civil_from_days (Z.of_N days)) as [[year month] day]. destruct Hback as (Hback & Hmonth & Hday).
  cbv zeta. rewrite zero_padded_4 by lia. rewrite (zero_padded_2 (Z.to_N month)), (zero_padded_2 (Z.to_N day)) by lia.
  set (hour := rem / 3600). set (minute := rem mod 3600 / 60). set (second := rem mod 60).
  assert (hour < 24 /\ minute < 60 /\ second < 60 /\ rem = hour * 3600 + minute * 60 + second) as (Hh & Hm & Hsec & Hsum).
  { subst hour minute second. pose proof (N.div_mod' rem 3600). pose proof (N.mod_lt rem 3600 ltac:(lia)).
    pose proof (N.div_mod' (rem mod 3600) 60). pose proof (N.mod_lt (rem mod 3600) 60 ltac:(lia)). pose proof (N.mod_lt rem 60 ltac:(lia)).
    assert (rem mod 3600 mod 60 = rem mod 60) by (apply N.mod_unique with (rem / 3600 * 60 + rem mod 3600 / 60); lia).
    split_and!; [apply N.Div0.div_lt_upper_bound; lia|apply N.Div0.div_lt_upper_bound; lia|lia|lia]. }
  clearbody hour minute second. rewrite !zero_padded_2 by lia.
  unfold rfc3339_seconds, digits, sub, byte_is.
  cbn [String.append slen String.length stake sdrop shead Nat.sub Nat.ltb Nat.leb sall String.eqb andb orb negb].
  rewrite four_read, !two_read by lia. cbn [mbind option_bind].
  rewrite !(proj2 (Z.leb_le _ _)), !(proj2 (Z.ltb_ge _ _)) by lia.
  cbn [negb andb orb after_fraction offset_seconds mbind option_bind]. rewrite !Z2N.id by lia. rewrite Hback.
  rewrite (proj2 (Z.leb_le _ _)) by lia. f_equal. lia.
Qed.

(** ** Lines are whole however they arrive *)

Definition newline : ascii := "010".

Definition contents (reads : list (result unit string)) : string :=
  sconcat ((fun read => match read with Ok bytes => bytes | Err _ => "" end) <$> reads).

(** Reads that succeed, each with something in it. *)
Definition delivered (reads : list (result unit string)) : Prop :=
  Forall (fun read => match read with Ok bytes => bytes <> "" | Err _ => False end) reads.

Definition cut_line (limit : N) (line : string) (terminated : bool) : Line := if limit <? slen line then LineOversized else LineRecord line terminated.

(** The lines of a text: each but the last ended by its newline, the last one there only if it is not empty. *)
Fixpoint lines_of (limit : N) (parts : list string) : list Line :=
  match parts with
  | [] => []
  | [line] => if line =s? "" then [] else [cut_line limit line false]
  | line :: parts => cut_line limit line true :: lines_of limit parts
  end.

Lemma split_once_none sep s t : split_once sep s = None ->
  split_once sep (s +:+ t) = (fun '(a, b) => (s +:+ a, b)) <$> split_once sep t.
Proof.
  induction s as [|x s IH]; cbn [split_once String.append]; [by destruct (split_once sep t) as [[]|]|].
  destruct (Ascii.eqb x sep); [done|]. destruct (split_once sep s) as [[]|]; [done|]. intros _. rewrite IH by done.
  by destruct (split_once sep t) as [[]|].
Qed.

Lemma split_once_some sep s t a b : split_once sep s = Some (a, b) -> split_once sep (s +:+ t) = Some (a, b +:+ t).
Proof.
  revert a b. induction s as [|x s IH]; intros a b; cbn [split_once String.append]; [done|]. destruct (Ascii.eqb x sep); [by intros [= <- <-]|].
  destruct (split_once sep s) as [[a' b']|]; [|done]. rewrite (IH a' b') by done. by intros [= <- <-].
Qed.

Lemma split_once_on sep s : split_on sep s = match split_once sep s with Some (a, b) => a :: split_on sep b | None => [s] end.
Proof.
  induction s as [|x s IH]; cbn [split_once split_on]; [done|]. case_bool_decide as Hx; [subst; by rewrite Ascii.eqb_refl|].
  rewrite (proj2 (Ascii.eqb_neq x sep)) by done. rewrite IH. by destruct (split_once sep s) as [[]|].
Qed.

Lemma split_once_length sep s a b : split_once sep s = Some (a, b) -> String.length s = S (String.length a + String.length b).
Proof.
  revert a b. induction s as [|x s IH]; intros a b; cbn [split_once]; [done|]. destruct (Ascii.eqb x sep); [by intros [= <- <-]|].
  destruct (split_once sep s) as [[a' b']|]; [|done]. intros [= <- <-]. cbn. by rewrite (IH a' b').
Qed.

Lemma contents_cons bytes reads : contents (Ok bytes :: reads) = bytes +:+ contents reads.
Proof. done. Qed.

Lemma unread_cons bytes reads : unread (Ok bytes :: reads) = (S (String.length bytes) + unread reads)%nat.
Proof. done. Qed.

(** One line, from the reads it is spread over. *)
Lemma read_bounded_line_spec limit line oversized read_any reads : delivered reads -> (oversized = false -> slen line <= limit) ->
  match split_once newline (contents reads) with
  | Some (rest, after) =>
      exists reads', read_bounded_line limit line oversized read_any reads
        = Some (if oversized || (limit <? slen (line +:+ rest)) then LineOversized else LineRecord (line +:+ rest) true, reads')
        /\ delivered reads' /\ contents reads' = after /\ (unread reads' < unread reads)%nat
  | None =>
      read_bounded_line limit line oversized read_any reads
      = Some (if read_any || negb (len reads =? 0)
              then if oversized || (limit <? slen (line +:+ contents reads)) then LineOversized else LineRecord (line +:+ contents reads) false
              else LineEnd, [])
  end.
Proof.
  intros Hd. revert line oversized read_any. induction Hd as [|[bytes|] reads Hb Hd IH]; intros line oversized read_any Hline; [| |done].
  - cbn [contents sconcat fmap list_fmap foldr split_once read_bounded_line]. rewrite str_app_nil_r. change (len [] =? 0) with true. rewrite orb_false_r.
    destruct oversized; [done|]. rewrite (proj2 (N.ltb_ge _ _)) by auto. done.
  - cbn [read_bounded_line]. rewrite (proj2 (String.eqb_neq bytes "")) by done. rewrite contents_cons.
    change (len (Ok bytes :: reads) =? 0) with false. cbn [negb]. rewrite orb_true_r.
    assert (slen bytes + slen line = slen line + slen bytes) as Hcomm by lia.
    destruct (split_once newline bytes) as [[chunk rest]|] eqn:Hs.
    + rewrite (split_once_some _ _ _ _ _ Hs). change "010"%char with newline. rewrite Hs.
      pose proof (split_once_length _ _ _ _ Hs) as Hlen.
      eexists. split; [destruct oversized; [reflexivity|]; rewrite slen_app; by destruct (limit <? slen line + slen chunk)|].
      destruct (String.eqb_spec rest "") as [->|Hrest].
      * split_and!; [done|done|]. rewrite unread_cons. lia.
      * split_and!; [by constructor|done|]. rewrite !unread_cons. lia.
    + rewrite (split_once_none _ _ _ Hs). change "010"%char with newline. rewrite Hs.
      set (over := oversized || (limit <? slen line + slen bytes)).
      assert ((if oversized then (line, true) else if limit <? slen line + slen bytes then ("", true) else (line +:+ bytes, false))
        = (if over then if oversized then line else "" else line +:+ bytes, over)) as ->
        by (subst over; destruct oversized; [done|]; by destruct (limit <? _)).
      assert (over = false -> slen (line +:+ bytes) <= limit) as Hover.
      { subst over. destruct oversized; [done|]. cbn [orb]. intros H%N.ltb_ge. by rewrite slen_app. }
      specialize (IH (if over then if oversized then line else "" else line +:+ bytes) over true ltac:(by destruct over; [|intros _; apply Hover])).
      assert (forall t, over || (limit <? slen ((if over then if oversized then line else "" else line +:+ bytes) +:+ t))
                = oversized || (limit <? slen (line +:+ (bytes +:+ t)))) as Hsame.
      { intros t. rewrite str_app_assoc. subst over. destruct oversized; [done|]. cbn [orb]. destruct (N.ltb_spec limit (slen line + slen bytes)); [|done].
        cbn [orb]. symmetry. apply N.ltb_lt. rewrite !slen_app. lia. }
      destruct (split_once newline (contents reads)) as [[a b]|]; cbn [fmap option_fmap option_map].
      * destruct IH as (reads' & -> & Hd' & Hc & Hu). exists reads'. rewrite Hsame. split_and!; [|done|done|rewrite unread_cons; lia].
        destruct (oversized || (limit <? slen (line +:+ (bytes +:+ a)))) eqn:Ho; [done|]. assert (over = false) as -> by (subst over; rewrite !slen_app in Ho; destruct oversized; [done|]; cbn in Ho |- *; apply N.ltb_ge in Ho; apply N.ltb_ge; lia).
        by rewrite str_app_assoc.
      * rewrite IH, Hsame. cbn [orb].
        destruct (oversized || (limit <? slen (line +:+ (bytes +:+ contents reads)))) eqn:Ho; [done|]. assert (over = false) as -> by (subst over; rewrite !slen_app in Ho; destruct oversized; [done|]; cbn in Ho |- *; apply N.ltb_ge in Ho; apply N.ltb_ge; lia).
        by rewrite str_app_assoc.
Qed.

Lemma lines_of_split limit text :
  lines_of limit (split_on newline text)
  = match split_once newline text with
    | Some (line, rest) => cut_line limit line true :: lines_of limit (split_on newline rest)
    | None => if text =s? "" then [] else [cut_line limit text false]
    end.
Proof.
  rewrite split_once_on. destruct (split_once newline text) as [[a b]|]; [|done].
  cbn [lines_of]. pose proof (split_on_nonempty newline b). by destruct (split_on newline b).
Qed.

Lemma contents_empty reads : delivered reads -> contents reads = "" <-> reads = [].
Proof.
  intros Hd. split; [|by intros ->]. destruct Hd as [|[bytes|] reads Hb Hd]; [done| |done]. rewrite contents_cons. by destruct bytes.
Qed.

Lemma unread_positive reads : (0 < unread reads)%nat.
Proof. destruct reads as [|[]]; cbn [unread foldr]; lia. Qed.

Section reading.
Context (to_string : Value -> option string) (from_str : string -> option Value) (to_vec : WireTimelineEntry -> option string)
  (sha256 : list N -> list N) (unix_now : N -> N) (scheme : SourceScheme) (created_at_ms : option N).

Abbreviation take_one := (take_line to_string from_str to_vec sha256 unix_now scheme created_at_ms).

(** The lines of a file, one after the other. *)
Fixpoint take_lines (lines : list Line) (m : HistoryMapper) : option (HistoryMapper * list note) :=
  match lines with
  | [] => Some (m, [])
  | line :: lines =>
      '(m, first) ← take_one line m;
      '(m, others) ← take_lines lines m;
      Some (m, (first ++ others)%list)
  end.

(** C25: however the reads cut the file, what is made of it is what its lines make, one after the other: none is
    cut, joined or lost between two reads, a line over the bound is one hole, and only the last may lack its
    newline. *)
Theorem lines_whole reads m : delivered reads ->
  read_lines to_string from_str to_vec sha256 unix_now scheme (unread reads) created_at_ms reads m
  = take_lines (lines_of MAX_RECORD_BYTES (split_on newline (contents reads))) m.
Proof.
  enough (forall fuel reads m, delivered reads -> (unread reads <= fuel)%nat ->
    read_lines to_string from_str to_vec sha256 unix_now scheme fuel created_at_ms reads m
    = take_lines (lines_of MAX_RECORD_BYTES (split_on newline (contents reads))) m) as H by (intros Hd; by apply H).
  clear. induction fuel as [|fuel IH]; intros reads m Hd Hf; [pose proof (unread_positive reads); lia|].
  cbn [read_lines]. unfold next_line. pose proof (read_bounded_line_spec MAX_RECORD_BYTES "" false false reads Hd ltac:(done)) as Hline.
  rewrite lines_of_split. destruct (split_once newline (contents reads)) as [[a b]|].
  - destruct Hline as (reads' & -> & Hd' & <- & Hu). cbn [mbind option_bind String.append orb take_lines].
    change (if MAX_RECORD_BYTES <? slen a then LineOversized else LineRecord a true) with (cut_line MAX_RECORD_BYTES a true).
    assert (forall k : option (HistoryMapper * list note), match cut_line MAX_RECORD_BYTES a true with LineEnd => Some (m, []) | _ => k end = k) as ->
      by (intros k; unfold cut_line; by destruct (_ <? _)).
    destruct (take_one (cut_line MAX_RECORD_BYTES a true) m) as [[m1 first]|]; [|done]. cbn [mbind option_bind]. by rewrite IH by (done || lia).
  - rewrite Hline. cbn [mbind option_bind String.append orb].
    destruct (String.eqb_spec (contents reads) "") as [He|He].
    + apply contents_empty in He; [|done]. by subst.
    + destruct (N.eqb_spec (len reads) 0) as [Hl|Hl]; [destruct reads; [done|rewrite len_cons in Hl; lia]|]. cbn [negb take_lines].
      change (if MAX_RECORD_BYTES <? slen (contents reads) then LineOversized else LineRecord (contents reads) false)
        with (cut_line MAX_RECORD_BYTES (contents reads) false).
      assert (forall k : option (HistoryMapper * list note), match cut_line MAX_RECORD_BYTES (contents reads) false with LineEnd => Some (m, []) | _ => k end = k)
        as -> by (intros k; unfold cut_line; by destruct (_ <? _)).
      destruct (take_one _ m) as [[m1 first]|]; [|done]. cbn [mbind option_bind]. destruct fuel as [|fuel]; [|done].
      destruct reads as [|[bytes|] reads]; [done| |by inversion Hd]. rewrite unread_cons in Hf. pose proof (unread_positive reads). lia.
Qed.
End reading.
