(* ===== verification/ClaudeMapperSpec.v ===== *)
(** The mapper of Claude's transcript: its index is exact, it stays within its bounds, every loop ends, and every
    row it hands over is one the timeline accepts. *)
From S2P Require Import Prelude Text Protocol Metadata Reconcile Timeline Fit UploadNames Downloads Whereabouts Output HookCommon AgentAdapter ClaudeHook HookSpec ClaudeHookSpec.
From S2P Require Import ClaudeHistory ClaudeHistorySpec.

Local Open Scope string_scope.
Local Open Scope N_scope.

Definition slot_source (slot : Slot) : string := ne_source_id (sl_entry slot).

Definition total_bytes (slots : list Slot) : N := foldr N.add 0 (sl_bytes <$> slots).

Lemma total_bytes_app a b : total_bytes (a ++ b) = total_bytes a + total_bytes b.
Proof. unfold total_bytes. induction a as [|x a IH]; cbn in *; lia. Qed.

Lemma total_bytes_cons slot slots : total_bytes (slot :: slots) = sl_bytes slot + total_bytes slots.
Proof. done. Qed.

Lemma total_bytes_insert slots i old new : slots !! i = Some old ->
  sl_bytes old <= total_bytes slots /\ total_bytes (<[i := new]> slots) = total_bytes slots - sl_bytes old + sl_bytes new.
Proof.
  intros Hi. pose proof (f_equal total_bytes (take_drop_middle slots i old Hi)) as Hs. rewrite total_bytes_app, total_bytes_cons in Hs.
  rewrite insert_take_drop by by apply lookup_lt_Some in Hi. rewrite total_bytes_app, total_bytes_cons. lia.
Qed.

Section sound.
Context (to_vec : WireTimelineEntry -> option string).

Abbreviation size := (entry_bytes to_vec).

(** The index names exactly the rows that are held, none of them is also evicted, and the bytes are counted. *)
Record sound (m : HistoryMapper) : Prop := {
  sound_index s i : hm_by_source m !! s = Some i <-> exists k slot, i = (hm_base m + k)%nat /\ hm_slots m !! k = Some slot /\ slot_source slot = s;
  sound_evicted s : s ∈ hm_evicted m -> hm_by_source m !! s = None;
  sound_bytes : hm_bytes m = total_bytes (hm_slots m);
  sound_rows : Forall (fun slot => sl_bytes slot = size (sl_entry slot) /\ NormalizedTimelineEntry_validate (sl_entry slot) = Ok tt) (hm_slots m) }.

Lemma sound_new : sound HistoryMapper_new.
Proof.
  split; cbn.
  - intros s i. rewrite lookup_empty. split; [done|]. by intros (k & slot & _ & Hk & _).
  - intros s Hs. by apply lookup_empty.
  - done.
  - constructor.
Qed.

Lemma sound_distinct m : sound m -> NoDup (slot_source <$> hm_slots m).
Proof.
  intros Hm. apply NoDup_alt. intros i j s Hi Hj. rewrite list_lookup_fmap in Hi, Hj.
  destruct (hm_slots m !! i) as [a|] eqn:Ha, (hm_slots m !! j) as [b|] eqn:Hb; try done. cbn in Hi, Hj. injection Hi as Hi. injection Hj as Hj.
  assert (hm_by_source m !! s = Some (hm_base m + i)%nat) as H1 by (apply (sound_index m Hm); eauto).
  assert (hm_by_source m !! s = Some (hm_base m + j)%nat) as H2 by (apply (sound_index m Hm); eauto).
  rewrite H1 in H2. injection H2. lia.
Qed.

(** Fields the rows do not depend on. *)
Lemma sound_fields m m' : sound m -> hm_slots m' = hm_slots m -> hm_base m' = hm_base m -> hm_by_source m' = hm_by_source m ->
  hm_evicted m' = hm_evicted m -> hm_bytes m' = hm_bytes m -> sound m'.
Proof. intros [H1 H2 H3 H4] Es Eb Ei Ee En. split; rewrite ?Es, ?Eb, ?Ei, ?Ee, ?En; done. Qed.

(** ** Eviction *)

(** The mapper without its oldest rows. *)
Definition without_oldest (k : nat) (m : HistoryMapper) : HistoryMapper :=
  mkHistoryMapper (drop k (hm_slots m)) (hm_base m + k)%nat
    (foldr (fun slot index => delete (slot_source slot) index) (hm_by_source m) (reverse (take k (hm_slots m))))
    (foldr (fun slot evicted => {[slot_source slot]} ∪ evicted) (hm_evicted m) (reverse (take k (hm_slots m))))
    (hm_bytes m - total_bytes (take k (hm_slots m))) (hm_prompts m) (hm_turn_prompts m) (hm_messages m)
    (hm_truncated m || negb (k =? 0)%nat).

Lemma evict_oldest_sound m slot slots : sound m -> hm_slots m = slot :: slots ->
  exists m', evict_oldest m = Some m' /\ sound m' /\ hm_slots m' = slots /\ m' = without_oldest 1 m.
Proof.
  intros Hm Hs. pose proof (sound_bytes m Hm) as Hb. rewrite Hs in Hb.
  assert (sl_bytes slot <= hm_bytes m) by (rewrite Hb; unfold total_bytes; cbn [fmap list_fmap foldr]; lia).
  unfold evict_oldest. rewrite Hs, (proj2 (N.ltb_ge _ _)) by done. eexists. split; [reflexivity|]. split_and!; cbn [hm_slots]; [|done|].
  2:{ unfold without_oldest. rewrite Hs. cbn [take drop reverse rev_append foldr Nat.eqb negb]. rewrite orb_true_r.
      f_equal; [lia|]. rewrite total_bytes_cons. change (total_bytes (take 0 slots)) with 0. lia. }
  pose proof (sound_distinct m Hm) as Hnd. rewrite Hs in Hnd. cbn [fmap list_fmap] in Hnd. apply NoDup_cons in Hnd as [Hnew Hnd].
  split; cbn [hm_by_source hm_base hm_slots hm_evicted hm_bytes].
  - intros s i. rewrite lookup_delete_Some, (sound_index m Hm), Hs. split.
    + intros (Hne & k & x & -> & Hk & Hx). destruct k as [|k]; [cbn in Hk; injection Hk as ->; by exfalso; apply Hne|]. exists k, x. split; [lia|done].
    + intros (k & x & -> & Hk & Hx). split; [|by exists (S k), x; split; [lia|]]. intros <-. apply Hnew.
      apply list_elem_of_fmap. exists x. split; [by symmetry|by eapply list_elem_of_lookup_2].
  - intros s [->%elem_of_singleton|Hin]%elem_of_union; [by apply lookup_delete_eq|]. apply lookup_delete_None. right. by apply (sound_evicted m Hm).
  - rewrite Hb. unfold total_bytes. cbn [fmap list_fmap foldr]. lia.
  - pose proof (sound_rows m Hm) as Hr. rewrite Hs in Hr. by apply Forall_cons in Hr as [_ ?].
Qed.

Lemma without_oldest_S k m slot slots : hm_slots m = slot :: slots -> sl_bytes slot <= hm_bytes m ->
  without_oldest k (without_oldest 1 m) = without_oldest (S k) m.
Proof.
  intros Hs Hb. unfold without_oldest. cbn [hm_slots hm_base hm_by_source hm_evicted hm_bytes hm_prompts hm_turn_prompts hm_messages hm_truncated].
  rewrite Hs. cbn [take drop]. rewrite take_0, drop_0, !reverse_cons, !foldr_app. change (reverse (@nil Slot)) with (@nil Slot). cbn [app foldr]. f_equal.
  - lia.
  - rewrite !total_bytes_cons. change (total_bytes []) with 0. lia.
  - cbn. rewrite orb_true_r. done.
Qed.

Lemma without_oldest_0 m : without_oldest 0 m = m.
Proof.
  destruct m as [rows base index evicted bytes prompts turns messages truncated]. unfold without_oldest. cbn [hm_slots hm_base hm_by_source hm_evicted hm_bytes hm_prompts hm_turn_prompts hm_messages hm_truncated].
  rewrite take_0, drop_0. change (reverse (@nil Slot)) with (@nil Slot). change (total_bytes []) with 0. cbn [foldr].
  f_equal; [lia|lia|apply orb_false_r].
Qed.

(** The loop ends, by the time nothing is held. *)
Lemma evict_while_sound over m :
  sound m -> (forall m, hm_slots m = [] -> hm_bytes m = 0 -> over m = false) ->
  exists k, evict_while over (length (hm_slots m)) m = Some (without_oldest k m) /\ sound (without_oldest k m) /\ over (without_oldest k m) = false
    /\ (k <= length (hm_slots m))%nat /\ forall j, (j < k)%nat -> over (without_oldest j m) = true.
Proof.
  intros Hm Hempty. remember (length (hm_slots m)) as n eqn:Hn. revert m Hm Hn. induction n as [|n IH]; intros m Hm Hn.
  - exists 0%nat. rewrite without_oldest_0. cbn [evict_while]. assert (hm_slots m = []) as Hs by by destruct (hm_slots m).
    rewrite Hempty; [|done|by rewrite (sound_bytes m Hm), Hs]. by split_and!; [| | | |lia].
  - cbn [evict_while]. destruct (over m) eqn:Ho.
    + destruct (hm_slots m) as [|slot slots] eqn:Hs; [done|]. destruct (evict_oldest_sound m slot slots Hm Hs) as (m' & Hev & Hm' & Hs' & ->).
      assert (sl_bytes slot <= hm_bytes m) as Hle by (rewrite (sound_bytes m Hm), Hs; unfold total_bytes; cbn [fmap list_fmap foldr]; lia).
      destruct (IH (without_oldest 1 m) Hm') as (k & Hk & Hsk & Hok & Hlek & Hall); [rewrite Hs'; cbn in Hn; lia|].
      exists (S k). rewrite Hev. cbn [mbind option_bind]. rewrite <- (without_oldest_S k m slot slots) by done.
      split_and!; [done|done|done|lia|]. intros [|j] Hj; [by rewrite without_oldest_0|]. rewrite <- (without_oldest_S j m slot slots) by done. apply Hall. lia.
    + exists 0%nat. rewrite without_oldest_0. by split_and!; [| | |lia|lia].
Qed.

(** ** Rows *)

Definition body_ok (body : MappedBody) : Prop :=
  TimelineBody_validate_within (mb_body body) MAX_RETAINED_TEXT_BYTES = Ok tt
  /\ Truncation_validate (mb_truncation body) = Ok tt /\ refuse_adapter_body_available (mb_truncation body) = Ok tt.

Lemma row_ok source revision timestamp kind body :
  valid_source_id source = Ok tt -> revision <> 0 -> timestamp <> 0 -> valid_token kind = Ok tt -> body_ok body ->
  NormalizedTimelineEntry_validate (mkNormalizedTimelineEntry source revision timestamp "complete" kind (mb_body body) (mb_truncation body)) = Ok tt.
Proof.
  intros Hs Hr Ht Hk (Hb & Htr & Ha). unfold NormalizedTimelineEntry_validate.
  cbn [ne_source_id ne_source_revision ne_timestamp ne_state ne_kind ne_body ne_truncation].
  rewrite Hs, Hk, Hb, Htr, Ha, (proj2 (N.eqb_neq _ _) Hr), (proj2 (N.eqb_neq _ _) Ht). done.
Qed.

Lemma row_facts e : NormalizedTimelineEntry_validate e = Ok tt ->
  valid_source_id (ne_source_id e) = Ok tt /\ ne_source_revision e <> 0 /\ body_ok (mkMappedBody (ne_body e) (ne_truncation e)).
Proof.
  unfold NormalizedTimelineEntry_validate. rewrite !rbind_unit_ok. unfold invalid_if at 1. rewrite refuse_if_ok, orb_false_iff, N.eqb_neq.
  intros (? & ? & ? & ? & ? & ? & ? & ?). by split_and!.
Qed.

(** A row put: where it was, or at the end. *)
Lemma put_sound source timestamp kind body m :
  sound m -> source ∉ hm_evicted m -> valid_source_id source = Ok tt -> timestamp <> 0 -> valid_token kind = Ok tt -> body_ok body ->
  exists m' position entry, put to_vec source timestamp kind body m = Some m' /\ sound m'
    /\ hm_slots m' = (take position (hm_slots m) ++ mkSlot entry (size entry) :: drop (S position) (hm_slots m))%list
    /\ ne_source_id entry = source /\ hm_evicted m' = hm_evicted m /\ hm_base m' = hm_base m /\ hm_truncated m' = hm_truncated m.
Proof.
  intros Hm Hnew Hs Ht Hk Hb. unfold put. destruct (hm_by_source m !! source) as [index|] eqn:Hi.
  - pose proof Hi as Hix. apply (sound_index m Hm) in Hix as (k & slot & -> & Hslot & Hsrc).
    rewrite (proj2 (Nat.ltb_ge _ _)) by lia. replace (hm_base m + k - hm_base m)%nat with k by lia. rewrite Hslot. cbn [mbind option_bind].
    destruct (total_bytes_insert (hm_slots m) k slot (mkSlot (mkNormalizedTimelineEntry (ne_source_id (sl_entry slot))
      (sat_add64 (ne_source_revision (sl_entry slot)) 1) timestamp "complete" kind (mb_body body) (mb_truncation body)) (size (mkNormalizedTimelineEntry (ne_source_id (sl_entry slot))
      (sat_add64 (ne_source_revision (sl_entry slot)) 1) timestamp "complete" kind (mb_body body) (mb_truncation body)))) Hslot) as [Hle Htotal].
    rewrite (sound_bytes m Hm), (proj2 (N.ltb_ge _ _)) by done.
    set (entry := mkNormalizedTimelineEntry (ne_source_id (sl_entry slot)) _ _ _ _ _ _) in *.
    assert (k < length (hm_slots m))%nat as Hlt by by apply lookup_lt_Some in Hslot.
    assert (NormalizedTimelineEntry_validate entry = Ok tt) as Hentry.
    { pose proof (Forall_lookup_1 _ _ _ _ (sound_rows m Hm) Hslot) as [_ Hrow]. apply row_facts in Hrow as (Hv & _ & _).
      apply row_ok; try done. unfold sat_add64, u64_max. lia. }
    eexists _, k, entry. split; [reflexivity|]. split_and!; [|cbn [set_slots hm_slots]; by rewrite insert_take_drop|done|done|done|done].
    split; cbn [set_slots hm_by_source hm_base hm_slots hm_evicted hm_bytes].
    + intros s i. rewrite (sound_index m Hm). split; intros (j & x & -> & Hj & Hx); exists j.
      * destruct (decide (j = k)) as [->|]; [exists (mkSlot entry (size entry)); rewrite list_lookup_insert_eq by done; rewrite Hslot in Hj; injection Hj as <-; done|].
        exists x. rewrite list_lookup_insert_ne by done. done.
      * destruct (decide (j = k)) as [->|]; [exists slot; rewrite list_lookup_insert_eq in Hj by done; injection Hj as <-; done|].
        exists x. rewrite list_lookup_insert_ne in Hj by done. done.
    + apply (sound_evicted m Hm).
    + by rewrite Htotal.
    + apply Forall_insert; [apply (sound_rows m Hm)|done].
  - set (entry := mkNormalizedTimelineEntry source 1 timestamp "complete" kind (mb_body body) (mb_truncation body)).
    eexists _, (length (hm_slots m)), entry. split; [reflexivity|]. split_and!;
      [|cbn [hm_slots]; by rewrite firstn_all, drop_ge by lia|done|done|done|done].
    split; cbn [hm_by_source hm_base hm_slots hm_evicted hm_bytes].
    + intros s i. destruct (decide (s = source)) as [->|Hne].
      * rewrite lookup_insert_eq. split.
        -- intros [= <-]. exists (length (hm_slots m)), (mkSlot entry (size entry)). by rewrite list_lookup_middle.
        -- intros (k & x & -> & Hk' & Hx). destruct (decide (k = length (hm_slots m))) as [->|]; [done|].
           rewrite lookup_app_l in Hk' by (apply lookup_lt_Some in Hk'; rewrite length_app in Hk'; cbn in Hk'; lia).
           assert (hm_by_source m !! source = Some (hm_base m + k)%nat) by (apply (sound_index m Hm); eauto). congruence.
      * rewrite lookup_insert_ne by done. rewrite (sound_index m Hm). split; intros (k & x & -> & Hk' & Hx); exists k, x; split_and!; try done.
        -- rewrite lookup_app_l; [done|by apply lookup_lt_Some in Hk'].
        -- destruct (decide (k = length (hm_slots m))) as [->|]; [rewrite list_lookup_middle in Hk' by done; injection Hk' as <-; by rewrite <- Hx in Hne|].
           by rewrite lookup_app_l in Hk' by (apply lookup_lt_Some in Hk'; rewrite length_app in Hk'; cbn in Hk'; lia).
    + intros s Hin. rewrite lookup_insert_ne; [by apply (sound_evicted m Hm)|]. by intros <-.
    + rewrite (sound_bytes m Hm), total_bytes_app, total_bytes_cons. change (total_bytes []) with 0. cbn [sl_bytes]. lia.
    + apply Forall_app. split; [apply (sound_rows m Hm)|]. constructor; [|constructor]. split; [done|]. by apply row_ok.
Qed.
End sound.

(** ** Bodies *)

Lemma prose_fits text limit : is_some_and (fun text => limit <? slen text) (bd_text (bounded_prose text limit)) = false.
Proof.
  unfold bounded_prose. destruct (truncate_utf8 text limit) as [cut truncated] eqn:Ht. destruct (truncate_utf8_spec _ _ _ _ Ht) as (i & _ & _ & Hle & _).
  apply N.ltb_ge. lia.
Qed.

Lemma named_cut_ok truncated reason original :
  valid_token reason = Ok tt -> opt_is (Some reason) TRUNCATION_BODY_AVAILABLE = false ->
  Truncation_validate (named_cut truncated reason original) = Ok tt /\ refuse_adapter_body_available (named_cut truncated reason original) = Ok tt.
Proof.
  intros Hr Ha. unfold named_cut. destruct truncated; [|done]. cbn [negb]. split.
  - unfold Truncation_validate. cbn [tr_reason_code tr_truncated opt_each]. rewrite Hr. done.
  - unfold refuse_adapter_body_available. cbn [tr_reason_code]. by rewrite Ha.
Qed.

Lemma text_body_ok text : body_ok (text_body text).
Proof.
  unfold text_body, body_ok. cbn [mb_body mb_truncation]. pose proof (prose_fits text HISTORY_TEXT_BYTES) as Hp.
  destruct (bounded_prose text HISTORY_TEXT_BYTES) as [[cut|] truncated original] eqn:Hb; [|unfold bounded_prose in Hb; by destruct (truncate_utf8 _ _)].
  cbn [bd_text bd_truncated bd_original_bytes default is_some_and TimelineBody_validate_within] in *. apply N.ltb_ge in Hp.
  change (id cut) with cut. change HISTORY_TEXT_BYTES with MAX_RETAINED_TEXT_BYTES in Hp. split; [by rewrite (proj2 (N.leb_le _ _) Hp)|]. by apply named_cut_ok.
Qed.

Lemma unsupported_body_ok reason : valid_token reason = Ok tt -> body_ok (unsupported_body reason).
Proof. intros H. by split_and!. Qed.

Section bodies.
Context (to_string : Value -> option string) (from_str : string -> option Value).

Lemma json_fits serialized limit : is_some_and (fun text => limit <? slen text) (bd_text (bounded_json to_string from_str serialized limit)) = false.
Proof.
  unfold bounded_json. destruct (from_str serialized) as [document|]; [|apply prose_fits].
  destruct (N.leb_spec (slen serialized) limit); [by apply N.ltb_ge|]. apply bounded_preview_fits.
Qed.

Lemma opt_fits (f : string -> Bounded) limit o : (forall s, is_some_and (fun text => limit <? slen text) (bd_text (f s)) = false) ->
  is_some_and (fun text => limit <? slen text) ((f <$> o) ≫= bd_text) = false.
Proof. intros H. destruct o; [apply H|done]. Qed.

Lemma tool_body_ok name status input result :
  valid_token name = Ok tt -> valid_token status = Ok tt -> body_ok (tool_body to_string from_str name status input result).
Proof.
  intros Hn Hs. unfold tool_body, body_ok. cbn [mb_body mb_truncation TimelineBody_validate_within]. split; [|by apply named_cut_ok].
  unfold ToolTimelineBody_validate. cbn [tb_name tb_status tb_input_preview tb_result_preview]. rewrite Hn, Hs. cbn [rbind].
  by rewrite (opt_fits _ MAX_TOOL_INPUT_PREVIEW_BYTES), (opt_fits _ MAX_TOOL_RESULT_PREVIEW_BYTES)
    by (intros; first [apply json_fits|apply prose_fits]).
Qed.

Lemma token_chars_ok cs : sall token_byte (sconcat ((fun c => if token_char c then c else String.concat "" (replicate (len_utf16 c) "_")) <$> cs)) = true.
Proof.
  induction cs as [|c cs IH]; [done|]. cbn [fmap list_fmap]. rewrite sconcat_cons, sall_app, IH, andb_true_r. destruct (token_char c) eqn:Hc.
  - destruct c as [|b [|]]; try done. cbn [token_char sall] in *. rewrite andb_true_r. unfold token_byte. apply orb_true_iff in Hc as [->|Hc]; [done|].
    apply existsb_exists in Hc as (x & Hin & Hx%Ascii.eqb_eq). subst x. destruct Hin as [<-|[<-|[<-|[]]]]; by vm_compute.
  - unfold len_utf16. by destruct (_ =? 4)%nat.
Qed.

Lemma safe_tool_name_ok name : valid_token (safe_tool_name to_string name) = Ok tt.
Proof.
  unfold safe_tool_name. match goal with |- context [chars ?r] => generalize r as raw; intros raw end.
  set (token := sconcat _). pose proof (token_chars_ok (chars raw)) as Ht. fold token in Ht. clearbody token.
  destruct (String.eqb_spec (stake 64 token) "") as [He|He]; [by vm_compute|].
  unfold valid_token, invalid_if. apply refuse_if_ok. rewrite !orb_false_iff, N.eqb_neq, N.ltb_ge, negb_false_iff.
  split_and!; [|unfold slen; rewrite stake_length; unfold MAX_TOKEN_BYTES; lia|by apply sall_stake].
  destruct (stake 64 token); [done|]. unfold slen. cbn. lia.
Qed.
End bodies.

Section sources.
Context (sha256 : list N -> list N) (sha256_law : sha256_bytes sha256).

Definition namespace_ok (prefix : string) : bool := (String.length prefix <=? 20)%nat && sall token_byte prefix.

Lemma managed_source_ok prefix key : namespace_ok prefix = true -> valid_source_id (managed_source_id sha256 prefix key) = Ok tt.
Proof.
  intros [Hl%Nat.leb_le Ht]%andb_prop. unfold managed_source_id.
  assert (forall s, 0 < slen s <= 128 -> sall (fun b => token_byte b || (nb b =? 58)) s = true -> valid_source_id s = Ok tt) as Hok.
  { intros s Hs Hb. unfold valid_source_id, invalid_if. apply refuse_if_ok. rewrite !orb_false_iff, N.eqb_neq, N.ltb_ge, negb_false_iff.
    unfold MAX_UPSTREAM_SOURCE_ID_BYTES. split_and!; [lia|lia|done]. }
  destruct (_ && _) eqn:Hraw.
  - apply andb_prop in Hraw as [Hlen%N.leb_le Hb]. apply Hok; [rewrite !slen_app in *; change (slen "-") with 1 in *; lia|].
    eapply sall_impl; [|exact Hb]. intros b [Hb'|Hb']%orb_prop; [unfold token_byte; by rewrite Hb'|].
    apply existsb_exists in Hb' as (x & Hin & Hx%Ascii.eqb_eq). subst x. destruct Hin as [<-|[<-|[<-|[<-|[]]]]]; by vm_compute.
  - match goal with |- context [sha256 ?m] => destruct (sha256_law m) as [Hd Hb]; set (d := sha256 m) in * end.
    destruct (hex_facts d Hb) as (_ & Hhl & _ & Hha). apply Hok.
    + unfold slen. rewrite !str_length_app, stake_length, Hhl, Hd. cbn [String.length]. lia.
    + rewrite !sall_app. assert (sall (fun b => token_byte b || (nb b =? 58)) prefix = true) as -> by (eapply sall_impl; [|exact Ht]; intros b Hb'; by rewrite Hb').
      assert (sall (fun b => token_byte b || (nb b =? 58)) (stake 32 (hex d)) = true) as ->; [|done].
      apply sall_stake. eapply sall_impl; [|exact Hha]. intros b Hb'. by rewrite (alphanumeric_token b Hb').
Qed.

Lemma source_ok scheme prefix key : namespace_ok prefix = true -> valid_source_id (source sha256 scheme prefix key) = Ok tt.
Proof.
  intros Hp. unfold source. destruct scheme; [|by apply managed_source_ok]. pose proof Hp as Hp'. apply andb_prop in Hp' as [Hl%Nat.leb_le Ht].
  destruct (prefix =s? "assistant"); apply valid_source_id_of, opaque_digest_ok; try done. cbn. lia.
Qed.
End sources.

(** ** Records *)

Section records.
Context (to_string : Value -> option string) (from_str : string -> option Value) (to_vec : WireTimelineEntry -> option string)
  (sha256 : list N -> list N) (unix_now : N -> N) (scheme : SourceScheme) (created_at_ms : option N) (over : HistoryMapper -> bool).
Context (sha256_law : sha256_bytes sha256) (over_empty : forall m, hm_slots m = [] -> hm_bytes m = 0 -> over m = false).

(** Whether the beginning is known to be missing, which is not forgotten. *)
Context (cut : bool).

Definition kept (m : HistoryMapper) : Prop := sound to_vec m /\ over m = false /\ (cut = true -> hm_truncated m = true).

Lemma upsert_kept source at_ kind body m :
  kept m -> valid_source_id source = Ok tt -> at_ <> 0 -> valid_token kind = Ok tt -> body_ok body ->
  exists m', upsert to_vec over source at_ kind body m = Some m' /\ kept m'.
Proof.
  intros (Hm & Ho & Hcut) Hs Ht Hk Hb. unfold upsert. destruct (bool_decide_reflect (source ∈ hm_evicted m)) as [|Hnew]; [by exists m|].
  destruct (put_sound to_vec source at_ kind body m Hm Hnew Hs Ht Hk Hb) as (m1 & _ & _ & -> & Hm1 & _ & _ & _ & _ & Htr). cbn [mbind option_bind].
  destruct (evict_while_sound to_vec over m1 Hm1 over_empty) as (k & -> & Hk1 & Hk2 & _). eexists. split; [reflexivity|]. split_and!; [done|done|].
  intros Hc. cbn [without_oldest hm_truncated]. by rewrite Htr, (Hcut Hc).
Qed.

Lemma existing_row source m : sound to_vec m -> exists row, existing source m = Some row
  /\ forall entry, row = Some entry -> NormalizedTimelineEntry_validate entry = Ok tt /\ ne_source_id entry = source.
Proof.
  intros Hm. unfold existing. destruct (hm_by_source m !! source) as [index|] eqn:Hi; [|by exists None].
  apply (sound_index to_vec m Hm) in Hi as (k & slot & -> & Hk & Hsrc). rewrite (proj2 (Nat.ltb_ge _ _)) by lia.
  replace (hm_base m + k - hm_base m)%nat with k by lia. rewrite Hk. cbn [mbind option_bind]. eexists. split; [reflexivity|].
  intros entry [= <-]. split; [|done]. by pose proof (Forall_lookup_1 _ _ _ _ (sound_rows to_vec m Hm) Hk) as [_ ?].
Qed.

Lemma tool_row_tokens entry tool : NormalizedTimelineEntry_validate entry = Ok tt -> tool_of entry = Some tool ->
  valid_token (tb_name tool) = Ok tt /\ valid_token (tb_status tool) = Ok tt.
Proof.
  intros (_ & _ & Hb & _)%row_facts. unfold tool_of. cbn [mb_body] in Hb. destruct (ne_body entry); try done. intros [= <-].
  cbn [TimelineBody_validate_within] in Hb. unfold ToolTimelineBody_validate in Hb. by apply rbind_unit_ok in Hb as [? [? _]%rbind_unit_ok].
Qed.

Lemma tool_update_ok name status input result row :
  (forall n, name = Some n -> valid_token n = Ok tt) -> valid_token status = Ok tt ->
  (forall entry, row = Some entry -> NormalizedTimelineEntry_validate entry = Ok tt) ->
  body_ok (tool_update to_string from_str name status input result row).
Proof.
  intros Hn Hst Hrow. unfold tool_update. set (previous := row ≫= tool_of).
  assert (forall tool, previous = Some tool -> valid_token (tb_name tool) = Ok tt /\ valid_token (tb_status tool) = Ok tt) as Hprev.
  { intros tool Htool. subst previous. destruct row as [entry|]; [|done]. eapply tool_row_tokens; [by apply Hrow|done]. }
  match goal with |- context [tool_body _ _ ?n ?s ?i ?r] => assert (body_ok (tool_body to_string from_str n s i r)) as Hbody; [|set (body := tool_body _ _ _ _ _ _) in *] end.
  { apply tool_body_ok.
    - destruct name as [n|]; [by apply Hn|]. destruct previous as [tool|] eqn:Hp; [by apply Hprev|]. by vm_compute.
    - destruct previous as [tool|] eqn:Hp; [|done]. destruct (_ && _); [by apply Hprev|done]. }
  destruct row as [entry|]; [|done]. destruct (_ && _); [|done]. pose proof (Hrow entry eq_refl) as (_ & _ & Hb)%row_facts.
  destruct Hb as (_ & Htr & Ha), Hbody as (Hb & _). by split_and!.
Qed.

Lemma upsert_tool_kept source at_ name status input result m :
  kept m -> valid_source_id source = Ok tt -> at_ <> 0 -> (forall n, name = Some n -> valid_token n = Ok tt) -> valid_token status = Ok tt ->
  exists m', upsert_tool to_string from_str to_vec over source at_ name status input result m = Some m' /\ kept m'.
Proof.
  intros Hm Hs Ht Hn Hst. unfold upsert_tool. destruct (bool_decide_reflect (source ∈ hm_evicted m)) as [|_]; [by exists m|].
  destruct (existing_row source m (proj1 Hm)) as (row & -> & Hrow). cbn [mbind option_bind].
  apply upsert_kept; try done. apply tool_update_ok; try done. intros entry He. by apply Hrow.
Qed.

Lemma each_block_kept f blocks : (forall index block m, kept m -> exists m' noted, f index block m = Some (m', noted) /\ kept m') ->
  forall index m, kept m -> exists m' noted, each_block f index blocks m = Some (m', noted) /\ kept m'.
Proof.
  intros Hf. induction blocks as [|block blocks IH]; intros index m Hm; cbn [each_block]; [by eexists _, _|].
  destruct (Hf index block m Hm) as (m1 & n1 & -> & Hm1). cbn [mbind option_bind]. destruct (IH (index + 1) m1 Hm1) as (m2 & n2 & -> & Hm2).
  by eexists _, _.
Qed.

Lemma timestamp_positive record index : timestamp unix_now created_at_ms record index <> 0.
Proof. unfold timestamp. destruct (_ ≫= rfc3339_seconds); [lia|]. unfold sat_add64, u64_max. lia. Qed.

Lemma unsupported_block_kept uuid at_ block_type index m : kept m -> at_ <> 0 ->
  exists m' noted, unsupported_block to_vec sha256 scheme over uuid at_ block_type index m = Some (m', noted) /\ kept m'.
Proof.
  intros Hm Ht. unfold unsupported_block. edestruct upsert_kept as (m' & -> & Hm'); [done|by apply source_ok|done| |by apply unsupported_body_ok|]; [done|].
  by eexists _, _.
Qed.

Lemma unsupported_message_kept uuid at_ m : kept m -> at_ <> 0 ->
  exists m' noted, unsupported_message to_vec sha256 scheme over uuid at_ m = Some (m', noted) /\ kept m'.
Proof.
  intros Hm Ht. unfold unsupported_message. edestruct upsert_kept as (m' & -> & Hm'); [done|by apply source_ok|done| |by apply unsupported_body_ok|]; [done|].
  by eexists _, _.
Qed.

Lemma user_block_kept uuid at_ index block m : kept m -> at_ <> 0 ->
  exists m' noted, user_block to_string from_str to_vec sha256 scheme over uuid at_ index block m = Some (m', noted) /\ kept m'.
Proof.
  intros Hm Ht. unfold user_block. destruct (opt_is _ "text"); [by eexists _, _|]. destruct (str_of "tool_use_id" block) as [id|]; [|by apply unsupported_block_kept].
  destruct (opt_is _ "tool_result"); [|by apply unsupported_block_kept].
  edestruct upsert_tool_kept as (m' & -> & Hm'); [done|by apply source_ok|done|done| |by eexists _, _]. by repeat case_match; vm_compute.
Qed.

Lemma assistant_block_kept uuid at_ index block m : kept m -> at_ <> 0 ->
  exists m' noted, assistant_block to_string from_str to_vec sha256 scheme over uuid at_ index block m = Some (m', noted) /\ kept m'.
Proof.
  intros Hm Ht. unfold assistant_block. destruct (is_some_and _ _); [by eexists _, _|]. destruct (str_of "id" block) as [id|]; [|by apply unsupported_block_kept].
  destruct (opt_is _ "tool_use"); [|by apply unsupported_block_kept].
  edestruct upsert_tool_kept as (m' & -> & Hm'); [done|by apply source_ok|done| |done|by eexists _, _]. intros n [= <-]. apply safe_tool_name_ok.
Qed.

Context (over_fields : forall m m', hm_slots m = hm_slots m' -> hm_bytes m = hm_bytes m' -> over m = over m').

Lemma kept_fields m m' : kept m -> hm_slots m' = hm_slots m -> hm_base m' = hm_base m -> hm_by_source m' = hm_by_source m ->
  hm_evicted m' = hm_evicted m -> hm_bytes m' = hm_bytes m -> hm_truncated m' = hm_truncated m -> kept m'.
Proof. intros (Hm & Ho & Hc) Hs Hb Hi He Hn Ht. split_and!; [by eapply sound_fields|by rewrite (over_fields m' m)|by rewrite Ht]. Qed.

Lemma user_source_kept record uuid m : kept m ->
  kept (user_source sha256 scheme record uuid m).1 /\ valid_source_id (user_source sha256 scheme record uuid m).2 = Ok tt.
Proof.
  intros Hm. unfold user_source. destruct scheme; [|split; [done|by apply source_ok]].
  destruct (str_of "promptId" record) as [prompt|]; [|split; [done|by apply source_ok]].
  case_bool_decide; [split; [done|by apply source_ok]|]. cbn [fst snd]. split; [by eapply kept_fields|].
  apply valid_source_id_of, opaque_digest_ok; [done|cbn; lia|done].
Qed.

Lemma push_record_kept record m : kept m ->
  exists m' noted, push_record to_string from_str to_vec sha256 unix_now scheme created_at_ms over record m = Some (m', noted) /\ kept m'.
Proof.
  intros Hm. unfold push_record. destruct (conversation_record record) as [conversation noted]. destruct conversation; cbn [negb]; [|by eexists _, _].
  pose proof (timestamp_positive record (hm_messages m)) as Ht. set (at_ := timestamp _ _ _ _) in *. clearbody at_.
  set (m0 := mkHistoryMapper _ _ _ _ _ _ _ _ _). assert (kept m0) as Hm0 by (subst m0; by eapply kept_fields). clearbody m0.
  set (uuid := default "" (str_of "uuid" record)). set (message := get "message" record ≫= _). set (content := message ≫= get "content").
  set (text := text_from_content content).
  assert (forall m1, kept m1 -> forall f, (forall index block m, kept m -> exists m' noted, f index block m = Some (m', noted) /\ kept m') ->
    exists m' noted, match content with
      | Some (Array blocks) => each_block f 0 blocks m1
      | None | Some (Str _) => Some (m1, [])
      | Some _ => unsupported_message to_vec sha256 scheme over uuid at_ m1
      end = Some (m', noted) /\ kept m') as Hcontent.
  { intros m1 Hm1 f Hf. destruct content as [[]|]; try (by eexists _, _); try (by apply unsupported_message_kept). by apply each_block_kept. }
  destruct (opt_is (str_of "type" record) "user").
  - destruct (negb (text =s? "") && negb (is_synthetic_prompt text)); cbn [mbind option_bind].
    + destruct (user_source_kept record uuid m0 Hm0) as [Hm1 Hsrc]. destruct (user_source _ _ _ _ _) as [m1 src]. cbn [fst snd] in *.
      edestruct (upsert_kept src at_ "user_message") as (m2 & -> & Hm2); [done|done|done|done|apply text_body_ok|]. cbn [mbind option_bind].
      apply Hcontent; [done|]. intros. by apply user_block_kept.
    + apply Hcontent; [done|]. intros. by apply user_block_kept.
  - destruct (negb (text =s? "")); cbn [mbind option_bind].
    + edestruct (upsert_kept (source sha256 scheme "assistant" (default uuid (message ≫= str_of "id"))) at_ "assistant_message") as (m2 & -> & Hm2);
        [done|by apply source_ok|done|done|apply text_body_ok|]. cbn [mbind option_bind].
      apply Hcontent; [done|]. intros. by apply assistant_block_kept.
    + apply Hcontent; [done|]. intros. by apply assistant_block_kept.
Qed.
End records.

(** ** The whole read *)

Lemma over_bounds_empty m : hm_slots m = [] -> hm_bytes m = 0 -> over_bounds m = false.
Proof. intros Hs Hb. unfold over_bounds. by rewrite Hs, Hb. Qed.

Lemma over_bounds_fields m m' : hm_slots m = hm_slots m' -> hm_bytes m = hm_bytes m' -> over_bounds m = over_bounds m'.
Proof. intros Hs Hb. unfold over_bounds. by rewrite Hs, Hb. Qed.

Definition is_running_tool (entry : NormalizedTimelineEntry) : bool :=
  match ne_body entry with Tool tool => tb_status tool =s? "running" | _ => false end.

Lemma settle_facts entry : ne_source_id (settle entry) = ne_source_id entry /\ is_running_tool (settle entry) = false
  /\ (NormalizedTimelineEntry_validate entry = Ok tt -> NormalizedTimelineEntry_validate (settle entry) = Ok tt).
Proof.
  unfold settle, is_running_tool. destruct (ne_body entry) as [|tool| |] eqn:Hb; try by rewrite Hb.
  destruct (tb_status tool =s? "running") eqn:Hs; [|by rewrite Hb]. split_and!; [done|done|].
  unfold NormalizedTimelineEntry_validate. cbn [ne_source_id ne_source_revision ne_timestamp ne_state ne_kind ne_body ne_truncation]. rewrite Hb.
  rewrite !rbind_unit_ok. intros (? & ? & ? & Hbody & ?). split_and!; try done; [|tauto..].
  cbn [TimelineBody_validate_within] in *. unfold ToolTimelineBody_validate in *. cbn [tb_name tb_status tb_input_preview tb_result_preview].
  rewrite !rbind_unit_ok in *. destruct Hbody as (? & _ & ?). by split_and!.
Qed.

(** Every row is there at the end: none is found invalid. *)
Lemma finish_entries m : Forall (fun slot => NormalizedTimelineEntry_validate (sl_entry slot) = Ok tt) (hm_slots m) ->
  th_entries (finish m) = settle ∘ sl_entry <$> hm_slots m /\ th_complete (finish m) = negb (hm_truncated m).
Proof.
  intros Hv. unfold finish.
  assert (forall entries acc truncated, Forall (fun e => NormalizedTimelineEntry_validate e = Ok tt) entries ->
    foldl (fun '(entries, truncated) entry =>
             if is_ok (NormalizedTimelineEntry_validate entry) then ((entries ++ [entry])%list, truncated) else ([], true)) (acc, truncated) entries
    = ((acc ++ entries)%list, truncated)) as Hfold.
  { induction entries as [|e entries IH]; intros acc truncated He; cbn [foldl]; [by rewrite app_nil_r|]. apply Forall_cons in He as [-> He]. cbn [is_ok].
    rewrite IH by done. by rewrite <- app_assoc. }
  rewrite Hfold; [done|]. apply Forall_fmap. eapply Forall_impl; [exact Hv|]. intros slot. apply settle_facts.
Qed.

Section whole.
Context (to_string : Value -> option string) (from_str : string -> option Value) (to_vec : WireTimelineEntry -> option string)
  (sha256 : list N -> list N) (unix_now : N -> N) (scheme : SourceScheme) (sha256_law : sha256_bytes sha256).

Abbreviation held := (kept to_vec over_bounds).

Lemma hole_held cut m : held cut m -> exists m', hole m = Some m' /\ held cut m'.
Proof.
  intros [Hm _]. unfold hole. destruct (evict_while_sound to_vec (fun m => negb (len (hm_slots m) =? 0)) m Hm) as (k & -> & Hk & Hempty & _).
  { intros m' -> _. done. }
  eexists. split; [reflexivity|]. apply negb_false_iff, N.eqb_eq in Hempty. set (m' := without_oldest k m) in *. clearbody m'.
  assert (hm_slots m' = []) as Hs by (destruct (hm_slots m'); [done|rewrite len_cons in Hempty; lia]).
  split_and!; [by eapply sound_fields| |done]. apply over_bounds_empty; [done|]. cbn. by rewrite (sound_bytes to_vec _ Hk), Hs.
Qed.

Lemma take_line_held cut created line m : held cut m ->
  exists m' noted, take_line to_string from_str to_vec sha256 unix_now scheme created line m = Some (m', noted) /\ held cut m'.
Proof.
  intros Hm. destruct line as [line terminated| |]; cbn [take_line]; [|destruct (hole_held cut m Hm) as (m' & -> & Hm'); by eexists _, _|by eexists _, _].
  destruct (sall is_ascii_whitespace line); [by eexists _, _|]. destruct (from_str line); [|by eexists _, _].
  apply push_record_kept; [done|apply over_bounds_empty|apply over_bounds_fields|done].
Qed.

Lemma take_lines_held cut created lines m : held cut m ->
  exists m' noted, take_lines to_string from_str to_vec sha256 unix_now scheme created lines m = Some (m', noted) /\ held cut m'.
Proof.
  revert m. induction lines as [|line lines IH]; intros m Hm; cbn [take_lines]; [by eexists _, _|].
  destruct (take_line_held cut created line m Hm) as (m1 & n1 & -> & Hm1). cbn [mbind option_bind]. destruct (IH m1 Hm1) as (m2 & n2 & -> & Hm2). by eexists _, _.
Qed.

(** What a read hands over of a mapper. *)
Lemma finish_held cut m : held cut m ->
  exists rows, th_entries (finish m) = settle <$> rows
    /\ Forall (fun entry => NormalizedTimelineEntry_validate entry = Ok tt /\ is_running_tool entry = false) (th_entries (finish m))
    /\ NoDup (ne_source_id <$> th_entries (finish m))
    /\ len (th_entries (finish m)) <= MAX_HISTORY_ENTRIES /\ foldr N.add 0 (entry_bytes to_vec <$> rows) <= MAX_HISTORY_BYTES
    /\ (cut = true -> th_complete (finish m) = false).
Proof.
  intros (Hm & Ho & Hcut). pose proof (sound_rows to_vec m Hm) as Hrows.
  destruct (finish_entries m) as [He Hc]; [eapply Forall_impl; [exact Hrows|]; by intros slot [_ ?]|].
  unfold over_bounds in Ho. apply orb_false_iff in Ho as [Hl%N.ltb_ge Hb%N.ltb_ge].
  exists (sl_entry <$> hm_slots m). rewrite He, Hc. split_and!.
  - by rewrite list_fmap_compose.
  - apply Forall_fmap. eapply Forall_impl; [exact Hrows|]. intros slot [_ Hv]. split; by apply settle_facts.
  - rewrite <- list_fmap_compose. erewrite list_fmap_ext; [by apply (sound_distinct to_vec m Hm)|]. intros i slot _. apply settle_facts.
  - unfold len in *. by rewrite length_fmap.
  - rewrite <- list_fmap_compose. rewrite (sound_bytes to_vec m Hm) in Hb. unfold total_bytes in Hb.
    erewrite list_fmap_ext; [exact Hb|]. intros i slot Hi. symmetry. by apply (Forall_lookup_1 _ _ _ _ Hrows Hi).
  - intros Ht. by rewrite (Hcut Ht).
Qed.

(** C23: a transcript that can be read is read to the end, whatever is in it: every row is one the timeline accepts,
    no two share a source, no call is left running, and rows and bytes stay within the bounds; a read that does
    not begin at the file's start never claims to be complete. *)
Theorem history_rows_accepted file read_bytes reads :
  tf_is_file file = true -> tf_reads file (tf_length file - read_bytes) = Some reads -> delivered reads ->
  exists history noted rows,
    read_history to_string from_str to_vec sha256 unix_now scheme (Some file) read_bytes = Some (history, noted)
    /\ th_entries history = settle <$> rows
    /\ Forall (fun entry => NormalizedTimelineEntry_validate entry = Ok tt /\ is_running_tool entry = false) (th_entries history)
    /\ NoDup (ne_source_id <$> th_entries history)
    /\ len (th_entries history) <= MAX_HISTORY_ENTRIES /\ foldr N.add 0 (entry_bytes to_vec <$> rows) <= MAX_HISTORY_BYTES
    /\ (read_bytes < tf_length file -> th_complete history = false).
Proof.
  intros Hfile Hreads Hd. unfold read_history. cbn [mbind option_bind]. rewrite Hfile, Hreads. cbn [negb mbind option_bind].
  assert (forall cut m r, held cut m -> delivered r -> (read_bytes < tf_length file -> cut = true) ->
    exists history noted rows,
      ('(m, noted) ← read_lines to_string from_str to_vec sha256 unix_now scheme (unread r) (tf_created_at_ms file) r m; Some (finish m, noted))
        = Some (history, noted)
      /\ th_entries history = settle <$> rows
      /\ Forall (fun entry => NormalizedTimelineEntry_validate entry = Ok tt /\ is_running_tool entry = false) (th_entries history)
      /\ NoDup (ne_source_id <$> th_entries history)
      /\ len (th_entries history) <= MAX_HISTORY_ENTRIES /\ foldr N.add 0 (entry_bytes to_vec <$> rows) <= MAX_HISTORY_BYTES
      /\ (read_bytes < tf_length file -> th_complete history = false)) as Hrest.
  { intros cut m r Hm Hr Hcut. rewrite lines_whole by done. destruct (take_lines_held cut (tf_created_at_ms file)
      (lines_of MAX_RECORD_BYTES (split_on newline (contents r))) m Hm) as (m' & noted & -> & Hm').
    destruct (finish_held cut m' Hm') as (rows & ? & ? & ? & ? & ? & Hend). exists (finish m'), noted, rows. split_and!; auto. }
  destruct (N.ltb_spec 0 (tf_length file - read_bytes)).
  - unfold next_line. pose proof (read_bounded_line_spec MAX_RECORD_BYTES "" false false reads Hd ltac:(done)) as Hline.
    assert (held true (set_truncated true HistoryMapper_new)) as Hnew by (split_and!; [by eapply sound_fields; [apply sound_new|..]|done|done]).
    destruct (split_once newline (contents reads)) as [[a b]|].
    + destruct Hline as (reads' & -> & Hd' & _ & _). cbn [mbind option_bind]. by apply (Hrest true).
    + rewrite Hline. cbn [mbind option_bind]. apply (Hrest true); [done|constructor|done].
  - cbn [mbind option_bind]. apply (Hrest false); [split_and!; [apply sound_new|done|done]|done|lia].
Qed.
End whole.
