(* ===== verification/ClaudeStreamSpec.v ===== *)
(** Evicting while a transcript is read against mapping all of it: what is kept is the newest end of the whole
    mapping, row for row, and a mapping that says it is complete is the whole. *)
From S2P Require Import Prelude Text Protocol Metadata Reconcile Timeline Output HookCommon AgentAdapter ClaudeHook HookSpec ClaudeHookSpec ClaudeHistory ClaudeHistorySpec.
From S2P Require Import ClaudeMapperSpec.

Local Open Scope string_scope.
Local Open Scope N_scope.

(** The mapping with no bounds. *)
Definition keep_all (m : HistoryMapper) : bool := false.

Lemma keep_all_empty m : hm_slots m = [] -> hm_bytes m = 0 -> keep_all m = false.
Proof. done. Qed.

Lemma keep_all_fields m m' : hm_slots m = hm_slots m' -> hm_bytes m = hm_bytes m' -> keep_all m = keep_all m'.
Proof. done. Qed.

Definition sources_of (slots : list Slot) : list string := slot_source <$> slots.

Section stream.
Context (to_string : Value -> option string) (from_str : string -> option Value) (to_vec : WireTimelineEntry -> option string)
  (sha256 : list N -> list N) (unix_now : N -> N) (scheme : SourceScheme) (created_at_ms : option N) (sha256_law : sha256_bytes sha256).

Abbreviation size := (entry_bytes to_vec).

(** The mapper [s] is [f] without its [k] oldest rows. *)
Record ends_at (k : nat) (f s : HistoryMapper) : Prop := {
  ends_slots : hm_slots s = drop k (hm_slots f);
  ends_length : (k <= length (hm_slots f))%nat;
  ends_base : hm_base s = (hm_base f + k)%nat;
  ends_evicted x : x ∈ hm_evicted s <-> x ∈ hm_evicted f \/ x ∈ sources_of (take k (hm_slots f));
  ends_prompts : hm_prompts s = hm_prompts f;
  ends_turns : hm_turn_prompts s = hm_turn_prompts f;
  ends_messages : hm_messages s = hm_messages f;
  ends_truncated : hm_truncated s = false -> k = 0%nat /\ hm_truncated f = false }.

Definition newest_end (f s : HistoryMapper) : Prop :=
  kept to_vec keep_all false f /\ kept to_vec over_bounds false s /\ exists k, ends_at k f s.

(** Where the row of a source is, in both. *)
Lemma row_in_both k f s source : sound to_vec f -> sound to_vec s -> ends_at k f s -> source ∉ hm_evicted s ->
  (hm_by_source f !! source = None /\ hm_by_source s !! source = None)
  \/ exists j slot, hm_by_source f !! source = Some (hm_base f + (k + j))%nat /\ hm_by_source s !! source = Some (hm_base s + j)%nat
       /\ hm_slots f !! (k + j)%nat = Some slot /\ hm_slots s !! j = Some slot /\ slot_source slot = source.
Proof.
  intros Hf Hs Hr Hnew. destruct (hm_by_source f !! source) as [index|] eqn:Hi.
  - right. apply (sound_index to_vec f Hf) in Hi as (i & slot & -> & Hslot & Hsrc).
    assert (k <= i)%nat as Hki.
    { destruct (Nat.le_gt_cases k i) as [|Hlt]; [done|]. exfalso. apply Hnew. apply (ends_evicted k f s Hr). right.
      apply list_elem_of_fmap. exists slot. split; [done|]. apply (list_elem_of_lookup_2 _ i). by rewrite lookup_take_lt. }
    replace i with (k + (i - k))%nat in * by lia. set (j := (i - k)%nat) in *. clearbody j.
    assert (hm_slots s !! j = Some slot) by by rewrite (ends_slots k f s Hr), lookup_drop.
    exists j, slot. split_and!; try done. apply (sound_index to_vec s Hs). by eexists _, _.
  - left. split; [done|]. destruct (hm_by_source s !! source) as [index|] eqn:Hj; [|done].
    apply (sound_index to_vec s Hs) in Hj as (j & slot & -> & Hslot & Hsrc). rewrite (ends_slots k f s Hr), lookup_drop in Hslot.
    assert (hm_by_source f !! source = Some (hm_base f + (k + j))%nat) by (apply (sound_index to_vec f Hf); by eexists _, _). congruence.
Qed.

(** A row put in both. *)
Lemma put_in_both k f s source at_ kind body f' s' : sound to_vec f -> sound to_vec s -> ends_at k f s -> source ∉ hm_evicted s ->
  put to_vec source at_ kind body f = Some f' -> put to_vec source at_ kind body s = Some s' -> ends_at k f' s'.
Proof.
  intros Hf Hs Hr Hnew. unfold put. pose proof (ends_length k f s Hr) as Hlen.
  destruct (row_in_both k f s source Hf Hs Hr Hnew) as [[-> ->]|(j & slot & -> & -> & Hjf & Hjs & Hsrc)].
  - intros [= <-] [= <-]. pose proof (ends_slots k f s Hr) as Hslots. destruct Hr as [H1 H2 H3 H4 H5 H6 H7 H8].
    split; cbn [hm_slots hm_base hm_evicted hm_prompts hm_turn_prompts hm_messages hm_truncated]; try done.
    + by rewrite Hslots, drop_app_le.
    + rewrite length_app. lia.
    + intros x. by rewrite H4, take_app_le.
  - rewrite !(proj2 (Nat.ltb_ge _ _)) by lia. replace (hm_base f + (k + j) - hm_base f)%nat with (k + j)%nat by lia.
    replace (hm_base s + j - hm_base s)%nat with j by lia. rewrite Hjf, Hjs. cbn [mbind option_bind].
    set (row := mkSlot _ _). destruct (hm_bytes f <? sl_bytes slot); [done|]. destruct (hm_bytes s <? sl_bytes slot); [done|]. intros [= <-] [= <-].
    destruct Hr as [H1 H2 H3 H4 H5 H6 H7 H8].
    split; cbn [set_slots hm_slots hm_base hm_evicted hm_prompts hm_turn_prompts hm_messages hm_truncated]; try done.
    + rewrite H1, drop_insert_ge by lia. f_equal. lia.
    + by rewrite length_insert.
    + intros x. by rewrite H4, take_insert_ge by lia.
Qed.

(** A row put only where it was not evicted. *)
Lemma put_evicted k f s source at_ kind body f' : sound to_vec f -> ends_at k f s -> source ∈ hm_evicted s -> source ∉ hm_evicted f ->
  put to_vec source at_ kind body f = Some f' -> ends_at k f' s.
Proof.
  intros Hf Hr Hold Hnew. apply (ends_evicted k f s Hr) in Hold as [|Hold]; [done|].
  apply list_elem_of_fmap in Hold as (slot & Hsrc & (i & Hi)%list_elem_of_lookup_1).
  assert (i < k)%nat as Hik by (apply lookup_lt_Some in Hi; rewrite length_take in Hi; lia). rewrite lookup_take_lt in Hi by done.
  unfold put. assert (hm_by_source f !! source = Some (hm_base f + i)%nat) as -> by (apply (sound_index to_vec f Hf); by eexists _, _).
  rewrite (proj2 (Nat.ltb_ge _ _)) by lia. replace (hm_base f + i - hm_base f)%nat with i by lia. rewrite Hi. cbn [mbind option_bind].
  set (row := mkSlot _ _). destruct (hm_bytes f <? sl_bytes slot); [done|]. intros [= <-]. destruct Hr as [H1 H2 H3 H4 H5 H6 H7 H8].
  split; cbn [set_slots hm_slots hm_base hm_evicted hm_prompts hm_turn_prompts hm_messages hm_truncated]; try done.
  - by rewrite drop_insert_lt.
  - by rewrite length_insert.
  - intros x. rewrite H4. unfold sources_of. rewrite take_insert_lt by done. rewrite list_fmap_insert.
    enough (<[i := slot_source row]> (slot_source <$> take k (hm_slots f)) = slot_source <$> take k (hm_slots f)) as -> by done.
    apply list_insert_id. rewrite list_lookup_fmap, lookup_take_lt, Hi by done. done.
Qed.

(** Rows evicted of the one that is bounded. *)
Lemma without_evicted k m x : x ∈ hm_evicted (without_oldest k m) <-> x ∈ hm_evicted m \/ x ∈ sources_of (take k (hm_slots m)).
Proof.
  cbn [without_oldest hm_evicted]. unfold sources_of. rewrite <- (reverse_involutive (take k (hm_slots m))) at 2.
  generalize (reverse (take k (hm_slots m))) as l. intros l. rewrite fmap_reverse, elem_of_reverse.
  induction l as [|slot l IH]; cbn [foldr fmap list_fmap]; [rewrite elem_of_nil; tauto|].
  rewrite elem_of_union, elem_of_singleton, IH, elem_of_cons. tauto.
Qed.

Lemma evict_end k n f s : ends_at k f s -> (n <= length (hm_slots s))%nat -> ends_at (k + n) f (without_oldest n s).
Proof.
  intros Hr Hn. pose proof (ends_slots k f s Hr) as Hslots. destruct Hr as [H1 H2 H3 H4 H5 H6 H7 H8].
  split; cbn [without_oldest hm_slots hm_base hm_prompts hm_turn_prompts hm_messages hm_truncated]; try done.
  - by rewrite Hslots, drop_drop.
  - rewrite Hslots, length_drop in Hn. lia.
  - lia.
  - intros x. rewrite without_evicted, H4, Hslots. unfold sources_of. rewrite <- take_take_drop, fmap_app, elem_of_app.
    tauto.
  - intros [Ht Hz%negb_false_iff]%orb_false_iff. apply Nat.eqb_eq in Hz as ->. destruct (H8 Ht) as [-> ?]. done.
Qed.

(** ** One operation on both *)

Abbreviation kept_f := (kept to_vec keep_all false).
Abbreviation kept_s := (kept to_vec over_bounds false).

Lemma evicted_both f s x : newest_end f s -> x ∈ hm_evicted f -> x ∈ hm_evicted s.
Proof. intros (_ & _ & k & Hr) Hx. apply (ends_evicted k f s Hr). by left. Qed.

Lemma upsert_both source at_ kind body f s : newest_end f s -> valid_source_id source = Ok tt -> at_ <> 0 -> valid_token kind = Ok tt -> body_ok body ->
  exists f' s', upsert to_vec keep_all source at_ kind body f = Some f' /\ upsert to_vec over_bounds source at_ kind body s = Some s' /\ newest_end f' s'.
Proof.
  intros Hfs Hv Ht Hk Hb. pose proof (evicted_both f s source Hfs) as Hev. destruct Hfs as (Hf & Hs & k & Hr).
  destruct (upsert_kept to_vec keep_all keep_all_empty false source at_ kind body f Hf Hv Ht Hk Hb) as (f' & Hf' & Hkf).
  destruct (upsert_kept to_vec over_bounds over_bounds_empty false source at_ kind body s Hs Hv Ht Hk Hb) as (s' & Hs' & Hks).
  exists f', s'. split_and!; [done|done|]. split; [done|]. split; [done|]. unfold upsert in Hf', Hs'.
  assert (forall n m, evict_while keep_all n m = Some m) as Hnever by (intros [|n] m; done).
  destruct (bool_decide_reflect (source ∈ hm_evicted s)) as [Hin|Hout].
  - injection Hs' as <-. destruct (bool_decide_reflect (source ∈ hm_evicted f)); [injection Hf' as <-; by exists k|].
    destruct (put to_vec source at_ kind body f) as [f1|] eqn:Hp; [|done]. cbn [mbind option_bind] in Hf'. rewrite Hnever in Hf'. injection Hf' as <-.
    exists k. eapply put_evicted; [apply Hf|done|done|done|done].
  - rewrite bool_decide_eq_false_2 in Hf' by auto.
    destruct (put to_vec source at_ kind body f) as [f1|] eqn:Hpf; [|done]. cbn [mbind option_bind] in Hf'. rewrite Hnever in Hf'. injection Hf' as <-.
    destruct (put_sound to_vec source at_ kind body s (proj1 Hs) Hout Hv Ht Hk Hb) as (s1 & _ & _ & Hps & Hs1 & _). rewrite Hps in Hs'. cbn [mbind option_bind] in Hs'.
    destruct (evict_while_sound to_vec over_bounds s1 Hs1 over_bounds_empty) as (n & Hn & _ & _ & Hle & _). rewrite Hn in Hs'. injection Hs' as <-.
    exists (k + n)%nat. apply evict_end; [|done]. eapply put_in_both; [apply Hf|apply Hs|done|done|done|done].
Qed.

Lemma upsert_tool_both source at_ name status input result f s :
  newest_end f s -> valid_source_id source = Ok tt -> at_ <> 0 -> (forall n, name = Some n -> valid_token n = Ok tt) -> valid_token status = Ok tt ->
  exists f' s', upsert_tool to_string from_str to_vec keep_all source at_ name status input result f = Some f'
    /\ upsert_tool to_string from_str to_vec over_bounds source at_ name status input result s = Some s' /\ newest_end f' s'.
Proof.
  intros Hfs Hv Ht Hn Hst. pose proof (evicted_both f s source Hfs) as Hev. unfold upsert_tool.
  destruct (bool_decide_reflect (source ∈ hm_evicted f)) as [Hin|Hout]; [rewrite bool_decide_eq_true_2 by auto; by eexists _, _|].
  pose proof Hfs as (Hf & Hs & k & Hr). destruct (existing_row to_vec source f (proj1 Hf)) as (row & Hrow & Hvalid). rewrite Hrow. cbn [mbind option_bind].
  destruct (upsert_both source at_ "tool" (tool_update to_string from_str name status input result row) f s) as (f' & s' & Hf' & Hs' & Hr'); try done.
  { apply tool_update_ok; try done. intros entry He. by apply Hvalid. }
  destruct (bool_decide_reflect (source ∈ hm_evicted s)) as [Hin|Hout'].
  - exists f', s. split_and!; [done|done|]. unfold upsert in Hs'. rewrite bool_decide_eq_true_2 in Hs' by done. by injection Hs' as <-.
  - assert (existing source s = Some row) as ->; [|by exists f', s'].
    unfold existing in *. destruct (row_in_both k f s source (proj1 Hf) (proj1 Hs) Hr Hout') as [[Hi ->]|(j & slot & Hi & -> & Hjf & Hjs & _)];
      rewrite Hi in Hrow; [done|].
    rewrite !(proj2 (Nat.ltb_ge _ _)) in * by lia. replace (hm_base f + (k + j) - hm_base f)%nat with (k + j)%nat in Hrow by lia.
    replace (hm_base s + j - hm_base s)%nat with j by lia. rewrite Hjf in Hrow. by rewrite Hjs.
Qed.

(** What is done for both, and noted for both. *)
Definition in_step (step : (HistoryMapper -> bool) -> HistoryMapper -> option (HistoryMapper * list note)) : Prop :=
  forall f s, newest_end f s -> exists f' s' noted, step keep_all f = Some (f', noted) /\ step over_bounds s = Some (s', noted) /\ newest_end f' s'.

Lemma each_block_both step blocks : (forall index block, in_step (fun over => step over index block)) ->
  forall index, in_step (fun over => each_block (step over) index blocks).
Proof.
  intros Hstep. induction blocks as [|block blocks IH]; intros index f s Hfs; cbn [each_block]; [by eexists _, _, _|].
  destruct (Hstep index block f s Hfs) as (f1 & s1 & n1 & -> & -> & H1). cbn [mbind option_bind].
  destruct (IH (index + 1) f1 s1 H1) as (f2 & s2 & n2 & -> & -> & H2). by eexists _, _, _.
Qed.

Lemma upsert_step source at_ kind body noted : valid_source_id source = Ok tt -> at_ <> 0 -> valid_token kind = Ok tt -> body_ok body ->
  in_step (fun over m => m ← upsert to_vec over source at_ kind body m; Some (m, noted)).
Proof. intros Hv Ht Hk Hb f s Hfs. destruct (upsert_both source at_ kind body f s Hfs Hv Ht Hk Hb) as (f' & s' & -> & -> & H'). by eexists _, _, _. Qed.

Lemma tool_step source at_ name status input result : valid_source_id source = Ok tt -> at_ <> 0 ->
  (forall n, name = Some n -> valid_token n = Ok tt) -> valid_token status = Ok tt ->
  in_step (fun over m => m ← upsert_tool to_string from_str to_vec over source at_ name status input result m; Some (m, [])).
Proof.
  intros Hv Ht Hn Hst f s Hfs. destruct (upsert_tool_both source at_ name status input result f s Hfs Hv Ht Hn Hst) as (f' & s' & -> & -> & H'). by eexists _, _, _.
Qed.

Lemma same_step noted : in_step (fun _ m => Some (m, noted)).
Proof. intros f s Hfs. by eexists _, _, _. Qed.

Lemma unsupported_block_both uuid at_ block_type index : at_ <> 0 -> in_step (fun over => unsupported_block to_vec sha256 scheme over uuid at_ block_type index).
Proof. intros Ht. apply upsert_step; [by apply source_ok|done|done|by apply unsupported_body_ok]. Qed.

Lemma user_block_both uuid at_ index block : at_ <> 0 -> in_step (fun over => user_block to_string from_str to_vec sha256 scheme over uuid at_ index block).
Proof.
  intros Ht. unfold user_block. destruct (opt_is _ "text"); [apply same_step|]. destruct (str_of "tool_use_id" block) as [id|]; [|by apply unsupported_block_both].
  destruct (opt_is _ "tool_result"); [|by apply unsupported_block_both]. apply tool_step; [by apply source_ok|done|done|]. by repeat case_match; vm_compute.
Qed.

Lemma assistant_block_both uuid at_ index block : at_ <> 0 ->
  in_step (fun over => assistant_block to_string from_str to_vec sha256 scheme over uuid at_ index block).
Proof.
  intros Ht. unfold assistant_block. destruct (is_some_and _ _); [apply same_step|]. destruct (str_of "id" block) as [id|]; [|by apply unsupported_block_both].
  destruct (opt_is _ "tool_use"); [|by apply unsupported_block_both]. apply tool_step; [by apply source_ok|done| |done]. intros n [= <-]. apply safe_tool_name_ok.
Qed.

Lemma content_both content uuid at_ step : at_ <> 0 -> (forall index block, in_step (fun over => step over index block)) ->
  in_step (fun over m => match content with
                         | Some (Array blocks) => each_block (step over) 0 blocks m
                         | None | Some (Str _) => Some (m, [])
                         | Some _ => unsupported_message to_vec sha256 scheme over uuid at_ m
                         end).
Proof.
  intros Ht Hstep. assert (in_step (fun over => unsupported_message to_vec sha256 scheme over uuid at_)) as Hmessage
    by (apply upsert_step; [by apply source_ok|done|done|by apply unsupported_body_ok]).
  destruct content as [[]|]; try apply Hmessage; try apply same_step. by apply each_block_both.
Qed.

(** Fields the rows do not depend on, changed alike in both. *)
Lemma newest_end_fields f s f' s' : newest_end f s ->
  hm_slots f' = hm_slots f -> hm_base f' = hm_base f -> hm_by_source f' = hm_by_source f -> hm_evicted f' = hm_evicted f -> hm_bytes f' = hm_bytes f ->
  hm_truncated f' = hm_truncated f ->
  hm_slots s' = hm_slots s -> hm_base s' = hm_base s -> hm_by_source s' = hm_by_source s -> hm_evicted s' = hm_evicted s -> hm_bytes s' = hm_bytes s ->
  hm_truncated s' = hm_truncated s ->
  hm_prompts s' = hm_prompts f' -> hm_turn_prompts s' = hm_turn_prompts f' -> hm_messages s' = hm_messages f' -> newest_end f' s'.
Proof.
  intros (Hf & Hs & k & [H1 H2 H3 H4 H5 H6 H7 H8]) Ef1 Ef2 Ef3 Ef4 Ef5 Ef6 Es1 Es2 Es3 Es4 Es5 Es6 Hp Ht Hm.
  split; [|split]; [by eapply kept_fields; [apply keep_all_fields|..]|by eapply kept_fields; [apply over_bounds_fields|..]|].
  exists k. split; rewrite ?Ef1, ?Ef2, ?Ef4, ?Ef6, ?Es1, ?Es2, ?Es4, ?Es6; try done.
Qed.

Lemma user_source_both record uuid f s : newest_end f s ->
  newest_end (user_source sha256 scheme record uuid f).1 (user_source sha256 scheme record uuid s).1
  /\ (user_source sha256 scheme record uuid s).2 = (user_source sha256 scheme record uuid f).2
  /\ valid_source_id (user_source sha256 scheme record uuid f).2 = Ok tt.
Proof.
  intros Hfs. pose proof Hfs as (Hf & Hs & k & Hr). unfold user_source. destruct scheme; [|split_and!; [done|done|by apply source_ok]].
  destruct (str_of "promptId" record) as [prompt|]; [|split_and!; [done|done|by apply source_ok]].
  rewrite (ends_prompts k f s Hr). case_bool_decide; [split_and!; [done|done|by apply source_ok]|]. cbn [fst snd].
  split_and!; [|done|apply valid_source_id_of, opaque_digest_ok; [done|cbn; lia|done]].
  eapply newest_end_fields; try done; cbn; [by rewrite (ends_turns k f s Hr)|apply (ends_messages k f s Hr)].
Qed.

Lemma push_record_both record : in_step (fun over => push_record to_string from_str to_vec sha256 unix_now scheme created_at_ms over record).
Proof.
  intros f s Hfs. pose proof Hfs as (_ & _ & k & Hr). unfold push_record. destruct (conversation_record record) as [conversation noted].
  destruct conversation; cbn [negb]; [|by eexists _, _, _]. rewrite (ends_messages k f s Hr).
  pose proof (timestamp_positive unix_now created_at_ms record (hm_messages f)) as Ht. set (at_ := timestamp _ _ _ _) in *. clearbody at_.
  set (f0 := mkHistoryMapper (hm_slots f) _ _ _ _ _ _ _ _). set (s0 := mkHistoryMapper (hm_slots s) _ _ _ _ _ _ _ _).
  assert (newest_end f0 s0) as Hfs0 by (eapply newest_end_fields; try done; [apply (ends_prompts k f s Hr)|apply (ends_turns k f s Hr)]). clearbody f0 s0.
  set (uuid := default "" (str_of "uuid" record)). set (message := get "message" record ≫= _). set (content := message ≫= get "content").
  set (text := text_from_content content).
  assert (forall index block, in_step (fun over => user_block to_string from_str to_vec sha256 scheme over uuid at_ index block)) as Huser by (intros; by apply user_block_both).
  assert (forall index block, in_step (fun over => assistant_block to_string from_str to_vec sha256 scheme over uuid at_ index block)) as Hassistant
    by (intros; by apply assistant_block_both).
  destruct (opt_is (str_of "type" record) "user").
  - destruct (negb (text =s? "") && negb (is_synthetic_prompt text)); cbn [mbind option_bind].
    + destruct (user_source_both record uuid f0 s0 Hfs0) as (H1 & Hsame & Hv). destruct (user_source _ _ _ _ f0) as [f1 source], (user_source _ _ _ _ s0) as [s1 source'].
      cbn [fst snd] in *. subst source'. destruct (upsert_both source at_ "user_message" (text_body text) f1 s1 H1 Hv Ht eq_refl (text_body_ok text))
        as (f2 & s2 & -> & -> & H2). cbn [mbind option_bind]. exact (content_both content uuid at_ _ Ht Huser f2 s2 H2).
    + exact (content_both content uuid at_ _ Ht Huser f0 s0 Hfs0).
  - destruct (negb (text =s? "")); cbn [mbind option_bind].
    + destruct (upsert_both (source sha256 scheme "assistant" (default uuid (message ≫= str_of "id"))) at_ "assistant_message" (text_body text) f0 s0 Hfs0
        ltac:(by apply source_ok) Ht eq_refl (text_body_ok text)) as (f2 & s2 & -> & -> & H2). cbn [mbind option_bind].
      exact (content_both content uuid at_ _ Ht Hassistant f2 s2 H2).
    + exact (content_both content uuid at_ _ Ht Hassistant f0 s0 Hfs0).
Qed.

(** ** Whole lines *)

(** What a line does, evicting as told. *)
Definition map_line (line : Line) (over : HistoryMapper -> bool) (m : HistoryMapper) : option (HistoryMapper * list note) :=
  match line with
  | LineEnd => Some (m, [])
  | LineOversized => m ← hole m; Some (m, [])
  | LineRecord line terminated =>
      if sall is_ascii_whitespace line then Some (m, [])
      else
        match from_str line with
        | Some record => push_record to_string from_str to_vec sha256 unix_now scheme created_at_ms over record m
        | None => Some (m, if terminated : bool then [("invalid", "record")] else [])
        end
  end.

Fixpoint map_lines (lines : list Line) (over : HistoryMapper -> bool) (m : HistoryMapper) : option (HistoryMapper * list note) :=
  match lines with
  | [] => Some (m, [])
  | line :: lines =>
      '(m, first) ← map_line line over m;
      '(m, others) ← map_lines lines over m;
      Some (m, (first ++ others)%list)
  end.

Lemma map_lines_take lines m : map_lines lines over_bounds m = take_lines to_string from_str to_vec sha256 unix_now scheme created_at_ms lines m.
Proof. revert m. induction lines as [|line lines IH]; intros m; [done|]. cbn [map_lines take_lines]. destruct (map_line line over_bounds m) as [[m1 n1]|] eqn:Hl; unfold map_line in Hl; unfold take_line; rewrite Hl; [|done]. cbn [mbind option_bind]. by rewrite IH. Qed.

Lemma hole_all m : sound to_vec m -> hole m = Some (set_truncated true (without_oldest (length (hm_slots m)) m)) /\ sound to_vec (without_oldest (length (hm_slots m)) m).
Proof.
  intros Hm. unfold hole. destruct (evict_while_sound to_vec (fun m => negb (len (hm_slots m) =? 0)) m Hm) as (k & -> & Hk & Hempty & Hle & _).
  { intros m' -> _. done. }
  apply negb_false_iff, N.eqb_eq in Hempty. cbn [without_oldest hm_slots] in Hempty.
  assert (length (drop k (hm_slots m)) = 0)%nat as Hl by (unfold len in Hempty; lia). rewrite length_drop in Hl.
  replace (length (hm_slots m)) with k by lia. done.
Qed.

Lemma hole_kept over cut m : sound to_vec m -> (forall m, hm_slots m = [] -> hm_bytes m = 0 -> over m = false) ->
  kept to_vec over cut (set_truncated true (without_oldest (length (hm_slots m)) m)).
Proof.
  intros Hm Hover. destruct (hole_all m Hm) as [_ Hk]. split_and!; [by eapply sound_fields| |done].
  apply Hover; cbn [set_truncated hm_slots hm_bytes without_oldest]; [by rewrite drop_ge|]. rewrite (sound_bytes to_vec m Hm), take_ge by done. lia.
Qed.

(** A hole leaves nothing in either. *)
Lemma hole_step : in_step (fun _ m => m ← hole m; Some (m, [])).
Proof.
  intros f s (Hf & Hs & k & Hr). destruct (hole_all f (proj1 Hf)) as [-> _], (hole_all s (proj1 Hs)) as [-> _].
  cbn [mbind option_bind]. eexists _, _, _. split; [reflexivity|]. split; [reflexivity|].
  split; [apply hole_kept; [apply Hf|apply keep_all_empty]|]. split; [apply hole_kept; [apply Hs|apply over_bounds_empty]|]. exists 0%nat.
  pose proof (ends_slots k f s Hr) as Hslots. destruct Hr as [H1 H2 H3 H4 H5 H6 H7 H8].
  split; cbn [set_truncated hm_slots hm_base hm_evicted hm_prompts hm_turn_prompts hm_messages hm_truncated]; try done.
  - cbn [without_oldest hm_slots]. by rewrite drop_0, (drop_ge (hm_slots s)), (drop_ge (hm_slots f)) by done.
  - lia.
  - cbn [without_oldest hm_base]. rewrite Hslots, length_drop. lia.
  - intros x. rewrite take_0. change (x ∈ sources_of []) with (x ∈ (@nil string)). rewrite elem_of_nil, !without_evicted, H4.
    rewrite !firstn_all. rewrite Hslots.
    assert (x ∈ sources_of (hm_slots f) <-> x ∈ sources_of (take k (hm_slots f)) \/ x ∈ sources_of (drop k (hm_slots f))) as ->.
    { rewrite <- (take_drop k (hm_slots f)) at 1. unfold sources_of. by rewrite fmap_app, elem_of_app. }
    tauto.
Qed.

Lemma map_lines_both lines : in_step (map_lines lines).
Proof.
  induction lines as [|line lines IH]; intros f s Hfs; cbn [map_lines]; [by eexists _, _, _|].
  assert (in_step (map_line line)) as Hline.
  { intros f0 s0 H0. destruct line as [line terminated| |]; cbn [map_line]; [|exact (hole_step f0 s0 H0)|exact (same_step [] f0 s0 H0)].
    destruct (sall is_ascii_whitespace line); [exact (same_step [] f0 s0 H0)|].
    destruct (from_str line) as [record|]; [exact (push_record_both record f0 s0 H0)|exact (same_step _ f0 s0 H0)]. }
  destruct (Hline f s Hfs) as (f1 & s1 & n1 & -> & -> & H1). cbn [mbind option_bind].
  destruct (IH f1 s1 H1) as (f2 & s2 & n2 & -> & -> & H2). by eexists _, _, _.
Qed.

Lemma new_both cut : newest_end (set_truncated cut HistoryMapper_new) (set_truncated cut HistoryMapper_new).
Proof.
  assert (sound to_vec (set_truncated cut HistoryMapper_new)) as Hn by (eapply sound_fields; [apply sound_new|..]; done).
  split_and!; [by split_and!|by split_and!|]. exists 0%nat. split; try done. intros x. cbn. set_solver.
Qed.

(** C22: evicting while a transcript is read keeps the newest end of the conversation: the rows it hands over are,
    one for one, the last of those that mapping the whole file without bounds would give, with the same turns and
    the same drift noted; and where it claims to be complete, all of them. *)
Theorem newest_end_kept lines cut :
  exists whole bounded noted,
    map_lines lines keep_all (set_truncated cut HistoryMapper_new) = Some (whole, noted)
    /\ take_lines to_string from_str to_vec sha256 unix_now scheme created_at_ms lines (set_truncated cut HistoryMapper_new) = Some (bounded, noted)
    /\ th_turn_prompts (finish bounded) = th_turn_prompts (finish whole)
    /\ exists k, th_entries (finish bounded) = drop k (th_entries (finish whole)) /\ (th_complete (finish bounded) = true -> k = 0%nat).
Proof.
  destruct (map_lines_both lines _ _ (new_both cut)) as (f & s & noted & Hf & Hs & Hkf & Hks & k & Hr).
  exists f, s, noted. rewrite <- map_lines_take. split_and!; [done|done| |].
  - unfold finish. repeat case_match. cbn [th_turn_prompts]. apply (ends_turns k f s Hr).
  - assert (forall over cut m, kept to_vec over cut m -> Forall (fun slot => NormalizedTimelineEntry_validate (sl_entry slot) = Ok tt) (hm_slots m)) as Hv
      by (intros over c m Hm; eapply Forall_impl; [apply (sound_rows to_vec m (proj1 Hm))|]; by intros slot [_ ?]).
    destruct (finish_entries f) as [-> Hcf]; [by eapply Hv|]. destruct (finish_entries s) as [-> Hcs]; [by eapply Hv|].
    exists k. rewrite (ends_slots k f s Hr), fmap_drop. split; [done|]. rewrite Hcs. intros Ht%negb_true_iff.
    by destruct (ends_truncated k f s Hr Ht).
Qed.
End stream.
