(* ===== verification/CodexHook.v ===== *)
(** Codex's hooks: what a payload becomes ([codex_hook.rs]), how the daemon reads it, and what a process's
    arguments say it is ([codex_adapter.rs]). The hasher, [serde_json], the clock, the process table and what the
    carried versions are, are parameters. *)
From S2P Require Import Prelude Text HostProtocol Protocol Metadata Reconcile Timeline Registration Whereabouts GitDiff Downloads Output HookCommon AgentAdapter.

Local Open Scope string_scope.
Local Open Scope N_scope.

Definition PINNED_CODEX_VERSION : string := "0.166.0".
Definition CODEX_HOOK_PROTOCOL_VERSION : N := 1.
Definition CODEX_DIGEST_DOMAIN : string := "ciao-codex-hook-v1" +:+ String "000" "".
Definition MAX_CODEX_ANCESTRY : nat := 4.

Definition IGNORED_HOOK_EVENTS : list string :=
  ["PreCompact"; "PostCompact"; "SubagentStart"; "SubagentStop"; "Interrupt"; "PreModelRequest"; "PostModelRequest"].

(** What is noted in the drift ledger: surface, kind and name. *)
Definition Noted : Type := string * string * string.

(** ** What the pinned extract lists *)

(** What the extract lists, where it can be read. *)
Definition known_in (listed : option (list string)) (name : string) : bool :=
  match listed with None | Some [] => true | Some names => one_of name names end.

Definition known_thread_item (thread_item_types : option (list string)) (item_type : string) : bool := known_in thread_item_types item_type.

(** The name as the extract spells it. *)
Definition lower_first (name : string) : string := match name with String b rest => String (ascii_lower b) rest | EmptyString => EmptyString end.

Definition known_hook_event (hook_event_names : option (list string)) (event_name : string) : bool := known_in hook_event_names (lower_first event_name).

(** ** Frames *)

Inductive CodexHookEventFrame :=
| CodexHeartbeat (v : N) (context_reset : bool)
| CodexUpsertEntry (v : N) (entry : WireTimelineEntry)
| CodexNotification (v : N) (kind : string)
| CodexTurn (v : N) (turn : TurnState)
| CodexSessionEnd (v : N).

Record HookRuntimeFacts := mkHookRuntimeFacts { cf_process_id : N; cf_process_nonce : string; cf_adapter_version : string }.

Record HookDispatch := mkHookDispatch {
  cd_registration : AttachedHookRegister; cd_event : CodexHookEventFrame; cd_turn : option TurnState }.

(** [DIALECT]; [is_carried] is the verdict on a version the classifier refuses. *)
Definition codex_dialect (is_carried : string -> bool) : AttachedHookDialect :=
  mkAttachedHookDialect "codex" "Codex" PINNED_CODEX_VERSION (Some is_carried) CODEX_HOOK_PROTOCOL_VERSION "codex_hooks_partial"
    "codex_turn_unreported" "adapter_version_unsupported".

Section hook.
Context (sha256 : list N -> list N).

Definition opaque_digest (namespace value : string) : string :=
  "codex." +:+ namespace +:+ "." +:+ keyed_digest sha256 CODEX_DIGEST_DOMAIN namespace value.

Definition codex_run_id (turn_id : string) : string := "codex.turn." +:+ keyed_digest sha256 CODEX_DIGEST_DOMAIN "turn" turn_id.

Definition prompt_source_id (turn_id : string) : string := opaque_digest "prompt" turn_id.

Definition process_nonce (process_id : N) : string := opaque_digest "process" (decimal process_id).

Definition running (turn_id : string) : TurnState := Running (codex_run_id turn_id) "responding".

(** [serde_json::to_string], what [unix_now] read, the carried versions and the hook events of the extract. *)
Context (to_string : Value -> option string) (timestamp : N) (is_carried : string -> bool) (hook_event_names : option (list string)).

Definition upsert (entry : WireTimelineEntry) : CodexHookEventFrame := CodexUpsertEntry CODEX_HOOK_PROTOCOL_VERSION entry.

Definition tool_event (fields : list (string * Value)) (state status : string) (source_revision : N) : result string CodexHookEventFrame :=
  let? tool_name := required_string fields "tool_name" in
  let? tool_use_id := required_string fields "tool_use_id" in
  let safe_name := if is_ok (valid_token tool_name) then tool_name else "unknown_tool" in
  let '(input_preview, input_clipped) := bounded_preview to_string (field "tool_input" fields) MAX_TOOL_INPUT_PREVIEW_BYTES in
  let '(result_preview, result_clipped) := bounded_preview to_string (field "tool_response" fields) MAX_TOOL_RESULT_PREVIEW_BYTES in
  let truncation := preview_truncation to_string (input_clipped || result_clipped) [field "tool_input" fields; field "tool_response" fields] in
  Ok (upsert (mkWireTimelineEntry (opaque_digest "tool" tool_use_id) source_revision timestamp state "tool"
                (Tool (mkToolTimelineBody safe_name status input_preview result_preview)) truncation)).

(** The text of a turn, as a row. *)
Definition text_event (fields : list (string * Value)) (name namespace turn_id kind : string) : result string CodexHookEventFrame :=
  let? whole := required_string fields name in
  let '(text, truncation) := bounded_text whole MAX_RETAINED_TEXT_BYTES in
  Ok (upsert (mkWireTimelineEntry (opaque_digest namespace turn_id) 1 timestamp "complete" kind (Protocol.Text text) truncation)).

(** The event a payload carries and the turn it establishes, by the event's name; none where it carries neither. *)
Definition hook_event (fields : list (string * Value)) (event_name : string)
  : result string (option (CodexHookEventFrame * option TurnState) * list Noted) :=
  if event_name =s? "SessionStart" then
    let '(context_reset, unknown) := session_start_resets_context fields in
    Ok (Some (CodexHeartbeat CODEX_HOOK_PROTOCOL_VERSION context_reset, Some Idle),
        match unknown with Some source => [("session_start", "unknown_source", source)] | None => [] end)
  else if event_name =s? "UserPromptSubmit" then
    let? turn_id := required_string fields "turn_id" in
    let? event := text_event fields "prompt" "prompt" turn_id "user_message" in
    Ok (Some (event, Some (running turn_id)), [])
  else if event_name =s? "PreToolUse" then
    let? event := tool_event fields "streaming" "running" 1 in
    let? turn_id := required_string fields "turn_id" in
    Ok (Some (event, Some (running turn_id)), [])
  else if event_name =s? "PostToolUse" then
    let? event := tool_event fields "complete" "completed" 2 in
    let? turn_id := required_string fields "turn_id" in
    Ok (Some (event, Some (running turn_id)), [])
  else if event_name =s? "Stop" then
    let? turn_id := required_string fields "turn_id" in
    let? event := text_event fields "last_assistant_message" "message" turn_id "assistant_message" in
    Ok (Some (event, Some (Completed (Some (codex_run_id turn_id)))), [])
  else if event_name =s? "PermissionRequest" then
    let run := turn_id ← field "turn_id" fields ≫= as_str;
               if is_ok (valid_opaque_id (codex_run_id turn_id)) then Some (codex_run_id turn_id) else None in
    Ok (Some (CodexNotification CODEX_HOOK_PROTOCOL_VERSION "permission_prompt", Some (AwaitingInteraction run)), [])
  else if event_name =s? "SessionEnd" then Ok (Some (CodexSessionEnd CODEX_HOOK_PROTOCOL_VERSION, Some Idle), [])
  else if one_of event_name IGNORED_HOOK_EVENTS then Ok (None, [])
  else Ok (None, if known_hook_event hook_event_names event_name then [] else [("hook_event", "unknown_event", event_name)]).

Definition map_hook_input (value : Value) (facts : HookRuntimeFacts) : result string (option HookDispatch * list Noted) :=
  let? fields := object value in
  let? session_id := required_string fields "session_id" in
  refuse_if (negb (is_ok (valid_opaque_id session_id))) "Codex thread ID is invalid" ?;
  let? cwd := required_string fields "cwd" in
  let? event_name := required_string fields "hook_event_name" in
  let supported := VendorVersionState_admitted (classify_vendor_version (cf_adapter_version facts) PINNED_CODEX_VERSION)
                   || is_carried (cf_adapter_version facts) in
  let? dispatched :=
    if negb supported then Ok (Some (CodexHeartbeat CODEX_HOOK_PROTOCOL_VERSION false, None), [])
    else hook_event fields event_name in
  let '(dispatched, noted) := dispatched in
  Ok ((fun '(event, turn) =>
         mkHookDispatch
           (mkAttachedHookRegister CODEX_HOOK_PROTOCOL_VERSION "register" "codex" (cf_adapter_version facts) "tui_hook" session_id
              (cf_process_nonce facts) (cf_process_id facts) (workspace_display cwd) cwd None)
           event turn) <$> dispatched, noted).
End hook.

(** ** The daemon's side *)

Section adapter.
(** [decode_bridge_body], and what [serde_json] reads as a registration and as a heartbeat. *)
Context `{HookShapes} (decode_bridge_body : string -> result AgentProtocolError Value).
Context (register_of : Value -> option AttachedHookRegister) (reset_of : Value -> option (Frame bool)) (is_carried : string -> bool).

Definition decode_heartbeat_frame (value : Value) : result AgentProtocolError bool :=
  decode_frame reset_of value CODEX_HOOK_PROTOCOL_VERSION "heartbeat".

Definition decode_registration (body : string) (peer_process_id : option N) : result AgentProtocolError NormalizedRegistration :=
  let? typed := frame_type decode_bridge_body body in
  let '(message_type, value) := typed in
  refuse_if (negb (message_type =s? "register")) UnexpectedMessage ?;
  let? register := ok_or (register_of value) MalformedJson in
  AttachedHookRegister_normalize register peer_process_id (codex_dialect is_carried).

Definition decode_event (body : string) : result AgentProtocolError NormalizedAdapterEvent :=
  let? typed := frame_type decode_bridge_body body in
  let '(message_type, value) := typed in
  if message_type =s? "register" then let? _ := ok_or (register_of value) MalformedJson in Ok EvRegistration
  else if message_type =s? "heartbeat" then
    let? context_reset := decode_heartbeat_frame value in Ok (if context_reset : bool then EvContextReset else EvHeartbeat)
  else if message_type =s? "upsert_entry" then
    let? wire := decode_entry_frame value CODEX_HOOK_PROTOCOL_VERSION "upsert_entry" in
    let? entry := WireTimelineEntry_normalize wire in
    Ok (EvUpsertEntry entry)
  else if message_type =s? "notification" then
    let? kind := decode_notification_frame value CODEX_HOOK_PROTOCOL_VERSION in Ok (EvNotification kind)
  else if message_type =s? "turn" then let? turn := decode_turn_frame value CODEX_HOOK_PROTOCOL_VERSION in Ok (EvTurn turn)
  else if message_type =s? "session_end" then
    decode_unit_frame value CODEX_HOOK_PROTOCOL_VERSION "session_end" ?; Ok EvSessionEnded
  else Ok EvUnknown.
End adapter.

(** ** Processes *)

Inductive CodexProcessRole := RoleTui | RoleLocalAppServer | RoleOther | RoleUnknown.

Definition executable_is_codex (argument_zero : string) : bool := opt_is (file_name argument_zero) "codex".

Definition HELP_OPTIONS : list string := ["--help"; "-h"; "--version"; "-V"].
Definition VALUE_OPTIONS : list string :=
  ["--config"; "-c"; "--model"; "-m"; "--profile"; "-p"; "--sandbox"; "-s"; "--ask-for-approval"; "-a"; "--cd"; "-C"; "--add-dir";
   "--local-provider"; "--enable"; "--disable"; "--remote"; "--remote-auth-token-env"].
Definition FLAG_OPTIONS : list string :=
  ["--no-daemon"; "--no-alt-screen"; "--strict-config"; "--oss"; "--search"; "--worktree"; "--approve-for-me"; "--not-so-yolo";
   "--dangerously-bypass-approvals-and-sandbox"; "--yolo"; "--dangerously-bypass-hook-trust"].
Definition RESUME_OPTIONS : list string := ["--last"; "--all"; "--include-non-interactive"].
Definition OTHER_COMMANDS : list string :=
  ["exec"; "e"; "review"; "login"; "logout"; "mcp"; "plugin"; "remote-control"; "app"; "completion"; "update"; "doctor"; "sandbox"; "debug";
   "apply"; "a"; "queue"; "archive"; "delete"; "migrate-rollouts"; "migrate-nfs-db"; "unarchive"; "cloud"; "cloud-tasks"; "exec-server";
   "features"; "help"; "mcp-server"].

(** A short option with its value attached. *)
Definition attached_value (argument : string) : bool :=
  starts_with argument "-" && negb (starts_with argument "--") && (2 <? slen argument)
  && match argument with String _ (String b _) => existsb (Ascii.eqb b) ["c"; "m"; "p"; "s"; "a"; "C"]%char | _ => false end.

(** The arguments after the program's name, and what is noted of an option nobody knows. *)
Fixpoint role_of (interactive_subcommand prompt_seen : bool) (arguments : list string) : CodexProcessRole * option string :=
  match arguments with
  | [] => (RoleTui, None)
  | argument :: arguments =>
      let '(option, inline_value) := match split_once "=" argument with Some (name, _) => (name, true) | None => (argument, false) end in
      if argument =s? "--" then (RoleTui, None)
      else if one_of option HELP_OPTIONS then (RoleOther, None)
      else if one_of option VALUE_OPTIONS then
        if inline_value then role_of interactive_subcommand prompt_seen arguments
        else match arguments with [] => (RoleUnknown, None) | _ :: arguments => role_of interactive_subcommand prompt_seen arguments end
      else if attached_value argument then role_of interactive_subcommand prompt_seen arguments
      else if one_of option FLAG_OPTIONS && negb inline_value then role_of interactive_subcommand prompt_seen arguments
      else if interactive_subcommand && one_of option RESUME_OPTIONS && negb inline_value then role_of interactive_subcommand prompt_seen arguments
      else if one_of option ["--image"; "-i"] || (starts_with argument "-i" && negb (starts_with argument "--")) then (RoleUnknown, None)
      else if starts_with argument "-" then
        (RoleUnknown, Some (if starts_with option "--" then option else sconcat (take 2 (chars option))))
      else if interactive_subcommand then role_of interactive_subcommand prompt_seen arguments
      else if prompt_seen then (RoleUnknown, None)
      else if argument =s? "app-server" then (RoleLocalAppServer, None)
      else if one_of argument ["resume"; "fork"; "agents"] then role_of true prompt_seen arguments
      else if one_of argument OTHER_COMMANDS then (RoleOther, None)
      else role_of interactive_subcommand true arguments
  end.

Definition process_role (arguments : list string) : CodexProcessRole * option string :=
  match arguments with
  | binary :: arguments => if executable_is_codex binary then role_of false false arguments else (RoleUnknown, None)
  | [] => (RoleUnknown, None)
  end.

Section processes.
(** The process table. *)
Context (process_arguments : N -> option (list string)) (process_parent : N -> option N).

Definition process_is_interactive (pid : N) : bool :=
  match process_arguments pid with Some arguments => match (process_role arguments).1 with RoleTui => true | _ => false end | None => false end.

Definition process_is_local_app_server (pid : N) : bool :=
  match process_arguments pid with
  | Some arguments => match (process_role arguments).1 with RoleLocalAppServer => true | _ => false end
  | None => false
  end.

(** The walk up from a process. *)
Fixpoint codex_ancestor (steps : nat) (pid : N) : option N :=
  match steps with
  | O => None
  | S steps =>
      if pid =? 0 then None
      else if is_some_and executable_is_codex (process_arguments pid ≫= head) then Some pid
      else
        parent ← process_parent pid;
        if (parent =? 0) || (parent =? pid) then None else codex_ancestor steps parent
  end.

Definition codex_process_id (parent_id : N) : result string N :=
  ok_or (codex_ancestor MAX_CODEX_ANCESTRY parent_id) "the Codex process that invoked this hook could not be identified".
End processes.

(** What [codex --version] answered: whether it succeeded, and its output. *)
Definition parse_codex_version_output (success : bool) (stdout : string) : result string string :=
  refuse_if (negb success || (stdout =s? "") || (256 <? slen stdout)) "Codex returned an invalid version response" ?;
  let? text := ok_or (from_utf8 stdout) "Codex version response is not text" in
  let? version := ok_or (strip_prefix (trim text) "codex-cli ") "Codex version response has an unknown format" in
  refuse_if ((version =s? "") || negb (sall (fun b => is_ascii_digit b || Ascii.eqb b ".") version)) "Codex version response is invalid" ?;
  Ok version.
