(* ===== verification/CodexHookSpec.v ===== *)
(** Codex's hooks and the daemon that reads them: whatever a payload holds, what the hook makes of it is accepted;
    and the arguments that decide what a process is. *)
From S2P Require Import Prelude Text HostProtocol Protocol Fit Metadata Reconcile Timeline Registration Drift UploadNames Whereabouts Downloads Output HookCommon.
From S2P Require Import AgentAdapter HookSpec CodexHook.

Local Open Scope string_scope.
Local Open Scope N_scope.

(** ** Identifiers *)

Lemma codex_digest_ok sha256 namespace value : sha256_bytes sha256 ->
  (String.length namespace <= 20)%nat -> sall token_byte namespace = true -> valid_opaque_id (opaque_digest sha256 namespace value) = Ok tt.
Proof. intros Hlaw Hn Ht. by apply (vendor_digest_ok sha256 Hlaw "codex"); [cbn; lia| | |]. Qed.

Lemma codex_run_id_ok sha256 turn_id : sha256_bytes sha256 -> valid_opaque_id (codex_run_id sha256 turn_id) = Ok tt.
Proof. intros Hlaw. apply (codex_digest_ok sha256 "turn" turn_id Hlaw); [cbn; lia|done]. Qed.

(** ** Events are accepted *)

(** What the daemon makes of a frame. *)
Definition codex_read_as (event : CodexHookEventFrame) : result AgentProtocolError NormalizedAdapterEvent :=
  match event with
  | CodexHeartbeat _ context_reset => Ok (if context_reset then EvContextReset else EvHeartbeat)
  | CodexUpsertEntry _ entry => let? entry := WireTimelineEntry_normalize entry in Ok (EvUpsertEntry entry)
  | CodexNotification _ kind => valid_token kind ?; Ok (EvNotification kind)
  | CodexTurn _ turn => TurnState_validate turn ?; Ok (EvTurn turn)
  | CodexSessionEnd _ => Ok EvSessionEnded
  end.

Definition codex_version_of (event : CodexHookEventFrame) : N :=
  match event with CodexHeartbeat v _ | CodexUpsertEntry v _ | CodexNotification v _ | CodexTurn v _ | CodexSessionEnd v => v end.

Definition codex_token_of (event : CodexHookEventFrame) : string :=
  match event with
  | CodexHeartbeat _ _ => "heartbeat" | CodexUpsertEntry _ _ => "upsert_entry" | CodexNotification _ _ => "notification"
  | CodexTurn _ _ => "turn" | CodexSessionEnd _ => "session_end"
  end.

(** What [serde_json] writes of registrations and events is read back, where it fits a frame. *)
Class CodexWire `{HookShapes} (decode_bridge_body : string -> result AgentProtocolError Value) (register_of : Value -> option AttachedHookRegister)
    (reset_of : Value -> option (Frame bool)) := {
  codex_register_body : AttachedHookRegister -> string;
  codex_event_body : CodexHookEventFrame -> string;
  codex_register_read register : slen (codex_register_body register) <= MAX_BRIDGE_FRAME_BYTES ->
    exists v, decode_bridge_body (codex_register_body register) = Ok v /\ get "type" v ≫= as_str = Some (hr_message_type register)
      /\ register_of v = Some register;
  codex_event_read event : slen (codex_event_body event) <= MAX_BRIDGE_FRAME_BYTES ->
    exists v, decode_bridge_body (codex_event_body event) = Ok v /\ get "type" v ≫= as_str = Some (codex_token_of event)
      /\ match event with
         | CodexHeartbeat version context_reset => reset_of v = Some (mkFrame version "heartbeat" context_reset)
         | CodexUpsertEntry version entry => entry_of v = Some (mkFrame version "upsert_entry" entry)
         | CodexNotification version kind => kind_of v = Some (mkFrame version "notification" kind)
         | CodexTurn version turn => turn_of v = Some (mkFrame version "turn" turn)
         | CodexSessionEnd version => unit_of v = Some (mkFrame version "session_end" tt)
         end }.

Lemma codex_dialect_ok is_carried : dialect_ok (codex_dialect is_carried).
Proof. by vm_compute. Qed.

Section events.
Context (sha256 : list N -> list N) (sha256_law : sha256_bytes sha256) (to_string : Value -> option string) (now : N) (now_law : now <> 0).

(** A frame of the dialect's version that the daemon reads. *)
Definition codex_readable (event : CodexHookEventFrame) : Prop :=
  codex_version_of event = CODEX_HOOK_PROTOCOL_VERSION /\ exists read, codex_read_as event = Ok read.

Lemma codex_entry_readable entry : accepted entry -> codex_readable (upsert entry).
Proof. intros [normal Hn]. split; [done|]. cbn. rewrite Hn. by eexists. Qed.

Lemma codex_tool_event_ok fields state status revision event :
  valid_token state = Ok tt -> valid_token status = Ok tt -> revision <> 0 ->
  tool_event sha256 to_string now fields state status revision = Ok event -> codex_readable event.
Proof.
  intros Hstate Hstatus Hrev. unfold tool_event. destruct (required_string fields "tool_name") as [name|]; [|done].
  destruct (required_string fields "tool_use_id") as [id|]; [|done]. cbn [rbind].
  destruct (bounded_preview _ (field "tool_input" _) _) as [input clipped] eqn:Hin, (bounded_preview _ (field "tool_response" _) _) as [output clipped'] eqn:Hout.
  intros [= <-]. destruct (preview_truncation_ok to_string (clipped || clipped') [field "tool_input" fields; field "tool_response" fields]).
  apply codex_entry_readable, entry_accepted; try done; [apply codex_digest_ok; [done|cbn; lia|done]|by eapply tool_preview_ok].
Qed.

Lemma codex_text_event_ok fields name namespace turn_id kind event :
  (String.length namespace <= 20)%nat -> sall token_byte namespace = true -> valid_token kind = Ok tt ->
  text_event sha256 now fields name namespace turn_id kind = Ok event -> codex_readable event.
Proof.
  intros Hl Ht Hk. unfold text_event. destruct (required_string fields name) as [whole|]; [|done]. cbn [rbind].
  destruct (bounded_text whole _) as [text truncation] eqn:Hb. intros [= <-].
  eapply codex_entry_readable, text_entry_accepted; try done. by apply codex_digest_ok.
Qed.

Lemma codex_hook_event_ok hook_event_names fields name dispatched noted :
  hook_event sha256 to_string now hook_event_names fields name = Ok (dispatched, noted) ->
  forall event turn, dispatched = Some (event, turn) -> codex_readable event /\ forall t, turn = Some t -> TurnState_validate t = Ok tt.
Proof.
  assert (forall id, TurnState_validate (running sha256 id) = Ok tt) as Hrun by (intros id; apply turn_ok; [by apply codex_run_id_ok|done]).
  assert (forall f st stat r, valid_token st = Ok tt -> valid_token stat = Ok tt -> r <> 0 ->
    (let? event := tool_event sha256 to_string now f st stat r in
     let? turn_id := required_string f "turn_id" in Ok (Some (event, Some (running sha256 turn_id)), [])) = Ok (dispatched, noted) ->
    forall event turn, dispatched = Some (event, turn) -> codex_readable event /\ forall t, turn = Some t -> TurnState_validate t = Ok tt) as Htool.
  { intros f st stat r Hst Hstat Hr. destruct (tool_event _ _ _ _ _ _ _) as [e|] eqn:He; [|done]. cbn [rbind].
    destruct (required_string f "turn_id") as [id|]; [|done]. cbn [rbind]. intros [= <- <-] event turn [= <- <-].
    split; [exact (codex_tool_event_ok _ _ _ _ _ Hst Hstat Hr He)|by intros t [= <-]]. }
  unfold hook_event. repeat match goal with |- (if ?b then _ else _) = _ -> _ => destruct b end.
  - destruct (session_start_resets_context fields) as [reset unknown]. intros [= <- <-] event turn [= <- <-].
    split; [split; [done|by eexists]|by intros t [= <-]].
  - destruct (required_string fields "turn_id") as [id|]; [|done]. cbn [rbind]. destruct (text_event _ _ _ _ _ _ _) as [e|] eqn:He; [|done].
    intros [= <- <-] event turn [= <- <-]. split; [eapply codex_text_event_ok; [| | |exact He]; [cbn; lia|done|done]|by intros t [= <-]].
  - apply Htool; by vm_compute.
  - apply Htool; by vm_compute.
  - destruct (required_string fields "turn_id") as [id|]; [|done]. cbn [rbind]. destruct (text_event _ _ _ _ _ _ _) as [e|] eqn:He; [|done].
    intros [= <- <-] event turn [= <- <-]. split; [eapply codex_text_event_ok; [| | |exact He]; [cbn; lia|done|done]|].
    intros t [= <-]. by apply codex_run_id_ok.
  - intros [= <- <-] event turn [= <- <-]. split; [split; [done|by eexists]|]. intros t [= <-]. cbn [TurnState_validate]. apply opt_each_ok.
    intros x Hx. destruct (field "turn_id" fields ≫= as_str) as [id|]; [|done]. cbn [mbind option_bind] in Hx.
    rewrite codex_run_id_ok in Hx by done. injection Hx as <-. by apply codex_run_id_ok.
  - intros [= <- <-] event turn [= <- <-]. split; [split; [done|by eexists]|by intros t [= <-]].
  - by intros [= <- <-] event turn.
  - by intros [= <- <-] event turn.
Qed.

Context `{CodexWire} (is_carried : string -> bool) (hook_event_names : option (list string)).

Lemma codex_event_decoded event : slen (codex_event_body event) <= MAX_BRIDGE_FRAME_BYTES -> codex_version_of event = CODEX_HOOK_PROTOCOL_VERSION ->
  decode_event decode_bridge_body register_of reset_of (codex_event_body event) = codex_read_as event.
Proof.
  intros Hfit Hv. destruct (codex_event_read event Hfit) as (v & Hd & Ht & Hread). unfold decode_event. rewrite (frame_type_of _ _ _ _ Hd Ht).
  cbn [rbind]. destruct event; cbn [codex_version_of codex_token_of] in *; subst; cbn [String.eqb Ascii.eqb Bool.eqb rbind];
    unfold decode_heartbeat_frame, decode_entry_frame, decode_notification_frame, decode_turn_frame, decode_unit_frame, decode_frame;
    rewrite Hread; cbn [ok_or rbind fm_v fm_message_type fm_payload validate_frame_header]; try done; cbn;
    [by destruct (valid_token kind) as [[]|]|by destruct (TurnState_validate turn) as [[]|]].
Qed.

(** What a hook knows of its process. *)
Definition codex_facts_ok (facts : HookRuntimeFacts) : Prop :=
  cf_process_id facts <> 0 /\ valid_opaque_id (cf_process_nonce facts) = Ok tt /\ valid_token (cf_adapter_version facts) = Ok tt.

(** Whatever Codex hands a hook, what the hook makes of it the daemon accepts: the registration is a valid
    one of that thread and process, the event is read as the entry or the notice it stands for, and so is the
    turn that follows it. *)
Theorem codex_events_accepted value facts dispatch noted peer :
  codex_facts_ok facts -> (forall cwd, get "cwd" value ≫= as_str = Some cwd -> utf8 cwd) ->
  map_hook_input sha256 to_string now is_carried hook_event_names value facts = Ok (Some dispatch, noted) ->
  (slen (codex_register_body (cd_registration dispatch)) <= MAX_BRIDGE_FRAME_BYTES ->
   exists r, decode_registration decode_bridge_body register_of is_carried (codex_register_body (cd_registration dispatch)) (Some peer) = Ok r
     /\ NormalizedRegistration_validate r = Ok tt /\ Some (nr_upstream_identity r) = get "session_id" value ≫= as_str
     /\ nr_process_id r = cf_process_id facts)
  /\ forall event, event = cd_event dispatch \/ (exists turn, cd_turn dispatch = Some turn /\ event = CodexTurn CODEX_HOOK_PROTOCOL_VERSION turn) ->
      slen (codex_event_body event) <= MAX_BRIDGE_FRAME_BYTES ->
      exists read, decode_event decode_bridge_body register_of reset_of (codex_event_body event) = Ok read /\ codex_read_as event = Ok read.
Proof.
  intros (Hpid & Hnonce & Hversion) Hutf. unfold map_hook_input. destruct (object value) as [fields|] eqn:Hobj; [|done]. cbn [rbind].
  assert (forall name text, required_string fields name = Ok text -> get name value ≫= as_str = Some text) as Hfield.
  { intros name text Hr. unfold required_string in Hr. unfold object in Hobj. unfold get. destruct (as_object value) as [f|]; [|done].
    injection Hobj as ->. cbn. destruct (field name fields ≫= as_str) as [c|]; [|done]. cbn in Hr. destruct (c =s? ""); [done|]. by injection Hr as ->. }
  destruct (required_string fields "session_id") as [session_id|] eqn:Hsession; [|done]. cbn [rbind].
  destruct (valid_opaque_id session_id) as [[]|] eqn:Hid; [|done]. cbn [is_ok negb refuse_if rbind].
  destruct (required_string fields "cwd") as [cwd|] eqn:Hcwd; [|done]. cbn [rbind].
  destruct (required_string fields "hook_event_name") as [name|]; [|done]. cbn [rbind].
  destruct (if negb _ then _ else _) as [[dispatched noted']|] eqn:Hevent; [|done]. cbn [rbind].
  destruct dispatched as [[event turn]|]; [|done]. cbn [fmap option_fmap option_map]. intros [= <- <-]. cbn [cd_registration cd_event cd_turn].
  assert (codex_readable event /\ forall t, turn = Some t -> TurnState_validate t = Ok tt) as [[Hv Hread] Hturn].
  { destruct (negb _); [|by eapply codex_hook_event_ok]. injection Hevent as <- <- <-. split; [|done]. split; [done|by eexists]. }
  split.
  - intros Hfit. destruct (codex_register_read _ Hfit) as (v & Hd & Ht & Hr). unfold decode_registration. rewrite (frame_type_of _ _ _ _ Hd Ht).
    cbn [rbind]. cbn [hr_message_type String.eqb Ascii.eqb Bool.eqb negb refuse_if rbind]. rewrite Hr. cbn [ok_or rbind].
    destruct (register_accepted (codex_dialect is_carried) _ _ _ session_id cwd peer (codex_dialect_ok _) Hpid Hnonce Hversion Hid) as (r & Hn & Hok & Hup & Hp).
    { by apply Hutf, Hfield. }
    exists r. rewrite (Hfield _ _ Hsession), Hup. by split_and!.
  - intros e [->|(t & Ht & ->)] Hfit; rewrite codex_event_decoded by done; [destruct Hread as [read Hread]; by exists read|].
    exists (EvTurn t). cbn. by rewrite (Hturn t Ht).
Qed.
End events.

(** ** Processes *)

Lemma split_once_is sep s a b : split_once sep s = Some (a, b) -> s = a +:+ String sep b.
Proof.
  revert a. induction s as [|x s IH]; intros a; [done|]. cbn [split_once]. destruct (Ascii.eqb_spec x sep) as [->|]; [by intros [= <- ->]|].
  destruct (split_once sep s) as [[a' b']|]; [|done]. cbn. intros [= <- <-]. cbn. f_equal. by apply IH.
Qed.

Lemma split_once_at sep a b : split_once sep a = None -> split_once sep (a +:+ String sep b) = Some (a, b).
Proof.
  induction a as [|x a IH]; intros Ha; cbn [split_once String.append] in *; [by rewrite Ascii.eqb_refl|].
  destruct (Ascii.eqb x sep); [done|]. destruct (split_once sep a) as [[]|]; [done|]. by rewrite IH.
Qed.

(** What may stand before the command: flags, and options with their values, whatever these are. *)
Inductive passed_over : list string -> Prop :=
| passed_none : passed_over []
| passed_flag option rest : option ∈ FLAG_OPTIONS -> passed_over rest -> passed_over (option :: rest)
| passed_value option value rest : option ∈ VALUE_OPTIONS -> passed_over rest -> passed_over (option :: value :: rest)
| passed_inline option value rest : option ∈ VALUE_OPTIONS -> passed_over rest -> passed_over ((option +:+ "=" +:+ value) :: rest)
| passed_attached argument rest : attached_value argument = true -> passed_over rest -> passed_over (argument :: rest).

(** The part of an argument that names an option, and whether a value follows in it. *)
Definition option_of (argument : string) : string * bool :=
  match split_once "=" argument with Some (name, _) => (name, true) | None => (argument, false) end.

(** Once a prompt or a command was read, no argument makes the process an app server. *)
Lemma role_decided interactive prompt arguments : interactive || prompt = true -> (role_of interactive prompt arguments).1 <> RoleLocalAppServer.
Proof.
  remember (length arguments) as n eqn:Hn. revert interactive prompt arguments Hn. induction (lt_wf n) as [n _ IH].
  intros interactive prompt [|argument arguments] -> Hor; [done|]. cbn [role_of]. fold (option_of argument). destruct (option_of argument) as [option inline].
  assert (forall i p l, (length l <= length arguments)%nat -> i || p = true -> (role_of i p l).1 <> RoleLocalAppServer) as Hrest.
  { intros i p l Hl. eapply (IH (length l)); [cbn; lia|done]. }
  repeat match goal with
         | |- ((if ?b then _ else _).1 <> _) => destruct b eqn:?
         | |- ((match arguments with [] => _ | _ :: _ => _ end).1 <> _) => destruct arguments
         end; try done; apply Hrest; cbn; (lia || done).
Qed.

Lemma role_app_server arguments : (role_of false false arguments).1 = RoleLocalAppServer ->
  exists options rest, arguments = (options ++ "app-server" :: rest)%list /\ passed_over options.
Proof.
  remember (length arguments) as n eqn:Hn. revert arguments Hn. induction (lt_wf n) as [n _ IH]. intros [|argument arguments] ->; [done|].
  assert (forall before l, (length l <= length arguments)%nat -> (forall options, passed_over options -> passed_over (before ++ options)%list) ->
    (role_of false false l).1 = RoleLocalAppServer ->
    exists options rest, (before ++ l)%list = (options ++ "app-server" :: rest)%list /\ passed_over options) as Hrest.
  { intros before l Hl Hbefore Hrole. destruct (IH (length l) ltac:(cbn; lia) l eq_refl Hrole) as (options & rest & -> & Hpass).
    exists (before ++ options)%list, rest. rewrite <- app_assoc. auto. }
  cbn [role_of]. fold (option_of argument). destruct (option_of argument) as [option inline] eqn:Hoption. unfold option_of in Hoption.
  destruct (argument =s? "--"); [done|]. destruct (one_of option HELP_OPTIONS); [done|].
  destruct (one_of option VALUE_OPTIONS) eqn:Hvalue; [apply one_of_elem in Hvalue; destruct inline|].
  - destruct (split_once "=" argument) as [[name value]|] eqn:Hs; [|done]. injection Hoption as ->. apply split_once_is in Hs as ->.
    apply (Hrest [_]); [done|]. intros options. by apply passed_inline.
  - destruct (split_once "=" argument) as [[name value]|]; [done|]. injection Hoption as ->. destruct arguments as [|value arguments]; [done|].
    apply (Hrest [_; _]); [cbn; lia|]. intros options. by apply passed_value.
  - destruct (attached_value argument) eqn:Hattached; [apply (Hrest [_]); [done|]; intros options; by apply passed_attached|].
    destruct (one_of option FLAG_OPTIONS && negb inline) eqn:Hflag.
    { apply andb_true_iff in Hflag as [Hflag%one_of_elem Hin]. destruct (split_once "=" argument) as [[name value]|]; [by injection Hoption as <- <-|].
      injection Hoption as -> <-. apply (Hrest [_]); [done|]. intros options. by apply passed_flag. }
    cbn [andb]. destruct (one_of option _ || _); [done|]. destruct (starts_with argument "-"); [done|].
    destruct (String.eqb_spec argument "app-server") as [->|]; [intros _; exists [], arguments; split; [done|constructor]|].
    destruct (one_of argument _); [by intros ?%role_decided|]. destruct (one_of argument _); [done|]. by intros ?%role_decided.
Qed.

Lemma value_option option : option ∈ VALUE_OPTIONS ->
  one_of option VALUE_OPTIONS = true /\ one_of option HELP_OPTIONS = false /\ (option =s? "--") = false /\ split_once "=" option = None.
Proof. intros Ho. repeat (apply elem_of_cons in Ho as [->|Ho]; [by vm_compute|]). by apply not_elem_of_nil in Ho. Qed.

(** A value attached to its option is never read as anything else. *)
Lemma attached_option argument : attached_value argument = true ->
  (argument =s? "--") = false /\ one_of (option_of argument).1 HELP_OPTIONS = false
  /\ (one_of (option_of argument).1 VALUE_OPTIONS = true -> (option_of argument).2 = true).
Proof.
  destruct argument as [|x [|b [|d s]]]; try (intros [[_ H]%andb_true_iff _]%andb_true_iff; done). intros Ha.
  unfold attached_value in Ha. rewrite !andb_true_iff in Ha. destruct Ha as [[[Hx _] _] Hb].
  assert (x = "-"%char) as -> by (unfold starts_with in Hx; cbn [String.prefix] in Hx; by destruct (ascii_dec "-" x) as [<-|]).
  cbn [existsb] in Hb. rewrite !orb_true_iff in Hb. unfold option_of. cbn [split_once].
  destruct Hb as [Hb|[Hb|[Hb|[Hb|[Hb|[Hb|Hb]]]]]]; [apply Ascii.eqb_eq in Hb as ->..|done];
    cbn [Ascii.eqb Bool.eqb]; (destruct (Ascii.eqb d "="); [done|]); (destruct (split_once "=" s) as [[n v]|]; done).
Qed.

Lemma role_passes options rest : passed_over options -> role_of false false (options ++ rest) = role_of false false rest.
Proof.
  induction 1 as [|option options Ho _ IH|option value options Ho _ IH|option value options Ho _ IH|argument options Ha _ IH]; [done|..]; rewrite <- IH.
  - repeat (apply elem_of_cons in Ho as [->|Ho]; [done|]). by apply not_elem_of_nil in Ho.
  - destruct (value_option option Ho) as (Hv & Hh & Hd & Hs). cbn [role_of app]. by rewrite Hs, Hv, Hh, Hd.
  - destruct (value_option option Ho) as (Hv & Hh & _ & Hs). cbn [role_of app]. change ("=" +:+ value) with (String "=" value).
    pose proof (split_once_at _ _ value Hs) as Hat. rewrite Hat, Hh, Hv.
    destruct (String.eqb_spec (option +:+ String "=" value) "--") as [He|]; [by rewrite He in Hat|done].
  - destruct (attached_option argument Ha) as (Hd & Hh & Hv). cbn [role_of app]. fold (option_of argument).
    destruct (option_of argument) as [option inline]. cbn [fst snd] in *. rewrite Hd, Hh, Ha. destruct (one_of option VALUE_OPTIONS); [by rewrite Hv|done].
Qed.

(** C29: a process is an app server exactly when its arguments name that command after nothing but flags and
    options with their values: neither a prompt, nor the value of an option, nor what follows another command
    makes it one. *)
Theorem app_server_exactly binary arguments :
  (process_role (binary :: arguments)).1 = RoleLocalAppServer <->
  executable_is_codex binary = true
  /\ exists options rest, arguments = (options ++ "app-server" :: rest)%list /\ passed_over options.
Proof.
  cbn [process_role]. destruct (executable_is_codex binary); [|by split; [|intros [? _]]]. split.
  - intros Hrole. split; [done|]. by apply role_app_server.
  - intros [_ (options & rest & -> & Hpass)]. by rewrite role_passes.
Qed.
