(* ===== verification/CodexHistory.v ===== *)
(** Codex's threads mapped into the canonical timeline ([codex_history.rs]): the thread a rollout file belongs to,
    each item of a thread as a row, and what is kept of a long one. The hasher, [serde_json] and the extract of
    the vendor's item types are parameters. *)
From S2P Require Import Prelude Text HostProtocol Protocol Metadata Reconcile Timeline Registration UploadNames Whereabouts GitDiff Downloads Output HookCommon.
From S2P Require Import AgentAdapter CodexHook.

Local Open Scope string_scope.
Local Open Scope N_scope.

Definition CODEX_HISTORY_DOMAIN : string := "ciao-codex-history-v1" +:+ String "000" "".
Definition MAX_HISTORY_ENTRIES : nat := 4096.
Definition NO_LIVE_RUN : string := "codex.turn.none".
Definition MAX_CODEX_SIGHTINGS : nat := 64.

Definition CATEGORICAL_THREAD_ITEMS : list string :=
  ["contextCompaction"; "enteredReviewMode"; "exitedReviewMode"; "hookPrompt"; "imageGeneration"; "imageView"; "plan"; "reasoning"; "sleep";
   "subAgentActivity"].

Record ThreadHistory := mkThreadHistory {
  tr_entries : list NormalizedTimelineEntry; tr_complete : bool; tr_live_turn_prompt : option string }.

(** The set of sessions already read, after the claim, and whether this one had not been. *)
Definition claim (session_id : string) (process_generation : N) (seen : gset string) : gset string * bool :=
  let seen := if 512 <? N.of_nat (size seen) then ∅ else seen in
  let key := session_id +:+ ":" +:+ decimal process_generation in
  ({[key]} ∪ seen, negb (bool_decide (key ∈ seen))).

(** ** Rollouts *)

(** [str::strip_suffix]. *)
Definition strip_suffix (s suffix : string) : option string :=
  if ends_with s suffix then Some (stake (String.length s - String.length suffix) s) else None.

Definition rollout_thread_id (path : string) : option string :=
  if negb (existsb (String.eqb "sessions") (components path)) then None
  else
    name ← file_name path;
    rest ← strip_prefix name "rollout-";
    stem ← strip_suffix rest ".jsonl";
    if (slen stem <? 36) || negb (is_char_boundary stem (String.length stem - 36)) then None
    else
      let id := sdrop (String.length stem - 36) stem in
      if uuid_bytes 0 id then Some id else None.

(** The ancestors of a path, itself left out, as its components and the last component first. *)
Fixpoint home_above (components_rev : list string) : option (list string) :=
  match components_rev with
  | [] => None
  | name :: above => if name =s? "sessions" then Some (reverse above) else home_above above
  end.

(** The components of the vendor's home, under the root. *)
Definition rollout_home (path thread_id : string) : option (list string) :=
  if negb (is_absolute path) || negb (opt_is (rollout_thread_id path) thread_id) then None
  else home_above (tail (reverse (components path))).

Section sightings.
(** The open files and the directory of a process. *)
Context (open_files : N -> list string) (cwd_of : N -> option string).

Definition home_for_live_rollout (process_id : N) (thread_id : string) : option (list string) :=
  head (omap (fun path => rollout_home path thread_id) (open_files process_id)).

Definition live_rollout_sightings (named_codex : list N) : list AgentSighting :=
  omap (fun pid =>
          thread_id ← head (omap rollout_thread_id (open_files pid));
          cwd ← cwd_of pid;
          Some (mkAgentSighting pid thread_id cwd))
    (take MAX_CODEX_SIGHTINGS named_codex).
End sightings.

(** ** Items *)

Definition content_text (item : Value) : string :=
  match get "content" item ≫= as_array with
  | Some parts => String.concat (String "010" "") (omap (fun part => get "text" part ≫= as_str) parts)
  | None => ""
  end.

Section items.
Context (sha256 : list N -> list N).
(** [serde_json::to_string], and the thread items of the extract. *)
Context (to_string : Value -> option string) (thread_item_types : option (list string)).

(** What the loop over the blocks of an output holds. *)
Record Outputs := mkOutputs {
  op_texts : list string; op_selected : list Value; op_found : bool; op_omitted : bool; op_fallback_bytes : N; op_clipped : bool }.

Definition no_outputs : Outputs := mkOutputs [] [] false false 2 false.

Definition add_text (text : string) (o : Outputs) : Outputs :=
  let texts := (op_texts o ++ [text])%list in
  if op_omitted o then mkOutputs texts (op_selected o) true true (op_fallback_bytes o) (op_clipped o)
  else
    let '(fallback, _) := bounded_text text MAX_PREVIEW_STRING_BYTES in
    let fallback_bytes := op_fallback_bytes o + encoded_len to_string (Str fallback) + (match op_selected o with [] => 0 | _ => 1 end) in
    if MAX_TOOL_RESULT_PREVIEW_BYTES <? fallback_bytes then mkOutputs texts [] true true fallback_bytes (op_clipped o)
    else
      let '(shown, truncation) := bounded_text text GENEROUS_PREVIEW_STRING_BYTES in
      mkOutputs texts (op_selected o ++ [Str shown])%list true false fallback_bytes (op_clipped o || tr_truncated truncation).

Definition output_note (kind name : string) : list Noted := [("function_call_output", kind, name)].

Definition add_block (block : Value) (o : Outputs) : Outputs * list Noted :=
  match get "type" block ≫= as_str with
  | Some kind =>
      if kind =s? "input_text" then
        match get "text" block ≫= as_str with
        | Some text => (add_text text o, [])
        | None => (o, output_note "malformed_field" "text")
        end
      else if one_of kind ["input_image"; "input_audio"; "encrypted_content"] then (o, [])
      else (o, output_note "unknown_content" kind)
  | None => (o, output_note "malformed_field" (if is_some (as_object block) then "type" else "output_block"))
  end.

Fixpoint add_blocks (blocks : list Value) (o : Outputs) : Outputs * list Noted :=
  match blocks with
  | [] => (o, [])
  | block :: blocks =>
      let '(o, noted) := add_block block o in
      let '(o, others) := add_blocks blocks o in
      (o, (noted ++ others)%list)
  end.

(** The preview of an output, whether it was cut, and the size of what it stands for; none where there is no text. *)
Definition output_preview (item : Value) : option (option string * bool * N) * list Noted :=
  match get "output" item with
  | Some (Str text) =>
      let '(preview, bounded) := bounded_preview to_string (Some (Str text)) MAX_TOOL_RESULT_PREVIEW_BYTES in
      (Some (preview, bounded, encoded_len to_string (Str text)), [])
  | Some (Array blocks) =>
      let '(o, noted) := add_blocks blocks no_outputs in
      if negb (op_found o) then (None, noted)
      else
        let original_bytes := encoded_len to_string (Array (Str <$> op_texts o)) in
        let '(preview, bounded) :=
          if op_omitted o then (None, true) else bounded_preview to_string (Some (Array (op_selected o))) MAX_TOOL_RESULT_PREVIEW_BYTES in
        (Some (preview, bounded || op_clipped o, original_bytes), noted)
  | _ => (None, output_note "malformed_field" "output")
  end.

Definition function_output (item : Value) (complete : bool) : option (ToolTimelineBody * Truncation) * list Noted :=
  let '(output, noted) := output_preview item in
  ((fun '(preview, bounded, original_bytes) =>
      (mkToolTimelineBody "functionCallOutput" (if complete then "completed" else "running") None (if complete then preview else None),
       if complete && bounded then mkTruncation true (Some "preview_bounded") (Some original_bytes) else no_truncation)) <$> output, noted).

(** The kind, the body and the cut of an item's row. *)
Definition project_item (item : Value) (item_type : string) : (string * TimelineBody * Truncation) * list Noted :=
  let '(projection, noted) := if item_type =s? "functionCallOutput" then function_output item true else (None, []) in
  match projection with
  | Some (tool, truncation) => (("tool", Tool tool, truncation), noted)
  | None =>
      if item_type =s? "userMessage" then
        let '(text, truncation) := bounded_text (content_text item) MAX_RETAINED_TEXT_BYTES in
        (("user_message", Protocol.Text text, truncation), noted)
      else if item_type =s? "agentMessage" then
        let '(text, truncation) := bounded_text (default "" (get "text" item ≫= as_str)) MAX_RETAINED_TEXT_BYTES in
        (("assistant_message", Protocol.Text text, truncation), noted)
      else if one_of item_type ["commandExecution"; "fileChange"; "mcpToolCall"; "dynamicToolCall"; "collabAgentToolCall"; "webSearch"] then
        let '(input_preview, clipped) := bounded_preview to_string (Some item) MAX_TOOL_INPUT_PREVIEW_BYTES in
        (("tool", Tool (mkToolTimelineBody item_type "completed" input_preview None), preview_truncation to_string clipped [Some item]), noted)
      else
        (("unsupported", BodyUnsupported "codex_history_item", no_truncation),
         (noted ++ if negb (item_type =s? "functionCallOutput") && negb (one_of item_type CATEGORICAL_THREAD_ITEMS)
                      && known_thread_item thread_item_types item_type
                   then [("history_item", "unmapped_item", item_type)] else [])%list)
  end.

Definition item_source (item : Value) (item_type turn_id : string) (index : N) : string :=
  let nul := String "000" "" in
  "codex.history." +:+ keyed_digest sha256 CODEX_HISTORY_DOMAIN item_type
                         (turn_id +:+ nul +:+ default "" (get "id" item ≫= as_str) +:+ nul +:+ decimal index).

Definition map_item (item : Value) (turn_id : string) (index timestamp : N) : option NormalizedTimelineEntry * list Noted :=
  match get "type" item ≫= as_str with
  | None => (None, [])
  | Some item_type =>
      let novel := if known_thread_item thread_item_types item_type then [] else [("history_item", "unknown_item", item_type)] in
      let '((kind, body, truncation), noted) := project_item item item_type in
      let entry := mkNormalizedTimelineEntry (item_source item item_type turn_id index) 1 timestamp "complete" kind body truncation in
      (if is_ok (NormalizedTimelineEntry_validate entry) then Some entry else None, (novel ++ noted)%list)
  end.

(** ** Threads *)

Fixpoint map_items (items : list Value) (turn_id : string) (timestamp : N) (entries : list NormalizedTimelineEntry)
  : list NormalizedTimelineEntry * list Noted :=
  match items with
  | [] => (entries, [])
  | item :: items =>
      let '(entry, noted) := map_item item turn_id (N.of_nat (length entries)) timestamp in
      let '(entries, others) := map_items items turn_id timestamp (match entry with Some entry => entries ++ [entry] | None => entries end)%list in
      (entries, (noted ++ others)%list)
  end.

Definition turn_id_of (turn : Value) : string := default "" (get "id" turn ≫= as_str).
Definition turn_timestamp (turn : Value) : N := N.max (default 1 (get "startedAt" turn ≫= as_u64)) 1.
Definition turn_items (turn : Value) : list Value := default [] (get "items" turn ≫= as_array).

Fixpoint map_turns (turns : list Value) (live_run_id : string) (entries : list NormalizedTimelineEntry) (live_turn_prompt : option string)
  : list NormalizedTimelineEntry * option string * list Noted :=
  match turns with
  | [] => (entries, live_turn_prompt, [])
  | turn :: turns =>
      let turn_id := turn_id_of turn in
      if codex_run_id sha256 turn_id =s? live_run_id then map_turns turns live_run_id entries (Some (prompt_source_id sha256 turn_id))
      else
        let '(entries, noted) := map_items (turn_items turn) turn_id (turn_timestamp turn) entries in
        let '(entries, live_turn_prompt, others) := map_turns turns live_run_id entries live_turn_prompt in
        (entries, live_turn_prompt, (noted ++ others)%list)
  end.

Definition map_thread_history (result : Value) (live_run_id : string) : ThreadHistory * list Noted :=
  let turns := thread ← get "thread" result; turns ← get "turns" thread; as_array turns in
  let '(entries, live_turn_prompt, noted) := map_turns (default [] turns) live_run_id [] None in
  let over := (MAX_HISTORY_ENTRIES <? length entries)%nat in
  (mkThreadHistory (if over then drop (length entries - MAX_HISTORY_ENTRIES) entries else entries) (is_some turns && negb over) live_turn_prompt,
   noted).
End items.

(** Whether the read and the live tail together are the whole conversation. *)
Definition complete_with_live_tail (history : ThreadHistory) (holds_source : string -> bool) : bool :=
  tr_complete history && match tr_live_turn_prompt history with Some source => holds_source source | None => true end.
