(* ===== verification/CodexHistorySpec.v ===== *)
(** What reading a Codex thread promises: every item of it is a row, up to the bound, but those of the turn the
    live tail owns. *)
From S2P Require Import Prelude Text HostProtocol Protocol Metadata Reconcile Timeline Registration UploadNames Whereabouts Downloads Output HookCommon.
From S2P Require Import AgentAdapter HookSpec CodexHook CodexHookSpec CodexHistory.

Local Open Scope string_scope.
Local Open Scope N_scope.

(** ** Sources *)

(** What digits stand for. *)
Fixpoint digits_value (acc : N) (s : string) : N :=
  match s with EmptyString => acc | String b s => digits_value (acc * 10 + (nb b - 48)) s end.

Lemma decimal_value fuel n rest : N.log2 n <= N.of_nat fuel -> digits_value 0 (decimal_loop fuel n rest) = digits_value n rest.
Proof.
  assert (forall d n rest, d < 10 -> digits_value n (String (ascii_of_N (48 + d)) rest) = digits_value (n * 10 + d) rest) as Hone
    by (intros d m r Hd; cbn [digits_value]; rewrite digit_byte by done; f_equal; lia).
  revert n rest. induction fuel as [|fuel IH]; intros n rest Hf; cbn [decimal_loop].
  - assert (n < 10) as Hlt by (destruct (N.lt_ge_cases n 2) as [|H]; [lia|apply N.log2_le_mono in H; change (N.log2 2) with 1 in H; lia]).
    by rewrite N.mod_small, Hone by done.
  - destruct (N.ltb_spec n 10) as [Hlt|Hge]; [by rewrite N.mod_small, Hone by done|].
    assert (N.log2 (n / 10) <= N.of_nat fuel) as Hlog.
    { assert (n / 10 <= n / 2) as Hd by (apply N.div_le_compat_l; lia). apply N.log2_le_mono in Hd.
      rewrite <- N.div2_div in Hd. rewrite N.div2_spec, N.log2_shiftr in Hd. lia. }
    rewrite IH, Hone by (lia || by apply N.mod_lt). f_equal. pose proof (N.Div0.div_mod n 10). lia.
Qed.

Lemma decimal_inj m n : decimal m = decimal n -> m = n.
Proof. intros H. apply (f_equal (digits_value 0)) in H. unfold decimal in H. by rewrite !decimal_value in H by lia. Qed.

Lemma text_bytes_app a b : PairingProtocol.text_bytes (a +:+ b) = (PairingProtocol.text_bytes a ++ PairingProtocol.text_bytes b)%list.
Proof. unfold PairingProtocol.text_bytes. induction a as [|x a IH]; [done|]. cbn. by rewrite IH. Qed.

Lemma text_bytes_digits s : sall is_ascii_digit s = true -> 0 ∉ PairingProtocol.text_bytes s.
Proof.
  unfold PairingProtocol.text_bytes. induction s as [|x s IH]; [by intros _ ?%not_elem_of_nil|]. cbn [sall]. intros [Hx Hs]%andb_true_iff.
  cbn. rewrite not_elem_of_cons. split; [|by apply IH]. unfold is_ascii_digit in Hx. apply andb_true_iff in Hx as [?%N.leb_le _]. lia.
Qed.

Lemma text_bytes_inj s t : PairingProtocol.text_bytes s = PairingProtocol.text_bytes t -> s = t.
Proof.
  unfold PairingProtocol.text_bytes. revert t. induction s as [|x s IH]; intros [|y t]; [done|done|done|]. cbn. intros [= Hx Hs].
  apply (f_equal ascii_of_N) in Hx. unfold nb in Hx. rewrite !ascii_N_embedding in Hx. by rewrite Hx, (IH t Hs).
Qed.

(** What follows the last zero. *)
Lemma after_last_zero (a b d e : list N) : 0 ∉ d -> 0 ∉ e -> (a ++ 0 :: d = b ++ 0 :: e)%list -> d = e.
Proof.
  assert (forall (k d e : list N), 0 ∉ e -> (0 :: e = k ++ 0 :: d)%list -> d = e) as H.
  { intros [|x k] d0 e0 He; [by intros [= ->]|]. intros [= <- ->]. exfalso. apply He. rewrite elem_of_app, elem_of_cons. auto. }
  intros Hd He [(k & -> & Hk)|(k & -> & Hk)]%app_eq_inv; [by eapply H|symmetry; by eapply H].
Qed.

(** The message whose digest names an item: its type, its turn, the id it has, and its place in the thread. *)
Definition source_message (item : Value) (item_type turn_id : string) (index : N) : list N :=
  let value := turn_id +:+ String "000" "" +:+ default "" (get "id" item ≫= as_str) +:+ String "000" "" +:+ decimal index in
  (PairingProtocol.text_bytes CODEX_HISTORY_DOMAIN ++ PairingProtocol.text_bytes item_type ++ [0] ++ be_bytes 8 (slen value)
   ++ PairingProtocol.text_bytes value)%list.

Definition source_named (sha256 : list N -> list N) (message : list N) : string := "codex.history." +:+ hex (take 16 (sha256 message)).

Lemma item_source_named sha256 item item_type turn_id index :
  item_source sha256 item item_type turn_id index = source_named sha256 (source_message item item_type turn_id index).
Proof. done. Qed.

(** An item's place tells its message from every other. *)
Lemma source_message_place item item' item_type item_type' turn_id turn_id' i j :
  source_message item item_type turn_id i = source_message item' item_type' turn_id' j -> i = j.
Proof.
  unfold source_message. cbv zeta. intros H. apply decimal_inj, text_bytes_inj.
  rewrite !text_bytes_app in H. rewrite !app_assoc in H. change (PairingProtocol.text_bytes (String "000" "")) with [0] in H.
  rewrite <- !(app_assoc _ [0] (PairingProtocol.text_bytes (decimal _))) in H.
  eapply after_last_zero; [apply text_bytes_digits, decimal_digits|apply text_bytes_digits, decimal_digits|exact H].
Qed.

(** ** Rows *)

Section rows.
Context (sha256 : list N -> list N) (sha256_law : sha256_bytes sha256) (to_string : Value -> option string) (thread_item_types : option (list string)).

(** An item of a thread: its turn, when that began, the item and its type. *)
Definition Item : Type := string * N * Value * string.

Definition row_of (index : nat) (item : Item) : NormalizedTimelineEntry :=
  let '(turn_id, timestamp, item, item_type) := item in
  let '((kind, body, truncation), _) := project_item to_string thread_item_types item item_type in
  mkNormalizedTimelineEntry (item_source sha256 item item_type turn_id (N.of_nat index)) 1 timestamp "complete" kind body truncation.

(** What a row says of its item: a message its text, cut only at the bound; a call its type; anything else that
    something is there. *)
Definition shows (item : Item) (row : NormalizedTimelineEntry) : Prop :=
  let '(_, timestamp, item, item_type) := item in
  ne_timestamp row = timestamp
  /\ if item_type =s? "userMessage" then
       ne_kind row = "user_message" /\ ne_body row = Protocol.Text (truncate_utf8 (content_text item) MAX_RETAINED_TEXT_BYTES).1
     else if item_type =s? "agentMessage" then
       ne_kind row = "assistant_message"
       /\ ne_body row = Protocol.Text (truncate_utf8 (default "" (get "text" item ≫= as_str)) MAX_RETAINED_TEXT_BYTES).1
     else if one_of item_type ["commandExecution"; "fileChange"; "mcpToolCall"; "dynamicToolCall"; "collabAgentToolCall"; "webSearch"] then
       ne_kind row = "tool" /\ exists preview, ne_body row = Tool (mkToolTimelineBody item_type "completed" preview None)
     else (item_type = "functionCallOutput" /\ exists preview, ne_body row = Tool (mkToolTimelineBody item_type "completed" None preview))
          \/ ne_body row = BodyUnsupported "codex_history_item".

Lemma bounded_text_fst text bound : (bounded_text text bound).1 = (truncate_utf8 text bound).1.
Proof. unfold bounded_text. by destruct (truncate_utf8 text bound). Qed.

Lemma function_output_fits item complete tool truncation noted :
  function_output to_string item complete = (Some (tool, truncation), noted) ->
  TimelineBody_validate_within (Tool tool) MAX_RETAINED_TEXT_BYTES = Ok tt /\ Truncation_validate truncation = Ok tt
  /\ refuse_adapter_body_available truncation = Ok tt
  /\ tool = mkToolTimelineBody "functionCallOutput" (if complete then "completed" else "running") None (tb_result_preview tool).
Proof.
  assert (forall preview bounded original noted, output_preview to_string item = (Some (preview, bounded, original), noted) ->
            is_some_and (fun text => MAX_TOOL_RESULT_PREVIEW_BYTES <? slen text) preview = false) as Hfits.
  { intros preview bounded original noted'. unfold output_preview.
    pose proof (fun v => bounded_preview_fits to_string (Some v) MAX_TOOL_RESULT_PREVIEW_BYTES) as Hb.
    destruct (get "output" item) as [[| | |text|blocks|]|]; try done.
    - specialize (Hb (Str text)). destruct (bounded_preview _ _ _) as [p b]. by intros [= <- <- <- <-].
    - destruct (add_blocks _ _ _) as [o n]. destruct (op_found o); [|done]. cbn [negb].
      specialize (Hb (Array (op_selected o))). destruct (op_omitted o); [by intros [= <- <- <- <-]|].
      destruct (bounded_preview _ _ _) as [p b]. by intros [= <- <- <- <-]. }
  unfold function_output. destruct (output_preview to_string item) as [[[[preview bounded] original]|] n]; [|done]. specialize (Hfits _ _ _ _ eq_refl).
  cbn [fmap option_fmap option_map]. intros [= <- <- <-]. split_and!.
  - unfold TimelineBody_validate_within, ToolTimelineBody_validate. cbn [tb_name Protocol.tb_status tb_input_preview tb_result_preview].
    destruct complete; cbn [is_some_and orb] in *; by rewrite ?Hfits.
  - by destruct (complete && bounded).
  - by destruct (complete && bounded).
  - done.
Qed.

Lemma project_item_ok item item_type source timestamp :
  valid_opaque_id source = Ok tt -> timestamp <> 0 ->
  let '((kind, body, truncation), _) := project_item to_string thread_item_types item item_type in
  NormalizedTimelineEntry_validate (mkNormalizedTimelineEntry source 1 timestamp "complete" kind body truncation) = Ok tt
  /\ forall turn, shows (turn, timestamp, item, item_type) (mkNormalizedTimelineEntry source 1 timestamp "complete" kind body truncation).
Proof.
  intros Hs Ht. unfold project_item.
  destruct (if item_type =s? "functionCallOutput" then _ else _) as [[[tool truncation]|] noted] eqn:Hp.
  - destruct (String.eqb_spec item_type "functionCallOutput") as [->|]; [|done]. apply function_output_fits in Hp as (Hb & Htr & Ha & Htool).
    split; [by apply accepted_entry_valid, entry_accepted|]. intros turn. split; [done|]. cbn [String.eqb Ascii.eqb Bool.eqb one_of existsb orb ne_body]. left.
    split; [done|]. eexists. f_equal. exact Htool.
  - clear Hp. destruct (String.eqb_spec item_type "userMessage") as [->|Hu].
    { destruct (bounded_text (content_text item) _) as [text truncation] eqn:Hb. split; [by eapply accepted_entry_valid, text_entry_accepted|].
      intros turn. split; [done|]. cbn [String.eqb Ascii.eqb Bool.eqb ne_kind ne_body]. split; [done|]. by rewrite <- bounded_text_fst, Hb. }
    destruct (String.eqb_spec item_type "agentMessage") as [->|Ha].
    { destruct (bounded_text _ _) as [text truncation] eqn:Hb. split; [by eapply accepted_entry_valid, text_entry_accepted|].
      intros turn. split; [done|]. cbn [String.eqb Ascii.eqb Bool.eqb ne_kind ne_body]. split; [done|]. by rewrite <- bounded_text_fst, Hb. }
    apply String.eqb_neq in Hu, Ha. destruct (one_of item_type _) eqn:Htools.
    + destruct (bounded_preview _ _ _) as [preview clipped] eqn:Hpre. destruct (preview_truncation_ok to_string clipped [Some item]). split.
      * apply accepted_entry_valid, entry_accepted; try done. cbn [we_body].
        assert (valid_token item_type = Ok tt) as Hname by (apply one_of_elem in Htools; repeat (apply elem_of_cons in Htools as [->|Htools]; [by vm_compute|]); by apply not_elem_of_nil in Htools).
        pose proof (bounded_preview_fits to_string (Some item) MAX_TOOL_INPUT_PREVIEW_BYTES) as Hfit. rewrite Hpre in Hfit. cbn [fst] in Hfit.
        unfold TimelineBody_validate_within, ToolTimelineBody_validate. cbn [tb_name Protocol.tb_status tb_input_preview tb_result_preview]. by rewrite Hname, Hfit.
      * intros turn. split; [done|]. rewrite Hu, Ha, Htools. split; [done|]. by eexists.
    + split; [by apply accepted_entry_valid, entry_accepted|]. intros turn. split; [done|]. rewrite Hu, Ha, Htools. by right.
Qed.

Lemma item_source_ok item item_type turn_id index : valid_opaque_id (item_source sha256 item item_type turn_id index) = Ok tt.
Proof. unfold item_source. apply (vendor_digest_ok sha256 sha256_law "codex" _ "history"); [cbn; lia|done|cbn; lia|done]. Qed.

Lemma row_of_ok index turn_id timestamp item item_type : timestamp <> 0 ->
  NormalizedTimelineEntry_validate (row_of index (turn_id, timestamp, item, item_type)) = Ok tt
  /\ shows (turn_id, timestamp, item, item_type) (row_of index (turn_id, timestamp, item, item_type)).
Proof.
  intros Ht. pose proof (project_item_ok item item_type _ timestamp (item_source_ok item item_type turn_id (N.of_nat index)) Ht) as H.
  unfold row_of. destruct (project_item _ _ item item_type) as [[[kind body] truncation] noted]. destruct H. by split.
Qed.
(** ** Threads *)

(** The items of a turn that say their type. *)
Definition items_of_turn (turn : Value) : list Item :=
  omap (fun item => item_type ← get "type" item ≫= as_str; Some (turn_id_of turn, turn_timestamp turn, item, item_type)) (turn_items turn).

(** The turns the live tail does not own. *)
Definition past_turns (live_run_id : string) (turns : list Value) : list Value :=
  List.filter (fun turn => negb (codex_run_id sha256 (turn_id_of turn) =s? live_run_id)) turns.

Definition thread_items (live_run_id : string) (turns : list Value) : list Item := mjoin (items_of_turn <$> past_turns live_run_id turns).

Definition rows_from (index : nat) (items : list Item) : list NormalizedTimelineEntry := imap (fun i item => row_of (index + i) item) items.

Lemma rows_from_cons index item items : rows_from index (item :: items) = row_of index item :: rows_from (S index) items.
Proof.
  unfold rows_from. cbn [imap]. rewrite Nat.add_0_r. f_equal. apply imap_ext. intros i x _. cbn. by rewrite Nat.add_succ_r.
Qed.

Lemma rows_from_app index items items' : rows_from index (items ++ items') = (rows_from index items ++ rows_from (index + length items) items')%list.
Proof.
  revert index. induction items as [|item items IH]; intros index; cbn [app length]; [by rewrite Nat.add_0_r|].
  rewrite !rows_from_cons, IH. cbn [app]. by rewrite Nat.add_succ_r.
Qed.

Lemma map_items_rows items turn_id timestamp entries : timestamp <> 0 ->
  (map_items sha256 to_string thread_item_types items turn_id timestamp entries).1
  = (entries ++ rows_from (length entries)
                  (omap (fun item => item_type ← get "type" item ≫= as_str; Some (turn_id, timestamp, item, item_type)) items))%list.
Proof.
  intros Ht. revert entries. induction items as [|item items IH]; intros entries; cbn [map_items]; [by rewrite app_nil_r|].
  unfold map_item. change (omap ?f (item :: items)) with (match f item with Some y => y :: omap f items | None => omap f items end). cbv beta.
  destruct (get "type" item ≫= as_str) as [item_type|].
  - destruct (row_of_ok (length entries) turn_id timestamp item item_type Ht) as [Hv _].
    cbn [mbind option_bind]. rewrite rows_from_cons. unfold row_of in Hv |- *.
    destruct (project_item _ _ item item_type) as [[[kind body] truncation] noted]. rewrite Hv. cbn [is_ok].
    pose proof (IH (entries ++ [mkNormalizedTimelineEntry (item_source sha256 item item_type turn_id (N.of_nat (length entries))) 1 timestamp "complete"
                                  kind body truncation])%list) as IHe.
    destruct (map_items _ _ _ items _ _ _) as [mapped others]. cbn [fst] in *. rewrite IHe, length_app, Nat.add_1_r, <- app_assoc. done.
  - cbn [mbind option_bind]. specialize (IH entries). destruct (map_items _ _ _ items _ _ _) as [mapped others]. exact IH.
Qed.

(** The prompt of the last turn the live tail owns. *)
Definition live_prompt (live_run_id : string) (turns : list Value) : option string :=
  (fun turn => prompt_source_id sha256 (turn_id_of turn)) <$> last (List.filter (fun turn => codex_run_id sha256 (turn_id_of turn) =s? live_run_id) turns).

Lemma map_turns_rows turns live_run_id entries live_turn_prompt :
  (map_turns sha256 to_string thread_item_types turns live_run_id entries live_turn_prompt).1
  = ((entries ++ rows_from (length entries) (thread_items live_run_id turns))%list,
     match live_prompt live_run_id turns with Some prompt => Some prompt | None => live_turn_prompt end).
Proof.
  revert entries live_turn_prompt. induction turns as [|turn turns IH]; intros entries live_turn_prompt; cbn [map_turns]; [by rewrite app_nil_r|].
  unfold thread_items, past_turns, live_prompt. cbn [List.filter]. fold (past_turns live_run_id turns).
  destruct (codex_run_id sha256 (turn_id_of turn) =s? live_run_id) eqn:Hlive; cbn [negb].
  - rewrite IH. f_equal. unfold live_prompt. rewrite last_cons. by destruct (last (List.filter _ turns)).
  - cbn [fmap list_fmap mjoin list_join]. fold (thread_items live_run_id turns).
    assert (turn_timestamp turn <> 0) as Ht by (unfold turn_timestamp; lia).
    pose proof (map_items_rows (turn_items turn) (turn_id_of turn) (turn_timestamp turn) entries Ht) as Hi.
    destruct (map_items _ _ _ _ _ _ _) as [mapped noted]. cbn [fst] in Hi. subst mapped. fold (items_of_turn turn).
    specialize (IH (entries ++ rows_from (length entries) (items_of_turn turn))%list live_turn_prompt).
    destruct (map_turns _ _ _ turns _ _ _) as [[mapped prompt] others]. cbn [fst] in *. rewrite IH. f_equal.
    rewrite rows_from_app, length_app, <- app_assoc. do 3 f_equal. unfold rows_from. by rewrite length_imap.
Qed.

Lemma rows_of_items index items : Forall (fun '(_, timestamp, _, _) => timestamp <> 0) items ->
  Forall2 (fun item row => NormalizedTimelineEntry_validate row = Ok tt /\ shows item row) items (rows_from index items).
Proof.
  revert index. induction items as [|[[[turn_id timestamp] item] item_type] items IH]; intros index Hts; [constructor|].
  apply Forall_cons in Hts as [Ht Hts]. rewrite rows_from_cons. constructor; [by apply row_of_ok|by apply IH].
Qed.

Lemma thread_items_dated live_run_id turns : Forall (fun '(_, timestamp, _, _) => timestamp <> 0) (thread_items live_run_id turns).
Proof.
  apply Forall_forall. intros [[[turn_id timestamp] item] item_type] Hin. unfold thread_items in Hin. apply list_elem_of_join in Hin as (items & Hin & Hitems).
  apply list_elem_of_fmap in Hitems as (turn & -> & _). unfold items_of_turn in Hin. apply list_elem_of_omap in Hin as (x & _ & Hx).
  destruct (get "type" x ≫= as_str); [|done]. cbn in Hx. injection Hx as <- <- <- <-. unfold turn_timestamp. lia.
Qed.

(** The messages that name the items of a thread, one for each. *)
Definition messages (items : list Item) : list (list N) :=
  imap (fun i (item : Item) => let '(turn_id, _, item, item_type) := item in source_message item item_type turn_id (N.of_nat i)) items.

Lemma messages_apart items : NoDup (messages items).
Proof.
  apply NoDup_alt. intros i j message. unfold messages. rewrite !list_lookup_imap.
  destruct (items !! i) as [[[[t ts] item] ty]|], (items !! j) as [[[[t' ts'] item'] ty']|]; try done.
  cbn [fmap option_fmap option_map]. intros Hi Hj. rewrite <- Hj in Hi. apply (inj Some) in Hi.
  apply Nat2N.inj. eapply source_message_place. exact Hi.
Qed.

Lemma rows_named items : ne_source_id <$> rows_from 0 items = source_named sha256 <$> messages items.
Proof.
  apply list_eq. intros i. unfold rows_from, messages. rewrite !list_lookup_fmap, !list_lookup_imap.
  destruct (items !! i) as [[[[t ts] item] ty]|]; [|done].
  cbn [fmap option_fmap option_map]. unfold row_of. by destruct (project_item _ _ item ty) as [[[k b] tr] n].
Qed.

(** C27: a thread read has no silent gap: every item that says its type, of every turn but the one the live tail
    owns, is one row the timeline accepts and that shows it, in order; of too many the newest are kept, and only
    a read that kept them all says it is complete. Each row's source is the digest of a message of its own, its
    type, turn, id and place, and no two rows have the same message, even where type, turn and id agree; the turn
    left out is named by the source its prompt has in the live tail. *)
Theorem thread_read_whole result live_run_id :
  let turns := thread ← get "thread" result; turns ← get "turns" thread; as_array turns in
  let items := thread_items live_run_id (default [] turns) in
  exists history noted rows,
    map_thread_history sha256 to_string thread_item_types result live_run_id = (history, noted)
    /\ Forall2 (fun item row => NormalizedTimelineEntry_validate row = Ok tt /\ shows item row) items rows
    /\ tr_entries history = drop (length rows - MAX_HISTORY_ENTRIES) rows
    /\ tr_complete history = is_some turns && (length items <=? MAX_HISTORY_ENTRIES)%nat
    /\ tr_live_turn_prompt history = live_prompt live_run_id (default [] turns)
    /\ ne_source_id <$> rows = source_named sha256 <$> messages items /\ NoDup (messages items).
Proof.
  cbv zeta. unfold map_thread_history. set (turns := (thread ← get "thread" result; _)). clearbody turns.
  pose proof (map_turns_rows (default [] turns) live_run_id [] None) as Hmap. destruct (map_turns _ _ _ _ _ _ _) as [[entries prompt] noted].
  cbn [fst app length] in Hmap. set (items := thread_items live_run_id (default [] turns)) in *. injection Hmap as -> ->.
  assert (length (rows_from 0 items) = length items) as Hlen by (unfold rows_from; by rewrite length_imap).
  eexists _, noted, (rows_from 0 items). split; [reflexivity|]. cbn [tr_entries tr_complete tr_live_turn_prompt]. rewrite Hlen. split_and!.
  - by apply rows_of_items, thread_items_dated.
  - destruct (Nat.ltb_spec MAX_HISTORY_ENTRIES (length items)); [done|]. by replace (length items - MAX_HISTORY_ENTRIES)%nat with 0%nat by lia.
  - f_equal. destruct (Nat.ltb_spec MAX_HISTORY_ENTRIES (length items)), (Nat.leb_spec (length items) MAX_HISTORY_ENTRIES); (done || lia).
  - by destruct (live_prompt live_run_id (default [] turns)).
  - apply rows_named.
  - apply messages_apart.
Qed.
End rows.
