(* ===== verification/ClaudeTranscript.v ===== *)
(** What is read of the tail of Claude's transcripts, and of its record of running sessions
    ([claude_transcript.rs]); and that the tail answers as the whole file would. The file system, the environment
    and [serde_json] are parameters. *)
From S2P Require Import Prelude Text HostProtocol Protocol Metadata Reconcile Timeline Registration UploadNames Downloads Output HookCommon AgentAdapter.

Local Open Scope string_scope.
Local Open Scope N_scope.

Definition MAX_TRANSCRIPT_TAIL_BYTES : N := 1024 * 1024.
Definition MAX_SESSION_FILES : nat := 256.
Definition MAX_SESSION_FILE_BYTES : N := 16 * 1024.

(** What is noted in the drift ledger: surface, kind and name. *)
Definition Tallied : Type := string * string * string.

(** ** The tail *)

(** [read_tail] of a file, by what it holds. *)
Definition read_tail (contents : string) : string :=
  from_utf8_lossy (sdrop (N.to_nat (slen contents - MAX_TRANSCRIPT_TAIL_BYTES)) contents).

Section tail.
(** [serde_json::from_str]. *)
Context (from_str : string -> option Value).

(** The newest line a reader answers for, and what it notes of the lines it passes. *)
Fixpoint newest {A} (read : Value -> option A * list Tallied) (lines_rev : list string) : option A * list Tallied :=
  match lines_rev with
  | [] => (None, [])
  | line :: older =>
      match from_str line with
      | None => newest read older
      | Some entry =>
          let '(found, noted) := read entry in
          match found with
          | Some a => (Some a, noted)
          | None => let '(found, others) := newest read older in (found, (noted ++ others)%list)
          end
      end
  end.

Definition newest_of {A} (read : Value -> option A * list Tallied) (text : string) : option A * list Tallied := newest read (reverse (lines text)).
End tail.

(** ** What the lines say *)

Definition human_prompt (entry : Value) : option string :=
  if negb (opt_is (get "type" entry ≫= as_str) "user") then None
  else
    match get "promptSource" entry ≫= as_str with
    | None => None
    | Some prompt_source =>
        if prompt_source =s? "system" then None
        else
          message ← get "message" entry;
          content ← get "content" message;
          match content with
          | Str text => Some text
          | Array blocks =>
              match omap (fun block => get "text" block ≫= as_str) (List.filter (fun block => opt_is (get "type" block ≫= as_str) "text") blocks) with
              | [] => None
              | text => Some (String.concat (String "010" "") text)
              end
          | _ => None
          end
    end.

Definition first_line_bounded (text : string) (limit : N) : option string :=
  line ← List.find (fun line => negb (trim line =s? "")) (lines text);
  let bounded := truncate_on_char_boundary (trim line) limit in
  if bounded =s? "" then None else Some bounded.

Definition permission_mode_of (entry : Value) : option string * list Tallied :=
  match get "permissionMode" entry ≫= as_str with
  | None => (None, [])
  | Some mode => if valid_permission_mode mode then (Some mode, []) else (None, [("transcript", "unknown_enum", mode)])
  end.

Definition model_of (entry : Value) : option string * list Tallied :=
  match (message ← get "message" entry; model ← get "model" message; as_str model) with
  | None => (None, [])
  | Some model => if is_ok (valid_model_id model) then (Some model, []) else (None, [("transcript", "invalid", "model_id")])
  end.

(** ** Where transcripts are *)

Section files.
(** [CLAUDE_CONFIG_DIR] and [HOME]; what [read_dir] yields of a directory; files and what they hold. *)
Context (config_dir home : option string) (read_dir : string -> option (list string)) (is_file : string -> bool)
  (size_of : string -> option N) (read_file : string -> option string) (from_str : string -> option Value).

(** [from_str] is [serde_json] on text and on bytes. *)

Definition claude_config_dir : option string :=
  match config_dir with
  | Some value => if value =s? "" then (home ← home; Some (join home ".claude")) else if is_absolute value then Some value else None
  | None => home ← home; Some (join home ".claude")
  end.

Definition claude_projects_dir : option string := config ← claude_config_dir; Some (join config "projects").

(** [read_dir] yields names. *)
Definition transcript_path (projects vendor_session_id : string) : option string :=
  if negb (is_ok (valid_opaque_id vendor_session_id)) then None
  else
    names ← read_dir projects;
    List.find is_file ((fun name => join (join projects name) (vendor_session_id +:+ ".jsonl")) <$> names).

Definition session_transcript_path (vendor_session_id : string) : option string :=
  projects ← claude_projects_dir; transcript_path projects vendor_session_id.

Definition tail_of (vendor_session_id : string) : option string :=
  path ← session_transcript_path vendor_session_id; contents ← read_file path; Some (read_tail contents).

Definition recent_prompt (vendor_session_id : string) (limit : N) : option string :=
  text ← tail_of vendor_session_id;
  prompt ← (newest_of from_str (fun entry => (human_prompt entry, [])) text).1;
  first_line_bounded prompt limit.

Definition recent_permission_mode (vendor_session_id : string) : option string * list Tallied :=
  match tail_of vendor_session_id with Some text => newest_of from_str permission_mode_of text | None => (None, []) end.

Definition recent_model (vendor_session_id : string) : option string * list Tallied :=
  match tail_of vendor_session_id with Some text => newest_of from_str model_of text | None => (None, []) end.

(** ** Running sessions *)

(** [Path::extension] and [Path::file_stem] of a name. *)
Definition extension_of (name : string) : option string :=
  match rsplit_once "." name with Some (before, extension) => if before =s? "" then None else Some extension | None => None end.
Definition stem_of (name : string) : string :=
  match rsplit_once "." name with Some (before, _) => if before =s? "" then name else before | None => name end.

Definition parse_session_record (bytes : string) (named_pid : N) : option AgentSighting :=
  value ← from_str bytes;
  record ← as_object value;
  pid ← field "pid" record ≫= as_u64;
  session_id ← field "sessionId" record ≫= as_str;
  cwd ← field "cwd" record ≫= as_str;
  if (pid <=? u32_max) && negb (pid =? 0) && (pid =? named_pid) && is_ok (valid_opaque_id session_id) && is_absolute cwd
  then Some (mkAgentSighting pid session_id cwd) else None.

(** One file of the directory: what it says, and what is noted of it. *)
Definition session_file (directory name : string) : option AgentSighting * list Tallied :=
  match (named_pid ← from_utf8 (stem_of name) ≫= parse_u32;
         size ← size_of (join directory name);
         if MAX_SESSION_FILE_BYTES <? size then None else bytes ← read_file (join directory name); Some (parse_session_record bytes named_pid)) with
  | Some (Some sighting) => (Some sighting, [])
  | Some None => (None, [("session_record", "invalid", "record")])
  | None => (None, [])
  end.

Definition live_session_sightings : list AgentSighting * list Tallied :=
  match (config ← claude_config_dir; names ← read_dir (join config "sessions"); Some (join config "sessions", names)) with
  | None => ([], [])
  | Some (directory, names) =>
      let read := session_file directory <$> take MAX_SESSION_FILES (List.filter (fun name => opt_is (extension_of name) "json") names) in
      (omap fst read, mjoin (snd <$> read))
  end.
End files.


(** ** Lossy text, cut at a line *)

Definition line_feed : ascii := ascii_of_N 10.

Lemma lossy_at_line a b : from_utf8_lossy (a +:+ String line_feed b) = from_utf8_lossy a +:+ String line_feed (from_utf8_lossy b).
Proof.
  remember (String.length a) as n eqn:Hn. revert a Hn. induction (lt_wf n) as [n _ IH]. intros a ->.
  assert (forall a', (String.length a' < String.length a)%nat ->
    from_utf8_lossy (a' +:+ String line_feed b) = from_utf8_lossy a' +:+ String line_feed (from_utf8_lossy b)) as H
    by (intros a' Hl; by apply (IH (String.length a') Hl)).
  clear IH. destruct a as [|x a]; [done|]. cbn [String.append from_utf8_lossy].
  destruct (nb x <? 128); [by rewrite H by (cbn; lia)|].
  destruct (is_within 194 223 x).
  { destruct a as [|y a]; cbn [String.append]; [done|]. cbn [String.length] in H.
    destruct (is_cont y); cbn [String.append]; [by rewrite H by lia|].
    change (String y (a +:+ String line_feed b)) with (String y a +:+ String line_feed b). rewrite H by (cbn; lia). done. }
  destruct (is_within 224 239 x).
  { destruct a as [|y a]; cbn [String.append]; [by destruct (nb x =? 224), (nb x =? 237)|]. cbn [String.length] in H.
    destruct (is_within _ _ y).
    - destruct a as [|z a]; cbn [String.append]; [done|]. cbn [String.length] in H. destruct (is_cont z); cbn [String.append]; [by rewrite H by lia|].
      change (String z (a +:+ String line_feed b)) with (String z a +:+ String line_feed b). rewrite H by (cbn; lia). done.
    - change (String y (a +:+ String line_feed b)) with (String y a +:+ String line_feed b). rewrite H by (cbn; lia). done. }
  destruct (is_within 240 244 x).
  { destruct a as [|y a]; cbn [String.append]; [by destruct (nb x =? 240), (nb x =? 244)|]. cbn [String.length] in H.
    destruct (is_within _ _ y).
    - destruct a as [|z a]; cbn [String.append]; [done|]. cbn [String.length] in H. destruct (is_cont z).
      + destruct a as [|w a]; cbn [String.append]; [done|]. cbn [String.length] in H. destruct (is_cont w); cbn [String.append]; [by rewrite H by lia|].
        change (String w (a +:+ String line_feed b)) with (String w a +:+ String line_feed b). rewrite H by (cbn; lia). done.
      + change (String z (a +:+ String line_feed b)) with (String z a +:+ String line_feed b). rewrite H by (cbn; lia). done.
    - change (String y (a +:+ String line_feed b)) with (String y a +:+ String line_feed b). rewrite H by (cbn; lia). done. }
  rewrite H by (cbn; lia). done.
Qed.

Lemma lines_at_line a : exists before, forall b', lines (a +:+ String line_feed b') = (before ++ lines b')%list.
Proof.
  exists (strip_cr <$> split_on line_feed a). intros b'. unfold lines. change (ascii_of_N 10) with line_feed. rewrite split_on_app.
  destruct (split_on line_feed b') as [|p ps] eqn:Hs; [by destruct b'; cbn in Hs; repeat case_match|].
  rewrite removelast_app by done. rewrite fmap_app, <- app_assoc. do 2 f_equal. by rewrite last_app_cons.
Qed.

(** ** The newest answer *)

Section newest.
Context (from_str : string -> option Value) {A : Type} (read : Value -> option A * list Tallied).

Lemma newest_app newer older : is_some (newest from_str read newer).1 = true -> newest from_str read (newer ++ older) = newest from_str read newer.
Proof.
  induction newer as [|line newer IH]; [done|]. cbn [newest app]. destruct (from_str line) as [entry|]; [|done].
  destruct (read entry) as [[a|] noted]; [done|]. destruct (newest from_str read newer) as [found others]. cbn [fst] in *. intros Hf. by rewrite (IH Hf).
Qed.

Lemma newest_at_line a b : is_some (newest_of from_str read (from_utf8_lossy b)).1 = true ->
  newest_of from_str read (from_utf8_lossy (a +:+ String line_feed b)) = newest_of from_str read (from_utf8_lossy b).
Proof.
  intros Hsome. unfold newest_of in *. rewrite lossy_at_line. destruct (lines_at_line (from_utf8_lossy a)) as [before ->].
  rewrite reverse_app. by apply newest_app.
Qed.

Lemma tail_at_line a b : slen b < MAX_TRANSCRIPT_TAIL_BYTES -> exists a', read_tail (a +:+ String line_feed b) = from_utf8_lossy (a' +:+ String line_feed b).
Proof.
  intros Hb. unfold read_tail, slen in *. rewrite str_length_app. cbn [String.length].
  set (k := N.to_nat (N.of_nat (String.length a + S (String.length b)) - MAX_TRANSCRIPT_TAIL_BYTES)).
  exists (sdrop k a). f_equal. assert (k <= String.length a)%nat as Hk by (subst k; lia). clearbody k. clear Hb. revert a Hk.
  induction k as [|k IH]; intros [|x a] Hk; cbn in *; [done|done|lia|]. apply IH. lia.
Qed.

Lemma tail_answers a b : slen b < MAX_TRANSCRIPT_TAIL_BYTES -> is_some (newest_of from_str read (from_utf8_lossy b)).1 = true ->
  newest_of from_str read (read_tail (a +:+ String line_feed b)) = newest_of from_str read (from_utf8_lossy (a +:+ String line_feed b)).
Proof. intros Hb Hsome. destruct (tail_at_line a b Hb) as [a' ->]. by rewrite !newest_at_line. Qed.
End newest.

(** C28: reading only the end of a transcript answers as reading all of it would: where the newest megabyte has,
    after a line end, a prompt, a known mode or a model, what is read back is what the whole file says last. *)
Theorem tail_speaks_for_file config_dir home read_dir is_file read_file from_str vendor_session_id path before after limit :
  session_transcript_path config_dir home read_dir is_file vendor_session_id = Some path ->
  read_file path = Some (before +:+ String line_feed after) -> slen after < MAX_TRANSCRIPT_TAIL_BYTES ->
  let whole := from_utf8_lossy (before +:+ String line_feed after) in
  let prompt_of entry := (human_prompt entry, []) in
  (is_some (newest_of from_str prompt_of (from_utf8_lossy after)).1 = true ->
   recent_prompt config_dir home read_dir is_file read_file from_str vendor_session_id limit
   = (newest_of from_str prompt_of whole).1 ≫= fun prompt => first_line_bounded prompt limit)
  /\ (is_some (newest_of from_str permission_mode_of (from_utf8_lossy after)).1 = true ->
      recent_permission_mode config_dir home read_dir is_file read_file from_str vendor_session_id = newest_of from_str permission_mode_of whole)
  /\ (is_some (newest_of from_str model_of (from_utf8_lossy after)).1 = true ->
      recent_model config_dir home read_dir is_file read_file from_str vendor_session_id = newest_of from_str model_of whole).
Proof.
  intros Hpath Hfile Hlen. cbv zeta.
  assert (tail_of config_dir home read_dir is_file read_file vendor_session_id = Some (read_tail (before +:+ String line_feed after))) as Htail
    by (unfold tail_of; rewrite Hpath; cbn [mbind option_bind]; by rewrite Hfile).
  unfold recent_prompt, recent_permission_mode, recent_model. rewrite Htail. cbn [mbind option_bind].
  split_and!; intros Hsome; by rewrite tail_answers.
Qed.

(** A transcript is looked for in the projects' directories and nowhere else. *)
Lemma transcript_path_within read_dir is_file projects vendor_session_id path : transcript_path read_dir is_file projects vendor_session_id = Some path ->
  is_file path = true /\ no_char "/" vendor_session_id = true
  /\ exists names name, read_dir projects = Some names /\ name ∈ names /\ path = join (join projects name) (vendor_session_id +:+ ".jsonl").
Proof.
  unfold transcript_path. destruct (valid_opaque_id vendor_session_id) as [[]|] eqn:Hid; [|done]. cbn [is_ok negb].
  destruct (read_dir projects) as [names|]; [|done]. cbn [mbind option_bind]. intros Hfind.
  apply List.find_some in Hfind as [Hin Hfile]. apply list_elem_of_In, list_elem_of_fmap in Hin as (name & -> & Hname). split_and!; [done| |by eexists _, _].
  apply valid_opaque_id_ok in Hid as [_ Hall]. unfold no_char. eapply sall_impl; [|exact Hall]. intros b Hb. apply negb_true_iff, Ascii.eqb_neq. by intros ->.
Qed.
