(* ===== verification/Managed.v ===== *)
(** Managed sessions, [managed_session.rs]: the store of records and receipts behind one lock, and the
    lifecycle operations that call a launcher between their critical sections. *)
From S2P Require Import Prelude Text PrivateFile HostProtocol Downloads Protocol LiveActivity Queries WorkspaceScan.

Local Open Scope string_scope.
Local Open Scope N_scope.

Definition MANAGED_METADATA_VERSION : N := 1.
Definition MAX_MANAGED_RECORDS : N := 256.
Definition MAX_MANAGED_METADATA_FILE_BYTES : N := 4 * 1024 * 1024.
Definition MAX_LIFECYCLE_RECEIPTS : N := 32.
Definition PINNED_MANAGED_CLI_VERSION : string := "2.1.314".
Definition LIFECYCLE_BOUND : N := MAX_MANAGED_RECORDS * MAX_LIFECYCLE_RECEIPTS.

Record LaunchedWorker := mkLaunchedWorker {
  lw_vendor_session_id : option string; lw_adapter_family : string; lw_adapter_version : string }.

Record Handback := mkHandback { hb_vendor_session_id : string; hb_route_session : option string }.

Record LaunchSpec := mkLaunchSpec {
  sp_session_id : string; sp_workspace_path : string; sp_resume_vendor_session : option string;
  sp_permission_mode : option string; sp_model : option string }.

Record ManagedRecord := mkManagedRecord {
  mr_session_id : string;
  mr_vendor_session_id : option string;
  mr_workspace_path : string;
  mr_workspace_id : string;
  mr_workspace_label : string;
  mr_adapter_family : string;
  mr_adapter_version : string;
  mr_process_generation : N;
  mr_presence : string;
  mr_stored_reason : option string;
  mr_externally_owned : bool;
  mr_handback_session : option string;
  mr_revision : N;
  mr_updated_at : N
}.

#[export] Instance ManagedRecord_eq_dec : EqDecision ManagedRecord.
Proof. solve_decision. Defined.

Record ManagedMetadataFile := mkManagedMetadataFile {
  mf_v : N; mf_key : string; mf_records : list ManagedRecord; mf_lifecycle : list LifecycleOutcome }.

(** The store, with what is at its path. *)
Record ManagedMetadataStore := mkManagedMetadataStore {
  mg_key : list N; mg_records : list ManagedRecord; mg_lifecycle : list LifecycleOutcome; mg_disk : Disk }.

Definition set_records (records : list ManagedRecord) (s : ManagedMetadataStore) : ManagedMetadataStore :=
  mkManagedMetadataStore (mg_key s) records (mg_lifecycle s) (mg_disk s).

Definition is_live (r : ManagedRecord) : bool := mr_presence r =s? "live".
Definition is_stored (r : ManagedRecord) : bool := mr_presence r =s? "stored".
Definition has_id (session_id : string) (r : ManagedRecord) : bool := mr_session_id r =s? session_id.

(** ** Labels *)

(** The loop that pops characters until the label fits, on the label's characters last first. *)
Fixpoint pop_over (rev_chars : list string) : list string :=
  match rev_chars with
  | [] => []
  | c :: rest => if MAX_WORKSPACE_LABEL_BYTES <? slen (sconcat (reverse (c :: rest))) then pop_over rest else c :: rest
  end.

Definition workspace_label (path : string) : string :=
  let label := match file_name path with Some name => if name =s? "" then "workspace" else name | None => "workspace" end in
  let bounded := sconcat (reverse (pop_over (reverse (chars label)))) in
  if bounded =s? "" then "workspace" else bounded.

(** [Path]'s equality. *)
Definition path_eq (a b : string) : bool :=
  bool_decide (components a = components b) && Bool.eqb (starts_with a "/") (starts_with b "/").

Definition parent_label (path home : string) : option string :=
  let parent := parent_text path in
  if path_eq parent home then None
  else
    name ← file_name parent;
    if bool_decide (file_name home = Some name) || (name =s? "") then None else Some name.

(** Whether the name at [index] is another's too. *)
Definition collides (bases : list string) (index : nat) (base : string) : bool :=
  existsb (fun '(other, name) => negb (Nat.eqb other index) && (name =s? base)) (imap pair bases).

Definition display_label (bases : list string) (home : string) (index : nat) (path : string) : string :=
  let base := workspace_label path in
  match (if collides bases index base then parent_label path home else None) with
  | Some parent => if slen parent + 1 + slen base <=? MAX_WORKSPACE_LABEL_BYTES then parent +:+ "/" +:+ base else base
  | None => base
  end.

Definition workspace_labels (entries : list (string * string)) (home : string) : list WorkspaceDescriptor :=
  let bases := workspace_label ∘ snd <$> entries in
  imap (fun index '(workspace_id, path) => mkWorkspaceDescriptor workspace_id (display_label bases home index path)) entries.

(** ** What a stored record shows *)

Definition claude_resume_command (vendor_session_id : string) : option string :=
  let command := "claude --resume " +:+ vendor_session_id in if is_ok (valid_resume_command command) then Some command else None.

Section stored.
(** [claude_transcript::recent_prompt]. *)
Context (recent_prompt : string -> N -> option string).

Definition stored_descriptor (record : ManagedRecord) (live_terminals : list string) : AgentSessionDescriptor :=
  let handback := match mr_handback_session record with
                  | Some session => if bool_decide (session ∈ live_terminals) then Some session else None
                  | None => None
                  end in
  let resume_command := if bool_decide (mr_stored_reason record = Some "released")
                        then vendor ← mr_vendor_session_id record; claude_resume_command vendor else None in
  let terminal_continuity := if is_some handback || is_some resume_command then "resumable_session" else "unavailable" in
  mkAgentSessionDescriptor AGENT_PROTOCOL_VERSION (mr_session_id record) (mr_adapter_family record) (mr_adapter_version record)
    "managed" "stored" (mr_stored_reason record) (mr_process_generation record)
    (mkObservation "unavailable" "worker_not_running" None) Idle
    (mkAgentCapabilities "none" CommandCapabilities_none InteractionCapabilities_none "none" terminal_continuity)
    (mr_workspace_label record)
    (if is_none handback && is_none resume_command
     then mkTerminalFallback "unavailable" None
            (Some (if is_some (mr_handback_session record) then "terminal_closed" else "managed_headless")) None None
     else mkTerminalFallback "resumable_session" None (if is_none handback then Some "terminal_closed" else None) handback resume_command)
    (vendor ← mr_vendor_session_id record; recent_prompt vendor MAX_RECENT_PROMPT_BYTES)
    None None None (mr_revision record) (mr_updated_at record).

Definition stored_snapshot (session_id : string) (live_terminals : list string) (s : ManagedMetadataStore) : option AgentSessionSnapshot :=
  record ← List.find (fun r => has_id session_id r && is_stored r) (mg_records s);
  let d := stored_descriptor record live_terminals in
  Some (mkAgentSessionSnapshot AGENT_PROTOCOL_VERSION (de_session_id d) (de_revision d) (de_revision d) (de_process_generation d)
          (mkAgentAdapterMetadata (de_adapter_family d) (de_adapter_version d) "compatible") (de_topology d) (de_presence d)
          (de_stored_reason d) "shared" (de_observation d) (de_turn d) None None None None None (de_capabilities d) []
          (mkTimelineWindow [] false (if is_some (mr_vendor_session_id record) then Some "resume" else None) None None false)
          (de_terminal_fallback d) []).

Definition stored_descriptors (live_terminals : list string) (s : ManagedMetadataStore) : list AgentSessionDescriptor :=
  (fun r => stored_descriptor r live_terminals) <$> List.filter is_stored (mg_records s).
End stored.

(** ** What is read from the store *)

Definition record (session_id : string) (s : ManagedMetadataStore) : option ManagedRecord := List.find (has_id session_id) (mg_records s).

Definition record_mut (session_id : string) (f : ManagedRecord -> ManagedRecord) (s : ManagedMetadataStore) : ManagedMetadataStore :=
  set_records (update_first (has_id session_id) f (mg_records s)) s.

Definition handback_session_names (s : ManagedMetadataStore) : list string :=
  omap mr_handback_session (List.filter is_stored (mg_records s)).

Definition live_vendor_owners (s : ManagedMetadataStore) : list (string * string) :=
  omap (fun r => vendor ← mr_vendor_session_id r; Some (vendor, mr_session_id r)) (List.filter is_live (mg_records s)).

Definition live_count (s : ManagedMetadataStore) : N := len (List.filter is_live (mg_records s)).

Definition workspace_path (session_id : string) (s : ManagedMetadataStore) : option string := mr_workspace_path <$> record session_id s.

Definition vendor_session (session_id : string) (s : ManagedMetadataStore) : option string := r ← record session_id s; mr_vendor_session_id r.

(** The most recently updated first. *)
Definition newest_first {A} (updated_at : A -> N) (l : list A) : list A := sort_by_key (fun x => u64_max - updated_at x) l.

Definition summaries (s : ManagedMetadataStore) : list ManagedSessionSummary :=
  take (N.to_nat MAX_MANAGED_RECORDS)
    (newest_first mm_updated_at
       ((fun r => mkManagedSessionSummary (mr_session_id r) (mr_presence r) (mr_stored_reason r) (mr_workspace_label r)
                    (mr_process_generation r) (mr_updated_at r)) <$> mg_records s)).

(** ** Changes of one record *)

Definition bumped (now : N) (presence : string) (stored_reason : option string) (externally_owned : bool) (handback_session : option string)
    (process_generation : N) (r : ManagedRecord) : ManagedRecord :=
  mkManagedRecord (mr_session_id r) (mr_vendor_session_id r) (mr_workspace_path r) (mr_workspace_id r) (mr_workspace_label r)
    (mr_adapter_family r) (mr_adapter_version r) process_generation presence stored_reason externally_owned handback_session
    (sat_add64 (mr_revision r) 1) now.

Definition stopped (now : N) (reason : string) (r : ManagedRecord) : ManagedRecord :=
  bumped now "stored" (Some reason) (mr_externally_owned r) (mr_handback_session r) (mr_process_generation r) r.

Definition released (now : N) (route_session : option string) (r : ManagedRecord) : ManagedRecord :=
  bumped now "stored" (Some "released") true route_session (mr_process_generation r) r.

Definition resumed (now next_generation : N) (r : ManagedRecord) : ManagedRecord := bumped now "live" None false None next_generation r.

Definition marked_external (now : N) (r : ManagedRecord) : ManagedRecord :=
  bumped now "stored" (Some "externally_owned") true (mr_handback_session r) (mr_process_generation r) r.

Definition with_vendor (now : N) (vendor_session_id : string) (r : ManagedRecord) : ManagedRecord :=
  mkManagedRecord (mr_session_id r) (Some vendor_session_id) (mr_workspace_path r) (mr_workspace_id r) (mr_workspace_label r)
    (mr_adapter_family r) (mr_adapter_version r) (mr_process_generation r) (mr_presence r) (mr_stored_reason r) (mr_externally_owned r)
    (mr_handback_session r) (mr_revision r) now.

(** What a restart makes of a record whose worker died with the daemon. *)
Definition restarted (now : N) (r : ManagedRecord) : ManagedRecord :=
  if is_live r
  then mkManagedRecord (mr_session_id r) (mr_vendor_session_id r) (mr_workspace_path r) (mr_workspace_id r) (mr_workspace_label r)
         (mr_adapter_family r) (mr_adapter_version r) (mr_process_generation r) "stored" (Some "daemon_restart") (mr_externally_owned r)
         (mr_handback_session r) (mr_revision r) now
  else r.

(** ** The store *)

(** [records.remove(index)] of the first that matches. *)
Fixpoint remove_first (p : ManagedRecord -> bool) (l : list ManagedRecord) : list ManagedRecord :=
  match l with
  | [] => []
  | x :: l => if p x then l else x :: remove_first p l
  end.

Definition random_opaque_id (draw : N) : string := format_u128 draw.

Section store.
(** SHA-256, [serde_json], the user the daemon runs as. *)
Context (sha256 : list N -> list N) (to_vec : ManagedMetadataFile -> option bytes) (from_slice : bytes -> option ManagedMetadataFile)
  (effective_uid : N).

Definition file_of (s : ManagedMetadataStore) : ManagedMetadataFile :=
  mkManagedMetadataFile MANAGED_METADATA_VERSION (hex (mg_key s)) (mg_records s) (mg_lifecycle s).

Definition persist (failed_at : option write_step) (s : ManagedMetadataStore) : ManagedMetadataStore * result string unit :=
  match to_vec (file_of s) with
  | None => (s, Err "encode")
  | Some encoded =>
      let '(disk, r) := atomic_write_private effective_uid failed_at encoded (mg_disk s) in
      (mkManagedMetadataStore (mg_key s) (mg_records s) (mg_lifecycle s) disk, map_err (fun _ => "write") r)
  end.

Definition record_invalid (r : ManagedRecord) : bool :=
  is_err (valid_opaque_id (mr_session_id r)) || is_err (valid_opaque_id (mr_workspace_id r))
  || is_err (valid_token (mr_adapter_family r)) || is_err (valid_token (mr_adapter_version r))
  || is_some_and (fun value => (value =s? "") || (128 <? slen value)) (mr_vendor_session_id r)
  || (mr_workspace_path r =s? "") || (mr_workspace_label r =s? "") || (MAX_WORKSPACE_LABEL_BYTES <? slen (mr_workspace_label r))
  || (mr_process_generation r =? 0) || (mr_revision r =? 0)
  || negb (is_live r || is_stored r)
  || is_some_and (fun reason => is_err (valid_token reason)) (mr_stored_reason r).

(** The file, or what stands for it where there is none; [fresh_key] is drawn for that. *)
Definition read_file (fresh_key : list N) (disk : Disk) : result string ManagedMetadataFile :=
  match disk with
  | NotFound => Ok (mkManagedMetadataFile MANAGED_METADATA_VERSION (hex fresh_key) [] [])
  | Uninspectable => Err "inspect"
  | Present metadata contents =>
      refuse_if (negb (fm_is_file metadata) || fm_is_symlink metadata) "not_regular" ?;
      map_err (fun _ => "insecure") (validate_private_file effective_uid metadata) ?;
      let? encoded := ok_or contents "read" in
      refuse_if ((len encoded =? 0) || (MAX_MANAGED_METADATA_FILE_BYTES <? len encoded)) "byte_bound" ?;
      ok_or (from_slice encoded) "malformed"
  end.

Definition load (failed_at : option write_step) (fresh_key : list N) (disk : Disk) : result string ManagedMetadataStore :=
  let? file := read_file fresh_key disk in
  refuse_if (negb (mf_v file =? MANAGED_METADATA_VERSION) || (MAX_MANAGED_RECORDS <? len (mf_records file))
             || (LIFECYCLE_BOUND <? len (mf_lifecycle file))) "bounds" ?;
  each (fun r => refuse_if (record_invalid r) "record") (mf_records file) ?;
  let? key := ok_or (decode_hex_32 (mf_key file)) "key" in
  let lifecycle := take (N.to_nat LIFECYCLE_BOUND) (List.filter (fun outcome => is_ok (LifecycleOutcome_validate outcome)) (mf_lifecycle file)) in
  let '(store, written) := persist failed_at (mkManagedMetadataStore key (mf_records file) lifecycle disk) in
  written ?; Ok store.

Definition be_len (s : string) : list N := be_bytes 8 (slen s).
Definition text_bytes (s : string) : list N := nb <$> String.list_ascii_of_string s.

Definition store_workspace_id (path : string) (s : ManagedMetadataStore) : string :=
  stake 32 (hex (sha256 (text_bytes "ciao-managed-workspace-v1" ++ [0] ++ mg_key s ++ be_len path ++ text_bytes path)%list)).

Definition push_outcome (outcome : LifecycleOutcome) (s : ManagedMetadataStore) : ManagedMetadataStore * LifecycleOutcome :=
  let lifecycle := (mg_lifecycle s ++ [outcome])%list in
  (mkManagedMetadataStore (mg_key s) (mg_records s) (drop (N.to_nat (len lifecycle - LIFECYCLE_BOUND)) lifecycle) (mg_disk s), outcome).

Definition accepted (command_id : string) (session_id : option string) (process_generation : option N) : LifecycleOutcome :=
  mkLifecycleOutcome AGENT_PROTOCOL_VERSION command_id "accepted" session_id process_generation None None None.
Definition refused (command_id reason : string) : LifecycleOutcome :=
  mkLifecycleOutcome AGENT_PROTOCOL_VERSION command_id "refused" None None (Some reason) None None.

Definition accept (command_id : string) (session_id : option string) (process_generation : option N) := push_outcome (accepted command_id session_id process_generation).
Definition refuse_locked (command_id reason : string) := push_outcome (refused command_id reason).

Definition answered (command_id : string) (s : ManagedMetadataStore) : option LifecycleOutcome :=
  (fun o => mkLifecycleOutcome (lo_v o) (lo_command_id o) (lo_state o) (lo_session_id o) (lo_process_generation o) (lo_reason_code o)
              (Some true) (lo_resume_command o))
    <$> List.find (fun o => lo_command_id o =s? command_id) (mg_lifecycle s).

(** ** Operations as programs *)

(** What an operation waits for outside the lock. *)
Inductive Query :=
| ScanHome
| IsDirectory (path : string)
| ForeignOwnerEvidence (vendor_session_id : string) (ignoring : option N)
| ReadTranscript (vendor_session_id : string)
| SpawnWorker (spec : LaunchSpec) (workspace_label : string)
| StopWorker (session_id : string)
| HandBack (workspace session_name vendor_session : string)
| CloseHandback (session_name : string)
| BeforeSpawn (session_id : string)
| RequestExit (process_id : N).

Definition Answer (q : Query) : Type :=
  match q with
  | ScanHome => option WorkspaceScan
  | IsDirectory _ | ForeignOwnerEvidence _ _ | RequestExit _ => bool
  | ReadTranscript _ => option string * option string
  | SpawnWorker _ _ => result string unit
  | HandBack _ _ _ => option string
  | StopWorker _ | CloseHandback _ | BeforeSpawn _ => unit
  end.

(** When a critical section runs: its clock, and where a write would fail. *)
Record Moment := mkMoment { mo_now : N; mo_failed_at : option write_step }.

(** A program alternates critical sections and waits; what follows a section depends on the store it found. *)
Inductive prog (A : Type) : Type :=
| Ret (a : A)
| Locked (change : Moment -> ManagedMetadataStore -> ManagedMetadataStore) (next : Moment -> ManagedMetadataStore -> prog A)
| Ask (q : Query) (k : Answer q -> prog A).

#[export] Instance prog_ret : MRet prog := Ret.

#[export] Instance prog_bind : MBind prog :=
  fun A B k => fix go p :=
    match p with
    | Ret _ a => k a
    | Locked _ change next => Locked B change (fun m s => go (next m s))
    | Ask _ q f => Ask B q (fun a => go (f a))
    end.

Definition locked {A} (f : Moment -> ManagedMetadataStore -> ManagedMetadataStore * A) : prog A :=
  Locked A (fun m s => (f m s).1) (fun m s => Ret A (f m s).2).
Definition reading {A} (f : ManagedMetadataStore -> A) : prog A := locked (fun _ s => (s, f s)).
Definition ask (q : Query) : prog (Answer q) := Ask (Answer q) q (Ret (Answer q)).

(** [self.persist()], whose failure is dropped. *)
Definition persisted : prog unit := locked (fun m s => ((persist (mo_failed_at m) s).1, tt)).

Definition refuse (command_id reason : string) : prog LifecycleOutcome :=
  outcome ← locked (fun _ => refuse_locked command_id reason);
  _ ← persisted;
  mret outcome.

(** An operation starts with [deduplicated]. *)
Definition once (command_id : string) (operation : prog LifecycleOutcome) : prog LifecycleOutcome :=
  existing ← reading (answered command_id);
  match existing with Some outcome => mret outcome | None => operation end.

(** A critical section that accepts, then [persist]. *)
Definition accepting (f : Moment -> ManagedMetadataStore -> ManagedMetadataStore * LifecycleOutcome) : prog LifecycleOutcome :=
  outcome ← locked f;
  _ ← persisted;
  mret outcome.

(** ** Starting *)

(** [WorkerLauncher::launch], the verification of the runtime and the spawn of the process being one wait. *)
Definition launch (spec : LaunchSpec) (workspace_label : string) : prog (result string LaunchedWorker) :=
  spawned ← ask (SpawnWorker spec workspace_label);
  mret (rmap (fun _ => mkLaunchedWorker (sp_resume_vendor_session spec) "Claude" PINNED_MANAGED_CLI_VERSION) spawned).

(** A session's record once its worker runs; [None] where the store has no room. *)
Definition push_record (path label session_id command_id : string) (worker : LaunchedWorker) (m : Moment) (s : ManagedMetadataStore)
  : ManagedMetadataStore * option LifecycleOutcome :=
  if MAX_MANAGED_RECORDS <=? len (mg_records s) then (s, None)
  else
    let r := mkManagedRecord session_id (lw_vendor_session_id worker) path (store_workspace_id path s) label (lw_adapter_family worker)
               (lw_adapter_version worker) 1 "live" None false None 1 (mo_now m) in
    let '(s, outcome) := accept command_id (Some session_id) None (set_records (mg_records s ++ [r])%list s) in
    (s, Some outcome).

(** What a resumed conversation was last run with, if it can be read. *)
Definition transcript_of (resume_vendor_session : option string) : prog (option string * option string) :=
  match resume_vendor_session with
  | Some vendor_session => ask (ReadTranscript vendor_session)
  | None => mret (None, None)
  end.

Definition start_in_workspace_resuming (path label : string) (resume_vendor_session : option string) (command_id : string)
    (before_spawn : bool) (draw : N) : prog LifecycleOutcome :=
  let session_id := random_opaque_id draw in
  _ ← (if before_spawn then ask (BeforeSpawn session_id) else mret tt);
  '(permission_mode, model) ← transcript_of resume_vendor_session;
  launched ← launch (mkLaunchSpec session_id path resume_vendor_session permission_mode model) label;
  match launched with
  | Err reason => refuse command_id reason
  | Ok worker =>
      outcome ← locked (push_record path label session_id command_id worker);
      match outcome with
      | None => refuse command_id "record_limit"
      | Some outcome => _ ← persisted; mret outcome
      end
  end.

Definition start_in_workspace (path label command_id : string) (draw : N) : prog LifecycleOutcome :=
  start_in_workspace_resuming path label None command_id false draw.

Definition known_workspace (workspace_id : string) (s : ManagedMetadataStore) : option (string * string) :=
  (fun r => (mr_workspace_path r, mr_workspace_label r)) <$> List.find (fun r => mr_workspace_id r =s? workspace_id) (mg_records s).

Definition discovered_workspace (workspace_id : string) (candidates : WorkspaceScan) (s : ManagedMetadataStore) : option (string * string) :=
  (fun path => (path, workspace_label path))
    <$> List.find (fun path => store_workspace_id path s =s? workspace_id) (wsc_paths candidates).

Definition managed_start (workspace_id command_id : string) (draw : N) : prog LifecycleOutcome :=
  once command_id
    (known ← reading (known_workspace workspace_id);
     workspace ← match known with
                 | Some known => mret (Some known)
                 | None => scan ← ask ScanHome; reading (discovered_workspace workspace_id (default WorkspaceScan_default scan))
                 end;
     match workspace with
     | None => refuse command_id "unknown_workspace"
     | Some (path, label) => start_in_workspace path label command_id draw
     end).

(** [path.is_absolute() && path.is_dir()]. *)
Definition placed (path : string) : prog bool := if starts_with path "/" then ask (IsDirectory path) else mret false.

Definition managed_start_at_path (path command_id : string) (draw : N) : prog LifecycleOutcome :=
  once command_id
    (is_dir ← placed path;
     if is_dir : bool then start_in_workspace path (workspace_label path) command_id draw else refuse command_id "unknown_workspace").

(** ** Taking over a terminal's conversation *)

Definition live_elsewhere (vendor_session_id : string) (s : ManagedMetadataStore) : bool :=
  existsb (fun r => bool_decide (mr_vendor_session_id r = Some vendor_session_id) && is_live r) (mg_records s).

(** Who else holds the conversation to take over, if any. *)
Definition contended (target : PromotionTarget) : prog (option string) :=
  match pt_vendor_session_id target with
  | None => mret None
  | Some vendor_session_id =>
      live ← reading (live_elsewhere vendor_session_id);
      if live : bool then mret (Some "already_live")
      else
        foreign ← ask (ForeignOwnerEvidence vendor_session_id (Some (pt_process_id target)));
        mret (if foreign : bool then Some "foreign_owner_live" else None)
  end.

Definition promotion_preflight (target : PromotionTarget) : prog (option string) :=
  is_dir ← placed (pt_workspace_path target);
  if is_dir : bool then contended target else mret (Some "unknown_workspace").

Definition managed_promote (target : PromotionTarget) (command_id : string) (draw : N) : prog LifecycleOutcome :=
  once command_id
    (is_dir ← placed (pt_workspace_path target);
     if negb is_dir then refuse command_id "unknown_workspace"
     else
       holder ← contended target;
       match holder with
       | Some reason => refuse command_id reason
       | None => start_in_workspace_resuming (pt_workspace_path target) (workspace_label (pt_workspace_path target))
                   (pt_vendor_session_id target) command_id true draw
       end).

(** ** The rest of a session's life *)

Definition handback_of (session_id : string) (s : ManagedMetadataStore) : option Handback :=
  r ← record session_id s;
  vendor ← mr_vendor_session_id r;
  Some (mkHandback vendor (mr_handback_session r)).

(** [workspace::handback_session_name]. *)
Definition handback_session_name (workspace_label session_id : string) : option string :=
  let named c := existsb (fun b => is_ascii_alphanumeric b || Ascii.eqb b "-" || Ascii.eqb b "_") (String.list_ascii_of_string c) in
  let label := sconcat (take 24 ((fun c => if (slen c =? 1) && named c then c else "-") <$> chars workspace_label)) in
  let fragment := sconcat (take 12 (List.filter (fun c => (slen c =? 1) && sall is_ascii_alphanumeric c) (chars session_id))) in
  if fragment =s? "" then None
  else
    let name := if label =s? "" then "ciao-" +:+ fragment else "ciao-" +:+ label +:+ "-" +:+ fragment in
    if valid_session_name name then Some name else None.

Definition managed_release (session_id command_id : string) : prog (LifecycleOutcome * option Handback) :=
  let refuse_none reason := outcome ← refuse command_id reason; mret (outcome, None) in
  existing ← reading (answered command_id);
  match existing with
  | Some outcome => handback ← reading (handback_of session_id); mret (outcome, handback)
  | None =>
      found ← reading (record session_id);
      match found with
      | None => refuse_none "unknown_session"
      | Some r =>
          match mr_vendor_session_id r with
          | None => refuse_none "no_vendor_session"
          | Some vendor =>
              is_dir ← ask (IsDirectory (mr_workspace_path r));
              if negb is_dir then refuse_none "unknown_workspace"
              else
                _ ← ask (StopWorker session_id);
                route_session ← match handback_session_name (mr_workspace_label r) session_id with
                                | Some name => ask (HandBack (mr_workspace_path r) name vendor)
                                | None => mret None
                                end;
                outcome ← accepting (fun m s => accept command_id (Some session_id) None (record_mut session_id (released (mo_now m) route_session) s));
                mret (outcome, Some (mkHandback vendor route_session))
          end
      end
  end.

Definition managed_forget (session_id command_id : string) : prog LifecycleOutcome :=
  once command_id
    (accepting (fun _ s =>
       match record session_id s with
       | None => refuse_locked command_id "unknown_session" s
       | Some r =>
           if is_live r then refuse_locked command_id "already_live" s
           else accept command_id (Some session_id) None (set_records (remove_first (has_id session_id) (mg_records s)) s)
       end)).

Definition managed_stop (session_id : string) (expected_generation : N) (command_id : string) : prog LifecycleOutcome :=
  once command_id
    (found ← reading (record session_id);
     match found with
     | None => refuse command_id "unknown_session"
     | Some r =>
         if negb (is_live r) then refuse command_id "already_stored"
         else if negb (mr_process_generation r =? expected_generation) then refuse command_id "stale_generation"
         else
           _ ← ask (StopWorker session_id);
           accepting (fun m s => accept command_id (Some session_id) None (record_mut session_id (stopped (mo_now m) "stopped") s))
     end).

Definition managed_resume (session_id command_id : string) : prog LifecycleOutcome :=
  once command_id
    (found ← reading (record session_id);
     match found with
     | None => refuse command_id "unknown_session"
     | Some r =>
         let handed_back := bool_decide (mr_stored_reason r = Some "released") in
         if is_live r then refuse command_id "already_live"
         else if mr_externally_owned r && negb handed_back then refuse command_id "externally_owned"
         else
           _ ← match (if handed_back then mr_handback_session r else None) with
               | Some session => ask (CloseHandback session)
               | None => mret tt
               end;
           foreign ← match mr_vendor_session_id r with
                     | Some vendor_session => ask (ForeignOwnerEvidence vendor_session None)
                     | None => mret false
                     end;
           if foreign : bool then refuse command_id "foreign_owner_live"
           else
             '(permission_mode, model) ← transcript_of (mr_vendor_session_id r);
             launched ← launch (mkLaunchSpec session_id (mr_workspace_path r) (mr_vendor_session_id r) permission_mode model)
                          (mr_workspace_label r);
             match launched with
             | Err reason => refuse command_id reason
             | Ok _ =>
                 let next_generation := sat_add64 (mr_process_generation r) 1 in
                 accepting (fun m s => accept command_id (Some session_id) (Some next_generation)
                                         (record_mut session_id (resumed (mo_now m) next_generation) s))
             end
     end).

Definition record_vendor_session (session_id vendor_session_id : string) : prog unit :=
  changed ← locked (fun m s =>
    match record session_id s with
    | None => (s, false)
    | Some r =>
        if bool_decide (mr_vendor_session_id r = Some vendor_session_id) then (s, false)
        else (record_mut session_id (with_vendor (mo_now m) vendor_session_id) s, true)
    end);
  if changed : bool then persisted else mret tt.

Definition record_worker_exit (session_id : string) (crashed : bool) : prog unit :=
  _ ← locked (fun m s =>
    (match record session_id s with
     | Some r => if is_live r then record_mut session_id (stopped (mo_now m) (if crashed then "worker_crash" else "stopped")) s else s
     | None => s
     end, tt));
  persisted.

Definition mark_externally_owned (session_id : string) : prog unit :=
  _ ← locked (fun m s =>
    (match record session_id s with
     | Some r => if is_stored r then record_mut session_id (marked_external (mo_now m)) s else s
     | None => s
     end, tt));
  persisted.

(** ** The daemon's side *)

Fixpoint foreign_among (live : list (string * string)) : prog (list string) :=
  match live with
  | [] => mret []
  | (session_id, vendor) :: live =>
      foreign ← ask (ForeignOwnerEvidence vendor None);
      found ← foreign_among live;
      mret (if foreign : bool then session_id :: found else found)
  end.

(** The live sessions to ask about. *)
Definition live_conversations (s : ManagedMetadataStore) : list (string * string) :=
  omap (fun r => vendor ← mr_vendor_session_id r; Some (mr_session_id r, vendor))
    (List.filter (fun r => is_live r && negb (mr_externally_owned r)) (mg_records s)).

Definition foreign_owned_live_sessions : prog (list string) :=
  live ← reading live_conversations;
  foreign_among live.

Fixpoint each_of {A} (f : A -> prog unit) (l : list A) : prog unit :=
  match l with
  | [] => mret tt
  | x :: l => _ ← f x; each_of f l
  end.

(** The part of [monitor_agent_routes] that looks after workers: those that [reap] found gone, then the
    conversations a terminal has opened too. *)
Definition sweep_workers (reaped : list (string * bool)) : prog unit :=
  _ ← each_of (fun '(session_id, crashed) => record_worker_exit session_id crashed) reaped;
  foreign ← foreign_owned_live_sessions;
  each_of (fun session_id =>
    _ ← ask (StopWorker session_id);
    _ ← record_worker_exit session_id false;
    mark_externally_owned session_id) foreign.

(** [recover_sessions_after_restart]: each chat the start stored is resumed, under a command id drawn for it. *)
Definition recover_sessions (restart_resumable : list (string * N)) : prog unit :=
  each_of (fun '(session_id, draw) => _ ← managed_resume session_id (format_u128 draw); mret tt) restart_resumable.

(** A takeover as the daemon runs it: what can be refused before the terminal ends is. *)
Definition promote_request (target : result string PromotionTarget) (command_id : string) (draw : N) : prog LifecycleOutcome :=
  match target with
  | Err reason => mret (refused command_id reason)
  | Ok target =>
      holder ← promotion_preflight target;
      match holder with
      | Some reason => mret (refused command_id reason)
      | None =>
          exited ← ask (RequestExit (pt_process_id target));
          if exited : bool then managed_promote target command_id draw else mret (refused command_id "terminal_owner_live")
      end
  end.

Definition with_resume_command (resume_command : option string) (o : LifecycleOutcome) : LifecycleOutcome :=
  mkLifecycleOutcome (lo_v o) (lo_command_id o) (lo_state o) (lo_session_id o) (lo_process_generation o) (lo_reason_code o)
    (lo_deduplicated o) resume_command.

(** A release as a phone asks for it, of a session no adopted thread is held for. *)
Definition release_request (session_id command_id : string) : prog LifecycleOutcome :=
  '(outcome, handback) ← managed_release session_id command_id;
  mret (if lo_state outcome =s? "accepted"
        then with_resume_command (h ← handback; claude_resume_command (hb_vendor_session_id h)) outcome else outcome).

(** What travels: an outcome that does not validate is replaced. *)
Definition answer_lifecycle (outcome : LifecycleOutcome) : LifecycleOutcome :=
  if is_ok (LifecycleOutcome_validate outcome) then outcome else refused (lo_command_id outcome) "host_error".

(** ** The list of workspaces *)

Definition push_unseen (seen : list (string * string)) (entry : string * string) : list (string * string) :=
  if existsb (fun '(id, _) => id =s? entry.1) seen then seen else (seen ++ [entry])%list.

Definition list_workspaces (home : string) (scan : option WorkspaceScan) (s : ManagedMetadataStore) : AgentWorkspaceList :=
  let scan_incomplete := match scan with Some scan => wsc_denied scan | None => true end in
  let known := (fun r => (mr_workspace_id r, mr_workspace_path r)) <$> newest_first mr_updated_at (mg_records s) in
  let discovered := (fun path => (store_workspace_id path s, path)) <$> wsc_paths (default WorkspaceScan_default scan) in
  let seen := foldl push_unseen [] (known ++ discovered)%list in
  mkAgentWorkspaceList AGENT_PROTOCOL_VERSION "agent_workspace_list"
    (workspace_labels (take (N.to_nat MAX_WORKSPACE_LIST_ENTRIES) seen) home) (len seen - MAX_WORKSPACE_LIST_ENTRIES) scan_incomplete.

Definition workspaces (home : string) : prog AgentWorkspaceList :=
  scan ← ask ScanHome;
  reading (list_workspaces home scan).

(** ** A start of the daemon *)

Record Directory := mkDirectory { dy_store : ManagedMetadataStore; dy_restart_resumable : list string }.

Definition directory_load (at_load at_store : Moment) (fresh_key : list N) (disk : Disk) : result string Directory :=
  let? store := load (mo_failed_at at_load) fresh_key disk in
  let resumable := mr_session_id <$> List.filter is_live (mg_records store) in
  let store := set_records (restarted (mo_now at_store) <$> mg_records store) store in
  if bool_decide (resumable = []) then Ok (mkDirectory store resumable)
  else let '(store, written) := persist (mo_failed_at at_store) store in written ?; Ok (mkDirectory store resumable).

Definition take_restart_resumable (d : Directory) : Directory * list string := (mkDirectory (dy_store d) [], dy_restart_resumable d).
End store.
