(* ===== verification/ManagedStore.v ===== *)
(** What holds of the store of managed sessions, whatever operations do in whatever order; and that what is
    written loads again. *)
From S2P Require Import Prelude Text Metadata PrivateFile UploadNames Downloads Protocol LiveActivity Queries WorkspaceScan Managed.

Local Open Scope string_scope.
Local Open Scope N_scope.

(** ** Labels *)

Lemma pop_over_fits l : slen (sconcat (reverse (pop_over l))) <= MAX_WORKSPACE_LABEL_BYTES.
Proof.
  induction l as [|c l IH]; cbn [pop_over]; [by vm_compute|]. destruct (N.ltb_spec MAX_WORKSPACE_LABEL_BYTES (slen (sconcat (reverse (c :: l))))); done.
Qed.

Lemma workspace_label_ok path : workspace_label path <> "" /\ slen (workspace_label path) <= MAX_WORKSPACE_LABEL_BYTES.
Proof.
  unfold workspace_label. set (bounded := sconcat _). pose proof (pop_over_fits (reverse (chars (match file_name path with
    Some name => if name =s? "" then "workspace" else name | None => "workspace" end)))) as H. fold bounded in H.
  destruct (String.eqb_spec bounded ""); [by split|done].
Qed.

Lemma update_first_elem {A} (p : A -> bool) f l (x : A) : x ∈ update_first p f l -> x ∈ l \/ exists y, List.find p l = Some y /\ x = f y.
Proof.
  induction l as [|y l IH]; cbn; [by intros ?%not_elem_of_nil|]. destruct (p y).
  - rewrite !elem_of_cons. intros [->|?]; [right; by exists y|auto].
  - rewrite !elem_of_cons. intros [->|H]; [auto|]. destruct (IH H); auto.
Qed.

Section store.
Context (sha256 : list N -> list N) (to_vec : ManagedMetadataFile -> option bytes) (from_slice : bytes -> option ManagedMetadataFile)
  (effective_uid : N).
Context (sha256_law : sha256_bytes sha256).

Lemma store_workspace_id_valid path s : valid_opaque_id (store_workspace_id sha256 path s) = Ok tt.
Proof.
  unfold store_workspace_id. set (bytes := (_ ++ _)%list). destruct (sha256_law bytes) as [Hl Hb].
  destruct (hex_facts _ Hb) as (_ & Hlen & _ & Ha). apply valid_opaque_id_ok. unfold slen. rewrite stake_length, Hlen, Hl. split; [by vm_compute|].
  apply sall_stake. by eapply sall_impl; [apply alphanumeric_token|].
Qed.

Definition ids (s : ManagedMetadataStore) : list string := mr_session_id <$> mg_records s.

(** A record that loads, and whose flags tell one story: a live one was neither stopped nor handed anywhere. *)
Record record_ok (s : ManagedMetadataStore) (r : ManagedRecord) : Prop := {
  ro_valid : record_invalid r = false;
  ro_revision : mr_revision r <= u64_max;
  ro_workspace : mr_workspace_id r = store_workspace_id sha256 (mr_workspace_path r) s;
  ro_live : is_live r = true -> mr_stored_reason r = None /\ mr_externally_owned r = false /\ mr_handback_session r = None;
  ro_stored : is_stored r = true -> is_some (mr_stored_reason r) = true
}.

Record store_ok (s : ManagedMetadataStore) : Prop := {
  so_key : length (mg_key s) = 32%nat /\ Forall (fun b => b < 256) (mg_key s);
  so_ids : NoDup (ids s);
  so_records : len (mg_records s) <= MAX_MANAGED_RECORDS;
  so_each : Forall (record_ok s) (mg_records s);
  so_lifecycle : len (mg_lifecycle s) <= LIFECYCLE_BOUND;
  so_outcomes : Forall (fun o => LifecycleOutcome_validate o = Ok tt) (mg_lifecycle s)
}.

Lemma record_ok_key s s' r : mg_key s = mg_key s' -> record_ok s r -> record_ok s' r.
Proof. intros Hk [Hv Hr Hw Hl Hs]. split; [done|done| |done..]. rewrite Hw. unfold store_workspace_id. by rewrite Hk. Qed.

(** ** One step of a record's life *)

(** What a critical section may make of a record: the session stays itself, and its revision does not go back. *)
Definition kept (r r' : ManagedRecord) : Prop :=
  mr_session_id r' = mr_session_id r /\ mr_workspace_path r' = mr_workspace_path r /\ mr_workspace_id r' = mr_workspace_id r
  /\ mr_workspace_label r' = mr_workspace_label r /\ mr_adapter_family r' = mr_adapter_family r /\ mr_adapter_version r' = mr_adapter_version r
  /\ mr_revision r <= mr_revision r'.

Definition evolves (before after : option ManagedRecord) : Prop :=
  match before, after with
  | None, None => True
  | None, Some r => is_live r = true /\ mr_process_generation r = 1 /\ mr_revision r = 1
  | Some r, None => is_stored r = true
  | Some r, Some r' => kept r r'
  end.

(** The file as the store writes it. *)
Definition written (s : ManagedMetadataStore) (disk : Disk) : Prop :=
  exists encoded, to_vec (file_of s) = Some encoded /\ disk = private_file effective_uid encoded.

(** A critical section that adds no session. *)
Record keeps_store (s s' : ManagedMetadataStore) : Prop := {
  ks_ok : store_ok s';
  ks_key : mg_key s' = mg_key s;
  ks_ids : ids s' ⊆ ids s;
  ks_receipts : mg_lifecycle s' = mg_lifecycle s \/ exists outcome, mg_lifecycle s' = mg_lifecycle (push_outcome outcome s).1;
  ks_evolves session_id : evolves (record session_id s) (record session_id s');
  ks_disk : mg_disk s' = mg_disk s \/ written s (mg_disk s')
}.

Lemma record_kept_refl r : kept r r.
Proof. unfold kept. split_and!; done. Qed.

Lemma evolves_refl r : evolves r r.
Proof. destruct r; [apply record_kept_refl|done]. Qed.

Lemma keeps_refl s : store_ok s -> keeps_store s s.
Proof. intros H. split; [done|done|done|by left|intros; apply evolves_refl|by left]. Qed.

(** ** The critical sections *)

Lemma persist_keeps failed_at s : store_ok s -> keeps_store s (persist to_vec effective_uid failed_at s).1.
Proof.
  intros Hok. pose proof Hok as [Hk Hi Hr He Hl Ho]. unfold persist. destruct (to_vec (file_of s)) as [encoded|] eqn:Henc; [|by apply keeps_refl].
  destruct (atomic_write_private _ _ _ _) as [disk r] eqn:Hw. cbn [fst].
  split; cbn [mg_key mg_disk]; [|done|done|by left|intros; apply evolves_refl|].
  - split; try done. eapply Forall_impl; [exact He|]. intros x. by apply record_ok_key.
  - apply atomic_write_cases in Hw as [[-> _]|[-> _]]; [right; by exists encoded|auto].
Qed.

Lemma push_outcome_keeps outcome s : store_ok s -> LifecycleOutcome_validate outcome = Ok tt -> keeps_store s (push_outcome outcome s).1.
Proof.
  intros [Hk Hi Hr He Hl Ho] Hv. unfold push_outcome. cbn [fst]. split; cbn [mg_key mg_disk]; [|done|done|right; by exists outcome|intros; apply evolves_refl|by left].
  split; cbn [mg_key mg_records mg_lifecycle]; try done.
  - eapply Forall_impl; [exact He|]. intros x. by apply record_ok_key.
  - unfold len. rewrite length_drop. generalize LIFECYCLE_BOUND. intros bound. lia.
  - apply Forall_drop, Forall_app. by repeat constructor.
Qed.

Lemma accepted_valid command_id session_id generation :
  valid_opaque_id command_id = Ok tt -> (forall id, session_id = Some id -> valid_opaque_id id = Ok tt) ->
  LifecycleOutcome_validate (accepted command_id session_id generation) = Ok tt.
Proof.
  intros Hc Hs. unfold LifecycleOutcome_validate, accepted. cbn [lo_v lo_command_id lo_state lo_session_id lo_reason_code lo_resume_command]. rewrite Hc.
  assert (valid_token "accepted" = Ok tt) as Ht by by vm_compute. cbn. rewrite Ht. destruct session_id as [id|]; cbn; [|done]. by rewrite Hs.
Qed.

Lemma refused_valid command_id reason :
  valid_opaque_id command_id = Ok tt -> valid_token reason = Ok tt -> LifecycleOutcome_validate (refused command_id reason) = Ok tt.
Proof.
  intros Hc Hr. unfold LifecycleOutcome_validate, refused. cbn [lo_v lo_command_id lo_state lo_session_id lo_reason_code lo_resume_command]. rewrite Hc.
  assert (valid_token "refused" = Ok tt) as Ht by by vm_compute. cbn. rewrite Ht. cbn. by rewrite Hr.
Qed.

(** A section that also answers. *)
Lemma keeps_answer s s1 outcome : keeps_store s s1 -> mg_lifecycle s1 = mg_lifecycle s -> LifecycleOutcome_validate outcome = Ok tt -> keeps_store s (push_outcome outcome s1).1.
Proof.
  intros [Hok Hk Hi Hr He Hd] Hl Hv. destruct (push_outcome_keeps outcome s1 Hok Hv) as [Hok' _ _ _ _ _].
  split; try done. right. exists outcome. unfold push_outcome. cbn. by rewrite Hl.
Qed.

Lemma record_has_id session_id s r : record session_id s = Some r -> r ∈ mg_records s /\ mr_session_id r = session_id.
Proof. intros [Hin H%String.eqb_eq]%find_some_elem. done. Qed.

Lemma record_of_elem s r : NoDup (ids s) -> r ∈ mg_records s -> record (mr_session_id r) s = Some r.
Proof. intros Hn Hin. apply (find_unique mr_session_id); [done|done|]. intros y. apply String.eqb_eq. Qed.

Lemma record_mut_record session_id f s id :
  (forall r, mr_session_id (f r) = mr_session_id r) ->
  record id (record_mut session_id f s) = if session_id =s? id then f <$> record id s else record id s.
Proof.
  intros Hf. unfold record, record_mut, set_records. cbn [mg_records]. destruct (String.eqb_spec session_id id) as [->|Hne].
  - apply update_first_find. intros x. unfold has_id. by rewrite Hf.
  - induction (mg_records s) as [|x l IH]; [done|]. cbn [update_first List.find]. unfold has_id in *.
    destruct (String.eqb_spec (mr_session_id x) session_id) as [Hx|Hx]; cbn [List.find].
    + rewrite Hf, Hx. by rewrite (proj2 (String.eqb_neq session_id id)).
    + by rewrite IH.
Qed.

Lemma record_mut_keeps session_id f s :
  store_ok s -> (forall r, mr_session_id (f r) = mr_session_id r) ->
  (forall r, record session_id s = Some r -> kept r (f r) /\ record_ok s (f r)) -> keeps_store s (record_mut session_id f s).
Proof.
  intros [Hk Hi Hr He Hl Ho] Hid Hf.
  assert (ids (record_mut session_id f s) = ids s) as Hids by (apply update_first_fmap; auto).
  assert (Forall (record_ok s) (update_first (has_id session_id) f (mg_records s))) as Hall.
  { rewrite Forall_forall in He |- *. intros x Hx. destruct (update_first_elem _ _ _ _ Hx) as [Hin|(r & Hfind & ->)]; [by apply He|]. by apply Hf. }
  split; [|done|by rewrite Hids|by left| |by left].
  - split; [done|by rewrite Hids| | |done|done].
    + unfold record_mut, set_records, len. cbn [mg_records]. by rewrite update_first_length.
    + eapply Forall_impl; [exact Hall|]. intros x. by apply record_ok_key.
  - intros id. rewrite record_mut_record by done. destruct (String.eqb_spec session_id id) as [->|]; [|apply evolves_refl].
    destruct (record id s) as [r|] eqn:Hrec; [|done]. by apply Hf.
Qed.

(** ** Each change of a record *)

Definition vendor_ok (vendor : option string) : Prop := forall v, vendor = Some v -> v <> "" /\ slen v <= 128.

(** What a record has that no change of its state touches. *)
Record identity_ok (r : ManagedRecord) : Prop := {
  io_session : valid_opaque_id (mr_session_id r) = Ok tt;
  io_workspace : valid_opaque_id (mr_workspace_id r) = Ok tt;
  io_family : valid_token (mr_adapter_family r) = Ok tt;
  io_version : valid_token (mr_adapter_version r) = Ok tt;
  io_vendor : vendor_ok (mr_vendor_session_id r);
  io_path : mr_workspace_path r <> "";
  io_label : mr_workspace_label r <> "" /\ slen (mr_workspace_label r) <= MAX_WORKSPACE_LABEL_BYTES
}.

Lemma is_err_ok (c : checked) : is_err c = false <-> c = Ok tt.
Proof. destruct c as [[]|]; by split. Qed.

Lemma record_valid_iff r :
  record_invalid r = false <->
  identity_ok r /\ mr_process_generation r <> 0 /\ mr_revision r <> 0 /\ (is_live r = true \/ is_stored r = true)
  /\ (forall reason, mr_stored_reason r = Some reason -> valid_token reason = Ok tt).
Proof.
  unfold record_invalid. rewrite !orb_false_iff, !is_err_ok, !N.eqb_neq, !String.eqb_neq, N.ltb_ge, negb_false_iff, orb_true_iff. split.
  - intros [[[[[[[[[[[? ?] ?] ?] Hv] ?] ?] ?] ?] ?] ?] Hr]. split; [split; try done|split_and!; try done].
    + intros v Hs. rewrite Hs in Hv. cbn in Hv. apply orb_false_iff in Hv as [?%String.eqb_neq ?%N.ltb_ge]. done.
    + intros reason Hs. rewrite Hs in Hr. by apply is_err_ok.
  - intros ([? ? ? ? Hv ? [? ?]] & ? & ? & ? & Hr). split_and!; try done.
    + destruct (mr_vendor_session_id r) as [v|]; [|done]. destruct (Hv v eq_refl). cbn. apply orb_false_iff. by rewrite String.eqb_neq, N.ltb_ge.
    + destruct (mr_stored_reason r) as [reason|]; [|done]. by apply is_err_ok, Hr.
Qed.

Lemma record_ok_facts s r :
  record_ok s r -> identity_ok r /\ mr_process_generation r <> 0 /\ 0 < mr_revision r <= u64_max.
Proof. intros [(Hio & Hg & Hr & _)%record_valid_iff Hu _ _ _]. split_and!; [done|done|lia|done]. Qed.

Lemma bumped_ok now presence reason external handback generation s r :
  record_ok s r -> generation <> 0 ->
  (presence = "live" /\ reason = None /\ external = false /\ handback = None)
  \/ (presence = "stored" /\ exists text, reason = Some text /\ valid_token text = Ok tt) ->
  kept r (bumped now presence reason external handback generation r) /\ record_ok s (bumped now presence reason external handback generation r).
Proof.
  intros Hok Hgen Hcase. destruct (record_ok_facts _ _ Hok) as (Hio & _ & Hr). split; [unfold kept; cbn; split_and!; try done; unfold sat_add64; lia|].
  split; cbn; [|unfold sat_add64; lia|apply Hok| |].
  - apply record_valid_iff. cbn. split; [by destruct Hio|]. split; [done|]. split; [unfold sat_add64; lia|]. unfold is_live, is_stored. cbn.
    destruct Hcase as [(-> & -> & _)|(-> & text & -> & Ht)]; (split; [auto|]); [done|by intros t [= <-]].
  - unfold is_live. cbn. by destruct Hcase as [(-> & -> & -> & ->)|(-> & _)].
  - unfold is_stored. cbn. by destruct Hcase as [(-> & _)|(-> & text & -> & _)].
Qed.

Lemma stopped_ok now reason s r :
  record_ok s r -> valid_token reason = Ok tt -> kept r (stopped now reason r) /\ record_ok s (stopped now reason r).
Proof. intros Hok Ht. apply bumped_ok; [done|by apply (record_ok_facts _ _ Hok)|eauto]. Qed.

Lemma released_ok now route s r : record_ok s r -> kept r (released now route r) /\ record_ok s (released now route r).
Proof. intros Hok. apply bumped_ok; [done|by apply (record_ok_facts _ _ Hok)|]. right. split; [done|]. eexists. split; [done|by vm_compute]. Qed.

Lemma marked_external_ok now s r : record_ok s r -> kept r (marked_external now r) /\ record_ok s (marked_external now r).
Proof. intros Hok. apply bumped_ok; [done|by apply (record_ok_facts _ _ Hok)|]. right. split; [done|]. eexists. split; [done|by vm_compute]. Qed.

Lemma resumed_ok now generation s r : record_ok s r -> generation <> 0 -> kept r (resumed now generation r) /\ record_ok s (resumed now generation r).
Proof. intros Hok Hg. apply bumped_ok; auto. Qed.

Lemma with_vendor_ok now vendor s r :
  record_ok s r -> vendor_ok (Some vendor) -> kept r (with_vendor now vendor r) /\ record_ok s (with_vendor now vendor r).
Proof.
  intros [(Hio & Hrest)%record_valid_iff Hu Hw Hl Hs] Hv. split; [by unfold kept; cbn; split_and!|]. split; try done.
  apply record_valid_iff. split; [|done]. destruct Hio. by split.
Qed.

(** ** Sessions that come and go *)

Lemma remove_first_sublist p l : sublist (remove_first p l) l.
Proof. induction l as [|x l IH]; cbn; [done|]. destruct (p x); by constructor. Qed.

Lemma remove_first_find id l :
  NoDup (mr_session_id <$> l) -> List.find (has_id id) (remove_first (has_id id) l) = None
  /\ forall other, other <> id -> List.find (has_id other) (remove_first (has_id id) l) = List.find (has_id other) l.
Proof.
  induction l as [|x l IH]; [done|]. rewrite fmap_cons, NoDup_cons. intros [Hx Hn]. cbn [remove_first List.find]. unfold has_id in *.
  destruct (String.eqb_spec (mr_session_id x) id) as [Heq|Hne].
  - split.
    + apply find_none_forall, Forall_forall. intros y Hy. apply String.eqb_neq. intros Heq'. apply Hx. rewrite Heq, <- Heq'. by apply list_elem_of_fmap_2.
    + intros other Ho. by rewrite (proj2 (String.eqb_neq (mr_session_id x) other)) by congruence.
  - destruct (IH Hn) as [IH1 IH2]. cbn [List.find]. rewrite (proj2 (String.eqb_neq (mr_session_id x) id)) by done. split; [done|].
    intros other Ho. destruct (mr_session_id x =s? other); [done|]. by apply IH2.
Qed.

Lemma forget_keeps id s r :
  store_ok s -> record id s = Some r -> is_live r = false -> keeps_store s (set_records (remove_first (has_id id) (mg_records s)) s).
Proof.
  intros [Hk Hi Hr He Hl Ho] Hrec Hlive. pose proof (remove_first_sublist (has_id id) (mg_records s)) as Hsub.
  destruct (remove_first_find id _ Hi) as [Hnone Hother]. split; [|done| |by left| |by left].
  - split; [done| | | |done|done].
    + by eapply NoDup_fmap_sublist.
    + apply len_sublist in Hsub. cbn [mg_records set_records]. lia.
    + eapply Forall_impl; [by eapply Forall_sublist|]. intros x. by apply record_ok_key.
  - intros x (y & -> & Hy)%list_elem_of_fmap. apply list_elem_of_fmap_2. by eapply elem_of_sublist.
  - intros other. change (record other (set_records ?l s)) with (List.find (has_id other) l). destruct (decide (other = id)) as [->|Hne].
    + rewrite Hnone, Hrec. cbn. rewrite Forall_forall in He. apply record_has_id in Hrec as [Hin _].
      destruct (He r Hin) as [(_ & _ & _ & [?|?] & _)%record_valid_iff _ _ _ _]; [congruence|done].
    + rewrite Hother by done. apply evolves_refl.
Qed.

(** A session whose worker was launched. *)
Lemma push_record_cases path label id command_id worker m s :
  store_ok s -> id ∉ ids s -> valid_opaque_id id = Ok tt -> valid_opaque_id command_id = Ok tt -> path <> "" ->
  label <> "" /\ slen label <= MAX_WORKSPACE_LABEL_BYTES -> vendor_ok (lw_vendor_session_id worker) ->
  valid_token (lw_adapter_family worker) = Ok tt -> valid_token (lw_adapter_version worker) = Ok tt ->
  let s' := (push_record sha256 path label id command_id worker m s).1 in
  store_ok s' /\ mg_key s' = mg_key s /\ mg_disk s' = mg_disk s
  /\ (mg_lifecycle s' = mg_lifecycle s \/ exists outcome, mg_lifecycle s' = mg_lifecycle (push_outcome outcome s).1)
  /\ (s' = s \/ (ids s' = (ids s ++ [id])%list /\ (forall other, evolves (record other s) (record other s')))).
Proof.
  intros Hok Hfresh Hid Hc Hp Hlab Hv Hf Hver. pose proof Hok as [Hk Hi Hr He Hl Ho]. unfold push_record.
  destruct (N.leb_spec MAX_MANAGED_RECORDS (len (mg_records s))) as [|Hroom]; [cbn; auto 10|]. cbv zeta. set (r := mkManagedRecord _ _ _ _ _ _ _ _ _ _ _ _ _ _).
  set (s1 := set_records (mg_records s ++ [r])%list s).
  assert (store_ok s1) as Hok1.
  { split; [done| | | |done|done].
    - unfold ids, s1. cbn. rewrite fmap_app. apply NoDup_app. split_and!; [done| |apply NoDup_singleton]. intros x Hx ->%list_elem_of_singleton. done.
    - unfold s1. cbn [mg_records set_records]. rewrite len_snoc. lia.
    - unfold s1. cbn [mg_records set_records]. apply Forall_app. split; [eapply Forall_impl; [exact He|]; intros x; by apply record_ok_key|].
      constructor; [|constructor]. split; [|by vm_compute|done|done|done]. apply record_valid_iff. split; [|split_and!; try done; by left].
      split; try done. apply store_workspace_id_valid. }
  assert (LifecycleOutcome_validate (accepted command_id (Some id) None) = Ok tt) as Hval by (apply accepted_valid; [done|by intros ? [= <-]]).
  destruct (push_outcome_keeps _ _ Hok1 Hval) as [Hok2 Hk2 _ _ _ _].
  change (let '(s0, outcome) := accept command_id (Some id) None s1 in (s0, Some outcome)).1 with (push_outcome (accepted command_id (Some id) None) s1).1.
  split; [done|]. split; [done|]. split; [done|]. split; [right; by exists (accepted command_id (Some id) None)|]. right.
  split; [unfold ids, push_outcome, s1; cbn; by rewrite fmap_app|]. intros other. unfold record, push_outcome, s1. cbn [fst mg_records set_records].
  rewrite find_app. destruct (List.find (has_id other) (mg_records s)) as [x|] eqn:Hx; [apply record_kept_refl|]. cbn [List.find].
  destruct (has_id other r); cbn; [by split_and!|done].
Qed.

(** ** What is written loads again *)

Context (json_law : forall f encoded, to_vec f = Some encoded -> from_slice encoded = Some f).

(** The file is one the store has written, if there is one. *)
Definition disk_ok (disk : Disk) : Prop := disk = NotFound \/ exists s, store_ok s /\ written s disk.

Lemma filter_all {A} (p : A -> bool) l : Forall (fun x => p x = true) l -> List.filter p l = l.
Proof. induction 1 as [|x l Hx Hl IH]; [done|]. cbn. by rewrite Hx, IH. Qed.

Lemma persist_written failed_at s s' : persist to_vec effective_uid failed_at s = (s', Ok tt) ->
  exists disk, s' = mkManagedMetadataStore (mg_key s) (mg_records s) (mg_lifecycle s) disk /\ written s disk.
Proof.
  unfold persist. destruct (to_vec (file_of s)) as [encoded|] eqn:Henc; [|done]. destruct (atomic_write_private _ _ _ _) as [disk r] eqn:Hw.
  destruct r as [[]|]; [|done]. intros [= <-]. exists disk. split; [done|]. apply atomic_write_cases in Hw as [[-> _]|[_ ?]]; [by exists encoded|done].
Qed.

Lemma file_loads failed_at fresh_key s disk s' :
  store_ok s -> written s disk -> load to_vec from_slice effective_uid failed_at fresh_key disk = Ok s' ->
  s' = mkManagedMetadataStore (mg_key s) (mg_records s) (mg_lifecycle s) disk.
Proof.
  intros Hok (encoded & Henc & ->). pose proof Hok as [[Hkl Hkb] Hi Hr He Hl Ho]. unfold load, read_file, private_file. cbn [fm_is_file fm_is_symlink negb orb refuse_if rbind].
  rewrite private_file_valid. cbn [map_err rbind ok_or]. destruct (_ || _); [done|]. cbn [refuse_if rbind]. rewrite (json_law _ _ Henc). cbn [ok_or rbind file_of mf_v mf_records mf_lifecycle mf_key].
  destruct (_ || _ || _); [done|]. cbn [refuse_if rbind]. destruct (each _ (mg_records s)) as [[]|]; [|done]. cbn [rbind].
  rewrite decode_hex_32_hex by done. cbn [ok_or rbind]. rewrite filter_all.
  2:{ eapply Forall_impl; [exact Ho|]. by intros o ->. }
  rewrite take_ge by (unfold len in Hl; lia). destruct (persist _ _ _ _) as [store r] eqn:Hp. destruct r as [[]|]; [|done]. cbn. intros [= <-].
  apply persist_written in Hp as (disk & -> & encoded' & Henc' & ->). cbn. assert (encoded' = encoded) as -> by (change (to_vec (file_of s) = Some encoded') in Henc'; congruence). done.
Qed.

(** What a small enough file loads as, where it can be written. *)
Lemma file_loads_ok fresh_key s encoded :
  store_ok s -> to_vec (file_of s) = Some encoded -> 0 < len encoded <= MAX_MANAGED_METADATA_FILE_BYTES ->
  exists s', load to_vec from_slice effective_uid None fresh_key (private_file effective_uid encoded) = Ok s'.
Proof.
  intros Hok Henc Hlen. pose proof Hok as [[Hkl Hkb] Hi Hr He Hl Ho]. unfold load, read_file, private_file. cbn [fm_is_file fm_is_symlink negb orb refuse_if rbind].
  rewrite private_file_valid. cbn [map_err rbind ok_or]. rewrite (proj2 (N.eqb_neq _ _)), (proj2 (N.ltb_ge _ _)) by lia. cbn [orb refuse_if rbind].
  rewrite (json_law _ _ Henc). cbn [ok_or rbind file_of mf_v mf_records mf_lifecycle mf_key]. rewrite N.eqb_refl. cbn [negb orb].
  rewrite !(proj2 (N.ltb_ge _ _)) by done. cbn [orb refuse_if rbind]. rewrite (proj2 (each_ok _ _)).
  2:{ eapply Forall_impl; [exact He|]. intros r Hrec. by rewrite (ro_valid _ _ Hrec). }
  cbn [rbind]. rewrite decode_hex_32_hex by done. cbn [ok_or rbind]. rewrite filter_all.
  2:{ eapply Forall_impl; [exact Ho|]. by intros o ->. }
  rewrite take_ge by (unfold len in Hl; lia). unfold persist. change (to_vec (file_of _)) with (to_vec (file_of s)). rewrite Henc. cbn. eauto.
Qed.

Lemma empty_store_ok key : length key = 32%nat -> Forall (fun b => b < 256) key -> forall disk, store_ok (mkManagedMetadataStore key [] [] disk).
Proof. intros Hl Hb disk. split; cbn; try done; constructor. Qed.

(** A load that succeeds: the records of the file, or none. *)
Lemma load_ok failed_at fresh_key disk s :
  length fresh_key = 32%nat -> Forall (fun b => b < 256) fresh_key -> disk_ok disk ->
  load to_vec from_slice effective_uid failed_at fresh_key disk = Ok s ->
  store_ok s /\ written s (mg_disk s)
  /\ (disk = NotFound /\ mg_records s = [] \/ exists s0, store_ok s0 /\ written s0 disk /\ mg_records s = mg_records s0).
Proof.
  intros Hkl Hkb [->|(s0 & Hok & Hw)] Hload.
  - unfold load, read_file in Hload. cbn [rbind mf_v mf_records mf_lifecycle mf_key] in Hload. rewrite decode_hex_32_hex in Hload by done.
    cbn [ok_or rbind] in Hload. change (_ || _ || _) with false in Hload. cbn [refuse_if rbind each List.filter] in Hload. rewrite take_nil in Hload.
    destruct (persist _ _ _ _) as [store r] eqn:Hp. destruct r as [[]|]; [|done]. cbn in Hload. injection Hload as <-.
    apply persist_written in Hp as (disk & -> & Hw). split; [by apply empty_store_ok|]. split; [exact Hw|by left].
  - pose proof Hload as Hl. apply (file_loads _ _ s0) in Hload as ->; [|done..]. split; [|split].
    + destruct Hok as [? ? ? He ? ?]. split; try done. eapply Forall_impl; [exact He|]. intros x. by apply record_ok_key.
    + exact Hw.
    + right. by exists s0.
Qed.
End store.
