(* ===== verification/ManagedRuns.v ===== *)
(** The operations on managed sessions interleaved at their waits, with the daemon's own tasks, failing writes
    and restarts; and each operation alone. *)
From S2P Require Import Prelude Text Metadata PrivateFile UploadNames Downloads Protocol LiveActivity Queries WorkspaceScan Managed ManagedStore.

Local Open Scope string_scope.
Local Open Scope N_scope.

(** What may be asked of a directory. *)
Inductive Operation :=
| OpStart (workspace_id command_id : string)
| OpStartAtPath (path command_id : string)
| OpPromote (target : PromotionTarget) (command_id : string)
| OpRelease (session_id command_id : string)
| OpForget (session_id command_id : string)
| OpStop (session_id : string) (expected_generation : N) (command_id : string)
| OpResume (session_id command_id : string).

Definition command_of (op : Operation) : string :=
  match op with
  | OpStart _ c | OpStartAtPath _ c | OpPromote _ c | OpRelease _ c | OpForget _ c | OpStop _ _ c | OpResume _ c => c
  end.

(** What runs beside the operations. *)
Inductive Task :=
| TkOperation (op : Operation)
| TkTakeover (target : result string PromotionTarget) (command_id : string)
| TkVendorSession (session_id vendor_session_id : string)
| TkSweep (reaped : list (string * bool))
| TkRecover (restart_resumable : list (string * N)).

Section runs.
Context (sha256 : list N -> list N) (to_vec : ManagedMetadataFile -> option bytes) (from_slice : bytes -> option ManagedMetadataFile)
  (effective_uid : N).
Context (sha256_law : sha256_bytes sha256) (json_law : forall f encoded, to_vec f = Some encoded -> from_slice encoded = Some f).

Definition program (op : Operation) (draw : N) : prog LifecycleOutcome :=
  match op with
  | OpStart workspace_id c => managed_start sha256 to_vec effective_uid workspace_id c draw
  | OpStartAtPath path c => managed_start_at_path sha256 to_vec effective_uid path c draw
  | OpPromote target c => managed_promote sha256 to_vec effective_uid target c draw
  | OpRelease session_id c => release_request to_vec effective_uid session_id c
  | OpForget session_id c => managed_forget to_vec effective_uid session_id c
  | OpStop session_id generation c => managed_stop to_vec effective_uid session_id generation c
  | OpResume session_id c => managed_resume to_vec effective_uid session_id c
  end.

Definition task_program (t : Task) (draw : N) : prog unit :=
  match t with
  | TkOperation op => _ ← program op draw; mret tt
  | TkTakeover target c => _ ← promote_request sha256 to_vec effective_uid target c draw; mret tt
  | TkVendorSession session_id vendor => record_vendor_session to_vec effective_uid session_id vendor
  | TkSweep reaped => sweep_workers to_vec effective_uid reaped
  | TkRecover resumable => recover_sessions to_vec effective_uid resumable
  end.

(** What the callers have checked. *)
Definition target_ok (target : PromotionTarget) : Prop := vendor_ok (pt_vendor_session_id target).

Definition operation_ok (op : Operation) : Prop :=
  valid_opaque_id (command_of op) = Ok tt /\ match op with OpPromote target _ => target_ok target | _ => True end.

Definition task_ok (t : Task) : Prop :=
  match t with
  | TkOperation op => operation_ok op
  | TkTakeover target c => valid_opaque_id c = Ok tt /\ (forall t, target = Ok t -> target_ok t)
  | TkVendorSession _ vendor => vendor_ok (Some vendor)
  | TkSweep _ | TkRecover _ => True
  end.

(** An answer that can come: refusals of the launcher are tokens, and checkouts have paths. *)
Definition sensible (q : Query) : Answer q -> Prop :=
  match q with
  | SpawnWorker _ _ => fun r => match r with Err reason => valid_token reason = Ok tt | Ok _ => True end
  | ScanHome => fun scan => forall s, scan = Some s -> Forall (fun path => path <> "") (wsc_paths s)
  | _ => fun _ => True
  end.

(** ** What a program does to the store *)

Definition keeps (change : Moment -> ManagedMetadataStore -> ManagedMetadataStore) : Prop :=
  forall m s, store_ok sha256 s -> keeps_store sha256 to_vec effective_uid s (change m s).

(** A program whose sections keep the store, one of which may add the session [id]; [fresh]: it has not yet. *)
Inductive uses (id : string) {A} : bool -> prog A -> Prop :=
| UsesRet fresh a : uses id fresh (Ret A a)
| UsesLocked fresh change next :
    keeps change -> (forall m s, store_ok sha256 s -> uses id fresh (next m s)) -> uses id fresh (Locked A change next)
| UsesPush path label command_id worker next :
    valid_opaque_id command_id = Ok tt -> path <> "" -> label <> "" /\ slen label <= MAX_WORKSPACE_LABEL_BYTES ->
    vendor_ok (lw_vendor_session_id worker) -> valid_token (lw_adapter_family worker) = Ok tt -> valid_token (lw_adapter_version worker) = Ok tt ->
    (forall m s, store_ok sha256 s -> uses id false (next m s)) ->
    uses id true (Locked A (fun m s => (push_record sha256 path label id command_id worker m s).1) next)
| UsesAsk fresh q k : (forall a, sensible q a -> uses id fresh (k a)) -> uses id fresh (Ask A q k).

Lemma uses_weaken {A} id (p : prog A) fresh : uses id false p -> uses id fresh p.
Proof.
  remember false as f eqn:Hf. induction 1 as [f a|f change next Hk Hn IH|path label c w next Hc Hp Hl Hv Hfam Hver Hn IH|f q k Hk IH]; subst; try done.
  - constructor.
  - constructor; auto.
  - constructor; auto.
Qed.

Lemma uses_bind {A B} id fresh (p : prog A) (k : A -> prog B) : uses id fresh p -> (forall a, uses id false (k a)) -> uses id fresh (p ≫= k).
Proof.
  intros Hp Hk. induction Hp as [f a|f change next Hc Hn IH|path label c w next Hc Hp Hl Hv Hfam Hver Hn IH|f q f' Hf IH]; cbn.
  - by apply uses_weaken.
  - by apply UsesLocked.
  - by apply UsesPush.
  - by apply UsesAsk.
Qed.

Lemma uses_ask_inv {A} id fresh (p : prog A) :
  uses id fresh p -> match p with Ask _ q k => forall a, sensible q a -> uses id fresh (k a) | _ => True end.
Proof. by intros []. Qed.

Lemma reading_uses {A} id fresh (f : ManagedMetadataStore -> A) : uses id fresh (reading f).
Proof. constructor; [intros m s Hok; by apply keeps_refl|constructor]. Qed.

Lemma ask_uses id fresh q : uses id fresh (ask q).
Proof. constructor. intros a _. constructor. Qed.

Lemma locked_uses {A} id fresh (f : Moment -> ManagedMetadataStore -> ManagedMetadataStore * A) : keeps (fun m s => (f m s).1) -> uses id fresh (locked f).
Proof. intros H. constructor; [exact H|constructor]. Qed.

Lemma persisted_uses id fresh : uses id fresh (persisted to_vec effective_uid).
Proof. apply locked_uses. intros m s Hok. by apply persist_keeps. Qed.

Lemma ret_uses {A} id fresh (a : A) : uses id fresh (mret a : prog A).
Proof. constructor. Qed.

Create HintDb uses.
#[local] Hint Resolve reading_uses ask_uses persisted_uses ret_uses uses_weaken : uses.

(** A program that only reads, waits and answers, or binds such. *)
Ltac uses_step :=
  match goal with
  | |- uses _ _ (mbind _ _) => apply uses_bind; [|intros ?]
  | |- uses _ _ (match ?x with _ => _ end) => destruct x eqn:?
  | |- uses _ _ ?p => match p with ask ?q => apply (ask_uses _ _ q) end
  | _ => solve [eauto with uses]
  end.
Ltac uses_auto := repeat uses_step.

Lemma refuse_uses id fresh command_id reason :
  valid_opaque_id command_id = Ok tt -> valid_token reason = Ok tt -> uses id fresh (refuse to_vec effective_uid command_id reason).
Proof.
  intros Hc Hr. unfold refuse. apply uses_bind; [|intros outcome; uses_auto]. apply locked_uses. intros m s Hok.
  apply push_outcome_keeps; [done|]. by apply refused_valid.
Qed.

Lemma refuse_token_uses id fresh command_id reason :
  valid_opaque_id command_id = Ok tt -> is_ok (valid_token reason) = true -> uses id fresh (refuse to_vec effective_uid command_id reason).
Proof. intros Hc Hr. apply refuse_uses; [done|]. by destruct (valid_token reason) as [[]|]. Qed.
#[local] Hint Extern 2 (uses _ _ (refuse _ _ _ _)) => apply refuse_token_uses; [assumption|vm_compute; reflexivity] : uses.

Lemma accepting_uses id fresh f : keeps (fun m s => (f m s).1) -> uses id fresh (accepting to_vec effective_uid f).
Proof. intros H. unfold accepting. apply uses_bind; [by apply locked_uses|intros; uses_auto]. Qed.

(** What was read is of a sound store. *)
Lemma uses_reading {A B} id fresh (f : ManagedMetadataStore -> A) (k : A -> prog B) :
  (forall s, store_ok sha256 s -> uses id fresh (k (f s))) -> uses id fresh (reading f ≫= k).
Proof. intros H. apply UsesLocked; [intros m s Hok; by apply keeps_refl|]. intros m s Hok. by apply H. Qed.

Lemma uses_ask {B} id fresh q (k : Answer q -> prog B) : (forall a, sensible q a -> uses id fresh (k a)) -> uses id fresh (ask q ≫= k).
Proof. intros H. apply UsesAsk. intros a Ha. by apply H. Qed.

Lemma record_ok_of s session_id r : store_ok sha256 s -> record session_id s = Some r -> record_ok sha256 s r /\ mr_session_id r = session_id.
Proof. intros [_ _ _ He _ _] [Hin Hid]%record_has_id. split; [|done]. rewrite Forall_forall in He. by apply He. Qed.

Lemma known_id s session_id r : store_ok sha256 s -> record session_id s = Some r -> valid_opaque_id session_id = Ok tt.
Proof. intros Hok Hr. destruct (record_ok_of _ _ _ Hok Hr) as [Hrec <-]. by destruct (record_ok_facts _ _ _ Hrec) as [[] _]. Qed.

(** A section that changes one record. *)
Lemma change_keeps session_id change s :
  store_ok sha256 s -> (forall r, mr_session_id (change r) = mr_session_id r) ->
  (forall r, record_ok sha256 s r -> kept r (change r) /\ record_ok sha256 s (change r)) ->
  keeps_store sha256 to_vec effective_uid s (record_mut session_id change s).
Proof. intros Hok Hid Hch. apply record_mut_keeps; [done|done|]. intros r Hr. apply Hch. by eapply record_ok_of. Qed.

Lemma change_accept_keeps command_id session_id generation change :
  valid_opaque_id command_id = Ok tt -> valid_opaque_id session_id = Ok tt ->
  (forall m s r, record_ok sha256 s r -> kept r (change m r) /\ record_ok sha256 s (change m r)) ->
  (forall m r, mr_session_id (change m r) = mr_session_id r) ->
  keeps (fun m s => (accept command_id (Some session_id) generation (record_mut session_id (change m) s)).1).
Proof.
  intros Hc Hs Hch Hid m s Hok. apply keeps_answer; [|done|by apply accepted_valid; [|intros ? [= <-]]].
  apply change_keeps; [done|by apply Hid|]. intros r. apply Hch.
Qed.

(** ** The programs *)

Lemma once_uses id fresh command_id operation : uses id fresh operation -> uses id fresh (once command_id operation).
Proof. intros H. unfold once. apply uses_reading. intros s _. destruct (answered command_id s); [constructor|done]. Qed.

Lemma uses_launch {B} id fresh spec label (k : result string LaunchedWorker -> prog B) :
  uses id fresh (k (Ok (mkLaunchedWorker (sp_resume_vendor_session spec) "Claude" PINNED_MANAGED_CLI_VERSION))) ->
  (forall reason, valid_token reason = Ok tt -> uses id fresh (k (Err reason))) -> uses id fresh (launch spec label ≫= k).
Proof. intros Hok Herr. apply UsesAsk. intros [[]|reason] Ha; [exact Hok|]. by apply Herr. Qed.

Lemma uses_push {B} id path label command_id resume (k : option LifecycleOutcome -> prog B) :
  valid_opaque_id command_id = Ok tt -> path <> "" -> label <> "" /\ slen label <= MAX_WORKSPACE_LABEL_BYTES -> vendor_ok resume ->
  (forall o, uses id false (k o)) ->
  uses id true (locked (push_record sha256 path label id command_id (mkLaunchedWorker resume "Claude" PINNED_MANAGED_CLI_VERSION)) ≫= k).
Proof. intros Hc Hp Hl Hv Hk. apply (UsesPush _ path label command_id); [done..|by vm_compute|by vm_compute|]. intros m s _. apply Hk. Qed.

Lemma uses_transcript {B} id fresh resume (k : option string * option string -> prog B) :
  (forall answer, uses id fresh (k answer)) -> uses id fresh (transcript_of resume ≫= k).
Proof. intros Hk. destruct resume as [v|]; [|apply Hk]. apply uses_ask. intros a _. apply Hk. Qed.

Lemma start_uses path label resume command_id before_spawn draw :
  valid_opaque_id command_id = Ok tt -> path <> "" -> label <> "" /\ slen label <= MAX_WORKSPACE_LABEL_BYTES -> vendor_ok resume ->
  uses (random_opaque_id draw) true (start_in_workspace_resuming sha256 to_vec effective_uid path label resume command_id before_spawn draw).
Proof.
  intros Hc Hp Hl Hv. unfold start_in_workspace_resuming. generalize (random_opaque_id draw) as id. intros id.
  assert (uses id true
    ('(permission_mode, model) ← transcript_of resume;
     launched ← launch (mkLaunchSpec id path resume permission_mode model) label;
     match launched with
     | Err reason => refuse to_vec effective_uid command_id reason
     | Ok worker =>
         outcome ← locked (push_record sha256 path label id command_id worker);
         match outcome with
         | None => refuse to_vec effective_uid command_id "record_limit"
         | Some outcome => _ ← persisted to_vec effective_uid; mret outcome
         end
     end)) as Hrest.
  { apply uses_transcript. intros [permission_mode model]. apply uses_launch; [|intros reason Hr; by apply refuse_uses].
    apply uses_push; [done..|]. intros o. uses_auto. }
  destruct before_spawn; [apply uses_ask; by intros|exact Hrest].
Qed.

Lemma uses_ret {A B} id fresh (a : A) (k : A -> prog B) : uses id fresh (k a) -> uses id fresh (mret a ≫= k).
Proof. done. Qed.

Lemma uses_ask_then {A B} id fresh q (f : Answer q -> prog A) (k : A -> prog B) :
  (forall a, sensible q a -> uses id fresh (f a ≫= k)) -> uses id fresh ((ask q ≫= f) ≫= k).
Proof. intros H. apply UsesAsk. intros a Ha. by apply H. Qed.

Lemma uses_reading_then {A B C} id fresh (f : ManagedMetadataStore -> A) (g : A -> prog B) (k : B -> prog C) :
  (forall s, store_ok sha256 s -> uses id fresh (g (f s) ≫= k)) -> uses id fresh ((reading f ≫= g) ≫= k).
Proof. intros H. apply UsesLocked; [intros m s Hok; by apply keeps_refl|]. intros m s Hok. by apply H. Qed.

Lemma discovered_path workspace_id scan s path label :
  (forall found, scan = Some found -> Forall (fun path => path <> "") (wsc_paths found)) ->
  discovered_workspace sha256 workspace_id (default WorkspaceScan_default scan) s = Some (path, label) -> path <> "" /\ label = workspace_label path.
Proof.
  intros Hscan Hd. unfold discovered_workspace in Hd. destruct (List.find _ (wsc_paths _)) as [path'|] eqn:Hf; [|done]. injection Hd as -> <-.
  split; [|done]. apply find_some_elem in Hf as [Hin _]. destruct scan as [scan|]; [|by apply not_elem_of_nil in Hin].
  specialize (Hscan scan eq_refl). rewrite Forall_forall in Hscan. by apply Hscan.
Qed.

Lemma managed_start_uses workspace_id command_id draw :
  valid_opaque_id command_id = Ok tt -> uses (random_opaque_id draw) true (managed_start sha256 to_vec effective_uid workspace_id command_id draw).
Proof.
  intros Hc. unfold managed_start. apply once_uses, uses_reading. intros s Hok. destruct (known_workspace workspace_id s) as [[path label]|] eqn:Hk.
  - unfold known_workspace in Hk. destruct (List.find _ (mg_records s)) as [r|] eqn:Hf; [|done]. injection Hk as <- <-.
    apply find_some_elem in Hf as [Hin _]. destruct Hok as [_ _ _ He _ _]. rewrite Forall_forall in He.
    destruct (record_ok_facts _ _ _ (He r Hin)) as [[] _]. by apply uses_ret, start_uses.
  - apply uses_ask_then. intros scan Hscan. apply uses_reading. intros s' _.
    destruct (discovered_workspace _ _ _ _) as [[path label]|] eqn:Hd; [|by apply refuse_token_uses].
    destruct (discovered_path _ _ _ _ _ Hscan Hd) as [Hp ->]. by apply start_uses; [..|apply workspace_label_ok|].
Qed.

Lemma placed_uses {B} id fresh path (k : bool -> prog B) :
  uses id fresh (k false) -> (path <> "" -> uses id fresh (k true)) -> uses id fresh (placed path ≫= k).
Proof.
  intros Hf Ht. unfold placed. destruct (starts_with path "/") eqn:Hp; [|done]. apply uses_ask. intros [|] _; [|done]. apply Ht. by intros ->.
Qed.

Lemma contended_uses {B} id fresh target (k : option string -> prog B) :
  (forall holder, match holder with Some reason => is_ok (valid_token reason) = true | None => True end -> uses id fresh (k holder)) ->
  uses id fresh (contended target ≫= k).
Proof.
  intros Hk. unfold contended. destruct (pt_vendor_session_id target) as [v|]; [|by apply Hk].
  apply uses_reading_then. intros s _. destruct (live_elsewhere v s); [apply uses_ret, Hk; by vm_compute|].
  apply uses_ask_then. intros [|] _; apply uses_ret, Hk; by vm_compute.
Qed.

Lemma managed_promote_uses target command_id draw :
  valid_opaque_id command_id = Ok tt -> target_ok target -> uses (random_opaque_id draw) true (managed_promote sha256 to_vec effective_uid target command_id draw).
Proof.
  intros Hc Ht. unfold managed_promote. apply once_uses, placed_uses; [by apply refuse_token_uses|]. intros Hp. cbn [negb]. apply contended_uses.
  intros [reason|] Hr; [by apply refuse_token_uses|]. apply start_uses; [done|done|apply workspace_label_ok|done].
Qed.

Lemma managed_release_uses id fresh session_id command_id :
  valid_opaque_id command_id = Ok tt -> uses id fresh (managed_release to_vec effective_uid session_id command_id).
Proof.
  intros Hc. unfold managed_release. apply uses_reading. intros s0 _. destruct (answered command_id s0); [uses_auto|].
  apply uses_reading. intros s Hok. destruct (record session_id s) as [r|] eqn:Hr; [|uses_auto].
  pose proof (known_id _ _ _ Hok Hr) as Hid. destruct (mr_vendor_session_id r) as [vendor|]; [|uses_auto].
  apply uses_ask. intros [|] _; cbn [negb]; [|uses_auto]. apply uses_bind; [uses_auto|intros _].
  apply uses_bind; [destruct (handback_session_name _ _); uses_auto|intros route].
  apply uses_bind; [|intros; uses_auto]. apply accepting_uses, change_accept_keeps; try done. intros; by apply released_ok.
Qed.

Lemma managed_forget_uses id fresh session_id command_id :
  valid_opaque_id command_id = Ok tt -> uses id fresh (managed_forget to_vec effective_uid session_id command_id).
Proof.
  intros Hc. unfold managed_forget. apply once_uses, accepting_uses. intros m s Hok. destruct (record session_id s) as [r|] eqn:Hr.
  - destruct (is_live r) eqn:Hl; [apply push_outcome_keeps; [done|]; apply refused_valid; [done|by vm_compute]|].
    apply keeps_answer; [by eapply forget_keeps|done|]. apply accepted_valid; [done|]. intros x [= <-]. by eapply known_id.
  - apply push_outcome_keeps; [done|]. apply refused_valid; [done|by vm_compute].
Qed.

Lemma managed_stop_uses id fresh session_id generation command_id :
  valid_opaque_id command_id = Ok tt -> uses id fresh (managed_stop to_vec effective_uid session_id generation command_id).
Proof.
  intros Hc. unfold managed_stop. apply once_uses, uses_reading. intros s Hok. destruct (record session_id s) as [r|] eqn:Hr; [|uses_auto].
  pose proof (known_id _ _ _ Hok Hr) as Hid. destruct (negb (is_live r)); [uses_auto|]. destruct (negb _); [uses_auto|].
  apply uses_bind; [uses_auto|intros _]. apply accepting_uses, (change_accept_keeps command_id session_id None (fun m => stopped (mo_now m) "stopped")); try done.
  intros m s' r' Hr'. apply stopped_ok; [done|by vm_compute].
Qed.

Lemma managed_resume_uses id fresh session_id command_id :
  valid_opaque_id command_id = Ok tt -> uses id fresh (managed_resume to_vec effective_uid session_id command_id).
Proof.
  intros Hc. unfold managed_resume. apply once_uses, uses_reading. intros s Hok. destruct (record session_id s) as [r|] eqn:Hr; [|uses_auto].
  pose proof (known_id _ _ _ Hok Hr) as Hid. destruct (is_live r); [uses_auto|]. destruct (_ && _); [uses_auto|].
  apply uses_bind; [destruct (if bool_decide _ then _ else _); uses_auto|intros _].
  apply uses_bind; [destruct (mr_vendor_session_id r); uses_auto|intros [|]]; [uses_auto|].
  apply uses_transcript. intros [mode model]. apply uses_launch; [|intros reason Hreason; by apply refuse_uses].
  apply accepting_uses, (change_accept_keeps command_id session_id _ (fun m => resumed (mo_now m) (sat_add64 (mr_process_generation r) 1))); try done.
  intros m s' r' Hr'. apply resumed_ok; [done|]. unfold sat_add64, u64_max. lia.
Qed.

Lemma record_vendor_session_uses id fresh session_id vendor :
  vendor_ok (Some vendor) -> uses id fresh (record_vendor_session to_vec effective_uid session_id vendor).
Proof.
  intros Hv. unfold record_vendor_session. apply uses_bind; [|intros [|]; uses_auto]. apply locked_uses. intros m s Hok.
  destruct (record session_id s) as [r|]; [|by apply keeps_refl]. case_bool_decide; [by apply keeps_refl|].
  apply (change_keeps session_id (with_vendor (mo_now m) vendor)); [done|done|]. intros x Hx. by apply with_vendor_ok.
Qed.

Lemma record_worker_exit_uses id fresh session_id crashed : uses id fresh (record_worker_exit to_vec effective_uid session_id crashed).
Proof.
  unfold record_worker_exit. apply uses_bind; [|intros; uses_auto]. apply locked_uses. intros m s Hok.
  destruct (record session_id s) as [r|]; [|by apply keeps_refl]. destruct (is_live r); [|by apply keeps_refl].
  apply (change_keeps session_id (stopped (mo_now m) _)); [done|done|]. intros x Hx. apply stopped_ok; [done|]. by destruct crashed; vm_compute.
Qed.

Lemma mark_externally_owned_uses id fresh session_id : uses id fresh (mark_externally_owned to_vec effective_uid session_id).
Proof.
  unfold mark_externally_owned. apply uses_bind; [|intros; uses_auto]. apply locked_uses. intros m s Hok.
  destruct (record session_id s) as [r|]; [|by apply keeps_refl]. destruct (is_stored r); [|by apply keeps_refl].
  apply (change_keeps session_id (marked_external (mo_now m))); [done|done|]. intros x. by apply marked_external_ok.
Qed.

Lemma each_of_uses {A} id (f : A -> prog unit) l : (forall x, uses id false (f x)) -> uses id false (each_of f l).
Proof. intros Hf. induction l as [|x l IH]; cbn [each_of]; [constructor|]. apply uses_bind; [apply Hf|by intros]. Qed.

Lemma foreign_among_uses id live : uses id false (foreign_among live).
Proof. induction live as [|[session_id vendor] live IH]; cbn [foreign_among]; uses_auto. Qed.

Lemma sweep_uses id reaped : uses id false (sweep_workers to_vec effective_uid reaped).
Proof.
  unfold sweep_workers. apply uses_bind; [apply each_of_uses; intros []; apply record_worker_exit_uses|intros _].
  apply uses_bind; [unfold foreign_owned_live_sessions; apply uses_reading; intros; apply foreign_among_uses|intros found].
  apply each_of_uses. intros session_id. apply uses_bind; [uses_auto|intros _].
  apply uses_bind; [apply record_worker_exit_uses|intros _]. apply mark_externally_owned_uses.
Qed.

Lemma takeover_uses target command_id draw :
  valid_opaque_id command_id = Ok tt -> (forall t, target = Ok t -> target_ok t) ->
  uses (random_opaque_id draw) true (promote_request sha256 to_vec effective_uid target command_id draw).
Proof.
  intros Hc Ht. unfold promote_request. destruct target as [t|]; [|constructor].
  assert (forall k : option string -> prog LifecycleOutcome, uses (random_opaque_id draw) true (k None) -> (forall reason, uses (random_opaque_id draw) true (k (Some reason))) ->
    uses (random_opaque_id draw) true (promotion_preflight t ≫= k)) as Hpre.
  { intros k Hnone Hsome. unfold promotion_preflight, placed. destruct (starts_with _ _); [|apply Hsome]. apply uses_ask_then. intros [|] _; [|apply Hsome].
    apply contended_uses. intros [reason|] _; auto. }
  apply Hpre; [|intros; constructor]. apply uses_ask. intros [|] _; [|constructor]. by apply managed_promote_uses; [|apply Ht].
Qed.

Lemma program_uses op draw : operation_ok op -> uses (random_opaque_id draw) true (program op draw).
Proof.
  intros [Hc Ht]. destruct op; cbn [program command_of] in *.
  - by apply managed_start_uses.
  - unfold managed_start_at_path. apply once_uses, placed_uses; [by apply refuse_token_uses|]. intros Hp. by apply start_uses; [..|apply workspace_label_ok|].
  - by apply managed_promote_uses.
  - unfold release_request. apply uses_bind; [by apply managed_release_uses|]. intros []. constructor.
  - by apply managed_forget_uses.
  - by apply managed_stop_uses.
  - by apply managed_resume_uses.
Qed.

Lemma task_uses t draw : task_ok t -> uses (random_opaque_id draw) true (task_program t draw).
Proof.
  destruct t as [op|target c|session_id v|reaped|resumable]; cbn [task_ok task_program].
  - intros H. apply uses_bind; [by apply program_uses|constructor].
  - intros [Hc Ht]. apply uses_bind; [by apply takeover_uses|constructor].
  - intros Hv. by apply record_vendor_session_uses.
  - intros _. apply uses_weaken, sweep_uses.
  - intros _. apply uses_weaken, each_of_uses. intros [session_id d]. apply uses_bind; [|constructor]. apply managed_resume_uses, format_u128_valid.
Qed.

(** ** Interleavings *)

(** The store, the workers the launcher runs, the programs under way with the id each may give a session, and
    all ids drawn. *)
Record World := mkWorld {
  wd_store : ManagedMetadataStore; wd_workers : gset string; wd_tasks : list (string * prog unit); wd_drawn : gset string }.

(** What an answer does to the workers. *)
Definition worked (q : Query) : Answer q -> gset string -> gset string :=
  match q with
  | SpawnWorker spec _ => fun r workers => match r with Ok _ => {[sp_session_id spec]} ∪ workers | Err _ => workers end
  | StopWorker session_id => fun _ workers => workers ∖ {[session_id]}
  | _ => fun _ workers => workers
  end.

Inductive world_step : World -> World -> Prop :=
| StepArrives t draw w :
    task_ok t -> random_opaque_id draw ∉ wd_drawn w ->
    world_step w (mkWorld (wd_store w) (wd_workers w) (wd_tasks w ++ [(random_opaque_id draw, task_program t draw)])%list
                    ({[random_opaque_id draw]} ∪ wd_drawn w))
| StepSection i id change next m w :
    wd_tasks w !! i = Some (id, Locked unit change next) ->
    world_step w (mkWorld (change m (wd_store w)) (wd_workers w) (<[i := (id, next m (wd_store w))]> (wd_tasks w)) (wd_drawn w))
| StepWaited i id q k a w :
    wd_tasks w !! i = Some (id, Ask unit q k) -> sensible q a ->
    world_step w (mkWorld (wd_store w) (worked q a (wd_workers w)) (<[i := (id, k a)]> (wd_tasks w)) (wd_drawn w))
| StepWorkerExits session_id w :
    world_step w (mkWorld (wd_store w) (wd_workers w ∖ {[session_id]}) (wd_tasks w) (wd_drawn w)).

(** The daemon dies, and another starts on what is on disk. *)
Inductive restart : World -> World -> Prop :=
| Restarts at_load at_store fresh_key d w :
    length fresh_key = 32%nat -> Forall (fun b => b < 256) fresh_key ->
    directory_load to_vec from_slice effective_uid at_load at_store fresh_key (mg_disk (wd_store w)) = Ok d ->
    restart w (mkWorld (dy_store d) ∅ [] (wd_drawn w)).

Definition moves (w w' : World) : Prop := world_step w w' \/ restart w w'.

Definition world_start (key : list N) (disk : Disk) : World := mkWorld (mkManagedMetadataStore key [] [] disk) ∅ [] ∅.

Record world_ok (w : World) : Prop := {
  wo_store : store_ok sha256 (wd_store w);
  wo_ids : forall id, id ∈ ids (wd_store w) -> id ∈ wd_drawn w;
  wo_disk : mg_disk (wd_store w) = NotFound \/ exists s, store_ok sha256 s /\ (forall id, id ∈ ids s -> id ∈ wd_drawn w)
              /\ written to_vec effective_uid s (mg_disk (wd_store w));
  wo_distinct : NoDup (fst <$> wd_tasks w);
  wo_tasks : Forall (fun t => t.1 ∈ wd_drawn w /\ valid_opaque_id t.1 = Ok tt /\ exists fresh, uses t.1 fresh t.2 /\ (fresh = true -> t.1 ∉ ids (wd_store w))) (wd_tasks w)
}.

Lemma tasks_insert i id p p' (tasks : list (string * prog unit)) :
  tasks !! i = Some (id, p) -> fst <$> <[i := (id, p')]> tasks = fst <$> tasks.
Proof.
  intros Hi. rewrite list_fmap_insert. apply list_insert_id. rewrite list_lookup_fmap, Hi. done.
Qed.

(** A section of the task [i] that leaves the other tasks' ids alone. *)
Lemma section_ok w i id (change : ManagedMetadataStore) p p' fresh' :
  world_ok w -> wd_tasks w !! i = Some (id, p) -> store_ok sha256 change -> (forall x, x ∈ ids change -> x ∈ ids (wd_store w) \/ x = id) ->
  (mg_disk change = mg_disk (wd_store w) \/ written to_vec effective_uid (wd_store w) (mg_disk change)) ->
  uses id fresh' p' -> (fresh' = true -> id ∉ ids change) -> world_ok (mkWorld change (wd_workers w) (<[i := (id, p')]> (wd_tasks w)) (wd_drawn w)).
Proof.
  intros [Hs Hids Hdisk Hdist Htasks] Hi Hok Hadded Hd Huse Hfresh.
  assert (id ∈ wd_drawn w /\ valid_opaque_id id = Ok tt) as [Hdrawn Hvalid] by (rewrite Forall_lookup in Htasks; by destruct (Htasks i _ Hi) as (? & ? & _)).
  split; cbn.
  - done.
  - intros x [?| ->]%Hadded; auto.
  - destruct Hd as [->|Hd]; [done|]. right. by exists (wd_store w).
  - by rewrite (tasks_insert _ _ _ _ _ Hi).
  - apply Forall_lookup. intros j t Hj. apply list_lookup_insert_Some in Hj as [(<- & <- & _)|(Hne & Hj)].
    + split; [done|]. split; [done|]. by exists fresh'.
    + rewrite Forall_lookup in Htasks. destruct (Htasks j t Hj) as (Hin & Hval & fresh & Hu & Hf). split; [done|]. split; [done|]. exists fresh. split; [done|].
      intros Hfr [?|Heq]%Hadded; [by apply Hf|]. apply Hne. eapply NoDup_lookup; [exact Hdist| |]; rewrite list_lookup_fmap; [by rewrite Hi|].
      rewrite Hj. cbn. by rewrite Heq.
Qed.

Lemma step_ok w w' : world_step w w' -> world_ok w -> world_ok w' /\ forall id, evolves (record id (wd_store w)) (record id (wd_store w')).
Proof.
  intros Hstep Hok. pose proof Hok as [Hs Hids Hdisk Hdist Htasks]. destruct Hstep as [t draw w Ht Hnew|i id change next m w Hi|i id q k a w Hi Ha|session_id w].
  - split; [|intros; apply evolves_refl]. split; cbn; [done| | | |].
    + intros id Hin. apply elem_of_union. right. auto.
    + destruct Hdisk as [?|(s & ? & Hin & ?)]; [by left|]. right. exists s. split_and!; [done| |done]. intros id Hid. apply elem_of_union. right. auto.
    + rewrite fmap_app. apply NoDup_app. split_and!; [done| |apply NoDup_singleton]. intros x (y & -> & Hy)%list_elem_of_fmap Heq%list_elem_of_singleton.
      rewrite Forall_forall in Htasks. destruct (Htasks y Hy) as [Hin _]. by rewrite Heq in Hin.
    + apply Forall_app. split; [|constructor; [|constructor]].
      * eapply Forall_impl; [exact Htasks|]. intros x [Hin H]. split; [|done]. apply elem_of_union. by right.
      * split; [apply elem_of_union; left; by apply elem_of_singleton|]. split; [apply format_u128_valid|].
        exists true. split; [by apply task_uses|]. intros _ Hin. apply Hnew. auto.
  - rewrite Forall_lookup in Htasks. destruct (Htasks i _ Hi) as (_ & Hvalid & fresh & Huse & Hfresh). cbn [fst snd] in Huse, Hfresh, Hvalid. cbn [wd_store].
    inversion Huse as [|? ? ? Hk Hnext|path label c worker ? Hc Hp Hl Hv Hfam Hver Hnext|]; subst.
    + destruct (Hk m _ Hs) as [Hok' Hkey Hsub Hrc Hev Hd]. split; [|done]. eapply section_ok; [done|exact Hi|done|auto|done|by apply Hnext|].
      intros Hf Hin. by apply Hfresh; [|apply Hsub].
    + destruct (push_record_cases sha256 to_vec effective_uid sha256_law path label id c worker m (wd_store w)) as (Hok' & _ & Hd & _ & Hcase); try done; [by apply Hfresh|].
      split.
      * eapply section_ok; [done|exact Hi|done| |by left|by apply Hnext|done].
        destruct Hcase as [->|[-> _]]; [auto|]. intros x [?| ->%list_elem_of_singleton]%elem_of_app; auto.
      * destruct Hcase as [->|[_ Hev]]; [intros; apply evolves_refl|done].
  - split; [|intros; apply evolves_refl]. rewrite Forall_lookup in Htasks. destruct (Htasks i _ Hi) as (_ & _ & fresh & Huse & Hfresh). cbn [fst snd] in Huse, Hfresh.
    pose proof (uses_ask_inv _ _ _ Huse) as Hk. cbn in Hk.
    destruct (section_ok w i id (wd_store w) _ (k a) fresh Hok Hi Hs) as [H1 H2 H3 H4 H5]; [auto|by left|by apply Hk|done|]. by split.
  - split; [|intros; apply evolves_refl]. by split.
Qed.

Lemma restarted_ok now s r : record_ok sha256 s r -> record_ok sha256 s (restarted now r) /\ mr_session_id (restarted now r) = mr_session_id r.
Proof.
  intros Hok. unfold restarted. destruct (is_live r) eqn:Hl; [|done]. split; [|done]. destruct Hok as [Hv Hr Hw Hlive Hs].
  destruct (Hlive Hl) as (Hreason & Hext & Hhand). split; try done. apply record_valid_iff in Hv as (Hio & Hg & Hrev & _ & _). apply record_valid_iff.
  split; [by destruct Hio|]. split; [done|]. split; [done|]. split; [by right|]. intros reason [= <-]. by vm_compute.
Qed.

(** What a start makes of the store it loaded. *)
Definition after_restart (now : N) (s : ManagedMetadataStore) : ManagedMetadataStore := set_records (restarted now <$> mg_records s) s.

Lemma after_restart_ok now s : store_ok sha256 s -> store_ok sha256 (after_restart now s) /\ ids (after_restart now s) = ids s.
Proof.
  intros [Hk Hi Hr He Hl Ho].
  assert (ids (after_restart now s) = ids s) as Hids.
  { unfold ids, after_restart. cbn [mg_records set_records]. rewrite <- list_fmap_compose. apply list_fmap_ext. intros j r Hj. cbn.
    rewrite Forall_lookup in He. by destruct (restarted_ok now s r (He j r Hj)). }
  split; [|done]. split; [done|by rewrite Hids| | |done|done].
  - unfold len, after_restart. cbn. by rewrite length_fmap.
  - unfold after_restart. cbn. apply Forall_fmap. eapply Forall_impl; [exact He|]. intros r Hrec. cbn. eapply record_ok_key; [|by apply restarted_ok]. done.
Qed.

Lemma none_live now s : Forall (fun r => is_live r = false) (mg_records (after_restart now s)).
Proof.
  unfold after_restart. cbn. apply Forall_fmap, Forall_forall. intros r _. cbn. unfold restarted. destruct (is_live r) eqn:Hl; [done|exact Hl].
Qed.

Lemma nothing_live now s : List.filter is_live (mg_records s) = [] -> after_restart now s = s.
Proof.
  intros Hf. unfold after_restart, set_records. assert (restarted now <$> mg_records s = mg_records s) as ->; [|by destruct s].
  revert Hf. induction (mg_records s) as [|r l IH]; [done|]. cbn [List.filter]. destruct (is_live r) eqn:Hl; [done|]. intros H.
  rewrite fmap_cons, IH by done. unfold restarted. by rewrite Hl.
Qed.

(** A start, by the store it loaded. *)
Lemma directory_load_cases at_load at_store fresh_key disk d :
  length fresh_key = 32%nat -> Forall (fun b => b < 256) fresh_key -> disk_ok sha256 to_vec effective_uid disk ->
  directory_load to_vec from_slice effective_uid at_load at_store fresh_key disk = Ok d ->
  exists s disk', load to_vec from_slice effective_uid (mo_failed_at at_load) fresh_key disk = Ok s /\ store_ok sha256 s
    /\ dy_store d = mkManagedMetadataStore (mg_key s) (mg_records (after_restart (mo_now at_store) s)) (mg_lifecycle s) disk'
    /\ written to_vec effective_uid (dy_store d) disk' /\ dy_restart_resumable d = mr_session_id <$> List.filter is_live (mg_records s).
Proof.
  intros Hkl Hkb Hd. unfold directory_load. destruct (load _ _ _ _ _ _) as [s|] eqn:Hload; [|done]. cbn [rbind].
  destruct (load_ok _ _ _ _ json_law _ _ _ _ Hkl Hkb Hd Hload) as (Hok & Hw & _). case_bool_decide as Hnone.
  - intros [= <-]. exists s, (mg_disk s). cbn. apply fmap_nil_inv in Hnone. pose proof (nothing_live (mo_now at_store) s Hnone) as Hsame.
    change (set_records (restarted (mo_now at_store) <$> mg_records s) s) with (after_restart (mo_now at_store) s). rewrite Hsame.
    split_and!; [done|done|by destruct s|done|done].
  - change (set_records (restarted (mo_now at_store) <$> mg_records s) s) with (after_restart (mo_now at_store) s).
    destruct (persist _ _ _ _) as [store r] eqn:Hp. destruct r as [[]|]; [|done]. cbn. intros [= <-].
    apply persist_written in Hp as (disk' & -> & Hw'). exists s, disk'. cbn. by split_and!.
Qed.

Lemma restart_ok w w' : restart w w' -> world_ok w -> world_ok w' /\ Forall (fun r => is_live r = false) (mg_records (wd_store w')).
Proof.
  intros [at_load at_store fresh_key d w0 Hkl Hkb Hload] [Hs Hids Hdisk Hdist Htasks].
  assert (disk_ok sha256 to_vec effective_uid (mg_disk (wd_store w0))) as Hd by (destruct Hdisk as [?|(s & ? & _ & ?)]; [by left|right; by exists s]).
  destruct (directory_load_cases _ _ _ _ _ Hkl Hkb Hd Hload) as (s & disk' & Hl & Hok & Heq & Hw & _).
  destruct (load_ok _ _ _ _ json_law _ _ _ _ Hkl Hkb Hd Hl) as (_ & _ & Hfrom).
  destruct (after_restart_ok (mo_now at_store) s Hok) as [Hok' Hids'].
  assert (store_ok sha256 (dy_store d)) as Hokd.
  { rewrite Heq. destruct Hok' as [? ? ? He ? ?]. split; try done. eapply Forall_impl; [exact He|]. intros x. by apply record_ok_key. }
  assert (forall id, id ∈ ids (dy_store d) -> id ∈ wd_drawn w0) as Hin.
  { intros id Hid. rewrite Heq in Hid. change (id ∈ ids (after_restart (mo_now at_store) s)) in Hid. rewrite Hids' in Hid.
    destruct Hfrom as [[_ Hnil]|(s0 & Hok0 & Hw0 & Hrec)]; [unfold ids in Hid; rewrite Hnil in Hid; by apply not_elem_of_nil in Hid|].
    destruct Hdisk as [Hnone|(s1 & Hok1 & Hids1 & Hw1)]; [destruct Hw0 as (e & _ & He); by rewrite Hnone in He|].
    pose proof (file_loads _ _ _ _ json_law _ _ _ _ _ Hok1 Hw1 Hl) as ->. apply Hids1. exact Hid. }
  cbn. split; [|rewrite Heq; apply none_live]. split; cbn; [done|done| |constructor|constructor].
  right. exists (dy_store d). split_and!; [done|done|]. rewrite Heq. rewrite Heq in Hw. exact Hw.
Qed.

Lemma worlds_ok key w :
  length key = 32%nat -> Forall (fun b => b < 256) key -> rtc moves (world_start key NotFound) w -> world_ok w.
Proof.
  intros Hkl Hkb H. remember (world_start key NotFound) as start eqn:Hs. assert (world_ok start) as Hok.
  { subst start. split; cbn; [by apply empty_store_ok|by intros id ?%not_elem_of_nil|by left|constructor|constructor]. }
  clear Hs. induction H as [|w1 w2 w3 [Hstep|Hstep] Hsteps IH]; [done| |]; apply IH.
  - by apply (step_ok _ _ Hstep).
  - by apply (restart_ok _ _ Hstep).
Qed.

Lemma record_ids id s : is_some (record id s) = true <-> id ∈ ids s.
Proof.
  split.
  - destruct (record id s) as [r|] eqn:Hr; [|done]. intros _. apply record_has_id in Hr as [Hin <-]. by apply list_elem_of_fmap_2.
  - intros (r & -> & Hin)%list_elem_of_fmap. destruct (record (mr_session_id r) s) eqn:Hr; [done|]. unfold record in Hr. rewrite find_none_forall in Hr.
    rewrite Forall_forall in Hr. specialize (Hr r Hin). unfold has_id in Hr. by rewrite String.eqb_refl in Hr.
Qed.

(** A session that a step adds has the id of a task under way. *)
Lemma newcomer w w' id :
  world_ok w -> world_step w w' -> record id (wd_store w) = None -> is_some (record id (wd_store w')) = true -> id ∈ fst <$> wd_tasks w.
Proof.
  intros [Hs _ _ _ Htasks] Hstep Hnone Hsome. destruct Hstep as [t draw w Ht Hnew|i id' change next m w Hi|i id' q k a w Hi Ha|session_id w];
    cbn [wd_store] in Hsome; try by rewrite Hnone in Hsome.
  rewrite Forall_lookup in Htasks. destruct (Htasks i _ Hi) as (_ & Hvalid & fresh & Huse & Hfresh). cbn [fst snd] in Huse, Hfresh, Hvalid.
  assert (id ∉ ids (wd_store w)) as Hout by (intros H%record_ids; by rewrite Hnone in H). apply record_ids in Hsome.
  inversion Huse as [|? ? ? Hk Hnext|path label c worker ? Hc Hp Hl Hv Hfam Hver Hnext|]; subst.
  - destruct Hout. by apply (Hk m _ Hs).
  - destruct (push_record_cases sha256 to_vec effective_uid sha256_law path label id' c worker m (wd_store w)) as (_ & _ & _ & _ & Hcase); try done; [by apply Hfresh|].
    destruct Hcase as [Heq|[Heq _]]; rewrite Heq in Hsome; [done|]. apply elem_of_app in Hsome as [?| ->%list_elem_of_singleton]; [done|].
    apply list_elem_of_fmap. exists (id', Locked unit (fun m s => (push_record sha256 path label id' c worker m s).1) next). split; [done|]. by eapply list_elem_of_lookup_2.
Qed.

(** C13: the lifecycle of managed sessions: however operations, takeovers, workers' reports and sweeps are
    interleaved at their waits, with writes that fail and restarts, the store stays sound, ids distinct and
    within its bounds, and each record tells one story, what is live being neither stopped nor handed
    anywhere; and every step moves each session along its lifecycle: it starts live, at generation one, under
    an id never used; it keeps its conversation's place and its revision does not go back; a live one is never
    forgotten; and after a restart none is live. *)
Theorem sessions_evolve key w w' :
  length key = 32%nat -> Forall (fun b => b < 256) key -> rtc moves (world_start key NotFound) w ->
  store_ok sha256 (wd_store w)
  /\ (world_step w w' -> forall id, evolves (record id (wd_store w)) (record id (wd_store w'))
       /\ (record id (wd_store w) = None -> is_some (record id (wd_store w')) = true -> id ∈ fst <$> wd_tasks w))
  /\ (restart w w' -> Forall (fun r => is_live r = false) (mg_records (wd_store w')) /\ wd_tasks w' = []).
Proof.
  intros Hkl Hkb Hsteps. pose proof (worlds_ok _ _ Hkl Hkb Hsteps) as Hok. split; [apply Hok|]. split.
  - intros Hstep id. split; [by apply (step_ok _ _ Hstep)|]. by apply newcomer.
  - intros Hre. split; [by apply (restart_ok _ _ Hre)|]. by destruct Hre.
Qed.

(** ** Restarts *)

(** C16: a restart keeps what there was: where the store was written, the next daemon has the same sessions and
    the same receipts; those that were live are stored, for the reason of the restart, and are exactly the ones
    it owes back, once; a session someone stopped or released stays as it was. *)
Theorem restart_keeps_sessions key w at_load at_store fresh_key encoded encoded' :
  length key = 32%nat -> Forall (fun b => b < 256) key -> rtc moves (world_start key NotFound) w ->
  to_vec (file_of (wd_store w)) = Some encoded -> mg_disk (wd_store w) = private_file effective_uid encoded ->
  0 < len encoded <= MAX_MANAGED_METADATA_FILE_BYTES -> mo_failed_at at_load = None -> mo_failed_at at_store = None ->
  to_vec (file_of (after_restart (mo_now at_store) (wd_store w))) = Some encoded' ->
  exists d, directory_load to_vec from_slice effective_uid at_load at_store fresh_key (mg_disk (wd_store w)) = Ok d
    /\ mg_records (dy_store d) = restarted (mo_now at_store) <$> mg_records (wd_store w)
    /\ mg_lifecycle (dy_store d) = mg_lifecycle (wd_store w) /\ mg_key (dy_store d) = mg_key (wd_store w)
    /\ (take_restart_resumable d).2 = mr_session_id <$> List.filter is_live (mg_records (wd_store w))
    /\ (take_restart_resumable (take_restart_resumable d).1).2 = [].
Proof.
  intros Hkl Hkb Hsteps Henc Hdisk Hlen Hl Hs Henc'.
  pose proof (worlds_ok _ _ Hkl Hkb Hsteps) as [Hok _ _ _ _].
  destruct (file_loads_ok sha256 to_vec from_slice effective_uid json_law fresh_key (wd_store w) encoded Hok Henc Hlen) as [s Hload].
  assert (written to_vec effective_uid (wd_store w) (private_file effective_uid encoded)) as Hw by (by exists encoded).
  pose proof (file_loads sha256 to_vec from_slice effective_uid json_law None fresh_key _ _ _ Hok Hw Hload) as Heq.
  rewrite Hdisk. unfold directory_load. rewrite Hl, Hload. cbn [rbind]. subst s. cbn [mg_records set_records].
  case_bool_decide as Hnone.
  - eexists. split; [reflexivity|]. by cbn.
  - unfold persist. rewrite Hs. change (to_vec (file_of (set_records _ _))) with (to_vec (file_of (after_restart (mo_now at_store) (wd_store w)))). rewrite Henc'.
    cbn. eexists. split; [reflexivity|]. by cbn.
Qed.
End runs.
