(* ===== verification/ManagedSpec.v ===== *)
(** What the operations on managed sessions promise: the life of a session as an abstract machine, one answer
    per command. *)
From S2P Require Import Prelude Text Metadata PrivateFile UploadNames Downloads Protocol LiveActivity Queries WorkspaceScan Managed ManagedStore ManagedRuns.

Local Open Scope string_scope.
Local Open Scope N_scope.

(** ** The abstract machine *)

(** Where a session is in its life. *)
Inductive Phase := Live (generation : N) | Stored (reason : string) (surrendered : bool) (generation : N).

#[export] Instance Phase_eq_dec : EqDecision Phase.
Proof. solve_decision. Defined.

Definition phase_of (r : ManagedRecord) : Phase :=
  if is_live r then Live (mr_process_generation r)
  else Stored (default "" (mr_stored_reason r)) (mr_externally_owned r) (mr_process_generation r).

Definition phase (session_id : string) (s : ManagedMetadataStore) : option Phase := phase_of <$> record session_id s.

(** What becomes of a session, and what the operation answers: the generation it names, if any, or a refusal. *)
Abbreviation verdict := (option Phase * result string (option N))%type.

Definition forget_spec (before : option Phase) : verdict :=
  match before with
  | None => (None, Err "unknown_session")
  | Some (Live g) => (Some (Live g), Err "already_live")
  | Some (Stored _ _ _) => (None, Ok None)
  end.

Definition stop_spec (expected_generation : N) (before : option Phase) : verdict :=
  match before with
  | None => (None, Err "unknown_session")
  | Some (Stored r x g) => (Some (Stored r x g), Err "already_stored")
  | Some (Live g) => if g =? expected_generation then (Some (Stored "stopped" false g), Ok None) else (Some (Live g), Err "stale_generation")
  end.

Definition resume_spec (foreign : bool) (launched : result string unit) (before : option Phase) : verdict :=
  match before with
  | None => (None, Err "unknown_session")
  | Some (Live g) => (Some (Live g), Err "already_live")
  | Some (Stored r x g) =>
      if x && negb (r =s? "released") then (before, Err "externally_owned")
      else if foreign then (before, Err "foreign_owner_live")
      else match launched with
           | Err reason => (before, Err reason)
           | Ok _ => (Some (Live (sat_add64 g 1)), Ok (Some (sat_add64 g 1)))
           end
  end.

(** [vendor]: whether there is a conversation; [placed]: whether its directory is still there. *)
Definition release_spec (vendor placed : bool) (before : option Phase) : verdict :=
  match before with
  | None => (None, Err "unknown_session")
  | Some p =>
      if negb vendor then (before, Err "no_vendor_session")
      else if negb placed then (before, Err "unknown_workspace")
      else (Some (Stored "released" true (match p with Live g | Stored _ _ g => g end)), Ok None)
  end.

Definition outcome_of (command_id session_id : string) (r : result string (option N)) : LifecycleOutcome :=
  match r with Ok generation => accepted command_id (Some session_id) generation | Err reason => refused command_id reason end.

(** ** An operation alone *)

Section spec.
Context (sha256 : list N -> list N) (to_vec : ManagedMetadataFile -> option bytes) (from_slice : bytes -> option ManagedMetadataFile)
  (effective_uid : N).
Context (sha256_law : sha256_bytes sha256) (json_law : forall f encoded, to_vec f = Some encoded -> from_slice encoded = Some f).

(** A run without interference: what was asked, the store and the answer. *)
Fixpoint run {A} (env : forall q, Answer q) (m : Moment) (p : prog A) (s : ManagedMetadataStore) : list Query * ManagedMetadataStore * A :=
  match p with
  | Ret _ a => ([], s, a)
  | Locked _ change next => run env m (next m s) (change m s)
  | Ask _ q k => let '(asked, s', a) := run env m (k (env q)) s in (q :: asked, s', a)
  end.

Lemma run_bind {A B} env m (p : prog A) (k : A -> prog B) s :
  run env m (p ≫= k) s =
  let '(asked, s1, a) := run env m p s in let '(more, s2, b) := run env m (k a) s1 in ((asked ++ more)%list, s2, b).
Proof.
  revert s. induction p as [a|change next IH|q f IH]; intros s.
  - cbn. by destruct (run env m (k a) s) as [[? ?] ?].
  - apply IH.
  - change (run env m (Ask A q f ≫= k) s) with (let '(asked, s', b) := run env m (f (env q) ≫= k) s in (q :: asked, s', b)).
    rewrite IH. cbn. destruct (run env m (f (env q)) s) as [[asked s1] a]. by destruct (run env m (k a) s1) as [[more s2] b].
Qed.

(** The store as it is each time something is asked. *)
Fixpoint found {A} (env : forall q, Answer q) (m : Moment) (p : prog A) (s : ManagedMetadataStore) : list ManagedMetadataStore :=
  match p with
  | Ret _ _ => []
  | Locked _ change next => found env m (next m s) (change m s)
  | Ask _ q k => s :: found env m (k (env q)) s
  end.

(** Whatever is asked is asked before the store changes. *)
Definition asks_first {A} (env : forall q, Answer q) (m : Moment) (p : prog A) (s : ManagedMetadataStore) : Prop :=
  Forall (eq s) (found env m p s).

Lemma asks_first_bind {A B} env m (p : prog A) (k : A -> prog B) s :
  asks_first env m p s -> (run env m p s).1.2 = s -> (forall a, asks_first env m (k a) s) -> asks_first env m (p ≫= k) s.
Proof.
  unfold asks_first. intros Hp Hs Hk. assert (forall s0, (run env m p s0).1.2 = s -> Forall (eq s) (found env m p s0) -> Forall (eq s) (found env m (p ≫= k) s0)) as H.
  { clear Hp Hs. induction p as [a|change next IH|q f IH]; intros s0 Hs Hp.
    - cbn in Hs. subst s0. apply Hk.
    - by apply (IH m s0).
    - change (found env m (Ask A q f ≫= k) s0) with (s0 :: found env m (f (env q) ≫= k) s0).
      cbn [found] in Hp. apply Forall_cons in Hp as [-> Hp]. constructor; [done|]. apply IH; [|done].
      cbn [run] in Hs. by destruct (run env m (f (env q)) s0) as [[? ?] ?]. }
  by apply H.
Qed.

Lemma asks_first_silent {A} env m (p : prog A) s : (forall s0, found env m p s0 = []) -> asks_first env m p s.
Proof. intros H. unfold asks_first. rewrite H. constructor. Qed.

Lemma asks_first_reading {A B} env m (f : ManagedMetadataStore -> A) (k : A -> prog B) s :
  asks_first env m (k (f s)) s -> asks_first env m (reading f ≫= k) s.
Proof. done. Qed.

Lemma asks_first_ask {B} env m q (k : Answer q -> prog B) s : asks_first env m (k (env q)) s -> asks_first env m (ask q ≫= k) s.
Proof. intros H. constructor; [done|exact H]. Qed.

(** How an operation on a session leaves the store: the session as the machine has it, the others alone, and
    the answer kept as its receipt. *)
Definition ends (command_id session_id : string) (s : ManagedMetadataStore) (v : verdict) (s' : ManagedMetadataStore) (outcome : LifecycleOutcome) : Prop :=
  phase session_id s' = v.1 /\ outcome = outcome_of command_id session_id v.2
  /\ (forall other, other <> session_id -> record other s' = record other s)
  /\ answered command_id s' = Some (mkLifecycleOutcome (lo_v outcome) (lo_command_id outcome) (lo_state outcome) (lo_session_id outcome)
       (lo_process_generation outcome) (lo_reason_code outcome) (Some true) (lo_resume_command outcome)).

Lemma push_answered command_id outcome s :
  lo_command_id outcome = command_id -> answered command_id s = None ->
  answered command_id (push_outcome outcome s).1 = Some (mkLifecycleOutcome (lo_v outcome) (lo_command_id outcome) (lo_state outcome)
    (lo_session_id outcome) (lo_process_generation outcome) (lo_reason_code outcome) (Some true) (lo_resume_command outcome)).
Proof.
  intros Hc Hnone. unfold answered in *. destruct (List.find _ (mg_lifecycle s)) eqn:Hf; [done|]. apply find_none_forall in Hf.
  unfold push_outcome. cbn [fst mg_lifecycle]. rewrite len_snoc. unfold len. rewrite drop_app_le by (unfold LIFECYCLE_BOUND, MAX_MANAGED_RECORDS, MAX_LIFECYCLE_RECEIPTS; lia).
  rewrite (find_snoc _ _ outcome); [done|by apply Forall_drop|]. by rewrite Hc, String.eqb_refl.
Qed.

Lemma persist_same failed_at s :
  mg_records (persist to_vec effective_uid failed_at s).1 = mg_records s /\ mg_lifecycle (persist to_vec effective_uid failed_at s).1 = mg_lifecycle s.
Proof. unfold persist. destruct (to_vec (file_of s)); [|done]. by destruct (atomic_write_private _ _ _ _). Qed.

(** An outcome pushed and written. *)
Lemma ends_push command_id session_id failed_at s s1 v :
  answered command_id s = None -> mg_lifecycle s1 = mg_lifecycle s -> phase session_id s1 = v.1 ->
  (forall other, other <> session_id -> record other s1 = record other s) ->
  ends command_id session_id s v (persist to_vec effective_uid failed_at (push_outcome (outcome_of command_id session_id v.2) s1).1).1
    (outcome_of command_id session_id v.2).
Proof.
  intros Hnone Hl Hp Ho. set (outcome := outcome_of _ _ _). destruct (persist_same failed_at (push_outcome outcome s1).1) as [Hrec Hlc].
  unfold ends, phase, record, answered in *. rewrite Hrec, Hlc. split; [exact Hp|]. split; [done|]. split; [exact Ho|].
  apply (push_answered command_id outcome s1); [unfold outcome, outcome_of; by destruct v.2|]. unfold answered. by rewrite Hl.
Qed.

(** A refusal leaves the session as it was. *)
Lemma ends_refuse command_id session_id m s reason :
  answered command_id s = None ->
  ends command_id session_id s (phase session_id s, Err reason) (persist to_vec effective_uid (mo_failed_at m) (refuse_locked command_id reason s).1).1
    (refused command_id reason).
Proof. intros Hnone. by apply (ends_push command_id session_id (mo_failed_at m) s s (phase session_id s, Err reason)). Qed.

Lemma changed_phase session_id f s r :
  record session_id s = Some r -> (forall x, mr_session_id (f x) = mr_session_id x) ->
  phase session_id (record_mut session_id f s) = Some (phase_of (f r))
  /\ forall other, other <> session_id -> record other (record_mut session_id f s) = record other s.
Proof.
  intros Hr Hf. unfold phase. split; [|intros other Hne]; rewrite record_mut_record by done.
  - by rewrite String.eqb_refl, Hr.
  - by rewrite (proj2 (String.eqb_neq session_id other)).
Qed.

(** A run that ends in a refusal. *)
Lemma run_refuse env m command_id session_id reason s :
  answered command_id s = None ->
  exists s', run env m (refuse to_vec effective_uid command_id reason) s = ([], s', refused command_id reason)
    /\ ends command_id session_id s (phase session_id s, Err reason) s' (refused command_id reason).
Proof. intros Hnone. eexists. split; [reflexivity|]. by apply ends_refuse. Qed.

(** One that ends in an acceptance. *)
Lemma run_accepting env m command_id session_id generation change after s :
  answered command_id s = None -> mg_lifecycle (change m s) = mg_lifecycle s -> phase session_id (change m s) = after ->
  (forall other, other <> session_id -> record other (change m s) = record other s) ->
  exists s', run env m (accepting to_vec effective_uid (fun m s => accept command_id (Some session_id) generation (change m s))) s
             = ([], s', accepted command_id (Some session_id) generation)
    /\ ends command_id session_id s (after, Ok generation) s' (accepted command_id (Some session_id) generation).
Proof. intros Hnone Hl Hp Ho. eexists. split; [reflexivity|]. by apply (ends_push command_id session_id (mo_failed_at m) s (change m s) (after, Ok generation)). Qed.

Lemma run_once env m command_id operation s : answered command_id s = None -> run env m (once command_id operation) s = run env m operation s.
Proof. intros Hnone. unfold once. cbn [run reading locked mbind prog_bind fst snd]. by rewrite Hnone. Qed.

Lemma run_reading {A B} env m (f : ManagedMetadataStore -> A) (k : A -> prog B) s : run env m (reading f ≫= k) s = run env m (k (f s)) s.
Proof. done. Qed.

Lemma run_ask {B} env m q (k : Answer q -> prog B) s :
  run env m (ask q ≫= k) s = let '(asked, s', b) := run env m (k (env q)) s in (q :: asked, s', b).
Proof. done. Qed.

(** The ends of the operations ask nothing. *)
Lemma asks_first_refuse env m command_id reason s : asks_first env m (refuse to_vec effective_uid command_id reason) s.
Proof. by apply asks_first_silent. Qed.

Lemma asks_first_accepting env m f s : asks_first env m (accepting to_vec effective_uid f) s.
Proof. by apply asks_first_silent. Qed.

Lemma asks_first_once env m command_id operation s :
  (answered command_id s = None -> asks_first env m operation s) -> asks_first env m (once command_id operation) s.
Proof. intros H. apply asks_first_reading. destruct (answered command_id s); [by apply asks_first_silent|by apply H]. Qed.

Lemma forget_ends env m session_id command_id s :
  store_ok sha256 s -> answered command_id s = None ->
  let '(asked, s', outcome) := run env m (managed_forget to_vec effective_uid session_id command_id) s in
  asked = [] /\ ends command_id session_id s (forget_spec (phase session_id s)) s' outcome.
Proof.
  intros Hok Hnone. unfold managed_forget, once. cbn [run reading locked mbind prog_bind fst snd]. rewrite Hnone.
  unfold accepting. cbn [run locked mbind prog_bind fst snd persisted mret prog_ret]. split; [done|]. unfold phase.
  destruct (record session_id s) as [r|] eqn:Hr; cbn [fmap option_fmap option_map].
  - unfold phase_of. destruct (is_live r) eqn:Hl; cbn [forget_spec].
    + pose proof (ends_refuse command_id session_id m s "already_live" Hnone) as H. unfold phase in H. rewrite Hr in H. cbn in H. unfold phase_of in H. rewrite Hl in H. exact H.
    + destruct (remove_first_find session_id (mg_records s)) as [Hgone Hothers]; [apply Hok|].
      apply (ends_push command_id session_id (mo_failed_at m) s (set_records (remove_first (has_id session_id) (mg_records s)) s) (None, Ok None)); [done|done| |].
      * unfold phase, record. cbn [mg_records set_records]. by rewrite Hgone.
      * exact Hothers.
  - pose proof (ends_refuse command_id session_id m s "unknown_session" Hnone) as H. unfold phase in H. rewrite Hr in H. exact H.
Qed.

Lemma stop_ends env m session_id generation command_id s :
  store_ok sha256 s -> answered command_id s = None ->
  let '(asked, s', outcome) := run env m (managed_stop to_vec effective_uid session_id generation command_id) s in
  asked = (if is_ok (stop_spec generation (phase session_id s)).2 then [StopWorker session_id] else [])
  /\ ends command_id session_id s (stop_spec generation (phase session_id s)) s' outcome.
Proof.
  intros Hok Hnone. unfold managed_stop. rewrite run_once, run_reading by done.
  assert (forall reason, exists s', run env m (refuse to_vec effective_uid command_id reason) s = ([], s', refused command_id reason)
    /\ ends command_id session_id s (phase session_id s, Err reason) s' (refused command_id reason)) as Href by (intros; by apply run_refuse).
  destruct (record session_id s) as [r|] eqn:Hr; unfold phase in Href |- *; rewrite Hr in Href |- *; cbn [fmap option_fmap option_map] in Href |- *;
    [|by destruct (Href "unknown_session") as (s' & -> & He)].
  destruct (record_ok_of _ _ _ _ Hok Hr) as [Hrec _]. unfold phase_of in *.
  destruct (is_live r) eqn:Hl; cbn [negb stop_spec]; [|by destruct (Href "already_stored") as (s' & -> & He)].
  destruct (mr_process_generation r =? generation) eqn:Hg; cbn [negb]; [|by destruct (Href "stale_generation") as (s' & -> & He)].
  rewrite run_ask. destruct (ro_live _ _ _ Hrec Hl) as (_ & Hext & _).
  destruct (changed_phase session_id (stopped (mo_now m) "stopped") s r Hr) as [Hp Ho]; [done|].
  destruct (run_accepting env m command_id session_id None (fun m => record_mut session_id (stopped (mo_now m) "stopped"))
              (Some (Stored "stopped" false (mr_process_generation r))) s) as (s' & -> & He); [done|done| |done|].
  - rewrite Hp. unfold phase_of, stopped, bumped, is_live. cbn. by rewrite Hext.
  - by split.
Qed.

(** What a resume asks before it launches, in this order. *)
Definition closing (r : ManagedRecord) : list Query :=
  if bool_decide (mr_stored_reason r = Some "released") then (match mr_handback_session r with Some session => [CloseHandback session] | None => [] end) else [].
Definition probing (r : ManagedRecord) : list Query :=
  match mr_vendor_session_id r with Some vendor => [ForeignOwnerEvidence vendor None] | None => [] end.
Definition reading_back (r : ManagedRecord) : list Query :=
  match mr_vendor_session_id r with Some vendor => [ReadTranscript vendor] | None => [] end.

Definition foreign_holder (env : forall q, Answer q) (r : ManagedRecord) : bool :=
  match mr_vendor_session_id r with Some vendor => env (ForeignOwnerEvidence vendor None) | None => false end.
Definition spec_of (env : forall q, Answer q) (r : ManagedRecord) : LaunchSpec :=
  let '(mode, model) := match mr_vendor_session_id r with Some vendor => env (ReadTranscript vendor) | None => (None, None) end in
  mkLaunchSpec (mr_session_id r) (mr_workspace_path r) (mr_vendor_session_id r) mode model.
Definition spawn_of (env : forall q, Answer q) (r : ManagedRecord) : Query := SpawnWorker (spec_of env r) (mr_workspace_label r).
Definition spawned (env : forall q, Answer q) (r : ManagedRecord) : result string unit := env (SpawnWorker (spec_of env r) (mr_workspace_label r)).

(** All a resume asks: nothing of a session it refuses by what the record says, and no launch once somebody
    else holds the conversation. *)
Definition resume_asks (env : forall q, Answer q) (r : ManagedRecord) : list Query :=
  if is_live r || mr_externally_owned r && negb (bool_decide (mr_stored_reason r = Some "released")) then []
  else (closing r ++ probing r ++ (if foreign_holder env r then [] else reading_back r ++ [spawn_of env r]))%list.

(** All a release asks. *)
Definition release_asks (env : forall q, Answer q) (session_id : string) (r : ManagedRecord) : list Query :=
  match mr_vendor_session_id r with
  | None => []
  | Some vendor =>
      IsDirectory (mr_workspace_path r)
        :: if env (IsDirectory (mr_workspace_path r))
           then StopWorker session_id :: match handback_session_name (mr_workspace_label r) session_id with
                                         | Some name => [HandBack (mr_workspace_path r) name vendor] | None => [] end
           else []
  end.

Lemma run_optional env m (o : option Query) s :
  run env m (match o with Some q => (_ ← ask q; mret tt) | None => mret tt end) s = (match o with Some q => [q] | None => [] end, s, tt).
Proof. by destruct o. Qed.

Lemma resume_ends env m session_id command_id s :
  store_ok sha256 s -> answered command_id s = None ->
  let '(asked, s', outcome) := run env m (managed_resume to_vec effective_uid session_id command_id) s in
  match record session_id s with
  | None => asked = [] /\ ends command_id session_id s (None, Err "unknown_session") s' outcome
  | Some r =>
      let v := resume_spec (foreign_holder env r) (spawned env r) (phase session_id s) in
      ends command_id session_id s v s' outcome
      /\ asked = resume_asks env r
  end.
Proof.
  intros Hok Hnone. unfold managed_resume. rewrite run_once, run_reading by done.
  assert (forall reason, exists s', run env m (refuse to_vec effective_uid command_id reason) s = ([], s', refused command_id reason)
    /\ ends command_id session_id s (phase session_id s, Err reason) s' (refused command_id reason)) as Href by (intros; by apply run_refuse).
  unfold phase in Href |- *. destruct (record session_id s) as [r|] eqn:Hr; cbn [fmap option_fmap option_map] in Href |- *;
    [|by destruct (Href "unknown_session") as (s' & -> & He)].
  destruct (record_ok_of _ _ _ _ Hok Hr) as [Hrec Hid]. unfold phase_of, resume_asks in *. destruct (is_live r) eqn:Hl; cbn [resume_spec orb].
  { destruct (Href "already_live") as (s' & -> & He). by split. }
  assert ((default "" (mr_stored_reason r) =s? "released") = bool_decide (mr_stored_reason r = Some "released")) as ->.
  { case_bool_decide as Hreason; [by rewrite Hreason|]. destruct (mr_stored_reason r) as [reason|]; [|done]. apply String.eqb_neq. cbn. congruence. }
  destruct (mr_externally_owned r && negb (bool_decide (mr_stored_reason r = Some "released"))) eqn:Hext.
  { destruct (Href "externally_owned") as (s' & -> & He). by split. }
  rewrite run_bind. assert (run env m (match (if bool_decide (mr_stored_reason r = Some "released") then mr_handback_session r else None) with
                               | Some session => ask (CloseHandback session) | None => mret tt end) s
    = (closing r, s, tt)) as ->.
  { unfold closing. destruct (bool_decide _); [|done]. destruct (mr_handback_session r) as [session|]; [|done]. cbn. by destruct (env (CloseHandback session)). }
  cbn [fst snd]. rewrite run_bind.
  assert (run env m (match mr_vendor_session_id r with Some vendor_session => ask (ForeignOwnerEvidence vendor_session None) | None => mret false end) s
    = (probing r, s, foreign_holder env r)) as -> by (unfold probing, foreign_holder; by destruct (mr_vendor_session_id r)).
  destruct (foreign_holder env r) eqn:Hf.
  { destruct (Href "foreign_owner_live") as (s' & -> & He). by split. }
  rewrite run_bind.
  assert (run env m (transcript_of (mr_vendor_session_id r)) s
    = (reading_back r, s, (sp_permission_mode (spec_of env r), sp_model (spec_of env r)))) as ->.
  { unfold transcript_of, reading_back, spec_of. destruct (mr_vendor_session_id r) as [v|]; [|done]. cbn. by destruct (env (ReadTranscript v)). }
  unfold launch. rewrite run_bind. cbn [run ask mbind prog_bind mret prog_ret].
  assert (mkLaunchSpec session_id (mr_workspace_path r) (mr_vendor_session_id r) (sp_permission_mode (spec_of env r)) (sp_model (spec_of env r)) = spec_of env r) as ->.
  { unfold spec_of. rewrite Hid. by destruct (match mr_vendor_session_id r with Some _ => _ | None => _ end). }
  change (env (SpawnWorker (spec_of env r) (mr_workspace_label r))) with (spawned env r).
  destruct (spawned env r) as [[]|reason] eqn:Hs; cbn [rmap].
  2:{ destruct (Href reason) as (s' & -> & He). by split. }
  destruct (changed_phase session_id (resumed (mo_now m) (sat_add64 (mr_process_generation r) 1)) s r Hr) as [Hp Ho]; [done|].
  destruct (run_accepting env m command_id session_id (Some (sat_add64 (mr_process_generation r) 1))
              (fun m => record_mut session_id (resumed (mo_now m) (sat_add64 (mr_process_generation r) 1)))
              (Some (Live (sat_add64 (mr_process_generation r) 1))) s) as (s' & -> & He); [done|done|by rewrite Hp|done|].
  split; [exact He|]. by rewrite app_nil_r.
Qed.

Lemma resume_asks_first env m session_id command_id s :
  asks_first env m (managed_resume to_vec effective_uid session_id command_id) s.
Proof.
  apply asks_first_once. intros _. apply asks_first_reading. destruct (record session_id s) as [r|]; [|apply asks_first_refuse].
  cbv zeta. destruct (is_live r); [apply asks_first_refuse|]. destruct (_ && _); [apply asks_first_refuse|].
  apply asks_first_bind; [by destruct (if bool_decide _ then _ else _); repeat constructor|by destruct (if bool_decide _ then _ else _)|].
  intros _. apply asks_first_bind; [by destruct (mr_vendor_session_id r); repeat constructor|by destruct (mr_vendor_session_id r)|].
  intros [|]; [apply asks_first_refuse|]. unfold transcript_of.
  apply asks_first_bind; [by destruct (mr_vendor_session_id r); repeat constructor|by destruct (mr_vendor_session_id r)|].
  intros [mode model]. apply asks_first_bind; [repeat constructor|done|]. intros [worker|reason]; [apply asks_first_accepting|apply asks_first_refuse].
Qed.

Lemma release_asks_first env m session_id command_id s :
  asks_first env m (managed_release to_vec effective_uid session_id command_id) s.
Proof.
  unfold managed_release. apply asks_first_reading. destruct (answered command_id s); [by apply asks_first_silent|].
  apply asks_first_reading. destruct (record session_id s) as [r|]; [|by apply asks_first_silent].
  destruct (mr_vendor_session_id r) as [vendor|]; [|by apply asks_first_silent].
  apply asks_first_ask. destruct (negb _); [by apply asks_first_silent|]. apply asks_first_ask.
  apply asks_first_bind; [by destruct (handback_session_name _ _); repeat constructor|by destruct (handback_session_name _ _)|].
  intros route. by apply asks_first_silent.
Qed.

Lemma stop_asks_first env m session_id generation command_id s :
  asks_first env m (managed_stop to_vec effective_uid session_id generation command_id) s.
Proof.
  apply asks_first_once. intros _. apply asks_first_reading. destruct (record session_id s) as [r|]; [|apply asks_first_refuse].
  destruct (negb _); [apply asks_first_refuse|]. destruct (negb _); [apply asks_first_refuse|]. apply asks_first_ask, asks_first_accepting.
Qed.

Definition has_vendor (r : ManagedRecord) : bool := is_some (mr_vendor_session_id r).

Lemma release_ends env m session_id command_id s :
  store_ok sha256 s -> answered command_id s = None ->
  let '(asked, s', (outcome, handback)) := run env m (managed_release to_vec effective_uid session_id command_id) s in
  match record session_id s with
  | None => asked = [] /\ handback = None /\ ends command_id session_id s (None, Err "unknown_session") s' outcome
  | Some r =>
      let v := release_spec (has_vendor r) (env (IsDirectory (mr_workspace_path r))) (phase session_id s) in
      ends command_id session_id s v s' outcome
      /\ asked = release_asks env session_id r
      /\ handback = (if is_ok v.2 then handback_of session_id s' else None)
  end.
Proof.
  intros Hok Hnone. unfold managed_release. rewrite run_reading, Hnone, run_reading.
  assert (forall reason, exists s', run env m (outcome ← refuse to_vec effective_uid command_id reason; mret (outcome, None : option Handback)) s
    = ([], s', (refused command_id reason, None)) /\ ends command_id session_id s (phase session_id s, Err reason) s' (refused command_id reason)) as Href
    by (intros; eexists; split; [reflexivity|]; by apply ends_refuse).
  unfold phase in Href |- *. destruct (record session_id s) as [r|] eqn:Hr; cbn [fmap option_fmap option_map] in Href |- *;
    [|by destruct (Href "unknown_session") as (s' & -> & He)].
  unfold has_vendor, release_asks. destruct (mr_vendor_session_id r) as [vendor|] eqn:Hv; cbn [is_some is_none negb release_spec].
  2:{ destruct (Href "no_vendor_session") as (s' & -> & He). by split. }
  rewrite (run_ask env m (IsDirectory (mr_workspace_path r))). destruct (env (IsDirectory (mr_workspace_path r))); cbn [negb].
  2:{ destruct (Href "unknown_workspace") as (s' & -> & He). by split. }
  rewrite (run_ask env m (StopWorker session_id)), run_bind.
  set (route := match handback_session_name (mr_workspace_label r) session_id with
                | Some name => env (HandBack (mr_workspace_path r) name vendor) | None => None end).
  assert (run env m (match handback_session_name (mr_workspace_label r) session_id with
                     | Some name => ask (HandBack (mr_workspace_path r) name vendor) | None => mret None end) s
    = (match handback_session_name (mr_workspace_label r) session_id with Some name => [HandBack (mr_workspace_path r) name vendor] | None => [] end, s, route)) as ->
    by (unfold route; by destruct (handback_session_name _ _)).
  rewrite run_bind. destruct (changed_phase session_id (released (mo_now m) route) s r Hr) as [Hp Ho]; [done|].
  destruct (run_accepting env m command_id session_id None (fun m => record_mut session_id (released (mo_now m) route))
              (Some (Stored "released" true (mr_process_generation r))) s) as (s' & Hrun & He); [done|done|by rewrite Hp|done|].
  rewrite Hrun. cbn [run mret prog_ret]. split; [|split; [by rewrite !app_nil_r|]].
  - unfold phase_of. by destruct (is_live r).
  - assert (record session_id s' = Some (released (mo_now m) route r)) as Hrec.
    { unfold accepting in Hrun. cbn in Hrun. injection Hrun as <-. unfold record. rewrite (proj1 (persist_same _ _)).
      change (record session_id (record_mut session_id (released (mo_now m) route) s) = Some (released (mo_now m) route r)).
      by rewrite record_mut_record, String.eqb_refl, Hr. }
    cbn [is_ok snd]. unfold handback_of. rewrite Hrec. cbn. by rewrite Hv.
Qed.

(** C14: the operations on a session refine the machine above: alone, each moves the session as the machine does
    and no other, answers what it answers, and keeps that answer as the command's receipt. What it does to the
    outside is exactly this, and all of it while the store is still as it was found: a stop that is accepted
    stops the worker; a release whose conversation and directory are there stops the worker, then hands the
    conversation to a terminal; a resume the record allows closes the terminal Ciao handed the conversation to,
    then looks for another holder, and only if there is none reads the transcript and launches. *)
Theorem operations_refine_lifecycle env m session_id command_id s :
  store_ok sha256 s -> answered command_id s = None ->
  (let '(asked, s', outcome) := run env m (managed_forget to_vec effective_uid session_id command_id) s in
   asked = [] /\ ends command_id session_id s (forget_spec (phase session_id s)) s' outcome)
  /\ (forall generation,
       let '(asked, s', outcome) := run env m (managed_stop to_vec effective_uid session_id generation command_id) s in
       asked = (if is_ok (stop_spec generation (phase session_id s)).2 then [StopWorker session_id] else [])
       /\ ends command_id session_id s (stop_spec generation (phase session_id s)) s' outcome
       /\ asks_first env m (managed_stop to_vec effective_uid session_id generation command_id) s)
  /\ (let '(asked, s', outcome) := run env m (managed_resume to_vec effective_uid session_id command_id) s in
      match record session_id s with
      | None => asked = [] /\ ends command_id session_id s (None, Err "unknown_session") s' outcome
      | Some r =>
          let v := resume_spec (foreign_holder env r) (spawned env r) (phase session_id s) in
          ends command_id session_id s v s' outcome
          /\ asked = resume_asks env r
      end)
  /\ asks_first env m (managed_resume to_vec effective_uid session_id command_id) s
  /\ (let '(asked, s', (outcome, handback)) := run env m (managed_release to_vec effective_uid session_id command_id) s in
      match record session_id s with
      | None => asked = [] /\ handback = None /\ ends command_id session_id s (None, Err "unknown_session") s' outcome
      | Some r =>
          let v := release_spec (has_vendor r) (env (IsDirectory (mr_workspace_path r))) (phase session_id s) in
          ends command_id session_id s v s' outcome
          /\ asked = release_asks env session_id r
          /\ handback = (if is_ok v.2 then handback_of session_id s' else None)
      end)
  /\ asks_first env m (managed_release to_vec effective_uid session_id command_id) s.
Proof.
  intros Hok Hnone. split; [by apply forget_ends|]. split; [intros generation|split; [by apply resume_ends|split; [apply resume_asks_first|
    split; [by apply release_ends|apply release_asks_first]]]].
  pose proof (stop_ends env m session_id generation command_id s Hok Hnone) as H. pose proof (stop_asks_first env m session_id generation command_id s).
  destruct (run _ _ _ _) as [[asked s'] outcome]. destruct H. by split_and!.
Qed.

(** ** One answer per command *)

Definition again_of (o : LifecycleOutcome) (again : LifecycleOutcome) : Prop :=
  lo_command_id again = lo_command_id o /\ lo_state again = lo_state o /\ lo_session_id again = lo_session_id o
  /\ lo_process_generation again = lo_process_generation o /\ lo_reason_code again = lo_reason_code o /\ lo_deduplicated again = Some true.

(** The command that continues a released conversation is read off the record anew; every other answer keeps
    what it had. *)
Definition resume_command_again (op : Operation) (s : ManagedMetadataStore) (o : LifecycleOutcome) : option string :=
  match op with
  | OpRelease session_id _ =>
      if lo_state o =s? "accepted" then h ← handback_of session_id s; claude_resume_command (hb_vendor_session_id h) else lo_resume_command o
  | _ => lo_resume_command o
  end.

Lemma receipt_found s o before after :
  mg_lifecycle s = (before ++ o :: after)%list -> Forall (fun x => lo_command_id x <> lo_command_id o) before ->
  exists again, answered (lo_command_id o) s = Some again /\ again_of o again /\ lo_resume_command again = lo_resume_command o.
Proof.
  intros Hl Hb. unfold answered. rewrite Hl, find_app.
  assert (List.find (fun x => lo_command_id x =s? lo_command_id o) before = None) as ->.
  { apply find_none_forall. eapply Forall_impl; [exact Hb|]. intros x. apply String.eqb_neq. }
  cbn [List.find]. rewrite String.eqb_refl. eexists. split; [reflexivity|]. done.
Qed.

Lemma receipt_answers env m op draw s o before after :
  mg_lifecycle s = (before ++ o :: after)%list -> Forall (fun x => lo_command_id x <> lo_command_id o) before -> command_of op = lo_command_id o ->
  exists again, run env m (program sha256 to_vec effective_uid op draw) s = ([], s, again) /\ again_of o again
    /\ lo_resume_command again = resume_command_again op s o.
Proof.
  intros Hl Hb Hc. destruct (receipt_found s o before after Hl Hb) as (again & Ha & Hag & Hrc).
  assert (forall operation, run env m (once (lo_command_id o) operation) s = ([], s, again)) as Honce
    by (intros; unfold once; rewrite run_reading, Ha; done).
  destruct op; cbn [program command_of resume_command_again] in *; subst; try (exists again; split; [apply Honce|done]).
  unfold release_request, managed_release. rewrite run_bind, run_reading, Ha, run_reading. cbn [run mret prog_ret app].
  eexists. split; [reflexivity|]. destruct Hag as (H1 & H2 & H3 & H4 & H5 & H6). rewrite H2.
  destruct (lo_state o =s? "accepted"); [|by split_and!]. by split.
Qed.

(** What a takeover asks before it is refused or its receipt is found. *)
Definition looks (q : Query) : Prop :=
  match q with IsDirectory _ | ForeignOwnerEvidence _ _ | RequestExit _ => True | _ => False end.

Lemma run_placed env m path s : exists asked dir, run env m (placed path) s = (asked, s, dir) /\ Forall looks asked.
Proof.
  unfold placed. destruct (starts_with path "/"); cbn; do 2 eexists; (split; [reflexivity|]); by repeat constructor.
Qed.

Lemma run_contended env m target s :
  exists asked holder, run env m (contended target) s = (asked, s, holder) /\ Forall looks asked /\ forall pid, RequestExit pid ∉ asked.
Proof.
  unfold contended. destruct (pt_vendor_session_id target) as [vendor|].
  2:{ do 2 eexists. split; [reflexivity|]. split; [constructor|by intros pid ?%not_elem_of_nil]. }
  rewrite run_reading. cbv beta. destruct (live_elsewhere vendor s).
  - do 2 eexists. split; [reflexivity|]. split; [constructor|by intros pid ?%not_elem_of_nil].
  - cbn [run ask mbind prog_bind mret prog_ret]. do 2 eexists. split; [reflexivity|]. split; [by repeat constructor|].
    by intros pid ?%list_elem_of_singleton.
Qed.

Lemma takeover_again env m target draw s o before after :
  mg_lifecycle s = (before ++ o :: after)%list -> Forall (fun x => lo_command_id x <> lo_command_id o) before ->
  let '(asked, s', outcome) := run env m (promote_request sha256 to_vec effective_uid target (lo_command_id o) draw) s in
  s' = s /\ Forall looks asked
  /\ ((exists t, target = Ok t /\ RequestExit (pt_process_id t) ∈ asked /\ env (RequestExit (pt_process_id t)) = true /\ again_of o outcome)
      \/ exists reason, outcome = refused (lo_command_id o) reason).
Proof.
  intros Hl Hb. destruct (receipt_found s o before after Hl Hb) as (again & Ha & Hag & _).
  unfold promote_request. destruct target as [t|reason]; [|cbn; split_and!; [done|constructor|right; by eexists]].
  rewrite run_bind. unfold promotion_preflight. rewrite run_bind.
  destruct (run_placed env m (pt_workspace_path t) s) as (asked1 & dir & -> & H1). destruct dir; cbn [run mret prog_ret].
  2:{ rewrite !app_nil_r. split_and!; [done|done|right; by eexists]. }
  destruct (run_contended env m t s) as (asked2 & holder & -> & H2 & _). destruct holder as [reason|]; cbn [run mret prog_ret].
  { rewrite !app_nil_r. split_and!; [done|by apply Forall_app|right; by eexists]. }
  cbn [run ask mbind prog_bind mret prog_ret]. destruct (env (RequestExit (pt_process_id t))) eqn:He; cbn [run mret prog_ret].
  2:{ split_and!; [done|apply Forall_app; split; [by apply Forall_app|by repeat constructor]|right; by eexists]. }
  unfold managed_promote, once. rewrite run_reading, Ha. cbn [run mret prog_ret].
  split_and!; [done|apply Forall_app; split; [by apply Forall_app|by repeat constructor]|].
  left. exists t. split_and!; [done|set_solver|done|done].
Qed.

Lemma step_receipts w w' :
  world_ok sha256 to_vec effective_uid w -> world_step sha256 to_vec effective_uid w w' ->
  mg_lifecycle (wd_store w') = mg_lifecycle (wd_store w)
  \/ exists outcome, mg_lifecycle (wd_store w') = mg_lifecycle (push_outcome outcome (wd_store w)).1.
Proof.
  intros [Hs _ _ _ Htasks] Hstep. destruct Hstep as [t draw w Ht Hnew|i id change next m w Hi|i id q k a w Hi Ha|session_id w]; cbn [wd_store]; try by left.
  rewrite Forall_lookup in Htasks. destruct (Htasks i _ Hi) as (_ & Hvalid & fresh & Huse & Hfresh). cbn [fst snd] in Huse, Hfresh, Hvalid.
  inversion Huse as [|? ? ? Hk Hnext|path label c worker ? Hc Hp Hl Hv Hfam Hver Hnext|]; subst; [by apply (Hk m _ Hs)|].
  destruct (push_record_cases sha256 to_vec effective_uid sha256_law path label id c worker m (wd_store w)) as (_ & _ & _ & Hcase & _); try done. by apply Hfresh.
Qed.

Lemma pushed_receipt (o outcome : LifecycleOutcome) before after s :
  mg_lifecycle s = (before ++ o :: after)%list -> len after + 1 < LIFECYCLE_BOUND ->
  exists k, mg_lifecycle (push_outcome outcome s).1 = (drop k before ++ o :: after ++ [outcome])%list.
Proof.
  intros Hl Hlen. unfold push_outcome. cbn [fst mg_lifecycle]. set (k := N.to_nat _). exists k. rewrite Hl, <- app_assoc. cbn [app].
  apply drop_app_le. unfold k. rewrite Hl. revert Hlen. generalize LIFECYCLE_BOUND. intros bound Hlen. unfold len in *. rewrite !length_app in *. cbn in *. lia.
Qed.

Lemma steps_receipts n w w' before o after :
  world_ok sha256 to_vec effective_uid w -> nsteps (world_step sha256 to_vec effective_uid) n w w' ->
  mg_lifecycle (wd_store w) = (before ++ o :: after)%list -> Forall (fun x => lo_command_id x <> lo_command_id o) before ->
  len after + N.of_nat n < LIFECYCLE_BOUND ->
  exists before' after', mg_lifecycle (wd_store w') = (before' ++ o :: after')%list /\ Forall (fun x => lo_command_id x <> lo_command_id o) before'.
Proof.
  intros Hok Hn. revert before after. induction Hn as [w|n w1 w2 w3 Hstep Hn IH]; intros before after Hl Hb Hlen; [by exists before, after|].
  pose proof (step_ok sha256 to_vec effective_uid sha256_law _ _ Hstep Hok) as [Hok' _].
  destruct (step_receipts _ _ Hok Hstep) as [Heq|[outcome Heq]].
  - apply (IH Hok' before after); [congruence|done|lia].
  - destruct (pushed_receipt o outcome before after (wd_store w1)) as [k Hk]; [done|lia|]. rewrite Hk in Heq.
    apply (IH Hok' _ _ Heq); [by apply Forall_drop|]. rewrite len_snoc. lia.
Qed.

(** C15: a command is carried out once. Once it has an answer, the same command gets that answer, marked as given
    before, whatever it now asks for; nothing is launched, stopped or even looked up for it, and the store does
    not change; only the command that continues a released conversation is made out anew. A takeover as the daemon
    runs it looks at its terminal before it looks for the answer: repeated, it launches and stops no worker and
    changes no record either, but it may ask the terminal's process to exit, and it may be refused for what it
    finds instead of being given its answer. So it is through any interleaving, as long as fewer than 8192
    answers have come since. *)
Theorem commands_answered_once key w n w' before o after env m :
  length key = 32%nat -> Forall (fun b => b < 256) key ->
  rtc (moves sha256 to_vec from_slice effective_uid) (world_start key NotFound) w ->
  mg_lifecycle (wd_store w) = (before ++ o :: after)%list -> Forall (fun x => lo_command_id x <> lo_command_id o) before ->
  nsteps (world_step sha256 to_vec effective_uid) n w w' -> len after + N.of_nat n < LIFECYCLE_BOUND ->
  (forall op draw, command_of op = lo_command_id o ->
     exists again, run env m (program sha256 to_vec effective_uid op draw) (wd_store w') = ([], wd_store w', again) /\ again_of o again
       /\ lo_resume_command again = resume_command_again op (wd_store w') o)
  /\ forall target draw,
     let '(asked, s', outcome) := run env m (promote_request sha256 to_vec effective_uid target (lo_command_id o) draw) (wd_store w') in
     s' = wd_store w' /\ Forall looks asked
     /\ ((exists t, target = Ok t /\ RequestExit (pt_process_id t) ∈ asked /\ env (RequestExit (pt_process_id t)) = true /\ again_of o outcome)
         \/ exists reason, outcome = refused (lo_command_id o) reason).
Proof.
  intros Hkl Hkb Hsteps Hl Hb Hn Hlen.
  pose proof (worlds_ok sha256 to_vec from_slice effective_uid sha256_law json_law _ _ Hkl Hkb Hsteps) as Hok.
  destruct (steps_receipts _ _ _ _ _ _ Hok Hn Hl Hb Hlen) as (before' & after' & Hl' & Hb').
  split; [intros op draw Hc; by eapply receipt_answers|intros target draw; by eapply takeover_again].
Qed.
End spec.
