(* ===== verification/ManagedRows.v ===== *)
(** What a phone is shown of managed sessions: the workspaces it may start in and the rows of stored ones. *)
From S2P Require Import Prelude Text Metadata HostProtocol UploadNames Downloads Protocol WorkspaceScan Managed ManagedStore ManagedRuns ManagedSpec.

Local Open Scope string_scope.
Local Open Scope N_scope.

Section rows.
Context (sha256 : list N -> list N) (sha256_law : sha256_bytes sha256).

(** ** Workspaces *)

Lemma push_unseen_elem seen entry x : x ∈ push_unseen seen entry -> x ∈ seen \/ x = entry.
Proof. unfold push_unseen. destruct (existsb _ seen); [auto|]. intros [?| ->%list_elem_of_singleton]%elem_of_app; auto. Qed.

Lemma push_unseen_distinct seen entry : NoDup (fst <$> seen) -> NoDup (fst <$> push_unseen seen entry).
Proof.
  intros Hn. unfold push_unseen. destruct (existsb _ seen) eqn:Hex; [done|]. apply NoDup_fmap_snoc; [done|]. apply Forall_forall. intros [id path] Hin Heq.
  apply not_true_iff_false in Hex. apply Hex, existsb_exists. exists (id, path). split; [by apply list_elem_of_In|]. by apply String.eqb_eq.
Qed.

Lemma seen_facts l seen :
  NoDup (fst <$> seen) -> NoDup (fst <$> foldl push_unseen seen l) /\ forall x, x ∈ foldl push_unseen seen l -> x ∈ seen \/ x ∈ l.
Proof.
  revert seen. induction l as [|entry l IH]; intros seen Hn; cbn [foldl]; [auto|].
  destruct (IH _ (push_unseen_distinct seen entry Hn)) as [Hd Hin]. split; [done|]. intros x [Hx| ?]%Hin; [|by right; apply elem_of_cons; right].
  apply push_unseen_elem in Hx as [?| ->]; [auto|]. right. apply elem_of_cons. auto.
Qed.

Lemma display_label_ok bases home index path :
  display_label bases home index path <> "" /\ slen (display_label bases home index path) <= MAX_WORKSPACE_LABEL_BYTES.
Proof.
  unfold display_label. pose proof (workspace_label_ok path) as [Hne Hle].
  destruct (if collides bases index (workspace_label path) then parent_label path home else None) as [parent|]; [|done].
  destruct (N.leb_spec (slen parent + 1 + slen (workspace_label path)) MAX_WORKSPACE_LABEL_BYTES); [|done]. split.
  - intros Hs%(f_equal slen). rewrite !slen_app in Hs. change (slen "/") with 1 in Hs. change (slen "") with 0 in Hs. lia.
  - rewrite !slen_app. change (slen "/") with 1. lia.
Qed.

(** How a start finds the workspace it was given. *)
Definition resolve_workspace (workspace_id : string) (scan : WorkspaceScan) (s : ManagedMetadataStore) : option (string * string) :=
  match known_workspace workspace_id s with Some known => Some known | None => discovered_workspace sha256 workspace_id scan s end.

(** Whatever it finds has the id it was given, and it finds what a record has or the scan finds. *)
Lemma resolve_id workspace_id scan s found label :
  store_ok sha256 s -> resolve_workspace workspace_id scan s = Some (found, label) -> store_workspace_id sha256 found s = workspace_id.
Proof.
  intros [_ _ _ He _ _]. rewrite Forall_forall in He. unfold resolve_workspace, known_workspace.
  destruct (List.find (fun r => mr_workspace_id r =s? workspace_id) (mg_records s)) as [r|] eqn:Hf.
  - apply find_some_elem in Hf as [Hin Heq%String.eqb_eq]. cbn. intros [= <- <-]. rewrite <- Heq. symmetry. by apply He.
  - cbn. unfold discovered_workspace. destruct (List.find _ (wsc_paths scan)) as [path|] eqn:Hd; [|done].
    apply find_some_elem in Hd as [_ Heq%String.eqb_eq]. cbn. by intros [= <- <-].
Qed.

Definition at_hand (workspace_id : string) (scan : WorkspaceScan) (s : ManagedMetadataStore) : Prop :=
  (exists r, r ∈ mg_records s /\ mr_workspace_id r = workspace_id)
  \/ exists path, path ∈ wsc_paths scan /\ store_workspace_id sha256 path s = workspace_id.

Lemma resolve_at_hand workspace_id scan s : at_hand workspace_id scan s <-> is_Some (resolve_workspace workspace_id scan s).
Proof.
  unfold at_hand, resolve_workspace, known_workspace.
  destruct (List.find (fun r => mr_workspace_id r =s? workspace_id) (mg_records s)) as [r|] eqn:Hf; cbn.
  - apply find_some_elem in Hf as [Hin Heq%String.eqb_eq]. split; [by eexists|]. intros _. left. by exists r.
  - apply find_none_forall in Hf. rewrite Forall_forall in Hf. unfold discovered_workspace.
    destruct (List.find _ (wsc_paths scan)) as [path|] eqn:Hd; cbn.
    + apply find_some_elem in Hd as [Hin Heq%String.eqb_eq]. split; [by eexists|]. intros _. right. by exists path.
    + apply find_none_forall in Hd. rewrite Forall_forall in Hd. split; [|by intros []].
      intros [(r & Hr & Heq)|(path & Hp & Heq)].
      * specialize (Hf r Hr). cbn in Hf. by rewrite Heq, String.eqb_refl in Hf.
      * specialize (Hd path Hp). cbn in Hd. by rewrite Heq, String.eqb_refl in Hd.
Qed.

Lemma labels_ids (f : nat -> string * string -> WorkspaceDescriptor) entries :
  (forall n e, wd_workspace_id (f n e) = e.1) -> wd_workspace_id <$> imap f entries = fst <$> entries.
Proof.
  revert f. induction entries as [|e l IH]; intros f Hf; [done|]. cbn. rewrite Hf. f_equal. apply (IH (f ∘ S)). intros. apply Hf.
Qed.

Lemma labels_facts entries home :
  wd_workspace_id <$> workspace_labels entries home = fst <$> entries
  /\ forall w, w ∈ workspace_labels entries home -> exists path, (wd_workspace_id w, path) ∈ entries
       /\ wd_display_label w <> "" /\ slen (wd_display_label w) <= MAX_WORKSPACE_LABEL_BYTES.
Proof.
  unfold workspace_labels. split; [apply labels_ids; by intros n [id path]|].
  intros w [index Hw]%list_elem_of_lookup. rewrite list_lookup_imap in Hw. destruct (entries !! index) as [[id path]|] eqn:He; [|done].
  cbn in Hw. injection Hw as <-. exists path. split; [by eapply list_elem_of_lookup_2|]. apply display_label_ok.
Qed.
End rows.

Section offered.
Context (sha256 : list N -> list N) (to_vec : ManagedMetadataFile -> option bytes) (effective_uid : N).
Context (sha256_law : sha256_bytes sha256).

(** Every workspace the list is made of, with its id. *)
Definition candidates (scan : WorkspaceScan) (s : ManagedMetadataStore) : list (string * string) :=
  (((fun r => (mr_workspace_id r, mr_workspace_path r)) <$> newest_first mr_updated_at (mg_records s))
   ++ ((fun path => (store_workspace_id sha256 path s, path)) <$> wsc_paths scan))%list.

Lemma candidates_valid scan s id path :
  store_ok sha256 s -> (id, path) ∈ candidates scan s -> valid_opaque_id id = Ok tt /\ at_hand sha256 id scan s.
Proof.
  intros Hok [(r & [= -> ->] & Hr)%list_elem_of_fmap|(p & [= -> ->] & Hp)%list_elem_of_fmap]%elem_of_app.
  - unfold newest_first in Hr. rewrite sort_by_key_perm in Hr. split; [|left; by exists r].
    destruct Hok as [_ _ _ He _ _]. rewrite Forall_forall in He. destruct (He r Hr) as [Hv _ _ _ _]. by apply record_valid_iff in Hv as [[] _].
  - split; [by apply store_workspace_id_valid|]. right. by exists p.
Qed.

Lemma unseen_grows seen entry : exists more, push_unseen seen entry = (seen ++ more)%list.
Proof. unfold push_unseen. destruct (existsb _ seen); [by exists []; rewrite app_nil_r|by exists [entry]]. Qed.

Lemma seen_all l seen id : id ∈ fst <$> (seen ++ l)%list -> id ∈ fst <$> foldl push_unseen seen l.
Proof.
  revert seen. induction l as [|entry l IH]; intros seen; [by rewrite app_nil_r|]. intros Hin. cbn [foldl]. apply IH.
  rewrite fmap_app, fmap_cons in Hin. rewrite fmap_app. apply elem_of_app in Hin as [Hin|[->|Hin]%elem_of_cons]; apply elem_of_app.
  - left. destruct (unseen_grows seen entry) as [more ->]. rewrite fmap_app. apply elem_of_app. by left.
  - left. unfold push_unseen. destruct (existsb _ seen) eqn:Hex; [|rewrite fmap_app; apply elem_of_app; right; by left].
    apply existsb_exists in Hex as ([id path] & Hin & Heq%String.eqb_eq). rewrite <- Heq. apply list_elem_of_In in Hin. by apply (list_elem_of_fmap_2 fst) in Hin.
  - by right.
Qed.

Lemma offered_in home scan s w :
  w ∈ wl_workspaces (list_workspaces sha256 home (Some scan) s) ->
  exists path, (wd_workspace_id w, path) ∈ candidates scan s /\ wd_display_label w <> "" /\ slen (wd_display_label w) <= MAX_WORKSPACE_LABEL_BYTES.
Proof.
  cbn [list_workspaces wl_workspaces]. set (seen := foldl push_unseen [] _). intros Hw.
  destruct (labels_facts (take (N.to_nat MAX_WORKSPACE_LIST_ENTRIES) seen) home) as [_ Hl]. destruct (Hl w Hw) as (path & Hin & Hlabel).
  exists path. split; [|done]. destruct (seen_facts (candidates scan s) [] (NoDup_nil_2)) as [_ Hs].
  apply (sublist_subseteq _ _ (sublist_take _ _)) in Hin. by destruct (Hs _ Hin) as [?%not_elem_of_nil|].
Qed.

Lemma offered_ids home scan s :
  wd_workspace_id <$> wl_workspaces (list_workspaces sha256 home (Some scan) s)
  = take (N.to_nat MAX_WORKSPACE_LIST_ENTRIES) (fst <$> foldl push_unseen [] (candidates scan s)).
Proof. cbn [list_workspaces wl_workspaces]. rewrite (proj1 (labels_facts _ home)). by rewrite fmap_take. Qed.

(** A start launches where it finds its workspace, and is refused where it does not. *)
Lemma start_resolved (env : forall q, Answer q) m workspace_id command_id draw s :
  answered command_id s = None ->
  let '(asked, _, outcome) := run env m (managed_start sha256 to_vec effective_uid workspace_id command_id draw) s in
  match resolve_workspace sha256 workspace_id (default WorkspaceScan_default (env ScanHome)) s with
  | Some (found, label) => SpawnWorker (mkLaunchSpec (random_opaque_id draw) found None None None) label ∈ asked
  | None => asked = [ScanHome] /\ outcome = refused command_id "unknown_workspace"
  end.
Proof.
  intros Hnone. unfold managed_start. rewrite run_once, run_reading by done.
  assert (forall found label (q : list Query), let '(asked, _, _) := run env m (start_in_workspace sha256 to_vec effective_uid found label command_id draw) s in
    SpawnWorker (mkLaunchSpec (random_opaque_id draw) found None None None) label ∈ (q ++ asked)%list) as Hstart.
  { intros found label q. unfold start_in_workspace, start_in_workspace_resuming. rewrite run_bind. cbn [run mret prog_ret transcript_of]. rewrite run_bind. cbn [run mret prog_ret].
    unfold launch. rewrite run_bind. cbn [run ask mbind prog_bind mret prog_ret].
    destruct (run env m (match rmap _ _ with Ok _ => _ | Err _ => _ end) s) as [[more s'] o]. rewrite !app_nil_l.
    apply elem_of_app. right. apply elem_of_app. left. by left. }
  unfold resolve_workspace. destruct (known_workspace workspace_id s) as [[found label]|] eqn:Hk.
  - specialize (Hstart found label []). rewrite run_bind. cbn [run mret prog_ret].
    destruct (run env m (start_in_workspace _ _ _ _ _ _ _) s) as [[asked s'] o]. exact Hstart.
  - rewrite run_bind, (run_ask env m ScanHome). unfold reading. cbn [run locked fst snd].
    destruct (discovered_workspace _ _ _ _) as [[found label]|]; [|done].
    specialize (Hstart found label [ScanHome]). destruct (run env m (start_in_workspace _ _ _ _ _ _ _) s) as [[asked s'] o]. exact Hstart.
Qed.

(** C17: the workspaces a phone is offered, from a scan that finished: a list that passes its own validation, each
    id once. Each directory found and each one a record has is offered, unless the list says how many it leaves
    out. A start of one of them, whenever it comes, launches in a directory of that id exactly as long as some
    record still has the workspace or the scan the start makes finds it again; where neither does, because the
    checkout is gone or that scan did not finish, it is refused as unknown_workspace and nothing is launched. *)
Theorem workspaces_offered_start (env : forall q, Answer q) m home scan s :
  store_ok sha256 s -> env ScanHome = Some scan ->
  let '(_, s', l) := run env m (workspaces sha256 home) s in
  s' = s /\ AgentWorkspaceList_validate l = Ok tt /\ NoDup (wd_workspace_id <$> wl_workspaces l)
  /\ (wl_omitted_workspaces l = 0 -> forall id path, (id, path) ∈ candidates scan s -> id ∈ wd_workspace_id <$> wl_workspaces l)
  /\ (forall w, w ∈ wl_workspaces l -> at_hand sha256 (wd_workspace_id w) scan s)
  /\ forall w (env1 : forall q, Answer q) m1 s1 command_id draw,
       w ∈ wl_workspaces l -> store_ok sha256 s1 -> answered command_id s1 = None ->
       let scan1 := default WorkspaceScan_default (env1 ScanHome) in
       let '(asked, _, outcome) := run env1 m1 (managed_start sha256 to_vec effective_uid (wd_workspace_id w) command_id draw) s1 in
       (at_hand sha256 (wd_workspace_id w) scan1 s1 ->
          exists found label, store_workspace_id sha256 found s1 = wd_workspace_id w
            /\ SpawnWorker (mkLaunchSpec (random_opaque_id draw) found None None None) label ∈ asked)
       /\ (~ at_hand sha256 (wd_workspace_id w) scan1 s1 -> asked = [ScanHome] /\ outcome = refused command_id "unknown_workspace").
Proof.
  intros Hok Henv. unfold workspaces. rewrite (run_ask env m ScanHome), Henv. unfold reading. cbn [run locked fst snd]. split; [done|].
  rewrite offered_ids. destruct (seen_facts (candidates scan s) [] (NoDup_nil_2)) as [Hd _]. split; [|split; [|split; [|split]]].
  - unfold AgentWorkspaceList_validate. cbn [list_workspaces wl_v wl_message_type rbind require_version].
    assert (len (wl_workspaces (list_workspaces sha256 home (Some scan) s)) <= MAX_WORKSPACE_LIST_ENTRIES) as Hlen.
    { unfold len. rewrite <- (length_fmap wd_workspace_id), offered_ids, length_take. lia. }
    rewrite (proj2 (N.ltb_ge _ _) Hlen). apply each_ok, Forall_forall. intros w Hw.
    destruct (offered_in home scan s w Hw) as (path & Hin & Hne & Hl). destruct (candidates_valid scan s _ _ Hok Hin) as [Hv _].
    unfold WorkspaceDescriptor_validate, empty_or_over. rewrite Hv. cbn [rbind]. rewrite (proj2 (N.ltb_ge _ _) Hl). by destruct (wd_display_label w).
  - eapply sublist_NoDup; [exact Hd|apply sublist_take].
  - cbn [list_workspaces wl_omitted_workspaces]. intros Hom id path Hin. change (len (foldl push_unseen [] (candidates scan s)) - MAX_WORKSPACE_LIST_ENTRIES = 0) in Hom.
    rewrite take_ge by (rewrite length_fmap; unfold len in Hom; lia). apply seen_all. by apply (list_elem_of_fmap_2 fst) in Hin.
  - intros w Hw. destruct (offered_in home scan s w Hw) as (path & Hin & _). by destruct (candidates_valid scan s _ _ Hok Hin).
  - intros w env1 m1 s1 command_id draw _ Hok1 Hnone. cbv zeta.
    pose proof (start_resolved env1 m1 (wd_workspace_id w) command_id draw s1 Hnone) as H.
    destruct (run env1 m1 _ s1) as [[asked s'] outcome]. rewrite resolve_at_hand.
    destruct (resolve_workspace _ _ _ s1) as [[found label]|] eqn:Hres.
    + split; [|intros Hn; exfalso; by apply Hn]. intros _. exists found, label. split; [by eapply resolve_id|exact H].
    + split; [by intros []|]. by intros _.
Qed.
End offered.

(** ** An operation alone, as a run of the world *)

Section alone.
Context (sha256 : list N -> list N) (to_vec : ManagedMetadataFile -> option bytes) (effective_uid : N).

Lemma runs_alone (env : forall q, Answer q) m i id p w :
  (forall q, sensible q (env q)) -> wd_tasks w !! i = Some (id, p) ->
  exists workers tasks, rtc (world_step sha256 to_vec effective_uid) w (mkWorld (run env m p (wd_store w)).1.2 workers tasks (wd_drawn w)).
Proof.
  intros Henv. revert w. induction p as [a|change next IH|q k IH]; intros w Hi.
  - exists (wd_workers w), (wd_tasks w). by destruct w.
  - edestruct (IH m (wd_store w) (mkWorld (change m (wd_store w)) (wd_workers w) (<[i := (id, next m (wd_store w))]> (wd_tasks w)) (wd_drawn w)))
      as (workers & tasks & Hsteps); [by apply list_lookup_insert_eq, (lookup_lt_Some _ _ _ Hi)|].
    exists workers, tasks. eapply rtc_l; [by apply StepSection|exact Hsteps].
  - edestruct (IH (env q) (mkWorld (wd_store w) (worked q (env q) (wd_workers w)) (<[i := (id, k (env q))]> (wd_tasks w)) (wd_drawn w)))
      as (workers & tasks & Hsteps); [by apply list_lookup_insert_eq, (lookup_lt_Some _ _ _ Hi)|].
    exists workers, tasks. eapply rtc_l; [apply (StepWaited _ _ _ i id q k (env q)); [done|apply Henv]|].
    cbn [run]. cbn [wd_store wd_drawn] in Hsteps. destruct (run env m (k (env q)) (wd_store w)) as [[asked s'] u]. exact Hsteps.
Qed.
End alone.
