(* ===== verification/Notify.v ===== *)
(** Push delivery of [notify.rs]: which alerts are sent and what they say, and the updates of the lock
    screen's live activities with their retries. The cipher, JSON, the digest and the relay's answers
    are parameters. *)
From S2P Require Import Prelude Text HostProtocol Qr PrivateFile Devices RateWindow Protocol Queries LiveActivity.

Local Open Scope N_scope.

Definition COALESCE_SECONDS : N := 60.
Definition RATE_LIMIT_WINDOW_SECONDS : N := 600.
Definition RATE_LIMIT_PER_WINDOW : N := 12.
Definition MAX_TRACKED_SESSIONS : N := 256.
Definition ATTEMPT_BACKOFF : list N := [2; 8].
Definition MAX_LIVE_ACTIVITY_SEALED_CHARACTERS : N := 3584.
Definition LIVE_ACTIVITY_HEARTBEAT_SECONDS : N := 15 * 60.
Definition LIVE_ACTIVITY_STALE_SECONDS : N := 20 * 60.
Definition LIVE_ACTIVITY_RETRY_SECONDS : N := 60.
Definition LIVE_ACTIVITY_MAX_RETRY_SECONDS : N := LIVE_ACTIVITY_HEARTBEAT_SECONDS.
Definition MAX_LIVE_ACTIVITY_ROWS : nat := 8.
Definition MAX_WORKSPACE_CHARACTERS : nat := 64.
Definition MAX_TITLE_CHARACTERS : nat := 100.
Definition MAX_REPLY_CHARACTERS : nat := 140.
Definition MAX_TAB_CHARACTERS : nat := 32.
Definition MAX_PAYLOAD_BYTES : N := 700.
Definition MAX_HOST_CHARACTERS : nat := 64.

(** ** The gate *)

Record NotifyGate := mkNotifyGate { ng_recent : gmap string N; ng_window : list N }.

Definition NotifyGate_default : NotifyGate := mkNotifyGate ∅ [].

Definition allow (session_id : string) (now : N) (g : NotifyGate) : NotifyGate * bool :=
  let recent := filter (fun '(_, last) => now - last < COALESCE_SECONDS) (ng_recent g) in
  let window := pop_stale RATE_LIMIT_WINDOW_SECONDS now (ng_window g) in
  if is_some (recent !! session_id) || (RATE_LIMIT_PER_WINDOW <=? len window) then (mkNotifyGate recent window, false)
  else if is_none (recent !! session_id) && (MAX_TRACKED_SESSIONS <=? N.of_nat (size recent)) then (mkNotifyGate recent window, false)
  else (mkNotifyGate (<[session_id := now]> recent) (window ++ [now]), true).

(** Requests one after the other, and those let through. *)
Definition passed (s : NotifyGate * list (string * N)) (request : string * N) : NotifyGate * list (string * N) :=
  let '(g, log) := s in let '(session_id, now) := request in
  let '(g, ok) := allow session_id now g in (g, if ok then log ++ [(session_id, now)] else log).

Definition fresh (now : N) (l : list (string * N)) : list (string * N) := List.filter (fun '(_, t) => now - t <? COALESCE_SECONDS) l.

(** What the gate knows of those it let through. *)
Record gate_ok (now : N) (g : NotifyGate) (log : list (string * N)) : Prop := {
  go_before : Forall (fun '(_, t) => t <= now) log;
  go_ascending : ascending (ng_window g);
  go_window_before : Forall (fun t => t <= now) (ng_window g);
  go_window later : now <= later ->
    recent RATE_LIMIT_WINDOW_SECONDS later (ng_window g) = recent RATE_LIMIT_WINDOW_SECONDS later (snd <$> log);
  go_recent later : now <= later -> fresh later (map_to_list (ng_recent g)) ≡ₚ fresh later log;
  go_few t : len (window RATE_LIMIT_WINDOW_SECONDS t (snd <$> log)) <= RATE_LIMIT_PER_WINDOW;
  go_once id t : len (window COALESCE_SECONDS t (times_of id log)) <= 1
}.

Lemma fresh_filter now (m : gmap string N) :
  map_to_list (filter (fun '(_, last) => now - last < COALESCE_SECONDS) m) ≡ₚ fresh now (map_to_list m).
Proof.
  apply NoDup_Permutation; [apply NoDup_map_to_list|eapply sublist_NoDup; [apply NoDup_map_to_list|apply filter_sublist]|].
  intros [id t]. rewrite elem_of_map_to_list, map_lookup_filter_Some. unfold fresh.
  rewrite list_elem_of_In, List.filter_In, <- list_elem_of_In, elem_of_map_to_list, N.ltb_lt. done.
Qed.

Lemma fresh_fresh now later l : now <= later -> fresh later (fresh now l) = fresh later l.
Proof.
  intros Hle. unfold fresh. induction l as [|[id t] l IH]; [done|]. cbn [List.filter].
  destruct (N.ltb_spec (now - t) COALESCE_SECONDS); cbn [List.filter]; [by rewrite IH|]. by rewrite (proj2 (N.ltb_ge _ _)) by lia.
Qed.

#[export] Instance fresh_Permutation now : Proper ((≡ₚ) ==> (≡ₚ)) (fresh now).
Proof.
  intros l k H. unfold fresh. induction H as [|[id t] l k H IH|[id t] [id' t'] l|l k k' H1 IH1 H2 IH2]; cbn.
  - done.
  - case_match; by rewrite IH.
  - repeat case_match; try done. apply Permutation_swap.
  - by etrans.
Qed.

Lemma fresh_window now (log : list (string * N)) :
  Forall (fun '(_, t) => t <= now) log -> len (fresh now log) <= len (recent RATE_LIMIT_WINDOW_SECONDS now (snd <$> log)).
Proof.
  intros _. unfold fresh, recent. induction log as [|[id t] log IH]; [done|]. cbn [List.filter fmap list_fmap snd].
  destruct (N.ltb_spec (now - t) COALESCE_SECONDS) as [Hlt|], (N.ltb_spec (now - t) RATE_LIMIT_WINDOW_SECONDS) as [|Hge];
    rewrite ?len_cons; try lia. unfold COALESCE_SECONDS, RATE_LIMIT_WINDOW_SECONDS in *. lia.
Qed.

(** The gate once it swept, at [now]. *)
Definition swept (now : N) (g : NotifyGate) : NotifyGate :=
  mkNotifyGate (filter (fun '(_, last) => now - last < COALESCE_SECONDS) (ng_recent g))
    (pop_stale RATE_LIMIT_WINDOW_SECONDS now (ng_window g)).

Lemma gate_ok_swept before now g log : gate_ok before g log -> before <= now -> gate_ok now (swept now g) log.
Proof.
  intros [] Hle. unfold swept. split; cbn [ng_recent ng_window]; try rewrite pop_stale_recent by done; try done.
  - eapply Forall_impl; [exact go_before0|]. intros []; lia.
  - by apply recent_ascending.
  - eapply Forall_sublist; [apply filter_sublist|]. eapply Forall_impl; [exact go_window_before0|]. cbn. lia.
  - intros later Hl. rewrite recent_recent by done. apply go_window0. lia.
  - intros later Hl. rewrite fresh_filter, fresh_fresh by done. apply go_recent0. lia.
Qed.

(** What the sweep leaves is what was let through in the last minute and the last ten. *)
Lemma swept_recent before now g log id :
  gate_ok before g log -> before <= now ->
  is_Some (ng_recent (swept now g) !! id) <-> exists t, (id, t) ∈ log /\ now - t < COALESCE_SECONDS.
Proof.
  intros [] Hle. split.
  - intros [t Ht]. cbn in Ht. exists t. apply map_lookup_filter_Some in Ht as [Ht Hlt]. split; [|done].
    assert ((id, t) ∈ fresh now (map_to_list (ng_recent g))) as Hin.
    { unfold fresh. apply list_elem_of_In, List.filter_In. rewrite <- list_elem_of_In, elem_of_map_to_list. split; [done|by apply N.ltb_lt]. }
    rewrite go_recent0 in Hin by done. by apply list_elem_of_In, List.filter_In in Hin as [Hin%list_elem_of_In _].
  - intros (t & Hin & Hlt). exists t. cbn. apply map_lookup_filter_Some. split; [|done]. apply elem_of_map_to_list.
    assert ((id, t) ∈ fresh now log) as Hf.
    { unfold fresh. apply list_elem_of_In, List.filter_In. rewrite <- list_elem_of_In. split; [done|by apply N.ltb_lt]. }
    rewrite <- go_recent0 in Hf by done. by apply list_elem_of_In, List.filter_In in Hf as [Hf%list_elem_of_In _].
Qed.

Lemma gate_swept_size before now g log :
  gate_ok before g log -> before <= now -> N.of_nat (size (ng_recent (swept now g))) <= len (ng_window (swept now g)).
Proof.
  intros Hok Hle. pose proof (gate_ok_swept _ _ _ _ Hok Hle) as Hs. destruct Hok.
  replace (N.of_nat (size (ng_recent (swept now g)))) with (len (map_to_list (ng_recent (swept now g)))) by by unfold len; rewrite length_map_to_list.
  cbn [swept ng_recent ng_window]. unfold len. rewrite fresh_filter, go_recent0, pop_stale_recent, go_window0 by done.
  apply fresh_window. by destruct Hs.
Qed.

Lemma len_bounded_window before now g log :
  gate_ok before g log -> before <= now -> len (ng_window (swept now g)) <= RATE_LIMIT_PER_WINDOW.
Proof.
  intros [] Hle. cbn. rewrite pop_stale_recent, go_window0 by done. etrans; [|apply (go_few0 now)]. unfold recent, window.
  assert (Forall (fun t => t <= now) (snd <$> log)) as Hb.
  { rewrite Forall_fmap. eapply Forall_impl; [exact go_before0|]. intros []; cbn; lia. }
  clear -Hb. induction Hb as [|t l Ht Hl IH]; [done|]. cbn [List.filter]. rewrite (proj2 (N.leb_le t now) Ht). cbn [andb].
  case_match; rewrite ?len_cons; lia.
Qed.

(** Why a request is refused. *)
Lemma allow_cases before now g log id :
  gate_ok before g log -> before <= now ->
  let full := (RATE_LIMIT_PER_WINDOW <=? len (ng_window (swept now g))) in
  let seen := is_some (ng_recent (swept now g) !! id) in
  allow id now g
  = (if seen || full then (swept now g, false)
     else (mkNotifyGate (<[id := now]> (ng_recent (swept now g))) (ng_window (swept now g) ++ [now]), true)).
Proof.
  intros Hok Hle. cbn zeta. unfold allow. fold (swept now g). change (filter _ (ng_recent g)) with (ng_recent (swept now g)).
  change (pop_stale _ _ _) with (ng_window (swept now g)). destruct (is_some _ || _) eqn:Hor; [done|].
  apply orb_false_iff in Hor as [_ Hfull]. apply N.leb_gt in Hfull.
  pose proof (gate_swept_size _ _ _ _ Hok Hle) as Hs. unfold RATE_LIMIT_PER_WINDOW, MAX_TRACKED_SESSIONS in *.
  rewrite (proj2 (N.leb_gt _ _)) by lia. by rewrite andb_false_r.
Qed.

Lemma fresh_snoc t l id a : fresh t (l ++ [(id, a)]) = fresh t l ++ (if t - a <? COALESCE_SECONDS then [(id, a)] else []).
Proof. unfold fresh. by rewrite List.filter_app. Qed.

Lemma times_recent id now log : recent COALESCE_SECONDS now (times_of id log) = times_of id (fresh now log).
Proof.
  unfold recent, times_of, fresh. induction log as [|[e t] log IH]; [done|]. cbn [List.filter].
  destruct (e =s? id) eqn:He, (now - t <? COALESCE_SECONDS) eqn:Ht; rewrite ?fmap_cons; cbn [List.filter snd]; rewrite ?He, ?Ht, ?IH; done.
Qed.

Lemma gate_ok_passed now g log id :
  gate_ok now g log -> len (ng_window g) < RATE_LIMIT_PER_WINDOW -> ng_recent g !! id = None ->
  ng_window g = recent RATE_LIMIT_WINDOW_SECONDS now (snd <$> log) -> (forall t, (id, t) ∈ log -> COALESCE_SECONDS <= now - t) ->
  gate_ok now (mkNotifyGate (<[id := now]> (ng_recent g)) (ng_window g ++ [now])) (log ++ [(id, now)]).
Proof.
  intros [] Hroom Hnone Hw Hold. split; cbn [ng_recent ng_window].
  - apply Forall_app. split; [done|]. by repeat constructor.
  - by apply ascending_snoc.
  - apply Forall_app. split; [done|]. by repeat constructor.
  - intros later Hl. rewrite fmap_app. change (snd <$> [(id, now)]) with [now]. by rewrite !recent_snoc, go_window0.
  - intros later Hl. rewrite map_to_list_insert by done. rewrite fresh_snoc. unfold fresh at 1. cbn [List.filter].
    fold (fresh later (map_to_list (ng_recent g))). case_match; rewrite go_recent0 by done; [|by rewrite app_nil_r].
    by rewrite Permutation_cons_append.
  - intros t. rewrite fmap_app. cbn [snd fmap list_fmap]. rewrite window_snoc. destruct (N.leb_spec now t) as [Hle|]; cbn [andb].
    + pose proof (window_recent RATE_LIMIT_WINDOW_SECONDS now t (snd <$> log) Hle) as Hr. rewrite <- Hw in Hr. case_match; lia.
    + specialize (go_few0 t). lia.
  - intros e t. rewrite times_of_snoc. destruct (String.eqb_spec id e) as [<-|]; [|done]. rewrite window_snoc.
    destruct (N.leb_spec now t) as [Hle|]; cbn [andb]; [|specialize (go_once0 id t); lia].
    pose proof (window_recent COALESCE_SECONDS now t (times_of id log) Hle) as Hr. rewrite times_recent in Hr.
    assert (times_of id (fresh now log) = []) as Hnil.
    { unfold times_of, fresh. clear -Hold. induction log as [|[e t'] log IH]; [done|]. cbn [List.filter].
      assert (forall t, (id, t) ∈ log -> COALESCE_SECONDS <= now - t) as Hlog by (intros; apply Hold; by right).
      destruct (N.ltb_spec (now - t') COALESCE_SECONDS) as [Hlt|]; [|by apply IH]. cbn [List.filter].
      destruct (String.eqb_spec e id) as [->|]; [|by apply IH]. specialize (Hold t' ltac:(left)). lia. }
    rewrite Hnil, len_nil in Hr. case_match; lia.
Qed.

Lemma passed_ok before now g log id :
  gate_ok before g log -> before <= now -> gate_ok now (passed (g, log) (id, now)).1 (passed (g, log) (id, now)).2.
Proof.
  intros Hok Hle. pose proof (gate_ok_swept _ _ _ _ Hok Hle) as Hs. unfold passed. rewrite (allow_cases _ _ _ _ id Hok Hle).
  destruct (is_some _ || _) eqn:Hor; cbn [fst snd]; [done|]. apply orb_false_iff in Hor as [Hseen Hfull].
  assert (ng_recent (swept now g) !! id = None) as Hnone by by destruct (ng_recent (swept now g) !! id).
  apply (gate_ok_passed now (swept now g) log id); [done|by apply N.leb_gt in Hfull|done|..].
  - destruct Hok. cbn. by rewrite pop_stale_recent, go_window0.
  - intros t Ht. destruct (N.le_gt_cases COALESCE_SECONDS (now - t)) as [|Hlt]; [done|].
    destruct (proj2 (swept_recent _ _ _ _ id Hok Hle) (ex_intro _ t (conj Ht Hlt))) as [x Hx]. congruence.
Qed.

(** Alerts do not pile up: over any sequence of requests, at most twelve are let through in any ten
    minutes and at most one of a session in any minute; one more is refused only because its session was
    let through in the last minute, or twelve were in the last ten; so the bound on tracked sessions is
    never what refuses. *)
Theorem alerts_bounded requests id now :
  ascending (snd <$> requests) -> Forall (fun t => t <= now) (snd <$> requests) ->
  let '(g, log) := foldl passed (NotifyGate_default, []) requests in
  (forall t, len (window RATE_LIMIT_WINDOW_SECONDS t (snd <$> log)) <= RATE_LIMIT_PER_WINDOW)
  /\ (forall e t, len (window COALESCE_SECONDS t (times_of e log)) <= 1)
  /\ ((allow id now g).2 = false <->
       (exists t, (id, t) ∈ log /\ now - t < COALESCE_SECONDS)
       \/ len (recent RATE_LIMIT_WINDOW_SECONDS now (snd <$> log)) = RATE_LIMIT_PER_WINDOW).
Proof.
  intros Hasc Hnow.
  enough (forall start g log, gate_ok start g log -> start <= now -> Forall (fun t => start <= t) (snd <$> requests) ->
    exists t, t <= now /\ gate_ok t (foldl passed (g, log) requests).1 (foldl passed (g, log) requests).2) as H.
  { destruct (H 0 NotifyGate_default []) as (t & Ht & Hok); [|lia|apply Forall_forall; lia|].
    - split; intros; try done; by constructor.
    - destruct (foldl passed _ requests) as [g log]. cbn [fst snd] in Hok.
      pose proof (len_bounded_window _ _ _ _ Hok Ht) as Hfew. rewrite (allow_cases _ _ _ _ id Hok Ht).
      assert (ng_window (swept now g) = recent RATE_LIMIT_WINDOW_SECONDS now (snd <$> log)) as Hw.
      { destruct Hok. cbn. by rewrite pop_stale_recent, go_window0. }
      rewrite Hw in Hfew |- *. pose proof (swept_recent _ _ _ _ id Hok Ht) as Hseen. destruct Hok. split_and!; [done..|].
      rewrite <- Hseen. destruct (ng_recent (swept now g) !! id) as [x|]; cbn [is_some is_none negb orb].
      + split; [|done]. intros _. left. by exists x.
      + destruct (N.leb_spec RATE_LIMIT_PER_WINDOW (len (recent RATE_LIMIT_WINDOW_SECONDS now (snd <$> log)))); cbn [snd].
        * split; [|done]. intros _. right. lia.
        * split; [done|]. intros [[x Hx]|Hx]; [done|lia]. }
  clear id. induction requests as [|[e t] requests IH]; intros start g log Hok Hs Hstart; [by exists start|].
  rewrite fmap_cons in Hasc, Hnow, Hstart. apply StronglySorted_inv in Hasc as [Hasc Hall].
  apply Forall_cons in Hstart as [Hstart _]. apply Forall_cons in Hnow as [Hn Hnow].
  pose proof (passed_ok start t g log e Hok Hstart) as Hc. cbn [foldl].
  destruct (passed (g, log) (e, t)) as [g' log']. by apply (IH Hasc Hnow t).
Qed.

(** ** What an alert says *)

Definition bounded (value : string) (characters : nat) : string :=
  if (length (chars value) <=? characters)%nat then value
  else (sconcat (take (characters - 1) (chars value)) +:+ ellipsis)%string.

(** The sealed JSON object; what is [None] is absent. *)
Record AlertPayload := mkAlertPayload {
  ap_session : string; ap_workspace : string; ap_host : string; ap_kind : string;
  ap_tab : option string; ap_title : option string; ap_reply : option string }.

Definition optional_field (value : option string) (bound : nat) : option string :=
  value ← value; let value := bounded value bound in if slen value =? 0 then None else Some value.

Definition drop_title (p : AlertPayload) : AlertPayload :=
  mkAlertPayload (ap_session p) (ap_workspace p) (ap_host p) (ap_kind p) (ap_tab p) None (ap_reply p).
Definition drop_reply (p : AlertPayload) : AlertPayload :=
  mkAlertPayload (ap_session p) (ap_workspace p) (ap_host p) (ap_kind p) (ap_tab p) (ap_title p) None.
Definition drop_tab (p : AlertPayload) : AlertPayload :=
  mkAlertPayload (ap_session p) (ap_workspace p) (ap_host p) (ap_kind p) None (ap_title p) (ap_reply p).

Definition relay_attempt_is_retryable (status : N) : bool := (status =? 0) || ((500 <=? status) && (status <=? 599)).

Inductive DeliverEnd := Delivered | TicketForgotten | RelayRefused | GaveUp.

(** The answers of the relay, attempt by attempt; [None] is a post that failed here. *)
Fixpoint deliver_loop (attempts attempt : nat) (answer : nat -> option (N * string)) : DeliverEnd * nat :=
  match attempts with
  | O => (GaveUp, attempt)
  | S attempts =>
      match answer attempt with
      | Some (status, _) =>
          if status =? 204 then (Delivered, S attempt)
          else if status =? 400 then (TicketForgotten, S attempt)
          else if negb (relay_attempt_is_retryable status) then (RelayRefused, S attempt)
          else deliver_loop attempts (S attempt) answer
      | None => deliver_loop attempts (S attempt) answer
      end
  end.

(** [deliver]: how it ends, and the posts it made. *)
Definition deliver (answer : nat -> option (N * string)) : DeliverEnd * nat :=
  deliver_loop (S (length ATTEMPT_BACKOFF)) 0 answer.

Section notify.
(** [serde_json] on the payloads, ChaCha20-Poly1305 on key, nonce, text and associated data, base64,
    SHA-256 of a text, the devices' crates. *)
Context (payload_text : AlertPayload -> string).
Context (encrypt : bytes -> bytes -> bytes -> bytes -> option bytes).
Context (encode_base64 : bytes -> string) (decode_base64 : string -> option bytes).

(** The keys of the loop that sheds, in its order. *)
Fixpoint shed_fields (keys : list (AlertPayload -> AlertPayload)) (p : AlertPayload) : AlertPayload :=
  match keys with
  | [] => p
  | remove :: keys => if slen (payload_text p) <=? MAX_PAYLOAD_BYTES then p else shed_fields keys (remove p)
  end.

Definition full_payload (session_id : string) (facts : NotificationFacts) (host kind : string) : AlertPayload :=
  mkAlertPayload session_id (bounded (nf_workspace facts) MAX_WORKSPACE_CHARACTERS) (bounded host MAX_HOST_CHARACTERS) kind
    (optional_field (nf_tab facts) MAX_TAB_CHARACTERS) (optional_field (nf_subject facts) MAX_TITLE_CHARACTERS)
    (optional_field (nf_reply facts) MAX_REPLY_CHARACTERS).

Definition payload (session_id : string) (facts : NotificationFacts) (host kind : string) : AlertPayload :=
  shed_fields [drop_title; drop_reply; drop_tab] (full_payload session_id facts host kind).

(** Bytes of a text. *)
Definition as_bytes (s : string) : bytes := nb <$> String.list_ascii_of_string s.

Definition PAYLOAD_AAD : bytes := as_bytes "ciao-notify-payload-v1".
Definition LIVE_ACTIVITY_AAD : bytes := as_bytes "ciao-notify-activity-v1".

Definition seal_with_nonce (key plaintext aad nonce : bytes) : option string :=
  (fun sealed => encode_base64 (nonce ++ sealed)) <$> encrypt key nonce plaintext aad.

(** [notify]: what each ticket is sent, the [i]-th sealed with the [i]-th nonce drawn. *)
Definition notify (nonce : nat -> bytes) (host session_id : string) (facts : NotificationFacts) (kind : string) (now : N)
    (devices : PairedDeviceStore) (g : NotifyGate) : NotifyGate * list (string * option string) :=
  let '(g, ok) := allow session_id now g in
  if negb ok then (g, [])
  else
    let plaintext := as_bytes (payload_text (payload session_id facts host kind)) in
    (g, imap (fun i '(ticket, key) => (ticket, key ← key; seal_with_nonce key plaintext PAYLOAD_AAD (nonce i)))
          (push_targets decode_base64 devices)).

(** ** Live activities *)

Record LiveActivitySemanticRow := mkLiveActivitySemanticRow {
  sr_id : string; sr_agent : string; sr_workspace : string; sr_prompt : option string; sr_state : string }.

Record LiveActivityRow := mkLiveActivityRow { rw_row : LiveActivitySemanticRow; rw_updated_at : N }.

Record LiveActivityPayload := mkLiveActivityPayload {
  lp_v : N; lp_host : string; lp_updated_at : N; lp_sessions : list LiveActivityRow }.

Record DeliveredLiveActivity := mkDeliveredLiveActivity {
  dl_ticket_fingerprint : bytes; dl_semantic_rows : list LiveActivitySemanticRow; dl_payload : LiveActivityPayload; dl_at : N }.

Record LiveActivityDeliveryState := mkLiveActivityDeliveryState {
  sa_delivered : option DeliveredLiveActivity; sa_consecutive_failures : N; sa_next_attempt_at : N;
  sa_last_timestamp : N; sa_generation : N }.

Definition LiveActivityDeliveryState_default : LiveActivityDeliveryState := mkLiveActivityDeliveryState None 0 0 0 0.

Record LiveActivityJob := mkLiveActivityJob {
  jb_endpoint_id : string; jb_ticket : string; jb_sealed : string; jb_timestamp : N; jb_stale_at : N;
  jb_generation : N; jb_delivered : DeliveredLiveActivity }.

Inductive LiveActivityRefusal := TokenDead | TicketRefused | ShapeRefused | Ambiguous.

Definition classify_live_activity_refusal (detail : string) : LiveActivityRefusal :=
  if detail =s? "bad_token" then TokenDead
  else if detail =s? "bad_ticket" then TicketRefused
  else if detail =s? "bad_shape" then ShapeRefused else Ambiguous.

#[export] Instance LiveActivitySemanticRow_eq_dec : EqDecision LiveActivitySemanticRow.
Proof. solve_decision. Defined.

(** The order of the rows: by state, then workspace, then id; ties as they came. *)
Definition row_leb (l r : LiveActivitySemanticRow) : bool :=
  match N.compare (state_priority (sr_state l)) (state_priority (sr_state r)) with
  | Lt => true
  | Gt => false
  | Eq => match String.compare (sr_workspace l) (sr_workspace r) with
          | Lt => true
          | Gt => false
          | Eq => String.leb (sr_id l) (sr_id r)
          end
  end.

Fixpoint insert_row (x : LiveActivitySemanticRow) (l : list LiveActivitySemanticRow) : list LiveActivitySemanticRow :=
  match l with
  | [] => [x]
  | y :: l' => if row_leb x y then x :: l else y :: insert_row x l'
  end.

Definition sort_rows (l : list LiveActivitySemanticRow) : list LiveActivitySemanticRow := foldr insert_row [] l.

Definition current_row (overview : LiveActivityOverview) (s : LiveActivitySelection) : LiveActivitySemanticRow :=
  let labels := fact overview (ls_session_id s) ≫= lf_labels in
  mkLiveActivitySemanticRow (ls_session_id s) (from_option la_agent (ls_adapter s) labels)
    (from_option la_workspace (ls_workspace s) labels) (labels ≫= la_prompt)
    (from_option lf_state "unknown"%string (fact overview (ls_session_id s))).

Definition current_rows (overview : LiveActivityOverview) (target : LiveActivityTarget) : list LiveActivitySemanticRow :=
  sort_rows (current_row overview <$> take MAX_LIVE_ACTIVITY_ROWS (lt_selections target)).

Context (sha256 : bytes -> bytes) (payload_json : LiveActivityPayload -> option bytes).

Definition live_activity_ticket_fingerprint (ticket : string) : bytes := sha256 (as_bytes ticket).

Definition semantic_rows (p : LiveActivityPayload) : list LiveActivitySemanticRow := rw_row <$> lp_sessions p.

Definition row_since (previous : option DeliveredLiveActivity) (now : N) (row : LiveActivitySemanticRow) : LiveActivityRow :=
  mkLiveActivityRow row
    (from_option rw_updated_at now
       (previous ≫= fun d => List.find (fun r => bool_decide (rw_row r = row)) (lp_sessions (dl_payload d)))).

(** The payload to send, when the state changed or the heartbeat is due. *)
Definition live_activity_delivery (host : string) (target : LiveActivityTarget) (overview : LiveActivityOverview)
    (previous : option DeliveredLiveActivity) (now : N) : option LiveActivityPayload :=
  let current := current_rows overview target in
  let changed := negb (is_some_and (fun d =>
                         bool_decide (dl_ticket_fingerprint d = live_activity_ticket_fingerprint (lt_ticket target))
                         && bool_decide (dl_semantic_rows d = current)) previous) in
  let heartbeat_due := is_some_and (fun d => LIVE_ACTIVITY_HEARTBEAT_SECONDS <=? now - dl_at d) previous in
  if negb changed && negb heartbeat_due then None
  else Some (mkLiveActivityPayload 1 (bounded_utf8 host MAX_LIVE_ACTIVITY_DISPLAY_BYTES) now (row_since previous now <$> current)).

Definition live_activity_retry_delay (failures : N) : N :=
  N.min (N.min (LIVE_ACTIVITY_RETRY_SECONDS * 2 ^ N.min (failures - 1) 16) u64_max) LIVE_ACTIVITY_MAX_RETRY_SECONDS.

(** A failed round: [from] is when it began. *)
Definition backed_off (from delay : N) (s : LiveActivityDeliveryState) : LiveActivityDeliveryState :=
  mkLiveActivityDeliveryState (sa_delivered s) (sat_add32 (sa_consecutive_failures s) 1) (sat_add64 from delay)
    (sa_last_timestamp s) (sa_generation s).

Definition failed_round (from : N) (s : LiveActivityDeliveryState) : LiveActivityDeliveryState :=
  backed_off from (live_activity_retry_delay (sat_add32 (sa_consecutive_failures s) 1)) s.

Definition sealed_payload (key nonce : bytes) (p : LiveActivityPayload) : option string :=
  plaintext ← payload_json p;
  sealed ← seal_with_nonce key plaintext LIVE_ACTIVITY_AAD nonce;
  if slen sealed <=? MAX_LIVE_ACTIVITY_SEALED_CHARACTERS then Some sealed else None.

Definition prepare_live_activity_job (host : string) (target : LiveActivityTarget) (overview : LiveActivityOverview)
    (now : N) (nonce : bytes) (s : LiveActivityDeliveryState) : LiveActivityDeliveryState * option LiveActivityJob :=
  if now <? sa_next_attempt_at s then (s, None)
  else
    match live_activity_delivery host target overview (sa_delivered s) now with
    | None => (s, None)
    | Some p =>
        match sealed_payload (lt_key target) nonce p with
        | None => (failed_round now s, None)
        | Some sealed =>
            let generation := wrap_add64 (sa_generation s) 1 in
            let timestamp := N.max now (sat_add64 (sa_last_timestamp s) 1) in
            (mkLiveActivityDeliveryState (sa_delivered s) (sa_consecutive_failures s) (sa_next_attempt_at s) timestamp generation,
             Some (mkLiveActivityJob (lt_endpoint_id target) (lt_ticket target) sealed timestamp
                     (sat_add64 timestamp LIVE_ACTIVITY_STALE_SECONDS) generation
                     (mkDeliveredLiveActivity (live_activity_ticket_fingerprint (lt_ticket target)) (semantic_rows p) p now)))
        end
    end.

(** ** Sweeps and deliveries *)

Context {EndpointId : Type} (to_string : EndpointId -> string) (from_str : string -> option EndpointId).
Context (to_vec_pretty : PairedDevicesFile -> option bytes) (effective_uid : N).

Abbreviation deliveries := (gmap string LiveActivityDeliveryState).

Definition has_live_activity_interest (devices : PairedDeviceStore) (states : deliveries) : deliveries * bool :=
  if len (live_activity_targets decode_base64 devices) =? 0 then (∅, false) else (states, true).

Definition prepared_job (job : option LiveActivityJob) : list LiveActivityJob := match job with Some job => [job] | None => [] end.

(** One target of the sweep. *)
Definition sweep_target (host : string) (overview : LiveActivityOverview) (now : N) (nonce : string -> bytes)
    (acc : deliveries * list LiveActivityJob) (target : LiveActivityTarget) : deliveries * list LiveActivityJob :=
  let '(states, jobs) := acc in
  let endpoint_id := lt_endpoint_id target in
  let '(s, job) := prepare_live_activity_job host target overview now (nonce endpoint_id)
                     (default LiveActivityDeliveryState_default (states !! endpoint_id)) in
  (<[endpoint_id := s]> states, jobs ++ prepared_job job).

Definition refresh_live_activities (host : string) (overview : LiveActivityOverview) (now : N) (nonce : string -> bytes)
    (devices : PairedDeviceStore) (states : deliveries) : deliveries * list LiveActivityJob :=
  let targets := live_activity_targets decode_base64 devices in
  if len targets =? 0 then (∅, [])
  else
    foldl (sweep_target host overview now nonce)
      (filter (fun '(endpoint_id, _) => endpoint_id ∈ (list_to_set (lt_endpoint_id <$> targets) : gset string)) states, [])
      targets.

Definition generation_is_current (endpoint_id : string) (generation : N) (states : deliveries) : bool :=
  is_some_and (fun s => sa_generation s =? generation) (states !! endpoint_id).

(** What a task may write of its endpoint, if it is still the current one. *)
Definition if_current (job : LiveActivityJob) (f : LiveActivityDeliveryState -> LiveActivityDeliveryState) (states : deliveries)
  : deliveries :=
  if generation_is_current (jb_endpoint_id job) (jb_generation job) states
  then alter f (jb_endpoint_id job) states else states.

Definition record_live_activity_success (job : LiveActivityJob) (states : deliveries) : deliveries :=
  if_current job (fun s => mkLiveActivityDeliveryState (Some (jb_delivered job)) 0 0 (sa_last_timestamp s) (sa_generation s)) states.

Definition record_live_activity_failure (job : LiveActivityJob) (states : deliveries) : deliveries :=
  if_current job (failed_round (jb_timestamp job)) states.

Definition record_live_activity_refusal (failed_at : option write_step) (job : LiveActivityJob) (detail : string)
    (devices : PairedDeviceStore) (states : deliveries) : PairedDeviceStore * deliveries :=
  match classify_live_activity_refusal detail with
  | TokenDead =>
      (match validate_endpoint_id from_str (jb_endpoint_id job) with
       | Ok endpoint => (clear_live_activity to_vec_pretty to_string effective_uid failed_at endpoint devices).1
       | Err _ => devices
       end, delete (jb_endpoint_id job) states)
  | _ => (devices, if_current job (backed_off (jb_timestamp job) LIVE_ACTIVITY_MAX_RETRY_SECONDS) states)
  end.

(** [forget]; the [i]-th write fails where the [i]-th of [failures] says. *)
Fixpoint forget_each (failures : list (option write_step)) (stale : list string) (devices : PairedDeviceStore) : PairedDeviceStore :=
  match stale with
  | [] => devices
  | endpoint_id :: stale =>
      match validate_endpoint_id from_str endpoint_id with
      | Ok endpoint =>
          forget_each (tail failures) stale
            (set_push_ticket to_vec_pretty to_string effective_uid (default None (head failures)) endpoint None devices).1
      | Err _ => forget_each failures stale devices
      end
  end.

Definition forget (failures : list (option write_step)) (ticket : string) (devices : PairedDeviceStore) : PairedDeviceStore :=
  forget_each failures
    (pd_endpoint_id <$> List.filter (fun d => bool_decide (pd_push_ticket d = Some ticket)) (ds_devices devices)) devices.

(** Where a delivery is within an attempt: the check that it is current takes the lock and lets go of it,
    the post is made on a thread of its own, and then its answer is awaited. *)
Inductive TaskStage := AboutToCheck | AboutToPost | AwaitingRelay.

Record Task := mkTask { tk_job : LiveActivityJob; tk_attempt : nat; tk_stage : TaskStage }.

(** The notifier, the tasks under way, the jobs ever prepared, those a post confirmed, and the posts made,
    newest first. *)
Record Deliveries := mkDeliveries {
  de_devices : PairedDeviceStore; de_states : deliveries; de_tasks : list Task;
  de_prepared : list LiveActivityJob; de_confirmed : list LiveActivityJob; de_posts : list LiveActivityJob }.

(** [deliver_live_activity] once the relay answered. *)
Definition answered (failed_at : option write_step) (answer : option (N * string)) (t : Task) (d : Deliveries)
  : Deliveries :=
  let '(mkDeliveries devices states tasks prepared confirmed posts) := d in
  let job := tk_job t in
  let retry :=
    if (tk_attempt t <? length ATTEMPT_BACKOFF)%nat
    then mkDeliveries devices states (mkTask job (S (tk_attempt t)) AboutToCheck :: tasks) prepared confirmed posts
    else mkDeliveries devices (record_live_activity_failure job states) tasks prepared confirmed posts in
  match answer with
  | Some (status, detail) =>
      if status =? 204 then mkDeliveries devices (record_live_activity_success job states) tasks prepared (job :: confirmed) posts
      else if status =? 400 then
        let '(devices, states) := record_live_activity_refusal failed_at job (trim detail) devices states in
        mkDeliveries devices states tasks prepared confirmed posts
      else if negb (relay_attempt_is_retryable status)
      then mkDeliveries devices (record_live_activity_failure job states) tasks prepared confirmed posts
      else retry
  | None => retry
  end.

(** Sweeps, tasks and devices in any order. An instant is a [u64]. A sweep reads the devices before it
    takes the lock of the deliveries, so it may act on what they were, on [seen]. *)
Inductive delivery_step : Deliveries -> Deliveries -> Prop :=
| DeliverySweep host overview now nonce seen devices states tasks prepared confirmed posts :
    now <= u64_max ->
    delivery_step (mkDeliveries devices states tasks prepared confirmed posts)
      (let '(states, jobs) := refresh_live_activities host overview now nonce seen states in
       mkDeliveries devices states (((fun job => mkTask job 0 AboutToCheck) <$> jobs) ++ tasks) (jobs ++ prepared) confirmed posts)
| DeliveryInterest seen devices states tasks prepared confirmed posts :
    delivery_step (mkDeliveries devices states tasks prepared confirmed posts)
      (mkDeliveries devices (has_live_activity_interest seen states).1 tasks prepared confirmed posts)
| DeliveryCheck devices states before t after prepared confirmed posts :
    tk_stage t = AboutToCheck ->
    delivery_step (mkDeliveries devices states (before ++ t :: after) prepared confirmed posts)
      (if generation_is_current (jb_endpoint_id (tk_job t)) (jb_generation (tk_job t)) states
       then mkDeliveries devices states (before ++ mkTask (tk_job t) (tk_attempt t) AboutToPost :: after) prepared confirmed posts
       else mkDeliveries devices states (before ++ after) prepared confirmed posts)
| DeliveryPost devices states before t after prepared confirmed posts :
    tk_stage t = AboutToPost ->
    delivery_step (mkDeliveries devices states (before ++ t :: after) prepared confirmed posts)
      (mkDeliveries devices states (before ++ mkTask (tk_job t) (tk_attempt t) AwaitingRelay :: after) prepared confirmed (tk_job t :: posts))
| DeliveryAnswer failed_at answer devices states before t after prepared confirmed posts :
    tk_stage t = AwaitingRelay ->
    delivery_step (mkDeliveries devices states (before ++ t :: after) prepared confirmed posts)
      (answered failed_at answer t (mkDeliveries devices states (before ++ after) prepared confirmed posts))
| DeliveryDevices op failed_at devices states tasks prepared confirmed posts :
    delivery_step (mkDeliveries devices states tasks prepared confirmed posts)
      (mkDeliveries (operate to_vec_pretty encode_base64 to_string effective_uid op failed_at devices) states tasks prepared confirmed posts).

Definition deliveries_start (devices : PairedDeviceStore) : Deliveries := mkDeliveries devices ∅ [] [] [] [].

(** ** What the host believes a phone holds *)

Record deliveries_ok (d : Deliveries) : Prop := {
  do_confirmed e s held : de_states d !! e = Some s -> sa_delivered s = Some held ->
    exists job, job ∈ de_confirmed d /\ jb_endpoint_id job = e /\ jb_delivered job = held;
  do_posted job : job ∈ de_confirmed d -> job ∈ de_posts d;
  do_tasks t : t ∈ de_tasks d -> tk_stage t = AwaitingRelay -> tk_job t ∈ de_posts d
}.

(** A sweep moves no claim about a phone. *)
Lemma prepare_delivered host target overview now nonce s :
  sa_delivered (prepare_live_activity_job host target overview now nonce s).1 = sa_delivered s.
Proof. unfold prepare_live_activity_job. repeat case_match; done. Qed.

Lemma sweep_delivered host overview now nonce targets states jobs e s :
  (foldl (sweep_target host overview now nonce) (states, jobs) targets).1 !! e = Some s ->
  sa_delivered s = None \/ exists s0, states !! e = Some s0 /\ sa_delivered s0 = sa_delivered s.
Proof.
  revert states jobs. induction targets as [|target targets IH]; intros states jobs; cbn [foldl]; [intros H; right; by exists s|].
  unfold sweep_target at 2. destruct (prepare_live_activity_job _ _ _ _ _ _) as [s1 job] eqn:Hp.
  intros [?|(s0 & Hs0 & Hd)]%IH; [by left|]. pose proof (prepare_delivered host target overview now (nonce (lt_endpoint_id target))
    (default LiveActivityDeliveryState_default (states !! lt_endpoint_id target))) as Hpd. rewrite Hp in Hpd. cbn in Hpd.
  apply lookup_insert_Some in Hs0 as [[<- <-]|[_ Hs0]]; [|right; by exists s0]. rewrite Hd in Hpd.
  destruct (states !! lt_endpoint_id target) as [s0|]; [right; by exists s0|by left].
Qed.

Lemma if_current_delivered job f states e s :
  (forall s, sa_delivered (f s) = sa_delivered s) -> if_current job f states !! e = Some s ->
  exists s0, states !! e = Some s0 /\ sa_delivered s0 = sa_delivered s.
Proof.
  intros Hf. unfold if_current. destruct (generation_is_current _ _ _); [|intros H; by exists s].
  rewrite lookup_alter_Some. intros [(_ & s0 & -> & ->)|[_ H]]; [exists s0; by rewrite Hf|by exists s].
Qed.

Lemma refresh_delivered host overview now nonce devices states e s :
  (refresh_live_activities host overview now nonce devices states).1 !! e = Some s ->
  sa_delivered s = None \/ exists s0, states !! e = Some s0 /\ sa_delivered s0 = sa_delivered s.
Proof.
  unfold refresh_live_activities. case_match; [cbn [fst]; by intros ?%lookup_empty_Some|].
  intros [?|(s0 & Hs0 & Hd)]%sweep_delivered; [by left|]. apply map_lookup_filter_Some in Hs0 as [Hs0 _]. right. by exists s0.
Qed.

Lemma success_delivered job states e s :
  record_live_activity_success job states !! e = Some s ->
  (e = jb_endpoint_id job /\ sa_delivered s = Some (jb_delivered job)) \/ exists s0, states !! e = Some s0 /\ sa_delivered s0 = sa_delivered s.
Proof.
  unfold record_live_activity_success, if_current. destruct (generation_is_current _ _ _); [|intros H; right; by exists s].
  rewrite lookup_alter_Some. intros [(-> & s0 & Hs0 & ->)|[_ H]]; [by left|right; by exists s].
Qed.

Lemma refusal_delivered failed_at job detail devices states e s :
  (record_live_activity_refusal failed_at job detail devices states).2 !! e = Some s ->
  exists s0, states !! e = Some s0 /\ sa_delivered s0 = sa_delivered s.
Proof.
  unfold record_live_activity_refusal.
  destruct (classify_live_activity_refusal detail); [|by apply (if_current_delivered job (backed_off (jb_timestamp job) LIVE_ACTIVITY_MAX_RETRY_SECONDS))..].
  cbn [snd]. intros [_ Hs]%lookup_delete_Some. by exists s.
Qed.

(** What an answer makes of the claims, and of the tasks. *)
Lemma answered_claims failed_at answer t devices states tasks prepared confirmed posts :
  let d := answered failed_at answer t (mkDeliveries devices states tasks prepared confirmed posts) in
  (forall e s, de_states d !! e = Some s ->
     (exists s0, states !! e = Some s0 /\ sa_delivered s0 = sa_delivered s)
     \/ (e = jb_endpoint_id (tk_job t) /\ sa_delivered s = Some (jb_delivered (tk_job t)) /\ de_confirmed d = tk_job t :: confirmed))
  /\ (de_confirmed d = confirmed \/ de_confirmed d = tk_job t :: confirmed)
  /\ (forall t', t' ∈ de_tasks d -> t' ∈ tasks \/ (tk_job t' = tk_job t /\ tk_stage t' = AboutToCheck))
  /\ de_posts d = posts /\ de_prepared d = prepared.
Proof.
  assert (forall e s, states !! e = Some s -> exists s0, states !! e = Some s0 /\ sa_delivered s0 = sa_delivered s) as Hsame by eauto.
  assert (forall e s, record_live_activity_failure (tk_job t) states !! e = Some s ->
            exists s0, states !! e = Some s0 /\ sa_delivered s0 = sa_delivered s) as Hfail.
  { intros e s. by apply (if_current_delivered (tk_job t) (failed_round (jb_timestamp (tk_job t)))). }
  assert (forall t', t' ∈ mkTask (tk_job t) (S (tk_attempt t)) AboutToCheck :: tasks -> t' ∈ tasks \/ (tk_job t' = tk_job t /\ tk_stage t' = AboutToCheck)) as Ht.
  { intros t' [->|H]%elem_of_cons; [by right|by left]. }
  cbn zeta. unfold answered. set (retry := if (_ <? _)%nat then _ else _).
  assert ((forall e s, de_states retry !! e = Some s -> exists s0, states !! e = Some s0 /\ sa_delivered s0 = sa_delivered s)
          /\ de_confirmed retry = confirmed
          /\ (forall t', t' ∈ de_tasks retry -> t' ∈ tasks \/ (tk_job t' = tk_job t /\ tk_stage t' = AboutToCheck))
          /\ de_posts retry = posts /\ de_prepared retry = prepared) as (Hr1 & Hr2 & Hr3 & Hr4 & Hr5).
  { unfold retry. case_match; cbn; split_and!; auto. }
  destruct answer as [[status detail]|]; [|split_and!; auto].
  destruct (status =? 204); [cbn; split_and!; auto; intros e s [[-> Hs]|Hs]%success_delivered; auto|].
  destruct (status =? 400).
  - destruct (record_live_activity_refusal _ _ _ _ _) as [devices' states'] eqn:Hr. cbn. split_and!; auto.
    intros e s Hs. left. apply (refusal_delivered failed_at (tk_job t) (trim detail) devices). by rewrite Hr.
  - destruct (negb _); [cbn; split_and!; auto|split_and!; auto].
Qed.

Lemma deliveries_ok_step d d' : delivery_step d d' -> deliveries_ok d -> deliveries_ok d'.
Proof.
  intros Hstep. destruct Hstep as [host overview now nonce seen devices states tasks prepared confirmed posts _|
    seen devices states tasks prepared confirmed posts|devices states before t after prepared confirmed posts Hp|
    devices states before t after prepared confirmed posts Hp|failed_at answer devices states before t after prepared confirmed posts Hp|
    op failed_at devices states tasks prepared confirmed posts]; intros [Hc Hposted Ht]; cbn in Hc, Hposted, Ht.
  - destruct (refresh_live_activities host overview now nonce seen states) as [states' jobs] eqn:Hr. split; cbn; [|done|].
    + intros e s held Hs Hd. destruct (refresh_delivered host overview now nonce seen states e s) as [Hn|(s0 & Hs0 & Heq)];
        [by rewrite Hr|congruence|]. apply (Hc e s0); [done|congruence].
    + intros t [(job & -> & _)%list_elem_of_fmap|Hin]%elem_of_app; [done|by apply Ht].
  - split; cbn; [|done..]. intros e s held. unfold has_live_activity_interest. case_match; cbn [fst]; [by intros ?%lookup_empty_Some|apply Hc].
  - destruct (generation_is_current _ _ _); split; cbn.
    + exact Hc.
    + exact Hposted.
    + intros t' [Hin|[->|Hin]%elem_of_cons]%elem_of_app Hp'; [apply Ht; [set_solver|done]|done|apply Ht; [set_solver|done]].
    + exact Hc.
    + exact Hposted.
    + intros t' Hin. apply Ht. set_solver.
  - split; cbn; [exact Hc| |].
    + intros job H. right. by apply Hposted.
    + intros t' [Hin|[->|Hin]%elem_of_cons]%elem_of_app Hp'; [right; apply Ht; [set_solver|done]|by left|right; apply Ht; [set_solver|done]].
  - destruct (answered_claims failed_at answer t devices states (before ++ after) prepared confirmed posts) as (Hs & Hcf & Htk & Hpo & _).
    assert (tk_job t ∈ posts) as Hjob by (apply Ht; [set_solver|done]).
    split.
    + intros e s held Hst Hd. destruct (Hs e s Hst) as [(s0 & Hs0 & Heq)|(-> & Hd' & Hconf)].
      * destruct (Hc e s0 held Hs0) as (job & Hj & He & Hdl); [congruence|]. exists job. split_and!; [|done..].
        destruct Hcf as [->| ->]; [done|by right].
      * exists (tk_job t). rewrite Hconf. split_and!; [by left|done|congruence].
    + intros job. rewrite Hpo. destruct Hcf as [->| ->]; [apply Hposted|]. intros [->|H]%elem_of_cons; [done|by apply Hposted].
    + intros t' [Hin|[_ Hf]]%Htk Hp'; [|congruence]. rewrite Hpo. apply Ht; [set_solver|done].
  - split; cbn; done.
Qed.

(** C32: the host never takes an update for delivered that was not: whatever sweeps, retries, refusals and
    registrations interleave, the rows a phone is believed to hold, which suppress the next update, are
    those of a job of that phone which was posted and answered 204. *)
Theorem delivered_confirmed devices d endpoint_id s held :
  rtc delivery_step (deliveries_start devices) d ->
  de_states d !! endpoint_id = Some s -> sa_delivered s = Some held ->
  exists job, job ∈ de_confirmed d /\ job ∈ de_posts d /\ jb_endpoint_id job = endpoint_id /\ jb_delivered job = held.
Proof.
  intros Hrun Hs Hd. assert (deliveries_ok d) as [Hc Hp Ht].
  { assert (deliveries_ok (deliveries_start devices)) as Hok.
    { split; cbn; [by intros e ? ? H; rewrite lookup_empty in H|by intros ? H%not_elem_of_nil..]. }
    clear Hs Hd. induction Hrun as [|d d1 d2 Hstep _ IH]; [done|]. apply IH. by eapply deliveries_ok_step. }
  destruct (Hc _ _ _ Hs Hd) as (job & Hj & He & Hdl). exists job. auto.
Qed.

(** ** The order of the posts *)

(** What the entry of an endpoint knows of the jobs prepared for it. *)
Record entry_ok (e : string) (states : deliveries) (prepared : list LiveActivityJob) : Prop := {
  eo_absent job : states !! e = None -> job ∈ prepared -> jb_endpoint_id job <> e;
  eo_seen s job : states !! e = Some s -> job ∈ prepared -> jb_endpoint_id job = e ->
    jb_generation job <= sa_generation s /\ jb_timestamp job <= sa_last_timestamp s
    /\ (jb_generation job = sa_generation s -> jb_timestamp job = sa_last_timestamp s);
  eo_count s : states !! e = Some s -> sa_generation s <= len prepared /\ sa_last_timestamp s <= u64_max
}.

Lemma prepare_cases host target overview now nonce s :
  let '(s', job) := prepare_live_activity_job host target overview now nonce s in
  match job with
  | None => sa_generation s' = sa_generation s /\ sa_last_timestamp s' = sa_last_timestamp s
  | Some job =>
      jb_endpoint_id job = lt_endpoint_id target /\ jb_generation job = sa_generation s' /\ jb_timestamp job = sa_last_timestamp s'
      /\ sa_generation s' = wrap_add64 (sa_generation s) 1
      /\ sa_last_timestamp s' = N.max now (sat_add64 (sa_last_timestamp s) 1)
  end.
Proof. unfold prepare_live_activity_job. repeat case_match; simplify_eq; done. Qed.

Lemma sweep_target_entry host overview now nonce states jobs prepared target e :
  now <= u64_max -> entry_ok e states (jobs ++ prepared) ->
  let '(states', jobs') := sweep_target host overview now nonce (states, jobs) target in
  len (jobs' ++ prepared) < u64_max -> entry_ok e states' (jobs' ++ prepared).
Proof.
  intros Hnow [Ha Hs Hc]. unfold sweep_target.
  pose proof (prepare_cases host target overview now (nonce (lt_endpoint_id target))
                (default LiveActivityDeliveryState_default (states !! lt_endpoint_id target))) as Hp.
  destruct (prepare_live_activity_job _ _ _ _ _ _) as [s' job]. intros Hlen.
  assert (forall j, j ∈ (jobs ++ prepared_job job) ++ prepared -> j ∈ jobs ++ prepared \/ job = Some j) as Hin.
  { intros j. destruct job as [j'|]; cbn [prepared_job]; set_solver. }
  assert (len (jobs ++ prepared) <= len ((jobs ++ prepared_job job) ++ prepared)) as Hmore by (rewrite !len_app; lia).
  destruct (decide (lt_endpoint_id target = e)) as [He|He].
  - rewrite He in Hp.
    assert (sa_generation (default LiveActivityDeliveryState_default (states !! e)) <= len (jobs ++ prepared)
            /\ sa_last_timestamp (default LiveActivityDeliveryState_default (states !! e)) <= u64_max) as [Hg Ht].
    { destruct (states !! e) as [s|] eqn:Hst; [by apply Hc|]. cbn. split; [lia|by vm_compute]. }
    assert (forall j, j ∈ jobs ++ prepared -> jb_endpoint_id j = e ->
              jb_generation j <= sa_generation (default LiveActivityDeliveryState_default (states !! e))
              /\ jb_timestamp j <= sa_last_timestamp (default LiveActivityDeliveryState_default (states !! e))
              /\ (jb_generation j = sa_generation (default LiveActivityDeliveryState_default (states !! e)) ->
                  jb_timestamp j = sa_last_timestamp (default LiveActivityDeliveryState_default (states !! e)))) as Hold.
    { intros j Hj Hje. destruct (states !! e) as [s|] eqn:Hst; [by apply Hs|]. by destruct (Ha j eq_refl Hj). }
    set (s0 := default _ _) in *. split.
    + intros j. by rewrite He, lookup_insert_eq.
    + intros s j. rewrite He, lookup_insert_eq. intros [= <-] [Hj| ->]%Hin Hje.
      * specialize (Hold j Hj Hje). destruct job as [j'|]; [|destruct Hp as [-> ->]; done].
        destruct Hp as (_ & _ & _ & -> & ->). unfold wrap_add64, sat_add64. cbn [prepared_job] in Hlen. rewrite len_app, len_snoc in Hlen.
        rewrite len_app in Hg. rewrite N.mod_small by lia. lia.
      * destruct Hp as (_ & -> & -> & _). lia.
    + intros s. rewrite He, lookup_insert_eq. intros [= <-].
      destruct job as [j'|]; [|destruct Hp as [-> ->]; split; [lia|done]].
      destruct Hp as (_ & _ & _ & -> & ->). unfold wrap_add64, sat_add64. cbn [prepared_job] in Hlen |- *. rewrite !len_app, !len_cons, len_nil in *.
      rewrite N.mod_small by lia. lia.
  - assert (forall j, j ∈ (jobs ++ prepared_job job) ++ prepared -> jb_endpoint_id j = e -> j ∈ jobs ++ prepared) as Hin'.
    { intros j [Hj| ->]%Hin Hje; [done|]. destruct Hp as (Heq & _). congruence. }
    split; intros; rewrite lookup_insert_ne in * by done; eauto.
    + intros Hje. eapply Ha; eauto.
    + match goal with H : states !! e = Some _ |- _ => apply Hc in H end. lia.
Qed.

Lemma sweep_jobs_grow host overview now nonce targets states jobs :
  exists more, (foldl (sweep_target host overview now nonce) (states, jobs) targets).2 = jobs ++ more
  /\ forall job, job ∈ more -> jb_endpoint_id job ∈ lt_endpoint_id <$> targets.
Proof.
  revert states jobs. induction targets as [|target targets IH]; intros states jobs; cbn [foldl].
  - exists []. split; [by rewrite app_nil_r|]. by intros job H%not_elem_of_nil.
  - destruct (sweep_target host overview now nonce (states, jobs) target) as [states1 jobs1] eqn:Hst.
    destruct (IH states1 jobs1) as (more & -> & Hm).
    unfold sweep_target in Hst. pose proof (prepare_cases host target overview now (nonce (lt_endpoint_id target))
                (default LiveActivityDeliveryState_default (states !! lt_endpoint_id target))) as Hp.
    destruct (prepare_live_activity_job _ _ _ _ _ _) as [s' job]. injection Hst as <- <-.
    exists (prepared_job job ++ more). split; [by rewrite app_assoc|]. intros j [Hj|Hj]%elem_of_app; rewrite fmap_cons.
    + destruct job as [j'|]; [|by apply not_elem_of_nil in Hj]. apply list_elem_of_singleton in Hj as ->. destruct Hp as (-> & _). by left.
    + right. by apply Hm.
Qed.

Lemma sweep_entries host overview now nonce targets states jobs prepared e :
  now <= u64_max -> entry_ok e states (jobs ++ prepared) ->
  let '(states', jobs') := foldl (sweep_target host overview now nonce) (states, jobs) targets in
  len (jobs' ++ prepared) < u64_max -> entry_ok e states' (jobs' ++ prepared).
Proof.
  intros Hnow. revert states jobs. induction targets as [|target targets IH]; intros states jobs Hok; cbn [foldl]; [done|].
  pose proof (sweep_target_entry host overview now nonce states jobs prepared target e Hnow Hok) as Hstep.
  destruct (sweep_target host overview now nonce (states, jobs) target) as [states1 jobs1].
  destruct (sweep_jobs_grow host overview now nonce targets states1 jobs1) as (more & Hmore & _).
  specialize (IH states1 jobs1). destruct (foldl _ _ targets) as [states' jobs']. cbn [snd] in Hmore. intros Hlen.
  assert (len (jobs1 ++ prepared) < u64_max) by (rewrite Hmore in Hlen; rewrite !len_app in *; lia). apply IH; auto.
Qed.

Lemma sweep_keeps_none host overview now nonce targets states jobs e :
  (e ∉ lt_endpoint_id <$> targets) -> (foldl (sweep_target host overview now nonce) (states, jobs) targets).1 !! e = states !! e.
Proof.
  revert states jobs. induction targets as [|target targets IH]; intros states jobs Hn; cbn [foldl]; [done|].
  rewrite fmap_cons, not_elem_of_cons in Hn. destruct Hn as [Hne Hn].
  unfold sweep_target at 2. destruct (prepare_live_activity_job _ _ _ _ _ _) as [s' job]. rewrite IH by done. by rewrite lookup_insert_ne.
Qed.

Lemma refresh_entry host overview now nonce devices states prepared e :
  now <= u64_max -> entry_ok e states prepared ->
  let '(states', jobs) := refresh_live_activities host overview now nonce devices states in
  (is_Some (states !! e) -> is_Some (states' !! e)) -> len (jobs ++ prepared) < u64_max -> entry_ok e states' (jobs ++ prepared).
Proof.
  intros Hnow [Ha Hs Hc]. unfold refresh_live_activities. set (targets := live_activity_targets decode_base64 devices).
  destruct (len targets =? 0) eqn:Hlen.
  { intros Hkeep _. cbn [app]. assert (states !! e = None) as Hnone.
    { destruct (states !! e) as [s|]; [|done]. destruct Hkeep as [x Hx]; [by eexists|]. by rewrite lookup_empty in Hx. }
    split; intros ? *; rewrite ?lookup_empty; try done. intros _ Hj. by apply Ha. }
  set (kept := filter _ states).
  assert (e ∈ lt_endpoint_id <$> targets -> kept !! e = states !! e) as Hkept.
  { intros Hin. unfold kept. rewrite map_lookup_filter. destruct (states !! e) as [s|]; [|done]. cbn.
    rewrite option_guard_True by (by apply elem_of_list_to_set). done. }
  assert (states !! e = None -> kept !! e = None) as Hnone.
  { intros Hn. unfold kept. apply map_lookup_filter_None. by left. }
  assert (e ∉ lt_endpoint_id <$> targets -> kept !! e = None) as Hout.
  { intros Hn. unfold kept. apply map_lookup_filter_None. right. intros s _ Hin. by apply elem_of_list_to_set in Hin. }
  pose proof (sweep_entries host overview now nonce targets kept [] prepared e Hnow) as Hsw.
  pose proof (sweep_keeps_none host overview now nonce targets kept [] e) as Hk.
  destruct (foldl _ _ targets) as [states' jobs] eqn:Hf. cbn [fst] in Hk. intros Hkeep Hl. apply Hsw; [|done]. cbn [app].
  destruct (decide (e ∈ lt_endpoint_id <$> targets)) as [Hin|Hin].
  - rewrite (Hkept Hin) in *. split; rewrite ?Hkept by done; eauto.
  - assert (states !! e = None) as Hn.
    { destruct (states !! e) as [s|]; [|done]. destruct Hkeep as [x Hx]; [by eexists|]. rewrite Hk, Hout in Hx by done. done. }
    split; rewrite ?(Hout Hin); intros; try done. by apply Ha.
Qed.

Lemma entry_ok_same e states states' prepared :
  entry_ok e states prepared -> (states !! e = None -> states' !! e = None) -> (is_Some (states !! e) -> is_Some (states' !! e)) ->
  (forall s', states' !! e = Some s' -> exists s, states !! e = Some s /\ sa_generation s = sa_generation s'
     /\ sa_last_timestamp s = sa_last_timestamp s') ->
  entry_ok e states' prepared.
Proof.
  intros [Ha Hs Hc] Hnone Hkeep Hsame. split.
  - intros job Hn Hj. apply Ha; [|done]. destruct (states !! e) as [s|]; [|done]. destruct Hkeep as [x Hx]; [by eexists|]. congruence.
  - intros s' job Hst Hj He. destruct (Hsame s' Hst) as (s & Hst' & <- & <-). by apply (Hs s).
  - intros s' Hst. destruct (Hsame s' Hst) as (s & Hst' & <- & <-). by apply Hc.
Qed.

Lemma if_current_marks job f states e :
  (forall s, sa_generation (f s) = sa_generation s /\ sa_last_timestamp (f s) = sa_last_timestamp s) ->
  (states !! e = None -> if_current job f states !! e = None)
  /\ (forall s', if_current job f states !! e = Some s' -> exists s, states !! e = Some s /\ sa_generation s = sa_generation s'
        /\ sa_last_timestamp s = sa_last_timestamp s').
Proof.
  intros Hf. unfold if_current. destruct (generation_is_current _ _ _); [|split; [done|intros s' H; by exists s']]. split.
  - intros Hn. rewrite lookup_alter_None. done.
  - intros s'. rewrite lookup_alter_Some. intros [(He & s & Hs & ->)|[_ Hs]]; [exists s; destruct (Hf s) as [-> ->]; subst e; split_and!; done|by exists s'].
Qed.

Record ordered_ok (e : string) (d : Deliveries) : Prop := {
  oo_entry : entry_ok e (de_states d) (de_prepared d);
  oo_tasks t : t ∈ de_tasks d -> tk_job t ∈ de_prepared d
}.

(** What an answer writes keeps the marks. *)
Lemma answered_marks failed_at answer t devices states tasks prepared confirmed posts e :
  let d := answered failed_at answer t (mkDeliveries devices states tasks prepared confirmed posts) in
  (is_Some (states !! e) -> is_Some (de_states d !! e)) -> entry_ok e states prepared -> entry_ok e (de_states d) prepared.
Proof.
  cbn zeta. intros Hkeep Hok.
  assert (forall f, (forall s, sa_generation (f s) = sa_generation s /\ sa_last_timestamp (f s) = sa_last_timestamp s) ->
            (is_Some (states !! e) -> is_Some (if_current (tk_job t) f states !! e)) -> entry_ok e (if_current (tk_job t) f states) prepared) as Hcur.
  { intros f Hf Hk. destruct (if_current_marks (tk_job t) f states e Hf) as [Hn Hs]. by eapply entry_ok_same. }
  unfold answered in *. destruct answer as [[status detail]|]; [|case_match; cbn in *; [done|by apply Hcur]].
  destruct (status =? 204); [cbn in *; by apply Hcur|]. destruct (status =? 400).
  - unfold record_live_activity_refusal in *. destruct (classify_live_activity_refusal _); cbn in *; try by apply Hcur.
    eapply entry_ok_same; [done|by intros; apply lookup_delete_None; right|done|]. intros s' [_ Hs]%lookup_delete_Some. by exists s'.
  - destruct (negb _); [cbn in *; by apply Hcur|]. case_match; cbn in *; [done|by apply Hcur].
Qed.

(** A task that may post holds the newest job of its endpoint. *)
Lemma current_newest e states prepared job other :
  entry_ok e states prepared -> job ∈ prepared -> other ∈ prepared -> jb_endpoint_id job = e -> jb_endpoint_id other = e ->
  generation_is_current e (jb_generation job) states = true -> jb_timestamp other <= jb_timestamp job.
Proof.
  intros [Ha Hs Hc] Hj Ho Hje Hoe. unfold generation_is_current. destruct (states !! e) as [s|]; [|done]. cbn. intros Hg%N.eqb_eq.
  destruct (Hs s job eq_refl Hj Hje) as (_ & _ & Heq). rewrite (Heq (eq_sym Hg)). by destruct (Hs s other eq_refl Ho Hoe) as (_ & ? & _).
Qed.

Lemma ordered_ok_step e d d' :
  delivery_step d d' -> (is_Some (de_states d !! e) -> is_Some (de_states d' !! e)) -> len (de_prepared d') < u64_max ->
  ordered_ok e d -> ordered_ok e d'.
Proof.
  intros Hstep Hkeep Hlen. destruct Hstep as [host overview now nonce seen devices states tasks prepared confirmed posts Hnow|
    seen devices states tasks prepared confirmed posts|devices states before t after prepared confirmed posts Hp|
    devices states before t after prepared confirmed posts Hp|failed_at answer devices states before t after prepared confirmed posts Hp|
    op failed_at devices states tasks prepared confirmed posts]; intros [He Ht]; cbn [de_states de_prepared de_tasks de_posts] in *.
  - pose proof (refresh_entry host overview now nonce seen states prepared e Hnow He) as Hr.
    destruct (refresh_live_activities _ _ _ _ _ _) as [states' jobs]. cbn [de_states de_prepared] in Hkeep, Hlen.
    split; cbn; [by apply Hr|]. intros t [(job & -> & Hj)%list_elem_of_fmap|Hin%Ht]%elem_of_app; cbn; set_solver.
  - split; cbn [de_states de_prepared de_tasks de_posts]; [|done]. unfold has_live_activity_interest in *. case_match; cbn [fst] in *; [|done].
    eapply entry_ok_same; [done|by rewrite lookup_empty|done|]. intros s' ?%lookup_empty_Some. done.
  - destruct (generation_is_current _ _ states); split; cbn [de_states de_prepared de_tasks de_posts] in *; try done.
    + intros t' [Hin|[->|Hin]%elem_of_cons]%elem_of_app; cbn; apply Ht; set_solver.
    + intros t' Hin. apply Ht. set_solver.
  - split; cbn; [done|]. intros t' [Hin|[->|Hin]%elem_of_cons]%elem_of_app; cbn; apply Ht; set_solver.
  - destruct (answered_claims failed_at answer t devices states (before ++ after) prepared confirmed posts) as (_ & _ & Htk & Hpo' & Hpr).
    split; rewrite ?Hpr; [by apply answered_marks|]. intros t' [Hin|[-> _]]%Htk; apply Ht; set_solver.
  - split; done.
Qed.

Definition keeps (e : string) (d d' : Deliveries) : Prop :=
  delivery_step d d' /\ (is_Some (de_states d !! e) -> is_Some (de_states d' !! e)).

Lemma prepared_grow d d' : delivery_step d d' -> len (de_prepared d) <= len (de_prepared d').
Proof.
  destruct 1 as [host overview now nonce seen devices states tasks prepared confirmed posts Hnow|
    |devices states before t after prepared confirmed posts Hp| |failed_at answer devices states before t after prepared confirmed posts Hp|]; cbn -[answered]; try done.
  - destruct (refresh_live_activities _ _ _ _ _ _). cbn. rewrite len_app. lia.
  - case_match; done.
  - by destruct (answered_claims failed_at answer t devices states (before ++ after) prepared confirmed posts) as (_ & _ & _ & _ & ->).
Qed.

Lemma keeps_grow e d d' : rtc (keeps e) d d' -> len (de_prepared d) <= len (de_prepared d').
Proof. induction 1 as [|d d1 d2 [Hstep _] _ IH]; [done|]. etrans; [by apply prepared_grow|done]. Qed.

Lemma keeps_ordered e d d' : rtc (keeps e) d d' -> len (de_prepared d') < u64_max -> ordered_ok e d -> ordered_ok e d'.
Proof.
  induction 1 as [|d d1 d2 [Hstep Hk] Hrun IH]; intros Hlen Hok; [done|]. apply IH; [done|]. eapply ordered_ok_step; [done..| |done].
  apply keeps_grow in Hrun. lia.
Qed.

Lemma start_ordered e devices : ordered_ok e (deliveries_start devices).
Proof.
  split; cbn; [|by intros ? ?%not_elem_of_nil]. split; cbn.
  - by intros job _ ?%not_elem_of_nil.
  - intros s job ?%lookup_empty_Some. done.
  - intros s ?%lookup_empty_Some. done.
Qed.

(** The very attempt of a delivery, before its check, in a state in which it passes. *)
Definition passes (t : Task) (d : Deliveries) : Prop :=
  mkTask (tk_job t) (tk_attempt t) AboutToCheck ∈ de_tasks d
  /\ generation_is_current (jb_endpoint_id (tk_job t)) (jb_generation (tk_job t)) (de_states d) = true.

(** A delivery about to post passed its check earlier in the run. *)
Lemma passed_before e d0 d t : (forall t, t ∉ de_tasks d0) -> rtc (keeps e) d0 d -> t ∈ de_tasks d -> tk_stage t = AboutToPost ->
  exists d_c, rtc (keeps e) d0 d_c /\ passes t d_c /\ rtc (keeps e) d_c d.
Proof.
  intros H0 Hrun. revert t. pattern d. eapply rtc_ind_r; [| |exact Hrun]; clear d Hrun; [by intros t ?%H0|].
  intros d d' Hrun Hk IH t Hin Hstage.
  assert (t ∈ de_tasks d -> exists d_c, rtc (keeps e) d0 d_c /\ passes t d_c /\ rtc (keeps e) d_c d') as Hold.
  { intros Hd. destruct (IH t Hd Hstage) as (d_c & H1 & H2 & H3). exists d_c. split_and!; [done..|]. by eapply rtc_r. }
  pose proof Hk as [Hstep _]. destruct Hstep as [host overview now nonce seen devices states tasks prepared confirmed posts Hnow|
    seen devices states tasks prepared confirmed posts|devices states before t0 after prepared confirmed posts Hp|
    devices states before t0 after prepared confirmed posts Hp|failed_at answer devices states before t0 after prepared confirmed posts Hp|
    op failed_at devices states tasks prepared confirmed posts]; cbn [de_tasks] in *.
  - apply Hold. destruct (refresh_live_activities _ _ _ _ _ _). cbn in Hin.
    apply elem_of_app in Hin as [(job & -> & _)%list_elem_of_fmap|Hin]; done.
  - by apply Hold.
  - destruct (generation_is_current _ _ states) eqn:Hg; cbn [de_tasks] in *; [|apply Hold; set_solver].
    apply elem_of_app in Hin as [Hin|[->|Hin]%elem_of_cons]; [apply Hold; set_solver| |apply Hold; set_solver].
    eexists. split; [exact Hrun|]. split; [|by apply rtc_once]. split; [|done].
    cbn. destruct t0 as [job attempt stage]. cbn in Hp |- *. rewrite Hp. set_solver.
  - apply elem_of_app in Hin as [Hin|[->|Hin]%elem_of_cons]; [apply Hold; set_solver|done|apply Hold; set_solver].
  - destruct (answered_claims failed_at answer t0 devices states (before ++ after) prepared confirmed posts) as (_ & _ & Htk & _).
    apply Htk in Hin as [Hin|[_ Hs]]; [apply Hold; set_solver|congruence].
  - by apply Hold.
Qed.

(** C33: a phone is handed an older state after a newer one by no retry, but only by a delivery that had
    passed its check before the newer update was even prepared: as long as the phone's entry is kept,
    whatever else is swept, posted, answered, retried or registered and in whatever order the tasks wake,
    if a delivery is about to post an update with an earlier timestamp than one prepared for the phone,
    this very attempt passed its check at a moment when every update prepared for the phone so far was no
    newer than its own. *)
Theorem posts_in_order devices d t newer endpoint_id :
  rtc (keeps endpoint_id) (deliveries_start devices) d -> len (de_prepared d) < u64_max ->
  t ∈ de_tasks d -> tk_stage t = AboutToPost -> jb_endpoint_id (tk_job t) = endpoint_id ->
  newer ∈ de_prepared d -> jb_endpoint_id newer = endpoint_id -> jb_timestamp (tk_job t) < jb_timestamp newer ->
  exists d_c, rtc (keeps endpoint_id) (deliveries_start devices) d_c /\ passes t d_c /\ rtc (keeps endpoint_id) d_c d
    /\ (newer ∉ de_prepared d_c)
    /\ forall job, job ∈ de_prepared d_c -> jb_endpoint_id job = endpoint_id -> jb_timestamp job <= jb_timestamp (tk_job t).
Proof.
  intros Hrun Hlen Hin Hstage He Hnew Hne Hlt.
  destruct (passed_before endpoint_id (deliveries_start devices) d t ltac:(intros t'; apply not_elem_of_nil) Hrun Hin Hstage) as (d_c & H1 & [Ht Hg] & H2).
  assert (forall job, job ∈ de_prepared d_c -> jb_endpoint_id job = endpoint_id -> jb_timestamp job <= jb_timestamp (tk_job t)) as Hall.
  { intros job Hj Hje. pose proof (keeps_grow _ _ _ H2).
    destruct (keeps_ordered _ _ _ H1 ltac:(lia) (start_ordered _ _)) as [Hok Htk].
    eapply current_newest; [exact Hok|exact (Htk _ Ht)|done..|]. by rewrite <- He at 1. }
  exists d_c. split_and!; [done..| |done]. intros Hc. specialize (Hall newer Hc Hne). lia.
Qed.

(** ** What is sent, and when *)

Lemma insert_row_perm x l : insert_row x l ≡ₚ x :: l.
Proof. induction l as [|y l IH]; [done|]. cbn. case_match; [done|]. rewrite IH. by constructor. Qed.
Lemma sort_rows_perm l : sort_rows l ≡ₚ l.
Proof. induction l as [|x l IH]; [done|]. cbn. by rewrite insert_row_perm, IH. Qed.

Definition ranked (l r : LiveActivitySemanticRow) : Prop := state_priority (sr_state l) <= state_priority (sr_state r).

Lemma row_leb_ranked x y : if row_leb x y then ranked x y else ranked y x.
Proof.
  unfold row_leb, ranked. destruct (N.compare_spec (state_priority (sr_state x)) (state_priority (sr_state y))); [|lia..].
  destruct (String.compare _ _); [destruct (String.leb _ _)|..]; lia.
Qed.

Lemma insert_row_sorted x l : StronglySorted ranked l -> StronglySorted ranked (insert_row x l).
Proof.
  induction 1 as [|y l Hs IH Hall]; cbn; [repeat constructor|]. pose proof (row_leb_ranked x y) as Hxy. case_match.
  - constructor; [by constructor|]. constructor; [done|]. eapply Forall_impl; [exact Hall|]. unfold ranked in *. lia.
  - constructor; [done|]. rewrite insert_row_perm. by constructor.
Qed.

Lemma sort_rows_sorted l : StronglySorted ranked (sort_rows l).
Proof. induction l; [constructor|by apply insert_row_sorted]. Qed.

Lemma semantic_rows_since previous now rows host at_ :
  semantic_rows (mkLiveActivityPayload 1 host at_ (row_since previous now <$> rows)) = rows.
Proof. unfold semantic_rows. cbn. rewrite <- list_fmap_compose. apply list_fmap_id. Qed.

(** A job carries one row per session followed, by attention, each dated when it last changed. *)
Lemma job_rows host target overview now nonce s s' job :
  prepare_live_activity_job host target overview now nonce s = (s', Some job) ->
  dl_semantic_rows (jb_delivered job) = current_rows overview target
  /\ semantic_rows (dl_payload (jb_delivered job)) = current_rows overview target
  /\ dl_at (jb_delivered job) = now
  /\ dl_ticket_fingerprint (jb_delivered job) = live_activity_ticket_fingerprint (lt_ticket target).
Proof.
  unfold prepare_live_activity_job. case_match; [done|]. destruct (live_activity_delivery _ _ _ _ _) as [p|] eqn:Hd; [|done].
  destruct (sealed_payload _ _ _); [|done]. intros [= _ <-]. cbn. unfold live_activity_delivery in Hd. case_match; [done|].
  injection Hd as <-. by rewrite semantic_rows_since.
Qed.

(** The lock screen is updated when it should be: once an update was delivered, the next sweep with the
    same ticket and the same rows sends nothing until fifteen minutes have passed; after that, or when
    the rows or the ticket changed, it prepares the rows that hold then, and sends them if they seal
    within their bound. *)
Theorem unchanged_is_quiet host target overview now nonce s s1 job target' overview' now' nonce' :
  prepare_live_activity_job host target overview now nonce s = (s1, Some job) ->
  let states := record_live_activity_success job {[lt_endpoint_id target := s1]} in
  let same := bool_decide (live_activity_ticket_fingerprint (lt_ticket target') = live_activity_ticket_fingerprint (lt_ticket target))
              && bool_decide (current_rows overview' target' = current_rows overview target) in
  exists s2, states !! lt_endpoint_id target = Some s2
  /\ if same && (now' - now <? LIVE_ACTIVITY_HEARTBEAT_SECONDS)
     then prepare_live_activity_job host target' overview' now' nonce' s2 = (s2, None)
     else exists p, live_activity_delivery host target' overview' (sa_delivered s2) now' = Some p
          /\ semantic_rows p = current_rows overview' target'
          /\ (is_Some (sealed_payload (lt_key target') nonce' p) ->
              exists s3 job', prepare_live_activity_job host target' overview' now' nonce' s2 = (s3, Some job')
              /\ dl_payload (jb_delivered job') = p).
Proof.
  intros Hp. pose proof (job_rows _ _ _ _ _ _ _ _ Hp) as (Hrows & _ & Hat & Hticket).
  pose proof (prepare_cases host target overview now nonce s) as Hc. rewrite Hp in Hc. destruct Hc as (He & Hgen & _).
  cbn zeta. unfold record_live_activity_success, if_current, generation_is_current.
  rewrite He, lookup_singleton_eq. cbn [is_some_and]. rewrite Hgen, N.eqb_refl.
  eexists. split; [rewrite lookup_alter_eq, lookup_singleton_eq; reflexivity|].
  unfold prepare_live_activity_job. cbn [sa_next_attempt_at sa_delivered]. rewrite (proj2 (N.ltb_ge now' 0)) by lia.
  unfold live_activity_delivery. cbn [is_some_and]. rewrite Hticket, Hrows, Hat, N.ltb_antisym.
  rewrite (bool_decide_ext (_ = live_activity_ticket_fingerprint (lt_ticket target')) (live_activity_ticket_fingerprint (lt_ticket target') = live_activity_ticket_fingerprint (lt_ticket target)))
    by (split; congruence).
  rewrite (bool_decide_ext (current_rows overview target = _) (current_rows overview' target' = current_rows overview target)) by (split; congruence).
  destruct (bool_decide _), (bool_decide _), (LIVE_ACTIVITY_HEARTBEAT_SECONDS <=? now' - now); cbn [andb negb]; try reflexivity;
    (eexists; split; [reflexivity|]; split; [apply semantic_rows_since|]; intros [sealed ->]; do 2 eexists; split; [reflexivity|done]).
Qed.

(** ** A refusal that comes late *)

(** A token found dead costs the registration whatever it is by then: when the refusal of a job says
    its token is dead, the device's registration is cleared and its entry dropped even though the phone
    has handed over another ticket since, or a newer job is under way. *)
Theorem late_refusal_clears_registration job detail e devices states d registration encoded :
  classify_live_activity_refusal detail = TokenDead ->
  validate_endpoint_id from_str (jb_endpoint_id job) = Ok e -> to_string e = jb_endpoint_id job ->
  List.find (has_id (jb_endpoint_id job)) (ds_devices devices) = Some d ->
  pd_notification_key d <> None -> pd_live_activity d = Some registration -> lr_ticket registration <> jb_ticket job ->
  to_vec_pretty (mkPairedDevicesFile 1 (update_first (has_id (jb_endpoint_id job)) (set_live_activity None) (ds_devices devices)))
    = Some encoded ->
  let '(devices', states') := record_live_activity_refusal None job detail devices states in
  List.find (has_id (jb_endpoint_id job)) (ds_devices devices') = Some (set_live_activity None d)
  /\ states' !! jb_endpoint_id job = None.
Proof.
  intros Hcl He Hs Hf Hk Hr _ Henc. unfold record_live_activity_refusal. rewrite Hcl, He. split; [|apply lookup_delete_eq].
  unfold clear_live_activity, update_live_activity. rewrite Hs. cbn [is_some_and]. rewrite Hf.
  destruct (pd_notification_key d); [|done]. cbn [is_none is_some negb]. rewrite Hr. cbn [is_none].
  unfold persist_then, persist, write_file. rewrite Henc. cbn. rewrite update_first_find; [by rewrite Hf|done].
Qed.

(** ** What an alert leaves out *)

Lemma shed_fields_cases keys p :
  exists n, (n <= length keys)%nat /\ shed_fields keys p = foldl (fun p remove => remove p) p (take n keys)
  /\ (forall m, (m < n)%nat -> MAX_PAYLOAD_BYTES < slen (payload_text (foldl (fun p remove => remove p) p (take m keys))))
  /\ (slen (payload_text (shed_fields keys p)) <= MAX_PAYLOAD_BYTES \/ n = length keys).
Proof.
  revert p. induction keys as [|remove keys IH]; intros p; cbn [shed_fields].
  - exists O. split_and!; [lia|done|lia|by right].
  - destruct (N.leb_spec (slen (payload_text p)) MAX_PAYLOAD_BYTES) as [Hle|Hlt].
    + exists O. cbn. split_and!; [lia|done|lia|by left].
    + destruct (IH (remove p)) as (n & Hn & -> & Hm & Hend). exists (S n). cbn [take foldl length]. split_and!; [lia|done| |].
      * intros [|m] Hlm; [done|]. apply Hm. lia.
      * destruct Hend as [Hfit| ->]; [by left|by right].
Qed.

(** An alert gives up as little as it must: from the full payload it drops the subject, then the reply,
    then the tab, each only while what is left is longer than a phone opens; nothing else is ever
    dropped, and what is sent fits, or all three are gone. *)
Theorem payload_sheds session_id facts host kind :
  let full := full_payload session_id facts host kind in
  let p := payload session_id facts host kind in
  (slen (payload_text p) <= MAX_PAYLOAD_BYTES \/ p = drop_tab (drop_reply (drop_title full)))
  /\ (p = full
      \/ (MAX_PAYLOAD_BYTES < slen (payload_text full)
          /\ (p = drop_title full
              \/ (MAX_PAYLOAD_BYTES < slen (payload_text (drop_title full))
                  /\ (p = drop_reply (drop_title full)
                      \/ (MAX_PAYLOAD_BYTES < slen (payload_text (drop_reply (drop_title full)))
                          /\ p = drop_tab (drop_reply (drop_title full)))))))).
Proof.
  cbn zeta. unfold payload. destruct (shed_fields_cases [drop_title; drop_reply; drop_tab] (full_payload session_id facts host kind))
    as (n & Hn & Heq & Hm & Hend). rewrite Heq in *. cbn [length] in *.
  pose proof (Hm 0%nat) as H0. pose proof (Hm 1%nat) as H1. pose proof (Hm 2%nat) as H2. cbn [take foldl] in H0, H1, H2.
  destruct n as [|[|[|[|n]]]]; cbn [take foldl] in *; [..|lia]; (split; [destruct Hend as [Hfit|Hfit]; [by left|first [lia|by right]]|]).
  - by left.
  - right. split; [apply H0; lia|]. by left.
  - right. split; [apply H0; lia|]. right. split; [apply H1; lia|]. by left.
  - right. split; [apply H0; lia|]. right. split; [apply H1; lia|]. right. split; [apply H2; lia|done].
Qed.

(** A payload names no device and no key: the cut of a text is what [bounded] promises. *)
Lemma bounded_chars value characters :
  (0 < characters)%nat -> (length (chars (bounded value characters)) <= characters)%nat.
Proof.
  intros Hpos. unfold bounded. destruct (Nat.leb_spec (length (chars value)) characters) as [|Hlt]; [done|].
  rewrite chars_app by done. rewrite chars_sconcat.
  - rewrite length_app, length_take. change (length (chars ellipsis)) with 1%nat. lia.
  - apply (chars_shape_app_l _ (drop (characters - 1) (chars value))). rewrite take_drop. apply chars_chars_shape.
Qed.

(** ** Retries *)

Definition transient (answer : option (N * string)) : Prop :=
  match answer with None => True | Some (status, _) => status = 0 \/ 500 <= status <= 599 end.

Lemma retryable_spec status : relay_attempt_is_retryable status = true <-> status = 0 \/ 500 <= status <= 599.
Proof. unfold relay_attempt_is_retryable. rewrite orb_true_iff, andb_true_iff, N.eqb_eq, !N.leb_le. done. Qed.

Lemma deliver_loop_cases attempts attempt answer :
  let '(e, posts) := deliver_loop attempts attempt answer in
  (attempt <= posts <= attempt + attempts)%nat
  /\ (forall i, (attempt <= i < posts)%nat -> (S i < posts)%nat -> transient (answer i))
  /\ match e with
     | GaveUp => posts = (attempt + attempts)%nat /\ forall i, (attempt <= i < posts)%nat -> transient (answer i)
     | _ => exists i status detail, posts = S i /\ (attempt <= i)%nat /\ answer i = Some (status, detail)
            /\ e = (if status =? 204 then Delivered else if status =? 400 then TicketForgotten else RelayRefused)
            /\ ~ transient (answer i)
     end.
Proof.
  revert attempt. induction attempts as [|attempts IH]; intros attempt; cbn [deliver_loop]; [split_and!; lia|].
  assert (transient (answer attempt) ->
    let '(e, posts) := deliver_loop attempts (S attempt) answer in
    (attempt <= posts <= attempt + S attempts)%nat
    /\ (forall i, (attempt <= i < posts)%nat -> (S i < posts)%nat -> transient (answer i))
    /\ match e with
       | GaveUp => posts = (attempt + S attempts)%nat /\ forall i, (attempt <= i < posts)%nat -> transient (answer i)
       | _ => exists i status detail, posts = S i /\ (attempt <= i)%nat /\ answer i = Some (status, detail)
              /\ e = (if status =? 204 then Delivered else if status =? 400 then TicketForgotten else RelayRefused)
              /\ ~ transient (answer i)
       end) as Hnext.
  { intros Ht. specialize (IH (S attempt)). destruct (deliver_loop attempts (S attempt) answer) as [e posts].
    destruct IH as (Hb & Hi & He).
    assert (forall i, (attempt <= i < posts)%nat -> (S attempt <= i)%nat \/ i = attempt) as Hsplit by lia.
    split; [lia|]. split; [intros i H1 H2; destruct (Hsplit i H1) as [| ->]; [apply Hi; lia|done]|].
    destruct e; try (destruct He as (i & status & detail & ? & ? & ? & ? & ?); exists i, status, detail; split_and!; auto; lia).
    destruct He as [-> He]. split; [lia|]. intros i H1. destruct (Hsplit i H1) as [| ->]; [apply He; lia|done]. }
  destruct (answer attempt) as [[status detail]|] eqn:Ha; [|by apply Hnext].
  destruct (N.eqb_spec status 204) as [->|H204]; [|destruct (N.eqb_spec status 400) as [->|H400];
    [|destruct (relay_attempt_is_retryable status) eqn:Hr; cbn [negb]; [by apply Hnext, retryable_spec|]]];
    (split; [lia|]; split; [lia|]); eexists attempt, _, detail; rewrite Ha; split_and!; try done; cbn; try lia.
  - rewrite (proj2 (N.eqb_neq status 204)), (proj2 (N.eqb_neq status 400)) by done. done.
  - rewrite <- retryable_spec. by rewrite Hr.
Qed.

(** A push is tried at most three times: again only after an answer that may pass, a failed request or
    a server's error, and never after the relay took it, refused its ticket or refused it otherwise;
    it is given up only when all three failed that way. *)
Theorem deliver_retries answer :
  let '(e, posts) := deliver answer in
  (1 <= posts <= 3)%nat
  /\ (forall i, (S i < posts)%nat -> transient (answer i))
  /\ match e with
     | GaveUp => posts = 3%nat /\ forall i, (i < 3)%nat -> transient (answer i)
     | _ => exists i status detail, posts = S i /\ answer i = Some (status, detail) /\ ~ transient (answer i)
            /\ e = (if status =? 204 then Delivered else if status =? 400 then TicketForgotten else RelayRefused)
     end.
Proof.
  unfold deliver. pose proof (deliver_loop_cases 3 0 answer) as H. cbn [length ATTEMPT_BACKOFF].
  destruct (deliver_loop 3 0 answer) as [e posts]. destruct H as (Hb & Hi & He).
  split; [|split; [intros i Hlt; apply Hi; lia|]].
  - destruct e; [destruct He as (i & ? & ? & -> & _); lia..|lia].
  - destruct e; [destruct He as (i & status & detail & ? & _ & ? & ? & ?); by exists i, status, detail..|].
    destruct He as [-> He]. split; [done|]. intros i Hlt. apply He. lia.
Qed.

End notify.
