(* ===== verification/Routes.v ===== *)
(** Terminal routes ([agent_session.rs]): resolving, revalidating and looking them up, and the
    agreement between the sessions and the route table that every operation keeps. *)
From S2P Require Import Prelude Text Protocol Fit Reducer Metadata Reconcile Session History Bridge.
From S2P Require Import Timeline Registration Supervisor Commands.

Local Open Scope N_scope.

(** ** Operations *)

Section operations.
Context (iterate : forall A, gmap string A -> list (string * A)).
(** What the vendor's status directory says of a binding when it is asked, and what the supervisor's
    other operations do while it is. *)
Context (live : TerminalBinding -> bool) (meanwhile : nat -> Supervisor -> Supervisor).

Definition revalidate_terminal_binding (now : N) (await : nat) (session_id : string) (sv : Supervisor)
  : Supervisor * bool :=
  match sv_sessions sv !! session_id with
  | None => (sv, false)
  | Some s =>
      match ls_terminal_binding s with
      | None => (sv, true)
      | Some binding =>
          let sv := meanwhile await sv in
          if live binding
          then (sv, is_some_and (fun s => bool_decide (ls_terminal_binding s = Some binding))
                      (sv_sessions sv !! session_id))
          else (remove_terminal_binding_if_current iterate now session_id binding sv, false)
      end
  end.

Definition refresh_route (now : N) (session_id : string) (resolve : N -> option AgentRouteProof)
    (route_draw : N) (sv : Supervisor) : Supervisor :=
  match revalidate_terminal_binding now 0 session_id sv with
  | (sv, false) => sv
  | (sv, true) =>
      match route_fence session_id sv with
      | None => sv
      | Some fence =>
          match revalidate_terminal_binding now 2 session_id (meanwhile 1%nat sv) with
          | (sv, false) => sv
          | (sv, true) => install_route now session_id fence (resolve (rf_process_id fence)) route_draw sv
          end
      end
  end.

(** Sessions that are live but hold no route, each tried again; [draw] is the route id drawn for
    the session, if it needs one. *)
Definition recover_missing_routes (now : N) (resolve : N -> option AgentRouteProof) (draw : string -> N)
    (sv : Supervisor) : Supervisor :=
  let candidates := fst <$> List.filter (fun '(_, s) =>
    ls_adapter_active s && is_none (ls_route_id s) && negb (ss_topology (ls_snapshot s) =s? "adopted"))
    (iterate LiveSession (sv_sessions sv)) in
  foldl (fun sv session_id => refresh_route now session_id resolve (draw session_id) sv) sv candidates.

(** The sweep of [revalidate_live_routes]: bindings whose generation is gone, then routes whose
    proof no longer holds. [current] is what each status directory lists. *)
Definition revalidate_live_routes (now : N) (current : string -> list TerminalBinding)
    (valid : AgentRouteProof -> bool) (sv : Supervisor) : Supervisor :=
  let recorded := omap (fun '(id, s) => (fun binding => (id, binding)) <$> ls_terminal_binding s)
                    (iterate LiveSession (sv_sessions sv)) in
  let sv := foldl (fun sv '(id, binding) =>
              if bool_decide (binding ∈ current (bi_status_directory binding)) then sv
              else remove_terminal_binding_if_current iterate now id binding sv)
              (meanwhile 0%nat sv) recorded in
  let records := iterate RouteRecord (sv_routes sv) in
  foldl (fun sv '(route_id, record) =>
           if valid (rt_proof record) then sv
           else downgrade_if_current now route_id (rt_session_id record) (rt_process_generation record)
                  "route_invalidated" sv)
    (meanwhile 1%nat sv) records.

(** What a terminal stream opened at a route runs; [plan] is the resolver's answer for its proof. *)
Definition terminal_plan {Plan : Type} (now : N) (plan : AgentRouteProof -> option Plan) (route_id expected_session : string)
    (expected_generation : N) (sv : Supervisor) : Supervisor * option Plan :=
  if is_err (valid_opaque_id route_id) then (sv, None)
  else match sv_routes sv !! route_id with
       | None => (sv, None)
       | Some record =>
           if negb (rt_session_id record =s? expected_session)
              || negb (rt_process_generation record =? expected_generation) then (sv, None)
           else match revalidate_terminal_binding now 0 (rt_session_id record) sv with
                | (sv, false) => (sv, None)
                | (sv, true) =>
                    match revalidate_terminal_binding now 2 (rt_session_id record) (meanwhile 1%nat sv) with
                    | (sv, false) => (sv, None)
                    | (sv, true) =>
                        match plan (rt_proof record) with
                        | Some answer => (sv, Some answer)
                        | None => (downgrade_if_current now route_id (rt_session_id record)
                                     (rt_process_generation record) "route_invalidated" sv, None)
                        end
                    end
                end
       end.
End operations.

Definition session_for_route (route_id : string) (sv : Supervisor) : option (string * N) :=
  (fun route => (rt_session_id route, rt_process_generation route)) <$> sv_routes sv !! route_id.

(** ** Agreement *)

(** What routing sees of a session. *)
Definition route_view (s : LiveSession) : option string * N :=
  (ls_route_id s, ss_process_generation (ls_snapshot s)).

Definition views (sv : Supervisor) : gmap string (option string * N) := route_view <$> sv_sessions sv.

(** Every session's route is in the table under that session and its process generation, and the
    table holds nothing else. *)
Definition routes_agree (views : gmap string (option string * N)) (routes : gmap string RouteRecord) : Prop :=
  (forall id r g, views !! id = Some (Some r, g) -> exists proof, routes !! r = Some (mkRouteRecord id g proof))
  /\ (forall r record, routes !! r = Some record ->
        views !! rt_session_id record = Some (Some r, rt_process_generation record)).

Definition routes_ok (sv : Supervisor) : Prop := routes_agree (views sv) (sv_routes sv).

Lemma agree_drop vs routes id r g g' :
  routes_agree vs routes -> vs !! id = Some (r, g) ->
  routes_agree (<[id := (None, g')]> vs) (match r with Some r => delete r routes | None => routes end).
Proof.
  intros [Hn Ho] Hid. split.
  - intros id' r' g0 [[<- [=]]|[Hne Hv]]%lookup_insert_Some.
    destruct (Hn _ _ _ Hv) as [proof Hp]. exists proof. destruct r as [r|]; [|done].
    apply lookup_delete_Some. split; [|done]. intros ->.
    destruct (Hn _ _ _ Hid) as [proof' Hp']. congruence.
  - intros r' record Hr. assert (routes !! r' = Some record /\ r <> Some r') as [Hr' Hne].
    { destruct r as [r|]; [|done]. apply lookup_delete_Some in Hr as [? ?]. split; [done|congruence]. }
    rewrite lookup_insert_ne; [by apply Ho|]. intros ->. apply Ho in Hr'. congruence.
Qed.

Lemma agree_delete vs routes id :
  routes_agree vs routes -> (forall r g, vs !! id <> Some (Some r, g)) -> routes_agree (delete id vs) routes.
Proof.
  intros [Hn Ho] Hid. split.
  - intros id' r g [_ Hv]%lookup_delete_Some. by apply Hn.
  - intros r record Hr%Ho. apply lookup_delete_Some. split; [|done]. intros Heq. rewrite <- Heq in Hr. by apply Hid in Hr.
Qed.

Lemma agree_remove vs routes id r g :
  routes_agree vs routes -> vs !! id = Some (r, g) ->
  routes_agree (delete id vs) (match r with Some r => delete r routes | None => routes end).
Proof.
  intros Ha Hid. pose proof (agree_drop vs routes id r g g Ha Hid) as Hd.
  apply (agree_delete _ _ id) in Hd; [by rewrite delete_insert_eq in Hd|].
  intros r' g'. rewrite lookup_insert, decide_True by done. congruence.
Qed.

Lemma agree_new vs routes id g :
  routes_agree vs routes -> (forall r g, vs !! id <> Some (Some r, g)) -> routes_agree (<[id := (None, g)]> vs) routes.
Proof.
  intros [Hn Ho] Hid. split.
  - intros id' r' g0 [[<- [=]]|[Hne Hv]]%lookup_insert_Some. by apply Hn.
  - intros r record Hr%Ho. rewrite lookup_insert_ne; [done|]. intros ->. by apply Hid in Hr.
Qed.

Lemma agree_grant vs routes id g r proof :
  routes_agree vs routes -> vs !! id = Some (None, g) -> routes !! r = None ->
  routes_agree (<[id := (Some r, g)]> vs) (<[r := mkRouteRecord id g proof]> routes).
Proof.
  intros [Hn Ho] Hid Hr. split.
  - intros id' r' g' [[<- [= <- <-]]|[Hne Hv]]%lookup_insert_Some.
    + exists proof. by rewrite lookup_insert, decide_True.
    + destruct (Hn _ _ _ Hv) as [p Hp]. exists p. rewrite lookup_insert_ne; [done|congruence].
  - intros r' record [[<- <-]|[Hne Hr']]%lookup_insert_Some; cbn.
    + by rewrite lookup_insert, decide_True.
    + apply Ho in Hr'. rewrite lookup_insert_ne; [done|congruence].
Qed.

(** ** What keeps a session's route *)

Lemma report_view now write changes s :
  (forall p, ss_process_generation (write p) = ss_process_generation p) ->
  route_view (report now write changes s) = route_view s.
Proof. intros Hw. unfold route_view, report, bump_revision, over_snapshot. cbn. by rewrite Hw. Qed.

Lemma publish_receipt_view now r s : route_view (publish_receipt now r s) = route_view s.
Proof. done. Qed.

Lemma downgrade_route_view now reason s : route_view (downgrade_route now reason s) = route_view s.
Proof. by apply report_view. Qed.

Lemma downgrade_session_view now reason s : route_view (downgrade_session now reason s) = route_view s.
Proof. unfold downgrade_session. by rewrite report_view. Qed.

Create Rewrite HintDb views.
#[export] Hint Rewrite publish_receipt_view downgrade_route_view downgrade_session_view : views.

(** A report moves no route and no generation. *)
Lemma bridge_step_view now r s : route_view (bridge_step now r s) = route_view s.
Proof.
  destruct r; cbn [bridge_step]; autorewrite with views; [..|done].
  all: unfold update_bridge_permission_mode, update_bridge_model, update_bridge_effort, update_bridge_model_catalogue,
    update_bridge_commands, note_bridge_turn, note_bridge_attention, note_bridge_idle_report, upsert_bridge_interaction,
    resolve_bridge_interaction, expire_stale_turn_claim.
  all: repeat case_match; cbn [fst]; rewrite ?report_view by done; done.
Qed.


Lemma normalize_entry_view id_draw entry s : route_view (normalize_entry id_draw entry s).1 = route_view s.
Proof. unfold normalize_entry. by destruct (source_mapping s _). Qed.

Lemma enforce_history_bound_view s : route_view (enforce_history_bound s).1 = route_view s.
Proof. unfold enforce_history_bound. by destruct (evict_loop _ _ _ _ _) as [[? ?] ?]. Qed.

Lemma set_history_coverage_view complete s : route_view (set_history_coverage complete s).1 = route_view s.
Proof. by destruct complete. Qed.

Lemma publish_evicted_start_view now evicted s : route_view (publish_evicted_start now evicted s) = route_view s.
Proof.
  unfold publish_evicted_start. destruct evicted; [cbn [negb]|done].
  pose proof (set_history_coverage_view false s) as H. destruct (set_history_coverage false s) as [s' changed].
  by destruct changed.
Qed.

Lemma clear_hook_attention_view s : route_view (clear_hook_attention s).1 = route_view s.
Proof. unfold clear_hook_attention. by case_match. Qed.

Section timeline_views.
Context (encoded_frame_len : AgentServerFrame -> N) (encoded_len : AgentMetadataFile -> N)
  (write_private : AgentMetadataFile -> bool).

Lemma refresh_window_view s : route_view (refresh_snapshot_window encoded_frame_len s) = route_view s.
Proof. done. Qed.

Lemma bump_view now s : route_view (bump_revision now s) = route_view s.
Proof. done. Qed.

Lemma publish_entry_view now canonical s : route_view (publish_entry encoded_frame_len now canonical s) = route_view s.
Proof.
  unfold publish_entry. pose proof (enforce_history_bound_view s) as H1.
  destruct (enforce_history_bound s) as [s1 evicted]. cbn [fst] in H1.
  pose proof (clear_hook_attention_view (refresh_snapshot_window encoded_frame_len (bump_revision now s1))) as H2.
  destruct (clear_hook_attention _) as [s2 attention]. cbn [fst] in H2.
  rewrite publish_evicted_start_view. etrans; [|exact H1]. etrans; [|exact H2]. done.
Qed.

Lemma upsert_entry_view now id_draw entry s :
  route_view (upsert_bridge_entry encoded_frame_len now id_draw entry s).1 = route_view s.
Proof.
  unfold upsert_bridge_entry. case_match; [|done].
  pose proof (normalize_entry_view id_draw entry s) as H1.
  destruct (normalize_entry id_draw entry s) as [s1 canonical]. cbn [fst] in H1.
  repeat case_match; cbn [fst]; rewrite ?publish_entry_view; exact H1.
Qed.

Lemma append_text_view now id_draw delta s :
  route_view (append_bridge_text encoded_frame_len now id_draw delta s).1 = route_view s.
Proof.
  unfold append_bridge_text. case_match; [|done]. destruct (_ || _); [done|]. case_match.
  - repeat case_match; try done. cbn [fst]. by rewrite publish_entry_view.
  - pose proof (normalize_entry_view id_draw (first_chunk delta) s) as H1.
    destruct (normalize_entry _ _ s) as [s1 canonical]. cbn [fst] in H1 |- *. rewrite publish_entry_view.
    by case_match.
Qed.

Lemma fence_history_view metadata s before draws now :
  route_view (fence_rewritten_history encoded_len write_private metadata s before draws now).1.2 = route_view s.
Proof. unfold fence_rewritten_history. case_match; [done|]. by destruct (update_epoch _ _ _ _ _ _). Qed.

Lemma publish_rewrite_view now reason metadata s :
  route_view (publish_rewrite encoded_frame_len encoded_len write_private now reason metadata s).1.2 = route_view s.
Proof. unfold publish_rewrite. destruct (update_revision _ _ _ _ _ _) as [? []]; done. Qed.

Lemma replaced_entries_view id_draw entries s : route_view (replaced_entries id_draw entries s).1 = route_view s.
Proof.
  unfold replaced_entries. set (f := fun '(s, history) '(position, entry) => _).
  enough (forall l s history, route_view (foldl f (s, history) l).1 = route_view s) as H by apply H. clear s.
  induction l as [|[position entry] l IH]; intros s history; [done|]. cbn [foldl]. unfold f at 2.
  set (entry' := match previous_source_revision s _ with Some _ => _ | None => entry end).
  pose proof (normalize_entry_view (id_draw position) entry' s) as H1.
  destruct (normalize_entry _ entry' s) as [s1 canonical]. by rewrite IH.
Qed.

Lemma replace_snapshot_view now id_draw draws carried entries complete metadata s :
  route_view (replace_bridge_snapshot_covering encoded_frame_len encoded_len write_private now id_draw draws carried
                entries complete metadata s).1.2 = route_view s.
Proof.
  unfold replace_bridge_snapshot_covering. case_match; [done|]. case_match; [done|].
  pose proof (replaced_entries_view id_draw entries s) as H1.
  destruct (replaced_entries _ _ s) as [s1 history]. cbn [fst] in H1.
  set (s2 := set_ls_source_entries _ s1). assert (route_view s2 = route_view s) as H2 by exact H1. clearbody s2.
  match goal with |- context [let '(s, history) := ?x in _] => assert (route_view x.1 = route_view s) as H3 end.
  { repeat case_match; done. }
  destruct (if _ : bool then _ else _) as [s3 history']. cbn [fst] in H3.
  match goal with |- context [fence_rewritten_history ?a ?b ?c ?d ?e ?f ?g] =>
    pose proof (fence_history_view c d e f g) as H4;
    destruct (fence_rewritten_history a b c d e f g) as [[metadata' s4] [[]|]] end;
    cbn [fst snd] in H4; [..|exact (eq_trans H4 H3)].
  all: pose proof (enforce_history_bound_view s4) as H5; destruct (enforce_history_bound s4) as [s5 cut];
    cbn [fst] in H5; rewrite publish_rewrite_view;
    repeat case_match; rewrite ?set_history_coverage_view; exact (eq_trans H5 (eq_trans H4 H3)).
Qed.

Lemma apply_plan_view plan authority id_draw s :
  route_view (apply_reconcile_plan plan authority id_draw s).1 = route_view s.
Proof. unfold apply_reconcile_plan. by destruct (number_restored_rows _ _). Qed.

Lemma reconcile_history_view now id_draw draws generation authority mode prefix scope metadata s :
  route_view (reconcile_bridge_history encoded_frame_len encoded_len write_private now id_draw draws generation
                authority mode prefix scope metadata s).1.2 = route_view s.
Proof.
  unfold reconcile_bridge_history. do 3 (case_match; [done|]).
  destruct (plan_reconcile _ _ _ _) as [plan|]; [|done].
  pose proof (apply_plan_view plan authority id_draw s) as Hplan.
  destruct (apply_reconcile_plan _ _ _ s) as [s1 rewritten]. cbn [fst] in Hplan.
  match goal with |- context [fence_rewritten_history ?a ?b ?c ?d ?e ?f ?g] =>
    pose proof (fence_history_view c d e f g) as Hfence;
    destruct (fence_rewritten_history a b c d e f g) as [[metadata' s4] [fenced|]] end;
    cbn [fst snd] in Hfence; [|exact (eq_trans Hfence Hplan)].
  pose proof (enforce_history_bound_view s4) as Hbound. destruct (enforce_history_bound s4) as [s5 cut]. cbn [fst] in Hbound.
  match goal with |- context [let '(s, changed) := ?x in _] => assert (route_view x.1 = route_view s) as Hcover end.
  { repeat case_match; rewrite ?set_history_coverage_view; exact (eq_trans Hbound (eq_trans Hfence Hplan)). }
  match goal with |- context [let '(s, changed) := ?x in _] => destruct x as [s6 changed] end. cbn [fst] in Hcover.
  case_match; [exact Hcover|]. by rewrite publish_rewrite_view.
Qed.
End timeline_views.

(** ** What keeps the table *)

Definition kept (sv sv' : Supervisor) : Prop := views sv' = views sv /\ sv_routes sv' = sv_routes sv.

Lemma kept_ok sv sv' : kept sv sv' -> routes_ok sv -> routes_ok sv'.
Proof. intros [Hv Hr]. unfold routes_ok. by rewrite Hv, Hr. Qed.

Lemma kept_refl sv : kept sv sv.
Proof. done. Qed.

Lemma kept_trans sv1 sv2 sv3 : kept sv1 sv2 -> kept sv2 sv3 -> kept sv1 sv3.
Proof. intros [H1 H2] [H3 H4]. split; congruence. Qed.

Lemma kept_metadata m sv : kept sv (set_metadata m sv).
Proof. done. Qed.

Lemma views_put id s sv : views (put_session id s sv) = <[id := route_view s]> (views sv).
Proof. unfold views, put_session, set_sessions. cbn [sv_sessions]. apply fmap_insert. Qed.

Lemma views_lookup sv id s : sv_sessions sv !! id = Some s -> views sv !! id = Some (route_view s).
Proof. intros H. unfold views. by rewrite lookup_fmap, H. Qed.

Lemma kept_put id s s' sv :
  sv_sessions sv !! id = Some s -> route_view s' = route_view s -> kept sv (put_session id s' sv).
Proof.
  intros Hs Hv. split; [|done]. rewrite views_put, Hv. by apply insert_id, views_lookup.
Qed.

Lemma kept_put_metadata id s s' m sv :
  sv_sessions sv !! id = Some s -> route_view s' = route_view s -> kept sv (put_session id s' (set_metadata m sv)).
Proof. intros Hs Hv. apply (kept_trans _ (set_metadata m sv)); [apply kept_metadata|by eapply kept_put]. Qed.

Section operations_keep.
Context (iterate : forall A, gmap string A -> list (string * A)) (drain : gset string -> list string).
Context (sha256 : list N -> list N) (encoded_frame_len : AgentServerFrame -> N)
  (encoded_len : AgentMetadataFile -> N) (write_private : AgentMetadataFile -> bool).
Context (fix_for : string -> option string) (live_distinct_for : string -> N).

Lemma persist_receipt_view now r metadata s :
  route_view (persist_and_publish_receipt encoded_len write_private now r metadata s).1.2 = route_view s.
Proof. destruct (persist_receipt_eq encoded_len write_private now r metadata s) as [e ->]. cbn. by case_match. Qed.

Lemma publish_regardless_view now r metadata s :
  route_view (publish_regardless encoded_len write_private now r metadata s).2 = route_view s.
Proof. by rewrite publish_regardless_eq. Qed.

Lemma mark_unknown_kept now command reason sv :
  kept sv (mark_outcome_unknown encoded_len write_private now command reason sv).1.
Proof.
  unfold mark_outcome_unknown. destruct (sv_sessions sv !! _) as [s|] eqn:Hs; [|apply kept_refl].
  match goal with |- context [publish_regardless ?a ?b ?c ?d ?e ?f] =>
    pose proof (publish_regardless_view c d e f) as Hv; destruct (publish_regardless a b c d e f) as [m s'] end.
  by eapply kept_put_metadata.
Qed.

Lemma answer_kept now command state reason s sv :
  sv_sessions sv !! co_session_id command = Some s ->
  kept sv (answer_with encoded_len write_private now command state reason s sv).1.
Proof.
  intros Hs. unfold answer_with.
  pose proof (persist_receipt_view now (rejected_receipt command state reason now) (sv_metadata sv) s) as Hv.
  destruct (persist_and_publish_receipt _ _ _ _ _ _) as [[m s'] r]. by eapply kept_put_metadata.
Qed.

Lemma admit_kept now command sv : kept sv (admit_command encoded_len write_private now command sv).1.
Proof.
  unfold admit_command. destruct (sv_sessions sv !! _) as [s|] eqn:Hs; [|apply kept_refl].
  assert (forall state reason, kept sv (let '(sv, r) := answer_with encoded_len write_private now command state reason s sv in
                                        (sv, Answer r)).1) as Hans.
  { intros state reason. pose proof (answer_kept now command state reason s sv Hs) as H.
    by destruct (answer_with _ _ _ _ _ _ _). }
  case_match; [apply Hans|]. case_match; [apply Hans|].
  match goal with |- context [persist_and_publish_receipt ?a ?b ?c ?d ?e ?f] =>
    pose proof (persist_receipt_view c d e f) as Hv; destruct (persist_and_publish_receipt a b c d e f) as [[m s'] []] end;
    cbn [fst snd] in Hv; [|by eapply kept_put_metadata].
  set (s1 := set_ls_in_flight_commands _ s'). assert (route_view s1 = route_view s) as Hv1 by exact Hv. clearbody s1.
  exact (kept_put_metadata _ s s1 m sv Hs Hv1).
Qed.

Lemma deliver_kept accepts orphan now command channel r sv :
  kept sv (deliver encoded_len write_private accepts orphan now command channel r sv).1.
Proof.
  unfold deliver, queue_of. destruct channel as [channel|]; [|apply mark_unknown_kept].
  destruct (sv_sessions sv !! _) as [s|] eqn:Hs; cbn [mbind option_bind];
    [|case_match; [apply kept_refl|apply mark_unknown_kept]].
  destruct (ls_bridge_sender s) as [queue|]; cbn [mbind option_bind];
    [|case_match; [apply kept_refl|apply mark_unknown_kept]].
  destruct (_ =s? _); [|case_match; [apply kept_refl|apply mark_unknown_kept]].
  case_match; [by eapply kept_put|apply mark_unknown_kept].
Qed.

Lemma record_receipt_kept now id command_id state evidence reason sv :
  kept sv (record_bridge_receipt encoded_len write_private now id command_id state evidence reason sv).1.
Proof.
  unfold record_bridge_receipt. destruct (_ || _); [apply kept_refl|].
  destruct (sv_sessions sv !! id) as [s|] eqn:Hs; [|apply kept_refl]. case_match; [apply kept_refl|].
  match goal with |- context [persist_and_publish_receipt ?a ?b ?c ?d ?e ?f] =>
    pose proof (persist_receipt_view c d e f) as Hv; destruct (persist_and_publish_receipt a b c d e f) as [[m s'] []] end;
    cbn [fst snd] in Hv |- *; eapply kept_put_metadata; [done| |done|done]. by case_match.
Qed.

Lemma expire_kept now sv : kept sv (expire_stale_turn_claims now sv).
Proof.
  split; [|done]. unfold views, expire_stale_turn_claims, set_sessions. cbn [sv_sessions].
  rewrite <- map_fmap_compose. apply map_fmap_ext. intros id s _. exact (bridge_step_view now ExpireClaim s).
Qed.

Lemma give_up_view now id reason commands metadata s :
  route_view (give_up_in_flight encoded_len write_private now id reason commands metadata s).2 = route_view s.
Proof.
  destruct (give_up_in_flight_spec encoded_len write_private commands now id reason metadata s)
    as (m & s' & -> & (_ & _ & _ & H1 & H2 & _) & _). unfold route_view. cbn. congruence.
Qed.

Lemma fence_in_flight_view now id commands metadata s :
  route_view (fence_in_flight encoded_len write_private now id commands metadata s).1.2 = route_view s.
Proof.
  revert metadata s. induction commands as [|c commands IH]; intros metadata s; [done|]. cbn [fence_in_flight].
  match goal with |- context [persist_and_publish_receipt ?a ?b ?c ?d ?e ?f] =>
    pose proof (persist_receipt_view c d e f) as Hv; destruct (persist_and_publish_receipt a b c d e f) as [[m s'] []] end;
    cbn [fst snd] in Hv |- *; [by rewrite IH|done].
Qed.

Lemma fence_live_kept now mapped sv : kept sv (fence_live drain encoded_len write_private now mapped sv).1.
Proof.
  unfold fence_live. destruct mapped as [id|]; [|apply kept_refl].
  destruct (sv_sessions sv !! id) as [s|] eqn:Hs; [|apply kept_refl].
  pose proof (fence_in_flight_view now id (drain (ls_in_flight_commands s)) (sv_metadata sv) s) as Hv.
  destruct (fence_in_flight _ _ _ _ _ _ _) as [[m s'] []]; cbn [fst snd] in *; by eapply kept_put_metadata.
Qed.

Lemma refresh_observer_kept now r sv :
  kept sv (refresh_observer_registration sha256 encoded_len write_private fix_for live_distinct_for now r sv).1.
Proof.
  unfold refresh_observer_registration. destruct (mapping_for_process _ _ _ _) as [[[id generation] epoch]|];
    [|apply kept_refl].
  set (sv1 := set_ended _ sv). assert (kept sv sv1) as Hk by done. cbn zeta.
  change (sv_sessions sv1) with (sv_sessions sv).
  destruct (sv_sessions sv !! id) as [s|] eqn:Hs; [|exact Hk]. case_match; [exact Hk|].
  assert (sv_sessions sv1 !! id = Some s) as Hs1 by exact Hs. clearbody sv1.
  set (drift := drift_note_for _ _ r). clearbody drift.
  set (s1 := refreshed_session now r drift s). assert (route_view s1 = route_view s) as Hv by done. clearbody s1.
  case_match; [|eapply kept_trans; [exact Hk|by eapply kept_put]].
  set (s2 := send _ _). assert (route_view s2 = route_view s1) as Hv2 by done. clearbody s2.
  destruct (update_revision _ _ _ _ _ _) as [m []]; cbn [fst];
    (eapply kept_trans; [exact Hk|eapply kept_put_metadata; [done|congruence]]).
Qed.

(** ** What moves the table *)

Lemma remove_session_ok now sv id : routes_ok sv -> routes_ok (remove_session iterate now sv id).
Proof.
  intros Hok. unfold remove_session. destruct (sv_sessions sv !! id) as [s|] eqn:Hs; [|done].
  unfold routes_ok, views. cbn [sv_sessions sv_routes]. rewrite fmap_delete.
  exact (agree_remove _ _ _ _ _ Hok (views_lookup _ _ _ Hs)).
Qed.

Lemma remove_sessions_ok now ids sv : routes_ok sv -> routes_ok (foldl (remove_session iterate now) sv ids).
Proof. revert sv. induction ids as [|id ids IH]; intros sv Hok; [done|]. cbn. by apply IH, remove_session_ok. Qed.

(** A session that gives up its route. *)
Lemma routeless_ok sv id s s' sv' :
  routes_ok sv -> sv_sessions sv !! id = Some s -> ls_route_id s' = None ->
  sv_sessions sv' = <[id := s']> (sv_sessions sv) -> sv_routes sv' = drop_route s (sv_routes sv) ->
  routes_ok sv'.
Proof.
  intros Hok Hs Hnone Hss Hr. unfold routes_ok, views. rewrite Hss, Hr, fmap_insert.
  unfold route_view at 1. rewrite Hnone. exact (agree_drop _ _ _ _ _ _ Hok (views_lookup _ _ _ Hs)).
Qed.

Lemma disconnected_ok now id token exited sv :
  routes_ok sv -> routes_ok (bridge_disconnected iterate drain encoded_len write_private now id token exited sv).
Proof.
  intros Hok. unfold bridge_disconnected. destruct (sv_sessions sv !! id) as [s|] eqn:Hs; [|done].
  case_match; [done|]. destruct exited; [by apply remove_session_ok|].
  set (s1 := set_ls_in_flight_commands ∅ _). assert (route_view s1 = route_view s) as H1 by done. clearbody s1.
  pose proof (give_up_view now id "bridge_disconnected" (drain (ls_in_flight_commands s)) (sv_metadata sv) s1) as H2.
  destruct (give_up_in_flight _ _ _ _ _ _ _ _) as [m s2]. cbn [snd] in H2.
  eapply kept_ok; [|exact Hok]. eapply kept_put_metadata; [done|]. rewrite downgrade_session_view.
  case_match; [|congruence]. transitivity (route_view s2); [done|congruence].
Qed.

Lemma end_observed_ok now id generation sv :
  routes_ok sv -> routes_ok (end_observed_session iterate now id generation sv).
Proof.
  intros Hok. unfold end_observed_session. destruct (sv_sessions sv !! id) as [s|] eqn:Hs; [|done].
  destruct (_ || _); [done|]. eapply routeless_ok; [done|done| |done|done].
  match goal with |- ls_route_id (downgrade_session ?n ?r ?s) = _ =>
    pose proof (downgrade_session_view n r s) as Hv; apply (f_equal fst) in Hv; exact Hv end.
Qed.

Lemma end_adopted_ok now id generation reason sv :
  routes_ok sv -> routes_ok (end_adopted_session now id generation reason sv).
Proof.
  intros Hok. unfold end_adopted_session. destruct (sv_sessions sv !! id) as [s|] eqn:Hs; [|done].
  destruct (_ || _); [done|]. eapply routeless_ok; [done|done| |done|done].
  match goal with |- ls_route_id (downgrade_session ?n ?r ?s) = _ =>
    pose proof (downgrade_session_view n r s) as Hv; apply (f_equal fst) in Hv; exact Hv end.
Qed.

Lemma unbind_ok now id binding sv :
  routes_ok sv -> routes_ok (remove_terminal_binding_if_current iterate now id binding sv).
Proof. intros Hok. unfold remove_terminal_binding_if_current. case_match; [by apply remove_session_ok|done]. Qed.

Lemma downgrade_current_ok now route_id id generation reason sv :
  routes_ok sv -> routes_ok (downgrade_if_current now route_id id generation reason sv).
Proof.
  intros Hok. unfold downgrade_if_current. destruct (sv_sessions sv !! id) as [s|] eqn:Hs; [|done].
  destruct (opt_is (ls_route_id s) route_id && _) eqn:Hc; [|done]. apply andb_true_iff in Hc as [Hr _].
  assert (ls_route_id s = Some route_id) as Hid
    by (unfold opt_is in Hr; destruct (ls_route_id s); [apply String.eqb_eq in Hr; congruence|done]).
  eapply (routeless_ok _ id s); [done|done| |done|unfold drop_route; by rewrite Hid].
  match goal with |- ls_route_id (downgrade_route ?n ?r ?s) = _ =>
    pose proof (downgrade_route_view n r s) as Hv; apply (f_equal fst) in Hv; exact Hv end.
Qed.

(** A route is installed under an id no route in the table has. *)
Lemma install_route_ok now id fence proof draw sv :
  routes_ok sv -> sv_routes sv !! random_id draw = None -> routes_ok (install_route now id fence proof draw sv).
Proof.
  intros Hok Hfresh. unfold install_route. destruct (sv_sessions sv !! id) as [s|] eqn:Hs; [|done].
  case_match; [done|]. cbn zeta.
  match goal with |- context [report ?n ?w ?c ?s] => assert (route_view (report n w c s) = route_view s) as Hv
    by (by apply report_view); generalize dependent (report n w c s) end.
  intros s' Hv. unfold routes_ok. change (views (set_routes ?r ?x)) with (views x).
  rewrite views_put, Hv. change (sv_routes (set_routes ?r ?x)) with r.
  pose proof (agree_drop _ _ _ _ _ (ss_process_generation (ls_snapshot s)) Hok (views_lookup _ _ _ Hs)) as Ha.
  fold (drop_route s (sv_routes sv)) in Ha. unfold route_view.
  destruct proof as [proof|]; [|exact Ha]. cbn [resolved_fallback tf_route_id].
  rewrite <- (insert_insert_eq (views sv) id _ (None, ss_process_generation (ls_snapshot s))).
  apply agree_grant; [exact Ha|by rewrite lookup_insert, decide_True|].
  unfold drop_route. case_match; [|done]. apply lookup_delete_None. by right.
Qed.

Lemma new_session_route now r sender snapshot token kept_history :
  ls_route_id (new_session encoded_frame_len now r sender snapshot token kept_history) = None.
Proof. by destruct kept_history as [[? ?] ?]. Qed.

Lemma install_session_ok now r sender mapped minted draws sv :
  routes_ok sv ->
  routes_ok (install_session iterate encoded_frame_len fix_for live_distinct_for now r sender mapped minted draws sv).
Proof.
  intros Hok. unfold install_session. destruct minted as [[[id generation] epoch] revision].
  set (snapshot := registered_snapshot _ _ _ _ _). clearbody snapshot. cbn zeta.
  assert (routes_ok (foldl (remove_session iterate now) sv (superseded_by iterate (nr_process_id r) id sv))) as H1
    by by apply remove_sessions_ok.
  generalize dependent (foldl (remove_session iterate now) sv (superseded_by iterate (nr_process_id r) id sv)).
  intros sv1 H1. set (sv2 := match mapped with Some _ => _ | None => sv1 end).
  assert (routes_ok sv2) as H2.
  { unfold sv2. destruct mapped; [|done]. case_match; [by apply remove_session_ok|done]. }
  clearbody sv2. set (s := new_session _ _ _ _ _ _ _).
  assert (ls_route_id s = None) as Hnone by apply new_session_route. clearbody s.
  destruct (sv_sessions sv2 !! id) as [previous|] eqn:Hp.
  - by eapply (routeless_ok sv2 id previous s).
  - unfold routes_ok, views. cbn [sv_sessions sv_routes]. rewrite fmap_insert. unfold route_view at 1. rewrite Hnone.
    apply agree_new; [done|]. intros r' g. unfold views. rewrite lookup_fmap, Hp. done.
Qed.

Lemma register_new_ok now r sender draws sv :
  routes_ok sv ->
  routes_ok (register_new iterate drain sha256 encoded_frame_len encoded_len write_private fix_for live_distinct_for
               now r sender draws sv).1.
Proof.
  intros Hok. unfold register_new. case_match; [|done]. cbn zeta.
  set (mapped := im_session_id <$> _). clearbody mapped.
  pose proof (kept_ok _ _ (fence_live_kept now mapped sv) Hok) as H1.
  destruct (fence_live _ _ _ _ _ sv) as [sv1 [live|]]; [|done]. cbn [fst] in H1.
  destruct (register _ _ _ _ _ _ _ _ _ _ _ _ _) as [m [minted|]]; [|exact H1].
  destruct minted as [[[id generation] epoch] revision] eqn:Hm. cbn [fst]. by apply install_session_ok.
Qed.

Lemma register_observer_ok now r draws sv :
  routes_ok sv ->
  routes_ok (register_observer iterate drain sha256 encoded_frame_len encoded_len write_private fix_for
               live_distinct_for now r draws sv).1.
Proof.
  intros Hok. unfold register_observer. case_match; [done|]. case_match; [done|].
  pose proof (kept_ok _ _ (refresh_observer_kept now r sv) Hok) as H1.
  destruct (refresh_observer_registration _ _ _ _ _ _ _ sv) as [sv1 [[registered|]|]]; [done| |done].
  by apply register_new_ok.
Qed.

(** ** Every run *)

(** One operation under the supervisor's lock. A route id is drawn from 128 random bits: it is taken
    to name no route yet. *)
Inductive supervisor_step (sv : Supervisor) : Supervisor -> Prop :=
| StepAdmit now command : supervisor_step sv (admit_command encoded_len write_private now command sv).1
| StepDeliver accepts orphan now command channel r :
    supervisor_step sv (deliver encoded_len write_private accepts orphan now command channel r sv).1
| StepReceipt now id command_id state evidence reason :
    supervisor_step sv (record_bridge_receipt encoded_len write_private now id command_id state evidence reason sv).1
| StepReport now id s r :
    sv_sessions sv !! id = Some s -> supervisor_step sv (put_session id (bridge_step now r s) sv)
| StepEntry now id s draw entry :
    sv_sessions sv !! id = Some s ->
    supervisor_step sv (put_session id (upsert_bridge_entry encoded_frame_len now draw entry s).1 sv)
| StepChunk now id s draw delta :
    sv_sessions sv !! id = Some s ->
    supervisor_step sv (put_session id (append_bridge_text encoded_frame_len now draw delta s).1 sv)
| StepReplace now id s draw draws entries complete m s' r :
    sv_sessions sv !! id = Some s ->
    replace_bridge_snapshot_covering encoded_frame_len encoded_len write_private now draw draws
      (sv_carried_history sv !! id) entries complete (sv_metadata sv) s = (m, s', r) ->
    supervisor_step sv (put_session id s' (set_metadata m (set_carried (delete id (sv_carried_history sv)) sv)))
| StepReconcile now id s draw draws generation authority mode prefix scope m s' r :
    sv_sessions sv !! id = Some s ->
    reconcile_bridge_history encoded_frame_len encoded_len write_private now draw draws generation authority mode
      prefix scope (sv_metadata sv) s = (m, s', r) ->
    supervisor_step sv (put_session id s' (set_metadata m sv))
| StepCarry id history : supervisor_step sv (set_carried (<[id := history]> (sv_carried_history sv)) sv)
| StepDisconnect now id token exited :
    supervisor_step sv (bridge_disconnected iterate drain encoded_len write_private now id token exited sv)
| StepObservedEnd now id generation : supervisor_step sv (end_observed_session iterate now id generation sv)
| StepAdoptedEnd now id generation reason : supervisor_step sv (end_adopted_session now id generation reason sv)
| StepUnbind now id binding : supervisor_step sv (remove_terminal_binding_if_current iterate now id binding sv)
| StepSweep process_exists now : supervisor_step sv (sweep_dead_sessions iterate process_exists now sv)
| StepExpire now : supervisor_step sv (expire_stale_turn_claims now sv)
| StepLoseRoute now route_id id generation reason :
    supervisor_step sv (downgrade_if_current now route_id id generation reason sv)
| StepInstallRoute now id fence proof draw :
    sv_routes sv !! random_id draw = None -> supervisor_step sv (install_route now id fence proof draw sv)
| StepRegister now r sender draws :
    supervisor_step sv (register_new iterate drain sha256 encoded_frame_len encoded_len write_private fix_for
                          live_distinct_for now r sender draws sv).1
| StepObserve now r draws :
    supervisor_step sv (register_observer iterate drain sha256 encoded_frame_len encoded_len write_private fix_for
                          live_distinct_for now r draws sv).1.

Lemma supervisor_step_ok sv sv' : supervisor_step sv sv' -> routes_ok sv -> routes_ok sv'.
Proof.
  intros Hstep Hok. destruct Hstep.
  - by eapply kept_ok; [apply admit_kept|].
  - by eapply kept_ok; [apply deliver_kept|].
  - by eapply kept_ok; [apply record_receipt_kept|].
  - eapply kept_ok; [by eapply kept_put, bridge_step_view|done].
  - eapply kept_ok; [by eapply kept_put, upsert_entry_view|done].
  - eapply kept_ok; [by eapply kept_put, append_text_view|done].
  - eapply (kept_ok (set_carried _ sv)); [eapply kept_put_metadata; [done|]|exact Hok].
    match goal with H : replace_bridge_snapshot_covering _ _ _ ?a ?b ?c ?d ?e ?f ?g ?h = _ |- _ =>
      pose proof (replace_snapshot_view encoded_frame_len encoded_len write_private a b c d e f g h) as Hv;
      by rewrite H in Hv end.
  - eapply kept_ok; [eapply kept_put_metadata; [done|]|exact Hok].
    match goal with H : reconcile_bridge_history _ _ _ ?a ?b ?c ?d ?e ?f ?g ?h ?i ?j = _ |- _ =>
      pose proof (reconcile_history_view encoded_frame_len encoded_len write_private a b c d e f g h i j) as Hv;
      by rewrite H in Hv end.
  - exact Hok.
  - by apply disconnected_ok.
  - by apply end_observed_ok.
  - by apply end_adopted_ok.
  - by apply unbind_ok.
  - by apply remove_sessions_ok.
  - by eapply kept_ok; [apply expire_kept|].
  - by apply downgrade_current_ok.
  - by apply install_route_ok.
  - by apply register_new_ok.
  - by apply register_observer_ok.
Qed.

Lemma supervisor_run_ok sv sv' : rtc supervisor_step sv sv' -> routes_ok sv -> routes_ok sv'.
Proof. induction 1; [done|]. intros Hok. eauto using supervisor_step_ok. Qed.

(** ** The asynchronous operations are runs *)

Section awaits.
Context (live : TerminalBinding -> bool) (meanwhile : nat -> Supervisor -> Supervisor).
Context (Hmeanwhile : forall i sv, rtc supervisor_step sv (meanwhile i sv)).

Lemma revalidate_binding_run now i id sv :
  rtc supervisor_step sv (revalidate_terminal_binding iterate live meanwhile now i id sv).1.
Proof.
  unfold revalidate_terminal_binding. repeat case_match; cbn [fst];
    first [reflexivity|apply Hmeanwhile|eapply rtc_r; [apply Hmeanwhile|apply StepUnbind]].
Qed.

Lemma terminal_plan_run {Plan} now (plan : AgentRouteProof -> option Plan) route_id id generation sv :
  rtc supervisor_step sv (terminal_plan iterate live meanwhile now plan route_id id generation sv).1.
Proof.
  unfold terminal_plan. destruct (is_err _); [done|]. destruct (sv_routes sv !! route_id) as [r|]; [|done].
  destruct (_ || _); [done|]. pose proof (revalidate_binding_run now 0 (rt_session_id r) sv) as H1.
  destruct (revalidate_terminal_binding _ _ _ now 0 _ sv) as [sv1 []]; [|exact H1]. cbn [fst] in H1.
  pose proof (revalidate_binding_run now 2 (rt_session_id r) (meanwhile 1 sv1)) as H2.
  assert (rtc supervisor_step sv (meanwhile 1 sv1)) as H3 by (etrans; [exact H1|apply Hmeanwhile]).
  destruct (revalidate_terminal_binding _ _ _ now 2 _ _) as [sv2 []]; [|by etrans]. cbn [fst] in H2.
  case_match; cbn [fst]; [by etrans|]. eapply rtc_r; [etrans; [exact H3|exact H2]|apply StepLoseRoute].
Qed.

Lemma revalidate_routes_run now current valid sv :
  rtc supervisor_step sv (revalidate_live_routes iterate meanwhile now current valid sv).
Proof.
  unfold revalidate_live_routes.
  assert (forall recorded sv, rtc supervisor_step sv
    (foldl (fun sv '(id, binding) => if bool_decide (binding ∈ current (bi_status_directory binding)) then sv
              else remove_terminal_binding_if_current iterate now id binding sv) sv recorded)) as H1.
  { induction recorded as [|[id binding] recorded IH]; intros sv1; [done|]. cbn [foldl]. case_match; [apply IH|].
    eapply rtc_l; [apply StepUnbind|apply IH]. }
  assert (forall records sv, rtc supervisor_step sv
    (foldl (fun sv '(route_id, record) => if valid (rt_proof record) then sv
              else downgrade_if_current now route_id (rt_session_id record) (rt_process_generation record)
                     "route_invalidated" sv) sv records)) as H2.
  { induction records as [|[route_id record] records IH]; intros sv1; [done|]. cbn [foldl]. case_match; [apply IH|].
    eapply rtc_l; [apply StepLoseRoute|apply IH]. }
  etrans; [apply (Hmeanwhile 0)|]. etrans; [apply H1|]. etrans; [apply (Hmeanwhile 1)|apply H2].
Qed.

Lemma refresh_route_run now id resolve draw sv :
  (forall i sv, sv_routes sv !! random_id draw = None -> sv_routes (meanwhile i sv) !! random_id draw = None) ->
  sv_routes sv !! random_id draw = None ->
  rtc supervisor_step sv (refresh_route iterate live meanwhile now id resolve draw sv).
Proof.
  intros Hfresh Hsv. unfold refresh_route.
  assert (forall i sv, sv_routes sv !! random_id draw = None ->
    sv_routes (revalidate_terminal_binding iterate live meanwhile now i id sv).1 !! random_id draw = None) as Hrev.
  { intros i sv1 H1. unfold revalidate_terminal_binding, remove_terminal_binding_if_current, remove_session, drop_route.
    repeat case_match; cbn [fst sv_routes]; auto. apply lookup_delete_None. auto. }
  pose proof (revalidate_binding_run now 0 id sv) as H1. pose proof (Hrev 0%nat sv Hsv) as F1.
  destruct (revalidate_terminal_binding _ _ _ now 0 _ sv) as [sv1 []]; [|exact H1]. cbn [fst] in H1, F1.
  case_match; [|exact H1].
  pose proof (revalidate_binding_run now 2 id (meanwhile 1 sv1)) as H2.
  pose proof (Hrev 2%nat _ (Hfresh 1%nat sv1 F1)) as F2.
  assert (rtc supervisor_step sv (meanwhile 1 sv1)) as H3 by (etrans; [exact H1|apply Hmeanwhile]).
  destruct (revalidate_terminal_binding _ _ _ now 2 _ _) as [sv2 []]; [|by etrans]. cbn [fst] in H2, F2.
  eapply rtc_r; [etrans; [exact H3|exact H2]|by apply StepInstallRoute].
Qed.
End awaits.
End operations_keep.

(** C40: in any supervisor a daemon reaches from an empty one, whatever the order of operations, route ids
    and sessions agree: a route id leads to the one session that holds it, at the process generation it
    was granted to, and every route a session holds can be followed. *)
Theorem reachable_routes iterate drain sha256 encoded_frame_len encoded_len write_private fix_for live_distinct_for
    metadata sv route_id session_id generation :
  rtc (supervisor_step iterate drain sha256 encoded_frame_len encoded_len write_private fix_for live_distinct_for)
    (mkSupervisor ∅ ∅ ∅ ∅ metadata) sv ->
  session_for_route route_id sv = Some (session_id, generation)
  <-> exists s, sv_sessions sv !! session_id = Some s /\ ls_route_id s = Some route_id
        /\ ss_process_generation (ls_snapshot s) = generation.
Proof.
  intros Hrun. apply supervisor_run_ok in Hrun as [Hn Ho]; [|by split].
  unfold session_for_route, views in *. split.
  - destruct (sv_routes sv !! route_id) as [record|] eqn:Hr; [|done]. cbn. intros [= <- <-].
    apply Ho in Hr. rewrite lookup_fmap in Hr. destruct (sv_sessions sv !! _) as [s|]; [|done].
    injection Hr as H1 H2. by exists s.
  - intros (s & Hs & Hroute & <-). destruct (Hn session_id route_id (ss_process_generation (ls_snapshot s))) as [proof Hp].
    + by rewrite lookup_fmap, Hs, <- Hroute.
    + by rewrite Hp.
Qed.
