(* ===== verification/Samples.v ===== *)
(** Concrete values the witnesses run the model at: an encoder, a metadata store, one registered
    session with two rows, and a supervisor that holds it. *)
From S2P Require Import Prelude Text Protocol Fit Reducer Metadata Reconcile Session History.
From S2P Require Import Bridge Timeline Registration Supervisor.

Local Open Scope N_scope.

(** ** What the model takes as parameters *)

(** A hash of 32 bytes, an encoder whose frames have a fixed envelope, one that escapes a text
    entry, one that leaves it 36 bytes, a metadata encoder linear in its rows, and a file that can always be replaced. *)
Definition sum_hash (l : list N) : list N := replicate 32 (foldl N.add 0 l mod 256).
Definition flat_frame (frame : AgentServerFrame) : N := 512.
Definition entry_bytes (entry : TimelineEntry) : N :=
  200 + match te_body entry with Text text => json_string_len text | _ => 64 end.
Definition tight_entry_bytes (entry : TimelineEntry) : N :=
  65500 + match te_body entry with Text text => json_string_len text | _ => 64 end.
Definition rows_bytes (entries : list TimelineEntry) : N := foldr (fun e n => entry_bytes e + n) 2 entries.
Definition file_bytes (file : AgentMetadataFile) : N :=
  100 + 400 * len (af_mappings file) + 300 * len (af_receipts file).
Definition writable (file : AgentMetadataFile) : bool := true.
Definition read_only (file : AgentMetadataFile) : bool := false.
Definition walk (A : Type) (m : gmap string A) : list (string * A) := map_to_list m.
Definition spill (s : gset string) : list string := elements s.
Definition roomy (queue : list AgentCommand) : bool := len queue <? 8.
Definition no_fix (vendor : string) : option string := None.
Definition no_drift (vendor : string) : N := 0.

(** ** A store and a registration *)

Definition sample_store : AgentMetadataStore := mkAgentMetadataStore (replicate 32 7) [] [] None.

Definition sample_commands : CommandCapabilities := mkCommandCapabilities true true false true true false false.

Definition sample_capabilities : AgentCapabilities :=
  mkAgentCapabilities "full" sample_commands InteractionCapabilities_none "none" "unavailable".

Definition sample_registration : NormalizedRegistration :=
  mkNormalizedRegistration None "thread-1" "nonce-1" 4242 None "Pi" "1.2.3" "attached" true "grounded" "1.2.0"
    "work/ciao" None (mkObservation "authoritative" "live" (Some 90)) Idle sample_capabilities "terminal".

Definition sample_adopted : NormalizedRegistration :=
  mkNormalizedRegistration None "thread-2" "nonce-2" 77 None "Codex" "1.2.3" "adopted" true "ahead" "1.2.0"
    "work/ciao" None (mkObservation "authoritative" "live" (Some 90)) Idle sample_capabilities "none".

Definition sample_id : string := random_id 1.
Definition sample_identity : string * N * N * N := (sample_id, 1, 9, 1).

(** ** A session with two rows, the second one a streaming reply *)

Definition started_session : LiveSession :=
  new_session flat_frame 100 sample_registration (Some [])
    (registered_snapshot sample_registration sample_identity (granted_fallback sample_registration 3) None [])
    (random_id 4) (∅, [], 1).

Definition no_truncation : Truncation := mkTruncation false None None.

Definition sample_prompt : NormalizedTimelineEntry :=
  mkNormalizedTimelineEntry "src-1" 1 100 "complete" "user_message" (Text "fix it") no_truncation.
Definition sample_reply : NormalizedTimelineEntry :=
  mkNormalizedTimelineEntry "src-2" 1 101 "streaming" "assistant_message" (Text "on") no_truncation.

Definition sample_session : LiveSession :=
  (upsert_bridge_entry flat_frame 101 12 sample_reply
     (upsert_bridge_entry flat_frame 100 11 sample_prompt started_session).1).1.

Definition sample_snapshot : AgentSessionSnapshot := ls_snapshot sample_session.

(** A row of sixty bytes. *)
Definition long_row : TimelineEntry :=
  mkTimelineEntry "row-1" 1 1 100 "complete" "assistant_message"
    (Text "ten bytes.ten bytes.ten bytes.ten bytes.ten bytes.ten bytes.") no_truncation.

Definition sample_supervisor : Supervisor :=
  mkSupervisor {[sample_id := sample_session]} ∅ ∅ ∅ sample_store.

Definition sample_command : AgentCommand :=
  mkAgentCommand AGENT_PROTOCOL_VERSION "cmd-1" sample_id 9 1 None (Prompt "go on").

(** ** Deltas that follow the session, and a store that knows it *)

Definition delta_to (revision : N) (changes : list AgentDeltaChange) : AgentSessionDelta :=
  mkAgentSessionDelta AGENT_PROTOCOL_VERSION sample_id 9 1 (revision - 1) revision changes.

Definition running_delta : AgentSessionDelta := delta_to 4 [ChTurn (Running "run-1" "thinking"); ChModel "opus"].
Definition idle_delta : AgentSessionDelta := delta_to 5 [ChTurn Idle].

Definition workspace_fallback : TerminalFallback :=
  mkTerminalFallback "workspace_only" (Some "route-1") (Some "exact_context_unqualified") None None.
Definition route_delta : AgentSessionDelta := delta_to 4 [ChTurn Idle; ChTerminalFallback workspace_fallback].

Definition nonce_digest : string := digest sum_hash sample_store "nonce-1".

Definition registered_store : AgentMetadataStore :=
  (register sum_hash file_bytes writable sample_store "thread-1" None nonce_digest "Pi" "1.2.3" None 100 1 9).1.

Definition sample_receipt : CommandReceipt := mkCommandReceipt "cmd-0" sample_id 1 9 "accepted" 101 None None.

(** ** The vendor's record of the session's turn: the reply displayed live, and a row never displayed *)

Definition recorded_turn : list NormalizedTimelineEntry :=
  [sample_prompt;
   mkNormalizedTimelineEntry "rec-2" 1 102 "complete" "assistant_message" (Text "on ") no_truncation;
   mkNormalizedTimelineEntry "rec-3" 1 103 "complete" "assistant_message" (Text "fixed") no_truncation].

Definition sample_plan : list Planned :=
  default [] (plan_reconcile (held_entries sample_session) recorded_turn (Turn true None) (Some "src-2"%string)).

(** ** Reports a bridge sends *)

Definition sample_question : PendingInteraction :=
  mkPendingInteraction "ask-1" 1 "permission" true 100 None None "Run the tests?"
    (SchemaChoices 1 1 [mkResponseChoice "yes" "Yes" None None]) workspace_fallback "pending".

Definition sample_reports : list (N * BridgeReport) :=
  [(102, ReportTurn (Running "run-1" "thinking")); (103, ReportModel "opus");
   (104, ReportInteraction sample_question); (105, ReportResolution "ask-1" "answered");
   (106, ReportReceipt sample_receipt); (107, LoseBridge "worker_exited")].

(** ** How the propositions a witness has to meet are evaluated *)

#[export] Instance key_lt_dec {A} (key : A -> N) : RelDecision (key_lt key).
Proof. intros x y. unfold key_lt. apply _. Defined.

Ltac decided := apply (bool_decide_unpack _); by vm_compute.

(** Every source of a session names a row it holds. *)
Definition sources_checked (s : LiveSession) : bool :=
  forallb (fun '(_, m) => existsb (fun e => (te_entry_id e =s? sm_entry_id m) && (te_sequence e =? sm_sequence m))
                            (ls_history s)) (map_to_list (ls_source_entries s)).

Lemma sources_checked_ok s : sources_checked s = true -> sources_ok s.
Proof.
  unfold sources_checked. rewrite forallb_forall. intros Hall source m Hm.
  apply elem_of_map_to_list, list_elem_of_In in Hm. apply Hall, existsb_exists in Hm as (e & He & Hx).
  exists e. apply andb_true_iff in Hx as [Hid Hseq].
  split; [by apply list_elem_of_In|]. split; [by apply String.eqb_eq|by apply N.eqb_eq].
Qed.

Lemma sample_timeline : timeline_ok sample_session.
Proof.
  split; [decided|split; decided|decided|decided| |].
  - apply sources_checked_ok. by vm_compute.
  - apply window_valid_iff. by vm_compute.
Qed.

Lemma sum_hash_bytes : sha256_bytes sum_hash.
Proof.
  intros m. unfold sum_hash. split; [by rewrite length_replicate|].
  apply Forall_replicate. by apply N.mod_lt.
Qed.

Lemma file_bytes_receipts file rs :
  sublist rs (af_receipts file) ->
  file_bytes (mkAgentMetadataFile (af_v file) (af_key file) (af_mappings file) rs) <= file_bytes file.
Proof. intros H%sublist_length. unfold file_bytes, len. cbn -[N.mul N.add]. lia. Qed.

Lemma sample_store_wf : store_wf sample_store.
Proof. split; decided. Qed.

Lemma registered_store_wf : store_wf registered_store.
Proof. split; decided. Qed.
