(* ===== verification/Witnesses.v ===== *)
(** The properties at concrete inputs where their hypotheses hold. *)
From S2P Require Import Prelude Text Protocol Wire Fit Reducer Metadata Reconcile Session History.
From S2P Require Import Bridge Replay Timeline Registration Supervisor Commands Queries Routes Samples.

Local Open Scope N_scope.

(** ** Framing and sizing *)

Definition two_bodies : list bytes := [[7; 8; 9]; [1]].

Lemma read_frames_roundtrip_witness :
  read_frames 2 (AgentFrameReader_within 16) (stream_of [[0; 0]; [0; 3; 7; 8]; [9; 0; 0; 0; 1; 1]])
  = (two_bodies, AgentFrameReader_within 16, []).
Proof.
  apply (read_frames_roundtrip 16 two_bodies); [|by repeat constructor|by vm_compute].
  repeat constructor; by vm_compute.
Defined.

Lemma next_agrees_with_read_exact_witness :
  exists r left,
    next (AgentFrameReader_within 16) (stream_of [[0; 0; 0; 3]; [7; 8]] ++ [ReadBytes []])
    = (r, left, Ready (Err Truncated)).
Proof.
  destruct (next_agrees_with_read_exact 16 [[0; 0; 0; 3]; [7; 8]]) as (r & left & H & _);
    [by repeat constructor|]. exists r, left. exact H.
Defined.

Lemma next_buffer_bounded_witness :
  let '(r, _, _) := next (AgentFrameReader_within 16) (stream_of [[0; 0; 0; 9]; [7; 8]]) in
  len (fr_buffered r) <= 4 + 16 + READ_CHUNK.
Proof.
  destruct (next (AgentFrameReader_within 16) _) as [[r left] p] eqn:H.
  apply next_buffer_bounded in H as [H1 H2]; [by rewrite H1 in H2| |by vm_compute].
  repeat constructor; by vm_compute.
Defined.

Lemma fit_entry_terminates_witness :
  fit_loop tight_entry_bytes 100 (fit_whole long_row) (fit_start long_row)
  = Some (fit_entry_to_frame tight_entry_bytes long_row).
Proof. apply (fit_entry_terminates tight_entry_bytes long_row 100). apply Nat.leb_le. by vm_compute. Defined.

Lemma fit_entry_maximal_witness :
  exists kept, te_body (fit_entry_to_frame tight_entry_bytes long_row) = Text kept
  /\ (34 <= String.length kept < 60)%nat.
Proof.
  eexists. split; [by vm_compute|]. split; [|apply Nat.ltb_lt; by vm_compute].
  eapply (fit_entry_maximal tight_entry_bytes long_row); [| |reflexivity|done|by vm_compute..].
  - intros entry a b. unfold tight_entry_bytes. cbn -[N.add]. lia.
  - intros text [= <-]. by vm_compute.
Defined.

Lemma fit_entry_valid_witness : TimelineEntry_validate (fit_entry_to_frame tight_entry_bytes long_row) = Ok tt.
Proof. apply (fit_entry_valid tight_entry_bytes long_row). by vm_compute. Defined.

Lemma entry_body_roundtrip_witness :
  reassemble (entry_body_frames flat_frame sample_id 9 1 "row-1" 1 no_truncation "two words")
  = Some "two words"%string.
Proof. apply entry_body_roundtrip; [by repeat constructor|by vm_compute]. Defined.

Definition sample_descriptor (at_ : N) : AgentSessionDescriptor :=
  descriptor_for (fun _ => None) (set_ls_updated_at at_ sample_session).

Lemma bounded_session_list_spec_witness :
  let r := bounded_session_list flat_frame [sample_descriptor 3; sample_descriptor 5] 7 in
  de_updated_at <$> sl_sessions r = [5; 3] /\ StronglySorted newer_or_equal (sl_sessions r).
Proof.
  split; [by vm_compute|].
  apply (bounded_session_list_spec flat_frame [sample_descriptor 3; sample_descriptor 5] 7). by vm_compute.
Defined.

(** ** Deltas *)

Lemma apply_delta_outcome_witness :
  apply_delta sample_snapshot idle_delta = (sample_snapshot, Ok (ResyncRequired "revision_gap"))
  /\ fixed_fields sample_snapshot = fixed_fields sample_snapshot.
Proof.
  assert (apply_delta sample_snapshot idle_delta = (sample_snapshot, Ok (ResyncRequired "revision_gap"))) as H
    by by vm_compute.
  split; [exact H|]. exact (proj1 (apply_delta_outcome _ _ _ _ H)).
Defined.

Lemma apply_delta_preserves_valid_witness :
  AgentSessionSnapshot_validate (apply_delta sample_snapshot running_delta).1 = Ok tt.
Proof.
  apply (apply_delta_preserves_valid sample_snapshot running_delta); [by vm_compute|by vm_compute| |by vm_compute|by vm_compute].
  intros a b Ha Hb. vm_compute in Ha, Hb.
  repeat (apply elem_of_cons in Ha as [->|Ha] || apply elem_of_cons in Hb as [->|Hb]
          || (by apply elem_of_nil in Ha) || (by apply elem_of_nil in Hb)); done.
Defined.

Lemma apply_delta_progress_witness : (apply_delta sample_snapshot running_delta).2 = Ok Applied.
Proof. apply (apply_delta_progress sample_snapshot running_delta); by vm_compute. Defined.

Lemma apply_delta_route_first_witness :
  ac_terminal_continuity (ss_capabilities (apply_delta sample_snapshot route_delta).1) = "workspace_only"%string.
Proof.
  destruct (apply_delta sample_snapshot route_delta) as [s' r] eqn:H.
  assert (r = Ok Applied) as -> by (apply (f_equal snd) in H; vm_compute in H; done).
  apply apply_delta_route_first in H as (H1 & _ & H3); [|by vm_compute..].
  cbn [fst]. rewrite (H3 eq_refl), H1. by vm_compute.
Defined.


(** ** The metadata store *)

Lemma register_wf_witness : store_wf registered_store.
Proof.
  apply (register_wf sum_hash file_bytes writable sample_store "thread-1" None nonce_digest "Pi" "1.2.3" None 100 1 9
           sum_hash_bytes sample_store_wf); by vm_compute || constructor.
Defined.

Lemma register_fences_witness :
  exists id epoch, (register sum_hash file_bytes writable registered_store "thread-1" None nonce_digest "Pi" "1.2.4"
     (Some 5) 120 2 10).2 = Ok (id, 1, epoch, 6) /\ 5 < 6.
Proof.
  destruct (register _ _ _ registered_store _ _ _ _ _ _ _ _ _) as [st' r] eqn:H.
  assert (r = Ok (sample_id, 1, 9, 6)) as -> by (apply (f_equal snd) in H; vm_compute in H; done).
  exists sample_id, 9. split; [done|].
  pose proof (register_fences _ _ _ _ _ _ _ _ _ _ _ _ _ _ _ _ _ _ H) as (_ & _ & Hm).
  assert (is_some (mapping_for sum_hash registered_store "thread-1") = true) as Hs by by vm_compute.
  destruct (mapping_for _ _ _); [|done]. apply Hm; by vm_compute.
Defined.

Lemma upsert_receipt_recorded_witness :
  receipt (Metadata.upsert_receipt file_bytes writable registered_store sample_receipt 101).1 "cmd-0"
  = Some sample_receipt.
Proof.
  apply (upsert_receipt_recorded file_bytes writable registered_store sample_receipt 101);
    [apply registered_store_wf|by vm_compute|by constructor|by vm_compute].
Defined.

Lemma persist_load_witness :
  exists st, load file_bytes writable (ms_disk registered_store) (replicate 32 0) 200 = Ok st
  /\ ms_mappings st = ms_mappings registered_store /\ ms_mappings st <> [].
Proof.
  destruct (persist_load file_bytes writable registered_store registered_store (replicate 32 0) 200)
    as (st & H1 & _ & H2 & _); [apply file_bytes_receipts|done|apply registered_store_wf|by vm_compute|].
  exists st. split; [done|]. split; [done|]. rewrite H2. by vm_compute.
Defined.

(** ** Reconciliation *)

Lemma plan_reconcile_keeps_witness :
  sample_plan = [Held 0 None false; Held 1 (Some 1%nat) true; New 2]
  /\ sublist (new_of sample_plan) (seq 0 3).
Proof.
  split; [by vm_compute|].
  apply (plan_reconcile_keeps (held_entries sample_session) recorded_turn (Turn true None) (Some "src-2"%string)).
  by vm_compute.
Defined.

Lemma enforce_history_bound_spec_witness :
  history_bytes (ls_history (enforce_history_bound sample_session).1) <= MAX_HOST_TIMELINE_BYTES
  /\ sources_ok (enforce_history_bound sample_session).1.
Proof.
  destruct (enforce_history_bound_spec sample_session _ _ (surjective_pairing _)) as (H1 & _ & _ & _ & _ & H2).
  split; [exact H1|]. apply H2; apply sample_timeline.
Defined.

Lemma refresh_snapshot_window_spec_witness :
  TimelineWindow_validate
    (ss_timeline_window (ls_snapshot (refresh_snapshot_window flat_frame sample_session))) = Ok tt.
Proof.
  apply (refresh_snapshot_window_spec flat_frame sample_session); [|by vm_compute].
  split; apply sample_timeline.
Defined.

Lemma apply_reconcile_plan_spec_witness :
  let s' := (apply_reconcile_plan sample_plan recorded_turn N.of_nat sample_session).1 in
  numbered_below (ls_next_sequence s') (ls_history s') /\ sources_ok s'.
Proof.
  destruct (apply_reconcile_plan_spec sample_plan recorded_turn N.of_nat sample_session) as (H1 & _ & H2 & _);
    [apply sample_timeline|by vm_compute..| |by split].
  vm_compute. reflexivity.
Defined.

Lemma fence_rewritten_history_spec_witness :
  let '(_, s, r) := fence_rewritten_history file_bytes writable registered_store
    (set_ls_history (tail (ls_history sample_session)) sample_session)
    (collected (held_sequences sample_session)) [33] 150 in
  r = Ok false /\ ls_history s = tail (ls_history sample_session).
Proof.
  destruct (fence_rewritten_history _ _ _ _ _ _ _) as [[metadata' s'] r] eqn:H.
  assert (r = Ok false) as -> by (apply (f_equal snd) in H; vm_compute in H; done).
  split; [done|]. apply (fence_rewritten_history_spec _ _ _ _ sample_session) in H as [H _]; [exact H|decided..].
Defined.

(** ** What subscribers see *)

Lemma sample_session_ok : session_ok sample_session.
Proof.
  split; [by vm_compute|by vm_compute| |by vm_compute|by vm_compute].
  intros a b Ha Hb. vm_compute in Ha, Hb.
  repeat (apply elem_of_cons in Ha as [->|Ha] || apply elem_of_cons in Hb as [->|Hb]
          || (by apply elem_of_nil in Ha) || (by apply elem_of_nil in Hb)); done.
Qed.

Lemma subscriber_follows_host_witness :
  ss_turn (ls_snapshot (bridge_run sample_reports sample_session)) = TurnUnknown "worker_exited"
  /\ AgentSessionSnapshot_validate (ls_snapshot (bridge_run sample_reports sample_session)) = Ok tt.
Proof.
  split; [by vm_compute|]. apply (subscriber_follows_host sample_session sample_reports); [apply sample_session_ok|].
  vm_compute. by repeat split.
Defined.

Definition foreign_receipt : CommandReceipt :=
  mkCommandReceipt "cmd-0" sample_id 1 8 "rejected" 101 (Some "stale_snapshot"%string) None.

Lemma foreign_receipt_refused_witness :
  AgentSessionSnapshot_validate (ls_snapshot (publish_receipt 101 foreign_receipt sample_session)) <> Ok tt.
Proof. apply (foreign_receipt_refused 101 foreign_receipt sample_session). by vm_compute. Defined.

Definition asking_session : LiveSession := (upsert_bridge_interaction 104 sample_question sample_session).1.

Lemma downgrade_while_blocked_witness :
  AgentSessionSnapshot_validate (ls_snapshot (downgrade_session 110 "bridge_disconnected" asking_session)) <> Ok tt.
Proof.
  apply (downgrade_while_blocked 110 "bridge_disconnected" asking_session sample_snapshot idle_delta sample_snapshot).
  by vm_compute.
Defined.

(** ** The timeline *)

Definition next_reply : NormalizedTimelineEntry :=
  mkNormalizedTimelineEntry "src-2" 2 105 "complete" "assistant_message" (Text "on it") no_truncation.

Lemma upsert_bridge_entry_spec_witness :
  let '(s, r) := upsert_bridge_entry flat_frame 105 13 next_reply sample_session in
  timeline_ok s /\ (r = Ok tt) /\ te_body <$> ls_history s = [Text "fix it"; Text "on it"].
Proof.
  pose proof (upsert_bridge_entry_spec flat_frame 105 13 next_reply sample_session sample_timeline
                ltac:(by vm_compute) ltac:(decided)) as H.
  assert (te_body <$> ls_history (upsert_bridge_entry flat_frame 105 13 next_reply sample_session).1
          = [Text "fix it"; Text "on it"]) as Hb by by vm_compute.
  assert ((upsert_bridge_entry flat_frame 105 13 next_reply sample_session).2 = Ok tt) as Hr by by vm_compute.
  destruct (upsert_bridge_entry _ _ _ _ _) as [s r].
  exact (conj (proj1 H) (conj Hr Hb)).
Defined.

Definition next_chunk : NormalizedTextDelta :=
  mkNormalizedTextDelta "src-2" 2 106 "assistant_message" " it" true no_truncation.

Lemma append_bridge_text_spec_witness :
  let '(s, r) := append_bridge_text flat_frame 106 13 next_chunk sample_session in
  timeline_ok s /\ r = Ok tt /\ te_body <$> ls_history s = [Text "fix it"; Text "on it"].
Proof.
  pose proof (append_bridge_text_spec flat_frame 106 13 next_chunk sample_session sample_timeline
                ltac:(by vm_compute) ltac:(decided)) as H.
  assert (te_body <$> ls_history (append_bridge_text flat_frame 106 13 next_chunk sample_session).1
          = [Text "fix it"; Text "on it"]) as Hb by by vm_compute.
  assert ((append_bridge_text flat_frame 106 13 next_chunk sample_session).2 = Ok tt) as Hr by by vm_compute.
  destruct (append_bridge_text _ _ _ _ _) as [s r].
  exact (conj (proj1 H) (conj Hr Hb)).
Defined.

Lemma page_spec_witness :
  exists p, page flat_frame rows_bytes sample_id 3 1 sample_session = Some p
  /\ tp_next_before_sequence p = Some 2 /\ TimelinePage_validate p = Ok tt.
Proof.
  eexists. split; [by vm_compute|]. split; [done|].
  eapply (page_spec flat_frame rows_bytes sample_id 3 1 sample_session); [apply sample_timeline|by vm_compute..].
Defined.

Lemma paging_reads_everything_witness :
  exists rows, read_back flat_frame rows_bytes 3 sample_id 3 1 sample_session = Some rows /\ length rows = 2%nat.
Proof.
  eexists. split.
  - apply (paging_reads_everything flat_frame rows_bytes 3); [apply sample_timeline|by vm_compute|decided|by vm_compute].
  - by vm_compute.
Defined.

(** ** Registration *)

Lemma registered_snapshot_valid_witness :
  AgentSessionSnapshot_validate
    (registered_snapshot sample_adopted sample_identity (granted_fallback sample_adopted 5)
       (drift_note_for no_fix no_drift sample_adopted) [sample_receipt]) = Ok tt.
Proof.
  apply (registered_snapshot_valid no_fix no_drift sample_adopted); [by vm_compute|done|by vm_compute..|].
  repeat constructor; by vm_compute.
Defined.

Lemma descriptor_for_valid_witness :
  AgentSessionDescriptor_validate (descriptor_for (fun _ => None) sample_session) = Ok tt.
Proof. apply (descriptor_for_valid (fun _ => None) sample_session); [by vm_compute..|done]. Defined.

(** ** Ends and commands *)

Lemma walk_iterates : iterates walk.
Proof. by intros A m. Qed.

Lemma record_ended_verdict_spec_witness :
  record_ended_verdict walk 200 "b" {["a" := 100]} !! "b" = Some 200.
Proof.
  apply (record_ended_verdict_spec walk 200 "b" {["a" := 100]} walk_iterates).
  intros k t [<- <-]%lookup_singleton_Some _. done.
Defined.

Lemma sample_admissible : admissible sample_command sample_supervisor sample_session.
Proof. split_and!; [by vm_compute..|apply stale_command_false; by vm_compute|by vm_compute]. Qed.

Abbreviation sample_submit := (submit_command_from file_bytes writable roomy 150 sample_command sample_supervisor).

Lemma surjective_pairing' {A B} (p : A * B) a b : p.1 = a -> p.2 = b -> p = (a, b).
Proof. by intros <- <-; destruct p. Qed.

(** Two submissions of one command, the second looking its receipt up before the first wrote it. *)
Definition sample_channel : option string := bridge_channel sample_session.
Definition sample_sending : CommandReceipt := sending_receipt 150 sample_command.
Definition admitted_once : Supervisor := (admit_command file_bytes writable 150 sample_command sample_supervisor).1.
Definition admitted_twice : Supervisor := (admit_command file_bytes writable 150 sample_command admitted_once).1.
Definition handed_once : Supervisor :=
  (deliver file_bytes writable roomy false 151 sample_command sample_channel sample_sending admitted_twice).1.
Definition handed_twice : Supervisor :=
  (deliver file_bytes writable roomy false 151 sample_command sample_channel sample_sending handed_once).1.

Abbreviation sample_submitting := (submitting_step file_bytes writable (fun _ _ => False)).
Abbreviation sample_task := (HandingOver sample_command sample_channel sample_sending).

Lemma both_let_through :
  rtc sample_submitting (mkSubmitting sample_supervisor []) (mkSubmitting admitted_twice [sample_task; sample_task]).
Proof.
  eapply rtc_l; [apply (SubmissionArrives _ _ _ _ 150 sample_command)|].
  eapply rtc_l; [apply (SubmissionArrives _ _ _ _ 150 sample_command)|]. cbn [su_sv su_tasks app].
  eapply rtc_l; [apply (SubmissionSteps _ _ _ _ 0 (Asked 150 sample_command)); [done|apply TaskLooksUp; by vm_compute]|].
  eapply rtc_l; [apply (SubmissionSteps _ _ _ _ 1 (Asked 150 sample_command)); [done|apply TaskLooksUp; by vm_compute]|].
  eapply rtc_l; [apply (SubmissionSteps _ _ _ _ 0 (LookedUp 150 sample_command)); [done|]; apply TaskRecorded;
    apply (surjective_pairing' _ _ _); by vm_compute|].
  eapply rtc_l; [apply (SubmissionSteps _ _ _ _ 1 (LookedUp 150 sample_command)); [done|]; apply TaskRecorded;
    apply (surjective_pairing' _ _ _); by vm_compute|].
  done.
Qed.

Lemma first_handed :
  task_step file_bytes writable admitted_twice sample_task handed_once (Answered sample_command sample_sending).
Proof. apply (TaskHandsOver _ _ _ roomy false 151). apply surjective_pairing'; by vm_compute. Qed.

Lemma submit_forwards_witness :
  exists st_a, su_tasks st_a !! 0%nat = Some (Asked 150 sample_command)
  /\ receipt (sv_metadata (su_sv st_a)) "cmd-1" = None
  /\ bridge_of admitted_twice sample_id <> bridge_of handed_once sample_id.
Proof.
  assert (bridge_of handed_once sample_id = Some (Some [sample_command])) as Hq by (by vm_compute).
  assert (bridge_of admitted_twice sample_id = Some (Some [])) as Hq0 by (by vm_compute).
  destruct (submit_forwards file_bytes writable (fun _ _ => False) (mkSubmitting sample_supervisor [])
    (mkSubmitting admitted_twice [sample_task; sample_task]) 0 sample_task handed_once
    (Answered sample_command sample_sending) eq_refl both_let_through eq_refl first_handed)
    as [Hsame|(now & command & channel & st_a & _ & _ & Ht & _ & _ & _ & Ha & _ & Hr & _)].
  - specialize (Hsame sample_id). cbn [su_sv] in Hsame. rewrite Hq, Hq0 in Hsame. done.
  - pose proof (f_equal (fun t => match t with HandingOver c _ r => Some (c, cr_updated_at r) | _ => None end) Ht) as Hn.
    injection Hn as <- <-. exists st_a. split; [done|]. split; [done|].
    rewrite Hq, Hq0. done.
Defined.

(** A command submitted twice at once is run twice: the receipt is looked up before the sessions' lock
    and never again under it. *)
Lemma duplicates_both_forwarded :
  rtc sample_submitting (mkSubmitting sample_supervisor [])
    (mkSubmitting handed_twice [Answered sample_command sample_sending; Answered sample_command sample_sending])
  /\ bridge_of handed_twice sample_id = Some (Some [sample_command; sample_command]).
Proof.
  split; [|by vm_compute]. etrans; [exact both_let_through|].
  eapply rtc_l; [eapply (SubmissionSteps _ _ _ _ 0); [done|exact first_handed]|].
  apply rtc_once, (SubmissionSteps _ _ _ (mkSubmitting handed_once [Answered sample_command sample_sending; sample_task])
    1 sample_task handed_twice (Answered sample_command sample_sending)); [done|].
  apply (TaskHandsOver _ _ _ roomy false 151). apply surjective_pairing'; by vm_compute.
Qed.

Lemma resubmission_runs_nothing_witness :
  let '(sv, r) := sample_submit in
  cr_state r = "sending"%string
  /\ submit_command_from file_bytes writable roomy 160 sample_command sv = (sv, r).
Proof.
  destruct sample_submit as [sv r] eqn:H.
  assert (cr_state r = "sending"%string) as Hr by (apply (f_equal (fun x => cr_state x.2)) in H; by vm_compute in H).
  split; [exact Hr|].
  destruct (resubmission_runs_nothing file_bytes writable roomy 150 sample_command sample_supervisor sample_session sv r
              roomy 160 sample_command) as (held & _ & Hheld & He);
    [apply sample_admissible|apply sample_store_wf|by constructor|exact H|by vm_compute|done|].
  rewrite bool_decide_eq_true_2 in He by done. rewrite Hheld in He; [exact He|by rewrite Hr].
Defined.

Lemma failed_store_pins_sending_witness :
  let '(sv, r) := submit_command_from file_bytes read_only roomy 150 sample_command sample_supervisor in
  cr_state r = "unavailable"%string
  /\ submit_command_from file_bytes writable roomy 160 sample_command sv = (sv, sending_receipt 150 sample_command).
Proof.
  destruct (submit_command_from file_bytes read_only roomy 150 sample_command sample_supervisor) as [sv r] eqn:H.
  destruct (failed_store_pins_sending file_bytes read_only roomy 150 sample_command sample_supervisor sample_session sv r
              writable roomy 160) as (H1 & _ & H2);
    [apply sample_admissible|apply sample_store_wf|by constructor|by vm_compute|exact H|by split].
Defined.

Definition busy_supervisor : Supervisor :=
  put_session sample_id (set_ls_in_flight_commands {["cmd-1"]} sample_session) sample_supervisor.

Lemma bridge_disconnected_spec_witness :
  exists s, sv_sessions (bridge_disconnected walk spill file_bytes writable 170 sample_id (random_id 4) false busy_supervisor)
              !! sample_id = Some s
  /\ ls_in_flight_commands s = ∅ /\ ss_turn (ls_snapshot s) = TurnUnknown "bridge_disconnected".
Proof.
  destruct (bridge_disconnected_spec file_bytes writable walk spill 170 sample_id (random_id 4) busy_supervisor
              (set_ls_in_flight_commands {["cmd-1"]} sample_session))
    as (s & frames & Hs & _ & _ & Hf & _ & _ & Ht & _); [done|by vm_compute|by vm_compute|].
  exists s. split; [rewrite Hs, lookup_insert, decide_True by reflexivity; reflexivity|exact (conj Hf Ht)].
Defined.

(** ** Lists and routes *)

Lemma session_list_valid_witness :
  AgentSessionList_validate (list_with_managed_owners walk (fun _ => Some "Fix the build"%string) flat_frame
                               {["thread-1" := "managed-1"]} sample_supervisor) = Ok tt.
Proof.
  apply (session_list_valid walk (fun _ => Some "Fix the build"%string)); [exact walk_iterates| | |by vm_compute].
  - intros upstream title [= <-]. split; by vm_compute.
  - intros id s Hs. change (({[sample_id := sample_session]} : gmap string LiveSession) !! id = Some s) in Hs.
    apply lookup_singleton_Some in Hs as [<- <-]. split; [|split]; by vm_compute.
Defined.

Abbreviation fresh_registered :=
  (register_new walk spill sum_hash flat_frame file_bytes writable no_fix no_drift 100 sample_registration
     (Some []) (mkDraws 1 9 4 3) (mkSupervisor ∅ ∅ ∅ ∅ sample_store)).1.

Definition sample_fence : RouteFence :=
  default (mkRouteFence 0 "" 0) (route_fence (random_id 1) fresh_registered).

Abbreviation routed :=
  (install_route 110 (random_id 1) sample_fence (Some (Tmux "/usr/bin/tmux" 4242 "work" "$1" "@2" "%3" 4240 "/dev/ttys001"))
     7 fresh_registered).

Lemma reachable_routes_witness :
  exists s, sv_sessions routed !! random_id 1 = Some s /\ ls_route_id s = Some (random_id 7).
Proof.
  assert (session_for_route (random_id 7) routed = Some (random_id 1, 1)) as H by by vm_compute.
  assert (sv_routes fresh_registered !! random_id 7 = None) as Hfresh by by vm_compute.
  destruct (proj1 (reachable_routes walk spill sum_hash flat_frame file_bytes writable no_fix no_drift sample_store
                     routed (random_id 7) (random_id 1) 1
                     (rtc_l _ _ fresh_registered _ (StepRegister _ _ _ _ _ _ _ _ _ 100 _ _ (mkDraws 1 9 4 3))
                        (rtc_once _ _ (StepInstallRoute _ _ _ _ _ _ _ _ _ _ _ _ _ 7 Hfresh)))) H) as (s & H1 & H2 & _).
  exists s. exact (conj H1 H2).
Defined.
