(* ===== verification/HostWitnesses.v ===== *)
(** The host protocol's properties at concrete inputs where their hypotheses hold. *)
From S2P Require Import Prelude Text HostProtocol HostRpc Framing Terminal.

Local Open Scope N_scope.

(** ** What the terminal codec takes as parameters *)

(** An encoder that knows one value. *)
Definition one_value {T} `{EqDecision T} (known : T) : Codec T :=
  mkCodec (fun v => if bool_decide (v = known) then Some [123; 125] else None)
          (fun body => if bool_decide (body = [123; 125]) then Some known else None).

Lemma one_value_reads_back {T} `{EqDecision T} (known : T) : reads_back (one_value known).
Proof. intros v body. cbn. case_bool_decide as Hv; [|done]. intros [= <-]. by rewrite bool_decide_eq_true_2, Hv. Qed.

#[export] Instance TerminalOpen_eq_dec : EqDecision TerminalOpen.
Proof. solve_decision. Defined.
#[export] Instance TerminalOpened_eq_dec : EqDecision TerminalOpened.
Proof. solve_decision. Defined.
#[export] Instance TerminalExit_eq_dec : EqDecision TerminalExit.
Proof. solve_decision. Defined.
#[export] Instance TerminalError_eq_dec : EqDecision TerminalError.
Proof. solve_decision. Defined.

Definition sixteen (_ : string) : option bytes := Some (replicate 16 0).
Definition sample_dimensions : Dimensions := mkDimensions 80 24 640 384.
Definition sample_open : TerminalOpen := mkTerminalOpen 1 "tmux.attach" (Some "work"%string) (Some "@2"%string) sample_dimensions.
Definition open_codec : Codec TerminalOpen := one_value sample_open.
Definition opened_codec : Codec TerminalOpened := one_value (mkTerminalOpened 1 "t" sample_dimensions "xterm-256color").
Definition exit_codec : Codec TerminalExit := one_value (mkTerminalExit 1 "t" "closed" None None).
Definition error_codec : Codec TerminalError := one_value (mkTerminalError 1 None "busy" "").

Abbreviation encode_sample := (encode_terminal_frame sixteen open_codec opened_codec exit_codec error_codec).
Abbreviation take_sample := (take_terminal sixteen open_codec opened_codec exit_codec error_codec).
Abbreviation read_all_sample := (read_all sixteen open_codec opened_codec exit_codec error_codec).

Definition encoded_or_nil (frame : TerminalFrame) : bytes :=
  match encode_sample frame with Ok encoded => encoded | Err _ => [] end.

(** ** Streams *)

Definition sample_frames : list TerminalFrame := [Open sample_open; Input [108; 115; 10]; Resize sample_dimensions; Close].

Lemma terminal_reader_roundtrip_witness :
  read_all_sample 5 (mkTerminalFrameReader [] [])
    (stream_of [take 3 (mjoin (encoded_or_nil <$> sample_frames)); drop 3 (mjoin (encoded_or_nil <$> sample_frames))])
  = (sample_frames, mkTerminalFrameReader [] [], Pending).
Proof.
  apply (terminal_reader_roundtrip sixteen open_codec opened_codec exit_codec error_codec
           (one_value_reads_back _) (one_value_reads_back _) (one_value_reads_back _) (one_value_reads_back _)
           sample_frames (encoded_or_nil <$> sample_frames)).
  - repeat constructor; by vm_compute.
  - repeat constructor; by vm_compute.
  - by vm_compute.
Defined.

Lemma refused_frame_costs_its_read_witness :
  read_all_sample 2 (mkTerminalFrameReader [] []) (stream_of [encoded_or_nil (Input [27]) ++ [9; 0; 0; 0; 0]])
  = ([], mkTerminalFrameReader [9; 0; 0; 0; 0] [], Ready (Err UnknownFrameType)).
Proof.
  apply (refused_frame_costs_its_read sixteen open_codec opened_codec exit_codec error_codec
           (one_value_reads_back _) (one_value_reads_back _) (one_value_reads_back _) (one_value_reads_back _)
           (Input [27]) (encoded_or_nil (Input [27])) [9; 0; 0; 0; 0] UnknownFrameType); by vm_compute.
Defined.

Lemma terminal_buffer_bounded_witness :
  let '(r, _, p) := next sixteen open_codec opened_codec exit_codec error_codec (mkTerminalFrameReader [] [])
                      (stream_of [[3; 0; 0]; [0; 9; 27]]) in
  p = Pending /\ len (tf_decoder r) < 5 + MAX_DATA_PAYLOAD.
Proof.
  destruct (next sixteen open_codec opened_codec exit_codec error_codec (mkTerminalFrameReader [] [])
              (stream_of [[3; 0; 0]; [0; 9; 27]])) as [[r left] p] eqn:H.
  assert (p = Pending) as -> by (apply (f_equal snd) in H; by vm_compute in H).
  split; [reflexivity|].
  apply (terminal_buffer_bounded sixteen open_codec opened_codec exit_codec error_codec) in H as [_ H].
  - by apply H.
  - repeat constructor; by vm_compute.
  - by vm_compute.
Defined.
