(* ===== verification/PairingSamples.v ===== *)
(** Concrete crates for the pairing properties: a base64url that keeps its law for every byte string, a
    codec that knows a few files, two endpoints. *)
From Stdlib Require Import ZArith ZifyN.
From S2P Require Import Prelude Text HostProtocol Qr.

Local Open Scope N_scope.

(** ** Base64, with the alphabet of the 64 characters from [@] on *)

Fixpoint sextets (b : bytes) : list N :=
  match b with
  | [] => []
  | [x] => [x / 4; x mod 4 * 16]
  | [x; y] => [x / 4; x mod 4 * 16 + y / 16; y mod 16 * 4]
  | x :: y :: z :: rest => x / 4 :: x mod 4 * 16 + y / 16 :: y mod 16 * 4 + z / 64 :: z mod 64 :: sextets rest
  end.

Fixpoint octets (l : list N) : option bytes :=
  match l with
  | [] => Some []
  | [_] => None
  | [a; b] => Some [a * 4 + b / 16]
  | [a; b; c] => Some [a * 4 + b / 16; b mod 16 * 16 + c / 4]
  | a :: b :: c :: d :: rest =>
      (fun b' => a * 4 + b / 16 :: b mod 16 * 16 + c / 4 :: c mod 4 * 64 + d :: b') <$> octets rest
  end.

Definition encode64 (b : bytes) : string :=
  String.string_of_list_ascii ((fun x => ascii_of_N (64 + x mod 128)) <$> sextets b).
Definition decode64 (s : string) : option bytes := octets ((fun c => nb c - 64) <$> String.list_ascii_of_string s).

Lemma three_ind (P : bytes -> Prop) :
  P [] -> (forall x, P [x]) -> (forall x y, P [x; y]) -> (forall x y z l, P l -> P (x :: y :: z :: l)) -> forall l, P l.
Proof.
  intros H0 H1 H2 H3. fix IH 1. intros [|x [|y [|z l]]]; [exact H0|exact (H1 x)|exact (H2 x y)|exact (H3 x y z l (IH l))].
Qed.

#[local] Ltac Zify.zify_post_hook ::= Z.div_mod_to_equations.

Lemma octets_sextets b : bytes_ok b -> octets (sextets b) = Some b /\ Forall (fun x => x < 64) (sextets b).
Proof.
  unfold bytes_ok. induction b as [|x|x y|x y z l IH] using three_ind; rewrite ?Forall_cons; intros Hb; [by split| | |];
    cbn [sextets octets]; [..|destruct IH as [-> Hl]; [apply Hb|]; cbn]; (split; [repeat f_equal; lia|]);
    repeat (constructor; [lia|]); done.
Qed.

Lemma sextets_length b : len (sextets b) <= (len b + 2) / 3 * 4.
Proof.
  induction b as [|x|x y|x y z l IH] using three_ind; [done..|]. cbn [sextets]. rewrite !len_cons. lia.
Qed.

Lemma nb_ascii x : x < 64 -> nb (ascii_of_N (64 + x mod 128)) = 64 + x.
Proof. intros Hx. unfold nb. rewrite N_ascii_embedding; lia. Qed.

Lemma encode64_plain l :
  contains_any [61; 47; 43; 63; 35] (String.string_of_list_ascii ((fun x => ascii_of_N (64 + x mod 128)) <$> l)) = false.
Proof.
  unfold contains_any. rewrite String.list_ascii_of_string_of_list_ascii. apply not_true_iff_false. rewrite existsb_exists.
  intros (c & Hc & (code & Hcode & Heq)%existsb_exists). apply list_elem_of_In, list_elem_of_fmap in Hc as (x & -> & _).
  apply N.eqb_eq in Heq. unfold nb in Heq. rewrite N_ascii_embedding in Heq by lia. cbn in Hcode. lia.
Qed.

Lemma slen_string_of l : slen (String.string_of_list_ascii l) = len l.
Proof. unfold slen, len. f_equal. induction l as [|x l IH]; [done|]. cbn. by rewrite IH. Qed.

Lemma base64_sample : base64_ok encode64 decode64.
Proof.
  split.
  - intros b Hb. unfold decode64, encode64. rewrite String.list_ascii_of_string_of_list_ascii.
    destruct (octets_sextets b Hb) as [Ho Hs]. rewrite <- Ho. f_equal. rewrite <- list_fmap_compose.
    transitivity (id <$> sextets b); [|apply list_fmap_id]. apply list_fmap_ext. intros i x Hi. cbn.
    rewrite nb_ascii by (eapply (Forall_lookup_1 (fun x => x < 64)); done). lia.
  - intros b. unfold encode64. rewrite slen_string_of. unfold len. rewrite length_fmap. apply sextets_length.
  - intros b. apply encode64_plain.
  - intros [|x [|y [|z b]]]; done.
Qed.

(** ** A codec that knows a few values *)

Section listed.
Context {T : Type} `{EqDecision T} (known : list T).

Definition listed_to (v : T) : option bytes := (fun found => [N.of_nat found.1]) <$> list_find (fun x => x = v) known.
Definition listed_from (encoded : bytes) : option T :=
  match encoded with [i] => known !! N.to_nat i | _ => None end.

Lemma listed_reads v encoded : listed_to v = Some encoded -> listed_from encoded = Some v.
Proof.
  unfold listed_to, listed_from. destruct (list_find _ known) as [[i x]|] eqn:Hf; [|done]. intros [= <-].
  apply list_find_Some in Hf as (Hx & -> & _). cbn. by rewrite Nat2N.id.
Qed.

End listed.

(** ** Two endpoints *)

Definition sixty_four (c : ascii) : string := String.string_of_list_ascii (replicate 64 c).
Definition endpoint_text (e : bool) : string := if e then sixty_four "a" else sixty_four "b".
Definition endpoint_from (s : string) : option bool :=
  if s =s? endpoint_text true then Some true else if s =s? endpoint_text false then Some false else None.
Definition endpoint_bytes (e : bool) : bytes := replicate 32 (if e then 1 else 2).
Definition endpoint_of_bytes (b : bytes) : option bool :=
  if bool_decide (b = endpoint_bytes true) then Some true
  else if bool_decide (b = endpoint_bytes false) then Some false else None.

Lemma endpoint_reads e : endpoint_from (endpoint_text e) = Some e.
Proof. by destruct e; vm_compute. Qed.
Lemma endpoint_hex e : slen (endpoint_text e) = 64 /\ sall is_lower_hex (endpoint_text e) = true.
Proof. by destruct e; vm_compute. Qed.
