(* ===== verification/PairingWitnesses.v ===== *)
(** The pairing and admission properties at concrete inputs where their hypotheses hold. *)
From S2P Require Import Prelude Text HostProtocol Qr RateWindow PrivateFile Devices Admission PathWatch Pairing PairingProtocol.
From S2P Require Import Handshake PairingSamples.

Local Open Scope N_scope.

(** ** Codes *)

Definition sample_pairing_id : bytes := replicate 16 7.
Definition sample_capability : bytes := replicate 32 9.
Definition relay_text (relay : bool) : bytes := [if relay then 104 else 105].
Definition relay_from (b : bytes) : option bool := match b with [104] => Some true | [105] => Some false | _ => None end.

Lemma codecs_sample : codecs_ok encode64 decode64 endpoint_bytes endpoint_of_bytes relay_text relay_from.
Proof.
  split; [exact base64_sample|..]; try by intros []; vm_compute.
  - intros []; unfold bytes_ok; apply Forall_replicate; lia.
  - intros []; repeat constructor; lia.
Qed.

Lemma pairing_uri_roundtrip_witness :
  exists uri, encode_pairing_uri encode64 endpoint_bytes relay_text (mkEndpointTicket true [false; true]) sample_pairing_id
                sample_capability 1000 = Ok uri
  /\ exists relay, head [false; true] = Some relay
     /\ decode_pairing_uri decode64 endpoint_of_bytes relay_from uri 900
        = Ok (mkDecodedPairingOffer (mkEndpointTicket true [relay]) sample_pairing_id sample_capability 1000).
Proof.
  eexists. split; [vm_compute; reflexivity|].
  apply (pairing_uri_roundtrip _ _ _ _ _ _ (mkEndpointTicket true [false; true]) sample_pairing_id sample_capability 1000 900 _
           codecs_sample); [repeat constructor; lia..|done|done|lia|vm_compute; reflexivity].
Defined.

Lemma transcript_binds_witness :
  pairing_transcript sample_pairing_id sample_capability sample_capability sample_capability sample_capability sample_capability 1000
  <> notification_transcript sample_capability sample_capability.
Proof.
  apply (transcript_binds sample_pairing_id sample_capability sample_capability sample_capability sample_capability sample_capability
           1000 sample_pairing_id sample_capability sample_capability sample_capability sample_capability sample_capability 1000);
    [by repeat constructor..|by vm_compute|by vm_compute].
Defined.

(** ** The allowlist *)

Definition sample_selection : LiveActivitySelection := mkLiveActivitySelection (sixty_four "c") "claude" "ciao".
Definition phone_device (e : bool) (paired_at : N) : PairedDevice :=
  new_device encode64 (endpoint_text e) paired_at sample_capability sample_capability.
Definition following_device : PairedDevice :=
  set_live_activity (Some (mkLiveActivityRegistration (sixty_four "t") [sample_selection])) (phone_device true 5).
Definition sample_files : list PairedDevicesFile :=
  mkPairedDevicesFile 1 <$>
    [[]; [phone_device true 5]; [phone_device true 5; phone_device false 6]; [phone_device false 6]; [following_device]].

#[export] Instance PairedDevicesFile_eq_dec : EqDecision PairedDevicesFile.
Proof.
  assert (EqDecision LiveActivitySelection) by solve_decision. assert (EqDecision LiveActivityRegistration) by solve_decision.
  assert (EqDecision PairedDevice) by solve_decision. solve_decision.
Defined.

Abbreviation file_to := (listed_to sample_files).
Abbreviation file_from := (listed_from sample_files).

Lemma crates_sample : crates_ok file_to file_from encode64 decode64 endpoint_text endpoint_from.
Proof.
  split; [intros file encoded; apply listed_reads|exact base64_sample|exact endpoint_reads|exact endpoint_hex].
Qed.

Definition loaded_devices (disk : Disk) : PairedDeviceStore :=
  match Devices.load file_to file_from decode64 endpoint_from 0 None disk with
  | Ok st => st | Err _ => mkPairedDeviceStore [] disk end.

Lemma phone_typed (e : bool) paired_at : operation_typed (Upsert e paired_at sample_capability sample_capability).
Proof. repeat split; try apply Forall_replicate; try lia. Qed.

Definition sample_operations : list (DeviceOperation (EndpointId := bool) * option write_step) :=
  [(Upsert true 5 sample_capability sample_capability, None); (RemoveDevice (endpoint_text true), Some Rename);
   (Upsert false 6 sample_capability sample_capability, Some SyncDirectory)].

Lemma operations_typed : Forall (fun '(op, _) => operation_typed op) sample_operations.
Proof. repeat constructor; apply phone_typed. Qed.

Lemma devices_survive_restart_witness :
  let st := operate_all file_to encode64 endpoint_text 0 sample_operations (loaded_devices NotFound) in
  exists l, loads file_to file_from decode64 endpoint_from 0 l (ds_disk st) /\ NoDup (pd_endpoint_id <$> l).
Proof.
  apply (devices_survive_restart file_to file_from encode64 decode64 endpoint_text endpoint_from 0 None NotFound
           (loaded_devices NotFound) sample_operations crates_sample); [by vm_compute|exact operations_typed].
Defined.

Definition one_phone : PairedDeviceStore := loaded_devices (private_file 0 [1]).
Definition two_phones : PairedDeviceStore := loaded_devices (private_file 0 [2]).

Lemma two_phones_loaded : Devices.load file_to file_from decode64 endpoint_from 0 None (private_file 0 [2]) = Ok two_phones.
Proof. by vm_compute. Qed.

Definition later_operations : list (DeviceOperation (EndpointId := bool) * option write_step) :=
  [(SetPushTicket true (Some (sixty_four "t")), None); (RemoveDevice (endpoint_text false), Some SyncFile)].

Lemma later_typed : Forall (fun '(op, _) => operation_typed op) later_operations.
Proof. by repeat constructor. Qed.

Lemma later_admits_nobody (e : bool) paired_at th key f :
  (Upsert e paired_at th key, f) ∈ later_operations -> endpoint_text e <> endpoint_text true.
Proof. intros H%list_elem_of_In. by destruct H as [|[|[]]]. Qed.

Lemma devices_ok_two : both file_to file_from decode64 endpoint_from 0 (devices_ok decode64 endpoint_from) two_phones.
Proof.
  eapply (loaded_both file_to file_from encode64 decode64 endpoint_text endpoint_from 0 None); [exact crates_sample|exact two_phones_loaded].
Qed.

Lemma revoked_stays_revoked_witness :
  contains endpoint_text true
    (operate_all file_to encode64 endpoint_text 0 later_operations
       (Devices.remove file_to 0 None (endpoint_text true) two_phones).1) = false.
Proof.
  apply (revoked_stays_revoked file_to file_from encode64 decode64 endpoint_text endpoint_from 0 None (endpoint_text true) two_phones
           (Devices.remove file_to 0 None (endpoint_text true) two_phones).1 true later_operations crates_sample
           devices_ok_two); [by right|by vm_compute|exact later_typed|exact later_admits_nobody|reflexivity].
Defined.

Definition following_store : PairedDeviceStore :=
  (update_live_activity file_to endpoint_text 0 None true (Some (sixty_four "t")) (Some (Add sample_selection)) one_phone).1.

Lemma update_live_activity_refines_witness :
  exists registration,
    List.find (has_id (endpoint_text true)) (ds_devices following_store) = Some (set_live_activity registration (phone_device true 5))
    /\ (lr_ticket <$> registration = Some (sixty_four "t")).
Proof.
  destruct (update_live_activity_refines file_to decode64 endpoint_text endpoint_from 0 None true (sixty_four "t")
              (Some (Add sample_selection)) one_phone following_store 1 (phone_device true 5))
    as (registration & Hf & _ & _ & _ & Ht & _);
    [apply check_devices_ok; by vm_compute|by vm_compute..|]. exists registration. split; [exact Hf|exact Ht].
Defined.

Lemma unsynced_upsert_authorizes_witness :
  let st := loaded_devices (private_file 0 [0]) in
  let st' := (Devices.upsert file_to encode64 endpoint_text 0 (Some SyncDirectory) true 5 sample_capability sample_capability st).1 in
  contains endpoint_text true st' = false
  /\ forall failed_at, exists st2,
       Devices.load file_to file_from decode64 endpoint_from 0 failed_at (ds_disk st') = Ok st2 /\ contains endpoint_text true st2 = true.
Proof.
  cbn zeta.
  destruct (unsynced_upsert_authorizes file_to file_from encode64 decode64 endpoint_text endpoint_from 0 true 5 sample_capability
              sample_capability (loaded_devices (private_file 0 [0]))
              (Devices.upsert file_to encode64 endpoint_text 0 (Some SyncDirectory) true 5 sample_capability sample_capability
                 (loaded_devices (private_file 0 [0]))).1
              (Err (FileRefused WriteError)) crates_sample) as (_ & Hc & _ & Hl);
    [apply phone_typed|apply check_devices_ok; by vm_compute|by vm_compute|by vm_compute|by vm_compute|].
  split; [exact Hc|exact Hl].
Defined.

(** ** Connections and terminals *)

Definition phone : string := "aa".
Definition tablet : string := "bb".

(** Two connections of a phone that are open, and a third, leased in their place, that is about to publish. *)
Definition leased (token : N) (s : NormalConnections (Connection := N)) : NormalConnections := (try_lease phone token s).1.
Definition first_open : NormalConnections := publish 1 [] 100 (leased 1 no_connections).
Definition both_open : NormalConnections := publish 2 [] 200 (leased 2 first_open).
Definition phone_doors : Doors :=
  mkDoors (leased 3 both_open) {[(phone, 1) := Opened 100; (phone, 2) := Opened 200; (phone, 3) := Opening [2; 1] 300]} {[1; 2; 3]} ∅.

Lemma door_leased token c s tasks used escaped s' evicted tasks' used' escaped' :
  try_lease phone token s = (s', Some ((phone, token), evicted)) -> token ∉ used ->
  tasks' = <[(phone, token) := Opening evicted c]> tasks -> used' = {[token]} ∪ used -> escaped' = escaped ∪ unpublished phone evicted tasks ->
  door_step (Connection := N) (mkDoors s tasks used escaped) (mkDoors s' tasks' used' escaped').
Proof. intros Hl Hf -> -> ->. by apply DoorLeased. Defined.

Lemma phone_doors_reached : rtc door_step doors_start phone_doors.
Proof.
  eapply rtc_l; [eapply (door_leased 1 100); [vm_compute; reflexivity|set_solver|reflexivity|reflexivity|reflexivity]|].
  eapply rtc_l; [eapply DoorPublished; apply lookup_insert_eq|].
  eapply rtc_l; [eapply (door_leased 2 200); [vm_compute; reflexivity|set_solver|reflexivity|reflexivity|reflexivity]|].
  eapply rtc_l; [eapply DoorPublished; apply lookup_insert_eq|].
  apply rtc_once. eapply (door_leased 3 300); [vm_compute; reflexivity|set_solver|vm_compute; reflexivity|set_solver|vm_compute; reflexivity].
Defined.

Lemma newest_connection_wins_witness :
  nc_handles (dr_state phone_doors) !! 1 = Some 100
  /\ (100, CONNECTION_SUPERSEDED) ∈ nc_closed (publish 3 [2; 1] 300 (dr_state phone_doors))
  /\ nc_handles (publish 3 [2; 1] 300 (dr_state phone_doors)) !! 3 = Some 300.
Proof.
  destruct (newest_connection_wins phone_doors tablet 4 phone_doors_reached) as (held & _ & _ & _ & _ & _ & _ & Hpub & _); [by vm_compute|].
  destruct (Hpub phone 3 [2; 1] 300) as (Hnew & Hclosed & _); [by vm_compute|].
  destruct (Hclosed 1 100) as [H _]; [by right; constructor|by vm_compute|]. split_and!; [by vm_compute|exact H|exact Hnew].
Defined.

Definition sample_attached : AttachedSession := mkAttachedSession ProviderTmux "work".
Definition terminal_opened := PtyLease_try_new phone true (Some sample_attached) 1 Ptys_default.

Lemma terminals_accounted_witness : sole_attached_session phone terminal_opened.1 = Some sample_attached.
Proof.
  assert (rtc pty_step (Ptys_default, ∅) (terminal_opened.1, {[(phone, 1) := (true, Some sample_attached)]})) as Hrun.
  { eapply rtc_l; [eapply (PtyOpens phone true (Some sample_attached) 1 Ptys_default terminal_opened.1); [|by vm_compute]|apply rtc_refl].
    intros other. apply lookup_empty. }
  apply (terminals_accounted _ _ Hrun). split.
  - exists 1, true. apply lookup_singleton_eq.
  - intros token r other [_ [= _ <-]]%lookup_singleton_Some. reflexivity.
Defined.

(** ** Paths *)

Definition path_tick (now pto_count rx : N) : Tick :=
  mkTick now [mkPathStats 1 true pto_count rx; mkPathStats 2 false 0 (now / 100)].

Lemma abandoned_path_unanswered_witness :
  exists before base since, [path_tick 1000 0 5; path_tick 4000 2 6; path_tick 6000 2 7] = before ++ base :: since
  /\ UNANSWERED <= tk_now (path_tick 7000 4 7) - tk_now base.
Proof.
  destruct (abandoned_path_unanswered [path_tick 1000 0 5; path_tick 4000 2 6; path_tick 6000 2 7] (path_tick 7000 4 7) 1)
    as (_ & _ & before & base & since & Heq & _ & _ & Hlong & _); [by vm_compute|].
  exists before, base, since. split; [exact Heq|exact Hlong].
Defined.

(** ** Offers *)

(** A stand-in for SHA-256 with outputs of its size, and an exchange both sides agree on. *)
Definition sum_sha (b : bytes) : bytes := replicate 32 (foldr N.add 0 b mod 256).
Definition product_kex (a b : bytes) : bytes := zip_with (fun x y => (x * y) mod 251) a b.
Definition generator : bytes := replicate 32 2.

Definition offered : PairingManager := (create sum_sha 100 sample_pairing_id sample_capability PairingManager_default).1.

Abbreviation offer_step := (pairing_step sum_sha endpoint_text decode64).

Lemma offered_step : offer_step (fun id => id = sample_pairing_id) (PairingManager_default, []) (offered, []).
Proof. apply StepCreate; [reflexivity|by vm_compute|apply not_elem_of_nil]. Qed.

Lemma one_code_at_a_time_witness : pm_current_pending offered = Some sample_pairing_id.
Proof.
  destruct (one_code_at_a_time sum_sha endpoint_text decode64 (fun id => id = sample_pairing_id) offered []) as [H _];
    [eapply rtc_l; [exact offered_step|apply rtc_refl]|].
  apply (H sample_pairing_id (mkOffer (sum_sha sample_capability) 100 400 Pending) sample_pairing_id
           (mkOffer (sum_sha sample_capability) 100 400 Pending)); by vm_compute.
Defined.

Definition used_offer : PairingManager :=
  mkPairingManager {[sample_pairing_id := mkOffer sample_capability 100 400 (Accepted (endpoint_text true) false)]} None.

Lemma spent_stays_spent_witness :
  exists e, claim sum_sha sample_pairing_id sample_capability 110 1 (reject_current "closed" used_offer)
            = (reject_current "closed" used_offer, Err e).
Proof.
  apply (spent_stays_spent sum_sha endpoint_text decode64 (fun _ => False) sample_pairing_id used_offer [] _ []);
    [by vm_compute|intros []|].
  eapply rtc_l; [apply (StepReject _ _ _ _ "closed"%string); intros id o H; by inversion H|apply rtc_refl].
Defined.

Lemma pairing_rate_bounded_witness :
  let '(limiter, log) := foldl (checked endpoint_text) (∅, []) [(true, 100); (true, 101); (false, 130); (true, 161)] in
  len (window 100 (times_of (endpoint_text true) log)) <= MAX_ATTEMPTS_PER_WINDOW.
Proof.
  pose proof (pairing_rate_bounded endpoint_text [(true, 100); (true, 101); (false, 130); (true, 161)]) as H.
  destruct (foldl _ _ _) as [limiter log]. apply H. repeat constructor; by vm_compute.
Defined.

(** ** The handshake *)

Definition empty_devices : PairedDeviceStore := mkPairedDeviceStore [] (private_file 0 [0]).
Definition client_nonce : bytes := replicate 32 3.
Definition client_kex : bytes := kex_public product_kex generator (replicate 32 4).
Definition server_nonce : bytes := replicate 32 5.
Definition server_secret : bytes := replicate 32 6.
Definition pairing_message : WireMessage :=
  PairRequest PROTOCOL_VERSION (encode64 sample_pairing_id) (encode64 sample_capability) (encode64 client_nonce) (encode64 client_kex).

Definition sample_claim : PairingClaim := mkPairingClaim sample_pairing_id (sum_sha sample_capability) 400 1.
Definition sample_hash : bytes := transcript_hash_of sum_sha endpoint_bytes false true sample_claim client_nonce server_nonce.
Definition sample_shared : bytes := product_kex server_secret client_kex.
Definition sample_key : bytes := notification_key sum_sha sample_shared sample_hash.
Definition paired_file : PairedDevicesFile :=
  mkPairedDevicesFile 1 [new_device encode64 (endpoint_text true) 120 sample_hash sample_key].

Abbreviation paired_to := (listed_to [paired_file]).

Lemma pairing_completes_witness :
  let '(host', answer) :=
    handle_pairing_stream sum_sha product_kex generator paired_to encode64 decode64 endpoint_text endpoint_bytes 0 false true
      (Ok pairing_message) 110 1 server_nonce server_secret 120 None (mkPairingHost ∅ offered empty_devices) in
  contains endpoint_text true (ph_devices host') = true
  /\ of_state <$> pm_offers (ph_manager host') !! sample_pairing_id = Some (Accepted (endpoint_text true) false).
Proof.
  pose proof (pairing_completes sum_sha product_kex generator paired_to encode64 decode64 endpoint_text endpoint_bytes 0 false true
                pairing_message sample_pairing_id sample_capability client_nonce client_kex 110 1 server_nonce server_secret 120
                (mkPairingHost ∅ offered empty_devices) (mkOffer (sum_sha sample_capability) 100 400 Pending) sample_shared [0]) as H.
  destruct (handle_pairing_stream _ _ _ _ _ _ _ _ _ _ _ _ _ _ _ _ _ _ _) as [host' answer].
  destruct H as (_ & _ & Hc & Ho); [by vm_compute..|]. split; [exact Hc|exact Ho].
Defined.

Abbreviation sample_step :=
  (system_step sum_sha product_kex generator paired_to encode64 decode64 endpoint_text endpoint_bytes 0 false).

Definition claiming : Pairing := mkPairing true sample_claim sample_capability (AtClaim client_nonce client_kex).
Definition storing : Pairing := set_progress (AtKey 120 server_nonce sample_hash sample_key server_secret) claiming.
Definition claimed_offer : PairingManager := (claim sum_sha sample_pairing_id sample_capability 110 1 offered).1.
Definition before_store : System := mkSystem (mkPairingHost ∅ claimed_offer empty_devices) [storing] [].
Definition stored_devices : PairedDeviceStore :=
  (stored paired_to encode64 endpoint_text 0 None true 120 sample_hash sample_key empty_devices).1.
Definition after_store : System :=
  mkSystem (mkPairingHost ∅ claimed_offer stored_devices)
    [set_progress (AtStore 120 server_nonce sample_hash server_secret) storing] [(sample_pairing_id, true)].

Lemma sample_run : rtc sample_step (system_start empty_devices) before_store.
Proof.
  eapply rtc_l; [apply (SysOffer _ _ _ _ _ _ _ _ _ _ 100 sample_pairing_id sample_capability);
                 [by vm_compute|apply not_elem_of_nil..]|].
  eapply rtc_l; [apply (SysClaim _ _ _ _ _ _ _ _ _ _ true sample_pairing_id sample_capability client_nonce client_kex 110 1)|].
  eapply rtc_l; [exact (SysAgree sum_sha product_kex generator paired_to encode64 decode64 endpoint_text endpoint_bytes 0 false
                          claiming client_nonce client_kex server_nonce server_secret 120
                          (mkPairingHost ∅ claimed_offer empty_devices) [] [] [] eq_refl)|].
  apply rtc_refl.
Qed.

Lemma store_step : sample_step before_store after_store.
Proof.
  exact (SysStore sum_sha product_kex generator paired_to encode64 decode64 endpoint_text endpoint_bytes 0 false
           storing 120 server_nonce sample_hash sample_key server_secret None (mkPairingHost ∅ claimed_offer empty_devices) [] [] []
           eq_refl).
Qed.

Lemma paired_only_by_code_witness :
  exists cn commit_time, cn ∈ sy_connections before_store /\ endpoint_text (cn_remote cn) = endpoint_text true
  /\ pc_capability_hash (cn_claim cn) = capability_hash sum_sha (cn_capability cn) /\ commit_time < pc_expires_at (cn_claim cn).
Proof.
  destruct (paired_only_by_code sum_sha product_kex generator paired_to (fun _ => None) encode64 decode64 endpoint_text endpoint_from
              endpoint_bytes 0 false
              empty_devices before_store after_store true sample_run store_step)
    as (_ & cn & commit_time & _ & _ & _ & _ & Hin & He & _ & Hcap & Htime & _); [by vm_compute..|].
  exists cn, commit_time. split; [exact Hin|split; [exact He|split; [exact Hcap|exact Htime]]].
Defined.
