(* ===== verification/PeerWitnesses.v ===== *)
(** The peer properties at concrete inputs where their hypotheses hold. *)
From S2P Require Import Prelude Text HostProtocol PrivateFile Protocol Peers PairingSamples.

Local Open Scope N_scope.

#[export] Instance Peers_Store_eq_dec : EqDecision Store.
Proof.
  assert (EqDecision Descriptor) by solve_decision. assert (EqDecision Incoming) by solve_decision.
  assert (EqDecision Outgoing) by solve_decision. assert (EqDecision LifecycleOutcome) by solve_decision.
  assert (EqDecision StartRecord) by solve_decision. solve_decision.
Defined.

Definition other_host : Descriptor := mkDescriptor (endpoint_text true) "mini".
Definition held_grant : Incoming := mkIncoming other_host "g1" (endpoint_text false) ["w1"%string].
Definition granted_store : Store := mkStore [held_grant] [] [].
Definition claimed_store : Store := mkStore [held_grant] [] [mkStartRecord "g1" "r1" "w1" None].
Definition sample_stores : list Store := [Store_default; granted_store; claimed_store].

Abbreviation store_to := (listed_to sample_stores).
Abbreviation store_from := (listed_from sample_stores).
Definition same_text (s : string) : string := s.

Lemma stores_read : store_reads store_to store_from.
Proof. intros s encoded. apply listed_reads. Qed.

Definition granted_peers : Peers := mkPeers granted_store (private_file 0 [1]).
Definition start_request : Request := mkRequest 1 "g1" (Start "r1" "w1").
Definition after_request : Peers := (execute endpoint_text endpoint_from store_to same_text 0 None true start_request [] [] granted_peers).1.

Abbreviation sample_peer_step := (peer_step endpoint_text endpoint_from store_to store_from same_text 0 false).

Lemma start_run allowed : rtc (sample_peer_step allowed) (mkWorld granted_peers [] ["g1"%string]) (mkWorld after_request [("g1", "r1")%string] ["g1"%string]).
Proof.
  eapply rtc_l; [exact (PeerRequest endpoint_text endpoint_from store_to store_from same_text 0 false allowed None true start_request [] []
                          granted_peers [] ["g1"%string])|]. apply rtc_refl.
Qed.

Lemma peers_launch_once_witness :
  exists p2, Peers.load endpoint_text endpoint_from store_from 0 (pe_disk after_request) = Ok p2.
Proof.
  apply (peers_launch_once endpoint_text endpoint_from store_to store_from same_text 0 false (fun _ => True) granted_peers after_request
           [("g1", "r1")%string] ["g1"%string] stores_read); [by vm_compute|exact (start_run _)].
Defined.

Definition after_revoke : Peers := (revoke endpoint_text endpoint_from store_to 0 None (endpoint_text true) granted_peers).1.

Lemma revoked_peer_denied_witness :
  execute endpoint_text endpoint_from store_to same_text 0 None true start_request [] [] after_revoke
  = (after_revoke, Err "authorization_denied"%string).
Proof.
  apply (revoked_peer_denied endpoint_text endpoint_from store_to store_from same_text 0 false None true granted_peers after_revoke
           after_revoke [] [] [] [] stores_read); [by vm_compute|apply rtc_refl].
Defined.

Lemma unpair_revokes_grants_witness :
  st_incoming (pe_store (revoke_issuer endpoint_text endpoint_from store_to 0 [] (endpoint_text false) granted_peers).1) = [].
Proof.
  apply (unpair_revokes_grants endpoint_text endpoint_from store_to store_from same_text 0 false [] (endpoint_text false) granted_peers
           (revoke_issuer endpoint_text endpoint_from store_to 0 [] (endpoint_text false) granted_peers).1 stores_read);
    by vm_compute.
Defined.
