(* ===== verification/NotifyWitnesses.v ===== *)
(** The notification properties at concrete inputs where their hypotheses hold, and runs in which a late
    delivery is overtaken or outlives the entry it belongs to. *)
From S2P Require Import Prelude Text HostProtocol Qr PrivateFile Devices RateWindow Protocol Queries LiveActivity Notify.
From S2P Require Import PairingSamples PairingWitnesses.

Local Open Scope N_scope.

(** ** Samples *)

Definition any_json (p : LiveActivityPayload) : option bytes := Some [len (lp_sessions p); lp_updated_at p mod 256].
Definition open_cipher (_ _ plaintext _ : bytes) : option bytes := Some plaintext.
Definition alert_text (p : AlertPayload) : string := (ap_workspace p +:+ default "" (ap_reply p))%string.

Definition ticket_a : string := sixty_four "t".
Definition ticket_b : string := sixty_four "u".
Definition following (ticket : string) : PairedDevice :=
  set_live_activity (Some (mkLiveActivityRegistration ticket [sample_selection])) (phone_device true 5).
Definition notify_files : list PairedDevicesFile :=
  mkPairedDevicesFile 1 <$> [[following ticket_a]; [phone_device true 5]; [following ticket_b]].

Abbreviation notify_to := (listed_to notify_files).
Definition device_store (d : PairedDevice) : PairedDeviceStore := mkPairedDeviceStore [d] (private_file 0 [0]).

Definition target_of (ticket : string) : LiveActivityTarget :=
  mkLiveActivityTarget (endpoint_text true) ticket sample_capability [sample_selection].
Definition working : LiveActivityOverview := {[sixty_four "c" := mkLiveActivitySessionFact "working" None]}.

Abbreviation prepare_sample := (prepare_live_activity_job open_cipher encode64 sum_sha any_json "mini").
Abbreviation sample_delivery :=
  (delivery_step open_cipher encode64 decode64 sum_sha any_json endpoint_text endpoint_from notify_to 0).

Definition first_job := prepare_sample (target_of ticket_a) working 100 [] LiveActivityDeliveryState_default.

Lemma overview_fact_witness :
  fact (project [] [mkManagedSessionSummary "s1" "stored" (Some "worker_crash"%string) "w" 1 5] {["s1"%string]}) "s1"
  = Some (mkLiveActivitySessionFact "failed" None).
Proof.
  rewrite (overview_fact [] [mkManagedSessionSummary "s1" "stored" (Some "worker_crash"%string) "w" 1 5] {["s1"%string]} "s1");
    [by vm_compute|constructor].
Defined.

Lemma alerts_bounded_witness :
  let '(g, log) := foldl passed (NotifyGate_default, []) [("s1"%string, 100); ("s1"%string, 130)] in
  (allow "s1" 140 g).2 = false <->
    (exists t, ("s1"%string, t) ∈ log /\ 140 - t < COALESCE_SECONDS)
    \/ len (recent RATE_LIMIT_WINDOW_SECONDS 140 (snd <$> log)) = RATE_LIMIT_PER_WINDOW.
Proof.
  pose proof (alerts_bounded [("s1"%string, 100); ("s1"%string, 130)] "s1" 140) as H.
  destruct (foldl passed _ _) as [g log]. apply H; repeat constructor; by vm_compute.
Defined.

Lemma unchanged_is_quiet_witness :
  exists s2, record_live_activity_success (default (mkLiveActivityJob "" "" "" 0 0 0 (mkDeliveredLiveActivity [] [] (mkLiveActivityPayload 1 "" 0 []) 0)) first_job.2)
               {[endpoint_text true := first_job.1]} !! endpoint_text true = Some s2
  /\ prepare_sample (target_of ticket_a) working 900 [] s2 = (s2, None).
Proof.
  destruct first_job as [s1 [job|]] eqn:Hj; [|by vm_compute in Hj].
  exact (unchanged_is_quiet open_cipher encode64 sum_sha any_json "mini" (target_of ticket_a) working 100 [] LiveActivityDeliveryState_default
           s1 job (target_of ticket_a) working 900 [] Hj).
Defined.

Lemma late_refusal_clears_registration_witness :
  let job := mkLiveActivityJob (endpoint_text true) ticket_a "" 100 1300 1 (mkDeliveredLiveActivity [] [] (mkLiveActivityPayload 1 "" 0 []) 0) in
  let '(devices, states) :=
    record_live_activity_refusal endpoint_text endpoint_from notify_to 0 None job "bad_token" (device_store (following ticket_b)) ∅ in
  List.find (has_id (endpoint_text true)) (ds_devices devices) = Some (set_live_activity None (following ticket_b))
  /\ (states !! endpoint_text true = None).
Proof.
  cbn zeta.
  exact (late_refusal_clears_registration endpoint_text endpoint_from notify_to 0
           (mkLiveActivityJob (endpoint_text true) ticket_a "" 100 1300 1 (mkDeliveredLiveActivity [] [] (mkLiveActivityPayload 1 "" 0 []) 0))
           "bad_token" true (device_store (following ticket_b)) ∅ (following ticket_b)
           (mkLiveActivityRegistration ticket_b [sample_selection]) [1]
           ltac:(by vm_compute) ltac:(by vm_compute) ltac:(by vm_compute) ltac:(by vm_compute) ltac:(by vm_compute) ltac:(by vm_compute)
           ltac:(by vm_compute) ltac:(by vm_compute)).
Defined.

(** ** Runs *)

Definition no_nonce (_ : string) : bytes := [].
Definition swept_at (overview : LiveActivityOverview) (now : N) (d : Deliveries) : Deliveries :=
  let '(states, jobs) := refresh_live_activities open_cipher encode64 decode64 sum_sha any_json "mini" overview now no_nonce (de_devices d) (de_states d) in
  mkDeliveries (de_devices d) states (((fun job => mkTask job 0 AboutToCheck) <$> jobs) ++ de_tasks d) (jobs ++ de_prepared d) (de_confirmed d) (de_posts d).

Lemma sweep_step overview now d : now <= u64_max -> sample_delivery d (swept_at overview now d).
Proof. destruct d as [devices ? ? ? ? ?]. by apply (DeliverySweep _ _ _ _ _ _ _ _ _ "mini" overview now no_nonce devices). Qed.

Definition operated (op : DeviceOperation (EndpointId := bool)) (d : Deliveries) : Deliveries :=
  mkDeliveries (operate notify_to encode64 endpoint_text 0 op None (de_devices d)) (de_states d) (de_tasks d) (de_prepared d) (de_confirmed d) (de_posts d).

Lemma operated_step op d : sample_delivery d (operated op d).
Proof. destruct d. apply DeliveryDevices. Qed.

Definition interested (d : Deliveries) : Deliveries :=
  mkDeliveries (de_devices d) (has_live_activity_interest decode64 (de_devices d) (de_states d)).1 (de_tasks d) (de_prepared d) (de_confirmed d) (de_posts d).

Lemma interested_step d : sample_delivery d (interested d).
Proof. destruct d as [devices ? ? ? ? ?]. apply (DeliveryInterest _ _ _ _ _ _ _ _ _ devices). Qed.

(** The [i]-th task checks that it is current; it posts. *)
Definition at_stage (stage : TaskStage) (i : nat) (t : Task) (d : Deliveries) : list Task :=
  take i (de_tasks d) ++ mkTask (tk_job t) (tk_attempt t) stage :: drop (S i) (de_tasks d).

Definition checks (i : nat) (d : Deliveries) : Deliveries :=
  match de_tasks d !! i with
  | Some t =>
      if generation_is_current (jb_endpoint_id (tk_job t)) (jb_generation (tk_job t)) (de_states d)
      then mkDeliveries (de_devices d) (de_states d) (at_stage AboutToPost i t d) (de_prepared d) (de_confirmed d) (de_posts d)
      else mkDeliveries (de_devices d) (de_states d) (take i (de_tasks d) ++ drop (S i) (de_tasks d)) (de_prepared d) (de_confirmed d) (de_posts d)
  | None => d
  end.

Definition posts (i : nat) (d : Deliveries) : Deliveries :=
  match de_tasks d !! i with
  | Some t => mkDeliveries (de_devices d) (de_states d) (at_stage AwaitingRelay i t d) (de_prepared d) (de_confirmed d) (tk_job t :: de_posts d)
  | None => d
  end.

Lemma checks_step i t d : de_tasks d !! i = Some t -> tk_stage t = AboutToCheck -> sample_delivery d (checks i d).
Proof.
  intros Ht Hp. unfold checks, at_stage. rewrite Ht. destruct d as [devices states tasks prepared confirmed posts]. cbn in *.
  rewrite <- (take_drop_middle tasks i t Ht) at 1. by apply DeliveryCheck.
Qed.

Lemma posts_step i t d : de_tasks d !! i = Some t -> tk_stage t = AboutToPost -> sample_delivery d (posts i d).
Proof.
  intros Ht Hp. unfold posts, at_stage. rewrite Ht. destruct d as [devices states tasks prepared confirmed posted]. cbn in *.
  rewrite <- (take_drop_middle tasks i t Ht) at 1. by apply DeliveryPost.
Qed.

Definition delivered_start : Deliveries := deliveries_start (device_store (following ticket_a)).
Definition posted_once : Deliveries := posts 0 (checks 0 (swept_at working 100 delivered_start)).

Lemma posted_run : rtc sample_delivery delivered_start posted_once.
Proof.
  eapply rtc_l; [by apply (sweep_step working 100)|]. eapply rtc_l; [by eapply (checks_step 0)|].
  eapply rtc_l; [by eapply (posts_step 0)|]. apply rtc_refl.
Qed.

Definition no_job : LiveActivityJob :=
  mkLiveActivityJob "" "" "" 0 0 0 (mkDeliveredLiveActivity [] [] (mkLiveActivityPayload 1 "" 0 []) 0).
Definition first_post : LiveActivityJob := default no_job (head (de_posts posted_once)).

Definition confirmed_once : Deliveries :=
  answered endpoint_text endpoint_from notify_to 0 None (Some (204, "")) (mkTask first_post 0 AwaitingRelay)
    (mkDeliveries (de_devices posted_once) (de_states posted_once) [] (de_prepared posted_once) [] (de_posts posted_once)).

Lemma confirmed_run : rtc sample_delivery delivered_start confirmed_once.
Proof.
  etrans; [exact posted_run|]. eapply rtc_l; [|apply rtc_refl].
  exact (DeliveryAnswer open_cipher encode64 decode64 sum_sha any_json endpoint_text endpoint_from notify_to 0 None (Some (204, ""))
           (de_devices posted_once) (de_states posted_once) [] (mkTask first_post 0 AwaitingRelay) [] (de_prepared posted_once) [] (de_posts posted_once) eq_refl).
Qed.

Lemma delivered_confirmed_witness :
  exists s held, de_states confirmed_once !! endpoint_text true = Some s /\ sa_delivered s = Some held
  /\ exists job, job ∈ de_confirmed confirmed_once /\ job ∈ de_posts confirmed_once /\ jb_endpoint_id job = endpoint_text true /\ jb_delivered job = held.
Proof.
  destruct (de_states confirmed_once !! endpoint_text true) as [s|] eqn:Hs; [|by vm_compute in Hs].
  destruct (sa_delivered s) as [held|] eqn:Hd; [|by vm_compute in Hs; injection Hs as <-].
  exists s, held. split; [reflexivity|]. split; [exact Hd|].
  exact (delivered_confirmed open_cipher encode64 decode64 sum_sha any_json endpoint_text endpoint_from notify_to 0 _ confirmed_once
           (endpoint_text true) s held confirmed_run Hs Hd).
Defined.

(** A second update overtakes a delivery between its check and its post. *)
Abbreviation sample_keeps :=
  (keeps open_cipher encode64 decode64 sum_sha any_json endpoint_text endpoint_from notify_to 0 (endpoint_text true)).
Definition overtaken : Deliveries := posts 0 (checks 0 (swept_at working 110 (checks 0 (swept_at working 100 delivered_start)))).

Lemma overtaken_keeps : rtc sample_keeps delivered_start overtaken.
Proof.
  unfold overtaken.
  eapply rtc_l; [split; [by apply (sweep_step working 100)|intros [s Hs]; by vm_compute in Hs]|].
  eapply rtc_l; [split; [by eapply (checks_step 0)|intros _; vm_compute; by eexists]|].
  eapply rtc_l; [split; [by apply (sweep_step working 110)|intros _; vm_compute; by eexists]|].
  eapply rtc_l; [split; [by eapply (checks_step 0)|intros _; vm_compute; by eexists]|].
  eapply rtc_l; [split; [by eapply (posts_step 0)|intros _; vm_compute; by eexists]|]. apply rtc_refl.
Qed.

Lemma posts_in_order_witness :
  exists newer d_c, head (de_posts overtaken) = Some newer /\ rtc sample_keeps delivered_start d_c /\ newer ∉ de_prepared d_c.
Proof.
  destruct (de_tasks overtaken !! 1%nat) as [t|] eqn:Ht; [|by vm_compute in Ht].
  destruct (head (de_posts overtaken)) as [newer|] eqn:Hn; [|by vm_compute in Hn].
  destruct (posts_in_order open_cipher encode64 decode64 sum_sha any_json endpoint_text endpoint_from notify_to 0
    (device_store (following ticket_a)) overtaken t newer (endpoint_text true) overtaken_keeps) as (d_c & H1 & _ & _ & H2 & _).
  - by vm_compute.
  - by eapply list_elem_of_lookup_2.
  - apply (f_equal (fmap tk_stage)) in Ht. vm_compute in Ht. by injection Ht.
  - apply (f_equal (fmap (fun t => jb_endpoint_id (tk_job t)))) in Ht. vm_compute in Ht. injection Ht as Ht. etrans; [symmetry; exact Ht|by vm_compute].
  - assert (de_posts overtaken = take 1 (de_prepared overtaken)) as Hp by (by vm_compute).
    eapply (list_elem_of_lookup_2 _ 0). revert Hn. rewrite Hp. by destruct (de_prepared overtaken) as [|x l].
  - apply (f_equal (fmap jb_endpoint_id)) in Hn. vm_compute in Hn. injection Hn as Hn. etrans; [symmetry; exact Hn|by vm_compute].
  - apply (f_equal (fmap (fun t => jb_timestamp (tk_job t)))) in Ht. apply (f_equal (fmap jb_timestamp)) in Hn.
    vm_compute in Ht, Hn. injection Ht as Ht. injection Hn as Hn.
    assert (jb_timestamp (tk_job t) = 100) as -> by exact (eq_sym Ht). assert (jb_timestamp newer = 110) as -> by exact (eq_sym Hn). done.
  - exists newer, d_c. split_and!; [done|exact H1|exact H2].
Defined.

(** The check and the post are two steps: the delivery overtaken between them still posts, its older state
    after the newer one. *)
Lemma overtaken_posts_older :
  rtc sample_delivery delivered_start (posts 1 overtaken)
  /\ jb_timestamp <$> de_posts (posts 1 overtaken) = [100; 110].
Proof.
  split; [|by vm_compute]. eapply rtc_r; [|by eapply (posts_step 1)].
  eapply rtc_subrel; [|exact overtaken_keeps]. by intros d d' [].
Qed.

(** A phone stops following and follows again under a new ticket, while the first delivery has still to check. *)
Definition followed_again : Deliveries :=
  swept_at working 110
    (operated (UpdateLiveActivity true (Some ticket_b) (Some (Add sample_selection)))
       (interested (operated (UpdateLiveActivity true None None) (swept_at working 100 delivered_start)))).

(** An entry that is dropped forgets its generation, so a delivery from before it passes for the current
    one: after the update of the new registration is posted, that delivery passes its check and posts the
    older update, with its older timestamp and the ticket that was withdrawn. *)
Lemma dropped_entry_revives_delivery :
  exists d, rtc sample_delivery delivered_start d
  /\ ((fun job => (jb_timestamp job, jb_ticket job)) <$> de_posts d = [(100, ticket_a); (110, ticket_b)]).
Proof.
  exists (posts 1 (checks 1 (posts 0 (checks 0 followed_again)))). split; [|by vm_compute]. unfold followed_again.
  eapply rtc_l; [by apply (sweep_step working 100)|]. eapply rtc_l; [apply (operated_step (UpdateLiveActivity true None None))|].
  eapply rtc_l; [apply interested_step|].
  eapply rtc_l; [apply (operated_step (UpdateLiveActivity true (Some ticket_b) (Some (Add sample_selection))))|].
  eapply rtc_l; [by apply (sweep_step working 110)|]. eapply rtc_l; [by eapply (checks_step 0)|].
  eapply rtc_l; [by eapply (posts_step 0)|].
  eapply rtc_l; [by eapply (checks_step 1)|]. eapply rtc_l; [by eapply (posts_step 1)|]. apply rtc_refl.
Qed.
