(* ===== verification/TransferWitnesses.v ===== *)
(** Concrete transfers on which the theorems about them are instantiated, and what a name that ends in ".partial"
    costs. The digest, JSON and git are stand-ins. *)
From S2P Require Import Prelude Text HostProtocol HostRpc Framing FrameReader UploadNames GitDiff Downloads Uploads UploadStream.

Local Open Scope N_scope.

(** ** Uploads *)


Definition zero_digest (contents : bytes) : bytes := repeat 0 32.
Definition any_reply (reply : PutReply) : option bytes := Some [123; 125].
Definition sound : Faults := mkFaults true (fun _ => None) true Scanned true (fun _ => true) (fun _ => Sent).

Definition put_open (filename : string) : PutOpen :=
  mkPutOpen 1 "123E4567-e89b-12d3-a456-426614174000" filename "file" 2
    "0000000000000000000000000000000000000000000000000000000000000000".

(** A request, two bytes in one chunk, and the end, in reads that cut them anywhere; what comes after is
    another request. *)
Definition two_bytes (i : nat) : read_event :=
  ReadBytes (default [1; 0; 0; 0; 0] ([[1; 0; 0]; [0; 0; 3; 0; 0; 0; 2; 65]; [66; 4; 0; 0; 0; 0]] !! i)).

Definition small_store : UploadStore := mkUploadStore "/state/uploads" 10 UPLOAD_PARTIAL_TTL UPLOAD_COMPLETED_TTL.
Definition upload (faults : Faults) (in_time : nat) (filename : string) (dir : directory) : option Exchange :=
  run_upload_stream any_reply (fun _ => Some (put_open filename)) map_to_list zero_digest faults (fun _ => 0) (fun _ d => d)
    two_bytes (fun _ => in_time) small_store 7 "t" dir.

Lemma upload_verified_witness :
  match upload sound 2 "notes.txt" ∅ with
  | Some ex => ex_ending ex = Returned (Ok tt) /\ len (map_to_list (ex_dir ex)) = 1
      /\ accounted (fun _ => Some (put_open "notes.txt")) zero_digest sound two_bytes 7 small_store ex
  | None => False
  end.
Proof.
  destruct (upload sound 2 "notes.txt" ∅) as [ex|] eqn:Hu; [|by vm_compute in Hu].
  split; [vm_compute in Hu; by injection Hu as <-|]. split; [vm_compute in Hu; by injection Hu as <-|].
  exact (upload_verified any_reply (fun _ => Some (put_open "notes.txt")) map_to_list zero_digest sound (fun _ => 0) (fun _ d => d)
    two_bytes (fun _ => 2%nat) 7 (fun _ d n _ => or_introl eq_refl) small_store "t" ∅ ex (fun n _ => lookup_empty n) Hu).
Defined.

(** The deadline of a transfer is on what the peer sends, not on what it takes: one that never makes room for
    the acceptance keeps the exchange, its gate and its partial file, for as long as the connection lives. *)
Lemma reply_not_taken_stalls :
  upload (mkFaults true (fun _ => None) true Scanned true (fun _ => true) (fun _ => SendStalls)) 2 "notes.txt" ∅
  = Some (mkExchange {[partial_name 7 := mkStoredFile [] 0 true]} [] Stalled).
Proof. vm_compute. reflexivity. Qed.

(** A peer that stops after its request is timed out, and nothing is left. *)
Example silent_peer_timed_out :
  run_upload_stream any_reply (fun _ => Some (put_open "notes.txt")) map_to_list zero_digest sound (fun _ => 0) (fun _ d => d)
    two_bytes (fun await => match await with O => 2%nat | _ => O end) small_store 7 "t" ∅
  = Some (mkExchange ∅ [PutAccepted 1 "t" 16384 8388608; PutError 1 "timeout" "The upload timed out."] (Returned (Ok tt))).
Proof. vm_compute. reflexivity. Qed.

(** Two completed uploads of six bytes, the older first by name, a partial file and a link. *)
Definition six (modified : N) : StoredFile := mkStoredFile [1; 2; 3; 4; 5; 6] modified true.
Definition two_uploads : directory :=
  {["a-old" := six 1; "b-new" := six 2; "c.partial" := six 1; "link" := mkStoredFile [] 0 false]}.

Definition made_room : directory := delete "a-old"%string two_uploads.

Lemma make_room_for_spec_witness :
  make_room_for map_to_list (fun _ => true) small_store Scanned 4 two_uploads = (made_room, Ok tt)
  /\ stored_bytes made_room + 4 <= us_quota_bytes small_store.
Proof.
  assert (make_room_for map_to_list (fun _ => true) small_store Scanned 4 two_uploads = (made_room, Ok tt)) as Hm by (vm_compute; reflexivity).
  split; [exact Hm|].
  destruct (make_room_for_spec map_to_list (fun _ => true) (fun _ => reflexivity _) small_store 4 two_uploads made_room (Ok tt) eq_refl Hm)
    as (_ & [H _] & _). exact (H eq_refl).
Defined.

Definition swept_clean : directory := delete "a-old"%string (delete "c.partial"%string two_uploads).

Lemma sweep_at_spec_witness :
  swept_clean = sweep_at map_to_list (fun _ => true) small_store Scanned (UPLOAD_PARTIAL_TTL + 2) two_uploads
  /\ stored_bytes swept_clean <= us_quota_bytes small_store.
Proof.
  assert (swept_clean = sweep_at map_to_list (fun _ => true) small_store Scanned (UPLOAD_PARTIAL_TTL + 2) two_uploads) as Hs
    by (vm_compute; reflexivity).
  split; [exact Hs|].
  destruct (sweep_at_spec map_to_list (fun _ => true) (fun _ => reflexivity _) small_store (UPLOAD_PARTIAL_TTL + 2) two_uploads swept_clean
    (fun _ => eq_refl) eq_refl Hs) as (_ & H & _). exact H.
Defined.

Definition received : PartialUpload :=
  mkPartialUpload small_store [65; 66] 2 2 (po_sha256 (put_open "notes.txt")) (partial_name 7) (final_name 7 "notes.txt").

Lemma received_ok : transfer_ok 7 small_store (put_open "notes.txt") [[65; 66]] received
  (<[partial_name 7 := mkStoredFile [65; 66] 0 true]> two_uploads).
Proof.
  split; try reflexivity. intros n f Hn Hf. destruct (decide (n = partial_name 7)) as [->|Hne].
  - rewrite lookup_insert_eq in Hf. by injection Hf as <-.
  - rewrite lookup_insert_ne in Hf by done. exfalso. unfold two_uploads in Hf.
    repeat (rewrite lookup_insert_Some in Hf; destruct Hf as [[<- _]|[_ Hf]]; [by vm_compute in Hn|]).
    apply lookup_singleton_Some in Hf as [<- _]. by vm_compute in Hn.
Defined.

Definition with_partial : directory := <[partial_name 7 := mkStoredFile [65; 66] 0 true]> two_uploads.
Definition with_upload : directory := <[final_name 7 "notes.txt" := mkStoredFile [65; 66] 0 true]> made_room.
Definition uploaded : CompletedUpload :=
  mkCompletedUpload "/state/uploads/0000000000000007-notes.txt" "'/state/uploads/0000000000000007-notes.txt'" "1970-01-02T00:00:00Z".

Lemma publishing_keeps_quota_witness :
  finish map_to_list zero_digest sound 3 received with_partial = (with_upload, Ok uploaded)
  /\ stored_bytes with_upload <= us_quota_bytes small_store.
Proof.
  assert (finish map_to_list zero_digest sound 3 received with_partial = (with_upload, Ok uploaded)) as Hf by (vm_compute; reflexivity).
  split; [exact Hf|].
  exact (publishing_keeps_quota map_to_list zero_digest sound 7 small_store (put_open "notes.txt") [[65; 66]] received
    with_partial 3 with_upload uploaded (fun _ => reflexivity _) eq_refl eq_refl received_ok Hf).
Defined.

(** ** A completed upload that looks like a partial one *)

(** A completed upload whose own name ends in ".partial" is taken for a transfer that was left: published
    and promised for a day, it is gone after a sweep a quarter of an hour later, and as long as it is there
    its bytes are not counted against the quota. *)
Theorem partial_name_swept_early :
  match upload sound 2 "report.partial" ∅ with
  | Some ex =>
      ex_sent ex = [PutAccepted 1 "t" 16384 8388608;
        PutDone 1 "/state/uploads/0000000000000007-report.partial" "'/state/uploads/0000000000000007-report.partial'" "1970-01-02T00:00:00Z"]
      /\ len (map_to_list (ex_dir ex)) = 1 /\ stored_bytes (ex_dir ex) = 0
      /\ sweep_at map_to_list (fun _ => true) small_store Scanned UPLOAD_PARTIAL_TTL (ex_dir ex) = ∅
  | None => False
  end.
Proof. vm_compute. by split_and!. Qed.

(** ** Downloads *)


(** A work tree on a branch that left main, with one change and one untracked file. *)
Definition repository (args : list string) : GitProcess :=
  let says (text : string) := Ran [Some text] (Some true) true in
  match args with
  | ["rev-parse"; "--is-inside-work-tree"] => says "true
"
  | ["rev-parse"; "--is-bare-repository"] => says "false
"
  | ["rev-parse"; "--abbrev-ref"; "origin/HEAD"] => says "origin/main
"
  | ["merge-base"; "origin/main"; "HEAD"] => says "aaa
"
  | ["rev-parse"; "HEAD"] => says "bbb
"
  | ["rev-parse"; "--verify"; "HEAD"] => says "bbb
"
  | ["ls-files"; "--others"; "--exclude-standard"; "-z"] => says (String.append "new.txt" (String "000" EmptyString))
  | ["diff"; "--no-ext-diff"; "--no-textconv"; "--no-color"; "HEAD"] => says "-old
+new
"
  | ["diff"; "--no-ext-diff"; "--no-textconv"; "--no-color"; "--no-index"; "--"; "/dev/null"; "new.txt"] =>
      Ran [Some "+added
"%string] (Some false) true
  | ["diff"; "--no-ext-diff"; "--no-textconv"; "--no-color"; "aaa"; "HEAD"] => says "+merged
"
  | _ => NotSpawned
  end%string.

Lemma diff_bounded_witness :
  diff (fun _ => true) true repository Uncommitted = Ok "-old
+new
+added
"%string /\ slen "-old
+new
+added
" <= MAX_DIFF_BYTES.
Proof.
  assert (diff (fun _ => true) true repository Uncommitted = Ok "-old
+new
+added
"%string) as Hd by (vm_compute; reflexivity).
  split; [exact Hd|]. exact (proj1 (diff_bounded (fun _ => true) true repository Uncommitted _ Hd)).
Defined.

Lemma offered_bases_witness :
  available_bases (fun _ => true) repository = [mkDiffBaseOption Uncommitted "Uncommitted"; mkDiffBaseOption Branch "vs main"]
  /\ branch_merge_base repository = Some ("aaa", "origin/main")%string
  /\ diff (fun _ => true) true repository Branch
     = (let? out := git repository ["diff"; "--no-ext-diff"; "--no-textconv"; "--no-color"; "aaa"; "HEAD"]%string in whole_patch out).
Proof.
  assert (branch_merge_base repository = Some ("aaa", "origin/main")%string) as Hb by (vm_compute; reflexivity).
  assert (is_ok (open_work_tree (fun _ => true) true repository) = true) as Ho by (vm_compute; reflexivity).
  split; [vm_compute; reflexivity|]. split; [exact Hb|].
  destruct (offered_bases (fun _ => true) true repository) as (_ & _ & H). exact (proj2 (proj2 (H _ _ Hb Ho))).
Defined.

Definition only_main (path : string) : PathLookup := if path =s? "/w/src/main.rs" then Regular path else Missing.

Lemma line_suffix_resolves_witness :
  resolve_target false only_main "src/main.rs:42:5" (Some "/w"%string) None = Ok "/w/src/main.rs"%string.
Proof.
  apply (line_suffix_resolves false only_main "src/main.rs:42:5" (Some "/w"%string) None "/w/src" "main.rs" ["42"; "5"]%string "/w/src/main.rs").
  - split; [reflexivity|]. exists "src"%string, ["w"; ""]%string. split; [reflexivity|]. split; discriminate.
  - repeat split; discriminate.
  - exact I.
  - repeat constructor; discriminate.
  - discriminate.
  - by apply (bool_decide_unpack _); vm_compute.
  - vm_compute. reflexivity.
  - intros other. vm_compute. discriminate.
  - vm_compute. reflexivity.
Defined.

(** A file of three bytes asked for by a phone. *)
Definition three_bytes (path : string) : option OpenFile :=
  if path =s? "/w/src/main.rs" then Some (mkOpenFile (Some 3) (fun _ => [1; 2; 3]) (fun _ => 1%nat) (fun _ => false)) else None.

Example download_1 :
  run_download_stream (fun _ => Some [123; 125]) (fun _ => Some (mkGetOpen 1 "src/main.rs:42" (Some "/w") None None None)%string) (fun _ => None)
    (fun _ => true) (fun _ => true) (fun _ => repository) (fun _ => repository) false only_main three_bytes None None (fun _ => None)
    (ReadBytes <$> [[1; 0]; [0; 0; 0]])
  = Some ([GetAccepted 1 "main.rs" 3 [] None; GetChunk [1; 2]; GetChunk [3]; GetDone], Ok tt).
Proof. vm_compute. reflexivity. Qed.
