(* ===== verification/ManagedWitnesses.v ===== *)
(** The properties of managed sessions at concrete inputs where their hypotheses hold, and what is wrong in the
    code that the model of it shows. *)
From S2P Require Import Prelude Text Metadata PrivateFile HostProtocol UploadNames Downloads Protocol Samples PairingSamples LiveActivity Queries WorkspaceScan Managed ManagedStore ManagedRuns ManagedSpec ManagedRows.

Local Open Scope string_scope.
Local Open Scope N_scope.

#[export] Instance ManagedMetadataFile_eq_dec : EqDecision ManagedMetadataFile.
Proof. assert (EqDecision LifecycleOutcome) by solve_decision. solve_decision. Defined.

(** Everything goes well, and nobody else holds a conversation. *)
Definition calm (q : Query) : Answer q :=
  match q with
  | ScanHome => Some (mkWorkspaceScan ["/w/p"; "/w/q"] false)
  | IsDirectory _ | RequestExit _ => true
  | ForeignOwnerEvidence _ _ => false
  | ReadTranscript _ => (None, None)
  | SpawnWorker _ _ => Ok tt
  | HandBack _ name _ => Some name
  | StopWorker _ | CloseHandback _ | BeforeSpawn _ => tt
  end.

Lemma calm_sensible q : sensible q (calm q).
Proof. destruct q; try done. intros s [= <-]. decided. Qed.

Definition noon : Moment := mkMoment 5 None.
Definition sample_key : list N := replicate 32 7.
Definition nothing_yet : ManagedMetadataStore := mkManagedMetadataStore sample_key [] [] NotFound.
Definition first_start : Operation := OpStartAtPath "/w/p" "c1".
Definition first_id : string := random_opaque_id 1.

(** What the codec of the samples knows: the store with one session, before and after a restart. *)
Definition unwritten_store : ManagedMetadataStore := (run calm noon (program sum_hash (fun _ => None) 501 first_start 1) nothing_yet).1.2.
Definition known_files : list ManagedMetadataFile := [file_of unwritten_store; file_of (after_restart 5 unwritten_store)].

Abbreviation files_to := (listed_to known_files).
Abbreviation files_from := (listed_from known_files).

Lemma files_read f encoded : files_to f = Some encoded -> files_from encoded = Some f.
Proof. apply listed_reads. Qed.

Definition one_session : ManagedMetadataStore := (run calm noon (program sum_hash files_to 501 first_start 1) nothing_yet).1.2.

Lemma key_facts : length sample_key = 32%nat /\ Forall (fun b => b < 256) sample_key.
Proof. split; [done|decided]. Qed.

Example one_session_written : mg_disk one_session = private_file 501 [0] /\ mg_records one_session = mg_records unwritten_store.
Proof. by vm_compute. Qed.

Lemma one_session_reached :
  exists w, wd_store w = one_session /\ rtc (moves sum_hash files_to files_from 501) (world_start sample_key NotFound) w.
Proof.
  set (w1 := mkWorld nothing_yet ∅ [(random_opaque_id 1, task_program sum_hash files_to 501 (TkOperation first_start) 1)] {[random_opaque_id 1]}).
  destruct (runs_alone sum_hash files_to 501 calm noon 0 (random_opaque_id 1) _ w1 calm_sensible eq_refl) as (workers & tasks & Hsteps).
  eexists. split; [|eapply rtc_l; [left; exact (StepArrives _ _ _ (TkOperation first_start) 1 _ ltac:(by split) (not_elem_of_empty _))|]].
  2:{ cbn [world_start wd_store wd_workers wd_tasks wd_drawn app]. rewrite union_empty_r_L.
      eapply rtc_subrel; [|exact Hsteps]. intros ???. by left. }
  by vm_compute.
Qed.

Lemma one_session_ok : store_ok sum_hash one_session.
Proof.
  destruct one_session_reached as (w & <- & Hsteps). destruct key_facts as [Hl Hb].
  by apply (worlds_ok sum_hash files_to files_from 501 sum_hash_bytes files_read _ _ Hl Hb Hsteps).
Qed.

Lemma sessions_evolve_witness : exists w, wd_store w = one_session /\ store_ok sum_hash (wd_store w).
Proof.
  destruct one_session_reached as (w & Hw & Hsteps). exists w. split; [exact Hw|].
  apply (sessions_evolve sum_hash files_to files_from 501 sum_hash_bytes files_read sample_key w w (proj1 key_facts) (proj2 key_facts) Hsteps).
Defined.

Lemma operations_refine_lifecycle_witness :
  let '(asked, s', outcome) := run calm noon (managed_stop files_to 501 first_id 1 "c2") one_session in
  asked = (if is_ok (stop_spec 1 (phase first_id one_session)).2 then [StopWorker first_id] else [])
  /\ ends "c2" first_id one_session (stop_spec 1 (phase first_id one_session)) s' outcome
  /\ asks_first calm noon (managed_stop files_to 501 first_id 1 "c2") one_session.
Proof.
  assert (answered "c2" one_session = None) as Hnone by (by vm_compute).
  destruct (operations_refine_lifecycle sum_hash files_to 501 calm noon first_id "c2" one_session one_session_ok Hnone) as (_ & H & _). exact (H 1).
Defined.

Example first_stop_accepted : stop_spec 1 (phase first_id one_session) = (Some (Stored "stopped" false 1), Ok None).
Proof. by vm_compute. Qed.

Lemma commands_answered_once_witness :
  (exists again, run calm noon (program sum_hash files_to 501 (OpForget first_id "c1") 7) one_session = ([], one_session, again)
    /\ again_of (accepted "c1" (Some first_id) None) again)
  /\ (run calm noon (promote_request sum_hash files_to 501 (Err "unknown_session") "c1" 7) one_session).1.2 = one_session.
Proof.
  destruct one_session_reached as (w & Hw & Hsteps). rewrite <- Hw.
  destruct (commands_answered_once sum_hash files_to files_from 501 sum_hash_bytes files_read sample_key w 0 w []
           (accepted "c1" (Some first_id) None) [] calm noon (proj1 key_facts) (proj2 key_facts) Hsteps) as [H1 H2];
    [rewrite Hw; by vm_compute|constructor|constructor|by vm_compute|]. split.
  - destruct (H1 (OpForget first_id "c1") 7 eq_refl) as (again & Hr & Ha & _). exists again. split; [exact Hr|exact Ha].
  - pose proof (H2 (Err "unknown_session") 7) as H. cbn [lo_command_id accepted] in H.
    destruct (run _ _ (promote_request _ _ _ _ _ _) _) as [[asked s'] outcome]. exact (proj1 H).
Defined.

Lemma restart_keeps_sessions_witness :
  exists d, directory_load files_to files_from 501 noon noon (replicate 32 0) (mg_disk one_session) = Ok d
    /\ mg_records (dy_store d) = restarted 5 <$> mg_records one_session
    /\ mg_lifecycle (dy_store d) = mg_lifecycle one_session /\ mg_key (dy_store d) = mg_key one_session
    /\ (take_restart_resumable d).2 = mr_session_id <$> List.filter is_live (mg_records one_session)
    /\ (take_restart_resumable (take_restart_resumable d).1).2 = [].
Proof.
  destruct one_session_reached as (w & Hw & Hsteps). rewrite <- Hw.
  apply (restart_keeps_sessions sum_hash files_to files_from 501 sum_hash_bytes files_read sample_key w noon noon (replicate 32 0) [0] [1]
           (proj1 key_facts) (proj2 key_facts) Hsteps); [rewrite Hw; by vm_compute|rewrite Hw; apply one_session_written|by split|done|done|rewrite Hw; by vm_compute].
Defined.

Example owed_back : mr_session_id <$> List.filter is_live (mg_records one_session) = [first_id].
Proof. by vm_compute. Qed.

(** The scan a start makes does not finish. *)
Definition lost (q : Query) : Answer q := match q with ScanHome => None | q => calm q end.

Lemma workspaces_offered_start_witness :
  let '(_, s', l) := run calm noon (workspaces sum_hash "/w") one_session in
  AgentWorkspaceList_validate l = Ok tt
  /\ forall w, w ∈ wl_workspaces l ->
       (exists found label, store_workspace_id sum_hash found one_session = wd_workspace_id w
         /\ let '(asked, _, _) := run calm noon (managed_start sum_hash files_to 501 (wd_workspace_id w) "c2" 7) one_session in
            SpawnWorker (mkLaunchSpec (random_opaque_id 7) found None None None) label ∈ asked)
       /\ let '(asked, _, outcome) := run lost noon (managed_start sum_hash files_to 501 (wd_workspace_id w) "c2" 7) one_session in
          ~ at_hand sum_hash (wd_workspace_id w) WorkspaceScan_default one_session ->
          asked = [ScanHome] /\ outcome = refused "c2" "unknown_workspace".
Proof.
  assert (answered "c2" one_session = None) as Hnone by (by vm_compute).
  pose proof (workspaces_offered_start sum_hash files_to 501 sum_hash_bytes calm noon "/w" _ one_session one_session_ok eq_refl) as H.
  destruct (run calm noon (workspaces sum_hash "/w") one_session) as [[asked s'] l]. destruct H as (_ & Hv & _ & _ & Hat & Hstart).
  split; [exact Hv|]. intros w Hw. split.
  - pose proof (Hstart w calm noon one_session "c2" 7 Hw one_session_ok Hnone) as H1. cbv zeta in H1.
    destruct (run calm noon (managed_start _ _ _ _ _ _) one_session) as [[asked1 s1] o1]. exact (proj1 H1 (Hat w Hw)).
  - pose proof (Hstart w lost noon one_session "c2" 7 Hw one_session_ok Hnone) as H1. cbv zeta in H1.
    destruct (run lost noon (managed_start _ _ _ _ _ _) one_session) as [[asked1 s1] o1]. exact (proj2 H1).
Defined.

Example two_offered : len (wl_workspaces (run calm noon (workspaces sum_hash "/w") one_session).2) = 2.
Proof. by vm_compute. Qed.

(** ** What the code gets wrong *)

Lemma full_start (env : forall q, Answer q) m sha256 to_vec effective_uid path label resume command_id before_spawn draw s :
  MAX_MANAGED_RECORDS <= len (mg_records s) -> (forall spec label, env (SpawnWorker spec label) = Ok tt) ->
  let '(asked, s', outcome) := run env m (start_in_workspace_resuming sha256 to_vec effective_uid path label resume command_id before_spawn draw) s in
  outcome = refused command_id "record_limit" /\ mg_records s' = mg_records s
  /\ (exists spec, sp_session_id spec = random_opaque_id draw /\ SpawnWorker spec label ∈ asked) /\ forall id, StopWorker id ∉ asked.
Proof.
  intros Hfull Hspawn. assert (forall id worker, push_record sha256 path label id command_id worker m s = (s, None)) as Hpush
    by (intros id worker; unfold push_record; by rewrite (proj2 (N.leb_le _ _) Hfull)).
  unfold start_in_workspace_resuming. rewrite run_bind.
  match goal with |- context [run env m ?p s] => assert (exists q, run env m p s = (q, s, tt) /\ forall id, StopWorker id ∉ q) as (q1 & -> & H1) end.
  { destruct before_spawn; cbn; [destruct (env (BeforeSpawn _))|]; eexists; (split; [reflexivity|]); intros id; [by intros ?%list_elem_of_singleton|by intros ?%not_elem_of_nil]. }
  rewrite run_bind. assert (exists q a, run env m (transcript_of resume) s = (q, s, a) /\ forall id, StopWorker id ∉ q) as (q2 & [mode model] & -> & H2).
  { destruct resume as [v|]; cbn; do 2 eexists; (split; [reflexivity|]); intros id; [by intros ?%list_elem_of_singleton|by intros ?%not_elem_of_nil]. }
  unfold launch. rewrite run_bind. cbn [run ask mbind prog_bind mret prog_ret]. rewrite Hspawn. cbn [rmap].
  unfold locked. cbn [run mbind prog_bind]. rewrite Hpush. cbn [fst snd]. unfold refuse. cbn [run locked mbind prog_bind mret prog_ret persisted fst snd app].
  split; [done|]. split; [by rewrite (proj1 (persist_same to_vec effective_uid _ _))|]. split.
  - eexists. split; [|apply elem_of_app; right; apply elem_of_app; right; by left]. done.
  - intros id [?|[?|[?|?%not_elem_of_nil]%elem_of_cons]%elem_of_app]%elem_of_app; [by eapply H1|by eapply H2|done|done].
Qed.

(** At the bound on records, a start runs its worker, answers that there is no room, and leaves the worker
    running: nothing stops it, and no record names it. *)
Lemma full_store_leaks_worker (env : forall q, Answer q) m sha256 to_vec effective_uid path command_id draw s :
  MAX_MANAGED_RECORDS <= len (mg_records s) -> answered command_id s = None -> starts_with path "/" = true -> env (IsDirectory path) = true ->
  (forall spec label, env (SpawnWorker spec label) = Ok tt) ->
  let '(asked, s', outcome) := run env m (managed_start_at_path sha256 to_vec effective_uid path command_id draw) s in
  outcome = refused command_id "record_limit" /\ mg_records s' = mg_records s
  /\ (exists spec, sp_session_id spec = random_opaque_id draw /\ SpawnWorker spec (workspace_label path) ∈ asked) /\ forall id, StopWorker id ∉ asked.
Proof.
  intros Hfull Hnone Habs Hdir Hspawn. unfold managed_start_at_path. rewrite run_once by done. unfold placed. rewrite Habs.
  rewrite run_bind. cbn [run ask]. rewrite Hdir. unfold start_in_workspace.
  pose proof (full_start env m sha256 to_vec effective_uid path (workspace_label path) None command_id false draw s Hfull Hspawn) as H.
  destruct (run env m (start_in_workspace_resuming _ _ _ _ _ _ _ _ _) s) as [[asked s'] o]. destruct H as (-> & -> & (spec & Hid & Hin) & Hno).
  split_and!; [done|done| |].
  - exists spec. split; [done|]. by right.
  - by intros id [?|?%Hno]%elem_of_cons.
Qed.

(** The same of a takeover, whose terminal has been ended by then: what is decided before it ends leaves the
    bound out. *)
Lemma full_store_costs_terminal (env : forall q, Answer q) m sha256 to_vec effective_uid target command_id draw s :
  MAX_MANAGED_RECORDS <= len (mg_records s) -> answered command_id s = None -> pt_vendor_session_id target = None ->
  starts_with (pt_workspace_path target) "/" = true -> env (IsDirectory (pt_workspace_path target)) = true ->
  env (RequestExit (pt_process_id target)) = true -> (forall spec label, env (SpawnWorker spec label) = Ok tt) ->
  let '(asked, s', outcome) := run env m (promote_request sha256 to_vec effective_uid (Ok target) command_id draw) s in
  outcome = refused command_id "record_limit" /\ mg_records s' = mg_records s /\ RequestExit (pt_process_id target) ∈ asked
  /\ exists spec, SpawnWorker spec (workspace_label (pt_workspace_path target)) ∈ asked.
Proof.
  intros Hfull Hnone Hv Habs Hdir Hexit Hspawn. unfold promote_request, promotion_preflight, managed_promote, placed, contended. rewrite Habs, Hv.
  rewrite !run_bind. cbn [run ask mret prog_ret]. rewrite Hdir. cbn [run ask mret prog_ret]. rewrite run_bind. cbn [run ask mret prog_ret]. rewrite Hexit.
  rewrite run_once by done. rewrite run_bind. cbn [run ask]. rewrite Hdir. cbn [negb]. rewrite run_bind. cbn [run mret prog_ret].
  pose proof (full_start env m sha256 to_vec effective_uid (pt_workspace_path target) (workspace_label (pt_workspace_path target)) None command_id true draw s Hfull Hspawn) as H.
  destruct (run env m (start_in_workspace_resuming _ _ _ _ _ _ _ _ _) s) as [[asked s'] o]. destruct H as (-> & -> & (spec & Hid & Hin) & Hno).
  split_and!; [done|done| |].
  - apply elem_of_app. right. by left.
  - exists spec. apply elem_of_app. right. right. by right.
Qed.

(** A sweep acts on a list it took before it stopped anything. A session released meanwhile is marked as held by
    another program although the terminal is Ciao's own: its row is not one a phone accepts, and it can no longer
    be resumed. *)
Lemma released_then_swept recent_prompt now session r :
  mr_stored_reason r = Some "released" -> mr_handback_session r = Some session ->
  AgentSessionDescriptor_validate (stored_descriptor recent_prompt (marked_external now r) [session]) <> Ok tt
  /\ forall foreign launched, resume_spec foreign launched (Some (phase_of (marked_external now r)))
      = (Some (phase_of (marked_external now r)), Err "externally_owned").
Proof.
  intros Hr Hh. split; [|done]. unfold AgentSessionDescriptor_validate, stored_descriptor. cbn [marked_external bumped mr_handback_session mr_stored_reason].
  rewrite Hh. rewrite bool_decide_eq_true_2 by (by left). intros Hv. repeat (apply rbind_ok in Hv as (?u & ? & Hv)). cbn in *. discriminate.
Qed.

(** A takeover that has been carried out and is asked for again is refused, its receipt notwithstanding: the
    daemon looks for the terminal, which has ended, before it looks for the receipt. *)
Lemma takeover_not_repeated env m sha256 to_vec effective_uid reason command_id draw s :
  run env m (promote_request sha256 to_vec effective_uid (Err reason) command_id draw) s = ([], s, refused command_id reason).
Proof. done. Qed.
