(* ===== verification/ProviderWitnesses.v ===== *)
(** The properties of multiplexers at concrete inputs where their hypotheses hold. *)
From S2P Require Import Prelude Text HostProtocol HostRpc Output Providers ProvidersSpec.

Local Open Scope string_scope.
Local Open Scope N_scope.

Definition two_sessions : list Listed := [mkListed "my_api" 2 3 1700000000; mkListed "web-1" 0 1 1700000100].

Lemma tmux_list_reads_back_witness : parse_tmux_list (printed Replaced two_sessions) = (entry_of <$> two_sessions, 0).
Proof. apply (tmux_list_reads_back Replaced two_sessions). repeat constructor; by vm_compute. Defined.

Example replaced_line : printed_line Replaced (mkListed "my_api" 2 3 17) = "my_api_2_3_17".
Proof. by vm_compute. Qed.

(** A host with a tmux that lists one session, with two windows. *)
Definition line_end : string := String (ascii_of_N 10) "".
Definition answering (c : Call) : Reply c :=
  match c with
  | Exec _ args =>
      Ended [if bool_decide (args = ["-V"]) then "tmux 3.6a" +:+ line_end
             else if bool_decide (head args = Some "list-sessions") then "api_1_2_1700000000" +:+ line_end
             else if bool_decide (head args = Some "list-windows") then "@0 1 0 api vim" +:+ line_end +:+ "@3 0 1 api my logs" +:+ line_end
             else ""] [] (Some true)
  | _ => tt
  end.

Definition only_tmux (path : string) : bool := path =s? "/usr/bin/tmux".
Definition no_json (text : string) : option Value := None.

Example one_session_listed :
  ps_sessions (wr_tmux (performs answering (capture_snapshot no_json only_tmux (for_home false true "/home/u") (Some []) true true)).2)
  = Some [mkTmuxSessionEntry "api" true 2 1700000000
            (Some [mkSessionTabEntry "@0" "vim" true None None None None; mkSessionTabEntry "@3" "my logs" false None None None None])].
Proof. by vm_compute. Qed.

Lemma runs_only_validated_witness :
  Forall (call_ok only_tmux) (performs answering (operation no_json only_tmux (for_home false true "/home/u") (OpEnsure "/usr/bin/tmux" "api" (Some "/home/u")))).1.
Proof.
  destruct (runs_only_validated no_json only_tmux (for_home false true "/home/u") answering (OpEnsure "/usr/bin/tmux" "api" (Some "/home/u"))) as [H _];
    [|exact H]. split; [by vm_compute|]. by intros h [= <-].
Defined.

Example versions :
  version_meets_minimum ProviderTmux "next-3.4" = true /\ version_meets_minimum ProviderTmux "2.9a" = false
  /\ version_meets_minimum ProviderHerdr "0.9.0-rc.1" = true /\ version_meets_minimum ProviderHerdr "0.6.9" = false.
Proof. by vm_compute. Qed.

(** A document of herdr, as JSON: a session that runs, and one whose name the protocol refuses. *)
Example herdr_sessions_listed :
  parse_herdr_list (fun _ => Some (Object [("sessions", Array [Object [("name", Str "main"); ("running", Bool true); ("path", Str "/tmp")];
                                                             Object [("name", Str "a b")]])])) "{}"
  = Some ([mkHerdrSessionEntry "main" true false None], 1).
Proof. by vm_compute. Qed.

(** A conversation's id may look like an option of the program that resumes it. *)
Lemma dashed_conversation_resumed :
  handback_argv (mkHandbackRequest "ciao-p-1" "/w/p" "/usr/bin" "/usr/bin/claude" "--dangerously-skip-permissions")
  = Some [TMUX_FORCE_UTF8; "new-session"; "-d"; "-s"; "ciao-p-1"; "-c"; "/w/p"; HANDBACK_ENV_BINARY; "PATH=/usr/bin"; "/usr/bin/claude";
          "--resume"; "--dangerously-skip-permissions"].
Proof. by vm_compute. Qed.
