(* ===== verification/HookWitnesses.v ===== *)
(** The properties of Claude's hooks and history at concrete inputs where their hypotheses hold. *)
From S2P Require Import Prelude Text Protocol Metadata Reconcile Timeline Registration UploadNames Output HookCommon AgentAdapter ClaudeHook HookSpec ClaudeHookSpec ClaudeHistory.
From S2P Require Import ClaudeHistorySpec ClaudeMapperSpec ClaudeStreamSpec.

Local Open Scope string_scope.
Local Open Scope N_scope.

(** ** A wire that knows one registration and one turn's frames *)

#[export] Instance WireTimelineEntry_eq_dec : EqDecision WireTimelineEntry.
Proof. solve_decision. Defined.
#[export] Instance WireTextDelta_eq_dec : EqDecision WireTextDelta.
Proof. solve_decision. Defined.
#[export] Instance AttachedHookRegister_eq_dec : EqDecision AttachedHookRegister.
Proof. solve_decision. Defined.
#[export] Instance ClaudeHookEventFrame_eq_dec : EqDecision ClaudeHookEventFrame.
Proof. solve_decision. Defined.

Definition zero_digest (_ : list N) : list N := replicate 32 0.

Lemma zero_digest_law : sha256_bytes zero_digest.
Proof. intros m. split; [done|]. by apply Forall_replicate. Qed.

Definition seen_facts : HookRuntimeFacts := mkHookRuntimeFacts 4242 "nonce-1" "2.1.222" "session-1".

Definition prompt_input : Value :=
  Object [("session_id", Str "session-1"); ("cwd", Str "/home/u/app"); ("hook_event_name", Str "UserPromptSubmit");
          ("prompt", Str "fix the parser"); ("prompt_id", Str "p1")].

Definition prompt_register : AttachedHookRegister :=
  mkAttachedHookRegister 1 "register" "claude" "2.1.222" "tui_hook" "session-1" "nonce-1" 4242 "app" "/home/u/app" None.
Definition prompt_digest : string := opaque_digest zero_digest "prompt" "p1".
Definition prompt_turn : TurnState := Running (run_id zero_digest "p1") "responding".
Definition prompt_entry : WireTimelineEntry :=
  mkWireTimelineEntry prompt_digest 1 1700000000 "complete" "user_message" (Protocol.Text "fix the parser") no_truncation.
Definition prompt_dispatch : HookDispatch := mkHookDispatch prompt_register (HookUpsertEntry 1 prompt_entry) (Some prompt_turn).

Definition no_text (v : Value) : option string := None.

Lemma prompt_mapped : map_hook_input zero_digest no_text 1700000000 prompt_input seen_facts = Ok (Some prompt_dispatch).
Proof. by vm_compute. Qed.

(** Over the bound of a frame: what stands for everything the wire does not know. *)
Definition over_long : string := String.string_of_list_ascii (replicate (N.to_nat (MAX_BRIDGE_FRAME_BYTES + 1)) "x"%char).

Lemma over_long_over : ~ slen over_long <= MAX_BRIDGE_FRAME_BYTES.
Proof.
  assert (forall n, slen (String.string_of_list_ascii (replicate n "x"%char)) = N.of_nat n) as Hlen.
  { intros n. unfold slen. f_equal. induction n as [|n IH]; [done|]. cbn [replicate String.string_of_list_ascii String.length]. by f_equal. }
  unfold over_long. rewrite Hlen, N2Nat.id. lia.
Qed.

Definition typed (token : string) : Value := Object [("type", Str token)].
Definition known_bodies (body : string) : result AgentProtocolError Value :=
  if one_of body ["register"; "upsert_entry"; "turn"] then Ok (typed body) else Err MalformedJson.

#[export] Instance known_shapes : HookShapes := {|
  unit_of _ := None;
  entry_of _ := Some (mkFrame 1 "upsert_entry" prompt_entry);
  delta_of _ := None;
  kind_of _ := None;
  turn_of _ := Some (mkFrame 1 "turn" prompt_turn) |}.

Definition known_register (_ : Value) : option AttachedHookRegister := Some prompt_register.
Definition known_heartbeat (_ : Value) : option (Frame (option string * bool)) := None.

#[export, program] Instance known_wire : HookWire known_bodies known_register known_heartbeat := {|
  register_body register := if bool_decide (register = prompt_register) then "register" else over_long;
  event_body event :=
    if bool_decide (event = HookUpsertEntry 1 prompt_entry) then "upsert_entry"
    else if bool_decide (event = HookTurn 1 prompt_turn) then "turn" else over_long |}.
Next Obligation. intros register. cbv beta. case_bool_decide as Hr; [subst|by intros ?%over_long_over]. intros _. by exists (typed "register"). Qed.
Next Obligation.
  intros event. cbv beta. case_bool_decide as He; [subst; intros _; by exists (typed "upsert_entry")|].
  case_bool_decide as Ht; [subst; intros _; by exists (typed "turn")|by intros ?%over_long_over].
Qed.

(** A prompt is shown as the user's message, and the turn it opens as running. *)
Lemma hook_events_accepted_witness :
  exists read, decode_event known_bodies known_register known_heartbeat (event_body (hd_event prompt_dispatch)) = Ok read
    /\ read_as (hd_event prompt_dispatch) = Ok read.
Proof.
  destruct (hook_events_accepted zero_digest zero_digest_law no_text 1700000000 ltac:(lia) prompt_input seen_facts prompt_dispatch 4242)
    as [_ H]; [by vm_compute| |exact prompt_mapped|].
  - intros cwd [= <-]. vm_compute. repeat constructor.
  - apply (H (hd_event prompt_dispatch)); [by left|]. by vm_compute.
Defined.

(** ** Previews *)

(** One field of text, in a document this short. *)
Definition one_field (v : Value) : option string :=
  match v with Object [("content", Str text)] => Some (text +:+ "$") | _ => None end.

Example preview_cut : bounded_preview one_field (Some (Object [("content", Str "short")])) 3 = (None, true).
Proof. by vm_compute. Qed.

Example preview_whole : bounded_preview one_field (Some (Object [("content", Str "short")])) 6 = (Some "short$", false).
Proof. by vm_compute. Qed.

(** ** Instants *)

Lemma instants_read_back_witness : rfc3339_seconds (format_rfc3339_utc 1709210096789000000) = Some 1709210096.
Proof. exact (instants_read_back 1709210096789000000 ltac:(by vm_compute)). Defined.

Example leap_day : rfc3339_seconds "2024-02-29T14:34:56.789+02:00" = Some 1709210096.
Proof. by vm_compute. Qed.

Example not_instants :
  rfc3339_seconds "2024-02-29T12:34:56" = None /\ rfc3339_seconds "2024-13-01T00:00:00Z" = None /\ rfc3339_seconds "1969-12-31T23:59:59Z" = None.
Proof. by vm_compute. Qed.

(** ** A transcript *)

Definition user_record : Value :=
  Object [("type", Str "user"); ("uuid", Str "u1"); ("promptId", Str "p1"); ("timestamp", Str "2024-02-29T12:34:56Z");
          ("message", Object [("content", Str "fix the parser")])].
Definition reply_record (uuid text : string) : Value :=
  Object [("type", Str "assistant"); ("uuid", Str uuid); ("timestamp", Str "2024-02-29T12:35:00Z");
          ("message", Object [("id", Str "m1"); ("content", Array [Object [("type", Str "text"); ("text", Str text)]])])].
Definition call_record : Value :=
  Object [("type", Str "assistant"); ("uuid", Str "a3"); ("timestamp", Str "2024-02-29T12:36:00Z");
          ("message", Object [("id", Str "m2"); ("content", Array [Object [("type", Str "tool_use"); ("id", Str "t1"); ("name", Str "Bash")]])])].

(** The lines a reader of JSON knows. *)
Definition known_json (line : string) : option Value :=
  if line =s? "user" then Some user_record
  else if line =s? "long" then Some (reply_record "a1" "a long first reply")
  else if line =s? "short" then Some (reply_record "a2" "done")
  else if line =s? "call" then Some call_record
  else None.

(** As long as its text. *)
Definition text_size (entry : WireTimelineEntry) : option string := match we_body entry with Protocol.Text text => Some text | _ => Some "{}" end.
Definition no_clock (_ : N) : N := 1700000000.

Definition end_of_line : string := String newline "".
Definition transcript_reads : list (result unit string) :=
  [Ok ("user" +:+ end_of_line +:+ "lo"); Ok ("ng" +:+ end_of_line); Ok ("short" +:+ end_of_line +:+ "not json" +:+ end_of_line +:+ "ca"); Ok "ll"].

Lemma transcript_delivered : delivered transcript_reads.
Proof. by repeat constructor. Qed.

Lemma lines_whole_witness :
  read_lines no_text known_json text_size zero_digest no_clock AttachedScheme (unread transcript_reads) None transcript_reads HistoryMapper_new
  = take_lines no_text known_json text_size zero_digest no_clock AttachedScheme None
      [LineRecord "user" true; LineRecord "long" true; LineRecord "short" true; LineRecord "not json" true; LineRecord "call" false] HistoryMapper_new.
Proof. exact (lines_whole no_text known_json text_size zero_digest no_clock AttachedScheme None transcript_reads HistoryMapper_new transcript_delivered). Defined.

Definition transcript_file : TranscriptFile := mkTranscriptFile true 34 None (fun start => if start =? 0 then Some transcript_reads else None).

Definition texts (history : TranscriptHistory) : list (string * string) :=
  (fun entry => (ne_kind entry, match ne_body entry with Protocol.Text text => text | Tool tool => tb_name tool +:+ " " +:+ tb_status tool | _ => "" end))
    <$> th_entries history.

(** A reply is replaced by the record that follows it, here a shorter one; a call without a result is not running. *)
Example transcript_read :
  (fun '(history, noted) => (texts history, th_complete history, noted))
    <$> read_history no_text known_json text_size zero_digest no_clock AttachedScheme (Some transcript_file) BACKFILL_READ_BYTES
  = Some ([("user_message", "fix the parser"); ("assistant_message", "done"); ("tool", "Bash unknown")], true, [("invalid", "record")]).
Proof. by vm_compute. Qed.

Lemma history_rows_accepted_witness :
  exists history noted rows,
    read_history no_text known_json text_size zero_digest no_clock AttachedScheme (Some transcript_file) BACKFILL_READ_BYTES = Some (history, noted)
    /\ th_entries history = settle <$> rows
    /\ Forall (fun entry => NormalizedTimelineEntry_validate entry = Ok tt /\ is_running_tool entry = false) (th_entries history)
    /\ NoDup (ne_source_id <$> th_entries history)
    /\ len (th_entries history) <= MAX_HISTORY_ENTRIES /\ foldr N.add 0 (entry_bytes text_size <$> rows) <= MAX_HISTORY_BYTES
    /\ (BACKFILL_READ_BYTES < tf_length transcript_file -> th_complete history = false).
Proof.
  exact (history_rows_accepted no_text known_json text_size zero_digest no_clock AttachedScheme zero_digest_law transcript_file BACKFILL_READ_BYTES
           transcript_reads eq_refl eq_refl transcript_delivered).
Defined.

Lemma newest_end_kept_witness :
  exists whole bounded noted,
    map_lines no_text known_json text_size zero_digest no_clock AttachedScheme None [LineRecord "user" true; LineOversized; LineRecord "short" true]
      keep_all (set_truncated false HistoryMapper_new) = Some (whole, noted)
    /\ take_lines no_text known_json text_size zero_digest no_clock AttachedScheme None [LineRecord "user" true; LineOversized; LineRecord "short" true]
         (set_truncated false HistoryMapper_new) = Some (bounded, noted)
    /\ th_turn_prompts (finish bounded) = th_turn_prompts (finish whole)
    /\ exists k, th_entries (finish bounded) = drop k (th_entries (finish whole)) /\ (th_complete (finish bounded) = true -> k = 0%nat).
Proof.
  exact (newest_end_kept no_text known_json text_size zero_digest no_clock AttachedScheme None zero_digest_law
           [LineRecord "user" true; LineOversized; LineRecord "short" true] false).
Defined.

(** Bounding while reading is not bounding at the end: a reply that is later replaced by a shorter one can have
    pushed out rows that the finished conversation has room for. *)
Definition past_25_bytes (m : HistoryMapper) : bool := 25 <? hm_bytes m.

Example bounded_early :
  (fun '(m, _) => texts (finish m)) <$>
    map_lines no_text known_json text_size zero_digest no_clock AttachedScheme None
      [LineRecord "user" true; LineRecord "long" true; LineRecord "short" true] past_25_bytes HistoryMapper_new
  = Some [("assistant_message", "done")]
  /\ (fun '(m, _) => (texts (finish m), past_25_bytes m)) <$>
    map_lines no_text known_json text_size zero_digest no_clock AttachedScheme None
      [LineRecord "user" true; LineRecord "long" true; LineRecord "short" true] keep_all HistoryMapper_new
  = Some ([("user_message", "fix the parser"); ("assistant_message", "done")], false).
Proof. by vm_compute. Qed.
