(* ===== verification/CodexWitnesses.v ===== *)
(** The properties of Codex's hooks and threads, and of Claude's transcripts, at concrete inputs where their
    hypotheses hold. *)
From S2P Require Import Prelude Text Protocol Metadata Reconcile Timeline Registration Output HookCommon AgentAdapter HookSpec HookWitnesses.
From S2P Require Import CodexHook CodexHookSpec CodexHistory CodexHistorySpec ClaudeTranscript.

Local Open Scope string_scope.
Local Open Scope N_scope.

(** ** A wire that knows one registration and one turn's frames *)

#[export] Instance CodexHookEventFrame_eq_dec : EqDecision CodexHookEventFrame.
Proof. solve_decision. Defined.

Definition codex_facts : HookRuntimeFacts := mkHookRuntimeFacts 4242 "nonce-1" "0.166.0".

Definition codex_prompt_input : Value :=
  Object [("session_id", Str "thread-1"); ("cwd", Str "/home/u/app"); ("hook_event_name", Str "UserPromptSubmit");
          ("prompt", Str "fix the parser"); ("turn_id", Str "t1")].

Definition codex_register : AttachedHookRegister :=
  mkAttachedHookRegister 1 "register" "codex" "0.166.0" "tui_hook" "thread-1" "nonce-1" 4242 "app" "/home/u/app" None.
Definition codex_entry : WireTimelineEntry :=
  mkWireTimelineEntry (prompt_source_id zero_digest "t1") 1 1700000000 "complete" "user_message" (Protocol.Text "fix the parser") no_truncation.
Definition codex_turn : TurnState := running zero_digest "t1".
Definition codex_dispatch : HookDispatch := mkHookDispatch codex_register (CodexUpsertEntry 1 codex_entry) (Some codex_turn).

Definition never_carried (version : string) : bool := false.

Lemma codex_prompt_mapped :
  map_hook_input zero_digest no_text 1700000000 never_carried None codex_prompt_input codex_facts = Ok (Some codex_dispatch, []).
Proof. by vm_compute. Qed.

#[local] Instance codex_shapes : HookShapes := {|
  unit_of _ := None;
  entry_of _ := Some (mkFrame 1 "upsert_entry" codex_entry);
  delta_of _ := None;
  kind_of _ := None;
  turn_of _ := Some (mkFrame 1 "turn" codex_turn) |}.

Definition codex_register_of (_ : Value) : option AttachedHookRegister := Some codex_register.
Definition no_reset (_ : Value) : option (Frame bool) := None.

#[local, program] Instance codex_wire : @CodexWire codex_shapes known_bodies codex_register_of no_reset := {|
  codex_register_body register := if bool_decide (register = codex_register) then "register" else over_long;
  codex_event_body event :=
    if bool_decide (event = CodexUpsertEntry 1 codex_entry) then "upsert_entry"
    else if bool_decide (event = CodexTurn 1 codex_turn) then "turn" else over_long |}.
Next Obligation. intros register. cbv beta. case_bool_decide as Hr; [subst|by intros ?%over_long_over]. intros _. by exists (typed "register"). Qed.
Next Obligation.
  intros event. cbv beta. case_bool_decide as He; [subst; intros _; by exists (typed "upsert_entry")|].
  case_bool_decide as Ht; [subst; intros _; by exists (typed "turn")|by intros ?%over_long_over].
Qed.

Lemma codex_events_accepted_witness :
  exists read, @decode_event codex_shapes known_bodies codex_register_of no_reset (codex_event_body (cd_event codex_dispatch)) = Ok read
    /\ codex_read_as (cd_event codex_dispatch) = Ok read.
Proof.
  destruct (codex_events_accepted zero_digest zero_digest_law no_text 1700000000 ltac:(lia) never_carried None codex_prompt_input codex_facts
              codex_dispatch [] 4242) as [_ H]; [by vm_compute| |exact codex_prompt_mapped|].
  - intros cwd [= <-]. vm_compute. repeat constructor.
  - apply (H (cd_event codex_dispatch)); [by left|]. by vm_compute.
Defined.

Example unknown_event_noted :
  map_hook_input zero_digest no_text 1700000000 never_carried (Some ["stop"; "interrupt"])
    (Object [("session_id", Str "thread-1"); ("cwd", Str "/home/u/app"); ("hook_event_name", Str "Snooze")]) codex_facts
  = Ok (None, [("hook_event", "unknown_event", "Snooze")]).
Proof. by vm_compute. Qed.

(** The payload of a turn that ends without an answer is refused, and the turn stays open. *)
Example stop_without_answer :
  map_hook_input zero_digest no_text 1700000000 never_carried None
    (Object [("session_id", Str "thread-1"); ("cwd", Str "/home/u/app"); ("hook_event_name", Str "Stop"); ("turn_id", Str "t1");
             ("last_assistant_message", Null)]) codex_facts
  = Err "hook string field is missing".
Proof. by vm_compute. Qed.

(** ** Processes *)

Example roles :
  (process_role ["/usr/bin/codex"; "-c"; "app-server"; "--model=exec"]).1 = RoleTui
  /\ (process_role ["codex"; "--profile"; "work"; "app-server"; "--listen"]).1 = RoleLocalAppServer
  /\ (process_role ["codex"; "tell me about"; "app-server"]).1 = RoleUnknown
  /\ (process_role ["codex"; "resume"; "app-server"]).1 = RoleTui
  /\ process_role ["codex"; "-zsecret"] = (RoleUnknown, Some "-z")
  /\ (process_role ["node"; "app-server"]).1 = RoleUnknown.
Proof. by vm_compute. Qed.

(** ** A thread *)

Definition sample_thread : Value :=
  Object [("thread", Object [("turns", Array
    [Object [("id", Str "t0"); ("startedAt", Number (PosInt 1700000000));
             ("items", Array [Object [("type", Str "userMessage"); ("id", Str "item-1"); ("content", Array [Object [("text", Str "hello")]])];
                              Object [("type", Str "reasoning"); ("id", Str "item-2")];
                              Object [("type", Str "agentMessage"); ("id", Str "item-3"); ("text", Str "hi")]])];
     Object [("id", Str "t1"); ("items", Array [Object [("type", Str "userMessage"); ("content", Array [])]])]])])].

(** Two runs apart, by the length of what is hashed. *)
Definition length_digest (m : list N) : list N := replicate 32 (N.of_nat (length m) mod 256).

Lemma length_digest_law : sha256_bytes length_digest.
Proof. intros m. split; [done|]. apply Forall_replicate. by apply N.mod_lt. Qed.

Definition live_run : string := codex_run_id length_digest "other".

Example thread_rows :
  (fun entry => (ne_kind entry, match ne_body entry with Protocol.Text text => text | _ => "" end))
    <$> tr_entries (map_thread_history length_digest no_text None sample_thread live_run).1
  = [("user_message", "hello"); ("unsupported", ""); ("assistant_message", "hi"); ("user_message", "")].
Proof. by vm_compute. Qed.

Lemma thread_read_whole_witness :
  exists history noted rows,
    map_thread_history length_digest no_text None sample_thread live_run = (history, noted)
    /\ tr_entries history = drop (length rows - MAX_HISTORY_ENTRIES) rows /\ length rows = 4%nat
    /\ exists keys, ne_source_id <$> rows = source_named length_digest <$> keys /\ NoDup keys.
Proof.
  destruct (thread_read_whole length_digest length_digest_law no_text None sample_thread live_run)
    as (history & noted & rows & Hmap & Hrows & Hentries & _ & _ & Hnamed & Hapart).
  exists history, noted, rows. split_and!; [exact Hmap|exact Hentries| |eexists; split; [exact Hnamed|exact Hapart]]. apply Forall2_length in Hrows. rewrite <- Hrows. by vm_compute.
Defined.

(** ** Rollouts *)

Example rollout_names_thread :
  rollout_thread_id "/home/u/.codex/sessions/2026/09/24/rollout-2026-09-24T10-00-00-0199a8f2-7c3e-7d41-9b2a-5e6f7a8b9c0d.jsonl"
  = Some "0199a8f2-7c3e-7d41-9b2a-5e6f7a8b9c0d"
  /\ rollout_home "/home/u/.codex/sessions/2026/09/24/rollout-2026-09-24T10-00-00-0199a8f2-7c3e-7d41-9b2a-5e6f7a8b9c0d.jsonl"
       "0199a8f2-7c3e-7d41-9b2a-5e6f7a8b9c0d" = Some ["home"; "u"; ".codex"]
  /\ rollout_thread_id "/home/u/.codex/sessions/rollout-0199.jsonl" = None.
Proof. by vm_compute. Qed.

(** ** A transcript's tail *)

Definition prompt_record (text : string) : Value :=
  Object [("type", Str "user"); ("promptSource", Str "typed"); ("permissionMode", Str "plan"); ("message", Object [("content", Str text)])].
Definition prompt_json (line : string) : option Value :=
  if line =s? "one" then Some (prompt_record "first") else if line =s? "two" then Some (prompt_record "second") else None.

Definition newline_text : string := String line_feed "".
Definition kept_file : string := "one" +:+ String line_feed ("two" +:+ newline_text).
Definition project_dirs (directory : string) : option (list string) := if directory =s? "/home/u/.claude/projects" then Some ["app"] else None.
Definition the_file (path : string) : bool := path =s? "/home/u/.claude/projects/app/s1.jsonl".
Definition the_contents (path : string) : option string := if the_file path then Some kept_file else None.

Lemma tail_speaks_for_file_witness :
  recent_prompt None (Some "/home/u") project_dirs the_file the_contents prompt_json "s1" 64 = Some "second"
  /\ recent_prompt None (Some "/home/u") project_dirs the_file the_contents prompt_json "s1" 64
     = (newest_of prompt_json (fun entry => (human_prompt entry, [])) (from_utf8_lossy kept_file)).1 ≫= fun prompt => first_line_bounded prompt 64.
Proof.
  destruct (tail_speaks_for_file None (Some "/home/u") project_dirs the_file the_contents prompt_json "s1" "/home/u/.claude/projects/app/s1.jsonl" "one"
              ("two" +:+ newline_text) 64) as [H _]; [by vm_compute|by vm_compute|by vm_compute|].
  assert (recent_prompt None (Some "/home/u") project_dirs the_file the_contents prompt_json "s1" 64
          = (newest_of prompt_json (fun entry => (human_prompt entry, [])) (from_utf8_lossy kept_file)).1 ≫= fun prompt => first_line_bounded prompt 64) as Hp
    by (apply H; by vm_compute).
  split; [rewrite Hp; by vm_compute|exact Hp].
Defined.

(** The first line is read like any other where the file is short. *)
Example first_line_read :
  recent_prompt None (Some "/home/u") project_dirs the_file (fun path => if the_file path then Some "one" else None) prompt_json "s1" 64 = Some "first".
Proof. by vm_compute. Qed.
